(* ===== verification/_CoqProject ===== *)
-Q . S2P
Prelude.v
Cutils.v
DynBufSpec.v
CutilsSpec.v
Utf8Spec.v
Rqsort.v
RqsortSpec.v
Exchange.v
CharRange.v
CharRangeSpec.v
UnicodeTables.v
UnicodeCase.v
UnicodeNorm.v
UnicodeProp.v
UnicodeTableSpec.v
UnicodePropSpec.v
UnicodeGcSpec.v
UnicodeCaseSpec.v
UnicodeOpsSpec.v
SortCcSpec.v
UnicodeNormSpec.v
LreExec.v
LreExecSpec.v
LreMachineSpec.v
LreWf.v
LreRunSpec.v
ListHead.v
GcObjects.v
Gc.v
GcSpec.v
Atoms.v
AtomsSpec.v
AtomOpsSpec.v
StringSpec.v
Strings.v
StringBufSpec.v
StringsSpec.v
Opcodes.v
Values.v
FloatSpec.v
Numbers.v
NumbersSpec.v
InterpBase.v
InterpOps.v
InterpOps2.v
InterpOps3.v
StackSize.v
StackSizeSpec.v
InterpWp.v
InterpSpec.v
InterpInsn.v
InterpRun.v
InterpArithSpec.v
MapSet.v
MapKeySpec.v
MapRel.v
MapStSpec.v
MapOpSpec.v
MapSpec.v
MapIterSpec.v
MapRefineSpec.v
Shapes.v
Arrays.v
ShapeTableSpec.v
ShapeHashSpec.v
ShapeLifeSpec.v
ShapeMakeSpec.v
ShapeRel.v
ShapeOpSpec.v
ShapeAddSpec.v
ShapePropSpec.v
ShapeDelSpec.v
ShapeDeleteSpec.v
ShapeNewSpec.v
ShapeArraySpec.v
ShapeRefineSpec.v
ObjectsSpec.v
