(* ===== verification/Prelude.v ===== *)
(** * QuickJS-Swift: a verification library for the C core

    The repository wraps QuickJS, a JavaScript engine in C, for Swift.  This
    library models the engine's own code, the C files of
    [src/Sources/QuickJSC/] and their headers in [include/], as Rocq
    functions, and proves what they promise.  The configuration is the one of
    the package: [CONFIG_ALL_UNICODE] and [SHORT_OPCODES] defined,
    [CONFIG_BIGNUM] not, 64-bit targets without NaN boxing.

    ** How C is modelled

    A C computation is a value of [res]: a result, undefined behaviour
    ([Ub], which a failed [assert] also gives) or no fuel left
    ([OutOfFuel]).  Loops are [loop] with fuel, whose bound is part of each
    definition and proved to be enough, or counted loops.  [wp e Q] says that
    [e] returns, and returns a [Q]: every theorem in this form contains
    termination and the absence of undefined behaviour.  Integers are [Z]
    with their wrap-around written out ([u8] to [u64], [i32]); an array is a
    list read and written through [rd] and [wr], which are undefined outside
    it.  Pointers into one block are indexes; structures that are shared live
    in finite maps from addresses, 0 being [NULL].  Doubles are [spec_float].
    The allocator, the callbacks and the parts of the engine that a component
    calls but that are not modelled are type classes with their documented
    laws ([Allocator], [JSMalloc], [LreRealloc], [JSArrayMalloc], [Runtime],
    [NumEngine], [MapEngine], [ShapeEngine], [StringEngine]); the allocation may fail at every
    call.  The witnesses instantiate the classes.

    ** The parts, the files, and what is shown

    - [cutils.c], [cutils.h] in [Cutils], [Rqsort], [Exchange].  [DynBufSpec]:
      each buffer operation has its effect on the contents or fails with the
      error flag, and the flag is sticky.  [CutilsSpec], [Utf8Spec]: the string
      helpers, and the UTF-8 codec as a bijection between code points and
      canonical encodings.  [RqsortSpec]: the sort terminates in bounds for any
      callback, permutes, and sorts for a total preorder.
    - [libunicode.c] and [libunicode-table.h] in [UnicodeTables] (the tables
      themselves), [CharRange], [UnicodeCase], [UnicodeNorm], [UnicodeProp].
      Ranges of characters are sets; indexed tables agree with the scan of the
      whole table; the programs of properties compute Boolean combinations;
      normalization is the canonical ordering and composition of the full
      decomposition ([CharRangeSpec], [UnicodeTableSpec], [UnicodePropSpec],
      [UnicodeGcSpec], [UnicodeCaseSpec], [UnicodeOpsSpec], [SortCcSpec],
      [UnicodeNormSpec]).
    - [libregexp.c], the executor, in [LreExec]: [lre_exec_backtrack] as a
      machine with its stack of saved states.  [LreExecSpec] gives the opcodes
      a meaning as a search with alternatives in order; [LreMachineSpec],
      [LreWf] and [LreRunSpec] prove that the loop gives its first match and
      ends when the search ends.
    - [list.h] in [ListHead]: the links refine sequences.
    - [quickjs.c], the cycle collector, in [GcObjects] and [Gc]: [GcSpec]
      proves that the trial deletion keeps exactly what is reachable from
      outside and restores the counts.
    - [quickjs.c], atoms, in [Atoms]: [AtomsSpec] and [AtomOpsSpec] refine the
      intern table by a finite map; [StringSpec] is about the comparison of
      strings and the numeric strings.
    - Construction of strings in [Strings]: string buffers, UTF-8, substrings,
      concatenation, on the structures of [Atoms].  [StringBufSpec]: a buffer
      refines the sequence of the characters that were appended, whatever its
      width and its moves.  [StringsSpec]: what [JS_NewStringLen] reads in any
      bytes, the round trip through UTF-8 and CESU-8, the references and the
      characters after a concatenation, and an interned string that a
      concatenation in place changes.
    - [quickjs.h] and [quickjs.c], values and numbers, in [Values], [Numbers]:
      [FloatSpec] has the facts on binary64, [NumbersSpec] shows that the
      conversions are those of ECMAScript and where the C code overflows.
    - [quickjs-opcode.h] and [compute_stack_size] in [Opcodes], [StackSize]:
      [StackSizeSpec] proves that the exploration accepts the functions whose
      paths keep within their stack, and finds the largest depth.
    - [JS_CallInternal] in [InterpBase] (the frame, and the engine as an
      interface with borrowed and owned references), [InterpOps],
      [InterpOps2], [InterpOps3] (every case of the [switch]).  [InterpWp],
      [InterpSpec], [InterpInsn], [InterpRun]: each instruction agrees with the
      table and the control-flow graph of [StackSize] and conserves references,
      so a function that [compute_stack_size] accepts runs within its code and
      its stack, exceptions included.  [InterpArithSpec]: the integer fast
      paths compute the operations on doubles.
    - Map, Set and their weak forms in [MapSet]; [MapKeySpec], [MapRel],
      [MapStSpec], [MapOpSpec], [MapSpec], [MapIterSpec],
      [MapRefineSpec]: the records, the hash table and the locks
      refine the ordered entries of the language, whatever iterators and
      callbacks do meanwhile, and the references are conserved.
    - Objects in [Shapes] (shapes, their property tables, the table of shapes
      of the runtime, properties, prototypes, creation and end of objects) and
      [Arrays] (the length of arrays, the growth of fast arrays).
      [ShapeTableSpec] makes the table of a shape a function of the sequence
      of its names; [ShapeHashSpec], [ShapeLifeSpec], [ShapeMakeSpec] are about
      the table of shapes and the counts of their users; [ShapeRel] is the
      relation with the objects of the language; [ShapeOpSpec], [ShapeAddSpec],
      [ShapePropSpec], [ShapeDelSpec], [ShapeDeleteSpec], [ShapeNewSpec],
      [ShapeArraySpec] prove the operations one by one.  [ShapeRefineSpec] and
      [ObjectsSpec] put them together: the engine refines objects with
      sequences of properties, failures of the allocator included, so that the
      sharing, the moves and the compactions are not seen; and
      [set_array_length] is shown to leave elements behind.

    The components meet in the theorems: the property tables use the
    character ranges, these the dynamic arrays and the sort; the interpreter
    is verified on what the bytecode verifier accepts; the keys of the
    collections use the comparison of strings; the strings that are built and
    the intern table share one store, where their mutations are seen.

    ** Bounds

    The fuel of a loop is a bound computed from its data: the length of an
    array, the number of live records or shapes, the number of positions of a
    bytecode.  Where a bound of the C code is needed it is a hypothesis (an
    [int] counts the locks on a record; 26 bits hold the index of a property;
    a block of a string buffer stays below 512 MiB, as a limit of the memory
    gives, since the growth by half overflows an [int] beyond).
    The executor of regular expressions and [forEach] take their fuel as an
    argument, since a pattern or a callback may run for ever; their theorems
    say that they end whenever the specification does.

    ** Not modelled

    Of objects, the methods of exotic ones are an interface, arrays are
    created on the shape of arrays, the elements of typed arrays are not
    stored, and the accesses along the prototypes with getters and setters are
    left out; the theorems about the length of arrays are for fast arrays.
    Strings are built from strings: the conversion of other values is done
    before.  The compiler of regular expressions, the parser and the bytecode compiler
    of JavaScript, the builtins other than Map and Set, modules and the
    serialization of bytecode have not been reached.  [quickjs-libc.c] is a
    layer over the operating system, whose behaviour is outside the repository; the Swift files are bindings.  The
    release of a reference is an event in a log: the destruction that it may
    start is not run inside the operation. *)

From Stdlib Require Import String Ascii.
From stdpp Require Import base tactics numbers list option sorting gmap fin_maps.
From Stdlib Require Import ZArith Lia.

#[export] Set Default Goal Selector "!".
Open Scope Z_scope.

(** ** C computations: a result, undefined behaviour, or no fuel left *)

Inductive res (A : Type) : Type :=
  | Ret (a : A)
  | Ub
  | OutOfFuel.
Arguments Ret {A} a.
Arguments Ub {A}.
Arguments OutOfFuel {A}.

Definition bind {A B} (e : res A) (k : A -> res B) : res B :=
  match e with
  | Ret a => k a
  | Ub => Ub
  | OutOfFuel => OutOfFuel
  end.

Declare Scope res_scope.
Delimit Scope res_scope with res.
Notation "'let*' p := e 'in' k" := (bind e (fun p => k))
  (at level 10, p pattern, e at level 100, k at level 200,
   format "'[v' 'let*'  p  :=  e  'in' '/' k ']'") : res_scope.
Open Scope res_scope.

(** [c_assert b]: the C [assert]; a failed assertion stops the program. *)
Definition c_assert (b : bool) : res unit := if b then Ret tt else Ub.

(** Array accesses: an index outside the block is undefined behaviour. *)
Definition rd {A} (l : list A) (i : Z) : res A :=
  if i <? 0 then Ub
  else match l !! Z.to_nat i with Some x => Ret x | None => Ub end.

Definition wr {A} (l : list A) (i : Z) (x : A) : res (list A) :=
  if (0 <=? i) && (i <? Z.of_nat (length l))
  then Ret (<[Z.to_nat i := x]> l) else Ub.

(** A C loop: the body either gives the next state ([inl]) or leaves the
    loop with a result ([inr]). *)
Fixpoint loop {S R} (fuel : nat) (body : S -> res (S + R)) (s : S) : res R :=
  match fuel with
  | O => OutOfFuel
  | Datatypes.S f =>
      let* r := body s in
      match r with
      | inl s' => loop f body s'
      | inr x => Ret x
      end
  end.

Lemma loop_S {S R} n (body : S -> res (S + R)) s :
  loop (Datatypes.S n) body s
  = let* r := body s in
    match r with inl s' => loop n body s' | inr x => Ret x end.
Proof. done. Qed.

(** [for (i = 0; i < n; i++)] with a body that never leaves early. *)
Fixpoint for_upto {S} (n : nat) (i : Z) (body : Z -> S -> res S) (s : S)
  : res S :=
  match n with
  | O => Ret s
  | Datatypes.S n' =>
      let* s' := body i s in
      for_upto n' (i + 1) body s'
  end.

(** ** Total correctness: the computation returns, and returns a [Q] *)

Definition wp {A} (e : res A) (Q : A -> Prop) : Prop :=
  match e with Ret a => Q a | _ => False end.

Lemma wp_bind {A B} (e : res A) (k : A -> res B) (Q : B -> Prop) :
  wp e (fun a => wp (k a) Q) -> wp (bind e k) Q.
Proof. by destruct e. Qed.

Section wp_rules.
Context {A : Type}.
Implicit Types (e : res A) (Q : A -> Prop).

Lemma wp_iff e Q : wp e Q <-> exists a, e = Ret a /\ Q a.
Proof.
  split.
  - destruct e as [a| |]; simpl; [eauto|done|done].
  - intros (a & -> & H). exact H.
Qed.

Lemma wp_ret a Q : Q a -> wp (Ret a) Q.
Proof. done. Qed.

Lemma wp_mono e (P Q : A -> Prop) :
  wp e P -> (forall a, P a -> Q a) -> wp e Q.
Proof. destruct e; simpl; auto. Qed.

Lemma wp_conj e (P Q : A -> Prop) :
  wp e P -> wp e Q -> wp e (fun a => P a /\ Q a).
Proof. destruct e; simpl; auto. Qed.

Lemma wp_assert (b : bool) (Q : unit -> Prop) :
  b = true -> Q tt -> wp (c_assert b) Q.
Proof. intros ->. done. Qed.

Lemma wp_rd (l : list A) i (Q : A -> Prop) :
  0 <= i < Z.of_nat (length l) ->
  (forall x, l !! Z.to_nat i = Some x -> Q x) ->
  wp (rd l i) Q.
Proof.
  intros Hi HQ. unfold rd. destruct (Z.ltb_spec i 0) as [|_]; [lia|].
  destruct (lookup_lt_is_Some_2 l (Z.to_nat i)) as [x Hx]; [lia|].
  rewrite Hx. by apply HQ.
Qed.

Lemma wp_wr (l : list A) i x (Q : list A -> Prop) :
  0 <= i < Z.of_nat (length l) ->
  Q (<[Z.to_nat i := x]> l) ->
  wp (wr l i x) Q.
Proof.
  intros Hi HQ. unfold wr.
  destruct (Z.leb_spec 0 i) as [_|]; [|lia].
  by destruct (Z.ltb_spec i (Z.of_nat (length l))) as [_|]; [|lia].
Qed.

End wp_rules.

Section wp_loops.
Context {A B : Type}.

(** The while rule: an invariant and a decreasing measure. *)
Lemma wp_loop (I : A -> Prop) (m : A -> nat) (Q : B -> Prop)
    (body : A -> res (A + B)) :
  (forall s, I s ->
    wp (body s) (fun r =>
      match r with inl s' => I s' /\ (m s' < m s)%nat | inr x => Q x end)) ->
  forall fuel s, I s -> (m s < fuel)%nat -> wp (loop fuel body s) Q.
Proof.
  intros Hbody fuel. induction fuel as [|fuel IH]; intros s Hs Hm; [lia|].
  simpl. apply wp_bind. eapply wp_mono; [by apply Hbody|].
  intros [s'|x]; simpl; [|done]. intros [Hs' Hlt]. apply IH; [done|lia].
Qed.

(** The counted-loop rule: the invariant is indexed by the counter. *)
Lemma wp_for (I : Z -> A -> Prop) (body : Z -> A -> res A) :
  forall (n : nat) i s,
    (forall j s', i <= j < i + Z.of_nat n -> I j s' ->
      wp (body j s') (I (j + 1))) ->
    I i s -> wp (for_upto n i body s) (I (i + Z.of_nat n)).
Proof.
  induction n as [|n IH]; intros i s Hb HI.
  - simpl. by rewrite Z.add_0_r.
  - simpl for_upto. apply wp_bind.
    eapply wp_mono; [apply Hb; [lia|done]|]. intros s' Hs'.
    replace (i + Z.of_nat (Datatypes.S n)) with (i + 1 + Z.of_nat n) by lia.
    apply IH; [|done]. intros j s'' Hj. apply Hb. lia.
Qed.
End wp_loops.

Lemma rd_Some {A} (l : list A) i x :
  0 <= i -> l !! Z.to_nat i = Some x -> rd l i = Ret x.
Proof.
  intros Hi H. unfold rd. destruct (Z.ltb_spec i 0); [lia|]. by rewrite H.
Qed.

Lemma rd_nat {A} (l : list A) (n : nat) x :
  l !! n = Some x -> rd l (Z.of_nat n) = Ret x.
Proof. intros H. apply rd_Some; [lia|]. by rewrite Nat2Z.id. Qed.

Lemma rd_Ret_inv {A} (l : list A) i x :
  rd l i = Ret x -> 0 <= i < Z.of_nat (length l) /\ l !! Z.to_nat i = Some x.
Proof.
  unfold rd. destruct (Z.ltb_spec i 0); [done|].
  destruct (l !! Z.to_nat i) as [y|] eqn:E; [|done]. intros [= ->].
  split; [|done]. apply lookup_lt_Some in E. lia.
Qed.

Lemma wr_in {A} (l : list A) i x :
  0 <= i < Z.of_nat (length l) -> wr l i x = Ret (<[Z.to_nat i := x]> l).
Proof.
  intros Hi. unfold wr. destruct (Z.leb_spec 0 i); [|lia].
  by destruct (Z.ltb_spec i (Z.of_nat (length l))); [|lia].
Qed.

(** ** Automation *)

Create HintDb cres.
#[export] Hint Resolve wp_ret : cres.

(** One symbolic step of a C computation. *)
Ltac wp_step :=
  match goal with
  | |- wp (bind _ _) _ => apply wp_bind
  | |- wp (Ret _) _ => apply wp_ret
  | |- wp (c_assert _) _ => apply wp_assert
  | |- wp (wr _ _ _) _ => apply wp_wr
  end.
Ltac wp_steps := repeat (wp_step; simpl).

(** Boolean integer tests to propositions. *)
Ltac zb :=
  repeat match goal with
  | H : (_ && _) = true |- _ => apply andb_prop in H; destruct H
  | H : (_ || _) = false |- _ => apply orb_false_elim in H; destruct H
  | H : negb _ = true |- _ => apply negb_true_iff in H
  | H : negb _ = false |- _ => apply negb_false_iff in H
  | H : (_ <? _) = true |- _ => apply Z.ltb_lt in H
  | H : (_ <? _) = false |- _ => apply Z.ltb_ge in H
  | H : (_ <=? _) = true |- _ => apply Z.leb_le in H
  | H : (_ <=? _) = false |- _ => apply Z.leb_gt in H
  | H : (_ =? _) = true |- _ => apply Z.eqb_eq in H
  | H : (_ =? _) = false |- _ => apply Z.eqb_neq in H
  end.

(** Split on the integer tests of the goal. *)
Ltac zcase :=
  match goal with
  | |- context [?a <? ?b] => destruct (Z.ltb_spec a b)
  | |- context [?a <=? ?b] => destruct (Z.leb_spec a b)
  | |- context [?a =? ?b] => destruct (Z.eqb_spec a b)
  end.

(** ** Machine integers *)

Definition u8 (z : Z) : Z := z mod 2 ^ 8.
Definition u16 (z : Z) : Z := z mod 2 ^ 16.
Definition u32 (z : Z) : Z := z mod 2 ^ 32.
Definition u64 (z : Z) : Z := z mod 2 ^ 64.
Definition i32 (z : Z) : Z :=
  if u32 z <? 2 ^ 31 then u32 z else u32 z - 2 ^ 32.

Definition INT32_MAX : Z := 2147483647.
Definition UINT32_MAX : Z := 4294967295.

Lemma u32_id z : 0 <= z < 2 ^ 32 -> u32 z = z.
Proof. apply Z.mod_small. Qed.
Lemma u64_id z : 0 <= z < 2 ^ 64 -> u64 z = z.
Proof. apply Z.mod_small. Qed.
Lemma u8_id z : 0 <= z < 2 ^ 8 -> u8 z = z.
Proof. apply Z.mod_small. Qed.
Lemma u8_bound z : 0 <= u8 z < 256.
Proof. apply Z.mod_pos_bound. lia. Qed.
Lemma u16_bound z : 0 <= u16 z < 65536.
Proof. apply Z.mod_pos_bound. lia. Qed.
Lemma u32_bound z : 0 <= u32 z < 2 ^ 32.
Proof. apply Z.mod_pos_bound. lia. Qed.
Lemma u64_bound z : 0 <= u64 z < 2 ^ 64.
Proof. apply Z.mod_pos_bound. lia. Qed.
Lemma i32_id z : - 2 ^ 31 <= z < 2 ^ 31 -> i32 z = z.
Proof.
  intros H. unfold i32, u32.
  destruct (Z_lt_le_dec z 0) as [Hn|Hp].
  - rewrite <- (Z_mod_plus_full z 1), Z.mod_small by lia.
    zcase; lia.
  - rewrite Z.mod_small by lia. zcase; lia.
Qed.

Create Rewrite HintDb cint.
#[export] Hint Rewrite u8_id u32_id u64_id using lia : cint.

(** ** Bit operations as arithmetic *)

Lemma lor_add_low k a b :
  0 <= k -> 0 <= a < 2 ^ k -> Z.lor (b * 2 ^ k) a = b * 2 ^ k + a.
Proof.
  intros Hk Ha. rewrite <- Z.shiftl_mul_pow2 by lia.
  symmetry. rewrite <- Z.lxor_lor.
  - apply Z.add_nocarry_lxor. apply Z.bits_inj'. intros n Hn.
    rewrite Z.land_spec, Z.bits_0.
    destruct (Z_lt_le_dec n k) as [Hlt|Hge].
    + by rewrite Z.shiftl_spec_low by lia.
    + rewrite <- (Z.mod_small a (2 ^ k)) by lia.
      rewrite Z.mod_pow2_bits_high by lia. apply andb_false_r.
  - apply Z.bits_inj'. intros n Hn. rewrite Z.land_spec, Z.bits_0.
    destruct (Z_lt_le_dec n k) as [Hlt|Hge].
    + by rewrite Z.shiftl_spec_low by lia.
    + rewrite <- (Z.mod_small a (2 ^ k)) by lia.
      rewrite Z.mod_pow2_bits_high by lia. apply andb_false_r.
Qed.

Lemma lor_add_high k a b :
  0 <= k -> 0 <= a < 2 ^ k -> Z.lor a (b * 2 ^ k) = a + b * 2 ^ k.
Proof. intros. rewrite Z.lor_comm, lor_add_low by lia. lia. Qed.

Lemma land_mod k a : 0 <= k -> Z.land a (Z.ones k) = a mod 2 ^ k.
Proof. intros. apply Z.land_ones. lia. Qed.

(** The characters of a string literal, as numbers. *)
Fixpoint c_chars (s : string) : list Z :=
  match s with
  | EmptyString => []
  | String c s => Z.of_nat (nat_of_ascii c) :: c_chars s
  end.

(** ** Blocks of memory: [memcpy], [memmove] and friends *)

(** The [n] cells from [off]; reading outside the block is undefined. *)
Definition slice {A} (l : list A) (off n : Z) : res (list A) :=
  if (0 <=? off) && (0 <=? n) && (off + n <=? Z.of_nat (length l))
  then Ret (take (Z.to_nat n) (drop (Z.to_nat off) l)) else Ub.

(** Overwrite the cells from [off] with [data]. *)
Definition blit {A} (l : list A) (off : Z) (data : list A) : res (list A) :=
  if (0 <=? off) && (off + Z.of_nat (length data) <=? Z.of_nat (length l))
  then Ret (take (Z.to_nat off) l ++ data
            ++ drop (Z.to_nat off + length data) l)
  else Ub.

(** [memmove(l + dst, l + src, n)]: the regions may overlap. *)
Definition memmove {A} (l : list A) (dst src n : Z) : res (list A) :=
  let* d := slice l src n in blit l dst d.

(** [memcpy(l + dst, l + src, n)] in one block: an overlap is undefined. *)
Definition memcpy_self {A} (l : list A) (dst src n : Z) : res (list A) :=
  if (src + n <=? dst) || (dst + n <=? src) || (n =? 0)
  then memmove l dst src n else Ub.

Lemma slice_in {A} (l : list A) off n :
  0 <= off -> 0 <= n -> off + n <= Z.of_nat (length l) ->
  slice l off n = Ret (take (Z.to_nat n) (drop (Z.to_nat off) l)).
Proof.
  intros. unfold slice. repeat (zcase; [|lia]). done.
Qed.

Lemma blit_in {A} (l : list A) off data :
  0 <= off -> off + Z.of_nat (length data) <= Z.of_nat (length l) ->
  blit l off data = Ret (take (Z.to_nat off) l ++ data
                         ++ drop (Z.to_nat off + length data) l).
Proof.
  intros. unfold blit. repeat (zcase; [|lia]). done.
Qed.

Lemma blit_length {A} (l : list A) off data l' :
  blit l off data = Ret l' -> length l' = length l.
Proof.
  unfold blit. repeat (zcase; [|done]). intros [= <-].
  rewrite !length_app, length_take, length_drop. lia.
Qed.

(** ** The allocator behind [DynBufReallocFunc]

    [realloc_func] belongs to the caller.  It threads the state that the C
    [opaque] pointer reaches, takes the cell width, the old block and the
    number of cells asked for, and gives a new block or [NULL] ([None]). *)
Class Allocator := {
  heap : Type;
  realloc_func : heap -> Z -> list Z -> Z -> heap * option (list Z)
}.

(** What [realloc] documents: the block has the size asked for and keeps the
    cells of the old one; the other cells hold anything. *)
Class AllocatorOk (al : Allocator) : Prop :=
  realloc_spec : forall h w old n h' new,
    0 <= n ->
    realloc_func h w old n = (h', Some new) ->
    Z.of_nat (length new) = n /\
    take (Nat.min (length old) (Z.to_nat n)) new
    = take (Nat.min (length old) (Z.to_nat n)) old.

(** A concrete allocator with a budget of cells, for the witnesses. *)
Definition realloc_budget (h w : Z) (old : list Z) (n : Z)
  : Z * option (list Z) :=
  if n <=? h
  then (h - n, Some (take (Z.to_nat n) old
                     ++ replicate (Z.to_nat n - length old) 0))
  else (h, None).

#[export] Instance budget_allocator : Allocator :=
  {| heap := Z; realloc_func := realloc_budget |}.

#[export] Instance budget_allocator_ok : AllocatorOk budget_allocator.
Proof.
  intros h w old n h' new Hn. simpl. unfold realloc_budget.
  zcase; [|done]. intros [= <- <-]. split.
  - rewrite length_app, length_take, length_replicate. lia.
  - rewrite take_app, take_take, length_take.
    replace (_ - _)%nat with 0%nat by lia.
    rewrite take_0, app_nil_r. f_equal. lia.
Qed.

(** ** Lists as arrays: extensional equality by the index *)

Lemma lookup_app_dec {A} (l1 l2 : list A) i :
  (l1 ++ l2) !! i
  = if decide (i < length l1)%nat then l1 !! i else l2 !! (i - length l1)%nat.
Proof.
  case_decide; [by apply lookup_app_l|apply lookup_app_r; lia].
Qed.

Ltac list_len := rewrite ?length_app, ?length_take, ?length_drop,
  ?length_insert, ?length_replicate; cbn [length].

(** Proves an equation between blocks built from [take], [drop], [++],
    [replicate] and updates, by comparing the cells. *)
Ltac list_ext_cases :=
  match goal with
  | |- context [decide ?P] =>
      first [ rewrite (decide_True (P:=P)) by lia
            | rewrite (decide_False (P:=P)) by lia
            | destruct (decide P) ]
  end.
Ltac list_ext :=
  apply list_eq; intros ?i;
  repeat first
    [ rewrite lookup_app_dec | rewrite lookup_take | rewrite lookup_drop
    | rewrite list_lookup_insert ];
  list_len; repeat list_ext_cases;
  try done; try (f_equal; lia);
  try (symmetry; apply lookup_ge_None_2; lia);
  try (apply lookup_ge_None_2; lia);
  try (rewrite lookup_ge_None_2 by lia;
       symmetry; apply lookup_ge_None_2; lia).

(** Arithmetic on the lengths of concatenations. *)
Ltac lens :=
  cbn [length] in *;
  repeat match goal with
  | H : context [length (_ ++ _)] |- _ => rewrite length_app in H
  | |- context [length (_ ++ _)] => rewrite length_app
  end; cbn [length] in *; lia.

(** [lia] with division and remainder by constants. *)
Ltac dlia := Z.div_mod_to_equations; lia.

Lemma rd_app_r {A} (l1 l2 : list A) i :
  0 <= i -> rd (l1 ++ l2) (Z.of_nat (length l1) + i) = rd l2 i.
Proof.
  intros Hi. unfold rd. do 2 (zcase; [lia|]).
  rewrite lookup_app_r by lia.
  by replace (_ - length l1)%nat with (Z.to_nat i) by lia.
Qed.

Definition byte (b : Z) : Prop := 0 <= b < 256.

(** ** Sums over a finite map *)

Section msum.
Context {V : Type} (f : V -> Z).

Definition msum (m : gmap Z V) : Z := map_fold (fun _ x acc => f x + acc) 0 m.

Lemma msum_empty : msum ∅ = 0.
Proof. apply map_fold_empty. Qed.

Lemma msum_insert m k x : m !! k = None -> msum (<[k := x]> m) = f x + msum m.
Proof. intros H. unfold msum. rewrite map_fold_insert_L; [done|intros; lia|done]. Qed.

Lemma msum_delete m k x : m !! k = Some x -> msum (delete k m) = msum m - f x.
Proof.
  intros H. assert (msum m = f x + msum (delete k m)); [|lia].
  rewrite <- (insert_delete_id m k x H) at 1. by rewrite msum_insert by apply lookup_delete_eq.
Qed.

Lemma msum_update m k x y : m !! k = Some x -> msum (<[k := y]> m) = msum m - f x + f y.
Proof.
  intros H. rewrite <- insert_delete_eq, msum_insert by apply lookup_delete_eq.
  rewrite (msum_delete m k x H). lia.
Qed.

Lemma msum_nonneg m : (forall x, 0 <= f x) -> 0 <= msum m.
Proof.
  intros H. induction m as [|k x m Hk IH] using map_ind; [by rewrite msum_empty|].
  rewrite msum_insert by done. specialize (H x). lia.
Qed.

Lemma msum_elem m k x : (forall x, 0 <= f x) -> m !! k = Some x -> f x <= msum m.
Proof.
  intros H Hk. pose proof (msum_delete m k x Hk). pose proof (msum_nonneg (delete k m) H). lia.
Qed.

Lemma msum_zero m : (forall k x, m !! k = Some x -> f x = 0) -> msum m = 0.
Proof.
  induction m as [|k x m Hk IH] using map_ind; intros H; [apply msum_empty|].
  rewrite msum_insert by done. rewrite IH, (H k x); [done|apply lookup_insert_eq|].
  intros k' x' H'. apply (H k' x'). rewrite lookup_insert_ne; [done|]. by intros ->; congruence.
Qed.

Lemma msum_ext (g : V -> Z) m : (forall k x, m !! k = Some x -> f x = g x) ->
  map_fold (fun _ x acc => g x + acc) 0 m = msum m.
Proof.
  induction m as [|k x m Hk IH] using map_ind; intros H; [by rewrite msum_empty, map_fold_empty|].
  rewrite map_fold_insert_L, msum_insert by (done || (intros; lia)).
  rewrite IH, (H k x); [done|by rewrite lookup_insert_eq|].
  intros k' x' H'. apply (H k' x'). rewrite lookup_insert_ne; [done|]. by intros ->; congruence.
Qed.
End msum.
