(* ===== verification/Cutils.v ===== *)
(** * [cutils.c] and [cutils.h]: C strings, integers in memory, dynamic
    buffers and UTF-8

    A [char *] is a block of bytes ([list Z]) with an offset.  A [DynBuf] is
    a record with the fields of the C struct; [realloc_func] and [opaque] are
    the [Allocator] of the prelude and the heap state threaded through. *)

From stdpp Require Import base tactics numbers list option.
From Stdlib Require Import ZArith Lia.
From S2P Require Import Prelude.

Open Scope Z_scope.

(** ** C strings *)

(** [strlen(s + off)]: reading past the block is undefined. *)
Definition strlen (s : list Z) (off : Z) : res Z :=
  loop (Datatypes.S (length s)) (fun n =>
    let* c := rd s (off + n) in
    if c =? 0 then Ret (inr n) else Ret (inl (n + 1))) 0.

(** [pstrcpy(buf + off, buf_size, str)] *)
Definition pstrcpy (buf : list Z) (off buf_size : Z) (str : list Z)
  : res (list Z) :=
  if buf_size <=? 0 then Ret buf
  else
    let* (buf, q) := loop (Datatypes.S (length str)) (fun '(buf, q, k) =>
      let* c := rd str k in
      if (c =? 0) || (off + buf_size - 1 <=? q) then Ret (inr (buf, q))
      else
        let* buf := wr buf q c in
        Ret (inl (buf, q + 1, k + 1))) (buf, off, 0) in
    wr buf q 0.

(** strcat and truncate *)
Definition pstrcat (buf : list Z) (buf_size : Z) (s : list Z)
  : res (list Z) :=
  let* len := strlen buf 0 in
  if len <? buf_size then pstrcpy buf len (buf_size - len) s else Ret buf.

(** [strstart]: the offset after the prefix ([*ptr]), or [None] for 0. *)
Definition strstart (str val : list Z) : res (option Z) :=
  loop (Datatypes.S (length val)) (fun i =>
    let* q := rd val i in
    if q =? 0 then Ret (inr (Some i))
    else
      let* p := rd str i in
      if negb (p =? q) then Ret (inr None) else Ret (inl (i + 1))) 0.

(** [memcmp(a + i, b + j, n) == 0] *)
Definition memeq (a : list Z) (i : Z) (b : list Z) (j n : Z) : res bool :=
  let* x := slice a i n in
  let* y := slice b j n in
  Ret (bool_decide (x = y)).

Definition has_suffix (str suffix : list Z) : res bool :=
  let* len := strlen str 0 in
  let* slen := strlen suffix 0 in
  if slen <=? len then memeq str (len - slen) suffix 0 slen else Ret false.

(** ** Integer helpers *)

Definition max_int (a b : Z) : Z := if b <? a then a else b.
Definition min_int (a b : Z) : Z := if a <? b then a else b.

Definition bswap16 (x : Z) : Z := u16 (Z.lor (Z.shiftr x 8) (Z.shiftl x 8)).

Definition bswap32 (v : Z) : Z :=
  u32 (Z.lor (Z.lor (Z.lor
    (Z.shiftr (Z.land v 0xff000000) 24) (Z.shiftr (Z.land v 0x00ff0000) 8))
    (Z.shiftl (Z.land v 0x0000ff00) 8)) (Z.shiftl (Z.land v 0x000000ff) 24)).

Definition bswap64_byte (v : Z) (k : Z) : Z := Z.land v (Z.shiftl 0xff (k * 8)).
Definition bswap64 (v : Z) : Z :=
  u64 (Z.lor (Z.lor (Z.lor (Z.lor (Z.lor (Z.lor (Z.lor
    (Z.shiftr (bswap64_byte v 7) (7 * 8)) (Z.shiftr (bswap64_byte v 6) (5 * 8)))
    (Z.shiftr (bswap64_byte v 5) (3 * 8))) (Z.shiftr (bswap64_byte v 4) (1 * 8)))
    (Z.shiftl (bswap64_byte v 3) (1 * 8))) (Z.shiftl (bswap64_byte v 2) (3 * 8)))
    (Z.shiftl (bswap64_byte v 1) (5 * 8))) (Z.shiftl (bswap64_byte v 0) (7 * 8))).

Definition from_hex (c : Z) : Z :=
  if (48 <=? c) && (c <=? 57) then c - 48
  else if (65 <=? c) && (c <=? 70) then c - 65 + 10
  else if (97 <=? c) && (c <=? 102) then c - 97 + 10
  else -1.

(** ** Integers in memory (the targets of the package are little-endian) *)

Definition bytes_of_u16 (v : Z) : list Z := [u8 v; u8 (Z.shiftr v 8)].
Definition bytes_of_u32 (v : Z) : list Z :=
  [u8 v; u8 (Z.shiftr v 8); u8 (Z.shiftr v 16); u8 (Z.shiftr v 24)].

Definition get_u8 (tab : list Z) (p : Z) : res Z := rd tab p.

Definition get_u16 (tab : list Z) (p : Z) : res Z :=
  let* b0 := rd tab p in
  let* b1 := rd tab (p + 1) in
  Ret (b0 + 256 * b1).

Definition get_u32 (tab : list Z) (p : Z) : res Z :=
  let* b0 := rd tab p in
  let* b1 := rd tab (p + 1) in
  let* b2 := rd tab (p + 2) in
  let* b3 := rd tab (p + 3) in
  Ret (b0 + 256 * (b1 + 256 * (b2 + 256 * b3))).

Definition put_u16 (tab : list Z) (p v : Z) : res (list Z) :=
  blit tab p (bytes_of_u16 v).
Definition put_u32 (tab : list Z) (p v : Z) : res (list Z) :=
  blit tab p (bytes_of_u32 v).

(** ** Dynamic buffer package *)

Record DynBuf := mkDynBuf {
  buf : list Z;             (* the block: [allocated_size] bytes *)
  size : Z;
  allocated_size : Z;
  error : bool
}.

Section dynbuf.
Context {al : Allocator}.

Definition dbuf_init2 : DynBuf := mkDynBuf [] 0 0 false.

(** return < 0 if error *)
Definition dbuf_realloc (h : heap) (s : DynBuf) (new_size : Z)
  : heap * DynBuf * Z :=
  if allocated_size s <? new_size then
    if error s then (h, s, -1)
    else
      let size1 := u64 (allocated_size s * 3) / 2 in
      let new_size := if new_size <? size1 then size1 else new_size in
      match realloc_func h 1 (buf s) new_size with
      | (h, None) =>
          (h, mkDynBuf (buf s) (size s) (allocated_size s) true, -1)
      | (h, Some new_buf) =>
          (h, mkDynBuf new_buf (size s) new_size (error s), 0)
      end
  else (h, s, 0).

Definition dbuf_write (h : heap) (s : DynBuf) (offset : Z) (data : list Z)
  : res (heap * DynBuf * Z) :=
  let end_ := u64 (offset + Z.of_nat (length data)) in
  match dbuf_realloc h s end_ with
  | (h, s, 0) =>
      let* b := blit (buf s) offset data in
      let size' := if size s <? end_ then end_ else size s in
      Ret (h, mkDynBuf b size' (allocated_size s) (error s), 0)
  | (h, s, _) => Ret (h, s, -1)
  end.

(** The test that [dbuf_put] and [dbuf_put_self] make before they call
    [dbuf_realloc]. *)
Definition dbuf_reserve (h : heap) (s : DynBuf) (len : Z)
  : heap * DynBuf * Z :=
  if allocated_size s <? u64 (size s + len)
  then dbuf_realloc h s (u64 (size s + len)) else (h, s, 0).

Definition dbuf_put (h : heap) (s : DynBuf) (data : list Z)
  : res (heap * DynBuf * Z) :=
  let len := Z.of_nat (length data) in
  match dbuf_reserve h s len with
  | (h, s, 0) =>
      let* b := blit (buf s) (size s) data in
      Ret (h, mkDynBuf b (u64 (size s + len)) (allocated_size s) (error s), 0)
  | (h, s, _) => Ret (h, s, -1)
  end.

Definition dbuf_put_self (h : heap) (s : DynBuf) (offset len : Z)
  : res (heap * DynBuf * Z) :=
  match dbuf_reserve h s len with
  | (h, s, 0) =>
      let* b := memcpy_self (buf s) (size s) offset len in
      Ret (h, mkDynBuf b (u64 (size s + len)) (allocated_size s) (error s), 0)
  | (h, s, _) => Ret (h, s, -1)
  end.

Definition dbuf_putc (h : heap) (s : DynBuf) (c : Z)
  : res (heap * DynBuf * Z) := dbuf_put h s [u8 c].

Definition dbuf_putstr (h : heap) (s : DynBuf) (str : list Z)
  : res (heap * DynBuf * Z) :=
  let* n := strlen str 0 in
  let* data := slice str 0 n in
  dbuf_put h s data.

Definition dbuf_put_u16 (h : heap) (s : DynBuf) (v : Z)
  : res (heap * DynBuf * Z) := dbuf_put h s (bytes_of_u16 v).

Definition dbuf_put_u32 (h : heap) (s : DynBuf) (v : Z)
  : res (heap * DynBuf * Z) := dbuf_put h s (bytes_of_u32 v).

Definition dbuf_error (s : DynBuf) : bool := error s.

Definition dbuf_set_error (s : DynBuf) : DynBuf :=
  mkDynBuf (buf s) (size s) (allocated_size s) true.

Definition dbuf_free (h : heap) (s : DynBuf) : heap * DynBuf :=
  (match buf s with
   | [] => h
   | _ => fst (realloc_func h 1 (buf s) 0)
   end, mkDynBuf [] 0 0 false).

(** insert 'len' bytes at position 'pos' ([libregexp.c]) *)
Definition dbuf_insert (h : heap) (s : DynBuf) (pos len : Z)
  : res (heap * DynBuf * Z) :=
  match dbuf_realloc h s (u64 (size s + len)) with
  | (h, s, 0) =>
      let* b := memmove (buf s) (pos + len) pos (size s - pos) in
      Ret (h, mkDynBuf b (u64 (size s + len)) (allocated_size s) (error s), 0)
  | (h, s, _) => Ret (h, s, -1)
  end.
End dynbuf.

(** ** UTF-8 *)

(** [*q++ = (x & 0x3f) | 0x80] *)
Definition utf8_cont (x : Z) : Z := u8 (Z.lor (Z.land x 0x3f) 0x80).

(** Note: at most 31 bits are encoded.  The bytes written; none for 0. *)
Definition unicode_to_utf8 (c : Z) : list Z :=
  if c <? 0x80 then [u8 c]
  else
    (if c <? 0x800 then [u8 (Z.lor (Z.shiftr c 6) 0xc0)]
     else if c <? 0x80000000 then
       (if c <? 0x10000 then [u8 (Z.lor (Z.shiftr c 12) 0xe0)]
        else
          (if c <? 0x00200000 then [u8 (Z.lor (Z.shiftr c 18) 0xf0)]
           else
             (if c <? 0x04000000 then [u8 (Z.lor (Z.shiftr c 24) 0xf8)]
              else [u8 (Z.lor (Z.shiftr c 30) 0xfc); utf8_cont (Z.shiftr c 24)])
             ++ [utf8_cont (Z.shiftr c 18)])
          ++ [utf8_cont (Z.shiftr c 12)])
       ++ [utf8_cont (Z.shiftr c 6)]
     else [])
    ++ (if c <? 0x80000000 then [utf8_cont c] else []).

Definition utf8_min_code : list Z :=
  [0x80; 0x800; 0x10000; 0x00200000; 0x04000000].
Definition utf8_first_code_mask : list Z := [0x1f; 0xf; 0x7; 0x3; 0x1].

(** The [switch] on the first byte: the number of continuation bytes. *)
Definition utf8_seq_len (c : Z) : option Z :=
  if (0xc0 <=? c) && (c <=? 0xdf) then Some 1
  else if (0xe0 <=? c) && (c <=? 0xef) then Some 2
  else if (0xf0 <=? c) && (c <=? 0xf7) then Some 3
  else if (0xf8 <=? c) && (c <=? 0xfb) then Some 4
  else if (0xfc <=? c) && (c <=? 0xfd) then Some 5
  else None.

(** One turn of the loop over the [l] continuation bytes, and the final test
    against the smallest code point of that length. *)
Definition utf8_dec_step (p : list Z) (pos l min_code : Z)
  : Z * Z -> res (Z * Z + Z * Z) := fun '(i, c) =>
  if i <? l then
    let* b := rd p (pos + 1 + i) in
    if (b <? 0x80) || (0xc0 <=? b) then Ret (inr (-1, pos))
    else Ret (inl (i + 1, Z.lor (Z.shiftl c 6) (Z.land b 0x3f)))
  else if c <? min_code then Ret (inr (-1, pos))
  else Ret (inr (c, pos + 1 + l)).

(** return -1 if error; the second component is [*pp]. *)
Definition unicode_from_utf8 (p : list Z) (pos max_len : Z) : res (Z * Z) :=
  let* c := rd p pos in
  if c <? 0x80 then Ret (c, pos + 1)
  else
    match utf8_seq_len c with
    | None => Ret (-1, pos)
    | Some l =>
        if max_len - 1 <? l then Ret (-1, pos)
        else
          let* mask := rd utf8_first_code_mask (l - 1) in
          let* min_code := rd utf8_min_code (l - 1) in
          loop (Datatypes.S (Z.to_nat l)) (utf8_dec_step p pos l min_code)
            (0, Z.land c mask)
    end.
