(* ===== verification/DynBufSpec.v ===== *)
(** * What the dynamic buffers of [cutils.c] promise

    The abstract state of a buffer is its contents (the first [size] bytes of
    the block) and its sticky error flag.  Every operation is an instance of
    [run_op]; [op_spec] says what it does to the contents.  The operations
    are proved against any allocator that satisfies [AllocatorOk]. *)

From stdpp Require Import base tactics numbers list option.
From Stdlib Require Import ZArith Lia.
From S2P Require Import Prelude Cutils.

Open Scope Z_scope.

Definition dbuf_wf (s : DynBuf) : Prop :=
  Z.of_nat (length (buf s)) = allocated_size s /\
  0 <= size s <= allocated_size s.

Definition contents (s : DynBuf) : list Z := take (Z.to_nat (size s)) (buf s).

(** The operations of the package as data. *)
Inductive dbuf_op : Type :=
  | OpPut (data : list Z)
  | OpPutc (c : Z)
  | OpPutU16 (v : Z)
  | OpPutU32 (v : Z)
  | OpPutSelf (offset len : Z)
  | OpWrite (offset : Z) (data : list Z)
  | OpInsert (pos len : Z).

(** The bytes an appending operation adds to the contents [c]. *)
Definition op_data (op : dbuf_op) (c : list Z) : list Z :=
  match op with
  | OpPut d => d
  | OpPutc v => [u8 v]
  | OpPutU16 v => bytes_of_u16 v
  | OpPutU32 v => bytes_of_u32 v
  | OpPutSelf off len => take (Z.to_nat len) (drop (Z.to_nat off) c)
  | OpWrite _ _ | OpInsert _ _ => []
  end.

(** The abstract effect on the contents. An insertion leaves a gap whose
    bytes are not specified. *)
Inductive op_spec : dbuf_op -> list Z -> list Z -> Prop :=
  | spec_append op c :
      (forall off d, op <> OpWrite off d) ->
      (forall pos len, op <> OpInsert pos len) ->
      op_spec op c (c ++ op_data op c)
  | spec_write off d c :
      op_spec (OpWrite off d) c
        (take (Z.to_nat off) c ++ d ++ drop (Z.to_nat off + length d) c)
  | spec_insert pos len gap c :
      Z.of_nat (length gap) = len ->
      op_spec (OpInsert pos len) c
        (take (Z.to_nat pos) c ++ gap ++ drop (Z.to_nat pos) c).

(** The arguments are in range for contents of length [n]. *)
Definition op_ok (op : dbuf_op) (n : Z) : Prop :=
  match op with
  | OpPut d => n + Z.of_nat (length d) < 2 ^ 64
  | OpPutc _ => n + 1 < 2 ^ 64
  | OpPutU16 _ => n + 2 < 2 ^ 64
  | OpPutU32 _ => n + 4 < 2 ^ 64
  | OpPutSelf off len => 0 <= off /\ 0 <= len /\ off + len <= n /\
                         n + len < 2 ^ 64
  | OpWrite off d => 0 <= off <= n /\ off + Z.of_nat (length d) < 2 ^ 64
  | OpInsert pos len => 0 <= pos <= n /\ 0 <= len /\ n + len < 2 ^ 64
  end.

Section spec.
Context {al : Allocator} {al_ok : AllocatorOk al}.

Definition run_op (op : dbuf_op) (h : heap) (s : DynBuf)
  : res (heap * DynBuf * Z) :=
  match op with
  | OpPut d => dbuf_put h s d
  | OpPutc c => dbuf_putc h s c
  | OpPutU16 v => dbuf_put_u16 h s v
  | OpPutU32 v => dbuf_put_u32 h s v
  | OpPutSelf off len => dbuf_put_self h s off len
  | OpWrite off d => dbuf_write h s off d
  | OpInsert pos len => dbuf_insert h s pos len
  end.

(** A sequence of operations whose return codes are ignored, as the
    compilers of the package call them. *)
Fixpoint run_ops (ops : list dbuf_op) (h : heap) (s : DynBuf)
  : res (heap * DynBuf) :=
  match ops with
  | [] => Ret (h, s)
  | op :: ops =>
      let* (h, s, _) := run_op op h s in
      run_ops ops h s
  end.

Lemma contents_length s :
  dbuf_wf s -> Z.of_nat (length (contents s)) = size s.
Proof. intros [Hl Hs]. unfold contents. rewrite length_take. lia. Qed.

Lemma dbuf_init2_wf : dbuf_wf dbuf_init2 /\ contents dbuf_init2 = [].
Proof. unfold dbuf_wf, contents; simpl. split; [lia|done]. Qed.

(** The outcome every operation has: it succeeds, or nothing changed but
    the error flag. *)
Definition op_post (s : DynBuf) (P : list Z -> Prop)
    (r : heap * DynBuf * Z) : Prop :=
  let '(_, s', ret) := r in
  dbuf_wf s' /\
  ((ret = 0 /\ error s' = error s /\ P (contents s')) \/
   (ret = -1 /\ error s' = true /\ contents s' = contents s)).

Lemma dbuf_realloc_spec h s n :
  dbuf_wf s -> 0 <= n < 2 ^ 64 ->
  op_post s (fun c => c = contents s) (dbuf_realloc h s n) /\
  let '(_, s', ret) := dbuf_realloc h s n in
  size s' = size s /\ (ret = 0 -> n <= allocated_size s').
Proof.
  intros [Hl Hs] Hn. unfold dbuf_realloc.
  destruct (Z.ltb_spec (allocated_size s) n) as [Hlt|Hge].
  2: { simpl. split; [|lia]. split; [done|]. left. auto. }
  destruct (error s) eqn:Ee.
  { simpl. split; [|lia]. split; [done|]. right. auto. }
  set (m := if n <? _ then _ else _).
  assert (Hm : n <= m) by (unfold m; zcase; lia).
  destruct (realloc_func h 1 (buf s) m) as [h' [new|]] eqn:Er; simpl.
  2: { repeat split; simpl; auto; lia. }
  destruct (realloc_spec h 1 (buf s) m h' new ltac:(lia) Er) as [Hnew Htk].
  repeat split; simpl; auto; try lia. left. repeat split; auto.
  unfold contents; simpl.
  apply (f_equal (take (Z.to_nat (size s)))) in Htk.
  rewrite !take_take in Htk.
  by replace (_ `min` _)%nat with (Z.to_nat (size s)) in Htk by lia.
Qed.

Lemma dbuf_reserve_spec h s len :
  dbuf_wf s -> 0 <= len -> size s + len < 2 ^ 64 ->
  op_post s (fun c => c = contents s) (dbuf_reserve h s len) /\
  let '(_, s', ret) := dbuf_reserve h s len in
  size s' = size s /\ (ret = 0 -> size s + len <= allocated_size s').
Proof.
  intros Hwf Hlen Hb. unfold dbuf_reserve. pose proof Hwf as [Hl Hs].
  rewrite u64_id by lia. zcase; [by apply dbuf_realloc_spec; [|lia]|].
  simpl. split; [|lia]. split; [done|]. left. auto.
Qed.

(** Writing [data] at the end of the contents of a block with room. *)
Lemma append_blit s data :
  dbuf_wf s -> size s + Z.of_nat (length data) <= allocated_size s ->
  exists b, blit (buf s) (size s) data = Ret b /\
    length b = length (buf s) /\
    take (Z.to_nat (size s + Z.of_nat (length data))) b
    = contents s ++ data.
Proof.
  intros [Hl Hs] Hroom. rewrite blit_in by lia. eexists. split; [done|].
  split.
  - rewrite !length_app, length_take, length_drop. lia.
  - rewrite app_assoc. unfold contents. rewrite take_app_le.
    + apply take_ge. rewrite length_app, length_take. lia.
    + rewrite length_app, length_take. lia.
Qed.

Lemma dbuf_put_spec h s data :
  dbuf_wf s -> size s + Z.of_nat (length data) < 2 ^ 64 ->
  wp (dbuf_put h s data) (op_post s (fun c => c = contents s ++ data)).
Proof.
  intros Hwf Hb. unfold dbuf_put.
  pose proof (dbuf_reserve_spec h s (Z.of_nat (length data)) Hwf) as Hr.
  destruct (dbuf_reserve h s _) as [[h' s'] ret].
  destruct Hr as [(Hwf' & [(-> & He & Hc)|(-> & He & Hc)]) [Hsz Hal]];
    [lia..| |simpl; tauto].
  destruct (append_blit s' data Hwf') as (b & -> & Hlb & Htk); [lia|].
  rewrite Hsz in *. simpl. rewrite u64_id by (destruct Hwf; lia).
  unfold dbuf_wf, contents; simpl. rewrite Hlb. destruct Hwf' as [??].
  split; [lia|]. left. rewrite Htk, Hc. done.
Qed.

Lemma dbuf_put_self_spec h s off len :
  dbuf_wf s -> 0 <= off -> 0 <= len -> off + len <= size s ->
  size s + len < 2 ^ 64 ->
  wp (dbuf_put_self h s off len) (op_post s (fun c => c = contents s
    ++ take (Z.to_nat len) (drop (Z.to_nat off) (contents s)))).
Proof.
  intros Hwf Ho Hl Hol Hb. unfold dbuf_put_self.
  pose proof (dbuf_reserve_spec h s len Hwf) as Hr.
  destruct (dbuf_reserve h s _) as [[h' s'] ret].
  destruct Hr as [(Hwf' & [(-> & He & Hc)|(-> & He & Hc)]) [Hsz Hal]];
    [lia..| |simpl; tauto].
  rewrite Hsz in *. pose proof Hwf' as [Hl' Hs'].
  unfold memcpy_self, memmove. destruct (Z.leb_spec (off + len) (size s)); [|lia].
  simpl. rewrite slice_in by lia. simpl.
  set (data := take _ (drop _ (buf s'))).
  assert (Hd : data = take (Z.to_nat len) (drop (Z.to_nat off) (contents s'))).
  { unfold data, contents. rewrite !take_drop_commute, take_take.
    f_equal. f_equal. lia. }
  assert (Hld : Z.of_nat (length data) = len).
  { unfold data. rewrite length_take, length_drop. lia. }
  destruct (append_blit s' data Hwf') as (b & Hbl & Hlb & Htk); [lia|].
  rewrite Hsz, Hld in *. rewrite Hbl. simpl. rewrite u64_id by lia.
  unfold dbuf_wf, op_post; simpl. rewrite Hlb.
  split; [lia|]. left. unfold contents at 1; simpl. rewrite Htk, <- Hc, Hd.
  done.
Qed.

Lemma dbuf_write_spec h s off data :
  dbuf_wf s -> 0 <= off <= size s -> off + Z.of_nat (length data) < 2 ^ 64 ->
  size s < 2 ^ 64 ->
  wp (dbuf_write h s off data) (op_post s (fun c => c =
    take (Z.to_nat off) (contents s) ++ data
    ++ drop (Z.to_nat off + length data) (contents s))).
Proof.
  intros Hwf Ho Hb Hb'. unfold dbuf_write. rewrite u64_id by lia.
  pose proof (dbuf_realloc_spec h s (off + Z.of_nat (length data)) Hwf) as Hr.
  destruct (dbuf_realloc h s _) as [[h' s'] ret].
  destruct Hr as [(Hwf' & [(-> & He & Hc)|(-> & He & Hc)]) [Hsz Hal]];
    [lia..| |simpl; tauto].
  rewrite Hsz in *. pose proof Hwf' as [Hl' Hs'].
  rewrite blit_in by lia. simpl. unfold dbuf_wf; simpl.
  rewrite !length_app, length_take, length_drop.
  split; [zcase; lia|]. left. split; [done|]. split; [done|].
  rewrite <- Hc. unfold contents; simpl. rewrite Hsz.
  zcase; list_ext.
Qed.

(** Opening a gap of [m] cells at [p] among the first [n] cells. *)
Lemma gap_blit (l : list Z) p n m :
  (p <= n)%nat -> (n + m <= length l)%nat ->
  take (n + m) (take (p + m) l ++ take (n - p) (drop p l)
                ++ drop (p + m + (n - p)) l)
  = take p (take n l) ++ take m (drop p l) ++ drop p (take n l).
Proof.
  intros Hp Hn.
  assert (Hlen : length (take (p + m) l ++ take (n - p) (drop p l))
                 = (n + m)%nat) by (list_len; lia).
  rewrite app_assoc, <- Hlen, take_app_length.
  rewrite take_take, Nat.min_l, <- take_take_drop, <- app_assoc by lia.
  do 2 f_equal. rewrite take_drop_commute. do 2 f_equal. lia.
Qed.

Lemma dbuf_insert_spec h s pos len :
  dbuf_wf s -> 0 <= pos <= size s -> 0 <= len -> size s + len < 2 ^ 64 ->
  wp (dbuf_insert h s pos len) (op_post s (fun c => exists gap,
    Z.of_nat (length gap) = len /\
    c = take (Z.to_nat pos) (contents s) ++ gap
        ++ drop (Z.to_nat pos) (contents s))).
Proof.
  intros Hwf Hp Hl Hb. unfold dbuf_insert. rewrite u64_id by lia.
  pose proof (dbuf_realloc_spec h s (size s + len) Hwf) as Hr.
  destruct (dbuf_realloc h s _) as [[h' s'] ret].
  destruct Hr as [(Hwf' & [(-> & He & Hc)|(-> & He & Hc)]) [Hsz Hal]];
    [lia..| |simpl; tauto].
  rewrite Hsz in *. pose proof Hwf' as [Hl' Hs'].
  unfold memmove. rewrite slice_in by lia. simpl.
  rewrite blit_in by (list_len; lia). simpl. rewrite u64_id by lia.
  unfold dbuf_wf; simpl. list_len. split; [lia|]. left.
  split; [done|]. split; [done|].
  exists (take (Z.to_nat len) (drop (Z.to_nat pos) (buf s'))).
  split; [list_len; lia|].
  rewrite <- Hc. unfold contents; simpl. rewrite Hsz.
  rewrite <- (gap_blit (buf s') (Z.to_nat pos) (Z.to_nat (size s))) by lia.
  rewrite Nat.min_l, !Z2Nat.inj_add, !Z2Nat.inj_sub by lia. done.
Qed.

(** Every operation, whatever the allocator answers, either does what
    [op_spec] says or leaves the contents alone and raises the flag. *)
Lemma run_op_spec op h s :
  dbuf_wf s -> op_ok op (size s) -> size s < 2 ^ 64 ->
  wp (run_op op h s) (op_post s (op_spec op (contents s))).
Proof.
  intros Hwf Hok Hb.
  assert (Happ : forall d c, op_data op c = d ->
    (forall o x, op <> OpWrite o x) -> (forall o x, op <> OpInsert o x) ->
    op_spec op c (c ++ d)) by (intros ? ? <-; by constructor).
  assert (Hmono : forall e P, wp e (op_post s P) ->
    (forall c, P c -> op_spec op (contents s) c) ->
    wp e (op_post s (op_spec op (contents s)))).
  { intros e P He HP. eapply wp_mono; [exact He|].
    intros [[h' s'] r] [Hw [(?&?&?)|?]]; split; auto. }
  destruct op; simpl in Hok |- *.
  - eapply Hmono; [by apply dbuf_put_spec|]. intros ? ->. by apply Happ.
  - eapply Hmono; [by apply dbuf_put_spec|]. intros ? ->. by apply Happ.
  - eapply Hmono; [by apply dbuf_put_spec|]. intros ? ->. by apply Happ.
  - eapply Hmono; [by apply dbuf_put_spec|]. intros ? ->. by apply Happ.
  - eapply Hmono; [by apply dbuf_put_self_spec; naive_solver|].
    intros ? ->. by apply Happ.
  - eapply Hmono; [by apply dbuf_write_spec; naive_solver|].
    intros ? ->. constructor.
  - eapply Hmono; [by apply dbuf_insert_spec; naive_solver|].
    intros ? (gap & Hg & ->). by constructor.
Qed.

Definition is_put (op : dbuf_op) : bool :=
  match op with
  | OpPut _ | OpPutc _ | OpPutU16 _ | OpPutU32 _ => true
  | _ => false
  end.

Definition ops_bytes (ops : list dbuf_op) : list Z :=
  concat (map (fun op => op_data op []) ops).

Lemma put_data op c : is_put op = true -> op_data op c = op_data op [].
Proof. by destruct op. Qed.

Lemma run_puts_spec ops h s :
  dbuf_wf s -> forallb is_put ops = true ->
  size s + Z.of_nat (length (ops_bytes ops)) < 2 ^ 64 ->
  wp (run_ops ops h s) (fun '(_, s') => dbuf_wf s' /\
    (error s = true -> error s' = true) /\
    (error s' = false -> contents s' = contents s ++ ops_bytes ops)).
Proof.
  revert h s. induction ops as [|op ops IH]; intros h s Hwf Hput Hb; simpl.
  { split; [done|]. split; [done|]. intros _. by rewrite app_nil_r. }
  simpl in Hput. apply andb_prop in Hput as [Hop Hops].
  change (ops_bytes (op :: ops)) with (op_data op [] ++ ops_bytes ops) in Hb.
  rewrite length_app, Nat2Z.inj_add in Hb. apply wp_bind.
  assert (Hok : op_ok op (size s)) by (destruct op; simpl in *; try done; lia).
  eapply wp_mono; [apply run_op_spec; [done|done|lia]|].
  intros [[h' s'] r] (Hwf' & Hpost).
  assert (Hsz : size s' <= size s + Z.of_nat (length (op_data op []))).
  { rewrite <- !contents_length by done.
    destruct Hpost as [(_&_&Hs)|(_&_&->)]; [|lia].
    inversion Hs; subst; try done.
    rewrite length_app, (put_data op) by done. lia. }
  eapply wp_mono; [apply IH; [done|done|lia]|].
  intros [h'' s''] (Hwf'' & Hmon & Hc). split; [done|].
  destruct Hpost as [(_&He&Hs)|(_&He&_)].
  - split; [intros ?; apply Hmon; congruence|].
    intros He''. rewrite Hc by done. inversion Hs; subst; try done.
    rewrite (put_data op) by done.
    change (ops_bytes (op :: ops)) with (op_data op [] ++ ops_bytes ops).
    by rewrite app_assoc.
  - split; [intros _; by apply Hmon|]. rewrite Hmon by done. done.
Qed.
End spec.

(** ** Properties *)

Section properties.
Context {al : Allocator} {al_ok : AllocatorOk al}.

(** C19.  Every operation of the package on a well-formed buffer, with its
  arguments in range, stays inside the block and either succeeds, with
  exactly the effect [op_spec] gives it on the contents, or returns -1 with
  the contents untouched and the sticky error flag set. *)
Theorem dbuf_op_correct op h s :
dbuf_wf s -> op_ok op (size s) -> size s < 2 ^ 64 ->
wp (run_op op h s) (op_post s (op_spec op (contents s))).
Proof. apply run_op_spec. Qed.

(** C24.  A sequence of [dbuf_put*] calls whose results are ignored, as the
  compilers of the package use them: if no error is flagged at the end the
  contents are the old ones followed by all the bytes in order, and an
  error flag is never lost. *)
Theorem dbuf_puts_concat ops h s :
dbuf_wf s -> forallb is_put ops = true ->
size s + Z.of_nat (length (ops_bytes ops)) < 2 ^ 64 ->
wp (run_ops ops h s) (fun '(_, s') => dbuf_wf s' /\
  (error s = true -> error s' = true) /\
  (error s' = false -> contents s' = contents s ++ ops_bytes ops)).
Proof. apply run_puts_spec. Qed.
End properties.

Lemma dbuf_op_correct_witness :
  wp (run_op (al := budget_allocator) (OpInsert 1 2) 100 (mkDynBuf [1; 2; 3; 9] 3 4 false))
    (op_post (mkDynBuf [1; 2; 3; 9] 3 4 false)
       (op_spec (OpInsert 1 2) [1; 2; 3])).
Proof.
  apply (dbuf_op_correct (al := budget_allocator) (OpInsert 1 2) 100
           (mkDynBuf [1; 2; 3; 9] 3 4 false)).
  - split; simpl; lia.
  - simpl. lia.
  - simpl. lia.
Defined.

Lemma dbuf_puts_concat_witness :
  wp (run_ops (al := budget_allocator) [OpPutc 65; OpPutU16 258; OpPut [7; 8]] 100
        dbuf_init2) (fun '(_, s') => dbuf_wf s' /\
    (error dbuf_init2 = true -> error s' = true) /\
    (error s' = false -> contents s' = [] ++ [65; 2; 1; 7; 8])).
Proof.
  apply (dbuf_puts_concat (al := budget_allocator)
           [OpPutc 65; OpPutU16 258; OpPut [7; 8]] 100
           dbuf_init2).
  - split; simpl; lia.
  - reflexivity.
  - simpl. lia.
Defined.
