(* ===== verification/CutilsSpec.v ===== *)
(** * The C string helpers and the UTF-8 codec of [cutils.c]

    The string helpers are specified by the string a block holds
    ([c_string]); the codec by a round trip in both directions. *)

From stdpp Require Import base tactics numbers list option.
From Stdlib Require Import ZArith Lia.
From S2P Require Import Prelude Cutils.

Open Scope Z_scope.

(** The block [b] holds the zero-terminated string [s] from [off]. *)
Definition c_string (b : list Z) (off : Z) (s : list Z) : Prop :=
  0 <= off /\ Forall (fun c => c <> 0) s /\
  exists pre post, b = pre ++ s ++ 0 :: post /\ Z.of_nat (length pre) = off.

Lemma c_string_nul s : Forall (fun c => c <> 0) s -> c_string (s ++ [0]) 0 s.
Proof. intros. split; [lia|]. split; [done|]. by exists [], []. Qed.

Lemma c_string_rd b off s i :
  c_string b off s -> 0 <= i <= Z.of_nat (length s) ->
  exists c, rd b (off + i) = Ret c /\
    ((i < Z.of_nat (length s) /\ s !! Z.to_nat i = Some c /\ c <> 0) \/
     (i = Z.of_nat (length s) /\ c = 0)).
Proof.
  intros (Ho & Hnz & pre & post & -> & <-) Hi. rewrite rd_app_r by lia.
  destruct (Z.eq_dec i (Z.of_nat (length s))) as [->|Hne].
  - exists 0. split; [|auto]. apply rd_nat. by rewrite list_lookup_middle.
  - destruct (lookup_lt_is_Some_2 s (Z.to_nat i)) as [c Hc]; [lia|].
    exists c. split; [apply rd_Some; [lia|]; by rewrite lookup_app_l by lia|].
    left. split; [lia|]. split; [done|]. by eapply Forall_lookup_1 in Hnz.
Qed.

Lemma c_string_bound b off s :
  c_string b off s -> off + Z.of_nat (length s) < Z.of_nat (length b).
Proof.
  intros (_ & _ & pre & post & -> & <-). rewrite !length_app. simpl. lia.
Qed.

Lemma strlen_spec b off s :
  c_string b off s -> strlen b off = Ret (Z.of_nat (length s)).
Proof.
  intros Hs. unfold strlen.
  cut (wp (loop (Datatypes.S (length b)) (fun n =>
    let* c := rd b (off + n) in
    if c =? 0 then Ret (inr n) else Ret (inl (n + 1))) 0)
    (fun n => n = Z.of_nat (length s))).
  { intros (n & -> & ->)%wp_iff. done. }
  pose proof (c_string_bound _ _ _ Hs) as Hb.
  apply (wp_loop (fun n => 0 <= n <= Z.of_nat (length s))
    (fun n => Z.to_nat (Z.of_nat (length s) - n))).
  - intros n Hn. destruct (c_string_rd _ _ _ _ Hs Hn) as (c & -> & Hc).
    simpl. zcase; simpl; lia.
  - lia.
  - destruct Hs as (?&?&?). lia.
Qed.

(** Writing the cell after the [length d] cells laid over [b] at [o]. *)
Lemma wr_overlay (b d : list Z) (o : nat) i x :
  (o + length d < length b)%nat -> i = Z.of_nat (o + length d) ->
  wr (take o b ++ d ++ drop (o + length d) b) i x
  = Ret (take o b ++ d ++ x :: drop (o + length d + 1) b).
Proof.
  intros Hlt ->. rewrite wr_in by (list_len; lia). rewrite Nat2Z.id. f_equal.
  destruct (lookup_lt_is_Some_2 b (o + length d)%nat Hlt) as [y Hy].
  rewrite (drop_S b y _ Hy), Nat.add_1_r, !app_assoc.
  replace (o + length d)%nat with (length (take o b ++ d) + 0)%nat at 1
    by (list_len; lia).
  by rewrite insert_app_r.
Qed.

(** [pstrcpy] copies at most [buf_size - 1] characters, terminates the copy
    and leaves the rest of the block alone. *)
Lemma pstrcpy_spec b off buf_size str s :
  c_string str 0 s -> 0 <= off -> 0 < buf_size ->
  off + buf_size <= Z.of_nat (length b) ->
  let n := Nat.min (length s) (Z.to_nat (buf_size - 1)) in
  pstrcpy b off buf_size str
  = Ret (take (Z.to_nat off) b ++ take n s ++ 0
         :: drop (Z.to_nat off + n + 1) b).
Proof.
  intros Hs Ho Hbs Hb n. unfold pstrcpy. zcase; [lia|].
  pose proof (c_string_bound _ _ _ Hs) as Hls.
  match goal with |- bind ?e _ = _ =>
    cut (wp e (fun '(b', q) => q = off + Z.of_nat n /\
      b' = take (Z.to_nat off) b ++ take n s
           ++ drop (Z.to_nat off + n) b)) end.
  { intros ([b' q] & -> & -> & ->)%wp_iff. simpl.
    assert (Hn : length (take n s) = n) by (rewrite length_take; lia).
    rewrite <- Hn at 2 3 5. apply wr_overlay; rewrite Hn; lia. }
  apply (wp_loop (fun '(b', q, k) =>
      0 <= k <= Z.of_nat n /\ q = off + k /\
      b' = take (Z.to_nat off) b ++ take (Z.to_nat k) s
           ++ drop (Z.to_nat off + Z.to_nat k) b)
    (fun '(b', q, k) => Z.to_nat (Z.of_nat n - k))).
  - intros [[b' q] k] (Hk & -> & ->).
    destruct (c_string_rd str 0 s k Hs ltac:(lia)) as (c & Hrd & Hc).
    rewrite Z.add_0_l in Hrd. rewrite Hrd. simpl.
    destruct ((c =? 0) || _) eqn:Et; simpl.
    + apply orb_true_iff in Et as [?|?]; zb.
      * destruct Hc as [(?&?&?)|[-> _]]; [lia|].
        replace (Z.to_nat (Z.of_nat (length s))) with n by lia. split; [lia|done].
      * replace (Z.to_nat k) with n by lia. split; [lia|done].
    + zb. destruct Hc as [(?&Hc&?)|[? ->]]; [|lia].
      assert (Hn : length (take (Z.to_nat k) s) = Z.to_nat k)
        by (rewrite length_take; lia).
      rewrite <- Hn at 2. rewrite wr_overlay by (rewrite Hn; lia). simpl.
      repeat split; [lia..| |lia]. rewrite Hn.
      replace (Z.to_nat (k + 1)) with (Datatypes.S (Z.to_nat k)) by lia.
      rewrite (take_S_r s _ c) by done. rewrite <- app_assoc. simpl.
      by rewrite Nat.add_1_r, Nat.add_succ_r.
  - split; [lia|]. split; [lia|]. change (Z.to_nat 0) with 0%nat.
    rewrite take_0, Nat.add_0_r. simpl. by rewrite take_drop.
  - lia.
Qed.

(** [pstrcat] appends to the string of the block as many characters as
    fit, and the result is always terminated within [buf_size] bytes. *)
Theorem pstrcat_spec b t buf_size str s :
  c_string b 0 t -> c_string str 0 s ->
  Z.of_nat (length t) < buf_size <= Z.of_nat (length b) ->
  let n := Nat.min (length s) (Z.to_nat buf_size - length t - 1) in
  exists post, pstrcat b buf_size str = Ret ((t ++ take n s) ++ 0 :: post) /\
    Z.of_nat (length (t ++ take n s)) < buf_size.
Proof.
  intros Ht Hs Hb n. unfold pstrcat. rewrite (strlen_spec b 0 t) by done.
  simpl. zcase; [|lia].
  rewrite (pstrcpy_spec _ _ _ _ s Hs) by lia.
  destruct Ht as (_ & _ & pre & post & -> & Hpre).
  destruct pre; [|simpl in Hpre; lia]. simpl.
  rewrite Nat2Z.id, take_app_length.
  replace (length s `min` _)%nat with n by lia.
  eexists. split; [by rewrite <- app_assoc|]. list_len. lia.
Qed.

(** [strstart] decides the prefix relation and gives the end of the
    prefix. *)
Theorem strstart_spec str val s v :
  c_string str 0 s -> c_string val 0 v ->
  strstart str val
  = Ret (if decide (v `prefix_of` s) then Some (Z.of_nat (length v)) else None).
Proof.
  intros Hs Hv. unfold strstart. pose proof (c_string_bound _ _ _ Hv) as Hb.
  match goal with |- ?e = _ =>
    cut (wp e (fun r => r = if decide (v `prefix_of` s)
                            then Some (Z.of_nat (length v)) else None)) end.
  { intros (r & -> & ->)%wp_iff. done. }
  apply (wp_loop (fun i => 0 <= i <= Z.of_nat (length v) /\
      take (Z.to_nat i) v `prefix_of` s /\ i <= Z.of_nat (length s))
    (fun i => Z.to_nat (Z.of_nat (length v) - i))).
  - intros i (Hi & Hpre & Hle).
    destruct (c_string_rd val 0 v i Hv ltac:(lia)) as (q & Hq & Cq).
    destruct (c_string_rd str 0 s i Hs ltac:(lia)) as (p & Hp & Cp).
    rewrite Z.add_0_l in Hq, Hp. rewrite Hq. simpl.
    destruct Cq as [(Hlt & Cq & Hq0)|[-> ->]].
    + zcase; [lia|]. rewrite Hp. simpl.
      destruct (Z.eqb_spec p q) as [->|Hne]; simpl.
      * destruct Cp as [(? & Cp & _)|[? ->]]; [|lia].
        split; [|lia]. split; [lia|]. split; [|lia].
        replace (Z.to_nat (i + 1)) with (Datatypes.S (Z.to_nat i)) by lia.
        rewrite (take_S_r v _ q) by done. destruct Hpre as [k Hk].
        exists (tail k). rewrite Hk in Cp.
        rewrite lookup_app_r in Cp by (list_len; lia). revert Cp. list_len.
        replace (_ - _)%nat with 0%nat by lia. destruct k; [done|].
        intros [= ->]. rewrite Hk. by rewrite <- app_assoc.
      * rewrite decide_False; [done|]. intros [k ->].
        destruct Cp as [(? & Cp & _)|[-> ->]].
        -- rewrite lookup_app_l in Cp by lia. congruence.
        -- rewrite length_app in *. lia.
    + simpl. rewrite Nat2Z.id, firstn_all in Hpre. by rewrite decide_True.
  - split; [lia|]. split; [apply prefix_nil|lia].
  - lia.
Qed.

(** [has_suffix] decides the suffix relation of the two strings. *)
Theorem has_suffix_spec str suffix s v :
  c_string str 0 s -> c_string suffix 0 v ->
  has_suffix str suffix = Ret (bool_decide (v `suffix_of` s)).
Proof.
  intros Hs Hv. unfold has_suffix.
  rewrite (strlen_spec _ _ _ Hs), (strlen_spec _ _ _ Hv). simpl.
  assert (Hsl : forall b c w, c_string b 0 c -> 0 <= w -> 
    w <= Z.of_nat (length c) ->
    slice b w (Z.of_nat (length c) - w) = Ret (drop (Z.to_nat w) c)).
  { intros b c w (_ & _ & pre & post & -> & Hp) Hw Hwc.
    destruct pre; [|simpl in Hp; lia]. simpl.
    rewrite slice_in by (rewrite ?length_app; simpl; lia). f_equal. list_ext. }
  zcase.
  - unfold memeq. pose proof (Hsl _ _ (Z.of_nat (length s) - Z.of_nat (length v)) Hs) as H1.
    replace (Z.of_nat (length s) - (Z.of_nat (length s) - Z.of_nat (length v)))
      with (Z.of_nat (length v)) in H1 by lia.
    rewrite H1 by lia. pose proof (Hsl _ _ 0 Hv) as H2.
    rewrite Z.sub_0_r in H2. rewrite H2 by lia. simpl. f_equal.
    apply bool_decide_ext. rewrite drop_0. split.
    + intros <-. apply suffix_drop.
    + intros [k ->]. rewrite length_app.
      replace (Z.to_nat _) with (length k) by lia. by rewrite drop_app_length.
  - f_equal. symmetry. apply bool_decide_eq_false. intros Hsuf.
    apply suffix_length in Hsuf. lia.
Qed.

Ltac solve_c_string :=
  apply c_string_nul; repeat (constructor; [lia|]); constructor.

Lemma pstrcat_spec_witness :
  exists post, pstrcat [65; 0; 9; 9] 4 [66; 67; 68; 0]
    = Ret (([65] ++ take 2 [66; 67; 68]) ++ 0 :: post) /\
    Z.of_nat (length ([65] ++ take 2 [66; 67; 68])) < 4.
Proof.
  apply (pstrcat_spec [65; 0; 9; 9] [65] 4 [66; 67; 68; 0] [66; 67; 68]).
  - split; [lia|]. split; [repeat (constructor; [lia|]); constructor|].
    by exists [], [9; 9].
  - change [66; 67; 68; 0] with ([66; 67; 68] ++ [0]). solve_c_string.
  - simpl. lia.
Defined.

Lemma strstart_spec_witness :
  strstart ([65; 66; 67] ++ [0]) ([65; 66] ++ [0]) = Ret (Some 2).
Proof.
  rewrite (strstart_spec _ _ [65; 66; 67] [65; 66]); [|solve_c_string..].
  reflexivity.
Defined.

Lemma has_suffix_spec_witness :
  has_suffix ([65; 66; 67] ++ [0]) ([66; 67] ++ [0]) = Ret true.
Proof.
  rewrite (has_suffix_spec _ _ [65; 66; 67] [66; 67]); [|solve_c_string..].
  reflexivity.
Defined.
