(* ===== verification/Utf8Spec.v ===== *)
(** * The UTF-8 codec of [cutils.c]

    [unicode_from_utf8] accepts exactly what [unicode_to_utf8] writes: the
    two are inverse of each other on code points below 2^31. *)

From stdpp Require Import base tactics numbers list option.
From Stdlib Require Import ZArith Lia.
From S2P Require Import Prelude Cutils.

Open Scope Z_scope.

(** The code points an encoding of at most six bytes can carry. *)
Definition utf8_code (c : Z) : Prop := 0 <= c < 2 ^ 31.

(** ** The bytes, as arithmetic *)

Lemma utf8_cont_eq x : utf8_cont x = 128 + x mod 64.
Proof.
  unfold utf8_cont. change 0x3f with (Z.ones 6). rewrite land_mod by lia.
  change (2 ^ 6) with 64. pose proof (Z.mod_pos_bound x 64 ltac:(lia)).
  change 0x80 with (2 * 2 ^ 6). rewrite lor_add_high by lia.
  rewrite u8_id by lia. lia.
Qed.

Lemma utf8_lead_eq k m x :
  0 <= k -> 0 <= m -> 0 <= x < 2 ^ k -> m * 2 ^ k + 2 ^ k <= 256 ->
  u8 (Z.lor x (m * 2 ^ k)) = m * 2 ^ k + x.
Proof. intros. rewrite lor_add_high by lia. rewrite u8_id by lia. lia. Qed.

Lemma dec_step c b :
  Z.lor (Z.shiftl c 6) (Z.land b 0x3f) = c * 64 + b mod 64.
Proof.
  change 0x3f with (Z.ones 6). rewrite land_mod, Z.shiftl_mul_pow2 by lia.
  change (b mod 2 ^ 6) with (b mod 64).
  pose proof (Z.mod_pos_bound b 64 ltac:(lia)).
  rewrite lor_add_low by lia. done.
Qed.

(** The bytes of a code point, by the length of its encoding. *)
Definition utf8_ref (c : Z) : list Z :=
  let cont k := 128 + (c / 2 ^ k) mod 64 in
  if c <? 0x80 then [c]
  else if c <? 0x800 then [192 + c / 64; cont 0]
  else if c <? 0x10000 then [224 + c / 2 ^ 12; cont 6; cont 0]
  else if c <? 0x200000 then [240 + c / 2 ^ 18; cont 12; cont 6; cont 0]
  else if c <? 0x4000000 then
    [248 + c / 2 ^ 24; cont 18; cont 12; cont 6; cont 0]
  else [252 + c / 2 ^ 30; cont 24; cont 18; cont 12; cont 6; cont 0].

Lemma unicode_to_utf8_eq c :
  0 <= c < 2 ^ 31 -> unicode_to_utf8 c = utf8_ref c.
Proof.
  intros Hc. unfold unicode_to_utf8, utf8_ref.
  rewrite !utf8_cont_eq, !Z.shiftr_div_pow2 by lia.
  change (2 ^ 0) with 1. rewrite Z.div_1_r.
  destruct (Z.ltb_spec c 0x80); [by rewrite u8_id by lia|].
  destruct (Z.ltb_spec c 0x80000000); [|lia].
  destruct (Z.ltb_spec c 0x800).
  { change 0xc0 with (6 * 2 ^ 5). rewrite utf8_lead_eq by dlia. done. }
  destruct (Z.ltb_spec c 0x10000).
  { change 0xe0 with (14 * 2 ^ 4). rewrite utf8_lead_eq by dlia. done. }
  destruct (Z.ltb_spec c 0x200000).
  { change 0xf0 with (30 * 2 ^ 3). rewrite utf8_lead_eq by dlia. done. }
  destruct (Z.ltb_spec c 0x4000000).
  { change 0xf8 with (62 * 2 ^ 2). rewrite utf8_lead_eq by dlia. done. }
  change 0xfc with (126 * 2 ^ 1). rewrite utf8_lead_eq by dlia. done.
Qed.

Lemma utf8_ref_length c : 
  0 <= c < 2 ^ 31 -> (1 <= length (utf8_ref c) <= 6)%nat.
Proof. intros Hc. unfold utf8_ref. repeat zcase; simpl; lia. Qed.

(** ** The decoding loop *)

(** The value of a first byte [c] and continuation bytes [bs]. *)
Fixpoint dec_bits (c : Z) (bs : list Z) : Z :=
  match bs with
  | [] => c
  | b :: bs => dec_bits (c * 64 + b mod 64) bs
  end.

Definition is_cont (b : Z) : bool := (128 <=? b) && (b <? 192).

(** The loop on a block whose bytes from [pos + 1 + i] are [bs]: it stops at
    the first byte that is no continuation. *)
Lemma dec_loop_ok p pos l min_code : forall bs i c fuel,
  0 <= i -> 0 <= pos -> i + Z.of_nat (length bs) = l ->
  (length bs < fuel)%nat ->
  take (length bs) (drop (Z.to_nat (pos + 1 + i)) p) = bs ->
  loop fuel (utf8_dec_step p pos l min_code) (i, c) =
  if forallb is_cont bs then
    if dec_bits c bs <? min_code then Ret (-1, pos)
    else Ret (dec_bits c bs, pos + 1 + l)
  else Ret (-1, pos).
Proof.
  induction bs as [|b bs IH]; intros i c fuel Hi Hp Hl Hf Hd;
    (destruct fuel; [simpl in Hf; lia|]); cbn [length] in *.
  - simpl. zcase; [lia|]. zcase; done.
  - cbn [loop]. unfold utf8_dec_step at 1. zcase; [|lia].
    assert (Hb : drop (Z.to_nat (pos + 1 + i)) p
                 = b :: drop (Z.to_nat (pos + 1 + (i + 1))) p).
    { destruct (drop (Z.to_nat (pos + 1 + i)) p) as [|x xs] eqn:E; [done|].
      simpl in Hd. injection Hd as -> _. f_equal.
      replace (Z.to_nat (pos + 1 + (i + 1)))
        with (Z.to_nat (pos + 1 + i) + 1)%nat by lia.
      rewrite <- drop_drop, E. done. }
    rewrite (rd_Some _ _ b); [|lia|].
    2: { rewrite <- (Nat.add_0_r (Z.to_nat _)), <- lookup_drop, Hb. done. }
    cbn [bind forallb dec_bits]. rewrite Hb in Hd. simpl in Hd.
    injection Hd as Hd. unfold is_cont at 1.
    assert (Hc : (b <? 128) || (192 <=? b) = negb ((128 <=? b) && (b <? 192)))
      by (repeat zcase; simpl; lia || done).
    rewrite Hc. destruct ((128 <=? b) && (b <? 192)); simpl negb; [|done].
    cbn [bind]. rewrite dec_step. apply IH; [lia|lia|lia|lia|done].
Qed.

(** ** Round trips *)

(** Dividing in steps of 6 bits. *)
Lemma div_step c k : 0 <= k -> c / 2 ^ (k + 6) * 64 + (c / 2 ^ k) mod 64 = c / 2 ^ k.
Proof.
  intros Hk. rewrite Z.pow_add_r, <- Z.div_div by lia.
  change (2 ^ 6) with 64. dlia.
Qed.

Lemma mod_lead k m x :
  0 <= k -> 0 <= x < 2 ^ k -> (m * 2 ^ k + x) mod 2 ^ k = x.
Proof.
  intros. rewrite Z.add_comm, Z_mod_plus_full, Z.mod_small by lia. done.
Qed.

Lemma utf8_seq_len_eq c :
  (192 <= c < 224 -> utf8_seq_len c = Some 1) /\
  (224 <= c < 240 -> utf8_seq_len c = Some 2) /\
  (240 <= c < 248 -> utf8_seq_len c = Some 3) /\
  (248 <= c < 252 -> utf8_seq_len c = Some 4) /\
  (252 <= c < 254 -> utf8_seq_len c = Some 5).
Proof. unfold utf8_seq_len. repeat split; intros; repeat zcase; simpl; lia || done. Qed.

(** What the encoding of [c >= 0x80] looks like to the decoder. *)
Definition dec_view (c c0 : Z) (bs : list Z) : Prop :=
  exists m k,
    utf8_seq_len c0 = Some (Z.of_nat (length bs)) /\
    rd utf8_first_code_mask (Z.of_nat (length bs) - 1) = Ret (Z.ones k) /\
    rd utf8_min_code (Z.of_nat (length bs) - 1) = Ret m /\
    0 <= k /\ 0x80 <= c0 /\ m <= c /\ forallb is_cont bs = true /\
    dec_bits (c0 mod 2 ^ k) bs = c.

Lemma is_cont_enc x : is_cont (128 + x mod 64) = true.
Proof.
  pose proof (Z.mod_pos_bound x 64 ltac:(lia)).
  unfold is_cont. repeat zcase; simpl; lia || done.
Qed.

Lemma mod_enc x : (128 + x mod 64) mod 64 = x mod 64.
Proof. dlia. Qed.

Ltac dec_view_tac k m :=
  eexists _, k; cbn [length dec_bits forallb];
  rewrite ?is_cont_enc, ?mod_enc;
  split; [apply utf8_seq_len_eq; dlia|];
  split; [reflexivity|]; split; [reflexivity|];
  split; [lia|]; split; [dlia|]; split; [lia|]; split; [reflexivity|];
  change_lead k m
with change_lead k m :=
  match goal with |- context [(?a + ?x) mod 2 ^ k] =>
    change a with (m * 2 ^ k); rewrite (mod_lead k m x) by dlia end.

Lemma dec_bits_ref c : 0x80 <= c < 2 ^ 31 ->
  exists c0 bs, utf8_ref c = c0 :: bs /\ dec_view c c0 bs.
Proof.
  intros Hc. unfold utf8_ref. destruct (Z.ltb_spec c 0x80); [lia|].
  pose proof (div_step c 0) as H0. pose proof (div_step c 6) as H6.
  pose proof (div_step c 12) as H12. pose proof (div_step c 18) as H18.
  pose proof (div_step c 24) as H24.
  change (0 + 6) with 6 in H0. change (6 + 6) with 12 in H6.
  change (12 + 6) with 18 in H12. change (18 + 6) with 24 in H18.
  change (24 + 6) with 30 in H24.
  repeat match goal with |- context [c <? ?m] => destruct (Z.ltb_spec c m) end;
    (do 2 eexists; split; [reflexivity|]).
  - dec_view_tac 5 6. change 64 with (2 ^ 6) at 1.
    rewrite H0, Z.div_1_r by lia. done.
  - dec_view_tac 4 14. rewrite H6, H0, Z.div_1_r by lia. done.
  - dec_view_tac 3 30. rewrite H12, H6, H0, Z.div_1_r by lia. done.
  - dec_view_tac 2 62. rewrite H18, H12, H6, H0, Z.div_1_r by lia. done.
  - dec_view_tac 1 126. rewrite H24, H18, H12, H6, H0, Z.div_1_r by lia. done.
Qed.

(** Decoding what was encoded gives the code point back. *)
Lemma decode_encoded c pre rest max_len :
  utf8_code c -> Z.of_nat (length (unicode_to_utf8 c)) <= max_len ->
  unicode_from_utf8 (pre ++ unicode_to_utf8 c ++ rest)
    (Z.of_nat (length pre)) max_len
  = Ret (c, Z.of_nat (length pre) + Z.of_nat (length (unicode_to_utf8 c))).
Proof.
  unfold utf8_code. intros Hc. rewrite unicode_to_utf8_eq by done. intros Hlen.
  unfold unicode_from_utf8. rewrite <- (Z.add_0_r (Z.of_nat (length pre))) at 1.
  rewrite rd_app_r by lia. destruct (Z_lt_le_dec c 0x80) as [Hlt|Hge].
  - unfold utf8_ref. destruct (Z.ltb_spec c 0x80); [|lia]. simpl.
    by destruct (Z.ltb_spec c 0x80); [|lia].
  - destruct (dec_bits_ref c) as
      (c0 & bs & Hr & m & k & Hsl & Hmask & Hmin & Hk & Hc0 & Hm & Hcont & Hd);
      [lia|].
    rewrite Hr in *. cbn [app rd]. rewrite (rd_Some _ 0 c0) by (lia || done).
    cbn [bind length] in *. zcase; [lia|]. rewrite Hsl.
    zcase; [lia|]. rewrite Hmask, Hmin. cbn [bind].
    rewrite land_mod by done.
    erewrite (dec_loop_ok _ _ _ _ bs);
      [|lia|lia|lia|lia|].
    + rewrite Hcont, Hd. zcase; [lia|]. do 2 f_equal. lia.
    + replace (Z.to_nat _) with (length pre + 1)%nat by lia.
      rewrite <- drop_drop, drop_app_length. simpl.
      by rewrite drop_0, take_app_length.
Qed.

(** A run of the loop that gives a code point has read [l - i] continuation
    bytes. *)
Lemma dec_loop_inv p pos l min_code v pos' : forall fuel i c,
  0 <= i <= l -> 0 <= pos -> v <> -1 ->
  loop fuel (utf8_dec_step p pos l min_code) (i, c) = Ret (v, pos') ->
  exists bs, Z.of_nat (length bs) = l - i /\
    take (length bs) (drop (Z.to_nat (pos + 1 + i)) p) = bs /\
    forallb is_cont bs = true /\ v = dec_bits c bs /\ min_code <= v /\
    pos' = pos + 1 + l.
Proof.
  induction fuel as [|fuel IH]; intros i c Hi Hp Hv Hl; [done|].
  cbn [loop] in Hl. unfold utf8_dec_step at 1 in Hl.
  destruct (Z.ltb_spec i l) as [Hlt|Hge].
  - destruct (rd p (pos + 1 + i)) as [b| |] eqn:Hb; [|done|done].
    cbn [bind] in Hl. apply rd_Ret_inv in Hb as [Hbi Hb].
    destruct ((b <? 0x80) || (0xc0 <=? b)) eqn:Hc; cbn [bind] in Hl;
      [injection Hl as Hl1 Hl2; congruence|].
    apply orb_false_elim in Hc as [Hc1 Hc2]. zb. rewrite dec_step in Hl.
    apply IH in Hl as (bs & Hlen & Htk & Hco & Hd & Hm & ->); [|lia|lia|lia].
    exists (b :: bs). cbn [length forallb dec_bits].
    split; [lia|]. split.
    + rewrite (drop_S _ b) by done. cbn [take]. f_equal.
      rewrite <- Htk at 2. f_equal. f_equal. lia.
    + split; [|done]. rewrite Hco, andb_true_r. unfold is_cont.
      repeat zcase; simpl; lia || done.
  - destruct (Z.ltb_spec c min_code); cbn [bind] in Hl;
      injection Hl as Hl1 Hl2; [congruence|].
    exists []. cbn. repeat split; lia || done.
Qed.

Lemma utf8_seq_len_inv c l :
  utf8_seq_len c = Some l ->
  (l = 1 /\ 192 <= c < 224) \/ (l = 2 /\ 224 <= c < 240) \/
  (l = 3 /\ 240 <= c < 248) \/ (l = 4 /\ 248 <= c < 252) \/
  (l = 5 /\ 252 <= c < 254).
Proof.
  unfold utf8_seq_len. repeat (case_match; zb; [intros [= <-]; lia|]). done.
Qed.

Lemma is_cont_inv b : is_cont b = true -> exists x, b = 128 + x /\ 0 <= x < 64.
Proof. unfold is_cont. intros H. zb. exists (b - 128). lia. Qed.

Lemma conts_inv bs : forallb is_cont bs = true ->
  exists xs, bs = map (fun x => 128 + x) xs /\ Forall (fun x => 0 <= x < 64) xs.
Proof.
  induction bs as [|b bs IH]; [by exists []|]. cbn [forallb].
  intros [Hb Hbs]%andb_prop. destruct (is_cont_inv _ Hb) as (x & -> & ?).
  destruct (IH Hbs) as (xs & -> & ?). exists (x :: xs). split; [done|].
  by constructor.
Qed.

Lemma lead_land c k j :
  0 <= k -> j * 2 ^ k <= c < j * 2 ^ k + 2 ^ k ->
  Z.land c (Z.ones k) = c - j * 2 ^ k.
Proof.
  intros. rewrite land_mod by done. replace c with (j * 2 ^ k + (c - j * 2 ^ k))
    at 1 by lia. by rewrite mod_lead by lia.
Qed.

Lemma cont_digit x : 0 <= x < 64 -> (128 + x) mod 64 = x.
Proof. intros. dlia. Qed.

(** A lead byte with its continuation bytes is the encoding of its value,
    when the value is not below the smallest of that length. *)
Lemma utf8_ref_dec c0 bs mask m :
  utf8_seq_len c0 = Some (Z.of_nat (length bs)) ->
  rd utf8_first_code_mask (Z.of_nat (length bs) - 1) = Ret mask ->
  rd utf8_min_code (Z.of_nat (length bs) - 1) = Ret m ->
  forallb is_cont bs = true -> m <= dec_bits (Z.land c0 mask) bs ->
  dec_bits (Z.land c0 mask) bs < 2 ^ 31 /\
  utf8_ref (dec_bits (Z.land c0 mask) bs) = c0 :: bs.
Proof.
  intros Hsl Hmask Hmin Hco Hm.
  destruct (conts_inv _ Hco) as (xs & -> & Hxs). rewrite length_map in *.
  destruct (utf8_seq_len_inv _ _ Hsl)
    as [[Hl Hc]|[[Hl Hc]|[[Hl Hc]|[[Hl Hc]|[Hl Hc]]]]];
    rewrite Hl in Hmask, Hmin; injection Hmask as <-; injection Hmin as <-;
    clear Hco Hsl; revert Hm.
  - assert (length xs = 1%nat) as Hn by lia.
    destruct xs as [|x1 [|]]; try discriminate Hn. decompose_Forall_hyps.
    change (Z.land c0 31) with (Z.land c0 (Z.ones 5)).
    rewrite (lead_land c0 5 6) by lia. cbn [map dec_bits].
    rewrite !cont_digit by lia. intros Hm. split; [lia|].
    unfold utf8_ref. repeat (zcase; [lia|]). zcase; [|lia].
    rewrite Z.div_1_r. f_equal; [dlia|]. f_equal; dlia.
  - assert (length xs = 2%nat) as Hn by lia.
    destruct xs as [|x1 [|x2 [|]]]; try discriminate Hn. decompose_Forall_hyps.
    change (Z.land c0 15) with (Z.land c0 (Z.ones 4)).
    rewrite (lead_land c0 4 14) by lia. cbn [map dec_bits].
    rewrite !cont_digit by lia. intros Hm. split; [lia|].
    unfold utf8_ref. do 2 (zcase; [lia|]). zcase; [|lia].
    rewrite Z.div_1_r. f_equal; [dlia|]. f_equal; [dlia|]. f_equal; dlia.
  - assert (length xs = 3%nat) as Hn by lia.
    destruct xs as [|x1 [|x2 [|x3 [|]]]]; try discriminate Hn.
    decompose_Forall_hyps.
    change (Z.land c0 7) with (Z.land c0 (Z.ones 3)).
    rewrite (lead_land c0 3 30) by lia. cbn [map dec_bits].
    rewrite !cont_digit by lia. intros Hm. split; [lia|].
    unfold utf8_ref. do 3 (zcase; [lia|]). zcase; [|lia].
    rewrite Z.div_1_r. repeat (f_equal; [dlia|]). f_equal; dlia.
  - assert (length xs = 4%nat) as Hn by lia.
    destruct xs as [|x1 [|x2 [|x3 [|x4 [|]]]]]; try discriminate Hn.
    decompose_Forall_hyps.
    change (Z.land c0 3) with (Z.land c0 (Z.ones 2)).
    rewrite (lead_land c0 2 62) by lia. cbn [map dec_bits].
    rewrite !cont_digit by lia. intros Hm. split; [lia|].
    unfold utf8_ref. do 4 (zcase; [lia|]). zcase; [|lia].
    rewrite Z.div_1_r. repeat (f_equal; [dlia|]). f_equal; dlia.
  - assert (length xs = 5%nat) as Hn by lia.
    destruct xs as [|x1 [|x2 [|x3 [|x4 [|x5 [|]]]]]]; try discriminate Hn.
    decompose_Forall_hyps.
    change (Z.land c0 1) with (Z.land c0 (Z.ones 1)).
    rewrite (lead_land c0 1 126) by lia. cbn [map dec_bits].
    rewrite !cont_digit by lia. intros Hm. split; [lia|].
    unfold utf8_ref. do 5 (zcase; [lia|]).
    rewrite Z.div_1_r. repeat (f_equal; [dlia|]). f_equal; dlia.
Qed.

(** What the decoder accepts is an encoding: the bytes it consumed are those
    of the code point it gives. *)
Lemma decode_inv p pos max_len c pos' :
  0 <= pos -> Forall byte p ->
  unicode_from_utf8 p pos max_len = Ret (c, pos') -> c <> -1 ->
  utf8_code c /\ slice p pos (pos' - pos) = Ret (unicode_to_utf8 c) /\
  pos < pos' <= pos + Z.max 1 max_len.
Proof.
  unfold utf8_code. intros Hp Hby H Hc. unfold unicode_from_utf8 in H.
  destruct (rd p pos) as [c0| |] eqn:Hc0; [|done|done]. cbn [bind] in H.
  apply rd_Ret_inv in Hc0 as [Hb Hc0].
  assert (Hby0 : byte c0) by by eapply Forall_lookup_1 in Hby.
  assert (Hdrop : drop (Z.to_nat pos) p = c0 :: drop (Datatypes.S (Z.to_nat pos)) p)
    by by apply drop_S.
  destruct (Z.ltb_spec c0 0x80).
  { injection H as <- <-. destruct Hby0. rewrite unicode_to_utf8_eq by lia.
    split; [lia|]. split; [|lia]. rewrite slice_in by lia. rewrite Hdrop.
    replace (Z.to_nat (pos + 1 - pos)) with 1%nat by lia.
    unfold utf8_ref. by destruct (Z.ltb_spec c0 0x80); [|lia]. }
  destruct (utf8_seq_len c0) as [l|] eqn:Hsl; [|by injection H as <- <-].
  assert (Hl : 1 <= l) by (destruct (utf8_seq_len_inv _ _ Hsl); lia).
  destruct (Z.ltb_spec (max_len - 1) l); [by injection H as <- <-|].
  destruct (rd utf8_first_code_mask (l - 1)) as [mask| |] eqn:Hmask;
    [|done|done]. cbn [bind] in H.
  destruct (rd utf8_min_code (l - 1)) as [m| |] eqn:Hmin; [|done|done].
  cbn [bind] in H.
  apply dec_loop_inv in H as (bs & Hlen & Htk & Hco & -> & Hm & ->);
    [|lia|lia|done].
  rewrite Z.sub_0_r in Hlen. rewrite Z.add_0_r in Htk. subst l.
  destruct (utf8_ref_dec c0 bs mask m) as [Hub Hr]; try done.
  assert (Hm0 : 0 <= m).
  { apply rd_Ret_inv in Hmin as [_ Hmin].
    assert (Hall : Forall (fun x => 0 <= x) utf8_min_code)
      by (repeat constructor; lia).
    by eapply Forall_lookup_1 in Hall. }
  split; [lia|]. rewrite unicode_to_utf8_eq, Hr by lia. split; [|lia].
  replace (Z.to_nat (pos + 1)) with (Datatypes.S (Z.to_nat pos)) in Htk by lia.
  assert (Hd : take (Datatypes.S (length bs)) (drop (Z.to_nat pos) p) = c0 :: bs).
  { rewrite Hdrop. simpl. by rewrite Htk. }
  assert (Hln : (length bs < length (drop (Z.to_nat pos) p))%nat).
  { apply (f_equal length) in Hd. rewrite length_take in Hd.
    cbn [length] in Hd. lia. }
  rewrite length_drop in Hln. rewrite slice_in by lia. rewrite <- Hd.
  f_equal. f_equal. lia.
Qed.

(** The decoder gives an answer for every bytes. *)
Lemma decode_total p pos : 0 <= pos < Z.of_nat (length p) ->
  wp (unicode_from_utf8 p pos (Z.of_nat (length p) - pos)) (fun _ => True).
Proof.
  intros Hp. unfold unicode_from_utf8. apply wp_bind, wp_rd; [done|]. intros c0 _.
  destruct (c0 <? 0x80); [by apply wp_ret|].
  destruct (utf8_seq_len c0) as [l|] eqn:Hsl; [|by apply wp_ret].
  assert (Hl : 1 <= l <= 5) by (destruct (utf8_seq_len_inv _ _ Hsl); lia).
  destruct (Z.ltb_spec (Z.of_nat (length p) - pos - 1) l); [by apply wp_ret|].
  apply wp_bind, wp_rd; [cbn; lia|]. intros mask _. apply wp_bind, wp_rd; [cbn; lia|]. intros m _.
  apply (wp_loop (fun x => 0 <= x.1 <= l) (fun x => Z.to_nat (l - x.1))); [|cbn; lia|cbn; lia].
  intros [i c] Hi. cbn [fst] in *. unfold utf8_dec_step. destruct (Z.ltb_spec i l).
  - apply wp_bind, wp_rd; [lia|]. intros b _. destruct (_ || _); apply wp_ret; [done|]. cbn. lia.
  - destruct (c <? m); by apply wp_ret.
Qed.

(** C25.  Round trip: decoding what [unicode_to_utf8] wrote, anywhere in a
    block, gives the code point back and moves past its bytes. *)
Theorem utf8_decode_encode c pre rest max_len :
  utf8_code c -> Z.of_nat (length (unicode_to_utf8 c)) <= max_len ->
  unicode_from_utf8 (pre ++ unicode_to_utf8 c ++ rest)
    (Z.of_nat (length pre)) max_len
  = Ret (c, Z.of_nat (length pre) + Z.of_nat (length (unicode_to_utf8 c))).
Proof. apply decode_encoded. Qed.

(** C26.  The decoder accepts canonical encodings only: a success means that
    the bytes consumed are exactly the ones the encoder writes for the code
    point returned, and that no byte after [max_len] was used. *)
Theorem utf8_encode_decode p pos max_len c pos' :
  0 <= pos -> Forall byte p ->
  unicode_from_utf8 p pos max_len = Ret (c, pos') -> c <> -1 ->
  utf8_code c /\ slice p pos (pos' - pos) = Ret (unicode_to_utf8 c) /\
  pos < pos' <= pos + Z.max 1 max_len.
Proof. apply decode_inv. Qed.

Lemma utf8_decode_encode_witness :
  unicode_from_utf8 ([7] ++ unicode_to_utf8 0x20ac ++ [65]) 1 4
  = Ret (0x20ac, 1 + 3).
Proof. apply (utf8_decode_encode 0x20ac [7] [65] 4); vm_compute; intuition congruence. Defined.

Lemma utf8_encode_decode_witness :
  utf8_code 0x20ac /\
  slice [0xe2; 0x82; 0xac] 0 (3 - 0) = Ret (unicode_to_utf8 0x20ac) /\
  0 < 3 <= 0 + Z.max 1 3.
Proof.
  apply (utf8_encode_decode [0xe2; 0x82; 0xac] 0 3 0x20ac 3).
  - lia.
  - repeat (constructor; [unfold byte; lia|]). constructor.
  - reflexivity.
  - lia.
Defined.
