(* ===== verification/Rqsort.v ===== *)
(** * [rqsort]: the sort of [cutils.c]

    The array is a list of elements; a pointer into it is the index of an
    element (the byte offset divided by [size]).  [swap] and [swap_block] act
    on elements here; [Exchange.v] models the byte-level exchange routines
    they stand for.  The comparison callback may have a state ([opaque]). *)

From stdpp Require Import base tactics numbers list option.
From Stdlib Require Import ZArith Lia.
From S2P Require Import Prelude.

Open Scope Z_scope.

Section rqsort.
Context {A St : Type} (cmp : St -> A -> A -> Z * St).

(** [cmp(base + i, base + j, opaque)] *)
Definition cmp_at (arr : list A) (st : St) (i j : Z) : res (Z * St) :=
  let* x := rd arr i in
  let* y := rd arr j in
  Ret (cmp st x y).

(** [swap(a, b, size)] on two elements *)
Definition swap (arr : list A) (i j : Z) : res (list A) :=
  let* x := rd arr i in
  let* y := rd arr j in
  let* arr := wr arr i y in
  wr arr j x.

(** [swap_block(a, b, n * size)]: element by element, in order *)
Definition swap_block (arr : list A) (a b n : Z) : res (list A) :=
  for_upto (Z.to_nat n) 0 (fun k arr => swap arr (a + k) (b + k)) arr.

(** The sift-down loop of [heapsortx] on the heap [base .. base + n). *)
Definition heap_sift_step (base n : Z)
  : list A * St * Z -> res (list A * St * Z + list A * St) :=
  fun '(arr, st, r) =>
    let c := r * 2 + 1 in
    if c <? n then
      let* (c, st) :=
        if c <? n - 1 then
          let* (d, st) := cmp_at arr st (base + c) (base + c + 1) in
          Ret (if d <=? 0 then c + 1 else c, st)
        else Ret (c, st) in
      let* (d, st) := cmp_at arr st (base + r) (base + c) in
      if 0 <? d then Ret (inr (arr, st))
      else
        let* arr := swap arr (base + r) (base + c) in
        Ret (inl (arr, st, c))
    else Ret (inr (arr, st)).

Definition heap_sift (base n r : Z) (arr : list A) (st : St)
  : res (list A * St) :=
  loop (Datatypes.S (Z.to_nat n)) (heap_sift_step base n) (arr, st, r).

Definition heapsortx (base nmemb : Z) (arr : list A) (st : St)
  : res (list A * St) :=
  if 1 <? nmemb then
    (* while (i > 0) { i -= size; sift } *)
    let* (arr, st) := loop (Datatypes.S (Z.to_nat nmemb)) (fun '(arr, st, i) =>
      if 0 <? i then
        let i := i - 1 in
        let* (arr, st) := heap_sift base nmemb i arr st in
        Ret (inl (arr, st, i))
      else Ret (inr (arr, st))) (arr, st, nmemb / 2) in
    (* for (i = n - size; i > 0; i -= size) *)
    loop (Datatypes.S (Z.to_nat nmemb)) (fun '(arr, st, i) =>
      if 0 <? i then
        let* arr := swap arr base (base + i) in
        let* (arr, st) := heap_sift base i 0 arr st in
        Ret (inl (arr, st, i - 1))
      else Ret (inr (arr, st))) (arr, st, nmemb - 1)
  else Ret (arr, st).

Definition med3 (arr : list A) (st : St) (a b c : Z) : res (Z * St) :=
  let* (d, st) := cmp_at arr st a b in
  if d <? 0 then
    let* (d, st) := cmp_at arr st b c in
    if d <? 0 then Ret (b, st)
    else
      let* (d, st) := cmp_at arr st a c in
      Ret (if d <? 0 then c else a, st)
  else
    let* (d, st) := cmp_at arr st b c in
    if 0 <? d then Ret (b, st)
    else
      let* (d, st) := cmp_at arr st a c in
      Ret (if d <? 0 then a else c, st).

(** The variables of the partition loop: [i], [lt], [gt] are counts, the
    others pointers. *)
Record part := mkPart {
  p_i : Z; p_lt : Z; p_gt : Z;
  p_pi : Z; p_plt : Z; p_pj : Z; p_pgt : Z
}.

(** [while (pi < pj && (c = cmp(ptr, pi, opaque)) >= 0)] *)
Definition part_up (ptr : Z)
  : list A * St * part -> res (list A * St * part + list A * St * part) :=
  fun '(arr, st, p) =>
    if p_pi p <? p_pj p then
      let* (c, st) := cmp_at arr st ptr (p_pi p) in
      if 0 <=? c then
        if c =? 0 then
          let* arr := swap arr (p_plt p) (p_pi p) in
          Ret (inl (arr, st, mkPart (p_i p + 1) (p_lt p + 1) (p_gt p)
                               (p_pi p + 1) (p_plt p + 1) (p_pj p) (p_pgt p)))
        else
          Ret (inl (arr, st, mkPart (p_i p + 1) (p_lt p) (p_gt p)
                               (p_pi p + 1) (p_plt p) (p_pj p) (p_pgt p)))
      else Ret (inr (arr, st, p))
    else Ret (inr (arr, st, p)).

(** [while (pi < (pj -= size) && (c = cmp(ptr, pj, opaque)) <= 0)] *)
Definition part_down (ptr : Z)
  : list A * St * part -> res (list A * St * part + list A * St * part) :=
  fun '(arr, st, p) =>
    let pj := p_pj p - 1 in
    let p := mkPart (p_i p) (p_lt p) (p_gt p) (p_pi p) (p_plt p) pj (p_pgt p) in
    if p_pi p <? pj then
      let* (c, st) := cmp_at arr st ptr pj in
      if c <=? 0 then
        if c =? 0 then
          let* arr := swap arr (p_pgt p - 1) pj in
          Ret (inl (arr, st, mkPart (p_i p) (p_lt p) (p_gt p - 1)
                               (p_pi p) (p_plt p) pj (p_pgt p - 1)))
        else Ret (inl (arr, st, p))
      else Ret (inr (arr, st, p))
    else Ret (inr (arr, st, p)).

(** The [for(;;)] of the partition. *)
Definition part_step (ptr nmemb : Z)
  : list A * St * part -> res (list A * St * part + list A * St * part) :=
  fun '(arr, st, p) =>
    let* (arr, st, p) :=
      loop (Datatypes.S (Z.to_nat nmemb)) (part_up ptr) (arr, st, p) in
    let* (arr, st, p) :=
      loop (Datatypes.S (Z.to_nat nmemb)) (part_down ptr) (arr, st, p) in
    if p_pj p <=? p_pi p then Ret (inr (arr, st, p))
    else
      let* arr := swap arr (p_pi p) (p_pj p) in
      Ret (inl (arr, st, mkPart (p_i p + 1) (p_lt p) (p_gt p)
                           (p_pi p + 1) (p_plt p) (p_pj p) (p_pgt p))).

(** One partition of [ptr .. ptr + nmemb): the array, [lt], [gt] and
    [pgt] after the elements equal to the pivot are moved to the middle. *)
Definition partition (ptr nmemb : Z) (arr : list A) (st : St)
  : res (list A * St * (Z * Z * Z)) :=
  let m4 := Z.shiftr nmemb 2 in
  let* (m, st) := med3 arr st (ptr + m4) (ptr + 2 * m4) (ptr + 3 * m4) in
  let* arr := swap arr ptr m in
  let top := ptr + nmemb in
  let* (arr, st, p) :=
    loop (Datatypes.S (Z.to_nat nmemb)) (part_step ptr nmemb)
      (arr, st, mkPart 1 1 nmemb (ptr + 1) (ptr + 1) top top) in
  let span := p_plt p - ptr in
  let span2 := p_pi p - p_plt p in
  let lt := p_i p - p_lt p in
  let span := if span2 <? span then span2 else span in
  let* arr := swap_block arr ptr (p_pi p - span) span in
  let span := top - p_pgt p in
  let span2 := p_pgt p - p_pi p in
  let pgt := top - span2 in
  let gt := nmemb - (p_gt p - p_i p) in
  let span := if span2 <? span then span2 else span in
  let* arr := swap_block arr (p_pi p) (top - span) span in
  Ret (arr, st, (lt, gt, pgt)).

(** [for (pi = ptr + size; pi < top; pi += size)] ... *)
Definition insertion_sort (ptr nmemb : Z) (arr : list A) (st : St)
  : res (list A * St) :=
  loop (Datatypes.S (Z.to_nat nmemb)) (fun '(arr, st, pi) =>
    if pi <? ptr + nmemb then
      let* (arr, st) :=
        loop (Datatypes.S (Z.to_nat nmemb)) (fun '(arr, st, pj) =>
          if ptr <? pj then
            let* (c, st) := cmp_at arr st (pj - 1) pj in
            if 0 <? c then
              let* arr := swap arr pj (pj - 1) in
              Ret (inl (arr, st, pj - 1))
            else Ret (inr (arr, st))
          else Ret (inr (arr, st))) (arr, st, pi) in
      Ret (inl (arr, st, pi + 1))
    else Ret (inr (arr, st))) (arr, st, ptr + 1).

(** An entry of the local stack of pending segments. *)
Record frame := mkFrame { f_base : Z; f_count : Z; f_depth : Z }.

(** [sp->...; sp++]: [stack] has 50 entries. *)
Definition push_frame (stack : list frame) (f : frame) : res (list frame) :=
  if Z.of_nat (length stack) <? 50 then Ret (f :: stack) else Ub.

(** [while (nmemb > 6)]: the result is what is left for the insertion
    sort. *)
Definition quick_step
  : list A * St * list frame * Z * Z * Z ->
    res (list A * St * list frame * Z * Z * Z
         + list A * St * list frame * Z * Z) :=
  fun '(arr, st, stack, ptr, nmemb, depth) =>
    if 6 <? nmemb then
      let depth := depth + 1 in
      if 50 <? depth then
        let* (arr, st) := heapsortx ptr nmemb arr st in
        Ret (inr (arr, st, stack, ptr, 0))
      else
        let* (arr, st, (lt, gt, pgt)) := partition ptr nmemb arr st in
        if nmemb - gt <? lt then
          let* stack := push_frame stack (mkFrame ptr lt depth) in
          Ret (inl (arr, st, stack, pgt, nmemb - gt, depth))
        else
          let* stack := push_frame stack (mkFrame pgt (nmemb - gt) depth) in
          Ret (inl (arr, st, stack, ptr, lt, depth))
    else Ret (inr (arr, st, stack, ptr, nmemb)).

(** [while (sp > stack)] *)
Definition rqsort_step (n : nat)
  : list A * St * list frame ->
    res (list A * St * list frame + list A * St) :=
  fun '(arr, st, stack) =>
    match stack with
    | [] => Ret (inr (arr, st))
    | f :: stack =>
        let* (arr, st, stack, ptr, nmemb) :=
          loop (Datatypes.S n) quick_step
            (arr, st, stack, f_base f, f_count f, f_depth f) in
        let* (arr, st) := insertion_sort ptr nmemb arr st in
        Ret (inl (arr, st, stack))
    end.

(** [rqsort(arr, length arr, size, cmp, opaque)] *)
Definition rqsort (arr : list A) (st : St) : res (list A * St) :=
  let nmemb := Z.of_nat (length arr) in
  if nmemb <? 2 then Ret (arr, st)
  else
    let* stack := push_frame [] (mkFrame 0 nmemb 0) in
    loop (length arr + 2) (rqsort_step (length arr)) (arr, st, stack).
End rqsort.
