(* ===== verification/RqsortSpec.v ===== *)
(** * [rqsort] sorts, and never loses an element

    For any comparison callback at all, [rqsort] returns, stays inside the
    array and its 50-entry stack, and permutes the array.  For a callback
    that is a total preorder the result is sorted.  The segment lemmas are
    shared by the insertion sort, [heapsortx] and the partition. *)

From stdpp Require Import base tactics numbers list option sets.
From Stdlib Require Import ZArith Lia.
From S2P Require Import Prelude Rqsort.

Open Scope Z_scope.

Notation "a .[ k ]" := (a !! Z.to_nat k) (at level 1, format "a .[ k ]").

(** ** Rearranging one segment of an array *)

Section segments.
Context {A : Type}.
Implicit Types (a b c : list A).

(** [b] is [a] with the elements of [lo .. hi) permuted. *)
Definition seg_perm (lo hi : Z) (a b : list A) : Prop :=
  length b = length a /\ a ≡ₚ b /\
  forall k, 0 <= k -> k < lo \/ hi <= k -> b.[k] = a.[k].

Lemma seg_perm_refl lo hi a : seg_perm lo hi a a.
Proof. done. Qed.

Lemma seg_perm_trans lo hi a b c :
  seg_perm lo hi a b -> seg_perm lo hi b c -> seg_perm lo hi a c.
Proof.
  intros (L1&P1&F1) (L2&P2&F2). split; [congruence|].
  split; [by etrans|]. intros k Hk Ho. by rewrite F2, F1.
Qed.

Lemma seg_perm_weaken lo hi lo' hi' a b :
  seg_perm lo hi a b -> lo' <= lo -> hi <= hi' -> seg_perm lo' hi' a b.
Proof.
  intros (L&P&F) ??. split; [done|]. split; [done|].
  intros k Hk Ho. apply F; lia.
Qed.

Lemma seg_perm_mid lo hi a b :
  0 <= lo <= hi -> seg_perm lo hi a b ->
  take (Z.to_nat (hi - lo)) (drop (Z.to_nat lo) a)
  ≡ₚ take (Z.to_nat (hi - lo)) (drop (Z.to_nat lo) b).
Proof.
  intros Hlo (L&P&F).
  assert (Hsplit : forall l : list A, l = take (Z.to_nat lo) l
    ++ take (Z.to_nat (hi - lo)) (drop (Z.to_nat lo) l)
    ++ drop (Z.to_nat hi) l).
  { intros l. rewrite <- (take_drop (Z.to_nat lo) l) at 1. f_equal.
    rewrite <- (take_drop (Z.to_nat (hi - lo)) (drop (Z.to_nat lo) l)) at 1.
    f_equal. rewrite drop_drop. f_equal. lia. }
  assert (Ht : take (Z.to_nat lo) b = take (Z.to_nat lo) a).
  { apply list_eq. intros i. rewrite !lookup_take. case_decide; [|done].
    rewrite <- (Nat2Z.id i). apply F; lia. }
  assert (Hd : drop (Z.to_nat hi) b = drop (Z.to_nat hi) a).
  { apply list_eq. intros i. rewrite !lookup_drop.
    rewrite <- (Nat2Z.id (_ + i)). apply F; lia. }
  rewrite (Hsplit a), (Hsplit b), Ht, Hd in P.
  by apply Permutation_app_inv_l, Permutation_app_inv_r in P.
Qed.

(** What a segment holds afterwards was in the segment before. *)
Lemma seg_perm_origin lo hi a b i x :
  seg_perm lo hi a b -> 0 <= lo <= i -> i < hi -> b.[i] = Some x ->
  exists k, lo <= k < hi /\ a.[k] = Some x.
Proof.
  intros Hs Hi Hhi Hx.
  assert (Hin : x ∈ take (Z.to_nat (hi - lo)) (drop (Z.to_nat lo) b)).
  { apply list_elem_of_lookup. exists (Z.to_nat (i - lo)).
    rewrite lookup_take_lt, lookup_drop by lia.
    by replace (Z.to_nat lo + Z.to_nat (i - lo))%nat with (Z.to_nat i) by lia. }
  rewrite <- (seg_perm_mid lo hi a b) in Hin by (done || lia).
  apply list_elem_of_lookup in Hin as [j Hj].
  apply lookup_take_Some in Hj as [Hj Hjl]. rewrite lookup_drop in Hj.
  exists (lo + Z.of_nat j). split; [lia|].
  by replace (Z.to_nat (lo + Z.of_nat j)) with (Z.to_nat lo + j)%nat by lia.
Qed.

Lemma at_Some a k : 0 <= k < Z.of_nat (length a) -> exists x, a.[k] = Some x.
Proof. intros. apply lookup_lt_is_Some_2. lia. Qed.

(** ** Exchanging two elements *)

Definition swapped (i j : Z) (a b : list A) : Prop :=
  length b = length a /\ a ≡ₚ b /\
  forall k, 0 <= k ->
    b.[k] = if k =? i then a.[j] else if k =? j then a.[i] else a.[k].

Lemma swap_perm a (i j : nat) x y :
  a !! i = Some x -> a !! j = Some y -> a ≡ₚ <[j:=x]> (<[i:=y]> a).
Proof.
  intros Hi Hj. symmetry. apply Permutation_inj.
  rewrite !length_insert. split; [done|].
  exists (fun k => if decide (k = j) then i else if decide (k = i) then j else k).
  split.
  - intros k1 k2. repeat case_decide; congruence.
  - intros k. pose proof (lookup_lt_Some _ _ _ Hi).
    pose proof (lookup_lt_Some _ _ _ Hj).
    rewrite !list_lookup_insert, !length_insert.
    repeat case_decide; destruct_and?; subst; try congruence; lia.
Qed.

Lemma swap_spec a i j :
  0 <= i < Z.of_nat (length a) -> 0 <= j < Z.of_nat (length a) ->
  wp (swap a i j) (swapped i j a).
Proof.
  intros Hi Hj. unfold swap.
  apply wp_bind, wp_rd; [done|]. intros x Hx.
  apply wp_bind, wp_rd; [done|]. intros y Hy.
  apply wp_bind, wp_wr; [done|]. apply wp_wr; [by rewrite length_insert|].
  split; [by rewrite !length_insert|]. split; [by apply swap_perm|].
  intros k Hk. rewrite !list_lookup_insert, length_insert.
  repeat zcase; subst; repeat case_decide; try congruence; try lia.
  replace j with i by lia. congruence.
Qed.

Lemma swapped_seg i j lo hi a b :
  swapped i j a b -> lo <= i < hi -> lo <= j < hi -> seg_perm lo hi a b.
Proof.
  intros (L&P&F) Hi Hj. split; [done|]. split; [done|].
  intros k Hk Ho. rewrite F by done. repeat zcase; lia || done.
Qed.

Lemma swapped_l i j a b : 0 <= i -> swapped i j a b -> b.[i] = a.[j].
Proof. intros Hi (_ & _ & F). rewrite F by done. by rewrite Z.eqb_refl. Qed.

Lemma swapped_r i j a b : 0 <= j -> swapped i j a b -> b.[j] = a.[i].
Proof.
  intros Hi (_ & _ & F). rewrite F by done. rewrite Z.eqb_refl.
  by zcase; [subst|].
Qed.

Lemma swapped_o i j k a b :
  0 <= k -> k <> i -> k <> j -> swapped i j a b -> b.[k] = a.[k].
Proof. intros ??? (_ & _ & F). rewrite F by done. by do 2 (zcase; [lia|]). Qed.

(** Exchanging two blocks that do not overlap. *)
Lemma swap_block_spec a i j n :
  0 <= n -> 0 <= i -> 0 <= j ->
  i + n <= Z.of_nat (length a) -> j + n <= Z.of_nat (length a) ->
  i + n <= j \/ j + n <= i ->
  wp (swap_block a i j n) (fun b =>
    length b = length a /\ a ≡ₚ b /\
    forall k, 0 <= k -> b.[k] =
      if (i <=? k) && (k <? i + n) then a.[j + (k - i)]
      else if (j <=? k) && (k <? j + n) then a.[i + (k - j)] else a.[k]).
Proof.
  intros Hn Hi Hj Hin Hjn Hdis. unfold swap_block.
  pose (Inv := fun (m : Z) (b : list A) =>
    length b = length a /\ a ≡ₚ b /\
    forall k, 0 <= k -> b.[k] =
      if (i <=? k) && (k <? i + m) then a.[j + (k - i)]
      else if (j <=? k) && (k <? j + m) then a.[i + (k - j)] else a.[k]).
  eapply wp_mono; [apply (wp_for Inv)|].
  - intros m b Hm (L&P&F). eapply wp_mono; [apply swap_spec; lia|].
    intros c (L'&P'&F'). split; [congruence|]. split; [by etrans|].
    intros k Hk. rewrite F' by done.
    destruct (Z.eqb_spec k (i + m)) as [->|]; [|destruct (Z.eqb_spec k (j + m)) as [->|]];
      rewrite F by lia; repeat (zcase; try lia); simpl; try done; do 2 f_equal; lia.
  - split; [done|]. split; [done|]. intros k Hk. by repeat (zcase; try lia).
  - intros b. by replace (0 + Z.of_nat (Z.to_nat n)) with n by lia.
Qed.
End segments.

(** ** Orders on positions *)

Section order.
Context {A St : Type} (cmp : St -> A -> A -> Z * St) (f : A -> A -> Z).

(** The callback answers [f], whatever its state, and [f] is a total
    preorder in the way [qsort] callbacks are. *)
Record cmp_order : Prop := {
  co_pure : forall st x y, fst (cmp st x y) = f x y;
  co_anti : forall x y, f x y < 0 <-> 0 < f y x;
  co_trans : forall x y z, f x y <= 0 -> f y z <= 0 -> f x z <= 0
}.

(** The element at [i] is not above the element at [j]. *)
Definition le_at (a : list A) (i j : Z) : Prop :=
  forall x y, a.[i] = Some x -> a.[j] = Some y -> f x y <= 0.

Definition sorted_seg (a : list A) (lo hi : Z) : Prop :=
  forall i j, lo <= i -> i < j -> j < hi -> le_at a i j.

Lemma f_refl x : cmp_order -> f x x = 0.
Proof. intros O. pose proof (co_anti O x x). lia. Qed.

Lemma f_flip x y : cmp_order -> f x y <= 0 <-> 0 <= f y x.
Proof. intros O. pose proof (co_anti O x y). pose proof (co_anti O y x). lia. Qed.

Lemma le_at_trans a i j k :
  cmp_order -> 0 <= j < Z.of_nat (length a) ->
  le_at a i j -> le_at a j k -> le_at a i k.
Proof.
  intros O Hj H1 H2 x z Hx Hz. destruct (at_Some a j Hj) as [y Hy].
  eapply (co_trans O); eauto.
Qed.

Lemma le_at_refl a i : cmp_order -> le_at a i i.
Proof. intros O x y Hx Hy. simplify_eq. rewrite f_refl; [lia|done]. Qed.

(** [cmp_at] reads two elements and, for an order, compares them. *)
Lemma cmp_at_spec arr st i j :
  0 <= i < Z.of_nat (length arr) -> 0 <= j < Z.of_nat (length arr) ->
  wp (cmp_at cmp arr st i j) (fun '(d, _) => cmp_order ->
    (d <= 0 -> le_at arr i j) /\ (0 <= d -> le_at arr j i) /\
    (forall x y, arr.[i] = Some x -> arr.[j] = Some y -> d = f x y)).
Proof.
  intros Hi Hj. unfold cmp_at.
  apply wp_bind, wp_rd; [done|]. intros x Hx.
  apply wp_bind, wp_rd; [done|]. intros y Hy. simpl.
  destruct (cmp st x y) as [d st'] eqn:Ec. intros O.
  pose proof (co_pure O st x y) as Hd. rewrite Ec in Hd. simpl in Hd. subst d.
  split; [|split].
  - intros ? x' y' ??. by simplify_eq.
  - intros ? y' x' ??. simplify_eq. by apply f_flip.
  - intros ????. by simplify_eq.
Qed.

(** Reordering positions: the workhorse of the invariants below. *)
Lemma le_at_eq a b i j i' j' :
  b.[i] = a.[i'] -> b.[j] = a.[j'] -> le_at a i' j' -> le_at b i j.
Proof. intros Hi Hj H x y Hx Hy. rewrite Hi in Hx. rewrite Hj in Hy. eauto. Qed.

(** *** The insertion sort *)

(** All of [lo .. hi) is sorted but for the element at [pj], which may be
    too small for its place. *)
Definition hole_sorted (a : list A) (lo hi pj : Z) : Prop :=
  forall i j, lo <= i -> i < j -> j < hi -> j <> pj -> le_at a i j.

(** Moving the hole one place down. *)
Lemma hole_step a b lo hi pj :
  cmp_order -> 0 <= lo < pj -> pj < hi -> le_at a pj (pj - 1) ->
  swapped pj (pj - 1) a b ->
  hole_sorted a lo hi pj -> hole_sorted b lo hi (pj - 1).
Proof.
  intros O Hlo Hhi Hge (_ & _ & F) Hh i j Hi Hij Hj Hne.
  assert (Hor : j = pj \/ j <> pj) by lia.
  assert (Hor' : i = pj \/ i = pj - 1 \/ (i <> pj /\ i <> pj - 1)) by lia.
  destruct Hor as [->|Hj']; destruct Hor' as [->|[->|[Hi1 Hi2]]]; try lia;
    (eapply le_at_eq; [rewrite F by lia; repeat (zcase; try lia); reflexivity
      |rewrite F by lia; repeat (zcase; try lia); reflexivity|]);
    first [apply Hge; lia|apply Hh; lia].
Qed.

(** The hole is closed when the element below it is not larger. *)
Lemma hole_close a lo hi pj :
  cmp_order -> 0 <= lo -> lo < pj < hi -> hi <= Z.of_nat (length a) ->
  le_at a (pj - 1) pj -> hole_sorted a lo hi pj -> sorted_seg a lo hi.
Proof.
  intros O Hlo Hpj Hhi Hle Hh i j Hi Hij Hj.
  destruct (decide (j = pj)) as [->|]; [|by apply Hh].
  destruct (decide (i = pj - 1)) as [->|]; [by apply Hle|].
  apply (le_at_trans _ _ (pj - 1)); [done|lia| |by apply Hle].
  apply Hh; lia.
Qed.

Definition insert_step (ptr : Z)
  : list A * St * Z -> res (list A * St * Z + list A * St) :=
  fun '(arr, st, pj) =>
    if ptr <? pj then
      let* (c, st) := cmp_at cmp arr st (pj - 1) pj in
      if 0 <? c then
        let* arr := swap arr pj (pj - 1) in
        Ret (inl (arr, st, pj - 1))
      else Ret (inr (arr, st))
    else Ret (inr (arr, st)).

Lemma insert_spec ptr hi pi arr st fuel :
  0 <= ptr <= pi -> pi < hi -> hi <= Z.of_nat (length arr) ->
  (Z.to_nat (pi - ptr) < fuel)%nat ->
  (cmp_order -> sorted_seg arr ptr pi) ->
  wp (loop fuel (insert_step ptr) (arr, st, pi)) (fun '(arr', _) =>
    seg_perm ptr hi arr arr' /\
    (cmp_order -> sorted_seg arr' ptr (pi + 1))).
Proof.
  intros Hp Hpi Hb Hf Hso.
  apply (wp_loop (fun '(a', s', pj) =>
      ptr <= pj <= pi /\ seg_perm ptr hi arr a' /\
      (cmp_order -> hole_sorted a' ptr (pi + 1) pj))
    (fun '(a', s', pj) => Z.to_nat (pj - ptr))).
  - intros [[a' s'] pj] (Hpj & Hsp' & Hh).
    assert (HL' : length a' = length arr) by apply Hsp'. simpl.
    destruct (Z.ltb_spec ptr pj) as [Hlt'|Hge'].
    2: { simpl. split; [done|]. intros O i j ???. apply Hh; [done|lia..]. }
    apply wp_bind. eapply wp_mono; [apply cmp_at_spec; lia|].
    intros [c s''] Hc. destruct (Z.ltb_spec 0 c).
    + apply wp_bind. eapply wp_mono; [apply swap_spec; lia|].
      intros a'' Hsw. simpl. split; [|lia]. split; [lia|]. split.
      { eapply seg_perm_trans; [done|]. eapply swapped_seg; [done|lia..]. }
      intros O. eapply hole_step; [done|lia|lia| |done|by apply Hh].
      apply (Hc O). lia.
    + simpl. split; [done|]. intros O. apply (hole_close _ _ _ pj);
        [done|lia..| |by apply Hh]. apply (Hc O). lia.
  - split; [lia|]. split; [done|]. intros O i j ????. apply Hso; [done|lia..].
  - done.
Qed.

Lemma insertion_sort_spec ptr nmemb arr st :
  0 <= ptr -> 0 <= nmemb -> ptr + nmemb <= Z.of_nat (length arr) ->
  wp (insertion_sort cmp ptr nmemb arr st) (fun '(arr', _) =>
    seg_perm ptr (ptr + nmemb) arr arr' /\
    (cmp_order -> sorted_seg arr' ptr (ptr + nmemb))).
Proof.
  intros Hp Hn Hb. unfold insertion_sort.
  apply (wp_loop (fun '(a, s, pi) =>
      ptr + 1 <= pi <= Z.max (ptr + 1) (ptr + nmemb) /\
      seg_perm ptr (ptr + nmemb) arr a /\
      (cmp_order -> sorted_seg a ptr pi))
    (fun '(a, s, pi) => Z.to_nat (ptr + nmemb - pi))).
  2: { split; [lia|]. split; [done|]. intros O i j. lia. }
  2: { lia. }
  intros [[a s] pi] (Hpi & Hsp & Hso).
  destruct (Z.ltb_spec pi (ptr + nmemb)) as [Hlt|Hge].
  2: { simpl. split; [done|]. intros O i j ???. apply Hso; [done|lia..]. }
  assert (HL : length a = length arr) by apply Hsp.
  apply wp_bind. eapply wp_mono.
  { apply (insert_spec ptr (ptr + nmemb)); [lia..|done]. }
  intros [a' s'] [Hsp' Hso']. simpl. split; [|lia]. split; [lia|].
  split; [by eapply seg_perm_trans|done].
Qed.

(** *** [heapsortx] *)

Definition child (i c : Z) : Prop := c = 2 * i + 1 \/ c = 2 * i + 2.

(** In the heap [base .. base + n), [i] is not below its children. *)
Definition heap_at (base n : Z) (a : list A) (i : Z) : Prop :=
  forall c, child i c -> c < n -> le_at a (base + c) (base + i).

(** A heap from [lo] on, but for the hole [r]; the parent of the hole is
    not below the children of the hole. *)
Definition heap_hole (base n lo r : Z) (a : list A) : Prop :=
  (forall i, lo <= i -> i <> r -> heap_at base n a i) /\
  (forall i, lo <= i -> child i r ->
    forall c, child r c -> c < n -> le_at a (base + c) (base + i)).

Definition heap_from (base n lo : Z) (a : list A) : Prop :=
  forall i, lo <= i -> heap_at base n a i.

(** Exchanging the hole [r] with its largest child [c]. *)
Lemma heap_hole_step base n lo r c a b :
  cmp_order -> 0 <= base -> 0 <= lo <= r -> child r c -> c < n ->
  base + n <= Z.of_nat (length a) ->
  le_at a (base + r) (base + c) ->
  (forall c', child r c' -> c' < n -> le_at a (base + c') (base + c)) ->
  swapped (base + r) (base + c) a b ->
  heap_hole base n lo r a -> heap_hole base n lo c b.
Proof.
  intros O Hb Hlo Hc Hcn Hlen Hle Hmax Hsw [H1 H2]. unfold child in *.
  assert (Fr : b.[base + r] = a.[base + c]) by (eapply swapped_l; [|exact Hsw]; lia).
  assert (Fc : b.[base + c] = a.[base + r]) by (eapply swapped_r; [|exact Hsw]; lia).
  assert (Fo : forall k, 0 <= k -> k <> r -> k <> c -> b.[base + k] = a.[base + k])
    
    by (intros; apply (swapped_o (base + r) (base + c)); [lia..|done]).
  split.
  - intros i Hi Hne c' Hc' Hn'. unfold child in *.
    destruct (decide (i = r)) as [->|Hir].
    + destruct (decide (c' = c)) as [->|Hcc].
      * by eapply le_at_eq; [exact Fc|exact Fr|].
      * eapply le_at_eq; [apply Fo; lia|exact Fr|]. by apply Hmax.
    + destruct (decide (c' = r)) as [->|Hcr].
      * eapply le_at_eq; [exact Fr|apply Fo; lia|]. by apply (H2 i).
      * eapply le_at_eq; [apply Fo; lia|apply Fo; lia|].
        apply H1; unfold child; lia.
  - intros i Hi Hci c' Hc' Hn'. unfold child in *.
    assert (i = r) as -> by lia.
    eapply le_at_eq; [apply Fo; lia|exact Fr|]. apply H1; unfold child; lia.
Qed.

(** The hole is closed when it is not below its largest child [c]. *)
Lemma heap_hole_close base n lo r c a :
  cmp_order -> 0 <= base -> 0 <= lo <= r -> 0 <= c < n ->
  base + n <= Z.of_nat (length a) ->
  le_at a (base + c) (base + r) ->
  (forall c', child r c' -> c' < n -> le_at a (base + c') (base + c)) ->
  heap_hole base n lo r a -> heap_from base n lo a.
Proof.
  intros O Hb Hlo Hc Hlen Hle Hmax [H1 H2] i Hi.
  destruct (decide (i = r)) as [->|]; [|by apply H1].
  intros c' Hc' Hn'. eapply (le_at_trans _ _ (base + c)); [done|lia| |done].
  by apply Hmax.
Qed.

(** The larger child: the one the inner [if] of the sift loop picks. *)
Lemma max_child_spec base n r arr st :
  0 <= base -> 0 <= r -> base + n <= Z.of_nat (length arr) ->
  r * 2 + 1 < n ->
  wp (if r * 2 + 1 <? n - 1 then
        let* (d, st) := cmp_at cmp arr st (base + (r * 2 + 1))
                          (base + (r * 2 + 1) + 1) in
        Ret (if d <=? 0 then r * 2 + 1 + 1 else r * 2 + 1, st)
      else Ret (r * 2 + 1, st))
    (fun '(c, _) => child r c /\ c < n /\ (cmp_order ->
      forall c', child r c' -> c' < n -> le_at arr (base + c') (base + c))).
Proof.
  intros Hb Hr Hlen Hn. unfold child. zcase.
  - apply wp_bind. eapply wp_mono; [apply cmp_at_spec; lia|].
    intros [d st'] Hd. simpl. zcase; (split; [lia|]; split; [lia|]);
      intros O c' Hc' Hn'; destruct (Hd O) as (Hle & Hge & _).
    + assert (c' = r * 2 + 1 \/ c' = r * 2 + 1 + 1) as [->| ->] by lia.
      * replace (base + (r * 2 + 1 + 1)) with (base + (r * 2 + 1) + 1) by lia.
        by apply Hle.
      * by apply le_at_refl.
    + assert (c' = r * 2 + 1 \/ c' = r * 2 + 1 + 1) as [->| ->] by lia.
      * by apply le_at_refl.
      * replace (base + (r * 2 + 1 + 1)) with (base + (r * 2 + 1) + 1) by lia.
        apply Hge. lia.
  - simpl. split; [lia|]. split; [lia|]. intros O c' Hc' Hn'.
    assert (c' = r * 2 + 1) as -> by lia. by apply le_at_refl.
Qed.

Lemma heap_sift_spec base n lo r arr st :
  0 <= base -> 0 <= lo <= r -> r < n -> base + n <= Z.of_nat (length arr) ->
  (cmp_order -> heap_hole base n lo r arr) ->
  wp (heap_sift cmp base n r arr st) (fun '(arr', _) =>
    seg_perm base (base + n) arr arr' /\
    (cmp_order -> heap_from base n lo arr')).
Proof.
  intros Hb Hlo Hr Hlen Hh. unfold heap_sift.
  apply (wp_loop (fun '(a, s, r) => lo <= r < n /\
      seg_perm base (base + n) arr a /\
      (cmp_order -> heap_hole base n lo r a))
    (fun '(a, s, r) => Z.to_nat (n - r))).
  2: { split; [lia|]. by split. }
  2: { lia. }
  assert (H0 : 0 <= lo) by lia.
  clear r Hlo Hr Hh. intros [[a s] r] (Hr & Hsp & Hh).
  assert (HL : length a = length arr) by apply Hsp. unfold heap_sift_step.
  destruct (Z.ltb_spec (r * 2 + 1) n) as [Hlt|Hge].
  2: { simpl. split; [done|]. intros O i Hi.
       destruct (decide (i = r)) as [->|]; [|by apply (Hh O)].
       intros c Hc Hcn. unfold child in Hc. lia. }
  apply wp_bind. eapply wp_mono; [apply max_child_spec; lia|].
  intros [c s'] (Hc & Hcn & Hmax). unfold child in Hc.
  apply wp_bind. eapply wp_mono; [apply cmp_at_spec; lia|].
  intros [d s''] Hd. destruct (Z.ltb_spec 0 d).
  - simpl. split; [done|]. intros O.
    apply (heap_hole_close _ _ _ r c); auto; try lia. apply (Hd O). lia.
  - apply wp_bind. eapply wp_mono; [apply swap_spec; lia|].
    intros b Hsw. simpl. split; [|lia]. split; [lia|]. split.
    { eapply seg_perm_trans; [done|]. eapply swapped_seg; [done|lia..]. }
    intros O. eapply (heap_hole_step base n lo r c a); auto; try lia.
    apply (Hd O). lia.
Qed.

Lemma heap_max base n a k :
  cmp_order -> 0 <= base -> base + n <= Z.of_nat (length a) ->
  heap_from base n 0 a -> 0 <= k < n -> le_at a (base + k) (base + 0).
Proof.
  intros O Hb Hlen Hh.
  induction k as [k IH] using (well_founded_induction (Z.lt_wf 0)). intros Hk.
  destruct (decide (k = 0)) as [->|]; [by apply le_at_refl|].
  assert (Hp : child ((k - 1) / 2) k) by (unfold child; dlia).
  assert (0 <= (k - 1) / 2 < k) by dlia.
  apply (le_at_trans _ _ (base + (k - 1) / 2)); [done|lia| |apply IH; lia].
  apply (Hh ((k - 1) / 2)); [lia|done|lia].
Qed.

(** The second phase: a heap below [i], and the largest elements sorted
    above it. *)
Definition heap_tail (base n i : Z) (a : list A) : Prop :=
  heap_from base (i + 1) 0 a /\
  forall x y, 0 <= x -> x < y -> i < y -> y < n -> le_at a (base + x) (base + y).

Lemma seg_perm_frame lo hi (a b : list A) i :
  seg_perm lo hi a b -> 0 <= i -> i < lo \/ hi <= i -> b.[i] = a.[i].
Proof. intros (_ & _ & F). apply F. Qed.

(** An order between a segment and an outside position survives a
    permutation of the segment. *)
Lemma le_at_seg lo hi a b i j :
  seg_perm lo hi a b -> 0 <= lo <= i -> i < hi -> hi <= j ->
  (forall k, lo <= k < hi -> le_at a k j) -> le_at b i j.
Proof.
  intros Hs Hi Hh Hj H x y Hx Hy.
  destruct (seg_perm_origin _ _ _ _ _ _ Hs Hi Hh Hx) as (k & Hk & Hk').
  rewrite (seg_perm_frame _ _ _ _ j Hs) in Hy by lia. by eapply H.
Qed.

Lemma le_at_seg_r lo hi a b i j :
  seg_perm lo hi a b -> 0 <= i -> i < lo -> lo <= j < hi ->
  (forall k, lo <= k < hi -> le_at a i k) -> le_at b i j.
Proof.
  intros Hs Hi Hl Hj H x y Hx Hy.
  destruct (seg_perm_origin _ _ _ _ j y Hs) as (k & Hk & Hk'); [lia..|done|].
  rewrite (seg_perm_frame _ _ _ _ i Hs) in Hx by lia. by eapply H.
Qed.

Lemma heap_tail_step base n i a b c :
  cmp_order -> 0 <= base -> 0 < i < n -> base + n <= Z.of_nat (length a) ->
  heap_tail base n i a -> swapped base (base + i) a b ->
  seg_perm base (base + i) b c -> heap_from base i 0 c ->
  heap_tail base n (i - 1) c.
Proof.
  intros O Hb Hi Hlen [Hheap Hord] Hsw Hsp Hh. split.
  { by replace (i - 1 + 1) with i by lia. }
  intros x y Hx Hxy Hiy Hyn.
  assert (Hbi : forall k, 0 <= k < i -> le_at b (base + k) (base + i)).
  { intros k Hk. eapply le_at_eq with (i' := if k =? 0 then base + i else base + k).
    - zcase; subst; [rewrite Z.add_0_r; eapply swapped_l; [|done]; lia|].
      eapply (swapped_o base (base + i)); [lia..|done].
    - eapply swapped_r; [|done]. lia.
    - replace base with (base + 0) at 3 by lia.
      zcase; apply (heap_max base (i + 1)); (done || lia). }
  destruct (decide (y = i)) as [->|].
  - apply (le_at_seg base (base + i) b); [done|lia..|].
    intros k Hk. replace k with (base + (k - base)) by lia. apply Hbi. lia.
  - assert (Hb' : forall k, 0 <= k < y -> le_at b (base + k) (base + y)).
    { intros k Hk. eapply le_at_eq with (j' := base + y)
        (i' := if k =? 0 then base + i else if k =? i then base + 0 else base + k).
      - repeat zcase; subst.
        + rewrite Z.add_0_r. eapply swapped_l; [|done]. lia.
        + rewrite Z.add_0_r. eapply swapped_r; [|done]. lia.
        + eapply (swapped_o base (base + i)); [lia..|done].
      - eapply (swapped_o base (base + i)); [lia..|done].
      - repeat zcase; apply Hord; lia. }
    destruct (Z_lt_le_dec x i).
    + apply (le_at_seg base (base + i) b); [done|lia..|].
      intros k Hk. replace k with (base + (k - base)) by lia. apply Hb'. lia.
    + eapply le_at_eq; [apply (seg_perm_frame _ _ _ _ _ Hsp); lia
        |apply (seg_perm_frame _ _ _ _ _ Hsp); lia|]. apply Hb'. lia.
Qed.

Lemma heapsort_build base n arr st :
  0 <= base -> 1 < n -> base + n <= Z.of_nat (length arr) ->
  wp (loop (Datatypes.S (Z.to_nat n)) (fun '(arr, st, i) =>
      if 0 <? i then
        let i := i - 1 in
        let* (arr, st) := heap_sift cmp base n i arr st in
        Ret (inl (arr, st, i))
      else Ret (inr (arr, st))) (arr, st, n / 2))
    (fun '(arr', _) => seg_perm base (base + n) arr arr' /\
      (cmp_order -> heap_from base n 0 arr')).
Proof.
  intros Hb Hn Hlen.
  assert (Hn2 : 0 <= n / 2 <= n /\ n <= n / 2 * 2 + 1) by dlia.
  apply (wp_loop (fun '(a, s, i) => 0 <= i <= n / 2 /\
      seg_perm base (base + n) arr a /\
      (cmp_order -> heap_from base n i a))
    (fun '(a, s, i) => Z.to_nat i)).
  2: { split; [lia|]. split; [done|]. intros O i Hi c Hc Hcn.
       unfold child in Hc. lia. }
  2: { lia. }
  intros [[a s] i] (Hi & Hsp & Hh).
  assert (HL : length a = length arr) by apply Hsp.
  destruct (Z.ltb_spec 0 i) as [Hlt|Hge].
  2: { simpl. split; [done|]. intros O. replace 0 with i by lia. auto. }
  apply wp_bind. eapply wp_mono.
  { apply (heap_sift_spec base n (i - 1)); [lia..|].
    intros O. split.
    - intros k Hk Hne. apply Hh; [done|lia].
    - intros k Hk Hc. unfold child in Hc. lia. }
  intros [b s'] [Hsp' Hh']. simpl. split; [|lia]. split; [lia|].
  split; [by eapply seg_perm_trans|done].
Qed.

Lemma heapsortx_spec base n arr st :
  0 <= base -> 0 <= n -> base + n <= Z.of_nat (length arr) ->
  wp (heapsortx cmp base n arr st) (fun '(arr', _) =>
    seg_perm base (base + n) arr arr' /\
    (cmp_order -> sorted_seg arr' base (base + n))).
Proof.
  intros Hb Hn Hlen. unfold heapsortx.
  destruct (Z.ltb_spec 1 n) as [Hn1|Hn1].
  2: { simpl. split; [done|]. intros O i j. lia. }
  apply wp_bind. eapply wp_mono; [by apply heapsort_build|].
  intros [a0 s0] [Hsp0 Hh0]. assert (HL0 : length a0 = length arr) by apply Hsp0.
  apply (wp_loop (fun '(a, s, i) => 0 <= i < n /\
      seg_perm base (base + n) arr a /\ (cmp_order -> heap_tail base n i a))
    (fun '(a, s, i) => Z.to_nat i)).
  2: { split; [lia|]. split; [done|]. intros O. split; [|lia].
       replace (n - 1 + 1) with n by lia. auto. }
  2: { lia. }
  intros [[a s] i] (Hi & Hsp & Hh).
  assert (HL : length a = length arr) by apply Hsp.
  destruct (Z.ltb_spec 0 i) as [Hlt|Hge].
  2: { simpl. split; [done|]. intros O x y ???.
       replace x with (base + (x - base)) by lia.
       replace y with (base + (y - base)) by lia. apply (Hh O); lia. }
  apply wp_bind. eapply wp_mono; [apply swap_spec; lia|]. intros b Hsw.
  assert (HLb : length b = length a) by apply Hsw.
  apply wp_bind. eapply wp_mono.
  { apply (heap_sift_spec base i 0); [lia..|]. intros O. split.
    - intros k Hk Hne c Hc Hcn.
      assert (forall q, 0 < q < i -> b.[base + q] = a.[base + q]) as Fo
        by (intros; apply (swapped_o base (base + i)); [lia..|done]).
      destruct (Hh O) as [Hheap _]. unfold child in *.
      eapply le_at_eq; [apply Fo; lia|apply Fo; lia|].
      apply Hheap; unfold child; lia.
    - intros k Hk Hc. unfold child in Hc. lia. }
  intros [c s'] [Hsp' Hh']. simpl. split; [|lia]. split; [lia|]. split.
  - eapply seg_perm_trans; [done|]. eapply seg_perm_trans.
    + eapply swapped_seg; [done|lia..].
    + eapply seg_perm_weaken; [done|lia..].
  - intros O. apply (heap_tail_step base n i a b c); auto; lia.
Qed.

(** *** The partition *)

Lemma med3_spec arr st a b c lo hi :
  0 <= lo -> hi <= Z.of_nat (length arr) ->
  lo <= a < hi -> lo <= b < hi -> lo <= c < hi ->
  wp (med3 cmp arr st a b c) (fun '(m, _) => lo <= m < hi).
Proof.
  intros. assert (Hc : forall st i j, lo <= i < hi -> lo <= j < hi ->
    wp (cmp_at cmp arr st i j) (fun _ => True)).
  { intros. eapply wp_mono; [apply cmp_at_spec; lia|done]. }
  unfold med3.
  repeat (first [apply wp_bind; eapply wp_mono; [by apply Hc|];
                 intros [? ?] _; zcase | simpl; zcase; lia | simpl; lia]).
Qed.

(** The elements of [lo .. hi) compare with the value [v] as [P] says. *)
Definition cls (P : Z -> Prop) (v : A) (a : list A) (lo hi : Z) : Prop :=
  forall k x, lo <= k < hi -> a.[k] = Some x -> P (f v x).

Abbreviation is_eq := (fun c => c = 0).
Abbreviation is_lt := (fun c => 0 < c).
Abbreviation is_gt := (fun c => c < 0).

Lemma cls_frame P v a b lo hi :
  (forall k, lo <= k < hi -> b.[k] = a.[k]) -> cls P v a lo hi -> cls P v b lo hi.
Proof. intros HF HP k x Hk Hx. rewrite HF in Hx by done. by eapply HP. Qed.

Lemma cls_snoc P v a lo hi :
  cls P v a lo hi -> cls P v a hi (hi + 1) -> cls P v a lo (hi + 1).
Proof.
  intros H1 H2 k x Hk Hx. destruct (Z_lt_le_dec k hi).
  - apply (H1 k); [lia|done].
  - apply (H2 k); [lia|done].
Qed.

Lemma cls_cons P v a lo hi :
  cls P v a (lo - 1) lo -> cls P v a lo hi -> cls P v a (lo - 1) hi.
Proof.
  intros H1 H2 k x Hk Hx. destruct (Z_lt_le_dec k lo).
  - apply (H1 k); [lia|done].
  - apply (H2 k); [lia|done].
Qed.

Lemma cls_one (P : Z -> Prop) v a k :
  (forall x, a.[k] = Some x -> P (f v x)) -> cls P v a k (k + 1).
Proof. intros H k' x Hk Hx. replace k' with k in Hx by lia. auto. Qed.

Lemma cls_one_r (P : Z -> Prop) v a k :
  (forall x, a.[k - 1] = Some x -> P (f v x)) -> cls P v a (k - 1) k.
Proof. intros H k' x Hk Hx. replace k' with (k - 1) in Hx by lia. auto. Qed.

Lemma cls_empty P v a lo hi : hi <= lo -> cls P v a lo hi.
Proof. intros H k x Hk. lia. Qed.

(** Where the elements are: equal, smaller, (unknown), greater, equal. *)
Definition part_cls (ptr top : Z) (v : A) (a : list A) (plt pi q pgt : Z)
  : Prop :=
  a.[ptr] = Some v /\
  cls is_eq v a ptr plt /\ cls is_lt v a plt pi /\
  cls is_gt v a q pgt /\ cls is_eq v a pgt top.

(** The variables agree with each other and with the segment. *)
Definition part_ok (ptr top : Z) (p : part) : Prop :=
  p_i p = p_pi p - ptr /\ p_lt p = p_plt p - ptr /\ p_gt p = p_pgt p - ptr /\
  ptr + 1 <= p_plt p <= p_pi p /\ p_pi p <= top /\ p_pi p - 1 <= p_pj p /\
  p_pj p <= p_pgt p <= top /\ p_pi p <= p_pgt p.

(** An equal element found from the left goes after the equal ones. *)
Lemma part_cls_left_eq ptr top v a b plt pi q pgt :
  0 <= ptr -> ptr + 1 <= plt <= pi -> pi < q -> pi < pgt ->
  swapped plt pi a b -> cls is_eq v a pi (pi + 1) ->
  part_cls ptr top v a plt pi q pgt ->
  part_cls ptr top v b (plt + 1) (pi + 1) q pgt.
Proof.
  intros Hp Hplt Hq Hpgt Hsw Heq (Hv & He & Hl & Hg & He').
  assert (Hfr : forall k, 0 <= k -> k <> plt -> k <> pi -> b.[k] = a.[k])
    by (intros; eapply swapped_o; [..|exact Hsw]; lia).
  assert (H1 : b.[plt] = a.[pi]) by (eapply swapped_l; [|done]; lia).
  assert (H2 : b.[pi] = a.[plt]) by (eapply swapped_r; [|done]; lia).
  split; [rewrite Hfr by lia; done|]. split; [|split; [|split]].
  - apply cls_snoc; [by eapply cls_frame; [|done]; intros; apply Hfr; lia|].
    apply cls_one. intros x Hx. rewrite H1 in Hx. apply (Heq pi); [lia|done].
  - intros k x Hk Hx. destruct (decide (k = pi)) as [->|].
    + rewrite H2 in Hx. apply (Hl plt); [lia|done].
    + rewrite Hfr in Hx by lia. apply (Hl k); [lia|done].
  - by eapply cls_frame; [|done]; intros; apply Hfr; lia.
  - by eapply cls_frame; [|done]; intros; apply Hfr; lia.
Qed.

(** An equal element found from the right goes before the equal ones. *)
Lemma part_cls_right_eq ptr top v a b plt pi q pgt :
  0 <= ptr -> ptr + 1 <= plt <= pi -> pi < q <= pgt -> pgt <= top ->
  swapped (pgt - 1) (q - 1) a b -> cls is_eq v a (q - 1) q ->
  part_cls ptr top v a plt pi q pgt ->
  part_cls ptr top v b plt pi (q - 1) (pgt - 1).
Proof.
  intros Hp Hplt Hq Hpgt Hsw Heq (Hv & He & Hl & Hg & He').
  assert (Hfr : forall k, 0 <= k -> k <> pgt - 1 -> k <> q - 1 -> b.[k] = a.[k])
    by (intros; eapply swapped_o; [..|exact Hsw]; lia).
  assert (H1 : b.[pgt - 1] = a.[q - 1]) by (eapply swapped_l; [|done]; lia).
  assert (H2 : b.[q - 1] = a.[pgt - 1]) by (eapply swapped_r; [|done]; lia).
  split; [rewrite Hfr by lia; done|]. split; [|split; [|split]].
  - by eapply cls_frame; [|done]; intros; apply Hfr; lia.
  - by eapply cls_frame; [|done]; intros; apply Hfr; lia.
  - intros k x Hk Hx. destruct (decide (k = q - 1)) as [->|].
    + rewrite H2 in Hx. apply (Hg (pgt - 1)); [lia|done].
    + rewrite Hfr in Hx by lia. apply (Hg k); [lia|done].
  - apply cls_cons; [|by eapply cls_frame; [|done]; intros; apply Hfr; lia].
    apply cls_one_r. intros x Hx. rewrite H1 in Hx. apply (Heq (q - 1)); [lia|done].
Qed.

(** Reading the answer of the callback on the pivot and position [k]. *)
Lemma cls_of_cmp (P : Z -> Prop) v a ptr k c :
  a.[ptr] = Some v ->
  (forall x y, a.[ptr] = Some x -> a.[k] = Some y -> c = f x y) ->
  P c -> cls P v a k (k + 1).
Proof. intros Hv Hc HP. apply cls_one. intros x Hx. by rewrite <- (Hc v x). Qed.

Lemma part_up_spec ptr top v arr a st p fuel :
  0 <= ptr -> top <= Z.of_nat (length arr) ->
  part_ok ptr top p -> p_pi p <= p_pj p -> seg_perm ptr top arr a ->
  (cmp_order -> part_cls ptr top v a (p_plt p) (p_pi p) (p_pj p) (p_pgt p)) ->
  (Z.to_nat (p_pj p - p_pi p) < fuel)%nat ->
  wp (loop fuel (part_up cmp ptr) (a, st, p)) (fun '(a', _, p') =>
    part_ok ptr top p' /\ p_pi p' <= p_pj p' /\ seg_perm ptr top arr a' /\
    p_pi p <= p_pi p' /\ p_pj p' = p_pj p /\
    (cmp_order ->
      part_cls ptr top v a' (p_plt p') (p_pi p') (p_pj p') (p_pgt p') /\
      (p_pi p' < p_pj p' -> cls is_gt v a' (p_pi p') (p_pi p' + 1)))).
Proof.
  intros Hp0 Htop Hok Hij Hsp Hcls Hf.
  apply (wp_loop (fun '(a', _, p') =>
      part_ok ptr top p' /\ p_pi p' <= p_pj p' /\ seg_perm ptr top arr a' /\
      p_pi p <= p_pi p' /\ p_pj p' = p_pj p /\
      (cmp_order ->
        part_cls ptr top v a' (p_plt p') (p_pi p') (p_pj p') (p_pgt p')))
    (fun '(_, _, p') => Z.to_nat (p_pj p' - p_pi p'))).
  2: { split; [done|]. do 2 (split; [done|]). auto with lia. }
  2: { done. }
  clear a st Hok Hij Hsp Hcls Hf.
  intros [[a st] p'] (Hok & Hij & Hsp & Hmon & Hpj & Hcls). unfold part_up.
  assert (HL : length a = length arr) by apply Hsp. unfold part_ok in *.
  destruct (Z.ltb_spec (p_pi p') (p_pj p')) as [Hlt|Hge].
  2: { simpl. do 5 (split; [done|]). split; [auto|lia]. }
  apply wp_bind. eapply wp_mono; [apply cmp_at_spec; lia|]. intros [c st'] Hc.
  destruct (Z.leb_spec 0 c).
  2: { simpl. do 5 (split; [done|]). intros O. split; [auto|]. intros _.
       by eapply cls_of_cmp; [apply (Hcls O)|apply (Hc O)|]. }
  destruct (Z.eqb_spec c 0) as [->|Hne].
  - apply wp_bind. eapply wp_mono; [apply swap_spec; lia|]. intros b Hsw. simpl.
    split; [|lia]. split; [lia|]. split; [lia|]. split.
    { eapply seg_perm_trans; [done|]. eapply swapped_seg; [done|lia..]. }
    split; [lia|]. split; [done|]. intros O.
    eapply part_cls_left_eq; [lia..|done| |by apply Hcls].
    by eapply cls_of_cmp; [apply (Hcls O)|apply (Hc O)|].
  - simpl. split; [|lia]. do 3 (split; [lia || done|]). do 2 (split; [lia|]).
    intros O. destruct (Hcls O) as (Hv & He & Hl & Hg & He').
    do 2 (split; [done|]). split; [|done]. apply cls_snoc; [done|].
    eapply cls_of_cmp; [apply (Hcls O)|apply (Hc O)|]. lia.
Qed.

(** What the down loop leaves: it has met [pi], or found a smaller one. *)
Definition down_done (ptr top : Z) (v : A) (a : list A) (p : part) : Prop :=
  if p_pj p <=? p_pi p
  then part_cls ptr top v a (p_plt p) (p_pi p) (p_pi p) (p_pgt p)
  else part_cls ptr top v a (p_plt p) (p_pi p) (p_pj p + 1) (p_pgt p) /\
       cls is_lt v a (p_pj p) (p_pj p + 1).

Lemma part_down_spec ptr top v arr a st p fuel :
  0 <= ptr -> top <= Z.of_nat (length arr) ->
  part_ok ptr top p -> p_pi p <= p_pj p -> seg_perm ptr top arr a ->
  (cmp_order ->
    part_cls ptr top v a (p_plt p) (p_pi p) (p_pj p) (p_pgt p) /\
    (p_pi p < p_pj p -> cls is_gt v a (p_pi p) (p_pi p + 1))) ->
  (Z.to_nat (p_pj p - p_pi p) < fuel)%nat ->
  wp (loop fuel (part_down cmp ptr) (a, st, p)) (fun '(a', _, p') =>
    part_ok ptr top p' /\ seg_perm ptr top arr a' /\
    p_pi p' = p_pi p /\ (p_pj p' < p_pj p /\ p_pj p' < p_pgt p') /\
    (cmp_order -> down_done ptr top v a' p' /\
      (p_pi p' < p_pj p' -> cls is_gt v a' (p_pi p') (p_pi p' + 1)))).
Proof.
  intros Hp0 Htop Hok Hij Hsp Hcls Hf.
  apply (wp_loop (fun '(a', _, p') =>
      part_ok ptr top p' /\ p_pi p' <= p_pj p' <= p_pj p /\
      seg_perm ptr top arr a' /\ p_pi p' = p_pi p /\
      (cmp_order ->
        part_cls ptr top v a' (p_plt p') (p_pi p') (p_pj p') (p_pgt p') /\
        (p_pi p' < p_pj p' -> cls is_gt v a' (p_pi p') (p_pi p' + 1))))
    (fun '(_, _, p') => Z.to_nat (p_pj p' - p_pi p'))).
  2: { split; [done|]. split; [lia|]. auto. }
  2: { done. }
  clear a st Hok Hij Hsp Hcls Hf.
  intros [[a st] p'] (Hok & Hij & Hsp & Hpi & Hcls). unfold part_down.
  assert (HL : length a = length arr) by apply Hsp. unfold part_ok in *.
  cbn [p_i p_lt p_gt p_pi p_plt p_pj p_pgt].
  destruct (Z.ltb_spec (p_pi p') (p_pj p' - 1)) as [Hlt|Hge].
  2: { simpl. split; [lia|]. do 2 (split; [done|]). split; [lia|].
       intros O. destruct (Hcls O) as [Hc Hgt]. split; [|lia].
       unfold down_done. cbn. destruct (Z.leb_spec (p_pj p' - 1) (p_pi p')); [|lia].
       destruct (decide (p_pj p' = p_pi p')) as [E|]; [by rewrite E in Hc|].
       destruct Hc as (Hv & He & Hl & Hg & He'). do 3 (split; [done|]).
       split; [|done]. replace (p_pi p') with (p_pj p' - 1) by lia.
       apply cls_cons; [|done]. intros k x Hk. apply Hgt; lia. }
  apply wp_bind. eapply wp_mono; [apply cmp_at_spec; lia|]. intros [c st'] Hc.
  assert (Hone : forall P : Z -> Prop, cmp_order -> P c ->
    cls P v a (p_pj p' - 1) (p_pj p')).
  { intros P O HP. rewrite <- (Z.sub_add 1 (p_pj p')) at 2.
    by eapply cls_of_cmp; [apply (Hcls O)|apply (Hc O)|]. }
  destruct (Z.leb_spec c 0).
  2: { simpl. split; [lia|]. do 2 (split; [done|]). split; [lia|].
       intros O. destruct (Hcls O) as [Hcl Hgt]. split; [|auto with lia].
       unfold down_done. cbn. destruct (Z.leb_spec (p_pj p' - 1) (p_pi p')); [lia|].
       rewrite Z.sub_add. split; [done|]. by apply Hone. }
  destruct (Z.eqb_spec c 0) as [->|Hne].
  - apply wp_bind. eapply wp_mono; [apply swap_spec; lia|]. intros b Hsw. simpl.
    split; [|lia]. split; [lia|]. split; [lia|]. split.
    { eapply seg_perm_trans; [done|]. eapply swapped_seg; [done|lia..]. }
    split; [lia|]. intros O. destruct (Hcls O) as [Hcl Hgt]. split.
    + eapply part_cls_right_eq; [lia..|done|by apply Hone|done].
    + intros _. eapply cls_frame; [|apply Hgt; lia]. intros k Hk.
      eapply swapped_o; [..|exact Hsw]; lia.
  - simpl. split; [|lia]. do 4 (split; [lia || done|]).
    intros O. destruct (Hcls O) as [(Hv & He & Hl & Hg & He') Hgt].
    split; [|auto with lia]. do 3 (split; [done|]). split; [|done].
    apply cls_cons; [|done]. apply Hone; [done|lia].
Qed.

(** [swap(pi, pj)] puts a smaller element below a greater one. *)
Lemma part_cls_exchange ptr top v a b plt pi pj pgt :
  0 <= ptr -> ptr + 1 <= plt <= pi -> pi < pj < pgt -> pgt <= top ->
  swapped pi pj a b -> cls is_lt v a pj (pj + 1) ->
  cls is_gt v a pi (pi + 1) ->
  part_cls ptr top v a plt pi (pj + 1) pgt ->
  part_cls ptr top v b plt (pi + 1) pj pgt.
Proof.
  intros Hp Hplt Hq Hpgt Hsw Hlt Hgt (Hv & He & Hl & Hg & He').
  assert (Hfr : forall k, 0 <= k -> k <> pi -> k <> pj -> b.[k] = a.[k])
    by (intros; eapply swapped_o; [..|exact Hsw]; lia).
  assert (H1 : b.[pi] = a.[pj]) by (eapply swapped_l; [|done]; lia).
  assert (H2 : b.[pj] = a.[pi]) by (eapply swapped_r; [|done]; lia).
  split; [rewrite Hfr by lia; done|]. split; [|split; [|split]].
  - by eapply cls_frame; [|done]; intros; apply Hfr; lia.
  - apply cls_snoc; [by eapply cls_frame; [|done]; intros; apply Hfr; lia|].
    apply cls_one. intros x Hx. rewrite H1 in Hx. apply (Hlt pj); [lia|done].
  - intros k x Hk Hx. destruct (decide (k = pj)) as [->|].
    + rewrite H2 in Hx. apply (Hgt pi); [lia|done].
    + rewrite Hfr in Hx by lia. apply (Hg k); [lia|done].
  - by eapply cls_frame; [|done]; intros; apply Hfr; lia.
Qed.

Definition part_inv (ptr n : Z) (v : A) (arr : list A) : list A * St * part -> Prop :=
  fun '(a, _, p) => part_ok ptr (ptr + n) p /\ p_pi p <= p_pj p /\
    seg_perm ptr (ptr + n) arr a /\
    (cmp_order -> part_cls ptr (ptr + n) v a (p_plt p) (p_pi p) (p_pj p) (p_pgt p)).

Lemma part_step_spec ptr n v arr s :
  0 <= ptr -> ptr + n <= Z.of_nat (length arr) -> part_inv ptr n v arr s ->
  wp (part_step cmp ptr n s) (fun r =>
    match r with
    | inl (a, st, p) => part_inv ptr n v arr (a, st, p) /\
        p_pj p - p_pi p < p_pj (snd s) - p_pi (snd s)
    | inr (a, _, p) => part_ok ptr (ptr + n) p /\
        seg_perm ptr (ptr + n) arr a /\
        (cmp_order -> part_cls ptr (ptr + n) v a
                        (p_plt p) (p_pi p) (p_pi p) (p_pgt p))
    end).
Proof.
  destruct s as [[a st] p]. intros Hp Hn (Hok & Hij & Hsp & Hcls).
  assert (Hok' := Hok). unfold part_ok in Hok'. unfold part_step. apply wp_bind.
  eapply wp_mono; [apply (part_up_spec ptr (ptr + n) v arr); (done || lia)|].
  intros [[a1 st1] p1] (Hok1 & Hij1 & Hsp1 & Hmon & Hpj & Hcls1).
  assert (Hok1' := Hok1). unfold part_ok in Hok1'. apply wp_bind.
  eapply wp_mono; [apply (part_down_spec ptr (ptr + n) v arr); (done || lia)|].
  intros [[a2 st2] p2] (Hok2 & Hsp2 & Hpi & Hpj2 & Hcls2).
  assert (HL : length a2 = length arr) by apply Hsp2.
  destruct (Z.leb_spec (p_pj p2) (p_pi p2)) as [Hle|Hgt].
  - simpl. split; [done|]. split; [done|]. intros O.
    destruct (Hcls2 O) as [Hd _]. unfold down_done in Hd.
    by destruct (Z.leb_spec (p_pj p2) (p_pi p2)); [|lia].
  - unfold part_ok in Hok2. apply wp_bind.
    eapply wp_mono; [apply swap_spec; lia|]. intros b Hsw. simpl.
    split; [|lia]. split; [unfold part_ok; simpl; lia|]. split; [simpl; lia|].
    split.
    { eapply seg_perm_trans; [done|]. eapply swapped_seg; [done|lia..]. }
    intros O. destruct (Hcls2 O) as [Hd Hg]. unfold down_done in Hd.
    destruct (Z.leb_spec (p_pj p2) (p_pi p2)); [lia|]. destruct Hd as [Hd Hl].
    assert (p_pj p2 < p_pgt p2) by lia.
    eapply part_cls_exchange; [lia..|done|done|auto|done].
Qed.

(** Exchanging the ends of two adjacent runs exchanges the runs. *)
Lemma cls_rotate (P Q : Z -> Prop) (v : A) (x y z : Z) (a : list A) :
  0 <= x <= y -> y <= z -> z <= Z.of_nat (length a) ->
  cls P v a x y -> cls Q v a y z ->
  wp (let span := y - x in let span2 := z - y in
      let span := if span2 <? span then span2 else span in
      swap_block a x (z - span) span)
    (fun b => seg_perm x z a b /\
      cls Q v b x (x + (z - y)) /\ cls P v b (x + (z - y)) z).
Proof.
  intros Hxy Hyz Hz HP HQ. cbn zeta.
  set (s := if z - y <? y - x then z - y else y - x).
  assert (Hs : 0 <= s /\ s <= y - x /\ s <= z - y /\ (s = y - x \/ s = z - y))
    by (unfold s; zcase; lia).
  clearbody s. eapply wp_mono; [apply swap_block_spec; lia|].
  intros b (HL & HPm & F). split; [|split].
  - split; [done|]. split; [done|]. intros k Hk Ho. rewrite F by done.
    repeat (zcase; try lia); done.
  - intros k w Hk Hw. rewrite F in Hw by lia. revert Hw.
    repeat (zcase; try lia); simpl; intros Hw;
      (eapply HQ; [|exact Hw]; lia).
  - intros k w Hk Hw. rewrite F in Hw by lia. revert Hw.
    repeat (zcase; try lia); simpl; intros Hw;
      (eapply HP; [|exact Hw]; lia).
Qed.

(** The three parts a partition makes. *)
Definition parted (v : A) (a : list A) (ptr n lt gt : Z) : Prop :=
  cls is_lt v a ptr (ptr + lt) /\
  cls is_eq v a (ptr + lt) (ptr + gt) /\
  cls is_gt v a (ptr + gt) (ptr + n).

Definition partition_post (ptr n : Z) (arr : list A)
  : list A * St * (Z * Z * Z) -> Prop := fun '(a, _, (lt, gt, pgt)) =>
  seg_perm ptr (ptr + n) arr a /\ 0 <= lt < gt /\ gt <= n /\
  pgt = ptr + gt /\ (cmp_order -> exists v, parted v a ptr n lt gt).

(** The two block exchanges after the partition loop. *)
Lemma partition_finish ptr n v arr a st p :
  0 <= ptr -> ptr + n <= Z.of_nat (length arr) ->
  part_ok ptr (ptr + n) p -> seg_perm ptr (ptr + n) arr a ->
  (cmp_order ->
    part_cls ptr (ptr + n) v a (p_plt p) (p_pi p) (p_pi p) (p_pgt p)) ->
  wp (let top := ptr + n in
      let span := p_plt p - ptr in
      let span2 := p_pi p - p_plt p in
      let lt := p_i p - p_lt p in
      let span := if span2 <? span then span2 else span in
      let* arr := swap_block a ptr (p_pi p - span) span in
      let span := top - p_pgt p in
      let span2 := p_pgt p - p_pi p in
      let pgt := top - span2 in
      let gt := n - (p_gt p - p_i p) in
      let span := if span2 <? span then span2 else span in
      let* arr := swap_block arr (p_pi p) (top - span) span in
      Ret (arr, st, (lt, gt, pgt))) (partition_post ptr n arr).
Proof.
  intros Hp Hlen Hok Hsp Hcls. unfold part_ok in Hok. cbn zeta.
  assert (HL : length a = length arr) by apply Hsp.
  apply wp_bind. eapply wp_mono.
  { apply (cls_rotate (fun c => cmp_order -> c = 0) (fun c => cmp_order -> 0 < c)
      v ptr (p_plt p) (p_pi p)); [lia..| |];
    intros k x Hk Hx O; destruct (Hcls O) as (_ & He & Hl & _ & _);
    [by apply (He k)|by apply (Hl k)]. }
  intros b (Hspb & Hl & He). assert (HLb : length b = length a) by apply Hspb.
  apply wp_bind. eapply wp_mono.
  { replace (if p_pgt p - p_pi p <? ptr + n - p_pgt p then p_pgt p - p_pi p
             else ptr + n - p_pgt p)
      with (if ptr + n - p_pgt p <? p_pgt p - p_pi p then ptr + n - p_pgt p
             else p_pgt p - p_pi p) by (repeat zcase; lia).
    apply (cls_rotate (fun c => cmp_order -> c < 0) (fun c => cmp_order -> c = 0)
      v (p_pi p) (p_pgt p) (ptr + n)); [lia..| |];
    intros k x Hk Hx O; destruct (Hcls O) as (_ & _ & _ & Hg & He');
    rewrite (seg_perm_frame _ _ _ _ k Hspb) in Hx by lia;
    [by apply (Hg k)|by apply (He' k)]. }
  intros c (Hspc & He' & Hg). simpl. split.
  { eapply seg_perm_trans; [done|]. eapply seg_perm_trans;
      (eapply seg_perm_weaken; [done|lia..]). }
  split; [lia|]. split; [lia|]. split; [lia|]. intros O. exists v.
  assert (Hfr : forall k, ptr <= k < p_pi p -> c.[k] = b.[k])
    by (intros; apply (seg_perm_frame _ _ _ _ k Hspc); lia).
  split; [|split]; intros k x Hk Hx.
  - rewrite Hfr in Hx by lia. apply (Hl k); [lia|done..].
  - destruct (Z_lt_le_dec k (p_pi p)).
    + rewrite Hfr in Hx by lia. apply (He k); [lia|done..].
    + apply (He' k); [lia|done..].
  - apply (Hg k); [lia|done..].
Qed.

Lemma partition_spec ptr n arr st :
  0 <= ptr -> 6 < n -> ptr + n <= Z.of_nat (length arr) ->
  wp (partition cmp ptr n arr st) (partition_post ptr n arr).
Proof.
  intros Hp Hn Hlen. unfold partition. rewrite Z.shiftr_div_pow2 by lia.
  change (2 ^ 2) with 4. assert (Hm4 : 0 <= n / 4 * 3 < n) by dlia.
  apply wp_bind. eapply wp_mono.
  { apply (med3_spec _ _ _ _ _ ptr (ptr + n)); lia. }
  intros [m st'] Hm. apply wp_bind.
  eapply wp_mono; [apply swap_spec; lia|]. intros a1 Hsw.
  assert (HL1 : length a1 = length arr) by apply Hsw.
  destruct (at_Some a1 ptr) as [v Hv]; [lia|].
  assert (Hsp1 : seg_perm ptr (ptr + n) arr a1)
    by (eapply swapped_seg; [done|lia..]).
  apply wp_bind. eapply wp_mono.
  { apply (wp_loop (part_inv ptr n v arr)
      (fun '(_, _, p) => Z.to_nat (p_pj p - p_pi p))
      (fun '(a, _, p) => part_ok ptr (ptr + n) p /\
        seg_perm ptr (ptr + n) arr a /\
        (cmp_order -> part_cls ptr (ptr + n) v a
                        (p_plt p) (p_pi p) (p_pi p) (p_pgt p)))).
    - intros s Hs. assert (Hij : p_pi (snd s) <= p_pj (snd s))
        by (destruct s as [[??]?]; apply Hs).
      eapply wp_mono; [by apply part_step_spec|].
      intros [[[a2 st2] p2]|[[a2 st2] p2]]; [|done].
      destruct s as [[??]?]. simpl. intros (Hinv & Hlt). split; [done|lia].
    - split; [unfold part_ok; simpl; lia|]. split; [simpl; lia|]. split; [done|].
      intros O. simpl. split; [done|]. split; [|split; [|split]];
        try (apply cls_empty; lia).
      apply cls_one. intros x Hx. simplify_eq. by apply f_refl.
    - simpl. lia. }
  intros [[a2 st2] p] (Hok & Hsp2 & Hcls).
  by apply (partition_finish ptr n v).
Qed.

(** *** The segments still to be sorted *)

Definition in_seg (k : Z) (s : Z * Z) : Prop := fst s <= k < fst s + snd s.

Definition disj (s t : Z * Z) : Prop := forall k, in_seg k s -> ~ in_seg k t.

Fixpoint disjs (l : list (Z * Z)) : Prop :=
  match l with
  | [] => True
  | s :: l => Forall (disj s) l /\ disjs l
  end.

(** Everything is in order but for pairs inside one pending segment. *)
Definition pend (segs : list (Z * Z)) (a : list A) : Prop :=
  forall i j, 0 <= i -> i < j ->
    (forall s, s ∈ segs -> ~ (in_seg i s /\ in_seg j s)) -> le_at a i j.

Lemma pend_refine s news rest a b :
  0 <= fst s -> 0 <= snd s -> seg_perm (fst s) (fst s + snd s) a b ->
  Forall (disj s) rest -> pend (s :: rest) a ->
  (forall i j, in_seg i s -> in_seg j s -> i < j ->
    (forall t, t ∈ news -> ~ (in_seg i t /\ in_seg j t)) -> le_at b i j) ->
  pend (news ++ rest) b.
Proof.
  intros Hb Hn Hsp Hd Hp Hin i j Hi Hij Hno.
  rewrite Forall_forall in Hd.
  assert (Hout : forall k, 0 <= k -> ~ in_seg k s -> b.[k] = a.[k]).
  { intros k Hk Hns. apply (seg_perm_frame _ _ _ _ k Hsp); [done|].
    unfold in_seg in Hns. lia. }
  assert (Hpair : forall k l, 0 <= k -> k < l -> ~ (in_seg k s /\ in_seg l s) ->
    (in_seg k s \/ in_seg l s \/ (k = i /\ l = j)) -> le_at a k l).
  { intros k l Hk Hkl Hns Hor. apply Hp; [done|done|].
    intros t [->|Ht]%elem_of_cons [Hkt Hlt]; [tauto|].
    destruct Hor as [Hs|[Hs|[-> ->]]];
      [by apply (Hd t Ht k)|by apply (Hd t Ht l)|].
    apply (Hno t); [|done]. apply elem_of_app. by right. }
  assert (Hdec : forall k, in_seg k s \/ ~ in_seg k s)
    by (intros k; unfold in_seg; lia).
  destruct (Hdec i) as [Ii|Ni]; destruct (Hdec j) as [Ij|Nj].
  - apply Hin; [done..|]. intros t Ht. apply Hno, elem_of_app. by left.
  - unfold in_seg in Ii, Nj. apply (le_at_seg _ _ _ _ i j Hsp); [lia..|].
    intros k Hk. apply Hpair; unfold in_seg; lia.
  - unfold in_seg in Ij, Ni. apply (le_at_seg_r _ _ _ _ i j Hsp); [lia..|].
    intros k Hk. apply Hpair; unfold in_seg; lia.
  - eapply le_at_eq; [by apply Hout|apply Hout; [lia|done]|].
    apply Hpair; auto; tauto.
Qed.

Lemma pend_sorted s rest a b :
  0 <= fst s -> 0 <= snd s -> seg_perm (fst s) (fst s + snd s) a b ->
  Forall (disj s) rest -> pend (s :: rest) a ->
  sorted_seg b (fst s) (fst s + snd s) -> pend rest b.
Proof.
  intros Hb Hn Hsp Hd Hp Hs. apply (pend_refine s [] rest a b); try done.
  intros i j Hi Hj Hij _. unfold in_seg in *. apply Hs; lia.
Qed.

(** After a partition only pairs inside the smaller or the greater part
    may be out of order. *)
Lemma parted_le v a ptr n lt gt i j :
  cmp_order -> 0 <= ptr -> ptr + n <= Z.of_nat (length a) ->
  0 <= lt < gt -> gt <= n -> parted v a ptr n lt gt ->
  ptr <= i -> i < j -> j < ptr + n ->
  ~ (in_seg i (ptr, lt) /\ in_seg j (ptr, lt)) ->
  ~ (in_seg i (ptr + gt, n - gt) /\ in_seg j (ptr + gt, n - gt)) ->
  le_at a i j.
Proof.
  intros O Hp Hlen Hlt Hgt (Hl & He & Hg) Hi Hij Hj H1 H2 x y Hx Hy.
  unfold in_seg in *; simpl in *.
  assert (Hxv : f x v <= 0).
  { apply f_flip; [done|]. destruct (Z_lt_le_dec i (ptr + lt)).
    - pose proof (Hl i x ltac:(lia) Hx). simpl in *. lia.
    - pose proof (He i x ltac:(lia) Hx). simpl in *. lia. }
  assert (Hvy : f v y <= 0).
  { destruct (Z_lt_le_dec j (ptr + gt)).
    - pose proof (He j y ltac:(lia) Hy). simpl in *. lia.
    - pose proof (Hg j y ltac:(lia) Hy). simpl in *. lia. }
  eapply (co_trans O); eauto.
Qed.

(** *** The stack of segments *)

Definition seg_of (fr : frame) : Z * Z := (f_base fr, f_count fr).

Definition frame_ok (n : Z) (fr : frame) : Prop :=
  0 <= f_base fr /\ 0 <= f_count fr /\ f_base fr + f_count fr <= n.

(** The depth of an entry bounds the entries below it: at depth 50 there
    is no room left and the code sorts the segment with [heapsortx]. *)
Fixpoint depth_ok (stack : list frame) : Prop :=
  match stack with
  | [] => True
  | fr :: stack => Z.of_nat (length stack) <= f_depth fr /\ depth_ok stack
  end.

Fixpoint weight (stack : list frame) : Z :=
  match stack with
  | [] => 0
  | fr :: stack => f_count fr + 1 + weight stack
  end.

Definition stack_inv (arr0 a : list A) (stack : list frame)
    (segs : list (Z * Z)) (W : Z) : Prop :=
  let n := Z.of_nat (length arr0) in
  seg_perm 0 n arr0 a /\ Forall (frame_ok n) stack /\ depth_ok stack /\
  weight stack <= W /\ disjs segs /\ (cmp_order -> pend segs a).

Definition quick_inv (arr0 : list A) (W : Z) (a : list A)
    (stack : list frame) (ptr nmemb depth : Z) : Prop :=
  stack_inv arr0 a stack ((ptr, nmemb) :: map seg_of stack) (W - nmemb) /\
  0 <= ptr /\ 0 <= nmemb /\ ptr + nmemb <= Z.of_nat (length arr0) /\
  Z.of_nat (length stack) <= depth.

Lemma disj_sub s t u :
  (forall k, in_seg k t -> in_seg k s) -> disj s u -> disj t u.
Proof. intros Hsub Hd k Hk. apply Hd. auto. Qed.

Lemma disjs_split s t u rest :
  (forall k, in_seg k t -> in_seg k s) -> (forall k, in_seg k u -> in_seg k s) ->
  disj t u -> disjs (s :: rest) -> disjs (t :: u :: rest).
Proof.
  intros Ht Hu Htu [Hs Hr]. split; [constructor; [done|]|split; [|done]].
  - eapply Forall_impl; [exact Hs|]. intros x. by apply (disj_sub s).
  - eapply Forall_impl; [exact Hs|]. intros x. by apply (disj_sub s).
Qed.

(** The state after a partition, for either choice of the part to push. *)
Lemma quick_push arr0 W a b ptr n stack depth lt gt fr p c :
  quick_inv arr0 W a stack ptr n depth ->
  0 <= lt < gt -> gt <= n -> seg_perm ptr (ptr + n) a b ->
  (cmp_order -> exists v, parted v b ptr n lt gt) ->
  (seg_of fr = (ptr, lt) /\ (p, c) = (ptr + gt, n - gt)) \/
  (seg_of fr = (ptr + gt, n - gt) /\ (p, c) = (ptr, lt)) ->
  f_depth fr = depth + 1 ->
  quick_inv arr0 W b (fr :: stack) p c (depth + 1).
Proof.
  intros ((Hsp & Hfr & Hdep & Hw & Hdis & Hpend) & Hp & Hn & Hlen & Hsd)
    Hlt Hgt Hspb Hpart Hch Hfd.
  assert (HLa : length a = length arr0) by apply Hsp.
  assert (HLb : length b = length a) by apply Hspb.
  assert (Hsf : 0 <= p /\ 0 <= c /\ p + c <= ptr + n /\ frame_ok (Z.of_nat (length arr0)) fr /\
    f_count fr + c <= n - 1).
  { unfold frame_ok, seg_of in *.
    destruct Hch as [[[= -> ->] [= -> ->]]|[[= -> ->] [= -> ->]]]; lia. }
  split; [|simpl length; lia]. split.
  { eapply seg_perm_trans; [done|]. eapply seg_perm_weaken; [done|lia..]. }
  split; [constructor; [tauto|done]|]. split; [split; [lia|done]|].
  split; [simpl; lia|]. split.
  - simpl map. apply (disjs_split (ptr, n)); [..|done];
      destruct Hch as [[E1 E2]|[E1 E2]]; rewrite ?E1, ?E2;
      intros k; unfold in_seg; simpl; lia.
  - intros O. destruct (Hpart O) as [v Hv]. simpl map.
    apply (pend_refine (ptr, n) [(p, c); seg_of fr] _ a); simpl;
      [done|done|done|apply Hdis|by apply Hpend|].
    intros i j Hi Hj Hij Hno. unfold in_seg in Hi, Hj. simpl in Hi, Hj.
    apply (parted_le v b ptr n lt gt); try done; try lia;
      apply Hno; destruct Hch as [[E1 E2]|[E1 E2]]; rewrite E1, E2; by repeat constructor.
Qed.

Lemma quick_step_spec arr0 W a st stack ptr n depth :
  quick_inv arr0 W a stack ptr n depth ->
  wp (quick_step cmp (a, st, stack, ptr, n, depth)) (fun r =>
    match r with
    | inl (a, _, stack, ptr', n', depth) =>
        quick_inv arr0 W a stack ptr' n' depth /\ n' < n
    | inr (a, _, stack, ptr', n') => exists depth,
        quick_inv arr0 W a stack ptr' n' depth
    end).
Proof.
  intros Hq. assert (Hq' := Hq).
  destruct Hq' as ((Hsp & Hfr & Hdep & Hw & Hdis & Hpend) & Hp & Hn & Hlen & Hsd).
  assert (HL : length a = length arr0) by apply Hsp. unfold quick_step.
  destruct (Z.ltb_spec 6 n); [|simpl; by exists depth].
  destruct (Z.ltb_spec 50 (depth + 1)).
  - apply wp_bind. eapply wp_mono; [apply heapsortx_spec; lia|].
    intros [b st'] [Hspb Hso]. simpl. exists depth. split; [|lia]. split.
    { eapply seg_perm_trans; [done|]. eapply seg_perm_weaken; [done|lia..]. }
    split; [done|]. split; [done|]. split; [lia|]. destruct Hdis as [Hd Hd'].
    split; [split; [|done]|].
    { eapply Forall_impl; [exact Hd|]. intros t. apply disj_sub.
      intros k. unfold in_seg. simpl. lia. }
    intros O i j Hi Hij Hno.
    eapply (pend_sorted (ptr, n) (map seg_of stack) a b); simpl; auto.
    intros s Hs. apply Hno. by constructor.
  - apply wp_bind. eapply wp_mono; [apply partition_spec; lia|].
    intros [[b st'] [[lt gt] pgt]] (Hspb & Hlt & Hgt & -> & Hpart).
    assert (Hpush : forall fr, push_frame stack fr = Ret (fr :: stack)).
    { intros fr. unfold push_frame.
      by destruct (Z.ltb_spec (Z.of_nat (length stack)) 50); [|lia]. }
    destruct (Z.ltb_spec (n - gt) lt); rewrite Hpush; simpl;
      (split; [|lia]); eapply quick_push; eauto.
Qed.

(** *** The whole sort *)

Lemma rqsort_step_spec arr0 a st fr stack W :
  stack_inv arr0 a (fr :: stack) (map seg_of (fr :: stack)) W ->
  wp (rqsort_step cmp (length arr0) (a, st, fr :: stack)) (fun r =>
    match r with
    | inl (a, _, stack) => stack_inv arr0 a stack (map seg_of stack) (W - 1)
    | inr _ => False
    end).
Proof.
  intros (Hsp & Hfr & Hdep & Hw & Hdis & Hpend). unfold rqsort_step.
  apply Forall_cons_1 in Hfr as [(Hf1 & Hf2 & Hf3) Hfr]. apply wp_bind.
  eapply wp_mono.
  { apply (wp_loop
      (fun '(a, _, stack, ptr, n, depth) =>
        quick_inv arr0 (W - 1) a stack ptr n depth)
      (fun '(_, _, _, _, n, _) => Z.to_nat n)
      (fun '(a, _, stack, ptr, n) => exists depth,
        quick_inv arr0 (W - 1) a stack ptr n depth)).
    - intros [[[[[a1 st1] stack1] ptr] n] depth] Hq.
      eapply wp_mono; [by apply quick_step_spec|].
      intros [[[[[[a2 st2] stack2] ptr2] n2] depth2]|[[[[? ?] ?] ?] ?]]; [|done].
      intros [Hq2 Hlt]. split; [done|]. destruct Hq as (_ & _ & Hn & _).
      destruct Hq2 as (_ & _ & Hn2 & _). lia.
    - split; [|simpl in *; lia]. simpl in Hw, Hdep.
      split; [done|]. split; [done|]. split; [apply Hdep|]. split; [lia|].
      split; [done|]. done.
    - lia. }
  intros [[[[b st1] stack1] ptr] n] (depth & Hq).
  destruct Hq as ((Hsp1 & Hfr1 & Hdep1 & Hw1 & Hdis1 & Hpend1) & Hp & Hn & Hlen & Hsd).
  assert (HLb : length b = length arr0) by apply Hsp1.
  apply wp_bind. eapply wp_mono; [apply insertion_sort_spec; lia|].
  intros [c st2] [Hspc Hso]. simpl. split.
  { eapply seg_perm_trans; [done|]. eapply seg_perm_weaken; [done|lia..]. }
  split; [done|]. split; [done|]. split; [lia|]. split; [apply Hdis1|].
  intros O. eapply (pend_sorted (ptr, n) _ b c); simpl; auto. apply Hdis1.
Qed.

(** C14.  [rqsort] terminates without touching a cell outside the array and
  within its local stack of 50 segments, whatever the callback answers (even
  an inconsistent one), and permutes the elements; when the callback is a
  total preorder the result is sorted. *)
Theorem rqsort_spec arr st :
  wp (rqsort cmp arr st) (fun '(arr', _) => arr ≡ₚ arr' /\
    (cmp_order -> sorted_seg arr' 0 (Z.of_nat (length arr)))).
Proof.
  unfold rqsort. destruct (Z.ltb_spec (Z.of_nat (length arr)) 2).
  { simpl. split; [done|]. intros O i j. lia. }
  simpl. eapply wp_mono.
  { apply (wp_loop
      (fun '(a, _, stack) =>
        stack_inv arr a stack (map seg_of stack) (weight stack))
      (fun '(_, _, stack) => Z.to_nat (weight stack))
      (fun '(a, _) => stack_inv arr a [] [] 0)).
    - intros [[a s] [|fr stack]] Hs; [done|].
      eapply wp_mono; [by apply rqsort_step_spec|].
      intros [[[a1 st1] stack1]|]; [|done]. intros Hs1.
      assert (Hw : 0 <= weight stack1 <= weight (fr :: stack) - 1).
      { destruct Hs1 as (_ & Hfr1 & _ & Hw & _). split; [|done].
        clear -Hfr1. induction Hfr1 as [|x l (?&?&?)]; simpl; lia. }
      split; [|lia]. destruct Hs1 as (?&?&?&?&?&?).
      do 3 (split; [done|]). by split; [lia|].
    - split; [done|]. split; [repeat constructor; simpl; lia|].
      split; [simpl; lia|]. split; [done|]. split; [by repeat constructor|].
      intros O i j Hi Hij Hno x y Hx Hy. exfalso.
      apply lookup_lt_Some in Hx, Hy.
      apply (Hno (0, Z.of_nat (length arr))); [set_solver|].
      unfold in_seg. simpl. lia.
    - simpl. lia. }
  intros [a st'] ((HL & HP & _) & _ & _ & _ & _ & Hpend). split; [done|].
  intros O i j Hi Hij Hj. apply Hpend; [done..|]. set_solver.
Qed.
End order.

Lemma rqsort_spec_witness :
  let cmp (st : unit) (x y : Z) := (x - y, st) in
  wp (rqsort cmp [5; 3; 9; 1; 7; 3; 8; 2; 6] tt) (fun '(arr', _) =>
    [5; 3; 9; 1; 7; 3; 8; 2; 6] ≡ₚ arr' /\
    (cmp_order cmp Z.sub -> sorted_seg Z.sub arr' 0 9)).
Proof.
  intros cmp. apply (rqsort_spec cmp Z.sub [5; 3; 9; 1; 7; 3; 8; 2; 6] tt).
Defined.
