(* ===== verification/Exchange.v ===== *)
(** * The exchange routines behind [rqsort]

    [exchange_func] picks a routine from the alignment of the array and the
    size of an element; the routines move bytes or aligned words.  Memory is
    one block of bytes that starts at the address [org]; a word access that
    is not aligned, or leaves the block, is undefined. *)

From stdpp Require Import base tactics numbers list option.
From Stdlib Require Import ZArith Lia.
From S2P Require Import Prelude Rqsort RqsortSpec.

Open Scope Z_scope.

Section exchange.
Context (org : Z).

(** Load and store an object of [w] bytes at the address [p]. *)
Definition ld (w : Z) (mem : list Z) (p : Z) : res (list Z) :=
  if p mod w =? 0 then slice mem (p - org) w else Ub.

Definition st (w : Z) (mem : list Z) (p : Z) (v : list Z) : res (list Z) :=
  if p mod w =? 0 then blit mem (p - org) v else Ub.

(** [t = *ap; *ap = *bp; *bp = t;] on objects of [w] bytes *)
Definition exchange_word (w : Z) (mem : list Z) (ap bp : Z) : res (list Z) :=
  let* t := ld w mem ap in
  let* u := ld w mem bp in
  let* mem := st w mem ap u in
  st w mem bp t.

(** The loops [while (size-- != 0) { ...; ap++; bp++; }] *)
Definition exchange_words (w n : Z) (mem : list Z) (a b : Z) : res (list Z) :=
  for_upto (Z.to_nat n) 0 (fun k mem =>
    exchange_word w mem (a + k * w) (b + k * w)) mem.

Definition exchange_bytes (mem : list Z) (a b size : Z) : res (list Z) :=
  exchange_words 1 size mem a b.
Definition exchange_one_byte (mem : list Z) (a b size : Z) : res (list Z) :=
  exchange_word 1 mem a b.
Definition exchange_int16s (mem : list Z) (a b size : Z) : res (list Z) :=
  exchange_words 2 (size / 2) mem a b.
Definition exchange_one_int16 (mem : list Z) (a b size : Z) : res (list Z) :=
  exchange_word 2 mem a b.
Definition exchange_int32s (mem : list Z) (a b size : Z) : res (list Z) :=
  exchange_words 4 (size / 4) mem a b.
Definition exchange_one_int32 (mem : list Z) (a b size : Z) : res (list Z) :=
  exchange_word 4 mem a b.
Definition exchange_int64s (mem : list Z) (a b size : Z) : res (list Z) :=
  exchange_words 8 (size / 8) mem a b.
Definition exchange_one_int64 (mem : list Z) (a b size : Z) : res (list Z) :=
  exchange_word 8 mem a b.

(** [t = ap[0]; u = ap[1]; ap[0] = bp[0]; ap[1] = bp[1]; bp[0] = t;
    bp[1] = u;] on 64-bit words *)
Definition exchange_pair (mem : list Z) (ap bp : Z) : res (list Z) :=
  let* t := ld 8 mem ap in
  let* u := ld 8 mem (ap + 8) in
  let* x := ld 8 mem bp in
  let* mem := st 8 mem ap x in
  let* y := ld 8 mem (bp + 8) in
  let* mem := st 8 mem (ap + 8) y in
  let* mem := st 8 mem bp t in
  st 8 mem (bp + 8) u.

Definition exchange_int128s (mem : list Z) (a b size : Z) : res (list Z) :=
  for_upto (Z.to_nat (size / (8 * 2))) 0 (fun k mem =>
    exchange_pair mem (a + k * 16) (b + k * 16)) mem.
Definition exchange_one_int128 (mem : list Z) (a b size : Z) : res (list Z) :=
  exchange_pair mem a b.

Definition exchange_func (base size : Z)
  : list Z -> Z -> Z -> Z -> res (list Z) :=
  match Z.land (Z.lor base size) 15 with
  | 0 => if size =? 8 * 2 then exchange_one_int128 else exchange_int128s
  | 8 => if size =? 8 then exchange_one_int64 else exchange_int64s
  | 4 | 12 => if size =? 4 then exchange_one_int32 else exchange_int32s
  | 2 | 6 | 10 | 14 =>
      if size =? 2 then exchange_one_int16 else exchange_int16s
  | _ => if size =? 1 then exchange_one_byte else exchange_bytes
  end.

(** ** Correctness *)

(** [mem'] is [mem] with the [n] bytes at the addresses [a] and [b]
    exchanged. *)
Definition exchanged (a b n : Z) (mem mem' : list Z) : Prop :=
  length mem' = length mem /\
  forall k, 0 <= k -> mem'.[k] =
    if (a - org <=? k) && (k <? a - org + n) then mem.[b - org + (k - (a - org))]
    else if (b - org <=? k) && (k <? b - org + n) then mem.[a - org + (k - (b - org))]
    else mem.[k].

(** Two regions of the block that are equal or do not overlap. *)
Definition regions (a b n len : Z) : Prop :=
  0 <= n /\ org <= a /\ org <= b /\
  a + n <= org + len /\ b + n <= org + len /\
  (a = b \/ a + n <= b \/ b + n <= a).

Lemma ld_lookup w mem p (Q : list Z -> Prop) :
  0 < w -> p mod w = 0 -> org <= p -> p + w <= org + Z.of_nat (length mem) ->
  (forall v, Z.of_nat (length v) = w ->
    (forall k, 0 <= k < w -> v.[k] = mem.[p - org + k]) -> Q v) ->
  wp (ld w mem p) Q.
Proof.
  intros Hw Hp Ho Hl HQ. unfold ld. rewrite Hp. simpl.
  rewrite slice_in by lia. simpl. apply HQ; [list_len; lia|].
  intros k Hk. rewrite lookup_take_lt, lookup_drop by lia. f_equal. lia.
Qed.

Lemma st_lookup w mem p v (Q : list Z -> Prop) :
  0 < w -> p mod w = 0 -> org <= p -> p + w <= org + Z.of_nat (length mem) ->
  Z.of_nat (length v) = w ->
  (forall mem', length mem' = length mem ->
    (forall k, 0 <= k -> mem'.[k] =
      if (p - org <=? k) && (k <? p - org + w) then v.[k - (p - org)]
      else mem.[k]) -> Q mem') ->
  wp (st w mem p v) Q.
Proof.
  intros Hw Hp Ho Hl Hv HQ. unfold st. rewrite Hp. simpl.
  rewrite blit_in by lia. simpl. apply HQ; [list_len; lia|].
  intros k Hk. rewrite !lookup_app_dec, lookup_take, lookup_drop.
  list_len. repeat (zcase; try lia); simpl; repeat list_ext_cases; try lia;
    f_equal; lia.
Qed.

Lemma exchange_word_spec w mem a b :
  0 < w -> a mod w = 0 -> b mod w = 0 ->
  regions a b w (Z.of_nat (length mem)) ->
  wp (exchange_word w mem a b) (exchanged a b w mem).
Proof.
  intros Hw Ha Hb (_ & Ha1 & Hb1 & Ha2 & Hb2 & Hdis). unfold exchange_word.
  apply wp_bind, ld_lookup; [done..|]. intros t Ht Ft.
  apply wp_bind, ld_lookup; [done..|]. intros u Hu Fu.
  apply wp_bind, st_lookup; [done..|]. intros m1 L1 F1.
  apply st_lookup; [lia || done..|]. intros m2 L2 F2.
  split; [congruence|]. intros k Hk. rewrite F2, F1 by done.
  repeat (zcase; try lia); simpl; rewrite ?Ft, ?Fu by lia; try done;
    f_equal; lia.
Qed.

(** Exchanging [d] bytes and then the next [w] exchanges [d + w]. *)
Lemma exchanged_step a b d w m0 m1 m2 :
  0 <= d -> 0 < w -> regions a b (d + w) (Z.of_nat (length m0)) ->
  exchanged a b d m0 m1 -> exchanged (a + d) (b + d) w m1 m2 ->
  exchanged a b (d + w) m0 m2.
Proof.
  intros Hd Hw (_ & Ha1 & Hb1 & Ha2 & Hb2 & Hdis) [L1 F1] [L2 F2].
  split; [congruence|]. intros k Hk. rewrite F2 by done.
  repeat (zcase; try lia); simpl; rewrite F1 by lia;
    repeat (zcase; try lia); simpl; try done; f_equal; lia.
Qed.

(** A loop of exchanges of [w] bytes. *)
Lemma exchange_loop (w n : Z) body mem a b :
  0 < w -> 0 <= n -> a mod w = 0 -> b mod w = 0 ->
  (forall mem a b, a mod w = 0 -> b mod w = 0 ->
    regions a b w (Z.of_nat (length mem)) ->
    wp (body mem a b) (exchanged a b w mem)) ->
  regions a b (n * w) (Z.of_nat (length mem)) ->
  wp (for_upto (Z.to_nat n) 0
        (fun k mem => body mem (a + k * w) (b + k * w)) mem)
    (exchanged a b (n * w) mem).
Proof.
  intros Hw Hn Ha Hb Hbody Hreg.
  pose (I := fun k m => exchanged a b (k * w) mem m).
  eapply wp_mono; [apply (wp_for I)|].
  - intros k m Hk Hm. unfold I. assert (0 <= k * w) by nia.
    assert (k * w + w <= n * w) by nia.
    destruct Hreg as (_ & Ha1 & Hb1 & Ha2 & Hb2 & Hdis).
    assert (Hmod : forall x, x mod w = 0 -> (x + k * w) mod w = 0).
    { intros x Hx. by rewrite Z_mod_plus_full. }
    eapply wp_mono; [apply Hbody; auto|].
    + destruct Hm as [-> _]. unfold regions. lia.
    + intros m2 Hm2. replace ((k + 1) * w) with (k * w + w) by lia.
      eapply exchanged_step; [lia|lia| |done|done]. unfold regions. lia.
  - split; [done|]. intros k Hk. by repeat (zcase; try lia).
  - intros m Hm. unfold I in Hm.
    by replace (0 + Z.of_nat (Z.to_nat n)) with n in Hm by lia.
Qed.
(** The two-word exchange moves 16 bytes. *)
Lemma exchange_pair_spec mem a b :
  a mod 16 = 0 -> b mod 16 = 0 ->
  regions a b 16 (Z.of_nat (length mem)) ->
  wp (exchange_pair mem a b) (exchanged a b 16 mem).
Proof.
  intros Ha Hb (_ & Ha1 & Hb1 & Ha2 & Hb2 & Hdis). unfold exchange_pair.
  assert (a mod 8 = 0 /\ b mod 8 = 0 /\ (a + 8) mod 8 = 0
          /\ (b + 8) mod 8 = 0) as (A0 & B0 & A1 & B1) by dlia.
  apply wp_bind, ld_lookup; [lia || done..|]. intros t Ht Ft.
  apply wp_bind, ld_lookup; [lia || done..|]. intros u Hu Fu.
  apply wp_bind, ld_lookup; [lia || done..|]. intros x Hx Fx.
  apply wp_bind, st_lookup; [lia || done..|]. intros m1 L1 F1.
  apply wp_bind, ld_lookup; [lia || done..|]. intros y Hy Fy.
  apply wp_bind, st_lookup; [lia || done..|]. intros m2 L2 F2.
  apply wp_bind, st_lookup; [lia || done..|]. intros m3 L3 F3.
  apply st_lookup; [lia || done..|]. intros m4 L4 F4.
  split; [congruence|]. intros k Hk. rewrite F4, F3, F2, F1 by done.
  repeat (zcase; try lia); simpl; rewrite ?Ft, ?Fu, ?Fx, ?Fy, ?F1 by lia;
    repeat (zcase; try lia); simpl; try done; f_equal; lia.
Qed.

(** The low bits of [base | size] give the alignment of both. *)
Lemma lor_aligned k x y :
  0 <= k -> Z.lor x y mod 2 ^ k = 0 -> x mod 2 ^ k = 0 /\ y mod 2 ^ k = 0.
Proof.
  intros Hk. rewrite <- !land_mod, Z.land_lor_distr_l by done.
  apply Z.lor_eq_0_iff.
Qed.

Definition aligned_with (base sz a b s : Z) : Prop :=
  forall k, 0 <= k <= 4 -> base mod 2 ^ k = 0 -> sz mod 2 ^ k = 0 ->
  a mod 2 ^ k = 0 /\ b mod 2 ^ k = 0 /\ s mod 2 ^ k = 0.

Lemma exchange_words_spec k s mem a b :
  0 <= k -> 0 <= s -> a mod 2 ^ k = 0 -> b mod 2 ^ k = 0 -> s mod 2 ^ k = 0 ->
  regions a b s (Z.of_nat (length mem)) ->
  wp (exchange_words (2 ^ k) (s / 2 ^ k) mem a b) (exchanged a b s mem).
Proof.
  intros Hk Hs Ha Hb Hm Hreg.
  assert (0 < 2 ^ k) as Hpos by (apply Z.pow_pos_nonneg; lia).
  assert (s = s / 2 ^ k * 2 ^ k) as Es
    by (pose proof (Z.div_mod s (2 ^ k)); lia).
  rewrite Es at 2. unfold exchange_words. rewrite Es in Hreg.
  apply (exchange_loop (2 ^ k) (s / 2 ^ k) (exchange_word (2 ^ k)));
    [done|by apply Z.div_pos|done|done| |done].
  intros. by apply exchange_word_spec.
Qed.

(** One alignment class of [exchange_func]: [one] serves an element of
    exactly [2 ^ k] bytes, the loop any multiple. *)
Lemma exchange_class k base sz s mem a b v
    (one many : list Z -> Z -> Z -> Z -> res (list Z)) :
  0 <= k <= 4 -> 0 <= s -> sz = s \/ 16 < sz ->
  aligned_with base sz a b s ->
  Z.land (Z.lor base sz) 15 = v -> v mod 2 ^ k = 0 ->
  regions a b s (Z.of_nat (length mem)) ->
  (a mod 2 ^ k = 0 -> b mod 2 ^ k = 0 ->
    regions a b (2 ^ k) (Z.of_nat (length mem)) ->
    wp (one mem a b (2 ^ k)) (exchanged a b (2 ^ k) mem)) ->
  (a mod 2 ^ k = 0 -> b mod 2 ^ k = 0 -> s mod 2 ^ k = 0 ->
    wp (many mem a b s) (exchanged a b s mem)) ->
  wp ((if sz =? 2 ^ k then one else many) mem a b s) (exchanged a b s mem).
Proof.
  intros Hk Hs Hsz Hal Hv Hvk Hreg Hone Hmany.
  assert (Z.lor base sz mod 2 ^ k = 0) as Hl.
  { change 15 with (Z.ones 4) in Hv. rewrite land_mod in Hv by lia.
    assert (Hd : (2 ^ k | 2 ^ 4)).
    { exists (2 ^ (4 - k)). rewrite <- Z.pow_add_r by lia. f_equal. lia. }
    rewrite <- (Z.mod_mod_divide _ _ _ Hd), Hv. done. }
  apply lor_aligned in Hl as [Hb Hz]; [|lia].
  destruct (Hal k Hk Hb Hz) as (Ha' & Hb' & Hs').
  zcase; [|by apply Hmany].
  assert (2 ^ k <= 2 ^ 4) by (apply Z.pow_le_mono_r; lia).
  assert (s = 2 ^ k) as -> by lia. by apply Hone.
Qed.

Lemma exchange_pairs_spec s mem a b :
  0 <= s -> a mod 16 = 0 -> b mod 16 = 0 -> s mod 16 = 0 ->
  regions a b s (Z.of_nat (length mem)) ->
  wp (exchange_int128s mem a b s) (exchanged a b s mem).
Proof.
  intros Hs Ha Hb Hm Hreg. unfold exchange_int128s.
  change (8 * 2) with 16. assert (s = s / 16 * 16) as Es by dlia.
  rewrite Es at 2. rewrite Es in Hreg.
  apply (exchange_loop 16 (s / 16) exchange_pair); [lia|dlia|done|done| |done].
  intros. by apply exchange_pair_spec.
Qed.

Lemma exchange_func_spec base sz s mem a b :
  0 <= s -> sz = s \/ 16 < sz -> aligned_with base sz a b s ->
  regions a b s (Z.of_nat (length mem)) ->
  wp (exchange_func base sz mem a b s) (exchanged a b s mem).
Proof.
  intros Hs Hsz Hal Hreg. unfold exchange_func.
  assert (0 <= Z.land (Z.lor base sz) 15 < 16) as Hv.
  { change 15 with (Z.ones 4). rewrite land_mod by lia.
    apply Z.mod_pos_bound. lia. }
  assert (Hw : forall k one many, 0 <= k <= 3 ->
    Z.land (Z.lor base sz) 15 mod 2 ^ k = 0 ->
    one = (fun m x y (_ : Z) => exchange_word (2 ^ k) m x y) ->
    (forall m x y z,
      many m x y z = exchange_words (2 ^ k) (z / 2 ^ k) m x y) ->
    wp ((if sz =? 2 ^ k then one else many) mem a b s)
      (exchanged a b s mem)).
  { intros k one many Hk Hmod -> Hmany.
    assert (0 < 2 ^ k) by (apply Z.pow_pos_nonneg; lia).
    apply (exchange_class k base sz s mem a b _ _ _
      ltac:(lia) Hs Hsz Hal eq_refl Hmod Hreg).
    - intros. by apply exchange_word_spec.
    - intros. rewrite Hmany. apply exchange_words_spec; [lia|done..]. }
  assert (H16 : Z.land (Z.lor base sz) 15 = 0 ->
    wp ((if sz =? 16 then exchange_one_int128 else exchange_int128s)
          mem a b s) (exchanged a b s mem)).
  { intros Hv0. apply (exchange_class 4 base sz s mem a b _ _ _
      ltac:(lia) Hs Hsz Hal Hv0 eq_refl Hreg).
    - apply exchange_pair_spec.
    - intros. by apply exchange_pairs_spec. }
  assert (H1 : wp ((if sz =? 1 then exchange_one_byte else exchange_bytes)
                     mem a b s) (exchanged a b s mem)).
  { apply (Hw 0); [lia|apply Z.mod_1_r|done|].
    intros. unfold exchange_bytes. simpl. by rewrite Z.div_1_r. }
  destruct (Z.land (Z.lor base sz) 15) as [|v|v]; [by apply H16| |lia].
  do 4 (try destruct v as [v|v|]); try lia; try exact H1;
    first [by apply (Hw 1)|by apply (Hw 2)|by apply (Hw 3)].
Qed.
End exchange.

(** C28.  In an array of elements of [size] bytes at [base], the routine that
    [exchange_func] picks for a single element exchanges two elements, and the
    one it picks for blocks exchanges two disjoint runs of [n] elements,
    whatever the alignment of the array; no access is unaligned or out of the
    array. *)
Theorem exchange_elements base size mem i j n :
  0 < size -> 0 <= i -> 0 <= j -> 0 <= n ->
  i + n <= j \/ j + n <= i ->
  (i + n) * size <= Z.of_nat (length mem) ->
  (j + n) * size <= Z.of_nat (length mem) ->
  (n = 1 -> wp (exchange_func base base size mem (base + i * size)
                  (base + j * size) size)
              (exchanged base (base + i * size) (base + j * size) size mem)) /\
  wp (exchange_func base base (Z.lor size 128) mem (base + i * size)
        (base + j * size) (n * size))
    (exchanged base (base + i * size) (base + j * size) (n * size) mem).
Proof.
  intros Hs Hi Hj Hn Hd H1 H2.
  assert (Hmod : forall k x, 0 <= k -> base mod 2 ^ k = 0 -> size mod 2 ^ k = 0 ->
            (base + x * size) mod 2 ^ k = 0 /\ (x * size) mod 2 ^ k = 0).
  { intros k x Hk Hb Hz. assert (0 < 2 ^ k) by (apply Z.pow_pos_nonneg; lia).
    rewrite Z.add_mod, Z.mul_mod, Hb, Hz by lia.
    by rewrite Z.mul_0_r, Z.mod_0_l by lia. }
  split.
  - intros ->. apply exchange_func_spec; [lia|by left| |unfold regions; nia].
    intros k Hk Hb Hz. destruct (Hmod k i) as [? _]; [lia|done..|].
    by destruct (Hmod k j) as [? _]; [lia|..].
  - apply exchange_func_spec; [nia| | |unfold regions; nia].
    + right. pose proof (Z.log2_lor size 128 ltac:(lia) ltac:(lia)) as Hlog.
      change (Z.log2 128) with 7 in Hlog.
      assert (0 < Z.lor size 128).
      { destruct (Z.lt_trichotomy (Z.lor size 128) 0) as [Hneg|[H0|]]; [| |done].
        - apply Z.lor_neg in Hneg. lia.
        - apply Z.lor_eq_0_iff in H0. lia. }
      pose proof (Z.log2_spec (Z.lor size 128) ltac:(done)) as [Hp _].
      assert (2 ^ 7 <= 2 ^ Z.log2 (Z.lor size 128))
        by (apply Z.pow_le_mono_r; lia). lia.
    + intros k Hk Hb Hz. apply lor_aligned in Hz as [Hz _]; [|lia].
      destruct (Hmod k i) as [? _]; [lia|done..|].
      destruct (Hmod k j) as [? _]; [lia|done..|].
      by destruct (Hmod k n) as [_ ?]; [lia|..].
Qed.

(** Three elements of 12 bytes at an address aligned to 4. *)
Lemma exchange_elements_witness :
  (1 = 1 -> wp (exchange_func 1004 1004 12 (replicate 36 7) (1004 + 0 * 12)
                  (1004 + 2 * 12) 12)
              (exchanged 1004 (1004 + 0 * 12) (1004 + 2 * 12) 12
                 (replicate 36 7))) /\
  wp (exchange_func 1004 1004 (Z.lor 12 128) (replicate 36 7) (1004 + 0 * 12)
        (1004 + 2 * 12) (1 * 12))
    (exchanged 1004 (1004 + 0 * 12) (1004 + 2 * 12) (1 * 12) (replicate 36 7)).
Proof.
  apply (exchange_elements 1004 12 (replicate 36 7) 0 2 1); simpl; lia.
Defined.
