(* ===== verification/CharRange.v ===== *)
(** * Character ranges ([libunicode.c], [libunicode.h])

    A [CharRange] is a sorted array of points; the code point [c] is a member
    when an odd number of points are at most [c].  The section models the
    record, its growth and every operation on it; the callback
    [realloc_func] is the [Allocator] of the prelude, with cells of 4
    bytes. *)

From stdpp Require Import base tactics numbers list option.
From Stdlib Require Import ZArith Lia.
From S2P Require Import Prelude Cutils.

Open Scope Z_scope.

Record CharRange := mkCharRange {
  cr_len : Z;               (* in points, always even *)
  cr_size : Z;
  cr_points : list Z        (* points sorted by increasing value *)
}.

Inductive CharRangeOpEnum := CR_OP_UNION | CR_OP_INTER | CR_OP_XOR.

Section char_range.
Context {al : Allocator}.

Definition cr_init : CharRange := mkCharRange 0 0 [].

Definition cr_free (h : heap) (cr : CharRange) : heap :=
  fst (realloc_func h 4 (cr_points cr) 0).

(** [cr->size * 3 / 2] is an [int] product: it must not overflow. *)
Definition cr_realloc (h : heap) (cr : CharRange) (size : Z)
  : res (heap * CharRange * Z) :=
  if cr_size cr <? size then
    let* _ := c_assert (cr_size cr * 3 <=? INT32_MAX) in
    let new_size := max_int size (cr_size cr * 3 / 2) in
    match realloc_func h 4 (cr_points cr) new_size with
    | (h, None) => Ret (h, cr, -1)
    | (h, Some new_buf) =>
        Ret (h, mkCharRange (cr_len cr) new_size new_buf, 0)
    end
  else Ret (h, cr, 0).

Definition cr_copy (h : heap) (cr cr1 : CharRange)
  : res (heap * CharRange * Z) :=
  let* (h, cr, r) := cr_realloc h cr (cr_len cr1) in
  if negb (r =? 0) then Ret (h, cr, -1)
  else
    let* data := slice (cr_points cr1) 0 (cr_len cr1) in
    let* points := blit (cr_points cr) 0 data in
    Ret (h, mkCharRange (cr_len cr1) (cr_size cr) points, 0).

Definition cr_add_point (h : heap) (cr : CharRange) (v : Z)
  : res (heap * CharRange * Z) :=
  let* (h, cr, r) :=
    if cr_size cr <=? cr_len cr then cr_realloc h cr (cr_len cr + 1)
    else Ret (h, cr, 0) in
  if negb (r =? 0) then Ret (h, cr, -1)
  else
    let* points := wr (cr_points cr) (cr_len cr) v in
    Ret (h, mkCharRange (cr_len cr + 1) (cr_size cr) points, 0).

Definition cr_add_interval (h : heap) (cr : CharRange) (c1 c2 : Z)
  : res (heap * CharRange * Z) :=
  let* (h, cr, r) :=
    if cr_size cr <? cr_len cr + 2 then cr_realloc h cr (cr_len cr + 2)
    else Ret (h, cr, 0) in
  if negb (r =? 0) then Ret (h, cr, -1)
  else
    let* points := wr (cr_points cr) (cr_len cr) c1 in
    let* points := wr points (cr_len cr + 1) c2 in
    Ret (h, mkCharRange (cr_len cr + 2) (cr_size cr) points, 0).

(** [while ((j + 3) < len && pt[j + 1] == pt[j + 2]) j += 2;] *)
Definition cr_compress_run (pt : list Z) (len j : Z) : res Z :=
  loop (Datatypes.S (Z.to_nat len)) (fun j =>
    if j + 3 <? len then
      let* x := rd pt (j + 1) in
      let* y := rd pt (j + 2) in
      if x =? y then Ret (inl (j + 2)) else Ret (inr j)
    else Ret (inr j)) j.

(** One turn of the loop of [cr_compress]. *)
Definition cr_compress_step (len : Z)
  : list Z * Z * Z -> res (list Z * Z * Z + list Z * Z) :=
  fun '(pt, i, k) =>
    if i + 1 <? len then
      let* x := rd pt i in
      let* y := rd pt (i + 1) in
      if x =? y then Ret (inl (pt, i + 2, k))     (* empty interval *)
      else
        let* j := cr_compress_run pt len i in
        (* just copy *)
        let* x := rd pt i in
        let* pt := wr pt k x in
        let* y := rd pt (j + 1) in
        let* pt := wr pt (k + 1) y in
        Ret (inl (pt, j + 2, k + 2))
    else Ret (inr (pt, k)).

(** merge consecutive intervals and remove empty intervals *)
Definition cr_compress (cr : CharRange) : res CharRange :=
  let* (pt, k) :=
    loop (Datatypes.S (Z.to_nat (cr_len cr))) (cr_compress_step (cr_len cr))
      (cr_points cr, 0, 0) in
  Ret (mkCharRange k (cr_size cr) pt).

Definition cr_op_is_in (op : CharRangeOpEnum) (a_idx b_idx : Z) : Z :=
  let a := Z.land a_idx 1 in
  let b := Z.land b_idx 1 in
  match op with
  | CR_OP_UNION => Z.lor a b
  | CR_OP_INTER => Z.land a b
  | CR_OP_XOR => Z.lxor a b
  end.

(** get one more point from a or b in increasing order *)
Definition cr_op_next (a_pt : list Z) (a_len : Z) (b_pt : list Z) (b_len : Z)
    (a_idx b_idx : Z) : res (option (Z * Z * Z)) :=
  if (a_idx <? a_len) && (b_idx <? b_len) then
    let* x := rd a_pt a_idx in
    let* y := rd b_pt b_idx in
    if x <? y then Ret (Some (x, a_idx + 1, b_idx))
    else if x =? y then Ret (Some (x, a_idx + 1, b_idx + 1))
    else Ret (Some (y, a_idx, b_idx + 1))
  else if a_idx <? a_len then
    let* x := rd a_pt a_idx in Ret (Some (x, a_idx + 1, b_idx))
  else if b_idx <? b_len then
    let* y := rd b_pt b_idx in Ret (Some (y, a_idx, b_idx + 1))
  else Ret None.

Definition cr_op_step (a_pt : list Z) (a_len : Z) (b_pt : list Z) (b_len : Z)
    (op : CharRangeOpEnum)
  : heap * CharRange * Z * Z
    -> res (heap * CharRange * Z * Z + heap * CharRange * Z) :=
  fun '(h, cr, a_idx, b_idx) =>
    let* next := cr_op_next a_pt a_len b_pt b_len a_idx b_idx in
    match next with
    | None =>
        let* cr := cr_compress cr in
        Ret (inr (h, cr, 0))
    | Some (v, a_idx, b_idx) =>
        (* add the point if the in/out status changes *)
        if negb (cr_op_is_in op a_idx b_idx =? Z.land (cr_len cr) 1) then
          let* (h, cr, r) := cr_add_point h cr v in
          if negb (r =? 0) then Ret (inr (h, cr, -1))
          else Ret (inl (h, cr, a_idx, b_idx))
        else Ret (inl (h, cr, a_idx, b_idx))
    end.

(** union or intersection *)
Definition cr_op (h : heap) (cr : CharRange) (a_pt : list Z) (a_len : Z)
    (b_pt : list Z) (b_len : Z) (op : CharRangeOpEnum)
  : res (heap * CharRange * Z) :=
  loop (Datatypes.S (Z.to_nat (a_len + b_len)))
    (cr_op_step a_pt a_len b_pt b_len op) (h, cr, 0, 0).

Definition cr_union1 (h : heap) (cr : CharRange) (b_pt : list Z) (b_len : Z)
  : res (heap * CharRange * Z) :=
  let a := cr in
  let* (h, cr, ret) :=
    cr_op h (mkCharRange 0 0 []) (cr_points a) (cr_len a) b_pt b_len
      CR_OP_UNION in
  Ret (cr_free h a, cr, ret).

Definition cr_union_interval (h : heap) (cr : CharRange) (c1 c2 : Z)
  : res (heap * CharRange * Z) :=
  cr_union1 h cr [c1; u32 (c2 + 1)] 2.

Definition cr_invert (h : heap) (cr : CharRange)
  : res (heap * CharRange * Z) :=
  let len := cr_len cr in
  let* (h, cr, r) := cr_realloc h cr (len + 2) in
  if negb (r =? 0) then Ret (h, cr, -1)
  else
    let* pt := memmove (cr_points cr) 1 0 len in
    let* pt := wr pt 0 0 in
    let* pt := wr pt (len + 1) UINT32_MAX in
    let* cr := cr_compress (mkCharRange (len + 2) (cr_size cr) pt) in
    Ret (h, cr, 0).
End char_range.
