(* ===== verification/CharRangeSpec.v ===== *)
(** * What the character ranges denote

    A list of points denotes a set of code points ([mem]).  [cr_op],
    [cr_union1], [cr_union_interval] and [cr_invert] are proved to compute
    the Boolean operations on those sets and to leave a strictly sorted list
    of points, whatever the capacities of the arrays were. *)

From stdpp Require Import base tactics numbers list option sorting sets.
From Stdlib Require Import ZArith Lia.
From S2P Require Import Prelude Cutils CharRange.

Open Scope Z_scope.

(** Membership: an odd number of points at most [c]. *)
Fixpoint mem (c : Z) (pts : list Z) : bool :=
  match pts with
  | [] => false
  | p :: pts => xorb (p <=? c) (mem c pts)
  end.

Definition pts (cr : CharRange) : list Z :=
  take (Z.to_nat (cr_len cr)) (cr_points cr).

Abbreviation sorted_le := (StronglySorted Z.le).
Abbreviation sorted_lt := (StronglySorted Z.lt).

Definition even_len {A} (l : list A) : Prop :=
  exists n : nat, length l = (2 * n)%nat.

(** The shape of a range, for arrays of at most [3 * M / 2] points. *)
Definition cr_wf (M : Z) (cr : CharRange) : Prop :=
  0 <= cr_len cr <= cr_size cr /\
  Z.of_nat (length (cr_points cr)) = cr_size cr /\
  cr_size cr * 2 <= 3 * M.

(** Some call of the allocator can fail. *)
Definition can_fail (al : Allocator) : Prop :=
  exists h w old n h', realloc_func h w old n = (h', None).

(** ** Sets and lists of points *)

Lemma mem_app c l1 l2 : mem c (l1 ++ l2) = xorb (mem c l1) (mem c l2).
Proof.
  induction l1 as [|p l1 IH]; simpl; [by destruct (mem c l2)|].
  by rewrite IH, xorb_assoc.
Qed.

Lemma mem_below c l : (forall p, p ∈ l -> c < p) -> mem c l = false.
Proof.
  induction l as [|p l IH]; intros Hl; simpl; [done|].
  rewrite IH; [|intros q Hq; apply Hl; by constructor].
  assert (c < p) by (apply Hl; constructor). by zcase; [lia|].
Qed.

Lemma mem_above c l : (forall p, p ∈ l -> p <= c) -> mem c l = Nat.odd (length l).
Proof.
  induction l as [|p l IH]; intros Hl; [done|].
  change (length (p :: l)) with (Datatypes.S (length l)).
  rewrite Nat.odd_succ, <- Nat.negb_odd. simpl.
  rewrite IH by (intros q Hq; apply Hl; by constructor).
  assert (p <= c) by (apply Hl; constructor).
  zcase; [|lia]. by destruct (Nat.odd _).
Qed.

Lemma sorted_cons R (x : Z) l :
  StronglySorted R (x :: l) <-> (forall y, y ∈ l -> R x y) /\ StronglySorted R l.
Proof. by rewrite StronglySorted_cons, Forall_forall. Qed.

Lemma sorted_lt_le l : sorted_lt l -> sorted_le l.
Proof.
  induction l as [|x l IH]; [constructor|]. rewrite !sorted_cons.
  intros [Hx Hl]. split; [|auto]. intros y Hy. by apply Z.lt_le_incl, Hx.
Qed.

Lemma even_len_cons2 {A} (x y : A) l : even_len (x :: y :: l) <-> even_len l.
Proof.
  unfold even_len. simpl. split.
  - intros [n Hn]. exists (n - 1)%nat. lia.
  - intros [n Hn]. exists (Datatypes.S n). lia.
Qed.

Lemma even_len_app {A} (l1 l2 : list A) :
  even_len l1 -> even_len l2 -> even_len (l1 ++ l2).
Proof.
  intros [n1 H1] [n2 H2]. exists (n1 + n2)%nat. rewrite length_app. lia.
Qed.

Lemma even_len_odd {A} (l : list A) : even_len l -> Nat.odd (length l) = false.
Proof.
  intros [n ->]. rewrite <- Nat.negb_even, Nat.even_mul. done.
Qed.

Lemma odd_even_len {A} (l : list A) : Nat.odd (length l) = false -> even_len l.
Proof.
  rewrite <- Nat.negb_even. intros H%negb_false_iff%Nat.even_spec. exact H.
Qed.

Lemma list_bound (l : list Z) : exists v, forall x, x ∈ l -> x <= v.
Proof.
  induction l as [|y l [v IH]]; [exists 0; intros x Hx; by inv Hx|].
  exists (Z.max v y). intros x [->|Hx]%elem_of_cons; [lia|].
  specialize (IH x Hx). lia.
Qed.

(** The loops read the array at [length pre + i]. *)
Lemma rd_mid (pre l tail : list Z) i n x :
  i = Z.of_nat (length pre) + Z.of_nat n -> l !! n = Some x ->
  rd (pre ++ l ++ tail) i = Ret x.
Proof.
  intros -> Hn. rewrite rd_app_r by lia. apply rd_nat.
  by apply lookup_app_l_Some.
Qed.

Lemma wr_at {A} (l1 l2 : list A) (i : Z) a x :
  i = Z.of_nat (length l1) -> wr (l1 ++ a :: l2) i x = Ret (l1 ++ x :: l2).
Proof.
  intros ->. rewrite wr_in by (list_len; lia). f_equal.
  replace (Z.to_nat (Z.of_nat (length l1))) with (length l1 + 0)%nat by lia.
  by rewrite insert_app_r.
Qed.

(** ** [cr_compress] *)

Section compress.
Context (len : Z) (tail : list Z).

(** The inner loop consumes pairs of equal points. *)
Lemma cr_compress_run_spec pre x rest i :
  i = Z.of_nat (length pre) -> len = i + Z.of_nat (length (x :: rest)) ->
  even_len (x :: rest) ->
  wp (cr_compress_run (pre ++ (x :: rest) ++ tail) len i) (fun j =>
    exists mids y rest', rest = mids ++ y :: rest' /\
      j = i + Z.of_nat (length mids) /\ (forall c, mem c mids = false) /\
      even_len mids /\ (forall z l, rest' = z :: l -> y <> z)).
Proof.
  intros Hi Hlen Hev. unfold cr_compress_run.
  pose (I := fun j => exists mids y rest', rest = mids ++ y :: rest' /\
    j = i + Z.of_nat (length mids) /\ (forall c, mem c mids = false) /\
    even_len mids).
  apply (wp_loop I (fun j => Z.to_nat (len - j))).
  - intros j (mids & y & rest' & -> & -> & Hm & He).
    assert (Hev' : even_len rest').
    { destruct He as [a Ha], Hev as [b Hb]. exists (b - a - 1)%nat.
      revert Hb. simpl. rewrite length_app. simpl. lia. }
    assert (Hl : len = i + 2 + Z.of_nat (length mids)
                       + Z.of_nat (length rest')).
    { rewrite Hlen. simpl. rewrite length_app. simpl. lia. }
    destruct (Z.ltb_spec (i + Z.of_nat (length mids) + 3) len) as [Hlt|Hge].
    + destruct rest' as [|z [|w rest']]; [simpl in Hl; lia|simpl in Hl; lia|].
      rewrite (rd_mid pre _ tail _ (length mids + 1) y);
        [|lia|rewrite app_comm_cons, lookup_app_r by (simpl; lia);
              simpl; by replace (_ + 1 - _)%nat with 0%nat by lia].
      cbn [bind].
      rewrite (rd_mid pre _ tail _ (length mids + 2) z);
        [|lia|rewrite app_comm_cons, lookup_app_r by (simpl; lia);
              simpl; by replace (_ + 2 - _)%nat with 1%nat by lia].
      cbn [bind]. destruct (Z.eqb_spec y z) as [->|Hne].
      * apply wp_ret. split; [|lens].
        exists (mids ++ [z; z]), w, rest'. rewrite <- app_assoc. simpl.
        split_and!; [done|lens| |].
        -- intros c. rewrite mem_app, Hm. simpl. by destruct (z <=? c).
        -- apply even_len_app; [done|]. by exists 1%nat.
      * apply wp_ret. exists mids, y, (z :: w :: rest').
        split_and!; [done..|]. by intros z' l [= <- _].
    + apply wp_ret. exists mids, y, rest'. split_and!; [done..|].
      intros z l ->. exfalso. destruct Hev' as [n Hn]. simpl in *. lia.
  - destruct rest as [|y rest].
    + exfalso. destruct Hev as [n Hn]. simpl in Hn. lia.
    + exists [], y, rest. split_and!; [done|simpl; lia|done|by exists 0%nat].
  - simpl. lia.
Qed.

Definition compress_inv (l0 : list Z) : list Z * Z * Z -> Prop :=
  fun '(pt, i, k) => exists out gap rest,
    pt = out ++ gap ++ rest ++ tail /\
    k = Z.of_nat (length out) /\ i = Z.of_nat (length (out ++ gap)) /\
    len = Z.of_nat (length (out ++ gap ++ rest)) /\
    even_len out /\ even_len rest /\
    sorted_lt out /\ sorted_le rest /\
    (forall p q, p ∈ out -> q ∈ rest -> p < q) /\
    (forall c, mem c (out ++ rest) = mem c l0) /\
    (forall p, p ∈ out ++ rest -> p ∈ l0).

(** The two writes of a copied interval, over the gap and the run. *)
Lemma compress_write out (L : list Z) x y post k j :
  k = Z.of_nat (length out) -> j = k + Z.of_nat (length L) ->
  L <> [] -> exists L2,
  wr (out ++ L ++ y :: post) k x = Ret (out ++ x :: L2 ++ post) /\
  rd (out ++ x :: L2 ++ post) j = Ret y /\
  exists L3, wr (out ++ x :: L2 ++ post) (k + 1) y
             = Ret ((out ++ [x; y]) ++ L3 ++ post) /\
    length L3 = (length L - 1)%nat.
Proof.
  intros -> -> HL. destruct L as [|g L]; [done|]. exists (L ++ [y]).
  rewrite <- !app_assoc. simpl. rewrite (wr_at out) by done.
  split_and!; [done| |].
  - replace (Z.of_nat (length out) + _)
      with (Z.of_nat (length (out ++ x :: L)) + Z.of_nat 0)
      by (lens).
    replace (out ++ x :: L ++ y :: post) with ((out ++ x :: L) ++ y :: post)
      by (by rewrite <- app_assoc).
    rewrite rd_app_r by lia. done.
  - destruct (L ++ [y]) as [|g2 L3] eqn:E; [by destruct L|].
    exists L3. split.
    + replace (out ++ x :: L ++ y :: post) with ((out ++ [x]) ++ g2 :: L3 ++ post).
      * rewrite wr_at by (lens). by rewrite <- !app_assoc.
      * rewrite <- app_assoc. simpl. do 2 f_equal.
        change (g2 :: L3 ++ post) with ((g2 :: L3) ++ post).
        by rewrite <- E, <- app_assoc.
    + apply (f_equal length) in E. rewrite length_app in E. simpl in *. lia.
Qed.

Lemma compress_step_spec l0 s :
  compress_inv l0 s ->
  wp (cr_compress_step len s) (fun r =>
    match r with
    | inl s' => compress_inv l0 s' /\ s.1.2 < s'.1.2
    | inr (pt, k) => exists out gap, pt = out ++ gap ++ tail /\
        k = Z.of_nat (length out) /\ even_len out /\ sorted_lt out /\
        len = Z.of_nat (length (out ++ gap)) /\
        (forall c, mem c out = mem c l0) /\ (forall p, p ∈ out -> p ∈ l0)
    end).
Proof.
  destruct s as [[pt i] k].
  intros (out & gap & rest & -> & -> & -> & Hlen & Heo & Her & So & Sr & Hor
          & Hm & Hin). unfold cr_compress_step.
  rewrite app_assoc in Hlen. rewrite length_app in Hlen.
  destruct (Z.ltb_spec (Z.of_nat (length (out ++ gap)) + 1) len) as [Hlt|Hge].
  2: { destruct rest as [|x rest].
    - apply wp_ret. exists out, gap.
      setoid_rewrite app_nil_r in Hm. rewrite app_nil_r in Hin.
      split_and!; try done. rewrite Hlen. cbn [length]. lia.
    - exfalso. destruct Her as [n Hn]. simpl in *. lia. }
  destruct rest as [|x [|r1 rest]]; [simpl in *; lia|simpl in *; lia|].
  rewrite !(app_assoc out gap).
  rewrite (rd_mid (out ++ gap) (x :: r1 :: rest) tail _ 0 x) by (done || lia).
  cbn [bind].
  rewrite (rd_mid (out ++ gap) (x :: r1 :: rest) tail _ 1 r1) by (done || lia).
  cbn [bind]. pose proof Sr as Sr0. apply sorted_cons in Sr as [Hx Sr].
  destruct (Z.eqb_spec x r1) as [<-|Hne].
  - apply wp_ret. split; [|simpl; lia]. exists out, (gap ++ [x; x]), rest.
    rewrite <- !app_assoc. simpl.
    apply sorted_cons in Sr as [_ Sr].
    split_and!; try done.
    + lens.
    + lens.
    + by apply even_len_cons2 in Her.
    + intros p q Hp Hq. apply Hor; [done|]. by do 2 right.
    + intros c. rewrite <- Hm, !mem_app. simpl.
      by destruct (x <=? c), (mem c rest).
    + intros p Hp. apply Hin. rewrite elem_of_app in Hp |- *.
      destruct Hp; [by left|]. right. by do 2 right.
  - apply wp_bind. eapply wp_mono.
    { apply (cr_compress_run_spec (out ++ gap) x (r1 :: rest));
        [done|lia|done]. }
    intros j (mids & y & rest' & E & -> & Hmids & Hem & Hy). simpl in Hlen.
    assert (Hxy : x < y).
    { assert (x <= r1) by (apply Hx; constructor).
      destruct mids as [|z mids]; simplify_eq/=; [lia|].
      apply sorted_cons in Sr as [Hr1 _].
      assert (z <= y); [|lia]. apply Hr1, elem_of_app. right. constructor. }
    replace ((out ++ gap) ++ (x :: r1 :: rest) ++ tail)
      with (out ++ (gap ++ x :: mids) ++ y :: rest' ++ tail).
    2: { rewrite E, <- !app_assoc. simpl. by rewrite <- !app_assoc. }
    destruct (compress_write out (gap ++ x :: mids) x y (rest' ++ tail)
      (Z.of_nat (length out))
      (Z.of_nat (length (out ++ gap)) + Z.of_nat (length mids) + 1))
      as (L2 & -> & H2 & L3 & H3 & HL3); [done|lens|by destruct gap|].
    cbn [bind]. rewrite H2. cbn [bind]. rewrite H3. cbn [bind].
    apply wp_ret.
    assert (Sy : sorted_le (y :: rest')).
    { rewrite E in Sr. by apply StronglySorted_app_1_r in Sr. }
    assert (Hlr : Datatypes.S (length rest) = (length mids + Datatypes.S (length rest'))%nat).
    { apply (f_equal length) in E. rewrite length_app in E. done. }
    apply sorted_cons in Sy as [Hyr Srest].
    split; [|simpl; lia]. exists (out ++ [x; y]), L3, rest'.
    rewrite length_app in HL3. simpl in HL3.
    split_and!; try done.
    + lens.
    + lens.
    + lens.
    + apply even_len_app; [done|]. by exists 1%nat.
    + destruct Hem as [a Ha], Her as [b Hb]. exists (b - a - 1)%nat.
      simpl in Hb. lia.
    + apply StronglySorted_app. split_and!; [|done|].
      * intros a b Ha Hb. apply Hor; [done|]. rewrite E.
        rewrite elem_of_cons, elem_of_app, elem_of_cons.
        apply elem_of_cons in Hb as [->|Hb]; [by left|].
        apply list_elem_of_singleton in Hb as ->. by right; right; left.
      * apply sorted_cons. split; [|repeat constructor].
        intros b Hb. by apply list_elem_of_singleton in Hb as ->.
    + intros p q Hp Hq. apply elem_of_app in Hp as [Hp|Hp].
      * apply Hor; [done|]. rewrite E, elem_of_cons, elem_of_app, elem_of_cons.
        tauto.
      * assert (y < q).
        { destruct rest' as [|z rest']; [by inv Hq|].
          assert (y <> z) by (by eapply Hy).
          assert (y <= z) by (apply Hyr; constructor).
          apply sorted_cons in Srest as [Hz _].
          apply elem_of_cons in Hq as [->|Hq]; [lia|].
          specialize (Hz q Hq). lia. }
        apply elem_of_cons in Hp as [->|Hp]; [lia|].
        apply list_elem_of_singleton in Hp as ->. lia.
    + intros c. rewrite <- Hm, E. rewrite !mem_app. simpl.
      rewrite mem_app, Hmids. simpl.
      by destruct (mem c out), (x <=? c), (y <=? c), (mem c rest').
    + intros p Hp. apply Hin. rewrite E. revert Hp.
      rewrite !elem_of_app, !elem_of_cons, elem_of_app, elem_of_cons.
      rewrite elem_of_nil. tauto.
Qed.
End compress.

(** [cr_compress] keeps the set and leaves no empty and no adjacent
    intervals. *)
Lemma cr_compress_spec M cr :
  cr_wf M cr -> even_len (pts cr) -> sorted_le (pts cr) ->
  wp (cr_compress cr) (fun cr' =>
    cr_wf M cr' /\ cr_size cr' = cr_size cr /\ cr_len cr' <= cr_len cr /\
    even_len (pts cr') /\ sorted_lt (pts cr') /\
    (forall c, mem c (pts cr') = mem c (pts cr)) /\
    (forall p, p ∈ pts cr' -> p ∈ pts cr)).
Proof.
  intros (Hl & Hp & Hs) Hev Hso. unfold cr_compress. apply wp_bind.
  set (tail := drop (Z.to_nat (cr_len cr)) (cr_points cr)).
  assert (Hlen : Z.of_nat (length (pts cr)) = cr_len cr).
  { unfold pts. rewrite length_take. lia. }
  eapply wp_mono.
  { apply (wp_loop (compress_inv (cr_len cr) tail (pts cr))
            (fun s => Z.to_nat (cr_len cr - s.1.2))
            (fun '(pt, k) => exists out gap, pt = out ++ gap ++ tail /\
              k = Z.of_nat (length out) /\ even_len out /\ sorted_lt out /\
              cr_len cr = Z.of_nat (length (out ++ gap)) /\
              (forall c, mem c out = mem c (pts cr)) /\
              (forall p, p ∈ out -> p ∈ pts cr))).
    - intros s Hinv.
      eapply wp_mono; [by apply compress_step_spec with (tail := tail)|].
      intros [s'|[pt k]]; [|done]. intros [Hi' Hlt]. split; [done|].
      destruct s' as [[pt i] k], s as [[pt0 i0] k0]. simpl in *.
      destruct Hi' as (o & g & r & _ & _ & -> & Hc & _).
      rewrite app_assoc, length_app in Hc. lia.
    - exists [], [], (pts cr). simpl. unfold tail, pts at 1.
      rewrite take_drop. split_and!; try done.
      + by exists 0%nat.
      + constructor.
      + intros p q Hq. by inv Hq.
    - simpl. lia. }
  intros [pt k] (out & gap & -> & -> & He & Hst & Hc & Hm & Hin).
  assert (Hpt : pts (mkCharRange (Z.of_nat (length out)) (cr_size cr)
                       (out ++ gap ++ tail)) = out).
  { unfold pts. cbn [cr_len cr_points]. rewrite Nat2Z.id. apply take_app_length. }
  apply wp_ret. rewrite Hpt. cbn [cr_size cr_len].
  rewrite length_app in Hc. split_and!; try done; [|lia].
  unfold cr_wf. cbn [cr_len cr_size cr_points]. split_and!; [lia|lia| |done].
  rewrite <- Hp. unfold tail. list_len. lia.
Qed.

(** ** Growth and the operations that append *)

(** The result of a range operation: the postcondition [Q] of success, or an
    error return that only a failing allocator explains. *)
Definition cr_post {al : Allocator} (Q : CharRange -> Prop)
    : heap * CharRange * Z -> Prop :=
  fun '(_, cr, r) => (r = 0 /\ Q cr) \/ (r = -1 /\ can_fail al).

Lemma pts_length M cr :
  cr_wf M cr -> Z.of_nat (length (pts cr)) = cr_len cr.
Proof. intros (Hl & Hp & _). unfold pts. rewrite length_take. lia. Qed.

Lemma cr_post_mono {al : Allocator} (P Q : CharRange -> Prop) e :
  wp e (cr_post P) -> (forall cr, P cr -> Q cr) -> wp e (cr_post Q).
Proof.
  intros He HPQ. eapply wp_mono; [exact He|].
  intros [[h cr] r] [[-> HP]|[-> Hc]]; [left; auto|by right].
Qed.

Lemma cr_post_weaken {al : Allocator} (P Q : CharRange -> Prop) x :
  cr_post P x -> (forall cr, P cr -> Q cr) -> cr_post Q x.
Proof.
  destruct x as [[h cr] r]. intros [[-> HP]|[-> Hc]] HPQ; [left; auto|by right].
Qed.

(** Sequencing: a failed call is passed on as -1. *)
Lemma cr_bind {al : Allocator} (P Q : CharRange -> Prop) e k :
  wp e (cr_post P) ->
  (forall h cr, P cr -> wp (k (h, cr, 0)) (cr_post Q)) ->
  (forall h cr, can_fail al -> wp (k (h, cr, -1)) (cr_post Q)) ->
  wp (bind e k) (cr_post Q).
Proof.
  intros He Hk Hf. apply wp_bind. eapply wp_mono; [exact He|].
  intros [[h cr] r] [[-> HP]|[-> Hc]]; auto.
Qed.

Section growth.
Context {al : Allocator} {al_ok : AllocatorOk al} (M : Z).
Context (HM : 3 * M <= INT32_MAX).

Lemma cr_realloc_spec h cr size :
  cr_wf M cr -> size <= M ->
  wp (cr_realloc h cr size) (cr_post (fun cr' =>
    cr_wf M cr' /\ pts cr' = pts cr /\ cr_len cr' = cr_len cr /\
    size <= cr_size cr' /\ cr_size cr <= cr_size cr')).
Proof.
  intros (Hl & Hp & Hs) Hsz. unfold cr_realloc, cr_post.
  destruct (Z.ltb_spec (cr_size cr) size) as [Hlt|Hge].
  2: { apply wp_ret. left. split; [done|]. unfold cr_wf. split_and!; done || lia. }
  apply wp_bind, wp_assert; [apply Z.leb_le; lia|].
  set (n := max_int size (cr_size cr * 3 / 2)).
  assert (Hn : size <= n /\ cr_size cr <= n /\ n * 2 <= 3 * M).
  { unfold n, max_int. zcase; dlia. }
  destruct (realloc_func h 4 (cr_points cr) n) as [h' [new|]] eqn:E.
  - apply realloc_spec in E as [Hlen Hcells]; [|lia].
    apply wp_ret. left. split; [done|]. unfold cr_wf, pts. cbn.
    split_and!; try lia.
    apply (f_equal (take (Z.to_nat (cr_len cr)))) in Hcells.
    rewrite !take_take in Hcells.
    by replace (Nat.min _ (Nat.min _ _)) with (Z.to_nat (cr_len cr))
      in Hcells by lia.
  - apply wp_ret. right. split; [done|]. red. eauto 10.
Qed.

Lemma pts_snoc len sz (l : list Z) v :
  0 <= len < Z.of_nat (length l) ->
  pts (mkCharRange (len + 1) sz (<[Z.to_nat len := v]> l))
  = take (Z.to_nat len) l ++ [v].
Proof.
  intros Hl. unfold pts. cbn.
  replace (Z.to_nat (len + 1)) with (Datatypes.S (Z.to_nat len)) by lia.
  rewrite (take_S_r _ _ v).
  - by rewrite take_insert_ge by lia.
  - apply list_lookup_insert_eq. lia.
Qed.

Lemma cr_add_point_spec h cr v :
  cr_wf M cr -> cr_len cr + 1 <= M ->
  wp (cr_add_point h cr v) (cr_post (fun cr' =>
    cr_wf M cr' /\ pts cr' = pts cr ++ [v] /\ cr_len cr' = cr_len cr + 1)).
Proof.
  intros Hwf HlenM. unfold cr_add_point.
  apply (cr_bind (fun cr' => cr_wf M cr' /\ pts cr' = pts cr /\
    cr_len cr' = cr_len cr /\ cr_len cr + 1 <= cr_size cr')).
  - destruct (Z.leb_spec (cr_size cr) (cr_len cr)).
    + eapply cr_post_mono; [by apply cr_realloc_spec|]. by intros ? (? & ? & ? & ? & ?).
    + apply wp_ret. left. split_and!; done || lia.
  - intros h' cr' ((Hl & Hp & Hs) & Hpts & El & Hroom). cbn [negb Z.eqb].
    apply wp_bind, wp_wr; [lia|]. apply wp_ret. left. split; [done|].
    rewrite pts_snoc by lia. unfold cr_wf. cbn. rewrite length_insert.
    split_and!; try lia. by rewrite <- Hpts.
  - intros h' cr' Hc. apply wp_ret. by right.
Qed.

Lemma cr_add_interval_spec h cr c1 c2 :
  cr_wf M cr -> cr_len cr + 2 <= M ->
  wp (cr_add_interval h cr c1 c2) (cr_post (fun cr' =>
    cr_wf M cr' /\ pts cr' = pts cr ++ [c1; c2] /\
    cr_len cr' = cr_len cr + 2)).
Proof.
  intros Hwf HlenM. unfold cr_add_interval.
  apply (cr_bind (fun cr' => cr_wf M cr' /\ pts cr' = pts cr /\
    cr_len cr' = cr_len cr /\ cr_len cr + 2 <= cr_size cr')).
  - destruct (Z.ltb_spec (cr_size cr) (cr_len cr + 2)).
    + eapply cr_post_mono; [by apply cr_realloc_spec|]. by intros ? (? & ? & ? & ? & ?).
    + apply wp_ret. left. split_and!; done || lia.
  - intros h' cr' ((Hl & Hp & Hs) & Hpts & El & Hroom). cbn [negb Z.eqb].
    apply wp_bind, wp_wr; [lia|]. apply wp_bind, wp_wr; [list_len; lia|].
    apply wp_ret. left. split; [done|].
    replace (cr_len cr' + 2) with (cr_len cr' + 1 + 1) by lia.
    rewrite pts_snoc by (list_len; lia).
    pose proof (pts_snoc (cr_len cr') 0 (cr_points cr') c1 ltac:(lia)) as E.
    unfold pts at 1 in E. cbn in E. rewrite E. unfold cr_wf. cbn.
    rewrite !length_insert. split_and!; try lia.
    rewrite <- app_assoc. simpl. by rewrite <- Hpts.
  - intros h' cr' Hc. apply wp_ret. by right.
Qed.

Lemma cr_copy_spec h cr cr1 :
  cr_wf M cr -> cr_wf M cr1 -> cr_len cr1 <= M ->
  wp (cr_copy h cr cr1) (cr_post (fun cr' =>
    cr_wf M cr' /\ pts cr' = pts cr1)).
Proof.
  intros Hwf (Hl1 & Hp1 & Hs1) HlenM. unfold cr_copy.
  eapply cr_bind; [by apply cr_realloc_spec| |].
  - intros h' cr' ((Hl & Hp & Hs) & _ & _ & Hroom & _). cbn [negb Z.eqb].
    rewrite slice_in by lia. cbn [bind].
    rewrite blit_in by (list_len; lia). cbn [bind].
    apply wp_ret. left. split; [done|]. unfold cr_wf, pts. cbn.
    rewrite take_0, drop_0. simpl. list_len. split_and!; try lia.
    rewrite take_app_le by (list_len; lia). rewrite take_take.
    f_equal. lia.
  - intros h' cr' Hc. apply wp_ret. by right.
Qed.
End growth.

(** ** [cr_op] *)

Definition op_bool (op : CharRangeOpEnum) : bool -> bool -> bool :=
  match op with
  | CR_OP_UNION => orb
  | CR_OP_INTER => andb
  | CR_OP_XOR => xorb
  end.

Lemma land_1_odd (n : nat) : Z.land (Z.of_nat n) 1 = Z.b2z (Nat.odd n).
Proof.
  change 1 with (Z.ones 1). rewrite land_mod by lia.
  change (2 ^ 1) with 2. rewrite Zmod_odd.
  replace (Z.odd (Z.of_nat n)) with (Nat.odd n); [by destruct (Nat.odd n)|].
  induction n as [|n IH]; [done|].
  rewrite Nat.odd_succ, Nat2Z.inj_succ, Z.odd_succ, <- Nat.negb_odd, IH.
  by rewrite Z.negb_odd.
Qed.

Lemma cr_op_is_in_spec op (a b : nat) :
  cr_op_is_in op (Z.of_nat a) (Z.of_nat b)
  = Z.b2z (op_bool op (Nat.odd a) (Nat.odd b)).
Proof.
  unfold cr_op_is_in. rewrite !land_1_odd.
  by destruct op, (Nat.odd a), (Nat.odd b).
Qed.

(** The points taken so far are at most the points that remain. *)
Definition cut (a1 a2 b1 b2 : list Z) : Prop :=
  forall x y, x ∈ a1 ++ b1 -> y ∈ a2 ++ b2 -> x <= y.

(** What one more point [v] does: [a1'], [b1'] are the points taken after
    it. *)
Definition takes (v : Z) (a1 b1 a1' a2' b1' b2' : list Z) : Prop :=
  v ∈ a1' ++ b1' /\
  (forall x, x ∈ a1' ++ b1' -> x <= v) /\
  (forall y, y ∈ a2' ++ b2' -> v <= y) /\
  (forall c, c < v -> mem c a1' = mem c a1 /\ mem c b1' = mem c b1) /\
  (forall x, x ∈ a1 ++ b1 -> x ∈ a1' ++ b1').

Lemma mem_snoc_below c l v : c < v -> mem c (l ++ [v]) = mem c l.
Proof.
  intros Hc. rewrite mem_app. simpl. zcase; [lia|]. by destruct (mem c l).
Qed.

Section op.
Context (a_pt b_pt : list Z) (a b ta tb : list Z).
Context (Ha : a_pt = a ++ ta) (Hb : b_pt = b ++ tb).
Context (Sa : sorted_le a) (Sb : sorted_le b).

Lemma cr_op_next_spec a1 a2 b1 b2 :
  a = a1 ++ a2 -> b = b1 ++ b2 -> cut a1 a2 b1 b2 ->
  wp (cr_op_next a_pt (Z.of_nat (length a)) b_pt (Z.of_nat (length b))
        (Z.of_nat (length a1)) (Z.of_nat (length b1))) (fun r =>
    match r with
    | None => a2 = [] /\ b2 = []
    | Some (v, ai, bi) => exists a1' a2' b1' b2',
        a = a1' ++ a2' /\ b = b1' ++ b2' /\
        ai = Z.of_nat (length a1') /\ bi = Z.of_nat (length b1') /\
        (length (a1 ++ b1) < length (a1' ++ b1'))%nat /\
        takes v a1 b1 a1' a2' b1' b2'
    end).
Proof.
  intros Ea Eb Hcut. unfold cr_op_next. rewrite Ea, Eb, !length_app.
  rewrite Ea in Ha, Sa. rewrite Eb in Hb, Sb. rewrite <- app_assoc in Ha, Hb.
  assert (Take_a : forall x a2', a2 = x :: a2' ->
    (forall y, y ∈ b2 -> x <= y) ->
    takes x a1 b1 (a1 ++ [x]) a2' b1 b2).
  { intros x a2' -> Hx. apply StronglySorted_app_1_r, sorted_cons in Sa as [Sx _].
    split_and!.
    - set_solver.
    - intros y Hy. rewrite !elem_of_app, list_elem_of_singleton in Hy.
      destruct Hy as [[?| ->]|?]; [|lia|]; apply Hcut; set_solver.
    - intros y [Hy|Hy]%elem_of_app; auto.
    - intros c Hc. by rewrite mem_snoc_below.
    - intros y. rewrite !elem_of_app. tauto. }
  assert (Take_b : forall x b2', b2 = x :: b2' ->
    (forall y, y ∈ a2 -> x <= y) ->
    takes x a1 b1 a1 a2 (b1 ++ [x]) b2').
  { intros x b2' -> Hx. apply StronglySorted_app_1_r, sorted_cons in Sb as [Sx _].
    split_and!.
    - set_solver.
    - intros y Hy. rewrite !elem_of_app, list_elem_of_singleton in Hy.
      destruct Hy as [?|[?| ->]]; [| |lia]; apply Hcut; set_solver.
    - intros y [Hy|Hy]%elem_of_app; auto.
    - intros c Hc. by rewrite mem_snoc_below.
    - intros y. rewrite !elem_of_app. tauto. }
  destruct a2 as [|x a2], b2 as [|y b2]; cbn [length];
    rewrite ?Nat.add_0_r, ?Z.ltb_irrefl; cbn [andb].
  - apply wp_ret. done.
  - destruct (Z.ltb_spec (Z.of_nat (length b1))
      (Z.of_nat (length b1 + Datatypes.S (length b2)))); [|lia].
    rewrite Hb, (rd_mid b1 (y :: b2) tb _ 0 y) by (done || lia). apply wp_ret.
    exists a1, [], (b1 ++ [y]), b2. rewrite <- app_assoc.
    split_and!; [done|done|done|list_len; lia|list_len; lia|].
    apply Take_b; [done|]. intros z Hz. by inv Hz.
  - destruct (Z.ltb_spec (Z.of_nat (length a1))
      (Z.of_nat (length a1 + Datatypes.S (length a2)))); [|lia]. cbn [andb].
    rewrite Ha, (rd_mid a1 (x :: a2) ta _ 0 x) by (done || lia). apply wp_ret.
    exists (a1 ++ [x]), a2, b1, []. rewrite <- app_assoc.
    split_and!; [done|done|list_len; lia|done|list_len; lia|].
    apply Take_a; [done|]. intros z Hz. by inv Hz.
  - destruct (Z.ltb_spec (Z.of_nat (length b1))
      (Z.of_nat (length b1 + Datatypes.S (length b2)))); [|lia].
    destruct (Z.ltb_spec (Z.of_nat (length a1))
      (Z.of_nat (length a1 + Datatypes.S (length a2)))); [|lia]. cbn [andb].
    rewrite Ha, (rd_mid a1 (x :: a2) ta _ 0 x) by (done || lia). cbn [bind].
    rewrite Hb, (rd_mid b1 (y :: b2) tb _ 0 y) by (done || lia). cbn [bind].
    pose proof Sa as Sa'. pose proof Sb as Sb'.
    apply StronglySorted_app_1_r, sorted_cons in Sa' as [Sx _].
    apply StronglySorted_app_1_r, sorted_cons in Sb' as [Sy _].
    destruct (Z.ltb_spec x y); [|destruct (Z.eqb_spec x y) as [<-|]]; apply wp_ret.
    + exists (a1 ++ [x]), a2, b1, (y :: b2). rewrite <- app_assoc.
      split_and!; [done|done|list_len; lia|done|list_len; lia|].
      apply Take_a; [done|]. intros z [->|Hz]%elem_of_cons; [lia|].
      apply Sy in Hz. lia.
    + exists (a1 ++ [x]), a2, (b1 ++ [x]), b2. rewrite <- !app_assoc.
      split_and!; [done|done|list_len; lia|list_len; lia|list_len; lia|].
      destruct (Take_a x a2) as (_ & T1 & T2 & _ & _); [done| |].
      { intros z [->|Hz]%elem_of_cons; [lia|]. by apply Sy. }
      clear Take_a Take_b Hcut.
      split_and!; [by rewrite !elem_of_app, list_elem_of_singleton; auto| | | |].
      * intros z Hz. rewrite !elem_of_app, !list_elem_of_singleton in Hz.
        destruct (decide (z = x)); [lia|]. apply T1.
        rewrite !elem_of_app. tauto.
      * intros z Hz. apply T2. rewrite elem_of_app in Hz |- *.
        rewrite elem_of_cons. tauto.
      * intros c Hc. by rewrite !mem_snoc_below.
      * intros y. rewrite !elem_of_app. tauto.
    + exists a1, (x :: a2), (b1 ++ [y]), b2. rewrite <- app_assoc.
      split_and!; [done|done|done|list_len; lia|list_len; lia|].
      apply Take_b; [done|]. intros z [->|Hz]%elem_of_cons; [lia|].
      apply Sx in Hz. lia.
Qed.
End op.

Section op_loop.
Context {al : Allocator} {al_ok : AllocatorOk al} (M : Z).
Context (HM : 3 * M <= INT32_MAX).
Context (op : CharRangeOpEnum) (a_pt b_pt a b ta tb : list Z).
Context (Ha : a_pt = a ++ ta) (Hb : b_pt = b ++ tb).
Context (Sa : sorted_le a) (Sb : sorted_le b).
Context (Va : even_len a) (Vb : even_len b).
Context (Hlen : Z.of_nat (length (a ++ b)) <= M).

Definition op_set (l a b : list Z) : Prop :=
  forall c, mem c l = op_bool op (mem c a) (mem c b).

Definition op_inv : heap * CharRange * Z * Z -> Prop :=
  fun '(h, cr, ai, bi) => exists a1 a2 b1 b2,
    a = a1 ++ a2 /\ b = b1 ++ b2 /\
    ai = Z.of_nat (length a1) /\ bi = Z.of_nat (length b1) /\
    cut a1 a2 b1 b2 /\ cr_wf M cr /\
    (length (pts cr) <= length (a1 ++ b1))%nat /\
    sorted_le (pts cr) /\ op_set (pts cr) a1 b1 /\
    (forall p, p ∈ pts cr -> p ∈ a1 ++ b1).

Definition op_result (cr : CharRange) : Prop :=
  cr_wf M cr /\ sorted_lt (pts cr) /\ op_set (pts cr) a b /\
  even_len (pts cr) /\
  (forall p, p ∈ pts cr -> p ∈ a ++ b) /\
  (length (pts cr) <= length (a ++ b))%nat.

(** Above every point, membership is the parity of the length. *)
Lemma op_set_parity v l a1 b1 :
  (forall x, x ∈ a1 ++ b1 -> x <= v) -> (forall x, x ∈ l -> x ∈ a1 ++ b1) ->
  op_set l a1 b1 ->
  Nat.odd (length l) = op_bool op (Nat.odd (length a1)) (Nat.odd (length b1)).
Proof.
  intros Hv Hl Hs. specialize (Hs v).
  rewrite !mem_above in Hs; [done| | |auto];
    intros x Hx; apply Hv, elem_of_app; auto.
Qed.

Lemma op_set_even l :
  (forall x, x ∈ l -> x ∈ a ++ b) -> op_set l a b -> even_len l.
Proof.
  intros Hl Hs. destruct (list_bound (a ++ b)) as [v Hv].
  pose proof (op_set_parity v l a b Hv Hl Hs) as E.
  rewrite (even_len_odd a Va), (even_len_odd b Vb) in E.
  apply odd_even_len. rewrite E. by destruct op.
Qed.

(** The conditional append keeps the set in step with the points taken. *)
Lemma op_set_take v l a1 b1 a1' a2' b1' b2' :
  takes v a1 b1 a1' a2' b1' b2' ->
  (forall x, x ∈ l -> x <= v) -> op_set l a1 b1 ->
  op_set (if Bool.eqb (op_bool op (Nat.odd (length a1')) (Nat.odd (length b1')))
               (Nat.odd (length l)) then l else l ++ [v]) a1' b1'.
Proof.
  intros (Hin & Hle & _ & Hlt & _) Hl Hs c.
  destruct (Z_lt_le_dec c v) as [Hc|Hc].
  - destruct (Hlt c Hc) as [-> ->]. rewrite <- Hs.
    destruct (Bool.eqb _ _); [done|]. by rewrite mem_snoc_below.
  - rewrite (mem_above c a1'), (mem_above c b1');
      [|intros x Hx; assert (x <= v) by (apply Hle, elem_of_app; auto); lia..].
    assert (forall x, x ∈ l -> x <= c).
    { intros x Hx. apply Hl in Hx. lia. }
    destruct (Bool.eqb _ _) eqn:E.
    + apply eqb_prop in E. by rewrite mem_above.
    + apply eqb_false_iff in E. rewrite mem_app, mem_above by done. simpl.
      zcase; [|lia]. by destruct (op_bool _ _ _), (Nat.odd (length l)).
Qed.

Lemma op_inv_step h h' cr cr' v a1 a2 b1 b2 a1' a2' b1' b2' :
  a = a1 ++ a2 -> b = b1 ++ b2 -> a = a1' ++ a2' -> b = b1' ++ b2' ->
  op_inv (h, cr, Z.of_nat (length a1), Z.of_nat (length b1)) ->
  (length (a1 ++ b1) < length (a1' ++ b1'))%nat ->
  takes v a1 b1 a1' a2' b1' b2' -> cr_wf M cr' ->
  pts cr' = (if Bool.eqb (op_bool op (Nat.odd (length a1')) (Nat.odd (length b1')))
               (Nat.odd (length (pts cr))) then pts cr else pts cr ++ [v]) ->
  (forall x, x ∈ pts cr -> x ∈ a1' ++ b1') ->
  op_inv (h', cr', Z.of_nat (length a1'), Z.of_nat (length b1')).
Proof.
  intros E1 E2 E3 E4 (c1 & c2 & d1 & d2 & F1 & F2 & F3 & F4 & _ & _ & Hl & So
    & Hs & _) Hlt Ht Hwf Hp Hin.
  destruct (app_inj_1 c1 a1 c2 a2) as [-> _]; [lia|congruence|].
  destruct (app_inj_1 d1 b1 d2 b2) as [-> _]; [lia|congruence|].
  exists a1', a2', b1', b2'. destruct (Ht) as (Hv & Hle & Hge & _ & _).
  split_and!; try done.
  - intros x y Hx Hy. specialize (Hle x Hx). specialize (Hge y Hy). lia.
  - rewrite Hp. destruct (Bool.eqb _ _); list_len; lens.
  - rewrite Hp. destruct (Bool.eqb _ _); [done|].
    apply StronglySorted_app. split_and!; [|done|repeat constructor].
    intros x y Hx ->%list_elem_of_singleton. auto.
  - rewrite Hp. eapply op_set_take; eauto.
  - rewrite Hp. destruct (Bool.eqb _ _); [done|].
    intros p [Hx| ->%list_elem_of_singleton]%elem_of_app; auto.
Qed.


Lemma cr_op_step_spec s :
  op_inv s ->
  wp (cr_op_step a_pt (Z.of_nat (length a)) b_pt (Z.of_nat (length b)) op s)
    (fun r => match r with
     | inl s' => op_inv s' /\ s.1.2 + s.2 < s'.1.2 + s'.2
     | inr x => cr_post op_result x
     end).
Proof.
  destruct s as [[[h cr] ai] bi]. intros Hinv.
  destruct (Hinv) as (a1 & a2 & b1 & b2 & Ea & Eb & -> & -> & Hcut & Hwf & Hl
    & So & Hs & Hin).
  unfold cr_op_step. apply wp_bind. eapply wp_mono.
  { by apply (cr_op_next_spec a_pt b_pt a b ta tb Ha Hb Sa Sb a1 a2 b1 b2). }
  intros [[[v ai'] bi']|].
  - intros (a1' & a2' & b1' & b2' & Ea' & Eb' & -> & -> & Hlt & Ht).
    rewrite cr_op_is_in_spec.
    destruct (Ht) as (_ & Hle & _ & _ & Hmono).
    rewrite <- (pts_length M cr) by done. rewrite land_1_odd.
    assert (Hp : forall cr', cr_wf M cr' -> pts cr' =
      (if Bool.eqb (op_bool op (Nat.odd (length a1')) (Nat.odd (length b1')))
            (Nat.odd (length (pts cr))) then pts cr else pts cr ++ [v]) ->
      forall h', op_inv (h', cr', Z.of_nat (length a1'), Z.of_nat (length b1'))).
    { intros cr' Hw' Hp' h'.
      apply (op_inv_step h h' cr cr' v a1 a2 b1 b2 a1' a2' b1' b2'); auto. }
    assert (Z.of_nat (length a1) + Z.of_nat (length b1)
            < Z.of_nat (length a1') + Z.of_nat (length b1')) by lens.
    destruct (Bool.eqb _ _) eqn:E.
    + apply eqb_prop in E. rewrite E, Z.eqb_refl. apply wp_ret.
      split; [by apply Hp|done].
    + apply eqb_false_iff in E.
      assert ((Z.b2z (op_bool op (Nat.odd (length a1')) (Nat.odd (length b1')))
              =? Z.b2z (Nat.odd (length (pts cr)))) = false) as ->.
      { by destruct (op_bool _ _ _), (Nat.odd (length (pts cr))). }
      cbn [negb]. apply wp_bind.
      eapply wp_mono; [apply (cr_add_point_spec M HM); [done|]|].
      { rewrite <- (pts_length M cr) by done.
        rewrite Ea', Eb' in Hlen. clear - Hlen Hlt Hl. lens. }
      intros [[h' cr'] r] [(-> & Hwf' & Hp' & _)|[-> Hf]]; apply wp_ret.
      * split; [by apply Hp|done].
      * by right.
  - intros [-> ->]. rewrite app_nil_r in Ea, Eb. subst a1 b1.
    apply wp_bind. eapply wp_mono; [apply (cr_compress_spec M); [done| |done]|].
    + by apply op_set_even.
    + intros cr' (Hwf' & _ & Hl' & He & Hst & Hm & Hin'). apply wp_ret.
      left. split; [done|]. unfold op_result. split_and!; auto.
      * intros c. by rewrite Hm.
      * assert (Z.of_nat (length (pts cr')) <= Z.of_nat (length (pts cr)));
          [|lia]. by rewrite !(pts_length M).
Qed.
End op_loop.

(** ** The operations on ranges *)

(** A range as the callers build it: an even number of points in order. *)
Definition range_ok (M : Z) (cr : CharRange) : Prop :=
  cr_wf M cr /\ even_len (pts cr) /\ sorted_le (pts cr).

Section ranges.
Context {al : Allocator} {al_ok : AllocatorOk al} (M : Z).
Context (HM : 3 * M <= INT32_MAX).

Lemma cr_op_spec h cr op a ta b tb :
  cr_wf M cr -> cr_len cr = 0 ->
  sorted_le a -> sorted_le b -> even_len a -> even_len b ->
  Z.of_nat (length (a ++ b)) <= M ->
  wp (cr_op h cr (a ++ ta) (Z.of_nat (length a)) (b ++ tb)
        (Z.of_nat (length b)) op) (cr_post (op_result M op a b)).
Proof.
  intros Hwf H0 Sa Sb Va Vb Hlen. unfold cr_op.
  apply (wp_loop (op_inv M op a b)
    (fun s => Z.to_nat (Z.of_nat (length (a ++ b)) - (s.1.2 + s.2)))).
  - intros s Hinv. eapply wp_mono.
    { by apply (cr_op_step_spec M HM op (a ++ ta) (b ++ tb) a b ta tb). }
    intros [s'|x]; [|done]. intros [Hi Hlt]. split; [done|].
    destruct s' as [[[h' cr'] ai] bi], s as [[[h2 cr2] ai2] bi2]. simpl in *.
    destruct Hi as (a1 & a2 & b1 & b2 & -> & -> & -> & -> & _). lens.
  - assert (pts cr = []) as Hp.
    { unfold pts. by rewrite H0, take_0. }
    exists [], a, [], b. rewrite Hp. split_and!; try done.
    + intros x y Hx. by inv Hx.
    + constructor.
    + intros c. by destruct op.
  - simpl. lens.
Qed.

Lemma pts_block cr : cr_wf M cr ->
  cr_points cr = pts cr ++ drop (Z.to_nat (cr_len cr)) (cr_points cr).
Proof. intros _. unfold pts. by rewrite take_drop. Qed.

Lemma cr_union1_spec h cr b tb :
  range_ok M cr -> sorted_le b -> even_len b ->
  Z.of_nat (length (pts cr ++ b)) <= M ->
  wp (cr_union1 h cr (b ++ tb) (Z.of_nat (length b)))
    (cr_post (op_result M CR_OP_UNION (pts cr) b)).
Proof.
  intros (Hwf & He & Hs) Sb Vb Hlen. unfold cr_union1. apply wp_bind.
  eapply wp_mono.
  { rewrite (pts_block cr), <- (pts_length M cr) by done.
    apply cr_op_spec; try done. unfold cr_wf. simpl. lens. }
  intros [[h' cr'] r] Hr. exact Hr.
Qed.

Lemma cr_union_interval_spec h cr c1 c2 :
  range_ok M cr -> c1 <= c2 -> 0 <= c2 < UINT32_MAX ->
  cr_len cr + 2 <= M ->
  wp (cr_union_interval h cr c1 c2) (cr_post (fun cr' =>
    range_ok M cr' /\ cr_len cr' <= cr_len cr + 2 /\
    forall c, mem c (pts cr')
      = mem c (pts cr) || ((c1 <=? c) && (c <=? c2)))).
Proof.
  intros Hok H12 Hc2 Hlen. unfold cr_union_interval.
  unfold UINT32_MAX in Hc2. rewrite u32_id by lia.
  destruct (Hok) as (Hwf & _ & _).
  eapply cr_post_mono.
  { apply (cr_union1_spec h cr [c1; c2 + 1] []); [done| | |].
    - apply sorted_cons. split; [|repeat constructor].
      intros y ->%list_elem_of_singleton. lia.
    - by exists 1%nat.
    - rewrite length_app, Nat2Z.inj_add, (pts_length M) by done. done. }
  intros cr' (Hwf' & Hs & Hset & Hev & _ & Hl). split_and!.
  - split_and!; [done|auto|].
    by apply sorted_lt_le.
  - rewrite <- (pts_length M cr), <- (pts_length M cr') by done. lens.
  - intros c. rewrite Hset. simpl. repeat (zcase; try lia); done.
Qed.

(** [memmove] by one place, then the two end points. *)
Lemma invert_shift (l : list Z) len :
  0 <= len -> len + 2 <= Z.of_nat (length l) ->
  (let* pt := memmove l 1 0 len in
   let* pt := wr pt 0 0 in wr pt (len + 1) UINT32_MAX)
  = Ret ((0 :: take (Z.to_nat len) l ++ [UINT32_MAX])
         ++ drop (Z.to_nat (len + 2)) l).
Proof.
  intros Hl Hr. unfold memmove. rewrite slice_in by lia. cbn [bind].
  rewrite blit_in by (list_len; lia). cbn [bind].
  rewrite wr_in by (list_len; lia). cbn [bind].
  rewrite wr_in by (rewrite length_insert; list_len; lia). f_equal.
  change (Z.to_nat 0) with 0%nat. rewrite drop_0.
  destruct l as [|x l]; [simpl in Hr; lia|].
  change (Z.to_nat 1) with 1%nat. cbn [take app length] in *.
  simpl (<[0%nat:=_]> _).
  replace (Z.to_nat (len + 1)) with (Datatypes.S (Z.to_nat len)) by lia.
  simpl. f_equal. replace (Z.to_nat (len + 2))
    with (Datatypes.S (Datatypes.S (Z.to_nat len))) by lia.
  set (T := take (Z.to_nat len) (x :: l)).
  assert (HT : length T = Z.to_nat len).
  { unfold T. rewrite length_take. simpl. lia. }
  rewrite <- HT, <- app_assoc. simpl.
  replace (length T) with (length T + 0)%nat at 1 by lia.
  rewrite insert_app_r. f_equal.
  destruct (drop (length T) l) as [|z l1] eqn:E.
  { apply (f_equal length) in E. rewrite length_drop in E. simpl in E. lia. }
  simpl. f_equal. rewrite <- Nat.add_1_r. by rewrite <- drop_drop, E.
Qed.

Lemma cr_invert_spec h cr :
  range_ok M cr -> cr_len cr + 2 <= M ->
  (forall p, p ∈ pts cr -> 0 <= p <= UINT32_MAX) ->
  wp (cr_invert h cr) (cr_post (fun cr' =>
    range_ok M cr' /\ sorted_lt (pts cr') /\
    (forall c, 0 <= c < UINT32_MAX ->
      mem c (pts cr') = negb (mem c (pts cr))) /\
    cr_len cr' <= cr_len cr + 2 /\
    (forall p, p ∈ pts cr' -> 0 <= p <= UINT32_MAX))).
Proof.
  intros (Hwf & He & Hs) Hlen Hb. unfold cr_invert.
  pose proof (pts_length M cr Hwf) as HL.
  eapply cr_bind; [by apply (cr_realloc_spec M HM)| |].
  2: { intros h' cr' Hc. apply wp_ret. by right. }
  intros h' cr' (Hwf' & Hp & El & Hroom & _). cbn [negb Z.eqb].
  destruct (Hwf') as (Hl' & Hsz' & Hcap'). destruct (Hwf) as (Hl & _).
  set (pt := 0 :: pts cr ++ [UINT32_MAX]).
  assert (Hlpt : Z.of_nat (length pt) = cr_len cr + 2) by (unfold pt; lens).
  assert (Hmm := invert_shift (cr_points cr') (cr_len cr) ltac:(lia) ltac:(lia)).
  assert (Ept : take (Z.to_nat (cr_len cr)) (cr_points cr') = pts cr)
    by (by rewrite <- Hp, <- El).
  rewrite Ept in Hmm. revert Hmm.
  destruct (memmove _ _ _ _) as [p1| |]; [|done..]. cbn [bind].
  destruct (wr p1 _ _) as [p2| |]; [|done..]. cbn [bind]. intros ->.
  cbn [bind]. set (cr2 := mkCharRange _ _ _).
  assert (Hp2 : pts cr2 = pt).
  { unfold pts, cr2. cbn [cr_len cr_points].
    by rewrite <- Hlpt, Nat2Z.id, take_app_length. }
  apply wp_bind. eapply wp_mono; [apply (cr_compress_spec M cr2)|].
  - unfold cr2, cr_wf. cbn. list_len. split_and!; lia.
  - rewrite Hp2. apply (even_len_app [0; UINT32_MAX] (pts cr)) in He as [n Hn].
    + exists n. unfold pt. lens.
    + by exists 1%nat.
  - rewrite Hp2. apply sorted_cons. split.
    + intros y [Hy| ->%list_elem_of_singleton]%elem_of_app;
        [by apply Hb|unfold UINT32_MAX; lia].
    + apply StronglySorted_app. split_and!; [|done|repeat constructor].
      intros x y Hx ->%list_elem_of_singleton. by apply Hb.
  - intros cr3 (Hwf3 & _ & Hl3 & He3 & Hs3 & Hm3 & Hin3). apply wp_ret. left.
    split; [done|]. split; [|split; [done|split; [|split]]].
    + split; [done|]. split; [done|]. by apply sorted_lt_le.
    + intros c Hc. rewrite Hm3, Hp2. simpl. rewrite mem_app. simpl.
      repeat (zcase; try lia). by destruct (mem c (pts cr)).
    + exact Hl3.
    + intros p Hpin. apply Hin3 in Hpin. rewrite Hp2 in Hpin. subst pt.
      rewrite elem_of_cons, elem_of_app, list_elem_of_singleton in Hpin.
      destruct Hpin as [->|[Hpin| ->]]; [|by apply Hb|];
        unfold UINT32_MAX; lia.
Qed.
End ranges.

(** ** Properties *)

Section properties.
Context {al : Allocator} {al_ok : AllocatorOk al} (M : Z).
Context (HM : 3 * M <= INT32_MAX).

(** C18.  [cr_op] on two sorted arrays with an even number of points, into an
  empty range: it terminates in bounds, and unless the allocator fails the
  result is well formed, strictly sorted (no empty and no adjacent
  intervals) and denotes the union, the intersection or the exclusive or
  of the two sets. *)
Theorem cr_op_correct h cr op a ta b tb :
cr_wf M cr -> cr_len cr = 0 ->
sorted_le a -> sorted_le b -> even_len a -> even_len b ->
Z.of_nat (length (a ++ b)) <= M ->
wp (cr_op h cr (a ++ ta) (Z.of_nat (length a)) (b ++ tb)
      (Z.of_nat (length b)) op) (cr_post (fun cr' =>
  cr_wf M cr' /\ even_len (pts cr') /\ sorted_lt (pts cr') /\
  forall c, mem c (pts cr') = op_bool op (mem c a) (mem c b))).
Proof.
intros. eapply cr_post_mono; [by apply (cr_op_spec M HM)|].
intros cr' (Hwf & Hs & Hset & He & _). auto.
Qed.

(** C27.  [cr_union_interval] adds exactly the code points of the interval,
  both ends included, and grows the array by at most two points. *)
Theorem cr_union_interval_correct h cr c1 c2 :
range_ok M cr -> c1 <= c2 -> 0 <= c2 < UINT32_MAX -> cr_len cr + 2 <= M ->
wp (cr_union_interval h cr c1 c2) (cr_post (fun cr' =>
  range_ok M cr' /\ cr_len cr' <= cr_len cr + 2 /\
  forall c, mem c (pts cr')
    = mem c (pts cr) || ((c1 <=? c) && (c <=? c2)))).
Proof. by apply (cr_union_interval_spec M HM). Qed.

(** [cr_invert] is the complement within the code points below
  [UINT32_MAX], and leaves a strictly sorted array. *)
Theorem cr_invert_correct h cr :
range_ok M cr -> cr_len cr + 2 <= M ->
(forall p, p ∈ pts cr -> 0 <= p <= UINT32_MAX) ->
wp (cr_invert h cr) (cr_post (fun cr' =>
  range_ok M cr' /\ sorted_lt (pts cr') /\
  forall c, 0 <= c < UINT32_MAX -> mem c (pts cr') = negb (mem c (pts cr)))).
Proof.
  intros Hok Hlen Hb. eapply cr_post_mono; [by apply (cr_invert_spec M HM)|].
  intros cr' (? & ? & ? & _). auto.
Qed.
End properties.

(** Decides the shape of a concrete range. *)
Ltac solve_range :=
  repeat first
    [ lia | done
    | progress unfold range_ok, cr_wf, pts, INT32_MAX, UINT32_MAX
    | match goal with
      | |- _ /\ _ => split
      | |- even_len ?l => exists (Nat.div2 (length l)); reflexivity
      | |- StronglySorted _ _ => apply (bool_decide_unpack _); reflexivity
      end
    | progress cbn ].

Lemma cr_op_correct_witness :
  wp (cr_op (al := budget_allocator) 100 cr_init ([1; 5; 7; 9] ++ []) 4
        ([3; 8] ++ [0]) 2 CR_OP_INTER) (cr_post (fun cr' =>
    cr_wf 10 cr' /\ even_len (pts cr') /\ sorted_lt (pts cr') /\
    forall c, mem c (pts cr') = mem c [1; 5; 7; 9] && mem c [3; 8])).
Proof.
  apply (cr_op_correct (al := budget_allocator) 10 ltac:(done) 100 cr_init
           CR_OP_INTER [1; 5; 7; 9] [] [3; 8] [0]); solve_range.
Defined.

Lemma cr_union_interval_correct_witness :
  let cr := mkCharRange 2 3 [4; 8; 0] in
  wp (cr_union_interval (al := budget_allocator) 100 cr 8 11)
    (cr_post (fun cr' => range_ok 10 cr' /\ cr_len cr' <= 2 + 2 /\
      forall c, mem c (pts cr')
        = mem c (pts cr) || ((8 <=? c) && (c <=? 11)))).
Proof.
  intros cr.
  apply (cr_union_interval_correct (al := budget_allocator) 10 ltac:(done)
           100 cr 8 11); solve_range.
Defined.

Lemma cr_invert_correct_witness :
  let cr := mkCharRange 2 3 [4; 8; 0] in
  wp (cr_invert (al := budget_allocator) 100 cr) (cr_post (fun cr' =>
    range_ok 10 cr' /\ sorted_lt (pts cr') /\
    forall c, 0 <= c < UINT32_MAX ->
      mem c (pts cr') = negb (mem c (pts cr)))).
Proof.
  intros cr.
  apply (cr_invert_correct (al := budget_allocator) 10 ltac:(done) 100 cr).
  - solve_range.
  - solve_range.
  - intros p Hp. cbn in Hp. unfold UINT32_MAX.
    repeat (apply elem_of_cons in Hp as [->|Hp]; [lia|]). by inv Hp.
Defined.
