(* ===== verification/UnicodeCase.v ===== *)
(** * Case conversion and the indexed property tables ([libunicode.c]) *)

From stdpp Require Import base tactics numbers list option.
From Stdlib Require Import ZArith Lia.
From S2P Require Import Prelude Cutils UnicodeTables.

Open Scope Z_scope.

Definition RUN_TYPE_U : Z := 0.
Definition RUN_TYPE_L : Z := 1.
Definition RUN_TYPE_UF : Z := 2.
Definition RUN_TYPE_LF : Z := 3.
Definition RUN_TYPE_UL : Z := 4.
Definition RUN_TYPE_LSU : Z := 5.
Definition RUN_TYPE_U2L_399_EXT2 : Z := 6.
Definition RUN_TYPE_UF_D20 : Z := 7.
Definition RUN_TYPE_UF_D1_EXT : Z := 8.
Definition RUN_TYPE_U_EXT : Z := 9.
Definition RUN_TYPE_LF_EXT : Z := 10.
Definition RUN_TYPE_U_EXT2 : Z := 11.
Definition RUN_TYPE_L_EXT2 : Z := 12.
Definition RUN_TYPE_U_EXT3 : Z := 13.

(** The binary search that [lre_case_conv], [lre_is_cased] and
    [unicode_decomp_char] repeat: the entry [v] at [idx] whose run
    [code .. code + len) holds [c].  The code point takes the top [w] bits of
    an entry and the length the next 7. *)
Definition run_code (w v : Z) : Z := Z.shiftr v (32 - w).
Definition run_len (w v : Z) : Z := Z.land (Z.shiftr v (32 - w - 7)) 0x7f.

Definition run_search_step (w : Z) (tab : list Z) (c : Z)
  : Z * Z -> res (Z * Z + option (Z * Z)) := fun '(idx_min, idx_max) =>
  if idx_min <=? idx_max then
    let idx := (idx_max + idx_min) / 2 in
    let* v := rd tab idx in
    let code := run_code w v in
    let len := run_len w v in
    if c <? code then Ret (inl (idx_min, idx - 1))
    else if code + len <=? c then Ret (inl (idx + 1, idx_max))
    else Ret (inr (Some (idx, v)))
  else Ret (inr None).

Definition run_search (w : Z) (tab : list Z) (c : Z) : res (option (Z * Z)) :=
  loop (Datatypes.S (length tab)) (run_search_step w tab c)
    (0, countof tab - 1).

(** The [switch] on the type of the run that holds [c]. *)
Definition case_conv_run (c conv_type code type data : Z) : res (list Z) :=
  let is_lower := Z.b2z (negb (conv_type =? 0)) in
  let same := Ret [c] in
  if (type =? RUN_TYPE_U) || (type =? RUN_TYPE_L) ||
     (type =? RUN_TYPE_UF) || (type =? RUN_TYPE_LF) then
    if (conv_type =? Z.land type 1) ||
       ((RUN_TYPE_UF <=? type) && (conv_type =? 2)) then
      let* v1 := rd case_conv_table1 data in
      Ret [u32 (c - code + run_code 17 v1)]
    else same
  else if type =? RUN_TYPE_UL then
    let a := u32 (c - code) in
    if negb (Z.land a 1 =? 1 - is_lower) then same
    else Ret [u32 (Z.lxor a 1 + code)]
  else if type =? RUN_TYPE_LSU then
    let a := u32 (c - code) in
    if a =? 1 then Ret [u32 (c + (2 * is_lower - 1))]
    else if a =? (1 - is_lower) * 2 then Ret [u32 (c + (2 * is_lower - 1) * 2)]
    else same
  else if type =? RUN_TYPE_U2L_399_EXT2 then
    if is_lower =? 0 then
      let* e := rd case_conv_ext (Z.shiftr data 6) in
      Ret [u32 (c - code + e); 0x399]
    else
      let* e := rd case_conv_ext (Z.land data 0x3f) in
      Ret [u32 (c - code + e)]
  else if type =? RUN_TYPE_UF_D20 then
    if conv_type =? 1 then same
    else Ret [u32 (data + Z.b2z (conv_type =? 2) * 0x20)]
  else if type =? RUN_TYPE_UF_D1_EXT then
    if conv_type =? 1 then same
    else
      let* e := rd case_conv_ext data in
      Ret [u32 (e + Z.b2z (conv_type =? 2))]
  else if (type =? RUN_TYPE_U_EXT) || (type =? RUN_TYPE_LF_EXT) then
    if negb (is_lower =? type - RUN_TYPE_U_EXT) then same
    else let* e := rd case_conv_ext data in Ret [e]
  else if (type =? RUN_TYPE_U_EXT2) || (type =? RUN_TYPE_L_EXT2) then
    if negb (conv_type =? type - RUN_TYPE_U_EXT2) then same
    else
      let* e0 := rd case_conv_ext (Z.shiftr data 6) in
      let* e1 := rd case_conv_ext (Z.land data 0x3f) in
      Ret [u32 (c - code + e0); e1]
  else (* default, RUN_TYPE_U_EXT3 *)
    if negb (conv_type =? 0) then same
    else
      let* e0 := rd case_conv_ext (Z.shiftr data 8) in
      let* e1 := rd case_conv_ext (Z.land (Z.shiftr data 4) 0xf) in
      let* e2 := rd case_conv_ext (Z.land data 0xf) in
      Ret [e0; e1; e2].

(** conv_type: 0 = to upper, 1 = to lower, 2 = case folding.  The result is
    the code points left in [res]; its length is the value returned. *)
Definition lre_case_conv (c conv_type : Z) : res (list Z) :=
  if c <? 128 then
    Ret [if negb (conv_type =? 0) then
           if (65 <=? c) && (c <=? 90) then c - 65 + 97 else c
         else
           if (97 <=? c) && (c <=? 122) then c - 97 + 65 else c]
  else
    let* r := run_search 17 case_conv_table1 c in
    match r with
    | None => Ret [c]
    | Some (idx, v) =>
        let* t2 := rd case_conv_table2 idx in
        case_conv_run c conv_type (run_code 17 v)
          (Z.land (Z.shiftr v (32 - 17 - 7 - 4)) 0xf)
          (Z.lor (Z.shiftl (Z.land v 0xf) 8) t2)
    end.

Definition get_le24 (tab : list Z) (ptr : Z) : res Z :=
  let* b0 := rd tab ptr in
  let* b1 := rd tab (ptr + 1) in
  let* b2 := rd tab (ptr + 2) in
  Ret (Z.lor (Z.lor b0 (Z.shiftl b1 8)) (Z.shiftl b2 16)).

Definition UNICODE_INDEX_BLOCK_LEN : Z := 32.

(** [v & ((1 << 21) - 1)] *)
Definition index_code (v : Z) : Z := Z.land v (Z.shiftl 1 21 - 1).

(** invariant: tab[idx_min] <= c < tab2[idx_max] *)
Definition get_index_step (c : Z) (index_table : list Z)
  : Z * Z -> res (Z * Z + Z) := fun '(idx_min, idx_max) =>
  if 1 <? idx_max - idx_min then
    let idx := (idx_max + idx_min) / 2 in
    let* v := get_le24 index_table (idx * 3) in
    if c <? index_code v then Ret (inl (idx_min, idx))
    else Ret (inl (idx, idx_max))
  else Ret (inr idx_min).

(** [None] if not in table, otherwise [*pcode] and the offset in the block *)
Definition get_index_pos (c : Z) (index_table : list Z) (index_table_len : Z)
  : res (option (Z * Z)) :=
  let* v := get_le24 index_table 0 in
  if c <? index_code v then Ret (Some (0, 0))
  else
    let idx_max := index_table_len - 1 in
    let* code := get_le24 index_table (idx_max * 3) in
    if code <=? c then Ret None
    else
      let* idx_min := loop (Datatypes.S (length index_table))
        (get_index_step c index_table) (0, idx_max) in
      let* v := get_le24 index_table (idx_min * 3) in
      Ret (Some (index_code v,
                 (idx_min + 1) * UNICODE_INDEX_BLOCK_LEN + Z.shiftr v 21)).

(** One turn of the loop over the runs: [bit] says whether the run that
    starts at [code] is in the set. *)
Definition in_table_step (c : Z) (table : list Z)
  : Z * bool * Z -> res (Z * bool * Z + bool) := fun '(code, bit, p) =>
  let* b := rd table p in
  let p := p + 1 in
  let finish code bit p : res (Z * bool * Z + bool) :=
    if c <? code then Ret (inr bit) else Ret (inl (code, negb bit, p)) in
  if b <? 64 then
    let code := u32 (code + (Z.shiftr b 3 + 1)) in
    if c <? code then Ret (inr bit)
    else finish (u32 (code + (Z.land b 7 + 1))) (negb bit) p
  else if 0x80 <=? b then
    finish (u32 (code + (b - 0x80 + 1))) bit p
  else if b <? 0x60 then
    let* p0 := rd table p in
    finish (u32 (code + (Z.lor (Z.shiftl (b - 0x40) 8) p0 + 1))) bit (p + 1)
  else
    let* p0 := rd table p in
    let* p1 := rd table (p + 1) in
    finish (u32 (code + (Z.lor (Z.lor (Z.shiftl (b - 0x60) 16)
                                  (Z.shiftl p0 8)) p1 + 1))) bit (p + 2).

Definition lre_is_in_table (c : Z) (table index_table : list Z)
    (index_table_len : Z) : res bool :=
  let* r := get_index_pos c index_table index_table_len in
  match r with
  | None => Ret false                                (* outside the table *)
  | Some (code, pos) =>
      loop (Datatypes.S (length table)) (in_table_step c table)
        (code, false, pos)
  end.

Definition lre_is_cased (c : Z) : res bool :=
  let* r := run_search 17 case_conv_table1 c in
  match r with
  | Some _ => Ret true
  | None =>
      lre_is_in_table c unicode_prop_Cased1_table unicode_prop_Cased1_index
        (countof unicode_prop_Cased1_index / 3)
  end.

Definition lre_is_case_ignorable (c : Z) : res bool :=
  lre_is_in_table c unicode_prop_Case_Ignorable_table
    unicode_prop_Case_Ignorable_index
    (countof unicode_prop_Case_Ignorable_index / 3).

Definition lre_is_id_start (c : Z) : res bool :=
  lre_is_in_table c unicode_prop_ID_Start_table unicode_prop_ID_Start_index
    (countof unicode_prop_ID_Start_index / 3).

Definition lre_is_id_continue (c : Z) : res bool :=
  let* b := lre_is_id_start c in
  if b then Ret true
  else
    lre_is_in_table c unicode_prop_ID_Continue1_table
      unicode_prop_ID_Continue1_index
      (countof unicode_prop_ID_Continue1_index / 3).
