(* ===== verification/UnicodeNorm.v ===== *)
(** * Decomposition, composition and normalization ([libunicode.c])

    A buffer of [int] is a list of 32-bit words.  [junk] stands for the
    indeterminate contents of the local arrays that C leaves
    uninitialized. *)

From stdpp Require Import base tactics numbers list option.
From Stdlib Require Import ZArith Lia.
From S2P Require Import Prelude Cutils UnicodeTables UnicodeCase.

Open Scope Z_scope.

Definition UNICODE_DECOMP_LEN_MAX : Z := 18.

Definition DECOMP_TYPE_C1 : Z := 0.
Definition DECOMP_TYPE_L1 : Z := 1.
Definition DECOMP_TYPE_L7 : Z := 7.
Definition DECOMP_TYPE_LL1 : Z := 8.
Definition DECOMP_TYPE_LL2 : Z := 9.
Definition DECOMP_TYPE_S1 : Z := 10.
Definition DECOMP_TYPE_S5 : Z := 14.
Definition DECOMP_TYPE_I1 : Z := 15.
Definition DECOMP_TYPE_I2_0 : Z := 16.
Definition DECOMP_TYPE_I4_2 : Z := 21.
Definition DECOMP_TYPE_B1 : Z := 22.
Definition DECOMP_TYPE_B8 : Z := 29.
Definition DECOMP_TYPE_B18 : Z := 30.
Definition DECOMP_TYPE_LS2 : Z := 31.
Definition DECOMP_TYPE_PAT3 : Z := 32.
Definition DECOMP_TYPE_S2_UL : Z := 33.
Definition DECOMP_TYPE_LS2_UL : Z := 34.

Definition unicode_get_short_code (c : Z) : res Z :=
  if c <? 0x80 then Ret c
  else if c <? 0x80 + 0x50 then Ret (c - 0x80 + 0x300)
  else rd [0x2044; 0x2215] (c - 0x80 - 0x50).

Definition unicode_get_lower_simple (c : Z) : Z :=
  if (c <? 0x100) || ((0x410 <=? c) && (c <=? 0x42f))
  then u32 (c + 0x20) else u32 (c + 1).

Definition unicode_get16 (p : Z) : res Z :=
  let* p0 := rd unicode_decomp_data p in
  let* p1 := rd unicode_decomp_data (p + 1) in
  Ret (Z.lor p0 (Z.shiftl p1 8)).

(** [for (i = 0; i < l; i++) res[i] = get(i);], leaving with 0 at the first
    code point that is 0 when [stop] is set. *)
Definition decomp_fill (l : Z) (stop : bool) (get : Z -> res Z)
    (res0 : list Z) : res (list Z * Z) :=
  loop (Datatypes.S (Z.to_nat l)) (fun '(out, i) =>
    if i <? l then
      let* c1 := get i in
      let* out := wr out i c1 in
      if stop && (c1 =? 0) then Ret (inr (out, 0)) else Ret (inl (out, i + 1))
    else Ret (inr (out, l))) (res0, 0).

(** The [L], [S], [I], [B] and [LL] classes; [o] is [c - code]. *)
Definition decomp_L (l d o : Z) : Z -> res Z :=
  fun i => unicode_get16 (d + o * l * 2 + 2 * i).

Definition decomp_LL (l d o len : Z) : Z -> res Z := fun i =>
  let k := o * l + i in
  let p := len * l * 2 in
  let* x := unicode_get16 (d + 2 * k) in
  let* y := rd unicode_decomp_data (d + (p + k / 4)) in
  Ret (Z.lor x (Z.shiftl (Z.land (Z.shiftr y (k mod 4 * 2)) 3) 16)).

(** The loop tests [c1] before it stores it. *)
Definition decomp_fill_LL (l d o len : Z) (res0 : list Z)
  : res (list Z * Z) :=
  loop (Datatypes.S (Z.to_nat l)) (fun '(out, i) =>
    if i <? l then
      let* c1 := decomp_LL l d o len i in
      if c1 =? 0 then Ret (inr (out, 0))
      else
        let* out := wr out i c1 in
        Ret (inl (out, i + 1))
    else Ret (inr (out, l))) (res0, 0).

Definition decomp_S (l d o : Z) : Z -> res Z := fun i =>
  let* b := rd unicode_decomp_data (d + o * l + i) in
  unicode_get_short_code b.

Definition decomp_I (d o p : Z) : Z -> res Z := fun i =>
  let* c1 := unicode_get16 (d + 2 * i) in
  Ret (if i =? p then u32 (c1 + o) else c1).

Definition decomp_B (l d o c_min : Z) : Z -> res Z := fun i =>
  let* c1 := rd unicode_decomp_data (d + (2 + o * l) + i) in
  Ret (if c1 =? 0xff then 0x20 else u32 (c1 + c_min)).

(** [res] holds the array that is filled and the value returned. *)
Definition unicode_decomp_entry (res0 : list Z) (c idx code len type : Z)
  : res (list Z * Z) :=
  let* t2 := rd unicode_decomp_table2 idx in
  if type =? DECOMP_TYPE_C1 then
    let* out := wr res0 0 t2 in Ret (out, 1)
  else
    let d := t2 in
    let o := u32 (c - code) in
    if (DECOMP_TYPE_L1 <=? type) && (type <=? DECOMP_TYPE_L7) then
      let l := type - DECOMP_TYPE_L1 + 1 in
      decomp_fill l true (decomp_L l d o) res0
    else if (DECOMP_TYPE_LL1 <=? type) && (type <=? DECOMP_TYPE_LL2) then
      let l := type - DECOMP_TYPE_LL1 + 1 in
      decomp_fill_LL l d o len res0
    else if (DECOMP_TYPE_S1 <=? type) && (type <=? DECOMP_TYPE_S5) then
      let l := type - DECOMP_TYPE_S1 + 1 in
      decomp_fill l true (decomp_S l d o) res0
    else if type =? DECOMP_TYPE_I1 then
      decomp_fill 1 false (decomp_I d o 0) res0
    else if (DECOMP_TYPE_I2_0 <=? type) && (type <=? DECOMP_TYPE_I4_2) then
      let l := 2 + Z.shiftr (type - DECOMP_TYPE_I2_0) 1 in
      let p := Z.land (type - DECOMP_TYPE_I2_0) 1 + Z.b2z (2 <? l) in
      decomp_fill l false (decomp_I d o p) res0
    else if (DECOMP_TYPE_B1 <=? type) && (type <=? DECOMP_TYPE_B18) then
      let l := if type =? DECOMP_TYPE_B18 then 18
               else type - DECOMP_TYPE_B1 + 1 in
      let* c_min := unicode_get16 d in
      decomp_fill l false (decomp_B l d o c_min) res0
    else if type =? DECOMP_TYPE_LS2 then
      let d := d + o * 3 in
      let* x := unicode_get16 d in
      let* out := wr res0 0 x in
      if x =? 0 then Ret (out, 0)
      else
        let* b := rd unicode_decomp_data (d + 2) in
        let* y := unicode_get_short_code b in
        let* out := wr out 1 y in
        Ret (out, 2)
    else if type =? DECOMP_TYPE_PAT3 then
      let* x0 := unicode_get16 d in
      let* out := wr res0 0 x0 in
      let* x2 := unicode_get16 (d + 2) in
      let* out := wr out 2 x2 in
      let* x1 := unicode_get16 (d + (4 + o * 2)) in
      let* out := wr out 1 x1 in
      Ret (out, 3)
    else if (type =? DECOMP_TYPE_S2_UL) || (type =? DECOMP_TYPE_LS2_UL) then
      let c1 := o in
      let* (c, d) :=
        if type =? DECOMP_TYPE_S2_UL then
          let d := d + (c1 - Z.land c1 1) in              (* c1 & ~1 *)
          let* b := rd unicode_decomp_data d in
          let* c := unicode_get_short_code b in
          Ret (c, d + 1)
        else
          let d := d + Z.shiftr c1 1 * 3 in
          let* c := unicode_get16 d in
          Ret (c, d + 2) in
      let c := if Z.land c1 1 =? 1 then unicode_get_lower_simple c else c in
      let* out := wr res0 0 c in
      let* b := rd unicode_decomp_data d in
      let* y := unicode_get_short_code b in
      let* out := wr out 1 y in
      Ret (out, 2)
    else Ret (res0, 0).

Definition decomp_entry_type (v : Z) : Z :=
  Z.land (Z.shiftr v (32 - 18 - 7 - 6)) 0x3f.

(** return the length of the decomposition (length <=
    UNICODE_DECOMP_LEN_MAX) or 0 if no decomposition *)
Definition unicode_decomp_char (res0 : list Z) (c is_compat1 : Z)
  : res (list Z * Z) :=
  let* r := run_search 18 unicode_decomp_table1 c in
  match r with
  | None => Ret (res0, 0)
  | Some (idx, v) =>
      if is_compat1 <? Z.land v 1 then Ret (res0, 0)
      else unicode_decomp_entry res0 c idx (run_code 18 v) (run_len 18 v)
             (decomp_entry_type v)
  end.

(** One turn of the search in [unicode_comp_table]; each entry names an entry
    of the decomposition table. *)
Definition unicode_compose_step (c0 c1 : Z)
  : list Z * Z * Z -> res (list Z * Z * Z + Z) :=
  fun '(pr, idx_min, idx_max) =>
    if idx_min <=? idx_max then
      let idx := (idx_max + idx_min) / 2 in
      let* idx1 := rd unicode_comp_table idx in
      let d_idx := Z.shiftr idx1 6 in
      let d_offset := Z.land idx1 0x3f in
      let* v := rd unicode_decomp_table1 d_idx in
      let ch := run_code 18 v + d_offset in
      let* (pr, _) := unicode_decomp_entry pr ch d_idx (run_code 18 v)
        (run_len 18 v) (decomp_entry_type v) in
      let* p0 := rd pr 0 in
      let* p1 := rd pr 1 in
      let d := i32 (c0 - p0) in
      let d := if d =? 0 then i32 (c1 - p1) else d in
      if d <? 0 then Ret (inl (pr, idx_min, idx - 1))
      else if 0 <? d then Ret (inl (pr, idx + 1, idx_max))
      else Ret (inr ch)
    else Ret (inr 0).

(** The run lengths of [unicode_cc_table]: the run length and the next
    position. *)
Definition cc_run (p b : Z) : res (Z * Z) :=
  let n := Z.land b 0x3f in
  if n <? 48 then Ret (n, p)
  else if n <? 56 then
    let* p0 := rd unicode_cc_table p in
    Ret (Z.lor (Z.shiftl (n - 48) 8) p0 + 48, p + 1)
  else
    let* p0 := rd unicode_cc_table p in
    let* p1 := rd unicode_cc_table (p + 1) in
    Ret (Z.lor (Z.lor (Z.shiftl (n - 56) 8) (Z.shiftl p0 8)) p1
         + (48 + Z.shiftl 1 11), p + 2).

Definition unicode_get_cc_step (c : Z) : Z * Z -> res (Z * Z + Z) :=
  fun '(code, p) =>
    let* b := rd unicode_cc_table p in
    let type := Z.shiftr b 6 in
    let* (n, p) := cc_run (p + 1) b in
    let p := if type <=? 1 then p + 1 else p in
    let c1 := u32 (code + n + 1) in
    if c <? c1 then
      if type =? 0 then
        let* cc := rd unicode_cc_table (p - 1) in Ret (inr cc)
      else if type =? 1 then
        let* b := rd unicode_cc_table (p - 1) in Ret (inr (u32 (b + c - code)))
      else if type =? 2 then Ret (inr 0)
      else Ret (inr 230)
    else Ret (inl (c1, p)).

(** return the combining class of character c (between 0 and 255) *)
Definition unicode_get_cc (c : Z) : res Z :=
  let* r := get_index_pos c unicode_cc_index (countof unicode_cc_index / 3) in
  match r with
  | None => Ret 0
  | Some (code, pos) =>
      loop (Datatypes.S (length unicode_cc_table)) (unicode_get_cc_step c)
        (code, pos)
  end.

(** ** Sorting by combining class *)
Section sort_cc.
(** [unicode_get_cc] is the only call. *)
Context (get_cc : Z -> res Z).

(** [while (k >= start) { if (cc(buf[k]) <= cc1) break;
    buf[k + 1] = buf[k]; k--; }] *)
Definition sort_cc_shift (start cc1 : Z) : list Z * Z
    -> res (list Z * Z + list Z * Z) := fun '(buf, k) =>
  if start <=? k then
    let* x := rd buf k in
    let* ck := get_cc x in
    if ck <=? cc1 then Ret (inr (buf, k))
    else
      let* buf := wr buf (k + 1) x in
      Ret (inl (buf, k - 1))
  else Ret (inr (buf, k)).

(** The loop over [j]: insert the marks after [start] one by one. *)
Definition sort_cc_run (start len : Z) : list Z * Z
    -> res (list Z * Z + list Z * Z) := fun '(buf, j) =>
  if j <? len then
    let* ch1 := rd buf j in
    let* cc1 := get_cc ch1 in
    if cc1 =? 0 then Ret (inr (buf, j))
    else
      let* (buf, k) := loop (Datatypes.S (Z.to_nat len))
        (sort_cc_shift start cc1) (buf, j - 1) in
      let* buf := wr buf (k + 1) ch1 in
      Ret (inl (buf, j + 1))
  else Ret (inr (buf, j)).

Definition sort_cc_step (len : Z) : list Z * Z
    -> res (list Z * Z + list Z) := fun '(buf, i) =>
  if i <? len then
    let* x := rd buf i in
    let* cc := get_cc x in
    if negb (cc =? 0) then
      let* (buf, j) := loop (Datatypes.S (Z.to_nat len))
        (sort_cc_run i len) (buf, i + 1) in
      Ret (inl (buf, j + 1))                      (* i = j; i++ *)
    else Ret (inl (buf, i + 1))
  else Ret (inr buf).

Definition sort_cc (buf : list Z) (len : Z) : res (list Z) :=
  loop (Datatypes.S (Z.to_nat len)) (sort_cc_step len) (buf, 0).
End sort_cc.

Inductive UnicodeNormalizationEnum :=
  | UNICODE_NFC | UNICODE_NFD | UNICODE_NFKC | UNICODE_NFKD.

Definition UnicodeNormalizationEnum_Z (n : UnicodeNormalizationEnum) : Z :=
  match n with
  | UNICODE_NFC => 0 | UNICODE_NFD => 1 | UNICODE_NFKC => 2 | UNICODE_NFKD => 3
  end.

(** The bytes of the dynamic buffer read as [int]; only the bytes that were
    written are visible, so an access to the rest of the block is undefined. *)
Fixpoint words_of_bytes (l : list Z) : list Z :=
  match l with
  | b0 :: b1 :: b2 :: b3 :: l =>
      b0 + 256 * (b1 + 256 * (b2 + 256 * b3)) :: words_of_bytes l
  | _ => []
  end.

Section normalize.
Context {al : Allocator} (junk : Z).

Definition unicode_compose_pair (c0 c1 : Z) : res Z :=
  loop (Datatypes.S (length unicode_comp_table)) (unicode_compose_step c0 c1)
    ([junk; junk], 0, countof unicode_comp_table - 1).

(** return 0 if not found *)
Definition compose_pair (c0 c1 : Z) : res Z :=
  (* Hangul composition *)
  if (0x1100 <=? c0) && (c0 <? 0x1100 + 19) &&
     (0x1161 <=? c1) && (c1 <? 0x1161 + 21) then
    Ret (0xac00 + (c0 - 0x1100) * 588 + (c1 - 0x1161) * 28)
  else if (0xac00 <=? c0) && (c0 <? 0xac00 + 11172) &&
          ((c0 - 0xac00) mod 28 =? 0) &&
          (0x11a7 <=? c1) && (c1 <? 0x11a7 + 28) then
    Ret (c0 + c1 - 0x11a7)
  else unicode_compose_pair c0 c1.

(** [dbuf_put_u32(dbuf, v)] with its result ignored *)
Definition put_word (s : heap * DynBuf) (v : Z) : res (heap * DynBuf) :=
  let* (h, d, _) := dbuf_put_u32 s.1 s.2 v in Ret (h, d).

(** The body of the loop of [to_nfd_rec] for one code point; [rec] is the
    recursive call on its decomposition. *)
Definition to_nfd_char (rec : heap * DynBuf -> list Z -> res (heap * DynBuf))
    (is_compat c : Z) (s : heap * DynBuf) : res (heap * DynBuf) :=
  if (0xac00 <=? c) && (c <? 0xd7a4) then
    (* Hangul decomposition *)
    let c := c - 0xac00 in
    let* s := put_word s (0x1100 + c / 588) in
    let* s := put_word s (0x1161 + c mod 588 / 28) in
    let v := c mod 28 in
    if negb (v =? 0) then put_word s (0x11a7 + v) else Ret s
  else
    let* (out, l) := unicode_decomp_char
      (replicate (Z.to_nat UNICODE_DECOMP_LEN_MAX) junk) c is_compat in
    if negb (l =? 0) then
      let* src := slice out 0 l in
      rec s src
    else put_word s c.

Fixpoint to_nfd_rec (depth : nat) (is_compat : Z) (s : heap * DynBuf)
    (src : list Z) : res (heap * DynBuf) :=
  match depth with
  | O => OutOfFuel
  | Datatypes.S depth =>
      for_upto (length src) 0 (fun i s =>
        let* c := rd src i in
        to_nfd_char (to_nfd_rec depth is_compat) is_compat c s) s
  end.

(** The search for a starter that is not blocked from the character at
    [i]; [None] is the jump to [next]. *)
Definition find_starter_step (buf : list Z) : Z * Z
    -> res (Z * Z + option Z) := fun '(starter_pos, last_cc) =>
  if 0 <=? starter_pos then
    let* x := rd buf starter_pos in
    let* cc := unicode_get_cc x in
    if cc =? 0 then Ret (inr (Some starter_pos))
    else if last_cc <=? cc then Ret (inr None)
    else Ret (inl (starter_pos - 1, 256))
  else Ret (inr None).

Definition compose_step (buf_len : Z) : list Z * Z * Z
    -> res (list Z * Z * Z + list Z * Z) := fun '(buf, i, out_len) =>
  if i <? buf_len then
    let* bi := rd buf i in
    let* last_cc := unicode_get_cc bi in
    let* starter := loop (Datatypes.S (Z.to_nat out_len))
      (find_starter_step buf) (out_len - 1, last_cc) in
    let* p :=
      match starter with
      | Some starter_pos =>
          let* x := rd buf starter_pos in
          compose_pair x bi
      | None => Ret 0
      end in
    match starter with
    | Some starter_pos =>
        if negb (p =? 0) then
          let* buf := wr buf starter_pos p in
          Ret (inl (buf, i + 1, out_len))
        else
          let* buf := wr buf out_len bi in
          Ret (inl (buf, i + 1, out_len + 1))
    | None =>
        let* buf := wr buf out_len bi in
        Ret (inl (buf, i + 1, out_len + 1))
    end
  else Ret (inr (buf, out_len)).

(** The buffer [*pdst] and the length, or [None] for the return of -1. *)
Definition unicode_normalize (depth : nat) (h : heap) (src : list Z)
    (n_type : UnicodeNormalizationEnum) : res (heap * option (list Z * Z)) :=
  let n_type := UnicodeNormalizationEnum_Z n_type in
  let is_compat := Z.shiftr n_type 1 in
  let src_len := Z.of_nat (length src) in
  let '(h, d, r) := dbuf_realloc h dbuf_init2 (4 * src_len) in
  if negb (r =? 0) then Ret (h, None)
  else if (n_type =? UnicodeNormalizationEnum_Z UNICODE_NFC) &&
          forallb (fun c => c <? 0x100) src then
    (* common case: latin1 is unaffected by NFC *)
    Ret (h, Some (src, src_len))
  else
    let* (h, d) := to_nfd_rec depth is_compat (h, d) src in
    if dbuf_error d then Ret (h, None)
    else
      let buf := words_of_bytes (take (Z.to_nat (size d)) (buf d)) in
      let buf_len := size d / 4 in
      let* buf := sort_cc unicode_get_cc buf buf_len in
      if (buf_len <=? 1) || negb (Z.land n_type 1 =? 0) then
        (* NFD / NFKD *)
        Ret (h, Some (buf, buf_len))
      else
        let* (buf, out_len) := loop (Datatypes.S (Z.to_nat buf_len))
          (compose_step buf_len) (buf, 1, 1) in
        Ret (h, Some (buf, out_len)).
End normalize.
