(* ===== verification/UnicodeProp.v ===== *)
(** * Character ranges of scripts, categories and properties
    ([libunicode.c]) *)

From stdpp Require Import base tactics numbers list option.
From Stdlib Require Import ZArith Lia.
From S2P Require Import Prelude Cutils CharRange UnicodeTables UnicodeCase.

Open Scope Z_scope.

(** [strchr(s + off, c)]: the position, or [None] for [NULL]. *)
Definition strchr (s : list Z) (off c : Z) : res (option Z) :=
  loop (Datatypes.S (length s)) (fun i =>
    let* x := rd s i in
    if x =? c then Ret (inr (Some i))
    else if x =? 0 then Ret (inr None)
    else Ret (inl (i + 1))) off.

(** One name of the comma-separated alternatives at [p]: [inr true] when it
    is [name], else the next name ([inl]), or [inr false] with the position
    after the entry. *)
Definition find_name_alt (name_table name : list Z) (name_len : Z)
  : Z -> res (Z + bool * Z) := fun p =>
  let* r := strchr name_table p 44 in
  let* len := match r with
              | None => strlen name_table p
              | Some r => Ret (r - p)
              end in
  let* same := if len =? name_len then memeq name_table p name 0 name_len
               else Ret false in
  if same : bool then Ret (inr (true, p))
  else
    let p := p + (len + 1) in
    match r with
    | None => Ret (inr (false, p))
    | Some _ => Ret (inl p)
    end.

Definition unicode_find_name (name_table name : list Z) : res Z :=
  let* name_len := strlen name 0 in
  loop (Datatypes.S (length name_table)) (fun '(p, pos) =>
    let* c := rd name_table p in
    if c =? 0 then Ret (inr (-1))
    else
      let* (found, p) := loop (Datatypes.S (length name_table))
        (find_name_alt name_table name name_len) p in
      if found : bool then Ret (inr pos) else Ret (inl (p, pos + 1))) (0, 0).

(** [1U << UNICODE_GC_id] *)
Definition M (id : UnicodeGCEnum) : Z := u32 (Z.shiftl 1 (UnicodeGCEnum_Z id)).

(** The [|] of several masks. *)
Definition masks (l : list UnicodeGCEnum) : Z :=
  foldr (fun id m => Z.lor (M id) m) 0 l.

Definition unicode_gc_mask_table : list Z := [
  masks [UNICODE_GC_Lu; UNICODE_GC_Ll; UNICODE_GC_Lt];                (* LC *)
  masks [UNICODE_GC_Lu; UNICODE_GC_Ll; UNICODE_GC_Lt; UNICODE_GC_Lm;
         UNICODE_GC_Lo];                                              (* L *)
  masks [UNICODE_GC_Mn; UNICODE_GC_Mc; UNICODE_GC_Me];                (* M *)
  masks [UNICODE_GC_Nd; UNICODE_GC_Nl; UNICODE_GC_No];                (* N *)
  masks [UNICODE_GC_Sm; UNICODE_GC_Sc; UNICODE_GC_Sk; UNICODE_GC_So]; (* S *)
  masks [UNICODE_GC_Pc; UNICODE_GC_Pd; UNICODE_GC_Ps; UNICODE_GC_Pe;
         UNICODE_GC_Pi; UNICODE_GC_Pf; UNICODE_GC_Po];                (* P *)
  masks [UNICODE_GC_Zs; UNICODE_GC_Zl; UNICODE_GC_Zp];                (* Z *)
  masks [UNICODE_GC_Cc; UNICODE_GC_Cf; UNICODE_GC_Cs; UNICODE_GC_Co;
         UNICODE_GC_Cn]].                                             (* C *)

(** The run length at [p] in [unicode_script_table], after the byte [b]. *)
Definition script_run (p b : Z) : res (Z * Z) :=
  let n := Z.land b 0x7f in
  if n <? 96 then Ret (n, p)
  else if n <? 112 then
    let* p0 := rd unicode_script_table p in
    Ret (Z.lor (Z.shiftl (n - 96) 8) p0 + 96, p + 1)
  else
    let* p0 := rd unicode_script_table p in
    let* p1 := rd unicode_script_table (p + 1) in
    Ret (Z.lor (Z.lor (Z.shiftl (n - 112) 16) (Z.shiftl p0 8)) p1
         + (96 + Z.shiftl 1 12), p + 2).

(** The run length at [p] in [unicode_script_ext_table]. *)
Definition script_ext_run (p b : Z) : res (Z * Z) :=
  if b <? 128 then Ret (b, p)
  else if b <? 128 + 64 then
    let* p0 := rd unicode_script_ext_table p in
    Ret (Z.lor (Z.shiftl (b - 128) 8) p0 + 128, p + 1)
  else
    let* p0 := rd unicode_script_ext_table p in
    let* p1 := rd unicode_script_ext_table (p + 1) in
    Ret (Z.lor (Z.lor (Z.shiftl (b - 128 - 64) 16) (Z.shiftl p0 8)) p1
         + (128 + Z.shiftl 1 14), p + 2).

(** The run length of a general category entry. *)
Definition gc_run (p b : Z) : res (Z * Z) :=
  let n := Z.shiftr b 5 in
  if n =? 7 then
    let* n := rd unicode_gc_table p in
    let p := p + 1 in
    if n <? 128 then Ret (n + 7, p)
    else if n <? 128 + 64 then
      let* p0 := rd unicode_gc_table p in
      Ret (Z.lor (Z.shiftl (n - 128) 8) p0 + (7 + 128), p + 1)
    else
      let* p0 := rd unicode_gc_table p in
      let* p1 := rd unicode_gc_table (p + 1) in
      Ret (Z.lor (Z.lor (Z.shiftl (n - 128 - 64) 16) (Z.shiftl p0 8)) p1
           + (7 + 128 + Z.shiftl 1 14), p + 2)
  else Ret (n, p).

Definition CASE_U : Z := 1.
Definition CASE_L : Z := 2.
Definition CASE_F : Z := 4.

(** [MR(x) | ...] *)
Definition run_mask (l : list Z) : Z :=
  foldr (fun t m => Z.lor (Z.shiftl 1 t) m) 0 l.

Definition tab_run_mask : list Z := [
  run_mask [RUN_TYPE_U; RUN_TYPE_UF; RUN_TYPE_UL; RUN_TYPE_LSU;
            RUN_TYPE_U2L_399_EXT2; RUN_TYPE_UF_D20; RUN_TYPE_UF_D1_EXT;
            RUN_TYPE_U_EXT; RUN_TYPE_U_EXT2; RUN_TYPE_U_EXT3];
  run_mask [RUN_TYPE_L; RUN_TYPE_LF; RUN_TYPE_UL; RUN_TYPE_LSU;
            RUN_TYPE_U2L_399_EXT2; RUN_TYPE_LF_EXT; RUN_TYPE_L_EXT2];
  run_mask [RUN_TYPE_UF; RUN_TYPE_LF; RUN_TYPE_UL; RUN_TYPE_LSU;
            RUN_TYPE_U2L_399_EXT2; RUN_TYPE_LF_EXT; RUN_TYPE_UF_D20;
            RUN_TYPE_UF_D1_EXT; RUN_TYPE_LF_EXT]].

Inductive PropOPEnum :=
  | POP_GC (a : Z)
  | POP_PROP (a : UnicodePropertyEnum)
  | POP_CASE (a : Z)
  | POP_UNION
  | POP_INTER
  | POP_XOR
  | POP_INVERT
  | POP_END.

(** The [case]s of [unicode_prop] that call [unicode_prop_ops], with the
    arguments of the call. *)
Definition unicode_prop_programs : list (UnicodePropertyEnum * list PropOPEnum) := [
    (UNICODE_PROP_Assigned,
      [POP_GC (masks [UNICODE_GC_Cn]);
       POP_INVERT;
       POP_END]);
    (UNICODE_PROP_Math,
      [POP_GC (masks [UNICODE_GC_Sm]);
       POP_PROP UNICODE_PROP_Other_Math;
       POP_UNION;
       POP_END]);
    (UNICODE_PROP_Lowercase,
      [POP_GC (masks [UNICODE_GC_Ll]);
       POP_PROP UNICODE_PROP_Other_Lowercase;
       POP_UNION;
       POP_END]);
    (UNICODE_PROP_Uppercase,
      [POP_GC (masks [UNICODE_GC_Lu]);
       POP_PROP UNICODE_PROP_Other_Uppercase;
       POP_UNION;
       POP_END]);
    (UNICODE_PROP_Cased,
      [POP_GC (masks [UNICODE_GC_Lu; UNICODE_GC_Ll; UNICODE_GC_Lt]);
       POP_PROP UNICODE_PROP_Other_Uppercase;
       POP_UNION;
       POP_PROP UNICODE_PROP_Other_Lowercase;
       POP_UNION;
       POP_END]);
    (UNICODE_PROP_Alphabetic,
      [POP_GC (masks [UNICODE_GC_Lu; UNICODE_GC_Ll; UNICODE_GC_Lt; UNICODE_GC_Lm;
              UNICODE_GC_Lo; UNICODE_GC_Nl]);
       POP_PROP UNICODE_PROP_Other_Uppercase;
       POP_UNION;
       POP_PROP UNICODE_PROP_Other_Lowercase;
       POP_UNION;
       POP_PROP UNICODE_PROP_Other_Alphabetic;
       POP_UNION;
       POP_END]);
    (UNICODE_PROP_Grapheme_Base,
      [POP_GC (masks [UNICODE_GC_Cc; UNICODE_GC_Cf; UNICODE_GC_Cs; UNICODE_GC_Co;
              UNICODE_GC_Cn; UNICODE_GC_Zl; UNICODE_GC_Zp; UNICODE_GC_Me;
              UNICODE_GC_Mn]);
       POP_PROP UNICODE_PROP_Other_Grapheme_Extend;
       POP_UNION;
       POP_INVERT;
       POP_END]);
    (UNICODE_PROP_Grapheme_Extend,
      [POP_GC (masks [UNICODE_GC_Me; UNICODE_GC_Mn]);
       POP_PROP UNICODE_PROP_Other_Grapheme_Extend;
       POP_UNION;
       POP_END]);
    (UNICODE_PROP_XID_Start,
      [POP_GC (masks [UNICODE_GC_Lu; UNICODE_GC_Ll; UNICODE_GC_Lt; UNICODE_GC_Lm;
              UNICODE_GC_Lo; UNICODE_GC_Nl]);
       POP_PROP UNICODE_PROP_Other_ID_Start;
       POP_UNION;
       POP_PROP UNICODE_PROP_Pattern_Syntax;
       POP_PROP UNICODE_PROP_Pattern_White_Space;
       POP_UNION;
       POP_PROP UNICODE_PROP_XID_Start1;
       POP_UNION;
       POP_INVERT;
       POP_INTER;
       POP_END]);
    (UNICODE_PROP_XID_Continue,
      [POP_GC (masks [UNICODE_GC_Lu; UNICODE_GC_Ll; UNICODE_GC_Lt; UNICODE_GC_Lm;
              UNICODE_GC_Lo; UNICODE_GC_Nl; UNICODE_GC_Mn; UNICODE_GC_Mc;
              UNICODE_GC_Nd; UNICODE_GC_Pc]);
       POP_PROP UNICODE_PROP_Other_ID_Start;
       POP_UNION;
       POP_PROP UNICODE_PROP_Other_ID_Continue;
       POP_UNION;
       POP_PROP UNICODE_PROP_Pattern_Syntax;
       POP_PROP UNICODE_PROP_Pattern_White_Space;
       POP_UNION;
       POP_PROP UNICODE_PROP_XID_Continue1;
       POP_UNION;
       POP_INVERT;
       POP_INTER;
       POP_END]);
    (UNICODE_PROP_Changes_When_Titlecased,
      [POP_CASE CASE_U;
       POP_PROP UNICODE_PROP_Changes_When_Titlecased1;
       POP_XOR;
       POP_END]);
    (UNICODE_PROP_Changes_When_Casefolded,
      [POP_CASE CASE_F;
       POP_PROP UNICODE_PROP_Changes_When_Casefolded1;
       POP_XOR;
       POP_END]);
    (UNICODE_PROP_Changes_When_NFKC_Casefolded,
      [POP_CASE CASE_F;
       POP_PROP UNICODE_PROP_Changes_When_NFKC_Casefolded1;
       POP_XOR;
       POP_END]);
    (UNICODE_PROP_ID_Continue,
      [POP_PROP UNICODE_PROP_ID_Start;
       POP_PROP UNICODE_PROP_ID_Continue1;
       POP_XOR;
       POP_END])].

Definition POP_STACK_LEN_MAX : Z := 4.

Section ranges.
Context {al : Allocator}.

(** Calls that return a non-zero error code stop the caller. *)
Definition cr_ok (e : res (heap * CharRange * Z)) (fail : heap -> CharRange ->
    res (heap * CharRange * Z)) (k : heap -> CharRange ->
    res (heap * CharRange * Z)) : res (heap * CharRange * Z) :=
  let* (h, cr, r) := e in if negb (r =? 0) then fail h cr else k h cr.

(** *** Runs of a script *)
Definition script_step (script_idx : Z)
  : heap * CharRange * Z * Z -> res (heap * CharRange * Z * Z
                                     + heap * CharRange * Z) :=
  fun '(h, cr1, c, p) =>
    if p <? countof unicode_script_table then
      let* b := rd unicode_script_table p in
      let type := Z.shiftr b 7 in
      let* (n, p) := script_run (p + 1) b in
      let* (v, p) :=
        if type =? 0 then Ret (0, p)
        else let* v := rd unicode_script_table p in Ret (v, p + 1) in
      let c1 := u32 (c + n + 1) in
      let* (h, cr1, r) :=
        if v =? script_idx then cr_add_interval h cr1 c c1
        else Ret (h, cr1, 0) in
      if negb (r =? 0) then Ret (inr (h, cr1, -1))
      else Ret (inl (h, cr1, c1, p))
    else Ret (inr (h, cr1, 0)).

(** [for(i = 0; i < v_len; i++) if (p[i] == script_idx)] *)
Definition script_ext_has (script_idx p v_len : Z) : res bool :=
  loop (Datatypes.S (Z.to_nat v_len)) (fun i =>
    if i <? v_len then
      let* x := rd unicode_script_ext_table (p + i) in
      if x =? script_idx then Ret (inr true) else Ret (inl (i + 1))
    else Ret (inr false)) 0.

Definition script_ext_step (script_idx : Z) (is_common : bool)
  : heap * CharRange * Z * Z -> res (heap * CharRange * Z * Z
                                     + heap * CharRange * Z) :=
  fun '(h, cr2, c, p) =>
    if p <? countof unicode_script_ext_table then
      let* b := rd unicode_script_ext_table p in
      let* (n, p) := script_ext_run (p + 1) b in
      let c1 := u32 (c + n + 1) in
      let* v_len := rd unicode_script_ext_table p in
      let p := p + 1 in
      let* add :=
        if is_common then Ret (negb (v_len =? 0))
        else script_ext_has script_idx p v_len in
      let* (h, cr2, r) :=
        if add : bool then cr_add_interval h cr2 c c1
        else Ret (h, cr2, 0) in
      if negb (r =? 0) then Ret (inr (h, cr2, -1))
      else Ret (inl (h, cr2, c1, p + v_len))
    else Ret (inr (h, cr2, 0)).

(** The label [fail]: it frees the two ranges and jumps to itself. *)
Definition unicode_script_fail (fuel : nat) (is_ext : bool)
    (cr1 cr2 : CharRange) (h : heap) : res (heap * CharRange * Z) :=
  loop fuel (fun h =>
    Ret (inl (if is_ext then cr_free (cr_free h cr1) cr2 else h))) h.

(** Return 0 if OK, -1 if error, -2 if not found.  [fuel] bounds the jumps
    to [fail]. *)
Definition unicode_script (fuel : nat) (h : heap) (cr : CharRange)
    (script_name : list Z) (is_ext : bool) : res (heap * CharRange * Z) :=
  let* script_idx := unicode_find_name unicode_script_name_table script_name in
  if script_idx <? 0 then Ret (h, cr, -2)
  else
    (* Note: we remove the "Unknown" Script *)
    let script_idx :=
      script_idx + (UnicodeScriptEnum_Z UNICODE_SCRIPT_Unknown + 1) in
    let is_common :=
      (script_idx =? UnicodeScriptEnum_Z UNICODE_SCRIPT_Common)
      || (script_idx =? UnicodeScriptEnum_Z UNICODE_SCRIPT_Inherited) in
    let cr1 := if is_ext then cr_init else cr in
    let cr2 := cr_init in
    cr_ok (loop (Datatypes.S (length unicode_script_table))
             (script_step script_idx) (h, cr1, 0, 0))
      (fun h cr1 => unicode_script_fail fuel is_ext cr1 cr2 h)
      (fun h cr1 =>
    if is_ext then
      (* add the script extensions *)
      cr_ok (loop (Datatypes.S (length unicode_script_ext_table))
               (script_ext_step script_idx is_common) (h, cr2, 0, 0))
        (fun h cr2 => unicode_script_fail fuel is_ext cr1 cr2 h)
        (fun h cr2 =>
      (* remove all the characters with script extensions *)
      cr_ok (if is_common then cr_invert h cr2 else Ret (h, cr2, 0))
        (fun h cr2 => unicode_script_fail fuel is_ext cr1 cr2 h)
        (fun h cr2 =>
      cr_ok (cr_op h cr (cr_points cr1) (cr_len cr1) (cr_points cr2)
               (cr_len cr2) (if is_common then CR_OP_INTER else CR_OP_UNION))
        (fun h cr => unicode_script_fail fuel is_ext cr1 cr2 h)
        (fun h cr =>
      Ret (cr_free (cr_free h cr1) cr2, cr, 0))))
    else Ret (h, cr1, 0)).

(** *** General categories *)

(** [for(; c0 < c; c0 += 2) cr_add_interval(cr, c0, c0 + 1)] *)
Definition gc_alternate (c : Z) : heap * CharRange * Z
    -> res (heap * CharRange * Z + heap * CharRange * Z) :=
  fun '(h, cr, c0) =>
    if c0 <? c then
      let* (h, cr, r) := cr_add_interval h cr c0 (u32 (c0 + 1)) in
      if negb (r =? 0) then Ret (inr (h, cr, -1))
      else Ret (inl (h, cr, u32 (c0 + 2)))
    else Ret (inr (h, cr, 0)).

Definition gc_step (gc_mask : Z) : heap * CharRange * Z * Z
    -> res (heap * CharRange * Z * Z + heap * CharRange * Z) :=
  fun '(h, cr, c, p) =>
    if p <? countof unicode_gc_table then
      let* b := rd unicode_gc_table p in
      let v := Z.land b 0x1f in
      let* (n, p) := gc_run (p + 1) b in
      let c0 := c in
      let c := u32 (c + (n + 1)) in
      let lul := Z.lor (M UNICODE_GC_Lu) (M UNICODE_GC_Ll) in
      let* (h, cr, r) :=
        if v =? 31 then
          (* run of Lu / Ll *)
          let b := Z.land gc_mask lul in
          if negb (b =? 0) then
            if b =? lul then cr_add_interval h cr c0 c
            else
              let c0 := u32 (c0 + Z.b2z (negb (Z.land gc_mask
                                                 (M UNICODE_GC_Ll) =? 0))) in
              loop (Datatypes.S (Z.to_nat (c - c0))) (gc_alternate c)
                (h, cr, c0)
          else Ret (h, cr, 0)
        else if Z.land (Z.shiftr gc_mask v) 1 =? 1 then
          cr_add_interval h cr c0 c
        else Ret (h, cr, 0) in
      if negb (r =? 0) then Ret (inr (h, cr, -1))
      else Ret (inl (h, cr, c, p))
    else Ret (inr (h, cr, 0)).

Definition unicode_general_category1 (h : heap) (cr : CharRange)
    (gc_mask : Z) : res (heap * CharRange * Z) :=
  loop (Datatypes.S (length unicode_gc_table)) (gc_step gc_mask)
    (h, cr, 0, 0).

(** *** Binary properties *)

Definition prop1_add (h : heap) (cr : CharRange) (bit : bool) (c0 c : Z)
  : res (heap * CharRange * Z) :=
  if bit then cr_add_interval h cr c0 c else Ret (h, cr, 0).

Definition prop1_step (tab : list Z) (p_end : Z)
  : heap * CharRange * Z * bool * Z
    -> res (heap * CharRange * Z * bool * Z + heap * CharRange * Z) :=
  fun '(h, cr, c, bit, p) =>
    if p <? p_end then
      let c0 := c in
      let* b := rd tab p in
      let p := p + 1 in
      let finish h cr c0 c bit p : res (_ + _) :=
        let* (h, cr, r) := prop1_add h cr bit c0 c in
        if negb (r =? 0) then Ret (inr (h, cr, -1))
        else Ret (inl (h, cr, c, negb bit, p)) in
      if b <? 64 then
        let c := u32 (c + (Z.shiftr b 3 + 1)) in
        let* (h, cr, r) := prop1_add h cr bit c0 c in
        if negb (r =? 0) then Ret (inr (h, cr, -1))
        else
          finish h cr c (u32 (c + (Z.land b 7 + 1))) (negb bit) p
      else if 0x80 <=? b then
        finish h cr c0 (u32 (c + (b - 0x80 + 1))) bit p
      else if b <? 0x60 then
        let* p0 := rd tab p in
        finish h cr c0 (u32 (c + (Z.lor (Z.shiftl (b - 0x40) 8) p0 + 1)))
          bit (p + 1)
      else
        let* p0 := rd tab p in
        let* p1 := rd tab (p + 1) in
        finish h cr c0 (u32 (c + (Z.lor (Z.lor (Z.shiftl (b - 0x60) 16)
                                           (Z.shiftl p0 8)) p1 + 1)))
          bit (p + 2)
    else Ret (inr (h, cr, 0)).

Definition unicode_prop1 (h : heap) (cr : CharRange) (prop_idx : Z)
  : res (heap * CharRange * Z) :=
  let* tab := rd unicode_prop_table prop_idx in
  let* len := rd unicode_prop_len_table prop_idx in
  loop (Datatypes.S (length tab)) (prop1_step tab len)
    (h, cr, 0, false, 0).

(** *** Case properties *)

(** [for(i = 0; i < len; i += 2)] of the runs of type [UL] *)
Definition case1_alternate (code len : Z) : heap * CharRange * Z
    -> res (heap * CharRange * Z + heap * CharRange * Z) :=
  fun '(h, cr, i) =>
    if i <? len then
      let* (h, cr, r) := cr_add_interval h cr (code + i) (code + i + 1) in
      if negb (r =? 0) then Ret (inr (h, cr, -1))
      else Ret (inl (h, cr, i + 2))
    else Ret (inr (h, cr, 0)).

Definition case1_lsu (h : heap) (cr : CharRange) (case_mask code : Z)
  : res (heap * CharRange * Z) :=
  let u := negb (Z.land case_mask CASE_U =? 0) in
  let fail h cr := Ret (h, cr, -1) in
  cr_ok (if negb u then cr_add_interval h cr code (code + 1)
         else Ret (h, cr, 0)) fail (fun h cr =>
  cr_ok (cr_add_interval h cr (code + 1) (code + 2)) fail (fun h cr =>
  cr_ok (if u then cr_add_interval h cr (code + 2) (code + 3)
         else Ret (h, cr, 0)) fail (fun h cr => Ret (h, cr, 0)))).

Definition case1_entry (h : heap) (cr : CharRange) (case_mask mask v : Z)
  : res (heap * CharRange * Z) :=
  let type := Z.land (Z.shiftr v (32 - 17 - 7 - 4)) 0xf in
  let code := run_code 17 v in
  let len := run_len 17 v in
  let u := negb (Z.land case_mask CASE_U =? 0) in
  let lf := negb (Z.land case_mask (Z.lor CASE_L CASE_F) =? 0) in
  if Z.land (Z.shiftr mask type) 1 =? 1 then
    if (type =? RUN_TYPE_UL) && negb (u && lf) then
      loop (Datatypes.S (Z.to_nat len))
        (case1_alternate (code + Z.b2z u) len) (h, cr, 0)
    else if (type =? RUN_TYPE_LSU) && negb (u && lf) then
      case1_lsu h cr case_mask code
    else cr_add_interval h cr code (code + len)
  else Ret (h, cr, 0).

Definition unicode_case1 (h : heap) (cr : CharRange) (case_mask : Z)
  : res (heap * CharRange * Z) :=
  if case_mask =? 0 then Ret (h, cr, 0)
  else
    let* mask := for_upto 3 0 (fun i mask =>
      let* t := rd tab_run_mask i in
      Ret (if Z.land (Z.shiftr case_mask i) 1 =? 1 then Z.lor mask t
           else mask)) 0 in
    loop (Datatypes.S (length case_conv_table1)) (fun '(h, cr, idx) =>
      if idx <? countof case_conv_table1 then
        let* v := rd case_conv_table1 idx in
        let* (h, cr, r) := case1_entry h cr case_mask mask v in
        if negb (r =? 0) then Ret (inr (h, cr, -1))
        else Ret (inl (h, cr, idx + 1))
      else Ret (inr (h, cr, 0))) (h, cr, 0).

(** *** Property expressions *)

(** [stack] has the top of the C array [stack] first. *)
Definition pop_fail (h : heap) (stack : list CharRange) : heap :=
  foldl cr_free h (reverse stack).

Definition pop_step : heap * list CharRange * list PropOPEnum
    -> res (heap * list CharRange * list PropOPEnum
            + heap * option CharRange) := fun '(h, stack, ops) =>
  let push (gen : heap -> CharRange -> res (heap * CharRange * Z)) ops
    : res (_ + _) :=
    let* _ := c_assert (Z.of_nat (length stack) <? POP_STACK_LEN_MAX) in
    let* (h, cr, r) := gen h cr_init in
    if negb (r =? 0) then Ret (inr (pop_fail h (cr :: stack), None))
    else Ret (inl (h, cr :: stack, ops)) in
  let binary (op : CharRangeOpEnum) ops : res (_ + _) :=
    let* _ := c_assert (2 <=? Z.of_nat (length stack)) in
    let* _ := c_assert (Z.of_nat (length stack) <? POP_STACK_LEN_MAX) in
    match stack with
    | cr2 :: cr1 :: rest =>
        let* (h, cr3, r) := cr_op h cr_init (cr_points cr1) (cr_len cr1)
          (cr_points cr2) (cr_len cr2) op in
        if negb (r =? 0) then Ret (inr (pop_fail h (cr3 :: stack), None))
        else Ret (inl (cr_free (cr_free h cr1) cr2, cr3 :: rest, ops))
    | _ => Ub
    end in
  match ops with
  | [] => Ub                                   (* no more arguments *)
  | POP_GC a :: ops =>
      push (fun h cr => unicode_general_category1 h cr a) ops
  | POP_PROP a :: ops =>
      push (fun h cr => unicode_prop1 h cr (UnicodePropertyEnum_Z a)) ops
  | POP_CASE a :: ops => push (fun h cr => unicode_case1 h cr a) ops
  | POP_UNION :: ops => binary CR_OP_UNION ops
  | POP_INTER :: ops => binary CR_OP_INTER ops
  | POP_XOR :: ops => binary CR_OP_XOR ops
  | POP_INVERT :: ops =>
      let* _ := c_assert (1 <=? Z.of_nat (length stack)) in
      match stack with
      | cr :: rest =>
          let* (h, cr, r) := cr_invert h cr in
          if negb (r =? 0) then Ret (inr (pop_fail h (cr :: rest), None))
          else Ret (inl (h, cr :: rest, ops))
      | [] => Ub
      end
  | POP_END :: _ =>
      let* _ := c_assert (Z.of_nat (length stack) =? 1) in
      match stack with
      | cr :: _ => Ret (inr (h, Some cr))
      | [] => Ub
      end
  end.

Definition unicode_prop_ops (h : heap) (cr : CharRange)
    (ops : list PropOPEnum) : res (heap * CharRange * Z) :=
  let* (h, top) := loop (Datatypes.S (length ops)) pop_step (h, [], ops) in
  match top with
  | None => Ret (h, cr, -1)
  | Some top =>
      let* (h, cr, ret) := cr_copy h cr top in
      Ret (cr_free h top, cr, ret)
  end.

Definition unicode_general_category (h : heap) (cr : CharRange)
    (gc_name : list Z) : res (heap * CharRange * Z) :=
  let* gc_idx := unicode_find_name unicode_gc_name_table gc_name in
  if gc_idx <? 0 then Ret (h, cr, -2)
  else
    let* gc_mask :=
      if gc_idx <=? UnicodeGCEnum_Z UNICODE_GC_Co
      then Ret (u32 (Z.shiftl 1 gc_idx))
      else rd unicode_gc_mask_table (gc_idx - UnicodeGCEnum_Z UNICODE_GC_LC) in
    unicode_general_category1 h cr gc_mask.
(** The [switch] of [unicode_prop]: one label at a time. *)
Definition unicode_prop (h : heap) (cr : CharRange) (prop_name : list Z)
  : res (heap * CharRange * Z) :=
  let* prop_idx := unicode_find_name unicode_prop_name_table prop_name in
  if prop_idx <? 0 then Ret (h, cr, -2)
  else
    let prop_idx :=
      prop_idx + UnicodePropertyEnum_Z UNICODE_PROP_ASCII_Hex_Digit in
    let is_prop p := prop_idx =? UnicodePropertyEnum_Z p in
    if is_prop UNICODE_PROP_ASCII then cr_add_interval h cr 0x00 (0x7f + 1)
    else if is_prop UNICODE_PROP_Any then
      cr_add_interval h cr 0x00000 (0x10ffff + 1)
    else if is_prop UNICODE_PROP_Changes_When_Uppercased then
      unicode_case1 h cr CASE_U
    else if is_prop UNICODE_PROP_Changes_When_Lowercased then
      unicode_case1 h cr CASE_L
    else if is_prop UNICODE_PROP_Changes_When_Casemapped then
      unicode_case1 h cr (Z.lor (Z.lor CASE_U CASE_L) CASE_F)
    else
      match find (fun '(p, _) => is_prop p) unicode_prop_programs with
      | Some (_, ops) => unicode_prop_ops h cr ops
      | None =>
          if Z.of_nat (length unicode_prop_table) <=? prop_idx
          then Ret (h, cr, -2)
          else unicode_prop1 h cr prop_idx
      end.
End ranges.
