(* ===== verification/UnicodeTableSpec.v ===== *)
(** * The indexed property tables

    A property table is a sequence of runs, alternately out of the set and in
    it.  [in_runs] reads the whole table from its start; the index that
    [lre_is_in_table] searches only skips a prefix ([indexed_scan]).  The
    same tables, read by [unicode_prop1], give the same set. *)

From stdpp Require Import base tactics numbers list option sorting sets.
From Stdlib Require Import ZArith Lia.
From S2P Require Import Prelude Cutils CharRange CharRangeSpec UnicodeTables.
From S2P Require Import UnicodeCase.

Open Scope Z_scope.

(** ** The runs of a table *)

(** The run lengths a table encodes; a truncated last item counts for
    nothing. *)
Fixpoint tab_runs (l : list Z) : list Z :=
  match l with
  | [] => []
  | b :: l1 =>
      if b <? 64 then Z.shiftr b 3 + 1 :: Z.land b 7 + 1 :: tab_runs l1
      else if 0x80 <=? b then b - 0x80 + 1 :: tab_runs l1
      else
        match l1 with
        | [] => []
        | p0 :: l2 =>
            if b <? 0x60
            then Z.lor (Z.shiftl (b - 0x40) 8) p0 + 1 :: tab_runs l2
            else
              match l2 with
              | [] => []
              | p1 :: l3 =>
                  Z.lor (Z.lor (Z.shiftl (b - 0x60) 16) (Z.shiftl p0 8)) p1 + 1
                    :: tab_runs l3
              end
        end
  end.

(** Membership by a scan of the runs that start at [code]. *)
Fixpoint in_runs (code : Z) (bit : bool) (rs : list Z) (c : Z) : bool :=
  match rs with
  | [] => false
  | r :: rs => if c <? code + r then bit else in_runs (code + r) (negb bit) rs c
  end.

Definition table_mem (T : list Z) (c : Z) : bool := in_runs 0 false (tab_runs T) c.

Definition sum (rs : list Z) : Z := foldr Z.add 0 rs.

(** One item of a table: the runs, the number of bytes and the rest. *)
Inductive item : list Z -> list Z -> Z -> list Z -> Prop :=
  | item_two b l : 0 <= b < 64 ->
      item (b :: l) [Z.shiftr b 3 + 1; Z.land b 7 + 1] 1 l
  | item_one b l : 0x80 <= b < 256 -> item (b :: l) [b - 0x80 + 1] 1 l
  | item_16 b p0 l : 0x40 <= b < 0x60 -> byte p0 ->
      item (b :: p0 :: l) [Z.lor (Z.shiftl (b - 0x40) 8) p0 + 1] 2 l
  | item_24 b p0 p1 l : 0x60 <= b < 0x80 -> byte p0 -> byte p1 ->
      item (b :: p0 :: p1 :: l)
        [Z.lor (Z.lor (Z.shiftl (b - 0x60) 16) (Z.shiftl p0 8)) p1 + 1] 3 l.

Lemma item_runs l rs n l' : item l rs n l' -> tab_runs l = rs ++ tab_runs l'.
Proof.
  intros H; inv H; simpl; repeat (zcase; try lia); done.
Qed.

Lemma item_drop l rs n l' :
  item l rs n l' -> l' = drop (Z.to_nat n) l /\ 0 < n <= 3 /\
  Z.of_nat (length l) = n + Z.of_nat (length l').
Proof. intros H; inv H; (split; [done|]); simpl; lia. Qed.

(** Run lengths are between 1 and [2 ^ 21]. *)
Lemma item_bounds l rs n l' :
  item l rs n l' -> forall r, r ∈ rs -> 1 <= r <= 2 ^ 21.
Proof.
  intros H; inv H; intros r Hr;
    rewrite ?elem_of_cons, ?elem_of_nil in Hr; destruct_or? Hr; try done; subst;
    unfold byte in *; try lia.
  - rewrite Z.shiftr_div_pow2 by lia. dlia.
  - change 7 with (Z.ones 3). rewrite land_mod by lia. dlia.
  - rewrite Z.shiftl_mul_pow2, lor_add_low by lia. lia.
  - rewrite !Z.shiftl_mul_pow2 by lia.
    replace ((b - 96) * 2 ^ 16) with ((b - 96) * 2 ^ 8 * 2 ^ 8) by lia.
    rewrite <- !Z.shiftl_mul_pow2 by lia. rewrite <- Z.shiftl_lor.
    rewrite !Z.shiftl_mul_pow2 by lia. rewrite (lor_add_low 8 p0) by lia.
    rewrite lor_add_low by lia. lia.
Qed.

(** A table of bytes is a sequence of items and a truncated rest. *)
Lemma item_cases l :
  Forall byte l -> tab_runs l = [] \/ exists rs n l', item l rs n l'.
Proof.
  intros Hl. destruct l as [|b l]; [by left|].
  apply Forall_cons in Hl as [Hb Hl]. unfold byte in Hb.
  destruct (Z_lt_le_dec b 64); [right; do 3 eexists; apply item_two; lia|].
  destruct (Z_lt_le_dec b 0x80).
  2: { right; do 3 eexists; apply item_one; lia. }
  destruct l as [|p0 l].
  { left. simpl. by repeat (zcase; try lia). }
  apply Forall_cons in Hl as [Hp0 Hl].
  destruct (Z_lt_le_dec b 0x60).
  { right; do 3 eexists; apply item_16; [lia|done]. }
  destruct l as [|p1 l].
  { left. simpl. by repeat (zcase; try lia). }
  apply Forall_cons in Hl as [Hp1 Hl].
  right; do 3 eexists; apply item_24; [lia|done|done].
Qed.

Lemma in_runs_app code bit rs1 rs2 c :
  (forall r, r ∈ rs1 -> 0 <= r) -> code + sum rs1 <= c ->
  in_runs code bit (rs1 ++ rs2) c
  = in_runs (code + sum rs1) (if Nat.odd (length rs1) then negb bit else bit)
      rs2 c.
Proof.
  revert code bit. induction rs1 as [|r rs1 IH]; intros code bit Hr Hc; simpl.
  { by rewrite Z.add_0_r. }
  simpl in Hc. assert (0 <= r) by (apply Hr; by constructor).
  assert (0 <= sum rs1).
  { assert (forall x, x ∈ rs1 -> 0 <= x) as Hx by (intros x Hx; apply Hr; by right).
    clear -Hx. induction rs1 as [|y rs1 IH]; simpl; [lia|].
    assert (0 <= y) by (apply Hx; constructor).
    assert (0 <= sum rs1); [|unfold sum in *; lia].
    apply IH. intros x H0. apply Hx. by right. }
  unfold sum in *. zcase; [lia|].
  rewrite IH; [|intros x Hx; apply Hr; by right|lia].
  rewrite <- Nat.negb_even, (Nat.odd_succ (length rs1)).
  rewrite Z.add_assoc. rewrite <- Nat.negb_odd.
  by destruct (Nat.odd (length rs1)), bit.
Qed.

Lemma in_runs_app_l code bit rs1 rs2 c :
  code <= c < code + sum rs1 ->
  in_runs code bit rs1 c = in_runs code bit (rs1 ++ rs2) c.
Proof.
  revert code bit. induction rs1 as [|r rs1 IH]; intros code bit Hc; simpl in *.
  { lia. }
  zcase; [done|]. apply IH. unfold sum in *. lia.
Qed.

(** Induction over the items of a table. *)
Lemma table_ind (P : list Z -> Prop) :
  (forall l, Forall byte l -> tab_runs l = [] -> P l) ->
  (forall l rs n l', Forall byte l -> item l rs n l' -> P l' -> P l) ->
  forall l, Forall byte l -> P l.
Proof.
  intros Hnil Hcons l. remember (length l) as n eqn:E. revert l E.
  induction (lt_wf n) as [n _ IH]. intros l -> Hb.
  destruct (item_cases l Hb) as [|(rs & k & l' & Hi)]; [by apply Hnil|].
  eapply Hcons; [done|exact Hi|].
  pose proof (item_drop _ _ _ _ Hi) as (Hl' & Hk & Hlen).
  eapply IH; [|reflexivity|].
  - lia.
  - rewrite Hl'. by apply Forall_drop.
Qed.

Lemma tab_runs_bounds l :
  Forall byte l -> forall r, r ∈ tab_runs l -> 1 <= r <= 2 ^ 21.
Proof.
  apply (table_ind (fun l => forall r, r ∈ tab_runs l -> 1 <= r <= 2 ^ 21)).
  - intros l' _ ->. intros r Hr. by inv Hr.
  - intros l' rs n l2 _ Hi IH r. rewrite (item_runs _ _ _ _ Hi).
    intros [Hr|Hr]%elem_of_app; [by eapply item_bounds|auto].
Qed.

Lemma sum_app rs1 rs2 : sum (rs1 ++ rs2) = sum rs1 + sum rs2.
Proof. induction rs1 as [|r rs1 IH]; simpl; [done|]. unfold sum in *. lia. Qed.

Lemma sum_nonneg rs : (forall r, r ∈ rs -> 1 <= r) -> 0 <= sum rs.
Proof.
  induction rs as [|r rs IH]; intros H; simpl; [lia|].
  assert (1 <= r) by (apply H; constructor).
  assert (0 <= sum rs); [|unfold sum in *; lia].
  apply IH. intros x Hx. apply H. by right.
Qed.

(** ** The scan of [lre_is_in_table] *)

Lemma rd_drop (T : list Z) p : 0 <= p ->
  forall (k : nat) x, drop (Z.to_nat p) T !! k = Some x ->
  rd T (p + Z.of_nat k) = Ret x.
Proof.
  intros Hp k x Hx. apply rd_Some; [lia|]. rewrite lookup_drop in Hx.
  by replace (Z.to_nat (p + Z.of_nat k)) with (Z.to_nat p + k)%nat by lia.
Qed.

(** One turn of the loop decodes one item. *)
Lemma in_table_step_item T c code bit p rs n l' :
  0 <= p -> item (drop (Z.to_nat p) T) rs n l' ->
  0 <= code -> code + sum rs < 2 ^ 32 ->
  in_table_step c T (code, bit, p)
  = Ret (if c <? code + sum rs then inr (in_runs code bit rs c)
         else inl (code + sum rs, if Nat.odd (length rs) then negb bit else bit,
                   p + n)).
Proof.
  intros Hp Hi Hc Hs.
  pose proof (rd_drop T p Hp) as Hrd.
  pose proof (item_bounds _ _ _ _ Hi) as Hb.
  remember (drop (Z.to_nat p) T) as l eqn:El. clear El.
  unfold in_table_step. destruct Hi as [b l Hb0|b l Hb0|b p0 l Hb0 H0|b p0 p1 l Hb0 H0 H1].
  all: pose proof (Hrd 0%nat _ eq_refl) as R0; rewrite Z.add_0_r in R0;
    rewrite R0; cbn [bind sum foldr length Nat.odd Nat.even negb in_runs] in *.
  - destruct (Z.ltb_spec b 64); [|lia].
    assert (1 <= Z.shiftr b 3 + 1 <= 2 ^ 21) by (apply Hb; constructor).
    assert (1 <= Z.land b 7 + 1 <= 2 ^ 21) by (apply Hb; do 2 constructor).
    rewrite (u32_id (code + (Z.shiftr b 3 + 1))) by lia.
    rewrite u32_id, !Z.add_0_r, !Z.add_assoc in * by lia.
    destruct (Z.ltb_spec c (code + Z.shiftr b 3 + 1)).
    + destruct (Z.ltb_spec c (code + Z.shiftr b 3 + 1 + Z.land b 7 + 1));
        [done|lia].
    + rewrite negb_involutive.
      by destruct (Z.ltb_spec c (code + Z.shiftr b 3 + 1 + Z.land b 7 + 1)).
  - destruct (Z.ltb_spec b 64); [lia|]. destruct (Z.leb_spec 0x80 b); [|lia].
    assert (1 <= b - 0x80 + 1 <= 2 ^ 21) by (apply Hb; constructor).
    rewrite u32_id, Z.add_0_r by lia. by destruct (Z.ltb_spec c (code + (b - 0x80 + 1))).
  - destruct (Z.ltb_spec b 64); [lia|]. destruct (Z.leb_spec 0x80 b); [lia|].
    destruct (Z.ltb_spec b 0x60); [|lia].
    pose proof (Hrd 1%nat _ eq_refl) as R1.
    change (Z.of_nat 1) with 1 in R1. rewrite R1. cbn [bind].
    assert (1 <= Z.lor (Z.shiftl (b - 0x40) 8) p0 + 1 <= 2 ^ 21)
      by (apply Hb; constructor).
    rewrite u32_id, Z.add_0_r by lia.
    destruct (Z.ltb_spec c (code + (Z.lor (Z.shiftl (b - 0x40) 8) p0 + 1)));
      do 2 f_equal. f_equal. lia.
  - destruct (Z.ltb_spec b 64); [lia|]. destruct (Z.leb_spec 0x80 b); [lia|].
    destruct (Z.ltb_spec b 0x60); [lia|].
    pose proof (Hrd 1%nat _ eq_refl) as R1.
    change (Z.of_nat 1) with 1 in R1. rewrite R1. cbn [bind].
    pose proof (Hrd 2%nat _ eq_refl) as R2. change (Z.of_nat 2) with 2 in R2.
    replace (p + 1 + 1) with (p + 2) by lia. rewrite R2. cbn [bind].
    match type of Hs with code + (?r + 0) < _ =>
      assert (1 <= r <= 2 ^ 21) by (apply Hb; constructor);
      rewrite u32_id, Z.add_0_r by lia; destruct (Z.ltb_spec c (code + r)) end;
      do 2 f_equal. f_equal. lia.
Qed.

Lemma drop_item T p rs n l' :
  0 <= p -> item (drop (Z.to_nat p) T) rs n l' ->
  l' = drop (Z.to_nat (p + n)) T /\ 0 < n /\
  Z.of_nat (length T) - (p + n) = Z.of_nat (length l').
Proof.
  intros Hp Hi. destruct (item_drop _ _ _ _ Hi) as (-> & Hn & Hl).
  rewrite drop_drop, <- Z2Nat.inj_add by lia. split; [done|]. split; [lia|].
  revert Hl. rewrite !length_drop. lia.
Qed.

(** The scan from any item boundary gives the membership in the runs that
    remain, if they reach past [c]. *)
Lemma scan_spec T c : Forall byte T -> forall fuel code bit p,
  0 <= p -> 0 <= code <= c -> c < code + sum (tab_runs (drop (Z.to_nat p) T)) ->
  code + sum (tab_runs (drop (Z.to_nat p) T)) < 2 ^ 32 ->
  Z.of_nat (length T) - p < Z.of_nat fuel ->
  loop fuel (in_table_step c T) (code, bit, p)
  = Ret (in_runs code bit (tab_runs (drop (Z.to_nat p) T)) c).
Proof.
  intros HT fuel. induction fuel as [|fuel IH];
    intros code bit p Hp Hc Hlt Hov Hfuel.
  { rewrite drop_ge in Hlt by lia. simpl in Hlt. lia. }
  destruct (item_cases (drop (Z.to_nat p) T)) as [Hnil|(rs & n & l' & Hi)];
    [by apply Forall_drop|rewrite Hnil in Hlt; simpl in Hlt; lia|].
  destruct (drop_item _ _ _ _ _ Hp Hi) as (El & Hn & Hlen).
  pose proof (item_bounds _ _ _ _ Hi) as Hb.
  assert (Hl' : forall r, r ∈ tab_runs l' -> 1 <= r).
  { intros r Hr. apply (tab_runs_bounds l') in Hr; [lia|].
    rewrite El. by apply Forall_drop. }
  pose proof (sum_nonneg _ Hl').
  rewrite (item_runs _ _ _ _ Hi), sum_app in Hlt, Hov.
  cbn [loop]. rewrite (in_table_step_item _ _ _ _ _ _ _ _ Hp Hi) by lia.
  rewrite (item_runs _ _ _ _ Hi). cbn [bind].
  destruct (Z.ltb_spec c (code + sum rs)) as [Hin|Hout].
  - f_equal. apply in_runs_app_l. lia.
  - assert (0 <= sum rs) by (apply sum_nonneg; intros r Hr; apply Hb in Hr; lia).
    rewrite El in *. rewrite IH by lia.
    rewrite in_runs_app; [done| |lia]. intros r Hr. apply Hb in Hr. lia.
Qed.

(** ** The index *)

(** The scan from the start: the code point and the bit at the item boundary
    [pos] bytes further. *)
Fixpoint reach (l : list Z) (pos code : Z) (bit : bool) : option (Z * bool) :=
  if pos =? 0 then Some (code, bit)
  else
    match l with
    | [] => None
    | b :: l1 =>
        if b <? 64 then
          reach l1 (pos - 1) (code + (Z.shiftr b 3 + 1) + (Z.land b 7 + 1)) bit
        else if 0x80 <=? b then
          reach l1 (pos - 1) (code + (b - 0x80 + 1)) (negb bit)
        else
          match l1 with
          | [] => None
          | p0 :: l2 =>
              if b <? 0x60 then
                reach l2 (pos - 2)
                  (code + (Z.lor (Z.shiftl (b - 0x40) 8) p0 + 1)) (negb bit)
              else
                match l2 with
                | [] => None
                | p1 :: l3 =>
                    reach l3 (pos - 3)
                      (code + (Z.lor (Z.lor (Z.shiftl (b - 0x60) 16)
                                 (Z.shiftl p0 8)) p1 + 1)) (negb bit)
                end
          end
    end.

Lemma reach_item l rs n l' pos code bit :
  item l rs n l' -> pos <> 0 ->
  reach l pos code bit
  = reach l' (pos - n) (code + sum rs)
      (if Nat.odd (length rs) then negb bit else bit).
Proof.
  intros Hi Hpos. destruct Hi; cbn [reach]; (destruct (Z.eqb_spec pos 0); [done|]);
    repeat (zcase; try lia); cbn [length Nat.odd Nat.even negb sum foldr];
    f_equal; lia.
Qed.

Lemma reach_nil l pos code bit :
  Forall byte l -> tab_runs l = [] -> pos <> 0 -> reach l pos code bit = None.
Proof.
  intros _ Hnil Hpos.
  destruct l as [|b [|p0 [|p1 l]]]; cbn [tab_runs reach] in *;
    repeat (zcase; try done).
Qed.

Lemma reach_neg l : Forall byte l -> forall pos code bit,
  pos < 0 -> reach l pos code bit = None.
Proof.
  apply (table_ind (fun l => forall pos code bit,
    pos < 0 -> reach l pos code bit = None)).
  - intros l' Hl Hnil pos code bit Hpos. apply reach_nil; [done|done|lia].
  - intros l' rs n l2 _ Hi IH pos code bit Hpos.
    rewrite (reach_item _ _ _ _ _ _ _ Hi) by lia. apply IH.
    destruct (item_drop _ _ _ _ Hi) as (_ & Hn & _). lia.
Qed.

Lemma reach_mono l : Forall byte l -> forall pos code bit code' bit',
  reach l pos code bit = Some (code', bit') -> code <= code'.
Proof.
  apply (table_ind (fun l => forall pos code bit code' bit',
    reach l pos code bit = Some (code', bit') -> code <= code')).
  - intros l' Hl Hnil pos code bit code' bit' Hr.
    destruct (Z.eq_dec pos 0) as [->|Hne]; [|by rewrite reach_nil in Hr].
    destruct l'; simpl in Hr; injection Hr as -> ->; lia.
  - intros l' rs n l2 _ Hi IH pos code bit code' bit' Hr.
    destruct (Z.eq_dec pos 0) as [->|Hne].
    { destruct l'; simpl in Hr; injection Hr as -> ->; lia. }
    rewrite (reach_item _ _ _ _ _ _ _ Hi) in Hr by done. apply IH in Hr.
    assert (0 <= sum rs); [|lia]. apply sum_nonneg.
    intros r Hr'. eapply item_bounds in Hr'; [|done]. lia.
Qed.

(** The scan from the start agrees with the scan from a boundary. *)
Lemma reach_spec l : Forall byte l -> forall pos code bit code' bit',
  0 <= pos -> reach l pos code bit = Some (code', bit') ->
  code' + sum (tab_runs (drop (Z.to_nat pos) l)) = code + sum (tab_runs l) /\
  forall c, code' <= c ->
    in_runs code bit (tab_runs l) c
    = in_runs code' bit' (tab_runs (drop (Z.to_nat pos) l)) c.
Proof.
  apply (table_ind (fun l => forall pos code bit code' bit',
    0 <= pos -> reach l pos code bit = Some (code', bit') ->
    code' + sum (tab_runs (drop (Z.to_nat pos) l)) = code + sum (tab_runs l) /\
    forall c, code' <= c ->
      in_runs code bit (tab_runs l) c
      = in_runs code' bit' (tab_runs (drop (Z.to_nat pos) l)) c)).
  - intros l' Hl' Hnil pos code bit code' bit' Hpos Hr.
    destruct (Z.eq_dec pos 0) as [->|Hne].
    { destruct l'; simpl in Hr; injection Hr as -> ->; done. }
    by rewrite reach_nil in Hr.
  - intros l' rs n l2 Hl' Hi IH pos code bit code' bit' Hpos Hr.
    destruct (Z.eq_dec pos 0) as [->|Hne].
    { destruct l'; simpl in Hr; injection Hr as -> ->; done. }
    rewrite (reach_item _ _ _ _ _ _ _ Hi) in Hr by done.
    destruct (item_drop _ _ _ _ Hi) as (El & Hn & _).
    assert (Hl2 : Forall byte l2) by (rewrite El; by apply Forall_drop).
    destruct (Z_lt_le_dec (pos - n) 0) as [Hneg|Hge].
    { by rewrite reach_neg in Hr. }
    destruct (IH _ _ _ _ _ Hge Hr) as [Hs Hm].
    assert (Ed : drop (Z.to_nat (pos - n)) l2 = drop (Z.to_nat pos) l').
    { rewrite El, drop_drop, <- Z2Nat.inj_add by lia. do 2 f_equal. lia. }
    rewrite Ed in *. rewrite (item_runs _ _ _ _ Hi), sum_app.
    split; [lia|]. intros c Hc. rewrite <- Hm by done.
    pose proof (item_bounds _ _ _ _ Hi) as Hb.
    apply in_runs_app; [intros r Hin; apply Hb in Hin; lia|].
    assert (forall x, x ∈ tab_runs (drop (Z.to_nat pos) l') -> 1 <= x).
    { intros x Hx. apply tab_runs_bounds in Hx; [lia|]. by apply Forall_drop. }
    enough (code + sum rs <= code') by lia.
    clear -Hr Hl2 Hge. eapply reach_mono; [..|exact Hr]; done.
Qed.

(** The binary search ends on an entry whose code point is at most [c]. *)
Lemma get_index_pos_spec c I n (v : Z -> Z) :
  (forall k, 0 <= k < n -> get_le24 I (k * 3) = Ret (v k)) -> 2 <= n ->
  n <= Z.of_nat (length I) ->
  wp (get_index_pos c I n) (fun r =>
    match r with
    | None => v (n - 1) <= c
    | Some (code, pos) => c < v (n - 1) /\
        ((code = 0 /\ pos = 0 /\ c < index_code (v 0)) \/
         exists k, 0 <= k < n - 1 /\ code = index_code (v k) /\ code <= c /\
           pos = (k + 1) * 32 + Z.shiftr (v k) 21)
    end \/ (r = Some (0, 0) /\ c < index_code (v 0))).
Proof.
  intros Hv Hn Hlen. unfold get_index_pos.
  pose proof (Hv 0 ltac:(lia)) as E0. rewrite Z.mul_0_l in E0.
  rewrite E0. cbn [bind]. destruct (Z.ltb_spec c (index_code (v 0))).
  { apply wp_ret. by right. }
  rewrite (Hv (n - 1)) by lia. cbn [bind].
  destruct (Z.leb_spec (v (n - 1)) c); [by left|].
  apply wp_bind. eapply wp_mono.
  { apply (wp_loop
      (fun '(lo, hi) => 0 <= lo < hi /\ hi <= n - 1 /\ index_code (v lo) <= c)
      (fun '(lo, hi) => Z.to_nat (hi - lo))
      (fun k => 0 <= k < n - 1 /\ index_code (v k) <= c)).
    - intros [lo hi] (Hlo & Hhi & Hc). unfold get_index_step.
      destruct (Z.ltb_spec 1 (hi - lo)); [|apply wp_ret; lia].
      assert (lo < (hi + lo) / 2 < hi) by dlia.
      rewrite (Hv ((hi + lo) / 2)) by lia. cbn [bind].
      destruct (Z.ltb_spec c (index_code (v ((hi + lo) / 2)))); apply wp_ret; lia.
    - lia.
    - lia. }
  intros k [Hk Hc]. cbn beta. rewrite (Hv k) by lia. cbn [bind].
  apply wp_ret. left. split; [done|]. right. by exists k.
Qed.

(** What makes an index right: each entry is an item boundary of the table,
    out of the set, and the last one is the end of the table. *)
Definition index_entry_ok (T I : list Z) (k : Z) : bool :=
  match get_le24 I (k * 3) with
  | Ret v =>
      match reach T ((k + 1) * 32 + Z.shiftr v 21) 0 false with
      | Some (code, false) => code =? index_code v
      | _ => false
      end
  | _ => false
  end.

Definition is_byte (b : Z) : bool := (0 <=? b) && (b <? 256).

Definition index_ok (T I : list Z) (n : Z) : bool :=
  (2 <=? n) && (n <=? Z.of_nat (length I)) && forallb is_byte T
  && forallb is_byte I && (sum (tab_runs T) <? 2 ^ 32)
  && forallb (fun k => index_entry_ok T I (Z.of_nat k)) (seq 0 (Z.to_nat (n - 1)))
  && match get_le24 I ((n - 1) * 3) with
     | Ret v => v =? sum (tab_runs T)
     | _ => false
     end.

Lemma is_byte_Forall l : forallb is_byte l = true -> Forall byte l.
Proof.
  intros H. apply Forall_forall. intros x Hx.
  apply list_elem_of_In in Hx. eapply forallb_forall in H; [|exact Hx].
  unfold is_byte in H. zb. by unfold byte.
Qed.

Lemma in_runs_beyond code bit rs c :
  (forall r, r ∈ rs -> 1 <= r) -> code + sum rs <= c ->
  in_runs code bit rs c = false.
Proof.
  intros Hr Hc. rewrite <- (app_nil_r rs).
  rewrite in_runs_app; [done| |done]. intros r Hin. apply Hr in Hin. lia.
Qed.

Lemma get_le24_nonneg I p v :
  Forall byte I -> get_le24 I p = Ret v -> 0 <= v.
Proof.
  intros HI. unfold get_le24.
  destruct (rd I p) as [b0| |] eqn:E0; [|done..]. cbn [bind].
  destruct (rd I (p + 1)) as [b1| |] eqn:E1; [|done..]. cbn [bind].
  destruct (rd I (p + 2)) as [b2| |] eqn:E2; [|done..]. cbn [bind].
  intros [= <-].
  assert (Hb : forall q b, rd I q = Ret b -> 0 <= b).
  { intros q b [_ H]%rd_Ret_inv. eapply Forall_lookup_1 in HI; [|exact H].
    apply HI. }
  apply Hb in E0, E1, E2. rewrite !Z.lor_nonneg, !Z.shiftl_nonneg. auto.
Qed.

(** With a right index, [lre_is_in_table] is the membership in the runs of
    the whole table. *)
Lemma indexed_scan T I n c :
  index_ok T I n = true -> 0 <= c ->
  lre_is_in_table c T I n = Ret (table_mem T c).
Proof.
  unfold index_ok. intros Hok Hc. apply andb_prop in Hok as [Hok Hlast]. zb.
  assert (HT : Forall byte T) by by apply is_byte_Forall.
  assert (HI : Forall byte I) by by apply is_byte_Forall.
  pose proof (tab_runs_bounds T HT) as HbT.
  assert (HbT1 : forall r, r ∈ tab_runs T -> 1 <= r)
    by (intros r Hr; apply HbT in Hr; lia).
  destruct (get_le24 I ((n - 1) * 3)) as [vl| |] eqn:El; [|done..]. zb. subst vl.
  assert (Hent : forall k, 0 <= k < n - 1 -> index_entry_ok T I k = true).
  { intros k Hk. match goal with H : forallb _ (seq _ _) = true |- _ =>
      rewrite forallb_forall in H; specialize (H (Z.to_nat k)) end.
    rewrite Z2Nat.id in * by lia. match goal with H : In _ _ -> _ |- _ =>
      apply H end. apply in_seq. lia. }
  set (v k := match get_le24 I (k * 3) with Ret v => v | _ => 0 end).
  assert (Hv : forall k, 0 <= k < n -> get_le24 I (k * 3) = Ret (v k)).
  { intros k Hk. unfold v. destruct (Z.eq_dec k (n - 1)) as [->|].
    - by rewrite El.
    - specialize (Hent k ltac:(lia)). unfold index_entry_ok in Hent.
      by destruct (get_le24 I (k * 3)). }
  assert (Hvl : v (n - 1) = sum (tab_runs T)) by (unfold v; by rewrite El).
  assert (Hcode : forall k, 0 <= index_code (v k)).
  { intros k. unfold index_code. apply Z.land_nonneg. right. done. }
  pose proof (get_index_pos_spec c I n v Hv ltac:(lia) ltac:(lia)) as Hpos.
  apply wp_iff in Hpos as (r & Er & Hr). unfold lre_is_in_table. rewrite Er.
  cbn [bind]. rewrite Hvl in Hr.
  assert (Hstart : c < sum (tab_runs T) ->
    loop (Datatypes.S (length T)) (in_table_step c T) (0, false, 0)
    = Ret (table_mem T c)).
  { intros Hlt. rewrite (scan_spec T c HT); [done|..];
      change (drop (Z.to_nat 0) T) with T; lia. }
  assert (Hentry : forall k, 0 <= k < n - 1 ->
    0 <= (k + 1) * 32 + Z.shiftr (v k) 21 /\
    reach T ((k + 1) * 32 + Z.shiftr (v k) 21) 0 false
    = Some (index_code (v k), false)).
  { intros k Hk. specialize (Hent k Hk). unfold index_entry_ok in Hent.
    rewrite (Hv k) in Hent by lia. split.
    - assert (0 <= Z.shiftr (v k) 21); [|lia]. apply Z.shiftr_nonneg.
      eapply get_le24_nonneg; [done|]. apply Hv. lia.
    - destruct (reach T _ 0 false) as [[code []]|]; [done| |done]. zb. by subst. }
  destruct r as [[code pos]|].
  2: { destruct Hr as [Hr|[? _]]; [|done]. f_equal. symmetry.
       unfold table_mem. apply in_runs_beyond; [done|lia]. }
  destruct Hr as [[Hlt [(-> & -> & _)|(k & Hk & -> & Hkc & ->)]]|[[= -> ->] Hlt]].
  - by apply Hstart.
  - destruct (Hentry k Hk) as [Hp Hreach].
    destruct (reach_spec T HT _ _ _ _ _ Hp Hreach) as [Hsum Hmem].
    rewrite scan_spec; [|done|done| |lia|lia|lia].
    + f_equal. symmetry. by apply Hmem.
    + by split.
  - apply Hstart. destruct (Hentry 0 ltac:(lia)) as [Hp Hreach].
    destruct (reach_spec T HT _ _ _ _ _ Hp Hreach) as [Hsum _].
    assert (0 <= sum (tab_runs (drop (Z.to_nat ((0 + 1) * 32 + Z.shiftr (v 0) 21)) T))).
    { apply sum_nonneg. intros r Hr. apply tab_runs_bounds in Hr; [lia|].
      by apply Forall_drop. }
    lia.
Qed.
