(* ===== verification/UnicodePropSpec.v ===== *)
(** * The sets that the property functions build

    [unicode_prop1] turns the runs of a table into intervals; the set is the
    one [lre_is_in_table] decides.  The programs of [unicode_prop_ops] are
    evaluated as Boolean combinations of such sets. *)

From stdpp Require Import base tactics numbers list option sorting sets.
From Stdlib Require Import ZArith Lia.
From S2P Require Import Prelude Cutils CharRange CharRangeSpec UnicodeTables.
From S2P Require Import UnicodeCase UnicodeTableSpec UnicodeProp.

Open Scope Z_scope.

(** ** Runs as intervals *)

(** The points [l] describe the set [f] below [c], and the runs [rs] above. *)
Record run_inv (f : Z -> bool) (l : list Z) (c : Z) (bit : bool)
    (rs : list Z) : Prop := {
  ri_sorted : sorted_le l;
  ri_even : even_len l;
  ri_bound : forall q, q ∈ l -> 0 <= q <= c;
  ri_below : forall x, 0 <= x < c -> f x = mem x l;
  ri_above : forall x, c <= x -> f x = in_runs c bit rs x
}.

Definition run_points (bit : bool) (c r : Z) : list Z :=
  if bit then [c; c + r] else [].

Lemma mem_even_above c l :
  even_len l -> (forall q, q ∈ l -> q <= c) -> mem c l = false.
Proof. intros He Hb. by rewrite mem_above, even_len_odd. Qed.

Lemma run_inv_step f l c bit r rs :
  run_inv f l c bit (r :: rs) -> 0 <= c -> 1 <= r ->
  run_inv f (l ++ run_points bit c r) (c + r) (negb bit) rs.
Proof.
  intros [So Ev Bd Be Ab] Hc Hr. split.
  - destruct bit; simpl; [|by rewrite app_nil_r].
    apply StronglySorted_app. split_and!; [|done|].
    + intros x y Hx Hy. apply Bd in Hx.
      rewrite elem_of_cons, list_elem_of_singleton in Hy. lia.
    + apply sorted_cons. split; [|repeat constructor].
      intros y ->%list_elem_of_singleton. lia.
  - apply even_len_app; [done|]. destruct bit; [by exists 1%nat|by exists 0%nat].
  - intros q [Hq|Hq]%elem_of_app; [apply Bd in Hq; lia|].
    destruct bit; simpl in Hq; [|by inv Hq].
    rewrite elem_of_cons, list_elem_of_singleton in Hq. lia.
  - intros x Hx. rewrite mem_app. destruct (Z_lt_le_dec x c) as [Hlt|Hge].
    + rewrite Be by lia. rewrite (mem_below x (run_points bit c r)).
      * by rewrite xorb_false_r.
      * intros q Hq. destruct bit; simpl in Hq; [|by inv Hq].
        rewrite elem_of_cons, list_elem_of_singleton in Hq. lia.
    + rewrite Ab by lia. simpl. zcase; [|lia].
      rewrite mem_even_above; [|done|intros q Hq; apply Bd in Hq; lia].
      destruct bit; simpl; [|done]. by repeat (zcase; try lia).
  - intros x Hx. rewrite Ab by lia. simpl. by zcase; [lia|].
Qed.

(** At the end of the runs the points are the set. *)
Lemma run_inv_end f l c bit :
  run_inv f l c bit [] -> forall x, 0 <= x -> mem x l = f x.
Proof.
  intros [So Ev Bd Be Ab] x Hx. destruct (Z_lt_le_dec x c) as [Hlt|Hge].
  - symmetry. apply Be. lia.
  - rewrite Ab by lia. apply mem_even_above; [done|].
    intros q Hq. apply Bd in Hq. lia.
Qed.

(** ** [unicode_prop1] *)

(** The table is made of whole items. *)
Definition whole (l : list Z) : bool :=
  match reach l (Z.of_nat (length l)) 0 false with Some _ => true | None => false end.

Lemma reach_shift l : Forall byte l -> forall pos code bit code2 bit2,
  (match reach l pos code bit with Some _ => true | None => false end)
  = (match reach l pos code2 bit2 with Some _ => true | None => false end).
Proof.
  apply (table_ind (fun l => forall pos code bit code2 bit2,
    (match reach l pos code bit with Some _ => true | None => false end)
    = (match reach l pos code2 bit2 with Some _ => true | None => false end))).
  - intros l' Hl Hnil pos code bit code2 bit2.
    destruct (Z.eq_dec pos 0) as [->|Hne]; [by destruct l'|].
    by rewrite !reach_nil.
  - intros l' rs n l2 _ Hi IH pos code bit code2 bit2.
    destruct (Z.eq_dec pos 0) as [->|Hne]; [by destruct l'|].
    rewrite !(reach_item _ _ _ _ _ _ _ Hi) by done. apply IH.
Qed.

Lemma whole_cases l :
  Forall byte l -> whole l = true ->
  l = [] \/ exists rs n l', item l rs n l' /\ whole l' = true.
Proof.
  intros Hb Hw. destruct l as [|b l]; [by left|]. right.
  set (l0 := b :: l) in *.
  assert (Hpos : Z.of_nat (length l0) <> 0) by (subst l0; simpl; lia).
  unfold whole in Hw.
  destruct (item_cases l0 Hb) as [Hnil|(rs & n & l' & Hi)].
  { by rewrite reach_nil in Hw. }
  exists rs, n, l'. split; [done|].
  rewrite (reach_item _ _ _ _ _ _ _ Hi) in Hw by done.
  destruct (item_drop _ _ _ _ Hi) as (El & Hn & Hlen).
  unfold whole. replace (Z.of_nat (length l0) - n)
    with (Z.of_nat (length l')) in Hw by lia.
  etransitivity; [|exact Hw]. apply reach_shift. rewrite El.
  by apply Forall_drop.
Qed.

(** The largest array of points the theorems speak about. *)
Definition max_points : Z := 715827882.

Lemma max_points_ok : 3 * max_points <= INT32_MAX.
Proof. done. Qed.

(** A range of at most [N] points that denotes the set [f]. *)
Record denotes (N : Z) (f : Z -> bool) (cr : CharRange) : Prop := {
  dn_wf : cr_wf max_points cr;
  dn_even : even_len (pts cr);
  dn_sorted : sorted_le (pts cr);
  dn_points : forall p, p ∈ pts cr -> 0 <= p <= UINT32_MAX;
  dn_len : cr_len cr <= N;
  dn_mem : forall x, 0 <= x < UINT32_MAX -> mem x (pts cr) = f x
}.

Section prop1.
Context {al : Allocator} {al_ok : AllocatorOk al}.

Lemma prop1_add_spec h cr bit c r :
  cr_wf max_points cr -> cr_len cr + 2 <= max_points ->
  wp (prop1_add h cr bit c (c + r)) (cr_post (fun cr' =>
    cr_wf max_points cr' /\ pts cr' = pts cr ++ run_points bit c r /\
    cr_len cr' <= cr_len cr + 2)).
Proof.
  intros Hwf Hlen. unfold prop1_add, run_points. destruct bit.
  - eapply cr_post_mono; [by apply (cr_add_interval_spec max_points max_points_ok)|].
    intros cr' (? & ? & ?). split; [done|]. split; [done|lia].
  - apply wp_ret. left. rewrite app_nil_r. repeat split; try apply Hwf; lia.
Qed.

Definition prop1_inv (f : Z -> bool) (T : list Z)
  : heap * CharRange * Z * bool * Z -> Prop := fun '(h, cr, c, bit, p) =>
  0 <= p <= Z.of_nat (length T) /\ 0 <= c /\ cr_wf max_points cr /\
  c + sum (tab_runs (drop (Z.to_nat p) T)) < 2 ^ 32 /\
  cr_len cr <= 4 * p /\ whole (drop (Z.to_nat p) T) = true /\
  run_inv f (pts cr) c bit (tab_runs (drop (Z.to_nat p) T)).

Lemma prop1_inv_next f T h h' cr cr' c bit p rs n l' :
  prop1_inv f T (h, cr, c, bit, p) ->
  item (drop (Z.to_nat p) T) rs n l' -> whole l' = true -> Forall byte T ->
  cr_wf max_points cr' -> cr_len cr' <= cr_len cr + 2 * Z.of_nat (length rs) ->
  pts cr' = pts cr ++ match rs with
    | [r] => run_points bit c r
    | [r1; r2] => run_points bit c r1 ++ run_points (negb bit) (c + r1) r2
    | _ => []
    end ->
  prop1_inv f T (h', cr', c + sum rs,
    if Nat.odd (length rs) then negb bit else bit, p + n).
Proof.
  intros (Hp & Hc & Hwf & Hs & Hl & Hw & Hri) Hi Hw' HT Hwf' Hl' Hpts.
  destruct (drop_item _ _ _ _ _ (proj1 Hp) Hi) as (El & Hn & Hlen).
  pose proof (item_bounds _ _ _ _ Hi) as Hb.
  rewrite (item_runs _ _ _ _ Hi), sum_app in Hs.
  rewrite (item_runs _ _ _ _ Hi) in Hri.
  assert (Hlen2 : 0 <= sum rs /\ Z.of_nat (length rs) <= 2 * n).
  { split; [apply sum_nonneg; intros r Hr; apply Hb in Hr; lia|].
    destruct Hi; simpl; lia. }
  unfold prop1_inv. rewrite <- El, Hpts. split_and!; try lia; try done.
  destruct Hi; cbn [app length Nat.odd Nat.even negb sum foldr] in *;
    rewrite ?Z.add_0_r, ?app_assoc;
    [|apply run_inv_step in Hri; [exact Hri|done|apply Hb; constructor]..].
  assert (1 <= Z.shiftr b 3 + 1) by (apply Hb; constructor).
  assert (1 <= Z.land b 7 + 1) by (apply Hb; do 2 constructor).
  apply run_inv_step in Hri; [|done|done].
  apply run_inv_step in Hri; [|lia|done].
  by rewrite negb_involutive, <- Z.add_assoc in Hri.
Qed.

(** The common tail of a turn: one run that ends at [c + r]. *)
Lemma prop1_finish f T h0 h cr cr0 c0 bit0 p0 rs n l' (bit : bool) c r p :
  prop1_inv f T (h0, cr0, c0, bit0, p0) ->
  item (drop (Z.to_nat p0) T) rs n l' -> whole l' = true -> Forall byte T ->
  4 * Z.of_nat (length T) <= max_points -> 4 <= 4 * Z.of_nat (length T) - cr_len cr0 ->
  cr_wf max_points cr -> cr_len cr <= cr_len cr0 + 2 * (Z.of_nat (length rs) - 1) ->
  pts cr ++ run_points bit c r = pts cr0 ++ match rs with
    | [r] => run_points bit0 c0 r
    | [r1; r2] => run_points bit0 c0 r1 ++ run_points (negb bit0) (c0 + r1) r2
    | _ => []
    end ->
  c + r = c0 + sum rs -> p = p0 + n ->
  negb bit = (if Nat.odd (length rs) then negb bit0 else bit0) ->
  wp (let* (h, cr, r0) := prop1_add h cr bit c (c + r) in
      if negb (r0 =? 0) then Ret (inr (h, cr, -1))
      else Ret (inl (h, cr, c + r, negb bit, p)))
    (fun x => match x with
     | inl s' => prop1_inv f T s' /\ p0 < s'.2
     | inr x => cr_post (denotes (4 * Z.of_nat (length T)) f) x
     end).
Proof.
  intros Hinv Hi Hw HT Hmax Hroom Hwf Hl Hpts Hc Hp Hbit.
  assert (Hrs : Z.of_nat (length rs) <= 2) by (destruct Hi; simpl; lia).
  apply wp_bind. eapply wp_mono; [apply prop1_add_spec; [done|lia]|].
  intros [[h' cr'] r'] [(-> & Hwf' & Hp' & Hl')|[-> Hf]]; apply wp_ret.
  - rewrite Hc, Hp, Hbit. split.
    + eapply prop1_inv_next; [exact Hinv|exact Hi|done|done|done|lia|].
      by rewrite Hp', Hpts.
    + simpl. destruct (item_drop _ _ _ _ Hi) as (_ & Hn & _). lia.
  - by right.
Qed.

Lemma prop1_step_spec f T s :
  Forall byte T -> 4 * Z.of_nat (length T) <= max_points -> prop1_inv f T s ->
  wp (prop1_step T (Z.of_nat (length T)) s) (fun x => match x with
    | inl s' => prop1_inv f T s' /\ s.2 < s'.2
    | inr x => cr_post (denotes (4 * Z.of_nat (length T)) f) x
    end).
Proof.
  destruct s as [[[[h cr] c] bit] p]. intros HT Hmax Hinv.
  destruct (Hinv) as (Hp & Hc & Hwf & Hs & Hl & Hw & Hri). unfold prop1_step.
  destruct (Z.ltb_spec p (Z.of_nat (length T))) as [Hlt|Hge].
  2: { rewrite drop_ge in Hri by lia. apply wp_ret. left. split; [done|].
       destruct (Hri) as [So Ev Bd _ _]. rewrite drop_ge in Hs by lia.
       simpl in Hs. split; [done|done|done| |lia|].
       - intros q Hq. apply Bd in Hq. unfold UINT32_MAX. lia.
       - intros x Hx. eapply run_inv_end; [done|lia]. }
  destruct (whole_cases (drop (Z.to_nat p) T)) as [Hnil|(rs & n & l' & Hi & Hw')];
    [by apply Forall_drop|done| |].
  { apply (f_equal length) in Hnil. rewrite length_drop in Hnil. simpl in Hnil. lia. }
  pose proof (rd_drop T p (proj1 Hp)) as Hrd.
  pose proof (item_bounds _ _ _ _ Hi) as Hb.
  rewrite (item_runs _ _ _ _ Hi), sum_app in Hs.
  assert (0 <= sum (tab_runs l')) as Hs'.
  { destruct (drop_item _ _ _ _ _ (proj1 Hp) Hi) as (-> & _).
    apply sum_nonneg. intros r Hr. apply tab_runs_bounds in Hr; [lia|].
    by apply Forall_drop. }
  remember (drop (Z.to_nat p) T) as l eqn:El. pose proof Hi as Hi0.
  rewrite El in Hi0. destruct Hi as [b l Hb0|b l Hb0|b p0 l Hb0 H0|b p0 p1 l Hb0 H0 H1].
  all: pose proof (Hrd 0%nat _ eq_refl) as R0; rewrite Z.add_0_r in R0;
    rewrite R0; cbn [bind sum foldr] in *; rewrite ?Z.add_0_r in Hs.
  - destruct (Z.ltb_spec b 64); [|lia].
    assert (1 <= Z.shiftr b 3 + 1) by (apply Hb; constructor).
    assert (1 <= Z.land b 7 + 1) by (apply Hb; do 2 constructor).
    rewrite (u32_id (c + _)) by lia. apply wp_bind.
    eapply wp_mono; [apply prop1_add_spec; [done|lia]|].
    intros [[h' cr'] r'] [(-> & Hwf' & Hp' & Hl')|[-> Hf]]; cbn [negb Z.eqb].
    2: { apply wp_ret. by right. }
    rewrite u32_id by lia.
    eapply prop1_finish; [exact Hinv|exact Hi0|done|done|done|lia|done| | | | |].
    + simpl. lia.
    + by rewrite Hp', <- app_assoc.
    + simpl. lia.
    + done.
    + simpl. by rewrite negb_involutive.
  - destruct (Z.ltb_spec b 64); [lia|]. destruct (Z.leb_spec 0x80 b); [|lia].
    assert (1 <= b - 0x80 + 1) by (apply Hb; constructor).
    rewrite u32_id by lia.
    eapply prop1_finish; [exact Hinv|exact Hi0|done|done|done|lia|done| | | | |];
      simpl; try done; lia.
  - destruct (Z.ltb_spec b 64); [lia|]. destruct (Z.leb_spec 0x80 b); [lia|].
    destruct (Z.ltb_spec b 0x60); [|lia].
    pose proof (Hrd 1%nat _ eq_refl) as R1. change (Z.of_nat 1) with 1 in R1.
    rewrite R1. cbn [bind].
    match type of Hs with c + (?r + _) < _ =>
      assert (1 <= r) by (apply Hb; constructor) end.
    rewrite u32_id by lia.
    eapply prop1_finish; [exact Hinv|exact Hi0|done|done|done|lia|done| | | | |];
      simpl; try done; lia.
  - destruct (Z.ltb_spec b 64); [lia|]. destruct (Z.leb_spec 0x80 b); [lia|].
    destruct (Z.ltb_spec b 0x60); [lia|].
    pose proof (Hrd 1%nat _ eq_refl) as R1. change (Z.of_nat 1) with 1 in R1.
    rewrite R1. cbn [bind].
    pose proof (Hrd 2%nat _ eq_refl) as R2. change (Z.of_nat 2) with 2 in R2.
    replace (p + 1 + 1) with (p + 2) by lia. rewrite R2. cbn [bind].
    match type of Hs with c + (?r + _) < _ =>
      assert (1 <= r) by (apply Hb; constructor) end.
    rewrite u32_id by lia.
    eapply prop1_finish; [exact Hinv|exact Hi0|done|done|done|lia|done| | | | |];
      simpl; try done; lia.
Qed.
End prop1.

Definition table_ok (T : list Z) : bool :=
  forallb is_byte T && whole T && (sum (tab_runs T) <? 2 ^ 32)
  && (Z.of_nat (length T) <? 10000).

(** Every table of [unicode_prop_table] is well formed and has the length
    that [unicode_prop_len_table] gives. *)
Lemma unicode_prop_tables_ok :
  forallb table_ok unicode_prop_table = true /\
  unicode_prop_len_table = map countof unicode_prop_table.
Proof. by vm_compute. Qed.

Section prop_sets.
Context {al : Allocator} {al_ok : AllocatorOk al}.

Lemma cr_init_wf : cr_wf max_points cr_init.
Proof. unfold cr_wf; simpl. split_and!; [lia..|done|done]. Qed.

Lemma unicode_prop1_spec h prop_idx T :
  0 <= prop_idx -> unicode_prop_table !! Z.to_nat prop_idx = Some T ->
  wp (unicode_prop1 h cr_init prop_idx)
    (cr_post (denotes 40000 (table_mem T))).
Proof.
  intros Hidx HT. unfold unicode_prop1. rewrite (rd_Some _ _ T) by done.
  destruct unicode_prop_tables_ok as [Hok Hlen]. rewrite Hlen.
  rewrite (rd_Some _ _ (countof T)); [|done|by rewrite list_lookup_fmap, HT].
  cbn [bind]. rewrite forallb_forall in Hok. specialize (Hok T).
  ospecialize* Hok; [by eapply list_elem_of_In, list_elem_of_lookup_2|].
  unfold table_ok in Hok. zb. assert (Forall byte T) by by apply is_byte_Forall.
  unfold countof. assert (4 * Z.of_nat (length T) <= max_points)
    by (unfold max_points; lia).
  apply (wp_loop (prop1_inv (table_mem T) T)
    (fun s => Z.to_nat (Z.of_nat (length T) - s.2))).
  - intros s Hs. eapply wp_mono.
    { by apply (prop1_step_spec (table_mem T)). }
    intros [s'|x]; [|intros Hx; eapply cr_post_weaken; [exact Hx|]].
    2: { intros cr' []. split; auto. lia. }
    intros [Hs' Hlt]. split; [done|].
    destruct s' as [[[[h' cr'] c'] bit'] p'], s as [[[[h0 cr0] c0] bit0] p0].
    destruct Hs' as [Hp' _], Hs as [Hp0 _]. simpl in *. lia.
  - unfold prop1_inv. change (drop (Z.to_nat 0) T) with T.
    split; [lia|]. split; [lia|]. split; [apply cr_init_wf|].
    split; [lia|]. split; [simpl; lia|]. split; [done|].
    split; [constructor|by exists 0%nat|intros q Hq; by inv Hq|lia|].
    intros x Hx. reflexivity.
  - simpl. lia.
Qed.
End prop_sets.

(** The four tables that have an index, and the index of [unicode_prop_table]
    of those that are properties. *)
Lemma indexes_ok :
  index_ok unicode_prop_Cased1_table unicode_prop_Cased1_index
    (countof unicode_prop_Cased1_index / 3) = true /\
  index_ok unicode_prop_Case_Ignorable_table unicode_prop_Case_Ignorable_index
    (countof unicode_prop_Case_Ignorable_index / 3) = true /\
  index_ok unicode_prop_ID_Start_table unicode_prop_ID_Start_index
    (countof unicode_prop_ID_Start_index / 3) = true /\
  index_ok unicode_prop_ID_Continue1_table unicode_prop_ID_Continue1_index
    (countof unicode_prop_ID_Continue1_index / 3) = true.
Proof. by vm_compute. Qed.
