(* ===== verification/UnicodeGcSpec.v ===== *)
(** * General categories

    [unicode_gc_table] is a sequence of runs of one category, or of
    alternating upper and lower case letters.  [gc_mem] looks a code point up
    in the runs; [unicode_general_category1] builds the set of the code
    points whose category is in a mask. *)

From stdpp Require Import base tactics numbers list option sorting sets.
From Stdlib Require Import ZArith Lia.
From S2P Require Import Prelude Cutils CharRange CharRangeSpec UnicodeTables.
From S2P Require Import UnicodeCase UnicodeTableSpec UnicodeProp UnicodePropSpec.

Open Scope Z_scope.

(** ** Growing a set from below *)

(** The points [l] describe the set [f] below [c]. *)
Record set_inv (f : Z -> bool) (l : list Z) (c : Z) : Prop := {
  si_sorted : sorted_le l;
  si_even : even_len l;
  si_bound : forall q, q ∈ l -> 0 <= q <= c;
  si_below : forall x, 0 <= x < c -> f x = mem x l
}.

Lemma set_inv_nil f : set_inv f [] 0.
Proof.
  split; [constructor|by exists 0%nat|intros q Hq; by inv Hq|lia].
Qed.

(** Appending the points [l'] of the part of [f] between [c] and [c']. *)
Lemma set_inv_app f l l' c c' :
  set_inv f l c -> 0 <= c <= c' -> sorted_le l' -> even_len l' ->
  (forall q, q ∈ l' -> c <= q <= c') ->
  (forall x, c <= x < c' -> f x = mem x l') ->
  set_inv f (l ++ l') c'.
Proof.
  intros [So Ev Bd Be] Hc So' Ev' Bd' Be'. split.
  - apply StronglySorted_app. split_and!; [|done|done].
    intros x y Hx Hy. apply Bd in Hx. apply Bd' in Hy. lia.
  - by apply even_len_app.
  - intros q [Hq|Hq]%elem_of_app; [apply Bd in Hq|apply Bd' in Hq]; lia.
  - intros x Hx. rewrite mem_app. destruct (Z_lt_le_dec x c) as [Hlt|Hge].
    + rewrite Be by lia. rewrite (mem_below x l'), xorb_false_r; [done|].
      intros q Hq. apply Bd' in Hq. lia.
    + rewrite Be' by lia. rewrite (mem_even_above x l); [by destruct (mem x l')|done|].
      intros q Hq. apply Bd in Hq. lia.
Qed.

(** The points that alternate membership, one code point in two. *)
Fixpoint alternate (c : Z) (n : nat) : list Z :=
  match n with
  | O => []
  | Datatypes.S n => c :: c + 1 :: alternate (c + 2) n
  end.

Lemma alternate_spec n : forall c,
  sorted_le (alternate c n) /\ even_len (alternate c n) /\
  (forall q, q ∈ alternate c n -> c <= q < c + 2 * Z.of_nat n) /\
  (forall x, mem x (alternate c n)
     = (c <=? x) && (x <? c + 2 * Z.of_nat n) && Z.even (x - c)) /\
  length (alternate c n) = (2 * n)%nat.
Proof.
  induction n as [|n IH]; intros c.
  { split_and!; [constructor|by exists 0%nat|intros q Hq; by inv Hq| |done].
    intros x. simpl. by repeat (zcase; try lia). }
  destruct (IH (c + 2)) as (So & Ev & Bd & Me & Le). cbn [alternate].
  split_and!.
  - rewrite !sorted_cons. split_and!; [| |done].
    + intros y [->|Hy]%elem_of_cons; [lia|]. apply Bd in Hy. lia.
    + intros y Hy. apply Bd in Hy. lia.
  - by apply even_len_cons2.
  - intros q Hq. rewrite !elem_of_cons in Hq.
    destruct Hq as [->|[->|Hq]]; [lia|lia|]. apply Bd in Hq. lia.
  - intros x. cbn [mem]. rewrite Me.
    replace (x - (c + 2)) with (x - c - 2) by lia.
    rewrite (Z.even_sub (x - c) 2). change (Z.even 2) with true.
    assert (x = c \/ x <> c) as [->|Hne] by lia.
    + rewrite Z.sub_diag. by repeat (zcase; try lia).
    + assert (x = c + 1 \/ x <> c + 1) as [->|Hne1] by lia.
      * replace (c + 1 - c) with 1 by lia. by repeat (zcase; try lia).
      * repeat (zcase; try lia); by destruct (Z.even (x - c)).
  - simpl. rewrite Le. lia.
Qed.

(** ** The runs of the table *)

(** A run of [r] code points of category [v]. *)
Fixpoint gc_runs (l : list Z) : list (Z * Z) :=
  match l with
  | [] => []
  | b :: l1 =>
      let v := Z.land b 0x1f in
      if Z.shiftr b 5 =? 7 then
        match l1 with
        | [] => []
        | m :: l2 =>
            if m <? 128 then (m + 7 + 1, v) :: gc_runs l2
            else
              match l2 with
              | [] => []
              | p0 :: l3 =>
                  if m <? 128 + 64 then
                    (Z.lor (Z.shiftl (m - 128) 8) p0 + (7 + 128) + 1, v)
                      :: gc_runs l3
                  else
                    match l3 with
                    | [] => []
                    | p1 :: l4 =>
                        (Z.lor (Z.lor (Z.shiftl (m - 128 - 64) 16)
                                  (Z.shiftl p0 8)) p1
                         + (7 + 128 + Z.shiftl 1 14) + 1, v) :: gc_runs l4
                    end
              end
        end
      else (Z.shiftr b 5 + 1, v) :: gc_runs l1
  end.

(** The category of the [k]-th code point of a run: runs of category 31
    alternate between [Lu] and [Ll]. *)
Definition run_category (v k : Z) : Z :=
  if v =? 31 then
    if Z.even k then UnicodeGCEnum_Z UNICODE_GC_Lu
    else UnicodeGCEnum_Z UNICODE_GC_Ll
  else v.

Fixpoint category (code : Z) (rs : list (Z * Z)) (c : Z) : option Z :=
  match rs with
  | [] => None
  | (r, v) :: rs =>
      if c <? code + r then Some (run_category v (c - code))
      else category (code + r) rs c
  end.

(** The category of [c] is in [mask]. *)
Definition cat_in (mask : Z) (v : option Z) : bool :=
  match v with Some v => Z.testbit mask v | None => false end.

Definition gc_mem (mask c : Z) : bool :=
  cat_in mask (category 0 (gc_runs unicode_gc_table) c).

Inductive gc_item : list Z -> Z -> Z -> Z -> list Z -> Prop :=
  | gc_item_1 b l : byte b -> Z.shiftr b 5 <> 7 ->
      gc_item (b :: l) (Z.shiftr b 5 + 1) (Z.land b 0x1f) 1 l
  | gc_item_2 b m l : Z.shiftr b 5 = 7 -> 0 <= m < 128 ->
      gc_item (b :: m :: l) (m + 7 + 1) (Z.land b 0x1f) 2 l
  | gc_item_3 b m p0 l : Z.shiftr b 5 = 7 -> 128 <= m < 192 -> byte p0 ->
      gc_item (b :: m :: p0 :: l)
        (Z.lor (Z.shiftl (m - 128) 8) p0 + (7 + 128) + 1) (Z.land b 0x1f) 3 l
  | gc_item_4 b m p0 p1 l :
      Z.shiftr b 5 = 7 -> 192 <= m < 256 -> byte p0 -> byte p1 ->
      gc_item (b :: m :: p0 :: p1 :: l)
        (Z.lor (Z.lor (Z.shiftl (m - 128 - 64) 16) (Z.shiftl p0 8)) p1
         + (7 + 128 + Z.shiftl 1 14) + 1) (Z.land b 0x1f) 4 l.

Lemma shiftr_byte b k : byte b -> 0 <= k -> 0 <= Z.shiftr b k < 256.
Proof.
  unfold byte. intros Hb Hk. rewrite Z.shiftr_div_pow2 by lia.
  assert (0 < 2 ^ k) by (apply Z.pow_pos_nonneg; lia).
  split; [apply Z.div_pos; lia|]. apply Z.div_lt_upper_bound; nia.
Qed.

Lemma gc_item_bounds l r v n l' :
  gc_item l r v n l' -> 1 <= r <= 2 ^ 23 /\ 0 <= v.
Proof.
  intros H. destruct H as [b l Hb|b m l|b m p0 l|b m p0 p1 l ? ? Hp0 Hp1];
    (split; [|apply Z.land_nonneg; right; lia]); unfold byte in *.
  - pose proof (shiftr_byte b 5 Hb ltac:(lia)). lia.
  - lia.
  - rewrite Z.shiftl_mul_pow2, lor_add_low by lia. lia.
  - change (Z.shiftl 1 14) with 16384. rewrite !Z.shiftl_mul_pow2 by lia.
    replace ((m - 128 - 64) * 2 ^ 16) with ((m - 128 - 64) * 2 ^ 8 * 2 ^ 8) by lia.
    rewrite <- !Z.shiftl_mul_pow2 by lia. rewrite <- Z.shiftl_lor.
    rewrite !Z.shiftl_mul_pow2 by lia. rewrite (lor_add_low 8 p0) by lia.
    rewrite lor_add_low by lia. lia.
Qed.

Lemma gc_item_runs l r v n l' :
  gc_item l r v n l' ->
  gc_runs l = (r, v) :: gc_runs l' /\ l' = drop (Z.to_nat n) l /\
  0 < n <= 4 /\ Z.of_nat (length l) = n + Z.of_nat (length l').
Proof.
  intros H. destruct H; cbn [gc_runs]; repeat (zcase; try lia);
    (split; [done|split; [done|simpl; lia]]).
Qed.

(** The table is made of whole items. *)
Fixpoint gc_whole (fuel : nat) (l : list Z) : bool :=
  match fuel, l with
  | _, [] => true
  | O, _ => false
  | Datatypes.S fuel, b :: l1 =>
      if Z.shiftr b 5 =? 7 then
        match l1 with
        | m :: l2 =>
            if m <? 128 then gc_whole fuel l2
            else
              match l2 with
              | p0 :: l3 =>
                  if m <? 192 then gc_whole fuel l3
                  else match l3 with p1 :: l4 => gc_whole fuel l4 | [] => false end
              | [] => false
              end
        | [] => false
        end
      else gc_whole fuel l1
  end.

Lemma gc_whole_cases fuel l :
  Forall byte l -> gc_whole fuel l = true ->
  l = [] \/ exists r v n l' fuel', gc_item l r v n l' /\
    gc_whole fuel' l' = true.
Proof.
  intros Hb Hw. destruct l as [|b l]; [by left|]. right.
  destruct fuel as [|fuel]; [done|]. cbn [gc_whole] in Hw.
  apply Forall_cons in Hb as [Hb Hl].
  destruct (Z.eqb_spec (Z.shiftr b 5) 7).
  2: { do 5 eexists. split; [by apply gc_item_1|done]. }
  destruct l as [|m l]; [done|]. apply Forall_cons in Hl as [Hm Hl].
  unfold byte in Hm. destruct (Z.ltb_spec m 128).
  { do 5 eexists. split; [apply gc_item_2; [done|lia]|done]. }
  destruct l as [|p0 l]; [done|]. apply Forall_cons in Hl as [Hp0 Hl].
  destruct (Z.ltb_spec m 192).
  { do 5 eexists. split; [apply gc_item_3; [done|lia|done]|done]. }
  destruct l as [|p1 l]; [done|]. apply Forall_cons in Hl as [Hp1 Hl].
  do 5 eexists. split; [apply gc_item_4; [done|lia|done|done]|done].
Qed.

(** The last code point of the table is U+10FFFF. *)
Lemma gc_table_ok :
  forallb is_byte unicode_gc_table = true /\
  gc_whole (length unicode_gc_table) unicode_gc_table = true /\
  foldr (fun rv s => rv.1 + s) 0 (gc_runs unicode_gc_table) = 0x110000.
Proof. by vm_compute. Qed.

(** ** [unicode_general_category1] *)

Lemma shift_bit m v : 0 <= v ->
  (Z.land (Z.shiftr m v) 1 =? 1) = Z.testbit m v.
Proof.
  intros Hv. change 1 with (Z.ones 1) at 1. rewrite land_mod by lia.
  rewrite Z.shiftr_div_pow2 by lia. change (2 ^ 1) with 2.
  rewrite <- Z.testbit_spec' by lia. by destruct (Z.testbit m v).
Qed.

Lemma land_lul m :
  Z.land m (Z.lor (M UNICODE_GC_Lu) (M UNICODE_GC_Ll))
  = Z.b2z (Z.testbit m 1) * 2 + Z.b2z (Z.testbit m 2) * 4 /\
  Z.land m (M UNICODE_GC_Ll) = Z.b2z (Z.testbit m 2) * 4.
Proof.
  change (Z.lor (M UNICODE_GC_Lu) (M UNICODE_GC_Ll)) with 6.
  change (M UNICODE_GC_Ll) with 4.
  rewrite <- !(Z.mod_pow2_bits_low m 3) by lia.
  assert (Hland : forall k, 0 <= k < 8 -> Z.land m k = Z.land (m mod 2 ^ 3) k).
  { intros k Hk. rewrite <- land_mod, <- Z.land_assoc by lia. f_equal.
    rewrite Z.land_comm, land_mod, Z.mod_small by lia. done. }
  rewrite !Hland by lia.
  pose proof (Z.mod_pos_bound m (2 ^ 3) ltac:(lia)) as Hb.
  generalize dependent (m mod 2 ^ 3). intros k _ Hk.
  assert (k = 0 \/ k = 1 \/ k = 2 \/ k = 3 \/ k = 4 \/ k = 5 \/ k = 6 \/ k = 7)
    as Hc by lia.
  by destruct_or! Hc; subst.
Qed.

Lemma alternate_snoc n : forall c,
  alternate c (Datatypes.S n)
  = alternate c n ++ [c + 2 * Z.of_nat n; c + 2 * Z.of_nat n + 1].
Proof.
  induction n as [|n IH]; intros c.
  { simpl. by rewrite Z.add_0_r. }
  change (alternate c (Datatypes.S (Datatypes.S n)))
    with (c :: c + 1 :: alternate (c + 2) (Datatypes.S n)).
  rewrite IH. simpl. do 3 f_equal. f_equal; [lia|]. f_equal. lia.
Qed.

Section gc.
Context {al : Allocator} {al_ok : AllocatorOk al}.

Lemma gc_alternate_spec h cr c0 c :
  cr_wf max_points cr -> 0 <= c0 <= c -> c < 2 ^ 31 ->
  cr_len cr + (c - c0) + 1 <= max_points ->
  wp (loop (Datatypes.S (Z.to_nat (c - c0))) (gc_alternate c) (h, cr, c0))
    (cr_post (fun cr' => cr_wf max_points cr' /\
      pts cr' = pts cr ++ alternate c0 (Z.to_nat ((c - c0 + 1) / 2)) /\
      cr_len cr' <= cr_len cr + (c - c0) + 1)).
Proof.
  intros Hwf Hc Hov Hlen.
  apply (wp_loop (fun '(_, cr', x) => exists k : nat,
      x = c0 + 2 * Z.of_nat k /\ x <= c + 1 /\ cr_wf max_points cr' /\
      pts cr' = pts cr ++ alternate c0 k /\
      cr_len cr' = cr_len cr + 2 * Z.of_nat k)
    (fun '(_, _, x) => Z.to_nat (c - x))).
  - intros [[h' cr'] x] (k & -> & Hx & Hwf' & Hp & Hl). unfold gc_alternate.
    destruct (Z.ltb_spec (c0 + 2 * Z.of_nat k) c) as [Hlt|Hge].
    2: { apply wp_ret. left. split; [done|]. split; [done|]. split; [|lia].
         rewrite Hp. do 2 f_equal. dlia. }
    rewrite !u32_id by lia. apply wp_bind. eapply wp_mono.
    { apply (cr_add_interval_spec max_points max_points_ok); [done|lia]. }
    intros [[h2 cr2] r] [(-> & Hwf2 & Hp2 & Hl2)|[-> Hf]]; apply wp_ret.
    + split; [|simpl; lia]. exists (Datatypes.S k).
      rewrite alternate_snoc, Hp2, Hp, <- app_assoc.
      split_and!; [lia|lia|done|done|lia].
    + by right.
  - exists 0%nat. rewrite app_nil_r. split_and!; [lia|lia|done|done|lia].
  - lia.
Qed.

(** The points of one run: [f] is the membership inside it. *)
Definition run_set (f : Z -> bool) (c r : Z) (l : list Z) : Prop :=
  sorted_le l /\ even_len l /\ (forall q, q ∈ l -> c <= q <= c + r) /\
  (forall x, c <= x < c + r -> f x = mem x l).

Lemma run_set_nil f c r :
  (forall x, c <= x < c + r -> f x = false) -> run_set f c r [].
Proof.
  intros Hf. split_and!; [constructor|by exists 0%nat|intros q Hq; by inv Hq|done].
Qed.

Lemma run_set_all f c r :
  1 <= r -> (forall x, c <= x < c + r -> f x = true) -> run_set f c r [c; c + r].
Proof.
  intros Hr Hf. split_and!.
  - apply sorted_cons. split; [|repeat constructor].
    intros y ->%list_elem_of_singleton. lia.
  - by exists 1%nat.
  - intros q Hq. rewrite elem_of_cons, list_elem_of_singleton in Hq. lia.
  - intros x Hx. rewrite Hf by done. simpl. by repeat (zcase; try lia).
Qed.

(** Evaluates the closed integer tests of the goal. *)
Ltac zconst :=
  repeat match goal with
  | |- context [?a =? ?b] =>
      let v := eval vm_compute in (a =? b) in
      match v with
      | true => change (a =? b) with true
      | false => change (a =? b) with false
      end
  end; cbn [negb Z.b2z].

(** What one turn adds for a run of [r] code points of category [v]. *)
Definition gc_add (h : heap) (cr : CharRange) (gc_mask v c0 c : Z)
  : res (heap * CharRange * Z) :=
  if v =? 31 then
    let lul := Z.lor (M UNICODE_GC_Lu) (M UNICODE_GC_Ll) in
    let b := Z.land gc_mask lul in
    if negb (b =? 0) then
      if b =? lul then cr_add_interval h cr c0 c
      else
        let c0 := u32 (c0 + Z.b2z (negb (Z.land gc_mask
                                           (M UNICODE_GC_Ll) =? 0))) in
        loop (Datatypes.S (Z.to_nat (c - c0))) (gc_alternate c) (h, cr, c0)
    else Ret (h, cr, 0)
  else if Z.land (Z.shiftr gc_mask v) 1 =? 1 then cr_add_interval h cr c0 c
  else Ret (h, cr, 0).

Lemma gc_add_spec h cr mask v c r f :
  cr_wf max_points cr -> 0 <= c -> 1 <= r -> 0 <= v -> c + r < 2 ^ 31 ->
  cr_len cr + 2 * r <= max_points ->
  (forall x, c <= x < c + r -> f x = Z.testbit mask (run_category v (x - c))) ->
  wp (gc_add h cr mask v c (c + r)) (cr_post (fun cr' =>
    cr_wf max_points cr' /\ cr_len cr' <= cr_len cr + 2 * r /\
    exists l, pts cr' = pts cr ++ l /\ run_set f c r l)).
Proof.
  intros Hwf Hc Hr Hv Hov Hlen Hf. unfold gc_add.
  assert (Hadd : (forall x, c <= x < c + r -> f x = true) ->
    wp (cr_add_interval h cr c (c + r)) (cr_post (fun cr' =>
      cr_wf max_points cr' /\ cr_len cr' <= cr_len cr + 2 * r /\
      exists l, pts cr' = pts cr ++ l /\ run_set f c r l))).
  { intros Ht. eapply cr_post_mono.
    - apply (cr_add_interval_spec max_points max_points_ok); [done|lia].
    - intros cr' (? & Hp & ?). split; [done|]. split; [lia|].
      eexists. split; [exact Hp|]. by apply run_set_all. }
  assert (Hnone : (forall x, c <= x < c + r -> f x = false) ->
    wp (Ret (h, cr, 0)) (cr_post (fun cr' =>
      cr_wf max_points cr' /\ cr_len cr' <= cr_len cr + 2 * r /\
      exists l, pts cr' = pts cr ++ l /\ run_set f c r l))).
  { intros Ht. apply wp_ret. left. split; [done|]. split; [done|].
    split; [lia|]. exists []. rewrite app_nil_r. split; [done|].
    by apply run_set_nil. }
  destruct (Z.eqb_spec v 31) as [->|Hne].
  - destruct (land_lul mask) as [-> ->].
    change (Z.lor (M UNICODE_GC_Lu) (M UNICODE_GC_Ll)) with 6.
    change (run_category 31) with (fun k => if Z.even k then 1 else 2) in Hf.
    cbn beta in Hf.
    destruct (Z.testbit mask 1) eqn:E1, (Z.testbit mask 2) eqn:E2;
      cbn [Z.b2z]; zconst.
    + apply Hadd. intros x Hx. rewrite Hf by done. by destruct (Z.even _).
    + rewrite Z.add_0_r, u32_id by lia.
      eapply cr_post_mono; [apply gc_alternate_spec; [done|lia|lia|lia]|].
      intros cr' (Hwf' & Hp & Hl). split; [done|]. split; [lia|].
      eexists. split; [exact Hp|].
      destruct (alternate_spec (Z.to_nat ((c + r - c + 1) / 2)) c)
        as (So & Ev & Bd & Me & _).
      split_and!; [done|done| |].
      * intros q Hq. apply Bd in Hq. dlia.
      * intros x Hx. rewrite Me, Hf by done.
        destruct (Z.even (x - c)); rewrite ?E1, ?E2;
          repeat (zcase; try dlia); done.
    + rewrite u32_id by lia.
      eapply cr_post_mono; [apply gc_alternate_spec; [done|lia|lia|lia]|].
      intros cr' (Hwf' & Hp & Hl). split; [done|]. split; [lia|].
      eexists. split; [exact Hp|].
      destruct (alternate_spec (Z.to_nat ((c + r - (c + 1) + 1) / 2)) (c + 1))
        as (So & Ev & Bd & Me & _).
      split_and!; [done|done| |].
      * intros q Hq. apply Bd in Hq. dlia.
      * intros x Hx. rewrite Me, Hf by done.
        replace (x - (c + 1)) with (x - c - 1) by lia.
        rewrite (Z.even_sub (x - c) 1). change (Z.even 1) with false.
        destruct (Z.eq_dec x c) as [->|].
        { rewrite Z.sub_diag. change (Z.even 0) with true. cbn iota.
          rewrite E1. by destruct (Z.leb_spec (c + 1) c); [lia|]. }
        destruct (Z.even (x - c)) eqn:Ee; rewrite ?E1, ?E2; cbn [Bool.eqb].
        -- by rewrite andb_false_r.
        -- assert (x - c < 2 * ((c + r - (c + 1) + 1) / 2) + 1).
           { assert (Z.odd (x - c) = true) as Ho by
               (rewrite <- Z.negb_even; by rewrite Ee).
             apply Z.odd_spec in Ho as [k Hk]. dlia. }
           repeat (zcase; try lia); done.
    + apply Hnone. intros x Hx. rewrite Hf by done. by destruct (Z.even _).
  - rewrite shift_bit by done.
    assert (Hf' : forall x, c <= x < c + r -> f x = Z.testbit mask v).
    { intros x Hx. rewrite Hf by done. unfold run_category. by zcase. }
    destruct (Z.testbit mask v); [by apply Hadd|by apply Hnone].
Qed.

(** [gc_run] decodes the run length of an item. *)
Lemma gc_run_item T p r v n l' :
  0 <= p -> gc_item (drop (Z.to_nat p) T) r v n l' -> T = unicode_gc_table ->
  exists b, rd unicode_gc_table p = Ret b /\ v = Z.land b 0x1f /\
    gc_run (p + 1) b = Ret (r - 1, p + n).
Proof.
  intros Hp Hi ->. pose proof (rd_drop unicode_gc_table p Hp) as Hrd.
  remember (drop (Z.to_nat p) unicode_gc_table) as l eqn:E. clear E.
  assert (Rd : forall k x, 0 <= k -> l !! Z.to_nat k = Some x ->
            rd unicode_gc_table (p + k) = Ret x).
  { intros k x Hk Hx. rewrite <- (Z2Nat.id k) by done. by apply Hrd. }
  destruct Hi as [b l Hb H7|b m l H7 Hm|b m p0 l H7 Hm|b m p0 p1 l H7 Hm];
    exists b; pose proof (Rd 0 b ltac:(lia) eq_refl) as R0;
    rewrite Z.add_0_r in R0; (split; [done|split; [done|]]); unfold gc_run.
  - destruct (Z.eqb_spec (Z.shiftr b 5) 7); [done|]. do 2 f_equal. lia.
  - rewrite H7. cbn [Z.eqb Pos.eqb]. rewrite (Rd 1 m) by done. cbn [bind].
    zcase; [|lia]. do 2 f_equal; lia.
  - rewrite H7. cbn [Z.eqb Pos.eqb]. rewrite (Rd 1 m) by done. cbn [bind].
    zcase; [lia|]. zcase; [|lia]. replace (p + 1 + 1) with (p + 2) by lia.
    rewrite (Rd 2 p0) by done. cbn [bind]. do 2 f_equal; lia.
  - rewrite H7. cbn [Z.eqb Pos.eqb]. rewrite (Rd 1 m) by done. cbn [bind].
    zcase; [lia|]. zcase; [lia|]. replace (p + 1 + 1) with (p + 2) by lia.
    rewrite (Rd 2 p0) by done. cbn [bind].
    replace (p + 2 + 1) with (p + 3) by lia.
    rewrite (Rd 3 p1) by done. cbn [bind]. do 2 f_equal; lia.
Qed.

Definition gc_sum (rs : list (Z * Z)) : Z := foldr (fun rv s => rv.1 + s) 0 rs.

Definition gc_inv (mask : Z) : heap * CharRange * Z * Z -> Prop :=
  fun '(h, cr, c, p) =>
    let rs := gc_runs (drop (Z.to_nat p) unicode_gc_table) in
    0 <= p <= Z.of_nat (length unicode_gc_table) /\ 0 <= c /\
    cr_wf max_points cr /\ c + gc_sum rs = 0x110000 /\ cr_len cr <= 2 * c /\
    (exists fuel, gc_whole fuel (drop (Z.to_nat p) unicode_gc_table) = true) /\
    set_inv (gc_mem mask) (pts cr) c /\
    (forall x, c <= x -> gc_mem mask x = cat_in mask (category c rs x)).

Lemma gc_sum_nonneg l : Forall byte l -> forall fuel,
  gc_whole fuel l = true -> 0 <= gc_sum (gc_runs l).
Proof.
  remember (length l) as k eqn:E. revert l E.
  induction (lt_wf k) as [k _ IH]. intros l -> Hb fuel Hw.
  destruct (gc_whole_cases fuel l Hb Hw) as [->|(r & v & n & l' & f' & Hi & Hw')];
    [simpl; lia|].
  destruct (gc_item_runs _ _ _ _ _ Hi) as (-> & El & Hn & Hl).
  pose proof (gc_item_bounds _ _ _ _ _ Hi).
  assert (0 <= gc_sum (gc_runs l')).
  { eapply (IH (length l')); [lia|done| |exact Hw'].
    rewrite El. by apply Forall_drop. }
  unfold gc_sum in *. simpl. lia.
Qed.

Lemma gc_step_spec mask s :
  gc_inv mask s ->
  wp (gc_step mask s) (fun x => match x with
    | inl s' => gc_inv mask s' /\ s.2 < s'.2
    | inr x => cr_post (denotes (2 * 0x110000) (gc_mem mask)) x
    end).
Proof.
  destruct s as [[[h cr] c] p].
  intros (Hp & Hc & Hwf & Hsum & Hl & (fuel & Hw) & Hsi & Hab).
  destruct gc_table_ok as (Hbyte%is_byte_Forall & _ & _). unfold gc_step.
  destruct (Z.ltb_spec p (countof unicode_gc_table)) as [Hlt|Hge];
    unfold countof in *.
  2: { rewrite drop_ge in Hsum, Hab by lia. cbn [gc_runs gc_sum foldr] in Hsum.
       apply wp_ret. left. split; [done|]. destruct Hsi as [So Ev Bd Be].
       split; [done|done|done| |lia|].
       - intros q Hq. apply Bd in Hq. unfold UINT32_MAX. lia.
       - intros x Hx. destruct (Z_lt_le_dec x c).
         + symmetry. apply Be. lia.
         + rewrite Hab by done. apply mem_even_above; [done|].
           intros q Hq. apply Bd in Hq. lia. }
  destruct (gc_whole_cases fuel _ (Forall_drop _ _ _ Hbyte) Hw)
    as [Hnil|(r & v & n & l' & fuel' & Hi & Hw')].
  { apply (f_equal length) in Hnil. rewrite length_drop in Hnil.
    cbn [length] in Hnil. lia. }
  destruct (gc_run_item _ _ _ _ _ _ (proj1 Hp) Hi eq_refl) as (b & -> & Ev & Hrun).
  destruct (gc_item_runs _ _ _ _ _ Hi) as (Er & El & Hn & Hlen).
  destruct (gc_item_bounds _ _ _ _ _ Hi) as [Hr Hv].
  rewrite Er in Hsum, Hab. cbn [gc_sum foldr fst] in Hsum.
  assert (0 <= gc_sum (gc_runs l')).
  { eapply gc_sum_nonneg; [|exact Hw']. rewrite El. by do 2 apply Forall_drop. }
  cbn [bind]. rewrite Hrun. cbn [bind]. rewrite <- Ev.
  replace (c + (r - 1 + 1)) with (c + r) by lia.
  rewrite (u32_id (c + r)) by (unfold gc_sum in *; lia).
  apply wp_bind. eapply wp_mono.
  { change (wp ?e ?Q) with (wp (gc_add h cr mask v c (c + r)) Q).
    apply (gc_add_spec h cr mask v c r (gc_mem mask));
      [done|done|lia|done|unfold gc_sum in *; lia| |].
    - unfold max_points, gc_sum in *. lia.
    - intros x Hx. rewrite Hab by lia. cbn [category]. by zcase; [|lia]. }
  intros [[h' cr'] r0] [(-> & Hwf' & Hl' & l & Hpts & So & Evl & Bd & Me)|[-> Hf]];
    apply wp_ret; [|by right].
  split; [|cbn [snd]; lia]. rewrite drop_drop, <- Z2Nat.inj_add in El by lia.
  unfold gc_inv. rewrite <- El.
  assert (Hlen' : p + n <= Z.of_nat (length unicode_gc_table)).
  { rewrite length_drop in Hlen. lia. }
  split; [lia|]. split; [lia|]. split; [done|].
  split; [unfold gc_sum in *; lia|]. split; [lia|]. split; [by exists fuel'|].
  split.
  - rewrite Hpts. eapply set_inv_app; [exact Hsi|lia|done|done|done|done].
  - intros x Hx. rewrite Hab by lia. cbn [category]. by zcase; [lia|].
Qed.

Lemma unicode_general_category1_spec h mask :
  wp (unicode_general_category1 h cr_init mask)
    (cr_post (denotes (2 * 0x110000) (gc_mem mask))).
Proof.
  destruct gc_table_ok as (_ & Hw & Hs).
  apply (wp_loop (gc_inv mask)
    (fun s => Z.to_nat (Z.of_nat (length unicode_gc_table) - s.2))).
  - intros s Hs'. eapply wp_mono; [by apply gc_step_spec|].
    intros [s'|x]; [|done]. intros [Hs2 Hlt]. split; [done|].
    destruct s' as [[[h' cr'] c'] p'], s as [[[h0 cr0] c0] p0].
    destruct Hs2 as [Hp' _], Hs' as [Hp0 _]. cbn [snd] in *. lia.
  - unfold gc_inv. change (drop (Z.to_nat 0) unicode_gc_table)
      with unicode_gc_table.
    split; [lia|]. split; [lia|]. split; [apply cr_init_wf|].
    split; [exact Hs|]. split; [simpl; lia|]. split; [by eexists|].
    split; [apply set_inv_nil|]. intros x Hx. reflexivity.
  - cbn [snd]. lia.
Qed.
End gc.
