(* ===== verification/UnicodeCaseSpec.v ===== *)
(** * Case conversion and the case properties

    [lre_case_conv] looks a code point up in [case_conv_table1] by binary
    search; [unicode_case1] walks the whole table.  The sets that the second
    builds are the code points that the first changes. *)

From stdpp Require Import base tactics numbers list option sorting sets.
From Stdlib Require Import ZArith Lia.
From S2P Require Import Prelude Cutils CharRange CharRangeSpec UnicodeTables.
From S2P Require Import UnicodeCase UnicodeTableSpec UnicodeProp UnicodePropSpec.
From S2P Require Import UnicodeGcSpec.

Open Scope Z_scope.

(** ** The binary search *)

Definition run_before (w v v' : Z) : Prop :=
  run_code w v + run_len w v <= run_code w v'.

Definition in_run (w c v : Z) : Prop :=
  run_code w v <= c < run_code w v + run_len w v.

#[export] Instance run_before_dec w v v' : Decision (run_before w v v').
Proof. unfold run_before. apply _. Defined.

#[export] Instance in_run_dec w c v : Decision (in_run w c v).
Proof. unfold in_run. apply _. Defined.

Lemma run_len_nonneg w v : 0 <= run_len w v.
Proof. apply Z.land_nonneg. right. lia. Qed.

#[export] Instance run_before_trans w : Transitive (run_before w).
Proof.
  intros a b c. unfold run_before. pose proof (run_len_nonneg w b). lia.
Qed.

(** In a table whose runs are in order, the search finds the run that holds
    the code point. *)
Lemma run_search_spec w tab c :
  StronglySorted (run_before w) tab ->
  wp (run_search w tab c) (fun r =>
    match r with
    | Some (idx, v) => 0 <= idx /\ tab !! Z.to_nat idx = Some v /\ in_run w c v
    | None => forall v, v ∈ tab -> ~ in_run w c v
    end).
Proof.
  intros Hso.
  assert (Hord : forall i j x y, (i < j)%nat -> tab !! i = Some x ->
    tab !! j = Some y -> run_before w x y).
  { intros i j x y Hij Hx Hy. rewrite <- (take_drop j tab) in Hso.
    eapply (StronglySorted_app_1_elem_of _ _ _ _ _ Hso).
    - eapply (list_elem_of_lookup_2 _ i). by rewrite lookup_take_lt.
    - eapply (list_elem_of_lookup_2 _ 0). rewrite lookup_drop.
      by replace (j + 0)%nat with j by lia. }
  apply (wp_loop
    (fun '(lo, hi) => 0 <= lo /\ hi < Z.of_nat (length tab) /\
      forall i v, tab !! i = Some v -> in_run w c v -> lo <= Z.of_nat i <= hi)
    (fun '(lo, hi) => Z.to_nat (hi + 1 - lo))).
  - intros [lo hi] (Hlo & Hhi & Hin). unfold run_search_step.
    destruct (Z.leb_spec lo hi) as [Hle|Hgt].
    2: { apply wp_ret. intros v Hv Hc.
         apply list_elem_of_lookup_1 in Hv as [i Hi].
         specialize (Hin i v Hi Hc). lia. }
    assert (lo <= (hi + lo) / 2 <= hi) as Hidx by dlia.
    apply wp_bind, wp_rd; [lia|]. intros v Hv.
    destruct (Z.ltb_spec c (run_code w v)) as [Hlt|Hge].
    { apply wp_ret. split; [|lia]. split; [done|]. split; [lia|].
      intros i x Hx Hc. specialize (Hin i x Hx Hc). split; [lia|].
      destruct (Z_lt_le_dec (Z.of_nat i) ((hi + lo) / 2)); [lia|]. exfalso.
      destruct (decide (i = Z.to_nat ((hi + lo) / 2))) as [->|Hne].
      - rewrite Hv in Hx. injection Hx as <-. destruct Hc. lia.
      - assert (run_before w v x) as Hb by (eapply Hord; [|done..]; lia).
        unfold run_before in Hb. pose proof (run_len_nonneg w v).
        destruct Hc. lia. }
    destruct (Z.leb_spec (run_code w v + run_len w v) c) as [Hle2|Hlt].
    { apply wp_ret. split; [|lia]. split; [lia|]. split; [lia|].
      intros i x Hx Hc. specialize (Hin i x Hx Hc). split; [|lia].
      destruct (Z_lt_le_dec ((hi + lo) / 2) (Z.of_nat i)); [lia|]. exfalso.
      destruct (decide (i = Z.to_nat ((hi + lo) / 2))) as [->|Hne].
      - rewrite Hv in Hx. injection Hx as <-. destruct Hc. lia.
      - assert (run_before w x v) as Hb by (eapply Hord; [|done..]; lia).
        unfold run_before in Hb. destruct Hc. lia. }
    apply wp_ret. split; [lia|]. split; [done|]. split; lia.
  - unfold countof. split; [lia|]. split; [lia|].
    intros i v Hi _. apply lookup_lt_Some in Hi. lia.
  - unfold countof. lia.
Qed.

(** ** The code points that a conversion changes *)

Definition changed (r : res (list Z)) (c : Z) : bool :=
  match r with Ret [c'] => negb (c' =? c) | _ => true end.

(** [mask] selects conversions: bit 0 to upper, bit 1 to lower, bit 2
    folding. *)
Definition case_mem (mask c : Z) : bool :=
  existsb (fun t => Z.testbit mask t && changed (lre_case_conv c t) c) [0; 1; 2].

(** [lre_case_conv] on a code point of the run [v] at [idx]. *)
Definition conv_at (idx v c t : Z) : res (list Z) :=
  if c <? 128 then lre_case_conv c t
  else
    let* t2 := rd case_conv_table2 idx in
    case_conv_run c t (run_code 17 v)
      (Z.land (Z.shiftr v (32 - 17 - 7 - 4)) 0xf)
      (Z.lor (Z.shiftl (Z.land v 0xf) 8) t2).

Definition case_mem_at (idx v mask c : Z) : bool :=
  existsb (fun t => Z.testbit mask t && changed (conv_at idx v c t) c) [0; 1; 2].

(** ** The points of one entry of the table *)

Definition case_run_mask (m : Z) : Z :=
  foldl (fun acc i => if Z.testbit m i
           then Z.lor acc (nth (Z.to_nat i) tab_run_mask 0) else acc)
    0 [0; 1; 2].

Definition entry_points (m v : Z) : list Z :=
  let type := Z.land (Z.shiftr v (32 - 17 - 7 - 4)) 0xf in
  let code := run_code 17 v in
  let len := run_len 17 v in
  let u := negb (Z.land m CASE_U =? 0) in
  let lf := negb (Z.land m (Z.lor CASE_L CASE_F) =? 0) in
  if Z.land (Z.shiftr (case_run_mask m) type) 1 =? 1 then
    if (type =? RUN_TYPE_UL) && negb (u && lf) then
      alternate (code + Z.b2z u) (Z.to_nat ((len + 1) / 2))
    else if (type =? RUN_TYPE_LSU) && negb (u && lf) then
      (if u then [] else [code; code + 1]) ++ [code + 1; code + 2]
      ++ (if u then [code + 2; code + 3] else [])
    else [code; code + len]
  else [].

Fixpoint sortedb (l : list Z) : bool :=
  match l with
  | x :: (y :: _) as l => (x <=? y) && sortedb l
  | _ => true
  end.

Fixpoint interval (c : Z) (n : nat) : list Z :=
  match n with O => [] | Datatypes.S n => c :: interval (c + 1) n end.

Definition masks7 : list Z := [1; 2; 3; 4; 5; 6; 7].

(** One entry against the conversion, for every mask and code point. *)
Definition entry_ok (idx v : Z) : bool :=
  let code := run_code 17 v in
  let len := run_len 17 v in
  forallb (fun m =>
    let l := entry_points m v in
    sortedb l && Nat.even (length l)
    && forallb (fun p => (code <=? p) && (p <=? code + len)) l
    && forallb (fun c => Bool.eqb (mem c l) (case_mem_at idx v m c))
         (interval code (Z.to_nat len))) masks7.

Fixpoint entries_ok (idx : Z) (tab : list Z) : bool :=
  match tab with
  | [] => true
  | v :: tab => entry_ok idx v && entries_ok (idx + 1) tab
  end.

Lemma case_table_sorted :
  StronglySorted (run_before 17) case_conv_table1.
Proof.
  apply Sorted_StronglySorted; [apply _|].
  apply (bool_decide_unpack (Sorted (run_before 17) case_conv_table1)).
  by vm_compute.
Qed.

Lemma case_entries_ok : entries_ok 0 case_conv_table1 = true.
Proof. by vm_compute. Qed.

(** ** The lookup against the table *)

Lemma interval_elem n : forall c x,
  x ∈ interval c n <-> c <= x < c + Z.of_nat n.
Proof.
  induction n as [|n IH]; intros c x; simpl.
  - rewrite elem_of_nil. lia.
  - rewrite elem_of_cons, IH. lia.
Qed.

Lemma forallb_elem {A} (f : A -> bool) l x :
  forallb f l = true -> x ∈ l -> f x = true.
Proof. rewrite forallb_forall, list_elem_of_In. auto. Qed.

Lemma entries_ok_lookup tab : forall idx i v,
  entries_ok idx tab = true -> tab !! i = Some v ->
  entry_ok (idx + Z.of_nat i) v = true.
Proof.
  induction tab as [|w tab IH]; intros idx i v Hok Hi; [done|].
  cbn [entries_ok] in Hok. apply andb_prop in Hok as [Hw Hok].
  destruct i as [|i]; [injection Hi as <-; by rewrite Z.add_0_r|].
  replace (idx + Z.of_nat (Datatypes.S i)) with (idx + 1 + Z.of_nat i) by lia.
  by apply IH.
Qed.

(** Outside every run nothing is changed: the ASCII letters are in runs. *)
Lemma ascii_letters_in_runs :
  forallb (fun c => existsb (fun v => bool_decide (in_run 17 c v)) case_conv_table1)
    (interval 65 26 ++ interval 97 26) = true.
Proof. by vm_compute. Qed.

Lemma case_mem_outside m c :
  0 <= c -> (forall v, v ∈ case_conv_table1 -> ~ in_run 17 c v) ->
  case_mem m c = false.
Proof.
  intros Hc Hout.
  assert (Hsame : forall t, changed (lre_case_conv c t) c = false).
  { intros t. unfold lre_case_conv. destruct (Z.ltb_spec c 128) as [Hlt|Hge].
    - assert (Hno : ~ (65 <= c <= 90) /\ ~ (97 <= c <= 122)).
      { pose proof ascii_letters_in_runs as Hl.
        assert (Hcase : c ∈ interval 65 26 ++ interval 97 26 -> False).
        { intros Hin. eapply forallb_elem in Hl; [|exact Hin].
          apply existsb_exists in Hl as (v & Hv%list_elem_of_In & Hb).
          apply bool_decide_eq_true in Hb. by eapply Hout. }
        rewrite elem_of_app, !interval_elem in Hcase. lia. }
      cbn [changed]. destruct (t =? 0); cbn [negb];
        repeat (zcase; try lia); cbn [andb]; try done; zcase; done || lia.
    - pose proof (run_search_spec 17 _ c case_table_sorted) as Hs.
      apply wp_iff in Hs as (r & -> & Hr). cbn [bind].
      destruct r as [[idx v]|]; [|simpl; by rewrite Z.eqb_refl].
      exfalso. destruct Hr as (_ & Hv & Hin). eapply Hout; [|exact Hin].
      by eapply list_elem_of_lookup_2. }
  unfold case_mem. simpl. rewrite !Hsame. by rewrite !andb_false_r.
Qed.

Lemma run_unique i j x y c :
  case_conv_table1 !! i = Some x -> case_conv_table1 !! j = Some y ->
  in_run 17 c x -> in_run 17 c y -> i = j /\ x = y.
Proof.
  intros Hx Hy Ix Iy.
  assert (Hlt : forall i j x y, (i < j)%nat ->
    case_conv_table1 !! i = Some x -> case_conv_table1 !! j = Some y ->
    in_run 17 c x -> in_run 17 c y -> False).
  { clear. intros i j x y Hij Hx Hy Ix Iy.
    pose proof case_table_sorted as Hso.
    rewrite <- (take_drop j case_conv_table1) in Hso.
    assert (run_before 17 x y) as Hb.
    { eapply (StronglySorted_app_1_elem_of _ _ _ _ _ Hso).
      - eapply (list_elem_of_lookup_2 _ i). by rewrite lookup_take_lt.
      - eapply (list_elem_of_lookup_2 _ 0). rewrite lookup_drop.
        by replace (j + 0)%nat with j by lia. }
    unfold run_before, in_run in *. lia. }
  destruct (lt_eq_lt_dec i j) as [[H| ->]|H].
  - exfalso. by eapply Hlt.
  - split; congruence.
  - exfalso. by eapply (Hlt j i y x).
Qed.

Lemma case_mem_inside m c idx v :
  case_conv_table1 !! idx = Some v -> in_run 17 c v ->
  case_mem m c = case_mem_at (Z.of_nat idx) v m c.
Proof.
  intros Hv Hin.
  assert (Hconv : forall t, lre_case_conv c t = conv_at (Z.of_nat idx) v c t).
  { intros t. unfold conv_at. destruct (Z.ltb_spec c 128) as [|Hge]; [done|].
    unfold lre_case_conv. destruct (Z.ltb_spec c 128); [lia|].
    pose proof (run_search_spec 17 _ c case_table_sorted) as Hs.
    apply wp_iff in Hs as (r & -> & Hr). cbn [bind].
    destruct r as [[i x]|].
    - destruct Hr as (Hi & Hx & Ix).
      destruct (run_unique _ _ _ _ _ Hx Hv Ix Hin) as [Ei ->].
      by rewrite <- Ei, Z2Nat.id by lia.
    - exfalso. eapply Hr; [|exact Hin]. by eapply list_elem_of_lookup_2. }
  unfold case_mem, case_mem_at. simpl. by rewrite !Hconv.
Qed.

Lemma sortedb_spec l : sortedb l = true -> sorted_le l.
Proof.
  intros H. apply Sorted_StronglySorted; [intros x y z; lia|].
  induction l as [|x [|y l] IH]; [constructor|repeat constructor|].
  cbn [sortedb] in H. zb. constructor; [by apply IH|by constructor].
Qed.

(** The points of an entry are the conversion's set inside its run. *)
Lemma entry_points_spec m idx v :
  m ∈ masks7 -> case_conv_table1 !! idx = Some v ->
  run_set (case_mem m) (run_code 17 v) (run_len 17 v) (entry_points m v).
Proof.
  intros Hm Hv. pose proof (entries_ok_lookup _ _ _ _ case_entries_ok Hv) as Hok.
  rewrite Z.add_0_l in Hok. unfold entry_ok in Hok.
  eapply forallb_elem in Hok; [|exact Hm]. cbn beta zeta in Hok.
  apply andb_prop in Hok as [Hok Hmem]. apply andb_prop in Hok as [Hok Hbd].
  apply andb_prop in Hok as [Hso Hev]. split_and!.
  - by apply sortedb_spec.
  - apply odd_even_len. by rewrite <- Nat.negb_even, Hev.
  - intros q Hq. eapply forallb_elem in Hbd; [|exact Hq]. zb. lia.
  - intros x Hx. rewrite (case_mem_inside m x idx v) by done.
    eapply (forallb_elem _ _ x) in Hmem.
    + apply eqb_prop in Hmem. by rewrite Hmem.
    + apply interval_elem. pose proof (run_len_nonneg 17 v). lia.
Qed.

(** ** [unicode_case1] *)

Section case1.
Context {al : Allocator} {al_ok : AllocatorOk al}.

(** A call that appends the points [l]. *)
Definition appends (cr : CharRange) (l : list Z) (cr' : CharRange) : Prop :=
  cr_wf max_points cr' /\ pts cr' = pts cr ++ l /\
  cr_len cr' = cr_len cr + Z.of_nat (length l).

Lemma add_interval_appends h cr c1 c2 :
  cr_wf max_points cr -> cr_len cr + 2 <= max_points ->
  wp (cr_add_interval h cr c1 c2) (cr_post (appends cr [c1; c2])).
Proof.
  intros. eapply cr_post_mono.
  - by apply (cr_add_interval_spec max_points max_points_ok).
  - intros cr' (? & ? & ?). done.
Qed.

Lemma appends_trans cr l1 cr1 l2 cr2 :
  appends cr l1 cr1 -> appends cr1 l2 cr2 -> appends cr (l1 ++ l2) cr2.
Proof.
  intros (_ & E1 & L1) (Hw & E2 & L2). split; [done|].
  rewrite E2, E1, app_assoc. split; [done|]. rewrite length_app. lia.
Qed.

Lemma case1_alternate_spec h cr code len :
  cr_wf max_points cr -> 0 <= len -> cr_len cr + len + 1 <= max_points ->
  wp (loop (Datatypes.S (Z.to_nat len)) (case1_alternate code len) (h, cr, 0))
    (cr_post (appends cr (alternate code (Z.to_nat ((len + 1) / 2))))).
Proof.
  intros Hwf Hlen Hroom.
  apply (wp_loop (fun '(_, cr', i) => exists k : nat,
      i = 2 * Z.of_nat k /\ i <= len + 1 /\ appends cr (alternate code k) cr')
    (fun '(_, _, i) => Z.to_nat (len - i))).
  - intros [[h' cr'] i] (k & -> & Hi & Ha). unfold case1_alternate.
    destruct (Z.ltb_spec (2 * Z.of_nat k) len) as [Hlt|Hge].
    2: { apply wp_ret. left. split; [done|].
         by replace (Z.to_nat ((len + 1) / 2)) with k by dlia. }
    assert (Hl : length (alternate code k) = (2 * k)%nat) by apply alternate_spec.
    destruct (Ha) as (Hwf' & Hp' & Hl').
    apply wp_bind. eapply wp_mono; [apply add_interval_appends; [done|lia]|].
    intros [[h2 cr2] r] [[-> Ha2]|[-> Hf]]; apply wp_ret.
    + split; [|simpl; lia]. exists (Datatypes.S k).
      split; [lia|]. split; [lia|]. rewrite alternate_snoc.
      by eapply appends_trans.
    + by right.
  - exists 0%nat. split; [lia|]. split; [lia|]. split; [done|].
    rewrite app_nil_r. split; [done|simpl; lia].
  - simpl. lia.
Qed.

Lemma cr_ok_spec cr0 l (Q : CharRange -> Prop) e k :
  wp e (cr_post (appends cr0 l)) ->
  (forall h cr, appends cr0 l cr -> wp (k h cr) (cr_post Q)) ->
  wp (cr_ok e (fun h cr => Ret (h, cr, -1)) k) (cr_post Q).
Proof.
  intros He Hk. eapply cr_bind; [exact He|by auto|].
  intros h cr Hc. apply wp_ret. by right.
Qed.

Lemma appends_nil h cr : cr_wf max_points cr ->
  wp (Ret (h, cr, 0)) (cr_post (appends cr [])).
Proof.
  intros. apply wp_ret. left. split; [done|]. split; [done|].
  rewrite app_nil_r. split; [done|simpl; lia].
Qed.

Lemma case1_lsu_spec h cr m code :
  cr_wf max_points cr -> cr_len cr + 6 <= max_points ->
  let u := negb (Z.land m CASE_U =? 0) in
  wp (case1_lsu h cr m code) (cr_post (appends cr
    ((if u then [] else [code; code + 1]) ++ [code + 1; code + 2]
     ++ (if u then [code + 2; code + 3] else [])))).
Proof.
  intros Hwf Hroom u. unfold case1_lsu. fold u.
  apply (cr_ok_spec cr (if u then [] else [code; code + 1])).
  { destruct u; [by apply appends_nil|apply add_interval_appends; [done|lia]]. }
  intros h1 cr1 Ha1. destruct (Ha1) as (Hwf1 & _ & Hl1).
  assert (Z.of_nat (length (if u then [] else [code; code + 1])) <= 2)
    by (destruct u; simpl; lia).
  apply (cr_ok_spec cr1 [code + 1; code + 2]).
  { apply add_interval_appends; [done|lia]. }
  intros h2 cr2 Ha2. destruct (Ha2) as (Hwf2 & _ & Hl2). simpl in Hl2.
  apply (cr_ok_spec cr2 (if u then [code + 2; code + 3] else [])).
  { destruct u; [apply add_interval_appends; [done|lia]|by apply appends_nil]. }
  intros h3 cr3 Ha3. apply wp_ret. left. split; [done|].
  eapply appends_trans; [exact Ha1|].
  eapply appends_trans; [exact Ha2|exact Ha3].
Qed.

Lemma case1_entry_spec h cr m v :
  cr_wf max_points cr -> cr_len cr + 200 <= max_points ->
  wp (case1_entry h cr m (case_run_mask m) v)
    (cr_post (appends cr (entry_points m v))).
Proof.
  intros Hwf Hroom. unfold case1_entry, entry_points.
  assert (Hlen : 0 <= run_len 17 v < 128).
  { unfold run_len. change 0x7f with (Z.ones 7). rewrite land_mod by lia.
    apply Z.mod_pos_bound. lia. }
  destruct (Z.land (Z.shiftr (case_run_mask m) _) 1 =? 1);
    [|by apply appends_nil].
  destruct ((_ =? RUN_TYPE_UL) && _);
    [apply case1_alternate_spec; [done|lia|lia]|].
  destruct ((_ =? RUN_TYPE_LSU) && _); [apply case1_lsu_spec; [done|lia]|].
  apply add_interval_appends; [done|lia].
Qed.

Lemma case_mask_loop m : 0 <= m ->
  for_upto 3 0 (fun i mask =>
    let* t := rd tab_run_mask i in
    Ret (if Z.land (Z.shiftr m i) 1 =? 1 then Z.lor mask t else mask)) 0
  = Ret (case_run_mask m).
Proof.
  intros Hm. unfold case_run_mask. cbn [for_upto foldl].
  change (0 + 1 + 1) with 2. change (0 + 1) with 1.
  rewrite !shift_bit by lia.
  by destruct (Z.testbit m 0), (Z.testbit m 1), (Z.testbit m 2).
Qed.

(** The entries before [idx] have given the set below [e], the end of the
    last one. *)
Definition case1_inv (m : Z) : heap * CharRange * Z -> Prop :=
  fun '(_, cr, idx) => exists e,
    0 <= idx <= countof case_conv_table1 /\ cr_wf max_points cr /\
    cr_len cr <= 200 * idx /\ set_inv (case_mem m) (pts cr) e /\
    0 <= e < 2 ^ 18 /\
    (forall i v, case_conv_table1 !! i = Some v -> Z.of_nat i < idx ->
      run_code 17 v + run_len 17 v <= e) /\
    (forall i v, case_conv_table1 !! i = Some v -> idx <= Z.of_nat i ->
      e <= run_code 17 v).

(** The code points of the runs are below 2 ^ 18. *)
Lemma case_runs_bounded : 
  forallb (fun v => (0 <=? run_code 17 v)
    && (run_code 17 v + run_len 17 v <? 2 ^ 18)
    && forallb (fun m => Nat.ltb (length (entry_points m v)) 200) masks7)
    case_conv_table1 = true.
Proof. by vm_compute. Qed.

(** Between two runs nothing changes. *)
Lemma case_gap m e c :
  0 <= e <= c -> (forall i v, case_conv_table1 !! i = Some v ->
    run_code 17 v + run_len 17 v <= e \/ c <= run_code 17 v) ->
  forall x, e <= x < c -> case_mem m x = false.
Proof.
  intros He Hv x Hx. apply case_mem_outside; [lia|].
  intros v Hin Hr. apply list_elem_of_lookup_1 in Hin as [i Hi].
  specialize (Hv i v Hi). unfold in_run in Hr. lia.
Qed.

Lemma run_order i j x y :
  (i < j)%nat -> case_conv_table1 !! i = Some x ->
  case_conv_table1 !! j = Some y -> run_before 17 x y.
Proof.
  intros Hij Hx Hy. pose proof case_table_sorted as Hso.
  rewrite <- (take_drop j case_conv_table1) in Hso.
  eapply (StronglySorted_app_1_elem_of _ _ _ _ _ Hso).
  - eapply (list_elem_of_lookup_2 _ i). by rewrite lookup_take_lt.
  - eapply (list_elem_of_lookup_2 _ 0). rewrite lookup_drop.
    by replace (j + 0)%nat with j by lia.
Qed.

(** The points of the next entry extend the set to the end of its run. *)
Lemma case1_inv_next m h h' cr cr' idx v :
  m ∈ masks7 -> case1_inv m (h, cr, idx) ->
  case_conv_table1 !! Z.to_nat idx = Some v ->
  appends cr (entry_points m v) cr' -> case1_inv m (h', cr', idx + 1).
Proof.
  intros Hm (e & Hidx & Hwf & Hl & Hsi & He & Hlo & Hhi) Hv (Hwf' & Hp & Hl').
  destruct (entry_points_spec m _ v Hm Hv) as (So & Ev & Bd & Me).
  pose proof (run_len_nonneg 17 v) as Hrl.
  pose proof (Hhi _ v Hv ltac:(lia)) as Hev.
  pose proof (forallb_elem _ _ v case_runs_bounded
                (list_elem_of_lookup_2 _ _ _ Hv)) as Hb.
  cbn beta in Hb. apply andb_prop in Hb as [Hb Hn].
  eapply forallb_elem in Hn; [|exact Hm]. apply Nat.ltb_lt in Hn. zb.
  pose proof (lookup_lt_Some _ _ _ Hv) as Hlt.
  exists (run_code 17 v + run_len 17 v). unfold countof in *.
  split; [lia|]. split; [done|]. split; [lia|]. split; [|split; [lia|split]].
  - rewrite Hp. apply (set_inv_app _ _ _ e); [done|lia|done|done| |].
    + intros q Hq. apply Bd in Hq. lia.
    + intros x Hx. destruct (Z_lt_le_dec x (run_code 17 v)) as [Hx'|Hx'].
      * rewrite mem_below by (intros q Hq; apply Bd in Hq; lia).
        apply (case_gap m e (run_code 17 v)); [lia| |lia].
        intros i w Hw. destruct (Z_lt_le_dec (Z.of_nat i) idx) as [Hi|Hi].
        -- left. by eapply Hlo.
        -- right. destruct (decide (i = Z.to_nat idx)) as [->|Hne].
           ++ rewrite Hv in Hw. injection Hw as <-. lia.
           ++ assert (run_before 17 v w) as Hbw
                by (eapply (run_order (Z.to_nat idx) i); [lia|done..]).
              unfold run_before in Hbw. lia.
      * apply Me. lia.
  - intros i w Hw Hi. destruct (decide (i = Z.to_nat idx)) as [->|Hne].
    + rewrite Hv in Hw. injection Hw as <-. lia.
    + specialize (Hlo i w Hw ltac:(lia)). lia.
  - intros i w Hw Hi.
    assert (run_before 17 v w) as Hbw
      by (eapply (run_order (Z.to_nat idx) i); [lia|done..]).
    unfold run_before in Hbw. lia.
Qed.

Lemma unicode_case1_spec h m :
  1 <= m <= 7 ->
  wp (unicode_case1 h cr_init m) (cr_post (denotes 100000 (case_mem m))).
Proof.
  intros Hm. unfold unicode_case1. destruct (Z.eqb_spec m 0); [lia|].
  rewrite case_mask_loop by lia. cbn [bind].
  assert (Hm7 : m ∈ masks7).
  { unfold masks7. rewrite !elem_of_cons, elem_of_nil. lia. }
  apply (wp_loop (case1_inv m)
    (fun s => Z.to_nat (countof case_conv_table1 - s.2))).
  - intros [[h' cr] idx] Hinv.
    destruct (Hinv) as (e & Hidx & Hwf & Hl & Hsi & He & Hlo & Hhi).
    assert (countof case_conv_table1 = 361) as Hcount by done.
    destruct (Z.ltb_spec idx (countof case_conv_table1)) as [Hlt|Hge].
    + unfold countof in *. apply wp_bind, wp_rd; [lia|]. intros v Hv.
      apply wp_bind. eapply wp_mono.
      { apply case1_entry_spec; [done|]. unfold max_points. lia. }
      intros [[h2 cr2] r] [[-> Ha]|[-> Hf]]; apply wp_ret; [|by right].
      split; [by eapply case1_inv_next|]. cbn [snd]. lia.
    + apply wp_ret. left. split; [done|]. destruct Hsi as [So Ev Bd Be].
      split; [done|done|done| |lia|].
      * intros q Hq. apply Bd in Hq. unfold UINT32_MAX. lia.
      * intros x Hx. destruct (Z_lt_le_dec x e) as [Hxe|Hxe].
        { symmetry. apply Be. lia. }
        rewrite mem_even_above; [|done|intros q Hq; apply Bd in Hq; lia].
        symmetry. apply (case_gap m e (x + 1)); [lia| |lia].
        intros i v Hv. left. eapply Hlo; [exact Hv|].
        apply lookup_lt_Some in Hv. unfold countof in *. lia.
  - exists 0. split; [unfold countof; lia|]. split; [apply cr_init_wf|].
    split; [simpl; lia|]. split; [apply set_inv_nil|]. split; [lia|]. split.
    + intros i v _ Hi. lia.
    + intros i v Hv _. pose proof (forallb_elem _ _ v case_runs_bounded
        (list_elem_of_lookup_2 _ _ _ Hv)) as Hb. cbn beta in Hb. zb. lia.
  - cbn [snd]. unfold countof. lia.
Qed.
End case1.
