(* ===== verification/UnicodeOpsSpec.v ===== *)
(** * Property expressions and identifier characters

    The programs of [unicode_prop_ops] are given a meaning as Boolean
    combinations of sets of code points ([prop_eval]); the stack machine of
    the C code implements it.  On top of it: the derived properties of
    [unicode_prop], and the agreement of the predicates [lre_is_id_start] and
    [lre_is_id_continue] with the ranges of the properties of that name. *)

From Stdlib Require Import String.
From stdpp Require Import base tactics numbers list option sorting sets.
From Stdlib Require Import ZArith Lia.
From S2P Require Import Prelude Cutils CharRange CharRangeSpec UnicodeTables.
From S2P Require Import UnicodeCase UnicodeTableSpec UnicodeProp UnicodePropSpec.
From S2P Require Import UnicodeGcSpec UnicodeCaseSpec.

Open Scope Z_scope.

(** ** The meaning of a program *)

(** The set of a property that has a table. *)
Definition prop_mem (p : UnicodePropertyEnum) : option (Z -> bool) :=
  table_mem <$> unicode_prop_table !! Z.to_nat (UnicodePropertyEnum_Z p).

Definition binary_set (op : CharRangeOpEnum) (f g : Z -> bool) (c : Z) : bool :=
  op_bool op (f c) (g c).

(** One operation on a stack of sets, the top first; [None] when the C code
    would fail an assertion or has no table. *)
Definition prop_step (op : PropOPEnum) (stack : list (Z -> bool))
  : option (list (Z -> bool)) :=
  let push f := if Z.of_nat (length stack) <? POP_STACK_LEN_MAX
                then Some (f :: stack) else None in
  let binary op :=
    match stack with
    | g :: f :: rest => if Z.of_nat (length stack) <? POP_STACK_LEN_MAX
                        then Some (binary_set op f g :: rest) else None
    | _ => None
    end in
  match op with
  | POP_GC a => push (gc_mem a)
  | POP_PROP p => f ← prop_mem p; push f
  | POP_CASE a => if (1 <=? a) && (a <=? 7) then push (case_mem a) else None
  | POP_UNION => binary CR_OP_UNION
  | POP_INTER => binary CR_OP_INTER
  | POP_XOR => binary CR_OP_XOR
  | POP_INVERT =>
      match stack with
      | f :: rest => Some ((fun c => negb (f c)) :: rest)
      | [] => None
      end
  | POP_END => None
  end.

Fixpoint prop_eval (ops : list PropOPEnum) (stack : list (Z -> bool))
  : option (Z -> bool) :=
  match ops with
  | [] => None
  | POP_END :: _ => match stack with [f] => Some f | _ => None end
  | op :: ops => stack ← prop_step op stack; prop_eval ops stack
  end.

(** ** The stack of ranges implements the stack of sets *)

(** A generated set has at most this many points. *)
Definition gen_points : Z := 2 * 0x110000.

(** The ranges denote the sets, with [N] points in all. *)
Inductive stack_ok : Z -> list CharRange -> list (Z -> bool) -> Prop :=
  | stack_nil : stack_ok 0 [] []
  | stack_cons n N cr f crs fs :
      0 <= n -> denotes n f cr -> stack_ok N crs fs ->
      stack_ok (n + N) (cr :: crs) (f :: fs).

Lemma stack_ok_nonneg N crs fs : stack_ok N crs fs -> 0 <= N.
Proof. induction 1; lia. Qed.

Lemma stack_ok_length N crs fs : stack_ok N crs fs -> length crs = length fs.
Proof. induction 1; simpl; congruence. Qed.

Lemma denotes_weaken n n' f cr : denotes n f cr -> n <= n' -> denotes n' f cr.
Proof. intros [] Hn. split; auto. lia. Qed.

Lemma denotes_range_ok n f cr : denotes n f cr -> range_ok max_points cr.
Proof. intros []. by split_and!. Qed.

Section machine.
Context {al : Allocator} {al_ok : AllocatorOk al}.

(** What one turn of the machine does, against [prop_step]. *)
Definition step_ok (N : Z) (ops : list PropOPEnum) (fs : list (Z -> bool))
    (r : heap * list CharRange * list PropOPEnum + heap * option CharRange)
  : Prop :=
  match r with
  | inl (_, crs', ops') => ops' = ops /\
      exists N', N' <= N + gen_points /\ stack_ok N' crs' fs
  | inr (_, top) => top = None /\ can_fail al
  end.

Lemma push_spec h N crs fs f n ops
    (gen : heap -> CharRange -> res (heap * CharRange * Z)) :
  stack_ok N crs fs -> 0 <= n <= gen_points ->
  Z.of_nat (length fs) < POP_STACK_LEN_MAX ->
  wp (gen h cr_init) (cr_post (denotes n f)) ->
  wp (let* _ := c_assert (Z.of_nat (length crs) <? POP_STACK_LEN_MAX) in
      let* (h, cr, r) := gen h cr_init in
      if negb (r =? 0) then Ret (inr (pop_fail h (cr :: crs), None))
      else Ret (inl (h, cr :: crs, ops))) (step_ok N ops (f :: fs)).
Proof.
  intros Hst Hn Hlen Hgen. rewrite (stack_ok_length _ _ _ Hst).
  apply wp_bind, wp_assert; [by apply Z.ltb_lt|].
  apply wp_bind. eapply wp_mono; [exact Hgen|].
  intros [[h' cr] r] [[-> Hd]|[-> Hf]]; apply wp_ret; simpl; [|done].
  split; [done|]. exists (n + N). split; [lia|]. by constructor; [lia|..].
Qed.

(** [cr_op] on two ranges that denote sets. *)
Lemma binary_range_spec h op n1 n2 f g cr1 cr2 :
  denotes n1 f cr1 -> denotes n2 g cr2 -> n1 + n2 <= max_points ->
  wp (cr_op h cr_init (cr_points cr1) (cr_len cr1) (cr_points cr2)
        (cr_len cr2) op) (cr_post (denotes (n1 + n2) (binary_set op f g))).
Proof.
  intros [W1 E1 S1 P1 L1 M1] [W2 E2 S2 P2 L2 M2] Hmax.
  pose proof (pts_length _ _ W1) as Q1. pose proof (pts_length _ _ W2) as Q2.
  rewrite (pts_block max_points cr1), (pts_block max_points cr2), <- Q1, <- Q2
    by done.
  eapply cr_post_mono.
  { apply (cr_op_spec max_points max_points_ok); try done. lens. }
  intros cr3 (W3 & S3 & Hset & E3 & Hin & Hlen).
  split; [done|done|by apply sorted_lt_le| | |].
  - intros p [Hp|Hp]%Hin%elem_of_app; auto.
  - rewrite <- (pts_length _ _ W3). lens.
  - intros x Hx. unfold binary_set. by rewrite Hset, M1, M2.
Qed.

Lemma binary_spec h N op crs f g fs ops :
  stack_ok N crs (g :: f :: fs) -> N <= max_points ->
  Z.of_nat (length (g :: f :: fs)) < POP_STACK_LEN_MAX ->
  wp (let* _ := c_assert (2 <=? Z.of_nat (length crs)) in
      let* _ := c_assert (Z.of_nat (length crs) <? POP_STACK_LEN_MAX) in
      match crs with
      | cr2 :: cr1 :: rest =>
          let* (h, cr3, r) := cr_op h cr_init (cr_points cr1) (cr_len cr1)
            (cr_points cr2) (cr_len cr2) op in
          if negb (r =? 0) then Ret (inr (pop_fail h (cr3 :: crs), None))
          else Ret (inl (cr_free (cr_free h cr1) cr2, cr3 :: rest, ops))
      | _ => Ub
      end) (step_ok N ops (binary_set op f g :: fs)).
Proof.
  intros Hst Hmax Hlen. rewrite (stack_ok_length _ _ _ Hst).
  apply wp_bind, wp_assert; [apply Z.leb_le; simpl; lia|].
  apply wp_bind, wp_assert; [by apply Z.ltb_lt|].
  inversion Hst as [|n2 N2 cr2 g' crs2 fs2 Hn2 Hd2 Hst2]; subst.
  inversion Hst2 as [|n1 N1 cr1 f' crs1 fs1 Hn1 Hd1 Hst1]; subst.
  pose proof (stack_ok_nonneg _ _ _ Hst1).
  apply wp_bind. eapply wp_mono; 
    [eapply binary_range_spec; [exact Hd1|exact Hd2|lia]|].
  intros [[h' cr3] r] [[-> Hd]|[-> Hf]]; apply wp_ret; simpl; [|done].
  split; [done|]. exists (n1 + n2 + N1). unfold gen_points.
  split; [lia|]. by constructor; [lia|..].
Qed.

Lemma invert_spec h N crs f fs ops :
  stack_ok N crs (f :: fs) -> N + 2 <= max_points ->
  wp (let* _ := c_assert (1 <=? Z.of_nat (length crs)) in
      match crs with
      | cr :: rest =>
          let* (h, cr, r) := cr_invert h cr in
          if negb (r =? 0) then Ret (inr (pop_fail h (cr :: rest), None))
          else Ret (inl (h, cr :: rest, ops))
      | [] => Ub
      end) (step_ok N ops ((fun c => negb (f c)) :: fs)).
Proof.
  intros Hst Hmax. rewrite (stack_ok_length _ _ _ Hst).
  apply wp_bind, wp_assert; [apply Z.leb_le; simpl; lia|].
  inversion Hst as [|n N' cr f' crs' fs' Hn Hd Hst']; subst.
  pose proof (stack_ok_nonneg _ _ _ Hst').
  pose proof (denotes_range_ok _ _ _ Hd) as Hok. destruct Hd as [_ _ _ P L Hm].
  apply wp_bind. eapply wp_mono.
  { apply (cr_invert_spec max_points max_points_ok); [done|lia|done]. }
  intros [[h' cr3] r] [[-> Hd]|[-> Hf]]; apply wp_ret; simpl; [|done].
  destruct Hd as ((W3 & E3 & S3) & _ & M3 & L3 & P3).
  split; [done|]. exists (n + 2 + N'). unfold gen_points.
  split; [lia|]. constructor; [lia| |done]. split; [done..| |].
  - lia.
  - intros x Hx. by rewrite M3, Hm.
Qed.

Lemma prop_gen_spec h p f :
  prop_mem p = Some f ->
  wp (unicode_prop1 h cr_init (UnicodePropertyEnum_Z p))
    (cr_post (denotes gen_points f)).
Proof.
  unfold prop_mem. intros (T & HT & ->)%fmap_Some. eapply cr_post_mono.
  - eapply unicode_prop1_spec; [by destruct p|exact HT].
  - intros cr Hd. eapply denotes_weaken; [exact Hd|done].
Qed.

Lemma pop_step_spec h N crs fs fs' op ops :
  op <> POP_END -> stack_ok N crs fs -> prop_step op fs = Some fs' ->
  N + 2 <= max_points ->
  wp (pop_step (h, crs, op :: ops)) (step_ok N ops fs').
Proof.
  intros Hop Hst Hstep Hmax. unfold prop_step in Hstep.
  assert (0 <= gen_points <= gen_points) as Hgen by (unfold gen_points; lia).
  destruct op; cbn [pop_step].
  1-3: try (apply bind_Some in Hstep as (f & Hf & Hstep));
    try (destruct (_ && _) eqn:Ha; [|done]);
    destruct (Z.ltb_spec (Z.of_nat (length fs)) POP_STACK_LEN_MAX); [|done];
    injection Hstep as <-.
  - apply (push_spec _ _ _ _ _ gen_points _
             (fun h cr => unicode_general_category1 h cr a)); [exact Hst|exact Hgen|done|].
    apply unicode_general_category1_spec.
  - apply (push_spec _ _ _ _ _ gen_points _
      (fun h cr => unicode_prop1 h cr (UnicodePropertyEnum_Z a))); [exact Hst|exact Hgen|done|].
    apply prop_gen_spec, Hf.
  - apply (push_spec _ _ _ _ _ gen_points _
             (fun h cr => unicode_case1 h cr a)); [exact Hst|exact Hgen|done|].
    zb. eapply cr_post_mono; [apply unicode_case1_spec; lia|].
    intros cr Hd. eapply denotes_weaken; [exact Hd|done].
  - destruct fs as [|g [|f fs]]; [done..|].
    destruct (Z.ltb_spec (Z.of_nat (length (g :: f :: fs))) POP_STACK_LEN_MAX);
      [|done]. injection Hstep as <-. apply binary_spec; [done|lia|done].
  - destruct fs as [|g [|f fs]]; [done..|].
    destruct (Z.ltb_spec (Z.of_nat (length (g :: f :: fs))) POP_STACK_LEN_MAX);
      [|done]. injection Hstep as <-. apply binary_spec; [done|lia|done].
  - destruct fs as [|g [|f fs]]; [done..|].
    destruct (Z.ltb_spec (Z.of_nat (length (g :: f :: fs))) POP_STACK_LEN_MAX);
      [|done]. injection Hstep as <-. apply binary_spec; [done|lia|done].
  - destruct fs as [|f fs]; [done|]. injection Hstep as <-.
    by apply invert_spec.
  - done.
Qed.

(** A program of a hundred operations stays below [max_points]. *)
Definition max_ops : Z := 100.

(** The machine from any stack. *)
Lemma pop_loop_spec f ops : forall h N crs fs fuel,
  stack_ok N crs fs -> prop_eval ops fs = Some f ->
  N + (gen_points + 2) * Z.of_nat (length ops) <= max_points ->
  (length ops < fuel)%nat ->
  wp (loop fuel pop_step (h, crs, ops)) (fun '(_, top) =>
    match top with
    | Some cr => denotes max_points f cr
    | None => can_fail al
    end).
Proof.
  assert (gen_points + 2 = 2228226) as Hgp by done.
  induction ops as [|op ops IH]; intros h N crs fs fuel Hst Hev Hmax Hfuel;
    [done|].
  destruct fuel as [|fuel]; [simpl in Hfuel; lia|]. cbn [loop].
  assert (Hcase : op = POP_END \/ op <> POP_END)
    by (destruct op; by (left + right)).
  destruct Hcase as [->|Hop].
  - cbn [prop_eval] in Hev. destruct fs as [|f0 [|]]; [done| |done].
    injection Hev as ->. inversion Hst as [|n N' cr f' crs' fs' Hn Hd Hst'].
    subst. inversion Hst'; subst. cbn. eapply denotes_weaken; [exact Hd|].
    cbn [length] in Hmax. lia.
  - assert (Hev' : exists fs', prop_step op fs = Some fs' /\
      prop_eval ops fs' = Some f).
    { cbn [prop_eval] in Hev. by destruct op; try apply bind_Some in Hev. }
    destruct Hev' as (fs' & Hstep & Hev').
    apply wp_bind. eapply wp_mono.
    { eapply (pop_step_spec h N crs fs fs'); [done..|].
      cbn [length] in Hmax. lia. }
    intros [[[h' crs'] ops']|[h' top]].
    + intros [-> (N' & HN & Hst')]. eapply IH; [exact Hst'|done| |].
      * cbn [length] in Hmax. lia.
      * simpl in Hfuel. lia.
    + by intros [-> Hf].
Qed.

(** The range that a property function leaves in [cr]. *)
Definition is_set (f : Z -> bool) (cr : CharRange) : Prop :=
  range_ok max_points cr /\
  forall c, 0 <= c < UINT32_MAX -> mem c (pts cr) = f c.

Lemma denotes_is_set n f cr : denotes n f cr -> is_set f cr.
Proof.
  intros Hd. split; [by eapply denotes_range_ok|]. apply Hd.
Qed.

(** A range only has to be well formed to be copied to. *)
Lemma unicode_prop_ops_spec h cr ops f :
  prop_eval ops [] = Some f -> Z.of_nat (length ops) <= max_ops ->
  cr_wf max_points cr ->
  wp (unicode_prop_ops h cr ops) (cr_post (is_set f)).
Proof.
  intros Hev Hlen Hwf. unfold unicode_prop_ops. apply wp_bind.
  eapply wp_mono.
  { eapply (pop_loop_spec f ops h 0 [] []); [constructor|done| |lia].
    unfold max_ops in Hlen.
    assert (gen_points + 2 = 2228226) as -> by done. unfold max_points. lia. }
  intros [h' [top|]].
  - intros [W E S P L Hm]. apply wp_bind. eapply wp_mono.
    { by apply (cr_copy_spec max_points max_points_ok). }
    intros [[h2 cr2] r] [[-> [W2 P2]]|[-> Hf]]; apply wp_ret; [left|by right].
    split; [done|]. unfold is_set, range_ok. rewrite P2. by split_and!.
  - intros Hf. apply wp_ret. by right.
Qed.
End machine.

(** ** Disjoint tables *)

(** The two sequences of runs have no common code point; a linear merge. *)
Fixpoint runs_disjoint (fuel : nat) (bit1 : bool) (rs1 : list Z)
    (bit2 : bool) (rs2 : list Z) : bool :=
  match fuel, rs1, rs2 with
  | Datatypes.S fuel, r1 :: t1, r2 :: t2 =>
      negb (bit1 && bit2) &&
      (if r1 <? r2 then runs_disjoint fuel (negb bit1) t1 bit2 (r2 - r1 :: t2)
       else if r2 <? r1
       then runs_disjoint fuel bit1 (r1 - r2 :: t1) (negb bit2) t2
       else runs_disjoint fuel (negb bit1) t1 (negb bit2) t2)
  | O, _, _ => false
  | _, _, _ => true
  end.

Lemma runs_disjoint_spec fuel : forall bit1 rs1 bit2 rs2 code c,
  runs_disjoint fuel bit1 rs1 bit2 rs2 = true ->
  in_runs code bit1 rs1 c && in_runs code bit2 rs2 c = false.
Proof.
  induction fuel as [|fuel IH]; intros bit1 rs1 bit2 rs2 code c Hd; [done|].
  destruct rs1 as [|r1 t1]; [done|].
  destruct rs2 as [|r2 t2]; [by rewrite andb_false_r|].
  cbn [runs_disjoint] in Hd. apply andb_prop in Hd as [Hb Hd].
  assert (bit1 && bit2 = false) as Hb' by (by destruct (bit1 && bit2)).
  destruct (Z.ltb_spec r1 r2); [|destruct (Z.ltb_spec r2 r1)];
    apply (IH _ _ _ _ (code + Z.min r1 r2) c) in Hd; cbn [in_runs] in *.
  - replace (code + Z.min r1 r2) with (code + r1) in Hd by lia.
    replace (code + r1 + (r2 - r1)) with (code + r2) in Hd by lia.
    destruct (Z.ltb_spec c (code + r1)); [|exact Hd].
    destruct (Z.ltb_spec c (code + r2)); [done|lia].
  - replace (code + Z.min r1 r2) with (code + r2) in Hd by lia.
    replace (code + r2 + (r1 - r2)) with (code + r1) in Hd by lia.
    destruct (Z.ltb_spec c (code + r2)); [|exact Hd].
    destruct (Z.ltb_spec c (code + r1)); [done|lia].
  - assert (r1 = r2) as -> by lia.
    replace (code + Z.min r2 r2) with (code + r2) in Hd by lia.
    by destruct (Z.ltb_spec c (code + r2)).
Qed.

Definition tables_disjoint (T1 T2 : list Z) : bool :=
  let rs1 := tab_runs T1 in let rs2 := tab_runs T2 in
  runs_disjoint (Datatypes.S (length rs1 + length rs2)) false rs1 false rs2.

Lemma id_tables_disjoint :
  tables_disjoint unicode_prop_ID_Start_table
    unicode_prop_ID_Continue1_table = true.
Proof. by vm_compute. Qed.

Lemma tables_disjoint_xor T1 T2 c :
  tables_disjoint T1 T2 = true ->
  xorb (table_mem T1 c) (table_mem T2 c) = table_mem T1 c || table_mem T2 c.
Proof.
  intros H. pose proof (runs_disjoint_spec _ _ _ _ _ 0 c H) as Hd.
  unfold table_mem in *. by destruct (in_runs _ _ _ _), (in_runs _ _ _ _).
Qed.

(** ** The sets of the properties *)

Definition in_prop (p : UnicodePropertyEnum) (c : Z) : bool :=
  match prop_mem p with Some f => f c | None => false end.

Definition in_gc (l : list UnicodeGCEnum) (c : Z) : bool := gc_mem (masks l) c.

(** The letters and letter numbers that start an identifier. *)
Definition letter (c : Z) : bool :=
  in_gc [UNICODE_GC_Lu; UNICODE_GC_Ll; UNICODE_GC_Lt; UNICODE_GC_Lm;
         UNICODE_GC_Lo; UNICODE_GC_Nl] c.

Definition pattern_char (c : Z) : bool :=
  in_prop UNICODE_PROP_Pattern_Syntax c
  || in_prop UNICODE_PROP_Pattern_White_Space c.

(** What each property name stands for: the derivations of the Unicode
    character database, over the tables and the general categories. *)
Definition property_set (p : UnicodePropertyEnum) (c : Z) : bool :=
  match p with
  | UNICODE_PROP_ASCII => (0 <=? c) && (c <? 128)
  | UNICODE_PROP_Any => (0 <=? c) && (c <=? 0x10ffff)
  | UNICODE_PROP_Assigned => negb (in_gc [UNICODE_GC_Cn] c)
  | UNICODE_PROP_Math =>
      in_gc [UNICODE_GC_Sm] c || in_prop UNICODE_PROP_Other_Math c
  | UNICODE_PROP_Lowercase =>
      in_gc [UNICODE_GC_Ll] c || in_prop UNICODE_PROP_Other_Lowercase c
  | UNICODE_PROP_Uppercase =>
      in_gc [UNICODE_GC_Lu] c || in_prop UNICODE_PROP_Other_Uppercase c
  | UNICODE_PROP_Cased =>
      in_gc [UNICODE_GC_Lu; UNICODE_GC_Ll; UNICODE_GC_Lt] c
      || in_prop UNICODE_PROP_Other_Uppercase c
      || in_prop UNICODE_PROP_Other_Lowercase c
  | UNICODE_PROP_Alphabetic =>
      letter c || in_prop UNICODE_PROP_Other_Uppercase c
      || in_prop UNICODE_PROP_Other_Lowercase c
      || in_prop UNICODE_PROP_Other_Alphabetic c
  | UNICODE_PROP_Grapheme_Extend =>
      in_gc [UNICODE_GC_Me; UNICODE_GC_Mn] c
      || in_prop UNICODE_PROP_Other_Grapheme_Extend c
  | UNICODE_PROP_Grapheme_Base =>
      negb (in_gc [UNICODE_GC_Cc; UNICODE_GC_Cf; UNICODE_GC_Cs; UNICODE_GC_Co;
                   UNICODE_GC_Cn; UNICODE_GC_Zl; UNICODE_GC_Zp; UNICODE_GC_Me;
                   UNICODE_GC_Mn] c
            || in_prop UNICODE_PROP_Other_Grapheme_Extend c)
  | UNICODE_PROP_XID_Start =>
      (letter c || in_prop UNICODE_PROP_Other_ID_Start c)
      && negb (pattern_char c || in_prop UNICODE_PROP_XID_Start1 c)
  | UNICODE_PROP_XID_Continue =>
      (in_gc [UNICODE_GC_Lu; UNICODE_GC_Ll; UNICODE_GC_Lt; UNICODE_GC_Lm;
              UNICODE_GC_Lo; UNICODE_GC_Nl; UNICODE_GC_Mn; UNICODE_GC_Mc;
              UNICODE_GC_Nd; UNICODE_GC_Pc] c
       || in_prop UNICODE_PROP_Other_ID_Start c
       || in_prop UNICODE_PROP_Other_ID_Continue c)
      && negb (pattern_char c || in_prop UNICODE_PROP_XID_Continue1 c)
  | UNICODE_PROP_ID_Continue =>
      in_prop UNICODE_PROP_ID_Start c || in_prop UNICODE_PROP_ID_Continue1 c
  | UNICODE_PROP_Changes_When_Uppercased => changed (lre_case_conv c 0) c
  | UNICODE_PROP_Changes_When_Lowercased => changed (lre_case_conv c 1) c
  | UNICODE_PROP_Changes_When_Casemapped =>
      changed (lre_case_conv c 0) c || changed (lre_case_conv c 1) c
      || changed (lre_case_conv c 2) c
  | UNICODE_PROP_Changes_When_Titlecased =>
      xorb (changed (lre_case_conv c 0) c)
        (in_prop UNICODE_PROP_Changes_When_Titlecased1 c)
  | UNICODE_PROP_Changes_When_Casefolded =>
      xorb (changed (lre_case_conv c 2) c)
        (in_prop UNICODE_PROP_Changes_When_Casefolded1 c)
  | UNICODE_PROP_Changes_When_NFKC_Casefolded =>
      xorb (changed (lre_case_conv c 2) c)
        (in_prop UNICODE_PROP_Changes_When_NFKC_Casefolded1 c)
  | _ => in_prop p c
  end.

(** The masks that select one conversion, or all of them. *)
Lemma case_mem_masks c :
  case_mem CASE_U c = changed (lre_case_conv c 0) c /\
  case_mem CASE_L c = changed (lre_case_conv c 1) c /\
  case_mem CASE_F c = changed (lre_case_conv c 2) c /\
  case_mem 7 c = changed (lre_case_conv c 0) c || changed (lre_case_conv c 1) c
                 || changed (lre_case_conv c 2) c.
Proof.
  unfold case_mem. cbn [existsb].
  change (Z.testbit CASE_U 0) with true. change (Z.testbit CASE_U 1) with false.
  change (Z.testbit CASE_U 2) with false. change (Z.testbit CASE_L 0) with false.
  change (Z.testbit CASE_L 1) with true. change (Z.testbit CASE_L 2) with false.
  change (Z.testbit CASE_F 0) with false. change (Z.testbit CASE_F 1) with false.
  change (Z.testbit CASE_F 2) with true. change (Z.testbit 7 0) with true.
  change (Z.testbit 7 1) with true. change (Z.testbit 7 2) with true.
  destruct (changed (lre_case_conv c 0) c), (changed (lre_case_conv c 1) c),
    (changed (lre_case_conv c 2) c); done.
Qed.

Lemma prop_mem_None p :
  prop_mem p = None -> Z.of_nat (length unicode_prop_table) <= UnicodePropertyEnum_Z p.
Proof.
  unfold prop_mem. intros H%fmap_None%lookup_ge_None.
  assert (0 <= UnicodePropertyEnum_Z p) by by destruct p. lia.
Qed.

(** Names the sets of the tables of a goal. *)
Ltac name_props :=
  unfold in_prop;
  repeat match goal with
  | |- context [prop_mem ?q] =>
      destruct (prop_mem q) as [?f|] eqn:?;
      [|exfalso; match goal with H : prop_mem _ = None |- _ =>
          apply prop_mem_None in H; by vm_compute in H end]
  end.

Lemma id_continue_xor c f g :
  prop_mem UNICODE_PROP_ID_Start = Some f ->
  prop_mem UNICODE_PROP_ID_Continue1 = Some g ->
  xorb (f c) (g c) = f c || g c.
Proof.
  change (Some (table_mem unicode_prop_ID_Start_table) = Some f ->
    Some (table_mem unicode_prop_ID_Continue1_table) = Some g ->
    xorb (f c) (g c) = f c || g c).
  intros [= <-] [= <-]. apply tables_disjoint_xor, id_tables_disjoint.
Qed.

(** Each program means the set of its property. *)
Lemma program_set p ops :
  (p, ops) ∈ unicode_prop_programs ->
  Z.of_nat (length ops) <= max_ops /\
  exists f, prop_eval ops [] = Some f /\ forall c, f c = property_set p c.
Proof.
  intros Hin. unfold unicode_prop_programs in Hin.
  repeat (apply elem_of_cons in Hin as [[= -> ->]|Hin];
    [split; [done|];
     cbn [prop_eval prop_step length Z.of_nat];
     unfold property_set, letter, pattern_char; name_props;
     eexists; (split; [reflexivity|]); intros c; unfold binary_set;
     cbn [op_bool]|]).
  all: try (rewrite <- ?(proj1 (case_mem_masks c)),
       <- ?(proj1 (proj2 (proj2 (case_mem_masks c))));
     unfold in_gc, masks; cbn [foldr];
     match goal with |- ?b = ?b => reflexivity end).
  - by apply id_continue_xor.
  - by inv Hin.
Qed.

(** ** Properties *)

Lemma is_set_ext {al : Allocator} f g e :
  wp e (cr_post (is_set f)) -> (forall c, 0 <= c -> f c = g c) ->
  wp e (cr_post (is_set g)).
Proof.
  intros He Hfg. eapply cr_post_mono; [exact He|].
  intros cr [Hok Hm]. split; [done|]. intros c Hc. by rewrite Hm, Hfg by lia.
Qed.

(** An empty range to which one interval is added. *)
Lemma add_interval_set {al : Allocator} {al_ok : AllocatorOk al} h c1 c2 :
  c1 <= c2 ->
  wp (cr_add_interval h cr_init c1 c2)
    (cr_post (is_set (fun c => (c1 <=? c) && (c <? c2)))).
Proof.
  intros H12. eapply cr_post_mono.
  { apply (cr_add_interval_spec max_points max_points_ok); [apply cr_init_wf|done]. }
  intros cr (Hwf & Hp & _). change (pts cr_init) with (@nil Z) in Hp.
  unfold is_set, range_ok. rewrite Hp. split_and!; [done|by exists 1%nat| |].
  - apply sorted_cons. split; [|repeat constructor].
    intros y ->%list_elem_of_singleton. lia.
  - intros c _. simpl. by repeat (zcase; try lia).
Qed.

Section properties.
Context {al : Allocator} {al_ok : AllocatorOk al}.

(** C16.  [unicode_prop_ops] implements the Boolean meaning of its program:
    on every program of at most a hundred operations that has a meaning
    (stack depth within [POP_STACK_LEN_MAX], no operand missing), no
    assertion fails, every access is in bounds, and unless the allocator
    fails the range copied to the result is well formed and denotes that
    set. *)
Theorem unicode_prop_ops_correct h cr ops f :
  prop_eval ops [] = Some f -> Z.of_nat (length ops) <= max_ops ->
  cr_wf max_points cr ->
  wp (unicode_prop_ops h cr ops) (cr_post (fun cr' =>
    range_ok max_points cr' /\
    forall c, 0 <= c < UINT32_MAX -> mem c (pts cr') = f c)).
Proof. by apply unicode_prop_ops_spec. Qed.

(** A property that has a table and no [case] of its own. *)
Lemma prop_table_spec h p :
  UnicodePropertyEnum_Z p < 50 ->
  wp (unicode_prop1 h cr_init (UnicodePropertyEnum_Z p))
    (cr_post (is_set (in_prop p))).
Proof.
  intros Hp. destruct (prop_mem p) as [f|] eqn:Ef.
  - eapply cr_post_mono; [by apply prop_gen_spec|].
    intros cr Hd. eapply denotes_is_set in Hd. destruct Hd as [Hok Hm].
    split; [done|]. intros c Hc. unfold in_prop. rewrite Ef. auto.
  - apply prop_mem_None in Ef. change (Z.of_nat (length unicode_prop_table))
      with 50 in Ef. lia.
Qed.

Lemma case_prop_spec h m g :
  1 <= m <= 7 -> (forall c, case_mem m c = g c) ->
  wp (unicode_case1 h cr_init m) (cr_post (is_set g)).
Proof.
  intros Hm Hg. apply (is_set_ext (case_mem m)); [|auto].
  eapply cr_post_mono; [by apply unicode_case1_spec|].
  intros cr Hd. by eapply denotes_is_set.
Qed.

Lemma program_spec h p ops :
  (p, ops) ∈ unicode_prop_programs ->
  wp (unicode_prop_ops h cr_init ops) (cr_post (is_set (property_set p))).
Proof.
  intros Hin. destruct (program_set p ops Hin) as (Hlen & f & Hev & Hf).
  apply (is_set_ext f); [|auto].
  by apply unicode_prop_ops_spec; [..|apply cr_init_wf].
Qed.

(** The properties that have a name. *)
Definition named (p : UnicodePropertyEnum) : Prop :=
  16 <= UnicodePropertyEnum_Z p <= UnicodePropertyEnum_Z UNICODE_PROP_XID_Start.

Lemma enum_inj p q :
  UnicodePropertyEnum_Z p = UnicodePropertyEnum_Z q -> p = q.
Proof.
  destruct p; cbn [UnicodePropertyEnum_Z]; destruct q;
    cbn [UnicodePropertyEnum_Z]; intros H; done || lia.
Qed.

(** The properties that reach the end of the [switch] have a table. *)
Lemma table_property p :
  named p ->
  find (fun '(q, _) => UnicodePropertyEnum_Z p =? UnicodePropertyEnum_Z q)
    unicode_prop_programs = None ->
  p ∉ [UNICODE_PROP_ASCII; UNICODE_PROP_Any;
       UNICODE_PROP_Changes_When_Uppercased;
       UNICODE_PROP_Changes_When_Lowercased;
       UNICODE_PROP_Changes_When_Casemapped] ->
  UnicodePropertyEnum_Z p < 50 /\ property_set p = in_prop p.
Proof.
  intros Hp Hfind Hno. unfold named in Hp.
  destruct p; cbn [UnicodePropertyEnum_Z] in Hp |- *;
    first [ exfalso; lia
          | exfalso; vm_compute in Hfind; discriminate
          | exfalso; apply Hno; rewrite !elem_of_cons; tauto
          | split; [lia|reflexivity] ].
Qed.

Lemma unicode_prop_spec h name p :
  named p ->
  unicode_find_name unicode_prop_name_table name
  = Ret (UnicodePropertyEnum_Z p - UnicodePropertyEnum_Z UNICODE_PROP_ASCII_Hex_Digit) ->
  wp (unicode_prop h cr_init name) (cr_post (is_set (property_set p))).
Proof.
  intros Hp Hname. unfold unicode_prop.
  rewrite Hname. cbn [bind]. clear Hname. pose proof Hp as [Hlo _].
  destruct (Z.ltb_spec (UnicodePropertyEnum_Z p
    - UnicodePropertyEnum_Z UNICODE_PROP_ASCII_Hex_Digit) 0) as [Hneg|_].
  { cbn [UnicodePropertyEnum_Z] in Hneg. lia. }
  rewrite Z.sub_add. cbv zeta.
  destruct (Z.eqb_spec (UnicodePropertyEnum_Z p) (UnicodePropertyEnum_Z UNICODE_PROP_ASCII))
    as [->%enum_inj|N1].
  { apply (is_set_ext (fun c => (0 <=? c) && (c <? 128))); [|done].
    by apply add_interval_set. }
  destruct (Z.eqb_spec (UnicodePropertyEnum_Z p) (UnicodePropertyEnum_Z UNICODE_PROP_Any))
    as [->%enum_inj|N2].
  { apply (is_set_ext (fun c => (0 <=? c) && (c <? 0x110000))).
    - by apply add_interval_set.
    - intros c Hc. cbn [property_set]. f_equal. by repeat (zcase; try lia). }
  destruct (Z.eqb_spec (UnicodePropertyEnum_Z p)
    (UnicodePropertyEnum_Z UNICODE_PROP_Changes_When_Uppercased)) as [->%enum_inj|N3].
  { apply case_prop_spec; [by split|apply case_mem_masks]. }
  destruct (Z.eqb_spec (UnicodePropertyEnum_Z p)
    (UnicodePropertyEnum_Z UNICODE_PROP_Changes_When_Lowercased)) as [->%enum_inj|N4].
  { apply case_prop_spec; [by split|apply case_mem_masks]. }
  destruct (Z.eqb_spec (UnicodePropertyEnum_Z p)
    (UnicodePropertyEnum_Z UNICODE_PROP_Changes_When_Casemapped)) as [->%enum_inj|N5].
  { apply (case_prop_spec h 7); [by split|apply case_mem_masks]. }
  destruct (find _ unicode_prop_programs) as [[q ops]|] eqn:Hfind.
  - apply find_some in Hfind as [Hin%list_elem_of_In <-%Z.eqb_eq%enum_inj].
    by apply program_spec.
  - destruct (table_property p Hp Hfind) as [Hlt ->].
    { rewrite !elem_of_cons, elem_of_nil. intuition congruence. }
    change (Z.of_nat (length unicode_prop_table)) with 50.
    destruct (Z.leb_spec 50 (UnicodePropertyEnum_Z p)); [lia|].
    by apply prop_table_spec.
Qed.

(** C17.  [unicode_prop] on an empty range: for every name that
    [unicode_find_name] resolves to a property, the range denotes the set
    that the Unicode character database derives for the property
    ([property_set]), unless the allocator fails. *)
Theorem unicode_prop_correct h name p :
  named p ->
  unicode_find_name unicode_prop_name_table name
  = Ret (UnicodePropertyEnum_Z p - UnicodePropertyEnum_Z UNICODE_PROP_ASCII_Hex_Digit) ->
  wp (unicode_prop h cr_init name) (cr_post (fun cr =>
    range_ok max_points cr /\
    forall c, 0 <= c < UINT32_MAX -> mem c (pts cr) = property_set p c)).
Proof. apply unicode_prop_spec. Qed.
End properties.

(** ** Identifier characters *)

(** The name of a property, as the C string the functions read. *)
Definition id_start_name : list Z := c_chars "ID_Start"%string ++ [0].
Definition id_continue_name : list Z := c_chars "ID_Continue"%string ++ [0].

Lemma id_prop_mem :
  prop_mem UNICODE_PROP_ID_Start = Some (table_mem unicode_prop_ID_Start_table) /\
  prop_mem UNICODE_PROP_ID_Continue1
  = Some (table_mem unicode_prop_ID_Continue1_table).
Proof. by split. Qed.

Lemma id_start_mem c :
  0 <= c -> lre_is_id_start c = Ret (property_set UNICODE_PROP_ID_Start c).
Proof.
  intros Hc. destruct indexes_ok as (_ & _ & Hok & _).
  unfold lre_is_id_start. rewrite indexed_scan by done.
  unfold property_set, in_prop. by rewrite (proj1 id_prop_mem).
Qed.

Lemma id_continue_mem c :
  0 <= c -> lre_is_id_continue c = Ret (property_set UNICODE_PROP_ID_Continue c).
Proof.
  intros Hc. destruct indexes_ok as (_ & _ & _ & Hok).
  unfold lre_is_id_continue. rewrite id_start_mem by done. cbn [bind].
  rewrite indexed_scan by done. unfold property_set, in_prop.
  rewrite (proj1 id_prop_mem), (proj2 id_prop_mem).
  generalize (table_mem unicode_prop_ID_Start_table c)
    (table_mem unicode_prop_ID_Continue1_table c).
  by intros [] [].
Qed.

Section identifiers.
Context {al : Allocator} {al_ok : AllocatorOk al}.

(** Both ways of asking about a property agree. *)
Lemma prop_agrees h name p (pred : Z -> res bool) :
  named p ->
  unicode_find_name unicode_prop_name_table name
  = Ret (UnicodePropertyEnum_Z p - UnicodePropertyEnum_Z UNICODE_PROP_ASCII_Hex_Digit) ->
  (forall c, 0 <= c -> pred c = Ret (property_set p c)) ->
  wp (unicode_prop h cr_init name) (cr_post (fun cr =>
    forall c, 0 <= c < UINT32_MAX -> pred c = Ret (mem c (pts cr)))).
Proof.
  intros Hp Hname Hpred. eapply cr_post_mono.
  { by apply unicode_prop_spec. }
  intros cr [_ Hm] c Hc. by rewrite Hm, Hpred by lia.
Qed.

(** The scanner's predicate [lre_is_id_start], a search of an indexed
    table, is membership in the range that [unicode_prop] builds for the
    property [ID_Start]. *)
Theorem id_start_agrees h :
  wp (unicode_prop h cr_init id_start_name) (cr_post (fun cr =>
    forall c, 0 <= c < UINT32_MAX -> lre_is_id_start c = Ret (mem c (pts cr)))).
Proof.
  apply (prop_agrees h _ UNICODE_PROP_ID_Start);
    [split; vm_compute; discriminate|vm_compute; reflexivity|
     apply id_start_mem].
Qed.

(** C29.  The same for [lre_is_id_continue] and [ID_Continue]: the predicate
    is a disjunction of two table searches, the range an exclusive or of two
    tables, which are disjoint. *)
Theorem id_continue_agrees h :
  wp (unicode_prop h cr_init id_continue_name) (cr_post (fun cr =>
    forall c, 0 <= c < UINT32_MAX ->
      lre_is_id_continue c = Ret (mem c (pts cr)))).
Proof.
  apply (prop_agrees h _ UNICODE_PROP_ID_Continue);
    [split; vm_compute; discriminate|vm_compute; reflexivity|
     apply id_continue_mem].
Qed.
End identifiers.

(** ** General categories *)

(** The categories that a name of the table stands for. *)
Definition gc_group (g : UnicodeGCEnum) : list UnicodeGCEnum :=
  match g with
  | UNICODE_GC_LC => [UNICODE_GC_Lu; UNICODE_GC_Ll; UNICODE_GC_Lt]
  | UNICODE_GC_L => [UNICODE_GC_Lu; UNICODE_GC_Ll; UNICODE_GC_Lt;
                     UNICODE_GC_Lm; UNICODE_GC_Lo]
  | UNICODE_GC_M => [UNICODE_GC_Mn; UNICODE_GC_Mc; UNICODE_GC_Me]
  | UNICODE_GC_N => [UNICODE_GC_Nd; UNICODE_GC_Nl; UNICODE_GC_No]
  | UNICODE_GC_S => [UNICODE_GC_Sm; UNICODE_GC_Sc; UNICODE_GC_Sk; UNICODE_GC_So]
  | UNICODE_GC_P => [UNICODE_GC_Pc; UNICODE_GC_Pd; UNICODE_GC_Ps; UNICODE_GC_Pe;
                     UNICODE_GC_Pi; UNICODE_GC_Pf; UNICODE_GC_Po]
  | UNICODE_GC_Z => [UNICODE_GC_Zs; UNICODE_GC_Zl; UNICODE_GC_Zp]
  | UNICODE_GC_C => [UNICODE_GC_Cc; UNICODE_GC_Cf; UNICODE_GC_Cs; UNICODE_GC_Co;
                     UNICODE_GC_Cn]
  | g => [g]
  end.

(** The category of [c] by a scan of the run table. *)
Definition code_category (c : Z) : option Z :=
  category 0 (gc_runs unicode_gc_table) c.

Definition in_group (g : UnicodeGCEnum) (c : Z) : bool :=
  match code_category c with
  | Some k => existsb (fun q => UnicodeGCEnum_Z q =? k) (gc_group g)
  | None => false
  end.

(** The mask that the C code computes for a name. *)
Definition gc_mask (g : UnicodeGCEnum) : option Z :=
  if UnicodeGCEnum_Z g <=? UnicodeGCEnum_Z UNICODE_GC_Co
  then Some (u32 (Z.shiftl 1 (UnicodeGCEnum_Z g)))
  else unicode_gc_mask_table !!
    Z.to_nat (UnicodeGCEnum_Z g - UnicodeGCEnum_Z UNICODE_GC_LC).

Definition mask_ok (g : UnicodeGCEnum) : bool :=
  match gc_mask g with
  | Some m => (0 <=? m) && (m <? 2 ^ 32) && forallb (fun k =>
      Bool.eqb (Z.testbit m k)
        (existsb (fun q => UnicodeGCEnum_Z q =? k) (gc_group g))) (interval 0 32)
  | None => false
  end.

Lemma gc_enum_bound q : q <> UNICODE_GC_COUNT -> 0 <= UnicodeGCEnum_Z q < 38.
Proof. by destruct q; cbn [UnicodeGCEnum_Z]; intros H; try lia. Qed.

Lemma gc_group_bound g q : g <> UNICODE_GC_COUNT -> q ∈ gc_group g ->
  0 <= UnicodeGCEnum_Z q < 32.
Proof.
  intros Hg Hq. destruct g; cbn [gc_group] in Hq; try done;
    rewrite ?elem_of_cons, ?elem_of_nil in Hq;
    intuition (subst; cbn [UnicodeGCEnum_Z]; lia).
Qed.

(** The mask of a name has exactly the bits of its group. *)
Lemma gc_mask_spec g :
  g <> UNICODE_GC_COUNT -> exists m, gc_mask g = Some m /\
  forall c, gc_mem m c = in_group g c.
Proof.
  intros Hg. assert (Hok : mask_ok g = true) by (by destruct g; vm_compute).
  unfold mask_ok in Hok. destruct (gc_mask g) as [m|]; [|done].
  exists m. split; [done|]. intros c.
  apply andb_prop in Hok as [Hm Hbits]. zb.
  unfold gc_mem, in_group, code_category, cat_in.
  destruct (category _ _ c) as [k|]; [|done].
  destruct (decide (0 <= k < 32)) as [Hk|Hk].
  - eapply (forallb_elem _ _ k) in Hbits; [|apply interval_elem; lia].
    by apply eqb_prop in Hbits.
  - transitivity false.
    + destruct (Z_lt_le_dec k 0); [by apply Z.testbit_neg_r|].
      rewrite <- (Z.mod_small m (2 ^ 32)) by lia.
      apply Z.mod_pow2_bits_high. lia.
    + symmetry. apply not_true_is_false. intros Hex.
      apply existsb_exists in Hex as (q & Hq%list_elem_of_In & Heq). zb.
      apply gc_group_bound in Hq; [lia|done].
Qed.

Section general_category.
Context {al : Allocator} {al_ok : AllocatorOk al}.

(** C30.  [unicode_general_category] on an empty range: for every name that
    resolves to a category or to a group of categories, the range denotes
    the code points whose category (by a scan of the run table) is one of
    the group, unless the allocator fails. *)
Theorem unicode_general_category_correct h name g :
  g <> UNICODE_GC_COUNT ->
  unicode_find_name unicode_gc_name_table name = Ret (UnicodeGCEnum_Z g) ->
  wp (unicode_general_category h cr_init name) (cr_post (fun cr =>
    range_ok max_points cr /\
    forall c, 0 <= c < UINT32_MAX -> mem c (pts cr) = in_group g c)).
Proof.
  intros Hg Hname. unfold unicode_general_category. rewrite Hname. cbn [bind].
  pose proof (gc_enum_bound g Hg).
  destruct (Z.ltb_spec (UnicodeGCEnum_Z g) 0); [lia|].
  destruct (gc_mask_spec g Hg) as (m & Hm & Hmem). unfold gc_mask in Hm.
  apply wp_bind, wp_iff. exists m. split.
  - destruct (Z.leb_spec (UnicodeGCEnum_Z g) (UnicodeGCEnum_Z UNICODE_GC_Co))
      as [Hle|Hgt]; [by injection Hm as <-|].
    apply rd_Some; [|done]. cbn [UnicodeGCEnum_Z] in *. lia.
  - apply (is_set_ext (gc_mem m)); [|auto]. eapply cr_post_mono.
    + apply unicode_general_category1_spec.
    + intros cr Hd. by eapply denotes_is_set.
Qed.
End general_category.

(** ** Witnesses *)

Lemma unicode_prop_ops_correct_witness :
  wp (unicode_prop_ops (al := budget_allocator) 100 cr_init
        [POP_GC 2; POP_CASE CASE_U; POP_INTER; POP_INVERT; POP_END])
    (cr_post (al := budget_allocator) (fun cr => range_ok max_points cr /\
      forall c, 0 <= c < UINT32_MAX -> mem c (pts cr)
        = negb (binary_set CR_OP_INTER (gc_mem 2) (case_mem CASE_U) c))).
Proof.
  apply (unicode_prop_ops_correct (al := budget_allocator)).
  - reflexivity.
  - vm_compute. discriminate.
  - apply cr_init_wf.
Defined.

Lemma unicode_prop_correct_witness :
  wp (unicode_prop (al := budget_allocator) 100 cr_init (c_chars "Alpha"%string ++ [0]))
    (cr_post (al := budget_allocator) (fun cr => range_ok max_points cr /\
      forall c, 0 <= c < UINT32_MAX ->
        mem c (pts cr) = property_set UNICODE_PROP_Alphabetic c)).
Proof.
  apply (unicode_prop_correct (al := budget_allocator)).
  - split; vm_compute; discriminate.
  - vm_compute. reflexivity.
Defined.

Lemma unicode_general_category_correct_witness :
  wp (unicode_general_category (al := budget_allocator) 100 cr_init
        (c_chars "punct"%string ++ [0]))
    (cr_post (al := budget_allocator) (fun cr => range_ok max_points cr /\
      forall c, 0 <= c < UINT32_MAX -> mem c (pts cr) = in_group UNICODE_GC_P c)).
Proof.
  apply (unicode_general_category_correct (al := budget_allocator)).
  - discriminate.
  - vm_compute. reflexivity.
Defined.

Lemma id_start_agrees_witness :
  wp (unicode_prop (al := budget_allocator) 100 cr_init id_start_name)
    (cr_post (al := budget_allocator) (fun cr => forall c, 0 <= c < UINT32_MAX ->
      lre_is_id_start c = Ret (mem c (pts cr)))).
Proof. apply (id_start_agrees (al := budget_allocator)). Defined.

Lemma id_continue_agrees_witness :
  wp (unicode_prop (al := budget_allocator) 100 cr_init id_continue_name)
    (cr_post (al := budget_allocator) (fun cr => forall c, 0 <= c < UINT32_MAX ->
      lre_is_id_continue c = Ret (mem c (pts cr)))).
Proof. apply (id_continue_agrees (al := budget_allocator)). Defined.

(** ** The error path of [unicode_script] *)

