(* ===== verification/SortCcSpec.v ===== *)
(** * Canonical ordering of combining marks

    [sort_cc] is proved to compute the canonical ordering that the Unicode
    standard defines by exchanges of adjacent marks (definitions D108 and
    D109): the result is reached by such exchanges and admits no more. *)

From stdpp Require Import base tactics numbers list option sorting relations.
From Stdlib Require Import ZArith Lia.
From S2P Require Import Prelude UnicodeNorm.

Open Scope Z_scope.

Section order.
(** The combining class. *)
Context (f : Z -> Z).

(** A reorderable pair: the exchange of two adjacent marks. *)
Inductive exchange : relation (list Z) :=
  | exchange_pair p a b s :
      f b < f a -> 0 < f b -> exchange (p ++ a :: b :: s) (p ++ b :: a :: s).

(** [l'] is the canonical ordering of [l]. *)
Definition canonical (l l' : list Z) : Prop :=
  rtc exchange l l' /\ nf exchange l'.

(** The adjacent characters of an ordered sequence. *)
Definition in_order (a b : Z) : Prop := f b <= 0 \/ f a <= f b.

Definition ordered (l : list Z) : Prop :=
  forall i a b, l !! i = Some a -> l !! Datatypes.S i = Some b -> in_order a b.

Lemma ordered_nf l : ordered l -> nf exchange l.
Proof.
  intros Ho [l' H]. destruct H as [p a b s Hlt Hpos].
  destruct (Ho (length p) a b) as [?|?]; [| |lia..].
  - by rewrite list_lookup_middle.
  - change (p ++ a :: b :: s) with (p ++ [a] ++ (b :: s)). rewrite app_assoc.
    apply list_lookup_middle. rewrite length_app. simpl. lia.
Qed.

Lemma ordered_nil : ordered [].
Proof. intros i a b H. done. Qed.

Lemma ordered_app l1 l2 :
  ordered l1 -> ordered l2 ->
  (forall a b, last l1 = Some a -> head l2 = Some b -> in_order a b) ->
  ordered (l1 ++ l2).
Proof.
  intros H1 H2 Hs i a b Ha Hb.
  destruct (lt_eq_lt_dec (Datatypes.S i) (length l1)) as [[Hlt|Heq]|Hgt].
  - rewrite lookup_app_l in Ha, Hb by lia. by eapply H1.
  - rewrite lookup_app_l in Ha by lia. rewrite lookup_app_r in Hb by lia.
    apply Hs.
    + rewrite last_lookup, <- Ha. f_equal. lia.
    + rewrite head_lookup, <- Hb. f_equal. lia.
  - rewrite lookup_app_r in Ha, Hb by lia. eapply H2; [exact Ha|].
    rewrite <- Hb. f_equal. lia.
Qed.

Definition sorted_by_class : list Z -> Prop :=
  StronglySorted (fun a b => f a <= f b).

Lemma sorted_ordered l : sorted_by_class l -> ordered l.
Proof.
  intros Hs i a b Ha Hb. right.
  rewrite <- (take_drop (Datatypes.S i) l) in Hs.
  eapply (StronglySorted_app_1_elem_of _ _ _ _ _ Hs).
  - eapply (list_elem_of_lookup_2 _ i). by rewrite lookup_take_lt by lia.
  - eapply (list_elem_of_lookup_2 _ 0). rewrite lookup_drop.
    by rewrite Nat.add_0_r.
Qed.

Lemma exchange_app_l p l l' : exchange l l' -> exchange (p ++ l) (p ++ l').
Proof. intros []. rewrite !app_assoc. by constructor. Qed.

Lemma exchange_permutation l l' : rtc exchange l l' -> Permutation l l'.
Proof.
  induction 1 as [|l l1 l2 [p a b s _ _] _ IH]; [done|].
  rewrite <- IH. apply Permutation_app_head, Permutation_swap.
Qed.

(** A mark moves left past marks of a larger class. *)
Lemma exchange_move A R x T :
  0 < f x -> (forall y, y ∈ R -> f x < f y) ->
  rtc exchange (A ++ R ++ x :: T) (A ++ x :: R ++ T).
Proof.
  intros Hx. revert A. induction R as [|r R IH]; intros A HR; [done|].
  etransitivity.
  - change ((r :: R) ++ x :: T) with ([r] ++ R ++ x :: T).
    rewrite (app_assoc A [r]). apply IH. intros y Hy. apply HR. by right.
  - apply rtc_once. rewrite <- app_assoc. simpl.
    constructor; [apply HR; left|done].
Qed.
End order.

(** ** The loops *)
Section loops.
Context (get_cc : Z -> res Z) (f : Z -> Z) (l0 : list Z).
Context (Hcc : forall x, x ∈ l0 -> get_cc x = Ret (f x) /\ 0 <= f x).

Lemma reached_cc l x : rtc (exchange f) l0 l -> x ∈ l ->
  get_cc x = Ret (f x) /\ 0 <= f x.
Proof.
  intros Hr Hx. apply Hcc. apply exchange_permutation in Hr. by rewrite Hr.
Qed.

(** A run of marks from [start], already sorted. *)
Definition run_ok (R : list Z) : Prop :=
  sorted_by_class f R /\ (forall x, x ∈ R -> 0 < f x) /\ R <> [].

(** The shift opens a hole where the mark goes. *)
Lemma sort_cc_shift_spec A R T x fuel :
  (forall y, y ∈ A ++ R ++ x :: T -> get_cc y = Ret (f y) /\ 0 <= f y) ->
  sorted_by_class f R -> (length R < fuel)%nat ->
  wp (loop fuel (sort_cc_shift get_cc (Z.of_nat (length A)) (f x))
        (A ++ R ++ x :: T, Z.of_nat (length (A ++ R)) - 1))
    (fun '(buf, k) => exists R1 R2 hole, R = R1 ++ R2 /\
      k = Z.of_nat (length (A ++ R1)) - 1 /\
      buf = (A ++ R1) ++ hole :: R2 ++ T /\
      (forall y, y ∈ R1 -> f y <= f x) /\ (forall y, y ∈ R2 -> f x < f y)).
Proof.
  intros Hget Hs Hfuel.
  apply (wp_loop (fun '(buf, k) => exists R1 R2 hole, R = R1 ++ R2 /\
      k = Z.of_nat (length (A ++ R1)) - 1 /\
      buf = (A ++ R1) ++ hole :: R2 ++ T /\
      (forall y, y ∈ R2 -> f x < f y))
    (fun s => Z.to_nat (s.2 + 1 - Z.of_nat (length A)))).
  - intros [buf k] (R1 & R2 & hole & -> & -> & -> & H2). unfold sort_cc_shift.
    destruct R1 as [|r R1' _] using rev_ind.
    + rewrite app_nil_r. destruct (Z.leb_spec (Z.of_nat (length A))
        (Z.of_nat (length A) - 1)); [lia|].
      apply wp_ret. exists [], R2, hole. rewrite app_nil_r.
      split_and!; [done..| |done]. intros y Hy. by inv Hy.
    + destruct (Z.leb_spec (Z.of_nat (length A))
        (Z.of_nat (length (A ++ R1' ++ [r])) - 1)); [|lens].
      assert (E : Z.of_nat (length (A ++ R1' ++ [r])) - 1
                  = Z.of_nat (length (A ++ R1'))) by lens.
      rewrite E.
      replace ((A ++ R1' ++ [r]) ++ hole :: R2 ++ T)
        with ((A ++ R1') ++ r :: hole :: R2 ++ T)
        by (by rewrite <- !app_assoc).
      rewrite (rd_nat _ (length (A ++ R1')) r) by (by apply list_lookup_middle).
      cbn [bind]. destruct (Hget r) as [-> Hr].
      { rewrite !elem_of_app, list_elem_of_singleton. tauto. }
      cbn [bind]. destruct (Z.leb_spec (f r) (f x)).
      * apply wp_ret. exists (R1' ++ [r]), R2, hole. rewrite <- !app_assoc.
        split_and!; [done|rewrite !length_app in *; simpl in *; lia|done| |done].
        intros y [Hy| ->%list_elem_of_singleton]%elem_of_app; [|done].
        rewrite <- app_assoc in Hs.
        enough (f y <= f r) by lia.
        eapply (StronglySorted_app_1_elem_of _ _ _ _ _ Hs); [done|].
        by constructor.
      * rewrite wr_in by (rewrite !length_app; simpl; lia). cbn [bind].
        replace (Z.to_nat _) with (length (A ++ R1') + 1)%nat by lia.
        rewrite insert_app_r. simpl. apply wp_ret.
        split; [|cbn [snd] in *; rewrite !length_app in *; simpl in *; lia].
        exists R1', (r :: R2), r. rewrite <- app_assoc.
        split_and!; [done|done|done|].
        intros y [->|Hy]%elem_of_cons; auto.
  - exists R, [], x. rewrite app_nil_r, <- app_assoc.
    split_and!; [done..|]. intros y Hy. by inv Hy.
  - cbn [snd]. rewrite length_app. lia.
Qed.

(** One mark inserted in the run before it. *)
Lemma insert_run A R R1 R2 x T :
  run_ok R -> 0 < f x -> R = R1 ++ R2 ->
  (forall y, y ∈ R1 -> f y <= f x) -> (forall y, y ∈ R2 -> f x < f y) ->
  run_ok (R1 ++ x :: R2) /\
  rtc (exchange f) (A ++ R ++ x :: T) (A ++ (R1 ++ x :: R2) ++ T).
Proof.
  intros (Hs & Hp & _) Hx -> H1 H2. split.
  - split; [|split; [|by destruct R1]].
    + apply StronglySorted_app in Hs as (H12 & S1 & S2).
      apply StronglySorted_app. split_and!; [|done|].
      * intros a b Ha [->|Hb]%elem_of_cons; auto.
      * constructor; [done|]. apply Forall_forall. intros y Hy.
        specialize (H2 y Hy). lia.
    + intros y [Hy|[->|Hy]%elem_of_cons]%elem_of_app; [|done|];
        apply Hp, elem_of_app; auto.
  - rewrite <- !(app_assoc R1), !(app_assoc A R1). by apply exchange_move.
Qed.

(** The run from [start] is extended while there are marks. *)
Lemma sort_cc_run_spec A r T :
  rtc (exchange f) l0 (A ++ r :: T) -> 0 < f r ->
  let len := Z.of_nat (length l0) in
  wp (loop (Datatypes.S (Z.to_nat len))
        (sort_cc_run get_cc (Z.of_nat (length A)) len)
        (A ++ r :: T, Z.of_nat (length A) + 1))
    (fun '(buf, j) => exists R T', buf = A ++ R ++ T' /\
      j = Z.of_nat (length (A ++ R)) /\ run_ok R /\
      rtc (exchange f) l0 buf /\
      (forall z T2, T' = z :: T2 -> f z = 0)).
Proof.
  intros Hr0 Hr len.
  apply (wp_loop (fun '(buf, j) => exists R T', buf = A ++ R ++ T' /\
      j = Z.of_nat (length (A ++ R)) /\ run_ok R /\
      rtc (exchange f) l0 buf)
    (fun s => Z.to_nat (len - s.2))).
  - intros [buf j] (R & T' & -> & -> & Hok & Hreach). unfold sort_cc_run.
    assert (Hlen : len = Z.of_nat (length (A ++ R ++ T'))).
    { unfold len. f_equal. by eapply Permutation_length, exchange_permutation. }
    destruct (Z.ltb_spec (Z.of_nat (length (A ++ R))) len) as [Hlt|Hge].
    2: { apply wp_ret. exists R, T'. split_and!; [done..|].
         intros z T2 ->. lens. }
    destruct T' as [|x T']; [lens|].
    rewrite (rd_nat _ (length (A ++ R)) x)
      by (rewrite app_assoc; by apply list_lookup_middle). cbn [bind].
    destruct (reached_cc _ x Hreach) as [-> Hx].
    { rewrite !elem_of_app, elem_of_cons. tauto. }
    cbn [bind]. destruct (Z.eqb_spec (f x) 0) as [H0|H0].
    { apply wp_ret. exists R, (x :: T'). split_and!; [done..|].
      by intros z T2 [= <- <-]. }
    apply wp_bind. eapply wp_mono.
    { apply (sort_cc_shift_spec A R T' x).
      - intros y Hy. by apply (reached_cc _ y Hreach).
      - apply Hok.
      - lens. }
    intros [buf k] (R1 & R2 & hole & -> & -> & -> & H1 & H2).
    replace (Z.of_nat (length (A ++ R1)) - 1 + 1)
      with (Z.of_nat (length (A ++ R1))) by lia.
    rewrite wr_in by lens. cbn [bind]. rewrite Nat2Z.id.
    replace (length (A ++ R1)) with (length (A ++ R1) + 0)%nat at 1 by lia.
    rewrite insert_app_r. simpl. apply wp_ret.
    destruct (insert_run A (R1 ++ R2) R1 R2 x T') as [Hok' Hex]; [done|lia|done..|].
    split; [|cbn [snd]; lens]. exists (R1 ++ x :: R2), T'.
    split_and!; [by rewrite <- !app_assoc|lens|done|].
    replace ((A ++ R1) ++ x :: R2 ++ T') with (A ++ (R1 ++ x :: R2) ++ T')
      by (by rewrite <- !app_assoc). by etransitivity.
  - exists [r], T. split_and!; [done|lens| |done]. split; [|split; [|done]].
    + repeat constructor.
    + by intros y ->%list_elem_of_singleton.
  - cbn [snd]. lia.
Qed.

(** The sequence before [i] is in order and ends with a starter. *)
Definition prefix_ok (A T : list Z) : Prop :=
  ordered f A /\ (forall a, T <> [] -> last A = Some a -> f a = 0).

Lemma sort_cc_spec :
  wp (sort_cc get_cc l0 (Z.of_nat (length l0))) (canonical f l0).
Proof.
  unfold sort_cc. set (len := Z.of_nat (length l0)).
  apply (wp_loop (fun '(buf, i) => exists A T, buf = A ++ T /\
      Z.of_nat (length A) <= i /\ (T <> [] -> i = Z.of_nat (length A)) /\
      prefix_ok A T /\ rtc (exchange f) l0 buf)
    (fun s => Z.to_nat (len - s.2))).
  - intros [buf i] (A & T & -> & Hi & HiT & [Ho Hlast] & Hr). unfold sort_cc_step.
    assert (Hlen : len = Z.of_nat (length (A ++ T))).
    { unfold len. f_equal. by eapply Permutation_length, exchange_permutation. }
    destruct T as [|x T].
    { rewrite app_nil_r in *. destruct (Z.ltb_spec i len); [lia|].
      apply wp_ret. split; [done|]. by apply ordered_nf. }
    rewrite HiT in * by done. clear HiT Hi i.
    destruct (Z.ltb_spec (Z.of_nat (length A)) len); [|lens].
    rewrite (rd_nat _ (length A) x) by (by apply list_lookup_middle). cbn [bind].
    destruct (reached_cc _ x Hr) as [-> Hx].
    { rewrite elem_of_app, elem_of_cons. tauto. }
    cbn [bind]. destruct (Z.eqb_spec (f x) 0) as [H0|H0]; cbn [negb].
    + apply wp_ret. split; [|cbn [snd]; lens]. exists (A ++ [x]), T.
      rewrite <- app_assoc. split_and!; [done|lens|lens| |done]. split.
      * apply ordered_app; [done|by apply sorted_ordered; repeat constructor|].
        intros a b _ [= <-]. left. lia.
      * intros a _. rewrite last_snoc. by intros [= <-].
    + apply wp_bind. eapply wp_mono; [by apply sort_cc_run_spec; [|lia]|].
      intros [buf j] (R & T' & -> & -> & (Hs & Hp & Hne) & Hr' & Hz).
      assert (Hlen' : len = Z.of_nat (length (A ++ R ++ T'))).
      { unfold len. f_equal. by eapply Permutation_length, exchange_permutation. }
      assert (HoR : ordered f (A ++ R)).
      { apply ordered_app; [done|by apply sorted_ordered|].
        intros a b Ha Hb. right. rewrite (Hlast a) by done.
        assert (0 < f b); [|lia]. apply Hp. by apply head_Some_elem_of. }
      apply wp_ret. cbn [snd]. split.
      * destruct T' as [|z T'].
        -- exists (A ++ R), []. rewrite app_assoc.
           split_and!; [done|lia|done| |by rewrite <- app_assoc]. by split.
        -- exists (A ++ R ++ [z]), T'. rewrite <- !app_assoc.
           split_and!; [done|lens|lens| |done]. split.
           ++ rewrite app_assoc. apply ordered_app;
                [done|by apply sorted_ordered; repeat constructor|].
              intros a b _ [= <-]. left. by rewrite (Hz z T').
           ++ intros a _. rewrite app_assoc, last_snoc. intros [= <-].
              by eapply Hz.
      * destruct R; [done|lens].
  - exists [], l0. split_and!; [done|simpl; lia|done| |done].
    split; [apply ordered_nil|done].
  - cbn [snd]. lia.
Qed.
End loops.
