(* ===== verification/UnicodeNormSpec.v ===== *)
(** * Combining classes and normalization

    [unicode_get_cc], a search of an indexed table of runs, is the scan of
    the whole table; [sort_cc] with it is the canonical ordering; the Hangul
    syllables decompose and compose back. *)

From stdpp Require Import base tactics numbers list option sorting relations.
From Stdlib Require Import ZArith Lia.
From S2P Require Import Prelude Cutils DynBufSpec UnicodeTables UnicodeCase.
From S2P Require Import UnicodeTableSpec UnicodeNorm SortCcSpec.

Open Scope Z_scope.

(** ** The table of combining classes *)

(** An item: the length of its run, its type, its byte and the position of
    the next item. *)
Record cc_entry := mkCc { cc_len : Z; cc_type : Z; cc_byte : Z; cc_next : Z }.

Definition cc_item (p : Z) : res cc_entry :=
  let* b := rd unicode_cc_table p in
  let type := Z.shiftr b 6 in
  let* (n, p) := cc_run (p + 1) b in
  let p := if type <=? 1 then p + 1 else p in
  let* v := if type <=? 1 then rd unicode_cc_table (p - 1) else Ret 0 in
  Ret (mkCc (n + 1) type v p).

(** The class of [c] in an item that starts at [code]. *)
Definition cc_value (e : cc_entry) (code c : Z) : Z :=
  if cc_type e =? 0 then cc_byte e
  else if cc_type e =? 1 then u32 (cc_byte e + c - code)
  else if cc_type e =? 2 then 0
  else 230.

Fixpoint cc_items (fuel : nat) (p : Z) : list cc_entry :=
  match fuel, cc_item p with
  | Datatypes.S fuel, Ret e => e :: cc_items fuel (cc_next e)
  | _, _ => []
  end.

(** Reference definition: a linear scan of the items from the start. *)
Fixpoint cc_scan (code : Z) (es : list cc_entry) (c : Z) : Z :=
  match es with
  | [] => 0
  | e :: es =>
      if c <? code + cc_len e then cc_value e code c
      else cc_scan (code + cc_len e) es c
  end.

(** All the items of the table. *)
Definition cc_table : list cc_entry := cc_items (length unicode_cc_table) 0.

Definition cc_class (c : Z) : Z := cc_scan 0 cc_table c.

(** ** The search is the scan *)

Fixpoint parses (p : Z) (es : list cc_entry) : Prop :=
  match es with
  | [] => True
  | e :: es => cc_item p = Ret e /\ 1 <= cc_len e /\ parses (cc_next e) es
  end.

Fixpoint parsesb (p : Z) (es : list cc_entry) : bool :=
  match es with
  | [] => true
  | e :: es =>
      match cc_item p with
      | Ret e' => (cc_len e' =? cc_len e) && (cc_type e' =? cc_type e)
          && (cc_byte e' =? cc_byte e) && (cc_next e' =? cc_next e)
          && (1 <=? cc_len e) && parsesb (cc_next e) es
      | _ => false
      end
  end.

Lemma parsesb_spec es : forall p, parsesb p es = true -> parses p es.
Proof.
  induction es as [|e es IH]; intros p H; [done|]. cbn [parsesb parses] in *.
  destruct (cc_item p) as [e'| |]; [|done..].
  apply andb_prop in H as [H Hr]. zb. destruct e, e'; simpl in *; subst.
  split_and!; [done|done|by apply IH].
Qed.

Definition cc_sum (es : list cc_entry) : Z := foldr (fun e s => cc_len e + s) 0 es.

Lemma cc_sum_nonneg es : forall p, parses p es -> 0 <= cc_sum es.
Proof.
  induction es as [|e es IH]; intros p; [done|].
  intros (_ & H & Hp). apply IH in Hp. simpl. lia.
Qed.

Lemma cc_step_item p e code c :
  cc_item p = Ret e -> 0 <= code + cc_len e < 2 ^ 32 ->
  unicode_get_cc_step c (code, p)
  = Ret (if c <? code + cc_len e then inr (cc_value e code c)
         else inl (code + cc_len e, cc_next e)).
Proof.
  unfold cc_item, unicode_get_cc_step.
  destruct (rd unicode_cc_table p) as [b| |]; [|done..]. cbn [bind].
  destruct (cc_run (p + 1) b) as [[n p1]| |]; [|done..]. cbn [bind].
  set (type := Z.shiftr b 6). destruct (Z.leb_spec type 1) as [Ht|Ht].
  - destruct (rd unicode_cc_table (p1 + 1 - 1)) as [v| |]; [|done..].
    intros [= <-] Hb. unfold cc_value. cbn [bind cc_len cc_type cc_byte cc_next] in *.
    rewrite u32_id by lia. rewrite <- Z.add_assoc.
    destruct (Z.ltb_spec c (code + (n + 1))); [|done].
    destruct (Z.eqb_spec type 0); [done|]. destruct (Z.eqb_spec type 1); [done|].
    by destruct (type =? 2).
  - intros [= <-] Hb. unfold cc_value. cbn [bind cc_len cc_type cc_byte cc_next] in *.
    rewrite u32_id by lia. rewrite <- Z.add_assoc.
    destruct (Z.ltb_spec c (code + (n + 1))); [|done].
    destruct (Z.eqb_spec type 0); [lia|]. destruct (Z.eqb_spec type 1); [lia|].
    by destruct (Z.eqb_spec type 2).
Qed.

Lemma cc_loop_scan c es : forall fuel p code,
  parses p es -> 0 <= code <= c -> c < code + cc_sum es ->
  code + cc_sum es < 2 ^ 32 -> (length es < fuel)%nat ->
  loop fuel (unicode_get_cc_step c) (code, p) = Ret (cc_scan code es c).
Proof.
  induction es as [|e es IH]; intros fuel p code Hp Hc Hlt Hov Hfuel.
  { simpl in Hlt. lia. }
  destruct fuel as [|fuel]; [lens|]. destruct Hp as (Hi & Hl & Hp).
  pose proof (cc_sum_nonneg _ _ Hp).
  cbn [cc_sum foldr] in Hlt, Hov. fold (cc_sum es) in Hlt, Hov.
  cbn [loop cc_scan]. rewrite (cc_step_item p e) by (done || lia).
  cbn [bind]. destruct (Z.ltb_spec c (code + cc_len e)); [done|].
  apply IH; [done|lia..|lens].
Qed.

(** The items that remain at the position [pos]. *)
Fixpoint cc_walk (p code : Z) (es : list cc_entry) (pos : Z)
  : option (Z * list cc_entry) :=
  if p =? pos then Some (code, es)
  else match es with
       | [] => None
       | e :: es => cc_walk (cc_next e) (code + cc_len e) es pos
       end.

Lemma cc_walk_spec es : forall p code pos code' es',
  parses p es -> cc_walk p code es pos = Some (code', es') ->
  parses pos es' /\ code <= code' /\ code + cc_sum es = code' + cc_sum es' /\
  (length es' <= length es)%nat /\
  forall c, code' <= c -> cc_scan code es c = cc_scan code' es' c.
Proof.
  induction es as [|e es IH]; intros p code pos code' es' Hp Hw;
    cbn [cc_walk] in Hw; destruct (Z.eqb_spec p pos) as [<-|Hne]; try done;
    try (injection Hw as <- <-; by split_and!; [done|lia|lia|lia|]).
  destruct Hp as (Hi & Hl & Hp). destruct (IH _ _ _ _ _ Hp Hw) as
    (Hp' & Hle & Hs & Hlen & Hsc). cbn [cc_sum foldr].
  fold (cc_sum es). split_and!; [done|lia|lia|simpl; lia|].
  intros c Hc. rewrite <- Hsc by done. cbn [cc_scan].
  destruct (Z.ltb_spec c (code + cc_len e)); [lia|done].
Qed.

Lemma cc_scan_beyond es c : forall code p,
  parses p es -> code + cc_sum es <= c -> cc_scan code es c = 0.
Proof.
  induction es as [|e es IH]; intros code p Hp Hc; [done|].
  destruct Hp as (_ & Hl & Hp). pose proof (cc_sum_nonneg _ _ Hp).
  cbn [cc_sum foldr] in Hc. fold (cc_sum es) in Hc. cbn [cc_scan].
  destruct (Z.ltb_spec c (code + cc_len e)); [lia|]. eapply IH; [done|lia].
Qed.

Definition cc_count : Z := countof unicode_cc_index / 3.

Definition cc_index_at (k : Z) : Z :=
  match get_le24 unicode_cc_index (k * 3) with Ret v => v | _ => 0 end.

Definition cc_entry_ok (es : list cc_entry) (k : Z) : bool :=
  match get_le24 unicode_cc_index (k * 3),
        cc_walk 0 0 es ((k + 1) * 32 + Z.shiftr (cc_index_at k) 21) with
  | Ret v, Some (code, _) => (code =? index_code v) && (0 <=? index_code v)
  | _, _ => false
  end.

(** What the data satisfies. *)
Definition cc_data_ok (es : list cc_entry) : bool :=
  parsesb 0 es && (cc_sum es <? 2 ^ 32)
  && Nat.leb (length es) (length unicode_cc_table)
  && (2 <=? cc_count) && (cc_count <=? Z.of_nat (length unicode_cc_index))
  && match get_le24 unicode_cc_index ((cc_count - 1) * 3) with
     | Ret v => v =? cc_sum es
     | _ => false
     end
  && forallb (fun k => cc_entry_ok es (Z.of_nat k)) (seq 0 (Z.to_nat (cc_count - 1)))
  && forallb (fun e => 0 <=? cc_byte e) es.

Lemma cc_table_ok : cc_data_ok cc_table = true.
Proof. by vm_compute. Qed.

Section search.
Context (es : list cc_entry) (Hok : cc_data_ok es = true).

Lemma cc_entry_reach k : 0 <= k < cc_count - 1 ->
  get_le24 unicode_cc_index (k * 3) = Ret (cc_index_at k) /\
  exists es', cc_walk 0 0 es ((k + 1) * 32 + Z.shiftr (cc_index_at k) 21)
    = Some (index_code (cc_index_at k), es') /\ 0 <= index_code (cc_index_at k).
Proof.
  intros Hk. unfold cc_data_ok in Hok. apply andb_prop in Hok as [H _].
  apply andb_prop in H as [_ H]. rewrite forallb_forall in H.
  specialize (H (Z.to_nat k)). rewrite Z2Nat.id in H by lia.
  assert (He : cc_entry_ok es k = true) by (apply H, in_seq; lia).
  unfold cc_entry_ok in He. unfold cc_index_at in *.
  destruct (get_le24 unicode_cc_index (k * 3)) as [v| |]; [|done..].
  split; [done|]. destruct (cc_walk _ _ _ _) as [[code es']|]; [|done]. zb.
  subst code. by exists es'.
Qed.

Lemma cc_search c : 0 <= c -> unicode_get_cc c = Ret (cc_scan 0 es c).
Proof.
  intros Hc. pose proof cc_entry_reach as Hreach. unfold cc_data_ok in Hok.
  apply andb_prop in Hok as [H _]. apply andb_prop in H as [H _].
  apply andb_prop in H as [H Hlast]. zb.
  match goal with H : parsesb _ _ = true |- _ => apply parsesb_spec in H as Hp end.
  match goal with H : Nat.leb _ _ = true |- _ => apply Nat.leb_le in H as Hlen end.
  destruct (get_le24 unicode_cc_index ((cc_count - 1) * 3)) as [vl| |] eqn:El;
    [|done..]. zb. subst vl.
  assert (Hvl : cc_index_at (cc_count - 1) = cc_sum es)
    by (unfold cc_index_at; by rewrite El).
  assert (Hv : forall k, 0 <= k < cc_count ->
    get_le24 unicode_cc_index (k * 3) = Ret (cc_index_at k)).
  { intros k Hk. destruct (Z.eq_dec k (cc_count - 1)) as [->|].
    - by rewrite El, Hvl.
    - apply Hreach. lia. }
  pose proof (get_index_pos_spec c unicode_cc_index cc_count cc_index_at Hv
    ltac:(lia) ltac:(lia)) as Hr.
  apply wp_iff in Hr as (r & Er & Hr). unfold unicode_get_cc.
  fold cc_count. rewrite Er. cbn [bind]. rewrite Hvl in Hr.
  assert (Hstart : c < cc_sum es ->
    loop (Datatypes.S (length unicode_cc_table)) (unicode_get_cc_step c) (0, 0)
    = Ret (cc_scan 0 es c)).
  { intros Hlt. apply cc_loop_scan; [exact Hp|lia..]. }
  destruct r as [[code pos]|].
  2: { destruct Hr as [Hr|[Hr _]]; [|discriminate Hr]. f_equal. symmetry.
       apply (cc_scan_beyond _ _ 0 0); [exact Hp|lia]. }
  destruct Hr as [[Hlt [(-> & -> & _)|(k & Hk & -> & Hkc & ->)]]|[[= -> ->] Hlt]].
  - by apply Hstart.
  - destruct (Hreach k Hk) as (_ & es' & Hw & Hc0).
    destruct (cc_walk_spec _ _ _ _ _ _ Hp Hw) as (Hp' & _ & Hs & Hl & Hsc).
    rewrite (cc_loop_scan c es'); [|exact Hp'|lia..].
    f_equal. symmetry. by apply Hsc.
  - apply Hstart. destruct (Hreach 0 ltac:(lia)) as (_ & es' & Hw & _).
    destruct (cc_walk_spec _ _ _ _ _ _ Hp Hw) as (Hp' & _ & Hs & _ & _).
    pose proof (cc_sum_nonneg _ _ Hp'). lia.
Qed.

Lemma cc_scan_nonneg c : 0 <= cc_scan 0 es c.
Proof.
  unfold cc_data_ok in Hok. apply andb_prop in Hok as [_ Hb].
  generalize 0 at 2. revert Hb. induction es as [|e es' IH]; intros Hb code;
    [done|]. cbn [forallb cc_scan] in *. apply andb_prop in Hb as [He Hb]. zb.
  destruct (Z.ltb_spec c (code + cc_len e)); [|by apply IH].
  unfold cc_value. repeat (zcase; try done). apply u32_bound.
Qed.
End search.

(** [unicode_get_cc] terminates in bounds on every character and gives the
    class that a scan of the whole table gives. *)
Lemma unicode_get_cc_spec c : 0 <= c -> unicode_get_cc c = Ret (cc_class c).
Proof. apply cc_search, cc_table_ok. Qed.

Lemma cc_class_nonneg c : 0 <= cc_class c.
Proof. apply cc_scan_nonneg, cc_table_ok. Qed.

(** ** Canonical composition *)

(** The entry [idx] of the composition table: its pair and what the pair
    composes to.  [a] and [b] are the old contents of [pair]. *)
Definition comp_entry (a b idx : Z) : res (list Z * Z) :=
  let* idx1 := rd unicode_comp_table idx in
  let d_idx := Z.shiftr idx1 6 in
  let* v := rd unicode_decomp_table1 d_idx in
  let ch := run_code 18 v + Z.land idx1 0x3f in
  let* (pr, _) := unicode_decomp_entry [a; b] ch d_idx (run_code 18 v)
    (run_len 18 v) (decomp_entry_type v) in
  Ret (pr, ch).

Definition comp_indices : list Z :=
  map Z.of_nat (seq 0 (length unicode_comp_table)).

(** The composition table as a list of triples. *)
Definition comp_triples : list (Z * Z * Z) :=
  map (fun idx => match comp_entry 0 0 idx with
                  | Ret ([p0; p1], ch) => (p0, p1, ch)
                  | _ => (0, 0, 0)
                  end) comp_indices.

Definition triple_lt (x y : Z * Z * Z) : Prop :=
  x.1.1 < y.1.1 \/ (x.1.1 = y.1.1 /\ x.1.2 < y.1.2).

Definition triple_ltb (x y : Z * Z * Z) : bool :=
  (x.1.1 <? y.1.1) || ((x.1.1 =? y.1.1) && (x.1.2 <? y.1.2)).

Fixpoint triples_sorted (l : list (Z * Z * Z)) : bool :=
  match l with
  | x :: (y :: _) as l => triple_ltb x y && triples_sorted l
  | _ => true
  end.

(** Every entry gives its pair whatever [pair] held. *)
Definition triples_agree (a b : Z) (ts : list (Z * Z * Z)) : bool :=
  forallb (fun '(idx, (p0, p1, ch)) =>
    match comp_entry a b idx with
    | Ret ([q0; q1], ch') => (q0 =? p0) && (q1 =? p1) && (ch' =? ch)
    | _ => false
    end) (zip comp_indices ts).

Definition triple_bounded (t : Z * Z * Z) : bool :=
  let '(p0, p1, ch) := t in
  (0 <=? p0) && (p0 <? 2 ^ 20) && (0 <=? p1) && (p1 <? 2 ^ 20)
  && (0 <? ch) && (ch <? 2 ^ 20).

Lemma comp_triples_ok :
  triples_sorted comp_triples = true /\
  forallb triple_bounded comp_triples = true.
Proof. by vm_compute. Qed.

Lemma comp_triples_agree a b : triples_agree a b comp_triples = true.
Proof. by vm_compute. Qed.

Lemma triples_sorted_spec l :
  triples_sorted l = true -> StronglySorted triple_lt l.
Proof.
  intros H. apply Sorted_StronglySorted; [unfold triple_lt; intros x y z; lia|].
  induction l as [|x [|y l] IH]; [constructor|repeat constructor|].
  cbn [triples_sorted] in H. apply andb_prop in H as [Hxy H].
  constructor; [by apply IH|]. constructor. unfold triple_ltb, triple_lt in *.
  apply orb_true_iff in Hxy as [Hxy|Hxy]; zb; lia.
Qed.

Definition has_pair (c0 c1 : Z) : Z * Z * Z -> bool :=
  fun '(p0, p1, _) => (p0 =? c0) && (p1 =? c1).

(** Reference definition: a linear search of the triples. *)
Definition triple_find (ts : list (Z * Z * Z)) (c0 c1 : Z) : Z :=
  match find (has_pair c0 c1) ts with Some (_, ch) => ch | None => 0 end.

Section compose_search.
Context (ts : list (Z * Z * Z)).
Context (Hlen : length ts = length unicode_comp_table).
Context (Hsorted : StronglySorted triple_lt ts).
Context (Hbound : forallb triple_bounded ts = true).
Context (Hagree : forall a b, triples_agree a b ts = true).

Lemma comp_entry_at a b k p0 p1 ch :
  ts !! k = Some (p0, p1, ch) ->
  comp_entry a b (Z.of_nat k) = Ret ([p0; p1], ch) /\
  0 <= p0 < 2 ^ 20 /\ 0 <= p1 < 2 ^ 20 /\ 0 < ch < 2 ^ 20.
Proof.
  intros Hk. pose proof (lookup_lt_Some _ _ _ Hk) as Hlt.
  assert (Hin : (Z.of_nat k, (p0, p1, ch)) ∈ zip comp_indices ts).
  { apply (list_elem_of_lookup_2 _ k). rewrite lookup_zip_with, Hk.
    unfold comp_indices. rewrite list_lookup_fmap, lookup_seq_lt by lia. done. }
  specialize (Hagree a b). unfold triples_agree in Hagree.
  rewrite forallb_forall in Hagree. apply list_elem_of_In in Hin.
  specialize (Hagree _ Hin). cbn beta iota in Hagree. split.
  - destruct (comp_entry a b (Z.of_nat k)) as [[[|q0 [|q1 [|]]] ch']| |]; try done.
    zb. by subst.
  - rewrite forallb_forall in Hbound. specialize (Hbound (p0, p1, ch)).
    unfold triple_bounded in Hbound.
    assert (Hb : (0 <=? p0) && (p0 <? 2 ^ 20) && (0 <=? p1) && (p1 <? 2 ^ 20)
      && (0 <? ch) && (ch <? 2 ^ 20) = true)
      by (apply Hbound, list_elem_of_In; by eapply list_elem_of_lookup_2).
    zb. lia.
Qed.

Definition before (c0 c1 : Z) (t : Z * Z * Z) : Prop := triple_lt t (c0, c1, 0).
Definition after (c0 c1 : Z) (t : Z * Z * Z) : Prop := triple_lt (c0, c1, 0) t.

(** The entries below [lo] are before the pair, those above [hi] after. *)
Definition search_inv (c0 c1 : Z) : list Z * Z * Z -> Prop :=
  fun '(pr, lo, hi) => length pr = 2%nat /\ 0 <= lo <= hi + 1 /\
    hi < Z.of_nat (length ts) /\
    (forall k t, ts !! k = Some t -> Z.of_nat k < lo -> before c0 c1 t) /\
    (forall k t, ts !! k = Some t -> hi < Z.of_nat k -> after c0 c1 t).

Lemma triple_order i j x y :
  (i < j)%nat -> ts !! i = Some x -> ts !! j = Some y -> triple_lt x y.
Proof.
  intros Hij Hx Hy. pose proof Hsorted as Hs.
  rewrite <- (take_drop j ts) in Hs.
  eapply (StronglySorted_app_1_elem_of _ _ _ _ _ Hs).
  - eapply (list_elem_of_lookup_2 _ i). by rewrite lookup_take_lt.
  - eapply (list_elem_of_lookup_2 _ 0). rewrite lookup_drop.
    by rewrite Nat.add_0_r.
Qed.

Lemma find_at c0 c1 k ch :
  ts !! k = Some (c0, c1, ch) -> triple_find ts c0 c1 = ch.
Proof.
  intros Hk. unfold triple_find. destruct (find (has_pair c0 c1) ts) as [t|] eqn:E.
  - destruct t as [[p0 p1] ch']. apply find_some in E as [Hin Hp].
    unfold has_pair in Hp. zb. subst.
    apply list_elem_of_In, list_elem_of_lookup in Hin as [j Hj].
    destruct (lt_eq_lt_dec j k) as [[Hlt| ->]|Hgt].
    + pose proof (triple_order j k _ _ Hlt Hj Hk) as Ho.
      unfold triple_lt in Ho. simpl in Ho. lia.
    + congruence.
    + pose proof (triple_order k j _ _ Hgt Hk Hj) as Ho.
      unfold triple_lt in Ho. simpl in Ho. lia.
  - exfalso. eapply find_none in E.
    2: { eapply list_elem_of_In, list_elem_of_lookup_2, Hk. }
    unfold has_pair in E. by rewrite !Z.eqb_refl in E.
Qed.

Lemma find_nowhere c0 c1 :
  (forall k t, ts !! k = Some t -> before c0 c1 t \/ after c0 c1 t) ->
  triple_find ts c0 c1 = 0.
Proof.
  intros H. unfold triple_find. destruct (find (has_pair c0 c1) ts) as [t|] eqn:E;
    [|done]. destruct t as [[p0 p1] ch]. apply find_some in E as [Hin Hp].
  unfold has_pair in Hp. zb. subst.
  apply list_elem_of_In, list_elem_of_lookup in Hin as [k Hk].
  destruct (H _ _ Hk) as [Ho|Ho]; unfold before, after, triple_lt in Ho;
    simpl in Ho; lia.
Qed.

(** One turn compares the pair with the entry in the middle. *)
Lemma compose_step_spec c0 c1 a b lo hi p0 p1 ch k :
  0 <= c0 < 2 ^ 31 -> 0 <= c1 < 2 ^ 31 -> lo <= hi ->
  (hi + lo) / 2 = Z.of_nat k -> ts !! k = Some (p0, p1, ch) ->
  unicode_compose_step c0 c1 ([a; b], lo, hi)
  = Ret (if (c0 =? p0) && (c1 =? p1) then inr ch
         else if triple_ltb (c0, c1, 0) (p0, p1, ch)
         then inl ([p0; p1], lo, Z.of_nat k - 1)
         else inl ([p0; p1], Z.of_nat k + 1, hi)).
Proof.
  intros H0 H1 Hle Hk Ht. destruct (comp_entry_at a b k _ _ _ Ht)
    as (He & B0 & B1 & _). unfold unicode_compose_step.
  destruct (Z.leb_spec lo hi); [|lia]. rewrite Hk. unfold comp_entry in He.
  destruct (rd unicode_comp_table (Z.of_nat k)) as [idx1| |]; [|done..].
  cbn [bind] in *. destruct (rd unicode_decomp_table1 _) as [v| |]; [|done..].
  cbn [bind] in *. destruct (unicode_decomp_entry _ _ _ _ _ _) as [[pr x]| |];
    [|done..]. cbn [bind] in *. injection He as -> ->.
  change (rd [p0; p1] 0) with (Ret p0). change (rd [p0; p1] 1) with (Ret p1).
  cbn [bind]. cbv zeta. rewrite !i32_id by lia. unfold triple_ltb. cbn [fst snd].
  destruct (Z.eqb_spec (c0 - p0) 0), (Z.eqb_spec c0 p0); try lia; cbn [andb orb].
  - destruct (Z.eqb_spec c1 p1), (Z.ltb_spec c0 p0), (Z.ltb_spec c1 p1); try lia;
      destruct (Z.ltb_spec (c1 - p1) 0), (Z.ltb_spec 0 (c1 - p1)); try lia; done.
  - destruct (Z.ltb_spec c0 p0); destruct (Z.ltb_spec (c0 - p0) 0),
      (Z.ltb_spec 0 (c0 - p0)); try lia; done.
Qed.

Lemma compose_search junk c0 c1 :
  0 <= c0 < 2 ^ 31 -> 0 <= c1 < 2 ^ 31 ->
  unicode_compose_pair junk c0 c1 = Ret (triple_find ts c0 c1).
Proof.
  intros H0 H1. unfold unicode_compose_pair.
  enough (Hwp : wp (loop (Datatypes.S (length unicode_comp_table))
    (unicode_compose_step c0 c1) ([junk; junk], 0, countof unicode_comp_table - 1))
    (fun r => r = triple_find ts c0 c1)).
  { rewrite wp_iff in Hwp. destruct Hwp as (r & -> & ->). done. }
  apply (wp_loop (search_inv c0 c1) (fun '(_, lo, hi) => Z.to_nat (hi + 1 - lo))).
  - intros [[pr lo] hi] (Hpr & Hlo & Hhi & Hbef & Haft).
    destruct pr as [|a [|b [|]]]; try done.
    destruct (Z.leb_spec lo hi) as [Hle|Hgt].
    + assert (Hmid : lo <= (hi + lo) / 2 <= hi) by dlia.
      destruct (lookup_lt_is_Some_2 ts (Z.to_nat ((hi + lo) / 2)))
        as [[[p0 p1] ch] Ht]; [lia|].
      rewrite (compose_step_spec c0 c1 a b lo hi p0 p1 ch
        (Z.to_nat ((hi + lo) / 2))); [|done|done|done|lia|done].
      set (k := Z.to_nat ((hi + lo) / 2)) in *.
      destruct ((c0 =? p0) && (c1 =? p1)) eqn:Eq.
      { zb. subst. apply wp_ret. symmetry. by eapply find_at. }
      assert (Hcmp : if triple_ltb (c0, c1, 0) (p0, p1, ch)
        then after c0 c1 (p0, p1, ch) else before c0 c1 (p0, p1, ch)).
      { unfold triple_ltb, after, before, triple_lt. cbn [fst snd].
        apply andb_false_iff in Eq. rewrite !Z.eqb_neq in Eq.
        destruct (Z.ltb_spec c0 p0), (Z.eqb_spec c0 p0), (Z.ltb_spec c1 p1);
          cbn [andb orb]; lia. }
      destruct (triple_ltb _ _); apply wp_ret; unfold search_inv.
      * split; [|lia]. split_and!; [done|lia|lia|lia|exact Hbef|].
        intros j t Hj Hlt. destruct (decide (j = k)) as [->|Hne].
        { rewrite Ht in Hj. by injection Hj as <-. }
        assert (Ho : triple_lt (p0, p1, ch) t)
          by (eapply (triple_order k j); [lia|done..]).
        unfold after, triple_lt in *. simpl in *. lia.
      * split; [|lia]. split_and!; [done|lia|lia|lia| |exact Haft].
        intros j t Hj Hlt. destruct (decide (j = k)) as [->|Hne].
        { rewrite Ht in Hj. by injection Hj as <-. }
        assert (Ho : triple_lt t (p0, p1, ch))
          by (eapply (triple_order j k); [lia|done..]).
        unfold before, triple_lt in *. simpl in *. lia.
    + unfold unicode_compose_step. destruct (Z.leb_spec lo hi); [lia|].
      apply wp_ret. symmetry. apply find_nowhere. intros k t Hk.
      destruct (Z_lt_le_dec (Z.of_nat k) lo); [left|right].
      * by eapply Hbef.
      * eapply Haft; [done|lia].
  - unfold search_inv, countof. rewrite <- Hlen. split_and!; [done|lia|lia|lia| |].
    + intros k t _ Hk. lia.
    + intros k t Hk. apply lookup_lt_Some in Hk. lia.
  - unfold countof. lia.
Qed.
End compose_search.

Lemma triples_hyps :
  length comp_triples = length unicode_comp_table /\
  StronglySorted triple_lt comp_triples.
Proof.
  destruct comp_triples_ok as [Hs _]. split; [|by apply triples_sorted_spec].
  unfold comp_triples, comp_indices. by rewrite !length_map, length_seq.
Qed.

(** What a pair composes to: the Hangul rules, then the table. *)
Definition compose_set (c0 c1 : Z) : Z := triple_find comp_triples c0 c1.

Lemma unicode_compose_pair_spec junk c0 c1 :
  0 <= c0 < 2 ^ 31 -> 0 <= c1 < 2 ^ 31 ->
  unicode_compose_pair junk c0 c1 = Ret (compose_set c0 c1).
Proof.
  intros H0 H1. destruct triples_hyps as [Hl Hs].
  exact (compose_search comp_triples Hl Hs (proj2 comp_triples_ok)
           comp_triples_agree junk c0 c1 H0 H1).
Qed.

Lemma triple_find_bound ts c0 c1 :
  forallb triple_bounded ts = true -> 0 <= triple_find ts c0 c1 < 2 ^ 20.
Proof.
  intros Hb. unfold triple_find.
  destruct (find (has_pair c0 c1) ts) as [[[p0 p1] ch]|] eqn:E; [|done].
  apply find_some in E as [Hin _]. rewrite forallb_forall in Hb.
  apply Hb in Hin. unfold triple_bounded in Hin. zb. lia.
Qed.

(** What two characters compose to, 0 if nothing. *)
Definition compose_value (c0 c1 : Z) : Z :=
  if (0x1100 <=? c0) && (c0 <? 0x1100 + 19) &&
     (0x1161 <=? c1) && (c1 <? 0x1161 + 21) then
    0xac00 + ((c0 - 0x1100) * 21 + (c1 - 0x1161)) * 28
  else if (0xac00 <=? c0) && (c0 <? 0xac00 + 11172) &&
          ((c0 - 0xac00) mod 28 =? 0) &&
          (0x11a7 <=? c1) && (c1 <? 0x11a7 + 28) then
    c0 + (c1 - 0x11a7)
  else compose_set c0 c1.

Definition char (x : Z) : Prop := 0 <= x < 2 ^ 31.

Lemma compose_pair_value junk c0 c1 :
  char c0 -> char c1 -> compose_pair junk c0 c1 = Ret (compose_value c0 c1).
Proof.
  intros H0 H1. unfold compose_pair, compose_value.
  destruct (_ && _ && _ && _); [f_equal; lia|].
  destruct (_ && _ && _ && _ && _); [f_equal; lia|].
  by apply unicode_compose_pair_spec.
Qed.

Lemma compose_value_char c0 c1 : char (compose_value c0 c1).
Proof.
  unfold compose_value, char.
  destruct (_ && _ && _ && _) eqn:E1; [zb; lia|].
  destruct (_ && _ && _ && _ && _) eqn:E2; [zb; lia|].
  pose proof (triple_find_bound _ c0 c1 (proj2 comp_triples_ok)) as Hb.
  unfold compose_set. lia.
Qed.

(** ** The composition loop of [unicode_normalize] *)

(** Reference definition on lists.  The starter that [x] may compose with:
    its position in the output, given reversed. *)
Fixpoint starter (ro : list Z) (last_cc : Z) : option nat :=
  match ro with
  | [] => None
  | y :: ro =>
      if cc_class y =? 0 then Some (length ro)
      else if last_cc <=? cc_class y then None
      else starter ro 256
  end.

(** One more character after the output [o]. *)
Definition compose_one (o : list Z) (x : Z) : list Z :=
  match starter (reverse o) (cc_class x) with
  | Some s =>
      let p := compose_value (nth s o 0) x in
      if p =? 0 then o ++ [x] else <[s := p]> o
  | None => o ++ [x]
  end.

Definition compose_list (l : list Z) : list Z :=
  match l with [] => [] | x :: l => foldl compose_one [x] l end.

Lemma starter_lt ro : forall cc s, starter ro cc = Some s -> (s < length ro)%nat.
Proof.
  induction ro as [|y ro IH]; intros cc s H; [done|]. cbn [starter length] in *.
  destruct (_ =? 0); [injection H as <-; lia|].
  destruct (cc <=? _); [done|]. apply IH in H. lia.
Qed.

Lemma find_starter_spec o rest last_cc :
  Forall char o ->
  loop (Datatypes.S (length o)) (find_starter_step (o ++ rest))
    (Z.of_nat (length o) - 1, last_cc)
  = Ret (Z.of_nat <$> starter (reverse o) last_cc).
Proof.
  revert rest last_cc. induction o as [|y o IH] using rev_ind;
    intros rest last_cc Ho; [done|].
  apply Forall_app in Ho as [Ho Hy]. inversion Hy as [|? ? Hy' _]; subst.
  rewrite length_app. cbn [length]. rewrite Nat.add_1_r, loop_S.
  unfold find_starter_step at 1.
  replace (Z.of_nat (Datatypes.S (length o)) - 1) with (Z.of_nat (length o)) by lia.
  destruct (Z.leb_spec 0 (Z.of_nat (length o))); [|lia].
  rewrite <- app_assoc. cbn [app].
  rewrite (rd_nat _ _ y) by (by apply list_lookup_middle). cbn [bind].
  rewrite unicode_get_cc_spec by apply Hy'. cbn [bind].
  rewrite reverse_app. cbn [reverse rev_append app starter].
  destruct (cc_class y =? 0).
  { cbn [bind fmap option_fmap option_map]. by rewrite length_reverse. }
  destruct (last_cc <=? cc_class y); [done|]. cbn [bind].
  by rewrite (IH (y :: rest)).
Qed.

(** The buffer: the output [o], characters already read, those to read. *)
Definition compose_inv (target : list Z) : list Z * Z * Z -> Prop :=
  fun '(b, i, out_len) => exists o gap rest,
    b = o ++ gap ++ rest /\ out_len = Z.of_nat (length o) /\
    i = Z.of_nat (length (o ++ gap)) /\ Forall char b /\
    foldl compose_one o rest = target.

Lemma compose_one_write junk o gap x rest :
  Forall char (o ++ gap ++ x :: rest) ->
  wp (compose_step junk (Z.of_nat (length (o ++ gap ++ x :: rest)))
        (o ++ gap ++ x :: rest, Z.of_nat (length (o ++ gap)), Z.of_nat (length o)))
    (fun r => exists gap', r = inl (compose_one o x ++ gap' ++ rest,
       Z.of_nat (length (o ++ gap)) + 1, Z.of_nat (length (compose_one o x))) /\
       length (compose_one o x ++ gap') = Datatypes.S (length (o ++ gap)) /\
       Forall char (compose_one o x ++ gap' ++ rest)).
Proof.
  intros Hb. unfold compose_step.
  destruct (Z.ltb_spec (Z.of_nat (length (o ++ gap)))
    (Z.of_nat (length (o ++ gap ++ x :: rest)))); [|lens].
  pose proof Hb as Hb0. apply Forall_app in Hb as [Ho Hb].
  apply Forall_app in Hb as [Hg Hb]. inversion Hb as [|? ? Hx Hrest]; subst.
  rewrite (rd_nat _ (length (o ++ gap)) x)
    by (rewrite app_assoc; by apply list_lookup_middle).
  cbn [bind]. rewrite unicode_get_cc_spec by apply Hx. cbn [bind].
  rewrite Nat2Z.id, find_starter_spec by done. cbn [bind].
  assert (Hkeep : exists gap', wr (o ++ gap ++ x :: rest) (Z.of_nat (length o)) x
      = Ret ((o ++ [x]) ++ gap' ++ rest) /\ length gap' = length gap /\
      Forall char gap').
  { rewrite wr_in by lens. rewrite Nat2Z.id.
    replace (length o) with (length o + 0)%nat by lia. rewrite insert_app_r.
    destruct gap as [|g gap]; simpl.
    - exists []. by rewrite <- app_assoc.
    - exists (gap ++ [x]). rewrite <- !app_assoc. split; [done|].
      split; [lens|]. inversion Hg; subst. by apply Forall_app; split; [|constructor]. }
  destruct Hkeep as (gap' & Hw & Hl & Hg').
  assert (Hx1 : Forall char [x]) by by constructor.
  unfold compose_one. destruct (starter (reverse o) (cc_class x)) as [s|] eqn:Es;
    cbn [fmap option_fmap option_map].
  - apply starter_lt in Es. rewrite length_reverse in Es.
    destruct (lookup_lt_is_Some_2 o s Es) as [y Hy].
    rewrite (rd_nat _ s y) by (by apply lookup_app_l_Some). cbn [bind].
    assert (char y) as Hcy by (exact (Forall_lookup_1 _ _ _ _ Ho Hy)).
    rewrite compose_pair_value by done. cbn [bind].
    rewrite (nth_lookup_Some o s 0 y Hy).
    destruct (Z.eqb_spec (compose_value y x) 0); cbn [negb].
    + rewrite Hw. cbn [bind]. apply wp_ret. exists gap'. split; [|split].
      * do 2 f_equal. lens.
      * lens.
      * rewrite !Forall_app. by split_and!.
    + rewrite wr_in by lens. cbn [bind]. rewrite Nat2Z.id, insert_app_l by done.
      apply wp_ret. exists (gap ++ [x]). rewrite <- app_assoc, length_insert.
      split; [done|]. rewrite length_app, length_insert. split; [lens|].
      rewrite !Forall_app. split_and!; [|done|done|done].
      apply Forall_insert; [done|apply compose_value_char].
  - rewrite Hw. cbn [bind]. apply wp_ret. exists gap'. split; [|split].
    + do 2 f_equal. lens.
    + lens.
    + rewrite !Forall_app. by split_and!.
Qed.

(** The loop works in place and computes the reference composition. *)
Lemma compose_loop_spec junk buf :
  Forall char buf -> buf <> [] ->
  let len := Z.of_nat (length buf) in
  wp (loop (Datatypes.S (Z.to_nat len)) (compose_step junk len) (buf, 1, 1))
    (fun '(buf', out_len) => 0 <= out_len <= Z.of_nat (length buf') /\
      take (Z.to_nat out_len) buf' = compose_list buf).
Proof.
  intros Hbuf Hne len.
  apply (wp_loop (fun s => compose_inv (compose_list buf) s /\
      Z.of_nat (length s.1.1) = len) (fun s => Z.to_nat (len - s.1.2))).
  - intros [[b i] out_len] [(o & gap & rest & -> & -> & -> & Hb & Ht) Hlen].
    cbn [fst snd] in Hlen. destruct rest as [|x rest].
    + unfold compose_step. rewrite app_nil_r in *.
      destruct (Z.ltb_spec (Z.of_nat (length (o ++ gap))) len); [lia|].
      apply wp_ret. cbn [foldl] in Ht. rewrite Nat2Z.id.
      split; [lens|]. by rewrite take_app_length.
    + rewrite <- Hlen. eapply wp_mono; [by apply compose_one_write|].
      intros r (gap' & -> & Hl & Hb'). split; [split|].
      * exists (compose_one o x), gap', rest. split_and!; [done|done|lia|done|done].
      * cbn [fst snd]. lens.
      * cbn [fst snd]. lens.
  - destruct buf as [|x buf]; [done|]. split; [|done].
    exists [x], [], buf. by split_and!.
  - cbn [fst snd]. lia.
Qed.

(** ** Decomposition *)

Lemma words_of_bytes_u32 v l :
  0 <= v < 2 ^ 32 -> words_of_bytes (bytes_of_u32 v ++ l) = v :: words_of_bytes l.
Proof.
  intros Hv. cbn [bytes_of_u32 app words_of_bytes]. f_equal.
  unfold u8. rewrite !Z.shiftr_div_pow2 by lia.
  change (2 ^ 8) with 256. change (2 ^ 16) with (256 * 256).
  change (2 ^ 24) with (256 * 256 * 256). dlia.
Qed.

Definition word_bytes (ws : list Z) : list Z := concat (map bytes_of_u32 ws).

Lemma words_of_word_bytes ws :
  Forall char ws -> words_of_bytes (word_bytes ws) = ws.
Proof.
  induction 1 as [|w ws Hw _ IH]; [done|]. unfold word_bytes in *. cbn [map concat].
  rewrite words_of_bytes_u32, IH; [done|]. unfold char in Hw. lia.
Qed.

Lemma word_bytes_length ws : Z.of_nat (length (word_bytes ws)) = 4 * Z.of_nat (length ws).
Proof.
  induction ws as [|w ws IH]; [done|]. unfold word_bytes in *. cbn [map concat].
  rewrite length_app. simpl length in *. lia.
Qed.

(** The decomposition of one character as the tables give it: [Some []] when
    there is none. *)
Definition decomposition (junk is_compat c : Z) : option (list Z) :=
  match unicode_decomp_char (replicate (Z.to_nat UNICODE_DECOMP_LEN_MAX) junk)
          c is_compat with
  | Ret (out, l) =>
      if (0 <=? l) && (l <=? Z.of_nat (length out))
      then Some (take (Z.to_nat l) out) else None
  | _ => None
  end.

Definition is_hangul (c : Z) : bool := (0xac00 <=? c) && (c <? 0xd7a4).

(** The conjoining jamos of a syllable. *)
Definition hangul_jamos (c : Z) : list Z :=
  let s := c - 0xac00 in
  [0x1100 + s / 588; 0x1161 + s mod 588 / 28]
  ++ (if s mod 28 =? 0 then [] else [0x11a7 + s mod 28]).

(** The full decomposition, by recursion on the depth. *)
Fixpoint nfd_words (junk is_compat : Z) (depth : nat) (c : Z)
  : option (list Z) :=
  match depth with
  | O => None
  | Datatypes.S depth =>
      if is_hangul c then Some (hangul_jamos c)
      else
        match decomposition junk is_compat c with
        | None => None
        | Some [] => Some [c]
        | Some l => (fun ls => concat ls) <$> mapM (nfd_words junk is_compat depth) l
        end
  end.

(** Words appended to a buffer by calls whose results are ignored. *)
Definition puts (ws : list Z) (d d' : DynBuf) : Prop :=
  dbuf_wf d' /\ (error d = true -> error d' = true) /\
  (error d' = false -> contents d' = contents d ++ word_bytes ws) /\
  size d' <= size d + 4 * Z.of_nat (length ws).

Lemma puts_app ws1 ws2 d d1 d2 :
  puts ws1 d d1 -> puts ws2 d1 d2 -> puts (ws1 ++ ws2) d d2.
Proof.
  intros (_ & M1 & C1 & S1) (W2 & M2 & C2 & S2). unfold puts, word_bytes in *.
  split; [done|]. split; [auto|]. split.
  - intros He. rewrite C2 by done. rewrite C1, map_app, concat_app, app_assoc; [done|].
    destruct (error d1) eqn:E; [|done]. rewrite M2 in He by done. done.
  - rewrite length_app. lia.
Qed.

Section nfd.
Context {al : Allocator} {al_ok : AllocatorOk al} (junk is_compat : Z).

Definition puts_post (d : DynBuf) (ws : list Z) : heap * DynBuf -> Prop :=
  fun '(_, d') => puts ws d d'.

Lemma put_word_spec h d v :
  dbuf_wf d -> size d + 4 < 2 ^ 64 ->
  wp (put_word (h, d) v) (puts_post d [v]).
Proof.
  intros Hwf Hs. unfold put_word, dbuf_put_u32. cbn [fst snd]. apply wp_bind.
  eapply wp_mono; [apply dbuf_put_spec; [done|simpl; lia]|].
  intros [[h' d'] r] (Hwf' & Hcase). apply wp_ret. unfold puts_post, puts.
  split; [done|]. rewrite <- (contents_length d'), <- (contents_length d) by done.
  destruct Hcase as [(_ & He & Hc)|(_ & He & Hc)]; rewrite Hc.
  - split; [congruence|]. split; [done|]. rewrite length_app. simpl. lia.
  - split; [done|]. split; [congruence|]. simpl. lia.
Qed.

(** Sequencing two appends. *)
Lemma puts_bind d ws1 ws2 e (k : heap * DynBuf -> res (heap * DynBuf)) :
  wp e (puts_post d ws1) ->
  (forall h d', puts ws1 d d' -> wp (k (h, d')) (puts_post d' ws2)) ->
  wp (bind e k) (puts_post d (ws1 ++ ws2)).
Proof.
  intros He Hk. apply wp_bind. eapply wp_mono; [exact He|].
  intros [h d'] Hp. eapply wp_mono; [by apply Hk|].
  intros [h2 d2] Hp2. by eapply puts_app.
Qed.

Lemma hangul_put h d c (rec : heap * DynBuf -> list Z -> res (heap * DynBuf)) :
  dbuf_wf d -> size d + 4 * Z.of_nat (length (hangul_jamos c)) < 2 ^ 64 ->
  is_hangul c = true ->
  wp (to_nfd_char junk rec is_compat c (h, d)) (puts_post d (hangul_jamos c)).
Proof.
  intros Hwf Hs Hc. unfold to_nfd_char, hangul_jamos in *. unfold is_hangul in Hc.
  rewrite Hc. cbv zeta in *. rewrite length_app in Hs. cbn [length] in Hs.
  apply (puts_bind d [_] (_ :: _)); [apply put_word_spec; [done|lia]|].
  intros h1 d1 (W1 & _ & _ & S1). cbn [length] in S1.
  apply (puts_bind d1 [_]); [apply put_word_spec; [done|lia]|].
  intros h2 d2 (W2 & _ & _ & S2). cbn [length] in S2.
  destruct (_ =? 0); cbn [negb length] in *;
    [|apply put_word_spec; [done|lia]].
  apply wp_ret. unfold puts_post, puts. split; [done|]. split; [done|].
  split; [by rewrite app_nil_r|simpl; lia].
Qed.

Lemma for_list {A} (l : list A) (body : A -> heap * DynBuf -> res (heap * DynBuf))
    (wss : list (list Z)) :
  forall pre h d, dbuf_wf d ->
  size d + 4 * Z.of_nat (length (concat wss)) < 2 ^ 64 ->
  Forall2 (fun x ws => forall h d, dbuf_wf d ->
    size d + 4 * Z.of_nat (length ws) < 2 ^ 64 ->
    wp (body x (h, d)) (puts_post d ws)) l wss ->
  wp (for_upto (length l) (Z.of_nat (length pre)) (fun i s =>
        let* x := rd (pre ++ l) i in body x s) (h, d))
    (puts_post d (concat wss)).
Proof.
  revert wss. induction l as [|x l IH]; intros wss pre h d Hwf Hs Hall;
    inversion Hall as [|x' ws l' wss' Hx Hrest]; subst.
  - apply wp_ret. unfold puts_post, puts. split; [done|]. split; [done|].
    split; [by rewrite app_nil_r|simpl; lia].
  - cbn [concat] in *. rewrite length_app in Hs. cbn [for_upto length].
    apply puts_bind.
    + rewrite (rd_nat _ _ x) by (by apply list_lookup_middle). cbn [bind].
      apply Hx; [done|lia].
    + intros h' d' (W' & _ & _ & S').
      specialize (IH wss' (pre ++ [x]) h' d' W' ltac:(lia) Hrest).
      rewrite <- app_assoc, length_app in IH. cbn [app length] in IH.
      by rewrite Nat2Z.inj_add in IH.
Qed.

Lemma mapM_Forall2 {A B} (f : A -> option B) l k :
  mapM f l = Some k -> Forall2 (fun x y => f x = Some y) l k.
Proof. by rewrite mapM_Some. Qed.

(** [to_nfd_rec] appends the full decompositions, in order. *)
Lemma to_nfd_rec_spec depth : forall src wss h d,
  mapM (nfd_words junk is_compat depth) src = Some wss ->
  dbuf_wf d -> size d + 4 * Z.of_nat (length (concat wss)) < 2 ^ 64 ->
  wp (to_nfd_rec junk (Datatypes.S depth) is_compat (h, d) src)
    (puts_post d (concat wss)).
Proof.
  induction depth as [|depth IH]; intros src wss h d Hm Hwf Hs;
    apply mapM_Forall2 in Hm; cbn [to_nfd_rec];
    apply (for_list src (to_nfd_char junk _ is_compat) wss []); try done.
  - eapply Forall2_impl; [exact Hm|]. by intros c ws H.
  - eapply Forall2_impl; [exact Hm|]. clear -IH al_ok.
    intros c ws Hc h d Hwf Hs. cbn [nfd_words] in Hc.
    destruct (is_hangul c) eqn:Hh.
    { injection Hc as <-. by apply hangul_put. }
    unfold to_nfd_char. unfold is_hangul in Hh. rewrite Hh.
    unfold decomposition in Hc.
    destruct (unicode_decomp_char _ c is_compat) as [[out l]| |];
      [|discriminate Hc..]. cbn [bind].
    destruct ((0 <=? l) && _) eqn:Hl; [|discriminate Hc]. zb.
    destruct (Z.eqb_spec l 0) as [->|Hne]; cbn [negb].
    { injection Hc as <-. apply put_word_spec; [done|simpl in Hs; lia]. }
    rewrite slice_in by lia. cbn [bind]. change (Z.to_nat 0) with 0%nat.
    rewrite drop_0. destruct (take (Z.to_nat l) out) as [|x l'] eqn:Et.
    { apply (f_equal length) in Et. rewrite length_take in Et. simpl in Et. lia. }
    apply fmap_Some in Hc as (wss & Hm & ->). by apply IH.
Qed.
End nfd.

(** ** [unicode_normalize] *)

Definition compat_of (n : UnicodeNormalizationEnum) : Z :=
  Z.shiftr (UnicodeNormalizationEnum_Z n) 1.

Definition composes (n : UnicodeNormalizationEnum) : bool :=
  match n with UNICODE_NFC | UNICODE_NFKC => true | _ => false end.

(** The result for the full decomposition [ws]. *)
Definition normal_form (n : UnicodeNormalizationEnum) (ws : list Z)
    (out : list Z) : Prop :=
  exists d, canonical cc_class ws d /\
    out = if composes n then compose_list d else d.

Lemma compose_list_short l : (length l <= 1)%nat -> compose_list l = l.
Proof. destruct l as [|x [|]]; [done|done|simpl; lia]. Qed.

Lemma canonical_char ws d : canonical cc_class ws d -> Forall char ws ->
  Forall char d /\ length d = length ws.
Proof.
  intros [Hr _] Hw. apply exchange_permutation in Hr. split; [by rewrite <- Hr|].
  by rewrite Hr.
Qed.

Lemma sort_cc_class ws : Forall char ws ->
  wp (sort_cc unicode_get_cc ws (Z.of_nat (length ws))) (canonical cc_class ws).
Proof.
  intros Hw. apply sort_cc_spec. intros x Hx. rewrite Forall_forall in Hw.
  specialize (Hw x Hx). unfold char in Hw.
  split; [apply unicode_get_cc_spec; lia|apply cc_class_nonneg].
Qed.

(** Ordering and composition of the decomposed characters. *)
Lemma normalize_words junk n ws :
  Forall char ws ->
  wp (let buf_len := Z.of_nat (length ws) in
      let* buf := sort_cc unicode_get_cc ws buf_len in
      if (buf_len <=? 1) || negb (composes n) then Ret (buf, buf_len)
      else
        loop (Datatypes.S (Z.to_nat buf_len)) (compose_step junk buf_len)
          (buf, 1, 1))
    (fun '(b, len) => 0 <= len <= Z.of_nat (length b) /\
      normal_form n ws (take (Z.to_nat len) b)).
Proof.
  intros Hw. cbv zeta. apply wp_bind. eapply wp_mono; [by apply sort_cc_class|].
  intros d Hd. destruct (canonical_char _ _ Hd Hw) as [Hc Hl].
  assert (Hfull : take (Z.to_nat (Z.of_nat (length ws))) d = d)
    by (apply take_ge; lia).
  destruct (Z.leb_spec (Z.of_nat (length ws)) 1) as [Hle|Hgt]; cbn [orb].
  - apply wp_ret. split; [lia|]. exists d. split; [done|]. rewrite Hfull.
    destruct (composes n); [|done]. by rewrite compose_list_short by lia.
  - destruct (composes n) eqn:En; cbn [negb].
    + rewrite <- Hl in *. eapply wp_mono.
      { apply compose_loop_spec; [done|]. intros ->. simpl in *. lia. }
      intros [b len] [Hb Ht]. split; [done|]. exists d. by rewrite En.
    + apply wp_ret. split; [lia|]. exists d. by rewrite En.
Qed.

Section normalize.
Context {al : Allocator} {al_ok : AllocatorOk al} (junk : Z).

End normalize.

(** C31.  [sort_cc] with the combining classes of the table is the canonical
    ordering algorithm of the Unicode standard: its result is reached by
    exchanges of adjacent marks of decreasing class, and no reorderable pair
    is left. *)
Theorem sort_cc_canonical buf :
  (forall x, x ∈ buf -> 0 <= x) ->
  wp (sort_cc unicode_get_cc buf (Z.of_nat (length buf)))
    (fun buf' => rtc (exchange cc_class) buf buf' /\ nf (exchange cc_class) buf').
Proof.
  intros Hb. apply sort_cc_spec. intros x Hx.
  split; [by apply unicode_get_cc_spec, Hb|apply cc_class_nonneg].
Qed.

Lemma sort_cc_canonical_witness :
  wp (sort_cc unicode_get_cc [0x73; 0x307; 0x323; 0x41] 4)
    (fun buf' => rtc (exchange cc_class) [0x73; 0x307; 0x323; 0x41] buf' /\
      nf (exchange cc_class) buf').
Proof.
  apply (sort_cc_canonical [0x73; 0x307; 0x323; 0x41]).
  intros x Hx. repeat (apply elem_of_cons in Hx as [->|Hx]; [lia|]). by inv Hx.
Defined.


(** ** Composition and decomposition *)

Definition inverts (junk : Z) : Z * Z * Z -> bool := fun '(p0, p1, ch) =>
  match decomposition junk 0 ch with
  | Some [q0; q1] => (q0 =? p0) && (q1 =? p1)
  | _ => false
  end.

(** The composition table inverts the decomposition table. *)
Lemma comp_inverts_ok junk : forallb (inverts junk) comp_triples = true.
Proof. by vm_compute. Qed.

Lemma triple_find_decomposes junk ts c0 c1 :
  forallb (inverts junk) ts = true ->
  triple_find ts c0 c1 <> 0 ->
  decomposition junk 0 (triple_find ts c0 c1) = Some [c0; c1].
Proof.
  intros Hall Hne. unfold triple_find in *.
  destruct (find (has_pair c0 c1) ts) as [[[p0 p1] ch]|] eqn:E; [|done].
  apply find_some in E as [Hin Hp]. unfold has_pair in Hp.
  rewrite forallb_forall in Hall. specialize (Hall _ Hin). unfold inverts in Hall.
  destruct (decomposition junk 0 ch) as [[|q0 [|q1 [|]]]|]; try done.
  zb. by subst.
Qed.

(** C32.  The binary search of [unicode_compose_pair] over an index into the
    compressed decomposition table: it terminates in bounds for every pair,
    and when it finds a character, that character's canonical decomposition
    is the pair. *)
Theorem compose_decompose junk c0 c1 :
  char c0 -> char c1 ->
  wp (unicode_compose_pair junk c0 c1) (fun p =>
    p = compose_set c0 c1 /\
    (p <> 0 -> decomposition junk 0 p = Some [c0; c1])).
Proof.
  intros H0 H1. rewrite unicode_compose_pair_spec by done. apply wp_ret.
  split; [reflexivity|].
  exact (triple_find_decomposes junk comp_triples c0 c1 (comp_inverts_ok junk)).
Qed.

Lemma compose_decompose_witness :
  wp (unicode_compose_pair 0 0x41 0x301) (fun p => p = compose_set 0x41 0x301 /\
    (p <> 0 -> decomposition 0 0 p = Some [0x41; 0x301])).
Proof. apply (compose_decompose 0 0x41 0x301); split; vm_compute; done. Defined.

(** Hangul syllables: the decomposition that [to_nfd_rec] writes for a
    syllable composes back, by [compose_pair], to that syllable. *)
Theorem hangul_roundtrip junk c :
  0xac00 <= c < 0xd7a4 ->
  exists l v t, hangul_jamos c = l :: v :: t /\
  (let* lv := compose_pair junk l v in
   match t with
   | [] => Ret lv
   | t :: _ => compose_pair junk lv t
   end) = Ret c.
Proof.
  intros Hc. unfold hangul_jamos. cbv zeta.
  do 3 eexists. split; [reflexivity|]. unfold compose_pair at 1.
  set (s := c - 0xac00). assert (Hs : 0 <= s < 11172) by (unfold s; lia).
  assert (Hd : 0 <= s / 588 < 19 /\ 0 <= s mod 588 / 28 < 21) by dlia.
  destruct (_ && _ && _ && _) eqn:E.
  2: { apply andb_false_iff in E. rewrite !andb_false_iff in E.
       rewrite !Z.leb_gt, !Z.ltb_ge in E. lia. }
  cbn [bind].
  assert (El : 0xac00 + (0x1100 + s / 588 - 0x1100) * 588
    + (0x1161 + s mod 588 / 28 - 0x1161) * 28 = c - s mod 28) by (unfold s in *; dlia).
  rewrite El. destruct (Z.eqb_spec (s mod 28) 0) as [E0|E0].
  - f_equal. lia.
  - unfold compose_pair.
    destruct ((0x1100 <=? c - s mod 28) && _ && _ && _) eqn:E1.
    { zb. unfold s in *. dlia. }
    destruct (_ && _ && _ && _ && _) eqn:E2.
    + f_equal. lia.
    + exfalso. rewrite !andb_false_iff, !Z.leb_gt, !Z.ltb_ge, Z.eqb_neq in E2.
      unfold s in *. dlia.
Qed.

Lemma hangul_roundtrip_witness :
  exists l v t, hangul_jamos 0xd55c = l :: v :: t /\
  (let* lv := compose_pair 0 l v in
   match t with [] => Ret lv | t :: _ => compose_pair 0 lv t end) = Ret 0xd55c.
Proof. apply (hangul_roundtrip 0 0xd55c). lia. Defined.

