(* ===== verification/LreExec.v ===== *)
(** * The executor of regular expressions ([libregexp.c])

    [lre_exec_backtrack]: the opcodes on a position in the subject, and the
    explicit stack of states to which a failure returns.  The subject is its
    sequence of code units and a [cptr] is an index in it; the operand stack
    is the list of its live entries, the top first (an entry above
    [stack_len] is never read); the labels [no_match] and [recurse] of the C
    loop are states of the machine. *)

From stdpp Require Import base tactics numbers list option.
From Stdlib Require Import ZArith Lia.
From S2P Require Import Prelude Cutils UnicodeCase.

Open Scope Z_scope.

Inductive REOPCodeEnum :=
  | REOP_invalid | REOP_char | REOP_char32 | REOP_dot | REOP_any
  | REOP_line_start | REOP_line_end | REOP_goto | REOP_split_goto_first
  | REOP_split_next_first | REOP_match | REOP_save_start | REOP_save_end
  | REOP_save_reset | REOP_loop | REOP_push_i32 | REOP_drop
  | REOP_word_boundary | REOP_not_word_boundary | REOP_back_reference
  | REOP_backward_back_reference | REOP_range | REOP_range32 | REOP_lookahead
  | REOP_negative_lookahead | REOP_push_char_pos | REOP_bne_char_pos
  | REOP_prev | REOP_simple_greedy_quant.

(** The opcodes in the order of libregexp-opcode.h, with their sizes. *)
Definition reopcode_info : list (REOPCodeEnum * Z) :=
  [(REOP_invalid, 1); (REOP_char, 3); (REOP_char32, 5); (REOP_dot, 1);
   (REOP_any, 1); (REOP_line_start, 1); (REOP_line_end, 1); (REOP_goto, 5);
   (REOP_split_goto_first, 5); (REOP_split_next_first, 5); (REOP_match, 1);
   (REOP_save_start, 2); (REOP_save_end, 2); (REOP_save_reset, 3);
   (REOP_loop, 5); (REOP_push_i32, 5); (REOP_drop, 1);
   (REOP_word_boundary, 1); (REOP_not_word_boundary, 1);
   (REOP_back_reference, 2); (REOP_backward_back_reference, 2);
   (REOP_range, 3); (REOP_range32, 3); (REOP_lookahead, 5);
   (REOP_negative_lookahead, 5); (REOP_push_char_pos, 1);
   (REOP_bne_char_pos, 5); (REOP_prev, 1); (REOP_simple_greedy_quant, 17)].

Definition RE_HEADER_FLAGS : Z := 0.
Definition RE_HEADER_CAPTURE_COUNT : Z := 1.
Definition RE_HEADER_STACK_SIZE : Z := 2.
Definition RE_HEADER_LEN : Z := 7.
Definition LRE_FLAG_IGNORECASE : Z := 2.
Definition LRE_FLAG_MULTILINE : Z := 4.
Definition LRE_FLAG_UTF16 : Z := 16.
Definition LRE_FLAG_NAMED_GROUPS : Z := 128.

Definition CP_LS : Z := 0x2028.
Definition CP_PS : Z := 0x2029.

Definition is_line_terminator (c : Z) : bool :=
  (c =? 10) || (c =? 13) || (c =? CP_LS) || (c =? CP_PS).

Definition is_word_char (c : Z) : bool :=
  ((48 <=? c) && (c <=? 57)) || ((97 <=? c) && (c <=? 122))
  || ((65 <=? c) && (c <=? 90)) || (c =? 95).

(** canonicalize with the specific JS regexp rules *)
Definition lre_canonicalize (c : Z) (is_utf16 : bool) : res Z :=
  if is_utf16 then
    if c <? 128 then
      Ret (if (65 <=? c) && (c <=? 90) then c - 65 + 97 else c)
    else
      let* r := lre_case_conv c 2 in rd r 0
  else
    if c <? 128 then
      Ret (if (97 <=? c) && (c <=? 122) then c - 97 + 65 else c)
    else
      (* legacy regexp: to upper case if single char >= 128 *)
      let* r := lre_case_conv c 0 in
      let* r0 := rd r 0 in
      Ret (if (Z.of_nat (length r) =? 1) && (128 <=? r0) then r0 else c).

(** What does not change while a match runs: the fields of [REExecContext]
    and the bytecode. *)
Record re_env := mkReEnv {
  bc_buf : list Z;
  cbuf : list Z;
  (** 0 = 8 bit chars, 1 = 16 bit chars, 2 = 16 bit chars, UTF-16 *)
  cbuf_type : Z;
  capture_count : Z;
  stack_size_max : Z;
  multi_line : bool;
  ignore_case : bool;
  re_is_utf16 : bool
}.

(** The variables of the match: [capture] has two positions for each group. *)
Record re_vm := mkVm {
  capture : list (option Z);
  stack : list Z;
  re_pc : Z;
  cptr : Z
}.

Inductive REExecStateEnum :=
  | RE_EXEC_STATE_SPLIT | RE_EXEC_STATE_LOOKAHEAD
  | RE_EXEC_STATE_NEGATIVE_LOOKAHEAD | RE_EXEC_STATE_GREEDY_QUANT.

(** A saved state: the match at [re_pc] and [cptr], and a count that only
    [RE_EXEC_STATE_GREEDY_QUANT] uses. *)
Record REExecState := mkState {
  rs_type : REExecStateEnum;
  rs_count : Z;
  rs_vm : re_vm
}.

(** The memory behind [lre_realloc]: it may refuse to grow the block of
    states. *)
Class LreRealloc := {
  lheap : Type;
  lre_realloc : lheap -> Z -> lheap * bool
}.

Section exec.
Context {lr : LreRealloc} (e : re_env).

Definition cbuf_end : Z := Z.of_nat (length (cbuf e)).

Definition is_hi_surrogate (c : Z) : bool := (0xd800 <=? c) && (c <? 0xdc00).
Definition is_lo_surrogate (c : Z) : bool := (0xdc00 <=? c) && (c <? 0xe000).
Definition from_surrogates (hi lo : Z) : Z :=
  Z.lor (Z.shiftl (Z.land hi 0x3ff) 10) (Z.land lo 0x3ff) + 0x10000.

(** The macros on characters; [GET_CHAR] and [GET_PREV_CHAR] give the
    character and the new position. *)
Definition GET_CHAR (p p_end : Z) : res (Z * Z) :=
  let* c := rd (cbuf e) p in
  let p := p + 1 in
  if is_hi_surrogate c && (cbuf_type e =? 2) && (p <? p_end) then
    let* c1 := rd (cbuf e) p in
    Ret (if is_lo_surrogate c1 then (from_surrogates c c1, p + 1) else (c, p))
  else Ret (c, p).

Definition PEEK_CHAR (p p_end : Z) : res Z :=
  let* c := rd (cbuf e) p in
  if is_hi_surrogate c && (cbuf_type e =? 2) && (p + 1 <? p_end) then
    let* c1 := rd (cbuf e) (p + 1) in
    Ret (if is_lo_surrogate c1 then from_surrogates c c1 else c)
  else Ret c.

Definition PEEK_PREV_CHAR (p p_start : Z) : res Z :=
  let* c := rd (cbuf e) (p - 1) in
  if is_lo_surrogate c && (cbuf_type e =? 2) && (p_start <=? p - 2) then
    let* c1 := rd (cbuf e) (p - 2) in
    Ret (if is_hi_surrogate c1 then from_surrogates c1 c else c)
  else Ret c.

Definition GET_PREV_CHAR (p p_start : Z) : res (Z * Z) :=
  let p := p - 1 in
  let* c := rd (cbuf e) p in
  if is_lo_surrogate c && (cbuf_type e =? 2) && (p_start <? p) then
    let* c1 := rd (cbuf e) (p - 1) in
    Ret (if is_hi_surrogate c1 then (from_surrogates c1 c, p - 1) else (c, p))
  else Ret (c, p).

Definition PREV_CHAR (p p_start : Z) : res Z :=
  let p := p - 1 in
  if p <? 0 then Ub
  else if cbuf_type e =? 2 then
    let* c := rd (cbuf e) p in
    if is_lo_surrogate c && (p_start <? p) then
      let* c := rd (cbuf e) (p - 1) in
      Ret (if is_hi_surrogate c then p - 1 else p)
    else Ret p
  else Ret p.

Definition canon (c : Z) : res Z :=
  if ignore_case e then lre_canonicalize c (re_is_utf16 e) else Ret c.

(** ** The opcodes *)

(** What an opcode asks of the loop: to go on, [goto no_match], the end of
    the match, to try [first] and save [pc1] for a failure, to run the body
    of an assertion and go on at [pc1], or to repeat the atom at [pc1]. *)
Inductive re_result :=
  | Next (v : re_vm)
  | NoMatch
  | Match
  | Split (first : re_vm) (pc1 : Z)
  | Look (neg : bool) (body : re_vm) (pc1 : Z)
  | Greedy (v : re_vm) (pc1 quant_min quant_max : Z).

(** The comparison loop of the back references: the new position after the
    captured text, or [None]. *)
Fixpoint back_ref_loop (fuel : nat) (p1 p1_end p : Z) : res (option Z) :=
  match fuel with
  | O => OutOfFuel
  | S fuel =>
      if p1 <? p1_end then
        if cbuf_end <=? p then Ret None
        else
          let* r1 := GET_CHAR p1 p1_end in
          let* r2 := GET_CHAR p cbuf_end in
          let* c1 := canon r1.1 in
          let* c2 := canon r2.1 in
          if negb (c1 =? c2) then Ret None
          else back_ref_loop fuel r1.2 p1_end r2.2
      else Ret (Some p)
  end.

Fixpoint backward_ref_loop (fuel : nat) (p1 p1_start p : Z) : res (option Z) :=
  match fuel with
  | O => OutOfFuel
  | S fuel =>
      if p1_start <? p1 then
        if p =? 0 then Ret None
        else
          let* r1 := GET_PREV_CHAR p1 p1_start in
          let* r2 := GET_PREV_CHAR p 0 in
          let* c1 := canon r1.1 in
          let* c2 := canon r2.1 in
          if negb (c1 =? c2) then Ret None
          else backward_ref_loop fuel r1.2 p1_start r2.2
      else Ret (Some p)
  end.

(** The binary search of [REOP_range] ([w] = 2) and [REOP_range32] ([w] = 4);
    the indexes are [uint32_t]. *)
Definition range_bound (w p : Z) : res Z :=
  if w =? 2 then get_u16 (bc_buf e) p else get_u32 (bc_buf e) p.

Definition range_step (w p c : Z) (s : Z * Z) : res (Z * Z + bool) :=
  let '(idx_min, idx_max) := s in
  if idx_min <=? idx_max then
    let idx := u32 (idx_min + idx_max) / 2 in
    let* low := range_bound w (p + idx * (2 * w)) in
    let* high := range_bound w (p + idx * (2 * w) + w) in
    if c <? low then Ret (inl (idx_min, u32 (idx - 1)))
    else if high <? c then Ret (inl (u32 (idx + 1), idx_max))
    else Ret (inr true)
  else Ret (inr false).

(** Whether [c] is in one of the [n] ranges at [p]. *)
Definition range_test (w p n c : Z) : res bool :=
  let* low := range_bound w p in
  if c <? low then Ret false
  else
    let idx_max := u32 (n - 1) in
    let* high := range_bound w (p + idx_max * (2 * w) + w) in
    (* 0xffff in for last value means +infinity *)
    if (w =? 2) && (0xffff <=? c) && (high =? 0xffff) then Ret true
    else if high <? c then Ret false
    else loop 34 (range_step w p c) (0, idx_max).

Definition go (v : re_vm) (pc1 cptr1 : Z) : re_result :=
  Next (mkVm (capture v) (stack v) pc1 cptr1).

(** [assert(val < s->capture_count)] and a store in [capture]. *)
Definition set_capture (v : re_vm) (i : Z) (x : option Z) : res (list (option Z)) :=
  wr (capture v) i x.

Fixpoint reset_captures (n : nat) (val : Z) (cap : list (option Z))
  : res (list (option Z)) :=
  match n with
  | O => Ret cap
  | S n =>
      let* cap := wr cap (2 * val) None in
      let* cap := wr cap (2 * val + 1) None in
      reset_captures n (val + 1) cap
  end.

Definition push_stack (v : re_vm) (x : Z) : res (list Z) :=
  if Z.of_nat (length (stack v)) <? stack_size_max e then Ret (x :: stack v) else Ub.

(** The [switch]: [pc] is after the opcode.  [test] is the search in a
    range. *)
Definition re_insn (test : Z -> Z -> Z -> Z -> res bool) (op : REOPCodeEnum)
    (v : re_vm) : res re_result :=
  let pc := re_pc v in
  let p := cptr v in
  let test_char val pc :=
    if cbuf_end <=? p then Ret NoMatch
    else
      let* r := GET_CHAR p cbuf_end in
      let* c := canon r.1 in
      Ret (if negb (val =? c) then NoMatch else go v pc r.2) in
  let range w :=
    let* n := get_u16 (bc_buf e) pc in
    let pc := pc + 2 in
    if cbuf_end <=? p then Ret NoMatch
    else
      let* r := GET_CHAR p cbuf_end in
      let* c := canon r.1 in
      let* ok := test w pc n c in
      Ret (if ok : bool then go v (pc + 2 * w * n) r.2 else NoMatch) in
  match op with
  | REOP_match => Ret Match
  | REOP_char32 =>
      let* val := get_u32 (bc_buf e) pc in test_char val (pc + 4)
  | REOP_char =>
      let* val := get_u16 (bc_buf e) pc in test_char val (pc + 2)
  | REOP_split_goto_first =>
      let* val := get_u32 (bc_buf e) pc in
      Ret (Split (mkVm (capture v) (stack v) (pc + 4 + i32 val) p) (pc + 4))
  | REOP_split_next_first =>
      let* val := get_u32 (bc_buf e) pc in
      Ret (Split (mkVm (capture v) (stack v) (pc + 4) p) (pc + 4 + i32 val))
  | REOP_lookahead | REOP_negative_lookahead =>
      let* val := get_u32 (bc_buf e) pc in
      Ret (Look (match op with REOP_lookahead => false | _ => true end)
             (mkVm (capture v) (stack v) (pc + 4) p) (pc + 4 + i32 val))
  | REOP_goto =>
      let* val := get_u32 (bc_buf e) pc in Ret (go v (pc + (4 + i32 val)) p)
  | REOP_line_start =>
      if p =? 0 then Ret (go v pc p)
      else if negb (multi_line e) then Ret NoMatch
      else
        let* c := PEEK_PREV_CHAR p 0 in
        Ret (if is_line_terminator c then go v pc p else NoMatch)
  | REOP_line_end =>
      if p =? cbuf_end then Ret (go v pc p)
      else if negb (multi_line e) then Ret NoMatch
      else
        let* c := PEEK_CHAR p cbuf_end in
        Ret (if is_line_terminator c then go v pc p else NoMatch)
  | REOP_dot =>
      if p =? cbuf_end then Ret NoMatch
      else
        let* r := GET_CHAR p cbuf_end in
        Ret (if is_line_terminator r.1 then NoMatch else go v pc r.2)
  | REOP_any =>
      if p =? cbuf_end then Ret NoMatch
      else let* r := GET_CHAR p cbuf_end in Ret (go v pc r.2)
  | REOP_save_start | REOP_save_end =>
      let* val := get_u8 (bc_buf e) pc in
      let* _ := c_assert (val <? capture_count e) in
      let* cap := set_capture v
        (2 * val + match op with REOP_save_start => 0 | _ => 1 end) (Some p) in
      Ret (Next (mkVm cap (stack v) (pc + 1) p))
  | REOP_save_reset =>
      let* val := get_u8 (bc_buf e) pc in
      let* val2 := get_u8 (bc_buf e) (pc + 1) in
      let* _ := c_assert (val2 <? capture_count e) in
      let* cap := reset_captures (Z.to_nat (val2 - val + 1)) val (capture v) in
      Ret (Next (mkVm cap (stack v) (pc + 2) p))
  | REOP_push_i32 =>
      let* val := get_u32 (bc_buf e) pc in
      let* st := push_stack v val in
      Ret (Next (mkVm (capture v) st (pc + 4) p))
  | REOP_drop =>
      match stack v with
      | [] => Ub
      | _ :: st => Ret (Next (mkVm (capture v) st pc p))
      end
  | REOP_loop =>
      let* val := get_u32 (bc_buf e) pc in
      match stack v with
      | [] => Ub
      | x :: st =>
          let x := u64 (x - 1) in
          Ret (Next (mkVm (capture v) (x :: st)
                 (pc + 4 + if negb (x =? 0) then i32 val else 0) p))
      end
  | REOP_push_char_pos =>
      let* st := push_stack v p in
      Ret (Next (mkVm (capture v) st pc p))
  | REOP_bne_char_pos =>
      let* val := get_u32 (bc_buf e) pc in
      match stack v with
      | [] => Ub
      | x :: st =>
          Ret (Next (mkVm (capture v) st
                 (pc + 4 + if negb (x =? p) then i32 val else 0) p))
      end
  | REOP_word_boundary | REOP_not_word_boundary =>
      (* char before *)
      let* v1 := if p =? 0 then Ret false
                 else let* c := PEEK_PREV_CHAR p 0 in Ret (is_word_char c) in
      (* current char *)
      let* v2 := if cbuf_end <=? p then Ret false
                 else let* c := PEEK_CHAR p cbuf_end in Ret (is_word_char c) in
      Ret (if xorb (xorb v1 v2) (match op with REOP_word_boundary => true | _ => false end)
           then NoMatch else go v pc p)
  | REOP_back_reference | REOP_backward_back_reference =>
      let* val := get_u8 (bc_buf e) pc in
      let pc := pc + 1 in
      if capture_count e <=? val then Ret NoMatch
      else
        let* s := rd (capture v) (2 * val) in
        let* t := rd (capture v) (2 * val + 1) in
        match s, t with
        | Some cptr1_start, Some cptr1_end =>
            let fuel := S (length (cbuf e)) in
            let* r := match op with
                      | REOP_back_reference => back_ref_loop fuel cptr1_start cptr1_end p
                      | _ => backward_ref_loop fuel cptr1_end cptr1_start p
                      end in
            Ret (match r with Some p => go v pc p | None => NoMatch end)
        | _, _ => Ret (go v pc p)
        end
  | REOP_range => range 2
  | REOP_range32 => range 4
  | REOP_prev =>
      (* go to the previous char *)
      if p =? 0 then Ret NoMatch
      else let* p := PREV_CHAR p 0 in Ret (go v pc p)
  | REOP_simple_greedy_quant =>
      let* next_pos := get_u32 (bc_buf e) pc in
      let* quant_min := get_u32 (bc_buf e) (pc + 4) in
      let* quant_max := get_u32 (bc_buf e) (pc + 8) in
      let pc1 := pc + 16 in
      Ret (Greedy (mkVm (capture v) (stack v) (pc1 + i32 next_pos) p) pc1
             quant_min quant_max)
  | REOP_invalid => Ub                                        (* abort() *)
  end.

(** [opcode = *pc++] and the [switch]. *)
Definition fetch (test : Z -> Z -> Z -> Z -> res bool) (v : re_vm) : res re_result :=
  let* op := rd (bc_buf e) (re_pc v) in
  match reopcode_info !! Z.to_nat op with
  | Some (op, _) =>
      re_insn test op (mkVm (capture v) (stack v) (re_pc v + 1) (cptr v))
  | None => Ub                                                (* abort() *)
  end.

(** ** The stack of states *)

(** The fields of [REExecContext] that change: the block of states, which
    grows, and the states, the last one first. *)
Record re_states := mkStates {
  re_heap : lheap;
  state_stack_size : Z;
  state_stack : list REExecState
}.

Definition push_state (s : re_states) (rs : REExecState) : re_states * Z :=
  let full := state_stack_size s <? Z.of_nat (length (state_stack s)) + 1 in
  let new_size := Z.max 8 (state_stack_size s * 3 / 2) in
  if full then
    let '(h, ok) := lre_realloc (re_heap s) new_size in
    if ok then (mkStates h new_size (rs :: state_stack s), 0)
    else (mkStates h (state_stack_size s) (state_stack s), -1)
  else (mkStates (re_heap s) (state_stack_size s) (rs :: state_stack s), 0).

Definition with_states (s : re_states) (l : list REExecState) : re_states :=
  mkStates (re_heap s) (state_stack_size s) l.

(** Where the loop is: at the [switch], or at [recurse] with [ret]. *)
Inductive re_state :=
  | Running (s : re_states) (v : re_vm)
  | Recurse (s : re_states) (v : re_vm) (ret : bool).

(** How a call ends: the states, the match variables, and the result: with
    [no_recurse] the position, or 0 for no match ([None]); without it 1 or 0;
    -1 when memory runs out. *)
Inductive re_ret := RetMatch | RetNoMatch | RetError.
Definition re_out : Type := re_states * re_vm * re_ret.

Fixpoint go_backward (n : nat) (p : Z) : res Z :=
  match n with
  | O => Ret p
  | S n => let* p := PREV_CHAR p 0 in go_backward n p
  end.

(** One turn of the loop at [recurse]. *)
Definition recurse_step (s : re_states) (v : re_vm) (ret : bool)
  : res (re_state + re_out) :=
  match state_stack s with
  | [] => Ret (inr (s, v, if ret then RetMatch else RetNoMatch))
  | rs :: l =>
      let pop_state1 cap :=
        Running (with_states s l)
          (mkVm cap (stack (rs_vm rs)) (re_pc (rs_vm rs)) (cptr (rs_vm rs))) in
      match rs_type rs with
      | RE_EXEC_STATE_SPLIT =>
          Ret (inl (if negb ret then pop_state1 (capture (rs_vm rs))
                    else Recurse (with_states s l) v ret))
      | RE_EXEC_STATE_GREEDY_QUANT =>
          if negb ret then
            let pc := re_pc (rs_vm rs) in
            (* go backward *)
            let* char_count := get_u32 (bc_buf e) (pc + 12) in
            let* p := go_backward (Z.to_nat char_count) (cptr (rs_vm rs)) in
            let* next_pos := get_u32 (bc_buf e) pc in
            let rs' := mkState (rs_type rs) (rs_count rs - 1)
              (mkVm (capture (rs_vm rs)) (stack (rs_vm rs)) pc p) in
            Ret (inl (Running
              (with_states s (if rs_count rs - 1 =? 0 then l else rs' :: l))
              (mkVm (capture (rs_vm rs)) (stack (rs_vm rs)) (pc + 16 + i32 next_pos) p)))
          else Ret (inl (Recurse (with_states s l) v ret))
      | RE_EXEC_STATE_LOOKAHEAD =>
          Ret (inl (if ret then pop_state1 (capture v)
                    else Recurse (with_states s l) v false))
      | RE_EXEC_STATE_NEGATIVE_LOOKAHEAD =>
          Ret (inl (if negb ret then pop_state1 (capture (rs_vm rs))
                    else Recurse (with_states s l) v false))
      end
  end.

(** The [for] loop of the simple quantifiers: [run] is the recursive call,
    which shares the captures and the stack.  An atom that leaves other values
    on the stack is never compiled and is given no meaning. *)
Definition greedy_step (run : re_states -> re_vm -> res re_out) (pc1 quant_max : Z)
    (x : re_states * re_vm * Z) : res (re_states * re_vm * Z + option (re_states * re_vm * Z)) :=
  let '(s, v, q) := x in
  let* r := run s (mkVm (capture v) (stack v) pc1 (cptr v)) in
  let '(s, v1, ret) := r in
  let* _ := c_assert (bool_decide (stack v1 = stack v)) in
  let back p := mkVm (capture v1) (stack v) (re_pc v) p in
  match ret with
  | RetError => Ret (inr None)
  | RetNoMatch => Ret (inr (Some (s, back (cptr v), q)))
  | RetMatch =>
      let q := q + 1 in
      let x := (s, back (cptr v1), q) in
      if (quant_max <=? q) && negb (quant_max =? INT32_MAX)
      then Ret (inr (Some x)) else Ret (inl x)
  end.

(** One turn of the [for(;;)] loop of [lre_exec_backtrack]. *)
Definition exec_step (fuel : nat) (run : re_states -> re_vm -> res re_out)
    (no_recurse : bool) (x : re_state) : res (re_state + re_out) :=
  match x with
  | Recurse s v ret => recurse_step s v ret
  | Running s v =>
      let push rs v :=
        let '(s, ret) := push_state s rs in
        Ret (if ret <? 0 then inr (s, v, RetError) else inl (Running s v)) in
      let* r := fetch range_test v in
      match r with
      | Next v => Ret (inl (Running s v))
      | NoMatch =>
          Ret (if no_recurse then inr (s, v, RetNoMatch) else inl (Recurse s v false))
      | Match =>
          Ret (if no_recurse then inr (s, v, RetMatch) else inl (Recurse s v true))
      | Split first pc1 =>
          push (mkState RE_EXEC_STATE_SPLIT 0
                  (mkVm (capture first) (stack first) pc1 (cptr first))) first
      | Look neg body pc1 =>
          push (mkState (if neg then RE_EXEC_STATE_NEGATIVE_LOOKAHEAD
                         else RE_EXEC_STATE_LOOKAHEAD) 0
                  (mkVm (capture body) (stack body) pc1 (cptr body))) body
      | Greedy v pc1 quant_min quant_max =>
          let* r := loop fuel (greedy_step run pc1 quant_max) (s, v, 0) in
          match r with
          | None => Ret (inr (s, v, RetError))
          | Some (s, v, q) =>
              if q <? quant_min then
                Ret (if no_recurse then inr (s, v, RetNoMatch)
                     else inl (Recurse s v false))
              else if quant_min <? q then
                (* will examine all matches down to quant_min *)
                let '(s, ret) := push_state s
                  (mkState RE_EXEC_STATE_GREEDY_QUANT (q - quant_min)
                     (mkVm (capture v) (stack v) (pc1 - 16) (cptr v))) in
                Ret (if ret <? 0 then inr (s, v, RetError) else inl (Running s v))
              else Ret (inl (Running s v))
          end
      end
  end.

Fixpoint lre_exec_backtrack (fuel : nat) (s : re_states) (v : re_vm) (no_recurse : bool)
  : res re_out :=
  match fuel with
  | O => OutOfFuel
  | S fuel =>
      loop fuel
        (exec_step fuel (fun s v => lre_exec_backtrack fuel s v true) no_recurse)
        (Running s v)
  end.
End exec.

(** What [lre_exec] reads in the header. *)
Definition re_env_of (bc cbuf : list Z) (cbuf_type : Z) : res re_env :=
  let* re_flags := rd bc RE_HEADER_FLAGS in
  let* count := rd bc RE_HEADER_CAPTURE_COUNT in
  let* stack_size := rd bc RE_HEADER_STACK_SIZE in
  let utf16 := negb (Z.land re_flags LRE_FLAG_UTF16 =? 0) in
  Ret (mkReEnv bc cbuf (if (cbuf_type =? 1) && utf16 then 2 else cbuf_type)
    count stack_size (negb (Z.land re_flags LRE_FLAG_MULTILINE =? 0))
    (negb (Z.land re_flags LRE_FLAG_IGNORECASE =? 0)) utf16).

(** The match at [cindex], with no capture. *)
Definition re_start (e : re_env) (cindex : Z) : re_vm :=
  mkVm (replicate (Z.to_nat (2 * capture_count e)) None) [] RE_HEADER_LEN cindex.

(** 1 if match, 0 if not match or -1 if error, with the captures. *)
Definition lre_exec {lr : LreRealloc} (fuel : nat) (h : lheap) (bc : list Z)
    (cbuf : list Z) (cindex cbuf_type : Z) : res (Z * list (option Z)) :=
  let* e := re_env_of bc cbuf cbuf_type in
  let* r := lre_exec_backtrack e fuel (mkStates h 0 []) (re_start e cindex) false in
  let '(s, v, ret) := r in
  Ret (match ret with RetMatch => 1 | RetNoMatch => 0 | RetError => -1 end, capture v).

Definition lre_get_capture_count (bc : list Z) : res Z := rd bc RE_HEADER_CAPTURE_COUNT.
Definition lre_get_flags (bc : list Z) : res Z := rd bc RE_HEADER_FLAGS.

(** The offset of the group names, if any. *)
Definition lre_get_groupnames (bc : list Z) : res (option Z) :=
  let* flags := lre_get_flags bc in
  if Z.land flags LRE_FLAG_NAMED_GROUPS =? 0 then Ret None
  else let* len := get_u32 bc 3 in Ret (Some (7 + len)).

(** -1 if a simple quantifier cannot be used, otherwise the number of
    characters in the atom. *)
Definition simple_step (bc : list Z) (s : Z * Z) : res (Z * Z + Z) :=
  let '(pos, count) := s in
  if pos <? Z.of_nat (length bc) then
    let* op := rd bc pos in
    match reopcode_info !! Z.to_nat op with
    | None => Ub
    | Some (opcode, len) =>
        match opcode with
        | REOP_range =>
            let* val := get_u16 bc (pos + 1) in
            Ret (inl (pos + (len + val * 4), count + 1))
        | REOP_range32 =>
            let* val := get_u16 bc (pos + 1) in
            Ret (inl (pos + (len + val * 8), count + 1))
        | REOP_char | REOP_char32 | REOP_dot | REOP_any =>
            Ret (inl (pos + len, count + 1))
        | REOP_line_start | REOP_line_end | REOP_word_boundary
        | REOP_not_word_boundary => Ret (inl (pos + len, count))
        | _ => Ret (inr (-1))
        end
    end
  else Ret (inr count).

Definition re_is_simple_quantifier (bc : list Z) : res Z :=
  loop (S (length bc)) (simple_step bc) (0, 0).
