(* ===== verification/LreExecSpec.v ===== *)
(** * The executor of regular expressions implements backtracking

    A declarative meaning of the opcodes: a position in the code and in the
    subject has a list of alternatives, tried in order; an assertion runs to
    its own end.  The theorem: the loop with its stack of states gives the
    first match of this search, if and only if the search ends. *)

From stdpp Require Import base tactics numbers list option relations.
From Stdlib Require Import ZArith Lia.
From S2P Require Import Prelude Cutils UnicodeCase LreExec.

Open Scope Z_scope.

Section chars.
Context (e : re_env).

(** ** Characters *)

(** A position in the subject that is not inside a surrogate pair. *)
Definition boundary (i : Z) : Prop :=
  0 <= i <= cbuf_end e
  /\ (cbuf_type e = 2 -> forall c1 c2,
        0 < i -> rd (cbuf e) (i - 1) = Ret c1 -> rd (cbuf e) i = Ret c2 ->
        is_hi_surrogate c1 && is_lo_surrogate c2 = false).

Lemma rd_range {A} (l : list A) i x : rd l i = Ret x -> 0 <= i < Z.of_nat (length l).
Proof. intros H. apply rd_Ret_inv in H as [H0 H]. apply lookup_lt_Some in H. lia. Qed.

Lemma rd_total {A} (l : list A) i :
  0 <= i < Z.of_nat (length l) -> exists x, rd l i = Ret x.
Proof.
  intros H. destruct (lookup_lt_is_Some_2 l (Z.to_nat i)) as [x Hx]; [lia|].
  exists x. apply rd_Some; [lia|done].
Qed.

Lemma hi_lo c : is_hi_surrogate c = true -> is_lo_surrogate c = false.
Proof. unfold is_hi_surrogate, is_lo_surrogate. intros H. zb. repeat zcase; cbn; lia || done. Qed.

Lemma surrogate_pair_false c1 c2 :
  is_hi_surrogate c1 = false \/ is_lo_surrogate c2 = false ->
  is_hi_surrogate c1 && is_lo_surrogate c2 = false.
Proof. intros [-> | ->]; [done|apply andb_false_r]. Qed.

(** Reading a character: the next boundary, from which [PREV_CHAR] comes
    back. *)
Lemma GET_CHAR_spec p p_end c p' :
  boundary p -> boundary p_end -> p < p_end -> GET_CHAR e p p_end = Ret (c, p') ->
  boundary p' /\ p < p' <= p_end /\ PREV_CHAR e p' 0 = Ret p.
Proof.
  intros [Hp Hb] [He Hbe] Hlt H. unfold GET_CHAR in H.
  destruct (rd (cbuf e) p) as [c1| |] eqn:E1; try done. cbn [bind] in H.
  pose proof (rd_range _ _ _ E1) as R1. unfold cbuf_end in *.
  assert (Hone : p' = p + 1 ->
    (cbuf_type e = 2 -> forall c2, rd (cbuf e) (p + 1) = Ret c2 ->
       is_hi_surrogate c1 && is_lo_surrogate c2 = false) ->
    boundary p' /\ p < p' <= p_end /\ PREV_CHAR e p' 0 = Ret p).
  { intros -> Hnp. split; [|split; [lia|]].
    - split; [unfold cbuf_end; lia|]. intros Ht x1 x2 _ X1 X2.
      replace (p + 1 - 1) with p in X1 by lia. rewrite E1 in X1.
      injection X1 as <-. by apply Hnp.
    - unfold PREV_CHAR. replace (p + 1 - 1) with p by lia.
      rewrite (proj2 (Z.ltb_ge p 0)) by lia.
      destruct (Z.eqb_spec (cbuf_type e) 2) as [Ht|]; [|done]. rewrite E1. cbn [bind].
      destruct (is_lo_surrogate c1) eqn:Hlo; [|done].
      destruct (Z.ltb_spec 0 p) as [Hp0|]; [|done]. cbn [andb].
      destruct (rd_total (cbuf e) (p - 1)) as [c0 E0]; [lia|].
      specialize (Hb Ht c0 c1 Hp0 E0 eq_refl). rewrite Hlo, andb_true_r in Hb.
      rewrite E0. cbn [bind]. by rewrite Hb. }
  destruct (is_hi_surrogate c1) eqn:Hhi; cbn [andb] in H.
  2:{ injection H as <- <-. apply Hone; [done|]. intros. by rewrite andb_false_l. }
  destruct (Z.eqb_spec (cbuf_type e) 2) as [Ht|Ht]; cbn [andb] in H.
  2:{ injection H as <- <-. by apply Hone. }
  destruct (Z.ltb_spec (p + 1) p_end) as [Hl|Hl]; cbn [andb] in H.
  - destruct (rd (cbuf e) (p + 1)) as [c2| |] eqn:E2; try done. cbn [bind] in H.
    destruct (is_lo_surrogate c2) eqn:Hlo; injection H as <- <-.
    + replace (p + 1 + 1) with (p + 2) by lia. pose proof (rd_range _ _ _ E2) as R2.
      split; [|split; [lia|]].
      * split; [unfold cbuf_end; lia|]. intros _ x1 x2 _ X1 X2.
        replace (p + 2 - 1) with (p + 1) in X1 by lia. rewrite E2 in X1.
        injection X1 as <-. apply surrogate_pair_false. left.
        destruct (is_hi_surrogate c2) eqn:Hh; [|done]. by rewrite hi_lo in Hlo.
      * unfold PREV_CHAR. replace (p + 2 - 1) with (p + 1) by lia.
        rewrite (proj2 (Z.ltb_ge (p + 1) 0)) by lia. rewrite Ht, Z.eqb_refl, E2.
        cbn [bind]. rewrite Hlo, (proj2 (Z.ltb_lt 0 (p + 1))) by lia. cbn [andb].
        replace (p + 1 - 1) with p by lia. rewrite E1. cbn [bind]. by rewrite Hhi.
    + apply Hone; [done|]. intros _ x X. injection X as <-.
      by rewrite Hlo, andb_false_r.
  - injection H as <- <-. apply Hone; [done|]. intros _ x X. assert (p_end = p + 1) as -> by lia.
    rewrite <- Hhi. apply (Hbe Ht c1 x); [lia| |done]. by replace (p + 1 - 1) with p by lia.
Qed.

(** Going back a character from a boundary. *)
Lemma prev_pos_spec p p' :
  boundary p -> 0 < p ->
  (p' = p - 1 /\ (cbuf_type e = 2 -> forall c1 c2, 0 < p - 1 ->
      rd (cbuf e) (p - 2) = Ret c1 -> rd (cbuf e) (p - 1) = Ret c2 ->
      is_hi_surrogate c1 && is_lo_surrogate c2 = false))
  \/ (p' = p - 2 /\ 0 <= p - 2 /\ cbuf_type e = 2
      /\ exists c1, rd (cbuf e) (p - 2) = Ret c1 /\ is_hi_surrogate c1 = true) ->
  boundary p' /\ 0 <= p' < p.
Proof.
  intros [Hp Hb] H0 [[-> H]|(-> & Hge & Ht & c1 & E1 & Hhi)];
    (split; [|lia]); (split; [lia|]); intros Ht' x1 x2 Hpos X1 X2.
  - apply (H Ht' x1 x2); [lia| |done]. by replace (p - 1 - 1) with (p - 2) in X1 by lia.
  - rewrite E1 in X2. injection X2 as <-. apply surrogate_pair_false. right. by apply hi_lo.
Qed.

Lemma PREV_CHAR_spec p p' :
  boundary p -> 0 < p -> PREV_CHAR e p 0 = Ret p' -> boundary p' /\ 0 <= p' < p.
Proof.
  intros Hp H0 H. apply prev_pos_spec; try done. unfold PREV_CHAR in H.
  rewrite (proj2 (Z.ltb_ge (p - 1) 0)) in H by lia.
  destruct (Z.eqb_spec (cbuf_type e) 2) as [Ht|]; [|left; injection H as <-; done].
  destruct (rd (cbuf e) (p - 1)) as [c| |] eqn:E; try done. cbn [bind] in H.
  destruct (is_lo_surrogate c) eqn:Hlo; cbn [andb] in H.
  2:{ left. injection H as <-. split; [done|]. intros _ c1 c2 _ _ [= <-].
      apply surrogate_pair_false. by right. }
  destruct (Z.ltb_spec 0 (p - 1)); cbn [andb] in H; [|left; injection H as <-; split; [done|lia]].
  replace (p - 1 - 1) with (p - 2) in H by lia.
  destruct (rd (cbuf e) (p - 2)) as [c'| |] eqn:E'; try done. cbn [bind] in H.
  destruct (is_hi_surrogate c') eqn:Hhi; injection H as <-.
  - right. split_and!; [done|lia|done|]. by exists c'.
  - left. split; [done|]. intros _ c1 c2 _ [= <-] _. apply surrogate_pair_false. by left.
Qed.

Lemma GET_PREV_CHAR_spec p p_start c p' :
  boundary p -> boundary p_start -> p_start < p ->
  GET_PREV_CHAR e p p_start = Ret (c, p') ->
  boundary p' /\ p_start <= p' < p.
Proof.
  intros Hp [Hs Hbs] H0 H. unfold GET_PREV_CHAR in H.
  destruct (rd (cbuf e) (p - 1)) as [c2| |] eqn:E; try done. cbn [bind] in H.
  assert (Hone : (cbuf_type e = 2 -> forall c1 c2, 0 < p - 1 ->
      rd (cbuf e) (p - 2) = Ret c1 -> rd (cbuf e) (p - 1) = Ret c2 ->
      is_hi_surrogate c1 && is_lo_surrogate c2 = false) ->
    boundary (p - 1) /\ p_start <= p - 1 < p).
  { intros Hn. split; [|lia]. apply (prev_pos_spec p); [done|lia|]. by left. }
  destruct (is_lo_surrogate c2) eqn:Hlo; cbn [andb] in H.
  2:{ injection H as <- <-. apply Hone. intros _ c1 c3 _ _ X. rewrite E in X.
      injection X as <-. apply surrogate_pair_false. by right. }
  destruct (Z.eqb_spec (cbuf_type e) 2) as [Ht|]; cbn [andb] in H;
    [|by injection H as <- <-; apply Hone].
  destruct (Z.ltb_spec p_start (p - 1)) as [Hl|Hl]; cbn [andb] in H.
  - replace (p - 1 - 1) with (p - 2) in H by lia.
    destruct (rd (cbuf e) (p - 2)) as [c1| |] eqn:E'; try done. cbn [bind] in H.
    destruct (is_hi_surrogate c1) eqn:Hhi; injection H as <- <-.
    + split; [|lia]. apply (prev_pos_spec p); [done|lia|]. right.
      split_and!; [done|lia|done|]. by exists c1.
    + apply Hone. intros _ x1 x2 _ X _. injection X as <-.
      apply surrogate_pair_false. by left.
  - injection H as <- <-. assert (p - 1 = p_start) as Eps by lia.
    apply Hone. intros _ x1 x2 Hpos X1 X2. apply (Hbs Ht x1 x2); [lia| |].
    + by replace (p_start - 1) with (p - 2) by lia.
    + by rewrite <- Eps.
Qed.

Lemma boundary_end p : 0 <= p -> p = cbuf_end e -> boundary p.
Proof.
  intros H0 ->. split; [lia|]. intros _ c1 c2 _ _ H. apply rd_range in H.
  unfold cbuf_end in H. lia.
Qed.
End chars.

(** ** Classes of characters *)

Section ranges.
Context (e : re_env).

(** The [n] ranges at [p]. *)
Fixpoint ranges_at (w p : Z) (n : nat) : res (list (Z * Z)) :=
  match n with
  | O => Ret []
  | S n =>
      let* low := range_bound e w p in
      let* high := range_bound e w (p + w) in
      let* l := ranges_at w (p + 2 * w) n in
      Ret ((low, high) :: l)
  end.

(** A 16-bit class whose last bound is 0xffff has no upper limit. *)
Definition range_member (w : Z) (l : list (Z * Z)) (c : Z) : bool :=
  existsb (fun r => (r.1 <=? c) && (c <=? r.2)) l
  || ((w =? 2) && (0xffff <=? c)
      && match last l with Some r => r.2 =? 0xffff | None => false end).

Definition range_linear (w p n c : Z) : res bool :=
  let* l := ranges_at w p (Z.to_nat n) in Ret (range_member w l c).

Definition ranges_sorted (l : list (Z * Z)) : Prop :=
  (forall i r, l !! i = Some r -> r.1 <= r.2)
  /\ (forall i j r r', (i < j)%nat -> l !! i = Some r -> l !! j = Some r' -> r.2 < r'.1).

Lemma ranges_at_lookup w : forall n p l i r,
  ranges_at w p n = Ret l -> l !! i = Some r ->
  range_bound e w (p + Z.of_nat i * (2 * w)) = Ret r.1
  /\ range_bound e w (p + Z.of_nat i * (2 * w) + w) = Ret r.2.
Proof.
  induction n as [|n IH]; intros p l i r H Hi; cbn [ranges_at] in H.
  - injection H as <-. done.
  - destruct (range_bound e w p) as [low| |] eqn:E1; try done. cbn [bind] in H.
    destruct (range_bound e w (p + w)) as [high| |] eqn:E2; try done. cbn [bind] in H.
    destruct (ranges_at w (p + 2 * w) n) as [l'| |] eqn:E3; try done. cbn [bind] in H.
    injection H as <-. destruct i as [|i].
    + injection Hi as <-. cbn [fst snd]. rewrite Z.mul_0_l, Z.add_0_r. done.
    + destruct (IH _ _ i r E3 Hi) as [H1 H2].
      replace (p + Z.of_nat (S i) * (2 * w)) with (p + 2 * w + Z.of_nat i * (2 * w)) by lia.
      done.
Qed.

Lemma ranges_at_length w : forall n p l, ranges_at w p n = Ret l -> length l = n.
Proof.
  induction n as [|n IH]; intros p l H; cbn [ranges_at] in H; [by injection H as <-|].
  destruct (range_bound e w p); try done. cbn [bind] in H.
  destruct (range_bound e w (p + w)); try done. cbn [bind] in H.
  destruct (ranges_at w (p + 2 * w) n) eqn:E; try done. cbn [bind] in H.
  injection H as <-. cbn. f_equal. by eapply IH.
Qed.

Lemma existsb_range l c :
  existsb (fun r => (r.1 <=? c) && (c <=? r.2)) l = true
  <-> exists i r, l !! i = Some r /\ r.1 <= c <= r.2.
Proof.
  rewrite existsb_exists. split.
  - intros (r & Hin & Hr). zb. apply list_elem_of_In, list_elem_of_lookup in Hin as [i Hi].
    by exists i, r.
  - intros (i & r & Hi & Hr). exists r. split.
    + apply list_elem_of_In, list_elem_of_lookup. by exists i.
    + apply andb_true_intro. split; apply Z.leb_le; lia.
Qed.

Section search.
Context (w p n c : Z) (l : list (Z * Z)).
Hypothesis Hn : 1 <= n < 2 ^ 16.
Hypothesis Hl : ranges_at w p (Z.to_nat n) = Ret l.
Hypothesis Hs : ranges_sorted l.

Definition search_inv (s : Z * Z) : Prop :=
  0 <= s.1 /\ -1 <= s.2 < n /\ s.1 <= s.2 + 1
  /\ forall i r, l !! i = Some r -> r.1 <= c <= r.2 -> s.1 <= Z.of_nat i <= s.2.

Definition search_measure (s : Z * Z) : nat :=
  if s.2 - s.1 + 1 =? 0 then 0%nat else S (Z.to_nat (Z.log2 (s.2 - s.1 + 1))).

Lemma search_measure_half s s' :
  0 <= s'.2 - s'.1 + 1 -> 0 < s.2 - s.1 + 1 ->
  2 * (s'.2 - s'.1 + 1) <= s.2 - s.1 + 1 -> (search_measure s' < search_measure s)%nat.
Proof.
  unfold search_measure. intros H1 H2 H3.
  destruct (Z.eqb_spec (s.2 - s.1 + 1) 0); [lia|].
  destruct (Z.eqb_spec (s'.2 - s'.1 + 1) 0); [lia|].
  assert (Z.log2 (s'.2 - s'.1 + 1) < Z.log2 (s.2 - s.1 + 1)); [|
    pose proof (Z.log2_nonneg (s'.2 - s'.1 + 1)); lia].
  apply Z.le_succ_l. rewrite <- Z.log2_double by lia. apply Z.log2_le_mono. lia.
Qed.

Lemma range_at_index i : 0 <= i < n ->
  exists r, l !! Z.to_nat i = Some r
    /\ range_bound e w (p + i * (2 * w)) = Ret r.1
    /\ range_bound e w (p + i * (2 * w) + w) = Ret r.2.
Proof.
  intros Hi. pose proof (ranges_at_length w _ _ _ Hl) as Hlen.
  destruct (lookup_lt_is_Some_2 l (Z.to_nat i)) as [r Hr]; [lia|].
  exists r. split; [done|]. pose proof (ranges_at_lookup w _ _ _ _ _ Hl Hr) as H.
  by rewrite Z2Nat.id in H by lia.
Qed.

Lemma range_search low0 :
  range_bound e w p = Ret low0 -> low0 <= c ->
  wp (loop 34 (range_step e w p c) (0, n - 1)) (fun b =>
    b = existsb (fun r => (r.1 <=? c) && (c <=? r.2)) l).
Proof.
  intros H0 Hc. pose proof (ranges_at_length w _ _ _ Hl) as Hlen.
  apply (wp_loop search_inv search_measure).
  2:{ split_and!; cbn; try lia. intros i r Hi _. apply lookup_lt_Some in Hi. lia. }
  2:{ unfold search_measure. cbn [fst snd]. replace (n - 1 - 0 + 1) with n by lia.
      destruct (Z.eqb_spec n 0); [lia|].
      assert (Z.log2 n < 16) by (apply Z.log2_lt_pow2; lia). lia. }
  intros [imin imax] (I1 & I2 & I3 & I4). cbn [fst snd] in *. unfold range_step.
  destruct (Z.leb_spec imin imax) as [Hle|Hgt].
  2:{ cbn. symmetry. destruct (existsb _ l) eqn:E; [|done].
      apply existsb_range in E as (i & r & Hi & Hr). specialize (I4 i r Hi Hr). lia. }
  rewrite u32_id by lia. set (idx := (imin + imax) / 2).
  assert (Hidx : imin <= idx <= imax) by (unfold idx; dlia).
  destruct (range_at_index idx ltac:(lia)) as (r & Hr & E1 & E2).
  rewrite E1, E2. cbn [bind]. destruct (Z.ltb_spec c r.1) as [Hlt|Hge].
  - assert (Hpos : 0 < idx).
    { destruct (Z.lt_ge_cases 0 idx); [done|]. exfalso. replace idx with 0 in * by lia.
      rewrite Z.mul_0_l, Z.add_0_r in E1. rewrite H0 in E1. injection E1 as ->. lia. }
    rewrite u32_id by lia. cbn. split.
    + split_and!; cbn; try lia. intros i r' Hi Hr'. specialize (I4 i r' Hi Hr').
      split; [lia|]. destruct (Z.lt_ge_cases (Z.of_nat i) idx); [lia|].
      destruct (decide (Z.of_nat i = idx)) as [Ei|Ei].
      * rewrite <- Ei, Nat2Z.id, Hi in Hr. injection Hr as ->. lia.
      * destruct Hs as [Hs1 Hs2].
        specialize (Hs2 (Z.to_nat idx) i r r' ltac:(lia) Hr Hi).
        specialize (Hs1 _ _ Hr). lia.
    + apply search_measure_half; cbn; unfold idx; dlia.
  - destruct (Z.ltb_spec r.2 c) as [Hlt|Hle2].
    + rewrite u32_id by lia. cbn. split.
      * split_and!; cbn; try lia. intros i r' Hi Hr'. specialize (I4 i r' Hi Hr').
        split; [|lia]. destruct (Z.lt_ge_cases idx (Z.of_nat i)); [lia|].
        destruct (decide (Z.of_nat i = idx)) as [Ei|Ei].
        -- rewrite <- Ei, Nat2Z.id, Hi in Hr. injection Hr as ->. lia.
        -- destruct Hs as [Hs1 Hs2].
           specialize (Hs2 i (Z.to_nat idx) r' r ltac:(lia) Hi Hr).
           specialize (Hs1 _ _ Hr). lia.
      * apply search_measure_half; cbn; unfold idx; dlia.
    + cbn. symmetry. apply existsb_range. exists (Z.to_nat idx), r. split; [done|lia].
Qed.

(** The binary search finds the class of the linear one. *)
Lemma range_test_correct : range_test e w p n c = Ret (range_member w l c).
Proof.
  pose proof (ranges_at_length w _ _ _ Hl) as Hlen. unfold range_test.
  destruct (range_at_index 0 ltac:(lia)) as (r0 & Hr0 & E0 & _).
  rewrite Z.mul_0_l, Z.add_0_r in E0. rewrite E0. cbn [bind].
  rewrite (u32_id (n - 1)) by lia.
  destruct (range_at_index (n - 1) ltac:(lia)) as (rl & Hrl & _ & El).
  rewrite El. cbn [bind].
  assert (Hlast : last l = Some rl).
  { rewrite last_lookup, Hlen. rewrite <- Hrl. f_equal. lia. }
  assert (Hmax : forall i r, l !! i = Some r -> r.2 <= rl.2).
  { intros i r Hi. pose proof (lookup_lt_Some _ _ _ Hi).
    destruct (decide (i = Z.to_nat (n - 1))) as [->|].
    - rewrite Hi in Hrl. injection Hrl as ->. lia.
    - destruct Hs as [Hs1 Hs2]. specialize (Hs2 i (Z.to_nat (n - 1)) _ _ ltac:(lia) Hi Hrl).
      specialize (Hs1 _ _ Hrl). lia. }
  assert (Hmin : forall i r, l !! i = Some r -> r0.1 <= r.1).
  { intros i r Hi. destruct (decide (i = 0%nat)) as [->|].
    - change (Z.to_nat 0) with 0%nat in Hr0. rewrite Hi in Hr0. injection Hr0 as ->. lia.
    - destruct Hs as [Hs1 Hs2]. specialize (Hs2 0%nat i _ _ ltac:(lia) Hr0 Hi).
      specialize (Hs1 _ _ Hr0). lia. }
  unfold range_member. rewrite Hlast.
  assert (Hex : forall b, (b = true <-> exists i r, l !! i = Some r /\ r.1 <= c <= r.2) ->
    existsb (fun r => (r.1 <=? c) && (c <=? r.2)) l = b).
  { intros b Hb. apply eq_true_iff_eq. by rewrite existsb_range. }
  destruct (Z.ltb_spec c r0.1) as [Hlt|Hge].
  { rewrite (Hex false).
    2:{ split; [done|]. intros (i & r & Hi & Hr). specialize (Hmin i r Hi). lia. }
    cbn [orb]. f_equal. symmetry.
    destruct (Z.eqb_spec rl.2 0xffff); [|apply andb_false_r].
    destruct (Z.leb_spec 0xffff c); [|by rewrite andb_false_r].
    specialize (Hmin _ _ Hrl). destruct Hs as [Hs1 _]. specialize (Hs1 _ _ Hrl). lia. }
  destruct ((w =? 2) && (0xffff <=? c) && (rl.2 =? 0xffff)); [by rewrite orb_true_r|].
  rewrite orb_false_r. destruct (Z.ltb_spec rl.2 c).
  { f_equal. symmetry. apply Hex. split; [done|].
    intros (i & r & Hi & Hr). specialize (Hmax i r Hi). lia. }
  pose proof (range_search r0.1 E0 Hge) as Hw. rewrite wp_iff in Hw.
  destruct Hw as (b & -> & ->). done.
Qed.
End search.
End ranges.

(** ** The search *)

Section sem.
Context (e : re_env).

Definition sem (v : re_vm) : res re_result := fetch e (range_linear e) v.

Definition at_pos (v : re_vm) (pc p : Z) : re_vm := mkVm (capture v) (stack v) pc p.

(** The atom of a simple quantifier runs without alternatives: to the end of
    its match, or to a failure. *)
Inductive atom_run : re_vm -> option Z -> Prop :=
  | atom_next v v' o : sem v = Ret (Next v') -> atom_run v' o -> atom_run v o
  | atom_match v : sem v = Ret Match -> atom_run v (Some (cptr v))
  | atom_fail v : sem v = Ret NoMatch -> atom_run v None.

(** The positions after 0, 1, ... repetitions of the atom, the last one
    first. *)
Definition enough (quant_max q : Z) : bool :=
  negb (q =? 0) && (quant_max <=? q) && negb (quant_max =? INT32_MAX).

Inductive repeats (v : re_vm) (pc1 quant_max : Z) : list Z -> Prop :=
  | repeats_0 : repeats v pc1 quant_max [cptr v]
  | repeats_S p ps p' :
      repeats v pc1 quant_max (p :: ps) ->
      enough quant_max (Z.of_nat (length ps)) = false ->
      atom_run (at_pos v pc1 p) (Some p') ->
      repeats v pc1 quant_max (p' :: p :: ps).

Definition repeats_end (v : re_vm) (pc1 quant_max : Z) (ps : list Z) : Prop :=
  repeats v pc1 quant_max ps /\
  exists p ps', ps = p :: ps' /\
    (enough quant_max (Z.of_nat (length ps')) = true
     \/ (enough quant_max (Z.of_nat (length ps')) = false
         /\ atom_run (at_pos v pc1 p) None)).

(** A greedy quantifier goes on after as many repetitions as possible, down
    to [quant_min]. *)
Definition greedy_alts (v : re_vm) (quant_min : Z) (ps : list Z) : list re_vm :=
  (fun p => at_pos v (re_pc v) p) <$> take (length ps - Z.to_nat quant_min) ps.

(** Where the match goes on after an assertion. *)
Definition look_next (neg : bool) (body : re_vm) (pc1 : Z)
    (r : option (list (option Z))) : option re_vm :=
  match neg, r with
  | false, Some cap => Some (mkVm cap (stack body) pc1 (cptr body))
  | true, None => Some (mkVm (capture body) (stack body) pc1 (cptr body))
  | _, _ => None
  end.

(** The search from a state: the captures of the first match, or [None] when
    every alternative fails. *)
Inductive run : re_vm -> option (list (option Z)) -> Prop :=
  | run_next v v' o : sem v = Ret (Next v') -> run v' o -> run v o
  | run_match v : sem v = Ret Match -> run v (Some (capture v))
  | run_fail v : sem v = Ret NoMatch -> run v None
  | run_split v a pc1 o :
      sem v = Ret (Split a pc1) -> tries [a; at_pos a pc1 (cptr a)] o -> run v o
  | run_greedy v v1 pc1 quant_min quant_max ps o :
      sem v = Ret (Greedy v1 pc1 quant_min quant_max) ->
      repeats_end v1 pc1 quant_max ps ->
      tries (greedy_alts v1 quant_min ps) o -> run v o
  | run_look v neg body pc1 r v' o :
      sem v = Ret (Look neg body pc1) -> run body r ->
      look_next neg body pc1 r = Some v' -> run v' o -> run v o
  | run_look_fail v neg body pc1 r :
      sem v = Ret (Look neg body pc1) -> run body r ->
      look_next neg body pc1 r = None -> run v None
with tries : list re_vm -> option (list (option Z)) -> Prop :=
  | tries_nil : tries [] None
  | tries_first v l cap : run v (Some cap) -> tries (v :: l) (Some cap)
  | tries_next v l o : run v None -> tries l o -> tries (v :: l) o.

Scheme run_mut := Minimality for run Sort Prop
  with tries_mut := Minimality for tries Sort Prop.

(** ** The search with an explicit stack of alternatives *)

Inductive aframe :=
  | FAlt (a : re_vm) (l : list re_vm)
  | FLook (neg : bool) (body : re_vm) (pc1 : Z).

Inductive acfg :=
  | ARun (v : re_vm) (K : list aframe)
  | ARet (o : option (list (option Z))) (K : list aframe).

Definition push_alts (l : list re_vm) (K : list aframe) : list aframe :=
  match l with [] => K | a :: l => FAlt a l :: K end.

Definition start_alts (l : list re_vm) (K : list aframe) : acfg :=
  match l with [] => ARet None K | a :: l => ARun a (push_alts l K) end.

Inductive astep : acfg -> acfg -> Prop :=
  | astep_next v v' K : sem v = Ret (Next v') -> astep (ARun v K) (ARun v' K)
  | astep_match v K : sem v = Ret Match -> astep (ARun v K) (ARet (Some (capture v)) K)
  | astep_fail v K : sem v = Ret NoMatch -> astep (ARun v K) (ARet None K)
  | astep_split v a pc1 K : sem v = Ret (Split a pc1) ->
      astep (ARun v K) (ARun a (FAlt (at_pos a pc1 (cptr a)) [] :: K))
  | astep_greedy v v1 pc1 quant_min quant_max ps K :
      sem v = Ret (Greedy v1 pc1 quant_min quant_max) ->
      repeats_end v1 pc1 quant_max ps ->
      astep (ARun v K) (start_alts (greedy_alts v1 quant_min ps) K)
  | astep_look v neg body pc1 K : sem v = Ret (Look neg body pc1) ->
      astep (ARun v K) (ARun body (FLook neg body pc1 :: K))
  | astep_alt_ok cap a l K : astep (ARet (Some cap) (FAlt a l :: K)) (ARet (Some cap) K)
  | astep_alt_next a l K : astep (ARet None (FAlt a l :: K)) (ARun a (push_alts l K))
  | astep_look_next r neg body pc1 v K : look_next neg body pc1 r = Some v ->
      astep (ARet r (FLook neg body pc1 :: K)) (ARun v K)
  | astep_look_fail r neg body pc1 K : look_next neg body pc1 r = None ->
      astep (ARet r (FLook neg body pc1 :: K)) (ARet None K).

Lemma run_astep v o : run v o -> forall K, rtc astep (ARun v K) (ARet o K).
Proof.
  revert v o. apply (run_mut
    (fun v o => forall K, rtc astep (ARun v K) (ARet o K))
    (fun l o => forall K, rtc astep (start_alts l K) (ARet o K))).
  - intros v v' o H _ IH K. eapply rtc_l; [by apply astep_next|done].
  - intros v H K. by apply rtc_once, astep_match.
  - intros v H K. by apply rtc_once, astep_fail.
  - intros v a pc1 o H _ IH K. eapply rtc_l; [by apply astep_split|]. apply IH.
  - intros v v1 pc1 qmin qmax ps o H Hps _ IH K.
    eapply rtc_l; [by eapply astep_greedy|]. apply IH.
  - intros v neg body pc1 r v' o H _ IH1 Hn _ IH2 K.
    eapply rtc_l; [by apply astep_look|]. etrans; [apply IH1|].
    eapply rtc_l; [by apply astep_look_next|done].
  - intros v neg body pc1 r H _ IH1 Hn K.
    eapply rtc_l; [by apply astep_look|]. etrans; [apply IH1|].
    by apply rtc_once, astep_look_fail.
  - intros K. apply rtc_refl.
  - intros v l cap _ IH K. cbn [start_alts]. etrans; [apply IH|].
    destruct l as [|a l]; [apply rtc_refl|]. apply rtc_once, astep_alt_ok.
  - intros v l o _ IH1 _ IH2 K. cbn [start_alts]. etrans; [apply IH1|].
    destruct l as [|a l]; [apply IH2|]. eapply rtc_l; [apply astep_alt_next|apply IH2].
Qed.

(** The converse: a run that ends has passed the end of each search. *)
Abbreviation final fo := (ARet fo []).

Definition returns n v K fo : Prop :=
  nsteps astep n (ARun v K) (final fo) ->
  exists o m, run v o /\ (m < n)%nat /\ nsteps astep m (ARet o K) (final fo).

Lemma alt_returns K a l o m fo :
  nsteps astep m (ARet o (FAlt a l :: K)) (final fo) ->
  exists m', (m' < m)%nat /\ match o with
  | Some cap => nsteps astep m' (ARet (Some cap) K) (final fo)
  | None => nsteps astep m' (ARun a (push_alts l K)) (final fo)
  end.
Proof.
  intros H. inversion H as [|n x y z Hs Hr]; subst. exists n. split; [lia|].
  inversion Hs; by subst.
Qed.

Lemma tries_returns n fo : (forall m v K, (m < n)%nat -> returns m v K fo) ->
  forall l m K, (m < n)%nat -> nsteps astep m (start_alts l K) (final fo) ->
  exists o k, tries l o /\ (k <= m)%nat /\ nsteps astep k (ARet o K) (final fo).
Proof.
  intros IH l. induction l as [|a l IHl]; intros m K Hm H; cbn [start_alts] in H.
  { exists None, m. split; [constructor|done]. }
  destruct (IH m a (push_alts l K) Hm H) as (o & k & Hrun & Hk & Hr).
  destruct l as [|b l].
  - exists o, k. split; [|split; [lia|done]].
    destruct o; [by constructor|by apply tries_next; [|constructor]].
  - cbn [push_alts] in Hr. apply alt_returns in Hr as (k' & Hk' & Hr).
    destruct o as [cap|].
    + exists (Some cap), k'. split; [by constructor|split; [lia|done]].
    + destruct (IHl k' K) as (o & j & Ht & Hj & Hfin); [lia|done|].
      exists o, j. split; [by apply tries_next|split; [lia|done]].
Qed.

Lemma run_returns fo n : forall v K, returns n v K fo.
Proof.
  induction n as [n IH] using lt_wf_ind. intros v K H.
  inversion H as [|n' x y z Hs Hr]; subst.
  inversion Hs; subst.
  - destruct (IH n' ltac:(lia) _ _ Hr) as (o & m & Ho & Hm & Hf).
    exists o, m. split; [by eapply run_next|split; [lia|done]].
  - eexists _, n'. split; [by apply run_match|split; [lia|done]].
  - eexists _, n'. split; [by apply run_fail|split; [lia|done]].
  - destruct (tries_returns (S n') fo) with (l := [a; at_pos a pc1 (cptr a)])
      (m := n') (K := K) as (o & k & Ht & Hk & Hf); [intros; apply IH; lia|lia|done|].
    exists o, k. split; [by eapply run_split|split; [lia|done]].
  - destruct (tries_returns (S n') fo) with (l := greedy_alts v1 quant_min ps)
      (m := n') (K := K) as (o & k & Ht & Hk & Hf); [intros; apply IH; lia|lia|done|].
    exists o, k. split; [by eapply run_greedy|split; [lia|done]].
  - destruct (IH n' ltac:(lia) _ _ Hr) as (r & m & Hrun & Hm & Hf).
    inversion Hf as [|m' x' y' z' Hs' Hr']; subst. inversion Hs'; subst.
    + destruct (IH m' ltac:(lia) _ _ Hr') as (o & k & Ho & Hk & Hf').
      exists o, k. split; [by eapply run_look|split; [lia|done]].
    + exists None, m'. split; [by eapply run_look_fail|split; [lia|done]].
Qed.

(** The explicit stack gives the result of the search, and only that. *)
Lemma astep_run v fo :
  rtc astep (ARun v []) (final fo) <-> run v fo.
Proof.
  split; [|intros H; by apply run_astep].
  intros [n H]%rtc_nsteps. destruct (run_returns fo n v [] H) as (o & m & Hrun & _ & Hf).
  inversion Hf as [|? ? ? ? Hs]; subst; [done|]. inversion Hs.
Qed.
End sem.
