(* ===== verification/LreMachineSpec.v ===== *)
(** * The loop of the executor and the search

    [lre_exec_backtrack] and the search of [LreExecSpec] step by step: the
    states on its stack are the alternatives that are left, and the
    quantifiers find these alternatives again by going backward in the
    subject. *)

From stdpp Require Import base tactics numbers list option relations.
From Stdlib Require Import ZArith Lia.
From S2P Require Import Prelude Cutils UnicodeCase LreExec LreExecSpec.

Open Scope Z_scope.

(** Inversion of a computation that gives a result. *)
Ltac rinv H :=
  repeat (cbv beta iota zeta in H;
  lazymatch type of H with
  | bind ?x _ = Ret _ =>
      let E := fresh "E" in destruct x eqn:E; cbn [bind] in H; try discriminate H
  | (if ?c then _ else _) = Ret _ => let E := fresh "E" in destruct c eqn:E
  | (let '(_, _) := ?x in _) = Ret _ => destruct x
  | match ?x with _ => _ end = Ret _ =>
      let E := fresh "E" in destruct x eqn:E; try discriminate H
  end).

Lemma bind_Ret {A B} (x : res A) (k : A -> res B) r :
  bind x k = Ret r -> exists a, x = Ret a /\ k a = Ret r.
Proof. destruct x as [a| |]; cbn [bind]; intros H; try done. by exists a. Qed.

Section machine.
Context {lr : LreRealloc} (e : re_env).
Abbreviation sem := (sem e).
Abbreviation boundary := (boundary e).

(** ** Code *)

Definition op_at (pc : Z) (op : REOPCodeEnum) : Prop :=
  exists n k, rd (bc_buf e) pc = Ret n /\ reopcode_info !! Z.to_nat n = Some (op, k).

Definition result_pcs (r : re_result) : list Z :=
  match r with
  | Next v => [re_pc v]
  | Split a pc1 => [re_pc a; pc1]
  | Look _ body pc1 => [re_pc body; pc1]
  | Greedy v pc1 _ _ => [pc1; re_pc v]
  | NoMatch | Match => []
  end.

(** The positions in the code that an execution can reach. *)
Inductive code_reach : Z -> Prop :=
  | reach_start : code_reach RE_HEADER_LEN
  | reach_next v r pc :
      code_reach (re_pc v) -> sem v = Ret r -> pc ∈ result_pcs r -> code_reach pc.

(** The atom of a simple quantifier: tests of [n] characters and of
    assertions, and a [REOP_match]. *)
Inductive simple_code : Z -> nat -> Prop :=
  | simple_match pc : op_at pc REOP_match -> simple_code pc 0
  | simple_assert pc op n :
      op_at pc op ->
      op = REOP_line_start \/ op = REOP_line_end \/ op = REOP_word_boundary
        \/ op = REOP_not_word_boundary ->
      simple_code (pc + 1) n -> simple_code pc n
  | simple_dot pc op n :
      op_at pc op -> op = REOP_dot \/ op = REOP_any ->
      simple_code (pc + 1) n -> simple_code pc (S n)
  | simple_char pc n :
      op_at pc REOP_char -> simple_code (pc + 3) n -> simple_code pc (S n)
  | simple_char32 pc n :
      op_at pc REOP_char32 -> simple_code (pc + 5) n -> simple_code pc (S n)
  | simple_range pc k n :
      op_at pc REOP_range -> get_u16 (bc_buf e) (pc + 1) = Ret k ->
      simple_code (pc + 3 + 4 * k) n -> simple_code pc (S n)
  | simple_range32 pc k n :
      op_at pc REOP_range32 -> get_u16 (bc_buf e) (pc + 1) = Ret k ->
      simple_code (pc + 3 + 8 * k) n -> simple_code pc (S n).

(** What the compiler guarantees: the ranges of a class are in order, and
    the atoms of the simple quantifiers are simple, with the number of
    characters that the quantifier has. *)
Definition class_ok (w pc : Z) : Prop :=
  exists n l, get_u16 (bc_buf e) pc = Ret n /\ 1 <= n < 2 ^ 16
    /\ ranges_at e w (pc + 2) (Z.to_nat n) = Ret l /\ ranges_sorted l.

Record re_wf : Prop := {
  wf_bytes : Forall byte (bc_buf e);
  wf_range : forall pc, code_reach pc -> op_at pc REOP_range -> class_ok 2 (pc + 1);
  wf_range32 : forall pc, code_reach pc -> op_at pc REOP_range32 -> class_ok 4 (pc + 1);
  wf_greedy : forall pc, code_reach pc -> op_at pc REOP_simple_greedy_quant ->
    exists n, get_u32 (bc_buf e) (pc + 13) = Ret n /\ simple_code (pc + 17) (Z.to_nat n)
}.

Context (wf : re_wf).

Lemma op_at_fun pc op op' : op_at pc op -> op_at pc op' -> op = op'.
Proof. intros (n & k & H1 & H2) (n' & k' & H1' & H2'). congruence. Qed.

(** An instruction by its opcode. *)
Lemma fetch_op test v op : op_at (re_pc v) op ->
  fetch e test v = re_insn e test op (mkVm (capture v) (stack v) (re_pc v + 1) (cptr v)).
Proof. intros (n & k & H1 & H2). unfold fetch. rewrite H1. cbn [bind]. by rewrite H2. Qed.

Lemma fetch_op_inv test v r : fetch e test v = Ret r -> exists op, op_at (re_pc v) op.
Proof.
  unfold fetch. intros (n & H1 & H2)%bind_Ret.
  destruct (reopcode_info !! Z.to_nat n) as [[op k]|] eqn:E; [|done].
  exists op, n, k. done.
Qed.

(** The two searches in a class agree on the code that is reached. *)
Lemma re_insn_test test test' op v :
  (forall w n c, (op = REOP_range /\ w = 2) \/ (op = REOP_range32 /\ w = 4) ->
     get_u16 (bc_buf e) (re_pc v) = Ret n ->
     test w (re_pc v + 2) n c = test' w (re_pc v + 2) n c) ->
  re_insn e test op v = re_insn e test' op v.
Proof.
  intros H. destruct op; try done; unfold re_insn; cbv zeta;
    (destruct (get_u16 (bc_buf e) (re_pc v)) as [n| |] eqn:En; [|done..]); cbn [bind];
    (destruct (cbuf_end e <=? cptr v); [done|]);
    (destruct (GET_CHAR e (cptr v) (cbuf_end e)) as [r| |]; [|done..]); cbn [bind];
    (destruct (canon e r.1) as [c| |]; [|done..]); cbn [bind].
  - by rewrite (H 2 n c) by auto.
  - by rewrite (H 4 n c) by auto.
Qed.

Lemma fetch_sem v : code_reach (re_pc v) -> fetch e (range_test e) v = sem v.
Proof.
  intros Hr. unfold LreExecSpec.sem.
  destruct (rd (bc_buf e) (re_pc v)) as [n| |] eqn:En.
  2-3: unfold fetch; by rewrite En.
  destruct (reopcode_info !! Z.to_nat n) as [[op k]|] eqn:Eo.
  2:{ unfold fetch. rewrite En. cbn [bind]. by rewrite Eo. }
  assert (Hop : op_at (re_pc v) op) by by exists n, k.
  rewrite !(fetch_op _ v op Hop). apply re_insn_test. cbn [re_pc].
  intros w m c Hw Hm.
  assert (Hc : class_ok w (re_pc v + 1)).
  { destruct Hw as [[-> ->]|[-> ->]]; [by apply (wf_range wf)|by apply (wf_range32 wf)]. }
  destruct Hc as (m' & l & Hm' & Hb & Hl & Hs). rewrite Hm in Hm'. injection Hm' as <-.
  rewrite (range_test_correct e w _ m c l Hb Hl Hs).
  unfold range_linear. by rewrite Hl.
Qed.

(** ** Positions in the subject *)

Definition vm_ok (v : re_vm) : Prop :=
  boundary (cptr v) /\ forall i p, capture v !! i = Some (Some p) -> boundary p.

Definition result_ok (v : re_vm) (r : re_result) : Prop :=
  match r with
  | Next v' => vm_ok v'
  | Split a _ | Look _ a _ => vm_ok a
  | Greedy v1 _ _ _ => vm_ok v1 /\ cptr v1 = cptr v
  | NoMatch | Match => True
  end.

Lemma boundary_0 : boundary 0.
Proof. split; [unfold cbuf_end; lia|]. intros. lia. Qed.

Lemma boundary_cbuf_end : boundary (cbuf_end e).
Proof. apply boundary_end; [unfold cbuf_end; lia|done]. Qed.

Lemma GET_CHAR_next p c p' :
  boundary p -> GET_CHAR e p (cbuf_end e) = Ret (c, p') ->
  boundary p' /\ p < p' /\ PREV_CHAR e p' 0 = Ret p.
Proof.
  intros Hp H. assert (p < cbuf_end e).
  { unfold GET_CHAR in H. apply bind_Ret in H as (x & H & _).
    apply rd_range in H. unfold cbuf_end. lia. }
  destruct (GET_CHAR_spec e p (cbuf_end e) c p') as (H1 & H2 & H3); try done.
  { apply boundary_cbuf_end. }
  split_and!; [done|lia|done].
Qed.

Lemma back_ref_ok fuel : forall p1 p1_end p r,
  boundary p1 -> boundary p1_end -> boundary p ->
  back_ref_loop e fuel p1 p1_end p = Ret (Some r) -> boundary r.
Proof.
  induction fuel as [|fuel IH]; intros p1 p1_end p r H1 H2 H3 H; cbn [back_ref_loop] in H; [done|].
  destruct (Z.ltb_spec p1 p1_end); [|by injection H as <-].
  destruct (Z.leb_spec (cbuf_end e) p); [done|].
  apply bind_Ret in H as ([x1 q1] & E1 & H). apply bind_Ret in H as ([x2 q2] & E2 & H).
  apply bind_Ret in H as (c1 & _ & H). apply bind_Ret in H as (c2 & _ & H).
  destruct (negb (c1 =? c2)); [done|]. apply (IH _ _ _ _) in H; [done| |done|].
  - by apply GET_CHAR_spec in E1 as (? & _).
  - by apply GET_CHAR_next in E2 as (? & _).
Qed.

Lemma backward_ref_ok fuel : forall p1 p1_start p r,
  boundary p1 -> boundary p1_start -> boundary p ->
  backward_ref_loop e fuel p1 p1_start p = Ret (Some r) -> boundary r.
Proof.
  induction fuel as [|fuel IH]; intros p1 p1_start p r H1 H2 H3 H;
    cbn [backward_ref_loop] in H; [done|].
  destruct (Z.ltb_spec p1_start p1); [|by injection H as <-].
  destruct (Z.eqb_spec p 0); [done|].
  apply bind_Ret in H as ([x1 q1] & E1 & H). apply bind_Ret in H as ([x2 q2] & E2 & H).
  apply bind_Ret in H as (c1 & _ & H). apply bind_Ret in H as (c2 & _ & H).
  destruct (negb (c1 =? c2)); [done|]. apply (IH _ _ _ _) in H; [done| |done|].
  - by apply GET_PREV_CHAR_spec in E1 as (? & _).
  - apply GET_PREV_CHAR_spec in E2 as (? & _); [done|done|apply boundary_0|].
    destruct H3 as [H3 _]. lia.
Qed.

Lemma wr_captures (cap cap' : list (option Z)) i x :
  wr cap i x = Ret cap' ->
  (forall i p, cap !! i = Some (Some p) -> boundary p) ->
  (forall p, x = Some p -> boundary p) ->
  forall i p, cap' !! i = Some (Some p) -> boundary p.
Proof.
  intros H Hc Hx j p Hj. unfold wr in H. destruct ((0 <=? i) && _); [|done].
  injection H as <-.
  apply list_lookup_insert_Some in Hj as [(_ & -> & _)|[_ Hj]]; [by apply Hx|by eapply Hc].
Qed.

Lemma reset_captures_ok n : forall val cap cap',
  reset_captures n val cap = Ret cap' ->
  (forall i p, cap !! i = Some (Some p) -> boundary p) ->
  forall i p, cap' !! i = Some (Some p) -> boundary p.
Proof.
  induction n as [|n IH]; intros val cap cap' H Hc; cbn [reset_captures] in H.
  { by injection H as <-. }
  apply bind_Ret in H as (c1 & H1 & H). apply bind_Ret in H as (c2 & H2 & H).
  apply (IH _ _ _ H). apply (wr_captures _ _ _ _ H2); [|done].
  by apply (wr_captures _ _ _ _ H1).
Qed.

(** A test of a character moves to the next boundary. *)
Lemma test_char_ok (v : re_vm) (pc : Z) (f : Z * Z -> res bool) r :
  boundary (cptr v) ->
  (if cbuf_end e <=? cptr v then Ret NoMatch
   else let* x := GET_CHAR e (cptr v) (cbuf_end e) in
        let* ok := f x in Ret (if ok : bool then go v pc x.2 else NoMatch)) = Ret r ->
  r = NoMatch \/ exists p, r = go v pc p /\ boundary p /\ PREV_CHAR e p 0 = Ret (cptr v).
Proof.
  intros Hp H. destruct (_ <=? _); [injection H as <-; by left|].
  apply bind_Ret in H as ([c p] & E1 & H). apply bind_Ret in H as (ok & _ & H).
  injection H as <-. destruct ok; [right|by left].
  apply GET_CHAR_next in E1 as (H1 & _ & H2); [|done]. by exists p.
Qed.

(** The instructions that test a character, in one shape. *)
Lemma re_insn_char test op v r :
  boundary (cptr v) ->
  op = REOP_char \/ op = REOP_char32 \/ op = REOP_dot \/ op = REOP_any
    \/ op = REOP_range \/ op = REOP_range32 ->
  re_insn e test op v = Ret r ->
  r = NoMatch \/ exists pc p, r = go v pc p /\ boundary p /\ PREV_CHAR e p 0 = Ret (cptr v)
    /\ match op with
       | REOP_char => pc = re_pc v + 2
       | REOP_char32 => pc = re_pc v + 4
       | REOP_range => exists n, get_u16 (bc_buf e) (re_pc v) = Ret n /\ pc = re_pc v + 2 + 2 * 2 * n
       | REOP_range32 => exists n, get_u16 (bc_buf e) (re_pc v) = Ret n /\ pc = re_pc v + 2 + 2 * 4 * n
       | _ => pc = re_pc v
       end.
Proof.
  intros Hp Hop H.
  assert (Hgo : forall x p', GET_CHAR e (cptr v) (cbuf_end e) = Ret (x, p') ->
    boundary p' /\ PREV_CHAR e p' 0 = Ret (cptr v)).
  { intros x p' E. apply GET_CHAR_next in E as (H1 & _ & H2); done. }
  destruct_or! Hop; subst op; unfold re_insn in H; cbv zeta in H.
  - apply bind_Ret in H as (val & _ & H). destruct (_ <=? _); [injection H as <-; by left|].
    apply bind_Ret in H as ([x p'] & E & H). apply bind_Ret in H as (c & _ & H).
    injection H as <-. destruct (negb _); [by left|right].
    destruct (Hgo _ _ E). eexists _, p'. by split_and!.
  - apply bind_Ret in H as (val & _ & H). destruct (_ <=? _); [injection H as <-; by left|].
    apply bind_Ret in H as ([x p'] & E & H). apply bind_Ret in H as (c & _ & H).
    injection H as <-. destruct (negb _); [by left|right].
    destruct (Hgo _ _ E). eexists _, p'. by split_and!.
  - destruct (_ =? _); [injection H as <-; by left|].
    apply bind_Ret in H as ([x p'] & E & H).
    injection H as <-. destruct (is_line_terminator _); [by left|right].
    destruct (Hgo _ _ E). eexists _, p'. by split_and!.
  - destruct (_ =? _); [injection H as <-; by left|].
    apply bind_Ret in H as ([x p'] & E & H). injection H as <-. right.
    destruct (Hgo _ _ E). eexists _, p'. by split_and!.
  - apply bind_Ret in H as (n & En & H). destruct (_ <=? _); [injection H as <-; by left|].
    apply bind_Ret in H as ([x p'] & E & H). apply bind_Ret in H as (c & _ & H).
    apply bind_Ret in H as (ok & _ & H). injection H as <-. destruct ok; [right|by left].
    destruct (Hgo _ _ E). eexists _, p'. split_and!; [done..|by exists n].
  - apply bind_Ret in H as (n & En & H). destruct (_ <=? _); [injection H as <-; by left|].
    apply bind_Ret in H as ([x p'] & E & H). apply bind_Ret in H as (c & _ & H).
    apply bind_Ret in H as (ok & _ & H). injection H as <-. destruct ok; [right|by left].
    destruct (Hgo _ _ E). eexists _, p'. split_and!; [done..|by exists n].
Qed.

(** The assertions on the position stay where they are. *)
Lemma re_insn_assert test op v r :
  op = REOP_line_start \/ op = REOP_line_end \/ op = REOP_word_boundary
    \/ op = REOP_not_word_boundary ->
  re_insn e test op v = Ret r -> r = NoMatch \/ r = go v (re_pc v) (cptr v).
Proof.
  intros Hop H. destruct_or! Hop; subst op; unfold re_insn in H; cbv zeta in H.
  - destruct (_ =? _); [injection H as <-; by right|].
    destruct (negb _); [injection H as <-; by left|].
    apply bind_Ret in H as (c & _ & H). injection H as <-.
    destruct (is_line_terminator c); auto.
  - destruct (_ =? _); [injection H as <-; by right|].
    destruct (negb _); [injection H as <-; by left|].
    apply bind_Ret in H as (c & _ & H). injection H as <-.
    destruct (is_line_terminator c); auto.
  - apply bind_Ret in H as (v1 & _ & H). apply bind_Ret in H as (v2 & _ & H).
    injection H as <-. destruct (xorb _ _); auto.
  - apply bind_Ret in H as (v1 & _ & H). apply bind_Ret in H as (v2 & _ & H).
    injection H as <-. destruct (xorb _ _); auto.
Qed.

Lemma re_insn_ok test op v r :
  vm_ok v -> re_insn e test op v = Ret r -> result_ok v r.
Proof.
  intros [Hp Hc] H.
  assert (Hgo : forall pc st p, boundary p -> vm_ok (mkVm (capture v) st pc p)) by done.
  assert (Hchar : op = REOP_char \/ op = REOP_char32 \/ op = REOP_dot \/ op = REOP_any
    \/ op = REOP_range \/ op = REOP_range32 -> result_ok v r).
  { intros Hop. destruct (re_insn_char test op v r Hp Hop H) as [->|(pc & p & -> & Hb & _)];
      [done|by apply Hgo]. }
  assert (Hassert : op = REOP_line_start \/ op = REOP_line_end \/ op = REOP_word_boundary
    \/ op = REOP_not_word_boundary -> result_ok v r).
  { intros Hop. destruct (re_insn_assert test op v r Hop H) as [->| ->]; [done|by apply Hgo]. }
  destruct op; try (apply Hchar; tauto); try (apply Hassert; tauto); clear Hchar Hassert;
    unfold re_insn in H; cbv zeta in H; try discriminate H.
  - apply bind_Ret in H as (val & _ & H). injection H as <-. by apply Hgo.
  - apply bind_Ret in H as (val & _ & H). injection H as <-. by apply Hgo.
  - apply bind_Ret in H as (val & _ & H). injection H as <-. by apply Hgo.
  - by injection H as <-.
  - apply bind_Ret in H as (val & _ & H). apply bind_Ret in H as (? & _ & H).
    apply bind_Ret in H as (cap & Hw & H). injection H as <-. split; [done|].
    apply (wr_captures _ _ _ _ Hw Hc). by intros p [= <-].
  - apply bind_Ret in H as (val & _ & H). apply bind_Ret in H as (? & _ & H).
    apply bind_Ret in H as (cap & Hw & H). injection H as <-. split; [done|].
    apply (wr_captures _ _ _ _ Hw Hc). by intros p [= <-].
  - apply bind_Ret in H as (val & _ & H). apply bind_Ret in H as (val2 & _ & H).
    apply bind_Ret in H as (? & _ & H). apply bind_Ret in H as (cap & Hw & H).
    injection H as <-. split; [done|]. by apply (reset_captures_ok _ _ _ _ Hw).
  - apply bind_Ret in H as (val & _ & H). destruct (stack v); [done|].
    injection H as <-. by apply Hgo.
  - apply bind_Ret in H as (val & _ & H). apply bind_Ret in H as (st & _ & H).
    injection H as <-. by apply Hgo.
  - destruct (stack v); [done|]. injection H as <-. by apply Hgo.
  - apply bind_Ret in H as (val & _ & H). destruct (_ <=? _); [by injection H as <-|].
    apply bind_Ret in H as (s & Es & H). apply bind_Ret in H as (t & Et & H).
    apply rd_Ret_inv in Es as [_ Es]. apply rd_Ret_inv in Et as [_ Et].
    destruct s as [s|]; [|injection H as <-; by apply Hgo].
    destruct t as [t|]; [|injection H as <-; by apply Hgo].
    apply bind_Ret in H as (o & E & H). injection H as <-.
    destruct o as [o|]; [|done]. apply Hgo.
    eapply back_ref_ok; [| | |exact E]; eauto.
  - apply bind_Ret in H as (val & _ & H). destruct (_ <=? _); [by injection H as <-|].
    apply bind_Ret in H as (s & Es & H). apply bind_Ret in H as (t & Et & H).
    apply rd_Ret_inv in Es as [_ Es]. apply rd_Ret_inv in Et as [_ Et].
    destruct s as [s|]; [|injection H as <-; by apply Hgo].
    destruct t as [t|]; [|injection H as <-; by apply Hgo].
    apply bind_Ret in H as (o & E & H). injection H as <-.
    destruct o as [o|]; [|done]. apply Hgo.
    eapply backward_ref_ok; [| | |exact E]; eauto.
  - apply bind_Ret in H as (val & _ & H). injection H as <-. by apply Hgo.
  - apply bind_Ret in H as (val & _ & H). injection H as <-. by apply Hgo.
  - apply bind_Ret in H as (st & _ & H). injection H as <-. by apply Hgo.
  - apply bind_Ret in H as (val & _ & H). destruct (stack v); [done|].
    injection H as <-. by apply Hgo.
  - destruct (Z.eqb_spec (cptr v) 0); [by injection H as <-|].
    apply bind_Ret in H as (p & E & H). injection H as <-. apply Hgo.
    apply PREV_CHAR_spec in E as [E _]; [done|done|]. destruct Hp. lia.
  - apply bind_Ret in H as (nx & _ & H). apply bind_Ret in H as (qm & _ & H).
    apply bind_Ret in H as (qM & _ & H). injection H as <-. by split; [apply Hgo|].
Qed.

Lemma sem_ok v r : vm_ok v -> sem v = Ret r -> result_ok v r.
Proof.
  intros Hv H. destruct (fetch_op_inv _ _ _ H) as [op Hop].
  unfold LreExecSpec.sem in H. rewrite (fetch_op _ _ _ Hop) in H.
  by apply re_insn_ok in H.
Qed.

(** ** The atoms of simple quantifiers *)

Lemma simple_sem pc n cap st p r :
  simple_code pc n -> boundary p -> sem (mkVm cap st pc p) = Ret r ->
  (r = Match /\ n = 0%nat) \/ r = NoMatch \/
  exists pc' p' n', r = Next (mkVm cap st pc' p') /\ simple_code pc' n' /\ boundary p'
    /\ ((n' = n /\ p' = p) \/ (n = S n' /\ PREV_CHAR e p' 0 = Ret p)).
Proof.
  intros Hs Hp H. unfold LreExecSpec.sem in H.
  assert (Hchar : forall op m, op_at pc op ->
    op = REOP_char \/ op = REOP_char32 \/ op = REOP_dot \/ op = REOP_any
      \/ op = REOP_range \/ op = REOP_range32 ->
    (forall pc', match op with
       | REOP_char => pc' = pc + 1 + 2
       | REOP_char32 => pc' = pc + 1 + 4
       | REOP_range => exists k, get_u16 (bc_buf e) (pc + 1) = Ret k /\ pc' = pc + 1 + 2 + 2 * 2 * k
       | REOP_range32 => exists k, get_u16 (bc_buf e) (pc + 1) = Ret k /\ pc' = pc + 1 + 2 + 2 * 4 * k
       | _ => pc' = pc + 1
       end -> simple_code pc' m) -> n = S m ->
    r = NoMatch \/ exists pc' p' n', r = Next (mkVm cap st pc' p') /\ simple_code pc' n'
      /\ boundary p' /\ ((n' = n /\ p' = p) \/ (n = S n' /\ PREV_CHAR e p' 0 = Ret p))).
  { intros op m Hop Hin Hnext ->. rewrite (fetch_op _ (mkVm cap st pc p) _ Hop) in H.
    destruct (re_insn_char _ op (mkVm cap st (pc + 1) p) r Hp Hin H)
      as [->|(pc' & p' & -> & Hb & Hprev & Hpc)]; [by left|right].
    exists pc', p', m. split_and!; [done|by apply Hnext|done|by right]. }
  inversion Hs as [pc0 Hop|pc0 op k Hop Hin Hn|pc0 op k Hop Hin Hn|pc0 k Hop Hn|pc0 k Hop Hn
    |pc0 c k Hop Hc Hn|pc0 c k Hop Hc Hn]; subst.
  - left. rewrite (fetch_op _ (mkVm cap st pc p) _ Hop) in H. by injection H as <-.
  - right. rewrite (fetch_op _ (mkVm cap st pc p) _ Hop) in H.
    destruct (re_insn_assert _ op _ r Hin H) as [->| ->]; [by left|right].
    exists (pc + 1), p, n. split_and!; [done..|by left].
  - right. apply (Hchar op k Hop); [tauto| |done]. by destruct Hin; subst op; intros pc' ->.
  - right. apply (Hchar _ k Hop); [tauto| |done]. intros pc' ->.
    by replace (pc + 1 + 2) with (pc + 3) by lia.
  - right. apply (Hchar _ k Hop); [tauto| |done]. intros pc' ->.
    by replace (pc + 1 + 4) with (pc + 5) by lia.
  - right. apply (Hchar _ k Hop); [tauto| |done]. intros pc' (c' & Hc' & ->).
    rewrite Hc in Hc'. injection Hc' as <-.
    by replace (pc + 1 + 2 + 2 * 2 * c) with (pc + 3 + 4 * c) by lia.
  - right. apply (Hchar _ k Hop); [tauto| |done]. intros pc' (c' & Hc' & ->).
    rewrite Hc in Hc'. injection Hc' as <-.
    by replace (pc + 1 + 2 + 2 * 4 * c) with (pc + 3 + 8 * c) by lia.
Qed.

Lemma go_backward_last n : forall p q,
  go_backward e n p = Ret q -> go_backward e (S n) p = PREV_CHAR e q 0.
Proof.
  induction n as [|n IH]; intros p q H.
  - injection H as <-. cbn. by destruct (PREV_CHAR e p 0).
  - cbn [go_backward] in H |- *. apply bind_Ret in H as (p1 & E & H).
    rewrite E. cbn [bind]. specialize (IH p1 q H). cbn [go_backward] in IH. exact IH.
Qed.

(** Going backward over the characters of an atom finds its start. *)
Lemma atom_back v o : atom_run e v o -> forall n,
  simple_code (re_pc v) n -> boundary (cptr v) ->
  forall p, o = Some p -> boundary p /\ go_backward e n p = Ret (cptr v).
Proof.
  induction 1 as [v v' o Hsem _ IH|v Hsem|v Hsem]; intros n Hs Hb p Ho.
  - destruct v as [cap st pc q]. cbn [re_pc cptr] in *.
    destruct (simple_sem pc n cap st q _ Hs Hb Hsem)
      as [[? _]|[?|(pc' & p' & n' & [= ->] & Hs' & Hb' & Hc)]]; [done..|].
    destruct (IH n' Hs' Hb' p Ho) as [Hp Hback]. split; [done|]. cbn [cptr] in Hback.
    destruct Hc as [[-> ->]|[-> Hprev]]; [done|]. by rewrite (go_backward_last n' p p').
  - destruct v as [cap st pc q]. cbn [re_pc cptr] in *.
    destruct (simple_sem pc n cap st q _ Hs Hb Hsem)
      as [[_ ->]|[?|(? & ? & ? & ? & _)]]; [|done..]. by injection Ho as <-.
  - done.
Qed.

Lemma reach_next_vm v v' : code_reach (re_pc v) -> sem v = Ret (Next v') ->
  code_reach (re_pc v').
Proof. intros Hr H. eapply reach_next; [done|exact H|]. by left. Qed.

(** The callee of a quantifier: its result is the one of the atom. *)
Definition atom_out (v : re_vm) (s : re_states) (x : re_out) : Prop :=
  x.1.1 = s /\ capture x.1.2 = capture v /\ stack x.1.2 = stack v
  /\ ((x.2 = RetMatch /\ atom_run e v (Some (cptr x.1.2)))
      \/ (x.2 = RetNoMatch /\ atom_run e v None)).

Lemma atom_loop_sound f rec fuel : forall s v x n,
  code_reach (re_pc v) -> simple_code (re_pc v) n -> boundary (cptr v) ->
  loop fuel (exec_step e f rec true) (Running s v) = Ret x -> atom_out v s x.
Proof.
  induction fuel as [|fuel IH]; intros s v x n Hr Hs Hb H; [done|].
  rewrite loop_S in H. unfold exec_step in H at 1. rewrite fetch_sem in H by done.
  destruct (sem v) as [r| |] eqn:Hsem; try done. cbn [bind] in H.
  destruct v as [cap st pc p]. cbn [re_pc cptr] in *.
  destruct (simple_sem pc n cap st p r Hs Hb Hsem)
    as [[-> _]|[->|(pc' & p' & n' & -> & Hs' & Hb' & _)]]; cbn in H.
  - injection H as <-. split_and!; [done..|]. left. split; [done|].
    by apply atom_match.
  - injection H as <-. split_and!; [done..|]. right. split; [done|]. by apply atom_fail.
  - apply (IH s _ x n') in H; [|by apply (reach_next_vm (mkVm cap st pc _) _ Hr Hsem)|done|done].
    destruct H as (H1 & H2 & H3 & H4). split_and!; [done..|].
    destruct H4 as [[E H4]|[E H4]]; [left|right]; (split; [done|]); by eapply atom_next.
Qed.

Lemma atom_loop_complete v o : atom_run e v o ->
  forall n, code_reach (re_pc v) -> simple_code (re_pc v) n -> boundary (cptr v) ->
  exists k, forall fuel f rec s, (k <= fuel)%nat ->
    exists x, loop fuel (exec_step e f rec true) (Running s v) = Ret x.
Proof.
  induction 1 as [v v' o Hsem _ IH|v Hsem|v Hsem]; intros n Hr Hs Hb.
  - destruct v as [cap st pc q]. cbn [re_pc cptr] in *.
    destruct (simple_sem pc n cap st q _ Hs Hb Hsem)
      as [[? _]|[?|(pc' & p' & n' & [= ->] & Hs' & Hb' & Hc)]]; [done..|].
    destruct (IH n') as [k Hk]; [by apply (reach_next_vm (mkVm cap st pc _) _ Hr Hsem)|done..|].
    exists (S k). intros [|fuel] f rec s Hf; [lia|].
    destruct (Hk fuel f rec s) as [x Hx]; [lia|]. exists x.
    rewrite loop_S. unfold exec_step at 1. rewrite fetch_sem, Hsem by done. exact Hx.
  - exists 1%nat. intros [|fuel] f rec s Hf; [lia|]. eexists.
    rewrite loop_S. unfold exec_step at 1. rewrite fetch_sem, Hsem by done. reflexivity.
  - exists 1%nat. intros [|fuel] f rec s Hf; [lia|]. eexists.
    rewrite loop_S. unfold exec_step at 1. rewrite fetch_sem, Hsem by done. reflexivity.
Qed.

Abbreviation rec fuel := (fun s v => lre_exec_backtrack e fuel s v true).

Lemma atom_exec_sound fuel s v x n :
  code_reach (re_pc v) -> simple_code (re_pc v) n -> boundary (cptr v) ->
  rec fuel s v = Ret x -> atom_out v s x.
Proof.
  intros Hr Hs Hb H. destruct fuel as [|fuel]; [done|]. cbn [lre_exec_backtrack] in H.
  by eapply atom_loop_sound.
Qed.

Lemma atom_exec_complete v o n :
  atom_run e v o -> code_reach (re_pc v) -> simple_code (re_pc v) n -> boundary (cptr v) ->
  exists k, forall fuel s, (k <= fuel)%nat -> exists x, rec fuel s v = Ret x.
Proof.
  intros Ha Hr Hs Hb. destruct (atom_loop_complete v o Ha n Hr Hs Hb) as [k Hk].
  exists (S k). intros [|fuel] s Hf; [lia|]. cbn [lre_exec_backtrack]. apply Hk. lia.
Qed.

(** An atom has one result. *)
Lemma atom_run_fun v o o' : atom_run e v o -> atom_run e v o' -> o = o'.
Proof.
  intros H. revert o'. induction H as [v v' o Hsem _ IH|v Hsem|v Hsem]; intros o' H';
    inversion H' as [? ? ? Hs Ha|? Hs|? Hs]; subst; rewrite Hsem in Hs; try done.
  injection Hs as <-. by apply IH.
Qed.

(** ** The repetitions of a greedy quantifier *)

Fixpoint back_chain (n : nat) (p : Z) (ps : list Z) : Prop :=
  match ps with
  | [] => True
  | p1 :: ps => go_backward e n p = Ret p1 /\ boundary p1 /\ back_chain n p1 ps
  end.

Section greedy.
Context (v : re_vm) (pc1 quant_max : Z) (n : nat).
Hypothesis Hreach : code_reach pc1.
Hypothesis Hsimple : simple_code pc1 n.
Hypothesis Hstart : boundary (cptr v).

Lemma repeats_back ps : repeats e v pc1 quant_max ps ->
  exists p ps', ps = p :: ps' /\ boundary p /\ back_chain n p ps'.
Proof.
  induction 1 as [|p ps p' _ (q & ps' & [= <- <-] & Hp & Hc) _ Ha].
  - by exists (cptr v), [].
  - exists p', (p :: ps). destruct (atom_back _ _ Ha n Hsimple Hp p' eq_refl) as [Hp' Hb].
    done.
Qed.

(** One repetition, from its callee. *)
Lemma greedy_step_atom f s p ps x :
  repeats e v pc1 quant_max (p :: ps) ->
  greedy_step (rec f) pc1 quant_max
    (s, at_pos v (re_pc v) p, Z.of_nat (length ps)) = Ret x ->
  (atom_run e (at_pos v pc1 p) None
     /\ x = inr (Some (s, at_pos v (re_pc v) p, Z.of_nat (length ps))))
  \/ exists p', atom_run e (at_pos v pc1 p) (Some p')
     /\ x = (let y := (s, at_pos v (re_pc v) p', Z.of_nat (length (p :: ps))) in
             if enough quant_max (Z.of_nat (length (p :: ps))) then inr (Some y) else inl y).
Proof.
  intros Hr H. destruct (repeats_back _ Hr) as (q & ps' & [= <- <-] & Hp & _).
  unfold greedy_step in H. apply bind_Ret in H as ([[s' v1] ret] & E & H).
  apply (atom_exec_sound f s (at_pos v pc1 p) _ n) in E; [|done..].
  destruct E as (E1 & E2 & E3 & E4). cbn [fst snd at_pos capture stack re_pc cptr] in *.
  subst s'. rewrite E2, E3, bool_decide_true in H by done. cbn [bind c_assert] in H.
  destruct E4 as [[-> Ha]|[-> Ha]].
  - right. exists (cptr v1). split; [done|].
    replace (Z.of_nat (length (p :: ps))) with (Z.of_nat (length ps) + 1) by (cbn; lia).
    unfold enough. rewrite (proj2 (Z.eqb_neq _ _)) by lia. cbn [negb andb].
    by destruct (_ && _); injection H as <-.
  - left. by injection H as <-.
Qed.

Lemma greedy_sound f fuel : forall s p ps x,
  repeats e v pc1 quant_max (p :: ps) ->
  enough quant_max (Z.of_nat (length ps)) = false ->
  loop fuel (greedy_step (rec f) pc1 quant_max)
    (s, at_pos v (re_pc v) p, Z.of_nat (length ps)) = Ret x ->
  exists p' ps', repeats_end e v pc1 quant_max (p' :: ps')
    /\ x = Some (s, at_pos v (re_pc v) p', Z.of_nat (length ps')).
Proof.
  induction fuel as [|fuel IH]; intros s p ps x Hr He H; [done|].
  rewrite loop_S in H. apply bind_Ret in H as (y & E & H).
  apply greedy_step_atom in E; [|done]. destruct E as [[Ha ->]|(p' & Ha & ->)].
  - injection H as <-. exists p, ps. split; [|done]. split; [done|].
    exists p, ps. split; [done|]. by right.
  - assert (Hr' : repeats e v pc1 quant_max (p' :: p :: ps)) by by apply repeats_S.
    cbv zeta in H. destruct (enough quant_max (Z.of_nat (length (p :: ps)))) eqn:E.
    + injection H as <-. exists p', (p :: ps). split; [|done]. split; [done|].
      exists p', (p :: ps). split; [done|]. by left.
    + by apply (IH _ _ _ _ Hr' E) in H.
Qed.

Lemma greedy_step_complete p ps o :
  repeats e v pc1 quant_max (p :: ps) -> atom_run e (at_pos v pc1 p) o ->
  exists k, forall f s, (k <= f)%nat ->
    greedy_step (rec f) pc1 quant_max
      (s, at_pos v (re_pc v) p, Z.of_nat (length ps))
    = Ret (match o with
           | None => inr (Some (s, at_pos v (re_pc v) p, Z.of_nat (length ps)))
           | Some p' =>
               let y := (s, at_pos v (re_pc v) p', Z.of_nat (length (p :: ps))) in
               if enough quant_max (Z.of_nat (length (p :: ps))) then inr (Some y) else inl y
           end).
Proof.
  intros Hr Ha. destruct (repeats_back _ Hr) as (q & ps' & [= <- <-] & Hp & _).
  destruct (atom_exec_complete _ _ n Ha Hreach Hsimple Hp) as [k Hk].
  exists k. intros f s Hf. destruct (Hk f s Hf) as [x Hx].
  assert (Hs : exists y, greedy_step (rec f) pc1 quant_max
      (s, at_pos v (re_pc v) p, Z.of_nat (length ps)) = Ret y).
  { pose proof (atom_exec_sound f s (at_pos v pc1 p) x n Hreach Hsimple Hp Hx) as Ho.
    destruct x as [[s' v1] ret]. destruct Ho as (E1 & E2 & E3 & E4).
    unfold greedy_step. cbn [at_pos capture stack re_pc cptr] in Hx |- *.
    unfold at_pos in Hx. cbn [capture stack re_pc cptr] in Hx. rewrite Hx. cbn [bind].
    cbn [fst snd at_pos capture stack re_pc cptr] in *.
    rewrite bool_decide_true by done. cbn [bind c_assert].
    destruct E4 as [[-> _]|[-> _]]; [|by eexists]. destruct (_ && _); by eexists. }
  destruct Hs as [y Hy]. rewrite Hy. f_equal.
  apply greedy_step_atom in Hy; [|done]. destruct Hy as [[Hn ->]|(p' & Hp' & ->)].
  - by rewrite (atom_run_fun _ _ _ Ha Hn).
  - by rewrite (atom_run_fun _ _ _ Ha Hp').
Qed.

Lemma greedy_prefix ps : repeats e v pc1 quant_max ps ->
  forall p ps', ps = p :: ps' -> enough quant_max (Z.of_nat (length ps')) = false ->
  exists k, forall f j s, (k <= f)%nat ->
    loop (length ps' + j) (greedy_step (rec f) pc1 quant_max) (s, at_pos v (re_pc v) (cptr v), 0)
    = loop j (greedy_step (rec f) pc1 quant_max)
        (s, at_pos v (re_pc v) p, Z.of_nat (length ps')).
Proof.
  induction 1 as [|p ps p' Hr IH He Ha]; intros q ps' [= <- <-] He'.
  - exists 0%nat. done.
  - destruct (IH p ps eq_refl He) as [k1 Hk1].
    destruct (greedy_step_complete p ps _ Hr Ha) as [k2 Hk2].
    exists (k1 `max` k2)%nat. intros f j s Hf.
    replace (length (p :: ps) + j)%nat with (length ps + S j)%nat by (cbn; lia).
    rewrite Hk1 by lia. rewrite loop_S, Hk2 by lia. cbv zeta. rewrite He'. done.
Qed.

Lemma greedy_complete ps : repeats_end e v pc1 quant_max ps ->
  exists p ps' k, ps = p :: ps' /\ forall f fuel s, (k <= f)%nat -> (k <= fuel)%nat ->
    loop fuel (greedy_step (rec f) pc1 quant_max) (s, at_pos v (re_pc v) (cptr v), 0)
    = Ret (Some (s, at_pos v (re_pc v) p, Z.of_nat (length ps'))).
Proof.
  intros [Hr (p & ps' & -> & He)]. exists p, ps'. destruct He as [He|[He Ha]].
  - inversion Hr as [|q ps2 p' Hr2 He2 Ha2]; subst.
    { by unfold enough in He. }
    destruct (greedy_prefix _ Hr2 q ps2 eq_refl He2) as [k1 Hk1].
    destruct (greedy_step_complete q ps2 _ Hr2 Ha2) as [k2 Hk2].
    exists (Nat.max (Nat.max k1 k2) (S (length ps2))). split; [done|]. intros f fuel s Hf Hfuel.
    replace fuel with (length ps2 + S (fuel - length ps2 - 1))%nat by lia.
    rewrite Hk1 by lia. rewrite loop_S, Hk2 by lia. cbv zeta. by rewrite He.
  - destruct (greedy_prefix _ Hr p ps' eq_refl He) as [k1 Hk1].
    destruct (greedy_step_complete p ps' _ Hr Ha) as [k2 Hk2].
    exists (Nat.max (Nat.max k1 k2) (S (length ps'))). split; [done|]. intros f fuel s Hf Hfuel.
    replace fuel with (length ps' + S (fuel - length ps' - 1))%nat by lia.
    rewrite Hk1 by lia. by rewrite loop_S, Hk2 by lia.
Qed.
End greedy.

(** ** States and alternatives *)

Definition captures_ok (cap : list (option Z)) : Prop :=
  forall i p, cap !! i = Some (Some p) -> boundary p.

Definition good (v : re_vm) : Prop := vm_ok v /\ code_reach (re_pc v).

(** A state of the stack holds the alternatives that are left. *)
Definition greedy_entry (rs : REExecState) (a : re_vm) (l : list re_vm) : Prop :=
  exists n next p ps,
    rs_type rs = RE_EXEC_STATE_GREEDY_QUANT
    /\ rs_count rs = Z.of_nat (length (p :: ps))
    /\ get_u32 (bc_buf e) (re_pc (rs_vm rs) + 12) = Ret n
    /\ get_u32 (bc_buf e) (re_pc (rs_vm rs)) = Ret next
    /\ code_reach (re_pc (rs_vm rs) + 16 + i32 next)
    /\ captures_ok (capture (rs_vm rs))
    /\ back_chain (Z.to_nat n) (cptr (rs_vm rs)) (p :: ps)
    /\ a :: l = (fun p => at_pos (rs_vm rs) (re_pc (rs_vm rs) + 16 + i32 next) p) <$> p :: ps.

Definition entry_ok (rs : REExecState) (f : aframe) : Prop :=
  match f with
  | FAlt a l =>
      (rs_type rs = RE_EXEC_STATE_SPLIT /\ rs_vm rs = a /\ l = [] /\ good a)
      \/ greedy_entry rs a l
  | FLook neg body pc1 =>
      rs_type rs = (if neg then RE_EXEC_STATE_NEGATIVE_LOOKAHEAD
                    else RE_EXEC_STATE_LOOKAHEAD)
      /\ rs_vm rs = at_pos body pc1 (cptr body) /\ vm_ok body /\ code_reach pc1
  end.

Definition answer (v : re_vm) (ret : bool) : option (list (option Z)) :=
  if ret then Some (capture v) else None.

Definition related (c : re_state) (a : acfg) : Prop :=
  match c, a with
  | Running s v, ARun v' K => v = v' /\ good v /\ Forall2 entry_ok (state_stack s) K
  | Recurse s v ret, ARet o K =>
      o = answer v ret /\ captures_ok (capture v) /\ Forall2 entry_ok (state_stack s) K
  | _, _ => False
  end.

Lemma push_state_spec s rs :
  (exists s', push_state s rs = (s', 0) /\ state_stack s' = rs :: state_stack s)
  \/ exists s', push_state s rs = (s', -1).
Proof.
  unfold push_state. destruct (_ <? _); [|left; by eexists].
  destruct (lre_realloc _ _) as [h []]; [left|right]; by eexists.
Qed.

Lemma entry_cases rs l f K : Forall2 entry_ok (rs :: l) (f :: K) ->
  entry_ok rs f /\ Forall2 entry_ok l K.
Proof. by inversion 1. Qed.

(** The loop at [recurse], with a state on the stack. *)
Lemma recurse_alt s v ret rs l a l' K :
  state_stack s = rs :: l -> captures_ok (capture v) ->
  entry_ok rs (FAlt a l') -> Forall2 entry_ok l K ->
  exists c, recurse_step e s v ret = Ret (inl c)
    /\ (if ret then related c (ARet (Some (capture v)) K)
        else related c (ARun a (push_alts l' K))).
Proof.
  intros Hst Hcap Hent Hl. unfold recurse_step. rewrite Hst. cbv zeta.
  destruct Hent as [(Ht & Hvm & -> & Hg)|(n & next & p & ps & Ht & Hcount & Hn & Hnext
    & Hreach & Hc & (Hback & Hp & Hchain) & Hal)]; rewrite Ht.
  - destruct ret; cbn [negb]; cbv iota; (eexists; split; [reflexivity|]).
    + by split_and!.
    + cbn [related]. rewrite Hvm. destruct a as [cap st pc p]. by split_and!.
  - destruct ret; cbn [negb]; cbv iota.
    { eexists. split; [reflexivity|]. by split_and!. }
    rewrite Hn. cbn [bind]. rewrite Hback. cbn [bind]. rewrite Hnext. cbn [bind].
    eexists. split; [reflexivity|]. rewrite fmap_cons in Hal. injection Hal as -> ->.
    cbn [related]. split; [done|]. split; [by split; [split|]|]. cbn [with_states state_stack].
    rewrite Hcount. destruct ps as [|p2 ps].
    + by rewrite (proj2 (Z.eqb_eq _ _)) by (cbn; lia).
    + rewrite (proj2 (Z.eqb_neq _ _)) by (cbn; lia). cbn [fmap list_fmap push_alts].
      constructor; [|done]. right. exists n, next, p2, ps.
      split_and!; try done. cbn [rs_count length]. lia.
Qed.

Lemma recurse_look s v ret rs l neg body pc1 K :
  state_stack s = rs :: l -> captures_ok (capture v) ->
  entry_ok rs (FLook neg body pc1) -> Forall2 entry_ok l K ->
  exists c, recurse_step e s v ret = Ret (inl c)
    /\ related c (match look_next neg body pc1 (answer v ret) with
                  | Some v' => ARun v' K
                  | None => ARet None K
                  end).
Proof.
  intros Hst Hcap (Ht & Hvm & [Hb Hbc] & Hreach) Hl. unfold recurse_step. rewrite Hst. cbv zeta.
  rewrite Ht, Hvm. destruct neg, ret; (eexists; split; [reflexivity|]); cbn; by split_and!.
Qed.

(** ** One turn of the loop *)

Definition step_error (x : res (re_state + re_out)) : Prop :=
  exists s v, x = Ret (inr (s, v, RetError)).

(** A turn that reaches a state related to [a], or runs out of memory. *)
Definition step_to (x : res (re_state + re_out)) (a : acfg) : Prop :=
  (exists c, x = Ret (inl c) /\ related c a) \/ step_error x.

Lemma push_step rs v s K f :
  good v -> entry_ok rs f -> Forall2 entry_ok (state_stack s) K ->
  step_to (let '(s, ret) := push_state s rs in
           Ret (if ret <? 0 then inr (s, v, RetError) else inl (Running s v)))
    (ARun v (f :: K)).
Proof.
  intros Hg Hf HK. destruct (push_state_spec s rs) as [(s' & -> & Hs')|(s' & ->)].
  - left. eexists. split; [reflexivity|]. cbn [related]. split_and!; [done|done|].
    rewrite Hs'. by constructor.
  - right. by exists s', v.
Qed.

Lemma good_next v r pc : good v -> sem v = Ret r -> pc ∈ result_pcs r -> code_reach pc.
Proof. intros [_ Hr] H Hin. by eapply reach_next. Qed.

Lemma running_next fuel run s v r K :
  good v -> Forall2 entry_ok (state_stack s) K -> sem v = Ret r ->
  match r with
  | Next v' => step_to (exec_step e fuel run false (Running s v)) (ARun v' K)
  | Match => step_to (exec_step e fuel run false (Running s v)) (ARet (Some (capture v)) K)
  | NoMatch => step_to (exec_step e fuel run false (Running s v)) (ARet None K)
  | Split a pc1 =>
      step_to (exec_step e fuel run false (Running s v))
        (ARun a (FAlt (at_pos a pc1 (cptr a)) [] :: K))
  | Look neg body pc1 =>
      step_to (exec_step e fuel run false (Running s v)) (ARun body (FLook neg body pc1 :: K))
  | Greedy _ _ _ _ => True
  end.
Proof.
  intros Hg HK Hsem. pose proof Hg as [Hok Hr].
  pose proof (sem_ok v r Hok Hsem) as Hres.
  pose proof (fun pc => good_next v r pc Hg Hsem) as Hpc.
  destruct r as [v'| | |a pc1|neg body pc1|]; cbn [exec_step result_ok result_pcs] in *;
    try rewrite fetch_sem, Hsem by done; cbn [bind].
  - left. eexists. split; [reflexivity|]. cbn [related]. split_and!; [done| |done].
    split; [done|]. apply Hpc. by left.
  - left. eexists. split; [reflexivity|]. cbn [related]. by destruct Hok.
  - left. eexists. split; [reflexivity|]. cbn [related]. by destruct Hok.
  - apply push_step; [split; [done|apply Hpc; by left]| |done]. left.
    split_and!; try done. split; [done|]. apply Hpc. right. by left.
  - apply push_step; [split; [done|apply Hpc; by left]| |done].
    split_and!; [by destruct neg|done|done|]. apply Hpc. right. by left.
  - done.
Qed.

Lemma get_u32_nonneg i x : get_u32 (bc_buf e) i = Ret x -> 0 <= x.
Proof.
  pose proof (wf_bytes wf) as Hb. rewrite Forall_forall in Hb. unfold get_u32, byte in *.
  assert (Hrd : forall j y, rd (bc_buf e) j = Ret y -> 0 <= y).
  { intros j y Hy. apply rd_Ret_inv in Hy as [_ Hy].
    apply list_elem_of_lookup_2, Hb in Hy. lia. }
  intros (b0 & E0 & H)%bind_Ret. apply bind_Ret in H as (b1 & E1 & H).
  apply bind_Ret in H as (b2 & E2 & H). apply bind_Ret in H as (b3 & E3 & H).
  injection H as <-. pose proof (Hrd _ _ E0). pose proof (Hrd _ _ E1).
  pose proof (Hrd _ _ E2). pose proof (Hrd _ _ E3). lia.
Qed.

(** The operands of a greedy quantifier. *)
Lemma greedy_operands v v1 pc1 quant_min quant_max :
  good v -> sem v = Ret (Greedy v1 pc1 quant_min quant_max) ->
  exists n next,
    pc1 = re_pc v + 17 /\ get_u32 (bc_buf e) (pc1 - 16 + 12) = Ret n
    /\ get_u32 (bc_buf e) (pc1 - 16) = Ret next /\ re_pc v1 = pc1 + i32 next
    /\ v1 = at_pos v (re_pc v1) (cptr v)
    /\ simple_code pc1 (Z.to_nat n) /\ code_reach pc1 /\ code_reach (re_pc v1)
    /\ 0 <= quant_min.
Proof.
  intros Hg Hsem. pose proof (fun pc => good_next v _ pc Hg Hsem) as Hpc.
  cbn [result_pcs] in Hpc. destruct (fetch_op_inv _ _ _ Hsem) as [op Hop].
  pose proof Hsem as H. unfold LreExecSpec.sem in H. rewrite (fetch_op _ _ _ Hop) in H.
  assert (op = REOP_simple_greedy_quant) as ->.
  { destruct op; try done; exfalso; unfold re_insn in H; rinv H; try discriminate H;
      injection H as H; unfold go in H;
      repeat match type of H with
      | context [if ?c then _ else _] => destruct c
      | context [match ?c with _ => _ end] => destruct c
      end; discriminate H. }
  unfold re_insn in H. cbv zeta in H. cbn [re_pc cptr capture stack] in H.
  apply bind_Ret in H as (next & Hnext & H). apply bind_Ret in H as (qm & Hqm & H).
  apply bind_Ret in H as (qM & _ & H). injection H as <- <- <- <-.
  destruct (wf_greedy wf (re_pc v) (proj2 Hg) Hop) as (n & Hn & Hs).
  exists n, next. cbn [re_pc]. split_and!.
  - lia.
  - replace (re_pc v + 1 + 16 - 16 + 12) with (re_pc v + 13) by lia. done.
  - by replace (re_pc v + 1 + 16 - 16) with (re_pc v + 1) by lia.
  - lia.
  - done.
  - by replace (re_pc v + 1 + 16) with (re_pc v + 17) by lia.
  - apply Hpc. by left.
  - apply Hpc. right. by left.
  - by eapply get_u32_nonneg.
Qed.

(** The end of the repetitions: the alternatives, the first one running. *)
Lemma running_greedy fuel run s v v1 pc1 quant_min quant_max p ps K :
  good v -> Forall2 entry_ok (state_stack s) K ->
  sem v = Ret (Greedy v1 pc1 quant_min quant_max) ->
  repeats_end e v1 pc1 quant_max (p :: ps) ->
  loop fuel (greedy_step run pc1 quant_max) (s, v1, 0)
  = Ret (Some (s, at_pos v1 (re_pc v1) p, Z.of_nat (length ps))) ->
  step_to (exec_step e fuel run false (Running s v))
    (start_alts (greedy_alts v1 quant_min (p :: ps)) K).
Proof.
  intros Hg HK Hsem Hps Hloop.
  destruct (greedy_operands _ _ _ _ _ Hg Hsem)
    as (n & next & Hpc1 & Hn & Hnext & Hpc & Hv1 & Hsc & Hr1 & Hr & Hqm).
  pose proof Hg as [Hok Hrv]. destruct (sem_ok v _ Hok Hsem) as [[Hb1 Hc1] Hcp].
  destruct (repeats_back v1 pc1 quant_max _ Hsc Hb1 (p :: ps)) as (p' & ps' & [= <- <-] & Hp & Hchain).
  { by destruct Hps. }
  assert (Hcons : forall q, boundary q -> good (at_pos v1 (re_pc v1) q)) by done.
  unfold exec_step. rewrite fetch_sem, Hsem by done. cbn [bind]. rewrite Hloop. cbn [bind].
  cbv beta iota. unfold greedy_alts. cbn [length].
  destruct (Z.ltb_spec (Z.of_nat (length ps)) quant_min) as [Hlt|Hge].
  { replace (S (length ps) - Z.to_nat quant_min)%nat with 0%nat by lia. left.
    eexists. split; [reflexivity|]. by split_and!. }
  replace (S (length ps) - Z.to_nat quant_min)%nat
    with (S (length ps - Z.to_nat quant_min)) by lia.
  cbn [take]. rewrite fmap_cons. cbn [start_alts].
  set (rest := take (length ps - Z.to_nat quant_min) ps).
  assert (Hrest : length rest = (length ps - Z.to_nat quant_min)%nat)
    by (unfold rest; rewrite length_take; lia).
  destruct (Z.ltb_spec quant_min (Z.of_nat (length ps))) as [Hgt|Hle].
  - destruct rest as [|p2 rest2] eqn:Erest; [cbn in Hrest; lia|].
    rewrite fmap_cons. cbn [push_alts].
    pose proof (push_step (mkState RE_EXEC_STATE_GREEDY_QUANT
        (Z.of_nat (length ps) - quant_min)
        (mkVm (capture v1) (stack v1) (pc1 - 16) p)) (at_pos v1 (re_pc v1) p) s K
      (FAlt (at_pos v1 (re_pc v1) p2) ((fun p => at_pos v1 (re_pc v1) p) <$> rest2))) as Hpush.
    assert (Hent : entry_ok (mkState RE_EXEC_STATE_GREEDY_QUANT
        (Z.of_nat (length ps) - quant_min) (mkVm (capture v1) (stack v1) (pc1 - 16) p))
      (FAlt (at_pos v1 (re_pc v1) p2) ((fun p => at_pos v1 (re_pc v1) p) <$> rest2))).
    { right. exists n, next, p2, rest2. cbn [rs_type rs_count rs_vm re_pc cptr capture].
      assert (Epc : pc1 - 16 + 16 + i32 next = re_pc v1) by lia.
      rewrite Epc. split_and!; try done; [lia|].
      rewrite <- Erest. unfold rest. clear -Hchain. revert p Hchain.
      generalize (length ps - Z.to_nat quant_min)%nat. intros k.
      revert k. induction ps as [|q ps IH]; intros k p Hc; [by rewrite take_nil|].
      destruct k; [done|]. destruct Hc as (H1 & H2 & H3). cbn [take back_chain].
      split_and!; [done..|]. by apply IH. }
    specialize (Hpush (Hcons p Hp) Hent HK). exact Hpush.
  - destruct rest; [|cbn in Hrest; lia]. left. eexists. split; [reflexivity|].
    by split_and!.
Qed.

(** A turn that repeats no atom does not use the fuel. *)
Lemma exec_step_stable f f' run run' b s v r :
  good v -> sem v = Ret r -> (forall v1 pc1 qmin qmax, r <> Greedy v1 pc1 qmin qmax) ->
  exec_step e f run b (Running s v) = exec_step e f' run' b (Running s v).
Proof.
  intros [_ Hr] H Hng. cbn [exec_step]. rewrite fetch_sem, H by done. cbn [bind].
  destruct r; try done. by edestruct Hng.
Qed.

(** A turn that gives the step to [a] whenever it has the fuel [k]. *)
Definition turn_to (k : nat) (c : re_state) (a : acfg) : Prop :=
  step_to (exec_step e k (rec k) false c) a
  /\ forall f, (k <= f)%nat ->
       exec_step e f (rec f) false c = exec_step e k (rec k) false c.

(** Every step of the search is a turn of the loop. *)
Lemma step_complete c a a' : related c a -> astep e a a' -> exists k, turn_to k c a'.
Proof.
  intros Hc Ha. destruct c as [s v|s v ret], a as [v0 K|o K]; try done; cbn [related] in Hc.
  - destruct Hc as (-> & Hg & HK).
    assert (Hfix : forall r, sem v0 = Ret r -> (forall v1 pc1 qmin qmax, r <> Greedy v1 pc1 qmin qmax) ->
      step_to (exec_step e 0 (rec 0) false (Running s v0)) a' -> exists k, turn_to k (Running s v0) a').
    { intros r Hs Hng Hto. exists 0%nat. split; [done|]. intros f _. by eapply exec_step_stable. }
    inversion Ha as [? v' ? Hs|? ? Hs|? ? Hs|? b pc1 ? Hs
      |? v1 pc1 qmin qmax ps ? Hs Hps|? neg body pc1 ? Hs| | | |]; subst.
    + by apply (Hfix _ Hs); [|exact (running_next _ _ s v0 _ K Hg HK Hs)].
    + by apply (Hfix _ Hs); [|exact (running_next _ _ s v0 _ K Hg HK Hs)].
    + by apply (Hfix _ Hs); [|exact (running_next _ _ s v0 _ K Hg HK Hs)].
    + by apply (Hfix _ Hs); [|exact (running_next _ _ s v0 _ K Hg HK Hs)].
    + destruct (greedy_operands _ _ _ _ _ Hg Hs)
        as (n & next & _ & _ & _ & _ & Hv1 & Hsc & Hr1 & _).
      destruct (sem_ok v0 _ (proj1 Hg) Hs) as [[Hb1 _] _].
      destruct (greedy_complete v1 pc1 qmax _ Hr1 Hsc Hb1 ps Hps)
        as (p & ps' & k & -> & Hloop).
      assert (Hl : forall f, (k <= f)%nat -> loop f (greedy_step (rec f) pc1 qmax) (s, v1, 0)
        = Ret (Some (s, at_pos v1 (re_pc v1) p, Z.of_nat (length ps')))).
      { intros f Hf. rewrite <- (Hloop f f s Hf Hf). by destruct v1. }
      exists k. split.
      * eapply running_greedy; [done|done|exact Hs|exact Hps|by apply Hl].
      * intros f Hf. cbn [exec_step]. rewrite fetch_sem, Hs by apply Hg. cbn [bind].
        by rewrite !Hl by lia.
    + by apply (Hfix _ Hs); [|exact (running_next _ _ s v0 _ K Hg HK Hs)].
  - destruct Hc as (-> & Hcap & HK). exists 0%nat. split; [|done]. left. cbn [exec_step].
    destruct (state_stack s) as [|rs l] eqn:Est; [inversion HK; subst; inversion Ha|].
    inversion HK as [|? f ? K' Hf HK' E1 E2]; subst. destruct f as [b l'|neg body pc1].
    + destruct (recurse_alt s v ret rs l b l' K' Est Hcap Hf HK') as (c & Hc & Hrel).
      exists c. split; [done|]. destruct ret; inversion Ha; by subst.
    + destruct (recurse_look s v ret rs l neg body pc1 K' Est Hcap Hf HK') as (c & Hc & Hrel).
      exists c. split; [done|]. inversion Ha; subst;
        match goal with E : look_next _ _ _ _ = _ |- _ => by rewrite E in Hrel end.
Qed.

(** Every turn of the loop is a step of the search, or its end. *)
Lemma step_sound fuel c a x : related c a ->
  exec_step e fuel (rec fuel) false c = Ret x ->
  (exists a', astep e a a' /\ step_to (exec_step e fuel (rec fuel) false c) a')
  \/ exists s v ret, c = Recurse s v ret /\ a = ARet (answer v ret) []
       /\ x = inr (s, v, if ret then RetMatch else RetNoMatch).
Proof.
  intros Hc H. destruct c as [s v|s v ret], a as [v0 K|o K]; try done; cbn [related] in Hc.
  - destruct Hc as (-> & Hg & HK). left.
    assert (Hf : exec_step e fuel (rec fuel) false (Running s v0) = Ret x) by exact H.
    cbn [exec_step] in H. rewrite fetch_sem in H by apply Hg.
    destruct (sem v0) as [r| |] eqn:Hs; try done. cbn [bind] in H.
    pose proof (running_next fuel (rec fuel) s v0 r K Hg HK Hs) as Hnext.
    destruct r as [v'| | |b pc1|neg body pc1|v1 pc1 qmin qmax].
    + eexists. split; [by apply astep_next|done].
    + eexists. split; [by apply astep_fail|done].
    + eexists. split; [by apply astep_match|done].
    + eexists. split; [by apply astep_split|done].
    + eexists. split; [by apply astep_look|done].
    + apply bind_Ret in H as (y & Hloop & H).
      destruct (greedy_operands _ _ _ _ _ Hg Hs)
        as (n & next & _ & _ & _ & _ & Hv1 & Hsc & Hr1 & _).
      destruct (sem_ok v0 _ (proj1 Hg) Hs) as [[Hb1 _] _].
      assert (Ev : v1 = at_pos v1 (re_pc v1) (cptr v1)) by by destruct v1.
      pose proof Hloop as Hl. rewrite Ev in Hl.
      apply (greedy_sound v1 pc1 qmax _ Hr1 Hsc Hb1 fuel fuel s (cptr v1) []) in Hl;
        [|apply repeats_0|done].
      destruct Hl as (p & ps & Hps & ->).
      exists (start_alts (greedy_alts v1 qmin (p :: ps)) K). split.
      * by eapply astep_greedy.
      * by eapply running_greedy.
  - destruct Hc as (-> & Hcap & HK). cbn [exec_step] in H.
    destruct (state_stack s) as [|rs l] eqn:Est.
    + right. exists s, v, ret. unfold recurse_step in H. rewrite Est in H.
      injection H as <-. inversion HK. by destruct ret.
    + left. inversion HK as [|? f ? K' Hf HK' E1 E2]; subst.
      destruct f as [b l'|neg body pc1].
      * destruct (recurse_alt s v ret rs l b l' K' Est Hcap Hf HK') as (c & Hc & Hrel).
        destruct ret; (eexists; split; [|left; exists c; split; [exact Hc|exact Hrel]]).
        -- apply astep_alt_ok.
        -- apply astep_alt_next.
      * destruct (recurse_look s v ret rs l neg body pc1 K' Est Hcap Hf HK') as (c & Hc & Hrel).
        destruct (look_next neg body pc1 (answer v ret)) as [v'|] eqn:E;
          (eexists; split; [|left; exists c; split; [exact Hc|exact Hrel]]).
        -- by apply astep_look_next.
        -- by apply astep_look_fail.
Qed.

(** ** The loop *)

(** The result of the loop for the result of a search. *)
Definition out_answer (x : re_out) (o : option (list (option Z))) : Prop :=
  match x.2 with
  | RetMatch => o = Some (capture x.1.2)
  | RetNoMatch => o = None
  | RetError => False
  end.

Lemma loop_complete a o : rtc (astep e) a (ARet o []) -> forall c, related c a ->
  exists k, forall fuel f, (k <= fuel)%nat -> (k <= f)%nat ->
    exists x, loop fuel (exec_step e f (rec f) false) c = Ret x
              /\ (x.2 = RetError \/ out_answer x o).
Proof.
  intros H. remember (ARet o []) as b eqn:Eb.
  induction H as [a|a a' b Hs _ IH]; intros c Hc; subst.
  - exists 1%nat. intros [|fuel] f Hf _; [lia|].
    destruct c as [|s v ret]; [done|]. destruct Hc as (-> & _ & HK). inversion HK as [E|].
    rewrite loop_S. cbn [exec_step]. unfold recurse_step. rewrite <- E. cbn [bind].
    eexists. split; [reflexivity|]. right. unfold out_answer. by destruct ret.
  - destruct (step_complete c a a' Hc Hs) as (k1 & [(c' & E & Hc')|(s & v & E)] & Hst).
    + destruct (IH eq_refl c' Hc') as [k2 Hk2]. exists (S (k1 `max` k2)).
      intros [|fuel] f Hf1 Hf2; [lia|]. rewrite loop_S, Hst, E by lia. cbn [bind].
      apply Hk2; lia.
    + exists (S k1). intros [|fuel] f Hf1 Hf2; [lia|].
      rewrite loop_S, Hst, E by lia. cbn [bind]. eexists. split; [done|]. by left.
Qed.

Lemma loop_sound f fuel : forall c a x, related c a ->
  loop fuel (exec_step e f (rec f) false) c = Ret x -> x.2 <> RetError ->
  exists o, rtc (astep e) a (ARet o []) /\ out_answer x o.
Proof.
  induction fuel as [|fuel IH]; intros c a x Hc H Hne; [done|].
  rewrite loop_S in H. apply bind_Ret in H as (y & E & H).
  destruct (step_sound f c a y Hc E) as [(a' & Hs & Hto)|(s & v & ret & -> & -> & ->)].
  - destruct Hto as [(c' & E' & Hc')|(s & v & E')]; rewrite E in E'; injection E' as ->.
    + destruct (IH c' a' x Hc' H Hne) as (o & Ho & Hx). exists o. split; [|done].
      by eapply rtc_l.
    + injection H as <-. done.
  - injection H as <-. exists (answer v ret). split; [apply rtc_refl|].
    unfold out_answer. by destruct ret.
Qed.

(** A call with an empty stack of states. *)
Lemma backtrack_spec h n v : good v ->
  (forall fuel x, lre_exec_backtrack e fuel (mkStates h n []) v false = Ret x ->
     x.2 <> RetError -> exists o, LreExecSpec.run e v o /\ out_answer x o)
  /\ forall o, LreExecSpec.run e v o ->
     exists k, forall fuel, (k <= fuel)%nat ->
       exists x, lre_exec_backtrack e fuel (mkStates h n []) v false = Ret x
                 /\ (x.2 = RetError \/ out_answer x o).
Proof.
  intros Hg. assert (Hrel : related (Running (mkStates h n []) v) (ARun v [])).
  { by split_and!; [..|constructor]. }
  split.
  - intros [|fuel] x H Hne; [done|]. cbn [lre_exec_backtrack] in H.
    destruct (loop_sound fuel fuel _ _ x Hrel H Hne) as (o & Ho & Hx).
    exists o. split; [|done]. by apply astep_run.
  - intros o Ho. apply astep_run in Ho.
    destruct (loop_complete _ _ Ho _ Hrel) as [k Hk]. exists (S k).
    intros [|fuel] Hf; [lia|]. cbn [lre_exec_backtrack]. apply Hk; lia.
Qed.
End machine.
