(* ===== verification/LreWf.v ===== *)
(** * Checking the code of a regular expression

    [LreMachineSpec.re_wf] is about the code that executions reach.  A list
    of positions closed under the successors of the opcodes, with classes in
    order and simple atoms, is enough, and a boolean function tests it. *)

From stdpp Require Import base tactics numbers list option.
From Stdlib Require Import ZArith Lia.
From S2P Require Import Prelude Cutils UnicodeCase LreExec LreExecSpec LreMachineSpec.

Open Scope Z_scope.

Section check.
Context (e : re_env).

Definition op_of (pc : Z) : option REOPCodeEnum :=
  match rd (bc_buf e) pc with
  | Ret n => fst <$> reopcode_info !! Z.to_nat n
  | _ => None
  end.

Lemma op_of_at pc op : op_at e pc op <-> op_of pc = Some op.
Proof.
  unfold op_at, op_of. split.
  - intros (n & k & -> & ->). done.
  - destruct (rd (bc_buf e) pc) as [n| |]; try done. intros H.
    apply fmap_Some in H as ([op' k] & H & ->). by exists n, k.
Qed.

Definition u32_at (pc : Z) : Z := match get_u32 (bc_buf e) pc with Ret x => x | _ => 0 end.
Definition u16_at (pc : Z) : Z := match get_u16 (bc_buf e) pc with Ret x => x | _ => 0 end.

(** The positions after the opcode at [pc]. *)
Definition re_succs (pc : Z) : list Z :=
  match op_of pc with
  | Some op =>
      match op with
      | REOP_invalid | REOP_match => []
      | REOP_char | REOP_save_reset => [pc + 3]
      | REOP_char32 | REOP_push_i32 => [pc + 5]
      | REOP_save_start | REOP_save_end | REOP_back_reference
      | REOP_backward_back_reference => [pc + 2]
      | REOP_goto => [pc + 5 + i32 (u32_at (pc + 1))]
      | REOP_split_goto_first | REOP_split_next_first | REOP_lookahead
      | REOP_negative_lookahead | REOP_loop | REOP_bne_char_pos =>
          [pc + 5; pc + 5 + i32 (u32_at (pc + 1))]
      | REOP_range => [pc + 3 + 4 * u16_at (pc + 1)]
      | REOP_range32 => [pc + 3 + 8 * u16_at (pc + 1)]
      | REOP_simple_greedy_quant => [pc + 17; pc + 17 + i32 (u32_at (pc + 1))]
      | _ => [pc + 1]
      end
  | None => []
  end.

(** What the rules [bind_Ret] and the tests leave of an opcode. *)
Ltac opcode H :=
  repeat match type of H with
  | bind _ _ = Ret _ =>
      let x := fresh "x" in let E := fresh "E" in
      apply bind_Ret in H as (x & E & H)
  | Ret _ = Ret _ => injection H as <-
  | (if ?c then _ else _) = Ret _ => destruct c
  | match ?x with _ => _ end = Ret _ => destruct x; try discriminate H
  end.

Lemma sem_succs v r pc : sem e v = Ret r -> pc ∈ result_pcs r -> pc ∈ re_succs (re_pc v).
Proof.
  intros H Hpc. destruct (fetch_op_inv e _ _ _ H) as [op Hop].
  unfold sem in H. rewrite (fetch_op e _ _ _ Hop) in H.
  unfold re_succs. apply op_of_at in Hop. rewrite Hop.
  unfold u32_at, u16_at.
  destruct v as [cap st p0 p]. cbn [re_pc capture stack cptr] in *.
  destruct op; unfold re_insn in H; cbv zeta in H; cbn [re_pc capture stack cptr] in H;
    try discriminate H; opcode H;
    repeat match goal with |- context [if ?c then NoMatch else _] => destruct c end;
    repeat match goal with E : get_u32 _ _ = Ret _ |- _ => rewrite E; clear E
                         | E : get_u16 _ _ = Ret _ |- _ => rewrite E; clear E end;
    cbn [result_pcs re_pc go] in *;
    repeat match goal with
    | H : context [result_pcs (if ?c then _ else _)] |- _ => destruct c; cbn [result_pcs re_pc go] in *
    | H : context [result_pcs (match ?c with _ => _ end)] |- _ => destruct c; cbn [result_pcs re_pc go] in *
    | H : context [negb ?c] |- _ => destruct c; cbn [negb] in *
    end;
    rewrite ?elem_of_cons in *; rewrite ?elem_of_nil in *;
    try (destruct_or! Hpc; try done; subst; first [left; lia | right; left; lia]).
Qed.

(** The classes: each range ends before the next one. *)
Fixpoint ranges_check (l : list (Z * Z)) : bool :=
  match l with
  | [] => true
  | r :: l =>
      (r.1 <=? r.2)
      && match l with [] => true | r' :: _ => r.2 <? r'.1 end
      && ranges_check l
  end.

Lemma ranges_check_cons r l : ranges_check (r :: l) = true ->
  ranges_check l = true /\ r.1 <= r.2 /\ forall r', r' ∈ l -> r.2 < r'.1.
Proof.
  revert r. induction l as [|s l IH]; intros r H.
  - cbn in H. zb. split_and!; [done|done|]. intros r' Hr. by apply elem_of_nil in Hr.
  - change (((r.1 <=? r.2) && (r.2 <? s.1) && ranges_check (s :: l)) = true) in H.
    apply andb_prop in H as [H1 Hc]. zb. split_and!; [done|done|].
    destruct (IH s Hc) as (_ & Hs & Hlt). intros r' [->|Hr]%elem_of_cons; [done|].
    specialize (Hlt r' Hr). lia.
Qed.

Lemma ranges_check_sorted l : ranges_check l = true -> ranges_sorted l.
Proof.
  induction l as [|r l IH]; intros H; [by split|].
  apply ranges_check_cons in H as (Hl & Hr & Hlt). destruct (IH Hl) as [H1 H2]. split.
  - intros [|i] r' Hi; [by injection Hi as <-|exact (H1 i r' Hi)].
  - intros [|i] [|j] r1 r2 Hij Hi Hj; try lia.
    + injection Hi as <-. apply Hlt. by apply (list_elem_of_lookup_2 l j).
    + by apply (H2 i j); [lia|..].
Qed.

Definition class_check (w pc : Z) : bool :=
  match get_u16 (bc_buf e) pc with
  | Ret n =>
      (1 <=? n) && (n <? 2 ^ 16)
      && match ranges_at e w (pc + 2) (Z.to_nat n) with
         | Ret l => ranges_check l
         | _ => false
         end
  | _ => false
  end.

Lemma class_check_ok w pc : class_check w pc = true -> class_ok e w pc.
Proof.
  unfold class_check, class_ok. intros H.
  destruct (get_u16 (bc_buf e) pc) as [n| |]; try done. apply andb_prop in H as [H1 H]. zb.
  destruct (ranges_at e w (pc + 2) (Z.to_nat n)) as [l| |] eqn:E; try done.
  exists n, l. split_and!; [done..|]. by apply ranges_check_sorted.
Qed.

(** The number of characters of the atom at [pc]. *)
Fixpoint simple_len (fuel : nat) (pc : Z) : option nat :=
  match fuel with
  | O => None
  | S fuel =>
      match op_of pc with
      | Some REOP_match => Some 0%nat
      | Some (REOP_line_start | REOP_line_end | REOP_word_boundary | REOP_not_word_boundary) =>
          simple_len fuel (pc + 1)
      | Some (REOP_dot | REOP_any) => S <$> simple_len fuel (pc + 1)
      | Some REOP_char => S <$> simple_len fuel (pc + 3)
      | Some REOP_char32 => S <$> simple_len fuel (pc + 5)
      | Some REOP_range =>
          match get_u16 (bc_buf e) (pc + 1) with
          | Ret k => S <$> simple_len fuel (pc + 3 + 4 * k)
          | _ => None
          end
      | Some REOP_range32 =>
          match get_u16 (bc_buf e) (pc + 1) with
          | Ret k => S <$> simple_len fuel (pc + 3 + 8 * k)
          | _ => None
          end
      | _ => None
      end
  end.

Lemma simple_len_ok fuel : forall pc n, simple_len fuel pc = Some n -> simple_code e pc n.
Proof.
  induction fuel as [|fuel IH]; intros pc n H; [done|]. cbn [simple_len] in H.
  destruct (op_of pc) as [op|] eqn:Hop; [|done]. apply op_of_at in Hop.
  destruct op; try done.
  - apply fmap_Some in H as (m & H & ->). apply simple_char; [done|by apply IH].
  - apply fmap_Some in H as (m & H & ->). apply simple_char32; [done|by apply IH].
  - apply fmap_Some in H as (m & H & ->). eapply simple_dot; [done|auto|by apply IH].
  - apply fmap_Some in H as (m & H & ->). eapply simple_dot; [done|auto|by apply IH].
  - eapply simple_assert; [done|auto|by apply IH].
  - eapply simple_assert; [done|auto|by apply IH].
  - injection H as <-. by apply simple_match.
  - eapply simple_assert; [done|auto|by apply IH].
  - eapply simple_assert; [done|auto|by apply IH].
  - destruct (get_u16 (bc_buf e) (pc + 1)) as [k| |] eqn:E; try done.
    apply fmap_Some in H as (m & H & ->). eapply simple_range; [done..|by apply IH].
  - destruct (get_u16 (bc_buf e) (pc + 1)) as [k| |] eqn:E; try done.
    apply fmap_Some in H as (m & H & ->). eapply simple_range32; [done..|by apply IH].
Qed.

(** The test of the code at [pc], with the positions [l] of the code. *)
Definition op_check (l : list Z) (pc : Z) : bool :=
  forallb (fun pc' => bool_decide (pc' ∈ l)) (re_succs pc)
  && match op_of pc with
     | Some REOP_range => class_check 2 (pc + 1)
     | Some REOP_range32 => class_check 4 (pc + 1)
     | Some REOP_simple_greedy_quant =>
         match get_u32 (bc_buf e) (pc + 13) with
         | Ret n => bool_decide (simple_len (length (bc_buf e)) (pc + 17) = Some (Z.to_nat n))
         | _ => false
         end
     | _ => true
     end.

Definition re_check (l : list Z) : bool :=
  forallb (fun b => (0 <=? b) && (b <? 256)) (bc_buf e)
  && bool_decide (RE_HEADER_LEN ∈ l) && forallb (op_check l) l.

Lemma re_check_reach l : re_check l = true -> forall pc, code_reach e pc ->
  pc ∈ l /\ op_check l pc = true.
Proof.
  unfold re_check. intros H. apply andb_prop in H as [H Hl]. apply andb_prop in H as [_ H0].
  apply bool_decide_eq_true_1 in H0. rewrite forallb_forall in Hl.
  assert (Hin : forall pc, pc ∈ l -> op_check l pc = true) by
    (intros pc Hpc; apply Hl; by apply list_elem_of_In).
  induction 1 as [|v r pc _ [Hv Hc] Hs Hpc]; [auto|].
  assert (pc ∈ l); [|auto]. unfold op_check in Hc. apply andb_prop in Hc as [Hc _].
  rewrite forallb_forall in Hc. eapply bool_decide_eq_true_1, Hc, list_elem_of_In.
  by apply (sem_succs v r).
Qed.

Lemma re_check_ok l : re_check l = true -> re_wf e.
Proof.
  intros H. pose proof (re_check_reach l H) as Hr.
  assert (Hb : Forall byte (bc_buf e)).
  { unfold re_check in H. apply andb_prop in H as [H _]. apply andb_prop in H as [H _].
    rewrite forallb_forall in H. apply Forall_forall. intros x Hx.
    specialize (H x Hx). unfold byte. zb. lia. }
  split; [done|..]; intros pc Hpc Hop; destruct (Hr pc Hpc) as [_ Hc];
    unfold op_check in Hc; apply andb_prop in Hc as [_ Hc];
    rewrite (proj1 (op_of_at _ _) Hop) in Hc.
  - by apply class_check_ok.
  - by apply class_check_ok.
  - destruct (get_u32 (bc_buf e) (pc + 13)) as [n| |]; try done.
    apply bool_decide_eq_true_1, simple_len_ok in Hc. by exists n.
Qed.
End check.
