(* ===== verification/ListHead.v ===== *)
(** * Doubly linked lists ([list.h])

    The links of every [struct list_head] of the program live in one store;
    0 is [NULL].  The operations are proved to be the operations on the
    sequence of elements that a list head denotes. *)

From stdpp Require Import base tactics numbers list option gmap.
From Stdlib Require Import ZArith Lia.
From S2P Require Import Prelude.

Open Scope Z_scope.

(** ** The operations *)

Record list_head := mkHead { prev : Z; next : Z }.

Abbreviation links := (gmap Z list_head).

Definition get (m : links) (a : Z) : res list_head :=
  match m !! a with Some h => Ret h | None => Ub end.

Definition set_prev (m : links) (a p : Z) : res links :=
  let* h := get m a in Ret (<[a := mkHead p (next h)]> m).

Definition set_next (m : links) (a n : Z) : res links :=
  let* h := get m a in Ret (<[a := mkHead (prev h) n]> m).

Definition init_list_head (m : links) (head : Z) : res links :=
  let* m := set_prev m head head in set_next m head head.

(** insert 'el' between 'prev' and 'next' *)
Definition __list_add (m : links) (el prev next : Z) : res links :=
  let* m := set_next m prev el in
  let* m := set_prev m el prev in
  let* m := set_next m el next in
  set_prev m next el.

(** add 'el' at the head of the list 'head' (= after element head) *)
Definition list_add (m : links) (el head : Z) : res links :=
  let* h := get m head in __list_add m el head (next h).

(** add 'el' at the end of the list 'head' (= before element head) *)
Definition list_add_tail (m : links) (el head : Z) : res links :=
  let* h := get m head in __list_add m el (prev h) head.

Definition list_del (m : links) (el : Z) : res links :=
  let* h := get m el in
  let p := prev h in
  let n := next h in
  let* m := set_next m p n in
  let* m := set_prev m n p in
  let* m := set_prev m el 0 in
  set_next m el 0.

Definition list_empty (m : links) (el : Z) : res bool :=
  let* h := get m el in Ret (next h =? el).

(** [list_for_each(el, head)] with a body that threads a state; [lk] gives
    the links of a state, which the body may change. *)
Definition list_for_each {S} (fuel : nat) (lk : S -> links) (head : Z)
    (body : Z -> S -> res S) (s : S) : res S :=
  let* h := get (lk s) head in
  loop fuel (fun '(el, s) =>
    if el =? head then Ret (inr s)
    else
      let* s := body el s in
      let* h := get (lk s) el in
      Ret (inl (next h, s))) (next h, s).

(** [list_for_each_safe(el, el1, head)]: the next element is read before the
    body runs. *)
Definition list_for_each_safe {S} (fuel : nat) (lk : S -> links) (head : Z)
    (body : Z -> S -> res S) (s : S) : res S :=
  let* h := get (lk s) head in
  let el := next h in
  let* h := get (lk s) el in
  loop fuel (fun '(el, el1, s) =>
    if el =? head then Ret (inr s)
    else
      let* s := body el s in
      let el := el1 in
      let* h := get (lk s) el in
      Ret (inl (el, next h, s))) (el, next h, s).

(** ** The sequence a list head denotes *)

(** [b] follows [a]. *)
Definition arc (m : links) (a b : Z) : Prop :=
  next <$> m !! a = Some b /\ prev <$> m !! b = Some a.

Fixpoint path (m : links) (a : Z) (l : list Z) (b : Z) : Prop :=
  match l with
  | [] => arc m a b
  | x :: l => arc m a x /\ path m x l b
  end.

(** The elements of the list [head] are [l]. *)
Definition dlist (m : links) (head : Z) (l : list Z) : Prop :=
  NoDup (head :: l) /\ path m head l head.

Lemma path_app m a l1 x l2 b :
  path m a (l1 ++ x :: l2) b <-> path m a l1 x /\ path m x l2 b.
Proof.
  revert a. induction l1 as [|y l1 IH]; intros a; [done|].
  cbn [app path]. rewrite IH. tauto.
Qed.

(** What a path reads: [next] of the sources, [prev] of the targets. *)
Lemma path_frame m m' a l b :
  path m a l b ->
  (forall x, x ∈ a :: l -> next <$> m' !! x = next <$> m !! x) ->
  (forall x, x ∈ l ++ [b] -> prev <$> m' !! x = prev <$> m !! x) ->
  path m' a l b.
Proof.
  revert a. induction l as [|x l IH]; intros a Hp Hn Hv; cbn [path app] in *.
  - destruct Hp as [H1 H2]. split; [by rewrite Hn by left|by rewrite Hv by left].
  - destruct Hp as [[H1 H2] Hp]. split.
    + split; [by rewrite Hn by left|by rewrite Hv by left].
    + apply IH; [done| |]; intros y Hy; [apply Hn|apply Hv]; by right.
Qed.

Lemma path_cut m a l b : path m a l b -> exists x y,
  next <$> m !! a = Some y /\ prev <$> m !! b = Some x /\
  (x ∈ a :: l) /\ (y ∈ l ++ [b]) /\ head (l ++ [b]) = Some y /\
  last (a :: l) = Some x.
Proof.
  revert a. induction l as [|z l IH]; intros a Hp; cbn [path app] in *.
  - destruct Hp as [H1 H2]. exists a, b. split_and!; [done|done|left|left|done|done].
  - destruct Hp as [[H1 H2] Hp]. destruct (IH _ Hp) as (x & y & _ & Hx & Hin & _ & _ & Hl).
    exists x, z.
    split_and!; [done|done|by right|left|done|by rewrite last_cons_cons].
Qed.

Section updates.
Context (m : links).

Lemma set_next_spec a n h : m !! a = Some h ->
  set_next m a n = Ret (<[a := mkHead (prev h) n]> m).
Proof. intros Ha. unfold set_next, get. by rewrite Ha. Qed.

Lemma set_prev_spec a p h : m !! a = Some h ->
  set_prev m a p = Ret (<[a := mkHead p (next h)]> m).
Proof. intros Ha. unfold set_prev, get. by rewrite Ha. Qed.
End updates.

(** The effect of an update, seen through [next] and [prev]. *)
Definition changes (m m' : links) (nx pv : Z -> option Z) : Prop :=
  (forall x, is_Some (m' !! x) <-> is_Some (m !! x)) /\
  (forall x, next <$> m' !! x = match nx x with
                                | Some y => Some y
                                | None => next <$> m !! x
                                end) /\
  (forall x, prev <$> m' !! x = match pv x with
                                | Some y => Some y
                                | None => prev <$> m !! x
                                end).

Definition only (a b : Z) (x : Z) : option Z := if decide (x = a) then Some b else None.

Definition or_else (f g : Z -> option Z) (x : Z) : option Z :=
  match f x with Some y => Some y | None => g x end.

Lemma changes_set_next m a n : is_Some (m !! a) ->
  wp (set_next m a n) (fun m' => changes m m' (only a n) (fun _ => None)).
Proof.
  intros [h Ha]. rewrite (set_next_spec m a n h Ha). apply wp_ret. unfold only.
  split_and!; intros x; destruct (decide (x = a)) as [->|Hne];
    rewrite ?lookup_insert_eq, ?lookup_insert_ne by done; try done;
    rewrite ?Ha; by simpl.
Qed.

Lemma changes_set_prev m a p : is_Some (m !! a) ->
  wp (set_prev m a p) (fun m' => changes m m' (fun _ => None) (only a p)).
Proof.
  intros [h Ha]. rewrite (set_prev_spec m a p h Ha). apply wp_ret. unfold only.
  split_and!; intros x; destruct (decide (x = a)) as [->|Hne];
    rewrite ?lookup_insert_eq, ?lookup_insert_ne by done; try done;
    rewrite ?Ha; by simpl.
Qed.

Lemma changes_trans m m1 m2 n1 p1 n2 p2 :
  changes m m1 n1 p1 -> changes m1 m2 n2 p2 ->
  changes m m2 (or_else n2 n1) (or_else p2 p1).
Proof.
  intros (D1 & N1 & P1) (D2 & N2 & P2). unfold or_else. split_and!; intros x.
  - by rewrite D2.
  - rewrite N2, N1. by destruct (n2 x).
  - rewrite P2, P1. by destruct (p2 x).
Qed.

Lemma changes_bind m m1 n1 p1 n2 p2 (e : res links) :
  changes m m1 n1 p1 ->
  wp e (fun m2 => changes m1 m2 n2 p2) ->
  wp e (fun m2 => changes m m2 (or_else n2 n1) (or_else p2 p1)).
Proof.
  intros H1 He. eapply wp_mono; [exact He|]. intros m2 H2.
  by eapply changes_trans.
Qed.

(** ** The operations on sequences *)

Lemma path_mapped m a l b x : path m a l b -> x ∈ a :: l -> is_Some (m !! x).
Proof.
  revert a. induction l as [|y l IH]; intros a Hp Hx; cbn [path] in Hp.
  - apply list_elem_of_singleton in Hx as ->. destruct Hp as [H _].
    by destruct (m !! a).
  - destruct Hp as [[H _] Hp]. apply elem_of_cons in Hx as [->|Hx]; [|eauto].
    by destruct (m !! a).
Qed.

Lemma dlist_mapped m hd l x : dlist m hd l -> x ∈ hd :: l -> is_Some (m !! x).
Proof. intros [_ Hp]. by eapply path_mapped. Qed.

Lemma get_next m a b : next <$> m !! a = Some b ->
  exists h, get m a = Ret h /\ next h = b.
Proof. unfold get. destruct (m !! a) as [h|]; [|done]. intros [= <-]. eauto. Qed.

Lemma get_prev m a b : prev <$> m !! a = Some b ->
  exists h, get m a = Ret h /\ prev h = b.
Proof. unfold get. destruct (m !! a) as [h|]; [|done]. intros [= <-]. eauto. Qed.

Ltac only_cases :=
  unfold or_else, only; repeat (case_decide; subst; try done).

(** The four writes of [__list_add]. *)
Lemma list_add_changes m el p n :
  is_Some (m !! el) -> is_Some (m !! p) -> is_Some (m !! n) ->
  wp (__list_add m el p n) (fun m' => changes m m'
    (or_else (only el n) (only p el)) (or_else (only n el) (only el p))).
Proof.
  intros He Hp Hn. unfold __list_add.
  apply wp_bind. eapply wp_mono; [by apply changes_set_next|]. intros m1 C1.
  apply wp_bind. eapply wp_mono; [apply changes_set_prev; by apply C1|].
  intros m2 C2. pose proof (changes_trans _ _ _ _ _ _ _ C1 C2) as C12.
  apply wp_bind. eapply wp_mono; [apply changes_set_next; by apply C12|].
  intros m3 C3. pose proof (changes_trans _ _ _ _ _ _ _ C12 C3) as C13.
  eapply wp_mono; [apply changes_set_prev; by apply C13|].
  intros m4 C4. pose proof (changes_trans _ _ _ _ _ _ _ C13 C4) as (D & N & P).
  split; [exact D|]. split; intros x; rewrite ?N, ?P; only_cases.
Qed.

(** Nodes outside a list are not touched by an operation on it. *)
Definition untouched (m m' : links) (S : list Z) : Prop :=
  forall x, x ∉ S -> m' !! x = m !! x.

Lemma changes_untouched m m' nx pv S :
  changes m m' nx pv -> (forall x, x ∉ S -> nx x = None /\ pv x = None) ->
  untouched m m' S.
Proof.
  intros (D & N & P) HS x Hx. destruct (HS x Hx) as [Hn Hp].
  specialize (D x). specialize (N x). specialize (P x). rewrite Hn in N.
  rewrite Hp in P. destruct (m !! x) as [[p n]|], (m' !! x) as [[p' n']|];
    simpl in *; congruence.
Qed.

(** A path is kept by a change that does not concern it. *)
Lemma path_changes m m' nx pv a l b :
  changes m m' nx pv -> path m a l b ->
  (forall x, x ∈ a :: l -> nx x = None) -> (forall x, x ∈ l ++ [b] -> pv x = None) ->
  path m' a l b.
Proof.
  intros (_ & N & P) Hp Hn Hv. eapply path_frame; [exact Hp| |]; intros x Hx.
  - by rewrite N, Hn.
  - by rewrite P, Hv.
Qed.

Lemma arc_changes m m' nx pv a b :
  changes m m' nx pv -> nx a = Some b -> pv b = Some a -> arc m' a b.
Proof. intros (_ & N & P) Ha Hb. split; [by rewrite N, Ha|by rewrite P, Hb]. Qed.

(** Solves side conditions on the changed fields of distinct nodes. *)
Ltac fields :=
  repeat match goal with
  | H : NoDup (_ :: _) |- _ => apply NoDup_cons in H as [? ?]
  | H : NoDup (_ ++ _) |- _ => apply NoDup_app in H as (? & ? & ?)
  end;
  try (let x := fresh "x" in let Hx := fresh in intros x Hx);
  unfold or_else, only; repeat (case_decide; subst; try done); set_solver.

Section sequence.
Context (m : links) (hd : Z) (l : list Z) (el : Z).
Context (Hl : dlist m hd l).

Lemma list_add_spec :
  is_Some (m !! el) -> el ∉ hd :: l ->
  wp (list_add m el hd) (fun m' =>
    dlist m' hd (el :: l) /\ untouched m m' (hd :: el :: l)).
Proof.
  intros He Hel. unfold list_add. destruct (Hl) as [Hnd Hp].
  destruct (path_cut _ _ _ _ Hp) as (x & y & Hn & _ & _ & Hy & Hhd & _).
  destruct (get_next _ _ _ Hn) as (h & -> & Eh). cbn [bind]. rewrite Eh.
  assert (Hyl : y ∈ hd :: l) by set_solver.
  eapply wp_mono.
  { apply list_add_changes; [done|..]; eapply dlist_mapped; [exact Hl|left|exact Hl|done]. }
  intros m' C. split.
  - split; [rewrite !NoDup_cons in *; set_solver|].
    destruct l as [|z l']; cbn [path app] in *; injection Hhd as <-.
    + split; eapply arc_changes; try exact C; fields.
    + destruct Hp as [_ Hp].
      split; [eapply arc_changes; [exact C|fields..]|].
      split; [eapply arc_changes; [exact C|fields..]|].
      eapply path_changes; [exact C|exact Hp|fields..].
  - eapply changes_untouched; [exact C|]. intros z Hz.
    split; fields.
Qed.

Lemma list_add_tail_spec :
  is_Some (m !! el) -> el ∉ hd :: l ->
  wp (list_add_tail m el hd) (fun m' =>
    dlist m' hd (l ++ [el]) /\ untouched m m' (hd :: el :: l)).
Proof.
  intros He Hel. unfold list_add_tail. destruct (Hl) as [Hnd Hp].
  destruct (path_cut _ _ _ _ Hp) as (x & y & _ & Hv & Hx & _ & _ & Hlast).
  destruct (get_prev _ _ _ Hv) as (h & -> & Eh). cbn [bind]. rewrite Eh.
  eapply wp_mono.
  { apply list_add_changes; [done|..]; eapply dlist_mapped;
      [exact Hl|exact Hx|exact Hl|left]. }
  intros m' C. split.
  - split.
    { apply NoDup_cons in Hnd as [? ?]. apply NoDup_cons. split; [set_solver|].
      apply NoDup_app. split_and!; [done|set_solver|apply NoDup_singleton]. }
    destruct l as [|z l' _] using rev_ind; cbn [path app] in *.
    + injection Hlast as <-. split; eapply arc_changes; try exact C; fields.
    + rewrite app_comm_cons, last_snoc in Hlast. injection Hlast as <-.
      rewrite <- app_assoc. cbn [app]. rewrite path_app in *. cbn [path] in *.
      destruct Hp as [Hp _]. split; [|split].
      * eapply path_changes; [exact C|exact Hp|fields..].
      * eapply arc_changes; [exact C|fields..].
      * eapply arc_changes; [exact C|fields..].
  - eapply changes_untouched; [exact C|]. intros z Hz. split; fields.
Qed.
End sequence.

Lemma list_del_changes m el p n :
  m !! el = Some (mkHead p n) -> is_Some (m !! p) -> is_Some (m !! n) ->
  wp (list_del m el) (fun m' => changes m m'
    (or_else (only el 0) (only p n)) (or_else (only el 0) (only n p))).
Proof.
  intros He Hp Hn. unfold list_del, get. rewrite He. cbn [bind prev next].
  apply wp_bind. eapply wp_mono; [by apply changes_set_next|]. intros m1 C1.
  apply wp_bind. eapply wp_mono; [apply changes_set_prev; by apply C1|].
  intros m2 C2. pose proof (changes_trans _ _ _ _ _ _ _ C1 C2) as C12.
  apply wp_bind. eapply wp_mono; [apply changes_set_prev; apply C12; by eexists|].
  intros m3 C3. pose proof (changes_trans _ _ _ _ _ _ _ C12 C3) as C13.
  eapply wp_mono; [apply changes_set_next; apply C13; by eexists|].
  intros m4 C4. pose proof (changes_trans _ _ _ _ _ _ _ C13 C4) as (D & N & P).
  split; [exact D|]. split; intros x; rewrite ?N, ?P; only_cases.
Qed.

(** The node before the second part of a path, and what remains of the
    first part. *)
Lemma path_last m a l b : path m a l b -> exists x, last (a :: l) = Some x /\
  prev <$> m !! b = Some x /\ x ∈ a :: l /\
  ((l = [] /\ x = a) \/ exists l', l = l' ++ [x] /\ path m a l' x).
Proof.
  intros Hp. destruct (path_cut _ _ _ _ Hp) as (x & _ & _ & Hv & Hx & _ & _ & Hlast).
  exists x. split_and!; [done..|].
  destruct l as [|z l' _] using rev_ind; [left; by injection Hlast as <-|right].
  rewrite app_comm_cons, last_snoc in Hlast. injection Hlast as <-.
  exists l'. rewrite path_app in Hp. by destruct Hp.
Qed.

Lemma list_del_spec m hd l1 el l2 :
  dlist m hd (l1 ++ el :: l2) ->
  wp (list_del m el) (fun m' => dlist m' hd (l1 ++ l2) /\
    m' !! el = Some (mkHead 0 0) /\ untouched m m' (hd :: l1 ++ el :: l2)).
Proof.
  intros Hl. destruct (Hl) as [Hnd Hp]. rewrite path_app in Hp.
  destruct Hp as [Hp1 Hp2].
  destruct (path_last _ _ _ _ Hp1) as (p & _ & Hv & Hpin & Hl1).
  destruct (path_cut _ _ _ _ Hp2) as (x & n & Hn & _ & _ & Hnin & Hhead & _).
  assert (He : m !! el = Some (mkHead p n)).
  { destruct (m !! el) as [[p' n']|]; [|done]. simpl in *. congruence. }
  eapply wp_mono.
  { apply list_del_changes; [exact He|..]; eapply dlist_mapped;
      [exact Hl|set_solver|exact Hl|set_solver]. }
  intros m' C. split; [split|split].
  - apply NoDup_cons in Hnd as [? Hnd]. apply NoDup_app in Hnd as (? & ? & Hnd).
    apply NoDup_cons in Hnd as [? ?].
    apply NoDup_cons. split; [set_solver|]. apply NoDup_app. set_solver.
  - assert (Hpn : path m' p l2 hd).
    { destruct l2 as [|z l2]; cbn [path app] in *; injection Hhead as <-.
      - eapply arc_changes; [exact C|fields..].
      - destruct Hp2 as [_ Hp2].
        split; [eapply arc_changes; [exact C|fields..]|].
        eapply path_changes; [exact C|exact Hp2|fields..]. }
    destruct Hl1 as [[-> ->]|(l' & -> & Hp')]; [exact Hpn|].
    rewrite <- app_assoc. cbn [app]. apply path_app. split; [|exact Hpn].
    eapply path_changes; [exact C|exact Hp'|fields..].
  - destruct C as (D & N & P). specialize (N el). specialize (P el).
    unfold or_else, only in N, P. rewrite decide_True in N, P by done.
    destruct (m' !! el) as [[p' n']|]; simpl in *; congruence.
  - eapply changes_untouched; [exact C|]. intros z Hz. split; fields.
Qed.

Lemma init_list_head_spec m hd : is_Some (m !! hd) ->
  wp (init_list_head m hd) (fun m' => dlist m' hd [] /\ untouched m m' [hd]).
Proof.
  intros Hs. unfold init_list_head.
  apply wp_bind. eapply wp_mono; [by apply changes_set_prev|]. intros m1 C1.
  eapply wp_mono; [apply changes_set_next; by apply C1|]. intros m2 C2.
  pose proof (changes_trans _ _ _ _ _ _ _ C1 C2) as C. split; [split|].
  - apply NoDup_singleton.
  - eapply arc_changes; [exact C|fields..].
  - eapply changes_untouched; [exact C|]. intros z Hz. split; fields.
Qed.

(** ** Traversal *)

(** The sequential composition of the body over the elements. *)
Fixpoint each {S} (body : Z -> S -> res S) (l : list Z) (s : S) : res S :=
  match l with
  | [] => Ret s
  | x :: l => let* s := body x s in each body l s
  end.

(** A body that keeps the links. *)
Definition keeps_links {S} (lk : S -> links) (body : Z -> S -> res S) : Prop :=
  forall x s s', body x s = Ret s' -> lk s' = lk s.

Lemma list_for_each_spec {S} (lk : S -> links) hd l (body : Z -> S -> res S) fuel s :
  keeps_links lk body ->
  dlist (lk s) hd l -> (length l < fuel)%nat ->
  list_for_each fuel lk hd body s = each body l s.
Proof.
  intros Hk [Hnd Hp]. apply NoDup_cons in Hnd as [Hhd _]. unfold list_for_each.
  remember (lk s) as m eqn:Em. symmetry in Em.
  assert (Hgen : forall a s, lk s = m -> path m a l hd -> hd ∉ l ->
    (length l < fuel)%nat ->
    (let* h := get m a in
     loop fuel (fun '(el, s) =>
       if el =? hd then Ret (inr s)
       else let* s := body el s in
            let* h := get (lk s) el in Ret (inl (next h, s))) (next h, s))
    = each body l s); [|by intros ?; apply Hgen].
  clear Hp Hhd s Em. revert fuel.
  induction l as [|x l IH]; intros fuel a s Em Hp Hhd Hf;
    (destruct fuel as [|fuel]; [simpl in Hf; lia|]); cbn [path each] in *.
  - destruct Hp as [Hn _]. destruct (get_next _ _ _ Hn) as (h & -> & <-).
    cbn [bind loop]. by rewrite Z.eqb_refl.
  - destruct Hp as [[Hn _] Hp]. destruct (get_next _ _ _ Hn) as (h & -> & <-).
    cbn [bind]. rewrite loop_S.
    destruct (Z.eqb_spec (next h) hd) as [E|_]; [rewrite E in Hhd; set_solver|].
    destruct (body (next h) s) as [s'| |] eqn:Eb; [|done..]. cbn [bind].
    rewrite (Hk _ _ _ Eb), Em.
    rewrite <- (IH fuel (next h) s');
      [|by rewrite (Hk _ _ _ Eb)|done|set_solver|simpl in Hf; lia].
    by destruct (get m (next h)).
Qed.

(** ** Properties *)

Inductive list_op := AddHead (el : Z) | AddTail (el : Z) | Del (el : Z).

Definition run_list_op (hd : Z) (m : links) (op : list_op) : res links :=
  match op with
  | AddHead el => list_add m el hd
  | AddTail el => list_add_tail m el hd
  | Del el => list_del m el
  end.

(** The effect on the sequence; a node is added only when it is in no
    sequence, and deleted only from this one. *)
Inductive seq_op (m : links) (hd : Z) : list Z -> list_op -> list Z -> Prop :=
  | seq_add_head el l : is_Some (m !! el) -> el ∉ hd :: l ->
      seq_op m hd l (AddHead el) (el :: l)
  | seq_add_tail el l : is_Some (m !! el) -> el ∉ hd :: l ->
      seq_op m hd l (AddTail el) (l ++ [el])
  | seq_del el l1 l2 : seq_op m hd (l1 ++ el :: l2) (Del el) (l1 ++ l2).

Lemma run_list_op_spec m hd l op l' :
  dlist m hd l -> seq_op m hd l op l' ->
  wp (run_list_op hd m op) (fun m' => dlist m' hd l' /\
    exists el, untouched m m' (hd :: el :: l)).
Proof.
  intros Hl Hop. destruct Hop as [el l He Hel|el l He Hel|el l1 l2]; cbn [run_list_op].
  - eapply wp_mono; [by apply list_add_spec|]. intros m' [? ?]. eauto.
  - eapply wp_mono; [by apply list_add_tail_spec|]. intros m' [? ?]. eauto.
  - eapply wp_mono; [by apply list_del_spec|]. intros m' (? & _ & Hu).
    split; [done|]. exists el. intros x Hx. apply Hu. set_solver.
Qed.

(** C21.  The intrusive lists of [list.h] are sequences: on a well-formed
    circular list, insertion at the head, insertion at the tail and deletion
    are the operations on the sequence, keep the list well formed and leave
    every node outside it alone; [list_for_each] then visits the new sequence
    in order. *)
Theorem list_op_correct {S} m hd l op l' (body : Z -> S -> res S) s :
  dlist m hd l -> seq_op m hd l op l' ->
  wp (run_list_op hd m op) (fun m' => dlist m' hd l' /\
    (exists el, untouched m m' (hd :: el :: l)) /\
    list_for_each (Datatypes.S (length l')) (fun _ => m') hd body s = each body l' s).
Proof.
  intros Hl Hop. eapply wp_mono; [by apply run_list_op_spec|].
  intros m' [Hd Hu]. split; [done|]. split; [done|].
  by apply list_for_each_spec; [intros ?|..|lia].
Qed.

Lemma list_op_correct_witness :
  let m := <[1 := mkHead 3 2]> (<[2 := mkHead 1 3]> (<[3 := mkHead 2 1]> ∅)) in
  wp (run_list_op 1 m (Del 2)) (fun m' => dlist m' 1 [3] /\
    (exists el, untouched m m' [1; el; 2; 3]) /\
    list_for_each 2 (fun _ => m') 1 (fun x s => Ret (x + s)) 0
    = each (fun x s => Ret (x + s)) [3] 0).
Proof.
  apply (list_op_correct _ 1 [2; 3] (Del 2) [3]).
  - split.
    + apply NoDup_cons. split; [set_solver|]. apply NoDup_cons. split; [set_solver|].
      apply NoDup_singleton.
    + repeat split; vm_compute; reflexivity.
  - exact (seq_del _ _ 2 [] [3]).
Defined.
