(* ===== verification/GcObjects.v ===== *)
(** * GC objects and their references ([quickjs.c])

    The objects that the cycle collector sees, with the fields that hold
    references, and [mark_children] with the [gc_mark] callback of every
    standard class.  A [JS_MarkFunc] never changes the contents of an object,
    so marking is modelled as the list of the calls it makes, in order. *)

From stdpp Require Import base tactics numbers list option gmap.
From Stdlib Require Import ZArith Lia.
From S2P Require Import Prelude.

Open Scope Z_scope.

(** ** Values *)

Definition JS_TAG_FIRST : Z := -11.
Definition JS_TAG_FUNCTION_BYTECODE : Z := -2.
Definition JS_TAG_OBJECT : Z := -1.
Definition JS_TAG_INT : Z := 0.

(** A value: its tag, and the integer or the pointer of the union. *)
Record JSValue := mkValue { JS_VALUE_GET_TAG : Z; JS_VALUE_GET_PTR : Z }.

Definition JS_MKPTR (tag p : Z) : JSValue := mkValue tag p.

Definition JS_VALUE_HAS_REF_COUNT (v : JSValue) : bool :=
  u32 JS_TAG_FIRST <=? u32 (JS_VALUE_GET_TAG v).

(** The calls of [mark_func]. *)
Definition JS_MarkValue (val : JSValue) : list Z :=
  if JS_VALUE_HAS_REF_COUNT val then
    if (JS_VALUE_GET_TAG val =? JS_TAG_OBJECT)
       || (JS_VALUE_GET_TAG val =? JS_TAG_FUNCTION_BYTECODE)
    then [JS_VALUE_GET_PTR val] else []
  else [].

Definition mark_values (l : list JSValue) : list Z := concat (map JS_MarkValue l).

(** ** The contents of objects *)

Definition JS_ATOM_NULL : Z := 0.
Definition JS_PROP_TMASK : Z := Z.shiftl 3 4.
Definition JS_PROP_GETSET : Z := Z.shiftl 1 4.
Definition JS_PROP_VARREF : Z := Z.shiftl 2 4.
Definition JS_PROP_AUTOINIT : Z := Z.shiftl 3 4.

(** The union of a property; which member is live is in the flags of the
    shape.  A pointer that can be [NULL] is an option. *)
Inductive JSProperty :=
  | PropValue (value : JSValue)
  | PropGetset (getter setter : option Z)
  | PropVarref (var_ref : Z)
  | PropInit (realm : Z).

Record JSShapeProperty := mkShapeProp { prs_flags : Z; prs_atom : Z }.

(** Suspended function: the frame's values are those below [cur_sp], which
    is [NULL] ([None]) while the function runs. *)
Record JSAsyncFunctionState := mkFuncState {
  fs_cur_func : JSValue;
  fs_this_val : JSValue;
  fs_stack : option (list JSValue)
}.

Inductive JSGeneratorStateEnum :=
  | JS_GENERATOR_STATE_SUSPENDED_START
  | JS_GENERATOR_STATE_SUSPENDED_YIELD
  | JS_GENERATOR_STATE_SUSPENDED_YIELD_STAR
  | JS_GENERATOR_STATE_EXECUTING
  | JS_GENERATOR_STATE_COMPLETED.

Inductive JSAsyncGeneratorStateEnum :=
  | JS_ASYNC_GENERATOR_STATE_SUSPENDED_START
  | JS_ASYNC_GENERATOR_STATE_SUSPENDED_YIELD
  | JS_ASYNC_GENERATOR_STATE_SUSPENDED_YIELD_STAR
  | JS_ASYNC_GENERATOR_STATE_EXECUTING
  | JS_ASYNC_GENERATOR_STATE_AWAITING_RETURN
  | JS_ASYNC_GENERATOR_STATE_COMPLETED.

Record JSAsyncGeneratorRequest := mkRequest {
  req_result : JSValue;
  req_promise : JSValue;
  req_resolve : JSValue;
  req_reject : JSValue
}.

Record JSPromiseReactionData := mkReaction {
  rd_resolve : JSValue;
  rd_reject : JSValue;
  rd_handler : JSValue
}.

(** The union [u] of [JSObject]; [None] for a [NULL] data pointer. *)
Inductive class_data :=
  | U_none
  | U_array (values : list JSValue)
  | U_object_data (v : JSValue)
  | U_cfunc (realm : option Z)
  | U_func (function_bytecode : option Z) (var_refs : option (list (option Z)))
           (home_object : option Z)
  | U_bound_function (func_obj this_val : JSValue) (argv : list JSValue)
  | U_c_function_data (data : option (list JSValue))
  | U_for_in_iterator (obj : JSValue)
  | U_typed_array (buffer : option Z)
  | U_map_state (s : option (bool * list (JSValue * JSValue)))
  | U_iterator (obj : option JSValue)
  | U_regexp_string_iterator (it : option (JSValue * JSValue))
  | U_generator (s : option (JSGeneratorStateEnum * JSAsyncFunctionState))
  | U_proxy (s : option (JSValue * JSValue))
  | U_promise (s : option (list JSPromiseReactionData
                           * list JSPromiseReactionData * JSValue))
  | U_promise_function (promise : option JSValue)
  | U_async_function (s : option Z)
  | U_async_from_sync_iterator (s : option (JSValue * JSValue))
  | U_async_generator (s : option (JSAsyncGeneratorStateEnum
                       * JSAsyncFunctionState * list JSAsyncGeneratorRequest)).

(** The standard classes. *)
Inductive JSClassID :=
  | JS_CLASS_OBJECT | JS_CLASS_ARRAY | JS_CLASS_ERROR | JS_CLASS_NUMBER
  | JS_CLASS_STRING | JS_CLASS_BOOLEAN | JS_CLASS_SYMBOL | JS_CLASS_ARGUMENTS
  | JS_CLASS_MAPPED_ARGUMENTS | JS_CLASS_DATE | JS_CLASS_MODULE_NS
  | JS_CLASS_C_FUNCTION | JS_CLASS_BYTECODE_FUNCTION
  | JS_CLASS_BOUND_FUNCTION | JS_CLASS_C_FUNCTION_DATA
  | JS_CLASS_GENERATOR_FUNCTION | JS_CLASS_FOR_IN_ITERATOR | JS_CLASS_REGEXP
  | JS_CLASS_ARRAY_BUFFER | JS_CLASS_SHARED_ARRAY_BUFFER
  | JS_CLASS_UINT8C_ARRAY | JS_CLASS_INT8_ARRAY | JS_CLASS_UINT8_ARRAY
  | JS_CLASS_INT16_ARRAY | JS_CLASS_UINT16_ARRAY | JS_CLASS_INT32_ARRAY
  | JS_CLASS_UINT32_ARRAY | JS_CLASS_FLOAT32_ARRAY | JS_CLASS_FLOAT64_ARRAY
  | JS_CLASS_DATAVIEW | JS_CLASS_MAP | JS_CLASS_SET | JS_CLASS_WEAKMAP
  | JS_CLASS_WEAKSET | JS_CLASS_MAP_ITERATOR | JS_CLASS_SET_ITERATOR
  | JS_CLASS_ARRAY_ITERATOR | JS_CLASS_STRING_ITERATOR
  | JS_CLASS_REGEXP_STRING_ITERATOR | JS_CLASS_GENERATOR | JS_CLASS_PROXY
  | JS_CLASS_PROMISE | JS_CLASS_PROMISE_RESOLVE_FUNCTION
  | JS_CLASS_PROMISE_REJECT_FUNCTION | JS_CLASS_ASYNC_FUNCTION
  | JS_CLASS_ASYNC_FUNCTION_RESOLVE | JS_CLASS_ASYNC_FUNCTION_REJECT
  | JS_CLASS_ASYNC_FROM_SYNC_ITERATOR | JS_CLASS_ASYNC_GENERATOR_FUNCTION
  | JS_CLASS_ASYNC_GENERATOR.

(** The fields of a module that hold references: the variables of its local
    exports, and four values. *)
Record JSModuleDef := mkModule {
  m_local_exports : list (option Z);
  m_module_ns : JSValue;
  m_func_obj : JSValue;
  m_eval_exception : JSValue;
  m_meta_obj : JSValue
}.

(** The fields of a context that hold references. *)
Record JSContext := mkContext {
  loaded_modules : list JSModuleDef;
  global_obj : JSValue;
  global_var_obj : JSValue;
  throw_type_error : JSValue;
  eval_obj : JSValue;
  array_proto_values : JSValue;
  native_error_proto : list JSValue;
  class_proto : list JSValue;
  iterator_proto : JSValue;
  async_iterator_proto : JSValue;
  promise_ctor : JSValue;
  array_ctor : JSValue;
  regexp_ctor : JSValue;
  function_ctor : JSValue;
  function_proto : JSValue;
  array_shape : option Z
}.

(** A GC object, by the type in its header. *)
Inductive gc_object :=
  | JS_GC_OBJ_TYPE_JS_OBJECT (shape : Z) (props : list JSProperty)
      (class_id : JSClassID) (u : class_data)
  | JS_GC_OBJ_TYPE_FUNCTION_BYTECODE (cpool : list JSValue)
      (closure_var_count : Z) (realm : option Z)
  | JS_GC_OBJ_TYPE_SHAPE (proto : option Z) (prop : list JSShapeProperty)
  | JS_GC_OBJ_TYPE_VAR_REF (is_detached : bool) (pvalue : JSValue)
  | JS_GC_OBJ_TYPE_ASYNC_FUNCTION (is_active : bool)
      (func_state : JSAsyncFunctionState) (resolve reject : JSValue)
  | JS_GC_OBJ_TYPE_JS_CONTEXT (ctx : JSContext).

Abbreviation objects := (gmap Z gc_object).

Definition opt_list (p : option Z) : list Z :=
  match p with Some p => [p] | None => [] end.

(** ** The [gc_mark] callbacks *)

Section marking.
Context (m : objects).

(** [var_ref->is_detached] *)
Definition var_ref_is_detached (p : Z) : res bool :=
  match m !! p with
  | Some (JS_GC_OBJ_TYPE_VAR_REF d _) => Ret d
  | _ => Ub
  end.

Definition js_array_mark (u : class_data) : res (list Z) :=
  match u with U_array values => Ret (mark_values values) | _ => Ub end.

Definition js_object_data_mark (u : class_data) : res (list Z) :=
  match u with U_object_data v => Ret (JS_MarkValue v) | _ => Ub end.

Definition js_c_function_mark (u : class_data) : res (list Z) :=
  match u with U_cfunc realm => Ret (opt_list realm) | _ => Ub end.

(** The loop over [closure_var_count] entries of [var_refs]. *)
Fixpoint mark_var_refs (l : list (option Z)) : res (list Z) :=
  match l with
  | [] => Ret []
  | None :: l => mark_var_refs l
  | Some p :: l =>
      let* d := var_ref_is_detached p in
      let* rest := mark_var_refs l in
      Ret (if d : bool then p :: rest else rest)
  end.

Definition js_bytecode_function_mark (u : class_data) : res (list Z) :=
  match u with
  | U_func b var_refs home_object =>
      let home := match home_object with
                  | Some p => JS_MarkValue (JS_MKPTR JS_TAG_OBJECT p)
                  | None => []
                  end in
      match b with
      | None => Ret home
      | Some b =>
          let* refs :=
            match var_refs with
            | None => Ret []
            | Some l =>
                match m !! b with
                | Some (JS_GC_OBJ_TYPE_FUNCTION_BYTECODE _ n _) =>
                    let* l := slice l 0 n in mark_var_refs l
                | _ => Ub
                end
            end in
          (* must mark the function bytecode because template objects may be
             part of a cycle *)
          Ret (home ++ refs
               ++ JS_MarkValue (JS_MKPTR JS_TAG_FUNCTION_BYTECODE b))
      end
  | _ => Ub
  end.

Definition js_bound_function_mark (u : class_data) : res (list Z) :=
  match u with
  | U_bound_function f t argv => Ret (mark_values (f :: t :: argv))
  | _ => Ub
  end.

Definition js_c_function_data_mark (u : class_data) : res (list Z) :=
  match u with
  | U_c_function_data None => Ret []
  | U_c_function_data (Some data) => Ret (mark_values data)
  | _ => Ub
  end.

Definition js_for_in_iterator_mark (u : class_data) : res (list Z) :=
  match u with U_for_in_iterator obj => Ret (JS_MarkValue obj) | _ => Ub end.

Definition js_typed_array_mark (u : class_data) : res (list Z) :=
  match u with
  | U_typed_array None => Ret []
  | U_typed_array (Some b) => Ret (JS_MarkValue (JS_MKPTR JS_TAG_OBJECT b))
  | _ => Ub
  end.

Definition js_map_mark (u : class_data) : res (list Z) :=
  match u with
  | U_map_state None => Ret []
  | U_map_state (Some (is_weak, records)) =>
      Ret (concat (map (fun '(key, value) =>
        (if is_weak : bool then [] else JS_MarkValue key) ++ JS_MarkValue value)
        records))
  | _ => Ub
  end.

Definition js_map_iterator_mark (u : class_data) : res (list Z) :=
  match u with
  | U_iterator None => Ret []
  | U_iterator (Some obj) => Ret (JS_MarkValue obj)
  | _ => Ub
  end.

Definition js_array_iterator_mark (u : class_data) : res (list Z) :=
  match u with
  | U_iterator None => Ret []
  | U_iterator (Some obj) => Ret (JS_MarkValue obj)
  | _ => Ub
  end.

Definition js_regexp_string_iterator_mark (u : class_data) : res (list Z) :=
  match u with
  | U_regexp_string_iterator None => Ret []
  | U_regexp_string_iterator (Some (re, str)) => Ret (mark_values [re; str])
  | _ => Ub
  end.

Definition async_func_mark (s : JSAsyncFunctionState) : list Z :=
  mark_values [fs_cur_func s; fs_this_val s]
  ++ match fs_stack s with
     | Some l => mark_values l
     | None => []
     end.

Definition js_generator_mark (u : class_data) : res (list Z) :=
  match u with
  | U_generator None => Ret []
  | U_generator (Some (JS_GENERATOR_STATE_COMPLETED, _)) => Ret []
  | U_generator (Some (_, s)) => Ret (async_func_mark s)
  | _ => Ub
  end.

Definition js_proxy_mark (u : class_data) : res (list Z) :=
  match u with
  | U_proxy None => Ret []
  | U_proxy (Some (target, handler)) => Ret (mark_values [target; handler])
  | _ => Ub
  end.

Definition mark_reactions (l : list JSPromiseReactionData) : list Z :=
  concat (map (fun rd => mark_values
    [rd_resolve rd; rd_reject rd; rd_handler rd]) l).

Definition js_promise_mark (u : class_data) : res (list Z) :=
  match u with
  | U_promise None => Ret []
  | U_promise (Some (fulfill, reject, result)) =>
      Ret (mark_reactions fulfill ++ mark_reactions reject
           ++ JS_MarkValue result)
  | _ => Ub
  end.

Definition js_promise_resolve_function_mark (u : class_data) : res (list Z) :=
  match u with
  | U_promise_function None => Ret []
  | U_promise_function (Some promise) => Ret (JS_MarkValue promise)
  | _ => Ub
  end.

Definition js_async_function_resolve_mark (u : class_data) : res (list Z) :=
  match u with U_async_function s => Ret (opt_list s) | _ => Ub end.

Definition js_async_from_sync_iterator_mark (u : class_data) : res (list Z) :=
  match u with
  | U_async_from_sync_iterator None => Ret []
  | U_async_from_sync_iterator (Some (it, nxt)) => Ret (mark_values [it; nxt])
  | _ => Ub
  end.

Definition js_async_generator_mark (u : class_data) : res (list Z) :=
  match u with
  | U_async_generator None => Ret []
  | U_async_generator (Some (state, s, queue)) =>
      Ret (concat (map (fun req => mark_values
             [req_result req; req_promise req; req_resolve req; req_reject req])
             queue)
           ++ match state with
              | JS_ASYNC_GENERATOR_STATE_COMPLETED
              | JS_ASYNC_GENERATOR_STATE_AWAITING_RETURN => []
              | _ => async_func_mark s
              end)
  | _ => Ub
  end.

(** The [gc_mark] fields of the three tables of standard classes: [None] for
    [NULL]; a class that is not in the table is [Ub]. *)
Abbreviation JSClassGCMark := (option (class_data -> res (list Z))).

Definition js_std_class_def (class_id : JSClassID) : res JSClassGCMark :=
  match class_id with
  | JS_CLASS_OBJECT => Ret None
  | JS_CLASS_ARRAY => Ret (Some js_array_mark)
  | JS_CLASS_ERROR => Ret None
  | JS_CLASS_NUMBER => Ret (Some js_object_data_mark)
  | JS_CLASS_STRING => Ret (Some js_object_data_mark)
  | JS_CLASS_BOOLEAN => Ret (Some js_object_data_mark)
  | JS_CLASS_SYMBOL => Ret (Some js_object_data_mark)
  | JS_CLASS_ARGUMENTS => Ret (Some js_array_mark)
  | JS_CLASS_MAPPED_ARGUMENTS => Ret None
  | JS_CLASS_DATE => Ret (Some js_object_data_mark)
  | JS_CLASS_MODULE_NS => Ret None
  | JS_CLASS_C_FUNCTION => Ret (Some js_c_function_mark)
  | JS_CLASS_BYTECODE_FUNCTION => Ret (Some js_bytecode_function_mark)
  | JS_CLASS_BOUND_FUNCTION => Ret (Some js_bound_function_mark)
  | JS_CLASS_C_FUNCTION_DATA => Ret (Some js_c_function_data_mark)
  | JS_CLASS_GENERATOR_FUNCTION => Ret (Some js_bytecode_function_mark)
  | JS_CLASS_FOR_IN_ITERATOR => Ret (Some js_for_in_iterator_mark)
  | JS_CLASS_REGEXP => Ret None
  | JS_CLASS_ARRAY_BUFFER => Ret None
  | JS_CLASS_SHARED_ARRAY_BUFFER => Ret None
  | JS_CLASS_UINT8C_ARRAY | JS_CLASS_INT8_ARRAY | JS_CLASS_UINT8_ARRAY
  | JS_CLASS_INT16_ARRAY | JS_CLASS_UINT16_ARRAY | JS_CLASS_INT32_ARRAY
  | JS_CLASS_UINT32_ARRAY | JS_CLASS_FLOAT32_ARRAY | JS_CLASS_FLOAT64_ARRAY
  | JS_CLASS_DATAVIEW => Ret (Some js_typed_array_mark)
  | JS_CLASS_MAP | JS_CLASS_SET | JS_CLASS_WEAKMAP | JS_CLASS_WEAKSET =>
      Ret (Some js_map_mark)
  | JS_CLASS_MAP_ITERATOR | JS_CLASS_SET_ITERATOR =>
      Ret (Some js_map_iterator_mark)
  | JS_CLASS_ARRAY_ITERATOR | JS_CLASS_STRING_ITERATOR =>
      Ret (Some js_array_iterator_mark)
  | JS_CLASS_REGEXP_STRING_ITERATOR => Ret (Some js_regexp_string_iterator_mark)
  | JS_CLASS_GENERATOR => Ret (Some js_generator_mark)
  | _ => Ub
  end.

Definition js_proxy_class_def (class_id : JSClassID) : res JSClassGCMark :=
  match class_id with
  | JS_CLASS_PROXY => Ret (Some js_proxy_mark)
  | _ => Ub
  end.

Definition js_async_class_def (class_id : JSClassID) : res JSClassGCMark :=
  match class_id with
  | JS_CLASS_PROMISE => Ret (Some js_promise_mark)
  | JS_CLASS_PROMISE_RESOLVE_FUNCTION =>
      Ret (Some js_promise_resolve_function_mark)
  | JS_CLASS_PROMISE_REJECT_FUNCTION =>
      Ret (Some js_promise_resolve_function_mark)
  | JS_CLASS_ASYNC_FUNCTION => Ret (Some js_bytecode_function_mark)
  | JS_CLASS_ASYNC_FUNCTION_RESOLVE => Ret (Some js_async_function_resolve_mark)
  | JS_CLASS_ASYNC_FUNCTION_REJECT => Ret (Some js_async_function_resolve_mark)
  | JS_CLASS_ASYNC_FROM_SYNC_ITERATOR =>
      Ret (Some js_async_from_sync_iterator_mark)
  | JS_CLASS_ASYNC_GENERATOR_FUNCTION => Ret (Some js_bytecode_function_mark)
  | JS_CLASS_ASYNC_GENERATOR => Ret (Some js_async_generator_mark)
  | _ => Ub
  end.

(** [class_array[class_id].gc_mark], filled from the three tables. *)
Definition gc_mark (class_id : JSClassID) : res JSClassGCMark :=
  match js_std_class_def class_id with
  | Ret f => Ret f
  | _ => match js_proxy_class_def class_id with
         | Ret f => Ret f
         | _ => js_async_class_def class_id
         end
  end.

(** ** [mark_children] *)

(** One property: the live member of the union is the one of the flags. *)
Definition mark_property (prs : JSShapeProperty) (pr : JSProperty)
  : res (list Z) :=
  if prs_atom prs =? JS_ATOM_NULL then Ret []
  else
    let t := Z.land (prs_flags prs) JS_PROP_TMASK in
    if negb (t =? 0) then
      if t =? JS_PROP_GETSET then
        match pr with
        | PropGetset g s => Ret (opt_list g ++ opt_list s)
        | _ => Ub
        end
      else if t =? JS_PROP_VARREF then
        match pr with
        | PropVarref v =>
            let* d := var_ref_is_detached v in
            Ret (if d : bool then [v] else [])
        | _ => Ub
        end
      else if t =? JS_PROP_AUTOINIT then
        match pr with PropInit realm => Ret [realm] | _ => Ub end
      else Ret []
    else
      match pr with PropValue v => Ret (JS_MarkValue v) | _ => Ub end.

(** [for(i = 0; i < sh->prop_count; i++)] *)
Fixpoint mark_properties (prs : list JSShapeProperty) (prop : list JSProperty)
  : res (list Z) :=
  match prs, prop with
  | [], _ => Ret []
  | s :: prs, p :: prop =>
      let* a := mark_property s p in
      let* b := mark_properties prs prop in
      Ret (a ++ b)
  | _ :: _, [] => Ub
  end.

Definition js_mark_module_def (d : JSModuleDef) : list Z :=
  concat (map opt_list (m_local_exports d))
  ++ mark_values [m_module_ns d; m_func_obj d; m_eval_exception d; m_meta_obj d].

Definition JS_MarkContext (ctx : JSContext) : list Z :=
  (* modules are not seen by the GC, so we directly mark the objects
     referenced by each module *)
  concat (map js_mark_module_def (loaded_modules ctx))
  ++ mark_values [global_obj ctx; global_var_obj ctx; throw_type_error ctx;
                  eval_obj ctx; array_proto_values ctx]
  ++ mark_values (native_error_proto ctx)
  ++ mark_values (class_proto ctx)
  ++ mark_values [iterator_proto ctx; async_iterator_proto ctx;
                  promise_ctor ctx; array_ctor ctx; regexp_ctor ctx;
                  function_ctor ctx; function_proto ctx]
  ++ opt_list (array_shape ctx).

Definition mark_children (gp : Z) : res (list Z) :=
  match m !! gp with
  | None => Ub
  | Some (JS_GC_OBJ_TYPE_JS_OBJECT shape props class_id u) =>
      match m !! shape with
      | Some (JS_GC_OBJ_TYPE_SHAPE _ prs) =>
          let* l := mark_properties prs props in
          let* c :=
            match class_id with
            | JS_CLASS_OBJECT => Ret []
            | _ =>
                let* gc_mark := gc_mark class_id in
                match gc_mark with
                | Some f => f u
                | None => Ret []
                end
            end in
          Ret (shape :: l ++ c)
      | _ => Ub
      end
  | Some (JS_GC_OBJ_TYPE_FUNCTION_BYTECODE cpool _ realm) =>
      Ret (mark_values cpool ++ opt_list realm)
  | Some (JS_GC_OBJ_TYPE_VAR_REF is_detached v) =>
      let* _ := c_assert is_detached in
      Ret (JS_MarkValue v)
  | Some (JS_GC_OBJ_TYPE_ASYNC_FUNCTION is_active s resolve reject) =>
      Ret ((if is_active : bool then async_func_mark s else [])
           ++ mark_values [resolve; reject])
  | Some (JS_GC_OBJ_TYPE_SHAPE proto _) => Ret (opt_list proto)
  | Some (JS_GC_OBJ_TYPE_JS_CONTEXT ctx) => Ret (JS_MarkContext ctx)
  end.
End marking.
