(* ===== verification/Gc.v ===== *)
(** * The cycle collector ([quickjs.c])

    The trial deletion of [JS_RunGC]: [gc_decref] removes the references that
    GC objects hold on each other, [gc_scan] puts back what is reachable from
    the objects that are still referenced.  The objects are those of
    [GcObjects]; their headers and the links of the two lists are the state.
    An object, its header and its link have the same address. *)

From stdpp Require Import base tactics numbers list option gmap.
From Stdlib Require Import ZArith Lia.
From S2P Require Import Prelude ListHead GcObjects.

Open Scope Z_scope.

Record JSGCObjectHeader := mkHdr { ref_count : Z; mark : Z }.

(** What the collector changes. *)
Record gc_state := mkGc { hdrs : gmap Z JSGCObjectHeader; lnk : links }.

Definition get_hdr (s : gc_state) (p : Z) : res JSGCObjectHeader :=
  match hdrs s !! p with Some h => Ret h | None => Ub end.

Definition set_ref_count (s : gc_state) (p rc : Z) : res gc_state :=
  let* h := get_hdr s p in
  Ret (mkGc (<[p := mkHdr rc (mark h)]> (hdrs s)) (lnk s)).

Definition set_mark (s : gc_state) (p m : Z) : res gc_state :=
  let* h := get_hdr s p in
  Ret (mkGc (<[p := mkHdr (ref_count h) m]> (hdrs s)) (lnk s)).

(** [p->ref_count++] on an [int]. *)
Definition incr_ref_count (s : gc_state) (p : Z) : res gc_state :=
  let* h := get_hdr s p in
  if ref_count h <? INT32_MAX then set_ref_count s p (ref_count h + 1) else Ub.

(** [list_del(&p->link); list_add_tail(&p->link, head)] *)
Definition move_link (s : gc_state) (p head : Z) : res gc_state :=
  let* m := list_del (lnk s) p in
  let* m := list_add_tail m p head in
  Ret (mkGc (hdrs s) m).

Definition add_gc_object (gc_obj_list : Z) (s : gc_state) (h : Z)
  : res gc_state :=
  let* s := set_mark s h 0 in
  let* m := list_add_tail (lnk s) h gc_obj_list in
  Ret (mkGc (hdrs s) m).

Definition remove_gc_object (s : gc_state) (h : Z) : res gc_state :=
  let* m := list_del (lnk s) h in
  Ret (mkGc (hdrs s) m).

Section gc.
Context (objs : objects) (gc_obj_list tmp_obj_list : Z) (fuel : nat).

(** [mark_children(rt, p, mark_func)] for a callback on the state. *)
Definition with_children (mark_func : Z -> gc_state -> res gc_state)
    (p : Z) (s : gc_state) : res gc_state :=
  let* l := mark_children objs p in
  each mark_func l s.

Definition gc_decref_child (p : Z) (s : gc_state) : res gc_state :=
  let* h := get_hdr s p in
  let* _ := c_assert (0 <? ref_count h) in
  let* s := set_ref_count s p (ref_count h - 1) in
  if (ref_count h - 1 =? 0) && (mark h =? 1) then move_link s p tmp_obj_list
  else Ret s.

(** The body of the loop of [gc_decref]. *)
Definition gc_decref_body (p : Z) (s : gc_state) : res gc_state :=
  let* h := get_hdr s p in
  let* _ := c_assert (mark h =? 0) in
  let* s := with_children gc_decref_child p s in
  let* s := set_mark s p 1 in
  let* h := get_hdr s p in
  if ref_count h =? 0 then move_link s p tmp_obj_list else Ret s.

(** decrement the refcount of all the children of all the GC objects and move
    the GC objects with zero refcount to tmp_obj_list *)
Definition gc_decref (s : gc_state) : res gc_state :=
  let* m := init_list_head (lnk s) tmp_obj_list in
  list_for_each_safe fuel lnk gc_obj_list gc_decref_body (mkGc (hdrs s) m).

Definition gc_scan_incref_child (p : Z) (s : gc_state) : res gc_state :=
  let* s := incr_ref_count s p in
  let* h := get_hdr s p in
  if ref_count h =? 1 then
    (* ref_count was 0: remove from tmp_obj_list and add at the end of
       gc_obj_list *)
    let* s := move_link s p gc_obj_list in
    set_mark s p 0
  else Ret s.

Definition gc_scan_incref_child2 (p : Z) (s : gc_state) : res gc_state :=
  incr_ref_count s p.

(** The bodies of the two loops of [gc_scan]. *)
Definition gc_scan_body (p : Z) (s : gc_state) : res gc_state :=
  let* h := get_hdr s p in
  let* _ := c_assert (0 <? ref_count h) in
  let* s := set_mark s p 0 in
  with_children gc_scan_incref_child p s.

Definition gc_scan_body2 (p : Z) (s : gc_state) : res gc_state :=
  with_children gc_scan_incref_child2 p s.

Definition gc_scan (s : gc_state) : res gc_state :=
  (* keep the objects with a refcount > 0 and their children. *)
  let* s := list_for_each fuel lnk gc_obj_list gc_scan_body s in
  (* restore the refcount of the objects to be deleted. *)
  list_for_each fuel lnk tmp_obj_list gc_scan_body2 s.

(** The detection of garbage in [JS_RunGC]: what [gc_free_cycles] is given
    to free is the list [tmp_obj_list]. *)
Definition gc_detect (s : gc_state) : res gc_state :=
  let* s := gc_decref s in gc_scan s.
End gc.
