(* ===== verification/GcSpec.v ===== *)
(** * The cycle collector finds exactly the garbage

    [gc_detect] against its specification: the objects kept are those
    reachable from an object that is referenced from outside, and every
    reference count is restored. *)

From stdpp Require Import base tactics numbers list option sets gmap relations.
From Stdlib Require Import ZArith Lia.
From S2P Require Import Prelude ListHead GcObjects Gc.

Open Scope Z_scope.

(** ** Rules for the list traversals *)

Definition first (l : list Z) (hd : Z) : Z := default hd (head l).

Lemma path_first m a l b : path m a l b -> next <$> m !! a = Some (first l b).
Proof. by destruct l as [|x l]; [intros [? _]|intros [[? _] _]]. Qed.

Section for_each_rules.
Context {S : Type} (lk : S -> links) (hd : Z) (body : Z -> S -> res S).

(** [I R s]: the elements of [R] remain, and end the list. *)
Lemma wp_for_each_safe (I : list Z -> S -> Prop) fuel R s :
  (forall R s, I R s -> exists G, dlist (lk s) hd (G ++ R)) ->
  (forall x R s, I (x :: R) s -> wp (body x s) (I R)) ->
  dlist (lk s) hd R -> I R s -> (length R < fuel)%nat ->
  wp (list_for_each_safe fuel lk hd body s) (I []).
Proof.
  intros Hd Hb [_ H0] HI Hf. unfold list_for_each_safe.
  destruct (get_next _ _ _ (path_first _ _ _ _ H0)) as (h & -> & E).
  cbn [bind]. rewrite E. clear h E H0.
  revert fuel s HI Hf. induction R as [|x R IH]; intros fuel s HI Hf;
    (destruct fuel as [|fuel]; [simpl in Hf; lia|]).
  - destruct (Hd _ _ HI) as (G & Hl).
    destruct (dlist_mapped _ _ _ hd Hl) as [h Eh]; [left|].
    unfold get. cbn [first head default]. rewrite Eh. cbn [bind]. rewrite loop_S.
    by rewrite Z.eqb_refl.
  - destruct (Hd _ _ HI) as (G & Hnd & Hp). rewrite path_app in Hp.
    destruct Hp as [_ Hp].
    destruct (get_next _ _ _ (path_first _ _ _ _ Hp)) as (h & E1 & E2).
    cbn [first head default from_option]. change (default x (Some x)) with x.
    unfold first in *. cbn [head default from_option id]. rewrite E1.
    cbn [bind]. rewrite loop_S, E2.
    destruct (Z.eqb_spec x hd) as [->|_];
      [apply NoDup_cons in Hnd as [? _]; set_solver|].
    apply wp_bind, wp_bind. eapply wp_mono; [exact (Hb _ _ _ HI)|]. intros s' HI'.
    simpl in Hf. specialize (IH fuel s' HI' ltac:(lia)).
    destruct (get (lk s') _) as [h'| |]; [exact IH|done..].
Qed.

(** [I P R s]: [P] has been visited and [R] remains; the body may append. *)
Lemma wp_for_each (I : list Z -> list Z -> S -> Prop) (n : nat) fuel R s :
  (forall P R s, I P R s -> dlist (lk s) hd (P ++ R) /\ (length (P ++ R) <= n)%nat) ->
  (forall P x R s, I P (x :: R) s ->
    wp (body x s) (fun s => exists R', I (P ++ [x]) R' s)) ->
  I [] R s -> (n < fuel)%nat ->
  wp (list_for_each fuel lk hd body s) (fun s => exists P, I P [] s).
Proof.
  intros Hd Hb HI Hf. unfold list_for_each.
  destruct (Hd _ _ _ HI) as [[_ Hp] _]. cbn [app] in Hp.
  destruct (get_next _ _ _ (path_first _ _ _ _ Hp)) as (h & -> & E).
  cbn [bind]. rewrite E. clear h E Hp.
  assert (Hm : (n < fuel + length (@nil Z))%nat) by (simpl; lia). clear Hf.
  set (Q := fun s => exists P, I P [] s). revert HI Hm.
  generalize (@nil Z) at 1 2 as P. intros P HI Hm. revert P R s HI Hm. induction fuel as [|fuel IH]; intros P R s HI Hm.
  { destruct (Hd _ _ _ HI) as [_ Hlen]. rewrite length_app in Hlen. lia. }
  rewrite loop_S. destruct (Hd _ _ _ HI) as [[Hnd Hp] Hlen].
  destruct R as [|x R].
  { unfold first. cbn [head default from_option]. rewrite Z.eqb_refl.
    cbn [bind wp]. by exists P. }
  unfold first. cbn [head default from_option id].
  destruct (Z.eqb_spec x hd) as [->|_];
      [apply NoDup_cons in Hnd as [? _]; set_solver|].
  apply wp_bind, wp_bind. eapply wp_mono; [exact (Hb _ _ _ _ HI)|].
  intros s' (R' & HI').
  destruct (Hd _ _ _ HI') as [[_ Hp'] _]. rewrite <- app_assoc in Hp'.
  cbn [app] in Hp'. rewrite path_app in Hp'. destruct Hp' as [_ Hp'].
  destruct (get_next _ _ _ (path_first _ _ _ _ Hp')) as (h & -> & E).
  cbn [bind wp]. rewrite E. apply (IH (P ++ [x])); [done|]. rewrite length_app. simpl. lia.
Qed.

Lemma wp_each (I : list Z -> S -> Prop) l s :
  (forall x l s, I (x :: l) s -> wp (body x s) (I l)) ->
  I l s -> wp (each body l s) (I []).
Proof.
  intros Hb. revert s. induction l as [|x l IH]; intros s HI; [done|].
  cbn [each]. apply wp_bind. eapply wp_mono; [exact (Hb _ _ _ HI)|]. apply IH.
Qed.
End for_each_rules.

(** ** Two lists that exchange elements *)

Definition two_lists (m : links) (h1 : Z) (l1 : list Z) (h2 : Z) (l2 : list Z)
  : Prop :=
  NoDup (h1 :: l1 ++ h2 :: l2) /\ path m h1 l1 h1 /\ path m h2 l2 h2.

Lemma two_lists_1 m h1 l1 h2 l2 : two_lists m h1 l1 h2 l2 -> dlist m h1 l1.
Proof.
  intros (Hnd & Hp & _). split; [|done]. rewrite app_comm_cons in Hnd.
  by apply NoDup_app in Hnd as (? & _).
Qed.

Lemma two_lists_sym m h1 l1 h2 l2 :
  two_lists m h1 l1 h2 l2 -> two_lists m h2 l2 h1 l1.
Proof.
  intros (Hnd & ? & ?). split; [|done]. revert Hnd.
  rewrite !app_comm_cons. apply NoDup_Permutation_proper, Permutation_app_comm.
Qed.

Lemma two_lists_2 m h1 l1 h2 l2 : two_lists m h1 l1 h2 l2 -> dlist m h2 l2.
Proof. intros ?%two_lists_sym. by eapply two_lists_1. Qed.

Lemma path_untouched m m' S a l b :
  path m a l b -> untouched m m' S -> (forall x, x ∈ a :: l ++ [b] -> x ∉ S) ->
  path m' a l b.
Proof.
  intros Hp Hu HS. eapply path_frame; [exact Hp|..]; intros x Hx;
    rewrite Hu; try done; apply HS; set_solver.
Qed.

Lemma two_lists_move m h1 a x b h2 l2 :
  two_lists m h1 (a ++ x :: b) h2 l2 ->
  wp (let* m := list_del m x in list_add_tail m x h2)
    (fun m' => two_lists m' h1 (a ++ b) h2 (l2 ++ [x])).
Proof.
  intros H. pose proof (two_lists_1 _ _ _ _ _ H) as H1.
  pose proof (two_lists_2 _ _ _ _ _ H) as [Hnd2 Hp2]. destruct H as (Hnd & _ & _).
  assert (Hdisj : forall y, y ∈ h2 :: l2 -> y ∉ h1 :: a ++ x :: b).
  { rewrite app_comm_cons in Hnd. apply NoDup_app in Hnd as (_ & Hd & _).
    intros y Hy Hy'. by eapply Hd. }
  apply wp_bind. eapply wp_mono; [by apply list_del_spec|].
  intros m1 ([_ Hp1] & Hx & Hu1).
  eapply wp_mono.
  { apply (list_add_tail_spec m1 h2 l2 x); [split; [done|]|by eexists|].
    - eapply path_untouched; [exact Hp2|exact Hu1|set_solver].
    - intros Hin. eapply Hdisj; [exact Hin|set_solver]. }
  intros m2 ([_ Hp3] & Hu2). split; [|split; [|done]].
  - revert Hnd. apply NoDup_Permutation_proper. solve_Permutation.
  - eapply path_untouched; [exact Hp1|exact Hu2|].
    intros y Hy Hy'.
    assert (y = x \/ y ∈ h2 :: l2) as [->|Hy2] by set_solver.
    + rewrite app_comm_cons in Hnd. apply NoDup_app in Hnd as (Hnd & _ & _).
      rewrite app_comm_cons in Hnd. apply NoDup_app in Hnd as (_ & Hd & Hnd).
      apply NoDup_cons in Hnd as [? _]. specialize (Hd x). set_solver.
    + eapply Hdisj; [exact Hy2|]. set_solver.
Qed.

Lemma move_link_spec s h1 a x b h2 l2 :
  two_lists (lnk s) h1 (a ++ x :: b) h2 l2 ->
  wp (move_link s x h2) (fun s' => hdrs s' = hdrs s /\
    two_lists (lnk s') h1 (a ++ b) h2 (l2 ++ [x])).
Proof.
  intros H. unfold move_link. pose proof (two_lists_move _ _ _ _ _ _ _ H) as Hm.
  destruct (list_del (lnk s) x) as [m1| |]; [|done..].
  cbn [bind] in *. apply wp_bind. eapply wp_mono; [exact Hm|]. intros m2 H2.
  by split.
Qed.

(** ** The heap the collector is given *)

Definition children (objs : objects) (p : Z) : list Z :=
  match mark_children objs p with Ret l => l | _ => [] end.

(** The number of times [q] is in [l]. *)
Definition occ (q : Z) (l : list Z) : Z := Z.of_nat (length (filter (fun x => x = q) l)).

Lemma occ_nil q : occ q [] = 0.
Proof. done. Qed.

Lemma occ_cons q x l : occ q (x :: l) = (if decide (x = q) then 1 else 0) + occ q l.
Proof. unfold occ. rewrite filter_cons. case_decide; cbn [length]; lia. Qed.

Lemma occ_app q l1 l2 : occ q (l1 ++ l2) = occ q l1 + occ q l2.
Proof. unfold occ. rewrite filter_app, length_app. lia. Qed.

Lemma occ_nonneg q l : 0 <= occ q l.
Proof. unfold occ. lia. Qed.

Lemma occ_pos q l : 0 < occ q l <-> q ∈ l.
Proof.
  induction l as [|x l IH]; [rewrite occ_nil, elem_of_nil; lia|].
  rewrite occ_cons, elem_of_cons, <- IH. pose proof (occ_nonneg q l).
  case_decide; split; intros Hq; [by left|lia|right; lia|].
  destruct Hq as [->|?]; [done|lia].
Qed.

#[export] Instance occ_perm q : Proper (Permutation ==> eq) (occ q).
Proof. intros l1 l2 H. unfold occ. by rewrite H. Qed.

Lemma occ_submseteq q l1 l2 : l1 ⊆+ l2 -> occ q l1 <= occ q l2.
Proof.
  intros [k ->]%submseteq_Permutation. rewrite occ_app.
  pose proof (occ_nonneg q k). lia.
Qed.

(** [p] holds a reference on [q]. *)
Definition refers (objs : objects) (p q : Z) : Prop := q ∈ children objs p.

(** All the references held by the objects of [l]. *)
Definition references (objs : objects) (l : list Z) : list Z :=
  concat (children objs <$> l).

Lemma references_app objs l1 l2 :
  references objs (l1 ++ l2) = references objs l1 ++ references objs l2.
Proof. unfold references. by rewrite fmap_app, concat_app. Qed.

#[export] Instance references_perm objs :
  Proper (Permutation ==> Permutation) (references objs).
Proof.
  intros l1 l2 H. unfold references. induction H; cbn [fmap list_fmap concat].
  - done.
  - by apply Permutation_app_head.
  - rewrite !(assoc (++)). by apply Permutation_app_tail, Permutation_app_comm.
  - by etrans.
Qed.

(** Reachable from an object of [l] with a reference from outside. *)
Definition reachable (objs : objects) (l : list Z) (ext : Z -> Z) (p : Z) : Prop :=
  exists r, r ∈ l /\ 0 < ext r /\ rtc (refers objs) r p.

(** A heap that is ready for a collection: the GC objects are [l], they only
    refer to each other, they are unmarked, and the count of an object is the
    number of references on it in the heap plus [ext] from outside. *)
Record gc_wf (objs : objects) (gcl : Z) (s : gc_state) (l : list Z)
    (ext : Z -> Z) : Prop := {
  wf_list : dlist (lnk s) gcl l;
  wf_children : forall p, p ∈ l ->
    exists c, mark_children objs p = Ret c /\ c ⊆ l;
  wf_ext : forall p, p ∈ l ->
    0 <= ext p /\ ext p + occ p (references objs l) <= INT32_MAX;
  wf_hdr : forall p, p ∈ l ->
    hdrs s !! p = Some (mkHdr (ext p + occ p (references objs l)) 0)
}.

Lemma get_hdr_Some s p h : hdrs s !! p = Some h -> get_hdr s p = Ret h.
Proof. unfold get_hdr. by intros ->. Qed.

Section collect.
Context (objs : objects) (gcl tmp : Z) (fuel : nat).
Context (L : list Z) (ext : Z -> Z).
Context (Hchildren : forall p, p ∈ L ->
  exists c, mark_children objs p = Ret c /\ c ⊆ L).
Context (Hext : forall p, p ∈ L ->
  0 <= ext p /\ ext p + occ p (references objs L) <= INT32_MAX).

Lemma with_children_eq f p s : p ∈ L ->
  with_children objs f p s = each f (children objs p) s.
Proof.
  intros Hp. unfold with_children, children.
  by destruct (Hchildren p Hp) as (c & -> & _).
Qed.

Lemma children_in p q : p ∈ L -> q ∈ children objs p -> q ∈ L.
Proof.
  intros Hp. unfold children. destruct (Hchildren p Hp) as (c & -> & Hc).
  apply Hc.
Qed.

(** *** [gc_decref] *)

(** The references of [todo] are still counted; [D] is done, [R] remains. *)
Definition decref_inv (D R todo : list Z) (s : gc_state) : Prop :=
  exists G T,
    two_lists (lnk s) gcl (G ++ R) tmp T /\
    G ++ T ≡ₚ D /\ D ++ R ≡ₚ L /\
    (forall p, p ∈ G -> 0 < ext p + occ p todo) /\
    (forall p, p ∈ T -> ext p + occ p todo = 0) /\
    (forall p, p ∈ L -> hdrs s !! p
       = Some (mkHdr (ext p + occ p todo) (if decide (p ∈ D) then 1 else 0))).

Lemma set_ref_count_spec s p h rc : hdrs s !! p = Some h ->
  set_ref_count s p rc = Ret (mkGc (<[p := mkHdr rc (mark h)]> (hdrs s)) (lnk s)).
Proof. intros H. unfold set_ref_count. by rewrite (get_hdr_Some _ _ _ H). Qed.

Lemma set_mark_spec s p h mk : hdrs s !! p = Some h ->
  set_mark s p mk = Ret (mkGc (<[p := mkHdr (ref_count h) mk]> (hdrs s)) (lnk s)).
Proof. intros H. unfold set_mark. by rewrite (get_hdr_Some _ _ _ H). Qed.

Lemma two_lists_NoDup m h1 l1 h2 l2 :
  two_lists m h1 l1 h2 l2 -> NoDup (l1 ++ l2).
Proof.
  intros (Hnd & _). apply NoDup_cons in Hnd as [_ Hnd].
  assert (Hp : l1 ++ h2 :: l2 ≡ₚ h2 :: l1 ++ l2) by solve_Permutation.
  rewrite Hp in Hnd. by apply NoDup_cons in Hnd as [_ ?].
Qed.

Lemma gc_decref_child_spec D R q todo s :
  decref_inv D R (q :: todo) s -> q ∈ L ->
  wp (gc_decref_child tmp q s) (decref_inv D R todo).
Proof.
  intros (G & T & Hl & HGT & HDR & HG & HT & Hh) Hq.
  pose proof (two_lists_NoDup _ _ _ _ _ Hl) as Hnd.
  destruct (Hext q Hq) as [He _]. pose proof (occ_nonneg q todo) as Ho.
  assert (Eq : occ q (q :: todo) = 1 + occ q todo)
    by (rewrite occ_cons; by case_decide).
  assert (Hne : forall p, p <> q -> occ p (q :: todo) = occ p todo).
  { intros p Hp. rewrite occ_cons. case_decide; [congruence|lia]. }
  unfold gc_decref_child. rewrite (get_hdr_Some _ _ _ (Hh q Hq)).
  cbn [bind ref_count mark]. rewrite Eq. apply wp_bind, wp_assert;
    [apply Z.ltb_lt; lia|].
  rewrite (set_ref_count_spec _ _ _ _ (Hh q Hq)). cbn [bind mark].
  assert (HqT : q ∉ T). { intros HqT. specialize (HT _ HqT). lia. }
  assert (Hh' : forall p, p ∈ L ->
    <[q := mkHdr (ext q + (1 + occ q todo) - 1) (if decide (q ∈ D) then 1 else 0)]>
      (hdrs s) !! p
    = Some (mkHdr (ext p + occ p todo) (if decide (p ∈ D) then 1 else 0))).
  { intros p Hp. destruct (decide (p = q)) as [->|Hpq].
    - rewrite lookup_insert_eq. repeat f_equal. lia.
    - rewrite lookup_insert_ne by done. by rewrite (Hh p Hp), Hne. }
  destruct (Z.eqb_spec (ext q + (1 + occ q todo) - 1) 0) as [E0|E0]; cbn [andb];
    [destruct (decide (q ∈ D)) as [HqD|HqD]; cbn|].
  - (* moved *)
    assert (HqG : q ∈ G). { rewrite <- HGT in HqD. set_solver. }
    apply list_elem_of_split in HqG as (a & b & ->).
    rewrite <- app_assoc in Hl. cbn [app] in Hl.
    eapply wp_mono; [eapply move_link_spec; exact Hl|].
    intros s' [Eh Hl']. exists (a ++ b), (T ++ [q]).
    assert (Hnq : q ∉ a ++ b).
    { intros Hin. rewrite <- !app_assoc in Hnd. cbn [app] in Hnd.
      apply NoDup_app in Hnd as (_ & Hd1 & Hnd). apply NoDup_cons in Hnd as [? _].
      specialize (Hd1 q). set_solver. }
    split_and!.
    + by rewrite <- app_assoc.
    + rewrite <- HGT. solve_Permutation.
    + done.
    + intros p Hp. rewrite <- Hne by set_solver. apply HG. set_solver.
    + intros p Hp. apply elem_of_app in Hp as [Hp|Hp%list_elem_of_singleton].
      * rewrite <- Hne by set_solver. by apply HT.
      * subst p. lia.
    + intros p Hp. rewrite Eh. apply Hh'. done.
  - (* not yet visited *)
    exists G, T. split_and!; try done.
    + intros p Hp. rewrite <- Hne; [by apply HG|]. intros ->. apply HqD.
      rewrite <- HGT. set_solver.
    + intros p Hp. rewrite <- Hne by set_solver. by apply HT.
  - (* still referenced *)
    exists G, T. split_and!; try done.
    + intros p Hp. destruct (decide (p = q)) as [->|Hpq]; [lia|].
      rewrite <- Hne by done. by apply HG.
    + intros p Hp. rewrite <- Hne by set_solver. by apply HT.
Qed.

Lemma gc_decref_children_spec D R c todo s :
  decref_inv D R (c ++ todo) s -> c ⊆ L ->
  wp (each (gc_decref_child tmp) c s) (decref_inv D R todo).
Proof.
  intros HI Hc. eapply wp_mono.
  - apply (wp_each _ (fun c s => decref_inv D R (c ++ todo) s /\ c ⊆ L)); [|done].
    intros q c' s' [HI' Hc'].
    eapply wp_mono; [apply gc_decref_child_spec; [exact HI'|set_solver]|].
    intros s'' ?. split; [done|set_solver].
  - by intros s' [? _].
Qed.

Lemma gc_decref_body_spec D p R todo s :
  decref_inv D (p :: R) (children objs p ++ todo) s ->
  wp (gc_decref_body objs tmp p s) (decref_inv (D ++ [p]) R todo).
Proof.
  intros HI. unfold gc_decref_body.
  assert (Hp : p ∈ L /\ p ∉ D).
  { destruct HI as (G & T & Hl & HGT & HDR & _). rewrite <- HDR. split; [set_solver|].
    apply two_lists_NoDup in Hl. rewrite <- HGT. intros Hin.
    rewrite <- app_assoc in Hl. cbn [app] in Hl. apply NoDup_app in Hl as (_ & Hd & Hl).
    apply NoDup_cons in Hl as [? _]. specialize (Hd p). set_solver. }
  destruct Hp as [HpL HpD].
  assert (Hh : hdrs s !! p = Some (mkHdr (ext p + occ p (children objs p ++ todo)) 0)).
  { destruct HI as (_ & _ & _ & _ & _ & _ & _ & Hh). rewrite Hh by done.
    by rewrite decide_False by done. }
  rewrite (get_hdr_Some _ _ _ Hh). cbn [bind mark]. apply wp_bind, wp_assert; [done|].
  rewrite with_children_eq by done. apply wp_bind. clear Hh.
  eapply wp_mono; [apply gc_decref_children_spec; [exact HI|]|].
  { intros q. by apply children_in. }
  clear HI s. intros s (G & T & Hl & HGT & HDR & HG & HT & Hh).
  pose proof (Hh p HpL) as Hhp. rewrite decide_False in Hhp by done.
  rewrite (set_mark_spec _ _ _ _ Hhp). cbn [bind ref_count].
  erewrite get_hdr_Some by apply lookup_insert_eq. cbn [bind ref_count].
  assert (Hh' : forall q, q ∈ L ->
    <[p := mkHdr (ext p + occ p todo) 1]> (hdrs s) !! q
    = Some (mkHdr (ext q + occ q todo) (if decide (q ∈ D ++ [p]) then 1 else 0))).
  { intros q Hq. destruct (decide (q = p)) as [->|Hqp].
    - rewrite lookup_insert_eq, decide_True by set_solver. done.
    - rewrite lookup_insert_ne, Hh by done.
      by rewrite (decide_ext _ (q ∈ D ++ [p])) by set_solver. }
  destruct (Z.eqb_spec (ext p + occ p todo) 0) as [E0|E0].
  - eapply wp_mono; [eapply move_link_spec; exact Hl|].
    intros s' [Eh Hl']. exists G, (T ++ [p]). split_and!; try done.
    + rewrite <- HGT. solve_Permutation.
    + rewrite <- HDR. solve_Permutation.
    + intros q [?|Hq%list_elem_of_singleton]%elem_of_app; [by apply HT|by subst q].
    + intros q Hq. rewrite Eh. by apply Hh'.
  - exists (G ++ [p]), T. split_and!; try done.
    + by rewrite <- app_assoc.
    + rewrite <- HGT. solve_Permutation.
    + rewrite <- HDR. solve_Permutation.
    + intros q [?|Hq%list_elem_of_singleton]%elem_of_app; [by apply HG|subst q].
      pose proof (occ_nonneg p todo). destruct (Hext p HpL). lia.
Qed.

Lemma gc_decref_spec s :
  gc_wf objs gcl s L ext -> is_Some (lnk s !! tmp) -> tmp ∉ gcl :: L ->
  (length L < fuel)%nat ->
  wp (gc_decref objs gcl tmp fuel s) (decref_inv L [] []).
Proof.
  intros [[Hnd Hp] _ _ Hh] Htmp Hnin Hf. unfold gc_decref. apply wp_bind.
  eapply wp_mono; [by apply init_list_head_spec|]. intros m ([_ Hpt] & Hu).
  assert (Hp' : path m gcl L gcl).
  { eapply path_untouched; [exact Hp|exact Hu|]. intros x Hx ->%list_elem_of_singleton.
    set_solver. }
  eapply wp_mono.
  - apply (wp_for_each_safe lnk gcl _ (fun R s =>
      exists D, decref_inv D R (references objs R) s) fuel L).
    + intros R s' (D & G & T & Hl & _). exists G. exact (two_lists_1 _ _ _ _ _ Hl).
    + intros x R s' (D & HI). eapply wp_mono; [exact (gc_decref_body_spec _ _ _ _ _ HI)|].
      intros s'' ?. by exists (D ++ [x]).
    + by split.
    + exists [], [], []. split; [split; [|by split]|].
      { assert (Hperm : gcl :: ([] ++ L) ++ [tmp] ≡ₚ tmp :: gcl :: L)
          by solve_Permutation.
        rewrite Hperm. by apply NoDup_cons. }
      split; [done|]. split; [done|].
      split; [by intros p ?%elem_of_nil|]. split; [by intros p ?%elem_of_nil|].
      intros p HpL. cbn [hdrs]. rewrite Hh by done.
      by rewrite decide_False by apply not_elem_of_nil.
    + done.
  - intros s' (D & G & T & Hl & HGT & HDR & HG & HT & Hh').
    rewrite app_nil_r in HDR. exists G, T. split_and!; try done.
    + by rewrite <- HDR.
    + by rewrite app_nil_r.
    + intros p HpL. rewrite Hh' by done. by rewrite (decide_ext _ (p ∈ L)) by (by rewrite HDR).
Qed.

(** *** [gc_scan] *)

(** The references [done] are counted; the objects of [P] are visited and
    those of [R] are to visit. *)
Definition scan_inv (P R counted : list Z) (s : gc_state) : Prop :=
  exists T,
    two_lists (lnk s) gcl (P ++ R) tmp T /\
    (P ++ R) ++ T ≡ₚ L /\
    (forall p, p ∈ P ++ R -> 0 < ext p + occ p counted) /\
    (forall p, p ∈ T -> ext p + occ p counted = 0) /\
    (forall p, p ∈ P ++ R -> reachable objs L ext p) /\
    (forall p, p ∈ L -> exists mk,
       hdrs s !! p = Some (mkHdr (ext p + occ p counted) mk) /\ (p ∈ P -> mk = 0)).

Lemma occ_snoc_eq q l : occ q (l ++ [q]) = occ q l + 1.
Proof. rewrite occ_app, occ_cons, decide_True by done. rewrite occ_nil. lia. Qed.

Lemma occ_snoc_ne p q l : p <> q -> occ p (l ++ [q]) = occ p l.
Proof.
  intros. rewrite occ_app, occ_cons, decide_False by congruence.
  rewrite occ_nil. lia.
Qed.

(** Incrementing a count, below the bound of the heap. *)
Lemma incr_ref_count_spec s q counted mk :
  q ∈ L -> counted ++ [q] ⊆+ references objs L ->
  hdrs s !! q = Some (mkHdr (ext q + occ q counted) mk) ->
  incr_ref_count s q
  = Ret (mkGc (<[q := mkHdr (ext q + occ q (counted ++ [q])) mk]> (hdrs s)) (lnk s)).
Proof.
  intros Hq Hsub Hh. pose proof (occ_submseteq q _ _ Hsub) as Hle.
  destruct (Hext q Hq). rewrite occ_snoc_eq in *.
  unfold incr_ref_count. rewrite (get_hdr_Some _ _ _ Hh). cbn [bind ref_count].
  destruct (Z.ltb_spec (ext q + occ q counted) INT32_MAX); [|lia].
  rewrite (set_ref_count_spec _ _ _ _ Hh). cbn [mark].
  by rewrite Z.add_assoc.
Qed.

Lemma gc_scan_incref_child_spec P R counted q s :
  scan_inv P R counted s -> q ∈ L -> reachable objs L ext q ->
  counted ++ [q] ⊆+ references objs L ->
  wp (gc_scan_incref_child gcl q s)
    (fun s => exists R', scan_inv P (R ++ R') (counted ++ [q]) s).
Proof.
  intros (T & Hl & HL & HA & HT & Hr & Hh) Hq Hrq Hsub.
  pose proof (two_lists_NoDup _ _ _ _ _ Hl) as Hnd.
  destruct (Hh q Hq) as (mk & Hhq & Hmk). unfold gc_scan_incref_child.
  rewrite (incr_ref_count_spec _ _ _ _ Hq Hsub Hhq). cbn [bind].
  erewrite get_hdr_Some by apply lookup_insert_eq. cbn [bind ref_count].
  pose proof (occ_nonneg q counted). destruct (Hext q Hq) as [He _].
  assert (HA' : forall p, p ∈ P ++ R -> 0 < ext p + occ p (counted ++ [q])).
  { intros p Hp. destruct (decide (p = q)) as [->|];
      [rewrite occ_snoc_eq; lia|rewrite occ_snoc_ne by done; by apply HA]. }
  destruct (Z.eqb_spec (ext q + occ q (counted ++ [q])) 1) as [E|E];
    rewrite occ_snoc_eq in E.
  - (* it was in tmp_obj_list *)
    assert (HqT : q ∈ T).
    { rewrite <- HL in Hq. apply elem_of_app in Hq as [Hq|?]; [|done].
      specialize (HA _ Hq). lia. }
    apply list_elem_of_split in HqT as (a & b & ->).
    apply two_lists_sym in Hl. apply wp_bind.
    eapply wp_mono; [eapply move_link_spec; exact Hl|]. intros s' [Eh Hl'].
    apply two_lists_sym in Hl'. cbn [hdrs] in Eh.
    erewrite set_mark_spec by (rewrite Eh; apply lookup_insert_eq).
    apply wp_ret. exists [q], (a ++ b). cbn [ref_count hdrs lnk].
    assert (Hnq : q ∉ a ++ b).
    { apply NoDup_app in Hnd as (_ & _ & Hnd).
      apply NoDup_app in Hnd as (_ & Hd & Hnd). apply NoDup_cons in Hnd as [? _].
      specialize (Hd q). set_solver. }
    rewrite !(assoc_L (++) P R). split_and!.
    + done.
    + rewrite <- HL. solve_Permutation.
    + intros p [Hp|Hp%list_elem_of_singleton]%elem_of_app; [by apply HA'|subst p].
      rewrite occ_snoc_eq. lia.
    + intros p Hp. rewrite occ_snoc_ne by set_solver. apply HT. set_solver.
    + intros p [Hp|Hp%list_elem_of_singleton]%elem_of_app; [by apply Hr|by subst p].
    + intros p Hp. destruct (decide (p = q)) as [->|Hpq].
      * exists 0. by rewrite lookup_insert_eq.
      * rewrite lookup_insert_ne, Eh, lookup_insert_ne by done.
        rewrite occ_snoc_ne by done. by apply Hh.
  - apply wp_ret. exists [], T. rewrite app_nil_r. cbn [hdrs lnk]. split_and!; try done.
    + intros p Hp. rewrite occ_snoc_ne; [by apply HT|]. intros ->.
      specialize (HT _ Hp). lia.
    + intros p Hp. destruct (decide (p = q)) as [->|Hpq].
      * exists mk. by rewrite lookup_insert_eq.
      * rewrite lookup_insert_ne, occ_snoc_ne by done. by apply Hh.
Qed.

Lemma gc_scan_children_spec P R counted c s :
  scan_inv P R counted s ->
  (forall q, q ∈ c -> q ∈ L /\ reachable objs L ext q) ->
  counted ++ c ⊆+ references objs L ->
  wp (each (gc_scan_incref_child gcl) c s)
    (fun s => exists R', scan_inv P (R ++ R') (counted ++ c) s).
Proof.
  revert R counted s. induction c as [|q c IH]; intros R counted s HI Hc Hsub.
  - apply wp_ret. exists []. by rewrite !app_nil_r.
  - cbn [each]. apply wp_bind. destruct (Hc q) as [HqL Hqr]; [left|].
    eapply wp_mono.
    { apply gc_scan_incref_child_spec; [exact HI|done|done|].
      etrans; [|exact Hsub]. apply submseteq_app; [done|].
      apply submseteq_skip, submseteq_nil_l. }
    intros s' (R1 & HI'). eapply wp_mono.
    { apply IH; [exact HI'|intros; apply Hc; by right|by rewrite <- app_assoc]. }
    intros s'' (R2 & HI''). exists (R1 ++ R2).
    rewrite <- !app_assoc in HI''. exact HI''.
Qed.

Lemma gc_scan_body_spec P p R s :
  scan_inv P (p :: R) (references objs P) s ->
  wp (gc_scan_body objs gcl p s)
    (fun s => exists R', scan_inv (P ++ [p]) R' (references objs (P ++ [p])) s).
Proof.
  intros (T & Hl & HL & HA & HT & Hr & Hh). unfold gc_scan_body.
  assert (HpL : p ∈ L) by (rewrite <- HL; set_solver).
  destruct (Hh p HpL) as (mk & Hhp & _).
  rewrite (get_hdr_Some _ _ _ Hhp). cbn [bind ref_count].
  apply wp_bind, wp_assert; [apply Z.ltb_lt, HA; set_solver|].
  rewrite (set_mark_spec _ _ _ _ Hhp). cbn [bind ref_count].
  rewrite with_children_eq by done.
  rewrite references_app. replace (references objs [p]) with (children objs p)
    by (unfold references; cbn; by rewrite app_nil_r).
  eapply wp_mono.
  - apply (gc_scan_children_spec (P ++ [p]) R).
    + exists T. rewrite <- app_assoc. cbn [app hdrs lnk]. split_and!; try done.
      intros q Hq. destruct (decide (q = p)) as [->|Hqp].
      * exists 0. by rewrite lookup_insert_eq.
      * destruct (Hh q Hq) as (mk' & Hhq & Hmk'). exists mk'.
        rewrite lookup_insert_ne by done. split; [done|]. intros Hin.
        apply Hmk'. set_solver.
    + intros q Hq. split; [by eapply children_in|].
      destruct (Hr p) as (r & ? & ? & Hrtc); [set_solver|].
      exists r. split_and!; [done..|]. by eapply rtc_r.
    + assert (Hk : L ≡ₚ (P ++ [p]) ++ (R ++ T)) by (rewrite <- HL; solve_Permutation).
      rewrite Hk, !references_app. unfold references at 3. cbn. rewrite app_nil_r.
      apply submseteq_inserts_r. done.
  - intros s' (R' & HI'). by exists (R ++ R').
Qed.

Lemma gc_scan_loop_spec s :
  decref_inv L [] [] s -> (length L < fuel)%nat ->
  wp (list_for_each fuel lnk gcl (gc_scan_body objs gcl) s)
    (fun s => exists P, scan_inv P [] (references objs P) s).
Proof.
  intros (G & T & Hl & HGT & _ & HG & HT & Hh) Hf. rewrite app_nil_r in Hl.
  eapply (wp_for_each lnk gcl _ (fun P R s => scan_inv P R (references objs P) s)
    (length L)); [| | |exact Hf].
  - intros P R s' (T' & Hl' & HL & _). split; [by eapply two_lists_1|].
    rewrite <- HL, (length_app (P ++ R)). lia.
  - intros P x R s' HI. exact (gc_scan_body_spec _ _ _ _ HI).
  - exists T. cbn [app]. split_and!; try done.
    + intros p Hp. exists p. split_and!; [rewrite <- HGT; set_solver| |done].
      specialize (HG p Hp). rewrite occ_nil in HG. lia.
    + intros p Hp. eexists. split; [by apply Hh|]. by intros ?%elem_of_nil.
Qed.

Lemma gc_scan_children2_spec Q c counted s :
  (forall p, p ∈ L -> exists mk,
    hdrs s !! p = Some (mkHdr (ext p + occ p counted) mk) /\ Q p mk) ->
  counted ++ c ⊆+ references objs L -> c ⊆ L ->
  wp (each gc_scan_incref_child2 c s) (fun s' => lnk s' = lnk s /\
    forall p, p ∈ L -> exists mk,
      hdrs s' !! p = Some (mkHdr (ext p + occ p (counted ++ c)) mk) /\ Q p mk).
Proof.
  revert counted s. induction c as [|q c IH]; intros counted s Hh Hsub Hc.
  - cbn [each]. apply wp_ret. by rewrite app_nil_r.
  - cbn [each]. unfold gc_scan_incref_child2 at 1.
    destruct (Hh q) as (mk & Hhq & HQ); [set_solver|].
    rewrite (incr_ref_count_spec s q counted mk); [|set_solver| |done].
    2: { etrans; [|exact Hsub]. apply submseteq_app; [done|].
         apply submseteq_skip, submseteq_nil_l. }
    cbn [bind]. eapply wp_mono.
    + apply (IH (counted ++ [q])); [|by rewrite <- app_assoc|set_solver].
      intros p Hp. cbn [hdrs]. destruct (decide (p = q)) as [->|Hpq].
      * exists mk. by rewrite lookup_insert_eq.
      * rewrite lookup_insert_ne, occ_snoc_ne by done. by apply Hh.
    + intros s' [El Hh']. rewrite <- app_assoc in Hh'. by split.
Qed.

Lemma gc_scan_restore_spec Q T counted s :
  (forall p, p ∈ L -> exists mk,
    hdrs s !! p = Some (mkHdr (ext p + occ p counted) mk) /\ Q p mk) ->
  counted ++ references objs T ⊆+ references objs L -> T ⊆ L ->
  wp (each (gc_scan_body2 objs) T s) (fun s' => lnk s' = lnk s /\
    forall p, p ∈ L -> exists mk,
      hdrs s' !! p = Some (mkHdr (ext p + occ p (counted ++ references objs T)) mk)
      /\ Q p mk).
Proof.
  revert counted s. induction T as [|x T IH]; intros counted s Hh Hsub HT.
  - cbn [each]. apply wp_ret. unfold references. cbn. by rewrite app_nil_r.
  - cbn [each]. apply wp_bind. unfold gc_scan_body2 at 1.
    change (references objs (x :: T)) with (children objs x ++ references objs T) in *.
    rewrite with_children_eq by set_solver. rewrite app_assoc in Hsub |- *.
    eapply wp_mono; [apply gc_scan_children2_spec; [exact Hh| |]|].
    + etrans; [|exact Hsub]. by apply submseteq_inserts_r.
    + intros q. apply children_in. set_solver.
    + intros s1 [El Hh1]. eapply wp_mono; [apply IH; [exact Hh1|done|set_solver]|].
      intros s2 [El2 Hh2]. split; [congruence|done].
Qed.

Lemma keeps_links_each {X} (f : Z -> gc_state -> res gc_state) (g : X -> list Z) :
  keeps_links lnk f -> forall x s s', each f (g x) s = Ret s' -> lnk s' = lnk s.
Proof.
  intros Hf x. generalize (g x). intros l. induction l as [|y l IH]; intros s s' E.
  - by injection E as <-.
  - cbn [each] in E. destruct (f y s) as [s1| |] eqn:E1; [|done..]. cbn [bind] in E.
    rewrite (IH _ _ E). by apply (Hf y).
Qed.

Lemma gc_scan_body2_keeps : keeps_links lnk (gc_scan_body2 objs).
Proof.
  intros x s s'. unfold gc_scan_body2, with_children.
  destruct (mark_children objs x) as [l| |]; [|done..]. cbn [bind].
  apply (keeps_links_each _ (fun l => l)). clear x s s'. intros x s s'.
  unfold gc_scan_incref_child2, incr_ref_count, set_ref_count.
  destruct (get_hdr s x) as [h| |]; [|done..]. cbn [bind].
  destruct (ref_count h <? INT32_MAX); [|done]. by intros [= <-].
Qed.

(** What the collection leaves: [A] is kept and [T] is garbage. *)
Definition collected (s s' : gc_state) (A T : list Z) : Prop :=
  dlist (lnk s') gcl A /\ dlist (lnk s') tmp T /\ A ++ T ≡ₚ L /\
  (forall p, p ∈ L -> p ∈ A <-> reachable objs L ext p) /\
  (forall p, p ∈ A -> hdrs s' !! p = hdrs s !! p) /\
  (forall p, p ∈ T -> ref_count <$> hdrs s' !! p = ref_count <$> hdrs s !! p).

Lemma scan_inv_reachable P s p :
  scan_inv P [] (references objs P) s -> reachable objs L ext p -> p ∈ P.
Proof.
  intros (T & _ & HL & _ & HT & _) (r & Hr & Hext_r & Hrtc).
  rewrite app_nil_r in HL.
  assert (Hin : forall q, q ∈ L -> 0 < ext q + occ q (references objs P) -> q ∈ P).
  { intros q Hq Hpos. rewrite <- HL in Hq. apply elem_of_app in Hq as [?|Hq]; [done|].
    specialize (HT q Hq). lia. }
  assert (HrP : r ∈ P).
  { apply Hin; [done|]. pose proof (occ_nonneg r (references objs P)). lia. }
  clear Hr Hext_r. induction Hrtc as [x|x y z Hxy _ IH]; [done|]. apply IH.
  assert (HxL : x ∈ L) by (rewrite <- HL; set_solver).
  assert (HyL : y ∈ L) by (eapply children_in; [exact HxL|exact Hxy]).
  apply Hin; [done|]. destruct (Hext y HyL).
  assert (0 < occ y (references objs P)); [|lia].
  apply occ_pos. unfold references. apply list_elem_of_In, in_concat.
  exists (children objs x). split.
  - by apply list_elem_of_In, list_elem_of_fmap_2.
  - by apply list_elem_of_In.
Qed.

Lemma gc_detect_spec s :
  gc_wf objs gcl s L ext -> is_Some (lnk s !! tmp) -> tmp ∉ gcl :: L ->
  (length L < fuel)%nat ->
  wp (gc_detect objs gcl tmp fuel s) (fun s' => exists A T, collected s s' A T).
Proof.
  intros Hwf Htmp Hnin Hf. unfold gc_detect, gc_scan.
  apply wp_bind. eapply wp_mono; [by apply gc_decref_spec|]. intros s1 H1.
  apply wp_bind. eapply wp_mono; [by apply gc_scan_loop_spec|]. intros s2 (P & H2).
  pose proof (scan_inv_reachable P s2) as Hclosed.
  destruct (H2) as (T & Hl & HL & HA & HT & Hr & Hh). rewrite app_nil_r in *.
  rewrite (list_for_each_spec lnk tmp T); [|apply gc_scan_body2_keeps| |].
  2: { by eapply two_lists_2. }
  2: { assert (length (P ++ T) = length L) by (by rewrite HL). lens. }
  eapply wp_mono.
  { apply (gc_scan_restore_spec (fun p mk => p ∈ P -> mk = 0) T (references objs P));
      [exact Hh| |].
    - by rewrite <- references_app, HL.
    - intros p Hp. rewrite <- HL. set_solver. }
  intros s3 [El Hh3]. exists P, T. unfold collected. rewrite El.
  assert (Hh' : forall p, p ∈ L -> exists mk,
    hdrs s3 !! p = Some (mkHdr (ext p + occ p (references objs L)) mk)
    /\ (p ∈ P -> mk = 0)).
  { intros p Hp. assert (Hperm : references objs L ≡ₚ references objs P ++ references objs T)
      by (rewrite <- references_app; by rewrite HL).
    rewrite (occ_perm p _ _ Hperm). by apply Hh3. }
  split; [by eapply two_lists_1|]. split; [by eapply two_lists_2|].
  split; [done|]. split; [|split].
  - intros p HpL. split; [apply Hr|by apply Hclosed].
  - intros p Hp. assert (HpL : p ∈ L) by (rewrite <- HL; set_solver).
    destruct (Hh' p HpL) as (mk & -> & Hmk). rewrite (wf_hdr _ _ _ _ _ Hwf p HpL).
    by rewrite Hmk.
  - intros p Hp. assert (HpL : p ∈ L) by (rewrite <- HL; set_solver).
    destruct (Hh' p HpL) as (mk & -> & Hmk). by rewrite (wf_hdr _ _ _ _ _ Hwf p HpL).
Qed.
End collect.

(** ** Properties *)

(** C7.  The collector finds exactly the garbage.  On a heap whose reference
    counts are right, [gc_decref] and [gc_scan] terminate without a failed
    assertion, an overflow or an access to an unlinked element; they leave in
    [gc_obj_list] exactly the objects reachable from an object that is
    referenced from outside the heap, with their headers unchanged, and in
    [tmp_obj_list] all the others, with their reference counts restored. *)
Theorem gc_detect_correct objs gcl tmp fuel s L ext :
  gc_wf objs gcl s L ext -> is_Some (lnk s !! tmp) -> tmp ∉ gcl :: L ->
  (length L < fuel)%nat ->
  wp (gc_detect objs gcl tmp fuel s)
    (fun s' => exists A T, collected objs gcl tmp L ext s s' A T).
Proof.
  intros Hwf. eapply gc_detect_spec; [apply Hwf|apply Hwf|done].
Qed.

(** A self-referential function, and a shape used from outside. *)
Definition witness_objects : objects :=
  <[1 := JS_GC_OBJ_TYPE_FUNCTION_BYTECODE [mkValue JS_TAG_FUNCTION_BYTECODE 1] 0 None]>
  (<[2 := JS_GC_OBJ_TYPE_SHAPE None []]> ∅).

Definition witness_state : gc_state :=
  mkGc (<[1 := mkHdr 1 0]> (<[2 := mkHdr 1 0]> ∅))
    (<[10 := mkHead 2 1]> (<[1 := mkHead 10 2]> (<[2 := mkHead 1 10]>
      (<[11 := mkHead 0 0]> ∅)))).

Lemma gc_detect_correct_witness :
  wp (gc_detect witness_objects 10 11 3 witness_state)
    (fun s' => exists A T, collected witness_objects 10 11 [1; 2]
      (fun p => if p =? 2 then 1 else 0) witness_state s' A T).
Proof.
  apply gc_detect_correct.
  - split.
    + split; [|repeat split; vm_compute; reflexivity].
      repeat (apply NoDup_cons; split; [set_solver|]). apply NoDup_nil_2.
    + intros p Hp. rewrite !elem_of_cons, elem_of_nil in Hp.
      destruct Hp as [->|[->|[]]]; eexists; (split; [vm_compute; reflexivity|]);
        set_solver.
    + intros p Hp. rewrite !elem_of_cons, elem_of_nil in Hp.
      destruct Hp as [->|[->|[]]]; vm_compute; split; discriminate.
    + intros p Hp. rewrite !elem_of_cons, elem_of_nil in Hp.
      destruct Hp as [->|[->|[]]]; vm_compute; reflexivity.
  - by eexists.
  - set_solver.
  - simpl. lia.
Defined.
