(* ===== verification/Atoms.v ===== *)
(** * Atoms ([quickjs.c], [quickjs-atom.h])

    The intern table of strings and symbols: an array of pointers to string
    structures with a free list threaded through the unused slots, and a hash
    table whose chains go through [hash_next].  Strings live in a store by
    address; the allocator is a parameter. *)

From Stdlib Require Import String.
From stdpp Require Import base tactics numbers list option gmap.
From Stdlib Require Import ZArith Lia.
From S2P Require Import Prelude Cutils.

Open Scope Z_scope.

(** ** Data *)

Definition JS_ATOM_TYPE_STRING : Z := 1.
Definition JS_ATOM_TYPE_GLOBAL_SYMBOL : Z := 2.
Definition JS_ATOM_TYPE_SYMBOL : Z := 3.
Definition JS_ATOM_TYPE_PRIVATE : Z := 4.
Definition JS_ATOM_HASH_SYMBOL : Z := 0.
Definition JS_ATOM_HASH_PRIVATE : Z := 1.
Definition JS_ATOM_HASH_MASK : Z := Z.shiftl 1 30 - 1.
Definition JS_ATOM_TAG_INT : Z := Z.shiftl 1 31.
Definition JS_ATOM_MAX_INT : Z := JS_ATOM_TAG_INT - 1.
Definition JS_ATOM_MAX : Z := Z.shiftl 1 30 - 1.
Definition JS_ATOM_NULL : Z := 0.

Inductive JSAtomKindEnum :=
  | JS_ATOM_KIND_STRING
  | JS_ATOM_KIND_SYMBOL
  | JS_ATOM_KIND_PRIVATE.

(** The header of 16 bytes that comes before the characters. *)
Definition sizeof_JSString : Z := 16.

(** A string or atom structure; [len] is the number of [chars]. *)
Record JSString := mkString {
  ref_count : Z;
  is_wide_char : bool;
  chars : list Z;
  hash : Z;
  atom_type : Z;
  hash_next : Z
}.

Definition len (s : JSString) : Z := Z.of_nat (length (chars s)).

Definition with_ref_count (s : JSString) (n : Z) : JSString :=
  mkString n (is_wide_char s) (chars s) (hash s) (atom_type s) (hash_next s).

Definition with_hash_next (s : JSString) (n : Z) : JSString :=
  mkString (ref_count s) (is_wide_char s) (chars s) (hash s) (atom_type s) n.

Definition with_atom (s : JSString) (h ty n : Z) : JSString :=
  mkString (ref_count s) (is_wide_char s) (chars s) h ty n.

(** The names of [quickjs-atom.h] (without [CONFIG_BIGNUM]). *)
Definition js_atom_init : list string := [
  "null"; "false"; "true"; "if"; "else"; "return"; "var"; "this"; "delete";
  "void"; "typeof"; "new"; "in"; "instanceof"; "do"; "while"; "for";
  "break"; "continue"; "switch"; "case"; "default"; "throw"; "try";
  "catch"; "finally"; "function"; "debugger"; "with"; "class"; "const";
  "enum"; "export"; "extends"; "import"; "super"; "implements";
  "interface"; "let"; "package"; "private"; "protected"; "public";
  "static"; "yield"; "await"; EmptyString; "length"; "fileName"; "lineNumber";
  "message"; "errors"; "stack"; "name"; "toString"; "toLocaleString";
  "valueOf"; "eval"; "prototype"; "constructor"; "configurable";
  "writable"; "enumerable"; "value"; "get"; "set"; "of"; "__proto__";
  "undefined"; "number"; "boolean"; "string"; "object"; "symbol";
  "integer"; "unknown"; "arguments"; "callee"; "caller"; "<eval>"; "<ret>";
  "<var>"; "<arg_var>"; "<with>"; "lastIndex"; "target"; "index"; "input";
  "defineProperties"; "apply"; "join"; "concat"; "split"; "construct";
  "getPrototypeOf"; "setPrototypeOf"; "isExtensible"; "preventExtensions";
  "has"; "deleteProperty"; "defineProperty"; "getOwnPropertyDescriptor";
  "ownKeys"; "add"; "done"; "next"; "values"; "source"; "flags"; "global";
  "unicode"; "raw"; "new.target"; "this.active_func"; "<home_object>";
  "<computed_field>"; "<static_computed_field>"; "<class_fields_init>";
  "<brand>"; "#constructor"; "as"; "from"; "meta"; "*default*"; "*";
  "Module"; "then"; "resolve"; "reject"; "promise"; "proxy"; "revoke";
  "async"; "exec"; "groups"; "status"; "reason"; "globalThis"; "not-equal";
  "timed-out"; "ok"; "toJSON"; "Object"; "Array"; "Error"; "Number";
  "String"; "Boolean"; "Symbol"; "Arguments"; "Math"; "JSON"; "Date";
  "Function"; "GeneratorFunction"; "ForInIterator"; "RegExp";
  "ArrayBuffer"; "SharedArrayBuffer"; "Uint8ClampedArray"; "Int8Array";
  "Uint8Array"; "Int16Array"; "Uint16Array"; "Int32Array"; "Uint32Array";
  "Float32Array"; "Float64Array"; "DataView"; "Map"; "Set"; "WeakMap";
  "WeakSet"; "Map Iterator"; "Set Iterator"; "Array Iterator";
  "String Iterator"; "RegExp String Iterator"; "Generator"; "Proxy";
  "Promise"; "PromiseResolveFunction"; "PromiseRejectFunction";
  "AsyncFunction"; "AsyncFunctionResolve"; "AsyncFunctionReject";
  "AsyncGeneratorFunction"; "AsyncGenerator"; "EvalError"; "RangeError";
  "ReferenceError"; "SyntaxError"; "TypeError"; "URIError";
  "InternalError"; "<brand>"; "Symbol.toPrimitive"; "Symbol.iterator";
  "Symbol.match"; "Symbol.matchAll"; "Symbol.replace"; "Symbol.search";
  "Symbol.split"; "Symbol.toStringTag"; "Symbol.isConcatSpreadable";
  "Symbol.hasInstance"; "Symbol.species"; "Symbol.unscopables";
  "Symbol.asyncIterator"
]%string.

Definition JS_ATOM_END : Z := Z.of_nat (length js_atom_init) + 1.
Definition JS_ATOM_Private_brand : Z := 196.
Definition JS_ATOM_Symbol_toPrimitive : Z := 197.

(** ** The allocator

    It sees the addresses of the live strings.  The arrays of the runtime are
    values, so their allocation is a success or a failure. *)
Class JSMalloc := {
  mheap : Type;
  js_malloc_rt : mheap -> gset Z -> Z -> mheap * option Z;
  js_realloc_rt : mheap -> Z -> mheap * bool
}.

(** What [malloc] documents: a non null aligned address outside the live
    blocks. *)
Class JSMallocOk (al : JSMalloc) : Prop :=
  js_malloc_spec : forall h live n h' p,
    js_malloc_rt h live n = (h', Some p) -> (p ∉ live) /\ 0 < p /\ Z.even p = true.

(** Slots of [atom_array]: the address of a structure, or an odd number. *)
Definition atom_get_free (p : Z) : Z := u32 (Z.shiftr p 1).
Definition atom_is_free (p : Z) : bool := negb (Z.land p 1 =? 0).
Definition atom_set_free (v : Z) : Z := Z.lor (Z.shiftl v 1) 1.

Definition __JS_AtomIsConst (v : Z) : bool := i32 v <? JS_ATOM_END.
Definition __JS_AtomIsTaggedInt (v : Z) : bool :=
  negb (Z.land v JS_ATOM_TAG_INT =? 0).
Definition __JS_AtomFromUInt32 (v : Z) : Z := Z.lor v JS_ATOM_TAG_INT.
Definition __JS_AtomToUInt32 (atom : Z) : Z :=
  Z.land atom (u32 (Z.lnot JS_ATOM_TAG_INT)).

Definition JS_ATOM_COUNT_RESIZE (n : Z) : Z := n * 2.

(** ** Strings *)

(** [memcmp], [memcmp16_8] and [memcmp16] on the first [len] characters. *)
Definition memcmp_chars (src1 src2 : list Z) (len : Z) : res Z :=
  loop (S (Z.to_nat len)) (fun i =>
    if i <? len then
      let* a := rd src1 i in
      let* b := rd src2 i in
      let c := a - b in
      if negb (c =? 0) then Ret (inr c) else Ret (inl (i + 1))
    else Ret (inr 0)) 0.

Definition js_string_memcmp (p1 p2 : JSString) (len : Z) : res Z :=
  if negb (is_wide_char p1) then
    if negb (is_wide_char p2) then memcmp_chars (chars p1) (chars p2) len
    else let* r := memcmp_chars (chars p2) (chars p1) len in Ret (- r)
  else memcmp_chars (chars p1) (chars p2) len.

(** return < 0, 0 or > 0 *)
Definition js_string_compare (p1 p2 : JSString) : res Z :=
  let n := Z.min (len p1) (len p2) in
  let* res := js_string_memcmp p1 p2 n in
  if res =? 0 then
    if len p1 =? len p2 then Ret 0
    else if len p1 <? len p2 then Ret (-1) else Ret 1
  else Ret res.

Definition is_num (c : Z) : bool := (48 <=? c) && (c <=? 57).

(** [Some n] when the string is a number n with 0 <= n <= 2^32-1. *)
Definition is_num_string (p : JSString) : res (option Z) :=
  let len := len p in
  if (len =? 0) || (10 <? len) then Ret None
  else
    let* c := rd (chars p) 0 in
    if is_num c then
      if c =? 48 then
        if negb (len =? 1) then Ret None else Ret (Some 0)
      else
        loop (S (Z.to_nat len)) (fun '(i, n) =>
          if i <? len then
            let* c := rd (chars p) i in
            if negb (is_num c) then Ret (inr None)
            else
              let n64 := u64 (u64 (n * 10) + (c - 48)) in
              if negb (Z.shiftr n64 32 =? 0) then Ret (inr None)
              else Ret (inl (i + 1, u32 n64))
          else Ret (inr (Some n))) (1, c - 48)
    else Ret None.

(** [hash_string8] and [hash_string16] *)
Fixpoint hash_chars (str : list Z) (h : Z) : Z :=
  match str with
  | [] => h
  | c :: str => hash_chars str (u32 (h * 263 + c))
  end.

Definition hash_string (str : JSString) (h : Z) : Z := hash_chars (chars str) h.

(** ** The runtime *)

Section atoms.
Context {al : JSMalloc}.

Record JSRuntime := mkRt {
  mem : mheap;
  strings : gmap Z JSString;
  atom_hash_size : Z;
  atom_count : Z;
  atom_size : Z;
  atom_count_resize : Z;
  atom_hash : list Z;
  atom_array : list Z;
  atom_free_index : Z
}.

Definition set_strings (rt : JSRuntime) (m : gmap Z JSString) : JSRuntime :=
  mkRt (mem rt) m (atom_hash_size rt) (atom_count rt) (atom_size rt)
    (atom_count_resize rt) (atom_hash rt) (atom_array rt) (atom_free_index rt).

Definition set_mem (rt : JSRuntime) (h : mheap) : JSRuntime :=
  mkRt h (strings rt) (atom_hash_size rt) (atom_count rt) (atom_size rt)
    (atom_count_resize rt) (atom_hash rt) (atom_array rt) (atom_free_index rt).

Definition set_hash (rt : JSRuntime) (t : list Z) : JSRuntime :=
  mkRt (mem rt) (strings rt) (atom_hash_size rt) (atom_count rt) (atom_size rt)
    (atom_count_resize rt) t (atom_array rt) (atom_free_index rt).

(** [atom_array], [atom_free_index] and [atom_count] together. *)
Definition set_slots (rt : JSRuntime) (count : Z) (a : list Z) (free : Z)
  : JSRuntime :=
  mkRt (mem rt) (strings rt) (atom_hash_size rt) count (atom_size rt)
    (atom_count_resize rt) (atom_hash rt) a free.

Definition get_str (rt : JSRuntime) (p : Z) : res JSString :=
  match strings rt !! p with Some s => Ret s | None => Ub end.

Definition put_str (rt : JSRuntime) (p : Z) (s : JSString) : JSRuntime :=
  set_strings rt (<[p := s]> (strings rt)).

(** [js_free_rt] of a string structure. *)
Definition free_str (rt : JSRuntime) (p : Z) : JSRuntime :=
  set_strings rt (delete p (strings rt)).

Definition malloc_str (rt : JSRuntime) (size : Z) : JSRuntime * option Z :=
  let (h, p) := js_malloc_rt (mem rt) (dom (strings rt)) size in
  (set_mem rt h, p).

(** A chain of [hash_next] is shorter than the array. *)
Definition chain_fuel (rt : JSRuntime) : nat := S (S (length (atom_array rt))).

Definition hash_mask (rt : JSRuntime) : Z := u32 (atom_hash_size rt - 1).

(** ** Hash table *)

(** The loop over one chain of [JS_ResizeAtomHash]. *)
Definition resize_chain (rt : JSRuntime) (new_hash_mask h : Z) (new_hash : list Z)
  : res (JSRuntime * list Z) :=
  loop (chain_fuel rt) (fun '(rt, h, new_hash) =>
    if negb (h =? 0) then
      let* p := rd (atom_array rt) h in
      let* s := get_str rt p in
      let hash_next1 := hash_next s in
      (* add in new hash table *)
      let j := Z.land (hash s) new_hash_mask in
      let* n := rd new_hash j in
      let rt := put_str rt p (with_hash_next s n) in
      let* new_hash := wr new_hash j h in
      Ret (inl (rt, hash_next1, new_hash))
    else Ret (inr (rt, new_hash))) (rt, h, new_hash).

(** The boolean is false for the error return. *)
Definition JS_ResizeAtomHash (rt : JSRuntime) (new_hash_size : Z)
  : res (JSRuntime * bool) :=
  let* _ := c_assert (Z.land new_hash_size (new_hash_size - 1) =? 0) in
  let new_hash_mask := u32 (new_hash_size - 1) in
  let (h, ok) := js_realloc_rt (mem rt) new_hash_size in
  let rt := set_mem rt h in
  if negb ok then Ret (rt, false)
  else
    let new_hash := replicate (Z.to_nat new_hash_size) 0 in
    let* r :=
      for_upto (Z.to_nat (atom_hash_size rt)) 0 (fun i '(rt, new_hash) =>
        let* h := rd (atom_hash rt) i in
        resize_chain rt new_hash_mask h new_hash) (rt, new_hash) in
    let (rt, new_hash) := r : JSRuntime * list Z in
    Ret (mkRt (mem rt) (strings rt) new_hash_size (atom_count rt) (atom_size rt)
           (JS_ATOM_COUNT_RESIZE new_hash_size) new_hash (atom_array rt)
           (atom_free_index rt), true).

(** ** Reference counts of atoms *)

Definition add_ref (rt : JSRuntime) (p n : Z) : res JSRuntime :=
  let* s := get_str rt p in
  Ret (put_str rt p (with_ref_count s (ref_count s + n))).

Definition JS_DupAtomRT (rt : JSRuntime) (v : Z) : res (JSRuntime * Z) :=
  if negb (__JS_AtomIsConst v) then
    let* p := rd (atom_array rt) v in
    let* rt := add_ref rt p 1 in
    Ret (rt, v)
  else Ret (rt, v).

Definition JS_AtomGetKind (rt : JSRuntime) (v : Z) : res JSAtomKindEnum :=
  if __JS_AtomIsTaggedInt v then Ret JS_ATOM_KIND_STRING
  else
    let* p := rd (atom_array rt) v in
    let* s := get_str rt p in
    if atom_type s =? JS_ATOM_TYPE_STRING then Ret JS_ATOM_KIND_STRING
    else if atom_type s =? JS_ATOM_TYPE_GLOBAL_SYMBOL then Ret JS_ATOM_KIND_SYMBOL
    else if atom_type s =? JS_ATOM_TYPE_SYMBOL then
      if hash s =? JS_ATOM_HASH_SYMBOL then Ret JS_ATOM_KIND_SYMBOL
      else if hash s =? JS_ATOM_HASH_PRIVATE then Ret JS_ATOM_KIND_PRIVATE
      else Ub
    else Ub.

Definition JS_AtomIsString (rt : JSRuntime) (v : Z) : res bool :=
  let* k := JS_AtomGetKind rt v in
  match k with JS_ATOM_KIND_STRING => Ret true | _ => Ret false end.

Definition js_get_atom_index (rt : JSRuntime) (p : Z) : res Z :=
  let* s := get_str rt p in
  let i := hash_next s in (* atom_index *)
  if negb (atom_type s =? JS_ATOM_TYPE_SYMBOL) then
    let* i := rd (atom_hash rt) (Z.land (hash s) (hash_mask rt)) in
    let* p1 := rd (atom_array rt) i in
    loop (chain_fuel rt) (fun '(i, p1) =>
      if negb (p1 =? p) then
        let* _ := c_assert (negb (i =? 0)) in
        let* s1 := get_str rt p1 in
        let i := hash_next s1 in
        let* p1 := rd (atom_array rt) i in
        Ret (inl (i, p1))
      else Ret (inr i)) (i, p1)
  else Ret i.

(** ** Freeing *)

(** Unlink the structure [p] from the chain of its bucket: the runtime and
    the index of the atom. *)
Definition unlink_atom (rt : JSRuntime) (p : Z) (s : JSString)
  : res (JSRuntime * Z) :=
  let h0 := Z.land (hash s) (hash_mask rt) in
  let* i := rd (atom_hash rt) h0 in
  let* p1 := rd (atom_array rt) i in
  if p1 =? p then
    let* s1 := get_str rt p1 in
    let* t := wr (atom_hash rt) h0 (hash_next s1) in
    Ret (set_hash rt t, i)
  else
    loop (chain_fuel rt) (fun '(i, p1) =>
      let* _ := c_assert (negb (i =? 0)) in
      let p0 := p1 in
      let* s0 := get_str rt p0 in
      let i := hash_next s0 in
      let* p1 := rd (atom_array rt) i in
      if p1 =? p then
        let* s1 := get_str rt p1 in
        Ret (inr (put_str rt p0 (with_hash_next s0 (hash_next s1)), i))
      else Ret (inl (i, p1))) (i, p1).

Definition JS_FreeAtomStruct (rt : JSRuntime) (p : Z) : res JSRuntime :=
  let* s := get_str rt p in
  let i := hash_next s in (* atom_index *)
  let* r :=
    if negb (atom_type s =? JS_ATOM_TYPE_SYMBOL) then unlink_atom rt p s
    else Ret (rt, i) in
  let (rt, i) := r : JSRuntime * Z in
  (* insert in free atom list *)
  let* a := wr (atom_array rt) i (atom_set_free (atom_free_index rt)) in
  let rt := set_slots rt (atom_count rt - 1) a i in
  (* free the string structure *)
  let rt := free_str rt p in
  let* _ := c_assert (0 <=? atom_count rt) in
  Ret rt.

Definition __JS_FreeAtom (rt : JSRuntime) (i : Z) : res JSRuntime :=
  let* p := rd (atom_array rt) i in
  let* s := get_str rt p in
  let n := ref_count s - 1 in
  let rt := put_str rt p (with_ref_count s n) in
  if 0 <? n then Ret rt else JS_FreeAtomStruct rt p.

Definition JS_FreeAtom (rt : JSRuntime) (v : Z) : res JSRuntime :=
  if negb (__JS_AtomIsConst v) then __JS_FreeAtom rt v else Ret rt.

Definition js_free_string (rt : JSRuntime) (p : Z) : res JSRuntime :=
  let* s := get_str rt p in
  let n := ref_count s - 1 in
  let rt := put_str rt p (with_ref_count s n) in
  if n <=? 0 then
    if negb (atom_type s =? 0) then JS_FreeAtomStruct rt p
    else Ret (free_str rt p)
  else Ret rt.

(** ** New atoms *)

(** The search of [__JS_NewAtom] in the chain that starts at [i]; 0 when the
    atom is not registered. *)
Definition find_atom (rt : JSRuntime) (h aty : Z) (str : JSString) (i : Z) : res Z :=
  loop (chain_fuel rt) (fun i =>
    if negb (i =? 0) then
      let* p := rd (atom_array rt) i in
      let* a := get_str rt p in
      let* found :=
        if (hash a =? h) && (atom_type a =? aty) && (len a =? len str) then
          let* c := js_string_memcmp a str (len str) in Ret (c =? 0)
        else Ret false in
      if found : bool then Ret (inr i) else Ret (inl (hash_next a))
    else Ret (inr 0)) i.

(** Allow new atom entries; the boolean is false for [goto fail]. *)
Definition grow_atoms (rt : JSRuntime) : res (JSRuntime * bool) :=
  let n := atom_size rt * 3 in
  if INT32_MAX <? n then Ub
  else
    let new_size := Z.max 211 (n / 2) in
    if JS_ATOM_MAX <? new_size then Ret (rt, false)
    else
      let (h, ok) := js_realloc_rt (mem rt) new_size in
      let rt := set_mem rt h in
      if negb ok then Ret (rt, false)
      else
        (* the new cells are all written below *)
        let new_array := atom_array rt
          ++ replicate (Z.to_nat (new_size - atom_size rt)) 0 in
        let start := atom_size rt in
        let* r :=
          if start =? 0 then
            (* JS_ATOM_NULL entry *)
            match malloc_str rt sizeof_JSString with
            | (rt, None) => Ret (rt, None)
            | (rt, Some p) =>
                (* ref_count = 1: not refcounted *)
                let rt := put_str rt p
                  (mkString 1 false [] 0 JS_ATOM_TYPE_SYMBOL 0) in
                let* new_array := wr new_array 0 p in
                Ret (set_slots rt (atom_count rt + 1) (atom_array rt)
                       (atom_free_index rt), Some (new_array, 1))
            end
          else Ret (rt, Some (new_array, start)) in
        match r with
        | (rt, None) => Ret (rt, false)
        | (rt, Some (new_array, start)) =>
            let* new_array :=
              for_upto (Z.to_nat (new_size - start)) start (fun i a =>
                let next := if i =? new_size - 1 then 0 else i + 1 in
                wr a i (atom_set_free next)) new_array in
            Ret (mkRt (mem rt) (strings rt) (atom_hash_size rt) (atom_count rt)
                   new_size (atom_count_resize rt) (atom_hash rt) new_array start,
                 true)
        end.

(** The structure of the new atom: the string itself, a copy of it when it is
    an atom of another type, or an empty wide string.  [None] is the failure
    of an allocation. *)
Definition new_atom_struct (rt : JSRuntime) (str : option Z) (aty : Z)
  : res (JSRuntime * option Z) :=
  match str with
  | Some sp =>
      let* s := get_str rt sp in
      if atom_type s =? 0 then
        Ret (put_str rt sp (with_atom s (hash s) aty (hash_next s)), Some sp)
      else
        let w := if is_wide_char s then 1 else 0 in
        match malloc_str rt (sizeof_JSString + Z.shiftl (len s) w + 1 - w) with
        | (rt, None) => Ret (rt, None)
        | (rt, Some p) =>
            (* hash, atom_type and hash_next are written below *)
            let rt := put_str rt p (mkString 1 (is_wide_char s) (chars s) 0 0 0) in
            let* rt := js_free_string rt sp in
            Ret (rt, Some p)
        end
  | None =>
      match malloc_str rt sizeof_JSString with
      | (rt, None) => Ret (rt, None)
      | (rt, Some p) => Ret (put_str rt p (mkString 1 true [] 0 0 0), Some p)
      end
  end.

(** Use an already free entry. *)
Definition link_atom (rt : JSRuntime) (p aty h h1 : Z) : res (JSRuntime * Z) :=
  let i := atom_free_index rt in
  let* e := rd (atom_array rt) i in
  let* a := wr (atom_array rt) i p in
  let rt := set_slots rt (atom_count rt) a (atom_get_free e) in
  let* s := get_str rt p in
  let rt := put_str rt p (with_atom s h aty i) in
  let rt := set_slots rt (atom_count rt + 1) (atom_array rt) (atom_free_index rt) in
  if negb (aty =? JS_ATOM_TYPE_SYMBOL) then
    let* n := rd (atom_hash rt) h1 in
    let rt := put_str rt p (with_atom s h aty n) in
    let* t := wr (atom_hash rt) h1 i in
    let rt := set_hash rt t in
    if atom_count_resize rt <=? atom_count rt then
      let* r := JS_ResizeAtomHash rt (atom_hash_size rt * 2) in
      Ret (fst r, i)
    else Ret (rt, i)
  else Ret (rt, i).

Definition new_atom_fail (rt : JSRuntime) (str : option Z) : res (JSRuntime * Z) :=
  match str with
  | Some sp => let* rt := js_free_string rt sp in Ret (rt, JS_ATOM_NULL)
  | None => Ret (rt, JS_ATOM_NULL)
  end.

(** [__JS_NewAtom] after the search. *)
Definition new_atom (rt : JSRuntime) (str : option Z) (aty h h1 : Z)
  : res (JSRuntime * Z) :=
  let* r := if atom_free_index rt =? 0 then grow_atoms rt else Ret (rt, true) in
  let (rt, ok) := r : JSRuntime * bool in
  if negb ok then new_atom_fail rt str
  else
    let* r := new_atom_struct rt str aty in
    match r with
    | (rt, Some p) => link_atom rt p aty h h1
    | (rt, None) => new_atom_fail rt str
    end.

(** Returns [JS_ATOM_NULL] if error. 'str' is freed. *)
Definition __JS_NewAtom (rt : JSRuntime) (str : option Z) (aty : Z)
  : res (JSRuntime * Z) :=
  if aty <? JS_ATOM_TYPE_SYMBOL then
    match str with
    | None => Ub
    | Some sp =>
        let* s := get_str rt sp in
        if atom_type s =? aty then
          (* str is the atom, return its index *)
          let* i := js_get_atom_index rt sp in
          (* reduce string refcount and increase atom's unless constant *)
          if __JS_AtomIsConst i then
            let* rt := add_ref rt sp (-1) in Ret (rt, i)
          else Ret (rt, i)
        else
          (* try and locate an already registered atom *)
          let h := Z.land (hash_string s aty) JS_ATOM_HASH_MASK in
          let h1 := Z.land h (hash_mask rt) in
          let* i := rd (atom_hash rt) h1 in
          let* i := find_atom rt h aty s i in
          if negb (i =? 0) then
            let* rt :=
              if negb (__JS_AtomIsConst i) then
                let* p := rd (atom_array rt) i in add_ref rt p 1
              else Ret rt in
            let* rt := js_free_string rt sp in
            Ret (rt, i)
          else new_atom rt str aty h h1
    end
  else if aty =? JS_ATOM_TYPE_SYMBOL then
    new_atom rt str aty JS_ATOM_HASH_SYMBOL 0
  else new_atom rt str JS_ATOM_TYPE_SYMBOL JS_ATOM_HASH_PRIVATE 0.

Definition js_alloc_string_rt (rt : JSRuntime) (data : list Z) (wide : bool)
  : JSRuntime * option Z :=
  let w := if wide then 1 else 0 in
  match malloc_str rt (sizeof_JSString + Z.shiftl (Z.of_nat (length data)) w + 1 - w) with
  | (rt, None) => (rt, None)
  | (rt, Some p) => (put_str rt p (mkString 1 wide data 0 0 0), Some p)
  end.

Definition __JS_NewAtomInit (rt : JSRuntime) (str : list Z) (aty : Z)
  : res (JSRuntime * Z) :=
  match js_alloc_string_rt rt str false with
  | (rt, None) => Ret (rt, JS_ATOM_NULL)
  | (rt, Some p) => __JS_NewAtom rt (Some p) aty
  end.

(** The loop of [JS_InitAtoms] from the atom [i]; false for an error. *)
Fixpoint init_atoms (rt : JSRuntime) (i : Z) (names : list string)
  : res (JSRuntime * bool) :=
  match names with
  | [] => Ret (rt, true)
  | name :: names =>
      let aty :=
        if i =? JS_ATOM_Private_brand then JS_ATOM_TYPE_PRIVATE
        else if JS_ATOM_Symbol_toPrimitive <=? i then JS_ATOM_TYPE_SYMBOL
        else JS_ATOM_TYPE_STRING in
      let* r := __JS_NewAtomInit rt (c_chars name) aty in
      let (rt, a) := r : JSRuntime * Z in
      if a =? JS_ATOM_NULL then Ret (rt, false) else init_atoms rt (i + 1) names
  end.

Definition JS_InitAtoms (h : mheap) : res (JSRuntime * bool) :=
  let rt := mkRt h ∅ 0 0 0 0 [] [] 0 in
  (* there are at least 195 predefined atoms *)
  let* r := JS_ResizeAtomHash rt 256 in
  let (rt, ok) := r : JSRuntime * bool in
  if negb ok then Ret (rt, false) else init_atoms rt 1 js_atom_init.

(** [memcmp] with a string of 8 bit characters. *)
Definition __JS_FindAtom (rt : JSRuntime) (str : list Z) : res (JSRuntime * Z) :=
  let n := Z.of_nat (length str) in
  let h := Z.land (hash_chars str JS_ATOM_TYPE_STRING) JS_ATOM_HASH_MASK in
  let h1 := Z.land h (hash_mask rt) in
  let* i := rd (atom_hash rt) h1 in
  loop (chain_fuel rt) (fun i =>
    if negb (i =? 0) then
      let* p := rd (atom_array rt) i in
      let* a := get_str rt p in
      let* found :=
        if (hash a =? h) && (atom_type a =? JS_ATOM_TYPE_STRING)
           && (len a =? n) && negb (is_wide_char a) then
          let* c := memcmp_chars (chars a) str n in Ret (c =? 0)
        else Ret false in
      if found : bool then
        let* rt := if negb (__JS_AtomIsConst i) then add_ref rt p 1 else Ret rt in
        Ret (inr (rt, i))
      else Ret (inl (hash_next a))
    else Ret (inr (rt, JS_ATOM_NULL))) i.

(** Warning: 'p' is freed *)
Definition JS_NewAtomStr (rt : JSRuntime) (p : Z) : res (JSRuntime * Z) :=
  let* s := get_str rt p in
  let* n := is_num_string s in
  match n with
  | Some n =>
      if n <=? JS_ATOM_MAX_INT then
        let* rt := js_free_string rt p in
        Ret (rt, __JS_AtomFromUInt32 n)
      else __JS_NewAtom rt (Some p) JS_ATOM_TYPE_STRING
  | None =>
      (* XXX: should generate an exception *)
      __JS_NewAtom rt (Some p) JS_ATOM_TYPE_STRING
  end.
End atoms.
