(* ===== verification/AtomsSpec.v ===== *)
(** * The intern table refines a finite map of atoms

    [atoms_wf rt T F] says that the runtime holds the table [T] of atoms by
    index, with the free slots [F]: the array, the free list threaded through
    it and the chains of the hash table are consistent, and no two interned
    strings of a type have the same characters. *)

From Stdlib Require Import String.
From stdpp Require Import base tactics numbers list option sets gmap.
From Stdlib Require Import ZArith Lia.
From S2P Require Import Prelude Atoms.

Open Scope Z_scope.

(** ** Abstract atoms *)

Record atom := mkAtom {
  a_ptr : Z;
  a_rc : Z;
  a_wide : bool;
  a_chars : list Z;
  a_hash : Z;
  a_type : Z
}.

Abbreviation table := (gmap Z atom).

(** The structure of an atom whose [hash_next] is [n]. *)
Definition str_of (a : atom) (n : Z) : JSString :=
  mkString (a_rc a) (a_wide a) (a_chars a) (a_hash a) (a_type a) n.

Definition set_rc (a : atom) (rc : Z) : atom :=
  mkAtom (a_ptr a) rc (a_wide a) (a_chars a) (a_hash a) (a_type a).

(** Atoms that are in the hash table. *)
Definition interned (a : atom) : Prop := a_type a <> JS_ATOM_TYPE_SYMBOL.

Definition key_hash (ty : Z) (cs : list Z) : Z :=
  Z.land (hash_chars cs ty) JS_ATOM_HASH_MASK.

(** ** Bits of the slots and of the hash *)

Lemma atom_set_free_eq v : atom_set_free v = 2 * v + 1.
Proof.
  unfold atom_set_free. rewrite Z.shiftl_mul_pow2 by lia.
  rewrite lor_add_low; lia.
Qed.

Lemma atom_get_set_free v : 0 <= v < 2 ^ 32 -> atom_get_free (atom_set_free v) = v.
Proof.
  intros Hv. unfold atom_get_free. rewrite atom_set_free_eq, Z.shiftr_div_pow2 by lia.
  rewrite u32_id; dlia.
Qed.

Lemma land_pow2_mod a k : 0 <= k -> Z.land a (2 ^ k - 1) = a mod 2 ^ k.
Proof. intros. rewrite <- Z.land_ones by lia. by rewrite Z.ones_equiv, Z.sub_1_r. Qed.

Lemma key_hash_bound ty cs : 0 <= key_hash ty cs < 2 ^ 30.
Proof.
  unfold key_hash, JS_ATOM_HASH_MASK. rewrite Z.shiftl_1_l, land_pow2_mod by lia.
  apply Z.mod_pos_bound. lia.
Qed.

(** ** Chains of [hash_next] *)

Fixpoint chain (N : gmap Z Z) (h : Z) (l : list Z) : Prop :=
  match l with
  | [] => h = 0
  | i :: l => h = i /\ i <> 0 /\ exists n, N !! i = Some n /\ chain N n l
  end.

Lemma chain_frame N N' h l :
  chain N h l -> (forall i, i ∈ l -> N' !! i = N !! i) -> chain N' h l.
Proof.
  revert h. induction l as [|i l IH]; intros h; [done|].
  intros (-> & Hi & n & Hn & Hl) HN. split; [done|]. split; [done|].
  exists n. split; [by rewrite HN by left|]. apply IH; [done|].
  intros j Hj. apply HN. by right.
Qed.

Lemma chain_insert_ne N h l i n : chain N h l -> i ∉ l -> chain (<[i := n]> N) h l.
Proof.
  intros Hc Hi. eapply chain_frame; [exact Hc|]. intros j Hj.
  apply lookup_insert_ne. by intros ->.
Qed.

Lemma chain_nonzero N h l i : chain N h l -> i ∈ l -> i <> 0.
Proof.
  revert h. induction l as [|j l IH]; intros h; [by intros _ ?%elem_of_nil|].
  intros (-> & Hj & n & _ & Hl) [->|Hi]%elem_of_cons; [done|eauto].
Qed.

(** Lists of indexes without repetition. *)
Lemma index_list_length l n :
  NoDup l -> (forall i, i ∈ l -> 0 <= i < Z.of_nat n) -> (length l <= n)%nat.
Proof.
  intros Hnd Hl. rewrite <- (length_seq n 0), <- (length_fmap Z.of_nat).
  apply submseteq_length, NoDup_submseteq; [done|]. intros i Hi.
  apply list_elem_of_fmap. exists (Z.to_nat i). specialize (Hl i Hi).
  split; [lia|]. apply elem_of_seq. lia.
Qed.

(** ** The parts of the invariant *)

(** The array and the string structures hold the table [T], with the links
    [N]. *)
Record core (S : gmap Z JSString) (arr : list Z) (T : table) (N : gmap Z Z)
  : Prop := {
  core_atom : forall i a, T !! i = Some a ->
    0 <= i /\ arr !! Z.to_nat i = Some (a_ptr a) /\
    (exists n, N !! i = Some n /\ S !! a_ptr a = Some (str_of a n)) /\
    1 <= a_type a <= 3;
  core_inj : forall i j a b, T !! i = Some a -> T !! j = Some b ->
    a_ptr a = a_ptr b -> i = j;
  core_str : forall p s, S !! p = Some s -> 0 < p /\ Z.even p = true /\
    (atom_type s = 0 \/ exists i a, T !! i = Some a /\ a_ptr a = p)
}.

(** The list [F] of free slots. *)
Fixpoint free_chain (arr : list Z) (i : Z) (F : list Z) : Prop :=
  match F with
  | [] => i = 0
  | j :: F => i = j /\ 0 < j /\ exists e,
      arr !! Z.to_nat j = Some e /\ free_chain arr (atom_get_free e) F
  end.

Record slots (arr : list Z) (fi : Z) (T : table) (F : list Z) : Prop := {
  slots_chain : free_chain arr fi F;
  slots_nodup : NoDup F;
  slots_free : forall i, i ∈ F -> T !! i = None /\ 0 < i < Z.of_nat (length arr);
  slots_all : forall i, 0 <= i < Z.of_nat (length arr) -> i ∈ F \/ is_Some (T !! i);
  slots_null : arr = [] \/ exists a, T !! 0 = Some a /\ a_type a = JS_ATOM_TYPE_SYMBOL
}.

(** The bucket of a hash in a table of [n] chains. *)
Definition bucket (n h : Z) : Z := h mod n.

(** The buckets [B] of the hash table hold the atoms of [T] that satisfy
    [P]. *)
Record buckets (ht : list Z) (T : table) (N : gmap Z Z) (P : Z -> Prop)
    (B : list (list Z)) : Prop := {
  bk_length : length B = length ht;
  bk_chain : forall b l h, B !! b = Some l -> ht !! b = Some h -> chain N h l;
  bk_nodup : forall b l, B !! b = Some l -> NoDup l;
  bk_elem : forall b l i, B !! b = Some l -> i ∈ l ->
    P i /\ exists a, T !! i = Some a /\ interned a /\
    bucket (Z.of_nat (length ht)) (a_hash a) = Z.of_nat b;
  bk_in : forall i a, T !! i = Some a -> interned a -> P i -> exists b l,
    B !! b = Some l /\ i ∈ l
}.

(** Interning: symbols link to themselves, strings are unique. *)
Record unique (T : table) (N : gmap Z Z) : Prop := {
  un_sym : forall i a, T !! i = Some a -> ~ interned a -> N !! i = Some i;
  un_hash : forall i a, T !! i = Some a -> interned a ->
    a_hash a = key_hash (a_type a) (a_chars a);
  un_key : forall i j a b, T !! i = Some a -> T !! j = Some b -> interned a ->
    a_type a = a_type b -> a_chars a = a_chars b -> i = j
}.

Section wf.
Context {al : JSMalloc}.

Record atoms_rep (rt : JSRuntime) (T : table) (F : list Z) (N : gmap Z Z)
    (B : list (list Z)) : Prop := {
  rep_core : core (strings rt) (atom_array rt) T N;
  rep_slots : slots (atom_array rt) (atom_free_index rt) T F;
  rep_buckets : buckets (atom_hash rt) T N (fun _ => True) B;
  rep_unique : unique T N;
  rep_size : atom_size rt = Z.of_nat (length (atom_array rt));
  rep_max : atom_size rt <= JS_ATOM_MAX;
  rep_hash_size : atom_hash_size rt = Z.of_nat (length (atom_hash rt));
  rep_pow2 : exists k, 0 <= k <= 30 /\ atom_hash_size rt = 2 ^ k;
  rep_resize : atom_count_resize rt = atom_hash_size rt * 2;
  rep_count : atom_count rt = Z.of_nat (size T)
}.

Definition atoms_wf (rt : JSRuntime) (T : table) (F : list Z) : Prop :=
  exists N B, atoms_rep rt T F N B.
End wf.

(** ** Reading an atom *)

Section core_lemmas.
Context (S : gmap Z JSString) (arr : list Z) (T : table) (N : gmap Z Z).
Context (Hc : core S arr T N).

Lemma core_bound i a : T !! i = Some a -> 0 <= i < Z.of_nat (length arr).
Proof.
  intros Ha. destruct (core_atom _ _ _ _ Hc i a Ha) as (Hi & Harr & _).
  apply lookup_lt_Some in Harr. lia.
Qed.

Lemma core_rd i a : T !! i = Some a -> rd arr i = Ret (a_ptr a).
Proof.
  intros Ha. destruct (core_atom _ _ _ _ Hc i a Ha) as (Hi & Harr & _).
  by apply rd_Some.
Qed.

Lemma core_next i a : T !! i = Some a ->
  exists n, N !! i = Some n /\ S !! a_ptr a = Some (str_of a n).
Proof. intros Ha. by destruct (core_atom _ _ _ _ Hc i a Ha) as (_ & _ & ? & _). Qed.

Lemma core_type i a : T !! i = Some a -> 1 <= a_type a <= 3.
Proof. intros Ha. by destruct (core_atom _ _ _ _ Hc i a Ha) as (_ & _ & _ & ?). Qed.

(** Another value for an atom and its link. *)
Lemma core_update i a a' n' :
  T !! i = Some a -> a_ptr a' = a_ptr a -> 1 <= a_type a' <= 3 ->
  core (<[a_ptr a := str_of a' n']> S) arr (<[i := a']> T) (<[i := n']> N).
Proof.
  intros Ha Hp Hty. split.
  - intros j b Hb. destruct (decide (j = i)) as [->|Hj].
    + rewrite lookup_insert_eq in Hb. injection Hb as <-.
      destruct (core_atom _ _ _ _ Hc i a Ha) as (Hi & Harr & _ & _).
      split_and!; [done|by rewrite Hp| |lia..]. exists n'.
      by rewrite Hp, !lookup_insert_eq.
    + rewrite lookup_insert_ne in Hb by done.
      destruct (core_atom _ _ _ _ Hc j b Hb) as (Hi & Harr & (n & Hn & Hs) & ?).
      split_and!; [done..| |lia|lia]. exists n.
      rewrite !lookup_insert_ne; [done|..|done].
      intros E. apply Hj. symmetry. by apply (core_inj _ _ _ _ Hc i j a b).
  - intros j1 j2 b1 b2. rewrite !lookup_insert_Some.
    intros [[<- <-]|[Hj1 H1]] [[<- <-]|[Hj2 H2]] E; [done| | |].
    + apply (core_inj _ _ _ _ Hc _ _ a b2); [done..|]. by rewrite <- Hp.
    + apply (core_inj _ _ _ _ Hc _ _ b1 a); [done..|]. by rewrite <- Hp.
    + by apply (core_inj _ _ _ _ Hc _ _ b1 b2).
  - intros p s. rewrite lookup_insert_Some. intros [[<- <-]|[Hps Hs]].
    + destruct (core_next i a Ha) as (n & _ & Hs).
      destruct (core_str _ _ _ _ Hc _ _ Hs) as (? & ? & _).
      split_and!; [done..|]. right. exists i, a'. by rewrite lookup_insert_eq.
    + destruct (core_str _ _ _ _ Hc _ _ Hs) as (? & ? & [?|(j & b & Hb & <-)]);
        (split_and!; [done..|]); [by left|right].
      exists j, b. split; [|done]. rewrite lookup_insert_ne; [done|].
      intros <-. apply Hps. congruence.
Qed.

Lemma core_link i a n' : T !! i = Some a ->
  core (<[a_ptr a := str_of a n']> S) arr T (<[i := n']> N).
Proof.
  intros Ha. rewrite <- (insert_id T i a Ha) at 1.
  apply core_update; [done..|by eapply core_type].
Qed.

(** A string that is not an atom. *)
Lemma core_ptr_ne i a p s : T !! i = Some a -> S !! p = Some s -> atom_type s = 0 ->
  a_ptr a <> p.
Proof.
  intros Ha Hs H0 <-. destruct (core_next i a Ha) as (n & _ & Hs').
  rewrite Hs in Hs'. injection Hs' as ->. simpl in H0.
  pose proof (core_type i a Ha). lia.
Qed.

(** An atom in a free slot. *)
Lemma core_insert i a n p : T !! i = None -> 0 <= i < Z.of_nat (length arr) ->
  a_ptr a = p -> 1 <= a_type a <= 3 -> 0 < p -> Z.even p = true ->
  (forall s, S !! p = Some s -> atom_type s = 0) ->
  core (<[p := str_of a n]> S) (<[Z.to_nat i := p]> arr) (<[i := a]> T) (<[i := n]> N).
Proof.
  intros Hi Hb Hp Hty Hpos Hev Hs.
  assert (Hne : forall j b, T !! j = Some b -> a_ptr b <> p).
  { intros j b Hj E. destruct (core_next j b Hj) as (m & _ & Hs').
    rewrite E in Hs'. specialize (Hs _ Hs'). simpl in Hs.
    pose proof (core_type j b Hj). lia. }
  split.
  - intros j b. rewrite lookup_insert_Some. intros [[<- <-]|[Hj Hjb]].
    + split_and!; [lia| |exists n; by rewrite Hp, !lookup_insert_eq|lia..].
      rewrite list_lookup_insert_eq by lia. by rewrite Hp.
    + destruct (core_atom _ _ _ _ Hc j b Hjb) as (? & Harr & (m & Hm & Hs') & ?).
      split_and!; [done| | |lia..].
      * rewrite list_lookup_insert_ne by lia. done.
      * exists m. rewrite !lookup_insert_ne; [done| |done].
        intros E. by eapply Hne.
  - intros j1 j2 b1 b2. rewrite !lookup_insert_Some.
    intros [[<- <-]|[Hj1 H1]] [[<- <-]|[Hj2 H2]] E; [done| | |].
    + exfalso. eapply Hne; [exact H2|]. by rewrite <- E.
    + exfalso. eapply Hne; [exact H1|]. by rewrite E.
    + by apply (core_inj _ _ _ _ Hc _ _ b1 b2).
  - intros q s. rewrite lookup_insert_Some. intros [[<- <-]|[Hqp Hq]].
    + split_and!; [done..|]. right. exists i, a. by rewrite lookup_insert_eq.
    + destruct (core_str _ _ _ _ Hc _ _ Hq) as (? & ? & [?|(j & b & Hjb & <-)]);
        (split_and!; [done..|]); [by left|right].
      exists j, b. rewrite lookup_insert_ne; [done|]. intros <-. congruence.
Qed.

Lemma core_delete i a e : T !! i = Some a ->
  core (delete (a_ptr a) S) (<[Z.to_nat i := e]> arr) (delete i T) N.
Proof.
  intros Ha. pose proof (core_bound i a Ha) as Hb. split.
  - intros j b. rewrite lookup_delete_Some. intros [Hj Hjb].
    destruct (core_atom _ _ _ _ Hc j b Hjb) as (? & Harr & (m & Hm & Hs') & ?).
    split_and!; [done| | |lia..].
    + rewrite list_lookup_insert_ne by lia. done.
    + exists m. rewrite lookup_delete_ne; [done|]. intros E. apply Hj.
      by apply (core_inj _ _ _ _ Hc i j a b).
  - intros j1 j2 b1 b2. rewrite !lookup_delete_Some. intros [? H1] [? H2].
    by apply (core_inj _ _ _ _ Hc _ _ b1 b2).
  - intros p s. rewrite lookup_delete_Some. intros [Hp Hs].
    destruct (core_str _ _ _ _ Hc _ _ Hs) as (? & ? & [?|(j & b & Hjb & <-)]);
      (split_and!; [done..|]); [by left|right].
    exists j, b. rewrite lookup_delete_ne; [done|]. intros <-. congruence.
Qed.

(** Strings that are not atoms come and go. *)
Lemma core_put_string p s : (forall s', S !! p = Some s' -> atom_type s' = 0) ->
  0 < p -> Z.even p = true -> atom_type s = 0 -> core (<[p := s]> S) arr T N.
Proof.
  intros Hp Hpos Hev Hs. split.
  - intros i a Ha. destruct (core_atom _ _ _ _ Hc i a Ha) as (? & ? & (n & ? & Hn) & ?).
    split_and!; [done..| |lia|lia]. exists n. split; [done|].
    rewrite lookup_insert_ne; [done|]. intros ->. specialize (Hp _ Hn). simpl in Hp. lia.
  - apply Hc.
  - intros q t. rewrite lookup_insert_Some. intros [[<- <-]|[Hq Ht]];
      [by split_and!; [..|left]|by apply Hc].
Qed.

Lemma core_free_string p s : S !! p = Some s -> atom_type s = 0 ->
  core (delete p S) arr T N.
Proof.
  intros Hp Hs. split.
  - intros i a Ha. destruct (core_atom _ _ _ _ Hc i a Ha) as (? & ? & (n & ? & Hn) & ?).
    split_and!; [done..| |lia|lia]. exists n. split; [done|].
    rewrite lookup_delete_ne; [done|]. intros E. by apply (core_ptr_ne i a p s Ha Hp Hs).
  - apply Hc.
  - intros q t. rewrite lookup_delete_Some. intros [_ Ht]. by apply Hc.
Qed.
End core_lemmas.

(** ** The free list *)

Lemma free_chain_frame arr arr' i F :
  free_chain arr i F -> (forall j, j ∈ F -> arr' !! Z.to_nat j = arr !! Z.to_nat j) ->
  free_chain arr' i F.
Proof.
  revert i. induction F as [|j F IH]; intros i; [done|].
  intros (-> & Hj & e & He & HF) Harr. split_and!; [done..|].
  exists e. split; [by rewrite Harr by left|]. apply IH; [done|].
  intros k Hk. apply Harr. by right.
Qed.

Section slots_lemmas.
Context (arr : list Z) (fi : Z) (T : table).
Implicit Types F : list Z.

Lemma slots_head F : slots arr fi T F -> fi <> 0 -> exists F', F = fi :: F'.
Proof.
  intros [Hch _ _ _ _] Hfi. destruct F as [|j F]; [done|].
  destruct Hch as [-> _]. eauto.
Qed.

Lemma slots_index F : slots arr fi T F -> 0 <= fi <= Z.of_nat (length arr).
Proof.
  intros Hs. destruct (decide (fi = 0)) as [->|Hfi]; [lia|].
  destruct (slots_head F Hs Hfi) as [F' ->].
  destruct (slots_free _ _ _ _ Hs fi) as [_ ?]; [left|lia].
Qed.

Lemma slots_pop i F a p : slots arr fi T (i :: F) -> exists e,
  fi = i /\ rd arr i = Ret e /\ 0 < i < Z.of_nat (length arr) /\ T !! i = None /\
  slots (<[Z.to_nat i := p]> arr) (atom_get_free e) (<[i := a]> T) F.
Proof.
  intros [(-> & Hi & e & He & Hch) Hnd Hf Hall Hnull].
  apply NoDup_cons in Hnd as [HiF Hnd]. destruct (Hf i) as [HTi Hb]; [left|].
  exists e. split_and!; [done|apply rd_Some; [lia|done]|lia|lia|done|].
  split; rewrite ?length_insert.
  - eapply free_chain_frame; [exact Hch|]. intros j Hj.
    destruct (Hf j) as [_ Hb']; [by right|].
    apply list_lookup_insert_ne. intros E. apply HiF.
    by replace i with j by lia.
  - done.
  - intros j Hj. destruct (Hf j) as [HTj Hb']; [by right|].
    rewrite lookup_insert_ne by (by intros ->). done.
  - intros j Hj. destruct (Hall j Hj) as [Hin|Hs].
    + apply elem_of_cons in Hin as [->|Hin]; [right|by left].
      rewrite lookup_insert_eq. by eexists.
    + right. rewrite lookup_insert_is_Some'. auto.
  - destruct Hnull as [->|(b & Hb0 & Hty)]; [simpl in Hb; lia|]. right.
    exists b. by rewrite lookup_insert_ne by lia.
Qed.

Lemma slots_push F i a : slots arr fi T F -> T !! i = Some a -> 0 < i ->
  i < Z.of_nat (length arr) -> Z.of_nat (length arr) < 2 ^ 32 ->
  slots (<[Z.to_nat i := atom_set_free fi]> arr) i (delete i T) (i :: F).
Proof.
  intros Hs Ha Hi Hb Hlen. pose proof (slots_index F Hs) as Hfi.
  destruct Hs as [Hch Hnd Hf Hall Hnull].
  assert (HiF : i ∉ F). { intros Hin. destruct (Hf i Hin). congruence. }
  split; rewrite ?length_insert.
  - split; [done|]. split; [done|]. exists (atom_set_free fi).
    rewrite list_lookup_insert_eq by lia. split; [done|].
    rewrite atom_get_set_free by lia. eapply free_chain_frame; [exact Hch|].
    intros j Hj. destruct (Hf j Hj) as [_ ?]. apply list_lookup_insert_ne.
    intros E. apply HiF. by replace i with j by lia.
  - by apply NoDup_cons.
  - intros j [->|Hj]%elem_of_cons; [by rewrite lookup_delete_eq|].
    destruct (Hf j Hj) as [HTj ?]. rewrite lookup_delete_ne; [done|].
    by intros ->.
  - intros j Hj. destruct (decide (j = i)) as [->|Hne]; [left; left|].
    rewrite lookup_delete_ne by done.
    destruct (Hall j Hj) as [?|?]; [left; by right|by right].
  - destruct Hnull as [->|(b & Hb0 & Hty)]; [by left|right].
    exists b. by rewrite lookup_delete_ne by lia.
Qed.

Lemma slots_update F i a a' : slots arr fi T F -> T !! i = Some a ->
  a_type a' = a_type a -> slots arr fi (<[i := a']> T) F.
Proof.
  intros [Hch Hnd Hf Hall Hnull] Ha Hty. split; try done.
  - intros j Hj. destruct (Hf j Hj) as [HTj ?].
    rewrite lookup_insert_ne; [done|]. intros ->. congruence.
  - intros j Hj. rewrite lookup_insert_is_Some'. destruct (Hall j Hj); auto.
  - destruct Hnull as [->|(b & Hb0 & Hb)]; [by left|right].
    destruct (decide (i = 0)) as [->|Hne].
    + exists a'. rewrite lookup_insert_eq. split; [done|]. congruence.
    + exists b. by rewrite lookup_insert_ne.
Qed.
End slots_lemmas.

(** ** The hash table *)

Section buckets_lemmas.
Context (ht : list Z) (T : table) (N : gmap Z Z) (P : Z -> Prop).

Lemma bucket_range n h : 0 < n -> 0 <= bucket n h < n.
Proof. intros. by apply Z.mod_pos_bound. Qed.

(** The chain of an interned atom. *)
Lemma buckets_find B i a : buckets ht T N P B -> T !! i = Some a -> interned a ->
  P i -> exists l h, B !! Z.to_nat (bucket (Z.of_nat (length ht)) (a_hash a)) = Some l
    /\ ht !! Z.to_nat (bucket (Z.of_nat (length ht)) (a_hash a)) = Some h
    /\ chain N h l /\ i ∈ l.
Proof.
  intros Hb Ha Hint HP. destruct (bk_in _ _ _ _ _ Hb i a Ha Hint HP) as (b & l & Hl & Hi).
  destruct (bk_elem _ _ _ _ _ Hb b l i Hl Hi) as (_ & a' & Ha' & _ & Eb).
  rewrite Ha in Ha'. injection Ha' as <-. rewrite Eb, Nat2Z.id.
  pose proof (lookup_lt_Some _ _ _ Hl) as Hlt. rewrite (bk_length _ _ _ _ _ Hb) in Hlt.
  destruct (lookup_lt_is_Some_2 ht b Hlt) as [h Hh].
  exists l, h. split_and!; [done..| |done]. by eapply bk_chain.
Qed.

(** Elements of different buckets are different. *)
Lemma buckets_disjoint B b1 b2 l1 l2 i : buckets ht T N P B ->
  B !! b1 = Some l1 -> B !! b2 = Some l2 -> i ∈ l1 -> i ∈ l2 -> b1 = b2.
Proof.
  intros Hb H1 H2 Hi1 Hi2.
  destruct (bk_elem _ _ _ _ _ Hb b1 l1 i H1 Hi1) as (_ & a1 & Ha1 & _ & E1).
  destruct (bk_elem _ _ _ _ _ Hb b2 l2 i H2 Hi2) as (_ & a2 & Ha2 & _ & E2).
  rewrite Ha1 in Ha2. injection Ha2 as <-. lia.
Qed.

(** Link changes outside the chains. *)
Lemma buckets_frame B N' T' : buckets ht T N P B ->
  (forall b l i, B !! b = Some l -> i ∈ l -> N' !! i = N !! i) ->
  (forall i a, T !! i = Some a -> interned a -> exists a', T' !! i = Some a' /\
     a_hash a' = a_hash a /\ interned a') ->
  (forall i a', T' !! i = Some a' -> interned a' -> exists a, T !! i = Some a /\
     interned a) ->
  buckets ht T' N' P B.
Proof.
  intros Hb HN HT HT'. split.
  - apply Hb.
  - intros b l h Hl Hh. eapply chain_frame; [by eapply bk_chain|].
    intros i Hi. by eapply HN.
  - apply Hb.
  - intros b l i Hl Hi. destruct (bk_elem _ _ _ _ _ Hb b l i Hl Hi) as (HP & a & Ha & Hint & E).
    split; [done|]. destruct (HT i a Ha Hint) as (a' & Ha' & Eh & Hint').
    exists a'. split_and!; [done..|]. by rewrite Eh.
  - intros i a' Ha' Hint HP. destruct (HT' i a' Ha' Hint) as (a & Ha & Hint').
    by eapply bk_in.
Qed.
End buckets_lemmas.

(** A new atom at the head of its chain. *)
Lemma buckets_insert ht T N (P P' : Z -> Prop) B i a h b :
  buckets ht T N P B -> T !! i = Some a -> interned a -> ~ P i -> i <> 0 ->
  (forall j, P' j <-> P j \/ j = i) ->
  bucket (Z.of_nat (length ht)) (a_hash a) = Z.of_nat b -> ht !! b = Some h ->
  exists B', buckets (<[b := i]> ht) T (<[i := h]> N) P' B'.
Proof.
  intros Hb Ha Hint HP Hi0 HP' Eb Hh.
  pose proof (lookup_lt_Some _ _ _ Hh) as Hlt.
  destruct (lookup_lt_is_Some_2 B b) as [l Hl]; [by rewrite (bk_length _ _ _ _ _ Hb)|].
  assert (HB : forall b' l', B !! b' = Some l' -> i ∉ l').
  { intros b' l' Hl' Hin. apply HP.
    by destruct (bk_elem _ _ _ _ _ Hb b' l' i Hl' Hin). }
  assert (HltB : (b < length B)%nat) by (by apply lookup_lt_Some in Hl).
  exists (<[b := i :: l]> B). split; rewrite ?length_insert.
  - apply Hb.
  - intros b' l' h'. destruct (decide (b' = b)) as [->|Hne].
    + rewrite !list_lookup_insert_eq by done. intros [= <-] [= <-].
      split_and!; [done..|]. exists h. rewrite lookup_insert_eq. split; [done|].
      apply chain_insert_ne; [by eapply bk_chain|by eapply HB].
    + rewrite !list_lookup_insert_ne by done. intros Hl' Hh'.
      apply chain_insert_ne; [by eapply bk_chain|by eapply HB].
  - intros b' l' [(-> & <- & _)|[_ Hl']]%list_lookup_insert_Some;
      [apply NoDup_cons; split; [by eapply HB|by eapply bk_nodup]|by eapply bk_nodup].
  - intros b' l' j [(-> & <- & _)|[_ Hl']]%list_lookup_insert_Some Hj.
    + apply elem_of_cons in Hj as [->|Hj].
      * split; [apply HP'; by right|]. exists a. by split_and!.
      * destruct (bk_elem _ _ _ _ _ Hb b' l j Hl Hj) as [? ?].
        split; [apply HP'; by left|done].
    + destruct (bk_elem _ _ _ _ _ Hb b' l' j Hl' Hj) as [? ?].
      split; [apply HP'; by left|done].
  - intros j c Hc Hci [HPj| ->]%HP'.
    + destruct (bk_in _ _ _ _ _ Hb j c Hc Hci HPj) as (b' & l' & Hl' & Hj).
      destruct (decide (b' = b)) as [->|Hne].
      * exists b, (i :: l). rewrite list_lookup_insert_eq by done. split; [done|].
        right. congruence.
      * exists b', l'. by rewrite list_lookup_insert_ne.
    + exists b, (i :: l). rewrite list_lookup_insert_eq by done. split; [done|left].
Qed.

(** ** Resizing the hash table *)

(** The strings that are not atoms are the same. *)
Definition same_strings (S S' : gmap Z JSString) : Prop :=
  forall p s, atom_type s = 0 -> S' !! p = Some s <-> S !! p = Some s.

Lemma same_strings_refl S : same_strings S S.
Proof. done. Qed.

Lemma same_strings_trans S1 S2 S3 :
  same_strings S1 S2 -> same_strings S2 S3 -> same_strings S1 S3.
Proof. intros H1 H2 p s Hs. rewrite (H2 p s Hs). by apply H1. Qed.

Lemma core_same_strings S arr T N i a a' n :
  core S arr T N -> T !! i = Some a -> 1 <= a_type a' <= 3 ->
  same_strings S (<[a_ptr a := str_of a' n]> S).
Proof.
  intros Hc Ha Hty p s Hs. rewrite lookup_insert_Some. split.
  - intros [[_ <-]|[_ ?]]; [simpl in Hs; lia|done].
  - intros Hp. right. split; [|done]. intros E.
    by apply (core_ptr_ne _ _ _ _ Hc i a p s).
Qed.

(** The links of the elements outside [l] are the same. *)
Definition same_links (N N' : gmap Z Z) (l : list Z) : Prop :=
  forall i, i ∉ l -> N' !! i = N !! i.

Section runtime.
Context {al : JSMalloc}.

Lemma get_str_Some rt p s : strings rt !! p = Some s -> get_str rt p = Ret s.
Proof. unfold get_str. by intros ->. Qed.

(** What the resizing changes: the strings. *)
Definition only_strings (rt rt' : JSRuntime) : Prop := rt' = set_strings rt (strings rt').

Lemma only_strings_refl rt : only_strings rt rt.
Proof. by destruct rt. Qed.

Lemma only_strings_put rt rt' p s : only_strings rt rt' -> only_strings rt (put_str rt' p s).
Proof. unfold only_strings. intros ->. by destruct rt. Qed.

Lemma only_strings_arr rt rt' : only_strings rt rt' -> atom_array rt' = atom_array rt.
Proof. by intros ->. Qed.

Section resize.
Context (rt0 : JSRuntime) (T : table) (k : Z).
Context (Hk : 0 <= k).

Definition rehash_inv (P : Z -> Prop) (N : gmap Z Z) (rt : JSRuntime) (ht : list Z)
  : Prop :=
  only_strings rt0 rt /\
  core (strings rt) (atom_array rt0) T N /\
  same_strings (strings rt0) (strings rt) /\
  Z.of_nat (length ht) = 2 ^ k /\
  exists B, buckets ht T N P B.

Lemma resize_chain_spec fuel l : forall P N rt ht h,
  rehash_inv P N rt ht -> chain N h l -> NoDup l ->
  (forall i, i ∈ l -> ~ P i /\ exists a, T !! i = Some a /\ interned a) ->
  (length l < fuel)%nat ->
  wp (loop fuel (fun '(rt, h, new_hash) =>
      if negb (h =? 0) then
        let* p := rd (atom_array rt) h in
        let* s := get_str rt p in
        let hash_next1 := hash_next s in
        let j := Z.land (hash s) (2 ^ k - 1) in
        let* n := rd new_hash j in
        let rt := put_str rt p (with_hash_next s n) in
        let* new_hash := wr new_hash j h in
        Ret (inl (rt, hash_next1, new_hash))
      else Ret (inr (rt, new_hash))) (rt, h, ht))
    (fun '(rt', ht') => exists N', rehash_inv (fun i => P i \/ i ∈ l) N' rt' ht' /\
      same_links N N' l).
Proof.
  revert fuel. induction l as [|i l IH]; intros fuel P N rt ht h HI Hch Hnd Hl Hf;
    (destruct fuel as [|fuel]; [simpl in Hf; lia|]); rewrite loop_S.
  - cbn [chain] in Hch. subst h. cbn. exists N. split; [|done].
    destruct HI as (? & ? & ? & ? & B & HB). split_and!; [done..|]. exists B.
    destruct HB as [? ? ? He Hi]. split; [done..| |].
    + intros b l i Hb Hin. destruct (He b l i Hb Hin) as [? ?]. split; [by left|done].
    + intros i a Ha Hint [?|?%elem_of_nil]; [by eapply Hi|done].
  - destruct HI as (Ho & Hc & Hs & Hlen & B & HB).
    destruct Hch as (-> & Hi0 & n & Hn & Hch). apply NoDup_cons in Hnd as [Hil Hnd].
    destruct (Hl i) as (HPi & a & Ha & Hint); [left|].
    destruct (core_next _ _ _ _ Hc i a Ha) as (n' & Hn' & Hst).
    rewrite Hn in Hn'. injection Hn' as <-.
    destruct (Z.eqb_spec i 0); [done|]. cbn [negb].
    rewrite (only_strings_arr _ _ Ho), (core_rd _ _ _ _ Hc i a Ha). cbn [bind].
    rewrite (get_str_Some _ _ _ Hst). cbn [bind hash hash_next str_of].
    assert (Ej : Z.land (a_hash a) (2 ^ k - 1) = bucket (Z.of_nat (length ht)) (a_hash a))
      by (rewrite land_pow2_mod, <- Hlen by done; done).
    rewrite Ej. pose proof (bucket_range (Z.of_nat (length ht)) (a_hash a) ltac:(lia)) as Hbr.
    clear Ej. set (b := bucket _ _) in *.
    destruct (lookup_lt_is_Some_2 ht (Z.to_nat b)) as [h Hh]; [lia|].
    rewrite (rd_Some _ _ h) by (lia || done). cbn [bind].
    rewrite wr_in by lia. cbn [bind].
    destruct (buckets_insert ht T N P (fun j => P j \/ j = i) B i a h (Z.to_nat b)
      HB Ha Hint HPi Hi0) as [B' HB']; [done|unfold b in *; lia|done|].
    eapply wp_mono.
    + apply (IH fuel (fun j => P j \/ j = i) (<[i := h]> N)).
      * split_and!; [by apply only_strings_put| | | |by exists B'].
        -- exact (core_link _ _ _ _ Hc i a h Ha).
        -- eapply same_strings_trans; [exact Hs|].
           exact (core_same_strings _ _ _ _ i a a h Hc Ha (core_type _ _ _ _ Hc i a Ha)).
        -- by rewrite length_insert.
      * apply chain_insert_ne; done.
      * done.
      * intros j Hj. destruct (Hl j) as [HPj ?]; [by right|]. split; [|done].
        intros [?| ->]; done.
      * simpl in Hf. lia.
    + intros [rt' ht'] (N' & (? & ? & ? & ? & B2 & HB2) & HN'). exists N'.
      split; [split_and!; [done..|]; exists B2|].
      * destruct HB2 as [? ? ? He Hin]. split; [done..| |].
        -- intros b' l' j Hb' Hj. destruct (He b' l' j Hb' Hj) as [Hor ?].
           split; [|done]. rewrite elem_of_cons. tauto.
        -- intros j c Hc' Hci Hor. apply (Hin j c Hc' Hci).
           rewrite elem_of_cons in Hor. tauto.
      * intros j Hj. rewrite HN' by set_solver. apply lookup_insert_ne.
        intros ->. apply Hj. left.
Qed.
End resize.

(** What is left of the old buckets from [b]. *)
Definition moved (B : list (list Z)) (b : Z) (i : Z) : Prop :=
  exists b' l, Z.of_nat b' < b /\ B !! b' = Some l /\ i ∈ l.

Definition table_of (rt : JSRuntime) (T : table) : Prop :=
  exists N B, core (strings rt) (atom_array rt) T N /\
    buckets (atom_hash rt) T N (fun _ => True) B /\ unique T N.

Lemma bucket_length rt T N B b l : core (strings rt) (atom_array rt) T N ->
  buckets (atom_hash rt) T N (fun _ => True) B -> B !! b = Some l ->
  (length l < chain_fuel rt)%nat.
Proof.
  intros Hc HB Hl. unfold chain_fuel.
  pose proof (index_list_length l (length (atom_array rt))) as Hlen.
  rewrite <- Nat.lt_succ_r in Hlen. apply Nat.lt_lt_succ_r, Hlen; [by eapply bk_nodup|].
  intros i Hi. destruct (bk_elem _ _ _ _ _ HB b l i Hl Hi) as (_ & a & Ha & _).
  exact (core_bound _ _ _ _ Hc i a Ha).
Qed.

Lemma replicate_buckets n T N : buckets (replicate n 0) T N (fun _ => False) (replicate n []).
Proof.
  split.
  - by rewrite !length_replicate.
  - intros b l h [-> _]%lookup_replicate_1 [-> _]%lookup_replicate_1. done.
  - intros b l [-> _]%lookup_replicate_1. apply NoDup_nil_2.
  - intros b l i [-> _]%lookup_replicate_1 ?%elem_of_nil. done.
  - done.
Qed.

Lemma resize_spec rt T k :
  table_of rt T -> atom_hash_size rt = Z.of_nat (length (atom_hash rt)) ->
  0 <= k <= 30 ->
  wp (JS_ResizeAtomHash rt (2 ^ k)) (fun '(rt', ok) =>
    same_strings (strings rt) (strings rt') /\
    if ok : bool then table_of rt' T /\ Z.of_nat (length (atom_hash rt')) = 2 ^ k /\
      rt' = mkRt (mem rt') (strings rt') (2 ^ k) (atom_count rt) (atom_size rt)
        (2 ^ k * 2) (atom_hash rt') (atom_array rt) (atom_free_index rt)
    else rt' = set_mem rt (mem rt')).
Proof.
  intros (N & B & Hc & HB & Hu) Hsz Hk. unfold JS_ResizeAtomHash.
  pose proof (Z.pow_pos_nonneg 2 k) as Hpos.
  assert (Hle : 2 ^ k <= 2 ^ 30) by (apply Z.pow_le_mono_r; lia).
  apply wp_bind, wp_assert.
  { apply Z.eqb_eq. rewrite land_pow2_mod by lia. by rewrite Z.mod_same by lia. }
  rewrite u32_id by lia. destruct (js_realloc_rt (mem rt) (2 ^ k)) as [h ok].
  destruct ok; cbn [negb]; [|by apply wp_ret; split].
  set (rt1 := set_mem rt h). apply wp_bind.
  eapply wp_mono.
  - apply (wp_for (fun i '(rt', ht) => exists N',
      rehash_inv rt1 T k (moved B i) N' rt' ht /\
      forall j, ~ moved B i j -> N' !! j = N !! j)).
    + intros i [rt' ht] Hi (N' & HI & HN). change (atom_hash_size rt1) with
        (atom_hash_size rt) in Hi.
      assert (Hb : (Z.to_nat i < length (atom_hash rt))%nat) by lia.
      destruct (lookup_lt_is_Some_2 (atom_hash rt) (Z.to_nat i) Hb) as [h0 Hh0].
      pose proof (bk_length _ _ _ _ _ HB) as HlB.
      destruct (lookup_lt_is_Some_2 B (Z.to_nat i)) as [l Hl]; [lia|].
      pose proof (bk_chain _ _ _ _ _ HB _ _ _ Hl Hh0) as Hch.
      assert (Hnm : forall j, j ∈ l -> ~ moved B i j).
      { intros j Hj (b' & l' & Hlt & Hl' & Hj').
        assert (Z.to_nat i = b') by (by eapply buckets_disjoint). lia. }
      destruct (HI) as (Ho & Hc' & _). 
      replace (atom_hash rt') with (atom_hash rt) by (by rewrite Ho).
      rewrite (rd_Some _ _ h0) by (lia || done). cbn [bind]. unfold resize_chain.
      eapply wp_mono.
      * apply (resize_chain_spec rt1 T k ltac:(lia) _ l (moved B i) N').
        -- exact HI.
        -- eapply chain_frame; [exact Hch|]. intros j Hj. by apply HN, Hnm.
        -- by eapply bk_nodup.
        -- intros j Hj. split; [by apply Hnm|].
           destruct (bk_elem _ _ _ _ _ HB _ l j Hl Hj) as (_ & a & ? & ? & _). eauto.
        -- replace (chain_fuel rt') with (chain_fuel rt) by (by rewrite Ho).
           by eapply bucket_length.
      * intros [rt2 ht2] (N2 & HI2 & HN2). exists N2.
        assert (Hiff : forall j, moved B (i + 1) j <-> moved B i j \/ j ∈ l).
        { intros j. split.
          - intros (b' & l' & Hlt & Hl' & Hj).
            destruct (decide (b' = Z.to_nat i)) as [->|Hne]; [right; congruence|].
            left. exists b', l'. split_and!; [lia|done..].
          - intros [(b' & l' & Hlt & Hl' & Hj)|Hj]; [exists b', l'; split_and!; [lia|done..]|].
            exists (Z.to_nat i), l. split_and!; [lia|done..]. }
        split.
        -- destruct HI2 as (? & ? & ? & ? & B2 & [? ? ? He Hin]). split_and!; [done..|].
           exists B2. split; [done..| |].
           ++ intros b l' j Hl' Hj. rewrite Hiff. by eapply He.
           ++ intros j a Ha Hint Hm. apply (Hin j a Ha Hint). by apply Hiff.
        -- intros j Hj. rewrite Hiff in Hj. rewrite HN2 by tauto. apply HN. tauto.
    + exists N. split; [|done]. split_and!.
      * apply only_strings_refl.
      * done.
      * done.
      * rewrite length_replicate. lia.
      * exists (replicate (Z.to_nat (2 ^ k)) []).
        destruct (replicate_buckets (Z.to_nat (2 ^ k)) T N) as [? ? ? He Hin].
        split; [done..| |].
        -- intros b l j Hl Hj. by destruct (He b l j Hl Hj).
        -- intros j a Ha Hint (b' & l' & Hlt & _). lia.
  - intros [rt' ht] (N' & (Ho & Hc' & Hs & Hlen & B' & HB') & HN). apply wp_ret.
    change (strings rt1) with (strings rt) in Hs. split; [exact Hs|].
    assert (Hall : forall j a, T !! j = Some a -> interned a ->
      moved B (0 + Z.of_nat (Z.to_nat (atom_hash_size rt1))) j).
    { intros j a Ha Hint. destruct (bk_in _ _ _ _ _ HB j a Ha Hint I) as (b & l & Hl & Hj).
      exists b, l. split_and!; [|done..]. apply lookup_lt_Some in Hl.
      rewrite (bk_length _ _ _ _ _ HB) in Hl.
      change (atom_hash_size rt1) with (atom_hash_size rt). lia. }
    split; [|split; [exact Hlen|by rewrite Ho]].
    exists N', B'. cbn [strings atom_array atom_hash]. rewrite Ho in Hc' |- *.
    split; [exact Hc'|]. split.
    + destruct HB' as [? ? ? He Hin]. split; [done..| |].
      * intros b l j Hl Hj. split; [done|]. by destruct (He b l j Hl Hj).
      * intros j a Ha Hint _. apply (Hin j a Ha Hint). by eapply Hall.
    + destruct Hu as [Hsym Hhash Hkey]. split; [|done..].
      intros j a Ha Hint. rewrite HN; [by eapply Hsym|].
      intros (b & l & _ & Hl & Hj).
      destruct (bk_elem _ _ _ _ _ HB b l j Hl Hj) as (_ & a' & Ha' & Hi' & _).
      rewrite Ha in Ha'. injection Ha' as <-. done.
Qed.

(** ** Searching *)

Lemma memcmp_chars_spec l1 l2 n :
  0 <= n <= Z.of_nat (length l1) -> n <= Z.of_nat (length l2) ->
  wp (memcmp_chars l1 l2 n) (fun c =>
    c = 0 <-> take (Z.to_nat n) l1 = take (Z.to_nat n) l2).
Proof.
  intros H1 H2. unfold memcmp_chars.
  apply (wp_loop (fun i => 0 <= i <= n /\
      take (Z.to_nat i) l1 = take (Z.to_nat i) l2) (fun i => Z.to_nat (n - i)));
    [|split; [lia|done]|lia].
  intros i [Hi Heq]. destruct (Z.ltb_spec i n) as [Hlt|Hge].
  - apply wp_bind, wp_rd; [lia|]. intros a Ha.
    apply wp_bind, wp_rd; [lia|]. intros b Hb.
    assert (Hsucc : forall l : list Z, take (Z.to_nat (i + 1)) l = take (S (Z.to_nat i)) l)
      by (intros l; f_equal; lia).
    destruct (Z.eqb_spec (a - b) 0) as [E|E]; cbn [negb]; apply wp_ret.
    + split; [|lia]. split; [lia|]. rewrite !Hsucc.
      rewrite (take_S_r _ _ a), (take_S_r _ _ b) by done. f_equal; [done|f_equal; lia].
    + split; [done|]. intros Ht.
      assert (Hab : l1 !! Z.to_nat i = l2 !! Z.to_nat i).
      { rewrite <- (lookup_take_lt l1 (Z.to_nat n)), <- (lookup_take_lt l2 (Z.to_nat n)) by lia.
        by rewrite Ht. }
      rewrite Ha, Hb in Hab. injection Hab as ->. lia.
  - apply wp_ret. replace n with i by lia. by split.
Qed.

Lemma js_string_memcmp_spec s1 s2 : len s1 = len s2 ->
  wp (js_string_memcmp s1 s2 (len s2)) (fun c => c = 0 <-> chars s1 = chars s2).
Proof.
  unfold len. intros Hlen.
  assert (H12 : wp (memcmp_chars (chars s1) (chars s2) (Z.of_nat (length (chars s2))))
    (fun c => c = 0 <-> chars s1 = chars s2)).
  { eapply wp_mono; [apply memcmp_chars_spec; lia|]. intros c ->.
    rewrite Nat2Z.id, !take_ge by lia. done. }
  unfold js_string_memcmp. destruct (is_wide_char s1), (is_wide_char s2); cbn [negb];
    try done.
  apply wp_bind. eapply wp_mono; [apply memcmp_chars_spec; lia|]. intros c Hc.
  apply wp_ret. rewrite Nat2Z.id, !take_ge in Hc by lia.
  rewrite (symmetry_iff eq (chars s1)), <- Hc. lia.
Qed.

Definition matches (h aty : Z) (cs : list Z) (a : atom) : Prop :=
  a_hash a = h /\ a_type a = aty /\ a_chars a = cs.

Lemma find_atom_spec rt T N h aty s h0 l :
  core (strings rt) (atom_array rt) T N -> chain N h0 l ->
  (forall i, i ∈ l -> is_Some (T !! i)) -> (length l < chain_fuel rt)%nat ->
  wp (find_atom rt h aty s h0) (fun r =>
    (r = 0 /\ forall i a, i ∈ l -> T !! i = Some a -> ~ matches h aty (chars s) a) \/
    (r ∈ l /\ exists a, T !! r = Some a /\ matches h aty (chars s) a)).
Proof.
  intros Hc. unfold find_atom. generalize (chain_fuel rt) as fuel. intros fuel.
  revert fuel h0. induction l as [|i l IH]; intros fuel h0 Hch Hl Hf;
    (destruct fuel as [|fuel]; [simpl in Hf; lia|]); rewrite loop_S; cbn [chain] in Hch.
  - subst h0. apply wp_ret. left. split; [done|]. by intros ? ? ?%elem_of_nil.
  - destruct Hch as (-> & Hi0 & n & Hn & Hch).
    destruct (Hl i) as [a Ha]; [left|].
    destruct (core_next _ _ _ _ Hc i a Ha) as (n' & Hn' & Hst).
    rewrite Hn in Hn'. injection Hn' as <-.
    destruct (Z.eqb_spec i 0); [done|]. cbn [negb].
    rewrite (core_rd _ _ _ _ Hc i a Ha). cbn [bind].
    rewrite (get_str_Some _ _ _ Hst). cbn [bind hash hash_next atom_type str_of].
    assert (Htest : wp
      (if (a_hash a =? h) && (a_type a =? aty) && (len (str_of a n) =? len s) then
         let* c := js_string_memcmp (str_of a n) s (len s) in Ret (c =? 0)
       else Ret false) (fun b => b = true <-> matches h aty (chars s) a)).
    { destruct (Z.eqb_spec (a_hash a) h) as [Eh|Eh]; cbn [andb];
        [|apply wp_ret; split; [done|by intros (? & _)]].
      destruct (Z.eqb_spec (a_type a) aty) as [Et|Et]; cbn [andb];
        [|apply wp_ret; split; [done|by intros (_ & ? & _)]].
      destruct (Z.eqb_spec (len (str_of a n)) (len s)) as [El|El].
      - apply wp_bind. eapply wp_mono; [by apply js_string_memcmp_spec|]. intros c Hcmp.
        apply wp_ret. rewrite Z.eqb_eq, Hcmp. unfold matches. cbn [chars str_of]. tauto.
      - apply wp_ret. split; [done|]. intros (_ & _ & Ecs). exfalso. apply El.
        unfold len. cbn [chars str_of]. by rewrite Ecs. }
    apply wp_bind, wp_bind. eapply wp_mono; [exact Htest|]. intros b Hb.
    destruct b; apply wp_ret.
    + right. split; [left|]. exists a. split; [done|]. by apply Hb.
    + cbn [bind]. eapply wp_mono.
      * apply (IH fuel n); [done|intros; apply Hl; by right|simpl in Hf; lia].
      * intros r [[-> Hno]|[Hr Hm]]; [left|right; split; [by right|done]].
        split; [done|]. intros j b [->|Hj]%elem_of_cons Hjb; [|by eapply Hno].
        rewrite Ha in Hjb. injection Hjb as <-. intros Hm%Hb. done.
Qed.

Lemma same_links_insert (N : gmap Z Z) i n l : i ∈ l -> same_links N (<[i := n]> N) l.
Proof. intros Hi j Hj. apply lookup_insert_ne. by intros ->. Qed.

(** ** Unlinking *)

Section unlink.
Context (rt : JSRuntime) (T : table) (N : gmap Z Z).
Context (Hc : core (strings rt) (atom_array rt) T N).
Context (i : Z) (a : atom) (Ha : T !! i = Some a).

(** The test [p1 == p] is a test on the index. *)
Lemma ptr_eqb j b : T !! j = Some b -> (a_ptr b =? a_ptr a) = bool_decide (j = i).
Proof.
  intros Hb. destruct (Z.eqb_spec (a_ptr b) (a_ptr a)) as [E|E].
  - rewrite bool_decide_true; [done|]. by apply (core_inj _ _ _ _ Hc j i b a).
  - rewrite bool_decide_false; [done|]. intros ->. congruence.
Qed.

Lemma get_index_walk l : forall fuel j b,
  T !! j = Some b -> chain N j l -> i ∈ l -> (forall x, x ∈ l -> is_Some (T !! x)) ->
  (length l <= fuel)%nat ->
  loop fuel (fun '(i, p1) =>
      if negb (p1 =? a_ptr a) then
        let* _ := c_assert (negb (i =? 0)) in
        let* s1 := get_str rt p1 in
        let i := hash_next s1 in
        let* p1 := rd (atom_array rt) i in
        Ret (inl (i, p1))
      else Ret (inr i)) (j, a_ptr b) = Ret i.
Proof.
  induction l as [|j' l IH]; intros fuel j b Hb Hch Hi Hl Hf; [by apply elem_of_nil in Hi|].
  destruct fuel as [|fuel]; [simpl in Hf; lia|]. rewrite loop_S.
  destruct Hch as (-> & Hj0 & n & Hn & Hch). rewrite (ptr_eqb j' b Hb).
  case_bool_decide as Hji; cbn [negb]; [by subst j'|].
  apply elem_of_cons in Hi as [->|Hi]; [done|].
  destruct (Z.eqb_spec j' 0); [done|]. cbn [negb c_assert bind].
  destruct (core_next _ _ _ _ Hc j' b Hb) as (n' & Hn' & Hst).
  rewrite Hn in Hn'. injection Hn' as <-.
  rewrite (get_str_Some _ _ _ Hst). cbn [bind hash_next str_of].
  destruct l as [|x l]; [by apply elem_of_nil in Hi|].
  assert (n = x) as -> by (by destruct Hch as (-> & _)).
  destruct (Hl x) as [c Hx]; [right; left|].
  rewrite (core_rd _ _ _ _ Hc x c Hx). cbn [bind].
  apply IH; [done..| |simpl in *; lia]. intros y Hy. apply Hl. by right.
Qed.

Lemma unlink_walk l2 l1 : forall fuel j b,
  T !! j = Some b -> chain N j (j :: l1 ++ i :: l2) -> i ∉ j :: l1 ->
  (forall x, x ∈ l1 -> is_Some (T !! x)) ->
  (length l1 < fuel)%nat ->
  exists pj c n, T !! pj = Some c /\ N !! i = Some n /\ pj ∈ j :: l1 /\
    loop fuel (fun '(i, p1) =>
        let* _ := c_assert (negb (i =? 0)) in
        let p0 := p1 in
        let* s0 := get_str rt p0 in
        let i := hash_next s0 in
        let* p1 := rd (atom_array rt) i in
        if p1 =? a_ptr a then
          let* s1 := get_str rt p1 in
          Ret (inr (put_str rt p0 (with_hash_next s0 (hash_next s1)), i))
        else Ret (inl (i, p1))) (j, a_ptr b)
    = Ret (put_str rt (a_ptr c) (str_of c n), i) /\
    (chain N j (j :: l1 ++ i :: l2) -> NoDup (j :: l1 ++ i :: l2) ->
     chain (<[pj := n]> N) j (j :: l1 ++ l2)).
Proof.
  induction l1 as [|x l1 IH]; intros fuel j b Hb (_ & Hj0 & n & Hn & Hch) Hi Hl Hf;
    (destruct fuel as [|fuel]; [simpl in Hf; lia|]); rewrite loop_S;
    destruct (core_next _ _ _ _ Hc j b Hb) as (n' & Hn' & Hst);
    rewrite Hn in Hn'; injection Hn' as <-;
    destruct (Z.eqb_spec j 0); try done; cbn [negb c_assert bind];
    rewrite (get_str_Some _ _ _ Hst); cbn [bind hash_next str_of].
  - cbn [app] in *. destruct Hch as (-> & Hi0 & m & Hm & Hch).
    rewrite (core_rd _ _ _ _ Hc i a Ha). cbn [bind].
    rewrite (ptr_eqb i a Ha), bool_decide_true by done.
    destruct (core_next _ _ _ _ Hc i a Ha) as (m' & Hm' & Hst').
    rewrite Hm in Hm'. injection Hm' as <-.
    rewrite (get_str_Some _ _ _ Hst'). cbn [bind hash_next str_of].
    exists j, b, m. split_and!; [done..|left|done|]. intros _ Hnd.
    split_and!; [done..|]. exists m. rewrite lookup_insert_eq. split; [done|].
    apply chain_insert_ne; [done|]. apply NoDup_cons in Hnd as [Hnd _].
    intros Hin. apply Hnd. by right.
  - cbn [app] in *. pose proof Hch as Hch'. destruct Hch as (-> & _).
    destruct (Hl x) as [c Hx]; [left|].
    rewrite (core_rd _ _ _ _ Hc x c Hx). cbn [bind].
    rewrite (ptr_eqb x c Hx), bool_decide_false by set_solver.
    destruct (IH fuel x c) as (pj & d & m & Hd & Hm & Hpj & HE & Hchain);
      [done|done|set_solver|intros; apply Hl; by right|simpl in Hf; lia|].
    exists pj, d, m. split_and!; [done..|by right|exact HE|].
    intros _ Hnd. apply NoDup_cons in Hnd as [Hjn Hnd].
    specialize (Hchain Hch' Hnd). split_and!; [done..|]. exists x. split; [|exact Hchain].
    rewrite lookup_insert_ne; [done|]. intros ->. apply Hjn.
    rewrite app_comm_cons. apply elem_of_app. by left.
Qed.
End unlink.

(** ** The table of a runtime *)

Section rep.
Context (rt : JSRuntime) (T : table) (F : list Z) (N : gmap Z Z) (B : list (list Z)).
Context (Hr : atoms_rep rt T F N B).

Lemma rep_mask h : Z.land h (hash_mask rt) = bucket (Z.of_nat (length (atom_hash rt))) h.
Proof.
  destruct (rep_pow2 _ _ _ _ _ Hr) as (k & Hk & E). unfold hash_mask, bucket.
  rewrite <- (rep_hash_size _ _ _ _ _ Hr), E.
  pose proof (Z.pow_pos_nonneg 2 k). pose proof (Z.pow_le_mono_r 2 k 30).
  rewrite u32_id by lia. apply land_pow2_mod. lia.
Qed.

Lemma rep_hash_pos : 0 < Z.of_nat (length (atom_hash rt)).
Proof.
  destruct (rep_pow2 _ _ _ _ _ Hr) as (k & Hk & E).
  rewrite <- (rep_hash_size _ _ _ _ _ Hr), E. apply Z.pow_pos_nonneg; lia.
Qed.

(** The bucket of a hash. *)
Lemma rep_bucket h0 : exists b l h,
  Z.land h0 (hash_mask rt) = Z.of_nat b /\
  bucket (Z.of_nat (length (atom_hash rt))) h0 = Z.of_nat b /\
  B !! b = Some l /\ atom_hash rt !! b = Some h /\ chain N h l /\ NoDup l /\
  (length l < chain_fuel rt)%nat /\
  (forall x, x ∈ l -> exists c, T !! x = Some c /\ interned c).
Proof.
  pose proof rep_hash_pos as Hpos.
  pose proof (bucket_range (Z.of_nat (length (atom_hash rt))) h0 Hpos) as Hb.
  destruct (lookup_lt_is_Some_2 (atom_hash rt) (Z.to_nat (bucket (Z.of_nat (length (atom_hash rt))) h0)))
    as [h Hh]; [lia|].
  pose proof (rep_buckets _ _ _ _ _ Hr) as HB.
  pose proof (bk_length _ _ _ _ _ HB) as HlB.
  destruct (lookup_lt_is_Some_2 B (Z.to_nat (bucket (Z.of_nat (length (atom_hash rt))) h0)))
    as [l Hl]; [lia|].
  eexists _, l, h. rewrite rep_mask. split_and!;
    [symmetry; apply Z2Nat.id; lia|symmetry; apply Z2Nat.id; lia|exact Hl|exact Hh|..].
  - by eapply bk_chain.
  - by eapply bk_nodup.
  - eapply bucket_length; [apply Hr|exact HB|exact Hl].
  - intros x Hx. destruct (bk_elem _ _ _ _ _ HB _ _ _ Hl Hx) as (_ & c & ? & ? & _). eauto.
Qed.

(** The chain of an interned atom. *)
Lemma rep_chain i a : T !! i = Some a -> interned a -> exists b l h,
  Z.land (a_hash a) (hash_mask rt) = Z.of_nat b /\
  B !! b = Some l /\ atom_hash rt !! b = Some h /\ chain N h l /\ NoDup l /\
  (length l < chain_fuel rt)%nat /\
  (forall x, x ∈ l -> exists c, T !! x = Some c /\ interned c) /\ i ∈ l.
Proof.
  intros Ha Hint. destruct (rep_bucket (a_hash a)) as (b & l & h & Eb & Eb' & Hl & ?).
  exists b, l, h. split_and!; try tauto.
  destruct (bk_in _ _ _ _ _ (rep_buckets _ _ _ _ _ Hr) i a Ha Hint I) as (b' & l' & Hl' & Hi).
  destruct (bk_elem _ _ _ _ _ (rep_buckets _ _ _ _ _ Hr) b' l' i Hl' Hi)
    as (_ & a' & Ha' & _ & E).
  rewrite Ha in Ha'. injection Ha' as <-. replace b' with b in * by lia. congruence.
Qed.

Lemma js_get_atom_index_spec i a : T !! i = Some a -> js_get_atom_index rt (a_ptr a) = Ret i.
Proof.
  intros Ha. pose proof (rep_core _ _ _ _ _ Hr) as Hc.
  destruct (core_next _ _ _ _ Hc i a Ha) as (n & Hn & Hst). unfold js_get_atom_index.
  rewrite (get_str_Some _ _ _ Hst). cbn [bind hash_next atom_type str_of hash].
  destruct (Z.eqb_spec (a_type a) JS_ATOM_TYPE_SYMBOL) as [E|E]; cbn [negb].
  - rewrite (un_sym _ _ (rep_unique _ _ _ _ _ Hr) i a Ha) in Hn; [by injection Hn as <-|].
    unfold interned. tauto.
  - destruct (rep_chain i a Ha E) as (b & l & h & -> & Hl & Hh & Hch & _ & Hlen & Hall & Hi).
    rewrite (rd_nat _ _ _ Hh). cbn [bind].
    destruct l as [|x l]; [by apply elem_of_nil in Hi|].
    assert (h = x) as -> by (by destruct Hch as (-> & _)).
    destruct (Hall x) as (c & Hx & _); [left|].
    rewrite (core_rd _ _ _ _ Hc x c Hx). cbn [bind].
    apply (get_index_walk rt T N Hc i a Ha (x :: l)); try done; [|lia].
    intros y Hy. destruct (Hall y Hy) as (d & -> & _). by eexists.
Qed.

(** Removing an atom from its chain. *)
Lemma buckets_remove b l1 i l2 : B !! b = Some (l1 ++ i :: l2) ->
  forall ht' N', length ht' = length (atom_hash rt) ->
  (forall h, ht' !! b = Some h -> chain N' h (l1 ++ l2)) ->
  (forall b', b' <> b -> ht' !! b' = atom_hash rt !! b') ->
  same_links N N' (l1 ++ i :: l2) ->
  buckets ht' (delete i T) N' (fun _ => True) (<[b := l1 ++ l2]> B).
Proof.
  intros Hl ht' N' Hlen Hch Hne HN.
  pose proof (rep_buckets _ _ _ _ _ Hr) as HB.
  pose proof (lookup_lt_Some _ _ _ Hl) as Hlt.
  pose proof (bk_nodup _ _ _ _ _ HB _ _ Hl) as Hnd.
  assert (Hnew : forall b' l' x, <[b := l1 ++ l2]> B !! b' = Some l' -> x ∈ l' ->
    x <> i /\ exists l0, B !! b' = Some l0 /\ x ∈ l0).
  { intros b' l' x [(<- & <- & _)|[Hb Hl']]%list_lookup_insert_Some Hx.
    - split; [|exists (l1 ++ i :: l2); split; [done|set_solver]].
      intros ->. apply NoDup_app in Hnd as (_ & Hd & Hnd).
      apply NoDup_cons in Hnd as [Hi _]. specialize (Hd i). set_solver.
    - split; [|by exists l']. intros ->. apply Hb.
      eapply (buckets_disjoint _ _ _ _ _ _ _ _ _ i HB Hl Hl'); set_solver. }
  split.
  - rewrite length_insert, Hlen. apply HB.
  - intros b' l' h Hl' Hh. destruct (decide (b' = b)) as [->|Hb].
    + rewrite list_lookup_insert_eq in Hl' by done. injection Hl' as <-. by apply Hch.
    + rewrite list_lookup_insert_ne in Hl' by done. rewrite Hne in Hh by done.
      eapply chain_frame; [by eapply bk_chain|]. intros x Hx. apply HN. intros Hin.
      apply Hb. symmetry. by eapply (buckets_disjoint _ _ _ _ _ _ _ _ _ x HB Hl Hl').
  - intros b' l' [(<- & <- & _)|[Hb Hl']]%list_lookup_insert_Some; [|by eapply bk_nodup].
    apply NoDup_app in Hnd as (? & ? & Hnd). apply NoDup_cons in Hnd as [? ?].
    apply NoDup_app. split_and!; [done|set_solver|done].
  - intros b' l' x Hl' Hx. split; [done|].
    destruct (Hnew b' l' x Hl' Hx) as (Hxi & l0 & Hl0 & Hx0).
    destruct (bk_elem _ _ _ _ _ HB b' l0 x Hl0 Hx0) as (_ & c & ? & ? & ?).
    exists c. rewrite lookup_delete_ne by done. by rewrite Hlen.
  - intros x c Hx Hint _. apply lookup_delete_Some in Hx as [Hxi Hx].
    destruct (bk_in _ _ _ _ _ HB x c Hx Hint I) as (b' & l' & Hl' & Hx').
    destruct (decide (b' = b)) as [->|Hb].
    + exists b, (l1 ++ l2). rewrite list_lookup_insert_eq by done. split; [done|].
      assert (l' = l1 ++ i :: l2) as -> by congruence. set_solver.
    + exists b', l'. by rewrite list_lookup_insert_ne.
Qed.

Lemma unlink_atom_spec i a n : T !! i = Some a -> interned a -> N !! i = Some n ->
  wp (unlink_atom rt (a_ptr a) (str_of a n)) (fun '(rt', i') => i' = i /\
    exists N' B' l, core (strings rt') (atom_array rt) T N' /\
      buckets (atom_hash rt') (delete i T) N' (fun _ => True) B' /\
      same_strings (strings rt) (strings rt') /\ same_links N N' l /\
      (forall x, x ∈ l -> exists c, T !! x = Some c /\ interned c) /\
      length (atom_hash rt') = length (atom_hash rt) /\
      rt' = set_hash (set_strings rt (strings rt')) (atom_hash rt')).
Proof.
  intros Ha Hint Hn. pose proof (rep_core _ _ _ _ _ Hr) as Hc.
  destruct (core_next _ _ _ _ Hc i a Ha) as (n' & Hn' & Hst).
  rewrite Hn in Hn'. injection Hn' as <-. unfold unlink_atom. cbn [hash str_of].
  destruct (rep_chain i a Ha Hint) as (b & l & h & -> & Hl & Hh & Hch & Hnd & Hlen & Hall & Hi).
  rewrite (rd_nat _ _ _ Hh). cbn [bind].
  apply list_elem_of_split in Hi as (l1 & l2 & ->).
  pose proof (lookup_lt_Some _ _ _ Hh) as Hlt.
  destruct l1 as [|x l1]; cbn [app] in *.
  - destruct Hch as (-> & Hi0 & n' & Hn' & Hch). rewrite Hn in Hn'. injection Hn' as <-.
    rewrite (core_rd _ _ _ _ Hc i a Ha). cbn [bind]. rewrite Z.eqb_refl.
    rewrite (get_str_Some _ _ _ Hst). cbn [bind hash_next str_of].
    rewrite wr_in, Nat2Z.id by lia. apply wp_ret. split; [done|].
    exists N, (<[b := l2]> B), []. split_and!; try done.
    + apply (buckets_remove b [] i l2 Hl); cbn [atom_hash set_hash app].
      * by rewrite length_insert.
      * rewrite list_lookup_insert_eq by done. by intros ? [= <-].
      * intros b' Hb. by apply list_lookup_insert_ne.
      * done.
    + by intros ? ?%elem_of_nil.
    + cbn. by rewrite length_insert.
  - assert (h = x) as -> by (by destruct Hch as (-> & _)).
    destruct (Hall x) as (c & Hx & _); [left|].
    rewrite (core_rd _ _ _ _ Hc x c Hx). cbn [bind].
    assert (Hix : i ∉ x :: l1).
    { rewrite app_comm_cons in Hnd. apply NoDup_app in Hnd as (_ & Hd & _).
      intros Hin. apply (Hd i Hin). left. }
    rewrite (ptr_eqb rt T N Hc i a Ha x c Hx), bool_decide_false by set_solver.
    destruct (unlink_walk rt T N Hc i a Ha l2 l1 (chain_fuel rt) x c Hx Hch Hix)
      as (pj & d & m & Hd & Hm & Hpj & E & Hchain).
    { intros y Hy. destruct (Hall y) as (e & -> & _); [set_solver|by eexists]. }
    { simpl in Hlen. rewrite length_app in Hlen. simpl in Hlen. lia. }
    specialize (Hchain Hch Hnd). apply wp_iff. eexists. split; [exact E|].
    split; [done|].
    exists (<[pj := m]> N), (<[b := x :: l1 ++ l2]> B), (x :: l1 ++ i :: l2).
    assert (Hpj' : pj ∈ x :: l1 ++ i :: l2) by set_solver.
    split_and!; try done.
    + exact (core_link _ _ _ _ Hc pj d m Hd).
    + apply (buckets_remove b (x :: l1) i l2 Hl); cbn [app atom_hash put_str set_strings].
      * done.
      * rewrite Hh. by intros ? [= <-].
      * done.
      * by apply same_links_insert.
    + exact (core_same_strings _ _ _ _ pj d d m Hc Hd (core_type _ _ _ _ Hc pj d Hd)).
    + by apply same_links_insert.
Qed.
End rep.

(** ** Reference counts and freeing *)

Lemma unique_delete T N N' i l : unique T N -> same_links N N' l ->
  (forall x, x ∈ l -> exists c, T !! x = Some c /\ interned c) ->
  unique (delete i T) N'.
Proof.
  intros [Hsym Hhash Hkey] HN Hl. split.
  - intros j b Hj Hint. apply lookup_delete_Some in Hj as [_ Hj].
    rewrite HN; [by eapply Hsym|]. intros Hin. destruct (Hl j Hin) as (c & Hc & Hci).
    rewrite Hj in Hc. injection Hc as ->. done.
  - intros j b Hj. apply lookup_delete_Some in Hj as [_ Hj]. by eapply Hhash.
  - intros j1 j2 b1 b2 H1 H2. apply lookup_delete_Some in H1 as [_ H1].
    apply lookup_delete_Some in H2 as [_ H2]. by apply Hkey.
Qed.

Lemma core_delete_same_strings S arr T N i a : core S arr T N -> T !! i = Some a ->
  same_strings S (delete (a_ptr a) S).
Proof.
  intros Hc Ha p s Hs. rewrite lookup_delete_Some. split; [tauto|].
  intros Hp. split; [|done]. by eapply core_ptr_ne.
Qed.

Lemma buckets_delete_symbol ht T N B i a : buckets ht T N (fun _ => True) B ->
  T !! i = Some a -> ~ interned a -> buckets ht (delete i T) N (fun _ => True) B.
Proof.
  intros HB Ha Hint. eapply buckets_frame; [exact HB|done| |].
  - intros j b Hj Hb. exists b. split; [|done]. rewrite lookup_delete_ne; [done|].
    intros <-. rewrite Ha in Hj. injection Hj as <-. done.
  - intros j b Hj Hb. apply lookup_delete_Some in Hj as [_ Hj]. eauto.
Qed.

(** The strings that are not atoms and the size of the hash table are the
    same. *)
Definition keeps (rt rt' : JSRuntime) : Prop :=
  same_strings (strings rt) (strings rt') /\ atom_hash_size rt' = atom_hash_size rt.

Lemma keeps_trans rt1 rt2 rt3 : keeps rt1 rt2 -> keeps rt2 rt3 -> keeps rt1 rt3.
Proof. intros [? ?] [? ?]. split; [by eapply same_strings_trans|congruence]. Qed.

Lemma JS_FreeAtomStruct_spec rt T F i a :
  atoms_wf rt T F -> T !! i = Some a -> 0 < i ->
  wp (JS_FreeAtomStruct rt (a_ptr a)) (fun rt' =>
    atoms_wf rt' (delete i T) (i :: F) /\ keeps rt rt').
Proof.
  intros (N & B & Hr) Ha Hi. pose proof (rep_core _ _ _ _ _ Hr) as Hc.
  destruct (core_next _ _ _ _ Hc i a Ha) as (n & Hn & Hst).
  pose proof (core_bound _ _ _ _ Hc i a Ha) as Hbi.
  unfold JS_FreeAtomStruct. rewrite (get_str_Some _ _ _ Hst).
  cbn [bind hash_next atom_type str_of]. apply wp_bind.
  apply (wp_mono _ (fun '(rt', i') => i' = i /\
    exists N' B', core (strings rt') (atom_array rt) T N' /\
      buckets (atom_hash rt') (delete i T) N' (fun _ => True) B' /\
      same_strings (strings rt) (strings rt') /\ unique (delete i T) N' /\
      length (atom_hash rt') = length (atom_hash rt) /\
      rt' = set_hash (set_strings rt (strings rt')) (atom_hash rt'))).
  { destruct (Z.eqb_spec (a_type a) JS_ATOM_TYPE_SYMBOL) as [E|E]; cbn [negb].
    - assert (Hint : ~ interned a) by (unfold interned; tauto).
      rewrite (un_sym _ _ (rep_unique _ _ _ _ _ Hr) i a Ha Hint) in Hn.
      injection Hn as <-. apply wp_ret. split; [done|]. exists N, B. split_and!.
      + done.
      + by eapply buckets_delete_symbol; [apply Hr|..].
      + done.
      + eapply (unique_delete _ _ _ _ []); [apply Hr|done|]. by intros ? ?%elem_of_nil.
      + done.
      + by destruct rt.
    - eapply wp_mono; [exact (unlink_atom_spec rt T F N B Hr i a n Ha E Hn)|].
      intros [rt' i'] (-> & N' & B' & l & ? & ? & ? & ? & ? & ? & ?). split; [done|].
      exists N', B'. split_and!; try done. eapply unique_delete; [apply Hr|done..]. }
  intros [rt' i'] (-> & N' & B' & Hc' & HB' & Hs & Hu & Hlen & E).
  assert (Harr : atom_array rt' = atom_array rt) by (by rewrite E).
  rewrite Harr, wr_in by lia. cbn [bind].
  assert (Hsize : (size (delete i T) = size T - 1)%nat)
    by (rewrite map_size_delete, Ha; lia).
  assert (Hpos : (size T ≠ 0)%nat).
  { intros H0%map_size_empty_inv. by rewrite H0, lookup_empty in Ha. }
  apply wp_bind, wp_assert.
  { apply Z.leb_le. cbn. rewrite E. cbn. rewrite (rep_count _ _ _ _ _ Hr). lia. }
  apply wp_ret. split; [exists N', B'|]; rewrite E in *; cbn in *.
  - pose proof (rep_max _ _ _ _ _ Hr) as Hmax.
    pose proof (rep_size _ _ _ _ _ Hr) as Hsz.
    split; cbn.
    + by apply core_delete.
    + apply slots_push with a; [apply Hr|done|lia|lia|].
      unfold JS_ATOM_MAX in Hmax. rewrite Z.shiftl_1_l in Hmax. lia.
    + done.
    + done.
    + rewrite length_insert. apply Hr.
    + apply Hr.
    + rewrite Hlen. apply Hr.
    + apply Hr.
    + apply Hr.
    + rewrite Hsize, (rep_count _ _ _ _ _ Hr). lia.
  - split; [|done].
    eapply same_strings_trans; [exact Hs|]. by eapply core_delete_same_strings.
Qed.

Lemma rep_set_rc rt T F N B i a n rc :
  atoms_rep rt T F N B -> T !! i = Some a -> N !! i = Some n ->
  atoms_rep (put_str rt (a_ptr a) (str_of (set_rc a rc) n))
    (<[i := set_rc a rc]> T) F N B.
Proof.
  intros Hr Ha Hn. pose proof (rep_core _ _ _ _ _ Hr) as Hc. split; cbn; try apply Hr.
  - rewrite <- (insert_id N i n Hn). apply core_update; [done..|].
    by apply (core_type _ _ _ _ Hc i a).
  - apply slots_update with a; [apply Hr|done..].
  - eapply buckets_frame; [apply Hr|done| |].
    + intros j b Hj Hb. destruct (decide (j = i)) as [->|Hne].
      * rewrite Ha in Hj. injection Hj as <-. exists (set_rc a rc).
        by rewrite lookup_insert_eq.
      * exists b. by rewrite lookup_insert_ne.
    + intros j b Hj Hb. apply lookup_insert_Some in Hj as [[<- <-]|[_ Hj]]; eauto.
  - destruct (rep_unique _ _ _ _ _ Hr) as [Hsym Hhash Hkey].
    assert (Hold : forall j b, <[i := set_rc a rc]> T !! j = Some b ->
      exists b', T !! j = Some b' /\ a_type b' = a_type b /\ a_chars b' = a_chars b /\
        a_hash b' = a_hash b).
    { intros j b [[<- <-]|[_ Hj]]%lookup_insert_Some; [by exists a|by exists b]. }
    split.
    + intros j b Hj Hint. destruct (Hold j b Hj) as (b' & Hb' & E & _).
      apply (Hsym j b' Hb'). unfold interned in *. by rewrite E.
    + intros j b Hj Hint. destruct (Hold j b Hj) as (b' & Hb' & E1 & E2 & E3).
      rewrite <- E1, <- E2, <- E3. apply (Hhash j b' Hb').
      unfold interned in *. by rewrite E1.
    + intros j1 j2 b1 b2 H1 H2 Hint Ety Ecs.
      destruct (Hold j1 b1 H1) as (b1' & Hb1' & E1 & E1' & _).
      destruct (Hold j2 b2 H2) as (b2' & Hb2' & E2 & E2' & _).
      apply (Hkey j1 j2 b1' b2' Hb1' Hb2'); [unfold interned in *; by rewrite E1|congruence..].
  - rewrite map_size_insert_Some by by eexists. apply Hr.
Qed.

(** One reference less on the atom [i]. *)
Definition released (T : table) (i : Z) (a : atom) : table :=
  if 0 <? a_rc a - 1 then <[i := set_rc a (a_rc a - 1)]> T else delete i T.

Definition released_free (F : list Z) (i : Z) (a : atom) : list Z :=
  if 0 <? a_rc a - 1 then F else i :: F.

Lemma wf_atom rt T F i a : atoms_wf rt T F -> T !! i = Some a -> exists n,
  rd (atom_array rt) i = Ret (a_ptr a) /\ strings rt !! a_ptr a = Some (str_of a n) /\
  forall rc, atoms_wf (put_str rt (a_ptr a) (str_of (set_rc a rc) n))
    (<[i := set_rc a rc]> T) F /\
    same_strings (strings rt) (<[a_ptr a := str_of (set_rc a rc) n]> (strings rt)).
Proof.
  intros (N & B & Hr) Ha. pose proof (rep_core _ _ _ _ _ Hr) as Hc.
  destruct (core_next _ _ _ _ Hc i a Ha) as (n & Hn & Hst). exists n.
  split; [by eapply core_rd|]. split; [done|]. intros rc. split.
  - exists N, B. by apply rep_set_rc.
  - apply (core_same_strings _ _ _ _ i a _ _ Hc Ha). by apply (core_type _ _ _ _ Hc i a).
Qed.

Lemma free_ref_spec rt T F i a : atoms_wf rt T F -> T !! i = Some a -> 0 < i ->
  forall n, strings rt !! a_ptr a = Some (str_of a n) ->
  let rt1 := put_str rt (a_ptr a) (with_ref_count (str_of a n) (a_rc a - 1)) in
  wp (if 0 <? a_rc a - 1 then Ret rt1 else JS_FreeAtomStruct rt1 (a_ptr a)) (fun rt' =>
    atoms_wf rt' (released T i a) (released_free F i a) /\ keeps rt rt').
Proof.
  intros Hwf Ha Hi n Hst rt1.
  destruct (wf_atom rt T F i a Hwf Ha) as (n' & _ & Hst' & Hset).
  rewrite Hst in Hst'. injection Hst' as <-.
  destruct (Hset (a_rc a - 1)) as [Hwf1 Hs1].
  unfold released, released_free. destruct (0 <? a_rc a - 1); [by split|].
  rewrite <- (delete_insert_eq T i (set_rc a (a_rc a - 1))).
  eapply wp_mono.
  - apply (JS_FreeAtomStruct_spec rt1 _ F i (set_rc a (a_rc a - 1)) Hwf1);
      [apply lookup_insert_eq|done].
  - intros rt' [? [? ?]]. split; [done|]. split; [|done]. by eapply same_strings_trans.
Qed.

Lemma __JS_FreeAtom_spec rt T F i a : atoms_wf rt T F -> T !! i = Some a -> 0 < i ->
  wp (__JS_FreeAtom rt i) (fun rt' =>
    atoms_wf rt' (released T i a) (released_free F i a) /\ keeps rt rt').
Proof.
  intros Hwf Ha Hi. destruct (wf_atom rt T F i a Hwf Ha) as (n & Hrd & Hst & _).
  unfold __JS_FreeAtom. rewrite Hrd. cbn [bind].
  rewrite (get_str_Some _ _ _ Hst). cbn [bind ref_count str_of].
  by apply free_ref_spec.
Qed.

(** ** Strings that come and go *)

(** The strings that are not atoms are the same, except at [p]. *)
Definition other_strings (S S' : gmap Z JSString) (p : Z) : Prop :=
  forall q s, q <> p -> atom_type s = 0 -> S' !! q = Some s <-> S !! q = Some s.

Lemma same_other S S' p : same_strings S S' -> other_strings S S' p.
Proof. intros H q s _. apply H. Qed.

Lemma other_strings_trans S1 S2 S3 p :
  other_strings S1 S2 p -> other_strings S2 S3 p -> other_strings S1 S3 p.
Proof. intros H1 H2 q s Hq Hs. rewrite (H2 q s Hq Hs). by apply H1. Qed.

Lemma other_strings_insert (S : gmap Z JSString) p s : other_strings S (<[p := s]> S) p.
Proof. intros q t Hq _. by rewrite lookup_insert_ne. Qed.

Lemma other_strings_delete (S : gmap Z JSString) p : other_strings S (delete p S) p.
Proof. intros q t Hq _. by rewrite lookup_delete_ne. Qed.

Lemma rep_set_strings rt T F N B S : atoms_rep rt T F N B ->
  core S (atom_array rt) T N -> atoms_rep (set_strings rt S) T F N B.
Proof. intros Hr Hc. split; cbn; [exact Hc|apply Hr..]. Qed.

Lemma js_free_string_spec rt T F p s : atoms_wf rt T F ->
  strings rt !! p = Some s -> atom_type s = 0 ->
  wp (js_free_string rt p) (fun rt' => atoms_wf rt' T F /\
    other_strings (strings rt) (strings rt') p /\
    strings rt' !! p = if ref_count s - 1 <=? 0 then None
                       else Some (with_ref_count s (ref_count s - 1))).
Proof.
  intros (N & B & Hr) Hp Hs. unfold js_free_string.
  rewrite (get_str_Some _ _ _ Hp). cbn [bind]. rewrite Hs. cbn [Z.eqb negb].
  destruct (core_str _ _ _ _ (rep_core _ _ _ _ _ Hr) _ _ Hp) as (Hpos & Hev & _).
  destruct (ref_count s - 1 <=? 0); apply wp_ret; (split; [exists N, B|split]); cbn.
  - unfold free_str, put_str. cbn [strings set_strings]. rewrite delete_insert_eq.
    refine (rep_set_strings rt T F N B _ Hr _). by eapply core_free_string; [apply Hr|..].
  - rewrite delete_insert_eq. apply other_strings_delete.
  - apply lookup_delete_eq.
  - refine (rep_set_strings rt T F N B _ Hr _).
    apply core_put_string; [apply Hr|..|done|done|done].
    intros s'. rewrite Hp. by intros [= <-].
  - apply other_strings_insert.
  - apply lookup_insert_eq.
Qed.

(** Releasing the string structure of an atom. *)
Lemma js_free_string_atom_spec rt T F i a : atoms_wf rt T F -> T !! i = Some a -> 0 < i ->
  wp (js_free_string rt (a_ptr a)) (fun rt' =>
    atoms_wf rt' (released T i a) (released_free F i a) /\ keeps rt rt').
Proof.
  intros Hwf Ha Hi. destruct (wf_atom rt T F i a Hwf Ha) as (n & _ & Hst & _).
  unfold js_free_string. rewrite (get_str_Some _ _ _ Hst). cbn [bind ref_count str_of].
  pose proof (free_ref_spec rt T F i a Hwf Ha Hi n Hst) as H. cbv zeta in H.
  assert (Hty : a_type a <> 0).
  { destruct Hwf as (N & B & Hr). pose proof (core_type _ _ _ _ (rep_core _ _ _ _ _ Hr) i a Ha).
    lia. }
  cbn [atom_type str_of]. destruct (Z.eqb_spec (a_type a) 0); [done|]. cbn [negb].
  destruct (Z.leb_spec (a_rc a - 1) 0), (Z.ltb_spec 0 (a_rc a - 1)); [lia|exact H|exact H|lia].
Qed.

(** ** A new atom in a free slot *)

Lemma rep_index_bound rt T F N B : atoms_rep rt T F N B ->
  Z.of_nat (size T) <= Z.of_nat (length (atom_array rt)).
Proof.
  intros Hr. apply inj_le. rewrite <- (size_dom (D := gset Z) T).
  change (size (dom T)) with (length (elements (dom T : gset Z))).
  apply index_list_length; [apply NoDup_elements|]. intros i Hi.
  apply elem_of_elements, elem_of_dom in Hi as [a Ha].
  eapply core_bound; [apply Hr|exact Ha].
Qed.

Definition fresh_key (T : table) (ty : Z) (cs : list Z) : Prop :=
  forall i a, T !! i = Some a -> a_type a = ty -> a_chars a <> cs.

Lemma unique_insert T N i a n : unique T N -> T !! i = None ->
  (~ interned a -> n = i) ->
  (interned a -> a_hash a = key_hash (a_type a) (a_chars a) /\
                 fresh_key T (a_type a) (a_chars a)) ->
  unique (<[i := a]> T) (<[i := n]> N).
Proof.
  intros [Hsym Hhash Hkey] Hi Hs Hf. split.
  - intros j b [[<- <-]|[Hne Hj]]%lookup_insert_Some Hint.
    + rewrite lookup_insert_eq. by rewrite Hs.
    + rewrite lookup_insert_ne by done. by eapply Hsym.
  - intros j b [[<- <-]|[Hne Hj]]%lookup_insert_Some Hint; [by apply Hf|by eapply Hhash].
  - intros j1 j2 b1 b2 [[<- <-]|[Hn1 H1]]%lookup_insert_Some
      [[<- <-]|[Hn2 H2]]%lookup_insert_Some Hint Ety Ecs; [done| | |by eapply Hkey].
    + destruct (Hf Hint) as [_ Hfr]. by destruct (Hfr j2 b2 H2).
    + assert (Hint' : interned a) by (unfold interned in *; congruence).
      destruct (Hf Hint') as [_ Hfr]. by destruct (Hfr j1 b1 H1).
Qed.

Lemma unique_unlink T N N' i a : unique (<[i := a]> T) N -> interned a ->
  (forall j, j <> i -> N' !! j = N !! j) -> unique (<[i := a]> T) N'.
Proof.
  intros [Hsym Hhash Hkey] Ha HN. split; [|done..].
  intros j b Hj Hint. rewrite HN; [by eapply Hsym|]. intros ->.
  rewrite lookup_insert_eq in Hj. by injection Hj as <-.
Qed.

(** The other atoms in their buckets, when the atom [i] enters the table. *)
Lemma buckets_others ht T N B i a n : buckets ht T N (fun _ => True) B ->
  T !! i = None -> buckets ht (<[i := a]> T) (<[i := n]> N) (fun j => j <> i) B.
Proof.
  intros HB Hi.
  assert (Hne : forall b l j, B !! b = Some l -> j ∈ l -> j <> i).
  { intros b l j Hl Hj ->. destruct (bk_elem _ _ _ _ _ HB b l i Hl Hj) as (_ & c & Hc & _).
    congruence. }
  split.
  - apply HB.
  - intros b l h Hl Hh. apply chain_insert_ne; [by eapply bk_chain|].
    intros Hin. by eapply Hne.
  - apply HB.
  - intros b l j Hl Hj. split; [by eapply Hne|].
    destruct (bk_elem _ _ _ _ _ HB b l j Hl Hj) as (_ & c & Hc & ?).
    exists c. rewrite lookup_insert_ne; [done|]. intros <-. by eapply Hne.
  - intros j c Hj Hint Hji. rewrite lookup_insert_ne in Hj by done.
    by eapply bk_in.
Qed.

(** What an atom of a new slot must satisfy. *)
Definition new_atom_ok (T : table) (aty h : Z) (cs : list Z) : Prop :=
  (aty = JS_ATOM_TYPE_SYMBOL /\ True) \/
  ((aty = JS_ATOM_TYPE_STRING \/ aty = JS_ATOM_TYPE_GLOBAL_SYMBOL) /\
   h = key_hash aty cs /\ fresh_key T aty cs).

Section link.
Context (rt : JSRuntime) (T : table) (i : Z) (F : list Z) (N : gmap Z Z) (B : list (list Z)).
Context (Hr : atoms_rep rt T (i :: F) N B).
Context (p : Z) (s : JSString) (Hp : 0 < p) (Hev : Z.even p = true).
Context (Hnew : forall s', strings rt !! p = Some s' -> atom_type s' = 0).

Definition made (aty h : Z) : atom :=
  mkAtom p (ref_count s) (is_wide_char s) (chars s) h aty.

Lemma link_core aty h n : 1 <= aty <= 3 ->
  core (<[p := str_of (made aty h) n]> (strings rt)) (<[Z.to_nat i := p]> (atom_array rt))
    (<[i := made aty h]> T) (<[i := n]> N).
Proof.
  intros Hty. pose proof (rep_slots _ _ _ _ _ Hr) as Hsl.
  destruct (slots_free _ _ _ _ Hsl i) as [Hi Hb]; [left|].
  apply core_insert; [apply Hr|done|lia|done..].
Qed.

Lemma link_atom_spec aty h : new_atom_ok T aty h (chars s) ->
  forall h1, (aty <> JS_ATOM_TYPE_SYMBOL -> h1 = Z.land h (hash_mask rt)) ->
  wp (link_atom (put_str rt p s) p aty h h1) (fun '(rt', j) =>
    j = i /\ atoms_wf rt' (<[i := made aty h]> T) F /\
    other_strings (strings rt) (strings rt') p).
Proof.
  intros Hok h1 Hh1. pose proof (rep_slots _ _ _ _ _ Hr) as Hsl.
  destruct (slots_pop _ _ _ i F (made aty h) p Hsl) as (e & Hfi & Hrd & Hb & Hi & Hsl').
  assert (Hty : 1 <= aty <= 3) by (destruct Hok as [[-> _]|[[->| ->] _]];
        unfold JS_ATOM_TYPE_SYMBOL, JS_ATOM_TYPE_STRING, JS_ATOM_TYPE_GLOBAL_SYMBOL; lia).
  unfold link_atom. cbn [atom_free_index atom_array put_str set_strings].
  rewrite Hfi, Hrd. cbn [bind]. rewrite wr_in by lia. cbn [bind].
  rewrite (get_str_Some _ _ s) by apply lookup_insert_eq. cbn [bind].
  unfold put_str, set_slots, set_strings.
  cbn [strings atom_hash atom_hash_size atom_count
       atom_count_resize atom_array atom_free_index atom_size mem].
  assert (Hsz : size (<[i := made aty h]> T) = S (size T)) by (by rewrite map_size_insert_None).
  pose proof (rep_count _ _ _ _ _ Hr) as Hcount.
  destruct (Z.eqb_spec aty JS_ATOM_TYPE_SYMBOL) as [E|E]; cbn [negb].
  - apply wp_ret. split; [done|]. split.
    + exists (<[i := i]> N), B. rewrite insert_insert_eq. split; cbn; try apply Hr.
      * exact (link_core aty h i Hty).
      * exact Hsl'.
      * eapply buckets_frame; [apply Hr| | |].
        -- intros b l j Hl Hj. apply lookup_insert_ne. intros <-.
           destruct (bk_elem _ _ _ _ _ (rep_buckets _ _ _ _ _ Hr) b l i Hl Hj)
             as (_ & c & Hc & _). congruence.
        -- intros j b Hj Hint. exists b. rewrite lookup_insert_ne; [done|].
           intros <-. congruence.
        -- intros j b [[<- <-]|[_ Hj]]%lookup_insert_Some Hint; [|eauto].
           by destruct Hint.
      * apply unique_insert; [apply Hr|done|done|]. intros Hint. by destruct Hint.
      * rewrite length_insert. apply Hr.
      * rewrite Hsz, Hcount. lia.
    + rewrite insert_insert_eq. apply other_strings_insert.
  - rewrite Hh1 by done. destruct (rep_bucket _ _ _ _ _ Hr h)
      as (b & l & h0 & Eb & Eb' & Hl & Hh0 & Hch & Hndl & _ & Hall).
    destruct Hok as [[? _]|(_ & Ehash & Hfresh)]; [done|].
    pose proof (lookup_lt_Some _ _ _ Hh0) as Hlt.
    rewrite Eb, (rd_nat _ _ _ Hh0). cbn [bind].
    rewrite wr_in, Nat2Z.id by lia. cbn [bind].
    unfold set_hash. cbn [strings atom_hash atom_hash_size atom_count
       atom_count_resize atom_array atom_free_index atom_size mem].
    rewrite insert_insert_eq.
    destruct (buckets_insert (atom_hash rt) (<[i := made aty h]> T) (<[i := h0]> N)
      (fun j => j <> i) (fun _ => True) B i (made aty h) h0 b) as [B' HB'].
    { apply buckets_others; [apply Hr|done]. }
    { apply lookup_insert_eq. }
    { done. }
    { tauto. }
    { lia. }
    { intros j. split; [|done]. intros _. destruct (decide (j = i)); tauto. }
    { exact Eb'. }
    { done. }
    rewrite insert_insert_eq in HB'.
    set (rt1 := mkRt _ _ _ _ _ _ _ _ _).
    assert (Hrep : atoms_rep rt1 (<[i := made aty h]> T) F (<[i := h0]> N) B').
    { split; cbn; try apply Hr.
      - rewrite insert_insert_eq. exact (link_core aty h h0 Hty).
      - exact Hsl'.
      - exact HB'.
      - apply unique_insert; [apply Hr|done|by intros []|by split].
      - rewrite length_insert. apply Hr.
      - rewrite length_insert. apply Hr.
      - rewrite Hsz, Hcount. lia. }
    assert (Hother : other_strings (strings rt) (strings rt1) p).
    { cbn. rewrite insert_insert_eq. apply other_strings_insert. }
    fold rt1. destruct (Z.leb_spec (atom_count_resize rt) (atom_count rt + 1)) as [Hge|_].
    + destruct (rep_pow2 _ _ _ _ _ Hr) as (k & Hk & Ek).
      assert (Hk' : k + 1 <= 30).
      { pose proof (rep_index_bound _ _ _ _ _ Hrep) as Hib.
        pose proof (rep_size _ _ _ _ _ Hrep). pose proof (rep_max _ _ _ _ _ Hrep) as Hmax.
        rewrite (rep_resize _ _ _ _ _ Hr), Ek in Hge. rewrite Hsz in Hib.
        unfold JS_ATOM_MAX in Hmax. rewrite Z.shiftl_1_l in Hmax.
        apply Z.nlt_ge. intros Hgt.
        assert (2 ^ 30 <= 2 ^ k) by (apply Z.pow_le_mono_r; lia). lia. }
      replace (atom_hash_size rt * 2) with (2 ^ (k + 1))
        by (rewrite Ek, Z.pow_add_r by lia; lia).
      apply wp_bind. eapply wp_mono.
      { apply (resize_spec rt1 (<[i := made aty h]> T) (k + 1)); [|apply Hrep|lia].
        exists (<[i := h0]> N), B'. split; [apply Hrep|]. split; apply Hrep. }
      intros [rt2 ok] [Hs Hres]. apply wp_ret. cbn [fst]. split; [done|].
      split; [|eapply other_strings_trans; [exact Hother|by apply same_other]].
      destruct ok.
      * destruct Hres as ((N2 & B2 & Hc2 & HB2 & Hu2) & Hlen & E2). exists N2, B2.
        rewrite E2 in Hc2, HB2 |- *. cbn in Hc2, HB2. split; cbn; try apply Hrep; try done.
        -- exists (k + 1). split; [lia|done].
      * exists (<[i := h0]> N), B'. rewrite Hres.
        refine (match Hrep with Build_atoms_rep _ _ _ _ _ H1 H2 H3 H4 H5 H6 H7 H8 H9 H10 => _ end).
        by split.
    + apply wp_ret. split; [done|]. split; [|exact Hother]. by exists (<[i := h0]> N), B'.
Qed.
End link.

(** ** More slots *)

Definition free_cell (n i : Z) : Z := atom_set_free (if i =? n - 1 then 0 else i + 1).

Lemma fill_spec (a : list Z) start n : 0 <= start <= n -> Z.of_nat (length a) = n ->
  wp (for_upto (Z.to_nat (n - start)) start (fun i a =>
        let next := if i =? n - 1 then 0 else i + 1 in
        wr a i (atom_set_free next)) a)
    (fun a' => length a' = length a /\
      (forall j, 0 <= j < start -> a' !! Z.to_nat j = a !! Z.to_nat j) /\
      (forall j, start <= j < n -> a' !! Z.to_nat j = Some (free_cell n j))).
Proof.
  intros Hs Hn. eapply wp_mono.
  - apply (wp_for (fun i a' => length a' = length a /\
      (forall j, 0 <= j < start -> a' !! Z.to_nat j = a !! Z.to_nat j) /\
      (forall j, start <= j < i -> a' !! Z.to_nat j = Some (free_cell n j)))).
    + intros i a' Hi (Hlen & Hlo & Hhi). apply wp_wr; [lia|].
      rewrite length_insert. split_and!; [done|..].
      * intros j Hj. rewrite list_lookup_insert_ne by lia. by apply Hlo.
      * intros j Hj. destruct (decide (j = i)) as [->|Hne].
        -- by rewrite list_lookup_insert_eq by lia.
        -- rewrite list_lookup_insert_ne by lia. apply Hhi. lia.
    + split_and!; [done..|]. intros j Hj. lia.
  - intros a' (? & ? & Hhi). split_and!; [done..|]. intros j Hj. apply Hhi. lia.
Qed.

Lemma fill_chain (a : list Z) n : n <= 2 ^ 30 -> forall k i, 0 < i -> i + Z.of_nat k = n ->
  (forall j, i <= j < n -> a !! Z.to_nat j = Some (free_cell n j)) ->
  free_chain a (if Nat.eqb k 0 then 0 else i) (seqZ i (Z.of_nat k)).
Proof.
  intros Hn k. induction k as [|k IH]; intros i Hi E Ha; [done|].
  rewrite seqZ_cons by lia. cbn [Nat.eqb free_chain]. split; [done|]. split; [done|].
  exists (free_cell n i). split; [apply Ha; lia|]. unfold free_cell.
  replace (Z.succ i) with (i + 1) by lia.
  replace (Z.pred (Z.of_nat (S k))) with (Z.of_nat k) by lia.
  rewrite atom_get_set_free by (destruct (Z.eqb_spec i (n - 1)); lia).
  specialize (IH (i + 1) ltac:(lia) ltac:(lia)). destruct k as [|k].
  - destruct (Z.eqb_spec i (n - 1)); [done|lia].
  - destruct (Z.eqb_spec i (n - 1)); [lia|]. apply IH. intros j Hj. apply Ha. lia.
Qed.

Definition null_atom (p : Z) : atom := mkAtom p 1 false [] 0 JS_ATOM_TYPE_SYMBOL.

(** The table with its first entry. *)
Definition with_null (T T' : table) : Prop :=
  T' = T \/ (T = ∅ /\ exists p, T' = {[ 0 := null_atom p ]}).

Lemma core_array S arr arr' T N : core S arr T N ->
  (forall i a, T !! i = Some a -> arr' !! Z.to_nat i = arr !! Z.to_nat i) ->
  core S arr' T N.
Proof.
  intros Hc Harr. split; [|apply Hc..]. intros i a Ha.
  destruct (core_atom _ _ _ _ Hc i a Ha) as (? & ? & ? & ?).
  split_and!; [done|by rewrite (Harr i a Ha)|done|lia..].
Qed.

Lemma slots_filled T a start n :
  0 < start < n -> n <= 2 ^ 30 -> Z.of_nat (length a) = n ->
  (forall j, start <= j < n -> a !! Z.to_nat j = Some (free_cell n j)) ->
  (forall i, 0 <= i < start <-> is_Some (T !! i)) ->
  (exists b, T !! 0 = Some b /\ a_type b = JS_ATOM_TYPE_SYMBOL) ->
  slots a start T (seqZ start (n - start)).
Proof.
  intros Hs Hn Hlen Ha HT Hnull. split.
  - pose proof (fill_chain a n Hn (Z.to_nat (n - start)) start ltac:(lia) ltac:(lia) Ha) as H.
    rewrite Z2Nat.id in H by lia.
    destruct (Nat.eqb_spec (Z.to_nat (n - start)) 0); [lia|exact H].
  - apply NoDup_seqZ.
  - intros i Hi%elem_of_seqZ. split; [|lia].
    apply eq_None_not_Some. intros Hsome%HT. lia.
  - intros i Hi. destruct (decide (i < start)) as [Hlt|Hge].
    + right. apply HT. lia.
    + left. apply elem_of_seqZ. lia.
  - by right.
Qed.

Lemma empty_array rt T F N B : atoms_rep rt T F N B -> atom_size rt = 0 ->
  atom_array rt = [] /\ T = ∅.
Proof.
  intros Hr H0. rewrite (rep_size _ _ _ _ _ Hr) in H0.
  destruct (atom_array rt) as [|x l] eqn:E; [|simpl in H0; lia]. split; [done|].
  apply map_empty. intros i. apply eq_None_not_Some. intros [a Ha].
  pose proof (core_bound _ _ _ _ (rep_core _ _ _ _ _ Hr) i a Ha) as Hb.
  rewrite E in Hb. simpl in Hb. lia.
Qed.

Lemma buckets_interned ht T T' N N' B : buckets ht T N (fun _ => True) B ->
  (forall i a, interned a -> T' !! i = Some a <-> T !! i = Some a) ->
  (forall i a, interned a -> T !! i = Some a -> N' !! i = N !! i) ->
  buckets ht T' N' (fun _ => True) B.
Proof.
  intros HB HT HN. eapply buckets_frame; [exact HB| | |].
  - intros b l i Hl Hi. destruct (bk_elem _ _ _ _ _ HB b l i Hl Hi) as (_ & a & ? & ? & _).
    by eapply HN.
  - intros i a Ha Hint. exists a. by rewrite HT.
  - intros i a Ha Hint. exists a. by rewrite <- HT.
Qed.

Section grow.
Context {alok : JSMallocOk al}.

Lemma malloc_str_fresh rt n rt' p : malloc_str rt n = (rt', Some p) ->
  strings rt !! p = None /\ 0 < p /\ Z.even p = true.
Proof.
  unfold malloc_str. destruct (js_malloc_rt (mem rt) (dom (strings rt)) n) as [h o] eqn:E.
  intros [= <- ->]. destruct (alok _ _ _ _ _ E) as (Hp & ? & ?).
  split_and!; [by apply not_elem_of_dom|done..].
Qed.

Lemma malloc_str_mem rt n rt' o : malloc_str rt n = (rt', o) -> rt' = set_mem rt (mem rt').
Proof. unfold malloc_str. destruct (js_malloc_rt _ _ _). by intros [= <- <-]. Qed.

Lemma rep_set_mem rt T F N B h : atoms_rep rt T F N B -> atoms_rep (set_mem rt h) T F N B.
Proof. intros Hr. split; cbn; apply Hr. Qed.

Definition grown_size (rt : JSRuntime) : Z := Z.max 211 (atom_size rt * 3 / 2).
Definition first_free (rt : JSRuntime) : Z := Z.max 1 (atom_size rt).

Lemma grow_atoms_spec rt T N B :
  atoms_rep rt T [] N B -> atom_size rt * 3 <= INT32_MAX ->
  wp (grow_atoms rt) (fun '(rt', ok) => keeps rt rt' /\
    if ok : bool then exists T', with_null T T' /\
      atoms_wf rt' T' (seqZ (first_free rt) (grown_size rt - first_free rt))
    else atoms_wf rt' T []).
Proof.
  intros Hr Hmax. unfold grow_atoms. fold (grown_size rt).
  destruct (Z.ltb_spec INT32_MAX (atom_size rt * 3)); [lia|].
  destruct (Z.ltb_spec JS_ATOM_MAX (grown_size rt)) as [_|Hbig].
  { apply wp_ret. split; [by split|]. by exists N, B. }
  destruct (js_realloc_rt (mem rt) (grown_size rt)) as [h ok]. destruct ok; cbn [negb].
  2: { apply wp_ret. split; [by split|]. exists N, B. by apply rep_set_mem. }
  pose proof (rep_size _ _ _ _ _ Hr) as Hsz.
  assert (Hgt : first_free rt < grown_size rt) by (unfold grown_size, first_free in *; dlia).
  assert (H30 : JS_ATOM_MAX < 2 ^ 30) by (vm_compute; done).
  cbn [atom_size atom_array set_mem]. set (arr0 := atom_array rt ++ replicate _ 0).
  assert (Hlen0 : Z.of_nat (length arr0) = grown_size rt).
  { unfold arr0. rewrite length_app, length_replicate.
    unfold first_free in Hgt. lia. }
  assert (Hold : forall i, 0 <= i < atom_size rt -> arr0 !! Z.to_nat i = atom_array rt !! Z.to_nat i).
  { intros i Hi. unfold arr0. by rewrite lookup_app_l by lia. }
  destruct (Z.eqb_spec (atom_size rt) 0) as [E0|E0].
  - destruct (empty_array _ _ _ _ _ Hr E0) as [Earr ->].
    destruct (malloc_str (set_mem rt h) sizeof_JSString) as [rt1 [p|]] eqn:Em.
    2: { cbn [bind]. apply wp_ret. rewrite (malloc_str_mem _ _ _ _ Em).
         split; [by split|]. exists N, B. by apply rep_set_mem, rep_set_mem. }
    destruct (malloc_str_fresh _ _ _ _ Em) as (Hfr & Hp & Hev).
    rewrite (malloc_str_mem _ _ _ _ Em). clear Em. cbn [strings set_mem] in Hfr.
    rewrite wr_in by (unfold grown_size in *; lia). cbn [bind].
    unfold put_str, set_strings, set_slots. cbn [strings atom_hash atom_hash_size atom_count
       atom_count_resize atom_array atom_free_index atom_size mem set_mem].
    apply wp_bind. unfold first_free. rewrite E0.
    eapply wp_mono; [apply fill_spec; [unfold grown_size in *; lia|by rewrite length_insert]|].
    intros a (Hlen & Hlo & Hhi). apply wp_ret. rewrite length_insert in Hlen.
    assert (H0 : a !! 0%nat = Some p).
    { change 0%nat with (Z.to_nat 0). rewrite (Hlo 0) by lia.
      apply list_lookup_insert_eq. unfold grown_size in *; lia. }
    split.
    { split; [|done]. cbn. intros q s Hs. rewrite lookup_insert_Some. split.
      - intros [[_ <-]|[_ ?]]; [done|done].
      - intros Hq. right. split; [|done]. intros <-. congruence. }
    exists {[ 0 := null_atom p ]}. split; [right; split; [done|by exists p]|].
    exists (<[0 := 0]> N), B.
    assert (Hint : ~ interned (null_atom p)) by (unfold interned; cbn; tauto).
    split; cbn.
    + assert (Hc0 : core (strings rt) a ∅ N).
      { destruct (rep_core _ _ _ _ _ Hr) as [_ _ Hstr]. split; [done|done|].
        intros q s Hq. by apply Hstr. }
      rewrite <- (list_insert_id a 0 p) by done.
      apply (core_insert _ _ _ _ Hc0 0 (null_atom p) 0 p); try done.
      * unfold grown_size in *. lia.
      * by rewrite Hfr.
    + apply slots_filled; [unfold grown_size; lia|lia|lia|exact Hhi| |].
      * intros i. rewrite lookup_singleton_is_Some. lia.
      * exists (null_atom p). by rewrite lookup_singleton_eq.
    + eapply buckets_interned; [apply Hr| |].
      * intros i b Hb. rewrite lookup_singleton_Some, lookup_empty. split; [|done].
        by intros [_ <-].
      * intros i b _. by rewrite lookup_empty.
    + apply (unique_insert ∅ N 0 (null_atom p) 0); [apply Hr|done|done|done].
    + lia.
    + lia.
    + apply Hr.
    + apply Hr.
    + apply Hr.
    + rewrite (rep_count _ _ _ _ _ Hr). done.
  - cbn [bind]. apply wp_bind.
    pose proof (rep_slots _ _ _ _ _ Hr) as Hsl.
    assert (Hff : first_free rt = atom_size rt) by (unfold first_free; lia).
    eapply wp_mono; [apply fill_spec; [lia|done]|].
    intros a (Hlen & Hlo & Hhi). apply wp_ret. split; [by split|].
    exists T. split; [by left|]. exists N, B.
    assert (HT : forall i, 0 <= i < atom_size rt <-> is_Some (T !! i)).
    { intros i. split.
      - intros Hi. destruct (slots_all _ _ _ _ Hsl i) as [?%elem_of_nil|?]; [lia|done..].
      - intros [b Hb]. pose proof (core_bound _ _ _ _ (rep_core _ _ _ _ _ Hr) i b Hb). lia. }
    split; cbn; try apply Hr.
    + eapply core_array; [apply Hr|]. intros i b Hb.
      assert (Hi : 0 <= i < atom_size rt) by (apply HT; by eexists).
      by rewrite Hlo, Hold.
    + rewrite Hff. apply slots_filled; [lia|lia|lia|exact Hhi|exact HT|].
      destruct (slots_null _ _ _ _ Hsl) as [Earr|?]; [|done].
      rewrite Earr in Hsz. simpl in Hsz. lia.
    + lia.
    + lia.
Qed.

(** ** New atoms *)

(** The slot taken from [F], or from the new slots when there is none. *)
Definition next_free (rt : JSRuntime) (F : list Z) (j : Z) (F' : list Z) : Prop :=
  F = j :: F' \/
  (F = [] /\ j :: F' = seqZ (first_free rt) (grown_size rt - first_free rt)).

Lemma reserve_spec rt T F :
  atoms_wf rt T F -> (F = [] -> atom_size rt * 3 <= INT32_MAX) ->
  wp (if atom_free_index rt =? 0 then grow_atoms rt else Ret (rt, true))
    (fun '(rt', ok) => keeps rt rt' /\
      if ok : bool then exists T' j F', with_null T T' /\ next_free rt F j F' /\
        atoms_wf rt' T' (j :: F')
      else atoms_wf rt' T F).
Proof.
  intros (N & B & Hr) Hmax. pose proof (rep_slots _ _ _ _ _ Hr) as Hsl.
  destruct (Z.eqb_spec (atom_free_index rt) 0) as [E|E].
  - assert (F = []) as ->.
    { destruct F as [|j F]; [done|]. destruct (slots_chain _ _ _ _ Hsl) as (Ej & Hj & _). lia. }
    eapply wp_mono; [eapply grow_atoms_spec; [exact Hr|by apply Hmax]|]. intros [rt' [|]] [Hk H]; (split; [done|]).
    + destruct H as (T' & HT & Hwf).
      rewrite seqZ_cons in Hwf.
      2: { unfold grown_size, first_free. rewrite (rep_size _ _ _ _ _ Hr). dlia. }
      exists T', (first_free rt), (seqZ (Z.succ (first_free rt))
        (Z.pred (grown_size rt - first_free rt))).
      split; [done|]. split; [right|done]. split; [done|].
      rewrite (seqZ_cons (first_free rt)); [done|].
      unfold grown_size, first_free. rewrite (rep_size _ _ _ _ _ Hr). dlia.
    + done.
  - destruct (slots_head _ _ _ F Hsl E) as [F' ->]. apply wp_ret. split; [by split|].
    exists T, (atom_free_index rt), F'. split; [by left|]. split; [by left|].
    by exists N, B.
Qed.

Lemma with_null_ok T T' aty h cs : with_null T T' ->
  new_atom_ok T aty h cs -> new_atom_ok T' aty h cs.
Proof.
  intros [->|[-> [p ->]]]; [done|]. intros [H|(Hty & Hh & _)]; [by left|right].
  split_and!; [done..|]. intros i a Ha Ety.
  apply lookup_singleton_Some in Ha as [_ <-]. cbn in Ety. subst aty.
  by destruct Hty.
Qed.

Lemma wf_free_slot rt T j F : atoms_wf rt T (j :: F) -> T !! j = None /\ j <> 0.
Proof.
  intros (N & B & Hr).
  destruct (slots_free _ _ _ _ (rep_slots _ _ _ _ _ Hr) j) as [? ?]; [left|].
  split; [done|lia].
Qed.

Lemma wf_string rt T F p s : atoms_wf rt T F -> strings rt !! p = Some s ->
  0 < p /\ Z.even p = true.
Proof.
  intros (N & B & Hr) Hp. by destruct (core_str _ _ _ _ (rep_core _ _ _ _ _ Hr) p s Hp)
    as (? & ? & _).
Qed.

Lemma keeps_mask rt rt' : keeps rt rt' -> hash_mask rt' = hash_mask rt.
Proof. intros [_ E]. unfold hash_mask. by rewrite E. Qed.

(** [link_atom] after the structure has been stored. *)
Lemma link_new rt T j F p s aty h h1 :
  atoms_wf rt T (j :: F) -> 0 < p -> Z.even p = true ->
  (forall s', strings rt !! p = Some s' -> atom_type s' = 0) ->
  new_atom_ok T aty h (chars s) ->
  (aty <> JS_ATOM_TYPE_SYMBOL -> h1 = Z.land h (hash_mask rt)) ->
  wp (link_atom (put_str rt p s) p aty h h1) (fun '(rt', j') =>
    j' = j /\ atoms_wf rt' (<[j := made p s aty h]> T) F /\
    other_strings (strings rt) (strings rt') p).
Proof.
  intros (N & B & Hr) Hp Hev Hnew Hok Hh1. by eapply link_atom_spec.
Qed.

(** What happens to a string that the callee frees. *)
Definition dropped (s : JSString) : option JSString :=
  if ref_count s - 1 <=? 0 then None else Some (with_ref_count s (ref_count s - 1)).

(** A string that is not an atom yet becomes the structure of the atom. *)
Lemma new_atom_string_spec rt T F sp s aty h h1 :
  atoms_wf rt T F -> (F = [] -> atom_size rt * 3 <= INT32_MAX) ->
  strings rt !! sp = Some s -> atom_type s = 0 ->
  new_atom_ok T aty h (chars s) ->
  (aty <> JS_ATOM_TYPE_SYMBOL -> h1 = Z.land h (hash_mask rt)) ->
  wp (new_atom rt (Some sp) aty h h1) (fun '(rt', j) =>
    other_strings (strings rt) (strings rt') sp /\
    ((j = 0 /\ atoms_wf rt' T F /\ strings rt' !! sp = dropped s) \/
     (exists T' F', with_null T T' /\ next_free rt F j F' /\ T' !! j = None /\ j <> 0 /\
        atoms_wf rt' (<[j := made sp s aty h]> T') F'))).
Proof.
  intros Hwf Hmax Hsp Hs Hok Hh1. unfold new_atom. apply wp_bind.
  eapply wp_mono; [by apply reserve_spec|]. intros [rt1 ok] [Hk H].
  pose proof Hk as [Hsame _].
  assert (Hsp1 : strings rt1 !! sp = Some s) by (by apply Hsame).
  destruct ok; cbn [negb].
  - destruct H as (T' & j & F' & HT & Hn & Hwf1). apply wp_bind.
    unfold new_atom_struct. rewrite (get_str_Some _ _ _ Hsp1). cbn [bind].
    rewrite Hs. cbn [Z.eqb]. apply wp_ret.
    destruct (wf_string _ _ _ _ _ Hwf1 Hsp1) as [Hpos Hev].
    destruct (wf_free_slot _ _ _ _ Hwf1) as [HTj Hj0].
    eapply wp_mono.
    + apply (link_new rt1 T' j F' sp (with_atom s (hash s) aty (hash_next s)) aty h h1); try done.
      * intros s'. rewrite Hsp1. by intros [= <-].
      * cbn. by eapply with_null_ok.
      * by rewrite (keeps_mask _ _ Hk).
    + intros [rt2 j'] (-> & Hwf2 & Ho). split.
      * eapply other_strings_trans; [by apply same_other|exact Ho].
      * right. exists T', F'. by split_and!.
  - unfold new_atom_fail. apply wp_bind. eapply wp_mono; [by eapply js_free_string_spec|].
    intros rt2 (Hwf2 & Ho & Hd). apply wp_ret. split.
    + eapply other_strings_trans; [by apply same_other|exact Ho].
    + left. by split_and!.
Qed.

(** A symbol without a description. *)
Lemma new_atom_null_spec rt T F h h1 :
  atoms_wf rt T F -> (F = [] -> atom_size rt * 3 <= INT32_MAX) ->
  wp (new_atom rt None JS_ATOM_TYPE_SYMBOL h h1) (fun '(rt', j) =>
    same_strings (strings rt) (strings rt') /\ exists T' F', with_null T T' /\
    ((j = 0 /\ atoms_wf rt' T' F') \/
     (T' !! j = None /\ j <> 0 /\ exists p,
        atoms_wf rt' (<[j := mkAtom p 1 true [] h JS_ATOM_TYPE_SYMBOL]> T') F'))).
Proof.
  intros Hwf Hmax. unfold new_atom. apply wp_bind.
  eapply wp_mono; [by apply reserve_spec|]. intros [rt1 ok] [Hk H].
  pose proof Hk as [Hsame _]. destruct ok; cbn [negb].
  2: { apply wp_ret. split; [done|]. exists T, F. split; [by left|by left]. }
  destruct H as (T' & j & F' & HT & Hn & Hwf1). apply wp_bind. unfold new_atom_struct.
  assert (Hmem : forall h, atoms_wf (set_mem rt1 h) T' (j :: F')).
  { intros h'. destruct Hwf1 as (N & B & Hr1). exists N, B. by apply rep_set_mem. }
  destruct (malloc_str rt1 sizeof_JSString) as [rt2 [p|]] eqn:Em; apply wp_ret;
    rewrite (malloc_str_mem _ _ _ _ Em).
  - destruct (malloc_str_fresh _ _ _ _ Em) as (Hfr & Hpos & Hev).
    destruct (wf_free_slot _ _ _ _ Hwf1) as [HTj Hj0].
    eapply wp_mono.
    + apply (link_new (set_mem rt1 (mem rt2)) T' j F' p (mkString 1 true [] 0 0 0)); try done.
      * cbn. by rewrite Hfr.
      * left. done.
    + intros [rt3 j'] (-> & Hwf2 & Ho). split.
      * intros q s Hs. destruct (decide (q = p)) as [->|Hq];
          [|rewrite (Ho q s Hq Hs); by apply Hsame].
        split; intros Hq; exfalso.
        -- destruct Hwf2 as (N & B & Hr2).
           by apply (core_ptr_ne _ _ _ _ (rep_core _ _ _ _ _ Hr2) j
             (made p (mkString 1 true [] 0 0 0) JS_ATOM_TYPE_SYMBOL h) p s (lookup_insert_eq _ _ _) Hq Hs).
        -- apply (Hsame p s Hs) in Hq. congruence.
      * exists T', F'. split; [done|]. right. split_and!; [done..|]. by exists p.
  - apply wp_ret. split; [exact Hsame|]. exists T', (j :: F'). split; [done|]. left. by split.
Qed.

(** ** The operations on the table *)

(** One reference more on the atom [i], unless it is a constant. *)
Definition dup_atom (T : table) (i : Z) (a : atom) : table :=
  if __JS_AtomIsConst i then T else <[i := set_rc a (a_rc a + 1)]> T.

Definition string_type (aty : Z) : Prop :=
  aty = JS_ATOM_TYPE_STRING \/ aty = JS_ATOM_TYPE_GLOBAL_SYMBOL.

Lemma string_type_interned aty : string_type aty ->
  aty <> JS_ATOM_TYPE_SYMBOL /\ (aty <? JS_ATOM_TYPE_SYMBOL) = true /\ aty <> 0.
Proof. by intros [->| ->]. Qed.

Lemma add_ref_spec rt T F i a n : atoms_wf rt T F -> T !! i = Some a ->
  wp (add_ref rt (a_ptr a) n) (fun rt' =>
    atoms_wf rt' (<[i := set_rc a (a_rc a + n)]> T) F /\
    same_strings (strings rt) (strings rt')).
Proof.
  intros Hwf Ha. destruct (wf_atom rt T F i a Hwf Ha) as (m & _ & Hst & Hset).
  unfold add_ref. rewrite (get_str_Some _ _ _ Hst). cbn [bind]. apply wp_ret.
  apply (Hset (a_rc a + n)).
Qed.

Lemma dup_ref_spec rt T F i a : atoms_wf rt T F -> T !! i = Some a ->
  wp (if negb (__JS_AtomIsConst i) then
        let* p := rd (atom_array rt) i in add_ref rt p 1
      else Ret rt) (fun rt' =>
    atoms_wf rt' (dup_atom T i a) F /\ same_strings (strings rt) (strings rt')).
Proof.
  intros Hwf Ha. unfold dup_atom. destruct (__JS_AtomIsConst i); cbn [negb]; [by apply wp_ret|].
  destruct (wf_atom rt T F i a Hwf Ha) as (m & -> & _). cbn [bind].
  by apply add_ref_spec.
Qed.

(** Interning a string that is not an atom. *)
Lemma __JS_NewAtom_string_spec rt T F sp s aty :
  atoms_wf rt T F -> (F = [] -> atom_size rt * 3 <= INT32_MAX) ->
  strings rt !! sp = Some s -> atom_type s = 0 -> string_type aty ->
  wp (__JS_NewAtom rt (Some sp) aty) (fun '(rt', j) =>
    other_strings (strings rt) (strings rt') sp /\
    ((exists a, T !! j = Some a /\ a_type a = aty /\ a_chars a = chars s /\
        atoms_wf rt' (dup_atom T j a) F /\ strings rt' !! sp = dropped s) \/
     (fresh_key T aty (chars s) /\ j = 0 /\ atoms_wf rt' T F /\
        strings rt' !! sp = dropped s) \/
     (fresh_key T aty (chars s) /\ exists T' F', with_null T T' /\ next_free rt F j F' /\
        T' !! j = None /\ j <> 0 /\
        atoms_wf rt' (<[j := made sp s aty (key_hash aty (chars s))]> T') F'))).
Proof.
  intros Hwf Hmax Hsp Hs Hty. destruct (string_type_interned aty Hty) as (Hint & Hlt & Hne0).
  unfold __JS_NewAtom. rewrite Hlt, (get_str_Some _ _ _ Hsp). cbn [bind]. rewrite Hs.
  destruct (Z.eqb_spec 0 aty) as [|_]; [lia|].
  change (Z.land (hash_string s aty) JS_ATOM_HASH_MASK) with (key_hash aty (chars s)).
  destruct (Hwf) as (N & B & Hr). pose proof (rep_core _ _ _ _ _ Hr) as Hc.
  destruct (rep_bucket _ _ _ _ _ Hr (key_hash aty (chars s)))
    as (b & l & h0 & Eb & Eb' & Hl & Hh0 & Hch & Hnd & Hlen & Hall).
  rewrite Eb, (rd_nat _ _ _ Hh0). cbn [bind]. rewrite <- Eb.
  apply wp_bind. eapply wp_mono.
  { apply (find_atom_spec rt T N _ aty s h0 l Hc Hch); [|exact Hlen].
    intros x Hx. destruct (Hall x Hx) as (c & -> & _). by eexists. }
  intros r [[-> Hno]|[Hr_in (a & Ha & _ & Ety & Ecs)]].
  - (* not registered *)
    cbn [Z.eqb negb].
    assert (Hfresh : fresh_key T aty (chars s)).
    { intros i a Ha Ety Ecs.
      assert (Hai : interned a) by (unfold interned; congruence).
      assert (Ehash : a_hash a = key_hash aty (chars s))
        by (rewrite <- Ety, <- Ecs; by apply (un_hash _ _ (rep_unique _ _ _ _ _ Hr) i)).
      destruct (bk_in _ _ _ _ _ (rep_buckets _ _ _ _ _ Hr) i a Ha Hai I) as (b' & l' & Hl' & Hi).
      destruct (bk_elem _ _ _ _ _ (rep_buckets _ _ _ _ _ Hr) b' l' i Hl' Hi)
        as (_ & a' & Ha' & _ & E).
      rewrite Ha in Ha'. injection Ha' as <-. rewrite Ehash, Eb' in E.
      assert (b' = b) as -> by lia. assert (l' = l) as -> by congruence.
      by apply (Hno i a Hi Ha). }
    eapply wp_mono.
    { apply (new_atom_string_spec rt T F sp s aty _ (Z.land (key_hash aty (chars s)) (hash_mask rt))
        Hwf Hmax Hsp Hs); [by right; split_and!|done]. }
    intros [rt' j] [Ho Hcase]. split; [done|]. right.
    destruct Hcase as [(-> & Hwf' & Hd)|(T' & F' & ?)]; [left|right].
    + by split_and!.
    + split; [done|]. by exists T', F'.
  - (* already registered *)
    destruct (Z.eqb_spec r 0) as [->|_].
    { by apply (chain_nonzero _ _ _ _ Hch) in Hr_in. }
    cbn [negb]. apply wp_bind. eapply wp_mono; [by apply dup_ref_spec|].
    intros rt1 [Hwf1 Hsame]. apply wp_bind.
    eapply wp_mono; [eapply js_free_string_spec; [exact Hwf1|by apply Hsame|done]|].
    intros rt2 (Hwf2 & Ho & Hd). apply wp_ret. split.
    + eapply other_strings_trans; [by apply same_other|exact Ho].
    + left. exists a. by split_and!.
Qed.

(** The string is already the atom. *)
Lemma __JS_NewAtom_atom_spec rt T F j a :
  atoms_wf rt T F -> T !! j = Some a -> string_type (a_type a) ->
  wp (__JS_NewAtom rt (Some (a_ptr a)) (a_type a)) (fun '(rt', j') =>
    j' = j /\ same_strings (strings rt) (strings rt') /\
    atoms_wf rt' (if __JS_AtomIsConst j then <[j := set_rc a (a_rc a - 1)]> T else T) F).
Proof.
  intros Hwf Ha Hty. destruct (string_type_interned _ Hty) as (_ & Hlt & _).
  unfold __JS_NewAtom. rewrite Hlt. destruct (wf_atom rt T F j a Hwf Ha) as (n & _ & Hst & _).
  rewrite (get_str_Some _ _ _ Hst). cbn [bind atom_type str_of]. rewrite Z.eqb_refl.
  destruct (Hwf) as (N & B & Hr). rewrite (js_get_atom_index_spec _ _ _ _ _ Hr j a Ha).
  cbn [bind]. destruct (__JS_AtomIsConst j); [|by apply wp_ret].
  apply wp_bind. eapply wp_mono; [by apply (add_ref_spec rt T F j a (-1))|].
  intros rt' [? ?]. apply wp_ret. by split_and!.
Qed.

Lemma JS_FreeAtom_spec rt T F i a : atoms_wf rt T F -> T !! i = Some a -> 0 <= i ->
  wp (JS_FreeAtom rt i) (fun rt' => same_strings (strings rt) (strings rt') /\
    exists F', atoms_wf rt' (if __JS_AtomIsConst i then T else released T i a) F').
Proof.
  intros Hwf Ha Hi. unfold JS_FreeAtom. destruct (__JS_AtomIsConst i) eqn:Ec; cbn [negb].
  - apply wp_ret. split; [done|]. by exists F.
  - eapply wp_mono.
    + apply (__JS_FreeAtom_spec rt T F i a Hwf Ha). destruct (decide (i = 0)) as [->|?];
        [by vm_compute in Ec|lia].
    + intros rt' [? [? _]]. split; [done|]. eauto.
Qed.
End grow.
End runtime.
