(* ===== verification/AtomOpsSpec.v ===== *)
(** * Properties of the atoms

    The operations on the intern table against their effect on the abstract
    table of atoms, and the predefined atoms. *)

From Stdlib Require Import String.
From stdpp Require Import base tactics numbers list option sets gmap.
From Stdlib Require Import ZArith Lia.
From S2P Require Import Prelude Atoms AtomsSpec.

Open Scope Z_scope.

(** ** Operations *)

Inductive atom_op :=
  | InternString (sp aty : Z)
  | NewSymbol (str : option Z) (aty : Z)
  | DupAtom (v : Z)
  | FreeAtom (v : Z).

Definition run_atom_op {al : JSMalloc} (rt : JSRuntime) (op : atom_op)
  : res (JSRuntime * Z) :=
  match op with
  | InternString sp aty => __JS_NewAtom rt (Some sp) aty
  | NewSymbol str aty => __JS_NewAtom rt str aty
  | DupAtom v => JS_DupAtomRT rt v
  | FreeAtom v => let* rt := JS_FreeAtom rt v in Ret (rt, JS_ATOM_NULL)
  end.

Definition symbol_type (aty : Z) : Prop :=
  aty = JS_ATOM_TYPE_SYMBOL \/ aty = JS_ATOM_TYPE_PRIVATE.

Definition symbol_hash (aty : Z) : Z :=
  if aty =? JS_ATOM_TYPE_SYMBOL then JS_ATOM_HASH_SYMBOL else JS_ATOM_HASH_PRIVATE.

(** The effect of an operation on the table, with its result; [S] is the
    store of strings before it. *)
Inductive atom_step (S : gmap Z JSString) (T : table) : atom_op -> table -> Z -> Prop :=
  | step_registered sp s aty j a :
      S !! sp = Some s -> atom_type s = 0 -> T !! j = Some a -> a_type a = aty ->
      a_chars a = chars s ->
      atom_step S T (InternString sp aty) (dup_atom T j a) j
  | step_fresh sp s aty T' j :
      S !! sp = Some s -> atom_type s = 0 -> fresh_key T aty (chars s) ->
      with_null T T' -> T' !! j = None -> j <> 0 ->
      atom_step S T (InternString sp aty)
        (<[j := made sp s aty (key_hash aty (chars s))]> T') j
  | step_no_memory sp s aty :
      S !! sp = Some s -> atom_type s = 0 -> fresh_key T aty (chars s) ->
      atom_step S T (InternString sp aty) T JS_ATOM_NULL
  | step_is_atom j a :
      T !! j = Some a ->
      atom_step S T (InternString (a_ptr a) (a_type a))
        (if __JS_AtomIsConst j then <[j := set_rc a (a_rc a - 1)]> T else T) j
  | step_symbol sp s aty T' j :
      S !! sp = Some s -> atom_type s = 0 -> with_null T T' -> T' !! j = None -> j <> 0 ->
      atom_step S T (NewSymbol (Some sp) aty)
        (<[j := made sp s JS_ATOM_TYPE_SYMBOL (symbol_hash aty)]> T') j
  | step_symbol_null p aty T' j :
      with_null T T' -> T' !! j = None -> j <> 0 ->
      atom_step S T (NewSymbol None aty)
        (<[j := mkAtom p 1 true [] (symbol_hash aty) JS_ATOM_TYPE_SYMBOL]> T') j
  | step_symbol_no_memory str aty T' :
      with_null T T' -> atom_step S T (NewSymbol str aty) T' JS_ATOM_NULL
  | step_dup v a : T !! v = Some a -> atom_step S T (DupAtom v) (dup_atom T v a) v
  | step_dup_const v : __JS_AtomIsConst v = true -> atom_step S T (DupAtom v) T v
  | step_free v a :
      T !! v = Some a ->
      atom_step S T (FreeAtom v) (if __JS_AtomIsConst v then T else released T v a)
        JS_ATOM_NULL
  | step_free_const v :
      __JS_AtomIsConst v = true -> atom_step S T (FreeAtom v) T JS_ATOM_NULL.

(** What the caller owes. *)
Definition op_ok (S : gmap Z JSString) (T : table) (op : atom_op) : Prop :=
  match op with
  | InternString sp aty => string_type aty /\
      ((exists s, S !! sp = Some s /\ atom_type s = 0) \/
       (exists j a, T !! j = Some a /\ a_ptr a = sp /\ a_type a = aty))
  | NewSymbol None aty => symbol_type aty
  | NewSymbol (Some sp) aty => symbol_type aty /\
      exists s, S !! sp = Some s /\ atom_type s = 0
  | DupAtom v => __JS_AtomIsConst v = true \/ is_Some (T !! v)
  | FreeAtom v => __JS_AtomIsConst v = true \/ is_Some (T !! v)
  end.

(** No two interned atoms have the same type and the same characters. *)
Definition keys_unique (T : table) : Prop :=
  forall i j a b, T !! i = Some a -> T !! j = Some b -> interned a ->
    a_type a = a_type b -> a_chars a = a_chars b -> i = j.

Section ops.
Context {al : JSMalloc} {alok : JSMallocOk al}.

Lemma wf_unique rt T F : atoms_wf rt T F -> keys_unique T.
Proof. intros (N & B & Hr). exact (un_key _ _ (rep_unique _ _ _ _ _ Hr)). Qed.

Lemma wf_index rt T F i a : atoms_wf rt T F -> T !! i = Some a -> 0 <= i.
Proof.
  intros (N & B & Hr) Ha. by destruct (core_atom _ _ _ _ (rep_core _ _ _ _ _ Hr) i a Ha).
Qed.

Lemma symbol_new_atom rt str aty : symbol_type aty ->
  __JS_NewAtom rt str aty = new_atom rt str JS_ATOM_TYPE_SYMBOL (symbol_hash aty) 0.
Proof. by intros [->| ->]. Qed.

Lemma run_symbol_spec rt T F str aty :
  atoms_wf rt T F -> (F = [] -> atom_size rt * 3 <= INT32_MAX) ->
  op_ok (strings rt) T (NewSymbol str aty) ->
  wp (__JS_NewAtom rt str aty) (fun '(rt', j) => exists T' F',
    atom_step (strings rt) T (NewSymbol str aty) T' j /\ atoms_wf rt' T' F').
Proof.
  intros Hwf Hmax Hok. destruct str as [sp|]; cbn [op_ok] in Hok.
  - destruct Hok as (Hty & s & Hsp & Hs). rewrite symbol_new_atom by done.
    eapply wp_mono; [apply (new_atom_string_spec rt T F sp s); [done..|by left|done]|].
    intros [rt' j] [_ [(-> & ? & _)|(T' & F' & ? & _ & ? & ? & ?)]].
    + exists T, F. split; [|done]. by constructor; left.
    + eexists _, F'. split; [|done]. by eapply step_symbol.
  - rewrite symbol_new_atom by done.
    eapply wp_mono; [by apply (new_atom_null_spec rt T F)|].
    intros [rt' j] (_ & T' & F' & ? & [[-> ?]|(? & ? & p & ?)]).
    + exists T', F'. split; [|done]. by constructor.
    + eexists _, F'. split; [|done]. by eapply step_symbol_null.
Qed.

Lemma run_intern_spec rt T F sp aty :
  atoms_wf rt T F -> (F = [] -> atom_size rt * 3 <= INT32_MAX) ->
  op_ok (strings rt) T (InternString sp aty) ->
  wp (__JS_NewAtom rt (Some sp) aty) (fun '(rt', j) => exists T' F',
    atom_step (strings rt) T (InternString sp aty) T' j /\ atoms_wf rt' T' F').
Proof.
  intros Hwf Hmax (Hty & [(s & Hsp & Hs)|(j & a & Ha & <- & <-)]).
  - eapply wp_mono; [by apply (__JS_NewAtom_string_spec rt T F sp s)|].
    intros [rt' j] [_ [(a & ? & ? & ? & ? & _)|[(? & -> & ? & _)|
      (? & T' & F' & ? & _ & ? & ? & ?)]]].
    + exists (dup_atom T j a), F. split; [by eapply step_registered|done].
    + exists T, F. split; [by eapply step_no_memory|done].
    + eexists _, F'. split; [by eapply step_fresh|done].
  - eapply wp_mono; [by apply (__JS_NewAtom_atom_spec rt T F j a)|].
    intros [rt' j'] (-> & _ & ?). eexists _, F. split; [by eapply step_is_atom|done].
Qed.

Lemma run_dup_spec rt T F v :
  atoms_wf rt T F -> op_ok (strings rt) T (DupAtom v) ->
  wp (JS_DupAtomRT rt v) (fun '(rt', j) => exists T' F',
    atom_step (strings rt) T (DupAtom v) T' j /\ atoms_wf rt' T' F').
Proof.
  intros Hwf Hok. unfold JS_DupAtomRT. destruct (__JS_AtomIsConst v) eqn:Ec; cbn [negb].
  - apply wp_ret. exists T, F. split; [by constructor|done].
  - destruct Hok as [?|[a Ha]]; [congruence|].
    destruct (wf_atom rt T F v a Hwf Ha) as (n & -> & _). cbn [bind].
    apply wp_bind. eapply wp_mono; [by apply (add_ref_spec rt T F v a 1)|].
    intros rt' [? _]. apply wp_ret. exists (dup_atom T v a), F.
    split; [by constructor|]. unfold dup_atom. by rewrite Ec.
Qed.

Lemma run_free_spec rt T F v :
  atoms_wf rt T F -> op_ok (strings rt) T (FreeAtom v) ->
  wp (JS_FreeAtom rt v) (fun rt' => exists T' F',
    atom_step (strings rt) T (FreeAtom v) T' JS_ATOM_NULL /\ atoms_wf rt' T' F').
Proof.
  intros Hwf [Hc|[a Ha]].
  - unfold JS_FreeAtom. rewrite Hc. apply wp_ret. exists T, F.
    split; [by apply step_free_const|done].
  - eapply wp_mono; [apply (JS_FreeAtom_spec rt T F v a Hwf Ha); by eapply wf_index|].
    intros rt' (_ & F' & ?). eexists _, F'. split; [by apply step_free|done].
Qed.

End ops.

(** ** The predefined atoms *)

Definition predefined_type (i : Z) : Z :=
  if i =? JS_ATOM_Private_brand then JS_ATOM_TYPE_SYMBOL
  else if JS_ATOM_Symbol_toPrimitive <=? i then JS_ATOM_TYPE_SYMBOL
  else JS_ATOM_TYPE_STRING.

(** The atom [a] is the [i]-th name of [quickjs-atom.h]. *)
Definition predefined (i : Z) (a : atom) : Prop :=
  exists name, js_atom_init !! Z.to_nat (i - 1) = Some name /\ 1 <= i /\
    a_chars a = c_chars name /\ a_type a = predefined_type i.

(** The atoms below [i] are the predefined ones, and there are no others. *)
Definition predefined_below (i : Z) (T : table) : Prop :=
  (forall j a, T !! j = Some a -> j < i /\
     (a_type a = JS_ATOM_TYPE_SYMBOL /\ j = 0 \/ predefined j a)) /\
  (forall j, 1 <= j < i -> exists a, T !! j = Some a).

(** The names of the strings are distinct. *)
Definition distinct_names : bool :=
  bool_decide (NoDup (map c_chars (take 195 js_atom_init))).

Lemma names_distinct i j n m : (i < 195)%nat -> (j < 195)%nat ->
  js_atom_init !! i = Some n -> js_atom_init !! j = Some m -> c_chars n = c_chars m ->
  i = j.
Proof.
  assert (Hd : distinct_names = true) by (vm_compute; reflexivity).
  apply bool_decide_eq_true_1 in Hd. intros Hli Hlj Hi Hj E.
  rewrite <- (lookup_take_lt js_atom_init 195) in Hi by done.
  rewrite <- (lookup_take_lt js_atom_init 195) in Hj by done.
  apply (NoDup_lookup _ i j (c_chars n) Hd); change (map c_chars) with (fmap (M := list) c_chars).
  - by rewrite list_lookup_fmap, Hi.
  - by rewrite list_lookup_fmap, Hj, E.
Qed.

Lemma with_null_predefined i T T' : 1 <= i ->
  predefined_below i T -> with_null T T' -> predefined_below i T'.
Proof.
  intros Hi Hb [->|[-> [p ->]]]; [done|]. destruct Hb as [_ Hall]. split.
  - intros j a [<- <-]%lookup_singleton_Some. split; [lia|]. left. done.
  - intros j Hj. destruct (Hall j Hj) as [a Ha]. by rewrite lookup_empty in Ha.
Qed.

Lemma predefined_insert i T a : predefined_below i T -> predefined i a ->
  predefined_below (i + 1) (<[i := a]> T).
Proof.
  intros [Hold Hall] Ha. split.
  - intros j b [[<- <-]|[Hne Hj]]%lookup_insert_Some; [split; [lia|by right]|].
    destruct (Hold j b Hj) as [? ?]. split; [lia|done].
  - intros j Hj. destruct (decide (j = i)) as [->|Hne].
    + exists a. by rewrite lookup_insert_eq.
    + destruct (Hall j) as [b Hb]; [lia|]. exists b. by rewrite lookup_insert_ne.
Qed.

(** The free slots while the predefined atoms are made. *)
Definition init_slots (rt_size i : Z) (F : list Z) : Prop :=
  (F = [] /\ i = 1 /\ rt_size = 0) \/ F = seqZ i (211 - i).

Lemma init_next_free {al : JSMalloc} rt i F j F' : i < 211 ->
  init_slots (atom_size rt) i F -> next_free rt F j F' ->
  j = i /\ F' = seqZ (i + 1) (211 - (i + 1)).
Proof.
  assert (Hone : forall n, 0 < n -> seqZ i n = i :: seqZ (i + 1) (n - 1)).
  { intros n Hn. rewrite seqZ_cons by done. by rewrite <- Z.add_1_r, Z.sub_1_r. }
  intros Hi [(-> & Ei & E0)| ->] [HF|[HF HF']]; try done.
  - unfold first_free, grown_size in HF'. rewrite E0 in HF'. subst i.
    change (Z.max 211 (0 * 3 / 2)) with 211 in HF'. change (Z.max 1 0) with 1 in HF'.
    rewrite Hone in HF' by lia. injection HF' as -> ->. done.
  - rewrite Hone in HF by lia. injection HF as <- <-. split; [done|f_equal; lia].
  - rewrite Hone in HF by lia. done.
Qed.

Section init.
Context {al : JSMalloc} {alok : JSMallocOk al}.

Lemma alloc_string_spec rt T F data wide rt' p :
  atoms_wf rt T F -> js_alloc_string_rt rt data wide = (rt', Some p) ->
  atoms_wf rt' T F /\ strings rt' !! p = Some (mkString 1 wide data 0 0 0) /\
  atom_size rt' = atom_size rt.
Proof.
  intros (N & B & Hr). unfold js_alloc_string_rt.
  destruct (malloc_str rt _) as [rt1 [q|]] eqn:Em; [|done]. intros [= <- <-].
  destruct (malloc_str_fresh _ _ _ _ Em) as (Hfr & Hpos & Hev).
  rewrite (malloc_str_mem _ _ _ _ Em). split; [|split; [apply lookup_insert_eq|done]].
  exists N, B. refine (rep_set_strings (set_mem rt (mem rt1)) T F N B _ _ _).
  - by apply rep_set_mem.
  - apply core_put_string; [apply Hr|cbn in Hfr |- *; by rewrite Hfr|done..].
Qed.

Lemma init_atom_spec rt T F i name :
  atoms_wf rt T F -> init_slots (atom_size rt) i F -> predefined_below i T ->
  1 <= i < 211 -> js_atom_init !! Z.to_nat (i - 1) = Some name ->
  let aty := if i =? JS_ATOM_Private_brand then JS_ATOM_TYPE_PRIVATE
             else if JS_ATOM_Symbol_toPrimitive <=? i then JS_ATOM_TYPE_SYMBOL
             else JS_ATOM_TYPE_STRING in
  wp (__JS_NewAtomInit rt (c_chars name) aty) (fun '(rt', j) =>
    j = JS_ATOM_NULL \/ exists T' F', atoms_wf rt' T' F' /\
      init_slots (atom_size rt') (i + 1) F' /\ predefined_below (i + 1) T').
Proof.
  intros Hwf Hsl Hpre Hi Hname aty. unfold __JS_NewAtomInit.
  destruct (js_alloc_string_rt rt (c_chars name) false) as [rt1 [p|]] eqn:Ea;
    [|apply wp_ret; by left].
  destruct (alloc_string_spec _ _ _ _ _ _ _ Hwf Ea) as (Hwf1 & Hp & Hsz).
  rewrite <- Hsz in Hsl.
  assert (Hmax : F = [] -> atom_size rt1 * 3 <= INT32_MAX).
  { intros ->. destruct Hsl as [(_ & _ & ->)|E]; [vm_compute; discriminate|].
    rewrite seqZ_cons in E by lia. done. }
  assert (Hnew : forall rt' T' j F' h ty, with_null T T' -> next_free rt1 F j F' ->
    ty = predefined_type i ->
    atoms_wf rt' (<[j := made p (mkString 1 false (c_chars name) 0 0 0) ty h]> T') F' ->
    exists T' F', atoms_wf rt' T' F' /\
      init_slots (atom_size rt') (i + 1) F' /\ predefined_below (i + 1) T').
  { intros rt' T' j F' h ty HT Hn -> Hwf'.
    destruct (init_next_free rt1 i F j F' ltac:(lia) Hsl Hn) as [-> ->].
    eexists _, _. split; [exact Hwf'|]. split; [by right|].
    apply predefined_insert; [eapply with_null_predefined; [lia|done..]|].
    exists name. split_and!; [done|lia|done|done]. }
  assert (Hsym : forall h,
    wp (new_atom rt1 (Some p) JS_ATOM_TYPE_SYMBOL h 0) (fun '(rt', j) =>
      JS_ATOM_TYPE_SYMBOL = predefined_type i -> j = JS_ATOM_NULL \/ exists T' F', atoms_wf rt' T' F' /\
      init_slots (atom_size rt') (i + 1) F' /\ predefined_below (i + 1) T')).
  { intros h. eapply wp_mono.
    - apply (new_atom_string_spec rt1 T F p _ JS_ATOM_TYPE_SYMBOL h 0 Hwf1 Hmax Hp);
        [done|by left|done].
    - intros [rt' j] [_ [(-> & _)|(T' & F' & HT & Hn & _ & _ & Hwf')]] Hty; [by left|right].
      by eapply Hnew. }
  unfold aty. clear aty. unfold predefined_type in Hsym, Hnew.
  destruct (Z.eqb_spec i JS_ATOM_Private_brand) as [_|Hi1].
  { eapply wp_mono; [exact (Hsym JS_ATOM_HASH_PRIVATE)|]. intros [rt' j] H. by apply H. }
  destruct (Z.leb_spec JS_ATOM_Symbol_toPrimitive i) as [_|Hi2].
  { eapply wp_mono; [exact (Hsym JS_ATOM_HASH_SYMBOL)|]. intros [rt' j] H. by apply H. }
  eapply wp_mono.
  - apply (__JS_NewAtom_string_spec rt1 T F p _ JS_ATOM_TYPE_STRING Hwf1 Hmax Hp); [done|by left].
  - intros [rt' j] [_ [(a & Ha & Ety & Ecs & _)|[(_ & -> & _)|
      (_ & T' & F' & HT & Hn & _ & _ & Hwf')]]]; [|by left|right; by eapply Hnew].
    exfalso. destruct Hpre as [Hold _].
    destruct (Hold j a Ha) as [Hji [[Esym _]|(n & Hn & Hj & Ecn & Etj)]].
    + rewrite Ety in Esym. done.
    + cbn [chars] in Ecs. rewrite Ecs in Ecn. unfold JS_ATOM_Private_brand,
        JS_ATOM_Symbol_toPrimitive in *.
      assert (j < 196).
      { rewrite Ety in Etj. unfold predefined_type in Etj.
        destruct (Z.eqb_spec j JS_ATOM_Private_brand); [done|].
        destruct (Z.leb_spec JS_ATOM_Symbol_toPrimitive j); [done|].
        unfold JS_ATOM_Private_brand, JS_ATOM_Symbol_toPrimitive in *. lia. }
      assert (Z.to_nat (i - 1) = Z.to_nat (j - 1)); [|lia].
      by apply (names_distinct _ _ name n); [lia|lia|..].
Qed.

Lemma init_atoms_spec rest : forall pre rt T F i,
  js_atom_init = pre ++ rest -> i = Z.of_nat (length pre) + 1 ->
  atoms_wf rt T F -> init_slots (atom_size rt) i F -> predefined_below i T ->
  wp (init_atoms rt i rest) (fun '(rt', ok) => ok = true -> exists T' F',
    atoms_wf rt' T' F' /\ predefined_below JS_ATOM_END T').
Proof.
  induction rest as [|name rest IH]; intros pre rt T F i E Ei Hwf Hsl Hpre; cbn [init_atoms].
  - apply wp_ret. intros _. exists T, F. split; [done|].
    unfold JS_ATOM_END. rewrite E, app_nil_r. by rewrite <- Ei.
  - apply wp_bind.
    assert (Hlen : (length js_atom_init = 209)%nat) by (vm_compute; reflexivity).
    assert (Hlen' : (length pre + S (length rest) = 209)%nat)
      by (rewrite E, length_app in Hlen; simpl in Hlen; lia).
    eapply wp_mono.
    + apply (init_atom_spec rt T F i name Hwf Hsl Hpre); [lia|].
      rewrite E, lookup_app_r by lia.
      by replace (Z.to_nat (i - 1) - length pre)%nat with 0%nat by lia.
    + intros [rt' j] Hj. destruct (Z.eqb_spec j JS_ATOM_NULL) as [_|Hne];
        [by apply wp_ret|].
      destruct Hj as [?|(T' & F' & Hwf' & Hsl' & Hpre')]; [done|].
      apply (IH (pre ++ [name]) rt' T' F' (i + 1)); try done.
      * by rewrite <- app_assoc.
      * rewrite length_app. simpl. lia.
Qed.

End init.

(** ** Witnesses *)

(** An allocator that hands out increasing addresses. *)
Definition malloc_counter (h : Z) (live : gset Z) (n : Z) : Z * option Z :=
  if decide (h ∈ live) then (h + 2, None)
  else if (0 <? h) && Z.even h then (h + 2, Some h) else (h, None).

#[export] Instance counter_malloc : JSMalloc :=
  {| mheap := Z; js_malloc_rt := malloc_counter; js_realloc_rt := fun h _ => (h, true) |}.

#[export] Instance counter_malloc_ok : JSMallocOk counter_malloc.
Proof.
  intros h live n h' p. cbn [js_malloc_rt counter_malloc]. unfold malloc_counter.
  case_decide; [discriminate|].
  destruct (Z.ltb_spec 0 h); cbn [andb]; [|by intros [=]].
  destruct (Z.even h) eqn:E2; [|by intros [=]]. by intros [= <- <-].
Qed.


Definition witness_rt : JSRuntime (al := counter_malloc) :=
  mkRt (al := counter_malloc) 6 {[ 4 := mkString 1 false [97] 0 0 0 ]} 1 0 0 2 [0] [] 0.

Lemma witness_rt_wf : atoms_wf witness_rt ∅ [].
Proof.
  exists ∅, [[]]. split; cbn.
  - split; [done..|]. intros p s [<- <-]%lookup_singleton_Some.
    split_and!; [lia|done|by left].
  - split; [done|apply NoDup_nil_2|by intros ? ?%elem_of_nil|simpl; intros; lia|by left].
  - split; try done.
    + intros [|b] l h; [|done]. by intros [= <-] [= <-].
    + intros [|b] l; [|done]. intros [= <-]. apply NoDup_nil_2.
    + intros [|b] l i; [|done]. intros [= <-] ?%elem_of_nil. done.
  - by split.
  - done.
  - vm_compute. discriminate.
  - done.
  - by exists 0.
  - done.
  - done.
Qed.

