(* ===== verification/StringSpec.v ===== *)
(** * Comparison of strings and numeric strings

    [js_string_compare] is the lexicographic order on the characters whatever
    the widths, and [is_num_string] recognises exactly the decimal writing of
    the integers below 2^32. *)

From Stdlib Require Import String.
From stdpp Require Import base tactics numbers list option gmap.
From Stdlib Require Import ZArith Lia.
From S2P Require Import Prelude Atoms.

Open Scope Z_scope.

(** ** Lexicographic order *)

Fixpoint lex (l1 l2 : list Z) : comparison :=
  match l1, l2 with
  | [], [] => Eq
  | [], _ :: _ => Lt
  | _ :: _, [] => Gt
  | x :: l1, y :: l2 => match x ?= y with Eq => lex l1 l2 | c => c end
  end.

Lemma lex_app l l1 l2 : lex (l ++ l1) (l ++ l2) = lex l1 l2.
Proof. induction l as [|x l IH]; [done|]. cbn. by rewrite Z.compare_refl. Qed.

Lemma lex_flip l1 l2 : lex l2 l1 = CompOpp (lex l1 l2).
Proof.
  revert l2. induction l1 as [|x l1 IH]; intros [|y l2]; [done..|]. cbn.
  rewrite (Z.compare_antisym x y). destruct (x ?= y); cbn; auto.
Qed.

Lemma compare_sub_0 a b : (a - b ?= 0) = (a ?= b).
Proof. destruct (Z.compare_spec a b), (Z.compare_spec (a - b) 0); lia || done. Qed.

Lemma compare_opp_0 c : (- c ?= 0) = CompOpp (c ?= 0).
Proof. destruct (Z.compare_spec c 0), (Z.compare_spec (- c) 0); lia || done. Qed.

(** The first difference of two lists of the same length. *)
Lemma memcmp_chars_lex l1 l2 n :
  0 <= n <= Z.of_nat (length l1) -> n <= Z.of_nat (length l2) ->
  wp (memcmp_chars l1 l2 n) (fun c =>
    (c ?= 0) = lex (take (Z.to_nat n) l1) (take (Z.to_nat n) l2)).
Proof.
  intros H1 H2. unfold memcmp_chars.
  apply (wp_loop (fun i => 0 <= i <= n /\
      take (Z.to_nat i) l1 = take (Z.to_nat i) l2) (fun i => Z.to_nat (n - i)));
    [|split; [lia|done]|lia].
  intros i [Hi Heq]. destruct (Z.ltb_spec i n) as [Hlt|Hge].
  - apply wp_bind, wp_rd; [lia|]. intros a Ha.
    apply wp_bind, wp_rd; [lia|]. intros b Hb.
    assert (Hcut : forall (l : list Z) x, l !! Z.to_nat i = Some x ->
      take (Z.to_nat n) l
      = take (Z.to_nat i) l ++ x :: take (Z.to_nat n - S (Z.to_nat i)) (drop (S (Z.to_nat i)) l)).
    { intros l x Hx. rewrite <- (take_drop (Z.to_nat i) l) at 1.
      rewrite (drop_S _ x) by done. pose proof (lookup_lt_Some _ _ _ Hx).
      rewrite take_app_ge by (rewrite length_take; lia). rewrite length_take.
      replace (Z.to_nat n - (Z.to_nat i `min` length l))%nat
        with (S (Z.to_nat n - S (Z.to_nat i))) by lia. done. }
    destruct (Z.eqb_spec (a - b) 0) as [E|E]; cbn [negb]; apply wp_ret.
    + split; [|lia]. split; [lia|].
      replace (Z.to_nat (i + 1)) with (S (Z.to_nat i)) by lia.
      rewrite (take_S_r _ _ a), (take_S_r _ _ b) by done. f_equal; [done|f_equal; lia].
    + rewrite (Hcut l1 a Ha), (Hcut l2 b Hb), Heq, lex_app. cbn.
      rewrite compare_sub_0. destruct (Z.compare_spec a b); [lia|done..].
  - apply wp_ret. replace n with i by lia. rewrite Heq.
    rewrite <- (app_nil_r (take _ _)). by rewrite lex_app.
Qed.

Lemma js_string_memcmp_lex s1 s2 n :
  0 <= n <= len s1 -> n <= len s2 ->
  wp (js_string_memcmp s1 s2 n) (fun c =>
    (c ?= 0) = lex (take (Z.to_nat n) (chars s1)) (take (Z.to_nat n) (chars s2))).
Proof.
  unfold len. intros H1 H2. unfold js_string_memcmp.
  destruct (is_wide_char s1), (is_wide_char s2); cbn [negb];
    try (apply memcmp_chars_lex; lia).
  apply wp_bind. eapply wp_mono; [apply memcmp_chars_lex; lia|]. intros c Hc.
  apply wp_ret. by rewrite compare_opp_0, Hc, <- lex_flip.
Qed.

(** Comparing the common prefix, then the lengths. *)
Lemma lex_prefix l1 l2 : let n := (length l1 `min` length l2)%nat in
  lex l1 l2 = match lex (take n l1) (take n l2) with
              | Eq => (length l1 ?= length l2)%nat
              | c => c
              end.
Proof.
  revert l2. induction l1 as [|x l1 IH]; intros [|y l2]; [done..|]. cbn.
  destruct (x ?= y); [apply IH|done..].
Qed.

Lemma js_string_compare_spec s1 s2 :
  wp (js_string_compare s1 s2) (fun c => (c ?= 0) = lex (chars s1) (chars s2)).
Proof.
  unfold js_string_compare. rewrite (lex_prefix (chars s1)).
  apply wp_bind. eapply wp_mono; [apply js_string_memcmp_lex; unfold len; lia|].
  intros c Hc. unfold len in Hc.
  replace (Z.to_nat _) with (length (chars s1) `min` length (chars s2))%nat in Hc by lia.
  rewrite <- Hc. unfold len. destruct (Z.eqb_spec c 0) as [->|Hne].
  - rewrite Z.compare_refl. destruct (Nat.compare_spec (length (chars s1)) (length (chars s2)));
      repeat zcase; apply wp_ret; (lia || done).
  - destruct (Z.compare_spec c 0) as [E|H|H]; [done|..]; apply wp_ret.
    + by apply Z.compare_lt_iff.
    + by apply Z.compare_gt_iff.
Qed.

Lemma lex_Eq l1 l2 : lex l1 l2 = Eq <-> l1 = l2.
Proof.
  revert l2. induction l1 as [|x l1 IH]; intros [|y l2]; try done; cbn.
  destruct (Z.compare_spec x y) as [->|H|H].
  - rewrite IH. split; [by intros ->|by intros [= ->]].
  - split; [done|]. intros [= -> _]. lia.
  - split; [done|]. intros [= -> _]. lia.
Qed.

(** C36.  [js_string_compare] is the lexicographic order on the code units,
    with any mix of 8 bit and 16 bit strings: the result is negative, zero or
    positive as the first string is before, equal to or after the second,
    and it never reads past the end of a string. *)
Theorem js_string_compare_correct s1 s2 :
  wp (js_string_compare s1 s2) (fun c => (c ?= 0) = lex (chars s1) (chars s2)).
Proof. apply js_string_compare_spec. Qed.

(** ** Decimal numbers *)

(** The decimal writing of a non-negative integer. *)
Fixpoint decimal_fuel (fuel : nat) (n : Z) : list Z :=
  match fuel with
  | O => []
  | S f => if n <? 10 then [48 + n] else decimal_fuel f (n / 10) ++ [48 + n mod 10]
  end.

Definition decimal (n : Z) : list Z := decimal_fuel (S (Z.to_nat n)) n.

(** The value of a list of digits after [n]. *)
Definition value (n : Z) (cs : list Z) : Z := fold_left (fun n c => n * 10 + (c - 48)) cs n.

Definition digit (c : Z) : Prop := 48 <= c <= 57.

Lemma is_num_digit c : is_num c = true <-> digit c.
Proof. unfold is_num, digit. rewrite andb_true_iff, !Z.leb_le. lia. Qed.

Lemma value_snoc n cs c : value n (cs ++ [c]) = value n cs * 10 + (c - 48).
Proof. unfold value. by rewrite fold_left_app. Qed.

Lemma value_ge n cs : 0 <= n -> Forall digit cs -> n <= value n cs.
Proof.
  revert n. induction cs as [|c cs IH]; intros n Hn Hcs; [done|].
  apply Forall_cons in Hcs as [Hc Hcs]. unfold digit in Hc. cbn.
  specialize (IH (n * 10 + (c - 48)) ltac:(lia) Hcs). unfold value in IH. lia.
Qed.

Lemma decimal_fuel_more n : forall f, 0 <= n -> (Z.to_nat n < f)%nat ->
  decimal_fuel f n = decimal n.
Proof.
  unfold decimal. induction (Z.lt_wf 0 n) as [n _ IH]. intros f Hn Hf.
  destruct f as [|f]; [lia|]. cbn [decimal_fuel].
  destruct (Z.ltb_spec n 10); [done|]. f_equal.
  rewrite (IH (n / 10)) by dlia. symmetry. apply IH; dlia.
Qed.

Lemma decimal_step n : 10 <= n -> decimal n = decimal (n / 10) ++ [48 + n mod 10].
Proof.
  intros Hn. unfold decimal at 1. cbn [decimal_fuel].
  destruct (Z.ltb_spec n 10); [lia|]. by rewrite decimal_fuel_more by dlia.
Qed.

Lemma decimal_digit n : 0 <= n < 10 -> decimal n = [48 + n].
Proof. intros Hn. unfold decimal. cbn [decimal_fuel]. by destruct (Z.ltb_spec n 10); [|lia]. Qed.

(** The digits of a number that does not start with 0. *)
Lemma decimal_value c cs : 49 <= c <= 57 -> Forall digit cs ->
  decimal (value (c - 48) cs) = c :: cs.
Proof.
  intros Hc. induction cs as [|d cs IH] using rev_ind; intros Hcs.
  - change (value (c - 48) []) with (c - 48). rewrite decimal_digit by lia. f_equal. lia.
  - apply Forall_app in Hcs as [Hcs Hd]. apply Forall_cons in Hd as [Hd _]. unfold digit in Hd.
    pose proof (value_ge (c - 48) cs ltac:(lia) Hcs) as Hge.
    rewrite value_snoc, decimal_step by lia.
    replace ((value (c - 48) cs * 10 + (d - 48)) / 10) with (value (c - 48) cs) by dlia.
    replace ((value (c - 48) cs * 10 + (d - 48)) mod 10) with (d - 48) by dlia.
    rewrite IH by done. cbn. do 2 f_equal. f_equal. lia.
Qed.

Lemma decimal_shape n : 0 < n -> exists c cs,
  decimal n = c :: cs /\ 49 <= c <= 57 /\ Forall digit cs /\ value (c - 48) cs = n.
Proof.
  induction (Z.lt_wf 0 n) as [n _ IH]. intros Hn.
  destruct (Z_lt_le_dec n 10) as [Hlt|Hge].
  - exists (48 + n), []. rewrite decimal_digit by lia. split_and!; [done|lia|lia|done|].
    cbn. lia.
  - destruct (IH (n / 10)) as (c & cs & E & Hc & Hcs & Hv); [dlia|dlia|].
    exists c, (cs ++ [48 + n mod 10]). rewrite decimal_step, E by done.
    split_and!; [done|lia|lia| |].
    + apply Forall_app. split; [done|]. apply Forall_singleton. unfold digit. dlia.
    + rewrite value_snoc, Hv. dlia.
Qed.

(** ** [is_num_string] *)

(** The loop keeps the value of the prefix, and leaves when it reaches
    2^32. *)
Lemma num_loop_spec cs fuel : forall i n,
  0 <= i <= Z.of_nat (length cs) -> 0 <= n < 2 ^ 32 ->
  Z.of_nat (length cs) - i < Z.of_nat fuel ->
  wp (loop fuel (fun '(i, n) =>
        if i <? Z.of_nat (length cs) then
          let* c := rd cs i in
          if negb (is_num c) then Ret (inr None)
          else
            let n64 := u64 (u64 (n * 10) + (c - 48)) in
            if negb (Z.shiftr n64 32 =? 0) then Ret (inr None)
            else Ret (inl (i + 1, u32 n64))
        else Ret (inr (Some n))) (i, n))
    (fun r => let rest := drop (Z.to_nat i) cs in
      match r with
      | Some m => Forall digit rest /\ m = value n rest /\ m < 2 ^ 32
      | None => ~ (Forall digit rest /\ value n rest < 2 ^ 32)
      end).
Proof.
  induction fuel as [|fuel IH]; intros i n Hi Hn Hf; [lia|]. rewrite loop_S.
  destruct (Z.ltb_spec i (Z.of_nat (length cs))) as [Hlt|].
  - destruct (lookup_lt_is_Some_2 cs (Z.to_nat i)) as [c Hc]; [lia|].
    rewrite (rd_Some _ _ c) by (lia || done). cbn [bind].
    rewrite (drop_S _ c) by done.
    destruct (is_num c) eqn:Enum; cbn [negb].
    2: { apply wp_ret. intros [Hd _]. apply Forall_cons in Hd as [Hd%is_num_digit _].
         congruence. }
    apply is_num_digit in Enum. unfold digit in Enum.
    rewrite (u64_id (n * 10)), u64_id by lia.
    rewrite Z.shiftr_div_pow2 by lia.
    destruct (Z.eqb_spec ((n * 10 + (c - 48)) / 2 ^ 32) 0) as [E|E]; cbn [negb].
    + cbn [bind]. rewrite u32_id by dlia.
      replace (S (Z.to_nat i)) with (Z.to_nat (i + 1)) by lia.
      eapply wp_mono; [apply (IH (i + 1)); [lia|dlia|lia]|].
      intros [m|]; cbn [value fold_left]; unfold value.
      * intros (Hd & -> & Hm). split; [by constructor|]. by cbn.
      * intros Hno [Hd Hv]. apply Forall_cons in Hd as [_ Hd]. apply Hno. by split.
    + apply wp_ret. intros [Hd Hv]. apply Forall_cons in Hd as [_ Hd].
      cbn [value fold_left] in Hv. unfold value in Hv. cbn in Hv.
      pose proof (value_ge (n * 10 + (c - 48)) _ ltac:(lia) Hd) as Hge. unfold value in Hge.
      apply E. apply Z.div_small. lia.
  - apply wp_ret. rewrite drop_ge by lia. cbn. split; [done|lia].
Qed.

Lemma value_bound n cs : 0 <= n -> Forall digit cs ->
  n * 10 ^ Z.of_nat (length cs) <= value n cs.
Proof.
  revert n. induction cs as [|c cs IH]; intros n Hn Hcs; [cbn; lia|].
  apply Forall_cons in Hcs as [Hc Hcs]. unfold digit in Hc.
  specialize (IH (n * 10 + (c - 48)) ltac:(lia) Hcs).
  change (value n (c :: cs)) with (value (n * 10 + (c - 48)) cs).
  cbn [length]. rewrite Nat2Z.inj_succ, Z.pow_succ_r by lia.
  assert (0 <= 10 ^ Z.of_nat (length cs)) by (apply Z.pow_nonneg; lia). nia.
Qed.

(** A number below 2^32 has at most ten digits. *)
Lemma decimal_length n : 0 < n < 2 ^ 32 -> (length (decimal n) <= 10)%nat.
Proof.
  intros Hn. destruct (decimal_shape n) as (c & cs & -> & Hc & Hcs & Hv); [lia|].
  pose proof (value_bound (c - 48) cs ltac:(lia) Hcs) as Hb. rewrite Hv in Hb.
  cbn [length]. apply Nat.nlt_ge. intros Hlt.
  assert (10 ^ 10 <= 10 ^ Z.of_nat (length cs)) by (apply Z.pow_le_mono_r; lia). nia.
Qed.

(** Different numbers have different writings. *)
Lemma decimal_inj m n : 0 <= m < 2 ^ 32 -> 0 <= n < 2 ^ 32 ->
  decimal m = decimal n -> m = n.
Proof.
  intros Hm Hn E.
  assert (Hval : forall k, 0 <= k -> value 0 (decimal k) = k).
  { intros k Hk. destruct (decide (k = 0)) as [->|Hne]; [done|].
    destruct (decimal_shape k) as (c & cs & -> & Hc & Hcs & Hv); [lia|].
    change (value 0 (c :: cs)) with (value (0 * 10 + (c - 48)) cs).
    by replace (0 * 10 + (c - 48)) with (c - 48) by lia. }
  rewrite <- (Hval m), <- (Hval n), E by lia. done.
Qed.

Lemma is_num_string_spec s :
  wp (is_num_string s) (fun r => match r with
    | Some n => 0 <= n < 2 ^ 32 /\ chars s = decimal n
    | None => forall n, 0 <= n < 2 ^ 32 -> chars s <> decimal n
    end).
Proof.
  unfold is_num_string, len. destruct (chars s) as [|c cs] eqn:Ecs.
  { apply wp_ret. intros n Hn E. destruct (decide (n = 0)) as [->|Hne]; [done|].
    destruct (decimal_shape n) as (c & cs & E' & _); [lia|]. congruence. }
  destruct (Z.eqb_spec (Z.of_nat (length (c :: cs))) 0) as [|_]; [simpl in *; lia|]. cbn [orb].
  destruct (Z.ltb_spec 10 (Z.of_nat (length (c :: cs)))) as [Hlong|Hshort].
  { apply wp_ret. intros n Hn E. destruct (decide (n = 0)) as [->|Hne].
    - rewrite E in Hlong. cbn in Hlong. lia.
    - pose proof (decimal_length n) as Hlen. rewrite <- E in Hlen. lia. }
  assert (Hrd : rd (c :: cs) 0 = Ret c) by done. rewrite Hrd. cbn [bind]. clear Hrd.
  assert (Hlead : forall n, 0 <= n < 2 ^ 32 -> c :: cs = decimal n ->
    n = 0 /\ c = 48 /\ cs = [] \/ 49 <= c <= 57 /\ Forall digit cs /\ value (c - 48) cs = n).
  { intros n Hn E. destruct (decide (n = 0)) as [->|Hne].
    - left. by injection E as -> ->.
    - right. destruct (decimal_shape n) as (c' & cs' & E' & ?); [lia|].
      rewrite <- E in E'. by injection E' as -> ->. }
  destruct (is_num c) eqn:Enum.
  2: { apply wp_ret. intros n Hn E. destruct (Hlead n Hn E) as [(_ & -> & _)|(Hc & _)]; [done|].
       assert (is_num c = true) by (apply is_num_digit; unfold digit; lia). congruence. }
  apply is_num_digit in Enum. unfold digit in Enum.
  destruct (Z.eqb_spec c 48) as [->|Hc48].
  - destruct (Z.eqb_spec (Z.of_nat (length (48 :: cs))) 1) as [E1|E1]; cbn [negb]; apply wp_ret.
    + destruct cs; [|simpl in E1; lia]. split; [lia|done].
    + intros n Hn E. destruct (Hlead n Hn E) as [(_ & _ & ->)|(? & _)]; [done|lia].
  - eapply wp_mono; [apply (num_loop_spec (c :: cs)); simpl; lia|].
    change (drop (Z.to_nat 1) (c :: cs)) with cs. intros [m|]; cbv zeta.
    + intros (Hcs & -> & Hm). pose proof (value_ge (c - 48) cs ltac:(lia) Hcs).
      split; [lia|]. by rewrite decimal_value by (lia || done).
    + intros Hno n Hn E. destruct (Hlead n Hn E) as [(_ & ? & _)|(_ & Hcs & Hv)]; [done|].
      apply Hno. split; [done|lia].
Qed.

(** C37.  [is_num_string] recognises exactly the decimal writings, without
    leading zeros, of the integers from 0 to 2^32 - 1, and returns the
    integer: what [JS_NewAtomStr] turns into a tagged integer atom is the
    canonical string of that integer. *)
Theorem is_num_string_correct s :
  wp (is_num_string s) (fun r => forall n,
    r = Some n <-> 0 <= n < 2 ^ 32 /\ chars s = decimal n).
Proof.
  eapply wp_mono; [apply is_num_string_spec|]. intros [m|] H n.
  - destruct H as [Hm E]. split; [by intros [= <-]|]. intros [Hn E'].
    rewrite (decimal_inj m n); [done|done|done|congruence].
  - split; [done|]. intros [Hn E]. by destruct (H n Hn).
Qed.
