(* ===== verification/Strings.v ===== *)
(** * Construction of strings ([quickjs.c])

    [StringBuffer], which builds a string in a block that widens when a
    character does not fit in 8 bits, the conversions from and to UTF-8,
    substrings and concatenation.  Strings are the structures of [Atoms]: a
    structure is in the store from its allocation on, and the characters of a
    buffer are in its block of bytes until [string_buffer_end].  A result that
    is a string or [JS_EXCEPTION] is [Some] address or [None]. *)

From stdpp Require Import base tactics numbers list option gmap.
From Stdlib Require Import ZArith Lia.
From S2P Require Import Prelude Cutils Atoms.

Open Scope Z_scope.

Definition JS_STRING_LEN_MAX : Z := Z.shiftl 1 30 - 1.
Definition JS_ATOM_empty_string : Z := 47.

(** [sizeof(JSString) + (n << is_wide_char) + 1 - is_wide_char] *)
Definition wide_bit (wide : bool) : Z := if wide then 1 else 0.
Definition string_bytes (n : Z) (wide : bool) : Z :=
  sizeof_JSString + Z.shiftl n (wide_bit wide) + 1 - wide_bit wide.

(** [js_realloc2] of a structure gets the addresses in use, and gives the new
    address and the slack. *)
Class StringEngine {al : JSMalloc} := {
  js_realloc2 : mheap -> gset Z -> Z -> Z -> mheap * option (Z * Z);
  js_malloc_usable_size : mheap -> Z -> Z
}.

Definition with_chars (s : JSString) (wide : bool) (l : list Z) : JSString :=
  mkString (ref_count s) wide l (hash s) (atom_type s) (hash_next s).

(** The bytes of 16-bit characters, and back. *)
Definition bytes16 (l : list Z) : list Z := l ≫= bytes_of_u16.
Fixpoint chars16 (b : list Z) : list Z :=
  match b with
  | b0 :: b1 :: b => (b0 + 256 * b1) :: chars16 b
  | _ => []
  end.

(** The operations on [int] that may overflow. *)
Definition int_add (a b : Z) : res Z :=
  let* _ := c_assert (a + b <=? INT32_MAX) in Ret (a + b).

Record StringBuffer := mkSB {
  (** the structure; [None] is [NULL] *)
  sb_str : option Z;
  (** the bytes of its characters, as many as were allocated *)
  sb_block : list Z;
  sb_len : Z;
  sb_size : Z;
  sb_wide : bool;
  sb_error : Z
}.

Section strings.
Context {al : JSMalloc} {se : StringEngine}.

(** The characters are written by the callers. *)
Definition js_alloc_string (rt : JSRuntime) (max_len : Z) (wide : bool) : res (JSRuntime * option Z) :=
  let* _ := c_assert ((0 <=? max_len) && (Z.shiftl max_len (wide_bit wide) <=? INT32_MAX)) in
  match malloc_str rt (string_bytes max_len wide) with
  | (rt, None) => Ret (rt, None)
  | (rt, Some p) => Ret (put_str rt p (mkString 1 wide [] 0 0 0), Some p)
  end.

Definition set_chars (rt : JSRuntime) (p : Z) (l : list Z) : res JSRuntime :=
  let* s := get_str rt p in Ret (put_str rt p (with_chars s (is_wide_char s) l)).

(** [JS_AtomToString(ctx, JS_ATOM_empty_string)] *)
Definition empty_string (rt : JSRuntime) : res (JSRuntime * option Z) :=
  let* p := rd (atom_array rt) JS_ATOM_empty_string in
  let* rt := add_ref rt p 1 in
  Ret (rt, Some p).

Definition js_new_string (rt : JSRuntime) (wide : bool) (l : list Z) : res (JSRuntime * option Z) :=
  let* x := js_alloc_string rt (Z.of_nat (length l)) wide in
  match x with
  | (rt, None) => Ret (rt, None)
  | (rt, Some p) => let* rt := set_chars rt p l in Ret (rt, Some p)
  end.

Definition js_new_string8 (rt : JSRuntime) (buf : list Z) : res (JSRuntime * option Z) :=
  if Z.of_nat (length buf) <=? 0 then empty_string rt else js_new_string rt false buf.

Definition js_new_string16 (rt : JSRuntime) (buf : list Z) : res (JSRuntime * option Z) :=
  js_new_string rt true buf.

Definition js_new_string_char (rt : JSRuntime) (c : Z) : res (JSRuntime * option Z) :=
  if c <? 0x100 then js_new_string8 rt [u8 c] else js_new_string16 rt [c].

(** The bits that are set in some character. *)
Definition or_chars (l : list Z) : Z := foldl Z.lor 0 l.

Definition js_sub_string (rt : JSRuntime) (p start end_ : Z) : res (JSRuntime * option Z) :=
  let* s := get_str rt p in
  let n := end_ - start in
  if (start =? 0) && (end_ =? len s) then let* rt := add_ref rt p 1 in Ret (rt, Some p)
  else if is_wide_char s && (0 <? n) then
    let* l := slice (chars s) start n in
    if 0xff <? or_chars l then js_new_string16 rt l
    else js_new_string rt false (u8 <$> l)
  else if n <=? 0 then empty_string rt
  else let* l := slice (chars s) start n in js_new_string8 rt l.

(** ** String buffers *)

Definition string_buffer_init2 (rt : JSRuntime) (size : Z) (wide : bool)
  : res (JSRuntime * StringBuffer * Z) :=
  let* x := js_alloc_string rt size wide in
  match x with
  | (rt, None) => Ret (rt, mkSB None [] 0 0 wide (-1), -1)
  | (rt, Some p) =>
      let n := string_bytes size wide - sizeof_JSString in
      Ret (rt, mkSB (Some p) (replicate (Z.to_nat n) 0) 0 size wide 0, 0)
  end.

Definition string_buffer_init (rt : JSRuntime) (size : Z) := string_buffer_init2 rt size false.

(** [js_free] of the structure *)
Definition free_sb (rt : JSRuntime) (s : StringBuffer) : JSRuntime :=
  match sb_str s with Some p => free_str rt p | None => rt end.

Definition string_buffer_free (rt : JSRuntime) (s : StringBuffer) : JSRuntime * StringBuffer :=
  (free_sb rt s, mkSB None [] (sb_len s) (sb_size s) (sb_wide s) (sb_error s)).

Definition string_buffer_set_error (rt : JSRuntime) (s : StringBuffer) : JSRuntime * StringBuffer * Z :=
  (free_sb rt s, mkSB None [] 0 0 (sb_wide s) (-1), -1).

(** [js_realloc2] of the structure, with [bytes] bytes in all: the block and
    the slack; [None] if memory runs out. *)
Definition realloc_sb (rt : JSRuntime) (s : StringBuffer) (bytes : Z)
  : res (JSRuntime * option (Z * list Z * Z)) :=
  match sb_str s with
  | None => Ub
  | Some p =>
      let* r := get_str rt p in
      let '(m, x) := js_realloc2 (mem rt) (dom (strings rt)) p bytes in
      let rt := set_mem rt m in
      match x with
      | None => Ret (rt, None)
      | Some (p', slack) =>
          let n := Z.to_nat (bytes - sizeof_JSString + slack) in
          let b := take n (sb_block s) ++ replicate (n - length (sb_block s)) 0 in
          Ret (put_str (free_str rt p) p' r, Some (p', b, slack))
      end
  end.

(** [for(i = s->len; i-- > 0;) str->u.str16[i] = str->u.str8[i];] in one
    block *)
Fixpoint widen_loop (i : nat) (b : list Z) : res (list Z) :=
  match i with
  | O => Ret b
  | S i =>
      let* c := rd b (Z.of_nat i) in
      let* b := put_u16 b (2 * Z.of_nat i) c in
      widen_loop i b
  end.

Definition string_buffer_widen (rt : JSRuntime) (s : StringBuffer) (size : Z)
  : res (JSRuntime * StringBuffer * Z) :=
  if negb (sb_error s =? 0) then Ret (rt, s, -1)
  else
    let* _ := c_assert (Z.shiftl size 1 <=? INT32_MAX) in
    let* x := realloc_sb rt s (sizeof_JSString + Z.shiftl size 1) in
    match x with
    | (rt, None) => Ret (string_buffer_set_error rt s)
    | (rt, Some (p, b, slack)) =>
        let size := i32 (size + Z.shiftr slack 1) in
        let* b := widen_loop (Z.to_nat (sb_len s)) b in
        Ret (rt, mkSB (Some p) b (sb_len s) size true (sb_error s), 0)
    end.

Definition string_buffer_realloc (rt : JSRuntime) (s : StringBuffer) (new_len c : Z)
  : res (JSRuntime * StringBuffer * Z) :=
  if negb (sb_error s =? 0) then Ret (rt, s, -1)
  else if JS_STRING_LEN_MAX <? new_len then
    (* string too long *)
    Ret (string_buffer_set_error rt s)
  else
    (* [s->size * 3] is an [int] *)
    let* _ := c_assert (sb_size s * 3 <=? INT32_MAX) in
    let new_size := min_int (max_int new_len (sb_size s * 3 / 2)) JS_STRING_LEN_MAX in
    if negb (sb_wide s) && (0x100 <=? c) then string_buffer_widen rt s new_size
    else
      let* _ := c_assert (Z.shiftl new_size (wide_bit (sb_wide s)) <=? INT32_MAX) in
      let* x := realloc_sb rt s (string_bytes new_size (sb_wide s)) in
      match x with
      | (rt, None) => Ret (string_buffer_set_error rt s)
      | (rt, Some (p, b, slack)) =>
          let new_size :=
            min_int (i32 (new_size + Z.shiftr slack (wide_bit (sb_wide s)))) JS_STRING_LEN_MAX in
          Ret (rt, mkSB (Some p) b (sb_len s) new_size (sb_wide s) (sb_error s), 0)
      end.

(** [s->str->u.str16[s->len++] = c] or [str8] *)
Definition append_char (s : StringBuffer) (c : Z) : res StringBuffer :=
  let* b :=
    (if sb_wide s then put_u16 (sb_block s) (2 * sb_len s) (u16 c)
     else wr (sb_block s) (sb_len s) (u8 c)) in
  Ret (mkSB (sb_str s) b (sb_len s + 1) (sb_size s) (sb_wide s) (sb_error s)).

Definition string_buffer_putc_slow (rt : JSRuntime) (s : StringBuffer) (c : Z)
  : res (JSRuntime * StringBuffer * Z) :=
  let* x :=
    (if sb_size s <=? sb_len s then string_buffer_realloc rt s (sb_len s + 1) c
     else Ret (rt, s, 0)) in
  let '(rt, s, r) := x in
  if negb (r =? 0) then Ret (rt, s, -1)
  else if sb_wide s || (c <? 0x100) then
    let* s := append_char s c in Ret (rt, s, 0)
  else
    let* x := string_buffer_widen rt s (sb_size s) in
    let '(rt, s, r) := x in
    if negb (r =? 0) then Ret (rt, s, -1)
    else let* s := append_char s c in Ret (rt, s, 0).

(** 0 <= c <= 0xff *)
Definition string_buffer_putc8 (rt : JSRuntime) (s : StringBuffer) (c : Z)
  : res (JSRuntime * StringBuffer * Z) :=
  let* x :=
    (if sb_size s <=? sb_len s then string_buffer_realloc rt s (sb_len s + 1) c
     else Ret (rt, s, 0)) in
  let '(rt, s, r) := x in
  if negb (r =? 0) then Ret (rt, s, -1)
  else let* s := append_char s c in Ret (rt, s, 0).

(** 0 <= c <= 0xffff *)
Definition string_buffer_putc16 (rt : JSRuntime) (s : StringBuffer) (c : Z)
  : res (JSRuntime * StringBuffer * Z) :=
  if (sb_len s <? sb_size s) && (sb_wide s || (c <? 0x100)) then
    let* s := append_char s c in Ret (rt, s, 0)
  else string_buffer_putc_slow rt s c.

(** 0 <= c <= 0x10ffff *)
Definition string_buffer_putc (rt : JSRuntime) (s : StringBuffer) (c : Z)
  : res (JSRuntime * StringBuffer * Z) :=
  if 0x10000 <=? c then
    (* surrogate pair *)
    let c := c - 0x10000 in
    let* x := string_buffer_putc16 rt s (Z.shiftr c 10 + 0xd800) in
    let '(rt, s, r) := x in
    if negb (r =? 0) then Ret (rt, s, -1)
    else string_buffer_putc16 rt s (Z.land c 0x3ff + 0xdc00)
  else string_buffer_putc16 rt s c.

Definition string_get (s : JSString) (idx : Z) : res Z := rd (chars s) idx.

(** The character and the new index. *)
Definition string_getc (s : JSString) (idx : Z) : res (Z * Z) :=
  let* c := rd (chars s) idx in
  let idx := idx + 1 in
  if is_wide_char s && (0xd800 <=? c) && (c <? 0xdc00) && (idx <? len s) then
    let* c1 := rd (chars s) idx in
    if (0xdc00 <=? c1) && (c1 <? 0xe000) then
      Ret (Z.lor (Z.shiftl (Z.land c 0x3ff) 10) (Z.land c1 0x3ff) + 0x10000, idx + 1)
    else Ret (c, idx)
  else Ret (c, idx).

(** [for (i = 0; i < len; i++) str16[pos + i] = p[i];] *)
Fixpoint store16 (b : list Z) (pos : Z) (l : list Z) : res (list Z) :=
  match l with
  | [] => Ret b
  | c :: l => let* b := put_u16 b (2 * pos) (u16 c) in store16 b (pos + 1) l
  end.

(** The same with [str8]. *)
Fixpoint store8 (b : list Z) (pos : Z) (l : list Z) : res (list Z) :=
  match l with
  | [] => Ret b
  | c :: l => let* b := wr b pos (u8 c) in store8 b (pos + 1) l
  end.

Definition set_block (s : StringBuffer) (b : list Z) (len : Z) : StringBuffer :=
  mkSB (sb_str s) b len (sb_size s) (sb_wide s) (sb_error s).

Definition string_buffer_write8 (rt : JSRuntime) (s : StringBuffer) (p : list Z)
  : res (JSRuntime * StringBuffer * Z) :=
  let* n := int_add (sb_len s) (Z.of_nat (length p)) in
  let* x := (if sb_size s <? n then string_buffer_realloc rt s n 0 else Ret (rt, s, 0)) in
  let '(rt, s, r) := x in
  if negb (r =? 0) then Ret (rt, s, -1)
  else
    let* b :=
      (if sb_wide s then store16 (sb_block s) (sb_len s) p
       else (* memcpy *) blit (sb_block s) (sb_len s) p) in
    Ret (rt, set_block s b (sb_len s + Z.of_nat (length p)), 0).

Definition string_buffer_write16 (rt : JSRuntime) (s : StringBuffer) (p : list Z)
  : res (JSRuntime * StringBuffer * Z) :=
  let c := or_chars p in
  let* n := int_add (sb_len s) (Z.of_nat (length p)) in
  let* x :=
    (if sb_size s <? n then string_buffer_realloc rt s n c
     else if negb (sb_wide s) && (0x100 <=? c) then string_buffer_widen rt s (sb_size s)
     else Ret (rt, s, 0)) in
  let '(rt, s, r) := x in
  if negb (r =? 0) then Ret (rt, s, -1)
  else
    let* b :=
      (if sb_wide s then (* memcpy *) blit (sb_block s) (2 * sb_len s) (bytes16 p)
       else store8 (sb_block s) (sb_len s) p) in
    Ret (rt, set_block s b (sb_len s + Z.of_nat (length p)), 0).

(** appending an ASCII string *)
Definition string_buffer_puts8 (rt : JSRuntime) (s : StringBuffer) (str : list Z)
  : res (JSRuntime * StringBuffer * Z) :=
  let* n := strlen str 0 in
  let* l := slice str 0 n in
  string_buffer_write8 rt s l.

Definition string_buffer_concat (rt : JSRuntime) (s : StringBuffer) (p : JSString) (from to : Z)
  : res (JSRuntime * StringBuffer * Z) :=
  if to <=? from then Ret (rt, s, 0)
  else
    let* l := slice (chars p) from (to - from) in
    if is_wide_char p then string_buffer_write16 rt s l else string_buffer_write8 rt s l.

(** On a string. *)
Definition string_buffer_concat_value (rt : JSRuntime) (s : StringBuffer) (v : Z)
  : res (JSRuntime * StringBuffer * Z) :=
  if negb (sb_error s =? 0) then Ret (rt, s, -1)
  else let* p := get_str rt v in string_buffer_concat rt s p 0 (len p).

Definition string_buffer_concat_value_free (rt : JSRuntime) (s : StringBuffer) (v : Z)
  : res (JSRuntime * StringBuffer * Z) :=
  if negb (sb_error s =? 0) then let* rt := js_free_string rt v in Ret (rt, s, -1)
  else
    let* p := get_str rt v in
    let* x := string_buffer_concat rt s p 0 (len p) in
    let '(rt, s, r) := x in
    let* rt := js_free_string rt v in
    Ret (rt, s, r).

(** [while (count-- > 0)] *)
Fixpoint fill_loop (count : nat) (rt : JSRuntime) (s : StringBuffer) (c : Z)
  : res (JSRuntime * StringBuffer * Z) :=
  match count with
  | O => Ret (rt, s, 0)
  | S count =>
      let* x := string_buffer_putc16 rt s c in
      let '(rt, s, r) := x in
      if negb (r =? 0) then Ret (rt, s, -1) else fill_loop count rt s c
  end.

Definition string_buffer_fill (rt : JSRuntime) (s : StringBuffer) (c count : Z)
  : res (JSRuntime * StringBuffer * Z) :=
  let* n := int_add (sb_len s) count in
  let* x := (if sb_size s <? n then string_buffer_realloc rt s n c else Ret (rt, s, 0)) in
  let '(rt, s, r) := x in
  if negb (r =? 0) then Ret (rt, s, -1) else fill_loop (Z.to_nat count) rt s c.

(** The characters of a block. *)
Definition block_chars (b : list Z) (wide : bool) (n : Z) : res (list Z) :=
  if wide then let* l := slice b 0 (2 * n) in Ret (chars16 l) else slice b 0 n.

Definition string_buffer_end (rt : JSRuntime) (s : StringBuffer) : res (JSRuntime * option Z) :=
  if negb (sb_error s =? 0) then Ret (rt, None)
  else if sb_len s =? 0 then empty_string (free_sb rt s)
  else
    match sb_str s with
    | None => Ub
    | Some p =>
        let* x :=
          (if sb_len s <? sb_size s then
             (* smaller size so js_realloc should not fail, but OK if it does;
                the slack is not asked for *)
             let* x := realloc_sb rt s (string_bytes (sb_len s) (sb_wide s)) in
             match x with
             | (rt, None) => Ret (rt, p, sb_block s)
             | (rt, Some (p, b, _)) => Ret (rt, p, b)
             end
           else Ret (rt, p, sb_block s)) in
        let '(rt, p, b) := x in
        (* the null terminator *)
        let* b := (if negb (sb_wide s) then wr b (sb_len s) 0 else Ret b) in
        let* l := block_chars b (sb_wide s) (sb_len s) in
        let* r := get_str rt p in
        Ret (put_str rt p (with_chars r (sb_wide s) l), Some p)
    end.

(** ** UTF-8 *)

(** [while (p < p_end && *p < 128) p++;] and the like *)
Definition skip_while (f : Z -> bool) (buf : list Z) (p : Z) : res Z :=
  loop (S (length buf)) (fun p =>
    if p <? Z.of_nat (length buf) then
      let* c := rd buf p in
      if f c then Ret (inl (p + 1)) else Ret (inr p)
    else Ret (inr p)) p.

Definition is_cont_byte (c : Z) : bool := (0x80 <=? c) && (c <? 0xc0).

(** skip the invalid chars *)
Definition skip_invalid (buf : list Z) (p : Z) : res Z :=
  let* p := skip_while is_cont_byte buf p in
  if p <? Z.of_nat (length buf) then skip_while is_cont_byte buf (p + 1) else Ret p.

(** One character of the loop of [JS_NewStringLen]; the errors are kept by
    the buffer. *)
Definition utf8_step (buf : list Z) (x : JSRuntime * StringBuffer * Z)
  : res (JSRuntime * StringBuffer * Z + JSRuntime * StringBuffer) :=
  let '(rt, b, p) := x in
  if p <? Z.of_nat (length buf) then
    let* c := rd buf p in
    if c <? 128 then
      let* x := string_buffer_putc8 rt b c in
      let '(rt, b, _) := x in Ret (inl (rt, b, p + 1))
    else
      (* parse utf-8 sequence, return 0xFFFFFFFF for error *)
      let* x := unicode_from_utf8 buf p (Z.of_nat (length buf) - p) in
      let '(c, p_next) := x in
      let c := u32 c in
      if c <? 0x10000 then
        let* x := string_buffer_putc16 rt b c in
        let '(rt, b, _) := x in Ret (inl (rt, b, p_next))
      else if c <=? 0x10ffff then
        (* surrogate pair *)
        let c := c - 0x10000 in
        let* x := string_buffer_putc16 rt b (Z.shiftr c 10 + 0xd800) in
        let '(rt, b, _) := x in
        let* x := string_buffer_putc16 rt b (Z.land c 0x3ff + 0xdc00) in
        let '(rt, b, _) := x in Ret (inl (rt, b, p_next))
      else
        (* invalid char *)
        let* p := skip_invalid buf p in
        let* x := string_buffer_putc16 rt b 0xfffd in
        let '(rt, b, _) := x in Ret (inl (rt, b, p))
  else Ret (inr (rt, b)).

(** create a string from a UTF-8 buffer *)
Definition JS_NewStringLen (rt : JSRuntime) (buf : list Z) : res (JSRuntime * option Z) :=
  let buf_len := Z.of_nat (length buf) in
  let* len1 := skip_while (fun c => c <? 128) buf 0 in
  if JS_STRING_LEN_MAX <? len1 then Ret (rt, None)
  else if len1 =? buf_len then (* ASCII string *) js_new_string8 rt buf
  else
    let* x := string_buffer_init rt (i32 buf_len) in
    let '(rt, b, r) := x in
    if negb (r =? 0) then Ret ((string_buffer_free rt b).1, None)
    else
      let* x := string_buffer_write8 rt b (take (Z.to_nat len1) buf) in
      let '(rt, b, _) := x in
      let* x := loop (S (length buf)) (utf8_step buf) (rt, b, len1) in
      let '(rt, b) := x in
      string_buffer_end rt b.

(** The characters until the null terminator. *)
Definition JS_NewString (rt : JSRuntime) (str : list Z) : res (JSRuntime * option Z) :=
  let* n := strlen str 0 in
  let* l := slice str 0 n in
  JS_NewStringLen rt l.

(** [count += src[pos] >> 7] *)
Definition count_high (l : list Z) : Z := foldl (fun n c => n + Z.shiftr c 7) 0 l.

(** [*q++] in a block that holds [cap] bytes: what was written before is
    [q]. *)
Definition emit_bytes (cap : Z) (q l : list Z) : res (list Z) :=
  let* _ := c_assert (Z.of_nat (length (q ++ l)) <=? cap) in Ret (q ++ l).

Fixpoint encode8 (cap : Z) (q src : list Z) : res (list Z) :=
  match src with
  | [] => Ret q
  | c :: src =>
      let* q := emit_bytes cap q
        (if c <? 0x80 then [c]
         else [u8 (Z.lor (Z.shiftr c 6) 0xc0); u8 (Z.lor (Z.land c 0x3f) 0x80)]) in
      encode8 cap q src
  end.

(** The loop over wide characters, from the position [pos]. *)
Definition encode16_step (cap : Z) (cesu8 : bool) (src : list Z) (x : list Z * Z)
  : res (list Z * Z + list Z) :=
  let '(q, pos) := x in
  if pos <? Z.of_nat (length src) then
    let* c := rd src pos in
    let pos := pos + 1 in
    if c <? 0x80 then let* q := emit_bytes cap q [c] in Ret (inl (q, pos))
    else
      let* x :=
        (if (0xd800 <=? c) && (c <? 0xdc00) && (pos <? Z.of_nat (length src)) && negb cesu8 then
           let* c1 := rd src pos in
           if (0xdc00 <=? c1) && (c1 <? 0xe000) then
             (* surrogate pair *)
             Ret (Z.lor (Z.shiftl (Z.land c 0x3ff) 10) (Z.land c1 0x3ff) + 0x10000, pos + 1)
           else Ret (c, pos)
         else (* Keep unmatched surrogate code points *) Ret (c, pos)) in
      let '(c, pos) := x in
      let* q := emit_bytes cap q (unicode_to_utf8 c) in
      Ret (inl (q, pos))
  else Ret (inr q).

(** The end of [JS_ToCStringLen2], with the null terminator. *)
Definition finish_cstring (rt : JSRuntime) (val p cap : Z) (q : list Z) : res (JSRuntime * option Z) :=
  let* _ := c_assert (Z.of_nat (length q) <? cap) in
  let* rt := set_chars rt p q in
  let* rt := js_free_string rt val in
  Ret (rt, Some p).

(** On a string: the structure whose bytes are the result; [cesu8] determines
    if non-BMP1 codepoints are encoded as 1 or 2 utf-8 sequences. *)
Definition JS_ToCStringLen2 (rt : JSRuntime) (val : Z) (cesu8 : bool) : res (JSRuntime * option Z) :=
  let* rt := add_ref rt val 1 in
  let* s := get_str rt val in
  if negb (is_wide_char s) then
    let count := count_high (chars s) in
    if count =? 0 then Ret (rt, Some val)
    else
      let* n := int_add (len s) count in
      let* x := js_alloc_string rt n false in
      match x with
      | (rt, None) => Ret (rt, None)
      | (rt, Some p) =>
          let* q := encode8 (n + 1) [] (chars s) in
          finish_cstring rt val p (n + 1) q
      end
  else
    (* Allocate 3 bytes per 16 bit code point. Surrogate pairs may produce 4
       bytes but use 2 code points. *)
    let* _ := c_assert (len s * 3 <=? INT32_MAX) in
    let n := len s * 3 in
    let* x := js_alloc_string rt n false in
    match x with
    | (rt, None) => Ret (rt, None)
    | (rt, Some p) =>
        let* q := loop (S (length (chars s))) (encode16_step (n + 1) cesu8 (chars s)) ([], 0) in
        finish_cstring rt val p (n + 1) q
    end.

(** The structure of the bytes. *)
Definition JS_FreeCString (rt : JSRuntime) (p : Z) : res JSRuntime := js_free_string rt p.

(** ** Concatenation *)

Definition JS_ConcatString1 (rt : JSRuntime) (s1 s2 : JSString) : res (JSRuntime * option Z) :=
  let n := len s1 + len s2 in
  if JS_STRING_LEN_MAX <? n then Ret (rt, None)
  else js_new_string rt (is_wide_char s1 || is_wide_char s2) (chars s1 ++ chars s2).

(** The operands are the results of the conversions to strings, exceptions
    included. *)
Definition JS_ConcatString (rt : JSRuntime) (op1 op2 : option Z) : res (JSRuntime * option Z) :=
  match op1, op2 with
  | None, None => Ret (rt, None)
  | None, Some v | Some v, None => let* rt := js_free_string rt v in Ret (rt, None)
  | Some a1, Some a2 =>
      let* p1 := get_str rt a1 in
      let* p2 := get_str rt a2 in
      if len p2 =? 0 then let* rt := js_free_string rt a2 in Ret (rt, Some a1)
      else
        let w := wide_bit (is_wide_char p2) in
        let* in_place :=
          (if (ref_count p1 =? 1) && eqb (is_wide_char p1) (is_wide_char p2) then
             let* _ := c_assert (Z.shiftl (len p1 + len p2) w <=? INT32_MAX) in
             Ret (string_bytes (len p1 + len p2) (is_wide_char p1) <=? js_malloc_usable_size (mem rt) a1)
           else Ret false) in
        if in_place : bool then
          (* Concatenate in place in available space at the end of p1 *)
          let* rt := set_chars rt a1 (chars p1 ++ chars p2) in
          let* rt := js_free_string rt a2 in
          Ret (rt, Some a1)
        else
          let* x := JS_ConcatString1 rt p1 p2 in
          let '(rt, r) := x in
          let* rt := js_free_string rt a1 in
          let* rt := js_free_string rt a2 in
          Ret (rt, r)
  end.

(** [str2] is the result of the conversion. *)
Definition JS_ConcatString3 (rt : JSRuntime) (str1 : list Z) (str2 : option Z) (str3 : list Z)
  : res (JSRuntime * option Z) :=
  match str2 with
  | None => Ret (rt, None)
  | Some v =>
      let* p := get_str rt v in
      let* len1 := strlen str1 0 in
      let* len3 := strlen str3 0 in
      let* n := int_add (len1 + len p) len3 in
      let* x := string_buffer_init2 rt n (is_wide_char p) in
      let '(rt, b, r) := x in
      if negb (r =? 0) then let* rt := js_free_string rt v in Ret (rt, None)
      else
        let* l1 := slice str1 0 len1 in
        let* x := string_buffer_write8 rt b l1 in
        let '(rt, b, _) := x in
        let* x := string_buffer_concat rt b p 0 (len p) in
        let '(rt, b, _) := x in
        let* l3 := slice str3 0 len3 in
        let* x := string_buffer_write8 rt b l3 in
        let '(rt, b, _) := x in
        let* rt := js_free_string rt v in
        string_buffer_end rt b
  end.
End strings.
