(* ===== verification/StringBufSpec.v ===== *)
(** * String buffers refine sequences of characters

    The block of a [StringBuffer] holds the characters that were appended, in
    8 or 16 bits; an error is kept until [string_buffer_end]. *)

From stdpp Require Import base tactics numbers list option gmap.
From Stdlib Require Import ZArith Lia.
From S2P Require Import Prelude Cutils Atoms Strings.

Open Scope Z_scope.

(** ** Blocks of characters *)

Definition char_max (wide : bool) : Z := if wide then 2 ^ 16 else 2 ^ 8.
Definition fits (wide : bool) (c : Z) : Prop := 0 <= c < char_max wide.
Definition block_bytes (wide : bool) (l : list Z) : list Z := if wide then bytes16 l else l.

(** The block starts with the characters [l]. *)
Definition holds (b : list Z) (wide : bool) (l : list Z) : Prop := exists rest, b = block_bytes wide l ++ rest.

(** The bytes of [n] characters. *)
Definition width (wide : bool) : nat := if wide then 2%nat else 1%nat.

Lemma length_bytes16 l : length (bytes16 l) = (2 * length l)%nat.
Proof. unfold bytes16. induction l as [|c l IH]; [done|]. cbn. rewrite IH. lia. Qed.

Lemma length_block_bytes w l : length (block_bytes w l) = (width w * length l)%nat.
Proof. destruct w; cbn [block_bytes width]; [apply length_bytes16|lia]. Qed.

Lemma bytes16_app l1 l2 : bytes16 (l1 ++ l2) = bytes16 l1 ++ bytes16 l2.
Proof. apply bind_app. Qed.

Lemma block_bytes_app w l1 l2 : block_bytes w (l1 ++ l2) = block_bytes w l1 ++ block_bytes w l2.
Proof. destruct w; [apply bytes16_app|done]. Qed.

Lemma chars16_bytes16 l : Forall (fits true) l -> chars16 (bytes16 l) = l.
Proof.
  induction 1 as [|c l Hc _ IH]; [done|]. change (bytes16 (c :: l)) with (bytes_of_u16 c ++ bytes16 l).
  unfold bytes_of_u16, u8. cbn [app chars16]. rewrite IH. f_equal. unfold fits, char_max in Hc.
  rewrite Z.shiftr_div_pow2 by lia. dlia.
Qed.

Lemma blit_seam {A} (a d rest : list A) : (length d <= length rest)%nat ->
  blit (a ++ rest) (Z.of_nat (length a)) d = Ret (a ++ d ++ drop (length d) rest).
Proof.
  intros Hd. rewrite blit_in by lens. f_equal. rewrite Nat2Z.id.
  by rewrite take_app_length, <- drop_drop, drop_app_length.
Qed.

(** Characters after the ones that the block holds. *)
Lemma holds_blit b w l d : holds b w l -> (length (block_bytes w l) + length (block_bytes w d) <= length b)%nat ->
  exists b', blit b (Z.of_nat (length (block_bytes w l))) (block_bytes w d) = Ret b'
    /\ holds b' w (l ++ d) /\ length b' = length b.
Proof.
  intros [rest ->] Hn. rewrite length_app in Hn.
  eexists. split; [by apply blit_seam; lia|]. split.
  - eexists. by rewrite block_bytes_app, <- app_assoc.
  - list_len. lia.
Qed.

Lemma put_u16_blit b pos c : put_u16 b pos c = blit b pos (bytes16 [c]).
Proof. done. Qed.

Lemma wr_blit (b : list Z) pos c : 0 <= pos -> wr b pos c = blit b pos [c].
Proof.
  intros Hp. destruct (Z.ltb_spec pos (Z.of_nat (length b))) as [H|H].
  - rewrite wr_in by lia. rewrite blit_in by lens. f_equal. rewrite insert_take_drop by lia. cbn [length].
    do 3 f_equal. lia.
  - unfold wr, blit. cbn [length]. repeat zcase; cbn [andb]; try done; lia.
Qed.

(** The stores of one character at a time. *)
Lemma store16_spec b l d : Forall (fits true) d -> holds b true l ->
  (length (bytes16 l) + length (bytes16 d) <= length b)%nat ->
  exists b', store16 b (Z.of_nat (length l)) d = Ret b' /\ holds b' true (l ++ d) /\ length b' = length b.
Proof.
  revert b l. induction d as [|c d IH]; intros b l Hd Hb Hn.
  { exists b. rewrite app_nil_r. done. }
  apply Forall_cons in Hd as [Hc Hd]. cbn [store16]. unfold fits, char_max in Hc.
  unfold u16. rewrite Z.mod_small by done. rewrite put_u16_blit.
  rewrite !length_bytes16 in *. cbn [length] in Hn.
  destruct (holds_blit b true l [c] Hb) as (b1 & E & Hb1 & Hlen).
  { cbn [block_bytes]. rewrite !length_bytes16. cbn. lia. }
  cbn [block_bytes] in E. rewrite length_bytes16 in E.
  replace (2 * Z.of_nat (length l)) with (Z.of_nat (2 * length l)) by lia. rewrite E. cbn [bind].
  destruct (IH b1 (l ++ [c]) Hd Hb1) as (b2 & E2 & Hb2 & Hlen2).
  { rewrite !length_bytes16, length_app. cbn [length]. lia. }
  rewrite length_app in E2. cbn [length] in E2.
  replace (Z.of_nat (length l + 1)) with (Z.of_nat (length l) + 1) in E2 by lia.
  exists b2. split; [done|]. split; [|lia]. by rewrite <- app_assoc in Hb2.
Qed.

Lemma store8_spec b l d : Forall (fits false) d -> holds b false l -> (length l + length d <= length b)%nat ->
  exists b', store8 b (Z.of_nat (length l)) d = Ret b' /\ holds b' false (l ++ d) /\ length b' = length b.
Proof.
  revert b l. induction d as [|c d IH]; intros b l Hd Hb Hn.
  { exists b. rewrite app_nil_r. done. }
  apply Forall_cons in Hd as [Hc Hd]. cbn [store8]. unfold fits, char_max in Hc.
  rewrite u8_id by done. rewrite wr_blit by lia. cbn [length] in Hn.
  destruct (holds_blit b false l [c] Hb) as (b1 & E & Hb1 & Hlen); [cbn; lia|].
  cbn [block_bytes] in E. rewrite E. cbn [bind].
  destruct (IH b1 (l ++ [c]) Hd Hb1) as (b2 & E2 & Hb2 & Hlen2); [rewrite length_app; cbn; lia|].
  rewrite length_app in E2. cbn [length] in E2.
  replace (Z.of_nat (length l + 1)) with (Z.of_nat (length l) + 1) in E2 by lia.
  exists b2. split; [done|]. split; [|lia]. by rewrite <- app_assoc in Hb2.
Qed.

(** The widening in place goes down, so that no character is overwritten
    before it is read. *)
Lemma widen_loop_spec l i b : (i <= length l)%nat -> (2 * length l <= length b)%nat ->
  take i b = take i l -> take (2 * (length l - i)) (drop (2 * i) b) = bytes16 (drop i l) ->
  exists b', widen_loop i b = Ret b' /\ holds b' true l /\ length b' = length b.
Proof.
  revert b. induction i as [|i IH]; intros b Hi Hb Ht Hd.
  { exists b. split; [done|]. split; [|done]. change (drop 0 l) with l in Hd. change (2 * 0)%nat with 0%nat in Hd. rewrite drop_0, Nat.sub_0_r in Hd.
    exists (drop (2 * length l) b). cbn [block_bytes]. by rewrite <- Hd, take_drop. }
  cbn [widen_loop].
  destruct (lookup_lt_is_Some_2 l i) as [c Hc]; [lia|].
  assert (Hbc : b !! i = Some c).
  { rewrite <- (lookup_take_lt b (S i) i), Ht, lookup_take_lt by lia. done. }
  rewrite (rd_nat _ _ _ Hbc). cbn [bind]. rewrite put_u16_blit.
  rewrite blit_in by (try rewrite length_bytes16; cbn [length]; lia). cbn [bind].
  rewrite length_bytes16. cbn [length].
  replace (Z.to_nat (2 * Z.of_nat i)) with (2 * i)%nat by lia.
  destruct (IH (take (2 * i) b ++ bytes16 [c] ++ drop (2 * i + 2) b)) as (b' & E & H & Hl).
  - lia.
  - list_len. rewrite length_bytes16. cbn. lia.
  - rewrite take_app_le by (list_len; lia). rewrite take_take. replace (i `min` (2 * i))%nat with i by lia.
    replace (take i b) with (take i (take (S i) b)) by (rewrite take_take; f_equal; lia).
    rewrite Ht, take_take. f_equal. lia.
  - rewrite drop_app_ge by (list_len; lia). list_len.
    replace (2 * i - (2 * i) `min` length b)%nat with 0%nat by lia. rewrite drop_0.
    rewrite (drop_S l c) by done.
    change (c :: drop (S i) l) with ([c] ++ drop (S i) l). rewrite bytes16_app. rewrite <- Hd.
    rewrite take_app_ge by (rewrite length_bytes16; cbn; lia). f_equal. rewrite length_bytes16. cbn [length].
    f_equal; [lia|]. f_equal. lia.
  - exists b'. split; [done|]. split; [done|]. rewrite Hl. list_len. rewrite length_bytes16. cbn. lia.
Qed.

Lemma widen_spec l b : holds b false l -> (2 * length l <= length b)%nat ->
  exists b', widen_loop (length l) b = Ret b' /\ holds b' true l /\ length b' = length b.
Proof.
  intros [rest ->] Hn. apply widen_loop_spec; [done|done| |].
  - by rewrite firstn_all, take_app_length.
  - by rewrite Nat.sub_diag, drop_all.
Qed.

Lemma or_chars_bound l k : 0 <= k -> Forall (fun c => 0 <= c) l ->
  0 <= or_chars l /\ (or_chars l < 2 ^ k <-> Forall (fun c => c < 2 ^ k) l).
Proof.
  intros Hk Hl. unfold or_chars.
  assert (H : forall a, 0 <= a -> 0 <= foldl Z.lor a l
    /\ (foldl Z.lor a l < 2 ^ k <-> a < 2 ^ k /\ Forall (fun c => c < 2 ^ k) l)).
  { induction Hl as [|c l Hc _ IH]; intros a Ha; [cbn; split; [done|]; split; [by intros|by intros []]|].
    cbn [foldl]. assert (Hlor : 0 <= Z.lor a c) by (apply Z.lor_nonneg; lia).
    destruct (IH _ Hlor) as [H1 H2]. split; [done|]. rewrite H2, Forall_cons.
    assert (Z.lor a c < 2 ^ k <-> a < 2 ^ k /\ c < 2 ^ k); [|tauto].
    assert (Hlog : forall x, 0 <= x -> (x < 2 ^ k <-> x = 0 \/ Z.log2 x < k)).
    { intros x Hx. destruct (Z.eqb_spec x 0) as [->|]; [split; [by left|]; intros; apply Z.pow_pos_nonneg; lia|].
      rewrite (Z.log2_lt_pow2 x k) by lia. intuition lia. }
    rewrite !Hlog by done. rewrite Z.log2_lor by done.
    rewrite Z.lor_eq_0_iff. pose proof (Z.log2_nonneg a). pose proof (Z.log2_nonneg c).
    destruct (Z.eqb_spec a 0) as [->|]; destruct (Z.eqb_spec c 0) as [->|];
      change (Z.log2 0) with 0 in *; lia. }
  destruct (H 0) as [H1 H2]; [lia|]. split; [done|]. rewrite H2.
  split; [by intros []|]. intros ?. split; [apply Z.pow_pos_nonneg; lia|done].
Qed.

(** ** What the allocator documents *)

(** [js_realloc] keeps the address or gives one that is not in use, aligned;
    with the slack a block stays below the limit of the memory
    ([JS_SetMemoryLimit]), which is here 512 MiB. *)
Class StringEngineOk {al : JSMalloc} (se : StringEngine) : Prop := {
  string_malloc_ok :: JSMallocOk al;
  malloc_limit : forall m live n m' p, js_malloc_rt m live n = (m', Some p) -> n < 2 ^ 29;
  realloc2_ok : forall m live p n m' p' slack, p ∈ live -> js_realloc2 m live p n = (m', Some (p', slack)) ->
    (p' = p \/ (p' ∉ live)) /\ 0 < p' /\ Z.even p' = true /\ 0 <= slack /\ n + slack < 2 ^ 29
}.

Section buf.
Context {al : JSMalloc} {se : StringEngine} {ok : StringEngineOk se}.

(** A record of the failures of the allocator. *)
Class Failures (failed : mheap -> Prop) : Prop := {
  malloc_failed : forall m live n m' r, js_malloc_rt m live n = (m', r) -> failed m \/ r = None -> failed m';
  realloc_failed : forall m live p n m' r, js_realloc2 m live p n = (m', r) -> failed m \/ r = None -> failed m'
}.
Context {failed : mheap -> Prop} {fo : Failures failed}.

(** The same runtime up to the memory and the strings. *)
Definition same_table (rt0 rt : JSRuntime) : Prop :=
  rt = mkRt (mem rt) (strings rt) (atom_hash_size rt0) (atom_count rt0) (atom_size rt0)
         (atom_count_resize rt0) (atom_hash rt0) (atom_array rt0) (atom_free_index rt0).

Lemma same_table_refl rt : same_table rt rt.
Proof. by destruct rt. Qed.

Lemma same_table_trans rt0 rt rt' : same_table rt0 rt -> same_table rt rt' -> same_table rt0 rt'.
Proof. intros H1 H2. unfold same_table. rewrite H2. by rewrite H1. Qed.

Definition new_string (wide : bool) (l : list Z) : JSString := mkString 1 wide l 0 0 0.

(** A buffer that holds [l], in a structure that is not in the store of
    [rt0]. *)
Record sb_ok (rt0 rt : JSRuntime) (s : StringBuffer) (l : list Z) : Prop := {
  so_error : sb_error s = 0;
  so_str : exists p w, sb_str s = Some p /\ strings rt0 !! p = None /\ 0 < p /\ Z.even p = true
    /\ strings rt = <[p := new_string w []]> (strings rt0);
  so_len : sb_len s = Z.of_nat (length l);
  so_size : sb_len s <= sb_size s < 2 ^ 29;
  so_fits : Forall (fits (sb_wide s)) l;
  so_block : holds (sb_block s) (sb_wide s) l;
  so_room : string_bytes (sb_size s) (sb_wide s) - sizeof_JSString <= Z.of_nat (length (sb_block s))
}.

(** A buffer after an error. *)
Record sb_failed (rt0 rt : JSRuntime) (s : StringBuffer) (l : list Z) : Prop := {
  sf_error : sb_error s = -1;
  sf_str : sb_str s = None;
  sf_strings : strings rt = strings rt0;
  sf_len : sb_len s = 0;
  sf_size : sb_size s = 0;
  sf_block : sb_block s = [];
  sf_why : failed (mem rt) \/ JS_STRING_LEN_MAX < Z.of_nat (length l)
}.

Definition sb_rel (rt0 rt : JSRuntime) (s : StringBuffer) (l : list Z) : Prop :=
  same_table rt0 rt /\ (sb_ok rt0 rt s l \/ sb_failed rt0 rt s l).

(** What an operation that appends [d] does. *)
Definition appends (rt0 : JSRuntime) (l : list Z) (x : JSRuntime * StringBuffer * Z) : Prop :=
  let '(rt, s, r) := x in
  sb_rel rt0 rt s l /\ (r = 0 \/ r = -1 /\ sb_error s <> 0).

Lemma sb_failed_mono rt0 rt s l d : sb_failed rt0 rt s l -> sb_failed rt0 rt s (l ++ d).
Proof. intros []. split; try done. destruct sf_why0; [by left|right]. lens. Qed.

Lemma char_max_pos w : 2 ^ 8 <= char_max w.
Proof. by destruct w. Qed.

Lemma fits_wide w l : Forall (fits w) l -> Forall (fits true) l.
Proof. intros H. eapply Forall_impl; [exact H|]. intros c [H1 H2]. split; [done|]. destruct w; unfold char_max in *; lia. Qed.

Lemma string_bytes_eq n w : string_bytes n w - sizeof_JSString = if w then 2 * n else n + 1.
Proof.
  unfold string_bytes, wide_bit. destruct w; [|rewrite Z.shiftl_0_r; lia].
  rewrite Z.shiftl_mul_pow2 by lia. lia.
Qed.

Lemma so_room' rt0 rt s l : sb_ok rt0 rt s l ->
  (if sb_wide s then 2 * sb_size s else sb_size s + 1) <= Z.of_nat (length (sb_block s)).
Proof. intros H. rewrite <- string_bytes_eq. apply (so_room _ _ _ _ H). Qed.

(** *** Errors and allocation *)

Lemma free_sb_strings rt0 rt s l : sb_ok rt0 rt s l -> strings (free_sb rt s) = strings rt0
  /\ mem (free_sb rt s) = mem rt /\ (same_table rt0 rt -> same_table rt0 (free_sb rt s)).
Proof.
  intros [_ (p & w & E & Hp & _ & _ & ES) _ _ _ _ _]. unfold free_sb. rewrite E. split_and!; [|done|].
  - cbn. by rewrite ES, delete_insert_id.
  - intros Ht. by apply (same_table_trans rt0 rt).
Qed.

Lemma set_error_spec rt0 rt s l d : same_table rt0 rt -> sb_ok rt0 rt s l ->
  failed (mem rt) \/ JS_STRING_LEN_MAX < Z.of_nat (length (l ++ d)) ->
  appends rt0 (l ++ d) (string_buffer_set_error rt s).
Proof.
  intros Ht Hs Hw. destruct (free_sb_strings rt0 rt s l Hs) as (E1 & E2 & E3).
  unfold appends, string_buffer_set_error. split; [|by right].
  split; [by apply E3|right]. split; try done. cbn. by rewrite E2.
Qed.

(** The structure moves; the block keeps its bytes. *)
Lemma realloc_sb_spec rt0 rt s l bytes : same_table rt0 rt -> sb_ok rt0 rt s l ->
  wp (realloc_sb rt s bytes) (fun '(rt', r) => same_table rt0 rt' /\ match r with
    | None => sb_ok rt0 rt' s l /\ failed (mem rt')
    | Some (p, b, slack) => 0 <= slack /\ bytes + slack < 2 ^ 29
        /\ b = take (Z.to_nat (bytes - sizeof_JSString + slack)) (sb_block s)
               ++ replicate (Z.to_nat (bytes - sizeof_JSString + slack) - length (sb_block s)) 0
        /\ exists w, strings rt0 !! p = None /\ 0 < p /\ Z.even p = true
             /\ strings rt' = <[p := new_string w []]> (strings rt0)
    end).
Proof.
  intros Ht Hs. pose proof Hs as [_ (p & w & E & Hp & _ & _ & ES) _ _ _ _ _]. unfold realloc_sb. rewrite E. unfold get_str.
  assert (Hg : strings rt !! p = Some (new_string w [])) by (rewrite ES; apply lookup_insert_eq).
  rewrite Hg. cbn [bind].
  assert (Hin : p ∈ dom (strings rt)) by (by apply elem_of_dom_2 in Hg).
  destruct (js_realloc2 _ _ _ _) as [m r] eqn:Er. destruct r as [[p' slack]|]; apply wp_ret.
  - destruct (realloc2_ok _ _ _ _ _ _ _ Hin Er) as (Hp' & H1 & H2 & H3 & H4).
    split; [by apply (same_table_trans rt0 rt)|]. split_and!; try done. exists w.
    assert (Hn : strings rt0 !! p' = None).
    { destruct Hp' as [->|Hn]; [done|]. apply not_elem_of_dom. rewrite ES in Hn. set_solver. }
    split_and!; try done. cbn. by rewrite ES, delete_insert_id.
  - split; [by apply (same_table_trans rt0 rt)|]. split; [by destruct Hs|]. cbn.
    apply (realloc_failed _ _ _ _ _ _ Er). by right.
Qed.

Lemma holds_realloc b w l n : holds b w l -> (length (block_bytes w l) <= n)%nat ->
  holds (take n b ++ replicate (n - length b) 0) w l
  /\ length (take n b ++ replicate (n - length b) 0) = n.
Proof.
  intros [rest ->] Hn. split; [|rewrite length_app, length_take, length_replicate; lia].
  rewrite take_app_ge by done. rewrite <- app_assoc. by eexists.
Qed.

Lemma widen_ok rt0 rt s l size d : same_table rt0 rt -> sb_ok rt0 rt s l -> sb_wide s = false ->
  sb_len s <= size < 2 ^ 30 -> 
  wp (string_buffer_widen rt s size) (fun '(rt', s', r) => same_table rt0 rt'
    /\ (r = 0 /\ sb_ok rt0 rt' s' l /\ size <= sb_size s' /\ sb_wide s' = true
        \/ r = -1 /\ sb_failed rt0 rt' s' (l ++ d))).
Proof.
  intros Ht Hs Hw Hsize. unfold string_buffer_widen. pose proof Hs as [He Hstr Hl Hsz Hf Hb Hr].
  rewrite He. cbn [negb Z.eqb]. rewrite Z.shiftl_mul_pow2 by lia.
  apply wp_bind, wp_assert; [unfold INT32_MAX; lia|]. apply wp_bind.
  eapply wp_mono; [by apply (realloc_sb_spec rt0 rt s l)|].
  intros [rt1 [[[p b] slack]|]] [Ht1 Hx].
  - destruct Hx as (Hsl & Hlim & -> & w & Hp & Hp0 & Hpe & ES).
    unfold sizeof_JSString in *. rewrite Hw in Hb, Hf.
    set (n := Z.to_nat (16 + size * 2 ^ 1 - 16 + slack)).
    assert (Hn : Z.of_nat n = 2 * size + slack) by (unfold n; lia).
    destruct (holds_realloc _ false l n Hb) as [Hb1 Hlen]; [cbn [block_bytes]; lia|].
    destruct (widen_spec l _ Hb1) as (b' & E & Hb' & Hlen'); [lia|].
    apply wp_bind. rewrite Hl, Nat2Z.id, E. cbn [bind wp]. apply wp_ret. split; [done|left].
    rewrite Z.shiftr_div_pow2 by lia. change (2 ^ 1) with 2.
    rewrite i32_id by dlia. split; [done|]. split; [|split; [cbn; dlia|done]].
    split; cbn [sb_error sb_str sb_len sb_size sb_wide sb_block]; try done.
    + by exists p, w.
    + dlia.
    + by apply (fits_wide false).
    + rewrite string_bytes_eq, Hlen', Hlen. rewrite Hn. dlia.
  - destruct Hx as [Hs1 Hfl]. apply wp_ret.
    destruct (set_error_spec rt0 rt1 s l d Ht1 Hs1) as [[Ht2 [[He2 _ _ _ _ _ _]|Hf2]] _]; [by left|done|].
    split; [done|]. by right.
Qed.

Lemma realloc_ok rt0 rt s l d c : same_table rt0 rt -> sb_ok rt0 rt s l ->
  wp (string_buffer_realloc rt s (Z.of_nat (length (l ++ d))) c) (fun '(rt', s', r) => same_table rt0 rt'
    /\ (r = 0 /\ sb_ok rt0 rt' s' l /\ Z.of_nat (length (l ++ d)) <= sb_size s'
          /\ sb_wide s' = sb_wide s || (0x100 <=? c)
        \/ r = -1 /\ sb_failed rt0 rt' s' (l ++ d))).
Proof.
  intros Ht Hs. pose proof Hs as [He _ Hl Hsz Hf Hb _]. unfold string_buffer_realloc.
  rewrite He. cbn [negb Z.eqb]. set (n := Z.of_nat (length (l ++ d))).
  assert (Hn : sb_len s <= n) by (unfold n; lens).
  destruct (Z.ltb_spec JS_STRING_LEN_MAX n) as [Hlong|Hn'].
  { apply wp_ret. destruct (set_error_spec rt0 rt s l d Ht Hs) as [[Ht2 [[He2 _ _ _ _ _ _]|Hf2]] _]; [by right|done|].
    split; [done|]. by right. }
  apply wp_bind, wp_assert; [unfold INT32_MAX; lia|].
  set (size := min_int _ _). change JS_STRING_LEN_MAX with (2 ^ 30 - 1) in *.
  assert (Hsize : n <= size < 2 ^ 30) by (unfold size, min_int, max_int; repeat zcase; dlia).
  destruct (negb (sb_wide s) && (0x100 <=? c)) eqn:Ew.
  { apply andb_true_iff in Ew as [Ew Ec]. apply negb_true_iff in Ew.
    eapply wp_mono; [apply (widen_ok rt0 rt s l size d Ht Hs Ew); lia|].
    intros [[rt' s'] r] [Ht' [(-> & Hs' & Hle & Hw)|Hx]]; (split; [done|]); [left|by right].
    split_and!; [done|done|lia|]. by rewrite Hw, Ec, orb_true_r. }
  assert (Hw : sb_wide s || (0x100 <=? c) = sb_wide s).
  { destruct (sb_wide s); [done|]. cbn in Ew. by rewrite Ew. }
  pose proof (string_bytes_eq size (sb_wide s)) as Hbytes.
  apply wp_bind, wp_assert.
  { unfold INT32_MAX, wide_bit. destruct (sb_wide s); rewrite Z.shiftl_mul_pow2 by lia; lia. }
  apply wp_bind. eapply wp_mono; [by apply (realloc_sb_spec rt0 rt s l)|].
  intros [rt1 [[[p b] slack]|]] [Ht1 Hx]; apply wp_ret.
  - destruct Hx as (Hsl & Hlim & -> & w & Hp & Hp0 & Hpe & ES). rewrite Hbytes.
    pose proof (length_block_bytes (sb_wide s) l) as Hlb.
    set (room := if sb_wide s then 2 * size else size + 1) in *.
    assert (Hroom : size <= room /\ Z.of_nat (length (block_bytes (sb_wide s) l)) <= room
              /\ size + Z.shiftr slack (wide_bit (sb_wide s)) < 2 ^ 29 /\ 0 <= Z.shiftr slack (wide_bit (sb_wide s))
              /\ (if sb_wide s then 2 else 1) * Z.shiftr slack (wide_bit (sb_wide s)) <= slack).
    { unfold room, wide_bit, sizeof_JSString in *. destruct (sb_wide s); cbn [width] in Hlb;
        rewrite ?Z.shiftr_div_pow2 by lia; change (2 ^ 1) with 2; change (2 ^ 0) with 1;
        rewrite ?Z.div_1_r; dlia. }
    destruct Hroom as (Hr1 & Hr2 & Hr3 & Hr4 & Hr5).
    destruct (holds_realloc _ (sb_wide s) l (Z.to_nat (room + slack)) Hb) as [Hb1 Hlen]; [lia|].
    rewrite i32_id by lia. unfold min_int. destruct (Z.ltb_spec (size + Z.shiftr slack (wide_bit (sb_wide s))) (2 ^ 30 - 1)); [|lia].
    split; [done|left]. split; [done|]. cbn [sb_size sb_wide]. split; [|split; [lia|done]].
    split; cbn [sb_error sb_str sb_len sb_size sb_wide sb_block]; try done.
    + by exists p, w.
    + lia.
    + rewrite string_bytes_eq, Hlen. unfold room. destruct (sb_wide s); lia.
  - destruct Hx as [Hs1 Hfl].
    destruct (set_error_spec rt0 rt1 s l d Ht1 Hs1) as [[Ht2 [[He2 _ _ _ _ _ _]|Hf2]] _]; [by left|done|].
    split; [done|]. by right.
Qed.

Lemma realloc_failed_state rt0 rt s l n c : sb_failed rt0 rt s l -> string_buffer_realloc rt s n c = Ret (rt, s, -1).
Proof. intros H. unfold string_buffer_realloc. by rewrite (sf_error _ _ _ _ H). Qed.

(** *** Characters *)

Lemma append_char_spec rt0 rt s l c : sb_ok rt0 rt s l -> sb_len s < sb_size s -> fits (sb_wide s) c ->
  wp (append_char s c) (fun s' => sb_ok rt0 rt s' (l ++ [c]) /\ sb_wide s' = sb_wide s).
Proof.
  intros Hs Hlt Hc. pose proof (so_room' _ _ _ _ Hs) as Hroom. destruct Hs as [He Hstr Hl Hsz Hf Hb Hr].
  destruct (holds_blit (sb_block s) (sb_wide s) l [c] Hb) as (b & E & Hb' & Hlen).
  { rewrite !length_block_bytes. cbn [length]. destruct (sb_wide s); cbn [width]; lia. }
  unfold append_char. apply wp_bind. rewrite Hl.
  assert (E' : (if sb_wide s then put_u16 (sb_block s) (2 * Z.of_nat (length l)) (u16 c)
                else wr (sb_block s) (Z.of_nat (length l)) (u8 c)) = Ret b).
  { rewrite length_block_bytes in E. unfold fits, char_max in Hc. destruct (sb_wide s); cbn [block_bytes width] in E.
    - unfold u16. rewrite Z.mod_small by done. rewrite put_u16_blit, <- E. f_equal. lia.
    - rewrite u8_id by done. rewrite wr_blit by lia. rewrite <- E. f_equal. lia. }
  rewrite E'. cbn [bind wp]. apply wp_ret. split; [|done].
  split; cbn [sb_error sb_str sb_len sb_size sb_wide sb_block]; try done.
  - lens.
  - lia.
  - apply Forall_app. split; [done|]. by constructor.
  - lia.
Qed.

Lemma fits_false_true c : fits false c -> fits true c.
Proof. unfold fits, char_max. lia. Qed.

(** The room for one more character, as the functions make it. *)
Lemma sb_room_spec rt0 rt s l c : sb_rel rt0 rt s l ->
  wp (if sb_size s <=? sb_len s then string_buffer_realloc rt s (sb_len s + 1) c else Ret (rt, s, 0))
    (fun '(rt', s', r) => same_table rt0 rt'
      /\ (r = 0 /\ sb_ok rt0 rt' s' l /\ sb_len s' < sb_size s' /\ (sb_wide s = true -> sb_wide s' = true)
            /\ (sb_size s <= sb_len s -> 0x100 <= c -> sb_wide s' = true)
          \/ r = -1 /\ sb_failed rt0 rt' s' (l ++ [c]))).
Proof.
  intros [Ht [Hs|Hfl]].
  2:{ rewrite (sf_size _ _ _ _ Hfl), (sf_len _ _ _ _ Hfl). cbn [Z.leb Z.compare].
      rewrite (realloc_failed_state rt0 rt s l) by done. apply wp_ret. split; [done|]. right. split; [done|].
      by apply sb_failed_mono. }
  destruct (Z.leb_spec (sb_size s) (sb_len s)) as [Hge|Hlt].
  - replace (sb_len s + 1) with (Z.of_nat (length (l ++ [c]))) by (rewrite (so_len _ _ _ _ Hs); lens).
    eapply wp_mono; [by apply (realloc_ok rt0 rt s l [c])|].
    intros [[rt' s'] r] [Ht' [(-> & Hs' & Hle & Hw)|Hx]]; (split; [done|]); [left|by right].
    split_and!; try done.
    + rewrite (so_len _ _ _ _ Hs'). lens.
    + intros E. by rewrite Hw, E.
    + intros _ Hc. rewrite Hw. destruct (Z.leb_spec 0x100 c); [apply orb_true_r|lia].
  - apply wp_ret. split; [done|]. left. split_and!; try done. lia.
Qed.

Lemma appended rt0 rt s l : same_table rt0 rt -> sb_ok rt0 rt s l -> appends rt0 l (rt, s, 0).
Proof. intros Ht Hs. split; [by split; [|left]|by left]. Qed.

Lemma failed_op rt0 rt s l : same_table rt0 rt -> sb_failed rt0 rt s l -> appends rt0 l (rt, s, -1).
Proof. intros Ht Hs. split; [by split; [|right]|]. right. by rewrite (sf_error _ _ _ _ Hs). Qed.

Lemma putc_slow_spec rt0 rt s l c : sb_rel rt0 rt s l -> fits true c ->
  wp (string_buffer_putc_slow rt s c) (appends rt0 (l ++ [c])).
Proof.
  intros Hrel Hc. unfold string_buffer_putc_slow. apply wp_bind. eapply wp_mono; [by apply sb_room_spec|].
  intros [[rt1 s1] r] [Ht1 [(-> & Hs1 & Hlt & Hw & _)|[-> Hfl]]]; cbn [negb Z.eqb].
  2:{ apply wp_ret. by apply failed_op. }
  destruct (sb_wide s1 || (c <? 0x100)) eqn:Ew.
  - apply wp_bind. eapply wp_mono; [apply (append_char_spec rt0 rt1 s1 l c); [done|done|]|].
    + unfold fits, char_max in *. destruct (sb_wide s1); [done|]. cbn in Ew. zb. lia.
    + intros s2 [Hs2 _]. apply wp_ret. by apply appended.
  - apply orb_false_iff in Ew as [Ew Ec]. zb. pose proof (so_size _ _ _ _ Hs1) as Hsz.
    pose proof (so_len _ _ _ _ Hs1). apply wp_bind.
    eapply wp_mono; [apply (widen_ok rt0 rt1 s1 l (sb_size s1) [c] Ht1 Hs1 Ew); lia|].
    intros [[rt2 s2] r] [Ht2 [(-> & Hs2 & Hle & Hw2)|[-> Hfl]]]; cbn [negb Z.eqb].
    2:{ apply wp_ret. by apply failed_op. }
    apply wp_bind. eapply wp_mono; [apply (append_char_spec rt0 rt2 s2 l c); [done| |]|].
    + rewrite (so_len _ _ _ _ Hs2). lia.
    + by rewrite Hw2.
    + intros s3 [Hs3 _]. apply wp_ret. by apply appended.
Qed.

Lemma putc8_spec rt0 rt s l c : sb_rel rt0 rt s l -> fits false c ->
  wp (string_buffer_putc8 rt s c) (appends rt0 (l ++ [c])).
Proof.
  intros Hrel Hc. unfold string_buffer_putc8. apply wp_bind. eapply wp_mono; [by apply sb_room_spec|].
  intros [[rt1 s1] r] [Ht1 [(-> & Hs1 & Hlt & Hw & _)|[-> Hfl]]]; cbn [negb Z.eqb].
  2:{ apply wp_ret. by apply failed_op. }
  apply wp_bind. eapply wp_mono; [apply (append_char_spec rt0 rt1 s1 l c); [done|done|]|].
  - destruct (sb_wide s1); [by apply fits_false_true|done].
  - intros s2 [Hs2 _]. apply wp_ret. by apply appended.
Qed.

Lemma putc16_spec rt0 rt s l c : sb_rel rt0 rt s l -> fits true c ->
  wp (string_buffer_putc16 rt s c) (appends rt0 (l ++ [c])).
Proof.
  intros Hrel Hc. unfold string_buffer_putc16.
  destruct ((sb_len s <? sb_size s) && _) eqn:E; [|by apply putc_slow_spec].
  apply andb_true_iff in E as [Elt Ew]. zb. destruct Hrel as [Ht [Hs|Hfl]].
  2:{ rewrite (sf_len _ _ _ _ Hfl), (sf_size _ _ _ _ Hfl) in Elt. lia. }
  apply wp_bind. eapply wp_mono; [apply (append_char_spec rt0 rt s l c); [done|done|]|].
  - unfold fits, char_max in *. destruct (sb_wide s); [done|]. cbn in Ew. zb. lia.
  - intros s2 [Hs2 _]. apply wp_ret. by apply appended.
Qed.

(** *** UTF-16 *)

Definition utf16 (c : Z) : list Z :=
  if 0x10000 <=? c then [Z.shiftr (c - 0x10000) 10 + 0xd800; Z.land (c - 0x10000) 0x3ff + 0xdc00] else [c].

Lemma utf16_pair c : 0x10000 <= c <= 0x10ffff ->
  Z.shiftr (c - 0x10000) 10 = (c - 0x10000) / 1024 /\ Z.land (c - 0x10000) 0x3ff = (c - 0x10000) mod 1024.
Proof.
  intros Hc. rewrite Z.shiftr_div_pow2 by lia. split; [done|]. change 0x3ff with (Z.ones 10). by rewrite land_mod by lia.
Qed.

Lemma utf16_fits c : 0 <= c <= 0x10ffff -> Forall (fits true) (utf16 c).
Proof.
  intros Hc. unfold utf16, fits, char_max. destruct (Z.leb_spec 0x10000 c).
  - destruct (utf16_pair c) as [-> ->]; [lia|]. repeat constructor; dlia.
  - repeat constructor; lia.
Qed.

Lemma putc_spec rt0 rt s l c : sb_rel rt0 rt s l -> 0 <= c <= 0x10ffff ->
  wp (string_buffer_putc rt s c) (appends rt0 (l ++ utf16 c)).
Proof.
  intros Hrel Hc. pose proof (utf16_fits c Hc) as Hu. unfold string_buffer_putc, utf16 in *.
  destruct (Z.leb_spec 0x10000 c).
  - apply Forall_cons in Hu as [Hu1 [Hu2 _]%Forall_cons]. apply wp_bind.
    eapply wp_mono; [by apply putc16_spec|]. intros [[rt1 s1] r] [Hrel1 Hr].
    change [?a; ?b] with ([a] ++ [b]). rewrite app_assoc. destruct Hr as [->|[-> He]]; cbn [negb Z.eqb].
    + by apply putc16_spec.
    + apply wp_ret. destruct Hrel1 as [Ht1 [Hs1|Hfl]]; [by rewrite (so_error _ _ _ _ Hs1) in He|].
      by apply failed_op, sb_failed_mono.
  - apply putc16_spec; [done|]. unfold fits, char_max. lia.
Qed.

(** *** Strings of characters *)

(** What makes the room for the characters [d]. *)
Definition roomy (rt0 : JSRuntime) (s : StringBuffer) (l d : list Z) (c : Z) (x : JSRuntime * StringBuffer * Z) : Prop :=
  let '(rt', s', r) := x in
  same_table rt0 rt'
  /\ (r = 0 /\ sb_ok rt0 rt' s' l /\ Z.of_nat (length (l ++ d)) <= sb_size s'
        /\ (sb_size s < Z.of_nat (length (l ++ d)) -> 0x100 <= c -> sb_wide s' = true)
        /\ (sb_wide s = true -> sb_wide s' = true)
      \/ r = 0 /\ sb_failed rt0 rt' s' (l ++ d) /\ d = []
      \/ r = -1 /\ sb_failed rt0 rt' s' (l ++ d)).

Lemma int_add_len rt0 rt s l n : sb_rel rt0 rt s l -> n < 2 ^ 30 -> int_add (sb_len s) n = Ret (sb_len s + n).
Proof.
  intros [_ Hrel] Hn. unfold int_add, c_assert. change INT32_MAX with (2 ^ 31 - 1).
  destruct (Z.leb_spec (sb_len s + n) (2 ^ 31 - 1)); [done|].
  destruct Hrel as [Hs|Hs]; [pose proof (so_size _ _ _ _ Hs)|rewrite (sf_len _ _ _ _ Hs) in *]; lia.
Qed.

Lemma room_many rt0 rt s l d c : sb_rel rt0 rt s l ->
  wp (if sb_size s <? sb_len s + Z.of_nat (length d)
      then string_buffer_realloc rt s (sb_len s + Z.of_nat (length d)) c else Ret (rt, s, 0)) (roomy rt0 s l d c).
Proof.
  intros [Ht [Hs|Hfl]].
  - pose proof (so_len _ _ _ _ Hs) as Hl.
    replace (sb_len s + Z.of_nat (length d)) with (Z.of_nat (length (l ++ d))) by lens.
    destruct (Z.ltb_spec (sb_size s) (Z.of_nat (length (l ++ d)))) as [Hlt|Hge].
    + eapply wp_mono; [by apply (realloc_ok rt0 rt s l d)|].
      intros [[rt' s'] r] [Ht' [(-> & Hs' & Hle & Hw)|Hx]]; (split; [done|]); [left|by right; right].
      rewrite Hw. split_and!; try done.
      * intros _ Hc. destruct (Z.leb_spec 0x100 c); [apply orb_true_r|lia].
      * by intros ->.
    + apply wp_ret. split; [done|]. left. split_and!; try done. lia.
  - rewrite (sf_len _ _ _ _ Hfl), (sf_size _ _ _ _ Hfl).
    destruct (Z.ltb_spec 0 (0 + Z.of_nat (length d))).
    + rewrite (realloc_failed_state rt0 rt s l) by done. apply wp_ret. split; [done|]. right; right.
      split; [done|]. by apply sb_failed_mono.
    + apply wp_ret. split; [done|]. right; left. split_and!; [done|by apply sb_failed_mono|].
      destruct d; [done|cbn in *; lia].
Qed.

(** The characters written in the room. *)
Lemma written rt0 rt s l d b : same_table rt0 rt -> sb_ok rt0 rt s l -> Z.of_nat (length (l ++ d)) <= sb_size s ->
  Forall (fits (sb_wide s)) d -> holds b (sb_wide s) (l ++ d) -> length b = length (sb_block s) ->
  appends rt0 (l ++ d) (rt, set_block s b (sb_len s + Z.of_nat (length d)), 0).
Proof.
  intros Ht Hs Hle Hd Hb Hlen. apply appended; [done|].
  destruct Hs. split; cbn [set_block sb_error sb_str sb_len sb_size sb_wide sb_block]; try done.
  - lens.
  - rewrite so_len0. split; [|lia]. lens.
  - by apply Forall_app.
  - by rewrite Hlen.
Qed.

Lemma failed_empty rt0 rt s l b : same_table rt0 rt -> sb_failed rt0 rt s l -> b = [] ->
  appends rt0 l (rt, set_block s b 0, 0).
Proof.
  intros Ht Hs ->. split; [split; [done|right]|by left].
  destruct Hs. split; cbn [set_block sb_error sb_str sb_len sb_size sb_wide sb_block]; done.
Qed.

(** A copy of characters of the width of the buffer. *)
Lemma copy_chars rt0 rt s l d : same_table rt0 rt -> sb_ok rt0 rt s l -> Z.of_nat (length (l ++ d)) <= sb_size s ->
  Forall (fits (sb_wide s)) d ->
  (exists b, (if sb_wide s then store16 (sb_block s) (sb_len s) d else store8 (sb_block s) (sb_len s) d) = Ret b
     /\ holds b (sb_wide s) (l ++ d) /\ length b = length (sb_block s))
  /\ (exists b, blit (sb_block s) (if sb_wide s then 2 * sb_len s else sb_len s) (block_bytes (sb_wide s) d) = Ret b
     /\ holds b (sb_wide s) (l ++ d) /\ length b = length (sb_block s)).
Proof.
  intros Ht Hs Hle Hd. pose proof (so_room' _ _ _ _ Hs) as Hroom. destruct Hs as [He Hstr Hl Hsz Hf Hb Hr].
  rewrite Hl. split.
  - destruct (sb_wide s); [apply store16_spec|apply store8_spec]; try done; rewrite ?length_bytes16; lens.
  - destruct (holds_blit (sb_block s) (sb_wide s) l d Hb) as (b & E & H).
    { rewrite !length_block_bytes. destruct (sb_wide s); cbn [width]; lens. }
    exists b. split; [|done]. rewrite <- E. f_equal. rewrite length_block_bytes. destruct (sb_wide s); cbn [width]; lia.
Qed.

Lemma write8_spec rt0 rt s l d : sb_rel rt0 rt s l -> Forall (fits false) d -> Z.of_nat (length d) < 2 ^ 30 ->
  wp (string_buffer_write8 rt s d) (appends rt0 (l ++ d)).
Proof.
  intros Hrel Hd Hn. unfold string_buffer_write8. rewrite (int_add_len rt0 rt s l) by done. cbn [bind].
  apply wp_bind. eapply wp_mono; [by apply room_many|].
  intros [[rt1 s1] r] [Ht1 [(-> & Hs1 & Hle & _ & _)|[(-> & Hfl & ->)|[-> Hfl]]]]; cbn [negb Z.eqb].
  - assert (Hd1 : Forall (fits (sb_wide s1)) d).
    { destruct (sb_wide s1); [by apply (fits_wide false)|done]. }
    destruct (copy_chars rt0 rt1 s1 l d Ht1 Hs1 Hle Hd1) as [(b & E & Hb & Hlen) (b2 & E2 & Hb2 & Hlen2)].
    destruct (sb_wide s1) eqn:Ew; cbn [block_bytes] in E2.
    + rewrite E. cbn [bind]. apply wp_ret. apply written; rewrite ?Ew; done.
    + rewrite E2. cbn [bind]. apply wp_ret. apply written; rewrite ?Ew; done.
  - rewrite (sf_block _ _ _ _ Hfl), (sf_len _ _ _ _ Hfl). destruct (sb_wide s1); cbn [bind store16];
      apply wp_ret; by apply failed_empty.
  - apply wp_ret. by apply failed_op.
Qed.

Lemma or_chars_narrow d : Forall (fits true) d -> (0x100 <=? or_chars d) = false -> Forall (fits false) d.
Proof.
  intros Hd Hc. zb. destruct (or_chars_bound d 8) as [_ H]; [done| |].
  { eapply Forall_impl; [exact Hd|]. by intros c []. }
  apply Forall_forall. intros c Hin. split; [|by apply (Forall_forall (fun c => c < 2 ^ 8) d); [apply H|]].
  by apply (Forall_forall (fits true) d) in Hin as [].
Qed.

Lemma write16_spec rt0 rt s l d : sb_rel rt0 rt s l -> Forall (fits true) d -> Z.of_nat (length d) < 2 ^ 30 ->
  wp (string_buffer_write16 rt s d) (appends rt0 (l ++ d)).
Proof.
  intros Hrel Hd Hn. unfold string_buffer_write16. rewrite (int_add_len rt0 rt s l) by done. cbn [bind].
  apply wp_bind.
  assert (Hroom : wp (if sb_size s <? sb_len s + Z.of_nat (length d)
      then string_buffer_realloc rt s (sb_len s + Z.of_nat (length d)) (or_chars d)
      else if negb (sb_wide s) && (0x100 <=? or_chars d) then string_buffer_widen rt s (sb_size s) else Ret (rt, s, 0))
    (fun '(rt', s', r) => same_table rt0 rt'
      /\ (r = 0 /\ sb_ok rt0 rt' s' l /\ Z.of_nat (length (l ++ d)) <= sb_size s' /\ Forall (fits (sb_wide s')) d
          \/ r = 0 /\ sb_failed rt0 rt' s' (l ++ d) /\ d = []
          \/ r = -1 /\ sb_failed rt0 rt' s' (l ++ d)))).
  { pose proof (room_many rt0 rt s l d (or_chars d) Hrel) as Hmany.
    destruct (Z.ltb_spec (sb_size s) (sb_len s + Z.of_nat (length d))) as [Hlt|Hge].
    - eapply wp_mono; [exact Hmany|]. intros [[rt1 s1] r] [Ht1 [(-> & Hs1 & Hle & Hw1 & Hw2)|Hx]]; (split; [done|]); [left|by right].
      split_and!; try done. destruct (sb_wide s1) eqn:Ew; [done|]. apply or_chars_narrow; [done|].
      apply not_true_is_false. intros Hc. zb. discriminate Hw1; [|done].
      destruct Hrel as [_ [Hs|Hs]]; [rewrite (so_len _ _ _ _ Hs) in Hlt; lens|rewrite (sf_len _ _ _ _ Hs) in Hlt; lens].
    - destruct Hmany as [_ Hmany]. destruct (negb (sb_wide s) && (0x100 <=? or_chars d)) eqn:Ew.
      + apply andb_true_iff in Ew as [Ew Ec]. apply negb_true_iff in Ew. destruct Hrel as [Ht [Hs|Hfl]].
        * pose proof (so_len _ _ _ _ Hs) as Hl. pose proof (so_size _ _ _ _ Hs).
          eapply wp_mono; [apply (widen_ok rt0 rt s l (sb_size s) d Ht Hs Ew); lia|].
          intros [[rt1 s1] r] [Ht1 [(-> & Hs1 & Hle & Hw)|Hx]]; (split; [done|]); [left|by right; right].
          split_and!; [done|done|lens|by rewrite Hw].
        * destruct d; [done|]. rewrite (sf_len _ _ _ _ Hfl), (sf_size _ _ _ _ Hfl) in Hge. cbn in Hge. lia.
      + apply wp_ret. destruct Hrel as [Ht _]. split; [done|]. destruct Hmany as [(_ & Hs & Hle & _)|Hx]; [left|by right].
        split_and!; try done. destruct (sb_wide s); [done|]. apply or_chars_narrow; [done|]. by cbn in Ew. }
  eapply wp_mono; [exact Hroom|]. clear Hroom.
  intros [[rt1 s1] r] [Ht1 [(-> & Hs1 & Hle & Hd1)|[(-> & Hfl & ->)|[-> Hfl]]]]; cbn [negb Z.eqb].
  - destruct (copy_chars rt0 rt1 s1 l d Ht1 Hs1 Hle Hd1) as [(b & E & Hb & Hlen) (b2 & E2 & Hb2 & Hlen2)].
    destruct (sb_wide s1) eqn:Ew; cbn [block_bytes] in E2.
    + rewrite E2. cbn [bind]. apply wp_ret. apply written; rewrite ?Ew; done.
    + rewrite E. cbn [bind]. apply wp_ret. apply written; rewrite ?Ew; done.
  - rewrite (sf_block _ _ _ _ Hfl), (sf_len _ _ _ _ Hfl). destruct (sb_wide s1); cbn [bind store8];
      apply wp_ret; by apply failed_empty.
  - apply wp_ret. by apply failed_op.
Qed.

Lemma fill_loop_spec rt0 n : forall rt s l c, sb_rel rt0 rt s l -> fits true c ->
  wp (fill_loop n rt s c) (appends rt0 (l ++ replicate n c)).
Proof.
  induction n as [|n IH]; intros rt s l c Hrel Hc.
  { rewrite app_nil_r. apply wp_ret. by split; [|left]. }
  cbn [fill_loop replicate]. change (c :: replicate n c) with ([c] ++ replicate n c). rewrite app_assoc.
  apply wp_bind. eapply wp_mono; [by apply putc16_spec|]. intros [[rt1 s1] r] [Hrel1 [->|[-> He]]]; cbn [negb Z.eqb].
  - by apply IH.
  - apply wp_ret. destruct Hrel1 as [Ht1 [Hs1|Hfl]]; [by rewrite (so_error _ _ _ _ Hs1) in He|].
    by apply failed_op, sb_failed_mono.
Qed.

Lemma sb_fill_spec rt0 rt s l c n : sb_rel rt0 rt s l -> fits true c -> 0 <= n < 2 ^ 30 ->
  wp (string_buffer_fill rt s c n) (appends rt0 (l ++ replicate (Z.to_nat n) c)).
Proof.
  intros Hrel Hc Hn. unfold string_buffer_fill. rewrite (int_add_len rt0 rt s l) by (done || lia). cbn [bind].
  pose proof (room_many rt0 rt s l (replicate (Z.to_nat n) c) c Hrel) as Hroom.
  rewrite length_replicate, Z2Nat.id in Hroom by lia.
  apply wp_bind. eapply wp_mono; [exact Hroom|].
  intros [[rt1 s1] r] [Ht1 [(-> & Hs1 & _)|[(-> & Hfl & Hd)|[-> Hfl]]]]; cbn [negb Z.eqb].
  - apply fill_loop_spec; [|done]. by split; [|left].
  - rewrite Hd in *. destruct (Z.to_nat n); [|done]. cbn [fill_loop]. apply wp_ret.
    split; [by split; [|right]|by left].
  - apply wp_ret. by apply failed_op.
Qed.

(** The strings of the language. *)
Record string_wf (a : JSString) : Prop := {
  sw_fits : Forall (fits (is_wide_char a)) (chars a);
  sw_len : len a <= JS_STRING_LEN_MAX
}.

Lemma concat_spec rt0 rt s l a from to : sb_rel rt0 rt s l -> string_wf a -> 0 <= from -> to <= len a ->
  wp (string_buffer_concat rt s a from to)
    (appends rt0 (l ++ take (Z.to_nat (to - from)) (drop (Z.to_nat from) (chars a)))).
Proof.
  intros Hrel [Hf Hl] H1 H2. unfold string_buffer_concat. unfold len, JS_STRING_LEN_MAX in *. change (Z.shiftl 1 30) with (2 ^ 30) in Hl.
  destruct (Z.leb_spec to from).
  - replace (Z.to_nat (to - from)) with 0%nat by lia. rewrite app_nil_r. apply wp_ret. by split; [|left].
  - rewrite slice_in by lia. cbn [bind].
    assert (Hd : Forall (fits (is_wide_char a)) (take (Z.to_nat (to - from)) (drop (Z.to_nat from) (chars a)))).
    { by apply Forall_take, Forall_drop. }
    destruct (is_wide_char a); [apply write16_spec|apply write8_spec]; try done; rewrite length_take; lia.
Qed.

(** *** The beginning and the end *)

Lemma init2_spec rt0 size w : 0 <= size -> Z.shiftl size (wide_bit w) <= INT32_MAX -> 
  wp (string_buffer_init2 rt0 size w) (fun '(rt, s, r) => sb_rel rt0 rt s []
    /\ (r = 0 /\ sb_error s = 0 \/ r = -1 /\ sb_error s = -1)).
Proof.
  intros Hs Hsh. unfold string_buffer_init2, js_alloc_string. pose proof (string_bytes_eq size w) as Hb.
  apply wp_bind, wp_bind, wp_assert.
  { apply andb_true_iff. by split; apply Z.leb_le. }
  unfold malloc_str. destruct (js_malloc_rt _ _ _) as [m [p|]] eqn:Em; cbn [bind]; apply wp_ret, wp_ret.
  - destruct (js_malloc_spec _ _ _ _ _ Em) as (H1 & H2 & H3). apply malloc_limit in Em.
    split; [|by left]. split; [done|]. left. unfold sizeof_JSString in *.
    split; cbn [sb_error sb_str sb_len sb_size sb_wide sb_block]; try done.
    + exists p, w. split_and!; try done. by apply not_elem_of_dom.
    + destruct w; lia.
    + exists (replicate (Z.to_nat (string_bytes size w - 16)) 0). by destruct w.
    + rewrite length_replicate. unfold sizeof_JSString. lia.
  - split; [|by right]. split; [done|]. right. split; try done. left. cbn.
    apply (malloc_failed _ _ _ _ _ Em). by right.
Qed.

(** The empty string is the atom of the runtime. *)
Definition empty_atom (rt : JSRuntime) : Prop :=
  exists p a, rd (atom_array rt) JS_ATOM_empty_string = Ret p /\ strings rt !! p = Some a /\ chars a = [].

(** A string value that an operation gives: the empty string, or a new one
    for which there is one reference. *)
Definition gives_string (rt0 rt : JSRuntime) (l : list Z) (p : Z) : Prop :=
  (exists a, strings rt0 !! p = Some a /\ chars a = [] /\ l = []
     /\ strings rt = <[p := with_ref_count a (ref_count a + 1)]> (strings rt0))
  \/ strings rt0 !! p = None /\ 0 < p /\ Z.even p = true
     /\ exists w, Forall (fits w) l /\ strings rt = <[p := new_string w l]> (strings rt0).

Definition string_result (rt0 : JSRuntime) (l : list Z) (x : JSRuntime * option Z) : Prop :=
  let '(rt, r) := x in
  same_table rt0 rt /\ match r with
    | Some p => gives_string rt0 rt l p
    | None => strings rt = strings rt0 /\ (failed (mem rt) \/ JS_STRING_LEN_MAX < Z.of_nat (length l))
    end.

Lemma empty_string_spec rt0 rt : same_table rt0 rt -> strings rt = strings rt0 -> empty_atom rt0 ->
  wp (empty_string rt) (string_result rt0 []).
Proof.
  intros Ht ES (p & a & Hp & Ha & Hc). unfold empty_string.
  assert (Hp' : rd (atom_array rt) JS_ATOM_empty_string = Ret p) by (rewrite Ht; exact Hp).
  rewrite Hp'. cbn [bind]. unfold add_ref, get_str. rewrite ES, Ha. cbn [bind]. apply wp_ret.
  split; [by apply (same_table_trans rt0 rt)|]. left. exists a. split_and!; try done. cbn. by rewrite ES.
Qed.

Lemma block_chars_spec b w l : holds b w l -> Forall (fits w) l -> block_chars b w (Z.of_nat (length l)) = Ret l.
Proof.
  intros [rest ->] Hf. unfold block_chars. destruct w; cbn [block_bytes].
  - pose proof (length_bytes16 l) as Hl. rewrite slice_in by lens. cbn [bind]. f_equal.
    replace (Z.to_nat (2 * Z.of_nat (length l))) with (length (bytes16 l)) by lia.
    change (Z.to_nat 0) with 0%nat. rewrite drop_0, take_app_length. by apply chars16_bytes16.
  - rewrite slice_in by lens. f_equal. rewrite Nat2Z.id. change (Z.to_nat 0) with 0%nat.
    by rewrite drop_0, take_app_length.
Qed.

Lemma end_spec rt0 rt s l : sb_rel rt0 rt s l -> empty_atom rt0 -> wp (string_buffer_end rt s) (string_result rt0 l).
Proof.
  intros [Ht [Hs|Hfl]] Hempty; unfold string_buffer_end.
  2:{ rewrite (sf_error _ _ _ _ Hfl). apply wp_ret. split; [done|]. split; [apply (sf_strings _ _ _ _ Hfl)|].
      apply (sf_why _ _ _ _ Hfl). }
  rewrite (so_error _ _ _ _ Hs). cbn [negb Z.eqb]. pose proof (so_len _ _ _ _ Hs) as Hl.
  destruct (Z.eqb_spec (sb_len s) 0) as [E0|E0].
  { assert (l = []) as -> by (destruct l; [done|cbn in Hl; lia]).
    destruct (free_sb_strings rt0 rt s [] Hs) as (E1 & _ & E3). apply empty_string_spec; [by apply E3|done|done]. }
  pose proof (so_str _ _ _ _ Hs) as (p & w & E & Hp & Hp0 & Hpe & ES). rewrite E.
  apply wp_bind.
  assert (Hmid : wp (if sb_len s <? sb_size s then
             let* x := realloc_sb rt s (string_bytes (sb_len s) (sb_wide s)) in
             match x with
             | (rt, None) => Ret (rt, p, sb_block s)
             | (rt, Some (p, b, _)) => Ret (rt, p, b)
             end
           else Ret (rt, p, sb_block s)) (fun '(rt', p', b) => same_table rt0 rt'
    /\ (exists w, strings rt0 !! p' = None /\ 0 < p' /\ Z.even p' = true /\ strings rt' = <[p' := new_string w []]> (strings rt0))
    /\ holds b (sb_wide s) l /\ (sb_wide s = false -> (length l < length b)%nat))).
  { pose proof (so_room' _ _ _ _ Hs) as Hroom. pose proof (so_size _ _ _ _ Hs) as Hsz.
    assert (Hkeep : holds (sb_block s) (sb_wide s) l /\ (sb_wide s = false -> (length l < length (sb_block s))%nat)).
    { split; [apply (so_block _ _ _ _ Hs)|]. intros Ew. rewrite Ew in Hroom. lia. }
    destruct (Z.ltb_spec (sb_len s) (sb_size s)); [|apply wp_ret; split_and!; [done|by exists w|apply Hkeep..]].
    apply wp_bind. eapply wp_mono; [by apply (realloc_sb_spec rt0 rt s l)|].
    intros [rt1 [[[p1 b] slack]|]] [Ht1 Hx]; apply wp_ret.
    - destruct Hx as (Hsl & _ & -> & Hex). pose proof (string_bytes_eq (sb_len s) (sb_wide s)) as Hb.
      pose proof (length_block_bytes (sb_wide s) l) as Hlb. rewrite Hb.
      destruct (holds_realloc (sb_block s) (sb_wide s) l (Z.to_nat ((if sb_wide s then 2 * sb_len s else sb_len s + 1) + slack))) as [H1 H2].
      + apply Hkeep.
      + destruct (sb_wide s); cbn [width] in Hlb; lia.
      + split_and!; [done|done|done|]. intros Ew. rewrite H2, Ew. lia.
    - destruct Hx as [Hs1 _]. destruct (so_str _ _ _ _ Hs1) as (p1 & w1 & E1 & Hx). rewrite E in E1. injection E1 as <-.
      split_and!; [done|by exists w1|apply Hkeep..]. }
  eapply wp_mono; [exact Hmid|]. clear Hmid. intros [[rt1 p1] b] (Ht1 & (w1 & Hp1 & Hp10 & Hp1e & ES1) & Hb & Hlt).
  assert (Hend : exists b', (if negb (sb_wide s) then wr b (sb_len s) 0 else Ret b) = Ret b' /\ holds b' (sb_wide s) l).
  { destruct (sb_wide s) eqn:Ew; cbn [negb]; [by exists b|]. specialize (Hlt eq_refl). rewrite Hl, wr_blit by lia.
    destruct (holds_blit b false l [0] Hb) as (b' & E' & [rest Hb'] & _); [cbn; lia|]. exists b'. split; [done|].
    rewrite Hb', block_bytes_app, <- app_assoc. by eexists. }
  destruct Hend as (b' & -> & Hb'). cbn [bind]. rewrite Hl, block_chars_spec by (done || apply (so_fits _ _ _ _ Hs)).
  cbn [bind]. unfold get_str. rewrite ES1, lookup_insert_eq. cbn [bind]. apply wp_ret.
  split; [by apply (same_table_trans rt0 rt1)|]. right. split_and!; try done. exists (sb_wide s).
  split; [apply (so_fits _ _ _ _ Hs)|]. cbn. by rewrite ES1, insert_insert_eq.
Qed.

Lemma sb_lookup rt0 rt s l v a : sb_rel rt0 rt s l -> strings rt0 !! v = Some a -> strings rt !! v = Some a.
Proof.
  intros [_ [Hs|Hfl]] Hv.
  - destruct (so_str _ _ _ _ Hs) as (p & w & _ & Hp & _ & _ & ->). rewrite lookup_insert_ne; [done|congruence].
  - by rewrite (sf_strings _ _ _ _ Hfl).
Qed.

(** ** Sequences of operations

    The callers ignore the errors until the end. *)
Inductive sb_op :=
  | SbPutc8 (c : Z)
  | SbPutc16 (c : Z)
  | SbPutc (c : Z)
  | SbWrite8 (l : list Z)
  | SbWrite16 (l : list Z)
  | SbConcat (v from to : Z)
  | SbFill (c count : Z).

Definition run_sb_op (rt : JSRuntime) (s : StringBuffer) (o : sb_op) : res (JSRuntime * StringBuffer * Z) :=
  match o with
  | SbPutc8 c => string_buffer_putc8 rt s c
  | SbPutc16 c => string_buffer_putc16 rt s c
  | SbPutc c => string_buffer_putc rt s c
  | SbWrite8 l => string_buffer_write8 rt s l
  | SbWrite16 l => string_buffer_write16 rt s l
  | SbConcat v from to => let* a := get_str rt v in string_buffer_concat rt s a from to
  | SbFill c n => string_buffer_fill rt s c n
  end.

Fixpoint run_sb_ops (rt : JSRuntime) (s : StringBuffer) (ops : list sb_op) : res (JSRuntime * StringBuffer) :=
  match ops with
  | [] => Ret (rt, s)
  | o :: ops =>
      let* x := run_sb_op rt s o in
      let '(rt, s, _) := x in run_sb_ops rt s ops
  end.

Definition build_string (rt : JSRuntime) (size : Z) (wide : bool) (ops : list sb_op) : res (JSRuntime * option Z) :=
  let* x := string_buffer_init2 rt size wide in
  let '(rt, s, _) := x in
  let* x := run_sb_ops rt s ops in
  let '(rt, s) := x in
  string_buffer_end rt s.

(** The characters that an operation appends, and its conditions. *)
Definition sb_units (rt : JSRuntime) (o : sb_op) : list Z :=
  match o with
  | SbPutc8 c | SbPutc16 c => [c]
  | SbPutc c => utf16 c
  | SbWrite8 l | SbWrite16 l => l
  | SbConcat v from to =>
      match strings rt !! v with
      | Some a => take (Z.to_nat (to - from)) (drop (Z.to_nat from) (chars a))
      | None => []
      end
  | SbFill c n => replicate (Z.to_nat n) c
  end.

Definition sb_op_ok (rt : JSRuntime) (o : sb_op) : Prop :=
  match o with
  | SbPutc8 c => fits false c
  | SbPutc16 c => fits true c
  | SbPutc c => 0 <= c <= 0x10ffff
  | SbWrite8 l => Forall (fits false) l /\ Z.of_nat (length l) < 2 ^ 30
  | SbWrite16 l => Forall (fits true) l /\ Z.of_nat (length l) < 2 ^ 30
  | SbConcat v from to => 0 <= from /\ exists a, strings rt !! v = Some a /\ string_wf a /\ to <= len a
  | SbFill c n => fits true c /\ 0 <= n < 2 ^ 30
  end.

Lemma sb_op_spec rt0 rt s l o : sb_rel rt0 rt s l -> sb_op_ok rt0 o ->
  wp (run_sb_op rt s o) (appends rt0 (l ++ sb_units rt0 o)).
Proof.
  intros Hrel Ho. destruct o as [c|c|c|d|d|v from to|c n]; cbn [run_sb_op sb_units sb_op_ok] in *.
  - by apply putc8_spec.
  - by apply putc16_spec.
  - by apply putc_spec.
  - destruct Ho. by apply write8_spec.
  - destruct Ho. by apply write16_spec.
  - destruct Ho as (H1 & a & Ha & Hwf & H2). unfold get_str. rewrite (sb_lookup rt0 rt s l v a Hrel Ha), Ha. cbn [bind].
    by apply concat_spec.
  - destruct Ho. by apply sb_fill_spec.
Qed.

Lemma sb_ops_spec rt0 ops : forall rt s l, sb_rel rt0 rt s l -> Forall (sb_op_ok rt0) ops ->
  wp (run_sb_ops rt s ops) (fun '(rt', s') => sb_rel rt0 rt' s' (l ++ (ops ≫= sb_units rt0))).
Proof.
  induction ops as [|o ops IH]; intros rt s l Hrel Hops; cbn [run_sb_ops].
  - apply wp_ret. by rewrite app_nil_r.
  - apply Forall_cons in Hops as [Ho Hops]. apply wp_bind. eapply wp_mono; [by apply sb_op_spec|].
    intros [[rt1 s1] r] [Hrel1 _]. rewrite bind_cons, app_assoc. by apply IH.
Qed.

Lemma build_spec rt size w ops : empty_atom rt -> 0 <= size -> Z.shiftl size (wide_bit w) <= INT32_MAX ->
  Forall (sb_op_ok rt) ops -> wp (build_string rt size w ops) (string_result rt (ops ≫= sb_units rt)).
Proof.
  intros He H1 H2 Hops. unfold build_string. apply wp_bind. eapply wp_mono; [by apply init2_spec|].
  intros [[rt1 s1] r] [Hrel1 _]. apply wp_bind. eapply wp_mono; [by apply sb_ops_spec|].
  intros [rt2 s2] Hrel2. by apply end_spec.
Qed.

End buf.

(** ** An allocator

    It hands out increasing addresses, never moves a structure, and remembers
    whether it failed. *)
Definition bump_malloc (m : Z * bool) (live : gset Z) (n : Z) : Z * bool * option Z :=
  let '(h, f) := m in
  if bool_decide (h ∉ live) && (0 <? h) && Z.even h && (n <? 2 ^ 29) then (h + 2, f, Some h) else (h, true, None).

#[export] Instance string_malloc : JSMalloc :=
  {| mheap := Z * bool; js_malloc_rt := bump_malloc; js_realloc_rt := fun m _ => (m, true) |}.

(** [malloc_usable_size] of the C library is at least 24. *)
#[export] Instance string_engine : StringEngine (al := string_malloc) :=
  {| js_realloc2 := fun m _ p n =>
       if (0 <? p) && Z.even p && (n <? 2 ^ 29) then (m, Some (p, 0)) else ((m.1, true), None);
     js_malloc_usable_size := fun _ _ => 24 |}.

Lemma bump_malloc_spec m live n m' r : bump_malloc m live n = (m', r) ->
  match r with
  | Some p => (p ∉ live) /\ 0 < p /\ Z.even p = true /\ n < 2 ^ 29 /\ m'.2 = m.2
  | None => m'.2 = true
  end.
Proof.
  unfold bump_malloc. destruct m as [h f].
  destruct (bool_decide (h ∉ live) && (0 <? h) && Z.even h && (n <? 2 ^ 29)) eqn:E; intros [= <- <-]; [|done].
  rewrite !andb_true_iff, bool_decide_eq_true, !Z.ltb_lt in E. tauto.
Qed.

#[export] Instance string_engine_ok : StringEngineOk string_engine.
Proof.
  split.
  - intros m live n m' p E. apply bump_malloc_spec in E. tauto.
  - intros m live n m' p E. by apply bump_malloc_spec in E as (_ & _ & _ & ? & _).
  - intros m live p n m' p' slack _. cbn.
    destruct ((0 <? p) && Z.even p && (n <? 2 ^ 29)) eqn:E; intros [=]. subst.
    rewrite !andb_true_iff, !Z.ltb_lt in E. split; [by left|]. split_and!; (tauto || lia).
Qed.

#[export] Instance string_failures : Failures (al := string_malloc) (fun m => m.2 = true).
Proof.
  split.
  - intros m live n m' r E H. apply bump_malloc_spec in E. destruct r; [|done]. destruct H as [H|H]; [|done].
    destruct E as (_ & _ & _ & _ & ->). done.
  - intros m live p n m' r. cbn. destruct (_ && _); intros [= <- <-]; [by intros [|]|done].
Qed.

(** A runtime whose only string is the empty string. *)
Definition empty_rt : JSRuntime (al := string_malloc) :=
  mkRt (al := string_malloc) (6, false) {[ 4 := mkString 1 false [] 0 1 0 ]} 1 1 48 2 [0]
    (replicate 47 0 ++ [4]) 0.

Lemma empty_rt_empty : empty_atom empty_rt.
Proof. exists 4, (mkString 1 false [] 0 1 0). split_and!; vm_compute; reflexivity. Qed.

