(* ===== verification/StringsSpec.v ===== *)
(** * Strings, UTF-8 and concatenation

    [JS_NewStringLen] reads the code points of canonical UTF-8 and replaces
    the rest, [JS_ToCStringLen2] writes what it reads back, and
    [JS_ConcatString] concatenates, in place when nothing else refers to its
    first operand. *)

From stdpp Require Import base tactics numbers list option gmap.
From Stdlib Require Import ZArith Lia.
From S2P Require Import Prelude Cutils Utf8Spec Atoms Strings StringBufSpec.

Open Scope Z_scope.

(** ** Code points *)

Definition high (c : Z) : bool := (0xd800 <=? c) && (c <? 0xdc00).
Definition low (c : Z) : bool := (0xdc00 <=? c) && (c <? 0xe000).
Definition pair (c c1 : Z) : Z := Z.lor (Z.shiftl (Z.land c 0x3ff) 10) (Z.land c1 0x3ff) + 0x10000.

(** The code points of a string; in CESU-8 a surrogate is always one. *)
Fixpoint code_points (cesu8 : bool) (l : list Z) : list Z :=
  match l with
  | [] => []
  | c :: l1 =>
      match l1 with
      | c1 :: l2 =>
          if high c && negb cesu8 && low c1 then pair c c1 :: code_points cesu8 l2
          else c :: code_points cesu8 l1
      | [] => [c]
      end
  end.

Definition utf8_bytes (cesu8 : bool) (l : list Z) : list Z := code_points cesu8 l ≫= unicode_to_utf8.

Lemma pair_eq c c1 : high c = true -> low c1 = true ->
  pair c c1 = (c - 0xd800) * 1024 + (c1 - 0xdc00) + 0x10000 /\ 0xd800 <= c < 0xdc00 /\ 0xdc00 <= c1 < 0xe000.
Proof.
  unfold high, low, pair. intros H1 H2. zb. change 0x3ff with (Z.ones 10). rewrite !land_mod by lia.
  rewrite Z.shiftl_mul_pow2, lor_add_low by dlia. split; [dlia|lia].
Qed.

Lemma utf16_of_pair c c1 : high c = true -> low c1 = true -> utf16 (pair c c1) = [c; c1].
Proof.
  intros H1 H2. destruct (pair_eq c c1 H1 H2) as (-> & ? & ?). unfold utf16.
  destruct (Z.leb_spec 0x10000 ((c - 0xd800) * 1024 + (c1 - 0xdc00) + 0x10000)); [|lia].
  destruct (utf16_pair ((c - 0xd800) * 1024 + (c1 - 0xdc00) + 0x10000)) as [-> ->]; [lia|].
  f_equal; [dlia|]. f_equal. dlia.
Qed.

Lemma code_points_ind cesu8 (P : list Z -> list Z -> Prop) :
  P [] [] -> (forall c l, P l (code_points cesu8 l) -> P (c :: l) (c :: code_points cesu8 l)) ->
  (forall c c1 l, high c = true -> low c1 = true -> P l (code_points cesu8 l) ->
     P (c :: c1 :: l) (pair c c1 :: code_points cesu8 l)) ->
  forall l, P l (code_points cesu8 l).
Proof.
  intros H0 H1 H2 l. assert (H : forall n l, (length l <= n)%nat -> P l (code_points cesu8 l)); [|by eapply H].
  clear l. induction n as [|n IH]; intros l Hl; [by destruct l; [|cbn in Hl; lia]|].
  destruct l as [|c [|c1 l]]; [done|apply (H1 c []), (IH []); cbn; lia|].
  cbn [code_points length] in *. destruct (high c && negb cesu8 && low c1) eqn:E.
  - apply andb_true_iff in E as [[E1 _]%andb_true_iff E2]. apply H2; [done|done|]. apply IH. lia.
  - apply (H1 c (c1 :: l)), IH. cbn [length]. lia.
Qed.

Definition code_point (c : Z) : Prop := 0 <= c <= 0x10ffff.

Lemma code_points_wf cesu8 l : Forall (fits true) l -> Forall code_point (code_points cesu8 l).
Proof.
  apply (code_points_ind cesu8 (fun l cps => Forall (fits true) l -> Forall code_point cps)).
  - by intros.
  - intros c l' IH [Hc Hl]%Forall_cons. constructor; [|by apply IH]. unfold fits, char_max, code_point in *. lia.
  - intros c c1 l' Hc Hc1 IH [_ [_ Hl]%Forall_cons]%Forall_cons. constructor; [|by apply IH].
    destruct (pair_eq c c1 Hc Hc1) as (-> & ? & ?). unfold code_point. lia.
Qed.

Lemma code_points_utf16 cesu8 l : Forall (fits true) l -> code_points cesu8 l ≫= utf16 = l.
Proof.
  apply (code_points_ind cesu8 (fun l cps => Forall (fits true) l -> cps ≫= utf16 = l)).
  - done.
  - intros c l' IH [Hc Hl]%Forall_cons. rewrite bind_cons, IH by done. unfold utf16, fits, char_max in *.
    by destruct (Z.leb_spec 0x10000 c); [lia|].
  - intros c c1 l' Hc Hc1 IH [_ [_ Hl]%Forall_cons]%Forall_cons. by rewrite bind_cons, IH, utf16_of_pair.
Qed.

(** ** Decoding *)

(** The length of the longest prefix whose elements satisfy [f]. *)
Fixpoint prefix_len (f : Z -> bool) (l : list Z) : nat :=
  match l with
  | c :: l => if f c then S (prefix_len f l) else 0
  | [] => 0
  end.

(** The bytes that are skipped where no code point can be read. *)
Definition invalid_run (l : list Z) : nat :=
  let n := prefix_len is_cont_byte l in
  if decide (n < length l)%nat then (n + 1 + prefix_len is_cont_byte (drop (n + 1) l))%nat else n.

Inductive decodes : list Z -> list Z -> Prop :=
  | decodes_nil : decodes [] []
  | decodes_char c rest l : code_point c -> decodes rest l ->
      decodes (unicode_to_utf8 c ++ rest) (utf16 c ++ l)
  | decodes_invalid b l : b <> [] -> (forall c, code_point c -> ~ unicode_to_utf8 c `prefix_of` b) ->
      decodes (drop (invalid_run b) b) l -> decodes b (0xfffd :: l).

Lemma decodes_encoded cps : Forall code_point cps -> decodes (cps ≫= unicode_to_utf8) (cps ≫= utf16).
Proof. induction 1; [constructor|]. rewrite !bind_cons. by constructor. Qed.

(** The encodings are prefix-free. *)
Lemma encoding_unique c1 c2 r1 r2 : code_point c1 -> code_point c2 ->
  unicode_to_utf8 c1 ++ r1 = unicode_to_utf8 c2 ++ r2 -> c1 = c2.
Proof.
  intros H1 H2 E. unfold code_point in *.
  pose proof (decode_encoded c1 [] r1 100) as D1. pose proof (decode_encoded c2 [] r2 100) as D2.
  unfold utf8_code in *. pose proof (unicode_to_utf8_eq c1). pose proof (unicode_to_utf8_eq c2).
  pose proof (utf8_ref_length c1). pose proof (utf8_ref_length c2).
  specialize (D1 ltac:(lia)). specialize (D2 ltac:(lia)). cbn [app] in *. rewrite E in D1.
  rewrite D1 in D2 by (rewrite H by lia; lia).
  specialize (D2 ltac:(rewrite H0 by lia; lia)). by injection D2.
Qed.

Lemma encoding_nonempty c : code_point c -> unicode_to_utf8 c <> [].
Proof.
  unfold code_point. intros Hc E. pose proof (utf8_ref_length c ltac:(lia)). rewrite unicode_to_utf8_eq in E by lia.
  rewrite E in *. cbn in *. lia.
Qed.

Lemma decodes_unique b l1 l2 : decodes b l1 -> decodes b l2 -> l1 = l2.
Proof.
  intros H. revert l2. induction H as [|c rest l Hc Hd IH|b l Hb Hn Hd IH]; intros l2 H2.
  - inversion H2 as [|c rest l Hc Hd E|b l Hb Hn]; subst; try done.
    apply app_eq_nil in E as [E _]. by apply encoding_nonempty in E.
  - inversion H2 as [E|c' rest' l' Hc' Hd' E|b l' Hb Hn Hd']; subst.
    + symmetry in E. apply app_eq_nil in E as [E _]. by apply encoding_nonempty in E.
    + assert (c' = c) as -> by (by eapply encoding_unique). apply app_inv_head in E as ->. by rewrite (IH l').
    + exfalso. apply (Hn c Hc). by eexists.
  - inversion H2 as [E|c' rest' l' Hc' Hd' E|b' l' Hb' Hn' Hd']; subst.
    + done.
    + exfalso. apply (Hn c' Hc'). by eexists.
    + by rewrite (IH l').
Qed.

Section utf8.
Context {al : JSMalloc} {se : StringEngine} {ok : StringEngineOk se}.
Context {failed : mheap -> Prop} {fo : Failures failed}.

Abbreviation sb_rel := (sb_rel (failed := failed)).
Abbreviation appends := (appends (failed := failed)).
Abbreviation string_result := (string_result (failed := failed)).

Lemma prefix_len_le f l : (prefix_len f l <= length l)%nat.
Proof. induction l as [|c l IH]; cbn; [lia|]. destruct (f c); lia. Qed.

Lemma prefix_len_take f l : Forall (fun c => f c = true) (take (prefix_len f l) l).
Proof. induction l as [|c l IH]; [constructor|]. cbn. destruct (f c) eqn:E; [by constructor|constructor]. Qed.

Lemma skip_while_spec f buf p : 0 <= p <= Z.of_nat (length buf) ->
  skip_while f buf p = Ret (p + Z.of_nat (prefix_len f (drop (Z.to_nat p) buf))).
Proof.
  intros Hp. unfold skip_while.
  assert (H : forall fuel p, 0 <= p <= Z.of_nat (length buf) -> (length buf - Z.to_nat p < fuel)%nat ->
    loop fuel (fun p => if p <? Z.of_nat (length buf) then
      let* c := rd buf p in if f c then Ret (inl (p + 1)) else Ret (inr p) else Ret (inr p)) p
    = Ret (p + Z.of_nat (prefix_len f (drop (Z.to_nat p) buf)))); [|apply H; lia].
  clear p Hp. induction fuel as [|fuel IH]; intros p Hp Hf; [lia|]. rewrite loop_S.
  destruct (Z.ltb_spec p (Z.of_nat (length buf))) as [Hlt|Hge].
  - destruct (lookup_lt_is_Some_2 buf (Z.to_nat p)) as [c Hc]; [lia|].
    rewrite (rd_Some buf p c ltac:(lia) Hc). cbn [bind]. rewrite (drop_S _ _ _ Hc). cbn [prefix_len].
    destruct (f c); cbn [bind]; [|by rewrite Z.add_0_r].
    rewrite IH by lia. replace (Z.to_nat (p + 1)) with (S (Z.to_nat p)) by lia. f_equal. lia.
  - cbn [bind]. rewrite drop_ge by lia. cbn. by rewrite Z.add_0_r.
Qed.

Lemma skip_invalid_spec buf p : 0 <= p < Z.of_nat (length buf) ->
  skip_invalid buf p = Ret (p + Z.of_nat (invalid_run (drop (Z.to_nat p) buf)))
  /\ (0 < invalid_run (drop (Z.to_nat p) buf) <= length (drop (Z.to_nat p) buf))%nat.
Proof.
  intros Hp. unfold skip_invalid, invalid_run. rewrite skip_while_spec by lia. cbn [bind].
  set (b := drop (Z.to_nat p) buf). set (n := prefix_len is_cont_byte b).
  assert (Hb : length b = (length buf - Z.to_nat p)%nat) by (unfold b; by rewrite length_drop).
  pose proof (prefix_len_le is_cont_byte b) as Hn. fold n in Hn.
  destruct (decide (n < length b)%nat) as [Hlt|Hge].
  - destruct (Z.ltb_spec (p + Z.of_nat n) (Z.of_nat (length buf))); [|lia].
    rewrite skip_while_spec by lia.
    assert (E : drop (Z.to_nat (p + Z.of_nat n + 1)) buf = drop (n + 1) b).
    { unfold b. rewrite drop_drop. f_equal. lia. }
    rewrite E. pose proof (prefix_len_le is_cont_byte (drop (n + 1) b)) as Hm. rewrite length_drop in Hm.
    split; [f_equal; lia|lia].
  - destruct (Z.ltb_spec (p + Z.of_nat n) (Z.of_nat (length buf))); [lia|]. split; [done|lia].
Qed.

(** What the decoder of [Cutils] gives at a byte. *)
Lemma decode_cases buf p : Forall byte buf -> 0 <= p < Z.of_nat (length buf) ->
  exists c p', unicode_from_utf8 buf p (Z.of_nat (length buf) - p) = Ret (c, p')
    /\ (0 <= c < 2 ^ 31 /\ p < p' <= Z.of_nat (length buf)
          /\ drop (Z.to_nat p) buf = unicode_to_utf8 c ++ drop (Z.to_nat p') buf
        \/ c = -1 /\ forall c', 0 <= c' < 2 ^ 31 -> ~ unicode_to_utf8 c' `prefix_of` drop (Z.to_nat p) buf).
Proof.
  intros Hb Hp. pose proof (decode_total buf p Hp) as Ht.
  destruct (unicode_from_utf8 buf p (Z.of_nat (length buf) - p)) as [[c p']| |] eqn:E; [|done..]. clear Ht.
  exists c, p'. split; [done|]. destruct (Z.eqb_spec c (-1)) as [->|Hc].
  - right. split; [done|]. intros c' Hc' [rest Hpre]. pose proof (unicode_to_utf8_eq c' Hc') as Eu.
    pose proof (utf8_ref_length c' Hc') as Hl. rewrite <- Eu in Hl.
    pose proof (decode_encoded c' (take (Z.to_nat p) buf) rest (Z.of_nat (length buf) - p) Hc') as D.
    rewrite <- Hpre, take_drop, length_take in D. replace (Z.of_nat (Z.to_nat p `min` length buf)) with p in D by lia.
    rewrite E in D. apply (f_equal length) in Hpre. rewrite length_app, length_drop in Hpre.
    specialize (D ltac:(lia)). injection D. lia.
  - left. destruct (decode_inv buf p _ c p' ltac:(lia) Hb E Hc) as (H1 & H2 & H3). unfold utf8_code in H1.
    split; [done|]. assert (Hp' : p' <= Z.of_nat (length buf)) by lia. split; [lia|].
    rewrite slice_in in H2 by lia. injection H2 as H2. rewrite <- H2.
    rewrite <- (take_drop (Z.to_nat (p' - p)) (drop (Z.to_nat p) buf)) at 1. f_equal. rewrite drop_drop. f_equal. lia.
Qed.

Lemma encoding_ascii c : 0 <= c < 128 -> unicode_to_utf8 c = [c] /\ utf16 c = [c].
Proof.
  intros Hc. unfold unicode_to_utf8, utf16. destruct (Z.ltb_spec c 128); [|lia].
  destruct (Z.leb_spec 0x10000 c); [lia|]. by rewrite u8_id by lia.
Qed.

Lemma decodes_ascii c rest l : 0 <= c < 128 -> decodes rest l -> decodes (c :: rest) (c :: l).
Proof.
  intros Hc H. pose proof (decodes_char c rest l ltac:(unfold code_point; lia) H) as Hd.
  destruct (encoding_ascii c Hc) as [E1 E2]. by rewrite E1, E2 in Hd.
Qed.

(** Where the decoder gives no code point, none can be read. *)
Lemma invalid_here buf p c p' : 0x10ffff < u32 c ->
  (0 <= c < 2 ^ 31 /\ p < p' <= Z.of_nat (length buf)
     /\ drop (Z.to_nat p) buf = unicode_to_utf8 c ++ drop (Z.to_nat p') buf
   \/ c = -1 /\ forall c', 0 <= c' < 2 ^ 31 -> ~ unicode_to_utf8 c' `prefix_of` drop (Z.to_nat p) buf) ->
  forall c', code_point c' -> ~ unicode_to_utf8 c' `prefix_of` drop (Z.to_nat p) buf.
Proof.
  intros Hc Hcase c' Hc' Hpre. unfold code_point in Hc'. destruct Hcase as [(Hc2 & Hp2 & E)|[-> Hno]].
  - rewrite u32_id in Hc by lia. rewrite E in Hpre. destruct Hpre as [r Hr].
    pose proof (decode_encoded c [] (drop (Z.to_nat p') buf) 100 Hc2) as D1.
    pose proof (decode_encoded c' [] r 100 ltac:(unfold utf8_code; lia)) as D2.
    pose proof (unicode_to_utf8_eq c Hc2) as U1. pose proof (unicode_to_utf8_eq c' ltac:(lia)) as U2.
    pose proof (utf8_ref_length c Hc2). pose proof (utf8_ref_length c' ltac:(lia)).
    cbn [app] in *. rewrite <- Hr, D1 in D2 by (rewrite ?U1, ?U2; lia).
    specialize (D2 ltac:(rewrite U2; lia)). injection D2. lia.
  - by apply (Hno c'); [lia|].
Qed.

(** Every bytes have a reading. *)
Lemma decodes_exist n buf : Forall byte buf -> (length buf <= n)%nat -> exists l, decodes buf l.
Proof.
  revert buf. induction n as [|n IH]; intros buf Hb Hn; [destruct buf; [by eexists; constructor|cbn in Hn; lia]|].
  destruct (decide (buf = [])) as [->|Hne]; [by eexists; constructor|].
  assert (Hlen : 0 <= 0 < Z.of_nat (length buf)) by (destruct buf; [done|cbn; lia]).
  destruct (decode_cases buf 0 Hb Hlen) as (c & p' & _ & Hcase).
  destruct (Z.leb_spec (u32 c) 0x10ffff) as [Hc|Hc].
  - destruct Hcase as [(Hc31 & Hp & E)|[-> _]]; [|by cbv in Hc]. rewrite u32_id in Hc by lia.
    destruct (IH (drop (Z.to_nat p') buf)) as [l Hl]; [by apply Forall_drop|rewrite length_drop; lia|].
    exists (utf16 c ++ l). change (drop (Z.to_nat 0) buf) with (drop 0 buf) in E. rewrite drop_0 in E. rewrite E.
    constructor; [unfold code_point; lia|done].
  - pose proof (invalid_here buf 0 c p' Hc Hcase) as Hno. destruct (skip_invalid_spec buf 0 Hlen) as [_ Hrun].
    change (drop (Z.to_nat 0) buf) with (drop 0 buf) in *. rewrite drop_0 in *.
    destruct (IH (drop (invalid_run buf) buf)) as [l Hl]; [by apply Forall_drop|rewrite length_drop; lia|].
    exists (0xfffd :: l). by constructor.
Qed.

(** The loop reads the rest of the bytes. *)
Lemma utf8_loop rt0 buf : Forall byte buf -> forall fuel rt s l p, sb_rel rt0 rt s l ->
  0 <= p <= Z.of_nat (length buf) -> (length buf - Z.to_nat p < fuel)%nat ->
  wp (loop fuel (utf8_step buf) (rt, s, p)) (fun '(rt', s') => exists l',
    decodes (drop (Z.to_nat p) buf) l' /\ sb_rel rt0 rt' s' (l ++ l')).
Proof.
  intros Hbuf. induction fuel as [|fuel IH]; intros rt s l p Hrel Hp Hf; [lia|]. rewrite loop_S.
  unfold utf8_step at 1. destruct (Z.ltb_spec p (Z.of_nat (length buf))) as [Hlt|Hge].
  2:{ apply wp_ret. exists []. rewrite app_nil_r, drop_ge by lia. split; [constructor|done]. }
  destruct (lookup_lt_is_Some_2 buf (Z.to_nat p)) as [b Hb]; [lia|].
  rewrite (rd_Some buf p b ltac:(lia) Hb). cbn [bind].
  assert (Hbb : byte b) by (by eapply Forall_lookup_1 in Hbuf). unfold byte in Hbb.
  (* the rest after some characters [d] *)
  assert (Hnext : forall rt1 s1 d p', sb_rel rt0 rt1 s1 (l ++ d) -> p < p' <= Z.of_nat (length buf) ->
    (forall l', decodes (drop (Z.to_nat p') buf) l' -> decodes (drop (Z.to_nat p) buf) (d ++ l')) ->
    wp (loop fuel (utf8_step buf) (rt1, s1, p')) (fun '(rt', s') => exists l',
      decodes (drop (Z.to_nat p) buf) l' /\ sb_rel rt0 rt' s' (l ++ l'))).
  { intros rt1 s1 d p' Hrel1 Hp' Hd. eapply wp_mono; [apply (IH rt1 s1 (l ++ d) p' Hrel1); lia|].
    intros [rt' s'] (l' & Hl' & Hr). exists (d ++ l'). rewrite app_assoc. split; [by apply Hd|done]. }
  destruct (Z.ltb_spec b 128) as [Hascii|Hbig].
  - apply wp_bind, wp_bind. eapply wp_mono; [apply (putc8_spec rt0 rt s l b Hrel); unfold fits, char_max; lia|].
    intros [[rt1 s1] r] [Hrel1 _]. apply wp_ret. apply (Hnext rt1 s1 [b] (p + 1) Hrel1); [lia|].
    intros l' Hl'. rewrite (drop_S _ _ _ Hb). apply decodes_ascii; [lia|].
    by replace (S (Z.to_nat p)) with (Z.to_nat (p + 1)) by lia.
  - destruct (decode_cases buf p Hbuf ltac:(lia)) as (c & p' & Ed & Hcase). rewrite Ed. cbn [bind].
    pose proof (invalid_here buf p c p') as Hinv.
    destruct (Z.ltb_spec (u32 c) 0x10000) as [Hc|Hc]; [|destruct (Z.leb_spec (u32 c) 0x10ffff) as [Hc2|Hc2]].
    + destruct Hcase as [(Hc31 & Hp2 & E)|[-> _]]; [|by cbv in Hc]. rewrite u32_id in * by lia.
      apply wp_bind, wp_bind. eapply wp_mono; [apply (putc16_spec rt0 rt s l c Hrel); unfold fits, char_max; lia|].
      intros [[rt1 s1] r] [Hrel1 _]. apply wp_ret. apply (Hnext rt1 s1 [c] p' Hrel1); [lia|].
      intros l' Hl'. rewrite E. assert (Eu : utf16 c = [c]) by (unfold utf16; by destruct (Z.leb_spec 0x10000 c); [lia|]).
      rewrite <- Eu. constructor; [unfold code_point; lia|done].
    + destruct Hcase as [(Hc31 & Hp2 & E)|[-> _]]; [|by cbv in Hc2]. rewrite u32_id in * by lia.
      assert (Eu : utf16 c = [Z.shiftr (c - 0x10000) 10 + 0xd800; Z.land (c - 0x10000) 0x3ff + 0xdc00])
        by (unfold utf16; by destruct (Z.leb_spec 0x10000 c); [|lia]).
      pose proof (utf16_fits c ltac:(lia)) as Hu. rewrite Eu in Hu. apply Forall_cons in Hu as [Hu1 [Hu2 _]%Forall_cons].
      apply wp_bind, wp_bind. eapply wp_mono; [by apply (putc16_spec rt0 rt s l)|].
      intros [[rt1 s1] r] [Hrel1 _]. apply wp_bind. eapply wp_mono; [by apply (putc16_spec rt0 rt1 s1)|].
      intros [[rt2 s2] r2] [Hrel2 _]. apply wp_ret. rewrite <- app_assoc in Hrel2. cbn [app] in Hrel2. rewrite <- Eu in Hrel2.
      apply (Hnext rt2 s2 (utf16 c) p' Hrel2); [lia|].
      intros l' Hl'. rewrite E. constructor; [unfold code_point; lia|done].
    + destruct (skip_invalid_spec buf p ltac:(lia)) as [Es Hrun]. rewrite length_drop in Hrun.
      apply wp_bind. rewrite Es. cbn [bind]. apply wp_bind.
      eapply wp_mono; [apply (putc16_spec rt0 rt s l 0xfffd Hrel); unfold fits, char_max; lia|].
      intros [[rt1 s1] r] [Hrel1 _]. apply wp_ret.
      apply (Hnext rt1 s1 [0xfffd] (p + Z.of_nat (invalid_run (drop (Z.to_nat p) buf))) Hrel1); [lia|].
      intros l' Hl'. apply decodes_invalid; [by rewrite (drop_S _ _ _ Hb)|by apply Hinv|].
      rewrite drop_drop. by replace (Z.to_nat (p + Z.of_nat (invalid_run (drop (Z.to_nat p) buf))))
        with (Z.to_nat p + invalid_run (drop (Z.to_nat p) buf))%nat in Hl' by lia.
Qed.

(** ** Strings of characters *)

Lemma new_string_spec rt w l : Forall (fits w) l -> Z.of_nat (length l) <= JS_STRING_LEN_MAX ->
  wp (js_new_string rt w l) (fun '(rt', r) => same_table rt rt' /\ match r with
    | Some p => strings rt !! p = None /\ 0 < p /\ Z.even p = true /\ strings rt' = <[p := new_string w l]> (strings rt)
    | None => strings rt' = strings rt /\ failed (mem rt')
    end).
Proof.
  intros Hl Hn. unfold js_new_string, js_alloc_string, JS_STRING_LEN_MAX in *. change (Z.shiftl 1 30) with (2 ^ 30) in Hn.
  apply wp_bind, wp_bind, wp_assert.
  { apply andb_true_iff. split; apply Z.leb_le; [lia|]. unfold wide_bit, INT32_MAX.
    destruct w; rewrite Z.shiftl_mul_pow2 by lia; lia. }
  unfold malloc_str. destruct (js_malloc_rt _ _ _) as [m [p|]] eqn:Em; apply wp_ret.
  - destruct (js_malloc_spec _ _ _ _ _ Em) as (H1 & H2 & H3). apply not_elem_of_dom in H1.
    unfold set_chars, get_str. cbn [strings put_str set_strings set_mem]. rewrite lookup_insert_eq. cbn [bind]. apply wp_ret.
    split; [done|]. split_and!; try done. cbn. by rewrite insert_insert_eq.
  - apply wp_ret. split; [done|]. split; [done|]. cbn. apply (malloc_failed _ _ _ _ _ Em). by right.
Qed.

Lemma new_string8_spec rt l : empty_atom rt -> Forall (fits false) l -> Z.of_nat (length l) <= JS_STRING_LEN_MAX ->
  wp (js_new_string8 rt l) (string_result rt l).
Proof.
  intros He Hl Hn. unfold js_new_string8. destruct (Z.leb_spec (Z.of_nat (length l)) 0) as [H0|H0].
  - assert (l = []) as -> by (destruct l; [done|cbn in H0; lia]). by apply empty_string_spec; [apply same_table_refl|..].
  - eapply wp_mono; [by apply new_string_spec|]. intros [rt' [p|]] [Ht H]; (split; [done|]).
    + right. destruct H as (H1 & H2 & H3 & H4). split_and!; try done. by exists false.
    + destruct H. split; [done|by left].
Qed.

Lemma decodes_prefix d : Forall (fun c => 0 <= c < 128) d -> forall b l, decodes b l -> decodes (d ++ b) (d ++ l).
Proof. induction 1; intros b l' H'; [done|]. cbn. apply decodes_ascii; [done|]. by apply IHForall. Qed.

Lemma ascii_prefix buf : Forall byte buf ->
  Forall (fun c => 0 <= c < 128) (take (prefix_len (fun c => c <? 128) buf) buf).
Proof.
  intros Hb. pose proof (prefix_len_take (fun c => c <? 128) buf) as H1.
  pose proof (Forall_take byte (prefix_len (fun c => c <? 128) buf) _ Hb) as H2.
  eapply Forall_impl; [apply Forall_and; split; [exact H1|exact H2]|].
  intros c [Hc1 Hc2]. unfold byte in Hc2. cbn in Hc1. lia.
Qed.

(** Reading UTF-8. *)
Lemma new_string_len_spec rt buf : empty_atom rt -> Forall byte buf -> Z.of_nat (length buf) <= INT32_MAX ->
  wp (JS_NewStringLen rt buf) (fun x => exists l, decodes buf l /\ string_result rt l x).
Proof.
  intros He Hb Hn. unfold JS_NewStringLen. rewrite skip_while_spec by lia. cbn [bind].
  change (Z.to_nat 0) with 0%nat. rewrite drop_0, Z.add_0_l.
  set (n := prefix_len (fun c => c <? 128) buf). pose proof (prefix_len_le (fun c => c <? 128) buf) as Hle. fold n in Hle.
  pose proof (ascii_prefix buf Hb) as Hpre. fold n in Hpre.
  destruct (Z.ltb_spec JS_STRING_LEN_MAX (Z.of_nat n)) as [Hlong|Hshort].
  { destruct (decodes_exist (length buf) (drop n buf)) as [l Hl]; [by apply Forall_drop|rewrite length_drop; lia|].
    apply wp_ret. exists (take n buf ++ l). split.
    - rewrite <- (take_drop n buf) at 1. by apply decodes_prefix.
    - split; [apply same_table_refl|]. split; [done|]. right. rewrite length_app, length_take. lia. }
  destruct (Z.eqb_spec (Z.of_nat n) (Z.of_nat (length buf))) as [E|E].
  - rewrite take_ge in Hpre by lia. eapply wp_mono; [apply new_string8_spec; [done| |lia]|].
    + eapply Forall_impl; [exact Hpre|]. cbn. unfold fits, char_max. lia.
    + intros x Hx. exists buf. split; [|done]. rewrite <- (app_nil_r buf). apply decodes_prefix; [done|constructor].
  - unfold string_buffer_init, INT32_MAX in *. rewrite i32_id by lia. apply wp_bind.
    eapply wp_mono; [apply (init2_spec rt (Z.of_nat (length buf)) false); [lia|cbn [wide_bit]; rewrite Z.shiftl_0_r; unfold INT32_MAX; lia]|].
    intros [[rt1 s1] r] [Hrel1 [[-> He1]|[-> He1]]]; cbn [negb Z.eqb].
    + rewrite Nat2Z.id. apply wp_bind. eapply wp_mono; [apply (write8_spec rt rt1 s1 [] (take n buf) Hrel1)|].
      * eapply Forall_impl; [exact Hpre|]. cbn. unfold fits, char_max. lia.
      * unfold JS_STRING_LEN_MAX in Hshort. change (Z.shiftl 1 30) with (2 ^ 30) in Hshort. rewrite length_take. lia.
      * intros [[rt2 s2] r2] [Hrel2 _]. apply wp_bind.
        eapply wp_mono; [apply (utf8_loop rt buf Hb (S (length buf)) rt2 s2 _ (Z.of_nat n) Hrel2); lia|].
        intros [rt3 s3] (l' & Hl' & Hrel3). rewrite Nat2Z.id in *.
        eapply wp_mono; [by apply (end_spec rt rt3 s3)|]. intros x Hx. exists (take n buf ++ l'). split; [|done].
        rewrite <- (take_drop n buf) at 1. by apply decodes_prefix.
    + destruct Hrel1 as [Ht1 [Hs|Hfl]]; [by rewrite (so_error _ _ _ _ Hs) in He1|].
      destruct (decodes_exist (length buf) buf) as [l Hl]; [done|done|].
      apply wp_ret. exists l. split; [done|]. unfold string_buffer_free. cbn [fst].
      unfold free_sb. rewrite (sf_str _ _ _ _ Hfl). split; [done|]. split; [apply (sf_strings _ _ _ _ Hfl)|].
      destruct (sf_why _ _ _ _ Hfl) as [?|Hx]; [by left|]. exfalso. revert Hx. by vm_compute.
Qed.

(** ** Writing UTF-8 *)

Lemma free_ref rt p s : strings rt !! p = Some s -> 2 <= ref_count s ->
  js_free_string rt p = Ret (put_str rt p (with_ref_count s (ref_count s - 1))).
Proof.
  intros Hs Hr. unfold js_free_string, get_str. rewrite Hs. cbn [bind].
  by destruct (Z.leb_spec (ref_count s - 1) 0); [lia|].
Qed.

Lemma with_ref_count_same s n m : m = ref_count s -> with_ref_count (with_ref_count s n) m = s.
Proof. intros ->. by destruct s. Qed.

Definition pairs (cesu8 : bool) (c : Z) (l : list Z) : bool :=
  match l with c1 :: _ => high c && negb cesu8 && low c1 | [] => false end.

Lemma code_points_cons cesu8 c l : pairs cesu8 c l = false -> code_points cesu8 (c :: l) = c :: code_points cesu8 l.
Proof. destruct l as [|c1 l]; [done|]. cbn [pairs code_points]. by intros ->. Qed.

Lemma code_points_pair cesu8 c c1 l : pairs cesu8 c (c1 :: l) = true ->
  code_points cesu8 (c :: c1 :: l) = pair c c1 :: code_points cesu8 l.
Proof. cbn [pairs code_points]. by intros ->. Qed.

Lemma code_points_narrow cesu8 l : Forall (fits false) l -> code_points cesu8 l = l.
Proof.
  apply (code_points_ind cesu8 (fun l cps => Forall (fits false) l -> cps = l)).
  - done.
  - intros c l' IH [_ Hl]%Forall_cons. by rewrite IH.
  - intros c c1 l' Hc Hc1 _ [H _]%Forall_cons. destruct (pair_eq c c1 Hc Hc1) as (_ & ? & _).
    unfold fits, char_max in H. lia.
Qed.

Lemma encoding_length c : code_point c ->
  Z.of_nat (length (unicode_to_utf8 c)) = if c <? 0x80 then 1 else if c <? 0x800 then 2 else if c <? 0x10000 then 3 else 4.
Proof.
  unfold code_point. intros Hc. unfold unicode_to_utf8.
  destruct (Z.ltb_spec c 0x80); [done|]. destruct (Z.ltb_spec c 0x80000000); [|lia].
  destruct (Z.ltb_spec c 0x800); [done|]. destruct (Z.ltb_spec c 0x10000); [done|].
  by destruct (Z.ltb_spec c 0x200000); [|lia].
Qed.

Lemma utf8_bytes_length cesu8 l : Forall (fits true) l -> Z.of_nat (length (utf8_bytes cesu8 l)) <= 3 * Z.of_nat (length l).
Proof.
  unfold utf8_bytes.
  apply (code_points_ind cesu8 (fun l cps => Forall (fits true) l ->
    Z.of_nat (length (cps ≫= unicode_to_utf8)) <= 3 * Z.of_nat (length l))).
  - done.
  - intros c l' IH [Hc Hl]%Forall_cons. rewrite bind_cons, length_app. specialize (IH Hl). unfold fits, char_max in Hc.
    pose proof (encoding_length c ltac:(unfold code_point; lia)) as E. cbn [length].
    destruct (c <? 128), (c <? 2048); destruct (Z.ltb_spec c 0x10000); lia.
  - intros c c1 l' Hc Hc1 IH [_ [_ Hl]%Forall_cons]%Forall_cons. rewrite bind_cons, length_app. specialize (IH Hl).
    destruct (pair_eq c c1 Hc Hc1) as (Ep & ? & ?).
    pose proof (encoding_length (pair c c1) ltac:(unfold code_point; lia)) as E. cbn [length].
    repeat match type of E with context [?a <? ?b] => destruct (a <? b) end; lia.
Qed.

Lemma emit_bytes_in cap q l : Z.of_nat (length (q ++ l)) <= cap -> emit_bytes cap q l = Ret (q ++ l).
Proof. intros H. unfold emit_bytes, c_assert. by destruct (Z.leb_spec (Z.of_nat (length (q ++ l))) cap); [|lia]. Qed.

Lemma encode8_char c : fits false c ->
  (if c <? 0x80 then [c] else [u8 (Z.lor (Z.shiftr c 6) 0xc0); u8 (Z.lor (Z.land c 0x3f) 0x80)]) = unicode_to_utf8 c.
Proof.
  unfold fits, char_max. intros Hc. unfold unicode_to_utf8, utf8_cont.
  destruct (Z.ltb_spec c 0x80); [by rewrite u8_id by lia|]. destruct (Z.ltb_spec c 0x800); [|lia].
  by destruct (Z.ltb_spec c 0x80000000); [|lia].
Qed.

Lemma encode8_spec cap src : Forall (fits false) src -> forall q,
  Z.of_nat (length (q ++ (src ≫= unicode_to_utf8))) <= cap -> encode8 cap q src = Ret (q ++ (src ≫= unicode_to_utf8)).
Proof.
  induction 1 as [|c src Hc _ IH]; intros q Hq; cbn [encode8]; [by rewrite app_nil_r|].
  rewrite bind_cons in *. rewrite encode8_char by done. rewrite emit_bytes_in by (rewrite !length_app in *; lia).
  cbn [bind]. rewrite app_assoc in *. by apply IH.
Qed.

Lemma count_high_from l n : foldl (fun n c => n + Z.shiftr c 7) n l = n + count_high l.
Proof.
  unfold count_high. revert n. induction l as [|c l IH]; intros n; cbn [foldl]; [lia|]. rewrite IH, (IH (0 + _)). lia.
Qed.

Lemma count_high_spec l : Forall (fits false) l ->
  Z.of_nat (length (l ≫= unicode_to_utf8)) = Z.of_nat (length l) + count_high l /\ 0 <= count_high l <= Z.of_nat (length l).
Proof.
  induction 1 as [|c l Hc Hl IH]; [done|]. rewrite bind_cons, length_app. unfold count_high. cbn [foldl length].
  rewrite count_high_from. unfold fits, char_max in Hc.
  pose proof (encoding_length c ltac:(unfold code_point; lia)) as E. rewrite Z.shiftr_div_pow2 by lia. change (2 ^ 7) with 128.
  destruct (Z.ltb_spec c 0x80); [|destruct (Z.ltb_spec c 0x800); [|lia]]; dlia.
Qed.

Lemma count_high_0 l : Forall (fits false) l -> count_high l = 0 -> l ≫= unicode_to_utf8 = l.
Proof.
  induction 1 as [|c l Hc Hl IH]; [done|]. unfold count_high. cbn [foldl]. rewrite count_high_from.
  destruct (count_high_spec l Hl) as [_ Hn]. unfold fits, char_max in Hc. rewrite Z.shiftr_div_pow2 by lia. change (2 ^ 7) with 128.
  intros H0. rewrite bind_cons, IH by dlia. destruct (encoding_ascii c) as [-> _]; [dlia|done].
Qed.

Lemma encode16_loop cap cesu8 src : Forall (fits true) src -> forall fuel q pos, 0 <= pos ->
  Z.of_nat (length (q ++ utf8_bytes cesu8 (drop (Z.to_nat pos) src))) <= cap -> (length src - Z.to_nat pos < fuel)%nat ->
  loop fuel (encode16_step cap cesu8 src) (q, pos) = Ret (q ++ utf8_bytes cesu8 (drop (Z.to_nat pos) src)).
Proof.
  intros Hsrc. induction fuel as [|fuel IH]; intros q pos Hpos Hcap Hf; [lia|]. rewrite loop_S. unfold encode16_step at 1.
  destruct (Z.ltb_spec pos (Z.of_nat (length src))) as [Hlt|Hge].
  2:{ cbn [bind]. rewrite drop_ge by lia. cbn. by rewrite app_nil_r. }
  destruct (lookup_lt_is_Some_2 src (Z.to_nat pos)) as [c Hc]; [lia|].
  rewrite (rd_Some src pos c ltac:(lia) Hc). cbn [bind]. rewrite (drop_S _ _ _ Hc) in *.
  assert (Hcf : fits true c) by (by eapply Forall_lookup_1 in Hsrc).
  replace (S (Z.to_nat pos)) with (Z.to_nat (pos + 1)) in * by lia.
  (* one code point [x], then the rest from [pos'] *)
  assert (Hnext : forall x pos', pos < pos' ->
    utf8_bytes cesu8 (c :: drop (Z.to_nat (pos + 1)) src) = unicode_to_utf8 x ++ utf8_bytes cesu8 (drop (Z.to_nat pos') src) ->
    (let* r := let* q := emit_bytes cap q (unicode_to_utf8 x) in Ret (inl (q, pos')) in
     match r with inl s' => loop fuel (encode16_step cap cesu8 src) s' | inr x => Ret x end)
    = Ret (q ++ utf8_bytes cesu8 (c :: drop (Z.to_nat (pos + 1)) src))).
  { intros x pos' Hp' E. rewrite E in *. rewrite emit_bytes_in by (rewrite !length_app in *; lia). cbn [bind].
    rewrite app_assoc in *. apply IH; [lia|done|lia]. }
  assert (Hone : pairs cesu8 c (drop (Z.to_nat (pos + 1)) src) = false ->
    utf8_bytes cesu8 (c :: drop (Z.to_nat (pos + 1)) src) = unicode_to_utf8 c ++ utf8_bytes cesu8 (drop (Z.to_nat (pos + 1)) src)).
  { intros E. unfold utf8_bytes. by rewrite code_points_cons, bind_cons. }
  destruct (Z.ltb_spec c 0x80) as [Hascii|Hbig].
  - unfold fits, char_max in Hcf. destruct (encoding_ascii c) as [E _]; [lia|]. rewrite <- E at 1.
    apply Hnext; [lia|]. apply Hone. destruct (drop _ src); [done|]. cbn [pairs].
    replace (high c) with false; [done|]. unfold high. by destruct (Z.leb_spec 0xd800 c); [lia|].
  - fold (high c). destruct (high c && (pos + 1 <? Z.of_nat (length src)) && negb cesu8) eqn:E1.
    + apply andb_true_iff in E1 as [[E1 E2]%andb_true_iff E3]. zb. subst cesu8.
      destruct (lookup_lt_is_Some_2 src (Z.to_nat (pos + 1))) as [c1 Hc1]; [lia|].
      rewrite (rd_Some src (pos + 1) c1 ltac:(lia) Hc1). cbn [bind]. fold (low c1). fold (pair c c1).
      rewrite (drop_S _ _ _ Hc1) in *. destruct (low c1) eqn:E4; cbn [bind].
      * apply Hnext; [lia|]. unfold utf8_bytes. rewrite code_points_pair by (cbn [pairs]; by rewrite E1, E4).
        rewrite bind_cons. do 4 f_equal. lia.
      * apply Hnext; [lia|]. rewrite (drop_S _ _ _ Hc1). apply Hone. cbn [pairs]. by rewrite E4, andb_false_r.
    + cbn [bind]. apply Hnext; [lia|]. apply Hone. unfold pairs. destruct (drop _ src) as [|c1 r] eqn:Ed; [done|].
      assert (pos + 1 < Z.of_nat (length src)).
      { apply (f_equal length) in Ed. rewrite length_drop in Ed. cbn in Ed. lia. }
      destruct (Z.ltb_spec (pos + 1) (Z.of_nat (length src))); [|lia]. rewrite andb_true_r in E1. by rewrite E1.
Qed.

(** The end: the bytes are in the new structure, and the reference that was
    taken on the string is released. *)
Lemma finish_spec rt rt1 v a p cap q : strings rt !! v = Some a -> 0 < ref_count a -> strings rt !! p = None ->
  same_table rt rt1 ->
  strings rt1 = <[p := new_string false []]> (<[v := with_ref_count a (ref_count a + 1)]> (strings rt)) ->
  Z.of_nat (length q) < cap ->
  wp (finish_cstring rt1 v p cap q) (fun '(rt', r) => same_table rt rt' /\ r = Some p
    /\ strings rt' = <[p := new_string false q]> (strings rt)).
Proof.
  intros Hv Hr Hp Ht ES Hq. unfold finish_cstring. apply wp_bind, wp_assert; [by apply Z.ltb_lt|].
  assert (Hne : v <> p) by congruence.
  unfold set_chars, get_str. rewrite ES, lookup_insert_eq. cbn [bind].
  rewrite (free_ref _ v (with_ref_count a (ref_count a + 1))).
  - cbn [bind]. apply wp_ret. split; [by apply (same_table_trans rt rt1)|]. split; [done|]. cbn.
    rewrite ES, insert_insert_eq. rewrite insert_insert_ne by done. rewrite insert_insert_eq.
    f_equal. rewrite with_ref_count_same by (cbn; lia). by apply insert_id.
  - cbn. by rewrite lookup_insert_ne, ES, lookup_insert_ne, lookup_insert_eq.
  - cbn. lia.
Qed.

Lemma alloc_narrow_spec rt n : 0 <= n <= INT32_MAX ->
  wp (js_alloc_string rt n false) (fun '(rt', r) => same_table rt rt' /\ match r with
    | Some p => strings rt !! p = None /\ strings rt' = <[p := new_string false []]> (strings rt)
    | None => strings rt' = strings rt /\ failed (mem rt')
    end).
Proof.
  intros Hn. unfold js_alloc_string. apply wp_bind, wp_assert.
  { cbn [wide_bit]. rewrite Z.shiftl_0_r. apply andb_true_iff. split; apply Z.leb_le; lia. }
  unfold malloc_str. destruct (js_malloc_rt _ _ _) as [m [p|]] eqn:Em; apply wp_ret; (split; [done|]).
  - destruct (js_malloc_spec _ _ _ _ _ Em) as (H1 & _). apply not_elem_of_dom in H1. done.
  - split; [done|]. cbn. apply (malloc_failed _ _ _ _ _ Em). by right.
Qed.

(** What [JS_ToCStringLen2] gives: the string itself when its bytes are
    ASCII, a new one, or nothing; then the reference that it took on the
    string is lost. *)
Definition gives_cstring (rt : JSRuntime) (v : Z) (a : JSString) (cesu8 : bool) (x : JSRuntime * option Z) : Prop :=
  let '(rt', r) := x in
  let taken := <[v := with_ref_count a (ref_count a + 1)]> (strings rt) in
  same_table rt rt' /\ match r with
    | Some p =>
        p = v /\ is_wide_char a = false /\ chars a = utf8_bytes cesu8 (chars a) /\ strings rt' = taken
        \/ strings rt !! p = None /\ strings rt' = <[p := new_string false (utf8_bytes cesu8 (chars a))]> (strings rt)
    | None => failed (mem rt') /\ strings rt' = taken
    end.

Lemma to_cstring_spec rt v a cesu8 : strings rt !! v = Some a -> string_wf a -> 0 < ref_count a ->
  (is_wide_char a = true -> len a * 3 <= INT32_MAX) ->
  wp (JS_ToCStringLen2 rt v cesu8) (gives_cstring rt v a cesu8).
Proof.
  intros Hv [Hf Hlen] Hr Hw. unfold JS_ToCStringLen2, add_ref.
  assert (Hg : get_str rt v = Ret a) by (unfold get_str; by rewrite Hv). rewrite Hg. cbn [bind].
  set (a' := with_ref_count a (ref_count a + 1)).
  assert (Hg1 : get_str (put_str rt v a') v = Ret a') by (unfold get_str; cbn; by rewrite lookup_insert_eq).
  rewrite Hg1. cbn [bind]. set (rt1 := put_str rt v a').
  change (is_wide_char a') with (is_wide_char a). change (chars a') with (chars a). change (len a') with (len a).
  assert (Ht1 : same_table rt rt1) by done.
  (* the allocation and the end, for the bytes [q] *)
  assert (Hend : forall n (m : res (list Z)), 0 <= n <= INT32_MAX -> m = Ret (utf8_bytes cesu8 (chars a)) ->
    Z.of_nat (length (utf8_bytes cesu8 (chars a))) <= n ->
    wp (let* x := js_alloc_string rt1 n false in
        match x with
        | (rt, None) => Ret (rt, None)
        | (rt, Some p) => let* q := m in finish_cstring rt v p (n + 1) q
        end) (gives_cstring rt v a cesu8)).
  { intros n m Hn -> Hq. apply wp_bind. eapply wp_mono; [by apply alloc_narrow_spec|].
    intros [rt2 [p|]] [Ht2 H2].
    - cbn [bind]. destruct H2 as [Hp ES].
      assert (Hp0 : strings rt !! p = None).
      { cbn in Hp. apply lookup_insert_None in Hp. by destruct Hp. }
      eapply wp_mono; [apply (finish_spec rt rt2 v a p); try done; lia|].
      intros [rt3 r] (Ht3 & -> & ES3). split; [done|]. by right.
    - apply wp_ret. destruct H2 as [ES Hfl]. split; [by apply (same_table_trans rt rt1)|]. by split. }
  unfold len, JS_STRING_LEN_MAX in *. change (Z.shiftl 1 30) with (2 ^ 30) in Hlen. change INT32_MAX with (2 ^ 31 - 1) in *.
  destruct (is_wide_char a) eqn:Ew; cbn [negb].
  - specialize (Hw eq_refl). apply wp_bind, wp_assert; [by apply Z.leb_le|].
    pose proof (utf8_bytes_length cesu8 (chars a) Hf) as Hub. apply Hend; [lia| |lia].
    apply (encode16_loop _ cesu8 (chars a) Hf _ [] 0); [done|change (Z.to_nat 0) with 0%nat; rewrite drop_0; cbn [app]; lia|lia].
  - assert (Eb : utf8_bytes cesu8 (chars a) = chars a ≫= unicode_to_utf8).
    { unfold utf8_bytes. by rewrite code_points_narrow. }
    destruct (count_high_spec (chars a) Hf) as [Hc1 Hc2].
    destruct (Z.eqb_spec (count_high (chars a)) 0) as [E0|E0].
    + apply wp_ret. split; [done|]. left. split_and!; try done. by rewrite Eb, count_high_0.
    + unfold int_add, c_assert. change INT32_MAX with (2 ^ 31 - 1).
      destruct (Z.leb_spec (Z.of_nat (length (chars a)) + count_high (chars a)) (2 ^ 31 - 1)); [|lia]. cbn [bind].
      apply Hend; [lia| |rewrite Eb; lia]. rewrite Eb. rewrite encode8_spec by (done || (cbn [app]; lia)). done.
Qed.

(** ** Concatenation *)

(** The references to a string, and the one that a value is. *)
Definition refs (rt : JSRuntime) (u : Z) : Z :=
  match strings rt !! u with Some s => ref_count s | None => 0 end.
Definition holds_ref (x : option Z) (u : Z) : Z := if decide (x = Some u) then 1 else 0.

Lemma holds_ref_cases x u : holds_ref x u = 1 /\ x = Some u \/ holds_ref x u = 0 /\ x <> Some u.
Proof. unfold holds_ref. case_decide; [by left|by right]. Qed.

(** A structure after [k] references are released. *)
Definition less_refs (k : Z) (x : option JSString) : option JSString :=
  match x with
  | Some s => if (0 <? k) && (ref_count s - k <=? 0) then None else Some (with_ref_count s (ref_count s - k))
  | None => None
  end.

Lemma less_refs_0 x : less_refs 0 x = x.
Proof. destruct x as [[]|]; [|done]. unfold less_refs, with_ref_count. cbn. by rewrite Z.sub_0_r. Qed.

Lemma less_refs_add k1 k2 x : 0 <= k1 -> 0 <= k2 -> less_refs k2 (less_refs k1 x) = less_refs (k1 + k2) x.
Proof.
  intros H1 H2. destruct x as [s|]; [|done]. unfold less_refs at 2.
  destruct (Z.ltb_spec 0 k1); [|assert (k1 = 0) as -> by lia]; cbn [andb].
  - destruct (Z.leb_spec (ref_count s - k1) 0); unfold less_refs.
    + destruct (Z.ltb_spec 0 (k1 + k2)); [|lia]. destruct (Z.leb_spec (ref_count s - (k1 + k2)) 0); [done|lia].
    + destruct (Z.ltb_spec 0 k2), (Z.ltb_spec 0 (k1 + k2)); cbn [andb with_ref_count ref_count]; try lia;
        repeat match goal with |- context [?a <=? 0] => destruct (Z.leb_spec a 0) end; try lia; try done;
        unfold with_ref_count; cbn; do 2 f_equal; lia.
  - rewrite Z.add_0_l, Z.sub_0_r. by destruct s.
Qed.

(** Strings are only released where [plain_string] says that the value is
    not the last reference of an atom. *)
Definition plain_string (rt : JSRuntime) (k v : Z) : Prop :=
  exists a, strings rt !! v = Some a /\ string_wf a /\ k <= ref_count a /\ (atom_type a = 0 \/ k < ref_count a).

Lemma release_any rt v k a : 1 <= k -> strings rt !! v = Some a -> k <= ref_count a ->
  atom_type a = 0 \/ k < ref_count a ->
  wp (js_free_string rt v) (fun rt' => same_table rt rt' /\ mem rt' = mem rt
    /\ forall u, strings rt' !! u = less_refs (holds_ref (Some v) u) (strings rt !! u)).
Proof.
  intros Hk Ha Hr Hat. unfold js_free_string, get_str. rewrite Ha. cbn [bind].
  assert (Hput : forall u, (<[v := with_ref_count a (ref_count a - 1)]> (strings rt)) !! u
    = if decide (u = v) then Some (with_ref_count a (ref_count a - 1)) else strings rt !! u).
  { intros u. case_decide; [by subst; rewrite lookup_insert_eq|by rewrite lookup_insert_ne]. }
  destruct (Z.leb_spec (ref_count a - 1) 0) as [Hle|Hgt].
  - destruct Hat as [Hat|Hat]; [|lia]. rewrite Hat. cbn [negb Z.eqb]. apply wp_ret.
    split; [done|]. split; [done|]. intros u. cbn. unfold holds_ref. case_decide as E.
    + injection E as <-. rewrite lookup_delete_eq, Ha. cbn. destruct (Z.leb_spec (ref_count a - 1) 0); [done|lia].
    + rewrite lookup_delete_ne by congruence. rewrite Hput, decide_False by congruence. by rewrite less_refs_0.
  - apply wp_ret. split; [done|]. split; [done|]. intros u. cbn. unfold holds_ref. rewrite Hput. case_decide as E.
    + subst u. rewrite decide_True, Ha by done. cbn. destruct (Z.leb_spec (ref_count a - 1) 0); [lia|done].
    + rewrite decide_False by congruence. by rewrite less_refs_0.
Qed.

Lemma release_plain rt v k : 1 <= k -> plain_string rt k v ->
  wp (js_free_string rt v) (fun rt' => same_table rt rt' /\ mem rt' = mem rt
    /\ forall u, strings rt' !! u = less_refs (holds_ref (Some v) u) (strings rt !! u)).
Proof. intros Hk (a & Ha & _ & Hr & Hat). by apply (release_any rt v k a). Qed.

Lemma less_refs_refs rt rt' k u : strings rt' !! u = less_refs k (strings rt !! u) ->
  0 <= k -> (0 < k -> k <= refs rt u) -> refs rt' u = refs rt u - k.
Proof.
  unfold refs. intros -> Hk Hle. destruct (strings rt !! u) as [s|]; cbn; [|destruct (Z.ltb_spec 0 k); lia].
  destruct (Z.ltb_spec 0 k); cbn; [|lia]. destruct (Z.leb_spec (ref_count s - k) 0); cbn; lia.
Qed.

Lemma less_refs_Some k x b : less_refs k x = Some b -> exists b0, x = Some b0 /\ b = with_ref_count b0 (ref_count b).
Proof. destruct x as [s|]; [|done]. cbn. destruct (_ && _); [done|]. intros [= <-]. by exists s. Qed.

(** What a concatenation gives: the references of the operands are released,
    the result is one reference, and the strings that others refer to are the
    same. *)
Definition concatenated (rt : JSRuntime) (op1 op2 : option Z) (l : list Z) (x : JSRuntime * option Z) : Prop :=
  let '(rt', r) := x in
  same_table rt rt'
  /\ (forall u, refs rt' u = refs rt u - holds_ref op1 u - holds_ref op2 u + holds_ref r u)
  /\ (forall u b, strings rt' !! u = Some b ->
        r <> Some u \/ holds_ref op1 u + holds_ref op2 u < refs rt u ->
        exists b0, strings rt !! u = Some b0 /\ b = with_ref_count b0 (ref_count b))
  /\ match r with
     | Some q => exists b, strings rt' !! q = Some b /\ chars b = l
     | None => op1 = None \/ op2 = None \/ failed (mem rt')
     end.

(** The releases of the two operands. *)
Lemma release2_spec rt a1 a2 (r : option Z) : (forall v, Some a1 = Some v \/ Some a2 = Some v ->
    plain_string rt (holds_ref (Some a1) v + holds_ref (Some a2) v) v) ->
  wp (let* rt := js_free_string rt a1 in let* rt := js_free_string rt a2 in Ret (rt, r)) (fun '(rt', r') => r' = r
    /\ same_table rt rt' /\ mem rt' = mem rt /\ forall u, strings rt' !! u = less_refs (holds_ref (Some a1) u + holds_ref (Some a2) u) (strings rt !! u)).
Proof.
  intros Hpl. assert (H1 : forall u, holds_ref (Some u) u = 1) by (intros u; unfold holds_ref; by rewrite decide_True).
  pose proof (Hpl a1 (or_introl eq_refl)) as Hp1. pose proof (Hpl a2 (or_intror eq_refl)) as Hp2.
  rewrite H1 in Hp1, Hp2. apply wp_bind. eapply wp_mono; [apply (release_plain rt a1 (1 + holds_ref (Some a2) a1)); [|exact Hp1]|].
  { destruct (holds_ref_cases (Some a2) a1) as [[-> _]|[-> _]]; lia. }
  intros rt1 (Ht1 & Em1 & ES1). apply wp_bind. eapply wp_mono; [apply (release_plain rt1 a2 1); [lia|]|].
  - destruct Hp2 as (b & Hb & Hwf & Hk & Hat). unfold plain_string. rewrite ES1, Hb. cbn [less_refs].
    destruct (holds_ref_cases (Some a1) a2) as [[E _]|[E _]]; rewrite E in *; cbn [Z.ltb Z.compare andb].
    + destruct (Z.leb_spec (ref_count b - 1) 0); [lia|]. eexists. split; [done|]. cbn.
      split; [by destruct Hwf|]. split; [lia|]. destruct Hat; [by left|right; lia].
    + eexists. split; [done|]. cbn. split; [by destruct Hwf|]. split; [lia|]. destruct Hat; [by left|right; lia].
  - intros rt2 (Ht2 & Em2 & ES2). apply wp_ret. split; [done|]. split; [by apply (same_table_trans rt rt1)|]. split; [congruence|].
    intros u. rewrite ES2, ES1. pose proof (holds_ref_cases (Some a1) u). pose proof (holds_ref_cases (Some a2) u).
    apply less_refs_add; lia.
Qed.

(** A new string, after the releases. *)
Lemma concatenated_new rt rt1 rt' a1 a2 l r : same_table rt rt1 -> same_table rt1 rt' ->
  (forall v, Some a1 = Some v \/ Some a2 = Some v -> plain_string rt (holds_ref (Some a1) v + holds_ref (Some a2) v) v) ->
  match r with
  | Some q => strings rt !! q = None /\ exists w, strings rt1 = <[q := new_string w l]> (strings rt)
  | None => strings rt1 = strings rt /\ failed (mem rt')
  end ->
  (forall u, strings rt' !! u = less_refs (holds_ref (Some a1) u + holds_ref (Some a2) u) (strings rt1 !! u)) ->
  concatenated rt (Some a1) (Some a2) l (rt', r).
Proof.
  intros Ht1 Ht' Hpl Hr ES. split; [by apply (same_table_trans rt rt1)|].
  assert (Hk : forall u, 0 <= holds_ref (Some a1) u + holds_ref (Some a2) u
    /\ (0 < holds_ref (Some a1) u + holds_ref (Some a2) u -> exists s, strings rt !! u = Some s
          /\ holds_ref (Some a1) u + holds_ref (Some a2) u <= ref_count s)).
  { intros u. pose proof (holds_ref_cases (Some a1) u) as C1. pose proof (holds_ref_cases (Some a2) u) as C2.
    split; [lia|]. intros Hpos. destruct (Hpl u) as (s & Hs & _ & Hle & _); [|by exists s].
    destruct C1 as [[_ C1]|[C1 _]]; [by left|]. destruct C2 as [[_ C2]|[C2 _]]; [by right|lia]. }
  assert (Hother : forall u, r <> Some u -> strings rt1 !! u = strings rt !! u).
  { intros u Hu. destruct r as [q|]; [|by destruct Hr as [-> _]]. destruct Hr as (_ & w & ->).
    rewrite lookup_insert_ne; [done|congruence]. }
  split; [|split].
  - intros u. destruct (Hk u) as [Hk0 Hk1]. destruct (holds_ref_cases r u) as [[-> ->]|[-> Hu]].
    + destruct Hr as (Hq & w & E1). unfold refs at 2. rewrite Hq.
      assert (holds_ref (Some a1) u + holds_ref (Some a2) u = 0) as E0.
      { destruct (Z.eqb_spec (holds_ref (Some a1) u + holds_ref (Some a2) u) 0) as [|Hne]; [done|].
        destruct Hk1 as (s & Hs & _); [lia|]. congruence. }
      unfold refs. rewrite ES, E0, less_refs_0, E1, lookup_insert_eq. cbn. lia.
    + rewrite (less_refs_refs rt rt' (holds_ref (Some a1) u + holds_ref (Some a2) u) u); [lia|by rewrite ES, Hother|done|].
      intros Hpos. destruct (Hk1 Hpos) as (s & Hs & Hle). unfold refs. by rewrite Hs.
  - intros u b Hb Hu. rewrite ES, Hother in Hb; [by apply less_refs_Some in Hb|].
    destruct Hu as [|Hu]; [done|]. intros ->. destruct Hr as (Hq & _). unfold refs in Hu. rewrite Hq in Hu.
    destruct (Hk u) as [Hk0 _]. lia.
  - destruct r as [q|]; [|by right; right; destruct Hr]. destruct Hr as (Hq & w & E1).
    assert (holds_ref (Some a1) q + holds_ref (Some a2) q = 0) as E0.
    { destruct (Hk q) as [Hk0 Hk1]. destruct (Z.eqb_spec (holds_ref (Some a1) q + holds_ref (Some a2) q) 0) as [|Hne]; [done|].
      destruct Hk1 as (s & Hs & _); [lia|]. congruence. }
    rewrite ES, E0, less_refs_0, E1, lookup_insert_eq. by eexists.
Qed.

Lemma fits_or w1 w2 l : Forall (fits w1) l -> Forall (fits (w1 || w2)) l.
Proof. intros H. destruct w1; [done|]. destruct w2; [by apply (fits_wide false)|done]. Qed.

Lemma with_chars_same s : with_chars s (is_wide_char s) (chars s) = s.
Proof. by destruct s. Qed.

(** The first operand, changed or not, when it is the result. *)
Lemma concatenated_kept rt rt1 rt' a1 a2 p1 l : strings rt !! a1 = Some p1 -> same_table rt rt' ->
  (forall v, Some a1 = Some v \/ Some a2 = Some v -> plain_string rt (holds_ref (Some a1) v + holds_ref (Some a2) v) v) ->
  strings rt1 = <[a1 := with_chars p1 (is_wide_char p1) l]> (strings rt) ->
  ref_count p1 = 1 \/ l = chars p1 ->
  (forall u, strings rt' !! u = less_refs (holds_ref (Some a2) u) (strings rt1 !! u)) ->
  concatenated rt (Some a1) (Some a2) l (rt', Some a1).
Proof.
  intros H1 Ht Hpl E1 Hl ES.
  assert (Ho : forall u, u <> a1 -> strings rt1 !! u = strings rt !! u) by (intros u Hu; by rewrite E1, lookup_insert_ne).
  assert (Er : forall u, refs rt1 u = refs rt u).
  { intros u. unfold refs. destruct (decide (u = a1)) as [->|Hu]; [by rewrite E1, lookup_insert_eq, H1|by rewrite Ho]. }
  assert (Hk : forall u, 0 < holds_ref (Some a2) u -> holds_ref (Some a1) u + 1 <= refs rt u).
  { intros u Hpos. destruct (holds_ref_cases (Some a2) u) as [[E2 Eu]|[E2 _]]; [|lia].
    destruct (Hpl u) as (s & Hs & _ & Hle & _); [by right|]. unfold refs. rewrite Hs. lia. }
  assert (Hn : forall u, 0 <= holds_ref (Some a2) u <= 1) by (intros u; pose proof (holds_ref_cases (Some a2) u); lia).
  split; [done|]. split; [|split].
  - intros u. rewrite (less_refs_refs rt1 rt' (holds_ref (Some a2) u) u); [rewrite Er; lia|apply ES|apply Hn|].
    intros Hpos. rewrite Er. specialize (Hk u Hpos). specialize (Hn u). pose proof (holds_ref_cases (Some a1) u). lia.
  - intros u b Hb Hu. rewrite ES in Hb. destruct (decide (u = a1)) as [->|Hne].
    + destruct Hl as [Hl| ->].
      * destruct Hu as [Hu|Hu]; [done|]. specialize (Hn a1). unfold refs in Hu. rewrite H1, Hl in Hu.
        destruct (holds_ref_cases (Some a1) a1) as [[E _]|[_ E]]; [lia|done].
      * rewrite E1, lookup_insert_eq, with_chars_same in Hb. apply less_refs_Some in Hb. by rewrite H1.
    + rewrite Ho in Hb by done. by apply less_refs_Some in Hb.
  - rewrite ES, E1, lookup_insert_eq. cbn [less_refs]. specialize (Hk a1). specialize (Hn a1). unfold refs in Hk. rewrite H1 in Hk.
    assert (E0 : holds_ref (Some a1) a1 = 1) by (unfold holds_ref; by rewrite decide_True). rewrite E0 in Hk.
    cbn [with_chars ref_count]. destruct (Z.ltb_spec 0 (holds_ref (Some a2) a1)); cbn [andb]; [|by eexists].
    destruct (Z.leb_spec (ref_count p1 - holds_ref (Some a2) a1) 0); [lia|]. by eexists.
Qed.

Lemma concat_string_spec rt a1 a2 p1 p2 : strings rt !! a1 = Some p1 -> strings rt !! a2 = Some p2 ->
  (forall v, Some a1 = Some v \/ Some a2 = Some v -> plain_string rt (holds_ref (Some a1) v + holds_ref (Some a2) v) v) ->
  len p1 + len p2 <= JS_STRING_LEN_MAX ->
  wp (JS_ConcatString rt (Some a1) (Some a2)) (concatenated rt (Some a1) (Some a2) (chars p1 ++ chars p2)).
Proof.
  intros H1 H2 Hpl Hlen. unfold JS_ConcatString, get_str. rewrite H1. cbn [bind]. rewrite H2. cbn [bind].
  assert (Hone : forall u, holds_ref (Some u) u = 1) by (intros u; unfold holds_ref; by rewrite decide_True).
  pose proof (Hpl a2 (or_intror eq_refl)) as Hp2. rewrite Hone in Hp2.
  pose proof (holds_ref_cases (Some a1) a2) as C12.
  (* a release of the second operand *)
  assert (Hrel : forall rt1, strings rt1 !! a2 = strings rt !! a2 ->
    wp (js_free_string rt1 a2) (fun rt' => same_table rt1 rt' /\ mem rt' = mem rt1
      /\ forall u, strings rt' !! u = less_refs (holds_ref (Some a2) u) (strings rt1 !! u))).
  { intros rt1 E. apply (release_plain rt1 a2 (holds_ref (Some a1) a2 + 1)); [lia|].
    destruct Hp2 as (s & Hs & H). exists s. by rewrite E. }
  destruct (Z.eqb_spec (len p2) 0) as [E0|E0].
  { assert (chars p2 = []) as E2 by (unfold len in E0; destruct (chars p2); [done|cbn in E0; lia]).
    apply wp_bind. eapply wp_mono; [by apply Hrel|]. intros rt' (Ht & _ & ES). apply wp_ret.
    rewrite E2, app_nil_r. apply (concatenated_kept rt rt rt' a1 a2 p1); try done; [|by right].
    rewrite with_chars_same. by rewrite insert_id. }
  unfold len, JS_STRING_LEN_MAX in *. change (Z.shiftl 1 30) with (2 ^ 30) in Hlen.
  assert (Hint : forall w, Z.shiftl (Z.of_nat (length (chars p1)) + Z.of_nat (length (chars p2))) (wide_bit w) <= INT32_MAX).
  { intros w. change INT32_MAX with (2 ^ 31 - 1). unfold wide_bit. destruct w; rewrite Z.shiftl_mul_pow2 by lia; lia. }
  apply wp_bind.
  assert (Htest : wp (if (ref_count p1 =? 1) && eqb (is_wide_char p1) (is_wide_char p2) then
      let* _ := c_assert (Z.shiftl (Z.of_nat (length (chars p1)) + Z.of_nat (length (chars p2))) (wide_bit (is_wide_char p2)) <=? INT32_MAX) in
      Ret (string_bytes (Z.of_nat (length (chars p1)) + Z.of_nat (length (chars p2))) (is_wide_char p1) <=? js_malloc_usable_size (mem rt) a1)
    else Ret false) (fun b => b = true -> ref_count p1 = 1)).
  { destruct (Z.eqb_spec (ref_count p1) 1); cbn [andb]; [|by apply wp_ret]. destruct (eqb _ _); [|by apply wp_ret].
    apply wp_bind, wp_assert; [by apply Z.leb_le|]. by apply wp_ret. }
  eapply wp_mono; [exact Htest|]. clear Htest. intros [] Hrc.
  - (* in place *)
    specialize (Hrc eq_refl).
    assert (Hne : a2 <> a1).
    { intros ->. rewrite Hone in Hp2. destruct Hp2 as (s & Hs & _ & Hle & _). rewrite H1 in Hs. injection Hs as <-. lia. }
    unfold set_chars, get_str. rewrite H1. cbn [bind]. apply wp_bind.
    eapply wp_mono; [apply Hrel; cbn; by rewrite lookup_insert_ne|].
    intros rt' (Ht & _ & ES). apply wp_ret.
    eapply (concatenated_kept rt _ rt' a1 a2 p1); [done|exact Ht|done| |by left|exact ES]. done.
  - unfold JS_ConcatString1, len. change JS_STRING_LEN_MAX with (2 ^ 30 - 1).
    destruct (Z.ltb_spec (2 ^ 30 - 1) (Z.of_nat (length (chars p1)) + Z.of_nat (length (chars p2)))); [lia|].
    destruct (Hpl a1 (or_introl eq_refl)) as (s1 & Hs1 & [Hf1 _] & _). rewrite H1 in Hs1. injection Hs1 as <-.
    destruct Hp2 as (s2 & Hs2 & [Hf2 _] & _). rewrite H2 in Hs2. injection Hs2 as <-.
    apply wp_bind. eapply wp_mono; [apply (new_string_spec rt (is_wide_char p1 || is_wide_char p2) (chars p1 ++ chars p2))|].
    + apply Forall_app. split; [by apply fits_or|]. rewrite orb_comm. by apply fits_or.
    + change JS_STRING_LEN_MAX with (2 ^ 30 - 1). lens.
    + intros [rt1 r] [Ht1 Hr]. eapply wp_mono; [apply (release2_spec rt1 a1 a2 r)|].
      * intros v Hv. destruct (Hpl v Hv) as (s & Hs & H0). exists s. split; [|done].
        destruct r as [q|]; [|by destruct Hr as [-> _]]. destruct Hr as (Hq & _ & _ & ->).
        rewrite lookup_insert_ne; [done|congruence].
      * intros [rt' r'] (-> & Ht' & Em & ES). apply (concatenated_new rt rt1 rt'); try done.
        destruct r as [q|]; [|rewrite Em; by destruct Hr]. destruct Hr as (Hq & _ & _ & E). split; [done|]. by eexists.
Qed.

(** The characters of an operand. *)
Definition chars_of (rt : JSRuntime) (op : option Z) : list Z :=
  match op with
  | Some v => match strings rt !! v with Some a => chars a | None => [] end
  | None => []
  end.

(** C11.  [JS_ConcatString] gives the characters of its first operand, then
    those of its second, whether it copies them or appends in place, at any
    widths and also when both operands are the same string; it releases
    exactly one reference to each operand, exceptions included, its result is
    one reference, and a string to which there is another reference keeps its
    characters.  It gives the exception only if an operand is one or if the
    allocator failed, when the string is not too long.  The operands must not be the
    last references to atoms (below, what happens then). *)
Theorem concat_string_correct rt op1 op2 :
  (forall v, op1 = Some v \/ op2 = Some v -> plain_string rt (holds_ref op1 v + holds_ref op2 v) v) ->
  Z.of_nat (length (chars_of rt op1 ++ chars_of rt op2)) <= JS_STRING_LEN_MAX ->
  wp (JS_ConcatString rt op1 op2) (concatenated rt op1 op2 (chars_of rt op1 ++ chars_of rt op2)).
Proof.
  intros Hpl Hlen.
  (* one operand is an exception *)
  assert (Hrel : forall v, op1 = None /\ op2 = Some v \/ op1 = Some v /\ op2 = None ->
    wp (let* rt := js_free_string rt v in Ret (rt, None))
      (concatenated rt op1 op2 (chars_of rt op1 ++ chars_of rt op2))).
  { intros v Hv. pose proof (Hpl v) as Hp. assert (E : forall u, holds_ref op1 u + holds_ref op2 u = holds_ref (Some v) u).
    { intros u. destruct Hv as [[-> ->]|[-> ->]]; unfold holds_ref; rewrite (decide_False (P := None = Some u)) by done; lia. }
    assert (E1 : holds_ref (Some v) v = 1) by (unfold holds_ref; by rewrite decide_True).
    rewrite E, E1 in Hp. specialize (Hp ltac:(destruct Hv as [[_ ->]|[-> _]]; [by right|by left])).
    apply wp_bind. eapply wp_mono; [by apply (release_plain rt v 1)|]. intros rt' (Ht & _ & ES). apply wp_ret.
    split; [done|]. destruct Hp as (a & Ha & _ & Hr & _). split; [|split].
    - intros u. rewrite (less_refs_refs rt rt' (holds_ref (Some v) u) u); [rewrite <- (E u); unfold holds_ref at 5; rewrite decide_False by done; lia|apply ES|unfold holds_ref; case_decide; lia|].
      unfold holds_ref, refs. case_decide as Hu; [|lia]. injection Hu as <-. rewrite Ha. lia.
    - intros u b Hb _. rewrite ES in Hb. by apply less_refs_Some in Hb.
    - destruct Hv as [[? _]|[_ ?]]; tauto. }
  destruct op1 as [a1|], op2 as [a2|].
  - destruct (Hpl a1 (or_introl eq_refl)) as (p1 & H1 & _). destruct (Hpl a2 (or_intror eq_refl)) as (p2 & H2 & _).
    unfold chars_of in *. rewrite H1, H2 in *. apply concat_string_spec; [done..|]. unfold len. lens.
  - apply Hrel. by right.
  - apply Hrel. by left.
  - apply wp_ret. split; [apply same_table_refl|]. split; [intros u; unfold holds_ref; rewrite decide_False by done; lia|].
    split; [|by left]. intros u b Hb _. exists b. split; [done|]. by destruct b.
Qed.

(** C38.  [JS_NewStringLen] makes a string of any bytes: it never reads outside
    of them, whatever they are, every canonical encoding of a code point up to
    0x10ffff gives this code point in UTF-16, and where no code point can be
    read one U+FFFD stands for the bytes that are skipped.  This determines
    the string. *)
Theorem new_string_len_correct rt buf : empty_atom rt -> Forall byte buf -> Z.of_nat (length buf) <= INT32_MAX ->
  wp (JS_NewStringLen rt buf) (fun x => exists l, decodes buf l /\ (forall l', decodes buf l' -> l' = l)
    /\ string_result rt l x).
Proof.
  intros He Hb Hn. eapply wp_mono; [by apply new_string_len_spec|]. intros x (l & Hl & Hx). exists l.
  split; [done|]. split; [|done]. intros l' Hl'. by apply (decodes_unique buf).
Qed.

(** *** There and back *)

(** The string of the bytes of a string. *)
Definition round_trip (rt : JSRuntime) (v : Z) (cesu8 : bool) : res (JSRuntime * option Z) :=
  let* x := JS_ToCStringLen2 rt v cesu8 in
  match x with
  | (rt, None) => Ret (rt, None)
  | (rt, Some p) =>
      let* s := get_str rt p in
      let* x := JS_NewStringLen rt (chars s) in
      let '(rt, r) := x in
      let* rt := JS_FreeCString rt p in
      Ret (rt, r)
  end.

Lemma utf8_bytes_byte cesu8 l : Forall (fits true) l -> Forall byte (utf8_bytes cesu8 l).
Proof.
  intros Hl. apply (code_points_wf cesu8) in Hl. unfold utf8_bytes. induction Hl as [|c cps Hc _ IH]; [constructor|].
  rewrite bind_cons. apply Forall_app. split; [|done]. unfold code_point in Hc. unfold unicode_to_utf8, utf8_cont.
  repeat case_match; repeat constructor; unfold byte, u8; apply Z.mod_pos_bound; lia.
Qed.

Lemma fits_byte l : Forall (fits false) l -> Forall byte l.
Proof. intros H. eapply Forall_impl; [exact H|]. unfold fits, char_max, byte. lia. Qed.

(** The references after a string is given. *)
Lemma gives_string_refs rt rt' l q u : gives_string rt rt' l q -> refs rt' u = refs rt u + holds_ref (Some q) u.
Proof.
  unfold refs. destruct (holds_ref_cases (Some q) u) as [[-> [= ->]]|[-> Hu]].
  - intros [(a & Ha & _ & _ & ->)|(Hq & _ & _ & w & _ & ->)]; rewrite lookup_insert_eq.
    + by rewrite Ha.
    + by rewrite Hq.
  - intros [(a & Ha & _ & _ & ->)|(Hq & _ & _ & w & _ & ->)]; rewrite lookup_insert_ne by congruence; lia.
Qed.

Lemma gives_string_chars rt rt' l q : gives_string rt rt' l q -> exists b, strings rt' !! q = Some b /\ chars b = l.
Proof.
  intros [(a & Ha & Hc & -> & ->)|(Hq & _ & _ & w & _ & ->)]; rewrite lookup_insert_eq; by eexists.
Qed.

(** The strings that were there are, with as many references at least. *)
Lemma gives_string_keeps rt rt' l q u b : gives_string rt rt' l q -> strings rt !! u = Some b ->
  exists b', strings rt' !! u = Some b' /\ chars b' = chars b /\ atom_type b' = atom_type b /\ ref_count b <= ref_count b'.
Proof.
  intros Hg Hb. destruct (decide (u = q)) as [->|Hne].
  - destruct Hg as [(a & Ha & _ & _ & ->)|(Hq & _)]; [|congruence]. rewrite lookup_insert_eq. eexists. split; [done|].
    rewrite Ha in Hb. injection Hb as ->. cbn. split_and!; [done|done|lia].
  - exists b. destruct Hg as [(a & _ & _ & _ & ->)|(_ & _ & _ & w & _ & ->)]; rewrite lookup_insert_ne by done; done.
Qed.

(** What [JS_ToCStringLen2] leaves to the second half. *)
Lemma gives_cstring_then rt v a cesu8 rt1 p : strings rt !! v = Some a -> string_wf a -> 0 < ref_count a ->
  (is_wide_char a = true -> len a * 3 <= INT32_MAX) -> empty_atom rt ->
  gives_cstring rt v a cesu8 (rt1, Some p) -> empty_atom rt1 /\ exists s, strings rt1 !! p = Some s
    /\ chars s = utf8_bytes cesu8 (chars a) /\ Forall byte (chars s) /\ Z.of_nat (length (chars s)) <= INT32_MAX
    /\ 1 <= ref_count s /\ (atom_type s = 0 \/ 1 < ref_count s)
    /\ forall u, refs rt1 u = refs rt u + holds_ref (Some p) u.
Proof.
  intros Hv [Hf Hlen] Hr Hw (pe & ae & E1 & E2 & E3) [Ht Hx].
  assert (Hg : forall s, strings rt1 = <[p := s]> (strings rt) -> ref_count s = refs rt p + 1 ->
    (strings rt !! p = None \/ strings rt !! p = Some a /\ s = with_ref_count a (ref_count a + 1)) ->
    empty_atom rt1 /\ (forall u, refs rt1 u = refs rt u + holds_ref (Some p) u)).
  { intros s ES Hs Hp. split.
    - unfold empty_atom. assert (Ea : atom_array rt1 = atom_array rt) by (by rewrite Ht). rewrite Ea, E1, ES. exists pe.
      destruct (decide (pe = p)) as [->|Hne]; [|exists ae; by rewrite lookup_insert_ne].
      destruct Hp as [Hp|[Hp ->]]; [congruence|]. rewrite lookup_insert_eq. eexists. split_and!; [done|done|].
      rewrite Hp in E2. by injection E2 as ->.
    - intros u. unfold refs in *. rewrite ES. destruct (holds_ref_cases (Some p) u) as [[-> [= ->]]|[-> Hu]].
      + by rewrite lookup_insert_eq.
      + rewrite lookup_insert_ne by congruence. lia. }
  assert (Hl : Z.of_nat (length (utf8_bytes cesu8 (chars a))) <= INT32_MAX).
  { unfold len, JS_STRING_LEN_MAX in *. change (Z.shiftl 1 30) with (2 ^ 30) in Hlen. change INT32_MAX with (2 ^ 31 - 1) in *.
    destruct (is_wide_char a).
    - pose proof (utf8_bytes_length cesu8 (chars a) Hf). specialize (Hw eq_refl). lia.
    - unfold utf8_bytes. rewrite code_points_narrow by done. pose proof (count_high_spec (chars a) Hf). lia. }
  pose proof (utf8_bytes_byte cesu8 (chars a) (fits_wide _ _ Hf)) as Hby.
  destruct Hx as [(-> & _ & Ec & ES)|(Hp & ES)].
  - destruct (Hg _ ES) as [He Hrefs]; [cbn; unfold refs; by rewrite Hv|by right|]. split; [done|].
    rewrite ES, lookup_insert_eq. eexists. split; [done|]. cbn [chars ref_count with_ref_count atom_type].
    rewrite <- Ec in *. split_and!; [done|done|done|lia|right; lia|done].
  - destruct (Hg _ ES) as [He Hrefs]; [cbn; unfold refs; by rewrite Hp|by left|]. split; [done|].
    rewrite ES, lookup_insert_eq. eexists. split; [done|]. cbn. split_and!; [done|done|done|lia|by left|done].
Qed.

(** No character needs 16 bits. *)
Lemma narrow_chars l : Forall (fits false) l -> existsb (fun c => 0xff <? c) l = false.
Proof.
  induction 1 as [|c l Hc _ IH]; [done|]. cbn [existsb]. rewrite IH, orb_false_r. unfold fits, char_max in Hc.
  apply Z.ltb_ge. lia.
Qed.

Lemma u8_narrow l : Forall (fits false) l -> u8 <$> l = l.
Proof. induction 1 as [|c l Hc _ IH]; [done|]. cbn. rewrite IH. unfold fits, char_max in Hc. by rewrite u8_id by lia. Qed.

Lemma wide_chars l : Forall (fits true) l -> 0xff < or_chars l -> existsb (fun c => 0xff <? c) l = true.
Proof.
  intros Hl Hor. apply not_false_iff_true. intros Hno.
  destruct (or_chars_bound l 8) as [_ [_ Hb]]; [done|by eapply Forall_impl; [exact Hl|]; intros c []|].
  enough (or_chars l < 2 ^ 8) by lia. apply Hb, Forall_forall. intros c Hc.
  destruct (Z.ltb_spec 0xff c); [|lia]. apply Bool.not_true_iff_false in Hno. destruct Hno.
  apply existsb_exists. exists c. split; [by apply list_elem_of_In|]. by apply Z.ltb_lt.
Qed.

(** C39.  [js_sub_string] gives the characters between the two positions: the
    string itself with one more reference for the whole, otherwise a string
    that has 16-bit characters only if one of them needs 16 bits, or the empty
    string of the runtime.  It reads no character outside of the string, and
    it fails only if the allocator does. *)
Theorem sub_string_correct rt p s start end_ : strings rt !! p = Some s -> string_wf s -> empty_atom rt ->
  0 <= start <= end_ -> end_ <= len s ->
  wp (js_sub_string rt p start end_) (fun x =>
    start = 0 /\ end_ = len s /\ x = (put_str rt p (with_ref_count s (ref_count s + 1)), Some p)
    \/ string_result rt (take (Z.to_nat (end_ - start)) (drop (Z.to_nat start) (chars s))) x
       /\ forall q b, x.2 = Some q -> strings x.1 !! q = Some b -> strings rt !! q = None ->
            is_wide_char b = existsb (fun c => 0xff <? c) (chars b)).
Proof.
  intros Hs [Hf Hn] He H1 H2. set (l := take (Z.to_nat (end_ - start)) (drop (Z.to_nat start) (chars s))).
  assert (Hl : Z.of_nat (length l) = end_ - start) by (unfold len in H2; unfold l; rewrite length_take, length_drop; lia).
  assert (Hfl : Forall (fits (is_wide_char s)) l) by (by apply Forall_take, Forall_drop).
  assert (Hslice : slice (chars s) start (end_ - start) = Ret l) by (unfold len in H2; by rewrite slice_in by lia).
  (* a new string of the right width *)
  assert (Hnew : forall rt' r w, same_table rt rt' -> Forall (fits w) l -> w = existsb (fun c => 0xff <? c) l ->
    match r with
    | Some p => strings rt !! p = None /\ 0 < p /\ Z.even p = true /\ strings rt' = <[p := new_string w l]> (strings rt)
    | None => strings rt' = strings rt /\ failed (mem rt')
    end -> string_result rt l (rt', r) /\ forall q b, r = Some q -> strings rt' !! q = Some b -> strings rt !! q = None ->
            is_wide_char b = existsb (fun c => 0xff <? c) (chars b)).
  { intros rt' [q|] w Ht Hw Ew Hr; (split; [split; [done|]|]).
    - right. destruct Hr as (? & ? & ? & ?). split_and!; try done. by exists w.
    - intros q' b [= <-] Hb _. destruct Hr as (_ & _ & _ & ES). rewrite ES, lookup_insert_eq in Hb. by injection Hb as <-.
    - destruct Hr. split; [done|by left].
    - done. }
  pose proof (narrow_chars l) as Hnarrow.
  unfold js_sub_string, get_str. rewrite Hs. cbn [bind].
  destruct ((start =? 0) && (end_ =? len s)) eqn:E.
  { zb. unfold add_ref, get_str. rewrite Hs. cbn [bind]. apply wp_ret. left. split; [lia|]. by split; [lia|]. }
  eapply wp_mono; [|intros x Hx; right; exact Hx].
  assert (Hempty : end_ - start <= 0 -> l = []) by (intros H; destruct l; [done|cbn in Hl; lia]).
  unfold len, JS_STRING_LEN_MAX in *. change (Z.shiftl 1 30) with (2 ^ 30) in Hn.
  assert (Hmk : forall w, Forall (fits w) l -> w = existsb (fun c => 0xff <? c) l ->
    wp (js_new_string rt w l) (fun x => string_result rt l x /\ forall q b, x.2 = Some q -> strings x.1 !! q = Some b ->
      strings rt !! q = None -> is_wide_char b = existsb (fun c => 0xff <? c) (chars b))).
  { intros w Hw Ew. eapply wp_mono; [apply new_string_spec; [done|]; rewrite Hl; change JS_STRING_LEN_MAX with (2 ^ 30 - 1); lia|].
    intros [rt' r] [Ht Hr]. by apply (Hnew rt' r w). }
  destruct (is_wide_char s && (0 <? end_ - start)) eqn:Ew.
  - rewrite Hslice. cbn [bind]. apply andb_true_iff in Ew as [Ew _]. rewrite Ew in Hfl.
    destruct (Z.ltb_spec 0xff (or_chars l)) as [Hor|Hor].
    + apply Hmk; [done|]. symmetry. by apply wide_chars.
    + assert (Hn8 : Forall (fits false) l) by (apply or_chars_narrow; [done|]; apply Z.leb_gt; lia).
      replace (u8 <$> l) with l; [apply Hmk; [done|by rewrite Hnarrow]|].
      symmetry. by apply u8_narrow.
  - destruct (Z.leb_spec (end_ - start) 0) as [H0|H0].
    + rewrite (Hempty H0). destruct He as (pe & ae & Hpe & Ha & Hc). unfold empty_string, add_ref, get_str.
      rewrite Hpe. cbn [bind]. rewrite Ha. cbn [bind]. apply wp_ret. split.
      * split; [done|]. left. by exists ae.
      * intros q b [= <-] _ Hq. congruence.
    + rewrite Hslice. cbn [bind]. unfold js_new_string8. destruct (Z.leb_spec (Z.of_nat (length l)) 0); [lia|].
      assert (is_wide_char s = false) as Ew' by (destruct (is_wide_char s); [|done]; cbn in Ew; zb; lia).
      rewrite Ew' in Hfl. apply Hmk; [done|by rewrite Hnarrow].
Qed.
End utf8.

(** ** Witnesses *)

(** One string of the store. *)
Definition one_string (wide : bool) (l : list Z) : JSRuntime (al := string_malloc) := put_str empty_rt 8 (new_string wide l).

Lemma one_string_empty wide l : empty_atom (one_string wide l).
Proof. exists 4, (mkString 1 false [] 0 1 0). split_and!; reflexivity. Qed.

Lemma concat_string_correct_witness :
  let rt := put_str empty_rt 8 (mkString 2 false [97; 98] 0 0 0) in
  wp (JS_ConcatString rt (Some 8) (Some 8))
    (concatenated (failed := fun m => m.2 = true) rt (Some 8) (Some 8) [97; 98; 97; 98]).
Proof.
  intros rt. apply (concat_string_correct rt (Some 8) (Some 8)); [|vm_compute; discriminate].
  intros v Hv. assert (v = 8) as -> by (destruct Hv as [[= ->]|[= ->]]; done).
  exists (mkString 2 false [97; 98] 0 0 0). split_and!; [done| |vm_compute; discriminate|by left].
  split; [repeat constructor; unfold fits, char_max; cbn; lia|vm_compute; discriminate].
Defined.

Lemma new_string_len_correct_witness :
  wp (JS_NewStringLen empty_rt [0xc3; 0xa9; 0x80; 97]) (fun x => exists l, decodes [0xc3; 0xa9; 0x80; 97] l
    /\ (forall l', decodes [0xc3; 0xa9; 0x80; 97] l' -> l' = l)
    /\ string_result (failed := fun m => m.2 = true) empty_rt l x).
Proof.
  apply (new_string_len_correct empty_rt).
  - apply empty_rt_empty.
  - repeat constructor; unfold byte; lia.
  - vm_compute. discriminate.
Defined.


Lemma sub_string_correct_witness :
  wp (js_sub_string (one_string true [97; 0x3b1; 98]) 8 0 1) (fun x =>
    0 = 0 /\ 1 = 3 /\ x = (put_str (one_string true [97; 0x3b1; 98]) 8 (with_ref_count (new_string true [97; 0x3b1; 98]) 2), Some 8)
    \/ string_result (failed := fun m => m.2 = true) (one_string true [97; 0x3b1; 98]) [97] x
       /\ forall q b, x.2 = Some q -> strings x.1 !! q = Some b -> strings (one_string true [97; 0x3b1; 98]) !! q = None ->
            is_wide_char b = existsb (fun c => 0xff <? c) (chars b)).
Proof.
  apply (sub_string_correct (al := string_malloc) (failed := fun m : Z * bool => m.2 = true)
    (one_string true [97; 0x3b1; 98]) 8 (new_string true [97; 0x3b1; 98]) 0 1).
  - done.
  - split; [repeat constructor; unfold fits, char_max; cbn; lia|vm_compute; discriminate].
  - apply one_string_empty.
  - lia.
  - vm_compute. discriminate.
Defined.

(** ** A key that is appended to *)

(** The key "ab" is interned, read as a value, and its object lets it go;
    then "c" is appended to the value, and the key "abc" is interned.  The
    runtime, the atom of the value, the value, and the atom of "abc". *)
Definition append_to_key : res (JSRuntime (al := string_malloc) * Z * Z * Z) :=
  let* x := JS_InitAtoms (al := string_malloc) (2, false) in
  let rt := x.1 in
  let* x := js_new_string8 rt [97; 98] in
  match x with
  | (rt, Some p) =>
      let* x := __JS_NewAtom rt (Some p) JS_ATOM_TYPE_STRING in
      let '(rt, i) := x in
      (* the atom as a value *)
      let* v := rd (atom_array rt) i in
      let* rt := add_ref rt v 1 in
      let* rt := JS_FreeAtom rt i in
      let* x := js_new_string8 rt [99] in
      let* x := JS_ConcatString x.1 (Some v) x.2 in
      match x with
      | (rt, Some v) =>
          let* x := js_new_string8 rt [97; 98; 99] in
          let* x := __JS_NewAtom x.1 x.2 JS_ATOM_TYPE_STRING in
          Ret (x.1, i, v, x.2)
      | (_, None) => Ub
      end
  | (_, None) => Ub
  end.

(** The atoms and their strings. *)
Definition two_atoms (x : res (JSRuntime (al := string_malloc) * Z * Z * Z)) :=
  match x with
  | Ret (rt, i, v, j) =>
      match rd (atom_array rt) i, rd (atom_array rt) j with
      | Ret p, Ret q => Some (i, v, j, p, strings rt !! v, strings rt !! q)
      | _, _ => None
      end
  | _ => None
  end.

Lemma append_to_key_atoms : two_atoms append_to_key
  = Some (210, 422, 211, 422, Some (mkString 1 false [97; 98; 99] 94778 1 39),
      Some (mkString 1 false [97; 98; 99] 24926713 1 0)).
Proof. vm_compute. reflexivity. Qed.

