(* ===== verification/Opcodes.v ===== *)
(** * The opcodes of the bytecode ([quickjs-opcode.h])

    The opcodes of the final bytecode as an inductive type, the formats of
    their operands, and the table [opcode_info] with the size of each
    instruction and the numbers of operands that it removes from and adds to
    the stack.  The temporary opcodes of the first compiler passes share the
    numbers of the short opcodes; they are in the table, between the two
    parts of the final opcodes. *)

From stdpp Require Import base tactics numbers list option.
From Stdlib Require Import ZArith Lia.
From S2P Require Import Prelude.

Open Scope Z_scope.

Inductive OPCodeFormat :=
  | OP_FMT_none | OP_FMT_none_int | OP_FMT_none_loc | OP_FMT_none_arg
  | OP_FMT_none_var_ref | OP_FMT_u8 | OP_FMT_i8 | OP_FMT_loc8
  | OP_FMT_const8 | OP_FMT_label8 | OP_FMT_u16 | OP_FMT_i16
  | OP_FMT_label16 | OP_FMT_npop | OP_FMT_npopx | OP_FMT_npop_u16
  | OP_FMT_loc | OP_FMT_arg | OP_FMT_var_ref | OP_FMT_u32 | OP_FMT_i32
  | OP_FMT_const | OP_FMT_label | OP_FMT_atom | OP_FMT_atom_u8
  | OP_FMT_atom_u16 | OP_FMT_atom_label_u8 | OP_FMT_atom_label_u16
  | OP_FMT_label_u16.

(** The opcodes of the final bytecode: the [DEF] entries. *)
Inductive OPCodeEnum :=
  | OP_invalid | OP_push_i32 | OP_push_const | OP_fclosure
  | OP_push_atom_value | OP_private_symbol | OP_undefined | OP_null
  | OP_push_this | OP_push_false | OP_push_true | OP_object
  | OP_special_object | OP_rest | OP_drop | OP_nip | OP_nip1 | OP_dup
  | OP_dup1 | OP_dup2 | OP_dup3 | OP_insert2 | OP_insert3 | OP_insert4
  | OP_perm3 | OP_perm4 | OP_perm5 | OP_swap | OP_swap2 | OP_rot3l
  | OP_rot3r | OP_rot4l | OP_rot5l | OP_call_constructor | OP_call
  | OP_tail_call | OP_call_method | OP_tail_call_method | OP_array_from
  | OP_apply | OP_return | OP_return_undef | OP_check_ctor_return
  | OP_check_ctor | OP_check_brand | OP_add_brand | OP_return_async
  | OP_throw | OP_throw_error | OP_eval | OP_apply_eval | OP_regexp
  | OP_get_super | OP_import | OP_check_var | OP_get_var_undef | OP_get_var
  | OP_put_var | OP_put_var_init | OP_put_var_strict | OP_get_ref_value
  | OP_put_ref_value | OP_define_var | OP_check_define_var | OP_define_func
  | OP_get_field | OP_get_field2 | OP_put_field | OP_get_private_field
  | OP_put_private_field | OP_define_private_field | OP_get_array_el
  | OP_get_array_el2 | OP_put_array_el | OP_get_super_value
  | OP_put_super_value | OP_define_field | OP_set_name
  | OP_set_name_computed | OP_set_proto | OP_set_home_object
  | OP_define_array_el | OP_append | OP_copy_data_properties
  | OP_define_method | OP_define_method_computed | OP_define_class
  | OP_define_class_computed | OP_get_loc | OP_put_loc | OP_set_loc
  | OP_get_arg | OP_put_arg | OP_set_arg | OP_get_var_ref | OP_put_var_ref
  | OP_set_var_ref | OP_set_loc_uninitialized | OP_get_loc_check
  | OP_put_loc_check | OP_put_loc_check_init | OP_get_var_ref_check
  | OP_put_var_ref_check | OP_put_var_ref_check_init | OP_close_loc
  | OP_if_false | OP_if_true | OP_goto | OP_catch | OP_gosub | OP_ret
  | OP_to_object | OP_to_propkey | OP_to_propkey2 | OP_with_get_var
  | OP_with_put_var | OP_with_delete_var | OP_with_make_ref
  | OP_with_get_ref | OP_with_get_ref_undef | OP_make_loc_ref
  | OP_make_arg_ref | OP_make_var_ref_ref | OP_make_var_ref
  | OP_for_in_start | OP_for_of_start | OP_for_await_of_start
  | OP_for_in_next | OP_for_of_next | OP_iterator_check_object
  | OP_iterator_get_value_done | OP_iterator_close
  | OP_iterator_close_return | OP_iterator_next | OP_iterator_call
  | OP_initial_yield | OP_yield | OP_yield_star | OP_async_yield_star
  | OP_await | OP_neg | OP_plus | OP_dec | OP_inc | OP_post_dec
  | OP_post_inc | OP_dec_loc | OP_inc_loc | OP_add_loc | OP_not | OP_lnot
  | OP_typeof | OP_delete | OP_delete_var | OP_mul | OP_div | OP_mod
  | OP_add | OP_sub | OP_pow | OP_shl | OP_sar | OP_shr | OP_lt | OP_lte
  | OP_gt | OP_gte | OP_instanceof | OP_in | OP_eq | OP_neq | OP_strict_eq
  | OP_strict_neq | OP_and | OP_xor | OP_or | OP_is_undefined_or_null
  | OP_nop | OP_push_minus1 | OP_push_0 | OP_push_1 | OP_push_2 | OP_push_3
  | OP_push_4 | OP_push_5 | OP_push_6 | OP_push_7 | OP_push_i8
  | OP_push_i16 | OP_push_const8 | OP_fclosure8 | OP_push_empty_string
  | OP_get_loc8 | OP_put_loc8 | OP_set_loc8 | OP_get_loc0 | OP_get_loc1
  | OP_get_loc2 | OP_get_loc3 | OP_put_loc0 | OP_put_loc1 | OP_put_loc2
  | OP_put_loc3 | OP_set_loc0 | OP_set_loc1 | OP_set_loc2 | OP_set_loc3
  | OP_get_arg0 | OP_get_arg1 | OP_get_arg2 | OP_get_arg3 | OP_put_arg0
  | OP_put_arg1 | OP_put_arg2 | OP_put_arg3 | OP_set_arg0 | OP_set_arg1
  | OP_set_arg2 | OP_set_arg3 | OP_get_var_ref0 | OP_get_var_ref1
  | OP_get_var_ref2 | OP_get_var_ref3 | OP_put_var_ref0 | OP_put_var_ref1
  | OP_put_var_ref2 | OP_put_var_ref3 | OP_set_var_ref0 | OP_set_var_ref1
  | OP_set_var_ref2 | OP_set_var_ref3 | OP_get_length | OP_if_false8
  | OP_if_true8 | OP_goto8 | OP_goto16 | OP_call0 | OP_call1 | OP_call2
  | OP_call3 | OP_is_undefined | OP_is_null | OP_typeof_is_undefined
  | OP_typeof_is_function.

(** The number of an opcode. *)
Definition op_num (op : OPCodeEnum) : Z :=
  match op with
  | OP_invalid => 0 | OP_push_i32 => 1 | OP_push_const => 2
  | OP_fclosure => 3 | OP_push_atom_value => 4 | OP_private_symbol => 5
  | OP_undefined => 6 | OP_null => 7 | OP_push_this => 8
  | OP_push_false => 9 | OP_push_true => 10 | OP_object => 11
  | OP_special_object => 12 | OP_rest => 13 | OP_drop => 14 | OP_nip => 15
  | OP_nip1 => 16 | OP_dup => 17 | OP_dup1 => 18 | OP_dup2 => 19
  | OP_dup3 => 20 | OP_insert2 => 21 | OP_insert3 => 22 | OP_insert4 => 23
  | OP_perm3 => 24 | OP_perm4 => 25 | OP_perm5 => 26 | OP_swap => 27
  | OP_swap2 => 28 | OP_rot3l => 29 | OP_rot3r => 30 | OP_rot4l => 31
  | OP_rot5l => 32 | OP_call_constructor => 33 | OP_call => 34
  | OP_tail_call => 35 | OP_call_method => 36 | OP_tail_call_method => 37
  | OP_array_from => 38 | OP_apply => 39 | OP_return => 40
  | OP_return_undef => 41 | OP_check_ctor_return => 42
  | OP_check_ctor => 43 | OP_check_brand => 44 | OP_add_brand => 45
  | OP_return_async => 46 | OP_throw => 47 | OP_throw_error => 48
  | OP_eval => 49 | OP_apply_eval => 50 | OP_regexp => 51
  | OP_get_super => 52 | OP_import => 53 | OP_check_var => 54
  | OP_get_var_undef => 55 | OP_get_var => 56 | OP_put_var => 57
  | OP_put_var_init => 58 | OP_put_var_strict => 59
  | OP_get_ref_value => 60 | OP_put_ref_value => 61 | OP_define_var => 62
  | OP_check_define_var => 63 | OP_define_func => 64 | OP_get_field => 65
  | OP_get_field2 => 66 | OP_put_field => 67 | OP_get_private_field => 68
  | OP_put_private_field => 69 | OP_define_private_field => 70
  | OP_get_array_el => 71 | OP_get_array_el2 => 72 | OP_put_array_el => 73
  | OP_get_super_value => 74 | OP_put_super_value => 75
  | OP_define_field => 76 | OP_set_name => 77 | OP_set_name_computed => 78
  | OP_set_proto => 79 | OP_set_home_object => 80
  | OP_define_array_el => 81 | OP_append => 82
  | OP_copy_data_properties => 83 | OP_define_method => 84
  | OP_define_method_computed => 85 | OP_define_class => 86
  | OP_define_class_computed => 87 | OP_get_loc => 88 | OP_put_loc => 89
  | OP_set_loc => 90 | OP_get_arg => 91 | OP_put_arg => 92
  | OP_set_arg => 93 | OP_get_var_ref => 94 | OP_put_var_ref => 95
  | OP_set_var_ref => 96 | OP_set_loc_uninitialized => 97
  | OP_get_loc_check => 98 | OP_put_loc_check => 99
  | OP_put_loc_check_init => 100 | OP_get_var_ref_check => 101
  | OP_put_var_ref_check => 102 | OP_put_var_ref_check_init => 103
  | OP_close_loc => 104 | OP_if_false => 105 | OP_if_true => 106
  | OP_goto => 107 | OP_catch => 108 | OP_gosub => 109 | OP_ret => 110
  | OP_to_object => 111 | OP_to_propkey => 112 | OP_to_propkey2 => 113
  | OP_with_get_var => 114 | OP_with_put_var => 115
  | OP_with_delete_var => 116 | OP_with_make_ref => 117
  | OP_with_get_ref => 118 | OP_with_get_ref_undef => 119
  | OP_make_loc_ref => 120 | OP_make_arg_ref => 121
  | OP_make_var_ref_ref => 122 | OP_make_var_ref => 123
  | OP_for_in_start => 124 | OP_for_of_start => 125
  | OP_for_await_of_start => 126 | OP_for_in_next => 127
  | OP_for_of_next => 128 | OP_iterator_check_object => 129
  | OP_iterator_get_value_done => 130 | OP_iterator_close => 131
  | OP_iterator_close_return => 132 | OP_iterator_next => 133
  | OP_iterator_call => 134 | OP_initial_yield => 135 | OP_yield => 136
  | OP_yield_star => 137 | OP_async_yield_star => 138 | OP_await => 139
  | OP_neg => 140 | OP_plus => 141 | OP_dec => 142 | OP_inc => 143
  | OP_post_dec => 144 | OP_post_inc => 145 | OP_dec_loc => 146
  | OP_inc_loc => 147 | OP_add_loc => 148 | OP_not => 149 | OP_lnot => 150
  | OP_typeof => 151 | OP_delete => 152 | OP_delete_var => 153
  | OP_mul => 154 | OP_div => 155 | OP_mod => 156 | OP_add => 157
  | OP_sub => 158 | OP_pow => 159 | OP_shl => 160 | OP_sar => 161
  | OP_shr => 162 | OP_lt => 163 | OP_lte => 164 | OP_gt => 165
  | OP_gte => 166 | OP_instanceof => 167 | OP_in => 168 | OP_eq => 169
  | OP_neq => 170 | OP_strict_eq => 171 | OP_strict_neq => 172
  | OP_and => 173 | OP_xor => 174 | OP_or => 175
  | OP_is_undefined_or_null => 176 | OP_nop => 177 | OP_push_minus1 => 178
  | OP_push_0 => 179 | OP_push_1 => 180 | OP_push_2 => 181
  | OP_push_3 => 182 | OP_push_4 => 183 | OP_push_5 => 184
  | OP_push_6 => 185 | OP_push_7 => 186 | OP_push_i8 => 187
  | OP_push_i16 => 188 | OP_push_const8 => 189 | OP_fclosure8 => 190
  | OP_push_empty_string => 191 | OP_get_loc8 => 192 | OP_put_loc8 => 193
  | OP_set_loc8 => 194 | OP_get_loc0 => 195 | OP_get_loc1 => 196
  | OP_get_loc2 => 197 | OP_get_loc3 => 198 | OP_put_loc0 => 199
  | OP_put_loc1 => 200 | OP_put_loc2 => 201 | OP_put_loc3 => 202
  | OP_set_loc0 => 203 | OP_set_loc1 => 204 | OP_set_loc2 => 205
  | OP_set_loc3 => 206 | OP_get_arg0 => 207 | OP_get_arg1 => 208
  | OP_get_arg2 => 209 | OP_get_arg3 => 210 | OP_put_arg0 => 211
  | OP_put_arg1 => 212 | OP_put_arg2 => 213 | OP_put_arg3 => 214
  | OP_set_arg0 => 215 | OP_set_arg1 => 216 | OP_set_arg2 => 217
  | OP_set_arg3 => 218 | OP_get_var_ref0 => 219 | OP_get_var_ref1 => 220
  | OP_get_var_ref2 => 221 | OP_get_var_ref3 => 222
  | OP_put_var_ref0 => 223 | OP_put_var_ref1 => 224
  | OP_put_var_ref2 => 225 | OP_put_var_ref3 => 226
  | OP_set_var_ref0 => 227 | OP_set_var_ref1 => 228
  | OP_set_var_ref2 => 229 | OP_set_var_ref3 => 230 | OP_get_length => 231
  | OP_if_false8 => 232 | OP_if_true8 => 233 | OP_goto8 => 234
  | OP_goto16 => 235 | OP_call0 => 236 | OP_call1 => 237 | OP_call2 => 238
  | OP_call3 => 239 | OP_is_undefined => 240 | OP_is_null => 241
  | OP_typeof_is_undefined => 242 | OP_typeof_is_function => 243
  end.

Record JSOpCode := mkOp {
  size : Z;                 (* in bytes *)
  (* the opcodes remove n_pop items from the top of the stack, then pushes
     n_push items *)
  n_pop : Z;
  n_push : Z;
  fmt : OPCodeFormat
}.

Definition opcode_info_stack : list (OPCodeEnum * JSOpCode) := [
  (OP_invalid, mkOp 1 0 0 OP_FMT_none);
  (OP_push_i32, mkOp 5 0 1 OP_FMT_i32);
  (OP_push_const, mkOp 5 0 1 OP_FMT_const);
  (OP_fclosure, mkOp 5 0 1 OP_FMT_const);
  (OP_push_atom_value, mkOp 5 0 1 OP_FMT_atom);
  (OP_private_symbol, mkOp 5 0 1 OP_FMT_atom);
  (OP_undefined, mkOp 1 0 1 OP_FMT_none);
  (OP_null, mkOp 1 0 1 OP_FMT_none);
  (OP_push_this, mkOp 1 0 1 OP_FMT_none);
  (OP_push_false, mkOp 1 0 1 OP_FMT_none);
  (OP_push_true, mkOp 1 0 1 OP_FMT_none);
  (OP_object, mkOp 1 0 1 OP_FMT_none);
  (OP_special_object, mkOp 2 0 1 OP_FMT_u8);
  (OP_rest, mkOp 3 0 1 OP_FMT_u16);
  (OP_drop, mkOp 1 1 0 OP_FMT_none);
  (OP_nip, mkOp 1 2 1 OP_FMT_none);
  (OP_nip1, mkOp 1 3 2 OP_FMT_none);
  (OP_dup, mkOp 1 1 2 OP_FMT_none);
  (OP_dup1, mkOp 1 2 3 OP_FMT_none);
  (OP_dup2, mkOp 1 2 4 OP_FMT_none);
  (OP_dup3, mkOp 1 3 6 OP_FMT_none);
  (OP_insert2, mkOp 1 2 3 OP_FMT_none);
  (OP_insert3, mkOp 1 3 4 OP_FMT_none);
  (OP_insert4, mkOp 1 4 5 OP_FMT_none);
  (OP_perm3, mkOp 1 3 3 OP_FMT_none);
  (OP_perm4, mkOp 1 4 4 OP_FMT_none);
  (OP_perm5, mkOp 1 5 5 OP_FMT_none);
  (OP_swap, mkOp 1 2 2 OP_FMT_none);
  (OP_swap2, mkOp 1 4 4 OP_FMT_none);
  (OP_rot3l, mkOp 1 3 3 OP_FMT_none);
  (OP_rot3r, mkOp 1 3 3 OP_FMT_none)].

Definition opcode_info_calls : list (OPCodeEnum * JSOpCode) := [
  (OP_rot4l, mkOp 1 4 4 OP_FMT_none);
  (OP_rot5l, mkOp 1 5 5 OP_FMT_none);
  (OP_call_constructor, mkOp 3 2 1 OP_FMT_npop);
  (OP_call, mkOp 3 1 1 OP_FMT_npop);
  (OP_tail_call, mkOp 3 1 0 OP_FMT_npop);
  (OP_call_method, mkOp 3 2 1 OP_FMT_npop);
  (OP_tail_call_method, mkOp 3 2 0 OP_FMT_npop);
  (OP_array_from, mkOp 3 0 1 OP_FMT_npop);
  (OP_apply, mkOp 3 3 1 OP_FMT_u16);
  (OP_return, mkOp 1 1 0 OP_FMT_none);
  (OP_return_undef, mkOp 1 0 0 OP_FMT_none);
  (OP_check_ctor_return, mkOp 1 1 2 OP_FMT_none);
  (OP_check_ctor, mkOp 1 0 0 OP_FMT_none);
  (OP_check_brand, mkOp 1 2 2 OP_FMT_none);
  (OP_add_brand, mkOp 1 2 0 OP_FMT_none);
  (OP_return_async, mkOp 1 1 0 OP_FMT_none);
  (OP_throw, mkOp 1 1 0 OP_FMT_none);
  (OP_throw_error, mkOp 6 0 0 OP_FMT_atom_u8);
  (OP_eval, mkOp 5 1 1 OP_FMT_npop_u16);
  (OP_apply_eval, mkOp 3 2 1 OP_FMT_u16);
  (OP_regexp, mkOp 1 2 1 OP_FMT_none);
  (OP_get_super, mkOp 1 1 1 OP_FMT_none);
  (OP_import, mkOp 1 1 1 OP_FMT_none);
  (OP_check_var, mkOp 5 0 1 OP_FMT_atom);
  (OP_get_var_undef, mkOp 5 0 1 OP_FMT_atom);
  (OP_get_var, mkOp 5 0 1 OP_FMT_atom);
  (OP_put_var, mkOp 5 1 0 OP_FMT_atom);
  (OP_put_var_init, mkOp 5 1 0 OP_FMT_atom);
  (OP_put_var_strict, mkOp 5 2 0 OP_FMT_atom);
  (OP_get_ref_value, mkOp 1 2 3 OP_FMT_none);
  (OP_put_ref_value, mkOp 1 3 0 OP_FMT_none);
  (OP_define_var, mkOp 6 0 0 OP_FMT_atom_u8);
  (OP_check_define_var, mkOp 6 0 0 OP_FMT_atom_u8);
  (OP_define_func, mkOp 6 1 0 OP_FMT_atom_u8);
  (OP_get_field, mkOp 5 1 1 OP_FMT_atom);
  (OP_get_field2, mkOp 5 1 2 OP_FMT_atom);
  (OP_put_field, mkOp 5 2 0 OP_FMT_atom);
  (OP_get_private_field, mkOp 1 2 1 OP_FMT_none);
  (OP_put_private_field, mkOp 1 3 0 OP_FMT_none);
  (OP_define_private_field, mkOp 1 3 1 OP_FMT_none);
  (OP_get_array_el, mkOp 1 2 1 OP_FMT_none);
  (OP_get_array_el2, mkOp 1 2 2 OP_FMT_none);
  (OP_put_array_el, mkOp 1 3 0 OP_FMT_none);
  (OP_get_super_value, mkOp 1 3 1 OP_FMT_none);
  (OP_put_super_value, mkOp 1 4 0 OP_FMT_none);
  (OP_define_field, mkOp 5 2 1 OP_FMT_atom);
  (OP_set_name, mkOp 5 1 1 OP_FMT_atom);
  (OP_set_name_computed, mkOp 1 2 2 OP_FMT_none);
  (OP_set_proto, mkOp 1 2 1 OP_FMT_none);
  (OP_set_home_object, mkOp 1 2 2 OP_FMT_none);
  (OP_define_array_el, mkOp 1 3 2 OP_FMT_none);
  (OP_append, mkOp 1 3 2 OP_FMT_none);
  (OP_copy_data_properties, mkOp 2 3 3 OP_FMT_u8);
  (OP_define_method, mkOp 6 2 1 OP_FMT_atom_u8);
  (OP_define_method_computed, mkOp 2 3 1 OP_FMT_u8)].

Definition opcode_info_vars : list (OPCodeEnum * JSOpCode) := [
  (OP_define_class, mkOp 6 2 2 OP_FMT_atom_u8);
  (OP_define_class_computed, mkOp 6 3 3 OP_FMT_atom_u8);
  (OP_get_loc, mkOp 3 0 1 OP_FMT_loc);
  (OP_put_loc, mkOp 3 1 0 OP_FMT_loc);
  (OP_set_loc, mkOp 3 1 1 OP_FMT_loc);
  (OP_get_arg, mkOp 3 0 1 OP_FMT_arg);
  (OP_put_arg, mkOp 3 1 0 OP_FMT_arg);
  (OP_set_arg, mkOp 3 1 1 OP_FMT_arg);
  (OP_get_var_ref, mkOp 3 0 1 OP_FMT_var_ref);
  (OP_put_var_ref, mkOp 3 1 0 OP_FMT_var_ref);
  (OP_set_var_ref, mkOp 3 1 1 OP_FMT_var_ref);
  (OP_set_loc_uninitialized, mkOp 3 0 0 OP_FMT_loc);
  (OP_get_loc_check, mkOp 3 0 1 OP_FMT_loc);
  (OP_put_loc_check, mkOp 3 1 0 OP_FMT_loc);
  (OP_put_loc_check_init, mkOp 3 1 0 OP_FMT_loc);
  (OP_get_var_ref_check, mkOp 3 0 1 OP_FMT_var_ref);
  (OP_put_var_ref_check, mkOp 3 1 0 OP_FMT_var_ref);
  (OP_put_var_ref_check_init, mkOp 3 1 0 OP_FMT_var_ref);
  (OP_close_loc, mkOp 3 0 0 OP_FMT_loc);
  (OP_if_false, mkOp 5 1 0 OP_FMT_label);
  (OP_if_true, mkOp 5 1 0 OP_FMT_label);
  (OP_goto, mkOp 5 0 0 OP_FMT_label);
  (OP_catch, mkOp 5 0 1 OP_FMT_label);
  (OP_gosub, mkOp 5 0 0 OP_FMT_label);
  (OP_ret, mkOp 1 1 0 OP_FMT_none);
  (OP_to_object, mkOp 1 1 1 OP_FMT_none);
  (OP_to_propkey, mkOp 1 1 1 OP_FMT_none);
  (OP_to_propkey2, mkOp 1 2 2 OP_FMT_none);
  (OP_with_get_var, mkOp 10 1 0 OP_FMT_atom_label_u8);
  (OP_with_put_var, mkOp 10 2 1 OP_FMT_atom_label_u8);
  (OP_with_delete_var, mkOp 10 1 0 OP_FMT_atom_label_u8);
  (OP_with_make_ref, mkOp 10 1 0 OP_FMT_atom_label_u8);
  (OP_with_get_ref, mkOp 10 1 0 OP_FMT_atom_label_u8);
  (OP_with_get_ref_undef, mkOp 10 1 0 OP_FMT_atom_label_u8);
  (OP_make_loc_ref, mkOp 7 0 2 OP_FMT_atom_u16);
  (OP_make_arg_ref, mkOp 7 0 2 OP_FMT_atom_u16);
  (OP_make_var_ref_ref, mkOp 7 0 2 OP_FMT_atom_u16);
  (OP_make_var_ref, mkOp 5 0 2 OP_FMT_atom);
  (OP_for_in_start, mkOp 1 1 1 OP_FMT_none);
  (OP_for_of_start, mkOp 1 1 3 OP_FMT_none);
  (OP_for_await_of_start, mkOp 1 1 3 OP_FMT_none);
  (OP_for_in_next, mkOp 1 1 3 OP_FMT_none);
  (OP_for_of_next, mkOp 2 3 5 OP_FMT_u8);
  (OP_iterator_check_object, mkOp 1 1 1 OP_FMT_none);
  (OP_iterator_get_value_done, mkOp 1 1 2 OP_FMT_none);
  (OP_iterator_close, mkOp 1 3 0 OP_FMT_none);
  (OP_iterator_close_return, mkOp 1 4 4 OP_FMT_none);
  (OP_iterator_next, mkOp 1 4 4 OP_FMT_none)].

Definition opcode_info_ops : list (OPCodeEnum * JSOpCode) := [
  (OP_iterator_call, mkOp 2 4 5 OP_FMT_u8);
  (OP_initial_yield, mkOp 1 0 0 OP_FMT_none);
  (OP_yield, mkOp 1 1 2 OP_FMT_none);
  (OP_yield_star, mkOp 1 1 2 OP_FMT_none);
  (OP_async_yield_star, mkOp 1 1 2 OP_FMT_none);
  (OP_await, mkOp 1 1 1 OP_FMT_none);
  (OP_neg, mkOp 1 1 1 OP_FMT_none);
  (OP_plus, mkOp 1 1 1 OP_FMT_none);
  (OP_dec, mkOp 1 1 1 OP_FMT_none);
  (OP_inc, mkOp 1 1 1 OP_FMT_none);
  (OP_post_dec, mkOp 1 1 2 OP_FMT_none);
  (OP_post_inc, mkOp 1 1 2 OP_FMT_none);
  (OP_dec_loc, mkOp 2 0 0 OP_FMT_loc8);
  (OP_inc_loc, mkOp 2 0 0 OP_FMT_loc8);
  (OP_add_loc, mkOp 2 1 0 OP_FMT_loc8);
  (OP_not, mkOp 1 1 1 OP_FMT_none);
  (OP_lnot, mkOp 1 1 1 OP_FMT_none);
  (OP_typeof, mkOp 1 1 1 OP_FMT_none);
  (OP_delete, mkOp 1 2 1 OP_FMT_none);
  (OP_delete_var, mkOp 5 0 1 OP_FMT_atom);
  (OP_mul, mkOp 1 2 1 OP_FMT_none);
  (OP_div, mkOp 1 2 1 OP_FMT_none);
  (OP_mod, mkOp 1 2 1 OP_FMT_none);
  (OP_add, mkOp 1 2 1 OP_FMT_none);
  (OP_sub, mkOp 1 2 1 OP_FMT_none);
  (OP_pow, mkOp 1 2 1 OP_FMT_none);
  (OP_shl, mkOp 1 2 1 OP_FMT_none);
  (OP_sar, mkOp 1 2 1 OP_FMT_none);
  (OP_shr, mkOp 1 2 1 OP_FMT_none);
  (OP_lt, mkOp 1 2 1 OP_FMT_none);
  (OP_lte, mkOp 1 2 1 OP_FMT_none);
  (OP_gt, mkOp 1 2 1 OP_FMT_none);
  (OP_gte, mkOp 1 2 1 OP_FMT_none);
  (OP_instanceof, mkOp 1 2 1 OP_FMT_none);
  (OP_in, mkOp 1 2 1 OP_FMT_none);
  (OP_eq, mkOp 1 2 1 OP_FMT_none);
  (OP_neq, mkOp 1 2 1 OP_FMT_none);
  (OP_strict_eq, mkOp 1 2 1 OP_FMT_none);
  (OP_strict_neq, mkOp 1 2 1 OP_FMT_none);
  (OP_and, mkOp 1 2 1 OP_FMT_none);
  (OP_xor, mkOp 1 2 1 OP_FMT_none);
  (OP_or, mkOp 1 2 1 OP_FMT_none);
  (OP_is_undefined_or_null, mkOp 1 1 1 OP_FMT_none);
  (OP_nop, mkOp 1 0 0 OP_FMT_none)].

(** Temporary opcodes: never emitted in the final bytecode. *)
Definition opcode_info_temp : list JSOpCode := [
  mkOp 3 0 0 OP_FMT_u16;
  mkOp 3 0 0 OP_FMT_u16;
  mkOp 5 0 0 OP_FMT_label;
  mkOp 7 0 1 OP_FMT_atom_u16;
  mkOp 7 0 1 OP_FMT_atom_u16;
  mkOp 7 1 0 OP_FMT_atom_u16;
  mkOp 7 0 1 OP_FMT_atom_u16;
  mkOp 11 0 2 OP_FMT_atom_label_u16;
  mkOp 7 0 2 OP_FMT_atom_u16;
  mkOp 7 0 2 OP_FMT_atom_u16;
  mkOp 7 1 1 OP_FMT_atom_u16;
  mkOp 7 1 2 OP_FMT_atom_u16;
  mkOp 7 1 1 OP_FMT_atom_u16;
  mkOp 5 1 1 OP_FMT_u32;
  mkOp 5 0 0 OP_FMT_u32].

Definition opcode_info_short : list (OPCodeEnum * JSOpCode) := [
  (OP_push_minus1, mkOp 1 0 1 OP_FMT_none_int);
  (OP_push_0, mkOp 1 0 1 OP_FMT_none_int);
  (OP_push_1, mkOp 1 0 1 OP_FMT_none_int);
  (OP_push_2, mkOp 1 0 1 OP_FMT_none_int);
  (OP_push_3, mkOp 1 0 1 OP_FMT_none_int);
  (OP_push_4, mkOp 1 0 1 OP_FMT_none_int);
  (OP_push_5, mkOp 1 0 1 OP_FMT_none_int);
  (OP_push_6, mkOp 1 0 1 OP_FMT_none_int);
  (OP_push_7, mkOp 1 0 1 OP_FMT_none_int);
  (OP_push_i8, mkOp 2 0 1 OP_FMT_i8);
  (OP_push_i16, mkOp 3 0 1 OP_FMT_i16);
  (OP_push_const8, mkOp 2 0 1 OP_FMT_const8);
  (OP_fclosure8, mkOp 2 0 1 OP_FMT_const8);
  (OP_push_empty_string, mkOp 1 0 1 OP_FMT_none);
  (OP_get_loc8, mkOp 2 0 1 OP_FMT_loc8);
  (OP_put_loc8, mkOp 2 1 0 OP_FMT_loc8);
  (OP_set_loc8, mkOp 2 1 1 OP_FMT_loc8);
  (OP_get_loc0, mkOp 1 0 1 OP_FMT_none_loc);
  (OP_get_loc1, mkOp 1 0 1 OP_FMT_none_loc);
  (OP_get_loc2, mkOp 1 0 1 OP_FMT_none_loc);
  (OP_get_loc3, mkOp 1 0 1 OP_FMT_none_loc);
  (OP_put_loc0, mkOp 1 1 0 OP_FMT_none_loc);
  (OP_put_loc1, mkOp 1 1 0 OP_FMT_none_loc);
  (OP_put_loc2, mkOp 1 1 0 OP_FMT_none_loc);
  (OP_put_loc3, mkOp 1 1 0 OP_FMT_none_loc);
  (OP_set_loc0, mkOp 1 1 1 OP_FMT_none_loc);
  (OP_set_loc1, mkOp 1 1 1 OP_FMT_none_loc);
  (OP_set_loc2, mkOp 1 1 1 OP_FMT_none_loc);
  (OP_set_loc3, mkOp 1 1 1 OP_FMT_none_loc);
  (OP_get_arg0, mkOp 1 0 1 OP_FMT_none_arg);
  (OP_get_arg1, mkOp 1 0 1 OP_FMT_none_arg);
  (OP_get_arg2, mkOp 1 0 1 OP_FMT_none_arg);
  (OP_get_arg3, mkOp 1 0 1 OP_FMT_none_arg);
  (OP_put_arg0, mkOp 1 1 0 OP_FMT_none_arg);
  (OP_put_arg1, mkOp 1 1 0 OP_FMT_none_arg);
  (OP_put_arg2, mkOp 1 1 0 OP_FMT_none_arg);
  (OP_put_arg3, mkOp 1 1 0 OP_FMT_none_arg);
  (OP_set_arg0, mkOp 1 1 1 OP_FMT_none_arg);
  (OP_set_arg1, mkOp 1 1 1 OP_FMT_none_arg);
  (OP_set_arg2, mkOp 1 1 1 OP_FMT_none_arg);
  (OP_set_arg3, mkOp 1 1 1 OP_FMT_none_arg);
  (OP_get_var_ref0, mkOp 1 0 1 OP_FMT_none_var_ref);
  (OP_get_var_ref1, mkOp 1 0 1 OP_FMT_none_var_ref);
  (OP_get_var_ref2, mkOp 1 0 1 OP_FMT_none_var_ref);
  (OP_get_var_ref3, mkOp 1 0 1 OP_FMT_none_var_ref);
  (OP_put_var_ref0, mkOp 1 1 0 OP_FMT_none_var_ref);
  (OP_put_var_ref1, mkOp 1 1 0 OP_FMT_none_var_ref);
  (OP_put_var_ref2, mkOp 1 1 0 OP_FMT_none_var_ref);
  (OP_put_var_ref3, mkOp 1 1 0 OP_FMT_none_var_ref);
  (OP_set_var_ref0, mkOp 1 1 1 OP_FMT_none_var_ref);
  (OP_set_var_ref1, mkOp 1 1 1 OP_FMT_none_var_ref);
  (OP_set_var_ref2, mkOp 1 1 1 OP_FMT_none_var_ref);
  (OP_set_var_ref3, mkOp 1 1 1 OP_FMT_none_var_ref);
  (OP_get_length, mkOp 1 1 1 OP_FMT_none);
  (OP_if_false8, mkOp 2 1 0 OP_FMT_label8);
  (OP_if_true8, mkOp 2 1 0 OP_FMT_label8);
  (OP_goto8, mkOp 2 0 0 OP_FMT_label8);
  (OP_goto16, mkOp 3 0 0 OP_FMT_label16);
  (OP_call0, mkOp 1 1 1 OP_FMT_npopx);
  (OP_call1, mkOp 1 1 1 OP_FMT_npopx);
  (OP_call2, mkOp 1 1 1 OP_FMT_npopx);
  (OP_call3, mkOp 1 1 1 OP_FMT_npopx);
  (OP_is_undefined, mkOp 1 1 1 OP_FMT_none);
  (OP_is_null, mkOp 1 1 1 OP_FMT_none);
  (OP_typeof_is_undefined, mkOp 1 1 1 OP_FMT_none);
  (OP_typeof_is_function, mkOp 1 1 1 OP_FMT_none)].

(** The final opcodes with their descriptions, by number. *)
Definition opcode_info_main : list (OPCodeEnum * JSOpCode) :=
  opcode_info_stack ++ opcode_info_calls ++ opcode_info_vars
  ++ opcode_info_ops.
Definition opcode_list : list (OPCodeEnum * JSOpCode) :=
  opcode_info_main ++ opcode_info_short.

Definition opcode_info : list JSOpCode :=
  (snd <$> opcode_info_main) ++ opcode_info_temp ++ (snd <$> opcode_info_short).

Definition OP_COUNT : Z := 244.
Definition OP_TEMP_START : Z := 178.
Definition OP_TEMP_END : Z := 193.

Definition short_opcode_info (op : Z) : res JSOpCode :=
  rd opcode_info
    (if OP_TEMP_START <=? op then op + (OP_TEMP_END - OP_TEMP_START) else op).

(** The opcode of a number of the final bytecode. *)
Definition opcode_of (op : Z) : option OPCodeEnum :=
  if op <? 0 then None else fst <$> opcode_list !! Z.to_nat op.

Lemma opcode_of_num op : opcode_of (op_num op) = Some op.
Proof. by destruct op. Qed.

#[export] Instance op_num_inj : Inj (=) (=) op_num.
Proof.
  intros o1 o2 H. pose proof (opcode_of_num o1) as H1.
  rewrite H, opcode_of_num in H1. by injection H1.
Qed.

#[export] Instance OPCodeEnum_eq_dec : EqDecision OPCodeEnum.
Proof.
  intros o1 o2. destruct (decide (op_num o1 = op_num o2)) as [E|E].
  - left. by apply op_num_inj.
  - right. congruence.
Defined.
