(* ===== verification/Values.v ===== *)
(** * Values ([quickjs.h]): tags, unions and doubles

    A [JSValue] is a tag with the member of the union that the tag makes
    live (the layout without NaN boxing, which the 64-bit targets use).  A
    double is a [spec_float]: the binary64 numbers with one NaN. *)

From stdpp Require Import base tactics numbers list option.
From Stdlib Require Import ZArith Lia SpecFloat.
From S2P Require Import Prelude.

Open Scope Z_scope.

(** ** Doubles *)

Definition prec : Z := 53.
Definition emax : Z := 1024.

Definition f64_of_Z (z : Z) : spec_float := binary_normalize prec emax z 0 false.
Definition f64_add : spec_float -> spec_float -> spec_float := SFadd prec emax.
Definition f64_sub : spec_float -> spec_float -> spec_float := SFsub prec emax.
Definition f64_mul : spec_float -> spec_float -> spec_float := SFmul prec emax.
Definition f64_div : spec_float -> spec_float -> spec_float := SFdiv prec emax.
Definition f64_neg : spec_float -> spec_float := SFopp.
Definition f64_eqb : spec_float -> spec_float -> bool := SFeqb.
Definition f64_ltb : spec_float -> spec_float -> bool := SFltb.
Definition f64_leb : spec_float -> spec_float -> bool := SFleb.

Definition isnan (d : spec_float) : bool :=
  match d with S754_nan => true | _ => false end.
Definition isfinite (d : spec_float) : bool :=
  match d with S754_nan | S754_infinity _ => false | _ => true end.

(** The integer part, toward zero; [None] for the numbers without one. *)
Definition f64_trunc (d : spec_float) : option Z :=
  match d with
  | S754_zero _ => Some 0
  | S754_infinity _ | S754_nan => None
  | S754_finite s m e =>
      let a := if 0 <=? e then Z.pos m * 2 ^ e else Z.pos m / 2 ^ (- e) in
      Some (if s : bool then - a else a)
  end.

#[export] Instance spec_float_eq_dec : EqDecision spec_float.
Proof. solve_decision. Defined.

(** ** Tags and values *)

Definition JS_TAG_FIRST : Z := -11.
Definition JS_TAG_SYMBOL : Z := -8.
Definition JS_TAG_STRING : Z := -7.
Definition JS_TAG_MODULE : Z := -3.
Definition JS_TAG_FUNCTION_BYTECODE : Z := -2.
Definition JS_TAG_OBJECT : Z := -1.
Definition JS_TAG_INT : Z := 0.
Definition JS_TAG_BOOL : Z := 1.
Definition JS_TAG_NULL : Z := 2.
Definition JS_TAG_UNDEFINED : Z := 3.
Definition JS_TAG_UNINITIALIZED : Z := 4.
Definition JS_TAG_CATCH_OFFSET : Z := 5.
Definition JS_TAG_EXCEPTION : Z := 6.
Definition JS_TAG_FLOAT64 : Z := 7.

(** The tags of the values with a reference count. *)
Inductive ptr_tag :=
  | PTR_BIG_DECIMAL | PTR_BIG_INT | PTR_BIG_FLOAT | PTR_SYMBOL | PTR_STRING
  | PTR_MODULE | PTR_FUNCTION_BYTECODE | PTR_OBJECT.

Definition ptr_tag_Z (t : ptr_tag) : Z :=
  match t with
  | PTR_BIG_DECIMAL => -11 | PTR_BIG_INT => -10 | PTR_BIG_FLOAT => -9
  | PTR_SYMBOL => JS_TAG_SYMBOL | PTR_STRING => JS_TAG_STRING
  | PTR_MODULE => JS_TAG_MODULE
  | PTR_FUNCTION_BYTECODE => JS_TAG_FUNCTION_BYTECODE
  | PTR_OBJECT => JS_TAG_OBJECT
  end.

#[export] Instance ptr_tag_eq_dec : EqDecision ptr_tag.
Proof. solve_decision. Defined.

(** The tags without a pointer are the constructors; a value with a
    reference count keeps its tag. *)
Inductive JSValue :=
  | JS_INT (n : Z)
  | JS_BOOL (b : bool)
  | JS_NULL
  | JS_UNDEFINED
  | JS_UNINITIALIZED
  | JS_CATCH_OFFSET (pos : Z)
  | JS_EXCEPTION
  | JS_FLOAT64 (d : spec_float)
  | JS_MKPTR (tag : ptr_tag) (p : Z).

Abbreviation JS_TRUE := (JS_BOOL true).
Abbreviation JS_FALSE := (JS_BOOL false).

#[export] Instance JSValue_eq_dec : EqDecision JSValue.
Proof. solve_decision. Defined.

Definition JS_VALUE_GET_TAG (v : JSValue) : Z :=
  match v with
  | JS_INT _ => JS_TAG_INT
  | JS_BOOL _ => JS_TAG_BOOL
  | JS_NULL => JS_TAG_NULL
  | JS_UNDEFINED => JS_TAG_UNDEFINED
  | JS_UNINITIALIZED => JS_TAG_UNINITIALIZED
  | JS_CATCH_OFFSET _ => JS_TAG_CATCH_OFFSET
  | JS_EXCEPTION => JS_TAG_EXCEPTION
  | JS_FLOAT64 _ => JS_TAG_FLOAT64
  | JS_MKPTR tag _ => ptr_tag_Z tag
  end.

Definition JS_VALUE_HAS_REF_COUNT (v : JSValue) : bool :=
  match v with JS_MKPTR _ _ => true | _ => false end.

(** The [int32] member; reading it where another member was written is not
    something the model gives a meaning to. *)
Definition JS_VALUE_GET_INT (v : JSValue) : res Z :=
  match v with
  | JS_INT n => Ret n
  | JS_BOOL b => Ret (if b then 1 else 0)
  | JS_CATCH_OFFSET p => Ret p
  | JS_FLOAT64 _ | JS_MKPTR _ _ => Ub
  | _ => Ret 0
  end.

Definition JS_IsException (v : JSValue) : bool :=
  match v with JS_EXCEPTION => true | _ => false end.
Definition JS_IsUndefined (v : JSValue) : bool :=
  match v with JS_UNDEFINED => true | _ => false end.
Definition JS_IsNull (v : JSValue) : bool :=
  match v with JS_NULL => true | _ => false end.
Definition JS_IsUninitialized (v : JSValue) : bool :=
  match v with JS_UNINITIALIZED => true | _ => false end.
Definition JS_IsObject (v : JSValue) : bool :=
  JS_VALUE_GET_TAG v =? JS_TAG_OBJECT.
Definition JS_IsString (v : JSValue) : bool :=
  JS_VALUE_GET_TAG v =? JS_TAG_STRING.

Definition JS_NewBool (b : bool) : JSValue := JS_BOOL b.
Definition JS_NewInt32 (n : Z) : JSValue := JS_INT (i32 n).
Definition JS_NewCatchOffset (n : Z) : JSValue := JS_CATCH_OFFSET (i32 n).
Definition JS_NewInt64 (n : Z) : JSValue :=
  if n =? i32 n then JS_NewInt32 n else JS_FLOAT64 (f64_of_Z n).
Definition JS_NewUint32 (n : Z) : JSValue :=
  if n <=? 0x7fffffff then JS_NewInt32 n else JS_FLOAT64 (f64_of_Z n).

(** The conversion of a double that no [int32_t] holds is not defined by C;
    the targets give one of the [int32_t] values, [oor d]. *)
Definition int32_of_f64 (oor : spec_float -> Z) (d : spec_float) : Z :=
  match f64_trunc d with
  | Some z => if (- 2 ^ 31 <=? z) && (z <? 2 ^ 31) then z else i32 (oor d)
  | None => i32 (oor d)
  end.

(** -0 cannot be represented as integer: the bits are compared. *)
Definition JS_NewFloat64 (oor : spec_float -> Z) (d : spec_float) : JSValue :=
  let val := int32_of_f64 oor d in
  if decide (f64_of_Z val = d) then JS_INT val else JS_FLOAT64 d.
