(* ===== verification/FloatSpec.v ===== *)
(** * Doubles that hold integers

    Facts on binary64 ([SpecFloat]) that the arithmetic of the engine relies
    on: the rounding of [m * 2^e] depends on the number only, an integer below
    [2^53] is exact, and sums, products and comparisons of such doubles are
    those of the integers. *)

From stdpp Require Import base tactics numbers list option.
From Stdlib Require Import ZArith Lia SpecFloat.
From S2P Require Import Prelude Values.

Open Scope Z_scope.

(** ** Digits and shifts *)

Lemma digits2_log2 p : Z.pos (digits2_pos p) = Z.log2 (Z.pos p) + 1.
Proof.
  induction p as [p IH|p IH|]; cbn [digits2_pos]; [| |done].
  - rewrite Pos2Z.inj_succ, IH, Pos2Z.inj_xI, Z.log2_succ_double by lia. lia.
  - rewrite Pos2Z.inj_succ, IH, Pos2Z.inj_xO, Z.log2_double by lia. lia.
Qed.

Lemma log2_scale m k : 0 < m -> 0 <= k -> Z.log2 (m * 2 ^ k) = Z.log2 m + k.
Proof. intros. by rewrite Z.log2_mul_pow2 by lia; lia. Qed.

Lemma iter_pos_nat {A} (f : A -> A) p x : iter_pos f p x = Nat.iter (Pos.to_nat p) f x.
Proof.
  revert x. induction p as [p IH|p IH|]; intros x; cbn [iter_pos]; [| |done].
  - rewrite !IH, <- Nat.iter_add, Pos2Nat.inj_xI.
    replace (S (2 * Pos.to_nat p)) with (S (Pos.to_nat p + Pos.to_nat p)) by lia.
    by rewrite Nat.iter_succ_r.
  - rewrite !IH, <- Nat.iter_add, Pos2Nat.inj_xO. f_equal. lia.
Qed.

Abbreviation exact m := (Build_shr_record m false false).

Lemma shr_1_even m : 0 <= m -> shr_1 (exact (2 * m)) = exact m.
Proof. by destruct m; [done|done|lia]. Qed.

Lemma shr_exact k : forall m, 0 <= m ->
  Nat.iter k shr_1 (exact (m * 2 ^ Z.of_nat k)) = exact m.
Proof.
  induction k as [|k IH]; intros m Hm; [cbn; f_equal; lia|].
  rewrite Nat.iter_succ_r, Nat2Z.inj_succ, Z.pow_succ_r by lia.
  replace (m * (2 * 2 ^ Z.of_nat k)) with (2 * (m * 2 ^ Z.of_nat k)) by ring.
  rewrite shr_1_even by nia. by apply IH.
Qed.

Lemma iter_xO m k : Z.pos (Pos.iter xO m k) = Z.pos m * 2 ^ Z.pos k.
Proof.
  revert m. induction k as [|k IH] using Pos.peano_ind; intros m; [cbn; lia|].
  rewrite Pos.iter_succ, Pos2Z.inj_xO, IH, Pos2Z.inj_succ, Z.pow_succ_r by lia. ring.
Qed.

Lemma shl_align_spec m e e' :
  let '(mz, ez) := shl_align m e e' in
  ez = Z.min e e' /\ Z.pos mz = Z.pos m * 2 ^ (e - ez).
Proof.
  unfold shl_align. destruct (e' - e) as [|d|d] eqn:E.
  - split; [lia|]. replace (e - e) with 0 by lia. lia.
  - split; [lia|]. replace (e - e) with 0 by lia. lia.
  - rewrite iter_xO. split; [lia|]. do 2 f_equal. lia.
Qed.

(** ** Rounding *)

Abbreviation fexp64 := (fexp prec emax).

Lemma fexp64_max e : fexp64 e = Z.max (e - 53) (-1074).
Proof. done. Qed.

Lemma shr_fexp_spec m e f :
  0 < m -> f = fexp64 (Z.log2 m + 1 + e) ->
  shr_fexp prec emax m e loc_Exact
  = if f <=? e then (exact m, e) else (Nat.iter (Z.to_nat (f - e)) shr_1 (exact m), f).
Proof.
  intros Hm Hf. unfold shr_fexp, shr, shr_record_of_loc.
  replace (fexp64 (Zdigits2 m + e) - e) with (f - e).
  2:{ subst f. destruct m as [|p|p]; try lia. cbn [Zdigits2].
      by rewrite digits2_log2. }
  destruct (Z.leb_spec f e); destruct (f - e) as [|p|p] eqn:E; try lia; try done.
  rewrite iter_pos_nat. f_equal. lia.
Qed.

(** The first step of the rounding of [m * 2^e]: the mantissa at the final
    exponent, with what was shifted out. *)
Definition aligned (m : positive) (e : Z) : shr_record * Z :=
  let '(mz, ez) := shl_align m e (fexp64 (Z.pos (digits2_pos m) + e)) in
  shr_fexp prec emax (Z.pos mz) ez loc_Exact.

Lemma aligned_spec m e f :
  f = fexp64 (Z.log2 (Z.pos m) + 1 + e) ->
  aligned m e
  = if f <=? e then (exact (Z.pos m * 2 ^ (e - f)), f)
    else (Nat.iter (Z.to_nat (f - e)) shr_1 (exact (Z.pos m)), f).
Proof.
  intros Hf. unfold aligned. rewrite digits2_log2, <- Hf.
  pose proof (shl_align_spec m e f) as Hs.
  destruct (shl_align m e f) as [mz ez]. destruct Hs as [Hez Hmz].
  rewrite (shr_fexp_spec _ _ f); [|done|].
  2:{ rewrite Hmz, log2_scale by lia. rewrite Hf. f_equal. lia. }
  rewrite Hmz. subst ez. destruct (Z.leb_spec f e).
  - rewrite Z.min_r by lia. by rewrite Z.leb_refl.
  - rewrite Z.min_l by lia. rewrite (proj2 (Z.leb_gt f e)) by lia.
    by rewrite Z.sub_diag, Z.pow_0_r, Z.mul_1_r.
Qed.

Lemma aligned_scale m m' e k :
  0 <= k -> Z.pos m' = Z.pos m * 2 ^ k -> aligned m' e = aligned m (e + k).
Proof.
  intros Hk Hm'.
  rewrite (aligned_spec m (e + k) _ eq_refl).
  rewrite (aligned_spec m' e (fexp64 (Z.log2 (Z.pos m) + 1 + (e + k)))).
  2:{ rewrite Hm', log2_scale by lia. f_equal. lia. }
  generalize (fexp64 (Z.log2 (Z.pos m) + 1 + (e + k))). intros f. rewrite Hm'.
  destruct (Z.leb_spec f e), (Z.leb_spec f (e + k)); try lia.
  - do 2 f_equal. rewrite <- Z.mul_assoc, <- Z.pow_add_r by lia. do 2 f_equal. lia.
  - f_equal. rewrite <- (shr_exact (Z.to_nat (f - e)) (Z.pos m * 2 ^ (e + k - f))).
    + do 2 f_equal. rewrite <- Z.mul_assoc, <- Z.pow_add_r by lia. do 2 f_equal. lia.
    + apply Z.mul_nonneg_nonneg; [lia|]. apply Z.pow_nonneg. lia.
  - f_equal. replace (Z.to_nat (f - e)) with (Z.to_nat (f - (e + k)) + Z.to_nat k)%nat by lia.
    rewrite Nat.iter_add. f_equal.
    rewrite <- (Z2Nat.id k) at 2 by lia. by apply shr_exact.
Qed.

(** The rest of the rounding. *)
Definition rounded (s : bool) (r : shr_record * Z) : spec_float :=
  let '(mrs, e) := r in
  let '(mrs', e') := shr_fexp prec emax
    (round_nearest_even (shr_m mrs) (loc_of_shr_record mrs)) e loc_Exact in
  match shr_m mrs' with
  | Z0 => S754_zero s
  | Zpos m => if e' <=? emax - prec then S754_finite s m e' else S754_infinity s
  | _ => S754_nan
  end.

Lemma binary_round_rounded s m e :
  binary_round prec emax s m e = rounded s (aligned m e).
Proof.
  unfold binary_round, aligned. destruct (shl_align _ _ _) as [mz ez]. done.
Qed.

Lemma round_scale s m m' e k :
  0 <= k -> Z.pos m' = Z.pos m * 2 ^ k ->
  binary_round prec emax s m' e = binary_round prec emax s m (e + k).
Proof. intros. by rewrite !binary_round_rounded, (aligned_scale m m' e k). Qed.

Lemma round_aux_round s m e :
  fexp64 (Z.log2 (Z.pos m) + 1 + e) >= e ->
  binary_round_aux prec emax s (Z.pos m) e loc_Exact = binary_round prec emax s m e.
Proof.
  intros H. unfold binary_round. rewrite digits2_log2.
  unfold shl_align. destruct (_ - e) eqn:E; [done|done|lia].
Qed.

(** [binary_normalize] of a scaled integer. *)
Lemma normalize_scale n k z :
  0 <= k -> binary_normalize prec emax (n * 2 ^ k) (- k) z
            = binary_normalize prec emax n 0 z.
Proof.
  intros Hk. assert (0 < 2 ^ k) by (apply Z.pow_pos_nonneg; lia).
  destruct n as [|p|p]; [by rewrite Z.mul_0_l| |].
  - destruct (Z.pos p * 2 ^ k) as [|q|q] eqn:E; [lia| |lia]. cbn [binary_normalize].
    rewrite (round_scale false p q (- k) k) by done. f_equal. lia.
  - destruct (Z.neg p * 2 ^ k) as [|q|q] eqn:E; [lia|lia|]. cbn [binary_normalize].
    rewrite (round_scale true p q (- k) k) by lia. f_equal. lia.
Qed.

(** ** Integers below [2^53] *)

(** The mantissa and the exponent of [n]. *)
Definition int_exp (n : Z) : Z := Z.log2 (Z.abs n) - 52.

Lemma int_exp_bounds n : 0 < Z.abs n < 2 ^ 53 ->
  -52 <= int_exp n <= 0 /\ 2 ^ 52 <= Z.abs n * 2 ^ (- int_exp n) < 2 ^ 53.
Proof.
  intros H. unfold int_exp.
  pose proof (Z.log2_spec (Z.abs n) ltac:(lia)) as [H1 H2].
  pose proof (Z.log2_nonneg (Z.abs n)).
  assert (Z.log2 (Z.abs n) < 53) by (apply Z.log2_lt_pow2; lia).
  set (l := Z.log2 (Z.abs n)) in *. replace (- (l - 52)) with (52 - l) by lia.
  split; [lia|].
  replace (2 ^ 52) with (2 ^ l * 2 ^ (52 - l)) by (rewrite <- Z.pow_add_r by lia; f_equal; lia).
  replace (2 ^ 53) with (2 ^ Z.succ l * 2 ^ (52 - l))
    by (rewrite <- Z.pow_add_r by lia; f_equal; lia).
  assert (0 < 2 ^ (52 - l)) by (apply Z.pow_pos_nonneg; lia). nia.
Qed.

Lemma f64_of_Z_0 : f64_of_Z 0 = S754_zero false.
Proof. done. Qed.

Lemma round_int s p :
  Z.pos p < 2 ^ 53 ->
  exists m, binary_round prec emax s p 0 = S754_finite s m (int_exp (Z.pos p))
            /\ Z.pos m = Z.pos p * 2 ^ (- int_exp (Z.pos p)).
Proof.
  intros Hp. pose proof (int_exp_bounds (Z.pos p) ltac:(lia)) as [Hb1 Hb2].
  rewrite Z.abs_eq in Hb2 by lia. set (e := int_exp (Z.pos p)) in *.
  pose proof (Z.log2_nonneg (Z.pos p)).
  destruct (Z.pos p * 2 ^ (- e)) as [|m|m] eqn:Em; try lia.
  exists m. split; [|done].
  rewrite binary_round_rounded, (aligned_spec p 0 e).
  2:{ rewrite fexp64_max. unfold e, int_exp. rewrite Z.abs_eq by lia. lia. }
  rewrite (proj2 (Z.leb_le e 0)) by lia. replace (0 - e) with (- e) by lia. rewrite Em.
  unfold rounded. cbn [shr_m loc_of_shr_record round_nearest_even].
  rewrite (shr_fexp_spec _ _ e); [|done|].
  2:{ rewrite <- Em, log2_scale by lia. rewrite fexp64_max.
      unfold e, int_exp. rewrite Z.abs_eq by lia. lia. }
  rewrite Z.leb_refl. cbn [shr_m]. rewrite (proj2 (Z.leb_le _ _)); [done|].
  unfold emax, prec. lia.
Qed.

(** An integer as a double: its sign, a mantissa of 53 bits. *)
Lemma f64_of_int n : 0 < Z.abs n < 2 ^ 53 ->
  exists m, f64_of_Z n = S754_finite (n <? 0) m (int_exp n)
            /\ Z.pos m = Z.abs n * 2 ^ (- int_exp n).
Proof.
  intros H. unfold f64_of_Z. destruct n as [|p|p]; [lia| |].
  - destruct (round_int false p) as (m & E1 & E2); [lia|]. by exists m.
  - destruct (round_int true p) as (m & E1 & E2); [lia|]. by exists m.
Qed.

(** ** Operations *)

(** An integer as a signed mantissa at any smaller exponent. *)
Lemma int_at_exp n m k :
  Z.pos m = Z.abs n * 2 ^ (- int_exp n) -> int_exp n <= 0 ->
  - k <= int_exp n ->
  cond_Zopp (n <? 0) (Z.pos (fst (shl_align m (int_exp n) (- k)))) = n * 2 ^ k.
Proof.
  intros Hm He Hk. pose proof (shl_align_spec m (int_exp n) (- k)) as Hs.
  destruct (shl_align m (int_exp n) (- k)) as [mz ez]. destruct Hs as [-> Hs].
  cbn [fst]. rewrite Z.min_r in Hs by lia.
  assert (E : Z.pos mz = Z.abs n * 2 ^ k).
  { rewrite Hs, Hm, <- Z.mul_assoc, <- Z.pow_add_r by lia. do 2 f_equal. lia. }
  unfold cond_Zopp. rewrite E. destruct (Z.ltb_spec n 0); nia.
Qed.

Lemma f64_of_int_cases n : Z.abs n < 2 ^ 53 ->
  n = 0 \/ (n <> 0 /\ exists m, f64_of_Z n = S754_finite (n <? 0) m (int_exp n)
                /\ Z.pos m = Z.abs n * 2 ^ (- int_exp n)
                /\ -52 <= int_exp n <= 0 /\ 2 ^ 52 <= Z.pos m < 2 ^ 53).
Proof.
  intros H. destruct (decide (n = 0)) as [E|E]; [by left|right]. split; [done|].
  destruct (f64_of_int n) as (m & H1 & H2); [lia|]. exists m.
  pose proof (int_exp_bounds n ltac:(lia)) as [H3 H4]. rewrite <- H2 in H4. done.
Qed.

Lemma f64_add_int a b : Z.abs a < 2 ^ 53 -> Z.abs b < 2 ^ 53 ->
  f64_add (f64_of_Z a) (f64_of_Z b) = f64_of_Z (a + b).
Proof.
  intros Ha Hb.
  destruct (f64_of_int_cases a Ha) as [->|(Ha0 & ma & Ea & Hma & Hea & _)].
  { rewrite f64_of_Z_0, Z.add_0_l.
    destruct (f64_of_int_cases b Hb) as [->|(_ & mb & Eb & _)]; [done|by rewrite Eb]. }
  destruct (f64_of_int_cases b Hb) as [->|(Hb0 & mb & Eb & Hmb & Heb & _)].
  { by rewrite f64_of_Z_0, Z.add_0_r, Ea. }
  rewrite Ea, Eb. unfold f64_add, SFadd.
  set (ez := Z.min (int_exp a) (int_exp b)).
  replace ez with (- (- ez)) by lia.
  rewrite (int_at_exp a ma), (int_at_exp b mb) by (done || lia).
  rewrite <- Z.mul_add_distr_r, normalize_scale by lia. done.
Qed.

Lemma f64_sub_int a b : Z.abs a < 2 ^ 53 -> Z.abs b < 2 ^ 53 ->
  f64_sub (f64_of_Z a) (f64_of_Z b) = f64_of_Z (a - b).
Proof.
  intros Ha Hb.
  destruct (f64_of_int_cases b Hb) as [->|(Hb0 & mb & Eb & Hmb & Heb & _)].
  { rewrite f64_of_Z_0, Z.sub_0_r.
    by destruct (f64_of_int_cases a Ha) as [->|(_ & ma & -> & _)]. }
  destruct (f64_of_int_cases a Ha) as [->|(Ha0 & ma & Ea & Hma & Hea & _)].
  { rewrite f64_of_Z_0, Eb, Z.sub_0_l. unfold f64_sub, SFsub.
    destruct (f64_of_int_cases (- b)) as [E|(_ & m & -> & Hm & _)]; [lia|lia|].
    assert (Ee : int_exp (- b) = int_exp b) by (unfold int_exp; by rewrite Z.abs_opp).
    rewrite Ee, Z.abs_opp in *. assert (m = mb) as -> by lia.
    f_equal. destruct (Z.ltb_spec b 0), (Z.ltb_spec (- b) 0); lia || done. }
  rewrite Ea, Eb. unfold f64_sub, SFsub.
  set (ez := Z.min (int_exp a) (int_exp b)).
  replace ez with (- (- ez)) by lia.
  rewrite (int_at_exp a ma), (int_at_exp b mb) by (done || lia).
  rewrite <- Z.mul_sub_distr_r, normalize_scale by lia. done.
Qed.

(** The product is the rounding of the product of the integers, with the
    sign of a zero. *)
Lemma f64_mul_int a b : Z.abs a < 2 ^ 53 -> Z.abs b < 2 ^ 53 ->
  f64_mul (f64_of_Z a) (f64_of_Z b)
  = if (a * b =? 0) then S754_zero (xorb (a <? 0) (b <? 0)) else f64_of_Z (a * b).
Proof.
  intros Ha Hb.
  destruct (f64_of_int_cases a Ha) as [->|(Ha0 & ma & Ea & Hma & Hea & Hla)].
  { rewrite f64_of_Z_0, Z.mul_0_l.
    by destruct (f64_of_int_cases b Hb) as [->|(_ & mb & -> & _)]. }
  destruct (f64_of_int_cases b Hb) as [->|(Hb0 & mb & Eb & Hmb & Heb & Hlb)].
  { rewrite f64_of_Z_0, Z.mul_0_r, Ea. cbn. by rewrite xorb_false_r. }
  rewrite (proj2 (Z.eqb_neq (a * b) 0)) by lia.
  rewrite Ea, Eb. unfold f64_mul, SFmul.
  assert (Hl : 104 <= Z.log2 (Z.pos (ma * mb))).
  { apply Z.log2_le_pow2; [lia|]. rewrite Pos2Z.inj_mul.
    replace (2 ^ 104) with (2 ^ 52 * 2 ^ 52) by done. nia. }
  rewrite round_aux_round by (rewrite fexp64_max; lia).
  set (k := - (int_exp a + int_exp b)).
  assert (Hk : 0 <= k) by (unfold k; lia).
  assert (E : Z.pos (ma * mb) = Z.abs (a * b) * 2 ^ k).
  { rewrite Pos2Z.inj_mul, Hma, Hmb, Z.abs_mul. unfold k.
    rewrite Z.opp_add_distr, Z.pow_add_r by lia. ring. }
  replace (int_exp a + int_exp b) with (- k) by (unfold k; lia).
  unfold f64_of_Z, binary_normalize. destruct (a * b) as [|p|p] eqn:Ep; [lia| |];
    rewrite (round_scale _ p (ma * mb) (- k) k) by (done || lia); f_equal; try lia.
  - destruct (Z.ltb_spec a 0), (Z.ltb_spec b 0); try done; nia.
  - destruct (Z.ltb_spec a 0), (Z.ltb_spec b 0); try done; nia.
Qed.

Lemma int_exp_mono a b : 0 < Z.abs a -> Z.abs a <= Z.abs b -> int_exp a <= int_exp b.
Proof. intros. unfold int_exp. pose proof (Z.log2_le_mono (Z.abs a) (Z.abs b)). lia. Qed.

(** The comparison of the mantissas of numbers of the same sign. *)
Lemma int_compare_abs a b ma mb :
  0 < Z.abs a < 2 ^ 53 -> 0 < Z.abs b < 2 ^ 53 ->
  Z.pos ma = Z.abs a * 2 ^ (- int_exp a) -> Z.pos mb = Z.abs b * 2 ^ (- int_exp b) ->
  match Z.compare (int_exp a) (int_exp b) with
  | Lt => Lt | Gt => Gt | Eq => Pos.compare_cont Eq ma mb
  end = Z.compare (Z.abs a) (Z.abs b).
Proof.
  intros Ha Hb Hma Hmb. destruct (Z.compare_spec (int_exp a) (int_exp b)) as [E|E|E].
  - rewrite E in Hma. fold (Pos.compare ma mb).
    change (Pos.compare ma mb) with (Z.compare (Z.pos ma) (Z.pos mb)).
    pose proof (int_exp_bounds b Hb) as [Hbb _].
    rewrite Hma, Hmb. symmetry. apply Zmult_compare_compat_r.
    apply Z.lt_gt, Z.pow_pos_nonneg; lia.
  - symmetry. apply Z.compare_lt_iff. destruct (Z.lt_ge_cases (Z.abs a) (Z.abs b)); [done|].
    pose proof (int_exp_mono b a). lia.
  - symmetry. apply Z.compare_gt_iff. destruct (Z.lt_ge_cases (Z.abs b) (Z.abs a)); [done|].
    pose proof (int_exp_mono a b). lia.
Qed.

Lemma SFcompare_int a b : Z.abs a < 2 ^ 53 -> Z.abs b < 2 ^ 53 ->
  SFcompare (f64_of_Z a) (f64_of_Z b) = Some (Z.compare a b).
Proof.
  intros Ha Hb.
  destruct (f64_of_int_cases a Ha) as [->|(Ha0 & ma & Ea & Hma & Hea & _)];
  destruct (f64_of_int_cases b Hb) as [->|(Hb0 & mb & Eb & Hmb & Heb & _)].
  - done.
  - rewrite Eb, f64_of_Z_0. cbn. by destruct b.
  - rewrite Ea, f64_of_Z_0. cbn. by destruct a.
  - rewrite Ea, Eb. cbn [SFcompare]. f_equal.
    pose proof (int_compare_abs a b ma mb ltac:(lia) ltac:(lia) Hma Hmb) as Hc.
    destruct (Z.ltb_spec a 0), (Z.ltb_spec b 0).
    + transitivity (CompOpp (Z.abs a ?= Z.abs b)).
      * rewrite <- Hc. by destruct (int_exp a ?= int_exp b).
      * rewrite !Z.abs_neq by lia. rewrite <- Z.compare_antisym. apply Z.compare_opp.
    + symmetry. apply Z.compare_lt_iff. lia.
    + symmetry. apply Z.compare_gt_iff. lia.
    + by rewrite Hc, !Z.abs_eq by lia.
Qed.

Lemma f64_eqb_int a b : Z.abs a < 2 ^ 53 -> Z.abs b < 2 ^ 53 ->
  f64_eqb (f64_of_Z a) (f64_of_Z b) = (a =? b).
Proof.
  intros. unfold f64_eqb, SFeqb. rewrite SFcompare_int by done.
  by rewrite Z.eqb_compare.
Qed.

Lemma f64_ltb_int a b : Z.abs a < 2 ^ 53 -> Z.abs b < 2 ^ 53 ->
  f64_ltb (f64_of_Z a) (f64_of_Z b) = (a <? b).
Proof.
  intros. unfold f64_ltb, SFltb. rewrite SFcompare_int by done.
  by rewrite Z.ltb_compare.
Qed.

Lemma f64_leb_int a b : Z.abs a < 2 ^ 53 -> Z.abs b < 2 ^ 53 ->
  f64_leb (f64_of_Z a) (f64_of_Z b) = (a <=? b).
Proof.
  intros. unfold f64_leb, SFleb. rewrite SFcompare_int by done.
  rewrite Z.leb_compare. by destruct (a ?= b).
Qed.

Lemma f64_neg_int a : a <> 0 -> Z.abs a < 2 ^ 53 -> f64_neg (f64_of_Z a) = f64_of_Z (- a).
Proof.
  intros Ha0 Ha. destruct (f64_of_int_cases a Ha) as [->|(_ & m & -> & Hm & _)]; [done|].
  destruct (f64_of_int_cases (- a)) as [E|(_ & m' & -> & Hm' & _)]; [lia|lia|].
  assert (Ee : int_exp (- a) = int_exp a) by (unfold int_exp; by rewrite Z.abs_opp).
  rewrite Ee, Z.abs_opp in *. assert (m = m') as -> by lia.
  cbn. f_equal. destruct (Z.ltb_spec a 0), (Z.ltb_spec (- a) 0); lia || done.
Qed.
