(* ===== verification/Numbers.v ===== *)
(** * Conversions of values to numbers and integers ([quickjs.c])

    [JS_ToNumberFree] and the conversions to machine integers that follow it:
    modulo [2^32] and [2^64] on the bits of the double, with saturation, with
    clamping, as lengths and indexes.  The conversion of an object to a
    primitive value and the parsing of a string are an interface. *)

From stdpp Require Import base tactics numbers list option.
From Stdlib Require Import ZArith Lia SpecFloat.
From S2P Require Import Prelude Values.

Open Scope Z_scope.

Definition u64_shl (v n : Z) : Z := u64 (Z.shiftl v n).
Definition i64 (z : Z) : Z := if u64 z <? 2 ^ 63 then u64 z else u64 z - 2 ^ 64.
Definition INT32_MIN : Z := - 2 ^ 31.
Definition INT64_MIN : Z := - 2 ^ 63.
Definition INT64_MAX : Z := 2 ^ 63 - 1.
Definition MAX_SAFE_INTEGER : Z := 2 ^ 53 - 1.
Definition JS_NAN : JSValue := JS_FLOAT64 S754_nan.

(** ** The bits of a double ([JSFloat64Union]) *)

Definition f64_sign (d : spec_float) : bool :=
  match d with
  | S754_zero s | S754_infinity s | S754_finite s _ _ => s
  | S754_nan => false
  end.

Definition f64_exponent (d : spec_float) : Z :=
  match d with
  | S754_zero _ => 0
  | S754_infinity _ | S754_nan => 0x7ff
  | S754_finite _ m e => if Z.pos m <? 2 ^ 52 then 0 else e + 1075
  end.

Definition f64_fraction (d : spec_float) : Z :=
  match d with
  | S754_zero _ | S754_infinity _ => 0
  | S754_nan => 2 ^ 51
  | S754_finite _ m _ => if Z.pos m <? 2 ^ 52 then Z.pos m else Z.pos m - 2 ^ 52
  end.

Definition f64_bits (d : spec_float) : Z :=
  (if f64_sign d then 2 ^ 63 else 0) + f64_exponent d * 2 ^ 52 + f64_fraction d.

(** The functions of the C library on doubles. *)
Definition f64_floor (d : spec_float) : spec_float :=
  match d with
  | S754_finite s m e =>
      if 0 <=? e then d
      else
        let q := Z.pos m / 2 ^ (- e) in
        let r := Z.pos m mod 2 ^ (- e) in
        let z := if s then - (if r =? 0 then q else q + 1) else q in
        if z =? 0 then S754_zero s else f64_of_Z z
  | _ => d
  end.

(** [lrint] in the default rounding mode: to nearest, ties to even. *)
Definition lrint (d : spec_float) : Z :=
  match d with
  | S754_finite s m e =>
      let a :=
        if 0 <=? e then Z.pos m * 2 ^ e
        else
          let q := Z.pos m / 2 ^ (- e) in
          let r := Z.pos m mod 2 ^ (- e) in
          match Z.compare (2 * r) (2 ^ (- e)) with
          | Lt => q
          | Gt => q + 1
          | Eq => if Z.even q then q else q + 1
          end in
      if s then - a else a
  | _ => 0
  end.

(** ** The engine behind the conversions *)

Class NumEngine := {
  NW : Type;
  (** [JS_ToPrimitiveFree(ctx, val, HINT_NUMBER)] on an object. *)
  to_primitive_number : NW -> JSValue -> NW * JSValue;
  (** [JS_ToCStringLen], [skip_spaces] and [js_atof] on a string. *)
  string_to_number : NW -> JSValue -> NW * JSValue;
  throw_type_error : NW -> NW;
  throw_range_error : NW -> NW;
  free_value : NW -> JSValue -> NW;
  (** The target's conversions of a double that the type does not hold. *)
  int64_oor : spec_float -> Z;
  uint32_oor : spec_float -> Z
}.

Definition is_number (v : JSValue) : bool :=
  match v with JS_INT _ | JS_FLOAT64 _ => true | _ => false end.

(** Numbers that the engine builds: the members of the union have their
    types. *)
Definition number_ok (v : JSValue) : Prop :=
  match v with
  | JS_INT n => - 2 ^ 31 <= n < 2 ^ 31
  | JS_FLOAT64 d => valid_binary prec emax d = true
  | _ => False
  end.

(** [ToPrimitive] gives no object; a string gives a number, or an exception
    when memory runs out. *)
Class NumEngineOk (ne : NumEngine) : Prop := {
  to_primitive_plain : forall w v, JS_IsObject (to_primitive_number w v).2 = false;
  to_primitive_wf : forall w v,
    is_number (to_primitive_number w v).2 = true -> number_ok (to_primitive_number w v).2;
  string_number : forall w v,
    (string_to_number w v).2 = JS_EXCEPTION \/ number_ok (string_to_number w v).2
}.

Section conv.
Context {ne : NumEngine}.

(** [(int32_t)d], [(int64_t)d] and [(uint32_t)d]. *)
Definition cast_i32 (oor : spec_float -> Z) (d : spec_float) : Z := int32_of_f64 oor d.
Definition cast_i64 (d : spec_float) : Z :=
  match f64_trunc d with
  | Some z => if (INT64_MIN <=? z) && (z <=? INT64_MAX) then z else i64 (int64_oor d)
  | None => i64 (int64_oor d)
  end.
Definition cast_u32 (d : spec_float) : Z :=
  match f64_trunc d with
  | Some z => if (0 <=? z) && (z <=? UINT32_MAX) then z else u32 (uint32_oor d)
  | None => u32 (uint32_oor d)
  end.

(** [redo] is taken once, after [JS_ToPrimitiveFree]. *)
Fixpoint JS_ToNumberHintFree (fuel : nat) (w : NW) (val : JSValue) : res (NW * JSValue) :=
  match fuel with
  | O => OutOfFuel
  | S fuel =>
      match val with
      | JS_FLOAT64 _ | JS_INT _ | JS_EXCEPTION => Ret (w, val)
      | JS_BOOL _ | JS_NULL =>
          let* n := JS_VALUE_GET_INT val in Ret (w, JS_NewInt32 n)
      | JS_UNDEFINED => Ret (w, JS_NAN)
      | JS_MKPTR PTR_OBJECT _ =>
          let '(w, val) := to_primitive_number w val in
          if JS_IsException val then Ret (w, JS_EXCEPTION)
          else JS_ToNumberHintFree fuel w val
      | JS_MKPTR PTR_STRING _ => Ret (string_to_number w val)
      | JS_MKPTR PTR_SYMBOL _ =>
          Ret (throw_type_error (free_value w val), JS_EXCEPTION)
      | _ => Ret (free_value w val, JS_NAN)
      end
  end.

Definition JS_ToNumberFree : NW -> JSValue -> res (NW * JSValue) :=
  JS_ToNumberHintFree 2.

Definition __JS_ToFloat64Free (w : NW) (val : JSValue) : res (NW * (Z * spec_float)) :=
  let* r := JS_ToNumberFree w val in
  let '(w, val) := r in
  match val with
  | JS_EXCEPTION => Ret (w, (-1, S754_nan))
  | JS_INT n => Ret (w, (0, f64_of_Z n))
  | JS_FLOAT64 d => Ret (w, (0, d))
  | _ => Ub                                                  (* abort() *)
  end.

(** The test [tag <= JS_TAG_NULL] is on an unsigned tag: it is false for the
    tags with a reference count. *)
Definition JS_ToFloat64Free (w : NW) (val : JSValue) : res (NW * (Z * spec_float)) :=
  match val with
  | JS_INT _ | JS_BOOL _ | JS_NULL =>
      let* n := JS_VALUE_GET_INT val in Ret (w, (0, f64_of_Z n))
  | JS_FLOAT64 d => Ret (w, (0, d))
  | _ => __JS_ToFloat64Free w val
  end.

(** The [switch] that the integer conversions share: the tags with an integer,
    the doubles, and everything else through [JS_ToNumberFree] and [redo]. *)
Fixpoint int_conversion (fuel : nat) (of_int : Z -> Z) (of_f64 : spec_float -> res Z)
    (w : NW) (val : JSValue) : res (NW * (Z * Z)) :=
  match fuel with
  | O => OutOfFuel
  | S fuel =>
      match val with
      | JS_INT _ | JS_BOOL _ | JS_NULL | JS_UNDEFINED =>
          let* n := JS_VALUE_GET_INT val in Ret (w, (0, of_int n))
      | JS_FLOAT64 d => let* n := of_f64 d in Ret (w, (0, n))
      | JS_EXCEPTION => Ret (w, (-1, 0))
      | _ =>
          let* r := JS_ToNumberFree w val in
          let '(w, val) := r in
          if JS_IsException val then Ret (w, (-1, 0))
          else int_conversion fuel of_int of_f64 w val
      end
  end.

Definition convert_free := int_conversion 2.

(** The double case of [JS_ToInt32Free]: [fmod(x, 2^32)] on the bits. *)
Definition f64_to_int32 (oor : spec_float -> Z) (d : spec_float) : res Z :=
  let u := f64_bits d in
  let e := Z.land (Z.shiftr u 52) 0x7ff in
  if e <=? 1023 + 30 then Ret (cast_i32 oor d)               (* fast case *)
  else if e <=? 1023 + 30 + 53 then
    (* remainder modulo 2^32 *)
    let v := Z.lor (Z.land u (Z.shiftl 1 52 - 1)) (Z.shiftl 1 52) in
    let v := u64_shl v (e - 1023 - 52 + 32) in
    let ret := i32 (Z.shiftr v 32) in
    (* take the sign into account *)
    if negb (Z.shiftr u 63 =? 0)
    then if ret =? INT32_MIN then Ub else Ret (- ret)
    else Ret ret
  else Ret 0.                               (* also handles NaN and +inf *)

Definition JS_ToInt32Free (oor : spec_float -> Z) : NW -> JSValue -> res (NW * (Z * Z)) :=
  convert_free (fun n => n) (f64_to_int32 oor).

Definition JS_ToUint32Free (oor : spec_float -> Z) (w : NW) (val : JSValue)
  : res (NW * (Z * Z)) :=
  let* r := JS_ToInt32Free oor w val in
  Ret (r.1, (r.2.1, u32 r.2.2)).

Definition f64_to_int64 (d : spec_float) : res Z :=
  let u := f64_bits d in
  let e := Z.land (Z.shiftr u 52) 0x7ff in
  if e <=? 1023 + 62 then Ret (cast_i64 d)
  else if e <=? 1023 + 62 + 53 then
    let v := Z.lor (Z.land u (Z.shiftl 1 52 - 1)) (Z.shiftl 1 52) in
    let ret := i64 (u64_shl v (e - 1023 - 52)) in
    if negb (Z.shiftr u 63 =? 0)
    then if ret =? INT64_MIN then Ub else Ret (- ret)
    else Ret ret
  else Ret 0.

Definition JS_ToInt64Free : NW -> JSValue -> res (NW * (Z * Z)) :=
  convert_free (fun n => n) f64_to_int64.

Definition f64_to_int32_sat (oor : spec_float -> Z) (d : spec_float) : res Z :=
  Ret (if isnan d then 0
       else if f64_ltb d (f64_of_Z INT32_MIN) then INT32_MIN
       else if f64_ltb (f64_of_Z INT32_MAX) d then INT32_MAX
       else cast_i32 oor d).

Definition JS_ToInt32SatFree (oor : spec_float -> Z) : NW -> JSValue -> res (NW * (Z * Z)) :=
  convert_free (fun n => n) (f64_to_int32_sat oor).

(** [INT64_MAX] is converted to the double [2^63]. *)
Definition f64_to_int64_sat (d : spec_float) : res Z :=
  Ret (if isnan d then 0
       else if f64_ltb d (f64_of_Z INT64_MIN) then INT64_MIN
       else if f64_ltb (f64_of_Z INT64_MAX) d then INT64_MAX
       else cast_i64 d).

Definition JS_ToInt64SatFree : NW -> JSValue -> res (NW * (Z * Z)) :=
  convert_free (fun n => n) f64_to_int64_sat.

Definition f64_to_uint8_clamp (d : spec_float) : res Z :=
  Ret (if isnan d then 0
       else if f64_ltb d (f64_of_Z 0) then 0
       else if f64_ltb (f64_of_Z 255) d then 255
       else lrint d).

Definition JS_ToUint8ClampFree : NW -> JSValue -> res (NW * (Z * Z)) :=
  convert_free (fun n => Z.max 0 (Z.min 255 n)) f64_to_uint8_clamp.

(** The value is duplicated for these functions; no conversion of a number
    frees it. *)
Definition JS_ToInt32Clamp (oor : spec_float -> Z) (w : NW) (val : JSValue)
    (min max min_offset : Z) : res (NW * (Z * Z)) :=
  let* r := JS_ToInt32SatFree oor w val in
  let '(w, (res, pres)) := r in
  if res =? 0 then
    if pres <? min then
      let pres := pres + min_offset in
      Ret (w, (res, if pres <? min then min else pres))
    else Ret (w, (res, if max <? pres then max else pres))
  else Ret (w, (res, pres)).

Definition JS_ToInt64Clamp (w : NW) (val : JSValue) (min max neg_offset : Z)
  : res (NW * (Z * Z)) :=
  let* r := JS_ToInt64SatFree w val in
  let '(w, (res, pres)) := r in
  if res =? 0 then
    let pres := if pres <? 0 then pres + neg_offset else pres in
    Ret (w, (res, if pres <? min then min else if max <? pres then max else pres))
  else Ret (w, (res, pres)).

Definition JS_ToLengthFree (w : NW) (val : JSValue) : res (NW * (Z * Z)) :=
  let* r := JS_ToInt64Clamp w val 0 MAX_SAFE_INTEGER 0 in
  Ret (free_value r.1 val, r.2).

Definition JS_ToIndex (w : NW) (val : JSValue) : res (NW * (Z * Z)) :=
  let* r := JS_ToInt64SatFree w val in
  let '(w, (res, v)) := r in
  if negb (res =? 0) then Ret (w, (-1, 0))
  else if (v <? 0) || (MAX_SAFE_INTEGER <? v)
  then Ret (throw_range_error w, (-1, 0))
  else Ret (w, (0, v)).

(** A length given by a number, or the error of an invalid length. *)
Definition array_length_of_number (w : NW) (val : JSValue) : res (NW * (Z * Z)) :=
  match val with
  | JS_INT _ | JS_BOOL _ | JS_NULL =>
      let* v := JS_VALUE_GET_INT val in
      Ret (if v <? 0 then (throw_range_error w, (-1, 0)) else (w, (0, v)))
  | JS_FLOAT64 d =>
      let len := cast_u32 d in
      Ret (if f64_eqb (f64_of_Z len) d then (w, (0, len))
           else (throw_range_error w, (-1, 0)))
  | _ => Ub
  end.

Definition JS_ToArrayLengthFree (oor : spec_float -> Z) (w : NW) (val : JSValue)
    (is_array_ctor : bool) : res (NW * (Z * Z)) :=
  match val with
  | JS_INT _ | JS_BOOL _ | JS_NULL | JS_FLOAT64 _ => array_length_of_number w val
  | _ =>
      if is_array_ctor then
        let* r := JS_ToNumberFree w val in
        let '(w, val) := r in
        if JS_IsException val then Ret (w, (-1, 0))
        (* cannot recurse because val is a number *)
        else array_length_of_number w val
      else
        (* legacy behavior: must do the conversion twice and compare *)
        let* r := JS_ToUint32Free oor w val in
        let '(w, (res, len)) := r in
        if negb (res =? 0) then Ret (free_value w val, (-1, 0))
        else
          let* r := JS_ToNumberFree w val in
          let '(w, val) := r in
          if JS_IsException val then Ret (w, (-1, 0))
          else
            let* r := array_length_of_number w val in
            let '(w, (res, len1)) := r in
            if negb (res =? 0) then Ret (w, (-1, 0))
            else if negb (len1 =? len) then Ret (throw_range_error w, (-1, 0))
            else Ret (w, (0, len))
  end.

Definition is_safe_integer (d : spec_float) : bool :=
  isfinite d && f64_eqb (f64_floor d) d && f64_leb (SFabs d) (f64_of_Z MAX_SAFE_INTEGER).

Definition JS_NumberIsInteger (w : NW) (val : JSValue) : res (NW * Z) :=
  match val with
  | JS_INT _ | JS_FLOAT64 _ =>
      let* r := JS_ToFloat64Free w val in
      let '(w, (res, d)) := r in
      if negb (res =? 0) then Ret (w, -1)
      else Ret (w, if isfinite d && f64_eqb (f64_floor d) d then 1 else 0)
  | _ => Ret (w, 0)
  end.

Definition JS_NumberIsNegativeOrMinusZero (val : JSValue) : bool :=
  match val with
  | JS_INT v => v <? 0
  | JS_FLOAT64 d => negb (Z.shiftr (f64_bits d) 63 =? 0)
  | _ => false
  end.
End conv.
