(* ===== verification/NumbersSpec.v ===== *)
(** * Conversions to integers are those of the language

    The integer part of a double and the comparison of doubles as facts on
    their values, the fields of their bits, and the theorem: each conversion
    gives the number that ECMAScript defines for it, except where the C code
    overflows. *)

From stdpp Require Import base tactics numbers list option.
From Stdlib Require Import ZArith Lia SpecFloat.
From S2P Require Import Prelude Values FloatSpec Numbers.

Open Scope Z_scope.

(** ** The value of a double *)

(** The value of a finite double, in units of [2 ^ -1074]. *)
Definition fval (d : spec_float) : Z :=
  match d with
  | S754_finite s m e => (if s then -1 else 1) * (Z.pos m * 2 ^ (e + 1074))
  | _ => 0
  end.

Definition unit64 : Z := 2 ^ 1074.

Lemma unit64_pos : 0 < unit64.
Proof. by apply Z.pow_pos_nonneg. Qed.

Lemma valid_finite s m e :
  valid_binary prec emax (S754_finite s m e) = true ->
  Z.pos m < 2 ^ 53 /\ -1074 <= e <= 971 /\ (-1074 < e -> 2 ^ 52 <= Z.pos m).
Proof.
  cbn [valid_binary]. unfold bounded, canonical_mantissa. intros H. zb.
  rewrite digits2_log2, fexp64_max in *. unfold emax, prec in *.
  pose proof (Z.log2_spec (Z.pos m) ltac:(lia)) as [H1 H2].
  pose proof (Z.log2_nonneg (Z.pos m)).
  assert (Z.log2 (Z.pos m) <= 52) by lia.
  split_and!; [|lia|lia|].
  - eapply Z.lt_le_trans; [exact H2|]. apply Z.pow_le_mono_r; lia.
  - intros. replace (Z.log2 (Z.pos m)) with 52 in H1 by lia. done.
Qed.

(** Doubles of the same sign are compared by their exponents first. *)
Lemma compare_canonical s1 m1 e1 s2 m2 e2 :
  valid_binary prec emax (S754_finite s1 m1 e1) = true ->
  valid_binary prec emax (S754_finite s2 m2 e2) = true ->
  match Z.compare e1 e2 with
  | Lt => Lt | Gt => Gt | Eq => Pos.compare_cont Eq m1 m2
  end = Z.compare (Z.pos m1 * 2 ^ (e1 + 1074)) (Z.pos m2 * 2 ^ (e2 + 1074)).
Proof.
  intros (Hm1 & He1 & Hn1)%valid_finite (Hm2 & He2 & Hn2)%valid_finite.
  assert (Hlt : forall m m' e e', Z.pos m < 2 ^ 53 -> 2 ^ 52 <= Z.pos m' ->
            -1074 <= e -> e < e' ->
            Z.pos m * 2 ^ (e + 1074) < Z.pos m' * 2 ^ (e' + 1074)).
  { intros m m' e e' Hm Hm' He Hlt.
    set (k := e + 1074). replace (e' + 1074) with (k + 1 + (e' - e - 1)) by lia.
    rewrite (Z.pow_add_r 2 (k + 1)), (Z.pow_add_r 2 k) by lia.
    assert (0 < 2 ^ k) by (apply Z.pow_pos_nonneg; lia).
    assert (0 < 2 ^ (e' - e - 1)) by (apply Z.pow_pos_nonneg; lia).
    replace (2 ^ k * 2 ^ 1 * 2 ^ (e' - e - 1)) with (2 * 2 ^ k * 2 ^ (e' - e - 1)) by ring.
    generalize dependent (2 ^ (e' - e - 1)). intros P HP.
    generalize dependent (2 ^ k). intros K HK.
    apply Z.lt_le_trans with (2 ^ 53 * K); [nia|].
    replace (2 ^ 53 * K) with (2 ^ 52 * (2 * K * 1)) by ring.
    apply Z.mul_le_mono_nonneg; nia. }
  destruct (Z.compare_spec e1 e2) as [->|E|E].
  - fold (Pos.compare m1 m2).
    change (Pos.compare m1 m2) with (Z.compare (Z.pos m1) (Z.pos m2)).
    apply Zmult_compare_compat_r. apply Z.lt_gt, Z.pow_pos_nonneg; lia.
  - symmetry. apply Z.compare_lt_iff. apply Hlt; [lia|apply Hn2; lia|lia..].
  - symmetry. apply Z.compare_gt_iff. apply Hlt; [lia|apply Hn1; lia|lia..].
Qed.

Lemma SFcompare_fval d1 d2 :
  isfinite d1 = true -> isfinite d2 = true ->
  valid_binary prec emax d1 = true -> valid_binary prec emax d2 = true ->
  SFcompare d1 d2 = Some (Z.compare (fval d1) (fval d2)).
Proof.
  assert (Hpos : forall m e, valid_binary prec emax (S754_finite false m e) = true ->
                   0 < Z.pos m * 2 ^ (e + 1074)).
  { intros m e V%valid_finite. apply Z.mul_pos_pos; [lia|]. apply Z.pow_pos_nonneg; lia. }
  intros F1 F2 V1 V2.
  destruct d1 as [s1|s1| |s1 m1 e1], d2 as [s2|s2| |s2 m2 e2]; try done; cbn [SFcompare fval].
  - pose proof (Hpos m2 e2 V2). f_equal. symmetry. destruct s2.
    + apply Z.compare_gt_iff. lia.
    + apply Z.compare_lt_iff. lia.
  - pose proof (Hpos m1 e1 V1). f_equal. symmetry. destruct s1.
    + apply Z.compare_lt_iff. lia.
    + apply Z.compare_gt_iff. lia.
  - pose proof (Hpos m1 e1 V1). pose proof (Hpos m2 e2 V2).
    pose proof (compare_canonical s1 m1 e1 s2 m2 e2 V1 V2) as Hc. f_equal.
    destruct s1, s2.
    + transitivity (CompOpp (Z.pos m1 * 2 ^ (e1 + 1074) ?= Z.pos m2 * 2 ^ (e2 + 1074))).
      * rewrite <- Hc. by destruct (e1 ?= e2).
      * rewrite <- Z.compare_antisym, Z.compare_opp. f_equal; ring.
    + symmetry. apply Z.compare_lt_iff. lia.
    + symmetry. apply Z.compare_gt_iff. lia.
    + rewrite Hc. f_equal; ring.
Qed.

Lemma f64_ltb_fval d1 d2 :
  isfinite d1 = true -> isfinite d2 = true ->
  valid_binary prec emax d1 = true -> valid_binary prec emax d2 = true ->
  f64_ltb d1 d2 = (fval d1 <? fval d2).
Proof.
  intros. unfold f64_ltb, SFltb. rewrite SFcompare_fval by done.
  by rewrite Z.ltb_compare.
Qed.

Lemma f64_eqb_fval d1 d2 :
  isfinite d1 = true -> isfinite d2 = true ->
  valid_binary prec emax d1 = true -> valid_binary prec emax d2 = true ->
  f64_eqb d1 d2 = (fval d1 =? fval d2).
Proof.
  intros. unfold f64_eqb, SFeqb. rewrite SFcompare_fval by done.
  by rewrite Z.eqb_compare.
Qed.

(** Integers below [2^53] as doubles. *)
Lemma f64_of_int_ok n : Z.abs n < 2 ^ 53 ->
  isfinite (f64_of_Z n) = true /\ valid_binary prec emax (f64_of_Z n) = true
  /\ fval (f64_of_Z n) = n * unit64.
Proof.
  intros H. destruct (f64_of_int_cases n H) as [->|(Hn & m & -> & Hm & He & Hl)]; [done|].
  split; [done|]. split.
  - cbn [valid_binary]. unfold bounded, canonical_mantissa. apply andb_true_intro. split.
    + apply Z.eqb_eq. rewrite digits2_log2, fexp64_max.
      assert (Z.log2 (Z.pos m) = 52) as -> by (apply Z.log2_unique; lia). lia.
    + apply Z.leb_le. unfold emax, prec. lia.
  - cbn [fval]. rewrite Hm, <- Z.mul_assoc, <- Z.pow_add_r by lia.
    replace (- int_exp n + (int_exp n + 1074)) with 1074 by lia. fold unit64.
    destruct (Z.ltb_spec n 0); nia.
Qed.

(** The integer part is toward zero. *)
Lemma f64_trunc_fval d :
  isfinite d = true -> valid_binary prec emax d = true ->
  f64_trunc d = Some (Z.quot (fval d) unit64).
Proof.
  intros F V. destruct d as [s|s| |s m e]; try done. cbn [f64_trunc fval].
  apply valid_finite in V. f_equal.
  assert (E : (if 0 <=? e then Z.pos m * 2 ^ e else Z.pos m / 2 ^ (- e))
              = Z.pos m * 2 ^ (e + 1074) / unit64).
  { unfold unit64. destruct (Z.leb_spec 0 e).
    - rewrite Z.pow_add_r, Z.mul_assoc, Z.div_mul by (lia || by apply Z.pow_nonzero). done.
    - replace 1074 with (- e + (e + 1074)) at 2 by lia.
      rewrite (Z.pow_add_r 2 (- e)) by lia.
      rewrite Z.div_mul_cancel_r; [done|apply Z.pow_nonzero; lia..]. }
  rewrite E. pose proof unit64_pos.
  assert (0 <= Z.pos m * 2 ^ (e + 1074)) by (apply Z.mul_nonneg_nonneg; [lia|apply Z.pow_nonneg; lia]).
  destruct s.
  - replace (-1 * (Z.pos m * 2 ^ (e + 1074))) with (- (Z.pos m * 2 ^ (e + 1074))) by ring.
    rewrite Z.quot_opp_l by lia. by rewrite Z.quot_div_nonneg by lia.
  - rewrite Z.mul_1_l. by rewrite Z.quot_div_nonneg by lia.
Qed.

(** ** The fields of the bits *)

Lemma f64_fields_bound d : valid_binary prec emax d = true ->
  0 <= f64_exponent d < 2 ^ 11 /\ 0 <= f64_fraction d < 2 ^ 52.
Proof.
  intros V. destruct d as [s|s| |s m e]; cbn [f64_exponent f64_fraction]; try lia.
  apply valid_finite in V as (H1 & H2 & H3).
  destruct (Z.ltb_spec (Z.pos m) (2 ^ 52)); lia.
Qed.

Lemma f64_bits_exponent d : valid_binary prec emax d = true ->
  Z.land (Z.shiftr (f64_bits d) 52) 0x7ff = f64_exponent d.
Proof.
  intros V. pose proof (f64_fields_bound d V). unfold f64_bits.
  change 0x7ff with (Z.ones 11). rewrite land_mod, Z.shiftr_div_pow2 by lia.
  destruct (f64_sign d); dlia.
Qed.

Lemma f64_bits_fraction d : valid_binary prec emax d = true ->
  Z.land (f64_bits d) (Z.shiftl 1 52 - 1) = f64_fraction d.
Proof.
  intros V. pose proof (f64_fields_bound d V). unfold f64_bits.
  change (Z.shiftl 1 52 - 1) with (Z.ones 52). rewrite land_mod by lia.
  destruct (f64_sign d); dlia.
Qed.

Lemma f64_bits_sign d : valid_binary prec emax d = true ->
  (Z.shiftr (f64_bits d) 63 =? 0) = negb (f64_sign d).
Proof.
  intros V. pose proof (f64_fields_bound d V). unfold f64_bits.
  rewrite Z.shiftr_div_pow2 by lia.
  destruct (f64_sign d); cbn [negb]; [apply Z.eqb_neq|apply Z.eqb_eq]; dlia.
Qed.

(** The mantissa of a normal number, with its implicit bit. *)
Lemma f64_bits_mantissa s m e :
  valid_binary prec emax (S754_finite s m e) = true -> 2 ^ 52 <= Z.pos m ->
  Z.lor (Z.land (f64_bits (S754_finite s m e)) (Z.shiftl 1 52 - 1)) (Z.shiftl 1 52)
  = Z.pos m.
Proof.
  intros V Hm. rewrite f64_bits_fraction by done. cbn [f64_fraction].
  apply valid_finite in V as (H1 & _).
  destruct (Z.ltb_spec (Z.pos m) (2 ^ 52)); [lia|].
  change (Z.shiftl 1 52) with (1 * 2 ^ 52).
  rewrite Z.lor_comm, lor_add_low by lia. lia.
Qed.

(** ** Modulo [2^32] and [2^64] *)

Definition trunc_abs (m : positive) (e : Z) : Z :=
  if 0 <=? e then Z.pos m * 2 ^ e else Z.pos m / 2 ^ (- e).

Lemma trunc_abs_nonneg m e : 0 <= trunc_abs m e.
Proof.
  unfold trunc_abs. destruct (Z.leb_spec 0 e).
  - apply Z.mul_nonneg_nonneg; [lia|apply Z.pow_nonneg; lia].
  - apply Z.div_pos; [lia|]. apply Z.pow_pos_nonneg; lia.
Qed.

Lemma trunc_abs_small m e k : 0 <= k -> Z.pos m < 2 ^ 53 -> e <= k - 53 ->
  trunc_abs m e < 2 ^ k.
Proof.
  intros Hk Hm He. unfold trunc_abs. destruct (Z.leb_spec 0 e).
  - replace k with (k - e + e) by lia. rewrite Z.pow_add_r by lia.
    apply Z.mul_lt_mono_pos_r; [apply Z.pow_pos_nonneg; lia|].
    eapply Z.lt_le_trans; [exact Hm|]. apply Z.pow_le_mono_r; lia.
  - apply Z.div_lt_upper_bound; [apply Z.pow_pos_nonneg; lia|].
    rewrite <- Z.pow_add_r by lia.
    eapply Z.lt_le_trans; [exact Hm|]. apply Z.pow_le_mono_r; lia.
Qed.

Lemma trunc_abs_large m e k : 0 <= k <= e -> trunc_abs m e mod 2 ^ k = 0.
Proof.
  intros H. unfold trunc_abs. rewrite (proj2 (Z.leb_le 0 e)) by lia.
  replace e with (e - k + k) by lia. rewrite Z.pow_add_r, Z.mul_assoc by lia.
  apply Z.mod_mul. apply Z.pow_nonzero; lia.
Qed.

(** The shifted mantissa keeps the integer part above the bit [k]. *)
Lemma trunc_abs_shift m e k : 0 <= k -> 0 <= e + k ->
  Z.pos m * 2 ^ (e + k) / 2 ^ k = trunc_abs m e.
Proof.
  intros Hk He. unfold trunc_abs. destruct (Z.leb_spec 0 e).
  - rewrite Z.pow_add_r, Z.mul_assoc by lia. apply Z.div_mul, Z.pow_nonzero; lia.
  - replace k with (- e + (e + k)) at 2 by lia. rewrite (Z.pow_add_r 2 (- e)) by lia.
    apply Z.div_mul_cancel_r; apply Z.pow_nonzero; lia.
Qed.

Lemma i32_mod z : i32 (z mod 2 ^ 32) = i32 z.
Proof. unfold i32, u32. by rewrite Z.mod_mod. Qed.

Lemma i32_opp z : z mod 2 ^ 32 <> 2 ^ 31 -> - i32 z = i32 (- z).
Proof. unfold i32, u32. intros. repeat zcase; dlia. Qed.

Lemma i64_opp z : z mod 2 ^ 64 <> 2 ^ 63 -> - i64 z = i64 (- z).
Proof. unfold i64, u64. intros. repeat zcase; dlia. Qed.

Lemma i64_id z : - 2 ^ 63 <= z < 2 ^ 63 -> i64 z = z.
Proof. unfold i64, u64. intros. repeat zcase; dlia. Qed.

(** The language's conversion modulo [2^w], and the operands for which the C
    code negates the least integer. *)
Definition negation_overflows (w : Z) (d : spec_float) : bool :=
  match f64_trunc d with
  | Some z => (z <? 0) && (z mod 2 ^ w =? 2 ^ (w - 1))
  | None => false
  end.

Definition modular (wrap : Z -> Z) (d : spec_float) : Z :=
  match f64_trunc d with Some z => wrap z | None => 0 end.

Lemma f64_trunc_finite s m e :
  f64_trunc (S754_finite s m e) = Some (if s then - trunc_abs m e else trunc_abs m e).
Proof. done. Qed.

Lemma f64_to_int32_spec oor d : valid_binary prec emax d = true ->
  f64_to_int32 oor d
  = if negation_overflows 32 d then Ub else Ret (modular i32 d).
Proof.
  intros V. unfold f64_to_int32, negation_overflows, modular.
  rewrite f64_bits_exponent by done.
  destruct d as [s|s| |s m e]; [done|done|done|].
  rewrite f64_bits_sign, negb_involutive by done. cbn [f64_sign].
  rewrite f64_trunc_finite. pose proof (trunc_abs_nonneg m e) as Hp.
  unfold cast_i32, int32_of_f64. rewrite f64_trunc_finite.
  assert (Hm := f64_bits_mantissa s m e V).
  apply valid_finite in V as (H1 & H2 & H3). cbn [f64_exponent].
  assert (Hfast : e <= -22 ->
    Ret (if (- 2 ^ 31 <=? if s then - trunc_abs m e else trunc_abs m e)
            && ((if s then - trunc_abs m e else trunc_abs m e) <? 2 ^ 31)
         then if s then - trunc_abs m e else trunc_abs m e
         else i32 (oor (S754_finite s m e)))
    = (if ((if s then - trunc_abs m e else trunc_abs m e) <? 0) &&
          ((if s then - trunc_abs m e else trunc_abs m e) mod 2 ^ 32 =? 2 ^ (32 - 1))
       then Ub else Ret (i32 (if s then - trunc_abs m e else trunc_abs m e)))).
  { intros He. pose proof (trunc_abs_small m e 31 ltac:(lia) H1 ltac:(lia)) as Hs.
    generalize dependent (trunc_abs m e). intros a Ha Hs.
    set (z := if s then - a else a).
    assert (- 2 ^ 31 < z < 2 ^ 31) by (unfold z; destruct s; lia).
    rewrite (i32_id z) by lia. repeat zcase; cbn [andb]; done || dlia. }
  destruct (Z.ltb_spec (Z.pos m) (2 ^ 52)); [apply Hfast; lia|].
  rewrite Hm by done. destruct (Z.leb_spec (e + 1075) (1023 + 30)); [apply Hfast; lia|].
  clear Hfast Hm. destruct (Z.leb_spec (e + 1075) (1023 + 30 + 53)).
  - replace (e + 1075 - 1023 - 52 + 32) with (e + 32) by lia.
    unfold u64_shl, u64. rewrite Z.shiftl_mul_pow2, Z.shiftr_div_pow2 by lia.
    pose proof (trunc_abs_shift m e 32 ltac:(lia) ltac:(lia)) as Hs.
    assert (E : (Z.pos m * 2 ^ (e + 32)) mod 2 ^ 64 / 2 ^ 32 = trunc_abs m e mod 2 ^ 32).
    { rewrite <- Hs. generalize (Z.pos m * 2 ^ (e + 32)). intros. dlia. }
    rewrite E, i32_mod. clear E Hs. generalize dependent (trunc_abs m e). intros a Ha.
    destruct s; [|by destruct (Z.ltb_spec a 0); [lia|]].
    destruct (Z.eqb_spec (a mod 2 ^ 32) (2 ^ 31)) as [Ea|Ea].
    + assert (i32 a = INT32_MIN) as ->
        by (unfold i32, u32, INT32_MIN; rewrite Ea; done).
      rewrite Z.eqb_refl. repeat zcase; cbn [andb]; done || dlia.
    + rewrite i32_opp by done.
      assert (i32 a <> INT32_MIN) by (unfold i32, u32, INT32_MIN; repeat zcase; dlia).
      repeat zcase; cbn [andb]; done || dlia.
  - pose proof (trunc_abs_large m e 32 ltac:(lia)) as Hz.
    generalize dependent (trunc_abs m e). intros a Ha Hz.
    set (z := if s then - a else a).
    assert (Ez : z mod 2 ^ 32 = 0) by (unfold z; destruct s; dlia).
    rewrite Ez. rewrite andb_false_r. unfold i32, u32. by rewrite Ez.
Qed.

Lemma f64_to_int64_spec {ne : NumEngine} d : valid_binary prec emax d = true ->
  f64_to_int64 d
  = if negation_overflows 64 d then Ub else Ret (modular i64 d).
Proof.
  intros V. unfold f64_to_int64, negation_overflows, modular.
  rewrite f64_bits_exponent by done.
  destruct d as [s|s| |s m e]; [done|done|done|].
  rewrite f64_bits_sign, negb_involutive by done. cbn [f64_sign].
  rewrite f64_trunc_finite. pose proof (trunc_abs_nonneg m e) as Hp.
  unfold cast_i64. rewrite f64_trunc_finite.
  assert (Hm := f64_bits_mantissa s m e V).
  apply valid_finite in V as (H1 & H2 & H3). cbn [f64_exponent].
  unfold INT64_MIN, INT64_MAX.
  assert (Hfast : e <= 10 ->
    Ret (if (- 2 ^ 63 <=? if s then - trunc_abs m e else trunc_abs m e)
            && ((if s then - trunc_abs m e else trunc_abs m e) <=? 2 ^ 63 - 1)
         then if s then - trunc_abs m e else trunc_abs m e
         else i64 (int64_oor (S754_finite s m e)))
    = (if ((if s then - trunc_abs m e else trunc_abs m e) <? 0) &&
          ((if s then - trunc_abs m e else trunc_abs m e) mod 2 ^ 64 =? 2 ^ (64 - 1))
       then Ub else Ret (i64 (if s then - trunc_abs m e else trunc_abs m e)))).
  { intros He. pose proof (trunc_abs_small m e 63 ltac:(lia) H1 ltac:(lia)) as Hs.
    generalize dependent (trunc_abs m e). intros a Ha Hs.
    set (z := if s then - a else a).
    assert (- 2 ^ 63 < z < 2 ^ 63) by (unfold z; destruct s; lia).
    rewrite (i64_id z) by lia. repeat zcase; cbn [andb]; done || dlia. }
  destruct (Z.ltb_spec (Z.pos m) (2 ^ 52)); [apply Hfast; lia|].
  rewrite Hm by done. destruct (Z.leb_spec (e + 1075) (1023 + 62)); [apply Hfast; lia|].
  clear Hfast Hm. destruct (Z.leb_spec (e + 1075) (1023 + 62 + 53)).
  - replace (e + 1075 - 1023 - 52) with e by lia.
    unfold u64_shl. rewrite Z.shiftl_mul_pow2 by lia.
    assert (E : Z.pos m * 2 ^ e = trunc_abs m e)
      by (unfold trunc_abs; by rewrite (proj2 (Z.leb_le 0 e)) by lia).
    rewrite E. clear E. generalize dependent (trunc_abs m e). intros a Ha.
    assert (E : i64 (u64 a) = i64 a) by (unfold i64, u64; by rewrite Z.mod_mod).
    rewrite E. destruct s; [|by destruct (Z.ltb_spec a 0); [lia|]].
    destruct (Z.eqb_spec (a mod 2 ^ 64) (2 ^ 63)) as [Ea|Ea].
    + assert (i64 a = - 2 ^ 63) as -> by (unfold i64, u64; rewrite Ea; done).
      rewrite Z.eqb_refl. repeat zcase; cbn [andb]; done || dlia.
    + rewrite i64_opp by done.
      assert (i64 a <> - 2 ^ 63) by (unfold i64, u64; repeat zcase; dlia).
      repeat zcase; cbn [andb]; done || dlia.
  - pose proof (trunc_abs_large m e 64 ltac:(lia)) as Hz.
    generalize dependent (trunc_abs m e). intros a Ha Hz.
    set (z := if s then - a else a).
    assert (Ez : z mod 2 ^ 64 = 0) by (unfold z; destruct s; dlia).
    rewrite Ez. rewrite andb_false_r. unfold i64, u64. by rewrite Ez.
Qed.

(** ** Saturation *)

Definition clamp (lo hi z : Z) : Z := Z.max lo (Z.min hi z).

Definition saturated (lo hi : Z) (d : spec_float) : Z :=
  match d with
  | S754_nan => 0
  | S754_infinity s => if s then lo else hi
  | _ => match f64_trunc d with Some z => clamp lo hi z | None => 0 end
  end.

Lemma quot_clamp f u lo hi : 0 < u -> lo <= 0 <= hi -> lo * u <= f <= hi * u ->
  lo <= Z.quot f u <= hi.
Proof.
  intros Hu Hlh [Hl Hh]. split.
  - rewrite <- (Z.quot_mul lo u) by lia. by apply Z.quot_le_mono.
  - rewrite <- (Z.quot_mul hi u) by lia. by apply Z.quot_le_mono.
Qed.

Lemma quot_low f u lo : 0 < u -> f < lo * u -> Z.quot f u <= lo.
Proof.
  intros. rewrite <- (Z.quot_mul lo u) by lia. apply Z.quot_le_mono; lia.
Qed.

Lemma quot_high f u hi : 0 < u -> hi * u < f -> hi <= Z.quot f u.
Proof.
  intros. rewrite <- (Z.quot_mul hi u) by lia. apply Z.quot_le_mono; lia.
Qed.

Lemma saturated_finite lo hi d :
  isfinite d = true -> valid_binary prec emax d = true ->
  saturated lo hi d = clamp lo hi (Z.quot (fval d) unit64).
Proof.
  intros F V. pose proof (f64_trunc_fval d F V) as Ht.
  destruct d; try done; unfold saturated; by rewrite Ht.
Qed.

Lemma f64_to_int32_sat_spec oor d : valid_binary prec emax d = true ->
  f64_to_int32_sat oor d = Ret (saturated INT32_MIN INT32_MAX d).
Proof.
  intros V. unfold f64_to_int32_sat. f_equal.
  destruct (isfinite d) eqn:F; [|by destruct d as [|[]| |]].
  rewrite saturated_finite by done.
  assert (isnan d = false) as -> by by destruct d.
  destruct (f64_of_int_ok INT32_MIN) as (F1 & V1 & E1); [unfold INT32_MIN; lia|].
  destruct (f64_of_int_ok INT32_MAX) as (F2 & V2 & E2); [unfold INT32_MAX; lia|].
  rewrite !f64_ltb_fval by done. rewrite E1, E2.
  unfold cast_i32, int32_of_f64. rewrite f64_trunc_fval by done.
  pose proof unit64_pos. unfold clamp.
  destruct (Z.ltb_spec (fval d) (INT32_MIN * unit64)).
  { pose proof (quot_low (fval d) unit64 INT32_MIN). unfold INT32_MIN, INT32_MAX in *. lia. }
  destruct (Z.ltb_spec (INT32_MAX * unit64) (fval d)).
  { pose proof (quot_high (fval d) unit64 INT32_MAX). unfold INT32_MIN, INT32_MAX in *. lia. }
  pose proof (quot_clamp (fval d) unit64 INT32_MIN INT32_MAX) as Hq.
  unfold INT32_MIN, INT32_MAX in *. specialize (Hq ltac:(lia) ltac:(lia) ltac:(lia)).
  rewrite (proj2 (Z.leb_le _ _)), (proj2 (Z.ltb_lt _ _)) by lia. cbn [andb]. lia.
Qed.

(** The double [2^63], which the test against [INT64_MAX] lets through. *)
Definition f64_2_63 : spec_float := S754_finite false 4503599627370496 11.

Lemma f64_int64_bounds :
  f64_of_Z INT64_MAX = f64_2_63 /\ f64_of_Z INT64_MIN = f64_neg f64_2_63
  /\ fval f64_2_63 = 2 ^ 63 * unit64 /\ fval (f64_neg f64_2_63) = - 2 ^ 63 * unit64.
Proof. split_and!; vm_compute; reflexivity. Qed.

Lemma f64_to_int64_sat_spec {ne : NumEngine} d : valid_binary prec emax d = true ->
  f64_to_int64_sat d = Ret (if f64_eqb d f64_2_63 then i64 (int64_oor d)
                            else saturated INT64_MIN INT64_MAX d).
Proof.
  intros V. unfold f64_to_int64_sat. f_equal.
  destruct (isfinite d) eqn:F; [|by destruct d as [|[]| |]].
  rewrite saturated_finite by done.
  assert (isnan d = false) as -> by by destruct d.
  destruct f64_int64_bounds as (-> & -> & E2 & E1).
  rewrite !f64_ltb_fval, f64_eqb_fval by done. rewrite E1, E2.
  unfold cast_i64. rewrite f64_trunc_fval by done.
  pose proof unit64_pos. unfold clamp.
  destruct (Z.ltb_spec (fval d) (- 2 ^ 63 * unit64)).
  { pose proof (quot_low (fval d) unit64 (- 2 ^ 63)).
    unfold INT64_MIN, INT64_MAX in *. rewrite (proj2 (Z.eqb_neq _ _)) by lia. lia. }
  destruct (Z.ltb_spec (2 ^ 63 * unit64) (fval d)).
  { pose proof (quot_high (fval d) unit64 (2 ^ 63)).
    unfold INT64_MIN, INT64_MAX in *. rewrite (proj2 (Z.eqb_neq _ _)) by lia. lia. }
  destruct (Z.eqb_spec (fval d) (2 ^ 63 * unit64)) as [E|E].
  { rewrite E, Z.quot_mul by lia. done. }
  assert (Hq : INT64_MIN <= Z.quot (fval d) unit64 <= INT64_MAX).
  { pose proof (quot_clamp (fval d) unit64 (- 2 ^ 63) (2 ^ 63)) as Hq.
    unfold INT64_MIN, INT64_MAX in *. specialize (Hq ltac:(lia) ltac:(lia) ltac:(lia)).
    assert (Z.quot (fval d) unit64 <> 2 ^ 63); [|lia]. intros Eq.
    destruct (Z.lt_ge_cases (fval d) 0).
    { pose proof (quot_low (fval d) unit64 0 ltac:(lia) ltac:(lia)). lia. }
    pose proof (Z.quot_rem' (fval d) unit64). rewrite Eq in *.
    pose proof (Z.rem_bound_pos_pos (fval d) unit64 ltac:(lia) ltac:(lia)). lia. }
  unfold INT64_MIN, INT64_MAX in *.
  rewrite !(proj2 (Z.leb_le _ _)) by lia. cbn [andb]. lia.
Qed.

(** ** Clamping to a byte *)

(** [z] is the integer nearest to [d], the even one of two. *)
Definition nearest_even (d : spec_float) (z : Z) : Prop :=
  2 * Z.abs (fval d - z * unit64) <= unit64
  /\ (2 * Z.abs (fval d - z * unit64) = unit64 -> Z.even z = true).

Lemma lrint_nearest d :
  isfinite d = true -> valid_binary prec emax d = true -> nearest_even d (lrint d).
Proof.
  pose proof unit64_pos as Hu. intros F V. destruct d as [s|s| |s m e]; try done.
  apply valid_finite in V as (_ & He & _).
  set (a := lrint (S754_finite false m e)).
  assert (Ha : nearest_even (S754_finite false m e) a).
  { unfold nearest_even, a. cbn [fval lrint]. rewrite Z.mul_1_l.
    destruct (Z.leb_spec 0 e).
    - assert (E : Z.pos m * 2 ^ (e + 1074) = Z.pos m * 2 ^ e * unit64)
        by (unfold unit64; rewrite Z.pow_add_r by lia; ring).
      rewrite E, Z.sub_diag. cbn [Z.abs]. lia.
    - assert (Hk : 0 < 2 ^ (e + 1074)) by (apply Z.pow_pos_nonneg; lia).
      assert (HP : 0 < 2 ^ (- e)) by (apply Z.pow_pos_nonneg; lia).
      assert (HU : unit64 = 2 ^ (- e) * 2 ^ (e + 1074))
        by (unfold unit64; rewrite <- Z.pow_add_r by lia; f_equal; lia).
      pose proof (Z.div_mod (Z.pos m) (2 ^ (- e)) ltac:(lia)) as Hd.
      pose proof (Z.mod_pos_bound (Z.pos m) (2 ^ (- e)) ltac:(lia)) as Hr.
      rewrite HU. generalize dependent (2 ^ (e + 1074)). intros k Hk HU.
      set (P := 2 ^ (- e)) in *. set (q := Z.pos m / P) in *.
      set (r := Z.pos m mod P) in *.
      assert (Eq0 : Z.pos m * k - q * (P * k) = r * k) by nia.
      assert (Eq1 : Z.pos m * k - (q + 1) * (P * k) = (r - P) * k) by nia.
      destruct (Z.compare_spec (2 * r) P).
      + destruct (Z.even q) eqn:Ev; rewrite ?Eq0, ?Eq1, Z.abs_mul.
        * split; [rewrite !Z.abs_eq by lia; nia|done].
        * rewrite (Z.abs_neq (r - P)), (Z.abs_eq k) by lia. split; [nia|].
          intros _. rewrite Z.even_add, Ev. done.
      + rewrite Eq0, Z.abs_mul, !Z.abs_eq by lia. split; [nia|]. intros Ek. nia.
      + rewrite Eq1, Z.abs_mul, (Z.abs_neq (r - P)), (Z.abs_eq k) by lia.
        split; [nia|]. intros Ek. nia. }
  destruct s; [|exact Ha]. destruct Ha as [H1 H2].
  unfold nearest_even. change (lrint (S754_finite true m e)) with (- a).
  change (fval (S754_finite true m e)) with (-1 * (Z.pos m * 2 ^ (e + 1074))).
  cbn [fval] in H1, H2. rewrite Z.mul_1_l in H1, H2.
  generalize dependent (Z.pos m * 2 ^ (e + 1074)). intros f H1 H2.
  replace (-1 * f - - a * unit64) with (- (f - a * unit64)) by ring.
  rewrite Z.abs_opp, Z.even_opp. done.
Qed.

(** [Uint8Clamped]: to nearest, then into the range. *)
Definition uint8_clamped (d : spec_float) (z : Z) : Prop :=
  match d with
  | S754_nan => z = 0
  | S754_infinity s => z = if s then 0 else 255
  | _ => if fval d <? 0 then z = 0
         else if 255 * unit64 <? fval d then z = 255
         else nearest_even d z
  end.

Lemma f64_to_uint8_clamp_spec {ne : NumEngine} d : valid_binary prec emax d = true ->
  exists z, f64_to_uint8_clamp d = Ret z /\ uint8_clamped d z /\ 0 <= z <= 255.
Proof.
  intros V. unfold f64_to_uint8_clamp. eexists. split; [reflexivity|].
  destruct (isfinite d) eqn:F; [|by destruct d as [|[]| |]].
  assert (Hc : forall z, (if fval d <? 0 then z = 0
                 else if 255 * unit64 <? fval d then z = 255 else nearest_even d z)
               -> uint8_clamped d z) by by destruct d.
  assert (isnan d = false) as -> by by destruct d.
  destruct (f64_of_int_ok 255) as (F2 & V2 & E2); [lia|].
  rewrite !f64_ltb_fval by done. rewrite E2. change (fval (f64_of_Z 0)) with 0.
  destruct (Z.ltb_spec (fval d) 0) as [H|H]; [split; [by apply Hc|lia]|].
  destruct (Z.ltb_spec (255 * unit64) (fval d)) as [H'|H']; [split; [by apply Hc|lia]|].
  pose proof (lrint_nearest d F V) as Hn. split; [by apply Hc|].
  pose proof unit64_pos. destruct Hn as [Hn _]. nia.
Qed.

(** ** Array lengths *)

(** The lengths: the integers below [2^32], as an [int] or as a double. *)
Definition is_length (n : JSValue) (z : Z) : Prop :=
  0 <= z < 2 ^ 32 /\
  match n with
  | JS_INT k => k = z
  | JS_FLOAT64 d => isfinite d = true /\ fval d = z * unit64
  | _ => False
  end.

Lemma cast_u32_bounds {ne : NumEngine} d : 0 <= cast_u32 d < 2 ^ 32.
Proof.
  unfold cast_u32, UINT32_MAX. pose proof (u32_bound (uint32_oor d)).
  destruct (f64_trunc d); [|done]. repeat zcase; cbn [andb]; lia.
Qed.

Lemma array_length_spec {ne : NumEngine} w n : number_ok n ->
  (exists z, is_length n z /\ array_length_of_number w n = Ret (w, (0, z)))
  \/ (forall z, ~ is_length n z)
     /\ array_length_of_number w n = Ret (throw_range_error w, (-1, 0)).
Proof.
  intros Hn. destruct n as [k| | | | | | |d|]; try done; cbn [number_ok] in Hn.
  - cbn. destruct (Z.ltb_spec k 0); [right|left].
    + split; [|done]. intros z [Hz Hk]. cbn in Hk. lia.
    + exists k. split; [|done]. split; [lia|done].
  - cbn [array_length_of_number]. pose proof (cast_u32_bounds d) as Hc.
    destruct (f64_of_int_ok (cast_u32 d)) as (F2 & V2 & E2); [lia|].
    destruct (isfinite d) eqn:F.
    2:{ right. split; [intros z [_ [Hz _]]; congruence|].
        assert (f64_eqb (f64_of_Z (cast_u32 d)) d = false) as ->; [|done].
        unfold f64_eqb, SFeqb. clear V2 E2. generalize dependent (f64_of_Z (cast_u32 d)). intros x F2.
        destruct d as [|[]| |]; try done; by destruct x as [|[]| |]. }
    rewrite f64_eqb_fval, E2 by done.
    destruct (Z.eqb_spec (cast_u32 d * unit64) (fval d)) as [E|E]; [left|right].
    + exists (cast_u32 d). split; [|done]. split; [done|]. by rewrite E.
    + split; [|done]. intros z [Hz [_ Hd]]. apply E. rewrite Hd. f_equal.
      unfold cast_u32. rewrite f64_trunc_fval, Hd by done.
      rewrite Z.quot_mul by (pose proof unit64_pos; lia).
      unfold UINT32_MAX. rewrite !(proj2 (Z.leb_le _ _)) by lia. done.
Qed.

(** ** Every value through its number *)

Definition value_wf (v : JSValue) : Prop :=
  is_number v = true -> number_ok v.

Section conv.
Context {ne : NumEngine} {neok : NumEngineOk ne}.

Lemma to_number_spec w v : value_wf v ->
  exists w' n, JS_ToNumberFree w v = Ret (w', n) /\ (n = JS_EXCEPTION \/ number_ok n).
Proof.
  assert (Hplain : forall k w v, value_wf v -> JS_IsObject v = false ->
    exists w' n, JS_ToNumberHintFree (S k) w v = Ret (w', n)
                 /\ (n = JS_EXCEPTION \/ number_ok n)).
  { clear w v. intros k w v Hv Hobj.
    destruct v as [n|b| | | | | |d|t p]; cbn [JS_ToNumberHintFree];
      try (eexists _, _; split; [reflexivity|by (left + right; done)]).
    - eexists _, _. split; [reflexivity|]. right. by apply Hv.
    - eexists _, _. split; [reflexivity|]. right. by destruct b.
    - eexists _, _. split; [reflexivity|]. right. by apply Hv.
    - destruct t; try (eexists _, _; split; [reflexivity|by (left + right; done)]); [|done].
      pose proof (string_number w (JS_MKPTR PTR_STRING p)) as Hs.
      destruct (string_to_number w _) as [w' n]. by exists w', n. }
  intros Hv. unfold JS_ToNumberFree.
  destruct (JS_IsObject v) eqn:Hobj; [|by apply Hplain].
  destruct v as [| | | | | | | |[] p]; try done. cbn [JS_ToNumberHintFree].
  pose proof (to_primitive_plain w (JS_MKPTR PTR_OBJECT p)) as Hpl.
  pose proof (to_primitive_wf w (JS_MKPTR PTR_OBJECT p)) as Hwf.
  destruct (to_primitive_number w _) as [w' v]. cbn [snd] in *.
  destruct (JS_IsException v) eqn:Ex.
  - eexists _, _. split; [reflexivity|by left].
  - by apply (Hplain O).
Qed.

(** The conversions with the shared [switch], from the number of a value. *)
Lemma convert_free_spec f g w v w' n : value_wf v ->
  f 0 = 0 -> g S754_nan = Ret 0 ->
  JS_ToNumberFree w v = Ret (w', n) ->
  convert_free f g w v =
    match n with
    | JS_INT k => Ret (w', (0, f k))
    | JS_FLOAT64 d => let* k := g d in Ret (w', (0, k))
    | _ => Ret (w', (-1, 0))
    end.
Proof.
  intros Hv Hf Hg Hn. destruct (to_number_spec w v Hv) as (w2 & n2 & Hn2 & Hok).
  rewrite Hn in Hn2. injection Hn2 as <- <-.
  assert (Hslow : (let* r := JS_ToNumberFree w v in
          let '(w, val) := r in
          if JS_IsException val then Ret (w, (-1, 0)) else int_conversion 1 f g w val)
    = match n with
      | JS_INT k => Ret (w', (0, f k))
      | JS_FLOAT64 d => let* k := g d in Ret (w', (0, k))
      | _ => Ret (w', (-1, 0))
      end).
  { rewrite Hn. cbn [bind]. destruct Hok as [->|Hok]; [done|]. by destruct n. }
  unfold convert_free.
  destruct v; try exact Hslow; cbn [int_conversion]; clear Hslow;
    unfold JS_ToNumberFree in Hn; cbn [JS_ToNumberHintFree JS_VALUE_GET_INT bind] in Hn |- *;
    injection Hn as <- <-; try done.
  - by destruct b.
  - unfold JS_NAN. cbn [bind]. by rewrite Hg, Hf.
Qed.
End conv.

(** ** Results *)

(** An engine for the witnesses: objects convert to [undefined], strings to
    0. *)
#[export] Instance idle_num_engine : NumEngine := {|
  NW := Z;
  to_primitive_number w _ := (w + 1, JS_UNDEFINED);
  string_to_number w _ := (w + 1, JS_INT 0);
  throw_type_error w := w + 1;
  throw_range_error w := w + 1;
  free_value w _ := w;
  int64_oor _ := - 2 ^ 63;
  uint32_oor _ := 0
|}.

#[export] Instance idle_num_engine_ok : NumEngineOk idle_num_engine.
Proof. split; [done|done|]. intros. right. cbn. lia. Qed.

(** C13.  Every value converts to the machine integer that the language
    defines for its number, or to an error when it has none.  On the number
    [n] of the value: [JS_ToInt32Free] and [JS_ToInt64Free] give the integer
    part modulo [2^32] and [2^64] (read from the bits of the double), 0 for
    NaN and the infinities, except that the C code negates the least integer
    (undefined behaviour) when the integer part is negative and congruent to
    [2^31] or [2^63]; the saturating conversions clamp the integer part, but
    for [2^63], which [INT64_MAX] as a double does not exclude from a
    conversion that no [int64_t] holds; the [Uint8Clamped] conversion rounds
    to nearest even; an array length is accepted if and only if the number is
    an integer below [2^32]. *)
Theorem int_conversions_correct (ne : NumEngine) (neok : NumEngineOk ne)
    (oor : spec_float -> Z) (w : NW) (v : JSValue) :
  value_wf v ->
  exists w' n, JS_ToNumberFree w v = Ret (w', n) /\
  match n with
  | JS_INT k =>
      JS_ToInt32Free oor w v = Ret (w', (0, k))
      /\ JS_ToInt64Free w v = Ret (w', (0, k))
      /\ JS_ToInt32SatFree oor w v = Ret (w', (0, k))
      /\ JS_ToInt64SatFree w v = Ret (w', (0, k))
      /\ JS_ToUint8ClampFree w v = Ret (w', (0, clamp 0 255 k))
  | JS_FLOAT64 d =>
      JS_ToInt32Free oor w v
        = (if negation_overflows 32 d then Ub else Ret (w', (0, modular i32 d)))
      /\ JS_ToInt64Free w v
        = (if negation_overflows 64 d then Ub else Ret (w', (0, modular i64 d)))
      /\ JS_ToInt32SatFree oor w v = Ret (w', (0, saturated INT32_MIN INT32_MAX d))
      /\ JS_ToInt64SatFree w v
        = Ret (w', (0, if f64_eqb d f64_2_63 then i64 (int64_oor d)
                       else saturated INT64_MIN INT64_MAX d))
      /\ (exists z, JS_ToUint8ClampFree w v = Ret (w', (0, z))
                    /\ uint8_clamped d z /\ 0 <= z <= 255)
  | _ =>
      n = JS_EXCEPTION
      /\ JS_ToInt32Free oor w v = Ret (w', (-1, 0))
      /\ JS_ToInt64Free w v = Ret (w', (-1, 0))
      /\ JS_ToInt32SatFree oor w v = Ret (w', (-1, 0))
      /\ JS_ToInt64SatFree w v = Ret (w', (-1, 0))
      /\ JS_ToUint8ClampFree w v = Ret (w', (-1, 0))
  end
  /\ (is_number v = true ->
      (exists z, is_length v z
         /\ forall ctor, JS_ToArrayLengthFree oor w v ctor = Ret (w, (0, z)))
      \/ (forall z, ~ is_length v z)
         /\ forall ctor, JS_ToArrayLengthFree oor w v ctor
                         = Ret (throw_range_error w, (-1, 0))).
Proof.
  intros Hv. destruct (to_number_spec w v Hv) as (w' & n & Hn & Hok).
  exists w', n. split; [done|]. split.
  - unfold JS_ToInt32Free, JS_ToInt64Free, JS_ToInt32SatFree, JS_ToInt64SatFree,
      JS_ToUint8ClampFree.
    rewrite !(fun f g => convert_free_spec f g w v w' n Hv) by done.
    destruct Hok as [->|Hok]; [by split_and!|].
    destruct n as [k| | | | | | |d|]; try done; cbn [number_ok] in Hok.
    rewrite f64_to_int32_spec, f64_to_int64_spec, f64_to_int32_sat_spec,
      f64_to_int64_sat_spec by done.
    destruct (f64_to_uint8_clamp_spec d Hok) as (z & -> & Hz & Hb).
    split; [by destruct (negation_overflows 32 d)|].
    split; [by destruct (negation_overflows 64 d)|].
    split; [done|]. split; [done|]. by exists z.
  - intros Hnum. destruct (array_length_spec w v (Hv Hnum)) as [(z & Hz & E)|[Hz E]];
      [left; exists z|right]; (split; [done|]); intros ctor; by destruct v.
Qed.

(** The double [2^52 + 7] converts through its bits. *)
Lemma int_conversions_correct_witness :
  JS_ToInt32Free (fun _ => 0) 0 (JS_FLOAT64 (f64_of_Z (2 ^ 52 + 7))) = Ret (0, (0, 7))
  /\ exists w' n, JS_ToNumberFree 0 (JS_FLOAT64 (f64_of_Z (2 ^ 52 + 7))) = Ret (w', n) /\
     match n with
     | JS_FLOAT64 d =>
         JS_ToInt32Free (fun _ => 0) 0 (JS_FLOAT64 (f64_of_Z (2 ^ 52 + 7)))
         = (if negation_overflows 32 d then Ub else Ret (w', (0, modular i32 d)))
     | _ => True
     end.
Proof.
  split; [reflexivity|].
  destruct (int_conversions_correct idle_num_engine idle_num_engine_ok (fun _ => 0) 0
              (JS_FLOAT64 (f64_of_Z (2 ^ 52 + 7)))) as (w' & n & H1 & H2 & _).
  { intros _. reflexivity. }
  exists w', n. split; [exact H1|]. destruct n; try exact I. apply H2.
Defined.
