(* ===== verification/InterpBase.v ===== *)
(** * The frame of the bytecode interpreter ([JS_CallInternal])

    What one turn of the interpreter loop reads and changes: the program
    counter, the operand stack, the local variables and arguments, and the
    rest of the engine.  The functions of the engine that the opcodes call
    are an interface: each is a name with its immediate arguments
    ([rt_fun]), applied to values.  Values are passed as the C types say:
    [Borrow] for [JSCValueonst] and [Own] for [JSValue], whose reference the
    callee consumes; every [JS_DupValue], [JS_FreeValue] and transfer of a
    reference is recorded in the trace of the frame. *)

From stdpp Require Import base tactics numbers list option.
From Stdlib Require Import ZArith Lia SpecFloat.
From S2P Require Import Prelude Cutils Opcodes Values.

Open Scope Z_scope.

(** ** The engine behind the interpreter *)

(** The functions that the opcodes call, with the arguments that are not
    values: atoms, flags, indexes. *)
Inductive rt_fun :=
  (* exceptions and errors *)
  | js_throw_error (kind atom : Z)       (* the JS_Throw*Error* functions *)
  | JS_Throw
  | take_current_exception               (* reads and clears current_exception *)
  | JS_IsUncatchableError                (* of current_exception *)
  | build_backtrace (pc : Z)             (* when is_backtrace_needed *)
  | js_poll_interrupts
  (* calls *)
  | JS_CallInternal
  | JS_CallConstructorInternal
  | JS_Call
  | JS_CallFree
  | JS_EvalObject (flags scope_idx : Z)
  | js_same_value_eval_obj
  | js_function_apply (magic : Z)
  | build_arg_list
  | call_arg_list                        (* JS_Call on the built list *)
  | eval_arg_list (scope_idx : Z)        (* JS_EvalObject on its first element *)
  | free_arg_list
  (* creation *)
  | JS_NewObject
  | JS_NewArray
  | JS_NewObjectProto
  | JS_NewObjectProtoClass (class_id : Z)
  | JS_NewSymbolFromAtom (atom atom_type : Z)
  | JS_AtomToValue (atom : Z)
  | JS_AtomToString (atom : Z)
  | js_closure
  | js_closure2
  | js_build_arguments
  | js_build_mapped_arguments (arg_count : Z)
  | js_build_rest (first : Z)
  | js_import_meta
  | js_dynamic_import
  | js_regexp_constructor_internal
  (* conversions *)
  | JS_ToObject
  | JS_ToBoolFree
  | JS_ToFloat64Free
  | JS_ToInt32Free
  | JS_ToUint32Free
  | JS_ToPrimitiveFree (hint : Z)
  | JS_ToPropertyKey
  | JS_ValueToAtom
  | JS_FreeAtom (atom : Z)
  | JS_ConcatString
  (* predicates *)
  | JS_IsHTMLDDA
  | JS_IsFunction
  | JS_IsConstructor
  | JS_IsInstanceOf
  | is_normal_function                   (* b->func_kind == JS_FUNC_NORMAL *)
  | js_string_compare_values
  (* properties *)
  | JS_GetPrototype
  | JS_SetPrototypeInternal
  | JS_HasProperty (atom : Z)
  | JS_GetProperty (atom : Z)
  | JS_GetPropertyInternal (atom : Z)
  | JS_GetPropertyValue
  | JS_SetPropertyInternal (atom flags : Z)
  | JS_SetPropertyGeneric (atom flags : Z)
  | JS_SetPropertyValue (flags : Z)
  | JS_DefineProperty (atom flags : Z)
  | JS_DefinePropertyValue (atom flags : Z)
  | JS_DefinePropertyValueValue (flags : Z)
  | JS_DeleteProperty (atom flags : Z)
  | JS_GetPrivateField
  | JS_SetPrivateField
  | JS_DefinePrivateField
  | JS_CheckBrand
  | JS_AddBrand
  | JS_DefineObjectName (atom flags : Z)
  | JS_DefineObjectNameComputed (flags : Z)
  | js_method_set_home_object
  | js_method_set_properties (atom flags : Z)
  | JS_CopyDataProperties (setprop : Z)
  | JS_SetConstructorBit
  | set_cycle_flag
  | js_append_enumerate_internal (pos : Z)
  (* variables *)
  | JS_CheckGlobalVar (atom : Z)
  | JS_GetGlobalVar (atom throw_ref_error : Z)
  | JS_SetGlobalVar (atom flag : Z)
  | JS_CheckDefineGlobalVar (atom flags : Z)
  | JS_DefineGlobalVar (atom flags : Z)
  | JS_DefineGlobalFunction (atom flags : Z)
  | find_global_var (atom : Z)           (* the lookups of JS_GetGlobalVarRef *)
  | js_throw_uninitialized (idx is_ref : Z)
  | close_lexical_var (idx : Z)
  | get_var_ref (idx is_arg : Z)
  | dup_var_ref (idx : Z)
  | add_property_var_ref (atom : Z)
  (* iteration *)
  | build_for_in_iterator
  | js_for_in_next_prop
  | JS_GetIterator (is_async : Z)
  | JS_IteratorNext
  | JS_IteratorGetCompleteValue
  | JS_IteratorClose (is_exception_pending : Z).

(** The results of a call: the return code, an integer or a double given
    through a pointer, and a value. *)
Record rt_res := mkRes {
  r_ret : Z;
  r_int : Z;
  r_f64 : spec_float;
  r_val : JSValue
}.

(** The local variables and the arguments of the frame.  Closures refer to
    them, so any call may change their contents. *)
Record locals := mkLocals { var_buf : list JSValue; arg_buf : list JSValue }.

Class Runtime := {
  World : Type;
  rt_call : rt_fun -> list JSValue -> World * locals -> World * locals * rt_res;
  (** A call whose [argv] is in the operand stack: the callee may change it. *)
  rt_call_argv : rt_fun -> list JSValue -> list JSValue -> World * locals ->
                 World * locals * list JSValue * rt_res;
  rt_free : JSValue -> World -> World;
  (** [*var_refs[i]->pvalue] *)
  rt_pvalue : World -> Z -> JSValue;
  rt_set_pvalue : World -> Z -> JSValue -> World;
  (** The C library and the target. *)
  fmod : spec_float -> spec_float -> spec_float;
  pow : spec_float -> spec_float -> spec_float;
  int32_oor : spec_float -> Z
}.

(** What every function of the engine respects: the sizes of the variable
    and argument blocks; catch offsets never escape as results;
    [ToPrimitive] gives no object; [JS_IteratorNext] sets [*pdone] to a
    boolean. *)
Definition plain_value (v : JSValue) : Prop :=
  match v with JS_CATCH_OFFSET _ => False | _ => True end.

Definition same_sizes (l l' : locals) : Prop :=
  length (var_buf l') = length (var_buf l)
  /\ length (arg_buf l') = length (arg_buf l).

Class RuntimeOk (rt : Runtime) : Prop := {
  rt_call_locals : forall f args s,
    same_sizes s.2 (rt_call f args s).1.2;
  rt_call_val : forall f args s, plain_value (r_val (rt_call f args s).2);
  rt_call_argv_locals : forall f fixed args s,
    same_sizes s.2 (rt_call_argv f fixed args s).1.1.2;
  rt_call_argv_length : forall f fixed args s,
    length (rt_call_argv f fixed args s).1.2 = length args;
  rt_call_argv_val : forall f fixed args s,
    plain_value (r_val (rt_call_argv f fixed args s).2)
    /\ Forall plain_value (rt_call_argv f fixed args s).1.2;
  rt_to_primitive : forall hint args s,
    JS_IsObject (r_val (rt_call (JS_ToPrimitiveFree hint) args s).2) = false;
  rt_iterator_next : forall args s, 0 <= r_int (rt_call JS_IteratorNext args s).2
}.

(** ** The function and its frame *)

(** What does not change while the function runs: the bytecode, and the
    values that [JS_CallInternal] was given or finds in its context. *)
Record fn_env := mkEnv {
  byte_code : list Z;
  cpool : list JSValue;
  js_mode_strict : bool;
  arg_count : Z;
  var_refs : list Z;
  this_obj : JSValue;
  new_target : JSValue;
  cur_func : JSValue;
  home_object : option Z;
  argc : Z;
  is_normal : bool;                  (* b->func_kind == JS_FUNC_NORMAL *)
  global_obj : JSValue;
  global_var_obj : JSValue;
  function_proto : JSValue;
  object_proto : JSValue
}.

(** The transfers of references of the frame. *)
Inductive event :=
  | EvDup (v : JSValue)              (* JS_DupValue *)
  | EvFree (v : JSValue)             (* JS_FreeValue *)
  | EvTake (v : JSValue)             (* given to a callee or to a variable *)
  | EvNew (v : JSValue).             (* received *)

Inductive arg := Borrow (v : JSValue) | Own (v : JSValue).
Definition arg_val (a : arg) : JSValue :=
  match a with Borrow v | Own v => v end.
Definition arg_event (a : arg) : list event :=
  match a with Borrow _ => [] | Own v => [EvTake v] end.

Section frame.
Context {rt : Runtime}.

(** The operand stack [sp] has its top first: [sp[-1]] is the head. *)
Record frame := mkFrame {
  pc : Z;
  sp : list JSValue;
  lv : locals;
  world : World;
  trace : list event
}.

Definition set_pc (s : frame) (p : Z) : frame :=
  mkFrame p (sp s) (lv s) (world s) (trace s).
Definition set_sp (s : frame) (l : list JSValue) : frame :=
  mkFrame (pc s) l (lv s) (world s) (trace s).
Definition set_rt (s : frame) (w : World) (l : locals) (ev : list event) : frame :=
  mkFrame (pc s) (sp s) l w (trace s ++ ev).

Definition M (A : Type) : Type := frame -> res (frame * A).

Definition mret {A} (a : A) : M A := fun s => Ret (s, a).
Definition mbind {A B} (m : M A) (k : A -> M B) : M B :=
  fun s => let* r := m s in k r.2 r.1.
Definition ub {A} : M A := fun _ => Ub.
Definition lift {A} (e : res A) : M A := fun s => let* a := e in Ret (s, a).

(** ** The operand stack *)

Definition push (v : JSValue) : M unit :=
  fun s => Ret (set_sp s (v :: sp s), tt).

(** [sp[-n]] *)
Definition sp_get (n : nat) : M JSValue :=
  fun s => match n with
           | O => Ub
           | S n => match sp s !! n with Some v => Ret (s, v) | None => Ub end
           end.

Definition sp_set (n : nat) (v : JSValue) : M unit :=
  fun s => match n with
           | O => Ub
           | S n => match sp s !! n with
                    | Some _ => Ret (set_sp s (<[n := v]> (sp s)), tt)
                    | None => Ub
                    end
           end.

(** [sp -= n] *)
Definition sp_drop (n : nat) : M unit :=
  fun s => if decide (n <= length (sp s))%nat
           then Ret (set_sp s (drop n (sp s)), tt) else Ub.

(** [*--sp] *)
Definition pop : M JSValue :=
  fun s => match sp s with [] => Ub | v :: l => Ret (set_sp s l, v) end.

(** [call_argv = sp - n]: the [n] values on top, the last argument first. *)
Definition sp_args (n : nat) : M (list JSValue) :=
  fun s => if decide (n <= length (sp s))%nat
           then Ret (s, take n (sp s)) else Ub.

(** ** The code *)

Context (b : fn_env).

Definition code_u8 (off : Z) : M Z :=
  fun s => let* v := get_u8 (byte_code b) (pc s + off) in Ret (s, v).
Definition code_u16 (off : Z) : M Z :=
  fun s => let* v := get_u16 (byte_code b) (pc s + off) in Ret (s, v).
Definition code_u32 (off : Z) : M Z :=
  fun s => let* v := get_u32 (byte_code b) (pc s + off) in Ret (s, v).
(** [pc += n] *)
Definition adv (n : Z) : M unit := fun s => Ret (set_pc s (pc s + n), tt).

Definition i8 (z : Z) : Z := if u8 z <? 2 ^ 7 then u8 z else u8 z - 2 ^ 8.
Definition i16 (z : Z) : Z := if u16 z <? 2 ^ 15 then u16 z else u16 z - 2 ^ 16.

(** ** References and calls *)

Definition dup (v : JSValue) : M JSValue :=
  fun s => Ret (set_rt s (world s) (lv s) [EvDup v], v).
Definition free (v : JSValue) : M unit :=
  fun s => Ret (set_rt s (rt_free v (world s)) (lv s) [EvFree v], tt).
Fixpoint free_list (l : list JSValue) : M unit :=
  match l with
  | [] => mret tt
  | v :: l => mbind (free v) (fun _ => free_list l)
  end.

Definition rcall (f : rt_fun) (args : list arg) : M rt_res :=
  fun s =>
    let '(w, l, r) := rt_call f (arg_val <$> args) (world s, lv s) in
    Ret (set_rt s w l (flat_map arg_event args), r).

(** A call for its return code. *)
Definition rcall_int (f : rt_fun) (args : list arg) : M Z :=
  mbind (rcall f args) (fun r => mret (r_ret r)).

(** A call that gives a value. *)
Definition rcall_val (f : rt_fun) (args : list arg) : M JSValue :=
  mbind (rcall f args) (fun r =>
    fun s => Ret (set_rt s (world s) (lv s) [EvNew (r_val r)], r_val r)).

(** A call that gives a value and an integer through a pointer. *)
Definition rcall_val_int (f : rt_fun) (args : list arg) : M (JSValue * Z) :=
  mbind (rcall f args) (fun r =>
    fun s => Ret (set_rt s (world s) (lv s) [EvNew (r_val r)],
                  (r_val r, r_int r))).

(** A call on the [n] values on top of the stack as [argv]. *)
Definition rcall_argv (f : rt_fun) (args : list arg) (n : nat) : M JSValue :=
  fun s =>
    if decide (n <= length (sp s))%nat then
      let argv := take n (sp s) in
      let '(w, l, argv', r) :=
        rt_call_argv f (arg_val <$> args) argv (world s, lv s) in
      let s := set_rt s w l (flat_map arg_event args ++ (EvTake <$> argv)
                             ++ (EvNew <$> argv') ++ [EvNew (r_val r)]) in
      Ret (set_sp s (argv' ++ drop n (sp s)), r_val r)
    else Ub.

(** ** Variables *)

Definition get_var (idx : Z) : M JSValue :=
  fun s => let* v := rd (var_buf (lv s)) idx in Ret (s, v).
Definition get_arg (idx : Z) : M JSValue :=
  fun s => let* v := rd (arg_buf (lv s)) idx in Ret (s, v).

(** [set_value]: the new value is stored before the old one is freed. *)
Definition set_var (idx : Z) (v : JSValue) : M unit :=
  fun s =>
    let* old := rd (var_buf (lv s)) idx in
    let* l := wr (var_buf (lv s)) idx v in
    free old (set_rt s (world s) (mkLocals l (arg_buf (lv s)))
                [EvTake v; EvNew old]).
Definition set_arg (idx : Z) (v : JSValue) : M unit :=
  fun s =>
    let* old := rd (arg_buf (lv s)) idx in
    let* l := wr (arg_buf (lv s)) idx v in
    free old (set_rt s (world s) (mkLocals (var_buf (lv s)) l)
                [EvTake v; EvNew old]).
(** [var_buf[idx] = v], without freeing what was there. *)
Definition assign_var (idx : Z) (v : JSValue) : M unit :=
  fun s =>
    let* old := rd (var_buf (lv s)) idx in
    let* l := wr (var_buf (lv s)) idx v in
    Ret (set_rt s (world s) (mkLocals l (arg_buf (lv s)))
           [EvTake v; EvNew old], tt).

(** [*var_refs[idx]->pvalue] *)
Definition get_ref (idx : Z) : M JSValue :=
  fun s => let* r := rd (var_refs b) idx in Ret (s, rt_pvalue (world s) r).
Definition set_ref (idx : Z) (v : JSValue) : M unit :=
  fun s =>
    let* r := rd (var_refs b) idx in
    let old := rt_pvalue (world s) r in
    free old (set_rt s (rt_set_pvalue (world s) r v) (lv s)
                [EvTake v; EvNew old]).

Definition get_const (idx : Z) : M JSValue :=
  fun s => let* v := rd (cpool b) idx in Ret (s, v).
End frame.

Declare Scope interp_scope.
Delimit Scope interp_scope with interp.
Notation "'let!' p := e 'in' k" := (mbind e (fun p => k))
  (at level 10, p pattern, e at level 100, k at level 200,
   format "'[v' 'let!'  p  :=  e  'in' '/' k ']'") : interp_scope.
Notation "m ;; k" := (mbind m (fun _ => k))
  (at level 100, k at level 200, right associativity) : interp_scope.

(** How an instruction ends. *)
Inductive outcome :=
  | BREAK                            (* the next instruction *)
  | EXCEPTION                        (* goto exception *)
  | DONE (ret_val : JSValue)         (* goto done *)
  | DONE_GENERATOR (ret_val : JSValue).
