(* ===== verification/InterpOps.v ===== *)
(** * The opcodes of the interpreter ([JS_CallInternal]): stack, calls,
    variables and jumps

    One definition per run of cases of the [switch]; a definition gives
    [None] for the opcodes of the other runs.  The operator and property
    opcodes are in [InterpOps2]. *)

From stdpp Require Import base tactics numbers list option.
From Stdlib Require Import ZArith Lia SpecFloat.
From S2P Require Import Prelude Cutils Opcodes Values InterpBase.

Open Scope Z_scope.
Open Scope interp_scope.

Definition JS_ATOM_empty_string : Z := 47.
Definition JS_ATOM_length : Z := 48.
Definition JS_CLASS_OBJECT : Z := 1.
Definition JS_PROP_C_W_E : Z := 7.
Definition JS_PROP_THROW : Z := Z.shiftl 1 14.
Definition JS_ATOM_TYPE_PRIVATE : Z := 4.
Definition JS_EVAL_TYPE_DIRECT : Z := 2.
Definition FUNC_RET_AWAIT : Z := 0.
Definition FUNC_RET_YIELD : Z := 1.
Definition FUNC_RET_YIELD_STAR : Z := 2.

Section ops.
Context {rt : Runtime} (b : fn_env).

(** [if (cond) goto exception; BREAK] *)
Definition exc_if (cond : bool) : M outcome :=
  mret (if cond then EXCEPTION else BREAK).

(** [*sp++ = val; if (JS_IsException(sp[-1])) goto exception; BREAK] *)
Definition push_check (val : JSValue) : M outcome :=
  push val ;; exc_if (JS_IsException val).

(** A call that gives the value to push. *)
Definition push_call (f : rt_fun) (args : list arg) : M outcome :=
  let! v := rcall_val f args in push_check v.

(** Replaces the top by the result of a call on it, which is then freed;
    an exception leaves the stack as it is. *)
Definition replace_top_call (f : rt_fun) : M outcome :=
  let! a := sp_get 1 in
  let! val := rcall_val f [Borrow a] in
  if JS_IsException val then mret EXCEPTION
  else free a ;; sp_set 1 val ;; mret BREAK.

(** ** Pushing values *)

Definition push_this : M outcome :=
  let tag := JS_VALUE_GET_TAG (this_obj b) in
  if negb (js_mode_strict b) && negb (tag =? JS_TAG_OBJECT) then
    if (tag =? JS_TAG_NULL) || (tag =? JS_TAG_UNDEFINED) then
      let! v := dup (global_obj b) in push v ;; mret BREAK
    else
      let! v := rcall_val JS_ToObject [Borrow (this_obj b)] in
      if JS_IsException v then mret EXCEPTION else push v ;; mret BREAK
  else let! v := dup (this_obj b) in push v ;; mret BREAK.

Definition special_object (arg : Z) : M outcome :=
  match arg with
  | 0 => push_call js_build_arguments []
  | 1 => push_call (js_build_mapped_arguments (min_int (argc b) (arg_count b))) []
  | 2 => let! v := dup (cur_func b) in push v ;; mret BREAK
  | 3 => let! v := dup (new_target b) in push v ;; mret BREAK
  | 4 => match home_object b with
         | None => push JS_UNDEFINED ;; mret BREAK
         | Some p1 =>
             let! v := dup (JS_MKPTR PTR_OBJECT p1) in push v ;; mret BREAK
         end
  | 5 => push_call JS_NewObjectProto [Borrow JS_NULL]
  | 6 => push_call js_import_meta []
  | _ => ub                                                  (* abort() *)
  end.

Definition exec_push (op : OPCodeEnum) : option (M outcome) :=
  match op with
  | OP_push_i32 => Some (
      let! v := code_u32 b 0 in push (JS_NewInt32 v) ;; adv 4 ;; mret BREAK)
  | OP_push_const => Some (
      let! i := code_u32 b 0 in
      let! c := get_const b i in
      let! v := dup c in
      push v ;; adv 4 ;; mret BREAK)
  | OP_push_minus1 | OP_push_0 | OP_push_1 | OP_push_2 | OP_push_3 | OP_push_4
  | OP_push_5 | OP_push_6 | OP_push_7 => Some (
      push (JS_NewInt32 (op_num op - op_num OP_push_0)) ;; mret BREAK)
  | OP_push_i8 => Some (
      let! v := code_u8 b 0 in push (JS_NewInt32 (i8 v)) ;; adv 1 ;; mret BREAK)
  | OP_push_i16 => Some (
      let! v := code_u16 b 0 in push (JS_NewInt32 (i16 v)) ;; adv 2 ;; mret BREAK)
  | OP_push_const8 => Some (
      let! i := code_u8 b 0 in
      let! c := get_const b i in
      let! v := dup c in
      adv 1 ;; push v ;; mret BREAK)
  | OP_fclosure8 => Some (
      let! i := code_u8 b 0 in
      let! c := get_const b i in
      let! v := dup c in
      adv 1 ;; push_call js_closure [Own v])
  | OP_push_empty_string => Some (
      let! v := rcall_val (JS_AtomToString JS_ATOM_empty_string) [] in
      push v ;; mret BREAK)
  | OP_get_length => Some (replace_top_call (JS_GetProperty JS_ATOM_length))
  | OP_push_atom_value => Some (
      let! a := code_u32 b 0 in
      let! v := rcall_val (JS_AtomToValue a) [] in
      push v ;; adv 4 ;; mret BREAK)
  | OP_undefined => Some (push JS_UNDEFINED ;; mret BREAK)
  | OP_null => Some (push JS_NULL ;; mret BREAK)
  | OP_push_this => Some push_this
  | OP_push_false => Some (push JS_FALSE ;; mret BREAK)
  | OP_push_true => Some (push JS_TRUE ;; mret BREAK)
  | OP_object => Some (push_call JS_NewObject [])
  | OP_special_object => Some (
      let! arg := code_u8 b 0 in adv 1 ;; special_object arg)
  | OP_rest => Some (
      let! first := code_u16 b 0 in adv 2 ;; push_call (js_build_rest first) [])
  | _ => None
  end.

(** ** Stack manipulation *)

Definition exec_stack (op : OPCodeEnum) : option (M outcome) :=
  match op with
  | OP_drop => Some (let! a := sp_get 1 in free a ;; sp_drop 1 ;; mret BREAK)
  | OP_nip => Some (
      let! a := sp_get 2 in free a ;;
      let! x := sp_get 1 in sp_set 2 x ;; sp_drop 1 ;; mret BREAK)
  | OP_nip1 => Some (                                   (* a b c -> b c *)
      let! a := sp_get 3 in free a ;;
      let! x := sp_get 2 in sp_set 3 x ;;
      let! y := sp_get 1 in sp_set 2 y ;; sp_drop 1 ;; mret BREAK)
  | OP_dup => Some (
      let! a := sp_get 1 in let! a := dup a in push a ;; mret BREAK)
  | OP_dup2 => Some (                                   (* a b -> a b a b *)
      let! x := sp_get 2 in let! x := dup x in
      let! y := sp_get 1 in let! y := dup y in
      push x ;; push y ;; mret BREAK)
  | OP_dup3 => Some (                             (* a b c -> a b c a b c *)
      let! x := sp_get 3 in let! x := dup x in
      let! y := sp_get 2 in let! y := dup y in
      let! z := sp_get 1 in let! z := dup z in
      push x ;; push y ;; push z ;; mret BREAK)
  | OP_dup1 => Some (                                     (* a b -> a a b *)
      let! t := sp_get 1 in
      let! a := sp_get 2 in let! a := dup a in
      sp_set 1 a ;; push t ;; mret BREAK)
  | OP_insert2 => Some (                              (* obj a -> a obj a *)
      let! t := sp_get 1 in
      let! x := sp_get 2 in sp_set 1 x ;;
      let! a := dup t in
      sp_set 2 a ;; push t ;; mret BREAK)
  | OP_insert3 => Some (                    (* obj prop a -> a obj prop a *)
      let! t := sp_get 1 in
      let! x := sp_get 2 in sp_set 1 x ;;
      let! y := sp_get 3 in sp_set 2 y ;;
      let! a := dup t in
      sp_set 3 a ;; push t ;; mret BREAK)
  | OP_insert4 => Some (          (* this obj prop a -> a this obj prop a *)
      let! t := sp_get 1 in
      let! x := sp_get 2 in sp_set 1 x ;;
      let! y := sp_get 3 in sp_set 2 y ;;
      let! z := sp_get 4 in sp_set 3 z ;;
      let! a := dup t in
      sp_set 4 a ;; push t ;; mret BREAK)
  | OP_perm3 => Some (                          (* obj a b -> a obj b (213) *)
      let! tmp := sp_get 2 in
      let! x := sp_get 3 in sp_set 2 x ;; sp_set 3 tmp ;; mret BREAK)
  | OP_rot3l => Some (                             (* x a b -> a b x (231) *)
      let! tmp := sp_get 3 in
      let! x := sp_get 2 in sp_set 3 x ;;
      let! y := sp_get 1 in sp_set 2 y ;; sp_set 1 tmp ;; mret BREAK)
  | OP_rot4l => Some (                              (* x a b c -> a b c x *)
      let! tmp := sp_get 4 in
      let! x := sp_get 3 in sp_set 4 x ;;
      let! y := sp_get 2 in sp_set 3 y ;;
      let! z := sp_get 1 in sp_set 2 z ;; sp_set 1 tmp ;; mret BREAK)
  | OP_rot5l => Some (                          (* x a b c d -> a b c d x *)
      let! tmp := sp_get 5 in
      let! x := sp_get 4 in sp_set 5 x ;;
      let! y := sp_get 3 in sp_set 4 y ;;
      let! z := sp_get 2 in sp_set 3 z ;;
      let! t := sp_get 1 in sp_set 2 t ;; sp_set 1 tmp ;; mret BREAK)
  | OP_rot3r => Some (                             (* a b x -> x a b (312) *)
      let! tmp := sp_get 1 in
      let! x := sp_get 2 in sp_set 1 x ;;
      let! y := sp_get 3 in sp_set 2 y ;; sp_set 3 tmp ;; mret BREAK)
  | OP_perm4 => Some (                    (* obj prop a b -> a obj prop b *)
      let! tmp := sp_get 2 in
      let! x := sp_get 3 in sp_set 2 x ;;
      let! y := sp_get 4 in sp_set 3 y ;; sp_set 4 tmp ;; mret BREAK)
  | OP_perm5 => Some (          (* this obj prop a b -> a this obj prop b *)
      let! tmp := sp_get 2 in
      let! x := sp_get 3 in sp_set 2 x ;;
      let! y := sp_get 4 in sp_set 3 y ;;
      let! z := sp_get 5 in sp_set 4 z ;; sp_set 5 tmp ;; mret BREAK)
  | OP_swap => Some (                                       (* a b -> b a *)
      let! tmp := sp_get 2 in
      let! x := sp_get 1 in sp_set 2 x ;; sp_set 1 tmp ;; mret BREAK)
  | OP_swap2 => Some (                              (* a b c d -> c d a b *)
      let! tmp1 := sp_get 4 in
      let! tmp2 := sp_get 3 in
      let! x := sp_get 2 in sp_set 4 x ;;
      let! y := sp_get 1 in sp_set 3 y ;;
      sp_set 2 tmp1 ;; sp_set 1 tmp2 ;; mret BREAK)
  | _ => None
  end.

(** ** Calls *)

(** [for(i = -k; i < call_argc; i++) JS_FreeValue(call_argv[i]);
     sp -= call_argc + k; *sp++ = ret_val;] *)
Definition return_call (n : nat) (ret_val : JSValue) : M outcome :=
  let! vals := sp_args n in
  free_list (rev vals) ;; sp_drop n ;; push ret_val ;; mret BREAK.

Definition has_call_argc (op : OPCodeEnum) (call_argc : Z) : M outcome :=
  let n := Z.to_nat call_argc in
  let! func := sp_get (S n) in
  let! ret_val := rcall_argv JS_CallInternal
    [Borrow func; Borrow JS_UNDEFINED; Borrow JS_UNDEFINED] n in
  if JS_IsException ret_val then mret EXCEPTION
  else if decide (op = OP_tail_call) then mret (DONE ret_val)
  else return_call (S n) ret_val.

Definition call_method (op : OPCodeEnum) (call_argc : Z) : M outcome :=
  let n := Z.to_nat call_argc in
  let! func := sp_get (S n) in
  let! this := sp_get (S (S n)) in
  let! ret_val := rcall_argv JS_CallInternal
    [Borrow func; Borrow this; Borrow JS_UNDEFINED] n in
  if JS_IsException ret_val then mret EXCEPTION
  else if decide (op = OP_tail_call_method) then mret (DONE ret_val)
  else return_call (S (S n)) ret_val.

(** The loop of [OP_array_from]: element [i] is [call_argv[i]]; [left] are
    still to be defined. *)
Fixpoint array_from_loop (ret_val : JSValue) (i : Z) (left : nat) : M bool :=
  match left with
  | O => mret false
  | S k =>
      let! v := sp_get left in
      let! ret := rcall_int (JS_DefinePropertyValue (Z.lor (Z.shiftl 1 31) i)
        (Z.lor JS_PROP_C_W_E JS_PROP_THROW)) [Borrow ret_val; Own v] in
      sp_set left JS_UNDEFINED ;;
      if ret <? 0 then free ret_val ;; mret true
      else array_from_loop ret_val (i + 1) k
  end.

Definition array_from (call_argc : Z) : M outcome :=
  let! ret_val := rcall_val JS_NewArray [] in
  if JS_IsException ret_val then mret EXCEPTION
  else
    let! failed := array_from_loop ret_val 0 (Z.to_nat call_argc) in
    if failed : bool then mret EXCEPTION
    else sp_drop (Z.to_nat call_argc) ;; push ret_val ;; mret BREAK.

Definition exec_call (op : OPCodeEnum) : option (M outcome) :=
  match op with
  | OP_fclosure => Some (
      let! i := code_u32 b 0 in
      let! c := get_const b i in
      let! bfunc := dup c in
      adv 4 ;; push_call js_closure [Own bfunc])
  | OP_call0 | OP_call1 | OP_call2 | OP_call3 => Some (
      has_call_argc op (op_num op - op_num OP_call0))
  | OP_call | OP_tail_call => Some (
      let! call_argc := code_u16 b 0 in adv 2 ;; has_call_argc op call_argc)
  | OP_call_constructor => Some (
      let! call_argc := code_u16 b 0 in
      adv 2 ;;
      let n := Z.to_nat call_argc in
      let! func := sp_get (S (S n)) in
      let! target := sp_get (S n) in
      let! ret_val := rcall_argv JS_CallConstructorInternal
        [Borrow func; Borrow target] n in
      if JS_IsException ret_val then mret EXCEPTION
      else return_call (S (S n)) ret_val)
  | OP_call_method | OP_tail_call_method => Some (
      let! call_argc := code_u16 b 0 in adv 2 ;; call_method op call_argc)
  | OP_array_from => Some (
      let! call_argc := code_u16 b 0 in adv 2 ;; array_from call_argc)
  | OP_apply => Some (
      let! magic := code_u16 b 0 in
      adv 2 ;;
      let! f := sp_get 3 in let! x := sp_get 2 in let! y := sp_get 1 in
      let! ret_val := rcall_val (js_function_apply magic)
        [Borrow f; Borrow x; Borrow y] in
      if JS_IsException ret_val then mret EXCEPTION
      else
        free f ;; free x ;; free y ;;
        sp_drop 3 ;; push ret_val ;; mret BREAK)
  | OP_return => Some (let! ret_val := pop in mret (DONE ret_val))
  | OP_return_undef => Some (mret (DONE JS_UNDEFINED))
  | _ => None
  end.

(** ** Checks, errors, [eval] *)

Definition eval (call_argc scope_idx : Z) : M outcome :=
  let n := Z.to_nat call_argc in
  let! func := sp_get (S n) in
  let! same := rcall_int js_same_value_eval_obj [Borrow func] in
  let! ret_val :=
    if negb (same =? 0) then
      let! obj := if 1 <=? call_argc then sp_get n else mret JS_UNDEFINED in
      rcall_val (JS_EvalObject JS_EVAL_TYPE_DIRECT scope_idx)
        [Borrow JS_UNDEFINED; Borrow obj]
    else
      rcall_argv JS_CallInternal
        [Borrow func; Borrow JS_UNDEFINED; Borrow JS_UNDEFINED] n in
  if JS_IsException ret_val then mret EXCEPTION
  else return_call (S n) ret_val.

Definition apply_eval (scope_idx : Z) : M outcome :=
  let! arr := sp_get 1 in
  let! tab := rcall_int build_arg_list [Borrow arr] in
  if tab =? 0 then mret EXCEPTION
  else
    let! func := sp_get 2 in
    let! same := rcall_int js_same_value_eval_obj [Borrow func] in
    let! ret_val :=
      if negb (same =? 0) then rcall_val (eval_arg_list scope_idx) []
      else rcall_val call_arg_list [Borrow func; Borrow JS_UNDEFINED] in
    let! _ := rcall_int free_arg_list [] in
    if JS_IsException ret_val then mret EXCEPTION
    else free func ;; free arr ;; sp_drop 2 ;; push ret_val ;; mret BREAK.

Definition exec_check (op : OPCodeEnum) : option (M outcome) :=
  match op with
  | OP_check_ctor_return => Some (
      let! v := sp_get 1 in
      if negb (JS_IsObject v) then
        if negb (JS_IsUndefined v) then
          let! _ := rcall_int (js_throw_error 0 0) [] in mret EXCEPTION
        else push JS_TRUE ;; mret BREAK
      else push JS_FALSE ;; mret BREAK)
  | OP_check_ctor => Some (
      if JS_IsUndefined (new_target b) then
        let! _ := rcall_int (js_throw_error 1 0) [] in mret EXCEPTION
      else mret BREAK)
  | OP_check_brand => Some (
      let! x := sp_get 2 in let! y := sp_get 1 in
      let! ret := rcall_int JS_CheckBrand [Borrow x; Borrow y] in
      exc_if (ret <? 0))
  | OP_add_brand => Some (
      let! x := sp_get 2 in let! y := sp_get 1 in
      let! ret := rcall_int JS_AddBrand [Borrow x; Borrow y] in
      if ret <? 0 then mret EXCEPTION
      else free x ;; free y ;; sp_drop 2 ;; mret BREAK)
  | OP_throw => Some (
      let! v := pop in
      let! _ := rcall_int JS_Throw [Own v] in mret EXCEPTION)
  | OP_throw_error => Some (
      let! atom := code_u32 b 0 in
      let! type := code_u8 b 4 in
      adv 5 ;;
      let! _ := rcall_int (js_throw_error (2 + type) atom) [] in
      mret EXCEPTION)
  | OP_eval => Some (
      let! call_argc := code_u16 b 0 in
      let! idx := code_u16 b 2 in
      adv 4 ;; eval call_argc (idx - 1))
  | OP_apply_eval => Some (
      let! idx := code_u16 b 0 in adv 2 ;; apply_eval (idx - 1))
  | OP_regexp => Some (
      let! pattern := sp_get 2 in let! bc := sp_get 1 in
      let! v := rcall_val js_regexp_constructor_internal
        [Borrow JS_UNDEFINED; Own pattern; Own bc] in
      sp_set 2 v ;; sp_drop 1 ;; mret BREAK)
  | OP_get_super => Some (replace_top_call JS_GetPrototype)
  | OP_import => Some (replace_top_call js_dynamic_import)
  | _ => None
  end.

(** ** Global variables *)

Definition exec_global (op : OPCodeEnum) : option (M outcome) :=
  match op with
  | OP_check_var => Some (
      let! atom := code_u32 b 0 in
      adv 4 ;;
      let! ret := rcall_int (JS_CheckGlobalVar atom) [] in
      if ret <? 0 then mret EXCEPTION
      else push (JS_NewBool (negb (ret =? 0))) ;; mret BREAK)
  | OP_get_var_undef | OP_get_var => Some (
      let! atom := code_u32 b 0 in
      adv 4 ;;
      let! val := rcall_val
        (JS_GetGlobalVar atom (op_num op - op_num OP_get_var_undef)) [] in
      if JS_IsException val then mret EXCEPTION else push val ;; mret BREAK)
  | OP_put_var | OP_put_var_init => Some (
      let! atom := code_u32 b 0 in
      adv 4 ;;
      let! v := sp_get 1 in
      let! ret := rcall_int
        (JS_SetGlobalVar atom (op_num op - op_num OP_put_var)) [Own v] in
      sp_drop 1 ;; exc_if (ret <? 0))
  | OP_put_var_strict => Some (
      let! atom := code_u32 b 0 in
      adv 4 ;;
      (* sp[-2] is JS_TRUE or JS_FALSE *)
      let! flag := sp_get 2 in
      let! n := lift (JS_VALUE_GET_INT flag) in
      if n =? 0 then
        let! _ := rcall_int (js_throw_error 8 atom) [] in mret EXCEPTION
      else
        let! v := sp_get 1 in
        let! ret := rcall_int (JS_SetGlobalVar atom 2) [Own v] in
        sp_drop 2 ;; exc_if (ret <? 0))
  | OP_check_define_var => Some (
      let! atom := code_u32 b 0 in
      let! flags := code_u8 b 4 in
      adv 5 ;;
      let! r := rcall_int (JS_CheckDefineGlobalVar atom flags) [] in
      exc_if (negb (r =? 0)))
  | OP_define_var => Some (
      let! atom := code_u32 b 0 in
      let! flags := code_u8 b 4 in
      adv 5 ;;
      let! r := rcall_int (JS_DefineGlobalVar atom flags) [] in
      exc_if (negb (r =? 0)))
  | OP_define_func => Some (
      let! atom := code_u32 b 0 in
      let! flags := code_u8 b 4 in
      adv 5 ;;
      let! v := sp_get 1 in
      let! r := rcall_int (JS_DefineGlobalFunction atom flags) [Borrow v] in
      if negb (r =? 0) then mret EXCEPTION
      else free v ;; sp_drop 1 ;; mret BREAK)
  | _ => None
  end.

(** ** Local variables and arguments *)

Definition exec_loc (op : OPCodeEnum) : option (M outcome) :=
  match op with
  | OP_get_loc => Some (
      let! idx := code_u16 b 0 in
      adv 2 ;;
      let! v := get_var idx in let! v := dup v in push v ;; mret BREAK)
  | OP_put_loc => Some (
      let! idx := code_u16 b 0 in
      adv 2 ;;
      let! v := sp_get 1 in set_var idx v ;; sp_drop 1 ;; mret BREAK)
  | OP_set_loc => Some (
      let! idx := code_u16 b 0 in
      adv 2 ;;
      let! v := sp_get 1 in let! v := dup v in set_var idx v ;; mret BREAK)
  | OP_get_arg => Some (
      let! idx := code_u16 b 0 in
      adv 2 ;;
      let! v := get_arg idx in let! v := dup v in push v ;; mret BREAK)
  | OP_put_arg => Some (
      let! idx := code_u16 b 0 in
      adv 2 ;;
      let! v := sp_get 1 in set_arg idx v ;; sp_drop 1 ;; mret BREAK)
  | OP_set_arg => Some (
      let! idx := code_u16 b 0 in
      adv 2 ;;
      let! v := sp_get 1 in let! v := dup v in set_arg idx v ;; mret BREAK)
  | _ => None
  end.

(** The bodies that the short opcodes share. *)
Definition get_loc_at (idx : Z) : M outcome :=
  let! v := get_var idx in let! v := dup v in push v ;; mret BREAK.
Definition put_loc_at (idx : Z) : M outcome :=
  let! v := pop in set_var idx v ;; mret BREAK.
Definition set_loc_at (idx : Z) : M outcome :=
  let! v := sp_get 1 in let! v := dup v in set_var idx v ;; mret BREAK.
Definition get_arg_at (idx : Z) : M outcome :=
  let! v := get_arg idx in let! v := dup v in push v ;; mret BREAK.
Definition put_arg_at (idx : Z) : M outcome :=
  let! v := pop in set_arg idx v ;; mret BREAK.
Definition set_arg_at (idx : Z) : M outcome :=
  let! v := sp_get 1 in let! v := dup v in set_arg idx v ;; mret BREAK.
Definition get_var_ref_at (idx : Z) : M outcome :=
  let! v := get_ref b idx in let! v := dup v in push v ;; mret BREAK.
Definition put_var_ref_at (idx : Z) : M outcome :=
  let! v := pop in set_ref b idx v ;; mret BREAK.
Definition set_var_ref_at (idx : Z) : M outcome :=
  let! v := sp_get 1 in let! v := dup v in set_ref b idx v ;; mret BREAK.

Definition exec_short_loc (op : OPCodeEnum) : option (M outcome) :=
  match op with
  | OP_get_loc8 => Some (let! idx := code_u8 b 0 in adv 1 ;; get_loc_at idx)
  | OP_put_loc8 => Some (let! idx := code_u8 b 0 in adv 1 ;; put_loc_at idx)
  | OP_set_loc8 => Some (let! idx := code_u8 b 0 in adv 1 ;; set_loc_at idx)
  | OP_get_loc0 => Some (get_loc_at 0)
  | OP_get_loc1 => Some (get_loc_at 1)
  | OP_get_loc2 => Some (get_loc_at 2)
  | OP_get_loc3 => Some (get_loc_at 3)
  | OP_put_loc0 => Some (put_loc_at 0)
  | OP_put_loc1 => Some (put_loc_at 1)
  | OP_put_loc2 => Some (put_loc_at 2)
  | OP_put_loc3 => Some (put_loc_at 3)
  | OP_set_loc0 => Some (set_loc_at 0)
  | OP_set_loc1 => Some (set_loc_at 1)
  | OP_set_loc2 => Some (set_loc_at 2)
  | OP_set_loc3 => Some (set_loc_at 3)
  | OP_get_arg0 => Some (get_arg_at 0)
  | OP_get_arg1 => Some (get_arg_at 1)
  | OP_get_arg2 => Some (get_arg_at 2)
  | OP_get_arg3 => Some (get_arg_at 3)
  | OP_put_arg0 => Some (put_arg_at 0)
  | OP_put_arg1 => Some (put_arg_at 1)
  | OP_put_arg2 => Some (put_arg_at 2)
  | OP_put_arg3 => Some (put_arg_at 3)
  | OP_set_arg0 => Some (set_arg_at 0)
  | OP_set_arg1 => Some (set_arg_at 1)
  | OP_set_arg2 => Some (set_arg_at 2)
  | OP_set_arg3 => Some (set_arg_at 3)
  | OP_get_var_ref0 => Some (get_var_ref_at 0)
  | OP_get_var_ref1 => Some (get_var_ref_at 1)
  | OP_get_var_ref2 => Some (get_var_ref_at 2)
  | OP_get_var_ref3 => Some (get_var_ref_at 3)
  | OP_put_var_ref0 => Some (put_var_ref_at 0)
  | OP_put_var_ref1 => Some (put_var_ref_at 1)
  | OP_put_var_ref2 => Some (put_var_ref_at 2)
  | OP_put_var_ref3 => Some (put_var_ref_at 3)
  | OP_set_var_ref0 => Some (set_var_ref_at 0)
  | OP_set_var_ref1 => Some (set_var_ref_at 1)
  | OP_set_var_ref2 => Some (set_var_ref_at 2)
  | OP_set_var_ref3 => Some (set_var_ref_at 3)
  | _ => None
  end.

(** ** Closure variables and the temporal dead zone *)

Definition throw_uninitialized (idx is_ref : Z) : M outcome :=
  let! _ := rcall_int (js_throw_uninitialized idx is_ref) [] in mret EXCEPTION.

Definition exec_var_ref (op : OPCodeEnum) : option (M outcome) :=
  match op with
  | OP_get_var_ref => Some (
      let! idx := code_u16 b 0 in
      adv 2 ;;
      let! val := get_ref b idx in
      let! v := dup val in push v ;; mret BREAK)
  | OP_put_var_ref => Some (
      let! idx := code_u16 b 0 in
      adv 2 ;;
      let! v := sp_get 1 in set_ref b idx v ;; sp_drop 1 ;; mret BREAK)
  | OP_set_var_ref => Some (
      let! idx := code_u16 b 0 in
      adv 2 ;;
      let! v := sp_get 1 in let! v := dup v in set_ref b idx v ;; mret BREAK)
  | OP_get_var_ref_check => Some (
      let! idx := code_u16 b 0 in
      adv 2 ;;
      let! val := get_ref b idx in
      if JS_IsUninitialized val then throw_uninitialized idx 1
      else let! v := dup val in push v ;; mret BREAK)
  | OP_put_var_ref_check => Some (
      let! idx := code_u16 b 0 in
      adv 2 ;;
      let! val := get_ref b idx in
      if JS_IsUninitialized val then throw_uninitialized idx 1
      else let! v := sp_get 1 in set_ref b idx v ;; sp_drop 1 ;; mret BREAK)
  | OP_put_var_ref_check_init => Some (
      let! idx := code_u16 b 0 in
      adv 2 ;;
      let! val := get_ref b idx in
      if negb (JS_IsUninitialized val) then throw_uninitialized idx 1
      else let! v := sp_get 1 in set_ref b idx v ;; sp_drop 1 ;; mret BREAK)
  | OP_set_loc_uninitialized => Some (
      let! idx := code_u16 b 0 in
      adv 2 ;; set_var idx JS_UNINITIALIZED ;; mret BREAK)
  | OP_get_loc_check => Some (
      let! idx := code_u16 b 0 in
      adv 2 ;;
      let! val := get_var idx in
      if JS_IsUninitialized val then throw_uninitialized idx 0
      else let! v := dup val in push v ;; mret BREAK)
  | OP_put_loc_check => Some (
      let! idx := code_u16 b 0 in
      adv 2 ;;
      let! val := get_var idx in
      if JS_IsUninitialized val then throw_uninitialized idx 0
      else let! v := sp_get 1 in set_var idx v ;; sp_drop 1 ;; mret BREAK)
  | OP_put_loc_check_init => Some (
      let! idx := code_u16 b 0 in
      adv 2 ;;
      let! val := get_var idx in
      if negb (JS_IsUninitialized val) then
        let! _ := rcall_int (js_throw_error 9 0) [] in mret EXCEPTION
      else let! v := sp_get 1 in set_var idx v ;; sp_drop 1 ;; mret BREAK)
  | OP_close_loc => Some (
      let! idx := code_u16 b 0 in
      adv 2 ;;
      let! _ := rcall_int (close_lexical_var idx) [] in mret BREAK)
  | _ => None
  end.

(** A pair object / property name for a variable. *)
Definition make_loc_ref (op : OPCodeEnum) (atom idx : Z) : M outcome :=
  let! obj := rcall_val JS_NewObjectProto [Borrow JS_NULL] in
  push obj ;;
  if JS_IsException obj then mret EXCEPTION
  else
    let! var_ref :=
      if decide (op = OP_make_var_ref_ref) then
        let! _ := get_ref b idx in
        let! _ := rcall_int (dup_var_ref idx) [] in mret 1
      else
        rcall_int (get_var_ref idx
          (if decide (op = OP_make_arg_ref) then 1 else 0)) [] in
    if var_ref =? 0 then mret EXCEPTION
    else
      let! pr := rcall_int (add_property_var_ref atom) [Borrow obj] in
      if pr =? 0 then mret EXCEPTION                (* free_var_ref *)
      else
        let! v := rcall_val (JS_AtomToValue atom) [] in push v ;; mret BREAK.

(** [if (JS_GetGlobalVarRef(ctx, atom, sp)) goto exception; sp += 2]: the
    search tells which object holds the variable, if one does. *)
Definition JS_GetGlobalVarRef (atom : Z) : M outcome :=
  let! r := rcall (find_global_var atom) [] in
  if negb (r_ret r =? 0) then mret EXCEPTION
  else
    let! obj :=
      if r_int r =? 2 then dup (global_var_obj b)
      else if r_int r =? 1 then dup (global_obj b)
      else mret JS_UNDEFINED in
    push obj ;;
    let! v := rcall_val (JS_AtomToValue atom) [] in
    push v ;; mret BREAK.

Definition exec_make_ref (op : OPCodeEnum) : option (M outcome) :=
  match op with
  | OP_make_loc_ref | OP_make_arg_ref | OP_make_var_ref_ref => Some (
      let! atom := code_u32 b 0 in
      let! idx := code_u16 b 4 in
      adv 6 ;; make_loc_ref op atom idx)
  | OP_make_var_ref => Some (
      let! atom := code_u32 b 0 in
      adv 4 ;;
      JS_GetGlobalVarRef atom)
  | _ => None
  end.

(** ** Jumps *)

(** [if (js_poll_interrupts(ctx)) goto exception; BREAK] *)
Definition poll : M outcome :=
  let! r := rcall_int js_poll_interrupts [] in exc_if (negb (r =? 0)).

(** The condition of a branch; [JS_ToBoolFree] frees the operand. *)
Definition branch_test (op1 : JSValue) : M Z :=
  let tag := JS_VALUE_GET_TAG op1 in
  if (0 <=? tag) && (tag <=? JS_TAG_UNDEFINED) then
    lift (JS_VALUE_GET_INT op1)
  else rcall_int JS_ToBoolFree [Own op1].

(** [op_size] bytes of operand, of value [diff]. *)
Definition branch (jump_if : bool) (op_size diff : Z) : M outcome :=
  let! op1 := sp_get 1 in
  adv op_size ;;
  let! res := branch_test op1 in
  sp_drop 1 ;;
  (if Bool.eqb (negb (res =? 0)) jump_if then adv (diff - op_size) else mret tt) ;;
  poll.

Definition exec_jump (op : OPCodeEnum) : option (M outcome) :=
  match op with
  | OP_goto => Some (let! d := code_u32 b 0 in adv (i32 d) ;; poll)
  | OP_goto16 => Some (let! d := code_u16 b 0 in adv (i16 d) ;; poll)
  | OP_goto8 => Some (let! d := code_u8 b 0 in adv (i8 d) ;; poll)
  | OP_if_true => Some (let! d := code_u32 b 0 in branch true 4 (i32 d))
  | OP_if_false => Some (let! d := code_u32 b 0 in branch false 4 (i32 d))
  | OP_if_true8 => Some (let! d := code_u8 b 0 in branch true 1 (i8 d))
  | OP_if_false8 => Some (let! d := code_u8 b 0 in branch false 1 (i8 d))
  | OP_catch => Some (
      let! d := code_u32 b 0 in
      fun s => (push (JS_NewCatchOffset (pc s + i32 d)) ;; adv 4 ;; mret BREAK) s)
  | OP_gosub => Some (
      let! d := code_u32 b 0 in
      fun s => (push (JS_NewInt32 (pc s + 4)) ;; adv (i32 d) ;; mret BREAK) s)
  | OP_ret => Some (
      let! op1 := sp_get 1 in
      let ret_fail :=
        let! _ := rcall_int (js_throw_error 10 0) [] in mret EXCEPTION in
      match op1 with
      | JS_INT n =>
          (* pos is unsigned *)
          if Z.of_nat (length (byte_code b)) <=? u32 n then ret_fail
          else sp_drop 1 ;; fun s => Ret (set_pc s (u32 n), BREAK)
      | _ => ret_fail
      end)
  | _ => None
  end.
End ops.
