(* ===== verification/InterpOps2.v ===== *)
(** * The opcodes of the interpreter: iteration, properties and operators

    The helper functions that work on the operand stack ([js_add_slow],
    [js_for_of_next], ...) are modelled with the opcodes that call them.
    Integer operations are at their width; the operations on doubles are
    those of binary64. *)

From stdpp Require Import base tactics numbers list option.
From Stdlib Require Import ZArith Lia SpecFloat.
From S2P Require Import Prelude Cutils Opcodes Values InterpBase InterpOps.

Open Scope Z_scope.
Open Scope interp_scope.

Definition JS_ATOM_return : Z := 6.
Definition JS_ATOM_throw : Z := 23.
Definition JS_ATOM_prototype : Z := 59.
Definition JS_ATOM_constructor : Z := 60.
Definition JS_ATOM_next : Z := 106.
Definition JS_ATOM_Symbol_iterator : Z := 198.
Definition JS_ATOM_Symbol_unscopables : Z := 208.
Definition JS_CLASS_BYTECODE_FUNCTION : Z := 13.
Definition JS_PROP_CONFIGURABLE : Z := Z.shiftl 1 0.
Definition JS_PROP_WRITABLE : Z := Z.shiftl 1 1.
Definition JS_PROP_ENUMERABLE : Z := Z.shiftl 1 2.
Definition JS_PROP_HAS_CONFIGURABLE : Z := Z.shiftl 1 8.
Definition JS_PROP_HAS_WRITABLE : Z := Z.shiftl 1 9.
Definition JS_PROP_HAS_ENUMERABLE : Z := Z.shiftl 1 10.
Definition JS_PROP_HAS_GET : Z := Z.shiftl 1 11.
Definition JS_PROP_HAS_SET : Z := Z.shiftl 1 12.
Definition JS_PROP_HAS_VALUE : Z := Z.shiftl 1 13.
Definition JS_PROP_THROW_STRICT : Z := Z.shiftl 1 15.
Definition JS_PROP_NO_ADD : Z := Z.shiftl 1 16.
Definition HINT_NUMBER : Z := 1.
Definition HINT_NONE : Z := 2.

Section ops.
Context {rt : Runtime} (b : fn_env).

Definition flag_or (l : list Z) : Z := foldr Z.lor 0 l.

(** [JS_NewFloat64] of the target *)
Definition new_f64 (d : spec_float) : JSValue := JS_NewFloat64 int32_oor d.

(** ** Iteration *)

(** obj -> enum_rec (3 slots); 1 on exception *)
Definition js_for_of_start (is_async : Z) : M bool :=
  let! op1 := sp_get 1 in
  let! obj := rcall_val (JS_GetIterator is_async) [Borrow op1] in
  if JS_IsException obj then mret true
  else
    free op1 ;; sp_set 1 obj ;;
    let! method := rcall_val (JS_GetProperty JS_ATOM_next) [Borrow obj] in
    if JS_IsException method then mret true
    else push method ;; mret false.

Definition for_of_start (is_async : Z) : M outcome :=
  let! failed := js_for_of_start is_async in
  if failed : bool then mret EXCEPTION
  else push (JS_NewCatchOffset 0) ;; mret BREAK.

(** enum_rec [objs] -> enum_rec [objs] value done; the enumerator is at
    [sp[-k]]. *)
Definition js_for_of_next (k : nat) : M outcome :=
  let! enum := sp_get k in
  if JS_IsUndefined enum then
    push JS_UNDEFINED ;; push JS_TRUE ;; mret BREAK
  else
    let! method := sp_get (k - 1) in
    let! (value, done) := rcall_val_int JS_IteratorNext
      [Borrow enum; Borrow method] in
    let done := if JS_IsException value then -1 else done in
    if negb (done =? 0) then
      (* replace the iteration object with undefined *)
      free enum ;; sp_set k JS_UNDEFINED ;;
      if done <? 0 then mret EXCEPTION
      else free value ;; push JS_UNDEFINED ;; push JS_TRUE ;; mret BREAK
    else push value ;; push JS_FALSE ;; mret BREAK.

Definition iterator_get_value_done : M outcome :=
  let! obj := sp_get 1 in
  if negb (JS_IsObject obj) then
    let! _ := rcall_int (js_throw_error 11 0) [] in mret EXCEPTION
  else
    let! (value, done) := rcall_val_int JS_IteratorGetCompleteValue [Borrow obj] in
    if JS_IsException value then mret EXCEPTION
    else
      free obj ;; sp_set 1 value ;;
      push (JS_NewBool (negb (done =? 0))) ;; mret BREAK.

(** iter_obj next catch_offset -> *)
Definition iterator_close : M outcome :=
  sp_drop 1 ;;        (* drop the catch offset *)
  let! method := sp_get 1 in free method ;; sp_drop 1 ;;
  let! iter := sp_get 1 in
  if negb (JS_IsUndefined iter) then
    let! r := rcall_int (JS_IteratorClose 0) [Borrow iter] in
    if negb (r =? 0) then mret EXCEPTION
    else free iter ;; sp_drop 1 ;; mret BREAK
  else sp_drop 1 ;; mret BREAK.

(** The loop of [OP_iterator_close_return] over what is above the catch
    offset: the values to free. *)
Fixpoint above_catch_offset (l : list JSValue) : list JSValue :=
  match l with
  | [] => []
  | JS_CATCH_OFFSET _ :: _ => []
  | v :: l => v :: above_catch_offset l
  end.

(** iter_obj next catch_offset ... ret_val ->
    ret_eval iter_obj next catch_offset *)
Definition iterator_close_return : M outcome :=
  let! ret_val := pop in
  let! extra := (fun s => Ret (s, above_catch_offset (sp s))) in
  (fun s => (free_list extra ;; sp_drop (length extra) ;; mret tt) s) ;;
  fun s =>
    match sp s with
    | c :: n :: i :: l =>
        Ret (set_sp s (c :: n :: i :: ret_val :: l), BREAK)
    | _ =>
        (let! _ := rcall_int (js_throw_error 12 0) [] in
         free ret_val ;; mret EXCEPTION) s
    end.

Definition iterator_next : M outcome :=
  let! method := sp_get 3 in let! this := sp_get 4 in
  let! v := sp_get 1 in
  let! ret := rcall_val JS_Call [Borrow method; Borrow this; Borrow v] in
  if JS_IsException ret then mret EXCEPTION
  else free v ;; sp_set 1 ret ;; mret BREAK.

Definition iterator_call (flags : Z) : M outcome :=
  let! this := sp_get 4 in
  let! method := rcall_val
    (JS_GetProperty (if Z.testbit flags 0 then JS_ATOM_throw else JS_ATOM_return))
    [Borrow this] in
  if JS_IsException method then mret EXCEPTION
  else if JS_IsUndefined method || JS_IsNull method then
    push (JS_NewBool true) ;; mret BREAK
  else
    let! v := sp_get 1 in
    let! ret := rcall_val JS_CallFree
      ([Own method; Borrow this] ++ if Z.testbit flags 1 then [] else [Borrow v]) in
    if JS_IsException ret then mret EXCEPTION
    else free v ;; sp_set 1 ret ;; push (JS_NewBool false) ;; mret BREAK.

(** enum_obj -> enum_obj value done; the search of the next property is in
    the enumerator object. *)
Definition js_for_in_next : M outcome :=
  let! enum_obj := sp_get 1 in
  let! r := rcall js_for_in_next_prop [Borrow enum_obj] in
  if r_ret r <? 0 then mret EXCEPTION
  else if r_ret r =? 0 then push JS_UNDEFINED ;; push JS_TRUE ;; mret BREAK
  else
    let! v := rcall_val (JS_AtomToValue (r_int r)) [] in
    push v ;; push JS_FALSE ;; mret BREAK.

Definition exec_iter (op : OPCodeEnum) : option (M outcome) :=
  match op with
  | OP_for_in_start => Some (
      let! v := sp_get 1 in
      let! it := rcall_val build_for_in_iterator [Own v] in
      sp_set 1 it ;; exc_if (JS_IsException it))
  | OP_for_in_next => Some js_for_in_next
  | OP_for_of_start => Some (for_of_start 0)
  | OP_for_of_next => Some (
      let! k := code_u8 b 0 in adv 1 ;; js_for_of_next (Z.to_nat (3 + k)))
  | OP_for_await_of_start => Some (for_of_start 1)
  | OP_iterator_get_value_done => Some iterator_get_value_done
  | OP_iterator_check_object => Some (
      let! v := sp_get 1 in
      if negb (JS_IsObject v) then
        let! _ := rcall_int (js_throw_error 11 0) [] in mret EXCEPTION
      else mret BREAK)
  | OP_iterator_close => Some iterator_close
  | OP_iterator_close_return => Some iterator_close_return
  | OP_iterator_next => Some iterator_next
  | OP_iterator_call => Some (
      let! flags := code_u8 b 0 in adv 1 ;; iterator_call flags)
  | _ => None
  end.

(** ** Properties *)

Definition exec_field (op : OPCodeEnum) : option (M outcome) :=
  match op with
  | OP_lnot => Some (
      let! op1 := sp_get 1 in
      let! res := branch_test op1 in
      sp_set 1 (JS_NewBool (res =? 0)) ;; mret BREAK)
  | OP_get_field => Some (
      let! atom := code_u32 b 0 in
      adv 4 ;; replace_top_call (JS_GetProperty atom))
  | OP_get_field2 => Some (
      let! atom := code_u32 b 0 in
      adv 4 ;;
      let! obj := sp_get 1 in
      let! val := rcall_val (JS_GetProperty atom) [Borrow obj] in
      if JS_IsException val then mret EXCEPTION else push val ;; mret BREAK)
  | OP_put_field => Some (
      let! atom := code_u32 b 0 in
      adv 4 ;;
      let! obj := sp_get 2 in let! v := sp_get 1 in
      let! ret := rcall_int (JS_SetPropertyInternal atom JS_PROP_THROW_STRICT)
        [Borrow obj; Own v] in
      free obj ;; sp_drop 2 ;; exc_if (ret <? 0))
  | OP_private_symbol => Some (
      let! atom := code_u32 b 0 in
      adv 4 ;;
      let! val := rcall_val (JS_NewSymbolFromAtom atom JS_ATOM_TYPE_PRIVATE) [] in
      if JS_IsException val then mret EXCEPTION else push val ;; mret BREAK)
  | OP_get_private_field => Some (
      let! obj := sp_get 2 in let! name := sp_get 1 in
      let! val := rcall_val JS_GetPrivateField [Borrow obj; Borrow name] in
      free name ;; free obj ;;
      sp_set 2 val ;; sp_drop 1 ;; exc_if (JS_IsException val))
  | OP_put_private_field => Some (
      let! obj := sp_get 3 in let! v := sp_get 2 in let! name := sp_get 1 in
      let! ret := rcall_int JS_SetPrivateField [Borrow obj; Borrow name; Own v] in
      free obj ;; free name ;; sp_drop 3 ;; exc_if (ret <? 0))
  | OP_define_private_field => Some (
      let! obj := sp_get 3 in let! name := sp_get 2 in let! v := sp_get 1 in
      let! ret := rcall_int JS_DefinePrivateField [Borrow obj; Borrow name; Own v] in
      free name ;; sp_drop 2 ;; exc_if (ret <? 0))
  | OP_define_field => Some (
      let! atom := code_u32 b 0 in
      adv 4 ;;
      let! obj := sp_get 2 in let! v := sp_get 1 in
      let! ret := rcall_int
        (JS_DefinePropertyValue atom (Z.lor JS_PROP_C_W_E JS_PROP_THROW))
        [Borrow obj; Own v] in
      sp_drop 1 ;; exc_if (ret <? 0))
  | OP_set_name => Some (
      let! atom := code_u32 b 0 in
      adv 4 ;;
      let! v := sp_get 1 in
      let! ret := rcall_int (JS_DefineObjectName atom JS_PROP_CONFIGURABLE)
        [Borrow v] in
      exc_if (ret <? 0))
  | OP_set_name_computed => Some (
      let! v := sp_get 1 in let! str := sp_get 2 in
      let! ret := rcall_int (JS_DefineObjectNameComputed JS_PROP_CONFIGURABLE)
        [Borrow v; Borrow str] in
      exc_if (ret <? 0))
  | OP_set_proto => Some (
      let! proto := sp_get 1 in
      let! failed :=
        if JS_IsObject proto || JS_IsNull proto then
          let! obj := sp_get 2 in
          let! ret := rcall_int JS_SetPrototypeInternal [Borrow obj; Borrow proto] in
          mret (ret <? 0)
        else mret false in
      if failed : bool then mret EXCEPTION
      else free proto ;; sp_drop 1 ;; mret BREAK)
  | OP_set_home_object => Some (
      let! f := sp_get 1 in let! home := sp_get 2 in
      let! _ := rcall_int js_method_set_home_object [Borrow f; Borrow home] in
      mret BREAK)
  | _ => None
  end.

(** ** Methods and classes *)

Definition method_flags (op_flags : Z) : Z :=
  let kind := Z.land op_flags 3 in
  flag_or [JS_PROP_HAS_CONFIGURABLE; JS_PROP_CONFIGURABLE;
           JS_PROP_HAS_ENUMERABLE; JS_PROP_THROW;
           if Z.testbit op_flags 2 then JS_PROP_ENUMERABLE else 0;
           if kind =? 0 then flag_or [JS_PROP_HAS_VALUE; JS_PROP_HAS_WRITABLE;
                                      JS_PROP_WRITABLE]
           else if kind =? 1 then JS_PROP_HAS_GET else JS_PROP_HAS_SET].

Definition define_method (is_computed : bool) (atom op_flags : Z) : M outcome :=
  let k := if is_computed then 1%nat else 0%nat in
  let! obj := sp_get (2 + k) in
  let! v := sp_get 1 in
  let flags := method_flags op_flags in
  let kind := Z.land op_flags 3 in
  let value := if kind =? 0 then v else JS_UNDEFINED in
  let getter := if kind =? 1 then v else JS_UNDEFINED in
  let setter := if 2 <=? kind then v else JS_UNDEFINED in
  let! ret := rcall_int (js_method_set_properties atom flags)
    [Borrow v; Borrow obj] in
  let! ret :=
    if 0 <=? ret then
      rcall_int (JS_DefineProperty atom flags)
        [Borrow obj; Borrow value; Borrow getter; Borrow setter]
    else mret ret in
  free v ;;
  (if is_computed then
     let! _ := rcall_int (JS_FreeAtom atom) [] in
     let! name := sp_get 2 in free name
   else mret tt) ;;
  sp_drop (1 + k) ;; exc_if (ret <? 0).

(** [goto fail] in [js_op_define_class] *)
Definition define_class_fail
    (parent_class parent_proto bfunc proto ctor : JSValue) : M outcome :=
  free parent_class ;; free parent_proto ;; free bfunc ;; free proto ;;
  free ctor ;;
  sp_set 2 JS_UNDEFINED ;; sp_set 1 JS_UNDEFINED ;; mret EXCEPTION.

(** The part of [js_op_define_class] that finds the parent: the class, its
    prototype, and 1 for [goto fail]. *)
Definition define_class_parent (class_flags : Z) (parent_class : JSValue)
  : M (JSValue * JSValue * bool) :=
  if Z.testbit class_flags 0 then
    if JS_IsNull parent_class then
      let! p := dup (function_proto b) in mret (p, JS_NULL, false)
    else
      let! is_ctor := rcall_int JS_IsConstructor [Borrow parent_class] in
      if is_ctor =? 0 then
        let! _ := rcall_int (js_throw_error 13 0) [] in
        mret (parent_class, JS_UNDEFINED, true)
      else
        let! proto := rcall_val (JS_GetProperty JS_ATOM_prototype)
          [Borrow parent_class] in
        if JS_IsException proto then mret (parent_class, proto, true)
        else if negb (JS_IsNull proto) && negb (JS_IsObject proto) then
          let! _ := rcall_int (js_throw_error 14 0) [] in
          mret (parent_class, proto, true)
        else mret (parent_class, proto, false)
  else
    (* parent_class is JS_UNDEFINED in this case *)
    let! proto := dup (object_proto b) in
    let! p := dup (function_proto b) in
    mret (p, proto, false).

(** The properties of the constructor; 1 for [goto fail]. *)
Definition define_class_props (ctor proto : JSValue) (class_name : Z)
    (is_computed_name : bool) : M bool :=
  let! _ := rcall_int js_method_set_home_object [Borrow ctor; Borrow proto] in
  let! _ := rcall_int JS_SetConstructorBit [Borrow ctor] in
  let! _ := rcall_int (JS_DefinePropertyValue JS_ATOM_length JS_PROP_CONFIGURABLE)
    [Borrow ctor] in
  let! r :=
    if is_computed_name then
      let! name := sp_get 3 in
      rcall_int (JS_DefineObjectNameComputed JS_PROP_CONFIGURABLE)
        [Borrow ctor; Borrow name]
    else rcall_int (JS_DefineObjectName class_name JS_PROP_CONFIGURABLE)
           [Borrow ctor] in
  if r <? 0 then mret true
  else
    let! c := dup ctor in
    let! r := rcall_int (JS_DefinePropertyValue JS_ATOM_constructor
      (flag_or [JS_PROP_CONFIGURABLE; JS_PROP_WRITABLE; JS_PROP_THROW]))
      [Borrow proto; Own c] in
    if r <? 0 then mret true
    else
      let! p := dup proto in
      let! r := rcall_int (JS_DefinePropertyValue JS_ATOM_prototype JS_PROP_THROW)
        [Borrow ctor; Own p] in
      mret (r <? 0).

Definition js_op_define_class (class_name class_flags : Z)
    (is_computed_name : bool) : M outcome :=
  let! parent_class := sp_get 2 in
  let! bfunc := sp_get 1 in
  let! (parent_class, parent_proto, failed) :=
    define_class_parent class_flags parent_class in
  if failed : bool then
    define_class_fail parent_class parent_proto bfunc JS_UNDEFINED JS_UNDEFINED
  else
    let! proto := rcall_val JS_NewObjectProto [Borrow parent_proto] in
    if JS_IsException proto then
      define_class_fail parent_class parent_proto bfunc proto JS_UNDEFINED
    else
      let! normal := rcall_int is_normal_function [Borrow bfunc] in
      let! _ := lift (c_assert (negb (normal =? 0))) in
      let! ctor := rcall_val (JS_NewObjectProtoClass JS_CLASS_BYTECODE_FUNCTION)
        [Borrow parent_class] in
      if JS_IsException ctor then
        define_class_fail parent_class parent_proto bfunc proto ctor
      else
        let! ctor := rcall_val js_closure2 [Own ctor; Own bfunc] in
        if JS_IsException ctor then
          define_class_fail parent_class parent_proto JS_UNDEFINED proto ctor
        else
          let! failed := define_class_props ctor proto class_name is_computed_name in
          if failed : bool then
            define_class_fail parent_class parent_proto JS_UNDEFINED proto ctor
          else
            let! _ := rcall_int set_cycle_flag [Borrow ctor] in
            let! _ := rcall_int set_cycle_flag [Borrow proto] in
            free parent_proto ;; free parent_class ;;
            sp_set 2 ctor ;; sp_set 1 proto ;; mret BREAK.

Definition exec_class (op : OPCodeEnum) : option (M outcome) :=
  match op with
  | OP_define_method => Some (
      let! atom := code_u32 b 0 in
      adv 4 ;;
      let! op_flags := code_u8 b 0 in
      adv 1 ;; define_method false atom op_flags)
  | OP_define_method_computed => Some (
      let! name := sp_get 2 in
      let! atom := rcall_int JS_ValueToAtom [Borrow name] in
      if atom =? 0 then mret EXCEPTION
      else
        let! op_flags := code_u8 b 0 in
        adv 1 ;; define_method true atom op_flags)
  | OP_define_class | OP_define_class_computed => Some (
      let! atom := code_u32 b 0 in
      let! class_flags := code_u8 b 4 in
      adv 5 ;;
      js_op_define_class atom class_flags
        (bool_decide (op = OP_define_class_computed)))
  | _ => None
  end.

(** ** Elements and references *)

Definition get_ref_value : M outcome :=
  let! base := sp_get 2 in
  let! name := sp_get 1 in
  if JS_IsUndefined base then
    let! atom := rcall_int JS_ValueToAtom [Borrow name] in
    (if negb (atom =? 0) then
       let! _ := rcall_int (js_throw_error 8 atom) [] in
       let! _ := rcall_int (JS_FreeAtom atom) [] in mret tt
     else mret tt) ;;
    mret EXCEPTION
  else
    let! n := dup name in
    let! val := rcall_val JS_GetPropertyValue [Borrow base; Own n] in
    if JS_IsException val then mret EXCEPTION else push val ;; mret BREAK.

Definition put_ref_value : M outcome :=
  let! base := sp_get 3 in
  let! name := sp_get 2 in
  let! failed :=
    if JS_IsUndefined base then
      if js_mode_strict b then
        let! atom := rcall_int JS_ValueToAtom [Borrow name] in
        (if negb (atom =? 0) then
           let! _ := rcall_int (js_throw_error 8 atom) [] in
           let! _ := rcall_int (JS_FreeAtom atom) [] in mret tt
         else mret tt) ;;
        mret true
      else
        let! g := dup (global_obj b) in sp_set 3 g ;; mret false
    else mret false in
  if failed : bool then mret EXCEPTION
  else
    let flags :=
      if negb (JS_IsUndefined base) && js_mode_strict b
      then Z.lor JS_PROP_THROW_STRICT JS_PROP_NO_ADD else JS_PROP_THROW_STRICT in
    let! obj := sp_get 3 in
    let! v := sp_get 1 in
    let! ret := rcall_int (JS_SetPropertyValue flags)
      [Borrow obj; Own name; Own v] in
    free obj ;; sp_drop 3 ;; exc_if (ret <? 0).

Definition exec_element (op : OPCodeEnum) : option (M outcome) :=
  match op with
  | OP_get_array_el => Some (
      let! obj := sp_get 2 in let! prop := sp_get 1 in
      let! val := rcall_val JS_GetPropertyValue [Borrow obj; Own prop] in
      free obj ;; sp_set 2 val ;; sp_drop 1 ;; exc_if (JS_IsException val))
  | OP_get_array_el2 => Some (
      let! obj := sp_get 2 in let! prop := sp_get 1 in
      let! val := rcall_val JS_GetPropertyValue [Borrow obj; Own prop] in
      sp_set 1 val ;; exc_if (JS_IsException val))
  | OP_get_ref_value => Some get_ref_value
  | OP_get_super_value => Some (
      let! prop := sp_get 1 in
      let! atom := rcall_int JS_ValueToAtom [Borrow prop] in
      if atom =? 0 then mret EXCEPTION
      else
        let! obj := sp_get 2 in let! this := sp_get 3 in
        let! val := rcall_val (JS_GetPropertyInternal atom)
          [Borrow obj; Borrow this] in
        let! _ := rcall_int (JS_FreeAtom atom) [] in
        if JS_IsException val then mret EXCEPTION
        else
          free prop ;; free obj ;; free this ;;
          sp_set 3 val ;; sp_drop 2 ;; mret BREAK)
  | OP_put_array_el => Some (
      let! obj := sp_get 3 in let! prop := sp_get 2 in let! v := sp_get 1 in
      let! ret := rcall_int (JS_SetPropertyValue JS_PROP_THROW_STRICT)
        [Borrow obj; Own prop; Own v] in
      free obj ;; sp_drop 3 ;; exc_if (ret <? 0))
  | OP_put_ref_value => Some put_ref_value
  | OP_put_super_value => Some (
      let! obj := sp_get 3 in
      if negb (JS_IsObject obj) then
        let! _ := rcall_int (js_throw_error 15 0) [] in mret EXCEPTION
      else
        let! prop := sp_get 2 in
        let! atom := rcall_int JS_ValueToAtom [Borrow prop] in
        if atom =? 0 then mret EXCEPTION
        else
          let! v := sp_get 1 in let! this := sp_get 4 in
          let! ret := rcall_int (JS_SetPropertyGeneric atom JS_PROP_THROW_STRICT)
            [Borrow obj; Own v; Borrow this] in
          let! _ := rcall_int (JS_FreeAtom atom) [] in
          free this ;; free obj ;; free prop ;;
          sp_drop 4 ;; exc_if (ret <? 0))
  | OP_define_array_el => Some (
      let! obj := sp_get 3 in let! prop := sp_get 2 in let! v := sp_get 1 in
      let! p := dup prop in
      let! ret := rcall_int
        (JS_DefinePropertyValueValue (Z.lor JS_PROP_C_W_E JS_PROP_THROW))
        [Borrow obj; Own p; Own v] in
      sp_drop 1 ;; exc_if (ret <? 0))
  | OP_append => Some (                   (* array pos enumobj -- array pos *)
      let! pos := sp_get 2 in
      match pos with
      | JS_INT n =>
          let! arr := sp_get 3 in let! enumobj := sp_get 1 in
          let! r := rcall (js_append_enumerate_internal n)
            [Borrow arr; Borrow enumobj] in
          if negb (r_ret r =? 0) then mret EXCEPTION
          else
            sp_set 2 (JS_NewInt32 (r_int r)) ;;
            let! v := pop in free v ;; mret BREAK
      | _ => let! _ := rcall_int (js_throw_error 16 0) [] in mret EXCEPTION
      end)
  | OP_copy_data_properties => Some (           (* target source excludeList *)
      let! mask := code_u8 b 0 in
      adv 1 ;;
      let! target := sp_get (1 + Z.to_nat (Z.land mask 3)) in
      let! source := sp_get (1 + Z.to_nat (Z.land (Z.shiftr mask 2) 7)) in
      let! excl := sp_get (1 + Z.to_nat (Z.land (Z.shiftr mask 5) 7)) in
      let! r := rcall_int (JS_CopyDataProperties 0)
        [Borrow target; Borrow source; Borrow excl] in
      exc_if (negb (r =? 0)))
  | _ => None
  end.

(** ** Arithmetic *)

(** [goto exception] of the functions on two operands: both were consumed. *)
Definition binary_exception : M outcome :=
  sp_set 2 JS_UNDEFINED ;; sp_set 1 JS_UNDEFINED ;; mret EXCEPTION.

(** [sp[-2] = val; sp--; BREAK] *)
Definition binary_result (val : JSValue) : M outcome :=
  sp_set 2 val ;; sp_drop 1 ;; mret BREAK.

(** Two conversions that consume their operands, the second of which is
    freed when the first fails; [k] gets the results. *)
Definition convert2 (f : rt_fun) (op1 op2 : JSValue) (k : rt_res -> rt_res -> M outcome)
  : M outcome :=
  let! r1 := rcall f [Own op1] in
  if negb (r_ret r1 =? 0) then free op2 ;; binary_exception
  else
    let! r2 := rcall f [Own op2] in
    if negb (r_ret r2 =? 0) then binary_exception else k r1 r2.

Definition js_pow (a c : spec_float) : spec_float :=
  if negb (isfinite c) && f64_eqb (SFabs a) (f64_of_Z 1) then S754_nan
  else pow a c.

Definition arith_f64 (op : OPCodeEnum) (d1 d2 : spec_float) : option spec_float :=
  match op with
  | OP_sub => Some (f64_sub d1 d2)
  | OP_mul => Some (f64_mul d1 d2)
  | OP_div => Some (f64_div d1 d2)
  | OP_mod => Some (fmod d1 d2)
  | OP_pow => Some (js_pow d1 d2)
  | _ => None                                               (* abort() *)
  end.

Definition js_binary_arith_slow (op : OPCodeEnum) : M outcome :=
  let! op1 := sp_get 2 in
  let! op2 := sp_get 1 in
  convert2 JS_ToFloat64Free op1 op2 (fun r1 r2 =>
    match arith_f64 op (r_f64 r1) (r_f64 r2) with
    | Some r => binary_result (new_f64 r)
    | None => ub
    end).

(** What [js_add_slow] leaves in place of its two operands; [None] on
    exception, when both are consumed. *)
Definition add_values (op1 op2 : JSValue) : M (option JSValue) :=
  let tag1 := JS_VALUE_GET_TAG op1 in
  let tag2 := JS_VALUE_GET_TAG op2 in
  let add_numbers op1 op2 : M (option JSValue) :=
    let! r1 := rcall JS_ToFloat64Free [Own op1] in
    if negb (r_ret r1 =? 0) then free op2 ;; mret None
    else
      let! r2 := rcall JS_ToFloat64Free [Own op2] in
      if negb (r_ret r2 =? 0) then mret None
      else mret (Some (new_f64 (f64_add (r_f64 r1) (r_f64 r2)))) in
  if ((tag1 =? JS_TAG_INT) || (tag1 =? JS_TAG_FLOAT64))
     && ((tag2 =? JS_TAG_INT) || (tag2 =? JS_TAG_FLOAT64))
  then add_numbers op1 op2
  else
    let! op1 := rcall_val (JS_ToPrimitiveFree HINT_NONE) [Own op1] in
    if JS_IsException op1 then free op2 ;; mret None
    else
      let! op2 := rcall_val (JS_ToPrimitiveFree HINT_NONE) [Own op2] in
      if JS_IsException op2 then free op1 ;; mret None
      else if JS_IsString op1 || JS_IsString op2 then
        let! r := rcall_val JS_ConcatString [Own op1; Own op2] in
        mret (if JS_IsException r then None else Some r)
      else add_numbers op1 op2.

Definition js_add_slow : M outcome :=
  let! op1 := sp_get 2 in
  let! op2 := sp_get 1 in
  let! r := add_values op1 op2 in
  match r with
  | None => binary_exception
  | Some v => binary_result v
  end.

Definition int_fits (r : Z) : bool := i32 r =? r.

Definition op_add : M outcome :=
  let! op1 := sp_get 2 in
  let! op2 := sp_get 1 in
  match op1, op2 with
  | JS_INT v1, JS_INT v2 =>
      if int_fits (v1 + v2) then binary_result (JS_NewInt32 (v1 + v2))
      else js_add_slow
  | JS_FLOAT64 d1, JS_FLOAT64 d2 => binary_result (JS_FLOAT64 (f64_add d1 d2))
  | _, _ => js_add_slow
  end.

Definition op_add_loc (idx : Z) : M outcome :=
  let! pv := get_var idx in
  let! op1 := sp_get 1 in
  let slow :=
    let! d := dup pv in
    sp_drop 1 ;;
    let! r := add_values d op1 in
    match r with
    | None => mret EXCEPTION
    | Some v => set_var idx v ;; mret BREAK
    end in
  match pv, op1 with
  | JS_INT v1, JS_INT v2 =>
      if int_fits (v1 + v2) then
        assign_var idx (JS_NewInt32 (v1 + v2)) ;; sp_drop 1 ;; mret BREAK
      else slow
  | _, _ =>
      if JS_IsString pv then
        sp_drop 1 ;;
        let! op1 := rcall_val (JS_ToPrimitiveFree HINT_NONE) [Own op1] in
        if JS_IsException op1 then mret EXCEPTION
        else
          let! pv := get_var idx in
          let! d := dup pv in
          let! r := rcall_val JS_ConcatString [Own d; Own op1] in
          if JS_IsException r then mret EXCEPTION
          else set_var idx r ;; mret BREAK
      else slow
  end.

Definition op_sub : M outcome :=
  let! op1 := sp_get 2 in
  let! op2 := sp_get 1 in
  match op1, op2 with
  | JS_INT v1, JS_INT v2 =>
      if int_fits (v1 - v2) then binary_result (JS_NewInt32 (v1 - v2))
      else js_binary_arith_slow OP_sub
  | JS_FLOAT64 d1, JS_FLOAT64 d2 => binary_result (JS_FLOAT64 (f64_sub d1 d2))
  | _, _ => js_binary_arith_slow OP_sub
  end.

Definition op_mul : M outcome :=
  let! op1 := sp_get 2 in
  let! op2 := sp_get 1 in
  match op1, op2 with
  | JS_INT v1, JS_INT v2 =>
      let r := v1 * v2 in
      if negb (int_fits r) then binary_result (JS_FLOAT64 (f64_of_Z r))
      (* need to test zero case for -0 result *)
      else if (r =? 0) && (i32 (Z.lor v1 v2) <? 0) then
        binary_result (JS_FLOAT64 (S754_zero true))
      else binary_result (JS_NewInt32 r)
  | JS_FLOAT64 d1, JS_FLOAT64 d2 => binary_result (JS_FLOAT64 (f64_mul d1 d2))
  | _, _ => js_binary_arith_slow OP_mul
  end.

Definition op_div : M outcome :=
  let! op1 := sp_get 2 in
  let! op2 := sp_get 1 in
  match op1, op2 with
  | JS_INT v1, JS_INT v2 =>
      binary_result (new_f64 (f64_div (f64_of_Z v1) (f64_of_Z v2)))
  | _, _ => js_binary_arith_slow OP_div
  end.

Definition op_mod : M outcome :=
  let! op1 := sp_get 2 in
  let! op2 := sp_get 1 in
  match op1, op2 with
  | JS_INT v1, JS_INT v2 =>
      (* We must avoid v2 = 0, v1 = INT32_MIN and v2 = -1 and the cases where
         the result is -0. *)
      if (v1 <? 0) || (v2 <=? 0) then js_binary_arith_slow OP_mod
      else binary_result (JS_NewInt32 (Z.rem v1 v2))
  | _, _ => js_binary_arith_slow OP_mod
  end.

(** What [js_unary_arith_slow] leaves in place of its operand. *)
Definition unary_arith (op : OPCodeEnum) (op1 : JSValue) : M (option JSValue) :=
  let! r := rcall JS_ToFloat64Free [Own op1] in
  if negb (r_ret r =? 0) then mret None
  else
    let d := r_f64 r in
    match op with
    | OP_inc => mret (Some (new_f64 (f64_add d (f64_of_Z 1))))
    | OP_dec => mret (Some (new_f64 (f64_sub d (f64_of_Z 1))))
    | OP_plus => mret (Some (new_f64 d))
    | OP_neg => mret (Some (new_f64 (f64_neg d)))
    | _ => ub                                               (* abort() *)
    end.

Definition js_unary_arith_slow (op : OPCodeEnum) : M outcome :=
  let! op1 := sp_get 1 in
  let! r := unary_arith op op1 in
  match r with
  | None => sp_set 1 JS_UNDEFINED ;; mret EXCEPTION
  | Some v => sp_set 1 v ;; mret BREAK
  end.

(** specific case necessary for correct return value semantics *)
Definition js_post_inc_slow (op : OPCodeEnum) : M outcome :=
  let! op1 := sp_get 1 in
  let! r := rcall JS_ToFloat64Free [Own op1] in
  if negb (r_ret r =? 0) then sp_set 1 JS_UNDEFINED ;; mret EXCEPTION
  else
    let d := r_f64 r in
    (* d + 2 * (op - OP_post_dec) - 1 *)
    let r := f64_sub (f64_add d (f64_of_Z (2 * (op_num op - op_num OP_post_dec))))
               (f64_of_Z 1) in
    sp_set 1 (new_f64 d) ;; push (new_f64 r) ;; mret BREAK.

Definition op_neg : M outcome :=
  let! op1 := sp_get 1 in
  match op1 with
  | JS_INT val =>
      (* Note: -0 cannot be expressed as integer *)
      if val =? 0 then sp_set 1 (JS_FLOAT64 (S754_zero true)) ;; mret BREAK
      else if val =? - 2 ^ 31 then
        sp_set 1 (JS_FLOAT64 (f64_neg (f64_of_Z val))) ;; mret BREAK
      else sp_set 1 (JS_NewInt32 (- val)) ;; mret BREAK
  | JS_FLOAT64 d => sp_set 1 (JS_FLOAT64 (f64_neg d)) ;; mret BREAK
  | _ => js_unary_arith_slow OP_neg
  end.

(** [OP_inc] and [OP_dec]: [limit] is the value that overflows. *)
Definition op_incdec (op : OPCodeEnum) (limit delta : Z) : M outcome :=
  let! op1 := sp_get 1 in
  match op1 with
  | JS_INT val =>
      if val =? limit then js_unary_arith_slow op
      else sp_set 1 (JS_NewInt32 (val + delta)) ;; mret BREAK
  | _ => js_unary_arith_slow op
  end.

Definition op_incdec_loc (op : OPCodeEnum) (limit delta idx : Z) : M outcome :=
  let! op1 := get_var idx in
  let slow :=
    (* must duplicate otherwise the variable value may be destroyed before
       JS code accesses it *)
    let! d := dup op1 in
    let! r := unary_arith op d in
    match r with
    | None => mret EXCEPTION
    | Some v => set_var idx v ;; mret BREAK
    end in
  match op1 with
  | JS_INT val =>
      if val =? limit then slow
      else assign_var idx (JS_NewInt32 (val + delta)) ;; mret BREAK
  | _ => slow
  end.

Definition exec_arith (op : OPCodeEnum) : option (M outcome) :=
  match op with
  | OP_add => Some op_add
  | OP_add_loc => Some (let! idx := code_u8 b 0 in adv 1 ;; op_add_loc idx)
  | OP_sub => Some op_sub
  | OP_mul => Some op_mul
  | OP_div => Some op_div
  | OP_mod => Some op_mod
  | OP_pow => Some (js_binary_arith_slow OP_pow)
  | OP_plus => Some (
      let! op1 := sp_get 1 in
      match op1 with
      | JS_INT _ | JS_FLOAT64 _ => mret BREAK
      | _ => js_unary_arith_slow OP_plus
      end)
  | OP_neg => Some op_neg
  | OP_inc => Some (op_incdec OP_inc INT32_MAX 1)
  | OP_dec => Some (op_incdec OP_dec (- 2 ^ 31) (-1))
  | OP_post_inc | OP_post_dec => Some (js_post_inc_slow op)
  | OP_inc_loc => Some (
      let! idx := code_u8 b 0 in adv 1 ;; op_incdec_loc OP_inc INT32_MAX 1 idx)
  | OP_dec_loc => Some (
      let! idx := code_u8 b 0 in adv 1 ;; op_incdec_loc OP_dec (- 2 ^ 31) (-1) idx)
  | _ => None
  end.
End ops.
