(* ===== verification/InterpOps3.v ===== *)
(** * The opcodes of the interpreter: logic, comparisons, [with], and the loop

    The remaining cases of the [switch], the search of an exception handler
    and one turn of the interpreter loop. *)

From stdpp Require Import base tactics numbers list option.
From Stdlib Require Import ZArith Lia SpecFloat.
From S2P Require Import Prelude Cutils Opcodes Values InterpBase InterpOps InterpOps2.

Open Scope Z_scope.
Open Scope interp_scope.

Definition JS_ATOM_function : Z := 27.
Definition JS_ATOM_undefined : Z := 69.
Definition JS_ATOM_number : Z := 70.
Definition JS_ATOM_boolean : Z := 71.
Definition JS_ATOM_string : Z := 72.
Definition JS_ATOM_object : Z := 73.
Definition JS_ATOM_symbol : Z := 74.
Definition JS_ATOM_unknown : Z := 76.

Inductive JSStrictEqModeEnum :=
  | JS_EQ_STRICT | JS_EQ_SAME_VALUE | JS_EQ_SAME_VALUE_ZERO.

Section ops.
Context {rt : Runtime} (b : fn_env).

(** ** Bit operations *)

(** [n >> k] on an [int]: arithmetic shift. *)
Definition logic_int (op : OPCodeEnum) (v1 v2 : Z) : option Z :=
  match op with
  | OP_shl => Some (u32 (Z.shiftl (u32 v1) (Z.land (u32 v2) 0x1f)))
  | OP_sar => Some (Z.shiftr (i32 v1) (Z.land (u32 v2) 0x1f))
  | OP_and => Some (Z.land (u32 v1) (u32 v2))
  | OP_or => Some (Z.lor (u32 v1) (u32 v2))
  | OP_xor => Some (Z.lxor (u32 v1) (u32 v2))
  | _ => None                                               (* abort() *)
  end.

Definition logic_result (op : OPCodeEnum) (v1 v2 : Z) : M outcome :=
  match logic_int op v1 v2 with
  | Some r => binary_result (JS_NewInt32 r)
  | None => ub
  end.

Definition js_binary_logic_slow (op : OPCodeEnum) : M outcome :=
  let! op1 := sp_get 2 in
  let! op2 := sp_get 1 in
  convert2 JS_ToInt32Free op1 op2 (fun r1 r2 =>
    logic_result op (r_int r1) (r_int r2)).

(** [OP_shl], [OP_sar], [OP_and], [OP_or] and [OP_xor] *)
Definition op_logic (op : OPCodeEnum) : M outcome :=
  let! op1 := sp_get 2 in
  let! op2 := sp_get 1 in
  match op1, op2 with
  | JS_INT v1, JS_INT v2 => logic_result op v1 v2
  | _, _ => js_binary_logic_slow op
  end.

(** [(uint32_t)v1 >> (v2 & 0x1f)] *)
Definition shr_value (v1 v2 : Z) : JSValue :=
  JS_NewUint32 (Z.shiftr (u32 v1) (Z.land (u32 v2) 0x1f)).

Definition js_shr_slow : M outcome :=
  let! op1 := sp_get 2 in
  let! op2 := sp_get 1 in
  convert2 JS_ToUint32Free op1 op2 (fun r1 r2 =>
    binary_result (shr_value (r_int r1) (r_int r2))).

Definition op_shr : M outcome :=
  let! op1 := sp_get 2 in
  let! op2 := sp_get 1 in
  match op1, op2 with
  | JS_INT v1, JS_INT v2 => binary_result (shr_value v1 v2)
  | _, _ => js_shr_slow
  end.

Definition op_not : M outcome :=
  let! op1 := sp_get 1 in
  match op1 with
  | JS_INT v => sp_set 1 (JS_NewInt32 (Z.lnot v)) ;; mret BREAK
  | _ =>
      let! r := rcall JS_ToInt32Free [Own op1] in
      if negb (r_ret r =? 0) then sp_set 1 JS_UNDEFINED ;; mret EXCEPTION
      else sp_set 1 (JS_NewInt32 (Z.lnot (r_int r))) ;; mret BREAK
  end.

(** ** Comparisons *)

Definition f64_gtb (d1 d2 : spec_float) : bool := f64_ltb d2 d1.
Definition f64_geb (d1 d2 : spec_float) : bool := f64_leb d2 d1.

Definition cmp_f64 (op : OPCodeEnum) (d1 d2 : spec_float) : bool :=
  match op with
  | OP_lt => f64_ltb d1 d2
  | OP_lte => f64_leb d1 d2
  | OP_gt => f64_gtb d1 d2
  | _ => f64_geb d1 d2
  end.

Definition cmp_int (op : OPCodeEnum) (v1 v2 : Z) : bool :=
  match op with
  | OP_lt => v1 <? v2
  | OP_lte => v1 <=? v2
  | OP_gt => v2 <? v1
  | _ => v2 <=? v1
  end.

Definition js_relational_slow (op : OPCodeEnum) : M outcome :=
  let! op1 := sp_get 2 in
  let! op2 := sp_get 1 in
  let! op1 := rcall_val (JS_ToPrimitiveFree HINT_NUMBER) [Own op1] in
  if JS_IsException op1 then free op2 ;; binary_exception
  else
    let! op2 := rcall_val (JS_ToPrimitiveFree HINT_NUMBER) [Own op2] in
    if JS_IsException op2 then free op1 ;; binary_exception
    else if JS_IsString op1 && JS_IsString op2 then
      let! res := rcall_int js_string_compare_values [Borrow op1; Borrow op2] in
      free op1 ;; free op2 ;;
      binary_result (JS_NewBool (cmp_int op res 0))
    else
      convert2 JS_ToFloat64Free op1 op2 (fun r1 r2 =>
        binary_result (JS_NewBool (cmp_f64 op (r_f64 r1) (r_f64 r2)))).

Definition op_cmp (op : OPCodeEnum) : M outcome :=
  let! op1 := sp_get 2 in
  let! op2 := sp_get 1 in
  match op1, op2 with
  | JS_INT v1, JS_INT v2 => binary_result (JS_NewBool (cmp_int op v1 v2))
  | _, _ => js_relational_slow op
  end.

(** The comparison of two numbers in [js_strict_eq2]. *)
Definition number_test (mode : JSStrictEqModeEnum) (d1 d2 : spec_float) : bool :=
  match mode with
  | JS_EQ_STRICT => f64_eqb d1 d2        (* if NaN return false and +0 == -0 *)
  | _ =>
      if isnan d1 || isnan d2 then Bool.eqb (isnan d1) (isnan d2)
      else match mode with
           | JS_EQ_SAME_VALUE_ZERO => f64_eqb d1 d2                (* +0 == -0 *)
           | _ => bool_decide (d1 = d2)                            (* +0 != -0 *)
           end
  end.

(** The result of [js_strict_eq2], which frees both operands. *)
Definition js_strict_eq2 (op1 op2 : JSValue) (mode : JSStrictEqModeEnum) : M bool :=
  let done res : M bool := free op1 ;; free op2 ;; mret res in
  let tag1 := JS_VALUE_GET_TAG op1 in
  let tag2 := JS_VALUE_GET_TAG op2 in
  match op1 with
  | JS_BOOL b1 =>
      match op2 with
      | JS_BOOL b2 => mret (Bool.eqb b1 b2)
      | _ => done false
      end
  | JS_NULL | JS_UNDEFINED => done (tag1 =? tag2)
  | JS_INT n1 =>
      match op2 with
      | JS_INT n2 => mret (number_test mode (f64_of_Z n1) (f64_of_Z n2))
      | JS_FLOAT64 d2 => mret (number_test mode (f64_of_Z n1) d2)
      | _ => done false
      end
  | JS_FLOAT64 d1 =>
      match op2 with
      | JS_FLOAT64 d2 => mret (number_test mode d1 d2)
      | JS_INT n2 => mret (number_test mode d1 (f64_of_Z n2))
      | _ => done false
      end
  | JS_MKPTR PTR_STRING _ =>
      if negb (tag1 =? tag2) then done false
      else
        let! r := rcall_int js_string_compare_values [Borrow op1; Borrow op2] in
        done (r =? 0)
  | JS_MKPTR (PTR_SYMBOL | PTR_OBJECT) p1 =>
      match op2 with
      | JS_MKPTR _ p2 => done ((tag1 =? tag2) && (p1 =? p2))
      | _ => done false
      end
  | _ => done false
  end.

Definition js_strict_eq (op1 op2 : JSValue) : M bool :=
  js_strict_eq2 op1 op2 JS_EQ_STRICT.

Definition js_strict_eq_slow (is_neq : bool) : M outcome :=
  let! op1 := sp_get 2 in
  let! op2 := sp_get 1 in
  let! res := js_strict_eq op1 op2 in
  binary_result (JS_NewBool (xorb res is_neq)).

Definition is_num_tag (t : Z) : bool := (t =? JS_TAG_INT) || (t =? JS_TAG_FLOAT64).
Definition is_prim_key_tag (t : Z) : bool :=
  is_num_tag t || (t =? JS_TAG_STRING) || (t =? JS_TAG_SYMBOL).
Definition is_nullish_tag (t : Z) : bool :=
  (t =? JS_TAG_NULL) || (t =? JS_TAG_UNDEFINED).

(** The [redo] loop of [js_eq_slow]: the result, or [None] when a conversion
    failed and both operands are consumed. *)
Fixpoint js_eq_loop (fuel : nat) (op1 op2 : JSValue) : M (option bool) :=
  match fuel with
  | O => fun _ => OutOfFuel
  | S fuel =>
      let tag1 := JS_VALUE_GET_TAG op1 in
      let tag2 := JS_VALUE_GET_TAG op2 in
      if (tag1 =? tag2) || (is_num_tag tag1 && is_num_tag tag2) then
        let! r := js_strict_eq op1 op2 in mret (Some r)
      else if is_nullish_tag tag1 && is_nullish_tag tag2 then mret (Some true)
      else if ((tag1 =? JS_TAG_STRING) && is_num_tag tag2)
              || ((tag2 =? JS_TAG_STRING) && is_num_tag tag1) then
        let! r1 := rcall JS_ToFloat64Free [Own op1] in
        if negb (r_ret r1 =? 0) then free op2 ;; mret None
        else
          let! r2 := rcall JS_ToFloat64Free [Own op2] in
          if negb (r_ret r2 =? 0) then mret None
          else mret (Some (f64_eqb (r_f64 r1) (r_f64 r2)))
      else if tag1 =? JS_TAG_BOOL then
        let! n := lift (JS_VALUE_GET_INT op1) in js_eq_loop fuel (JS_NewInt32 n) op2
      else if tag2 =? JS_TAG_BOOL then
        let! n := lift (JS_VALUE_GET_INT op2) in js_eq_loop fuel op1 (JS_NewInt32 n)
      else if (tag1 =? JS_TAG_OBJECT) && is_prim_key_tag tag2 then
        let! op1 := rcall_val (JS_ToPrimitiveFree HINT_NONE) [Own op1] in
        if JS_IsException op1 then free op2 ;; mret None
        else js_eq_loop fuel op1 op2
      else if (tag2 =? JS_TAG_OBJECT) && is_prim_key_tag tag1 then
        let! op2 := rcall_val (JS_ToPrimitiveFree HINT_NONE) [Own op2] in
        if JS_IsException op2 then free op1 ;; mret None
        else js_eq_loop fuel op1 op2
      else
        (* IsHTMLDDA object is equivalent to undefined for '==' and '!=' *)
        let! h1 := rcall_int JS_IsHTMLDDA [Borrow op1] in
        let! h2 :=
          if negb (h1 =? 0) && is_nullish_tag tag2 then mret 0
          else rcall_int JS_IsHTMLDDA [Borrow op2] in
        let res := (negb (h1 =? 0) && is_nullish_tag tag2)
                   || (negb (h2 =? 0) && is_nullish_tag tag1) in
        free op1 ;; free op2 ;; mret (Some res)
  end.

(** Four conversions at most: two booleans and two objects. *)
Definition js_eq_slow (is_neq : bool) : M outcome :=
  let! op1 := sp_get 2 in
  let! op2 := sp_get 1 in
  let! r := js_eq_loop 6 op1 op2 in
  match r with
  | None => binary_exception
  | Some res => binary_result (JS_NewBool (xorb res is_neq))
  end.

Definition op_eq (strict is_neq : bool) : M outcome :=
  let! op1 := sp_get 2 in
  let! op2 := sp_get 1 in
  match op1, op2 with
  | JS_INT v1, JS_INT v2 => binary_result (JS_NewBool (xorb (v1 =? v2) is_neq))
  | _, _ => if strict then js_strict_eq_slow is_neq else js_eq_slow is_neq
  end.

Definition exec_logic (op : OPCodeEnum) : option (M outcome) :=
  match op with
  | OP_not => Some op_not
  | OP_shl | OP_sar | OP_and | OP_or | OP_xor => Some (op_logic op)
  | OP_shr => Some op_shr
  | OP_lt | OP_lte | OP_gt | OP_gte => Some (op_cmp op)
  | OP_eq => Some (op_eq false false)
  | OP_neq => Some (op_eq false true)
  | OP_strict_eq => Some (op_eq true false)
  | OP_strict_neq => Some (op_eq true true)
  | _ => None
  end.

(** ** [in], [instanceof], [typeof], [delete] *)

Definition js_operator_in : M outcome :=
  let! op1 := sp_get 2 in
  let! op2 := sp_get 1 in
  if negb (JS_IsObject op2) then
    let! _ := rcall_int (js_throw_error 17 0) [] in mret EXCEPTION
  else
    let! atom := rcall_int JS_ValueToAtom [Borrow op1] in
    if atom =? 0 then mret EXCEPTION
    else
      let! ret := rcall_int (JS_HasProperty atom) [Borrow op2] in
      let! _ := rcall_int (JS_FreeAtom atom) [] in
      if ret <? 0 then mret EXCEPTION
      else
        free op1 ;; free op2 ;;
        binary_result (JS_NewBool (negb (ret =? 0))).

Definition js_operator_instanceof : M outcome :=
  let! op1 := sp_get 2 in
  let! op2 := sp_get 1 in
  let! ret := rcall_int JS_IsInstanceOf [Borrow op1; Borrow op2] in
  if ret <? 0 then mret EXCEPTION
  else free op1 ;; free op2 ;; binary_result (JS_NewBool (negb (ret =? 0))).

Definition js_operator_delete : M outcome :=
  let! op1 := sp_get 2 in
  let! op2 := sp_get 1 in
  let! atom := rcall_int JS_ValueToAtom [Borrow op2] in
  if atom =? 0 then mret EXCEPTION
  else
    let! ret := rcall_int (JS_DeleteProperty atom JS_PROP_THROW_STRICT)
      [Borrow op1] in
    let! _ := rcall_int (JS_FreeAtom atom) [] in
    if ret <? 0 then mret EXCEPTION
    else free op1 ;; free op2 ;; binary_result (JS_NewBool (negb (ret =? 0))).

Definition js_operator_typeof (op1 : JSValue) : M Z :=
  match op1 with
  | JS_INT _ | JS_FLOAT64 _ => mret JS_ATOM_number
  | JS_UNDEFINED => mret JS_ATOM_undefined
  | JS_BOOL _ => mret JS_ATOM_boolean
  | JS_NULL => mret JS_ATOM_object
  | JS_MKPTR PTR_STRING _ => mret JS_ATOM_string
  | JS_MKPTR PTR_OBJECT _ =>
      let! h := rcall_int JS_IsHTMLDDA [Borrow op1] in
      if negb (h =? 0) then mret JS_ATOM_undefined
      else
        let! f := rcall_int JS_IsFunction [Borrow op1] in
        mret (if negb (f =? 0) then JS_ATOM_function else JS_ATOM_object)
  | JS_MKPTR PTR_SYMBOL _ => mret JS_ATOM_symbol
  | _ => mret JS_ATOM_unknown
  end.

(** The conversion to a property key of [sp[-1]]. *)
Definition to_propkey : M outcome :=
  let! v := sp_get 1 in
  let tag := JS_VALUE_GET_TAG v in
  if (tag =? JS_TAG_INT) || (tag =? JS_TAG_STRING) || (tag =? JS_TAG_SYMBOL)
  then mret BREAK
  else replace_top_call JS_ToPropertyKey.

Definition exec_operator (op : OPCodeEnum) : option (M outcome) :=
  match op with
  | OP_in => Some js_operator_in
  | OP_instanceof => Some js_operator_instanceof
  | OP_typeof => Some (
      let! op1 := sp_get 1 in
      let! atom := js_operator_typeof op1 in
      free op1 ;;
      let! v := rcall_val (JS_AtomToString atom) [] in
      sp_set 1 v ;; mret BREAK)
  | OP_delete => Some js_operator_delete
  | OP_delete_var => Some (
      let! atom := code_u32 b 0 in
      adv 4 ;;
      let! ret := rcall_int (JS_DeleteProperty atom 0) [Borrow (global_obj b)] in
      if ret <? 0 then mret EXCEPTION
      else push (JS_NewBool (negb (ret =? 0))) ;; mret BREAK)
  | OP_to_object => Some (
      let! v := sp_get 1 in
      if JS_IsObject v then mret BREAK else replace_top_call JS_ToObject)
  | OP_to_propkey => Some to_propkey
  | OP_to_propkey2 => Some (
      (* must be tested first *)
      let! obj := sp_get 2 in
      if JS_IsUndefined obj || JS_IsNull obj then
        let! _ := rcall_int (js_throw_error 18 0) [] in mret EXCEPTION
      else to_propkey)
  | _ => None
  end.

(** ** [with] *)

Definition js_has_unscopable (obj : JSValue) (atom : Z) : M Z :=
  let! arr := rcall_val (JS_GetProperty JS_ATOM_Symbol_unscopables) [Borrow obj] in
  if JS_IsException arr then mret (-1)
  else
    let! ret :=
      if JS_IsObject arr then
        let! val := rcall_val (JS_GetProperty atom) [Borrow arr] in
        rcall_int JS_ToBoolFree [Own val]
      else mret 0 in
    free arr ;; mret ret.

(** The property exists in the object: the access, then the jump. *)
Definition with_access (op : OPCodeEnum) (obj : JSValue) (atom : Z) : M outcome :=
  match op with
  | OP_with_get_var =>
      let! val := rcall_val (JS_GetProperty atom) [Borrow obj] in
      if JS_IsException val then mret EXCEPTION
      else sp_set 1 val ;; free obj ;; mret BREAK
  | OP_with_put_var =>
      let! v := sp_get 2 in
      let! ret := rcall_int (JS_SetPropertyInternal atom JS_PROP_THROW_STRICT)
        [Borrow obj; Own v] in
      free obj ;; sp_drop 2 ;; exc_if (ret <? 0)
  | OP_with_delete_var =>
      let! ret := rcall_int (JS_DeleteProperty atom 0) [Borrow obj] in
      if ret <? 0 then mret EXCEPTION
      else free obj ;; sp_set 1 (JS_NewBool (negb (ret =? 0))) ;; mret BREAK
  | OP_with_make_ref =>
      (* produce a pair object/propname on the stack *)
      let! v := rcall_val (JS_AtomToValue atom) [] in push v ;; mret BREAK
  | OP_with_get_ref =>
      (* produce a pair object/method on the stack *)
      let! val := rcall_val (JS_GetProperty atom) [Borrow obj] in
      if JS_IsException val then mret EXCEPTION else push val ;; mret BREAK
  | OP_with_get_ref_undef =>
      (* produce a pair undefined/function on the stack *)
      let! val := rcall_val (JS_GetProperty atom) [Borrow obj] in
      if JS_IsException val then mret EXCEPTION
      else free obj ;; sp_set 1 JS_UNDEFINED ;; push val ;; mret BREAK
  | _ => ub
  end.

Definition with_op (op : OPCodeEnum) (atom diff is_with : Z) : M outcome :=
  let no_with :=
    (* if not jumping, drop the object argument *)
    let! v := sp_get 1 in free v ;; sp_drop 1 ;; mret BREAK in
  let! obj := sp_get 1 in
  let! ret := rcall_int (JS_HasProperty atom) [Borrow obj] in
  if ret <? 0 then mret EXCEPTION
  else if negb (ret =? 0) then
    let! unscopable :=
      if negb (is_with =? 0) then js_has_unscopable obj atom else mret 0 in
    if unscopable <? 0 then mret EXCEPTION
    else if negb (unscopable =? 0) then no_with
    else
      let! r := with_access op obj atom in
      match r with
      | BREAK => adv (diff - 5) ;; mret BREAK
      | r => mret r
      end
  else no_with.

(** [set_true] and [free_and_set_false] *)
Definition set_true : M outcome := sp_set 1 JS_TRUE ;; mret BREAK.
Definition free_and_set_false : M outcome :=
  let! v := sp_get 1 in free v ;; sp_set 1 JS_FALSE ;; mret BREAK.
Definition free_and_set_true : M outcome :=
  let! v := sp_get 1 in free v ;; set_true.

Definition typeof_is (expected : Z) : M outcome :=
  let! v := sp_get 1 in
  let! atom := js_operator_typeof v in
  if atom =? expected then free_and_set_true else free_and_set_false.

Definition exec_with (op : OPCodeEnum) : option (M outcome) :=
  match op with
  | OP_with_get_var | OP_with_put_var | OP_with_delete_var | OP_with_make_ref
  | OP_with_get_ref | OP_with_get_ref_undef => Some (
      let! atom := code_u32 b 0 in
      let! diff := code_u32 b 4 in
      let! is_with := code_u8 b 8 in
      adv 9 ;; with_op op atom (i32 diff) is_with)
  | OP_await => Some (mret (DONE_GENERATOR (JS_NewInt32 FUNC_RET_AWAIT)))
  | OP_yield => Some (mret (DONE_GENERATOR (JS_NewInt32 FUNC_RET_YIELD)))
  | OP_yield_star | OP_async_yield_star =>
      Some (mret (DONE_GENERATOR (JS_NewInt32 FUNC_RET_YIELD_STAR)))
  | OP_return_async | OP_initial_yield =>
      Some (mret (DONE_GENERATOR JS_UNDEFINED))
  | OP_nop => Some (mret BREAK)
  | OP_is_undefined_or_null => Some (
      let! v := sp_get 1 in
      if JS_IsUndefined v || JS_IsNull v then set_true else free_and_set_false)
  | OP_is_undefined => Some (
      let! v := sp_get 1 in
      if JS_IsUndefined v then set_true else free_and_set_false)
  | OP_is_null => Some (
      let! v := sp_get 1 in
      if JS_IsNull v then set_true else free_and_set_false)
  | OP_typeof_is_undefined => Some (typeof_is JS_ATOM_undefined)
  | OP_typeof_is_function => Some (typeof_is JS_ATOM_function)
  | OP_invalid => Some (
      let! _ := rcall_int (js_throw_error 19 0) [] in mret EXCEPTION)
  | _ => None
  end.

(** ** The loop *)

Fixpoint first_some {A} (l : list (option A)) : option A :=
  match l with
  | [] => None
  | Some a :: _ => Some a
  | None :: l => first_some l
  end.

(** The cases of the [switch]. *)
Definition exec_cases (op : OPCodeEnum) : option (M outcome) :=
  first_some
    [exec_push b op; exec_stack op; exec_call b op; exec_check b op;
     exec_global b op; exec_loc b op; exec_short_loc b op; exec_var_ref b op;
     exec_make_ref b op; exec_jump b op; exec_iter b op; exec_field b op;
     exec_class b op; exec_element b op; exec_arith b op; exec_logic op;
     exec_operator op; exec_with op].

Definition exec_op (op : OPCodeEnum) : M outcome :=
  match exec_cases op with Some m => m | None => ub end.

(** The loop of [exception]: the values are freed down to a catch offset;
    the offset 0 is the one of an enumerator, which is closed.  The result is
    whether a handler was found. *)
Fixpoint unwind (fuel : nat) : M bool :=
  match fuel with
  | O => fun _ => OutOfFuel
  | S fuel => fun s =>
      match sp s with
      | [] => Ret (s, false)
      | _ =>
          (let! val := pop in
           free val ;;
           match val with
           | JS_CATCH_OFFSET pos =>
               if pos =? 0 then
                 (* enumerator: close it with a throw *)
                 let! method := sp_get 1 in
                 free method ;;                    (* drop the next method *)
                 sp_drop 1 ;;
                 let! iter := sp_get 1 in
                 let! _ := rcall_int (JS_IteratorClose 1) [Borrow iter] in
                 unwind fuel
               else
                 let! exc := rcall_val take_current_exception [] in
                 push exc ;;
                 fun s => Ret (set_pc s pos, true)
           | _ => unwind fuel
           end) s
      end
  end.

(** How one turn of the loop ends for the caller of the frame. *)
Inductive turn :=
  | Running
  | Returned (ret_val : JSValue)
  | Suspended (ret_val : JSValue).

(** The label [exception]. *)
Definition exception : M turn :=
  (fun s => rcall_int (build_backtrace (pc s)) [] s) ;;
  let! uncatchable := rcall_int JS_IsUncatchableError [] in
  let! handled :=
    if uncatchable =? 0 then fun s => unwind (S (length (sp s))) s
    else mret false in
  if handled : bool then mret Running
  else if is_normal b then mret (Returned JS_EXCEPTION)
  else mret (Suspended JS_EXCEPTION).

(** [SWITCH(pc)]: fetch, decode and execute one instruction. *)
Definition interp_insn : M outcome :=
  let! opcode := code_u8 b 0 in
  adv 1 ;;
  match opcode_of opcode with
  | Some op => exec_op op
  | None => let! _ := rcall_int (js_throw_error 19 0) [] in mret EXCEPTION
  end.

(** One turn of the loop. *)
Definition interp_step : M turn :=
  let! r := interp_insn in
  match r with
  | BREAK => mret Running
  | EXCEPTION => exception
  | DONE v => mret (Returned v)
  | DONE_GENERATOR v => mret (Suspended v)
  end.
End ops.
