(* ===== verification/StackSize.v ===== *)
(** * The stack size of a function ([compute_stack_size])

    The compiler explores the bytecode of a function from its first
    instruction, gives every instruction it meets one stack depth, and keeps
    the largest depth: the interpreter allocates that many slots. *)

From stdpp Require Import base tactics numbers list option.
From Stdlib Require Import ZArith Lia.
From S2P Require Import Prelude Cutils Opcodes.

Open Scope Z_scope.

Definition JS_STACK_SIZE_MAX : Z := 65534.

(** Why the exploration stops: the messages of [JS_ThrowInternalError], and
    memory. *)
Inductive ss_error :=
  | SsBufferOverflow | SsStackOverflow | SsInconsistent | SsUnderflow
  | SsInvalidOpcode | SsOutOfMemory.

(** The blocks of [js_malloc] and [js_realloc2], in elements: a block has at
    least the elements asked for, the others being the slack that
    [js_realloc2] reports. *)
Class JSArrayMalloc := {
  aheap : Type;
  js_malloc_array : aheap -> Z -> aheap * option (list Z);
  js_realloc2 : aheap -> list Z -> Z -> aheap * option (list Z);
  js_free_array : aheap -> list Z -> aheap
}.

Record StackSizeState := mkSs {
  bc_len : Z;
  stack_len_max : Z;
  stack_level_tab : list Z;
  pc_stack : list Z;
  pc_stack_len : Z;
  pc_stack_size : Z
}.

Section stack_size.
Context {al : JSArrayMalloc}.

(** [int] additions: an overflow is undefined. *)
Definition int_ok (z : Z) : bool := (- 2 ^ 31 <=? z) && (z <? 2 ^ 31).

Definition js_realloc_array (h : aheap) (arr : list Z) (psize req_size : Z)
  : res (aheap * option (list Z * Z)) :=
  let* _ := c_assert (int_ok (psize * 3)) in
  let new_size := max_int req_size (psize * 3 / 2) in
  match js_realloc2 h arr new_size with
  | (h, None) => Ret (h, None)
  | (h, Some new_array) =>
      (* new_size += slack / elem_size *)
      Ret (h, Some (new_array, Z.of_nat (length new_array)))
  end.

(** resize the array and update its size if req_size > *psize *)
Definition js_resize_array (h : aheap) (arr : list Z) (psize req_size : Z)
  : res (aheap * option (list Z * Z)) :=
  if psize <? req_size then js_realloc_array h arr psize req_size
  else Ret (h, Some (arr, psize)).

Definition ss_check (h : aheap) (s : StackSizeState) (pos stack_len : Z)
  : res (aheap * StackSizeState * option ss_error) :=
  if bc_len s <=? u32 pos then Ret (h, s, Some SsBufferOverflow)
  else
    let grown := stack_len_max s <? stack_len in
    let s := if grown
             then mkSs (bc_len s) stack_len (stack_level_tab s) (pc_stack s)
                    (pc_stack_len s) (pc_stack_size s)
             else s in
    if grown && (JS_STACK_SIZE_MAX <? stack_len) then
      Ret (h, s, Some SsStackOverflow)
    else
      let* level := rd (stack_level_tab s) pos in
      if negb (level =? 0xffff) then
        (* already explored: check that the stack size is consistent *)
        if negb (level =? stack_len) then Ret (h, s, Some SsInconsistent)
        else Ret (h, s, None)
      else
        (* mark as explored and store the stack size *)
        let* tab := wr (stack_level_tab s) pos (u16 stack_len) in
        (* queue the new PC to explore *)
        let* r := js_resize_array h (pc_stack s) (pc_stack_size s)
                    (pc_stack_len s + 1) in
        match r with
        | (h, None) =>
            Ret (h, mkSs (bc_len s) (stack_len_max s) tab (pc_stack s)
                      (pc_stack_len s) (pc_stack_size s), Some SsOutOfMemory)
        | (h, Some (stk, size)) =>
            let* stk := wr stk (pc_stack_len s) pos in
            Ret (h, mkSs (bc_len s) (stack_len_max s) tab stk
                      (pc_stack_len s + 1) size, None)
        end.

(** One [ss_check] after another, up to the first error. *)
Fixpoint ss_checks (h : aheap) (s : StackSizeState) (l : list (Z * Z))
  : res (aheap * StackSizeState * option ss_error) :=
  match l with
  | [] => Ret (h, s, None)
  | (pos, stack_len) :: l =>
      let* _ := c_assert (int_ok pos) in
      let* r := ss_check h s pos stack_len in
      match r with
      | (h, s, None) => ss_checks h s l
      | (h, s, Some e) => Ret (h, s, Some e)
      end
  end.

Definition int_i8 (z : Z) : Z := if u8 z <? 2 ^ 7 then u8 z else u8 z - 2 ^ 8.
Definition int_i16 (z : Z) : Z := if u16 z <? 2 ^ 15 then u16 z else u16 z - 2 ^ 16.

(** The [switch] of [compute_stack_size]: the positions to check with their
    stack lengths, in order. *)
Definition ss_targets (bc_buf : list Z) (op : OPCodeEnum) (pos pos_next stack_len : Z)
  : res (list (Z * Z)) :=
  match op with
  | OP_tail_call | OP_tail_call_method | OP_return | OP_return_undef
  | OP_return_async | OP_throw | OP_throw_error | OP_ret => Ret []
  | OP_goto =>
      let* diff := get_u32 bc_buf (pos + 1) in
      Ret [(pos + 1 + i32 diff, stack_len)]
  | OP_goto16 =>
      let* diff := get_u16 bc_buf (pos + 1) in
      Ret [(pos + 1 + int_i16 diff, stack_len)]
  | OP_goto8 =>
      let* diff := get_u8 bc_buf (pos + 1) in
      Ret [(pos + 1 + int_i8 diff, stack_len)]
  | OP_if_true8 | OP_if_false8 =>
      let* diff := get_u8 bc_buf (pos + 1) in
      Ret [(pos + 1 + int_i8 diff, stack_len); (pos_next, stack_len)]
  | OP_if_true | OP_if_false | OP_catch =>
      let* diff := get_u32 bc_buf (pos + 1) in
      Ret [(pos + 1 + i32 diff, stack_len); (pos_next, stack_len)]
  | OP_gosub =>
      let* diff := get_u32 bc_buf (pos + 1) in
      Ret [(pos + 1 + i32 diff, stack_len + 1); (pos_next, stack_len)]
  | OP_with_get_var | OP_with_delete_var =>
      let* diff := get_u32 bc_buf (pos + 5) in
      Ret [(pos + 5 + i32 diff, stack_len + 1); (pos_next, stack_len)]
  | OP_with_make_ref | OP_with_get_ref | OP_with_get_ref_undef =>
      let* diff := get_u32 bc_buf (pos + 5) in
      Ret [(pos + 5 + i32 diff, stack_len + 2); (pos_next, stack_len)]
  | OP_with_put_var =>
      let* diff := get_u32 bc_buf (pos + 5) in
      Ret [(pos + 5 + i32 diff, stack_len - 1); (pos_next, stack_len)]
  | _ => Ret [(pos_next, stack_len)]
  end.

(** The number of operands that an instruction removes: call pops a variable
    number of arguments. *)
Definition insn_n_pop (bc_buf : list Z) (op pos : Z) (oi : JSOpCode) : res Z :=
  match fmt oi with
  | OP_FMT_npop | OP_FMT_npop_u16 =>
      let* n := get_u16 bc_buf (pos + 1) in Ret (n_pop oi + n)
  | OP_FMT_npopx => Ret (n_pop oi + (op - op_num OP_call0))
  | _ => Ret (n_pop oi)
  end.

(** One turn of the exploration. *)
Definition ss_explore (bc_buf : list Z)
  : aheap * StackSizeState ->
    res (aheap * StackSizeState + aheap * StackSizeState * option ss_error) :=
  fun '(h, s) =>
  if 0 <? pc_stack_len s then
    let* pos := rd (pc_stack s) (pc_stack_len s - 1) in
    let s := mkSs (bc_len s) (stack_len_max s) (stack_level_tab s) (pc_stack s)
               (pc_stack_len s - 1) (pc_stack_size s) in
    let* stack_len := rd (stack_level_tab s) pos in
    let* op := get_u8 bc_buf pos in
    match opcode_of op with
    | None | Some OP_invalid => Ret (inr (h, s, Some SsInvalidOpcode))
    | Some opc =>
        let* oi := short_opcode_info op in
        let pos_next := pos + size oi in
        if bc_len s <? pos_next then Ret (inr (h, s, Some SsBufferOverflow))
        else
          let* n_pop := insn_n_pop bc_buf op pos oi in
          if stack_len <? n_pop then Ret (inr (h, s, Some SsUnderflow))
          else
            let stack_len := stack_len + n_push oi - n_pop in
            let grown := stack_len_max s <? stack_len in
            let s := if grown
                     then mkSs (bc_len s) stack_len (stack_level_tab s)
                            (pc_stack s) (pc_stack_len s) (pc_stack_size s)
                     else s in
            if grown && (JS_STACK_SIZE_MAX <? stack_len) then
              Ret (inr (h, s, Some SsStackOverflow))
            else
              let* l := ss_targets bc_buf opc pos pos_next stack_len in
              let* r := ss_checks h s l in
              match r with
              | (h, s, None) => Ret (inl (h, s))
              | (h, s, Some e) => Ret (inr (h, s, Some e))
              end
    end
  else Ret (inr (h, s, None)).

(** The stack size, or the error. *)
Definition compute_stack_size (h : aheap) (bc_buf : list Z)
  : res (aheap * (Z + ss_error)) :=
  let len := Z.of_nat (length bc_buf) in
  match js_malloc_array h len with
  | (h, None) => Ret (h, inr SsOutOfMemory)
  | (h, Some tab) =>
      let* tab := for_upto (length bc_buf) 0 (fun i tab => wr tab i 0xffff) tab in
      let s := mkSs len 0 tab [] 0 0 in
      (* breadth-first graph exploration *)
      let* r := ss_check h s 0 0 in
      let* r :=
        match r with
        | (h, s, Some e) => Ret (h, s, Some e)
        | (h, s, None) =>
            loop (S (S (length bc_buf))) (ss_explore bc_buf) (h, s)
        end in
      let '(h, s, e) := r in
      let h := js_free_array (js_free_array h (stack_level_tab s)) (pc_stack s) in
      match e with
      | None => Ret (h, inl (stack_len_max s))
      | Some e => Ret (h, inr e)
      end
  end.
End stack_size.
