(* ===== verification/StackSizeSpec.v ===== *)
(** * [compute_stack_size] explores the whole function

    The control-flow graph of the bytecode with stack depths, and the proof
    that the compiler's exploration terminates, accepts exactly the functions
    in which no path underflows, overflows, leaves the code or reaches an
    instruction with two depths, and returns the largest depth. *)

From stdpp Require Import base tactics numbers list option relations.
From Stdlib Require Import ZArith Lia.
From S2P Require Import Prelude Cutils Opcodes StackSize.

Open Scope Z_scope.

(** What [js_malloc] and [js_realloc2] document; no block of the exploration
    has so many elements that a 3/2 growth overflows. *)
Class JSArrayMallocOk (al : JSArrayMalloc) : Prop := {
  js_malloc_array_spec : forall h n h' t,
    js_malloc_array h n = (h', Some t) -> n <= Z.of_nat (length t);
  js_realloc2_spec : forall h old n h' new,
    js_realloc2 h old n = (h', Some new) ->
    n <= Z.of_nat (length new)
    /\ take (Nat.min (length old) (Z.to_nat n)) new
       = take (Nat.min (length old) (Z.to_nat n)) old
    /\ Z.of_nat (length new) * 3 < 2 ^ 31
}.

(** ** The control-flow graph *)

Section graph.
Context (bc : list Z).
Implicit Types (p d m : Z).

(** At [p] with [d] operands stands an instruction that fits, finds its
    operands, leaves [m] operands, and goes on to the configurations [l]. *)
Definition insn_ok p d (l : list (Z * Z)) m : Prop :=
  exists op opc oi n,
    bc !! Z.to_nat p = Some op /\ 0 <= p
    /\ opcode_of op = Some opc /\ opc <> OP_invalid
    /\ short_opcode_info op = Ret oi
    /\ p + size oi <= Z.of_nat (length bc)
    /\ insn_n_pop bc op p oi = Ret n /\ n <= d
    /\ m = d + n_push oi - n
    /\ ss_targets bc opc p (p + size oi) m = Ret l.

Definition cfg_step (x y : Z * Z) : Prop :=
  exists l m, insn_ok x.1 x.2 l m /\ y ∈ l.

Definition cfg_reach (x : Z * Z) : Prop := rtc cfg_step (0, 0) x.

(** [sz] operands are enough, and some path needs them. *)
Definition stack_verified (level : Z -> Z) (sz : Z) : Prop :=
  level 0 = 0 /\ 0 <= sz <= JS_STACK_SIZE_MAX
  /\ (forall p d, cfg_reach (p, d) ->
        d = level p /\ 0 <= d <= sz
        /\ exists l m, insn_ok p d l m /\ m <= sz)
  /\ (sz = 0 \/ exists p d l m, cfg_reach (p, d) /\ insn_ok p d l m
                             /\ (d = sz \/ m = sz)).

(** The path that justifies an error; [oom] is a failed allocation. *)
Definition stack_error (oom : Prop) (e : ss_error) : Prop :=
  match e with
  | SsOutOfMemory => oom
  | SsInconsistent =>
      exists p d d', cfg_reach (p, d) /\ cfg_reach (p, d') /\ d <> d'
  | SsStackOverflow =>
      exists p d, cfg_reach (p, d)
        /\ (JS_STACK_SIZE_MAX < d
            \/ exists l m, insn_ok p d l m /\ JS_STACK_SIZE_MAX < m)
  | SsBufferOverflow =>
      exists p d, cfg_reach (p, d)
        /\ (~ 0 <= p < Z.of_nat (length bc)
            \/ exists op oi, bc !! Z.to_nat p = Some op
                 /\ short_opcode_info op = Ret oi
                 /\ Z.of_nat (length bc) < p + size oi)
  | SsUnderflow =>
      exists p d op oi n, cfg_reach (p, d)
        /\ bc !! Z.to_nat p = Some op /\ short_opcode_info op = Ret oi
        /\ insn_n_pop bc op p oi = Ret n /\ d < n
  | SsInvalidOpcode =>
      exists p d op, cfg_reach (p, d) /\ bc !! Z.to_nat p = Some op
        /\ (opcode_of op = None \/ opcode_of op = Some OP_invalid)
  end.

(** The jump labels of the code are offsets from their own positions that an
    [int] can hold. *)
Definition labels_ok : Prop :=
  Z.of_nat (length bc) < 2 ^ 31 - 2 ^ 16
  /\ forall p off diff, 0 <= p -> off = 1 \/ off = 5 ->
       get_u32 bc (p + off) = Ret diff ->
       - 2 ^ 31 <= p + off + i32 diff < 2 ^ 31.
End graph.

(** ** The tables *)

Lemma opcode_list_numbers :
  forallb (fun '(i, x) => Z.of_nat i =? op_num x.1)
    (imap pair opcode_list) = true.
Proof. reflexivity. Qed.

Lemma opcode_of_inv op opc : opcode_of op = Some opc -> op = op_num opc.
Proof.
  unfold opcode_of. destruct (Z.ltb_spec op 0) as [|Hop]; [done|].
  intros H. apply fmap_Some in H as ([o oi] & Hl & ->). simpl.
  cbn [fst].
  pose proof (proj1 (forallb_forall _ _) opcode_list_numbers
                (Z.to_nat op, (o, oi))) as Hn.
  cbn [fst] in Hn. rewrite Z.eqb_eq in Hn.
  enough (Z.of_nat (Z.to_nat op) = op_num o) by lia. apply Hn.
  apply list_elem_of_In, list_elem_of_lookup. exists (Z.to_nat op).
  by rewrite list_lookup_imap, Hl.
Qed.

(** The row of an opcode in [opcode_info]. *)
Definition op_info (opc : OPCodeEnum) : JSOpCode :=
  match short_opcode_info (op_num opc) with
  | Ret oi => oi
  | _ => mkOp 0 0 0 OP_FMT_none
  end.

Lemma short_opcode_info_num opc :
  short_opcode_info (op_num opc) = Ret (op_info opc).
Proof. by destruct opc. Qed.

Lemma op_info_bounds opc :
  1 <= size (op_info opc) <= 10 /\ 0 <= n_pop (op_info opc) <= 5
  /\ 0 <= n_push (op_info opc) <= 6.
Proof. destruct opc; vm_compute; intuition discriminate. Qed.

(** A jump reads its operand inside the instruction. *)
Definition operand_bytes (opc : OPCodeEnum) : Z :=
  match fmt (op_info opc) with
  | OP_FMT_npop | OP_FMT_npop_u16 | OP_FMT_label16 => 3
  | OP_FMT_label => 5
  | OP_FMT_label8 => 2
  | OP_FMT_atom_label_u8 => 9
  | _ => 1
  end.

Lemma operand_bytes_size opc : operand_bytes opc <= size (op_info opc).
Proof. by destruct opc. Qed.

(** ** Instructions read inside the code *)

Lemma wp_get_u8 (bc : list Z) i (Q : Z -> Prop) :
  0 <= i < Z.of_nat (length bc) ->
  (forall x, bc !! Z.to_nat i = Some x -> Q x) -> wp (get_u8 bc i) Q.
Proof. apply wp_rd. Qed.

Lemma get_u16_in (bc : list Z) i :
  0 <= i -> i + 2 <= Z.of_nat (length bc) -> exists v, get_u16 bc i = Ret v.
Proof.
  intros. unfold get_u16.
  destruct (lookup_lt_is_Some_2 bc (Z.to_nat i)) as [x Hx]; [lia|].
  destruct (lookup_lt_is_Some_2 bc (Z.to_nat (i + 1))) as [y Hy]; [lia|].
  rewrite (rd_Some _ i x), (rd_Some _ (i + 1) y) by (done || lia). simpl. eauto.
Qed.

Lemma get_u32_in (bc : list Z) i :
  0 <= i -> i + 4 <= Z.of_nat (length bc) -> exists v, get_u32 bc i = Ret v.
Proof.
  intros. unfold get_u32.
  destruct (lookup_lt_is_Some_2 bc (Z.to_nat i)) as [x Hx]; [lia|].
  destruct (lookup_lt_is_Some_2 bc (Z.to_nat (i + 1))) as [y Hy]; [lia|].
  destruct (lookup_lt_is_Some_2 bc (Z.to_nat (i + 2))) as [z Hz]; [lia|].
  destruct (lookup_lt_is_Some_2 bc (Z.to_nat (i + 3))) as [t Ht]; [lia|].
  rewrite (rd_Some _ i x), (rd_Some _ (i + 1) y), (rd_Some _ (i + 2) z),
    (rd_Some _ (i + 3) t) by (done || lia).
  simpl. eauto.
Qed.

Lemma int_i8_bounds z : - 128 <= int_i8 z < 128.
Proof.
  unfold int_i8. pose proof (u8_bound z). destruct (Z.ltb_spec (u8 z) (2 ^ 7)); lia.
Qed.
Lemma int_i16_bounds z : - 32768 <= int_i16 z < 32768.
Proof.
  unfold int_i16. pose proof (u16_bound z).
  destruct (Z.ltb_spec (u16 z) (2 ^ 15)); lia.
Qed.

Lemma insn_n_pop_in bc opc p :
  0 <= p -> p + size (op_info opc) <= Z.of_nat (length bc) ->
  exists n, insn_n_pop bc (op_num opc) p (op_info opc) = Ret n.
Proof.
  intros Hp Hs. pose proof (operand_bytes_size opc) as Hb.
  unfold operand_bytes in Hb. unfold insn_n_pop.
  destruct (fmt (op_info opc)); try (eexists; reflexivity).
  all: destruct (get_u16_in bc (p + 1)) as [v ->]; [lia..|]; simpl; eauto.
Qed.

(** Reads the operand of a jump. *)
Ltac label_read Hlab :=
  match goal with
  | |- context [get_u32 ?bc (?p + ?off)] =>
      let v := fresh "v" in let Hv := fresh "Hv" in
      destruct (get_u32_in bc (p + off)) as [v Hv]; [lia|lia|];
      assert (- 2 ^ 31 <= p + off + i32 v < 2 ^ 31)
        by (apply Hlab; auto; lia);
      rewrite Hv
  | |- context [get_u16 ?bc ?i] =>
      let v := fresh "v" in let Hv := fresh "Hv" in
      destruct (get_u16_in bc i) as [v Hv]; [lia|lia|];
      pose proof (int_i16_bounds v); rewrite Hv
  | |- context [get_u8 ?bc ?i] =>
      let v := fresh "v" in let Hv := fresh "Hv" in
      unfold get_u8;
      destruct (lookup_lt_is_Some_2 bc (Z.to_nat i)) as [v Hv]; [lia|];
      pose proof (int_i8_bounds v); rewrite (rd_Some bc i v) by (lia || exact Hv)
  end.

(** The targets are computed without leaving the code, and no depth is
    negative. *)
Lemma ss_targets_in bc opc p d n :
  labels_ok bc -> 0 <= p -> p + size (op_info opc) <= Z.of_nat (length bc) ->
  insn_n_pop bc (op_num opc) p (op_info opc) = Ret n -> n <= d ->
  let m := d + n_push (op_info opc) - n in
  0 <= m /\
  exists l, ss_targets bc opc p (p + size (op_info opc)) m = Ret l
    /\ Forall (fun x => int_ok x.1 = true /\ 0 <= x.2) l.
Proof.
  intros [Hlen Hlab] Hp Hs Hn Hd m.
  pose proof (op_info_bounds opc) as (Hsz & Hpop & Hpush).
  pose proof (operand_bytes_size opc) as Hb.
  assert (Hm : n_push (op_info opc) <= m) by (unfold m; lia).
  split; [lia|].
  assert (Hok : forall q, - 2 ^ 31 <= q < 2 ^ 31 -> int_ok q = true).
  { intros q Hq. unfold int_ok. apply andb_true_intro. split;
      [apply Z.leb_le|apply Z.ltb_lt]; lia. }
  assert (Hnext : int_ok (p + size (op_info opc)) = true) by (apply Hok; lia).
  clearbody m.
  destruct opc; unfold ss_targets;
    try (eexists; split; [reflexivity|];
         repeat constructor; simpl; first [exact Hnext|lia]).
  all: repeat match goal with
       | H : context [size ?o] |- _ =>
           let v := eval vm_compute in (size o) in change (size o) with v in *
       | H : context [n_push ?o] |- _ =>
           let v := eval vm_compute in (n_push o) in change (n_push o) with v in *
       end.
  all: clear Hb Hpop Hpush Hsz Hn.
  all: label_read Hlab.
  all: eexists; split; [reflexivity|].
  all: repeat constructor; cbn [fst snd]; try exact Hnext; try lia;
       apply Hok; lia.
Qed.

(** ** The exploration *)

Section explore.
Context {al : JSArrayMalloc} {alok : JSArrayMallocOk al}.
Context (bc : list Z).
Abbreviation len := (Z.of_nat (length bc)).
Abbreviation reach := (cfg_reach bc).

(** The allocator refused a block. *)
Definition alloc_failed : Prop :=
  exists h n, snd (js_malloc_array h n) = None
              \/ exists old, snd (js_realloc2 h old n) = None.

(** The level of a position, 0xffff while it is not explored. *)
Definition lev (s : StackSizeState) (p : Z) : Z :=
  default 0xffff (stack_level_tab s !! Z.to_nat p).

Definition marked (s : StackSizeState) (p : Z) : Prop :=
  0 <= p < len /\ lev s p <> 0xffff.

(** The positions still to explore. *)
Definition pending (s : StackSizeState) : list Z :=
  take (Z.to_nat (pc_stack_len s)) (pc_stack s).

Definition unmarked (s : StackSizeState) : list Z :=
  filter (fun x => x = 0xffff) (take (length bc) (stack_level_tab s)).

Record ss_inv (s : StackSizeState) : Prop := {
  inv_len : bc_len s = len;
  inv_tab : len <= Z.of_nat (length (stack_level_tab s));
  inv_lev : forall p, marked s p -> 0 <= lev s p <= stack_len_max s;
  inv_max : 0 <= stack_len_max s <= JS_STACK_SIZE_MAX;
  inv_reach : forall p, marked s p -> reach (p, lev s p);
  inv_stack : 0 <= pc_stack_len s <= Z.of_nat (length (pc_stack s));
  inv_size : pc_stack_size s = Z.of_nat (length (pc_stack s))
             /\ pc_stack_size s * 3 < 2 ^ 31;
  inv_pending : Forall (marked s) (pending s);
  inv_attained : stack_len_max s = 0
    \/ exists p d, reach (p, d)
         /\ (d = stack_len_max s \/ exists l, insn_ok bc p d l (stack_len_max s))
}.

(** What was explored is closed under the steps of the graph. *)
Definition explored (s : StackSizeState) (p : Z) : Prop :=
  exists l m, insn_ok bc p (lev s p) l m /\ m <= stack_len_max s
    /\ Forall (fun x => marked s x.1 /\ lev s x.1 = x.2) l.

(** [s'] knows more than [s]; what is new is pending. *)
Record ss_ext (s s' : StackSizeState) : Prop := {
  ext_lev : forall p, marked s p -> lev s' p = lev s p;
  ext_max : stack_len_max s <= stack_len_max s';
  ext_pending : forall p, p ∈ pending s -> p ∈ pending s';
  ext_new : forall p, marked s' p -> marked s p \/ p ∈ pending s';
  ext_measure : Z.of_nat (length (unmarked s')) + pc_stack_len s'
                = Z.of_nat (length (unmarked s)) + pc_stack_len s
}.

Lemma ext_marked s s' p : ss_ext s s' -> marked s p -> marked s' p.
Proof.
  intros He [Hp Hm]. split; [done|]. by rewrite (ext_lev s s').
Qed.

Lemma ss_ext_refl s : ss_ext s s.
Proof. split; auto; lia. Qed.

Lemma ss_ext_trans s1 s2 s3 : ss_ext s1 s2 -> ss_ext s2 s3 -> ss_ext s1 s3.
Proof.
  intros H12 H23. split.
  - intros p Hp. rewrite (ext_lev _ _ H23 p) by eauto using ext_marked.
    by apply (ext_lev _ _ H12).
  - pose proof (ext_max _ _ H12). pose proof (ext_max _ _ H23). lia.
  - intros p Hp. by apply (ext_pending _ _ H23), (ext_pending _ _ H12).
  - intros p Hp. destruct (ext_new _ _ H23 p Hp) as [H|H]; [|by right].
    destruct (ext_new _ _ H12 p H) as [?|?]; [by left|right].
    by apply (ext_pending _ _ H23).
  - rewrite (ext_measure _ _ H23). apply (ext_measure _ _ H12).
Qed.

Lemma ext_explored s s' p :
  ss_ext s s' -> marked s p -> explored s p -> explored s' p.
Proof.
  intros He Hp (l & m & Hi & Hm & Hl). exists l, m.
  rewrite (ext_lev _ _ He p Hp). split; [done|].
  pose proof (ext_max _ _ He). split; [lia|].
  eapply Forall_impl; [exact Hl|]. intros [q e] [Hq He']. cbn in *.
  split; [by eapply ext_marked|]. by rewrite (ext_lev _ _ He q Hq).
Qed.

(** Raising the maximum. *)
Definition raise_max (s : StackSizeState) (n : Z) : StackSizeState :=
  if stack_len_max s <? n
  then mkSs (bc_len s) n (stack_level_tab s) (pc_stack s) (pc_stack_len s)
         (pc_stack_size s)
  else s.

Lemma raise_max_ext s n : ss_ext s (raise_max s n).
Proof.
  unfold raise_max. zcase; [|apply ss_ext_refl]. split; cbn; auto; lia.
Qed.

Lemma raise_max_max s n : stack_len_max (raise_max s n) = Z.max (stack_len_max s) n.
Proof. unfold raise_max. zcase; cbn; lia. Qed.

Lemma raise_max_inv s p d n :
  ss_inv s -> n <= JS_STACK_SIZE_MAX -> reach (p, d) ->
  (d = n \/ exists l, insn_ok bc p d l n) -> ss_inv (raise_max s n).
Proof.
  intros [H1 H2 H3 H4 H5 H6 H7 H8 H9] Hn Hr Hd. unfold raise_max.
  destruct (Z.ltb_spec (stack_len_max s) n) as [Hlt|]; [|by split].
  split; cbn; auto; [|lia|eauto].
  intros q Hq. specialize (H3 q Hq). unfold lev in *. cbn in *. lia.
Qed.

Lemma raise_max_over s n :
  ss_inv s ->
  ((stack_len_max s <? n) && (JS_STACK_SIZE_MAX <? n)) = (JS_STACK_SIZE_MAX <? n).
Proof.
  intros Hs. pose proof (inv_max _ Hs).
  destruct (Z.ltb_spec JS_STACK_SIZE_MAX n); [|apply andb_false_r].
  rewrite andb_true_r. apply Z.ltb_lt. lia.
Qed.

(** Marking a new position and pushing it. *)
Definition mark_state (s : StackSizeState) (p d : Z) (stk : list Z) (sz : Z)
  : StackSizeState :=
  mkSs (bc_len s) (stack_len_max s) (<[Z.to_nat p := u16 d]> (stack_level_tab s))
    (<[Z.to_nat (pc_stack_len s) := p]> stk) (pc_stack_len s + 1) sz.

Lemma unmarked_insert (tab : list Z) (n i : nat) v :
  (i < n)%nat -> tab !! i = Some 0xffff -> v <> 0xffff ->
  length (filter (fun x => x = 0xffff) (take n tab))
  = S (length (filter (fun x => x = 0xffff) (take n (<[i := v]> tab)))).
Proof.
  intros Hi Ht Hv.
  rewrite <- (take_drop_middle _ _ _ Ht) at 1.
  assert (Hlt : (i < length tab)%nat) by by apply lookup_lt_Some in Ht.
  rewrite insert_take_drop by done.
  replace n with (length (take i tab) + (n - i))%nat
    by (rewrite length_take; lia).
  rewrite !take_app_add, !filter_app, !length_app.
  destruct (n - i)%nat as [|k] eqn:E; [lia|]. cbn [take].
  rewrite filter_cons_True by done. rewrite filter_cons_False by done.
  simpl. lia.
Qed.

Lemma lev_mark s p d stk sz q :
  0 <= p < len -> 0 <= q -> ss_inv s -> 0 <= d <= JS_STACK_SIZE_MAX ->
  lev (mark_state s p d stk sz) q = if decide (q = p) then d else lev s q.
Proof.
  intros Hp Hq Hs Hd. unfold lev, mark_state. cbn.
  pose proof (inv_tab _ Hs). unfold JS_STACK_SIZE_MAX in Hd.
  case_decide as Hpq.
  - subst q. rewrite list_lookup_insert_eq by lia. cbn.
    unfold u16. apply Z.mod_small. lia.
  - by rewrite list_lookup_insert_ne by lia.
Qed.

Lemma mark_inv s p d stk :
  ss_inv s -> 0 <= p < len -> lev s p = 0xffff -> reach (p, d) ->
  0 <= d <= stack_len_max s ->
  pc_stack_len s + 1 <= Z.of_nat (length stk) ->
  Z.of_nat (length stk) * 3 < 2 ^ 31 ->
  take (Z.to_nat (pc_stack_len s)) stk = pending s ->
  let s' := mark_state s p d stk (Z.of_nat (length stk)) in
  ss_inv s' /\ ss_ext s s' /\ marked s' p /\ lev s' p = d.
Proof.
  intros Hs Hp Hl Hr Hd Hstk Hsz Hpend s'.
  pose proof (inv_max _ Hs) as Hmax. pose proof (inv_stack _ Hs) as Hst.
  pose proof (inv_tab _ Hs) as Htab.
  assert (Hd' : 0 <= d <= JS_STACK_SIZE_MAX) by lia.
  assert (Hlev : forall q, 0 <= q -> lev s' q = if decide (q = p) then d else lev s q)
    by (intros; by apply lev_mark).
  assert (Hmp : marked s' p).
  { split; [done|]. rewrite Hlev by lia. rewrite decide_True by done.
    unfold JS_STACK_SIZE_MAX in Hd'. lia. }
  assert (Hlp : lev s' p = d) by (rewrite Hlev by lia; by rewrite decide_True).
  assert (Hpend' : pending s' = pending s ++ [p]).
  { unfold pending at 1, s', mark_state. cbn [pc_stack pc_stack_len].
    replace (Z.to_nat (pc_stack_len s + 1)) with (S (Z.to_nat (pc_stack_len s)))
      by lia.
    rewrite (take_S_r _ _ p) by (apply list_lookup_insert_eq; lia).
    rewrite take_insert_ge by lia. by rewrite Hpend. }
  assert (Hold : forall q, marked s' q -> q <> p -> marked s q).
  { intros q [Hq Hm] Hne. split; [done|].
    rewrite Hlev, decide_False in Hm by (lia || done). done. }
  assert (Hnew : forall q, marked s q -> marked s' q /\ lev s' q = lev s q).
  { intros q [Hq Hm]. assert (q <> p) by (intros ->; done).
    assert (E : lev s' q = lev s q)
      by (rewrite Hlev by lia; by rewrite decide_False).
    split; [|done]. split; [done|]. by rewrite E. }
  split_and!; [|split| done | done].
  - split; cbn [bc_len stack_len_max stack_level_tab pc_stack pc_stack_len
      pc_stack_size s' mark_state].
    + apply Hs.
    + rewrite length_insert. lia.
    + intros q Hq. destruct (decide (q = p)) as [->|Hne]; [lia|].
      rewrite (proj2 (Hnew q (Hold q Hq Hne))). apply Hs. auto.
    + apply Hs.
    + intros q Hq. destruct (decide (q = p)) as [->|Hne]; [by rewrite Hlp|].
      rewrite (proj2 (Hnew q (Hold q Hq Hne))). apply Hs. auto.
    + rewrite length_insert. lia.
    + rewrite length_insert. lia.
    + rewrite Hpend', Forall_app. split; [|by apply Forall_singleton].
      eapply Forall_impl; [apply Hs|]. intros q Hq. by apply Hnew.
    + apply Hs.
  - intros q Hq. by apply Hnew.
  - done.
  - intros q. rewrite Hpend'. set_solver.
  - intros q Hq. rewrite Hpend'. destruct (decide (q = p)) as [->|Hne].
    + right. set_solver.
    + left. auto.
  - unfold unmarked, s', mark_state. cbn [stack_level_tab pc_stack_len].
    rewrite (unmarked_insert (stack_level_tab s) (length bc) (Z.to_nat p) (u16 d));
      [lia|lia| |].
    + unfold lev in Hl.
      destruct (lookup_lt_is_Some_2 (stack_level_tab s) (Z.to_nat p)) as [x Hx];
        [lia|]. rewrite Hx in *. cbn in Hl. by rewrite Hl.
    + unfold u16, JS_STACK_SIZE_MAX in *. rewrite Z.mod_small; lia.
Qed.

(** ** One check *)

Definition check_post (s : StackSizeState) (pos stack_len : Z)
    (r : aheap * StackSizeState * option ss_error) : Prop :=
  match r with
  | (_, s', None) =>
      ss_inv s' /\ ss_ext s s' /\ marked s' pos /\ lev s' pos = stack_len
  | (_, _, Some e) => stack_error bc alloc_failed e
  end.

Lemma js_resize_array_spec h s :
  ss_inv s ->
  wp (js_resize_array h (pc_stack s) (pc_stack_size s) (pc_stack_len s + 1))
    (fun r => match r.2 with
     | None => alloc_failed
     | Some (stk, sz) =>
         sz = Z.of_nat (length stk) /\ sz * 3 < 2 ^ 31
         /\ pc_stack_len s + 1 <= sz
         /\ take (Z.to_nat (pc_stack_len s)) stk = pending s
     end).
Proof.
  intros Hs. pose proof (inv_stack _ Hs) as Hst.
  destruct (inv_size _ Hs) as [Hsz Hsz3].
  unfold js_resize_array. destruct (Z.ltb_spec (pc_stack_size s) (pc_stack_len s + 1)).
  - unfold js_realloc_array. apply wp_bind, wp_assert.
    { unfold int_ok. apply andb_true_intro. split;
        [apply Z.leb_le|apply Z.ltb_lt]; lia. }
    destruct (js_realloc2 _ _ _) as [h' [stk|]] eqn:E; simpl.
    2:{ eexists _, _. right. eexists. by rewrite E. }
    destruct (js_realloc2_spec _ _ _ _ _ E) as (Hn & Ht & H3).
    assert (pc_stack_len s = pc_stack_size s) as Heq by lia.
    revert Hn Ht. unfold max_int.
    set (n := if _ <? _ then _ else _). intros Hn Ht.
    assert (pc_stack_len s + 1 <= n)
      by (unfold n; destruct (Z.ltb_spec (pc_stack_size s * 3 / 2) (pc_stack_len s + 1)); lia).
    split_and!; [done|done|lia|].
    unfold pending. rewrite Nat.min_l in Ht by lia.
    rewrite Heq, Hsz, Nat2Z.id. exact Ht.
  - simpl. split_and!; [done|done|lia|done].
Qed.

Lemma ss_check_spec h s pos stack_len :
  ss_inv s -> len < 2 ^ 31 -> int_ok pos = true -> 0 <= stack_len ->
  reach (pos, stack_len) ->
  wp (ss_check h s pos stack_len) (check_post s pos stack_len).
Proof.
  intros Hs Hlen Hpos Hsl Hr. unfold ss_check.
  fold (raise_max s stack_len).
  unfold int_ok in Hpos. zb. rewrite (inv_len _ Hs).
  destruct (Z.leb_spec len (u32 pos)) as [Hout|Hin].
  { simpl. exists pos, stack_len. split; [done|]. left. intros Hp.
    rewrite u32_id in Hout by lia. lia. }
  assert (Hp : 0 <= pos < len).
  { destruct (Z.ltb_spec pos 0) as [Hneg|].
    - unfold u32 in Hin. rewrite <- (Z_mod_plus_full pos 1), Z.mod_small in Hin; lia.
    - rewrite u32_id in Hin; lia. }
  rewrite raise_max_over by done.
  destruct (Z.ltb_spec JS_STACK_SIZE_MAX stack_len) as [Hov|Hfit].
  { simpl. exists pos, stack_len. auto. }
  assert (Hs1 : ss_inv (raise_max s stack_len))
    by (eapply raise_max_inv; eauto).
  pose proof (raise_max_ext s stack_len) as He1.
  pose proof (raise_max_max s stack_len) as Hmx.
  revert Hs1 He1 Hmx. generalize (raise_max s stack_len) as s1. intros s1 Hs1 He1 Hmx.
  pose proof (inv_tab _ Hs1).
  apply wp_bind, wp_rd; [lia|]. intros level Hlevel.
  assert (Hlv : lev s1 pos = level) by (unfold lev; by rewrite Hlevel).
  destruct (Z.eqb_spec level 0xffff) as [->|Hne]; simpl.
  2:{ assert (Hm1 : marked s1 pos) by (split; [done|congruence]).
      destruct (Z.eqb_spec level stack_len) as [->|Hd]; simpl; [by auto|].
      exists pos, level, stack_len. split_and!; [|done|done].
      rewrite <- Hlv. by apply Hs1. }
  apply wp_bind, wp_wr; [lia|].
  apply wp_bind. eapply wp_mono; [by apply js_resize_array_spec|].
  intros [h' [[stk sz]|]]; simpl; [|by intros].
  intros (-> & H3 & Hroom & Hpend).
  pose proof (inv_stack _ Hs1).
  apply wp_bind, wp_wr; [lia|]. simpl.
  destruct (mark_inv s1 pos stack_len stk) as (Hi & He & Hm & Hl); try done; [lia|].
  unfold mark_state in *.
  split_and!; [exact Hi| |exact Hm|exact Hl].
  eapply ss_ext_trans; [exact He1|exact He].
Qed.

Lemma ss_checks_spec l : forall h s,
  ss_inv s -> len < 2 ^ 31 ->
  Forall (fun x => int_ok x.1 = true /\ 0 <= x.2 /\ reach x) l ->
  wp (ss_checks h s l) (fun r =>
    match r with
    | (_, s', None) =>
        ss_inv s' /\ ss_ext s s'
        /\ Forall (fun x => marked s' x.1 /\ lev s' x.1 = x.2) l
    | (_, _, Some e) => stack_error bc alloc_failed e
    end).
Proof.
  induction l as [|[pos n] l IH]; intros h s Hs Hlen Hl.
  { simpl. split_and!; [done|apply ss_ext_refl|done]. }
  apply Forall_cons in Hl as [(Hok & Hn & Hr) Hl]. cbn [fst snd] in *.
  cbn [ss_checks]. apply wp_bind, wp_assert; [done|].
  apply wp_bind. eapply wp_mono; [by apply ss_check_spec|].
  intros [[h1 s1] [e|]]; cbn [check_post]; [done|].
  intros (Hs1 & He1 & Hm1 & Hl1).
  eapply wp_mono; [by apply IH|].
  intros [[h2 s2] [e|]]; [done|]. intros (Hs2 & He2 & Hl2).
  split_and!; [done|by eapply ss_ext_trans|].
  apply Forall_cons. split; [|done]. cbn.
  split; [by eapply ext_marked|]. by rewrite (ext_lev _ _ He2).
Qed.

(** ** The loop *)

Definition loop_inv (x : aheap * StackSizeState) : Prop :=
  let s := x.2 in
  ss_inv s /\ marked s 0 /\ lev s 0 = 0
  /\ (forall p, marked s p -> p ∈ pending s \/ explored s p).

Definition loop_measure (x : aheap * StackSizeState) : nat :=
  Z.to_nat (Z.of_nat (length (unmarked x.2)) + pc_stack_len x.2).

Lemma wp_conj_l {A} (e : res A) (P : Prop) (Q : A -> Prop) :
  P -> wp e Q -> wp e (fun a => P /\ Q a).
Proof. intros HP H. eapply wp_mono; [exact H|]. auto. Qed.

(** Taking the last pending position. *)
Lemma pop_inv s :
  ss_inv s -> 0 < pc_stack_len s ->
  exists pos rest, pc_stack s !! Z.to_nat (pc_stack_len s - 1) = Some pos
    /\ pending s = rest ++ [pos] /\ marked s pos
    /\ let s1 := mkSs (bc_len s) (stack_len_max s) (stack_level_tab s)
                   (pc_stack s) (pc_stack_len s - 1) (pc_stack_size s) in
       ss_inv s1 /\ pending s1 = rest.
Proof.
  intros Hs Hpos. pose proof (inv_stack _ Hs) as Hst.
  destruct (lookup_lt_is_Some_2 (pc_stack s) (Z.to_nat (pc_stack_len s - 1)))
    as [pos Hl]; [lia|].
  exists pos, (take (Z.to_nat (pc_stack_len s - 1)) (pc_stack s)).
  assert (Hp : pending s = take (Z.to_nat (pc_stack_len s - 1)) (pc_stack s) ++ [pos]).
  { unfold pending.
    replace (Z.to_nat (pc_stack_len s)) with (S (Z.to_nat (pc_stack_len s - 1)))
      by lia.
    exact (take_S_r _ _ _ Hl). }
  pose proof (inv_pending _ Hs) as Hf. rewrite Hp, Forall_app in Hf.
  destruct Hf as [Hf1 Hf2]. apply Forall_cons in Hf2 as [Hf2 _].
  split; [done|]. split; [done|]. split; [done|]. split; [|done].
  destruct Hs. split; cbn; auto. lia.
Qed.

Lemma ss_explore_spec x :
  labels_ok bc -> loop_inv x ->
  wp (ss_explore bc x) (fun r => match r with
    | inl x' => loop_inv x' /\ (loop_measure x' < loop_measure x)%nat
    | inr (_, s', None) => loop_inv (x.1, s') /\ pc_stack_len s' = 0
    | inr (_, _, Some e) => stack_error bc alloc_failed e
    end).
Proof.
  destruct x as [h s]. intros Hlab (Hs & Hm0 & Hl0 & Hex). cbn [snd] in *.
  unfold ss_explore. pose proof (inv_stack _ Hs) as Hst.
  destruct (Z.ltb_spec 0 (pc_stack_len s)) as [Hpos|]; [|simpl; split; [done|lia]].
  destruct (pop_inv s Hs Hpos) as (pos & rest & Hlk & Hpend & Hm & Hs1 & Hpend1).
  revert Hs1 Hpend1.
  set (s1 := mkSs _ _ _ _ _ _). intros Hs1 Hpend1.
  rewrite (rd_Some _ _ pos) by (done || lia). cbn [bind].
  destruct Hm as [Hpr Hmk]. pose proof (inv_tab _ Hs) as Htab.
  change (stack_level_tab s1) with (stack_level_tab s).
  apply wp_bind, wp_rd; [lia|]. intros d Hd.
  assert (Hlv : lev s pos = d) by (unfold lev; by rewrite Hd).
  assert (Hreach : reach (pos, d)) by (rewrite <- Hlv; by apply Hs).
  pose proof (inv_lev _ Hs pos (conj Hpr Hmk)) as Hdr.
  apply wp_bind, wp_get_u8; [lia|]. intros op Hop.
  destruct (opcode_of op) as [opc|] eqn:Hopc.
  2:{ simpl. exists pos, d, op. auto. }
  destruct (decide (opc = OP_invalid)) as [->|Hinv].
  { simpl. exists pos, d, op. auto. }
  assert (Hgo : forall (A : Type) (a k : A),
    match opc with OP_invalid => a | _ => k end = k) by (by destruct opc).
  rewrite Hgo. clear Hgo.
  pose proof (opcode_of_inv _ _ Hopc) as ->.
  rewrite short_opcode_info_num. cbn [bind].
  pose proof (inv_len _ Hs1) as Hbl.
  destruct (Z.ltb_spec (bc_len s1) (pos + size (op_info opc))) as [Hout|Hfit];
    [rewrite Hbl in Hout|rewrite Hbl in Hfit].
  { simpl. exists pos, d. split; [done|]. right.
    exists (op_num opc), (op_info opc). split_and!; [done| |lia].
    apply short_opcode_info_num. }
  destruct (insn_n_pop_in bc opc pos) as [n Hn]; [lia|done|].
  rewrite Hn. cbn [bind].
  destruct (Z.ltb_spec d n) as [Hund|Hops].
  { simpl. exists pos, d, (op_num opc), (op_info opc), n.
    split_and!; try done. apply short_opcode_info_num. }
  destruct (ss_targets_in bc opc pos d n) as (Hm0' & l & Hl & Hlf); try done; [lia|].
  set (m := d + n_push (op_info opc) - n) in *.
  assert (Hinsn : insn_ok bc pos d l m).
  { exists (op_num opc), opc, (op_info opc), n. split_and!; try done; [lia|].
    apply short_opcode_info_num. }
  change (if stack_len_max s1 <? m then mkSs _ _ _ _ _ _ else s1)
    with (raise_max s1 m).
  rewrite raise_max_over by done.
  destruct (Z.ltb_spec JS_STACK_SIZE_MAX m) as [Hov|Hmfit].
  { simpl. exists pos, d. split; [done|]. right. eauto. }
  assert (Hs2 : ss_inv (raise_max s1 m))
    by (eapply raise_max_inv; [done|done|exact Hreach|eauto]).
  pose proof (raise_max_ext s1 m) as He2.
  pose proof (raise_max_max s1 m) as Hmx.
  revert Hs2 He2 Hmx. generalize (raise_max s1 m) as s2. intros s2 Hs2 He2 Hmx.
  rewrite Hl. cbn [bind]. apply wp_bind.
  destruct Hlab as [Hlen Hlab'].
  eapply wp_mono; [apply (ss_checks_spec l h s2 Hs2); [lia|]|].
  { apply Forall_forall. intros y Hy.
    destruct (proj1 (Forall_forall _ _) Hlf y Hy) as [H1 H2].
    split_and!; [done|done|]. eapply rtc_r; [exact Hreach|].
    exists l, m. split; [exact Hinsn|exact Hy]. }
  intros [[h3 s3] [e|]]; [done|].
  intros (Hs3 & He3 & Hl3).
  assert (He : ss_ext s1 s3) by (by eapply ss_ext_trans).
  assert (Hmk1 : forall p, marked s p -> marked s1 p) by done.
  split.
  - unfold loop_inv. cbn [snd]. split_and!; [done| | |].
    + eapply ext_marked; [exact He|]. by apply Hmk1.
    + rewrite (ext_lev _ _ He 0) by (by apply Hmk1). exact Hl0.
    + intros p Hp. destruct (ext_new _ _ He p Hp) as [Hp1|]; [|by left].
      destruct (Hex p Hp1) as [Hin|Hexp].
      * rewrite Hpend in Hin. apply elem_of_app in Hin as [Hin|Hin].
        -- left. apply (ext_pending _ _ He). by rewrite Hpend1.
        -- apply list_elem_of_singleton in Hin as ->. right.
           exists l, m. rewrite (ext_lev _ _ He pos) by done.
           change (lev s1 pos) with (lev s pos). rewrite Hlv.
           split; [done|]. split; [|done].
           pose proof (ext_max _ _ He3). lia.
      * right. eapply ext_explored; [exact He|done|exact Hexp].
  - unfold loop_measure. cbn [snd].
    pose proof (ext_measure _ _ He) as Hme.
    change (unmarked s1) with (unmarked s) in Hme. cbn [s1 pc_stack_len] in Hme.
    pose proof (inv_stack _ Hs3). lia.
Qed.

(** ** The result *)

Lemma init_tab (tab : list Z) :
  len <= Z.of_nat (length tab) ->
  wp (for_upto (length bc) 0 (fun i tab => wr tab i 0xffff) tab)
    (fun t => length t = length tab
              /\ take (length bc) t = replicate (length bc) 0xffff).
Proof.
  intros Hlen.
  eapply wp_mono; [apply (wp_for (fun i t => 0 <= i /\ length t = length tab
      /\ take (Z.to_nat i) t = replicate (Z.to_nat i) 0xffff))|].
  - intros j t Hj (H0 & Ht & Hr). apply wp_wr; [lia|].
    rewrite length_insert. split_and!; [lia|done|].
    replace (Z.to_nat (j + 1)) with (S (Z.to_nat j)) by lia.
    rewrite (take_S_r _ _ 0xffff) by (apply list_lookup_insert_eq; lia).
    rewrite take_insert_ge, Hr by lia. by rewrite replicate_S_end.
  - by rewrite take_0.
  - intros t (_ & Ht & Hr). rewrite Z.add_0_l, Nat2Z.id in Hr. done.
Qed.

Definition ss_init (tab : list Z) : StackSizeState := mkSs len 0 tab [] 0 0.

Lemma init_inv tab :
  len <= Z.of_nat (length tab) ->
  take (length bc) tab = replicate (length bc) 0xffff ->
  ss_inv (ss_init tab) /\ (forall p, ~ marked (ss_init tab) p)
  /\ length (unmarked (ss_init tab)) = length bc.
Proof.
  intros Hlen Ht.
  assert (Hno : forall p, ~ marked (ss_init tab) p).
  { intros p [Hp Hm]. apply Hm. unfold lev, ss_init. cbn.
    assert (E : take (length bc) tab !! Z.to_nat p = Some 0xffff)
      by (rewrite Ht; apply lookup_replicate_2; lia).
    rewrite lookup_take_lt in E by lia. by rewrite E. }
  split_and!; [|done|].
  - split; cbn; try done.
    + intros p Hp. by destruct (Hno p).
    + intros p Hp. by destruct (Hno p).
    + by left.
  - unfold unmarked. cbn. rewrite Ht. clear.
    induction (length bc) as [|k IH]; [done|]. cbn [replicate].
    rewrite filter_cons_True by done. cbn [length]. by f_equal.
Qed.

(** Everything marked is explored: the marks are all that is reachable. *)
Lemma final_verified h s :
  loop_inv (h, s) -> pc_stack_len s = 0 ->
  stack_verified bc (lev s) (stack_len_max s).
Proof.
  intros (Hs & Hm0 & Hl0 & Hex) Hdone. cbn [snd] in *.
  assert (Hexp : forall p, marked s p -> explored s p).
  { intros p Hp. destruct (Hex p Hp) as [Hin|]; [|done].
    unfold pending in Hin. rewrite Hdone in Hin. by apply not_elem_of_nil in Hin. }
  assert (Hall : forall x, reach x -> marked s x.1 /\ lev s x.1 = x.2).
  { apply (rtc_ind_r (fun x => marked s x.1 /\ lev s x.1 = x.2) (0, 0)); [done|].
    intros y z Hy (l & m & Hi & Hin) [Hm Hl]. destruct (Hexp _ Hm) as (l' & m' & Hi' & _ & Hall).
    rewrite Hl in Hi'. assert (l = l') as ->.
    { destruct Hi as (?&?&?&?&E1&?&E2&?&E3&?&E4&?&E5&E6),
        Hi' as (?&?&?&?&F1&?&F2&?&F3&?&F4&?&F5&F6). simplify_eq. congruence. }
    exact (proj1 (Forall_forall _ _) Hall z Hin). }
  split; [done|]. split; [apply Hs|]. split.
  - intros p d Hpd. destruct (Hall _ Hpd) as [Hm Hl]. cbn in *.
    pose proof (inv_lev _ Hs p Hm). split; [done|]. split; [lia|].
    destruct (Hexp p Hm) as (l & m & Hi & Hle & _). rewrite Hl in Hi. eauto.
  - destruct (inv_attained _ Hs) as [|(p & d & Hr & Hd)]; [by left|right].
    destruct (Hall _ Hr) as [Hm Hl]. cbn in *.
    destruct (Hexp p Hm) as (l & m & Hi & _ & _). rewrite Hl in Hi.
    destruct Hd as [->|[l' Hi']].
    + eauto 10.
    + exists p, d, l', (stack_len_max s). auto.
Qed.

Lemma compute_stack_size_spec h :
  bc <> [] -> labels_ok bc ->
  wp (compute_stack_size h bc) (fun r =>
    match r.2 with
    | inl sz => exists level, stack_verified bc level sz
    | inr e => stack_error bc alloc_failed e
    end).
Proof.
  intros Hne Hlab. unfold compute_stack_size.
  destruct (js_malloc_array h len) as [h1 [tab|]] eqn:E.
  2:{ simpl. exists h, len. left. by rewrite E. }
  pose proof (js_malloc_array_spec _ _ _ _ E) as Htab.
  apply wp_bind. eapply wp_mono; [by apply init_tab|].
  intros t (Ht & Hrep).
  destruct (init_inv t) as (Hs & Hno & Hun); [lia|done|].
  assert (Hlen : 0 < len) by (destruct bc; [done|simpl; lia]).
  apply wp_bind. fold (ss_init t).
  eapply wp_mono.
  { apply ss_check_spec; [done|destruct Hlab; lia|done|done|apply rtc_refl]. }
  intros [[h2 s2] [e|]]; cbn [check_post].
  { intros He. simpl. exact He. }
  intros (Hs2 & He2 & Hm2 & Hl2). apply wp_bind.
  eapply wp_mono; [apply (wp_loop loop_inv loop_measure (fun r =>
      match r with
      | (_, s', None) => (exists h, loop_inv (h, s')) /\ pc_stack_len s' = 0
      | (_, _, Some e) => stack_error bc alloc_failed e
      end))| ].
  - intros x Hx. eapply wp_mono; [by apply ss_explore_spec|].
    intros [x'|[[h3 s3] [e|]]]; eauto. intros [? ?]. eauto.
  - split_and!; [done|done|done|]. intros p Hp. left.
    destruct (ext_new _ _ He2 p Hp) as [Hbad|]; [by destruct (Hno p)|done].
  - unfold loop_measure. cbn [snd]. pose proof (ext_measure _ _ He2) as Hme.
    rewrite Hun in Hme. cbn [ss_init pc_stack_len] in Hme. lia.
  - intros [[h3 s3] [e|]]; [done|]. intros [[h4 Hi] H0]. simpl.
    exists (lev s3). by eapply final_verified.
Qed.
End explore.

(** ** Results *)

(** A concrete allocator, for the witnesses. *)
Definition arr_realloc (h : Z) (old : list Z) (n : Z) : Z * option (list Z) :=
  if n * 3 <? 2 ^ 31
  then (h - 1, Some (take (Z.to_nat n) old ++ replicate (Z.to_nat n - length old) 0))
  else (h, None).

#[export] Instance counter_array_malloc : JSArrayMalloc := {|
  aheap := Z;
  js_malloc_array h n := (h - 1, Some (replicate (Z.to_nat n) 0));
  js_realloc2 := arr_realloc;
  js_free_array h _ := h + 1
|}.

#[export] Instance counter_array_malloc_ok : JSArrayMallocOk counter_array_malloc.
Proof.
  split.
  - intros h n h' t [= <- <-]. rewrite length_replicate. lia.
  - intros h old n h' new. simpl. unfold arr_realloc. zcase; [|done].
    intros [= <- <-].
    assert (E : length (take (Z.to_nat n) old ++ replicate (Z.to_nat n - length old) 0)
                = Z.to_nat n)
      by (rewrite length_app, length_take, length_replicate; lia).
    rewrite E. split; [lia|]. split; [|lia].
    rewrite take_app, take_take, length_take.
    replace (_ - _)%nat with 0%nat by lia.
    rewrite take_0, app_nil_r. f_equal. lia.
Qed.


(** push_1; if_false8 L1; push_1; push_2; add; goto8 L2; L1: push_2;
    L2: return *)
Definition sample_code : list Z := [180; 232; 6; 180; 181; 157; 234; 2; 181; 40].

Lemma sample_labels : labels_ok sample_code.
Proof.
  split; [simpl; lia|]. intros p off diff Hp Hoff H.
  assert (Hr : p + off + 3 < 10).
  { unfold get_u32 in H.
    destruct (rd sample_code (p + off + 3)) as [b3| |] eqn:E;
      [apply rd_Ret_inv in E; simpl in E; lia| |];
      repeat (destruct (rd sample_code _); simpl in H; try discriminate). }
  assert (Hc : p + off = 1 \/ p + off = 2 \/ p + off = 3 \/ p + off = 4
               \/ p + off = 5 \/ p + off = 6) by lia.
  destruct Hc as [E|[E|[E|[E|[E|E]]]]]; rewrite E in H |- *;
    vm_compute in H; injection H as <-; vm_compute; intuition discriminate.
Qed.

