(* ===== verification/InterpWp.v ===== *)
(** * Reasoning about the instructions of the interpreter

    Total correctness of computations on a frame, one rule per primitive, the
    weight of a frame (the references that its operand stack holds, minus
    those received), and the tactic that runs an instruction symbolically. *)

From stdpp Require Import base tactics numbers list option.
From Stdlib Require Import ZArith Lia SpecFloat.
From S2P Require Import Prelude Cutils Opcodes Values InterpBase InterpOps InterpOps2 InterpOps3.

Open Scope Z_scope.
Open Scope interp_scope.

(** ** Weights of references *)

Section weight.
Context (wt : JSValue -> Z).

Definition wsum (l : list JSValue) : Z := foldr (fun v n => wt v + n) 0 l.

Definition wev1 (e : event) : Z :=
  match e with
  | EvDup v | EvNew v => wt v
  | EvFree v | EvTake v => - wt v
  end.
Definition wev (l : list event) : Z := foldr (fun e n => wev1 e + n) 0 l.

Lemma wsum_cons v l : wsum (v :: l) = wt v + wsum l.
Proof. done. Qed.
Lemma wev_cons e l : wev (e :: l) = wev1 e + wev l.
Proof. done. Qed.
Lemma wsum_nil : wsum [] = 0.
Proof. done. Qed.
Lemma wev_nil : wev [] = 0.
Proof. done. Qed.
Lemma wsum_app l1 l2 : wsum (l1 ++ l2) = wsum l1 + wsum l2.
Proof.
  induction l1 as [|a l1 IH]; [done|].
  rewrite <- app_comm_cons, !wsum_cons, IH. lia.
Qed.
Lemma wev_app l1 l2 : wev (l1 ++ l2) = wev l1 + wev l2.
Proof.
  induction l1 as [|a l1 IH]; [done|].
  rewrite <- app_comm_cons, !wev_cons, IH. lia.
Qed.
Lemma wsum_rev l : wsum (rev l) = wsum l.
Proof.
  induction l as [|a l IH]; [done|].
  cbn [rev]. rewrite wsum_app, !wsum_cons, IH. cbn. lia.
Qed.
Lemma wev_take l : wev (EvTake <$> l) = - wsum l.
Proof.
  induction l as [|a l IH]; [done|].
  rewrite fmap_cons, wev_cons, wsum_cons, IH. cbn. lia.
Qed.
Lemma wev_new l : wev (EvNew <$> l) = wsum l.
Proof.
  induction l as [|a l IH]; [done|].
  rewrite fmap_cons, wev_cons, wsum_cons, IH. cbn. lia.
Qed.
Lemma wev_free l : wev (EvFree <$> l) = - wsum l.
Proof.
  induction l as [|a l IH]; [done|].
  rewrite fmap_cons, wev_cons, wsum_cons, IH. cbn. lia.
Qed.
End weight.

Section wpm.
Context {rt : Runtime} {rtok : RuntimeOk rt}.

Definition wpM {A} (m : M A) (s : frame) (Q : frame -> A -> Prop) : Prop :=
  wp (m s) (fun r => Q r.1 r.2).

Lemma wpM_bind {A B} (m : M A) (k : A -> M B) s Q :
  wpM m s (fun s' a => wpM (k a) s' Q) -> wpM (mbind m k) s Q.
Proof. unfold wpM, mbind. intros H. by apply wp_bind. Qed.

Lemma wpM_mono {A} (m : M A) s (P Q : frame -> A -> Prop) :
  wpM m s P -> (forall s' a, P s' a -> Q s' a) -> wpM m s Q.
Proof. intros H HPQ. eapply wp_mono; [exact H|]. intros []; auto. Qed.

Lemma wpM_ret {A} (a : A) s (Q : frame -> A -> Prop) : Q s a -> wpM (mret a) s Q.
Proof. done. Qed.

Lemma wpM_here {A} (m : M A) s (Q : frame -> A -> Prop) :
  wpM m s Q -> wpM (fun s => m s) s Q.
Proof. done. Qed.

Context (p : Z) (st : list JSValue) (l : locals) (w : World) (tr : list event).
Abbreviation fr := (mkFrame p st l w tr).

Lemma wpM_push v (Q : frame -> unit -> Prop) :
  Q (mkFrame p (v :: st) l w tr) tt -> wpM (push v) fr Q.
Proof. done. Qed.

Lemma wpM_sp_get n v (Q : frame -> JSValue -> Prop) :
  st !! n = Some v -> Q fr v -> wpM (sp_get (S n)) fr Q.
Proof. intros H HQ. unfold wpM, sp_get. cbn. by rewrite H. Qed.

Lemma wpM_sp_set n u v (Q : frame -> unit -> Prop) :
  st !! n = Some u -> Q (mkFrame p (<[n := v]> st) l w tr) tt ->
  wpM (sp_set (S n) v) fr Q.
Proof. intros H HQ. unfold wpM, sp_set. cbn. by rewrite H. Qed.

Lemma wpM_sp_drop n (Q : frame -> unit -> Prop) :
  (n <= length st)%nat -> Q (mkFrame p (drop n st) l w tr) tt ->
  wpM (sp_drop n) fr Q.
Proof.
  intros H HQ. unfold wpM, sp_drop. cbn. by rewrite decide_True.
Qed.

Lemma wpM_pop v st' (Q : frame -> JSValue -> Prop) :
  st = v :: st' -> Q (mkFrame p st' l w tr) v -> wpM pop fr Q.
Proof. intros -> HQ. done. Qed.

Lemma wpM_sp_args n (Q : frame -> list JSValue -> Prop) :
  (n <= length st)%nat -> Q fr (take n st) -> wpM (sp_args n) fr Q.
Proof.
  intros H HQ. unfold wpM, sp_args. cbn. by rewrite decide_True.
Qed.

Lemma wpM_adv n (Q : frame -> unit -> Prop) :
  Q (mkFrame (p + n) st l w tr) tt -> wpM (adv n) fr Q.
Proof. done. Qed.

Lemma wpM_dup v (Q : frame -> JSValue -> Prop) :
  Q (mkFrame p st l w (tr ++ [EvDup v])) v -> wpM (dup v) fr Q.
Proof. done. Qed.

Lemma wpM_free v (Q : frame -> unit -> Prop) :
  (forall w', Q (mkFrame p st l w' (tr ++ [EvFree v])) tt) -> wpM (free v) fr Q.
Proof. intros H. apply H. Qed.

Lemma wpM_rcall f args (Q : frame -> rt_res -> Prop) :
  (forall l' w' r, same_sizes l l' -> plain_value (r_val r) ->
     (forall hint, f = JS_ToPrimitiveFree hint -> JS_IsObject (r_val r) = false) ->
     Q (mkFrame p st l' w' (tr ++ flat_map arg_event args)) r) ->
  wpM (rcall f args) fr Q.
Proof.
  intros H. unfold wpM, rcall. cbn.
  pose proof (rt_call_locals f (arg_val <$> args) (w, l)) as Hl.
  pose proof (rt_call_val f (arg_val <$> args) (w, l)) as Hv.
  assert (Hp : forall hint, f = JS_ToPrimitiveFree hint ->
    JS_IsObject (r_val (rt_call f (arg_val <$> args) (w, l)).2) = false).
  { intros hint ->. apply rt_to_primitive. }
  destruct (rt_call f (arg_val <$> args) (w, l)) as [[w' l'] r]. by apply H.
Qed.

Lemma wpM_rcall_int f args (Q : frame -> Z -> Prop) :
  (forall l' w' n, same_sizes l l' ->
     Q (mkFrame p st l' w' (tr ++ flat_map arg_event args)) n) ->
  wpM (rcall_int f args) fr Q.
Proof.
  intros H. apply wpM_bind, wpM_rcall. intros l' w' r Hl _ _. by apply H.
Qed.

Lemma wpM_rcall_val f args (Q : frame -> JSValue -> Prop) :
  (forall l' w' v, same_sizes l l' -> plain_value v ->
     (forall hint, f = JS_ToPrimitiveFree hint -> JS_IsObject v = false) ->
     Q (mkFrame p st l' w' ((tr ++ flat_map arg_event args) ++ [EvNew v])) v) ->
  wpM (rcall_val f args) fr Q.
Proof.
  intros H. apply wpM_bind, wpM_rcall. intros l' w' r Hl Hv Hp. by apply H.
Qed.

Lemma wpM_rcall_val_int f args (Q : frame -> JSValue * Z -> Prop) :
  (forall l' w' v n, same_sizes l l' -> plain_value v ->
     (f = JS_IteratorNext -> 0 <= n) ->
     Q (mkFrame p st l' w' ((tr ++ flat_map arg_event args) ++ [EvNew v])) (v, n)) ->
  wpM (rcall_val_int f args) fr Q.
Proof.
  intros H. unfold wpM, rcall_val_int, mbind, rcall. cbn.
  pose proof (rt_call_locals f (arg_val <$> args) (w, l)) as Hl.
  pose proof (rt_call_val f (arg_val <$> args) (w, l)) as Hv.
  assert (Hn : f = JS_IteratorNext ->
    0 <= r_int (rt_call f (arg_val <$> args) (w, l)).2).
  { intros ->. apply rt_iterator_next. }
  destruct (rt_call f (arg_val <$> args) (w, l)) as [[w' l'] r]. by apply H.
Qed.

Lemma wpM_rcall_argv f args n (Q : frame -> JSValue -> Prop) :
  (n <= length st)%nat ->
  (forall l' w' argv' v, same_sizes l l' -> length argv' = n ->
     Forall plain_value argv' -> plain_value v ->
     Q (mkFrame p (argv' ++ drop n st) l' w'
          (tr ++ flat_map arg_event args ++ (EvTake <$> take n st)
           ++ (EvNew <$> argv') ++ [EvNew v])) v) ->
  wpM (rcall_argv f args n) fr Q.
Proof.
  intros Hn H. unfold wpM, rcall_argv. cbn. rewrite decide_True by done.
  pose proof (rt_call_argv_locals f (arg_val <$> args) (take n st) (w, l)) as Hl.
  pose proof (rt_call_argv_length f (arg_val <$> args) (take n st) (w, l)) as Hlen.
  pose proof (rt_call_argv_val f (arg_val <$> args) (take n st) (w, l)) as [Hv Hvs].
  rewrite length_take, Nat.min_l in Hlen by done.
  destruct (rt_call_argv f (arg_val <$> args) (take n st) (w, l))
    as [[[w' l'] argv'] r].
  by apply H.
Qed.

Lemma wpM_free_list vals (Q : frame -> unit -> Prop) :
  (forall w', Q (mkFrame p st l w' (tr ++ (EvFree <$> vals))) tt) ->
  wpM (free_list vals) fr Q.
Proof.
  revert w tr. induction vals as [|v vals IH]; intros w0 tr0 H.
  - cbn. specialize (H w0). by rewrite app_nil_r in H.
  - cbn [free_list]. apply wpM_bind.
    change (wpM (free v) (mkFrame p st l w0 tr0)
      (fun s' a => wpM (free_list vals) s' Q)).
    unfold wpM at 1. cbn. apply IH. intros w'. specialize (H w').
    by rewrite <- app_assoc.
Qed.

(** ** The code and the variables *)

Context (b : fn_env).
Abbreviation len := (Z.of_nat (length (byte_code b))).

Lemma get_u8_bytes (bc : list Z) i v :
  Forall byte bc -> get_u8 bc i = Ret v -> 0 <= v < 256.
Proof.
  intros Hb H. apply rd_Ret_inv in H as [_ H].
  exact (proj1 (Forall_lookup _ _) Hb _ _ H).
Qed.

Lemma get_u16_bytes (bc : list Z) i v :
  Forall byte bc -> get_u16 bc i = Ret v -> 0 <= v < 65536.
Proof.
  intros Hb H. unfold get_u16 in H.
  destruct (rd bc i) as [x| |] eqn:E1; try done; cbn in H.
  destruct (rd bc (i + 1)) as [y| |] eqn:E2; try done; cbn in H.
  injection H as <-.
  pose proof (get_u8_bytes _ _ _ Hb E1). pose proof (get_u8_bytes _ _ _ Hb E2). lia.
Qed.

Lemma get_u32_bytes (bc : list Z) i v :
  Forall byte bc -> get_u32 bc i = Ret v -> 0 <= v < 2 ^ 32.
Proof.
  intros Hb H. unfold get_u32 in H.
  destruct (rd bc i) as [x| |] eqn:E1; try done; cbn in H.
  destruct (rd bc (i + 1)) as [y| |] eqn:E2; try done; cbn in H.
  destruct (rd bc (i + 2)) as [z| |] eqn:E3; try done; cbn in H.
  destruct (rd bc (i + 3)) as [t| |] eqn:E4; try done; cbn in H.
  injection H as <-.
  pose proof (get_u8_bytes _ _ _ Hb E1). pose proof (get_u8_bytes _ _ _ Hb E2).
  pose proof (get_u8_bytes _ _ _ Hb E3). pose proof (get_u8_bytes _ _ _ Hb E4). lia.
Qed.

Lemma wpM_code_u8 off (Q : frame -> Z -> Prop) :
  Forall byte (byte_code b) ->
  0 <= p + off < len ->
  (forall v, get_u8 (byte_code b) (p + off) = Ret v -> 0 <= v < 256 -> Q fr v) ->
  wpM (code_u8 b off) fr Q.
Proof.
  intros Hb Hr H. unfold wpM, code_u8. cbn.
  destruct (lookup_lt_is_Some_2 (byte_code b) (Z.to_nat (p + off))) as [x Hx]; [lia|].
  assert (E : get_u8 (byte_code b) (p + off) = Ret x) by (apply rd_Some; [lia|done]).
  rewrite E. cbn. apply H; [done|]. by eapply get_u8_bytes.
Qed.

Lemma wpM_code_u16 off (Q : frame -> Z -> Prop) :
  Forall byte (byte_code b) ->
  0 <= p + off -> p + off + 2 <= len ->
  (forall v, get_u16 (byte_code b) (p + off) = Ret v -> 0 <= v < 65536 -> Q fr v) ->
  wpM (code_u16 b off) fr Q.
Proof.
  intros Hb H0 Hr H. unfold wpM, code_u16. cbn.
  assert (exists x, get_u16 (byte_code b) (p + off) = Ret x) as [x E].
  { unfold get_u16.
    destruct (lookup_lt_is_Some_2 (byte_code b) (Z.to_nat (p + off))) as [x Hx]; [lia|].
    destruct (lookup_lt_is_Some_2 (byte_code b) (Z.to_nat (p + off + 1))) as [y Hy];
      [lia|].
    rewrite (rd_Some _ _ x), (rd_Some _ (p + off + 1) y) by (done || lia). by eexists. }
  rewrite E. cbn. apply H; [done|]. by eapply get_u16_bytes.
Qed.

Lemma wpM_code_u32 off (Q : frame -> Z -> Prop) :
  Forall byte (byte_code b) ->
  0 <= p + off -> p + off + 4 <= len ->
  (forall v, get_u32 (byte_code b) (p + off) = Ret v -> 0 <= v < 2 ^ 32 -> Q fr v) ->
  wpM (code_u32 b off) fr Q.
Proof.
  intros Hb H0 Hr H. unfold wpM, code_u32. cbn.
  assert (exists x, get_u32 (byte_code b) (p + off) = Ret x) as [x E].
  { unfold get_u32.
    destruct (lookup_lt_is_Some_2 (byte_code b) (Z.to_nat (p + off))) as [x Hx]; [lia|].
    destruct (lookup_lt_is_Some_2 (byte_code b) (Z.to_nat (p + off + 1))) as [y Hy];
      [lia|].
    destruct (lookup_lt_is_Some_2 (byte_code b) (Z.to_nat (p + off + 2))) as [z Hz];
      [lia|].
    destruct (lookup_lt_is_Some_2 (byte_code b) (Z.to_nat (p + off + 3))) as [t Ht];
      [lia|].
    rewrite (rd_Some _ _ x), (rd_Some _ (p + off + 1) y), (rd_Some _ (p + off + 2) z),
      (rd_Some _ (p + off + 3) t) by (done || lia). by eexists. }
  rewrite E. cbn. apply H; [done|]. by eapply get_u32_bytes.
Qed.

Lemma wpM_get_const idx (Q : frame -> JSValue -> Prop) :
  0 <= idx < Z.of_nat (length (cpool b)) -> (forall v, Q fr v) ->
  wpM (get_const b idx) fr Q.
Proof.
  intros Hi H. unfold wpM, get_const. apply wp_bind, wp_rd; [done|].
  intros v _. apply H.
Qed.

Lemma wpM_get_var idx (Q : frame -> JSValue -> Prop) :
  0 <= idx < Z.of_nat (length (var_buf l)) -> (forall v, Q fr v) ->
  wpM (get_var idx) fr Q.
Proof.
  intros Hi H. unfold wpM, get_var. apply wp_bind, wp_rd; [done|].
  intros v _. apply H.
Qed.

Lemma wpM_get_arg idx (Q : frame -> JSValue -> Prop) :
  0 <= idx < Z.of_nat (length (arg_buf l)) -> (forall v, Q fr v) ->
  wpM (get_arg idx) fr Q.
Proof.
  intros Hi H. unfold wpM, get_arg. apply wp_bind, wp_rd; [done|].
  intros v _. apply H.
Qed.

Lemma wpM_get_ref idx (Q : frame -> JSValue -> Prop) :
  0 <= idx < Z.of_nat (length (var_refs b)) -> (forall v, Q fr v) ->
  wpM (get_ref b idx) fr Q.
Proof.
  intros Hi H. unfold wpM, get_ref. apply wp_bind, wp_rd; [done|].
  intros v _. apply H.
Qed.

Lemma wpM_set_var idx v (Q : frame -> unit -> Prop) :
  0 <= idx < Z.of_nat (length (var_buf l)) ->
  (forall l' w' old, same_sizes l l' ->
     Q (mkFrame p st l' w' ((tr ++ [EvTake v; EvNew old]) ++ [EvFree old])) tt) ->
  wpM (set_var idx v) fr Q.
Proof.
  intros Hi H. unfold wpM, set_var. cbn. apply wp_bind, wp_rd; [done|].
  intros old _. apply wp_bind, wp_wr; [done|].
  apply H. split; cbn; by rewrite ?length_insert.
Qed.

Lemma wpM_assign_var idx v (Q : frame -> unit -> Prop) :
  0 <= idx < Z.of_nat (length (var_buf l)) ->
  (forall l' old, same_sizes l l' -> var_buf l !! Z.to_nat idx = Some old ->
     Q (mkFrame p st l' w (tr ++ [EvTake v; EvNew old])) tt) ->
  wpM (assign_var idx v) fr Q.
Proof.
  intros Hi H. unfold wpM, assign_var. cbn. apply wp_bind, wp_rd; [done|].
  intros old Hold. apply wp_bind, wp_wr; [done|].
  apply H; [|done]. split; cbn; by rewrite ?length_insert.
Qed.

Lemma wpM_get_var_at idx (Q : frame -> JSValue -> Prop) :
  0 <= idx < Z.of_nat (length (var_buf l)) ->
  (forall v, var_buf l !! Z.to_nat idx = Some v -> Q fr v) ->
  wpM (get_var idx) fr Q.
Proof.
  intros Hi H. unfold wpM, get_var. apply wp_bind, wp_rd; [done|].
  intros v Hv. by apply H.
Qed.

Lemma wpM_set_arg idx v (Q : frame -> unit -> Prop) :
  0 <= idx < Z.of_nat (length (arg_buf l)) ->
  (forall l' w' old, same_sizes l l' ->
     Q (mkFrame p st l' w' ((tr ++ [EvTake v; EvNew old]) ++ [EvFree old])) tt) ->
  wpM (set_arg idx v) fr Q.
Proof.
  intros Hi H. unfold wpM, set_arg. cbn. apply wp_bind, wp_rd; [done|].
  intros old _. apply wp_bind, wp_wr; [done|].
  apply H. split; cbn; by rewrite ?length_insert.
Qed.

Lemma wpM_set_ref idx v (Q : frame -> unit -> Prop) :
  0 <= idx < Z.of_nat (length (var_refs b)) ->
  (forall w' old,
     Q (mkFrame p st l w' ((tr ++ [EvTake v; EvNew old]) ++ [EvFree old])) tt) ->
  wpM (set_ref b idx v) fr Q.
Proof.
  intros Hi H. unfold wpM, set_ref. cbn. apply wp_bind, wp_rd; [done|].
  intros r _. apply H.
Qed.
End wpm.
