(* ===== verification/InterpSpec.v ===== *)
(** * What one instruction of the interpreter does to its frame *)

From stdpp Require Import base tactics numbers list option.
From Stdlib Require Import ZArith Lia SpecFloat.
From S2P Require Import Prelude Cutils Opcodes Values InterpBase InterpOps InterpOps2 InterpOps3 StackSize StackSizeSpec InterpWp.

Open Scope Z_scope.
Open Scope interp_scope.

Section spec.
Context {rt : Runtime} {rtok : RuntimeOk rt} (b : fn_env) (wt : JSValue -> Z).
Hypothesis wt_plain : forall v, JS_VALUE_HAS_REF_COUNT v = false -> wt v = 0.
Hypothesis code_bytes : Forall byte (byte_code b).

(** The references that the frame owes: those of its operands, less those
    received and not yet given back. *)
Definition potential (s : frame) : Z := wsum wt (sp s) - wev wt (trace s).

(** The catch offsets of [st'] are those of [st], at the same heights. *)
Definition keeps_catches (st st' : list JSValue) : Prop :=
  forall k pos, rev st' !! k = Some (JS_CATCH_OFFSET pos) ->
                rev st !! k = Some (JS_CATCH_OFFSET pos).

(** Where an instruction that ends with [BREAK] leaves the frame. *)
Definition break_post (op : OPCodeEnum) (p : Z) (st : list JSValue)
    (lst : list (Z * Z)) (s' : frame) : Prop :=
  match op with
  | OP_ret => exists n, st = JS_INT n :: sp s' /\ pc s' = u32 n
                /\ u32 n < Z.of_nat (length (byte_code b))
  | OP_iterator_close_return =>
      pc s' = p + 1
      /\ exists ret extra pos n i rest,
           Forall plain_value extra
           /\ st = ret :: extra ++ JS_CATCH_OFFSET pos :: n :: i :: rest
           /\ sp s' = JS_CATCH_OFFSET pos :: n :: i :: ret :: rest
  | _ => (pc s', Z.of_nat (length (sp s'))) ∈ lst
  end.

Definition insn_post (op : OPCodeEnum) (p : Z) (s : frame) (lst : list (Z * Z))
    (m : Z) (s' : frame) (r : outcome) : Prop :=
  same_sizes (lv s) (lv s')
  /\ potential s' + (match r with DONE v => wt v | _ => 0 end) = potential s
  /\ match r with
     | BREAK => break_post op p (sp s) lst s'
     | EXCEPTION =>
         Z.of_nat (length (sp s')) <= Z.max (Z.of_nat (length (sp s))) m
         /\ keeps_catches (sp s) (sp s')
     | DONE _ => True
     | DONE_GENERATOR _ => sp s' = sp s /\ pc s' = p + 1
     end.

(** The indexes that the operands of an instruction may have. *)
Definition in_range {A} (l : list A) (idx : Z) : Prop :=
  idx < Z.of_nat (length l).

Definition index_ok (op : OPCodeEnum) (p : Z) (l : locals) : Prop :=
  match fmt (op_info op) with
  | OP_FMT_loc => forall i, get_u16 (byte_code b) (p + 1) = Ret i -> in_range (var_buf l) i
  | OP_FMT_loc8 => forall i, get_u8 (byte_code b) (p + 1) = Ret i -> in_range (var_buf l) i
  | OP_FMT_none_loc => in_range (var_buf l) ((op_num op - op_num OP_get_loc0) mod 4)
  | OP_FMT_arg => forall i, get_u16 (byte_code b) (p + 1) = Ret i -> in_range (arg_buf l) i
  | OP_FMT_none_arg => in_range (arg_buf l) ((op_num op - op_num OP_get_arg0) mod 4)
  | OP_FMT_var_ref => forall i, get_u16 (byte_code b) (p + 1) = Ret i -> in_range (var_refs b) i
  | OP_FMT_none_var_ref => in_range (var_refs b) ((op_num op - op_num OP_get_var_ref0) mod 4)
  | OP_FMT_const => forall i, get_u32 (byte_code b) (p + 1) = Ret i -> in_range (cpool b) i
  | OP_FMT_const8 => forall i, get_u8 (byte_code b) (p + 1) = Ret i -> in_range (cpool b) i
  | OP_FMT_atom_u16 => forall i, op = OP_make_var_ref_ref ->
      get_u16 (byte_code b) (p + 5) = Ret i -> in_range (var_refs b) i
  | _ => True
  end.

(** What the compiler guarantees of the operands on the stack of a few
    instructions. *)
Definition value_ok (op : OPCodeEnum) (p : Z) (st : list JSValue) : Prop :=
  match op with
  | OP_special_object => forall a, get_u8 (byte_code b) (p + 1) = Ret a -> a <= 6
  | OP_put_var_strict => exists t v st', st = v :: JS_BOOL t :: st'
  | OP_for_of_next => forall k, get_u8 (byte_code b) (p + 1) = Ret k ->
      3 + k <= Z.of_nat (length st)
  | OP_copy_data_properties => forall mask, get_u8 (byte_code b) (p + 1) = Ret mask ->
      1 + Z.land mask 3 <= Z.of_nat (length st)
      /\ 1 + Z.land (Z.shiftr mask 2) 7 <= Z.of_nat (length st)
      /\ 1 + Z.land (Z.shiftr mask 5) 7 <= Z.of_nat (length st)
  | OP_iterator_close => exists v st', st = v :: st' /\ JS_VALUE_HAS_REF_COUNT v = false
  | OP_define_class | OP_define_class_computed => exists bfunc parent st',
      st = bfunc :: parent :: st'
      /\ (forall s, r_ret (rt_call is_normal_function [bfunc] s).2 <> 0)
      /\ (forall flags, get_u8 (byte_code b) (p + 5) = Ret flags ->
            Z.testbit flags 0 = false -> JS_VALUE_HAS_REF_COUNT parent = false)
  | _ => True
  end.

(** An instruction at [p], in a frame with its operands. *)
Record at_insn (op : OPCodeEnum) (p : Z) (s : frame) (lst : list (Z * Z)) (m n : Z)
    : Prop := {
  at_pc : pc s = p + 1;
  at_pos : 0 <= p;
  at_fit : p + size (op_info op) <= Z.of_nat (length (byte_code b));
  at_pop : insn_n_pop (byte_code b) (op_num op) p (op_info op) = Ret n;
  at_depth : n <= Z.of_nat (length (sp s));
  at_max : m = Z.of_nat (length (sp s)) + n_push (op_info op) - n;
  at_targets : ss_targets (byte_code b) op p (p + size (op_info op)) m = Ret lst;
  at_index : index_ok op p (lv s);
  at_value : value_ok op p (sp s)
}.

(** ** Catch offsets *)

Lemma keeps_refl st : keeps_catches st st.
Proof. by intros k pos. Qed.

Lemma rev_lookup_cons (x : JSValue) st k :
  rev (x :: st) !! k
  = if decide (k < length st)%nat then rev st !! k
    else if decide (k = length st) then Some x else None.
Proof.
  cbn [rev]. rewrite lookup_app_dec, length_rev. case_decide; [done|].
  case_decide as E.
  - subst. by rewrite Nat.sub_diag.
  - apply lookup_ge_None_2. cbn. lia.
Qed.

Lemma keeps_push y st st' :
  (length st <= length st')%nat ->
  plain_value y -> keeps_catches st st' -> keeps_catches st (y :: st').
Proof.
  intros _ Hy H k pos. rewrite rev_lookup_cons.
  case_decide; [apply H|]. case_decide; [|done]. intros [= ->]. done.
Qed.

Lemma keeps_drop x st st' :
  (length st' <= length st)%nat ->
  keeps_catches st st' -> keeps_catches (x :: st) st'.
Proof.
  intros Hl H k pos E. rewrite rev_lookup_cons.
  pose proof (lookup_lt_Some _ _ _ E) as Hk. rewrite length_rev in Hk.
  case_decide; [by apply H|lia].
Qed.

Lemma keeps_cons x y st st' :
  length st = length st' -> plain_value y \/ y = x ->
  keeps_catches st st' -> keeps_catches (x :: st) (y :: st').
Proof.
  intros Hl Hy H k pos. rewrite !rev_lookup_cons, Hl.
  case_decide; [apply H|]. case_decide; [|done].
  destruct Hy as [Hy| ->]; intros [= ->]; done.
Qed.

Lemma keeps_app st st' rest :
  length st' = length st -> Forall plain_value st' ->
  keeps_catches (st ++ rest) (st' ++ rest).
Proof.
  revert st. induction st' as [|y st' IH]; intros [|x st] Hl Hf; [apply keeps_refl|done|done|].
  apply Forall_cons_1 in Hf as [Hy Hf]. rewrite <- !app_comm_cons.
  injection Hl as Hl.
  apply keeps_cons; [rewrite !length_app; lia|by left|by apply IH].
Qed.

(** ** Running an instruction *)

Lemma length_ge_cons {A} (l : list A) n :
  Z.of_nat (S n) <= Z.of_nat (length l) ->
  exists x l', l = x :: l' /\ Z.of_nat n <= Z.of_nat (length l').
Proof. destruct l as [|x l]; simpl; [lia|]. intros H. exists x, l. split; [done|lia]. Qed.

Lemma JS_IsException_true v : JS_IsException v = true -> v = JS_EXCEPTION.
Proof. by destruct v. Qed.
Lemma JS_IsUndefined_true v : JS_IsUndefined v = true -> v = JS_UNDEFINED.
Proof. by destruct v. Qed.
Lemma JS_IsNull_true v : JS_IsNull v = true -> v = JS_NULL.
Proof. by destruct v. Qed.
End spec.


Create Rewrite HintDb weight.
#[export] Hint Rewrite @wsum_nil @wev_nil @wsum_cons @wev_cons @wsum_app @wev_app @wev_take @wev_new
  @wev_free @wsum_rev : weight.

(** Splits the operands that the instruction removes off the stack. *)
Ltac operands H :=
  lazymatch type of H with
  | _ <= Z.of_nat (length ?st) =>
      lazymatch type of H with
      | 0 <= _ => idtac
      | Z.pos ?k <= _ =>
          let n := eval compute in (Nat.pred (Pos.to_nat k)) in
          apply (length_ge_cons st n) in H;
          let x := fresh "x" in let st' := fresh "st" in let Hs := fresh "Hs" in
          destruct H as (x & st' & Hs & H); subst st;
          let z := eval compute in (Z.of_nat n) in
          change (Z.of_nat n) with z in H;
          operands H
      end
  end.

(** An index read from the code is in its range. *)
Ltac index_side :=
  lazymatch goal with
  | Hi : forall i, get_u8 ?bc (?p + 1) = Ret i -> in_range ?l i,
    E : get_u8 ?bc _ = Ret ?v |- _ => rewrite ?Z.add_0_r in E; specialize (Hi v E)
  | Hi : forall i, get_u16 ?bc (?p + 1) = Ret i -> in_range ?l i,
    E : get_u16 ?bc _ = Ret ?v |- _ => rewrite ?Z.add_0_r in E; specialize (Hi v E)
  | Hi : forall i, get_u32 ?bc (?p + 1) = Ret i -> in_range ?l i,
    E : get_u32 ?bc _ = Ret ?v |- _ => rewrite ?Z.add_0_r in E; specialize (Hi v E)
  | Hi : forall i, ?o = ?o -> get_u16 ?bc ?q = Ret i -> in_range ?l i,
    E : get_u16 ?bc ?q' = Ret ?v |- _ =>
      replace q' with q in E by lia; specialize (Hi v eq_refl E)
  | _ => idtac
  end; unfold in_range in *; lia.

Ltac unfold_head m :=
  lazymatch m with
  | ?f _ => unfold_head f
  | @ub => fail "ub"
  | @array_from_loop => fail "loop"
  | ?f => unfold f
  end.

(** A test: an exception, or a value of a kind without references. *)
Ltac istep_if c :=
  let E := fresh "E" in
  lazymatch c with
  | JS_IsException ?v =>
      destruct (JS_IsException v) eqn:E; [apply JS_IsException_true in E; try subst v|]
  | JS_IsUndefined ?v =>
      destruct (JS_IsUndefined v) eqn:E; [apply JS_IsUndefined_true in E; try subst v|]
  | JS_IsNull ?v =>
      destruct (JS_IsNull v) eqn:E; [apply JS_IsNull_true in E; try subst v|]
  | negb ?d => istep_if d; cbn [negb]
  | JS_IsUndefined ?v || ?e =>
      istep_if (JS_IsUndefined v); cbn [orb]; [|istep_if e]
  | decide _ => destruct c; [try discriminate|try congruence]
  | bool_decide _ => let r := eval vm_compute in c in change c with r
  | _ => destruct c eqn:E
  end; cbv beta iota.

(** One step of the interpreter. *)
Ltac istep :=
  cbv beta iota zeta;
  lazymatch goal with
  | |- wpM (mbind _ _) _ _ => apply wpM_bind
  | |- wpM (mret _) _ _ => apply wpM_ret
  | |- wpM (push _) _ _ => apply wpM_push
  | |- wpM (sp_get _) _ _ => eapply wpM_sp_get; [reflexivity|]
  | |- wpM (sp_set _ _) _ _ =>
      eapply wpM_sp_set; [reflexivity|]; cbn [insert list_insert]
  | |- wpM (sp_drop _) _ _ => apply wpM_sp_drop; [cbn [length]; lia|]; cbn [drop Nat.add]; rewrite ?drop_0
  | |- wpM pop _ _ => eapply wpM_pop; [reflexivity|]
  | |- wpM (adv _) _ _ => apply wpM_adv
  | |- wpM (dup _) _ _ => apply wpM_dup
  | |- wpM (free _) _ _ => apply wpM_free; intros ?
  | |- wpM (rcall _ _) _ _ => apply wpM_rcall; intros ? ? ? [? ?] ? ?
  | |- wpM (rcall_int _ _) _ _ => apply wpM_rcall_int; intros ? ? ? [? ?]
  | |- wpM (rcall_val _ _) _ _ => apply wpM_rcall_val; intros ? ? ? [? ?] ? _
  | |- wpM (rcall_val_int _ _) _ _ => apply wpM_rcall_val_int; intros ? ? ? ? [? ?] ? ?
  | |- wpM (code_u8 _ _) _ _ => apply wpM_code_u8; [assumption|lia|intros ? ? ?]
  | |- wpM (code_u16 _ _) _ _ => apply wpM_code_u16; [assumption|lia|lia|intros ? ? ?]
  | |- wpM (code_u32 _ _) _ _ => apply wpM_code_u32; [assumption|lia|lia|intros ? ? ?]
  | |- wpM (get_const _ _) _ _ => apply wpM_get_const; [index_side|intros ?]
  | |- wpM (get_var _) _ _ => apply wpM_get_var_at; [index_side|intros ? ?]
  | |- wpM (assign_var _ _) _ _ =>
      apply wpM_assign_var; [index_side|intros ? ? [? ?] ?]; simplify_eq
  | |- wpM (get_arg _) _ _ => apply wpM_get_arg; [index_side|intros ?]
  | |- wpM (get_ref _ _) _ _ => apply wpM_get_ref; [index_side|intros ?]
  | |- wpM (set_var _ _) _ _ => apply wpM_set_var; [index_side|intros ? ? ? [? ?]]
  | |- wpM (set_arg _ _) _ _ => apply wpM_set_arg; [index_side|intros ? ? ? [? ?]]
  | |- wpM (set_ref _ _ _) _ _ => apply wpM_set_ref; [index_side|intros ? ?]
  | |- wpM (if ?c then _ else _) _ _ => istep_if c
  | |- wpM (fun s => _) ?f ?Q =>
      lazymatch goal with |- wpM ?m _ _ =>
        let r := eval cbv beta in (m f) in
        lazymatch r with
        | ?m' f => change (wpM m' f Q); cbn [pc sp]
        | Ret (?f', ?a) => change (Q f' a); cbn [pc sp lv world trace set_pc]
        end
      end
  | |- wpM (match (if ?c then _ else _) with _ => _ end) _ _ => istep_if c
  | |- wpM (match ?v with _ => _ end) _ _ =>
      let E := fresh "E" in destruct v eqn:E
  | |- wpM ?m _ _ => unfold_head m
  end.

(** The description of the opcode [op], computed. *)
Ltac compute_info op :=
  let oi := eval vm_compute in (op_info op) in
  change (op_info op) with oi in *;
  cbn [size n_pop n_push fmt] in *.

Ltac plain_side := first [exact I | assumption | left; exact I | left; assumption | right; reflexivity].

Ltac keeps :=
  repeat first
    [ apply keeps_refl | assumption
    | apply keeps_cons; [cbn [length]; lia|plain_side|]
    | apply keeps_drop; [cbn [length]; lia|]
    | apply keeps_push; [cbn [length]; lia|plain_side|] ].

Create HintDb no_ref.
Lemma no_ref_new_f64 {rt : Runtime} d : JS_VALUE_HAS_REF_COUNT (new_f64 d) = false.
Proof. unfold new_f64, JS_NewFloat64. by case_decide. Qed.
Lemma no_ref_shr a c : JS_VALUE_HAS_REF_COUNT (shr_value a c) = false.
Proof. unfold shr_value, JS_NewUint32. by zcase. Qed.
#[export] Hint Resolve no_ref_new_f64 no_ref_shr : no_ref.

(** The equations between weights, with the values without references
    removed. *)
Ltac weight_rewrite :=
  repeat match goal with
  | H : forall v, JS_VALUE_HAS_REF_COUNT v = false -> ?wt v = 0
    |- context [?wt ?v] => rewrite (H v) by first [reflexivity | assumption | auto with no_ref nocore]
  | H : forall v, JS_VALUE_HAS_REF_COUNT v = false -> ?wt v = 0,
    E : _ = _ |- _ =>
      lazymatch type of E with
      | context [wev wt _] =>
          match type of E with context [wt ?v] =>
            rewrite (H v) in E by first [reflexivity | assumption | auto with no_ref nocore]
          end
      end
  end.

Ltac weights :=
  repeat match goal with
  | E : _ = _ |- _ =>
      lazymatch type of E with
      | context [wev _ _] =>
          progress (cbn [flat_map arg_event app] in E; autorewrite with weight in E;
                    cbn [wev1] in E)
      end
  end;
  cbn [flat_map arg_event app]; autorewrite with weight;
  cbn [wev1];
  weight_rewrite; lia.

(** The targets of a jump, from the operand that the instruction reads. *)
Ltac jump_targets :=
  match goal with
  | Hl : (let* diff := ?f ?bc ?q in _) = Ret ?lst, E : ?f ?bc ?q' = Ret ?v |- _ =>
      replace q' with q in E by lia; rewrite E in Hl;
      cbn [bind length] in Hl; injection Hl as <-;
      unfold int_i8, int_i16, InterpBase.i8, InterpBase.i16
  end.

Ltac in_targets :=
  try jump_targets;
  cbn [length]; rewrite ?elem_of_cons;
  first [ left; f_equal; lia | right; left; f_equal; lia ].

(** The end of an instruction. *)
Ltac ifin1 :=
  unfold insn_post, potential, set_pc; cbn [sp lv trace pc];
  split; [split; congruence|split; [weights|]];
  lazymatch goal with
  | |- break_post _ _ _ _ _ _ => try solve [cbn [break_post pc sp]; in_targets]
  | |- break_post _ _ _ _ _ => try solve [cbn [break_post pc sp]; in_targets]
  | |- _ <= _ /\ keeps_catches _ _ => split; [cbn [length]; lia|keeps]
  | |- True => exact I
  | |- _ = _ /\ _ = _ => split; [reflexivity|lia]
  | |- _ => idtac
  end.
Ltac ifin :=
  repeat match goal with
  | |- insn_post _ _ _ _ _ _ _ (mkFrame _ _ _ _ ?t) _ =>
      match t with context [if ?c then [] else _] => destruct c end
  | |- insn_post _ _ _ _ _ _ _ _ (if ?c then _ else _) => istep_if c
  end;
  [> ifin1 .. ].

(** Opens the hypotheses on an instruction for one run of opcodes. *)
Ltac open_insn op Ho H :=
  let Hd := fresh "Hd" in let Hpop := fresh "Hpop" in let Hl := fresh "Hl" in
  let Hm := fresh "Hm" in let Hi := fresh "Hi" in let Hv := fresh "Hv" in
  let Hpc := fresh "Hpc" in
  destruct H as [Hpc ? ? Hpop Hd Hm Hl Hi Hv]; cbn [pc sp lv] in *; subst;
  destruct op; try discriminate Ho; injection Ho as <-;
  unfold insn_n_pop in Hpop; unfold index_ok in Hi;
  lazymatch type of Hl with ss_targets _ ?o _ _ _ = _ => compute_info o end;
  cbn in Hpop, Hi; cbn [value_ok] in Hv; cbn [ss_targets] in Hl;
  try match type of Hi with
  | in_range _ (?a mod 4) => let v := eval vm_compute in (a mod 4) in
                             change (a mod 4) with v in Hi
  end.

(** ** Helpers of the instructions, for any weight of the references *)

Section helpers.
Context {rt : Runtime} {rtok : RuntimeOk rt} (wt : JSValue -> Z).
Hypothesis wt_plain : forall v, JS_VALUE_HAS_REF_COUNT v = false -> wt v = 0.
Context (p : Z) (st : list JSValue) (l : locals) (w : World) (tr : list event).
Abbreviation fr := (mkFrame p st l w tr).

(** A helper that leaves the stack as it is and receives references of
    weight [k] (or gives them back). *)
Definition changes {A} (k : A -> Z) (Q : frame -> A -> Prop) : Prop :=
  forall l' w' tr' a, length (var_buf l') = length (var_buf l) ->
    length (arg_buf l') = length (arg_buf l) ->
    wev wt tr' = wev wt tr + k a ->
    Q (mkFrame p st l' w' tr') a.

Lemma wpM_branch_test v (Q : frame -> Z -> Prop) :
  changes (fun _ => - wt v) Q -> wpM (branch_test v) fr Q.
Proof.
  intros HQ. unfold branch_test. cbv zeta.
  destruct ((0 <=? _) && _) eqn:E.
  - assert (Hv : wt v = 0 /\ exists n, JS_VALUE_GET_INT v = Ret n).
    { destruct v as [| | | | | | | |[] ?]; cbn in E; try discriminate;
        (split; [by apply wt_plain|by eexists]). }
    destruct Hv as [Hv [n Hn]].
    unfold wpM, lift. rewrite Hn. cbn. apply HQ; [done|done|lia].
  - istep. apply HQ; [done|done|weights].
Qed.

Lemma wpM_js_operator_typeof v (Q : frame -> Z -> Prop) :
  changes (fun _ => 0) Q -> wpM (js_operator_typeof v) fr Q.
Proof.
  intros HQ. unfold js_operator_typeof.
  repeat istep; apply HQ; try congruence; weights.
Qed.

Lemma wpM_js_strict_eq2 v1 v2 mode (Q : frame -> bool -> Prop) :
  changes (fun _ => - wt v1 - wt v2) Q -> wpM (js_strict_eq2 v1 v2 mode) fr Q.
Proof.
  intros HQ. unfold js_strict_eq2. cbv zeta.
  repeat istep; apply HQ; try congruence; weights.
Qed.
End helpers.

Section helpers2.
Context {rt : Runtime} {rtok : RuntimeOk rt} (wt : JSValue -> Z).
Hypothesis wt_plain : forall v, JS_VALUE_HAS_REF_COUNT v = false -> wt v = 0.
Context (p : Z) (st : list JSValue).

Lemma operands_changes_trans {A} (k1 : Z) (k k2 : A -> Z) l tr l' tr' (Q : frame -> A -> Prop) :
  changes wt p st l tr k Q ->
  length (var_buf l') = length (var_buf l) ->
  length (arg_buf l') = length (arg_buf l) ->
  wev wt tr' = wev wt tr + k1 -> (forall a, k a = k1 + k2 a) ->
  changes wt p st l' tr' k2 Q.
Proof.
  intros HQ H1 H2 H3 Hk l2 w2 tr2 a E1 E2 E3. apply HQ; [congruence..|].
  rewrite E3, H3, Hk. lia.
Qed.

(** The conversions left to do before two values compare. *)
Definition eq_measure (v : JSValue) : nat :=
  match v with
  | JS_MKPTR PTR_OBJECT _ => 2
  | JS_BOOL _ => 1
  | _ => 0
  end.

Lemma eq_measure_primitive v : JS_IsObject v = false -> (eq_measure v <= 1)%nat.
Proof. by destruct v as [| | | | | | | |[] ?]; cbn; try discriminate; lia. Qed.

Lemma eq_measure_bound v1 v2 : (eq_measure v1 + eq_measure v2 < 6)%nat.
Proof.
  enough (forall v, eq_measure v <= 2)%nat as H
    by (pose proof (H v1); pose proof (H v2); lia).
  intros [| | | | | | | |[] ?]; cbn; lia.
Qed.

Lemma tag_object v : JS_VALUE_GET_TAG v = JS_TAG_OBJECT -> eq_measure v = 2%nat.
Proof. by destruct v as [| | | | | | | |[] ?]. Qed.

Lemma tag_bool v :
  JS_VALUE_GET_TAG v = JS_TAG_BOOL ->
  eq_measure v = 1%nat /\ wt v = 0 /\ exists n, JS_VALUE_GET_INT v = Ret n.
Proof. destruct v as [| | | | | | | |[] ?]; try done. intros _. eauto. Qed.

Lemma wpM_lift {A} (a : A) l w tr (Q : frame -> A -> Prop) :
  Q (mkFrame p st l w tr) a -> wpM (lift (Ret a)) (mkFrame p st l w tr) Q.
Proof. done. Qed.

Lemma wpM_js_eq_loop fuel v1 v2 l w tr (Q : frame -> option bool -> Prop) :
  (eq_measure v1 + eq_measure v2 < fuel)%nat ->
  changes wt p st l tr (fun _ => - wt v1 - wt v2) Q ->
  wpM (js_eq_loop fuel v1 v2) (mkFrame p st l w tr) Q.
Proof.
  revert v1 v2 l w tr Q. induction fuel as [|fuel IH]; intros v1 v2 l w tr Q Hf HQ;
    [lia|].
  cbn [js_eq_loop]. cbv zeta.
  destruct (_ || _) eqn:E1.
  { istep. unfold js_strict_eq. apply (wpM_js_strict_eq2 wt wt_plain).
    intros l' w' tr' r H1 H2 H3. istep. apply HQ; auto. }
  clear E1. destruct (is_nullish_tag _ && _) eqn:E2.
  { istep. apply HQ; [done|done|].
    apply andb_prop in E2 as [Ea Eb].
    destruct v1 as [| | | | | | | |[] ?]; try discriminate;
      destruct v2 as [| | | | | | | |[] ?]; try discriminate; weights. }
  clear E2. destruct (_ || _) eqn:E3.
  { repeat istep; apply HQ; try congruence; weights. }
  clear E3.
  destruct (Z.eqb_spec (JS_VALUE_GET_TAG v1) JS_TAG_BOOL) as [E|_].
  { apply tag_bool in E as (Hm & Hw & n & ->). istep. apply wpM_lift.
    apply IH; [cbn; lia|]. rewrite Hw in HQ. rewrite (wt_plain (JS_NewInt32 n)); done. }
  destruct (Z.eqb_spec (JS_VALUE_GET_TAG v2) JS_TAG_BOOL) as [E|_].
  { apply tag_bool in E as (Hm & Hw & n & ->). istep. apply wpM_lift.
    apply IH; [cbn; lia|]. rewrite Hw in HQ. rewrite (wt_plain (JS_NewInt32 n)); done. }
  destruct ((JS_VALUE_GET_TAG v1 =? _) && is_prim_key_tag _) eqn:E.
  { apply andb_prop in E as [E _]. apply Z.eqb_eq, tag_object in E.
    istep. apply wpM_rcall_val. intros l' w' v [H1 H2] Hv Hp.
    specialize (Hp _ eq_refl).
    apply eq_measure_primitive in Hp. istep.
    - repeat istep. apply HQ; [congruence..|weights].
    - apply IH; [lia|]. eapply operands_changes_trans; [exact HQ|done|done| |].
      + cbn [flat_map arg_event app]. autorewrite with weight. cbn [wev1].
        rewrite Z.add_0_r, <- Z.add_assoc. reflexivity.
      + intros a. cbn beta. lia. }
  clear E.
  destruct ((JS_VALUE_GET_TAG v2 =? _) && is_prim_key_tag _) eqn:E.
  { apply andb_prop in E as [E _]. apply Z.eqb_eq, tag_object in E.
    istep. apply wpM_rcall_val. intros l' w' v [H1 H2] Hv Hp.
    specialize (Hp _ eq_refl).
    apply eq_measure_primitive in Hp. istep.
    - repeat istep. apply HQ; [congruence..|weights].
    - apply IH; [lia|]. eapply operands_changes_trans; [exact HQ|done|done| |].
      + cbn [flat_map arg_event app]. autorewrite with weight. cbn [wev1].
        rewrite Z.add_0_r, <- Z.add_assoc. reflexivity.
      + intros a. cbn beta. lia. }
  clear E.
  istep. apply wpM_rcall_int. intros l1 w1 h1 [? ?]. istep.
  destruct (negb (h1 =? 0) && _).
  all: repeat istep; apply HQ; [congruence..|weights].
Qed.

Lemma wpM_add_values v1 v2 l w tr (Q : frame -> option JSValue -> Prop) :
  changes wt p st l tr (fun r =>
    match r with Some v => wt v | None => 0 end - wt v1 - wt v2) Q ->
  wpM (add_values v1 v2) (mkFrame p st l w tr) Q.
Proof.
  intros HQ. unfold add_values. cbv zeta.
  repeat istep.
  all: try match goal with |- context [if JS_IsException ?v then _ else _] =>
    istep_if (JS_IsException v) end.
  all: apply HQ; [congruence..|weights].
Qed.

Lemma wpM_unary_arith op v l w tr (Q : frame -> option JSValue -> Prop) :
  op = OP_inc \/ op = OP_dec \/ op = OP_plus \/ op = OP_neg ->
  changes wt p st l tr (fun r =>
    match r with Some v => wt v | None => 0 end - wt v) Q ->
  wpM (unary_arith op v) (mkFrame p st l w tr) Q.
Proof.
  intros Hop HQ. unfold unary_arith. cbv zeta.
  destruct Hop as [->|[->|[->| ->]]]; repeat istep; apply HQ; try congruence; weights.
Qed.

Lemma wpM_js_has_unscopable obj atom l w tr (Q : frame -> Z -> Prop) :
  changes wt p st l tr (fun _ => 0) Q ->
  wpM (js_has_unscopable obj atom) (mkFrame p st l w tr) Q.
Proof.
  intros HQ. unfold js_has_unscopable.
  repeat istep; apply HQ; try congruence; weights.
Qed.
End helpers2.

(** ** Instructions with a variable number of operands *)

Section helpers3.
Context {rt : Runtime} {rtok : RuntimeOk rt} (wt : JSValue -> Z).
Context (p : Z).

Lemma wsum_take_drop n st : wsum wt (take n st) + wsum wt (drop n st) = wsum wt st.
Proof. by rewrite <- wsum_app, take_drop. Qed.

Lemma wsum_insert i v old st :
  st !! i = Some old -> wsum wt (<[i := v]> st) = wsum wt st - wt old + wt v.
Proof.
  revert i. induction st as [|x st IH]; intros [|i] H; try done; cbn in H.
  - injection H as ->. cbn [insert list_insert]. rewrite !wsum_cons. lia.
  - change (<[S i := v]> (x :: st)) with (x :: <[i := v]> st).
    rewrite !wsum_cons, (IH i) by done. lia.
Qed.

Lemma keeps_insert i v st : plain_value v -> keeps_catches st (<[i := v]> st).
Proof.
  intros Hv. revert i. induction st as [|x st IH]; intros [|i];
    [apply keeps_refl|apply keeps_refl| |].
  - apply keeps_cons; [done|by left|apply keeps_refl].
  - change (<[S i := v]> (x :: st)) with (x :: <[i := v]> st).
    apply keeps_cons; [by rewrite length_insert|by right|apply IH].
Qed.

Lemma keeps_catches_trans st1 st2 st3 :
  keeps_catches st1 st2 -> keeps_catches st2 st3 -> keeps_catches st1 st3.
Proof. intros H1 H2 k pos H. by apply H1, H2. Qed.

Lemma wpM_sp_get_lt n st l w tr (Q : frame -> JSValue -> Prop) :
  (n < length st)%nat ->
  (forall v, st !! n = Some v -> Q (mkFrame p st l w tr) v) ->
  wpM (sp_get (S n)) (mkFrame p st l w tr) Q.
Proof.
  intros Hn HQ. destruct (lookup_lt_is_Some_2 st n Hn) as [v Hv].
  eapply wpM_sp_get; [exact Hv|by apply HQ].
Qed.

Lemma wpM_sp_get_pos n st l w tr (Q : frame -> JSValue -> Prop) :
  (0 < n <= length st)%nat ->
  (forall v, st !! (n - 1)%nat = Some v -> Q (mkFrame p st l w tr) v) ->
  wpM (sp_get n) (mkFrame p st l w tr) Q.
Proof.
  intros Hn HQ. destruct n as [|n]; [lia|]. apply wpM_sp_get_lt; [lia|].
  by replace (S n - 1)%nat with n in HQ by lia.
Qed.

Lemma wpM_argv f args n st l w tr (Q : frame -> JSValue -> Prop) :
  flat_map arg_event args = [] -> (n <= length st)%nat ->
  (forall st' l' w' tr' v,
     length (var_buf l') = length (var_buf l) ->
     length (arg_buf l') = length (arg_buf l) ->
     length st' = length st -> keeps_catches st st' -> plain_value v ->
     wsum wt st' - wev wt tr' = wsum wt st - wev wt tr - wt v ->
     Q (mkFrame p st' l' w' tr') v) ->
  wpM (rcall_argv f args n) (mkFrame p st l w tr) Q.
Proof.
  intros Ha Hn HQ. apply wpM_rcall_argv; [done|].
  intros l' w' argv' v [H1 H2] Hlen Hf Hv. apply HQ; [done|done| | |done|].
  - rewrite length_app, length_drop. lia.
  - rewrite <- (take_drop n st) at 1. apply keeps_app; [|done].
    rewrite length_take. lia.
  - rewrite Ha. cbn [app]. autorewrite with weight. cbn [wev1].
    pose proof (wsum_take_drop n st). lia.
Qed.

Lemma wpM_return_call n v st l w tr (Q : frame -> outcome -> Prop) :
  (n <= length st)%nat ->
  (forall st' w' tr',
     (length st' = length st - n + 1)%nat ->
     wsum wt st' - wev wt tr' = wsum wt st - wev wt tr + wt v ->
     Q (mkFrame p st' l w' tr') BREAK) ->
  wpM (return_call n v) (mkFrame p st l w tr) Q.
Proof.
  intros Hn HQ. unfold return_call. istep. apply wpM_sp_args; [done|].
  istep. apply wpM_free_list. intros w'. istep.
  apply wpM_sp_drop; [done|]. repeat istep. apply HQ.
  - cbn [length]. rewrite length_drop. lia.
  - autorewrite with weight. pose proof (wsum_take_drop n st). lia.
Qed.

Lemma wsum_undefined n :
  wt JS_UNDEFINED = 0 -> wsum wt (replicate n JS_UNDEFINED) = 0.
Proof.
  intros H. induction n as [|n IH]; [done|].
  cbn [replicate]. rewrite wsum_cons, IH, H. done.
Qed.

Lemma wpM_array_from_loop ret_val i left st l w tr (Q : frame -> bool -> Prop) :
  wt JS_UNDEFINED = 0 -> (left <= length st)%nat ->
  (forall st' l' w' tr' (r : bool),
     length (var_buf l') = length (var_buf l) ->
     length (arg_buf l') = length (arg_buf l) ->
     length st' = length st -> keeps_catches st st' ->
     wsum wt st' - wev wt tr' =
       wsum wt st - wev wt tr + (if r then wt ret_val else 0) ->
     (r = false -> st' = replicate left JS_UNDEFINED ++ drop left st) ->
     Q (mkFrame p st' l' w' tr') r) ->
  wpM (array_from_loop ret_val i left) (mkFrame p st l w tr) Q.
Proof.
  intros Hu. revert i st l w tr Q.
  induction left as [|k IH]; intros i st l w tr Q Hk HQ; cbn [array_from_loop].
  { istep. apply HQ; try done; [apply keeps_refl|lia]. }
  istep. apply wpM_sp_get_lt; [done|]. intros v Hv.
  istep. apply wpM_rcall_int. intros l1 w1 n [H1 H2].
  istep. eapply wpM_sp_set; [exact Hv|].
  pose proof (wsum_insert k JS_UNDEFINED v st Hv) as Hw.
  pose proof (keeps_insert k JS_UNDEFINED st I) as Hks.
  pose proof (length_insert st k JS_UNDEFINED) as Hlen. cbn beta.
  assert (Hev : wev wt (tr ++ flat_map arg_event [Borrow ret_val; Own v])
                = wev wt tr - wt v).
  { cbn [flat_map arg_event app]. autorewrite with weight. cbn. lia. }
  istep.
  - repeat istep. apply HQ; try done.
    rewrite wev_app, Hev, Hw, Hu. cbn. lia.
  - apply IH; [lia|]. intros st' l' w' tr' r E1 E2 E3 E4 E5 E6.
    apply HQ; [congruence|congruence|lia|by eapply keeps_catches_trans| |].
    + rewrite E5, Hev, Hw, Hu. lia.
    + intros Hr. rewrite (E6 Hr).
      rewrite (drop_S (<[k := JS_UNDEFINED]> st) JS_UNDEFINED)
        by (by apply list_lookup_insert_eq).
      rewrite drop_insert_lt by lia.
      rewrite replicate_S_end, <- app_assoc. done.
Qed.

Lemma wpM_is_normal v st l w tr (Q : frame -> Z -> Prop) :
  (forall s, r_ret (rt_call is_normal_function [v] s).2 <> 0) ->
  (forall l' w' n, length (var_buf l') = length (var_buf l) ->
     length (arg_buf l') = length (arg_buf l) -> n <> 0 ->
     Q (mkFrame p st l' w' (tr ++ flat_map arg_event [Borrow v])) n) ->
  wpM (rcall_int is_normal_function [Borrow v]) (mkFrame p st l w tr) Q.
Proof.
  intros Hv HQ. unfold wpM, rcall_int, mbind, rcall. cbn.
  pose proof (rt_call_locals is_normal_function [v] (w, l)) as [H1 H2].
  specialize (Hv (w, l)).
  destruct (rt_call is_normal_function [v] (w, l)) as [[w' l'] r]. by apply HQ.
Qed.

Lemma wpM_lift_nonzero n st l w tr (Q : frame -> unit -> Prop) :
  n <> 0 -> Q (mkFrame p st l w tr) tt ->
  wpM (lift (c_assert (negb (n =? 0)))) (mkFrame p st l w tr) Q.
Proof. intros Hn HQ. unfold wpM, lift. by destruct (Z.eqb_spec n 0). Qed.

Lemma keeps_drop_n n st : keeps_catches st (drop n st).
Proof.
  revert n. induction st as [|x st IH]; intros [|n]; try apply keeps_refl.
  cbn [drop]. apply keeps_drop; [rewrite length_drop; lia|apply IH].
Qed.

(** What is above the first catch offset. *)
Lemma above_catch_split st :
  st = above_catch_offset st ++ drop (length (above_catch_offset st)) st
  /\ (length (above_catch_offset st) <= length st)%nat
  /\ Forall plain_value (above_catch_offset st)
  /\ match drop (length (above_catch_offset st)) st with
     | [] => True
     | v :: _ => exists pos, v = JS_CATCH_OFFSET pos
     end.
Proof.
  induction st as [|v st (H1 & H2 & H3 & H4)]; [done|].
  destruct v; cbn [above_catch_offset length app drop];
    (split_and!; [by f_equal|lia|by constructor|done])
    || (split_and!; [done|lia|done|by eexists]).
Qed.
End helpers3.

(** One step, with the rules of the helpers. *)
Ltac hstep :=
  cbv beta iota zeta;
  lazymatch goal with
  | |- wpM (branch_test _) _ _ =>
      eapply wpM_branch_test; [eassumption|intros ? ? ? ? ? ? ?]
  | H : forall v, JS_VALUE_HAS_REF_COUNT v = false -> ?wt v = 0
    |- wpM (js_operator_typeof _) _ _ =>
      eapply (wpM_js_operator_typeof wt); intros ? ? ? ? ? ? ?
  | |- wpM (js_strict_eq2 _ _ _) _ _ =>
      eapply wpM_js_strict_eq2; [eassumption|intros ? ? ? ? ? ? ?]
  | |- wpM (js_eq_loop _ _ _) _ _ =>
      eapply wpM_js_eq_loop; [eassumption|apply eq_measure_bound|intros ? ? ? ? ? ? ?]
  | |- wpM (add_values _ _) _ _ =>
      eapply wpM_add_values; [eassumption|intros ? ? ? ? ? ? ?]
  | |- wpM (unary_arith _ _) _ _ =>
      eapply wpM_unary_arith; [eassumption|tauto|intros ? ? ? ? ? ? ?]
  | H : forall v, JS_VALUE_HAS_REF_COUNT v = false -> ?wt v = 0
    |- wpM (js_has_unscopable _ _) _ _ =>
      eapply (wpM_js_has_unscopable wt H); intros ? ? ? ? ? ? ?
  | |- wpM (match logic_int _ _ _ with _ => _ end) _ _ => cbn [logic_int]
  | |- wpM (match arith_f64 _ _ _ with _ => _ end) _ _ => cbn [arith_f64]
  | |- _ => istep
  end.

(** The instructions without a case of their own. *)
Ltac run_insn := repeat hstep; ifin.

(** The number of operands, from the argument count of the instruction. *)
Ltac npop_read :=
  match goal with
  | Hpop : (let* n := get_u16 ?bc ?q in _) = Ret _,
    E : get_u16 ?bc ?q' = Ret ?v |- _ =>
      replace q' with q in E by lia; rewrite E in Hpop;
      cbn [bind] in Hpop; injection Hpop as <-
  | Hpop : Ret _ = Ret _ |- _ => injection Hpop as <-
  end.

(** After the loop of [OP_array_from]. *)
Lemma array_from_rest wt (n : nat) st st' :
  wt JS_UNDEFINED = 0 -> st' = replicate n JS_UNDEFINED ++ drop n st ->
  wsum wt (drop n st') = wsum wt st' /\ length (drop n st') = length (drop n st).
Proof.
  intros Hu ->. rewrite drop_app_length' by (by rewrite length_replicate).
  by rewrite wsum_app, wsum_undefined.
Qed.

(** Steps over a stack of unknown height. *)
Ltac vstep :=
  cbv beta iota zeta;
  lazymatch goal with
  | |- wpM (sp_get _) _ _ => zb; apply wpM_sp_get_pos; [cbn [length]; lia|intros ? ?]
  | H : forall v, JS_VALUE_HAS_REF_COUNT v = false -> ?wt v = 0
    |- wpM (rcall_argv _ _ _) _ _ =>
      apply (wpM_argv wt); [reflexivity|lia|intros ? ? ? ? ? ? ? ? ? ? ?]
  | H : forall v, JS_VALUE_HAS_REF_COUNT v = false -> ?wt v = 0
    |- wpM (return_call _ _) _ _ =>
      apply (wpM_return_call wt); [lia|intros ? ? ? ? ?]
  | H : forall v, JS_VALUE_HAS_REF_COUNT v = false -> ?wt v = 0
    |- wpM (array_from_loop _ _ _) _ _ =>
      apply (wpM_array_from_loop wt);
        [by apply H|lia|intros ? ? ? ? ? ? ? ? ? ? ?]
  | |- _ => hstep
  end.
