(* ===== verification/InterpInsn.v ===== *)
(** * Every instruction does what its description says

    For each run of cases of the [switch]: an instruction that finds its
    operands executes without undefined behaviour, conserves the references,
    and leaves the frame at one of the positions and depths that the table
    [opcode_info] and [compute_stack_size] foresee. *)

From stdpp Require Import base tactics numbers list option.
From Stdlib Require Import ZArith Lia SpecFloat.
From S2P Require Import Prelude Cutils Opcodes Values InterpBase InterpOps InterpOps2 InterpOps3 StackSize StackSizeSpec InterpWp InterpSpec.

Open Scope Z_scope.
Open Scope interp_scope.

(** The instructions of one run. *)
Ltac start_one :=
  try (match goal with E : Ret _ = @Ret Z _ |- _ => injection E as <- end;
       match goal with E : _ <= Z.of_nat (length ?st) |- _ => is_var st; operands E end);
  try match goal with E : Ret _ = @Ret (list _) _ |- _ => injection E as <- end.
Ltac start_run op Ho H := open_insn op Ho H; [> start_one ..].

(** The parent of a class without heritage has no references. *)
Ltac specialize_parent :=
  try match goal with
  | H : false = false -> JS_VALUE_HAS_REF_COUNT _ = false |- _ =>
      specialize (H eq_refl)
  end.

Ltac cstep :=
  cbv beta iota zeta;
  lazymatch goal with
  | H : forall s, r_ret (rt_call is_normal_function [?v] s).2 <> 0
    |- wpM (rcall_int is_normal_function [Borrow ?v]) _ _ =>
      apply wpM_is_normal; [exact H|intros ? ? ? ? ? ?]
  | |- wpM (lift (c_assert (negb (_ =? 0)))) _ _ => apply wpM_lift_nonzero; [assumption|]
  | |- _ => hstep
  end.

Section spec.
Context {rt : Runtime} {rtok : RuntimeOk rt} (b : fn_env) (wt : JSValue -> Z).
Hypothesis wt_plain : forall v, JS_VALUE_HAS_REF_COUNT v = false -> wt v = 0.
Hypothesis code_bytes : Forall byte (byte_code b).

(** What the cases of one run promise. *)
Definition run_spec (exec : OPCodeEnum -> option (M outcome)) : Prop :=
  forall op m p st l w tr lst mx n,
    let s := mkFrame (p + 1) st l w tr in
    exec op = Some m -> at_insn b op p s lst mx n ->
    wpM m s (insn_post b wt op p s lst mx).

Lemma exec_push_spec : run_spec (exec_push b).
Proof.
  intros op m p st l w tr lst mx n s Ho H. unfold s in *. clear s.
  start_run op Ho H.
  all: try solve [run_insn].
  (* special_object *)
  do 3 istep. rewrite Z.add_0_r in *. istep.
  assert (Hv0 := Hv _ ltac:(eassumption)).
  match goal with |- wpM (special_object _ ?a) _ _ =>
    assert (Hc : a = 0 \/ a = 1 \/ a = 2 \/ a = 3 \/ a = 4 \/ a = 5 \/ a = 6) by lia
  end.
  repeat destruct Hc as [Hc|Hc]; subst; run_insn.
Qed.

Lemma exec_stack_spec : run_spec exec_stack.
Proof.
  intros op m p st l w tr lst mx n s Ho H. unfold s in *. clear s.
  start_run op Ho H; run_insn.
Qed.

Lemma exec_call_spec : run_spec (exec_call b).
Proof.
  intros op m p st l w tr lst mx n s Ho H. unfold s in *. clear s.
  start_run op Ho H.
  all: try solve [run_insn].
  all: repeat hstep; npop_read; unfold has_call_argc, call_method; repeat vstep.
  all: try solve [ifin].
  destruct (array_from_rest wt (Z.to_nat v) st st') as [Hw Hlen]; [by apply wt_plain|auto|].
  pose proof (length_drop st (Z.to_nat v)). ifin.
Qed.

Lemma exec_check_spec : run_spec (exec_check b).
Proof.
  intros op m p st l w tr lst mx n s Ho H. unfold s in *. clear s.
  start_run op Ho H.
  all: try solve [run_insn].
  do 5 hstep. npop_read. repeat vstep; ifin.
Qed.

Lemma exec_global_spec : run_spec (exec_global b).
Proof.
  intros op m p st l w tr lst mx n s Ho H. unfold s in *. clear s.
  start_run op Ho H.
  all: try solve [run_insn].
  destruct Hv as (t & v & st' & [= -> -> ->]).
  do 7 hstep. cbn [JS_VALUE_GET_INT]. hstep. apply wpM_lift. run_insn.
Qed.

Lemma exec_loc_spec : run_spec (exec_loc b).
Proof.
  intros op m p st l w tr lst mx n s Ho H. unfold s in *. clear s.
  start_run op Ho H; run_insn.
Qed.

Lemma exec_short_loc_spec : run_spec (exec_short_loc b).
Proof.
  intros op m p st l w tr lst mx n s Ho H. unfold s in *. clear s.
  start_run op Ho H; run_insn.
Qed.

Lemma exec_var_ref_spec : run_spec (exec_var_ref b).
Proof.
  intros op m p st l w tr lst mx n s Ho H. unfold s in *. clear s.
  start_run op Ho H; run_insn.
Qed.

Lemma exec_make_ref_spec : run_spec (exec_make_ref b).
Proof.
  intros op m p st l w tr lst mx n s Ho H. unfold s in *. clear s.
  start_run op Ho H; run_insn.
Qed.

Lemma exec_jump_spec : run_spec (exec_jump b).
Proof.
  intros op m p st l w tr lst mx n s Ho H. unfold s in *. clear s.
  start_run op Ho H.
  all: try solve [run_insn].
  repeat hstep; ifin. cbn [break_post pc sp set_pc]. zb. exists n. auto.
Qed.

Lemma exec_iter_spec : run_spec (exec_iter b).
Proof.
  intros op m p st l w tr lst mx n s Ho H. unfold s in *. clear s.
  start_run op Ho H.
  all: try solve [run_insn].
  - (* for_of_next *)
    do 4 hstep. rewrite Z.add_0_r in *. specialize (Hv _ ltac:(eassumption)).
    revert Hv. change (S (S (S (length st0)))) with (length (x :: x0 :: x1 :: st0)).
    generalize (x :: x0 :: x1 :: st0). intros st Hv.
    replace (Z.to_nat (3 + v)) with (S (S (Z.to_nat (1 + v)))) by lia.
    unfold js_for_of_next. cbn [Nat.sub]. vstep. apply wpM_sp_get_lt; [lia|]. intros enum Henum.
    vstep; [repeat vstep; ifin|]. vstep. apply wpM_sp_get_lt; [lia|]. intros meth _.
    vstep. apply wpM_rcall_val_int. intros l' w' v0 n [H1 H2] H3 Hn0.
    specialize (Hn0 eq_refl).
    pose proof (wsum_insert wt _ JS_UNDEFINED _ _ Henum) as Hw.
    pose proof (keeps_insert (S (Z.to_nat (1 + v))) JS_UNDEFINED st I) as Hks.
    pose proof (length_insert st (S (Z.to_nat (1 + v))) JS_UNDEFINED) as Hlen.
    cbv beta iota zeta.
    destruct (JS_IsException v0) eqn:E1; [apply JS_IsException_true in E1; subst v0|].
    all: repeat vstep.
    all: try discriminate; rewrite (wt_plain JS_UNDEFINED) in Hw by done.
    all: try solve [ifin].
    all: eapply wpM_sp_set; [exact Henum|]; repeat vstep; try ifin; zb; lia.
  - (* iterator_close *)
    destruct Hv as (? & ? & [= <- <-] & Hno). run_insn.
  - (* iterator_close_return *)
    unfold iterator_close_return. do 2 istep. cbn [length] in *.
    generalize dependent (x0 :: x1 :: x2 :: st). intros st1.
    istep.
    destruct (above_catch_split st1) as (Hs & Hle & Hplain & Htop).
    do 3 istep. revert Hs Hle Hplain Htop.
    generalize (above_catch_offset st1). intros extra Hs Hle Hplain Htop. istep. apply wpM_free_list. intros w'.
    istep. apply wpM_sp_drop; [done|]. istep.
    pose proof (f_equal (wsum wt) Hs) as Hw. rewrite wsum_app in Hw.
    pose proof (f_equal length Hs) as Hlen. rewrite length_app in Hlen.
    pose proof (keeps_drop_n (length extra) st1) as Hk.
    revert Hs Htop Hw Hlen Hk. generalize (drop (length extra) st1) as rest.
    intros rest Hs Htop Hw Hlen Hk.
    match goal with |- wpM _ ?f ?Q => assert (Hfail : wpM
      (let! _ := rcall_int (js_throw_error 12 0) [] in free x ;; mret EXCEPTION) f Q) end.
    { run_insn. }
    destruct rest as [|c [|n [|i rest]]]; try exact Hfail. clear Hfail.
    match goal with |- wpM _ (mkFrame ?a _ ?l ?w ?t) ?Q =>
      change (Q (mkFrame a (c :: n :: i :: x :: rest) l w t) BREAK) end.
    autorewrite with weight in Hw.
    ifin. cbn [break_post pc sp]. destruct Htop as [pos ->]. split; [done|].
    exists x, extra, pos, n, i, rest. by rewrite <- Hs.
Qed.

Lemma exec_field_spec : run_spec (exec_field b).
Proof.
  intros op m p st l w tr lst mx n s Ho H. unfold s in *. clear s.
  start_run op Ho H; run_insn.
Qed.

Lemma exec_class_spec : run_spec (exec_class b).
Proof.
  intros op m p st l w tr lst mx n s Ho H. unfold s in *. clear s.
  start_run op Ho H.
  all: try solve [run_insn].
  all: destruct Hv as (? & ? & ? & [= <- <- <-] & Hn & Hpar).
  all: do 5 hstep; match goal with E : get_u8 _ ?q = Ret ?v |- _ =>
         replace q with (p + 5) in E by lia; specialize (Hpar _ E) end.
  all: repeat cstep; specialize_parent; ifin.
Qed.

Lemma exec_element_spec : run_spec (exec_element b).
Proof.
  intros op m p st l w tr lst mx n s Ho H. unfold s in *. clear s.
  start_run op Ho H.
  all: try solve [run_insn].
  do 4 hstep. rewrite Z.add_0_r in *.
  specialize (Hv _ ltac:(eassumption)). destruct Hv as (H1 & H2 & H3).
  cbn [length] in *. repeat vstep; ifin.
Qed.

Lemma exec_arith_spec : run_spec (exec_arith b).
Proof.
  intros op m p st l w tr lst mx n s Ho H. unfold s in *. clear s.
  start_run op Ho H; run_insn.
Qed.

Lemma exec_logic_spec : run_spec exec_logic.
Proof.
  intros op m p st l w tr lst mx n s Ho H. unfold s in *. clear s.
  start_run op Ho H; run_insn.
Qed.

Lemma exec_operator_spec : run_spec (exec_operator b).
Proof.
  intros op m p st l w tr lst mx n s Ho H. unfold s in *. clear s.
  start_run op Ho H; run_insn.
Qed.

Lemma exec_with_spec : run_spec (exec_with b).
Proof.
  intros op m p st l w tr lst mx n s Ho H. unfold s in *. clear s.
  start_run op Ho H; run_insn.
Qed.
End spec.
