(* ===== verification/InterpRun.v ===== *)
(** * The interpreter on verified bytecode

    One instruction agrees with the control-flow graph of
    [compute_stack_size]; the search of an exception handler; and the runs of
    a function that [compute_stack_size] accepts: they stay in the code and
    within the stack that was allocated for them. *)

From stdpp Require Import base tactics numbers list option relations.
From Stdlib Require Import ZArith Lia SpecFloat.
From S2P Require Import Prelude Cutils Opcodes Values InterpBase InterpOps InterpOps2 InterpOps3 StackSize StackSizeSpec InterpWp InterpSpec InterpInsn.

Open Scope Z_scope.
Open Scope interp_scope.

Lemma first_some_elem {A} (l : list (option A)) a :
  first_some l = Some a -> Some a ∈ l.
Proof.
  induction l as [|[x|] l IH]; cbn; [done| |].
  - intros [= ->]. by left.
  - intros H. right. auto.
Qed.

Section insn.
Context {rt : Runtime} {rtok : RuntimeOk rt} (b : fn_env) (wt : JSValue -> Z).
Hypothesis wt_plain : forall v, JS_VALUE_HAS_REF_COUNT v = false -> wt v = 0.
Hypothesis code_bytes : Forall byte (byte_code b).

Lemma exec_cases_total op : exec_cases b op <> None.
Proof. by destruct op. Qed.

(** The runs of cases of the [switch]. *)
Definition exec_runs : list (OPCodeEnum -> option (M outcome)) :=
  [exec_push b; exec_stack; exec_call b; exec_check b; exec_global b; exec_loc b;
   exec_short_loc b; exec_var_ref b; exec_make_ref b; exec_jump b; exec_iter b;
   exec_field b; exec_class b; exec_element b; exec_arith b; exec_logic;
   exec_operator b; exec_with b].

Lemma exec_runs_spec : Forall (run_spec b wt) exec_runs.
Proof.
  repeat constructor; auto using exec_push_spec, exec_stack_spec, exec_call_spec,
    exec_check_spec, exec_global_spec, exec_loc_spec, exec_short_loc_spec,
    exec_var_ref_spec, exec_make_ref_spec, exec_jump_spec, exec_iter_spec,
    exec_field_spec, exec_class_spec, exec_element_spec, exec_arith_spec,
    exec_logic_spec, exec_operator_spec, exec_with_spec.
Qed.

Lemma exec_op_spec op p st l w tr lst mx n :
  let s := mkFrame (p + 1) st l w tr in
  at_insn b op p s lst mx n ->
  wpM (exec_op b op) s (insn_post b wt op p s lst mx).
Proof.
  intros s H. unfold exec_op.
  destruct (exec_cases b op) as [m|] eqn:E; [|by destruct (exec_cases_total op)].
  change (exec_cases b op) with (first_some ((fun f => f op) <$> exec_runs)) in E.
  apply first_some_elem, list_elem_of_fmap in E as (f & Hf & Hin).
  pose proof (proj1 (Forall_forall _ _) exec_runs_spec f Hin) as Hrun.
  by eapply Hrun.
Qed.

(** The current instruction finds indexes and values that the compiler
    promises. *)
Definition operands_ok (s : frame) : Prop :=
  forall op opc, byte_code b !! Z.to_nat (pc s) = Some op ->
    opcode_of op = Some opc ->
    index_ok b opc (pc s) (lv s) /\ value_ok b opc (pc s) (sp s).

Lemma interp_insn_spec s lst mx :
  insn_ok (byte_code b) (pc s) (Z.of_nat (length (sp s))) lst mx ->
  operands_ok s ->
  wpM (interp_insn b) s (fun s' r =>
    exists op opc, byte_code b !! Z.to_nat (pc s) = Some op
      /\ opcode_of op = Some opc /\ insn_post b wt opc (pc s) s lst mx s' r).
Proof.
  intros (op & opc & oi & n & Hop & H0 & Hopc & _ & Hoi & Hfit & Hn & Hd & Hm & Hl) Hok.
  destruct (Hok _ _ Hop Hopc) as [Hi Hv].
  pose proof (opcode_of_inv _ _ Hopc) as Hnum.
  rewrite Hnum, short_opcode_info_num in Hoi. injection Hoi as <-.
  destruct s as [p st l w tr]. cbn [pc sp lv] in *.
  pose proof (lookup_lt_Some _ _ _ Hop) as Hlt.
  unfold interp_insn. istep. apply wpM_code_u8; [done|lia|].
  intros v Hr _. rewrite Z.add_0_r in Hr.
  apply rd_Ret_inv in Hr as [_ Hr]. rewrite Hop in Hr. injection Hr as <-.
  istep. istep. rewrite Hopc.
  eapply wpM_mono; [apply (exec_op_spec opc p st l w tr lst mx n)|].
  - split; cbn [pc sp lv]; try done. by rewrite <- Hnum.
  - intros s' r H. exists op, opc. auto.
Qed.
End insn.

(** ** Exception handlers *)

(** The parts of a postcondition, on a frame that is known. *)
Ltac post_done :=
  unfold potential, set_pc; cbn [lv sp pc trace] in *;
  split; [split; cbn [lv]; congruence|split; [unfold potential in *; cbn [sp trace] in *; weights|]].

Section run.
Context {rt : Runtime} {rtok : RuntimeOk rt} (b : fn_env) (wt : JSValue -> Z).
Hypothesis wt_plain : forall v, JS_VALUE_HAS_REF_COUNT v = false -> wt v = 0.
Hypothesis code_bytes : Forall byte (byte_code b).
Abbreviation bc := (byte_code b).
Abbreviation depth s := (Z.of_nat (length (sp s))).

(** Every catch offset on the stack is the one of an enumerator, above the
    enumerator and its method, or leads to a handler that expects the stack
    below it and the exception. *)
Definition handlers_ok (st : list JSValue) : Prop :=
  forall k pos, rev st !! k = Some (JS_CATCH_OFFSET pos) ->
    if pos =? 0 then (2 <= k)%nat else cfg_reach bc (pos, Z.of_nat k + 1).

Lemma handlers_tail v st : handlers_ok (v :: st) -> handlers_ok st.
Proof.
  intros H k pos Hk. apply H. rewrite rev_lookup_cons.
  apply lookup_lt_Some in Hk as Hlt. rewrite length_rev in Hlt.
  by rewrite decide_True.
Qed.

Lemma handlers_top pos st :
  handlers_ok (JS_CATCH_OFFSET pos :: st) ->
  if pos =? 0 then (2 <= length st)%nat
  else cfg_reach bc (pos, Z.of_nat (length st) + 1).
Proof.
  intros H. apply (H (length st)). rewrite rev_lookup_cons.
  rewrite decide_False by lia. by rewrite decide_True.
Qed.

(** What the search leaves: the handler, with the exception on top of the
    stack that it expects, or an empty stack. *)
Definition unwind_post (s s' : frame) (found : bool) : Prop :=
  same_sizes (lv s) (lv s') /\ potential wt s' = potential wt s
  /\ if found then cfg_reach bc (pc s', depth s') else sp s' = [].

Lemma unwind_spec fuel s :
  (length (sp s) < fuel)%nat -> handlers_ok (sp s) ->
  wpM (unwind fuel) s (unwind_post s).
Proof.
  destruct s as [p st l w tr]. cbn [sp]. revert st l w tr.
  induction fuel as [|fuel IH]; intros st l w tr Hf Hh; [lia|].
  destruct st as [|v st].
  { cbn. unfold unwind_post. cbn. done. }
  pose proof (handlers_tail _ _ Hh) as Hh'. cbn [length] in Hf.
  change (wpM (let! val := pop in free val ;;
     match val with
     | JS_CATCH_OFFSET pos =>
         if pos =? 0 then
           let! method := sp_get 1 in
           free method ;; sp_drop 1 ;;
           let! iter := sp_get 1 in
           let! _ := rcall_int (JS_IteratorClose 1) [Borrow iter] in
           unwind fuel
         else
           let! exc := rcall_val take_current_exception [] in
           push exc ;; fun s => Ret (set_pc s pos, true)
     | _ => unwind fuel
     end) (mkFrame p (v :: st) l w tr) (unwind_post (mkFrame p (v :: st) l w tr))).
  do 4 istep.
  assert (Hgo : forall w', wpM (unwind fuel) (mkFrame p st l w' (tr ++ [EvFree v]))
    (unwind_post (mkFrame p (v :: st) l w tr))).
  { intros w1. eapply wpM_mono; [apply IH; [lia|done]|].
    intros s' r (H1 & H2 & H3). split; [done|split; [|done]].
    rewrite H2. unfold potential. cbn [sp trace]. weights. }
  destruct v; try apply Hgo. clear Hgo.
  pose proof (handlers_top _ _ Hh) as Htop. istep.
  - destruct st as [|m [|i st]]; [cbn in Htop; lia..|].
    do 10 istep.
    eapply wpM_mono; [apply IH; [cbn [length] in *; lia|]|].
    { by eapply handlers_tail. }
    intros s' r ([H1 H1'] & H2 & H3). cbn [lv] in *.
    unfold unwind_post, same_sizes; cbn [lv].
    split; [split; congruence|split; [|done]].
    rewrite H2. unfold potential. cbn [sp trace]. weights.
  - repeat istep. unfold unwind_post, same_sizes, potential, set_pc.
    cbn [lv sp pc trace]. split; [split; congruence|split; [weights|]].
    cbn [length]. by replace (Z.of_nat (S (length st)))
      with (Z.of_nat (length st) + 1) by lia.
Qed.

(** ** One turn of the loop *)

(** The compiler's discipline at the current instruction: its operands, the
    handlers, the return addresses of [gosub], and a [return] out of an
    enumeration that finds the enumerator below the value returned. *)
Definition orderly (s : frame) : Prop :=
  operands_ok b s /\ handlers_ok (sp s)
  /\ forall op, bc !! Z.to_nat (pc s) = Some op ->
       (opcode_of op = Some OP_ret -> forall n rest,
          sp s = JS_INT n :: rest -> u32 n < Z.of_nat (length bc) ->
          cfg_reach bc (u32 n, Z.of_nat (length rest)))
       /\ (opcode_of op = Some OP_iterator_close_return -> exists ret pos rest,
             sp s = ret :: JS_CATCH_OFFSET pos :: rest).

Definition turn_post (s s' : frame) (r : turn) : Prop :=
  same_sizes (lv s) (lv s')
  /\ potential wt s' + match r with Returned v => wt v | _ => 0 end = potential wt s
  /\ match r with
     | Running => cfg_reach bc (pc s', depth s')
     | _ => True
     end.

Lemma handlers_keeps st st' :
  keeps_catches st st' -> handlers_ok st -> handlers_ok st'.
Proof. intros Hk H k pos Hp. by apply H, Hk. Qed.

Lemma exception_spec s0 s :
  same_sizes (lv s0) (lv s) -> potential wt s = potential wt s0 ->
  handlers_ok (sp s) -> wpM (exception b) s (turn_post s0).
Proof.
  destruct s as [p st l w tr]. intros [H1 H2] Hp Hh. cbn [lv sp] in *.
  unfold potential in Hp. cbn [sp trace] in Hp.
  unfold exception. do 6 istep. istep.
  - istep. cbn [sp].
    eapply wpM_mono; [apply unwind_spec; [cbn; lia|done]|].
    intros s' r ([E1 E2] & E3 & E4). cbn [lv] in *.
    unfold potential in E3. cbn [sp trace] in E3.
    destruct r; repeat istep; post_done; done.
  - repeat istep; post_done; done.
Qed.

Lemma interp_step_spec level sz s :
  stack_verified bc level sz ->
  cfg_reach bc (pc s, depth s) -> orderly s ->
  wpM (interp_step b) s (turn_post s).
Proof.
  intros (_ & _ & Hv & _) Hr (Hops & Hh & Hspec).
  destruct (Hv _ _ Hr) as (_ & _ & lst & mx & Hi & _).
  unfold interp_step. istep.
  eapply wpM_mono; [by eapply (interp_insn_spec b wt)|].
  intros s' r (op & opc & Hop & Hopc & Hs & Hp & Hpost). cbn beta iota in Hpost.
  destruct (Hspec _ Hop) as [Hret Hclose].
  destruct r; istep.
  - split; [done|]. rewrite Z.add_0_r in *. split; [done|].
    assert (Hin : (pc s', depth s') ∈ lst -> cfg_reach bc (pc s', depth s')).
    { intros Hin. eapply rtc_r; [exact Hr|]. exists lst, mx. split; [exact Hi|exact Hin]. }
    destruct opc; try (apply Hin; exact Hpost).
    + destruct Hpost as (n & Hst & -> & Hlt). apply (Hret Hopc n (sp s') Hst Hlt).
    + destruct Hpost as (Hpc & ret & extra & pos & n & i & rest & Hpl & Hst & Hst').
      destruct (Hclose Hopc) as (ret' & pos' & rest' & Hst2). rewrite Hst in Hst2.
      injection Hst2 as _ Hst2. destruct extra as [|x extra].
      2:{ injection Hst2 as -> _. by inversion Hpl. }
      apply Hin. destruct Hi as (op' & opc' & oi & k & Hop' & _ & Hopc' & _ & Hoi & _
        & Hk & _ & Hm & Hl). rewrite Hop in Hop'. injection Hop' as <-.
      rewrite Hopc in Hopc'. injection Hopc' as <-.
      rewrite (opcode_of_inv _ _ Hopc), short_opcode_info_num in Hoi. injection Hoi as <-.
      compute_info OP_iterator_close_return. cbn in Hk, Hl. injection Hk as <-.
      injection Hl as <-. rewrite Hpc, Hst', Hm, Hst.
      apply list_elem_of_singleton. f_equal. cbn [length app]. lia.
  - destruct Hpost as [_ Hk]. rewrite Z.add_0_r in Hp.
    apply exception_spec; [done|done|by eapply handlers_keeps].
  - by split.
  - by split.
Qed.
End run.

(** ** Results *)

(** An engine that answers every call with [undefined] and leaves the
    variables as they are, for the witnesses. *)
#[export] Instance idle_runtime : Runtime := {|
  World := Z;
  rt_call _ _ s := ((s.1 + 1, s.2), mkRes 0 0 S754_nan JS_UNDEFINED);
  rt_call_argv _ _ args s :=
    ((s.1 + 1, s.2), replicate (length args) JS_UNDEFINED,
     mkRes 0 0 S754_nan JS_UNDEFINED);
  rt_free _ w := w + 1;
  rt_pvalue _ _ := JS_UNDEFINED;
  rt_set_pvalue w _ _ := w;
  fmod a _ := a;
  pow a _ := a;
  int32_oor _ := 0
|}.

#[export] Instance idle_runtime_ok : RuntimeOk idle_runtime.
Proof.
  split; try done; cbn.
  - intros. by rewrite length_replicate.
  - intros. split; [done|]. by apply Forall_replicate.
Qed.
(** A function: push_1; if_false8 L1; push_1; push_2; add; goto8 L2;
    L1: push_2; L2: return *)
Definition sample_fn : fn_env := {|
  byte_code := sample_code; cpool := []; js_mode_strict := false; arg_count := 0;
  var_refs := []; this_obj := JS_UNDEFINED; new_target := JS_UNDEFINED;
  cur_func := JS_UNDEFINED; home_object := None; argc := 0; is_normal := true;
  global_obj := JS_UNDEFINED; global_var_obj := JS_UNDEFINED;
  function_proto := JS_UNDEFINED; object_proto := JS_UNDEFINED |}.

Definition sample_frame (p : Z) (st : list JSValue) (w : Z) (tr : list event) : frame :=
  mkFrame p st (mkLocals [] []) w tr.

Lemma sample_bytes : Forall byte sample_code.
Proof. repeat constructor; unfold byte; lia. Qed.

(** No instruction of the sample has an index or a value to promise. *)
Definition sample_pcs : list Z := [0; 1; 3; 4; 5; 6; 8; 9].

Lemma sample_operands s : pc s ∈ sample_pcs -> operands_ok sample_fn s.
Proof.
  intros Hpc op opc H Hop. cbn [byte_code sample_fn] in H.
  unfold sample_pcs in Hpc. rewrite !elem_of_cons, elem_of_nil in Hpc.
  destruct_or? Hpc; try done; rewrite Hpc in *; cbn in H; injection H as <-;
    vm_compute in Hop; injection Hop as <-; split; exact I.
Qed.

(** C9.  Every instruction of the bytecode does what its description says.
    At an instruction that fits in the code and finds its operands (the
    premises that [compute_stack_size] establishes) one turn of the [switch]
    has no undefined behaviour, keeps the sizes of the variable blocks and
    conserves references: what the operand stack holds, less the references
    received and not given back, is unchanged, up to the value returned.  It
    goes on at one of the positions and depths of the control-flow graph, or
    ends in an exception with no more operands than the graph foresees and
    with every catch offset where it was. *)
Theorem interp_insn_correct (rt : Runtime) (rtok : RuntimeOk rt) (b : fn_env)
    (wt : JSValue -> Z) (s : frame) (lst : list (Z * Z)) (m : Z) :
  (forall v, JS_VALUE_HAS_REF_COUNT v = false -> wt v = 0) ->
  Forall byte (byte_code b) ->
  insn_ok (byte_code b) (pc s) (Z.of_nat (length (sp s))) lst m ->
  operands_ok b s ->
  wpM (interp_insn b) s (fun s' r =>
    exists op opc, byte_code b !! Z.to_nat (pc s) = Some op
      /\ opcode_of op = Some opc /\ insn_post b wt opc (pc s) s lst m s' r).
Proof. intros. by apply interp_insn_spec. Qed.

(** The addition at 5, with [1] and [2] on the stack. *)
Lemma interp_insn_correct_witness :
  wpM (interp_insn sample_fn) (sample_frame 5 [JS_INT 2; JS_INT 1] 0 [])
    (fun s' r => exists op opc, byte_code sample_fn !! 5%nat = Some op
      /\ opcode_of op = Some opc
      /\ insn_post sample_fn (fun _ => 0) opc 5
           (sample_frame 5 [JS_INT 2; JS_INT 1] 0 []) [(6, 1)] 1 s' r).
Proof.
  apply (interp_insn_correct idle_runtime idle_runtime_ok sample_fn (fun _ => 0)
           (sample_frame 5 [JS_INT 2; JS_INT 1] 0 []) [(6, 1)] 1).
  - reflexivity.
  - apply sample_bytes.
  - exists 157, OP_add. eexists _, _.
    split_and!; try reflexivity; vm_compute; intuition discriminate.
  - apply sample_operands. by vm_compute; repeat constructor.
Defined.

(** A turn of the loop in an orderly state. *)
Definition turn_step {rt : Runtime} (b : fn_env) (s s' : frame) : Prop :=
  orderly b s /\ interp_step b s = Ret (s', Running).

Lemma run_reach {rt : Runtime} {rtok : RuntimeOk rt} (b : fn_env)
    (wt : JSValue -> Z) level sz s0 s :
  (forall v, JS_VALUE_HAS_REF_COUNT v = false -> wt v = 0) ->
  Forall byte (byte_code b) -> stack_verified (byte_code b) level sz ->
  pc s0 = 0 -> sp s0 = [] -> rtc (turn_step b) s0 s ->
  cfg_reach (byte_code b) (pc s, Z.of_nat (length (sp s)))
  /\ same_sizes (lv s0) (lv s) /\ potential wt s = potential wt s0.
Proof.
  intros Hwt Hb Hv H0 Hs0. apply (rtc_ind_r (fun s =>
    cfg_reach (byte_code b) (pc s, Z.of_nat (length (sp s)))
    /\ same_sizes (lv s0) (lv s) /\ potential wt s = potential wt s0) s0).
  - rewrite H0, Hs0. split; [apply rtc_refl|done].
  - intros s1 s2 _ [Ho Hst] (Hr & [E1 E2] & E3).
    pose proof (interp_step_spec b wt Hwt Hb level sz s1 Hv Hr Ho) as Hw.
    unfold wpM in Hw. rewrite Hst in Hw. destruct Hw as ([F1 F2] & F3 & F4).
    cbn [fst snd] in *. split; [done|split; [split; congruence|lia]].
Qed.

Lemma reach_bounds bc level sz p d :
  stack_verified bc level sz -> cfg_reach bc (p, d) ->
  0 <= p < Z.of_nat (length bc) /\ d = level p /\ d <= sz.
Proof.
  intros (_ & _ & Hv & _) Hr. destruct (Hv _ _ Hr) as (Hl & Hd & l & m & Hi & _).
  destruct Hi as (op & _ & _ & _ & Hop & H0 & _). apply lookup_lt_Some in Hop. lia.
Qed.


Lemma no_handlers (b : fn_env) st :
  Forall (fun v => match v with JS_CATCH_OFFSET _ => False | _ => True end) st ->
  handlers_ok b st.
Proof.
  rewrite Forall_forall. intros H k pos Hk. exfalso.
  apply list_elem_of_lookup_2, list_elem_of_In, in_rev, list_elem_of_In in Hk.
  exact (H _ Hk).
Qed.

Lemma sample_orderly p st w tr : p ∈ sample_pcs ->
  Forall (fun v => match v with JS_CATCH_OFFSET _ => False | _ => True end) st ->
  orderly sample_fn (sample_frame p st w tr).
Proof.
  intros Hp H. split; [by apply sample_operands|split; [by apply no_handlers|]].
  intros op Hop. cbn [byte_code sample_fn sample_frame pc] in Hop.
  unfold sample_pcs in Hp. rewrite !elem_of_cons, elem_of_nil in Hp.
  destruct_or? Hp; try done; subst p; cbn in Hop; injection Hop as <-;
    (split; intros Hc; vm_compute in Hc; discriminate Hc).
Qed.

