(* ===== verification/InterpArithSpec.v ===== *)
(** * The arithmetic of the interpreter

    The instructions work on integers of 32 bits where they can, and on
    doubles otherwise.  The theorem: on numbers, whatever their
    representations, each instruction gives the number that the operation on
    doubles gives. *)

From stdpp Require Import base tactics numbers list option.
From Stdlib Require Import ZArith Lia SpecFloat.
From S2P Require Import Prelude Cutils Opcodes Values FloatSpec Numbers NumbersSpec InterpBase InterpOps InterpOps2 InterpOps3 InterpWp InterpSpec.

Open Scope Z_scope.
Open Scope interp_scope.

(** ** Numbers and their representations *)

(** The number of a value. *)
Definition num_of (v : JSValue) : option spec_float :=
  match v with
  | JS_INT n => Some (f64_of_Z n)
  | JS_FLOAT64 d => Some d
  | _ => None
  end.

(** The [int32] member is in its range. *)
Definition int_in_range (v : JSValue) : Prop :=
  match v with JS_INT n => - 2 ^ 31 <= n < 2 ^ 31 | _ => True end.

(** The doubles whose conversion to [int32_t] is defined. *)
Definition converts (v : JSValue) : Prop :=
  match v with JS_FLOAT64 d => negation_overflows 32 d = false | _ => True end.

(** What the arithmetic needs of the engine and of the C library: the
    conversions of numbers, and [fmod] on integers. *)
Class RuntimeNumbers (rt : Runtime) : Prop := {
  to_float_number : forall v d s, num_of v = Some d ->
    r_ret (rt_call InterpBase.JS_ToFloat64Free [v] s).2 = 0
    /\ r_f64 (rt_call InterpBase.JS_ToFloat64Free [v] s).2 = d;
  to_int32_number : forall v d s, num_of v = Some d -> converts v ->
    r_ret (rt_call InterpBase.JS_ToInt32Free [v] s).2 = 0
    /\ r_int (rt_call InterpBase.JS_ToInt32Free [v] s).2 = modular i32 d;
  to_uint32_number : forall v d s, num_of v = Some d -> converts v ->
    r_ret (rt_call InterpBase.JS_ToUint32Free [v] s).2 = 0
    /\ r_int (rt_call InterpBase.JS_ToUint32Free [v] s).2 = u32 (modular i32 d);
  to_primitive_number_id : forall hint v s, num_of v <> None ->
    r_val (rt_call (JS_ToPrimitiveFree hint) [v] s).2 = v;
  fmod_int : forall a c, 0 <= a < 2 ^ 31 -> 0 < c < 2 ^ 31 ->
    fmod (f64_of_Z a) (f64_of_Z c) = f64_of_Z (a mod c)
}.

(** ** The operations of the language *)

Definition arith_op {rt : Runtime} (op : OPCodeEnum)
  : option (spec_float -> spec_float -> spec_float) :=
  match op with
  | OP_add => Some f64_add
  | OP_sub => Some f64_sub
  | OP_mul => Some f64_mul
  | OP_div => Some f64_div
  | OP_mod => Some fmod
  | OP_pow => Some js_pow
  | _ => None
  end.

Definition unary_op (op : OPCodeEnum) : option (spec_float -> spec_float) :=
  match op with
  | OP_plus => Some (fun d => d)
  | OP_neg => Some f64_neg
  | OP_inc => Some (fun d => f64_add d (f64_of_Z 1))
  | OP_dec => Some (fun d => f64_sub d (f64_of_Z 1))
  | _ => None
  end.

Definition compare_op (op : OPCodeEnum) : option (spec_float -> spec_float -> bool) :=
  match op with
  | OP_lt => Some f64_ltb
  | OP_lte => Some f64_leb
  | OP_gt => Some (fun x y => f64_ltb y x)
  | OP_gte => Some (fun x y => f64_leb y x)
  | OP_eq | OP_strict_eq => Some f64_eqb
  | OP_neq | OP_strict_neq => Some (fun x y => negb (f64_eqb x y))
  | _ => None
  end.

(** On the integers modulo [2^32]; shift counts modulo 32. *)
Definition bit_op (op : OPCodeEnum) : option (Z -> Z -> Z) :=
  match op with
  | OP_and => Some Z.land
  | OP_or => Some Z.lor
  | OP_xor => Some Z.lxor
  | OP_shl => Some (fun a c => i32 (a * 2 ^ (c mod 32)))
  | OP_sar => Some (fun a c => a / 2 ^ (c mod 32))
  | OP_shr => Some (fun a c => u32 a / 2 ^ (c mod 32))
  | _ => None
  end.

(** ** Integers of 32 bits *)

Lemma i32_bounds z : - 2 ^ 31 <= i32 z < 2 ^ 31.
Proof. unfold i32, u32. zcase; dlia. Qed.

Lemma i32_u32 z : i32 (u32 z) = i32 z.
Proof. unfold i32, u32. by rewrite Z.mod_mod. Qed.

Lemma modular_bounds d : - 2 ^ 31 <= modular i32 d < 2 ^ 31.
Proof. unfold modular. destruct (f64_trunc d); [apply i32_bounds|lia]. Qed.

Lemma modular_int n : - 2 ^ 31 <= n < 2 ^ 31 ->
  modular i32 (f64_of_Z n) = n /\ negation_overflows 32 (f64_of_Z n) = (n =? - 2 ^ 31).
Proof.
  intros Hn. destruct (f64_of_int_ok n) as (F & V & E); [lia|].
  unfold modular, negation_overflows. rewrite f64_trunc_fval, E by done.
  rewrite Z.quot_mul by (pose proof unit64_pos; lia). split; [by apply i32_id|].
  repeat zcase; cbn [andb]; try done; dlia.
Qed.

(** An [int32] by its 32 bits, of which the last ones are the sign. *)
Lemma i32_testbit z k : 0 <= k ->
  Z.testbit (i32 z) k = Z.testbit z (Z.min k 31).
Proof.
  intros Hk.
  assert (E : Z.testbit z 31 = negb (u32 z <? 2 ^ 31)).
  { rewrite Z.testbit_eqb by lia. unfold u32.
    destruct (Z.ltb_spec (z mod 2 ^ 32) (2 ^ 31)); cbn [negb];
      [apply Z.eqb_neq|apply Z.eqb_eq]; dlia. }
  destruct (Z.lt_ge_cases k 31).
  - rewrite Z.min_l by lia. unfold i32.
    assert (H1 : Z.testbit (u32 z) k = Z.testbit z k)
      by (unfold u32; apply Z.mod_pow2_bits_low; lia).
    destruct (u32 z <? 2 ^ 31); [done|]. rewrite <- H1.
    rewrite <- (Z.mod_pow2_bits_low (u32 z - 2 ^ 32) 32 k) by lia.
    rewrite <- (Z.mod_pow2_bits_low (u32 z) 32 k) by lia. f_equal.
    replace (u32 z - 2 ^ 32) with (u32 z + (-1) * 2 ^ 32) by lia.
    by rewrite Z.mod_add by lia.
  - rewrite Z.min_r, E by lia. unfold i32. pose proof (u32_bound z).
    destruct (Z.ltb_spec (u32 z) (2 ^ 31)); cbn [negb].
    + apply Z.bits_above_log2; [lia|].
      destruct (decide (u32 z = 0)) as [->|]; [cbn; lia|]. apply Z.log2_lt_pow2; [lia|].
      eapply Z.lt_le_trans; [done|]. apply Z.pow_le_mono_r; lia.
    + apply Z.bits_above_log2_neg; [lia|].
      replace (Z.pred (- (u32 z - 2 ^ 32))) with (2 ^ 32 - u32 z - 1) by lia.
      destruct (decide (2 ^ 32 - u32 z - 1 = 0)) as [->|]; [cbn; lia|].
      apply Z.log2_lt_pow2; [lia|].
      eapply (Z.lt_le_trans _ (2 ^ 31)); [lia|]. apply Z.pow_le_mono_r; lia.
Qed.

Lemma u32_testbit z k : 0 <= k < 32 -> Z.testbit (u32 z) k = Z.testbit z k.
Proof. intros. unfold u32. apply Z.mod_pow2_bits_low; lia. Qed.

(** The bit operations on the unsigned members are those on the integers. *)
Lemma i32_bitop (zop : Z -> Z -> Z) (bop : bool -> bool -> bool) a c :
  (forall x y k, Z.testbit (zop x y) k = bop (Z.testbit x k) (Z.testbit y k)) ->
  - 2 ^ 31 <= a < 2 ^ 31 -> - 2 ^ 31 <= c < 2 ^ 31 ->
  i32 (zop (u32 a) (u32 c)) = zop a c.
Proof.
  intros Hz Ha Hc. apply Z.bits_inj'. intros k Hk.
  rewrite i32_testbit, !Hz by done.
  rewrite <- (i32_id a), <- (i32_id c) by done.
  rewrite !(i32_testbit _ k), !u32_testbit, !i32_testbit by lia.
  by rewrite !(Z.min_l (Z.min k 31) 31) by lia.
Qed.

Lemma shift_count c : Z.land (u32 c) 0x1f = c mod 32.
Proof.
  change 0x1f with (Z.ones 5). rewrite land_mod by lia. unfold u32. dlia.
Qed.

(** A number of 32 bits as the value that the engine builds for it. *)
Lemma num_NewInt32 n : num_of (JS_NewInt32 n) = Some (f64_of_Z (i32 n)).
Proof. done. Qed.

Lemma num_NewUint32 n : 0 <= n < 2 ^ 32 ->
  num_of (JS_NewUint32 n) = Some (f64_of_Z n) /\ int_in_range (JS_NewUint32 n).
Proof.
  intros Hn. unfold JS_NewUint32. destruct (Z.leb_spec n 0x7fffffff); [|done].
  cbn. rewrite i32_id by lia. split; [done|lia].
Qed.

Lemma num_new_f64 {rt : Runtime} d :
  num_of (new_f64 d) = Some d /\ int_in_range (new_f64 d).
Proof.
  unfold new_f64, JS_NewFloat64. destruct (decide _) as [E|]; [|done].
  split; [cbn; by rewrite E|]. cbn. unfold int32_of_f64.
  destruct (f64_trunc d); [|apply i32_bounds].
  repeat zcase; cbn [andb]; try apply i32_bounds. lia.
Qed.

Lemma bit_op_result op f a c :
  bit_op op = Some f -> - 2 ^ 31 <= a < 2 ^ 31 -> - 2 ^ 31 <= c < 2 ^ 31 ->
  op <> OP_shr -> exists r, logic_int op a c = Some r /\ i32 r = f a c.
Proof.
  intros Hop Ha Hc Hne. destruct op; try done; injection Hop as <-;
    cbn [logic_int]; eexists; (split; [reflexivity|]).
  - rewrite i32_u32, shift_count, Z.shiftl_mul_pow2 by (apply Z.mod_pos_bound; lia).
    rewrite <- i32_mod, <- (i32_mod (a * _)). f_equal.
    unfold u32. by rewrite Z.mul_mod_idemp_l.
  - rewrite shift_count, (i32_id a), Z.shiftr_div_pow2 by (done || apply Z.mod_pos_bound; lia).
    apply i32_id. assert (0 < 2 ^ (c mod 32)) by (apply Z.pow_pos_nonneg; [lia|];
      apply Z.mod_pos_bound; lia).
    split; [apply Z.div_le_lower_bound|apply Z.div_lt_upper_bound]; nia.
  - apply (i32_bitop Z.land andb); [apply Z.land_spec|done|done].
  - apply (i32_bitop Z.lxor xorb); [apply Z.lxor_spec|done|done].
  - apply (i32_bitop Z.lor orb); [apply Z.lor_spec|done|done].
Qed.

Lemma shr_result a c : - 2 ^ 31 <= a < 2 ^ 31 ->
  num_of (shr_value a c) = Some (f64_of_Z (u32 a / 2 ^ (c mod 32)))
  /\ int_in_range (shr_value a c).
Proof.
  intros Ha. unfold shr_value.
  rewrite shift_count, Z.shiftr_div_pow2 by (apply Z.mod_pos_bound; lia).
  apply num_NewUint32. pose proof (u32_bound a).
  assert (0 < 2 ^ (c mod 32)) by (apply Z.pow_pos_nonneg; [lia|]; apply Z.mod_pos_bound; lia).
  split; [apply Z.div_pos|apply Z.div_lt_upper_bound]; nia.
Qed.

(** ** Instructions *)

Section arith.
Context {rt : Runtime} {rtok : RuntimeOk rt} {rtn : RuntimeNumbers rt} (b : fn_env).

(** The instruction ends normally with a new value on [rest]. *)
Definition pushes (rest : list JSValue) (P : JSValue -> Prop) (s' : frame) (r : outcome)
  : Prop := r = BREAK /\ exists v, sp s' = v :: rest /\ P v.

Definition represents (d : spec_float) (v : JSValue) : Prop :=
  num_of v = Some d /\ int_in_range v.

Section frame.
Context (p : Z) (st : list JSValue) (l : locals) (w : World) (tr : list event).
Abbreviation fr := (mkFrame p st l w tr).

Lemma wpM_to_float v d (Q : frame -> rt_res -> Prop) :
  num_of v = Some d ->
  (forall l' w' r, r_ret r = 0 -> r_f64 r = d ->
     Q (mkFrame p st l' w' (tr ++ [EvTake v])) r) ->
  wpM (rcall InterpBase.JS_ToFloat64Free [Own v]) fr Q.
Proof.
  intros Hv H. unfold wpM, rcall. cbn.
  destruct (to_float_number v d (w, l) Hv) as [H1 H2].
  destruct (rt_call _ _ _) as [[w' l'] r]. by apply H.
Qed.

Lemma wpM_to_int32 v d (Q : frame -> rt_res -> Prop) :
  num_of v = Some d -> converts v ->
  (forall l' w' r, r_ret r = 0 -> r_int r = modular i32 d ->
     Q (mkFrame p st l' w' (tr ++ [EvTake v])) r) ->
  wpM (rcall InterpBase.JS_ToInt32Free [Own v]) fr Q.
Proof.
  intros Hv Hd H. unfold wpM, rcall. cbn.
  destruct (to_int32_number v d (w, l) Hv Hd) as [H1 H2].
  destruct (rt_call _ _ _) as [[w' l'] r]. by apply H.
Qed.

Lemma wpM_to_uint32 v d (Q : frame -> rt_res -> Prop) :
  num_of v = Some d -> converts v ->
  (forall l' w' r, r_ret r = 0 -> r_int r = u32 (modular i32 d) ->
     Q (mkFrame p st l' w' (tr ++ [EvTake v])) r) ->
  wpM (rcall InterpBase.JS_ToUint32Free [Own v]) fr Q.
Proof.
  intros Hv Hd H. unfold wpM, rcall. cbn.
  destruct (to_uint32_number v d (w, l) Hv Hd) as [H1 H2].
  destruct (rt_call _ _ _) as [[w' l'] r]. by apply H.
Qed.

Lemma wpM_to_primitive hint v (Q : frame -> JSValue -> Prop) :
  num_of v <> None ->
  (forall l' w' tr', Q (mkFrame p st l' w' tr') v) ->
  wpM (rcall_val (JS_ToPrimitiveFree hint) [Own v]) fr Q.
Proof.
  intros Hv H. unfold wpM, rcall_val, mbind, rcall. cbn.
  pose proof (to_primitive_number_id hint v (w, l) Hv) as E.
  destruct (rt_call _ _ _) as [[w' l'] r]. cbn in *. rewrite E. apply H.
Qed.
End frame.

Lemma number_cases v d : num_of v = Some d ->
  (exists n, v = JS_INT n /\ d = f64_of_Z n) \/ v = JS_FLOAT64 d.
Proof. destruct v; try done; intros [= <-]; [left; eauto|by right]. Qed.

Lemma binary_result_spec p v1 v2 rest l w tr v (P : JSValue -> Prop) :
  P v -> wpM (binary_result v) (mkFrame p (v2 :: v1 :: rest) l w tr) (pushes rest P).
Proof. intros HP. unfold binary_result. repeat istep. split; [done|]. by exists v. Qed.

Lemma set_top_spec p u st l w tr v (P : JSValue -> Prop) : P v ->
  wpM (sp_set 1 v ;; mret BREAK) (mkFrame p (u :: st) l w tr) (pushes st P).
Proof. intros HP. repeat istep. split; [done|]. by exists v. Qed.

(** Both operands through doubles. *)
Lemma convert2_float p v1 v2 rest l w tr d1 d2 k (Q : frame -> outcome -> Prop) :
  num_of v1 = Some d1 -> num_of v2 = Some d2 ->
  (forall l' w' tr' r1 r2, r_f64 r1 = d1 -> r_f64 r2 = d2 ->
     wpM (k r1 r2) (mkFrame p (v2 :: v1 :: rest) l' w' tr') Q) ->
  wpM (convert2 InterpBase.JS_ToFloat64Free v1 v2 k)
    (mkFrame p (v2 :: v1 :: rest) l w tr) Q.
Proof.
  intros H1 H2 Hk. unfold convert2. istep.
  apply (wpM_to_float _ _ _ _ _ _ d1 _ H1). intros l1 w1 r1 E1 F1.
  rewrite E1. cbn [negb Z.eqb]. cbv beta iota. istep.
  apply (wpM_to_float _ _ _ _ _ _ d2 _ H2). intros l2 w2 r2 E2 F2.
  rewrite E2. cbn [negb Z.eqb]. cbv beta iota. by apply Hk.
Qed.

Lemma arith_slow_spec op f p v1 v2 rest l w tr d1 d2 :
  num_of v1 = Some d1 -> num_of v2 = Some d2 -> arith_f64 op d1 d2 = Some (f d1 d2) ->
  wpM (js_binary_arith_slow op) (mkFrame p (v2 :: v1 :: rest) l w tr)
    (pushes rest (represents (f d1 d2))).
Proof.
  intros H1 H2 Hf. unfold js_binary_arith_slow. do 4 istep.
  apply (convert2_float _ _ _ _ _ _ _ _ _ _ _ H1 H2).
  intros l' w' tr' r1 r2 -> ->. rewrite Hf. apply binary_result_spec, num_new_f64.
Qed.

Lemma add_slow_spec p v1 v2 rest l w tr d1 d2 :
  num_of v1 = Some d1 -> num_of v2 = Some d2 ->
  wpM js_add_slow (mkFrame p (v2 :: v1 :: rest) l w tr)
    (pushes rest (represents (f64_add d1 d2))).
Proof.
  intros H1 H2. unfold js_add_slow. do 4 istep.
  assert (Ht : forall v d, num_of v = Some d ->
    (JS_VALUE_GET_TAG v =? JS_TAG_INT) || (JS_VALUE_GET_TAG v =? JS_TAG_FLOAT64) = true)
    by (intros []; done).
  unfold add_values. istep. cbv zeta. rewrite (Ht v1 d1), (Ht v2 d2) by done.
  cbn [andb]. cbv beta iota. istep.
  apply (wpM_to_float _ _ _ _ _ _ d1 _ H1). intros l1 w1 r1 E1 F1.
  rewrite E1. cbn [negb Z.eqb]. cbv beta iota. istep.
  apply (wpM_to_float _ _ _ _ _ _ d2 _ H2). intros l2 w2 r2 E2 F2.
  rewrite E2. cbn [negb Z.eqb]. cbv beta iota. istep.
  apply binary_result_spec. rewrite F1, F2. apply num_new_f64.
Qed.

Section operands.
Context (p : Z) (v1 v2 : JSValue) (rest : list JSValue) (l : locals) (w : World)
  (tr : list event) (d1 d2 : spec_float).
Hypothesis N1 : num_of v1 = Some d1.
Hypothesis N2 : num_of v2 = Some d2.
Hypothesis R1 : int_in_range v1.
Hypothesis R2 : int_in_range v2.
Abbreviation fr := (mkFrame p (v2 :: v1 :: rest) l w tr).

Lemma op_add_spec : wpM op_add fr (pushes rest (represents (f64_add d1 d2))).
Proof.
  pose proof (add_slow_spec p v1 v2 rest l w tr d1 d2 N1 N2) as Hslow.
  unfold op_add. do 4 istep.
  destruct (number_cases v1 d1 N1) as [(a & -> & ->)| ->],
    (number_cases v2 d2 N2) as [(c & -> & ->)| ->]; cbv beta iota; try exact Hslow.
  - cbn in R1, R2. destruct (int_fits (a + c)) eqn:E; [|exact Hslow].
    unfold int_fits in E. zb. apply binary_result_spec.
    rewrite f64_add_int by lia. split; [by rewrite num_NewInt32, E|apply i32_bounds].
  - by apply binary_result_spec.
Qed.

Lemma op_sub_spec : wpM op_sub fr (pushes rest (represents (f64_sub d1 d2))).
Proof.
  pose proof (arith_slow_spec OP_sub f64_sub p v1 v2 rest l w tr d1 d2 N1 N2 eq_refl) as Hslow.
  unfold op_sub. do 4 istep.
  destruct (number_cases v1 d1 N1) as [(a & -> & ->)| ->],
    (number_cases v2 d2 N2) as [(c & -> & ->)| ->]; cbv beta iota; try exact Hslow.
  - cbn in R1, R2. destruct (int_fits (a - c)) eqn:E; [|exact Hslow].
    unfold int_fits in E. zb. apply binary_result_spec.
    rewrite f64_sub_int by lia. split; [by rewrite num_NewInt32, E|apply i32_bounds].
  - by apply binary_result_spec.
Qed.

Lemma op_mul_spec : wpM op_mul fr (pushes rest (represents (f64_mul d1 d2))).
Proof.
  pose proof (arith_slow_spec OP_mul f64_mul p v1 v2 rest l w tr d1 d2 N1 N2 eq_refl) as Hslow.
  unfold op_mul. do 4 istep.
  destruct (number_cases v1 d1 N1) as [(a & -> & ->)| ->],
    (number_cases v2 d2 N2) as [(c & -> & ->)| ->]; cbv beta iota; try exact Hslow.
  - cbn in R1, R2. rewrite f64_mul_int by lia. cbv zeta.
    destruct (int_fits (a * c)) eqn:E; unfold int_fits in E; zb; cbn [negb]; cbv beta iota.
    + destruct (Z.eqb_spec (a * c) 0) as [E0|E0]; cbn [andb].
      * rewrite E0. assert (Ho : - 2 ^ 31 <= Z.lor a c < 2 ^ 31).
        { split; [|apply Z.lt_le_trans with (2 ^ 31); [|lia]];
          rewrite <- (i32_id a), <- (i32_id c) by done;
          assert (Eo : Z.lor (i32 a) (i32 c) = i32 (Z.lor (u32 a) (u32 c)))
            by (rewrite !i32_id by done; symmetry; apply (i32_bitop Z.lor orb);
                [apply Z.lor_spec|done|done]);
          rewrite Eo; apply i32_bounds. }
        rewrite i32_id by done.
        destruct (Z.ltb_spec (Z.lor a c) 0) as [Hn|Hn]; apply binary_result_spec.
        -- apply Z.lor_neg in Hn. split; [|done]. cbn. do 2 f_equal.
           destruct (Z.ltb_spec a 0), (Z.ltb_spec c 0); try done; lia.
        -- apply Z.lor_nonneg in Hn. split; [|done]. rewrite num_NewInt32. do 2 f_equal.
           destruct (Z.ltb_spec a 0), (Z.ltb_spec c 0); try done; lia.
      * apply binary_result_spec. split; [by rewrite num_NewInt32, E|apply i32_bounds].
    + apply binary_result_spec. destruct (Z.eqb_spec (a * c) 0) as [E0|E0]; [|done].
      by rewrite E0 in E.
  - by apply binary_result_spec.
Qed.

Lemma op_div_spec : wpM op_div fr (pushes rest (represents (f64_div d1 d2))).
Proof.
  pose proof (arith_slow_spec OP_div f64_div p v1 v2 rest l w tr d1 d2 N1 N2 eq_refl) as Hslow.
  unfold op_div. do 4 istep.
  destruct (number_cases v1 d1 N1) as [(a & -> & ->)| ->],
    (number_cases v2 d2 N2) as [(c & -> & ->)| ->]; cbv beta iota; try exact Hslow.
  apply binary_result_spec, num_new_f64.
Qed.

Lemma op_mod_spec : wpM op_mod fr (pushes rest (represents (fmod d1 d2))).
Proof.
  pose proof (arith_slow_spec OP_mod fmod p v1 v2 rest l w tr d1 d2 N1 N2 eq_refl) as Hslow.
  unfold op_mod. do 4 istep.
  destruct (number_cases v1 d1 N1) as [(a & -> & ->)| ->],
    (number_cases v2 d2 N2) as [(c & -> & ->)| ->]; cbv beta iota; try exact Hslow.
  cbn in R1, R2. destruct (Z.ltb_spec a 0); [exact Hslow|].
  destruct (Z.leb_spec c 0); [exact Hslow|]. cbn [orb]. cbv beta iota.
  apply binary_result_spec. rewrite fmod_int by lia.
  rewrite Z.rem_mod_nonneg by lia.
  pose proof (Z.mod_pos_bound a c ltac:(lia)).
  split; [rewrite num_NewInt32, i32_id; done || lia|apply i32_bounds].
Qed.

Lemma arith_op_spec op f : arith_op op = Some f ->
  wpM (exec_op b op) fr (pushes rest (represents (f d1 d2))).
Proof.
  intros Hop. destruct op; try done; injection Hop as <-.
  - exact op_mul_spec.
  - exact op_div_spec.
  - exact op_mod_spec.
  - exact op_add_spec.
  - exact op_sub_spec.
  - exact (arith_slow_spec OP_pow js_pow p v1 v2 rest l w tr d1 d2 N1 N2 eq_refl).
Qed.

Definition is_bool (c : bool) (v : JSValue) : Prop := v = JS_BOOL c.

Lemma number_plain v d : num_of v = Some d ->
  JS_IsException v = false /\ JS_IsString v = false.
Proof. by destruct v. Qed.

Lemma relational_slow_spec op f :
  cmp_f64 op d1 d2 = f d1 d2 ->
  wpM (js_relational_slow op) fr (pushes rest (is_bool (f d1 d2))).
Proof.
  intros Hf. destruct (number_plain v1 d1 N1) as [X1 S1].
  destruct (number_plain v2 d2 N2) as [X2 S2].
  unfold js_relational_slow. do 5 istep.
  apply wpM_to_primitive; [congruence|]. intros l1 w1 tr1. rewrite X1. cbv beta iota. istep.
  apply wpM_to_primitive; [congruence|]. intros l2 w2 tr2. rewrite X2. cbv beta iota.
  rewrite S1. cbn [andb]. cbv beta iota.
  apply (convert2_float _ _ _ _ _ _ _ _ _ _ _ N1 N2).
  intros l' w' tr' r1 r2 -> ->. apply binary_result_spec. unfold is_bool. by rewrite Hf.
Qed.

Lemma strict_eq2_spec p' st' l' w' tr' (Q : frame -> bool -> Prop) :
  Q (mkFrame p' st' l' w' tr') (f64_eqb d1 d2) ->
  wpM (js_strict_eq v1 v2) (mkFrame p' st' l' w' tr') Q.
Proof.
  intros HQ. unfold js_strict_eq, js_strict_eq2.
  destruct (number_cases v1 d1 N1) as [(a & -> & ->)| ->],
    (number_cases v2 d2 N2) as [(c & -> & ->)| ->]; cbv beta iota zeta; by istep.
Qed.

Lemma num_tag v d : num_of v = Some d -> is_num_tag (JS_VALUE_GET_TAG v) = true.
Proof. by destruct v. Qed.

Lemma op_eq_spec strict is_neq :
  wpM (op_eq strict is_neq) fr (pushes rest (is_bool (xorb (f64_eqb d1 d2) is_neq))).
Proof.
  assert (Hslow : wpM (if strict then js_strict_eq_slow is_neq else js_eq_slow is_neq) fr
    (pushes rest (is_bool (xorb (f64_eqb d1 d2) is_neq)))).
  { destruct strict.
    - unfold js_strict_eq_slow. do 5 istep. apply strict_eq2_spec.
      by apply binary_result_spec.
    - unfold js_eq_slow. do 5 istep. cbn [js_eq_loop]. cbv zeta.
      rewrite (num_tag v1 d1 N1), (num_tag v2 d2 N2), orb_true_r. cbv beta iota. istep.
      apply strict_eq2_spec. istep. by apply binary_result_spec. }
  unfold op_eq. do 4 istep.
  destruct (number_cases v1 d1 N1) as [(a & -> & ->)| ->],
    (number_cases v2 d2 N2) as [(c & -> & ->)| ->]; cbv beta iota; try exact Hslow.
  cbn in R1, R2. apply binary_result_spec. unfold is_bool.
  by rewrite f64_eqb_int by lia.
Qed.

Lemma op_cmp_spec op f :
  compare_op op = Some f -> op ∈ [OP_lt; OP_lte; OP_gt; OP_gte] ->
  wpM (op_cmp op) fr (pushes rest (is_bool (f d1 d2))).
Proof.
  intros Hop Hin.
  pose proof (relational_slow_spec op f) as Hslow.
  assert (Hf : cmp_f64 op d1 d2 = f d1 d2)
    by (rewrite !elem_of_cons, elem_of_nil in Hin;
        destruct_or? Hin; try done; subst op; by injection Hop as <-).
  specialize (Hslow Hf). unfold op_cmp. do 4 istep.
  destruct (number_cases v1 d1 N1) as [(a & -> & ->)| ->],
    (number_cases v2 d2 N2) as [(c & -> & ->)| ->]; cbv beta iota; try exact Hslow.
  cbn in R1, R2. apply binary_result_spec. unfold is_bool. rewrite <- Hf. clear Hslow Hf.
  rewrite !elem_of_cons, elem_of_nil in Hin.
  destruct_or? Hin; try done; subst op; cbn [cmp_int cmp_f64]; unfold f64_gtb, f64_geb;
    by rewrite ?f64_ltb_int, ?f64_leb_int by lia.
Qed.

Lemma compare_op_spec op f : compare_op op = Some f ->
  wpM (exec_op b op) fr (pushes rest (is_bool (f d1 d2))).
Proof.
  intros Hop. destruct op; try done.
  - by apply (op_cmp_spec OP_lt f Hop); rewrite !elem_of_cons; auto.
  - by apply (op_cmp_spec OP_lte f Hop); rewrite !elem_of_cons; auto.
  - by apply (op_cmp_spec OP_gt f Hop); rewrite !elem_of_cons; auto.
  - by apply (op_cmp_spec OP_gte f Hop); rewrite !elem_of_cons; auto.
  - injection Hop as <-. pose proof (op_eq_spec false false) as H.
    rewrite xorb_false_r in H. exact H.
  - injection Hop as <-. pose proof (op_eq_spec false true) as H.
    rewrite xorb_true_r in H. exact H.
  - injection Hop as <-. pose proof (op_eq_spec true false) as H.
    rewrite xorb_false_r in H. exact H.
  - injection Hop as <-. pose proof (op_eq_spec true true) as H.
    rewrite xorb_true_r in H. exact H.
Qed.

(** The integers of the bit operations. *)
Lemma number_int32 v d : num_of v = Some d -> int_in_range v ->
  - 2 ^ 31 <= modular i32 d < 2 ^ 31 /\ forall n, v = JS_INT n -> modular i32 d = n.
Proof.
  intros Hv Hr. split; [apply modular_bounds|]. intros n ->. injection Hv as <-.
  by apply modular_int.
Qed.

Lemma bit_op_spec op f : bit_op op = Some f -> converts v1 -> converts v2 ->
  wpM (exec_op b op) fr
    (pushes rest (represents (f64_of_Z (f (modular i32 d1) (modular i32 d2))))).
Proof.
  intros Hop C1 C2.
  destruct (number_int32 v1 d1 N1 R1) as [B1 I1].
  destruct (number_int32 v2 d2 N2 R2) as [B2 I2].
  destruct (decide (op = OP_shr)) as [->|Hne].
  - injection Hop as <-. change (exec_op b OP_shr) with (@op_shr rt).
    pose proof (shr_result (modular i32 d1) (modular i32 d2) B1) as Hr.
    assert (Hslow : wpM js_shr_slow fr (pushes rest
      (represents (f64_of_Z (u32 (modular i32 d1) / 2 ^ (modular i32 d2 mod 32)))))).
    { unfold js_shr_slow, convert2. do 5 istep.
      apply (wpM_to_uint32 _ _ _ _ _ _ d1 _ N1 C1). intros l1 w1 r1 E1 F1.
      rewrite E1. cbn [negb Z.eqb]. cbv beta iota. istep.
      apply (wpM_to_uint32 _ _ _ _ _ _ d2 _ N2 C2). intros l2 w2 r2 E2 F2.
      rewrite E2. cbn [negb Z.eqb]. cbv beta iota. apply binary_result_spec.
      rewrite F1, F2. unfold shr_value.
      assert (Eu : forall z, u32 (u32 z) = u32 z) by (intros; unfold u32; by rewrite Z.mod_mod).
      rewrite !Eu. exact Hr. }
    unfold op_shr. do 4 istep.
    destruct v1 as [a| | | | | | | |]; try exact Hslow;
      destruct v2 as [c| | | | | | | |]; try exact Hslow.
    rewrite (I1 a), (I2 c) in * by done. by apply binary_result_spec.
  - destruct (bit_op_result op f _ _ Hop B1 B2 Hne) as (r & Hr & Ef).
    assert (Hlog : forall p' l' w' tr' a c, a = modular i32 d1 -> c = modular i32 d2 ->
      wpM (logic_result op a c) (mkFrame p' (v2 :: v1 :: rest) l' w' tr')
        (pushes rest (represents (f64_of_Z (f (modular i32 d1) (modular i32 d2)))))).
    { intros p' l' w' tr' a c -> ->. unfold logic_result. rewrite Hr.
      apply binary_result_spec. rewrite <- Ef. split; [done|apply i32_bounds]. }
    assert (Hslow : wpM (js_binary_logic_slow op) fr
      (pushes rest (represents (f64_of_Z (f (modular i32 d1) (modular i32 d2)))))).
    { unfold js_binary_logic_slow, convert2. do 5 istep.
      apply (wpM_to_int32 _ _ _ _ _ _ d1 _ N1 C1). intros l1 w1 r1 E1 F1.
      rewrite E1. cbn [negb Z.eqb]. cbv beta iota. istep.
      apply (wpM_to_int32 _ _ _ _ _ _ d2 _ N2 C2). intros l2 w2 r2 E2 F2.
      rewrite E2. cbn [negb Z.eqb]. cbv beta iota. by apply Hlog. }
    assert (Hexec : wpM (op_logic op) fr
      (pushes rest (represents (f64_of_Z (f (modular i32 d1) (modular i32 d2)))))).
    { unfold op_logic. do 4 istep.
      destruct v1 as [a| | | | | | | |]; try exact Hslow;
        destruct v2 as [c| | | | | | | |]; try exact Hslow.
      apply Hlog; symmetry; auto. }
    by destruct op.
Qed.

(** *** One operand *)

Lemma unary_slow_spec op f :
  unary_op op = Some f ->
  wpM (js_unary_arith_slow op) fr (pushes (v1 :: rest) (represents (f d2))).
Proof.
  intros Hop. unfold js_unary_arith_slow, unary_arith. do 4 istep.
  apply (wpM_to_float _ _ _ _ _ _ d2 _ N2). intros l1 w1 r1 E1 F1.
  rewrite E1, F1. cbn [negb Z.eqb]. cbv beta iota zeta.
  destruct op; try done; injection Hop as <-; do 4 istep;
    (split; [done|]; eexists; split; [reflexivity|apply num_new_f64]).
Qed.

Lemma incdec_spec op f limit delta :
  unary_op op = Some f ->
  (forall n, - 2 ^ 31 <= n < 2 ^ 31 -> n <> limit ->
     - 2 ^ 31 <= n + delta < 2 ^ 31 /\ f (f64_of_Z n) = f64_of_Z (n + delta)) ->
  wpM (op_incdec op limit delta) fr (pushes (v1 :: rest) (represents (f d2))).
Proof.
  intros Hop Hf. pose proof (unary_slow_spec op f Hop) as Hslow.
  unfold op_incdec. do 2 istep.
  destruct (number_cases v2 d2 N2) as [(a & -> & ->)| ->]; cbv beta iota; [|exact Hslow].
  destruct (Z.eqb_spec a limit) as [E|E]; [exact Hslow|].
  destruct (Hf a R2 E) as [Hb ->]. apply set_top_spec.
  rewrite <- (i32_id (a + delta)) at 1 by done. split; [done|apply i32_bounds].
Qed.

Lemma unary_op_spec op f : unary_op op = Some f ->
  wpM (exec_op b op) fr (pushes (v1 :: rest) (represents (f d2))).
Proof.
  intros Hop. pose proof (unary_slow_spec op f Hop) as Hslow.
  destruct op; try done; injection Hop as <-.
  - change (wpM op_neg fr (pushes (v1 :: rest) (represents (f64_neg d2)))).
    unfold op_neg. do 2 istep.
    destruct (number_cases v2 d2 N2) as [(a & -> & ->)| ->]; cbv beta iota;
      [|by apply set_top_spec].
    cbn in R2. destruct (Z.eqb_spec a 0) as [->|E0]; [by apply set_top_spec|].
    destruct (Z.eqb_spec a (- 2 ^ 31)) as [->|E1]; [by apply set_top_spec|].
    apply set_top_spec. rewrite f64_neg_int by lia.
    rewrite <- (i32_id (- a)) at 1 by lia. split; [done|apply i32_bounds].
  - change (wpM (let! op1 := sp_get 1 in
      match op1 with
      | JS_INT _ | JS_FLOAT64 _ => mret BREAK
      | _ => js_unary_arith_slow OP_plus
      end) fr (pushes (v1 :: rest) (represents d2))).
    do 2 istep. assert (Hdone : pushes (v1 :: rest) (represents d2) fr BREAK).
    { split; [done|]. by exists v2. }
    destruct (number_cases v2 d2 N2) as [(a & -> & ->)| ->]; cbv beta iota; by istep.
  - apply (incdec_spec OP_dec (fun d => f64_sub d (f64_of_Z 1)) (- 2 ^ 31) (-1) eq_refl).
    intros n Hn Hne. split; [lia|]. by rewrite f64_sub_int by lia.
  - apply (incdec_spec OP_inc (fun d => f64_add d (f64_of_Z 1)) INT32_MAX 1 eq_refl).
    unfold INT32_MAX. intros n Hn Hne. split; [lia|]. by rewrite f64_add_int by lia.
Qed.

Lemma op_not_spec : converts v2 ->
  wpM (exec_op b OP_not) fr (pushes (v1 :: rest) (represents (f64_of_Z (- modular i32 d2 - 1)))).
Proof.
  intros C2. destruct (number_int32 v2 d2 N2 R2) as [B2 I2].
  change (exec_op b OP_not) with (@op_not rt). unfold op_not. do 2 istep.
  assert (Hn : forall a, a = modular i32 d2 ->
    represents (f64_of_Z (- modular i32 d2 - 1)) (JS_NewInt32 (Z.lnot a))).
  { intros a ->. unfold Z.lnot, Z.pred.
    replace (- modular i32 d2 + -1) with (- modular i32 d2 - 1) by lia.
    rewrite <- (i32_id (- modular i32 d2 - 1)) at 1 by lia.
    split; [done|apply i32_bounds]. }
  destruct (number_cases v2 d2 N2) as [(a & E & _)|E]; rewrite E; cbv beta iota.
  - apply set_top_spec, Hn. symmetry. by apply I2.
  - rewrite <- E at 1. istep.
    apply (wpM_to_int32 _ _ _ _ _ _ d2 _ N2 C2). intros l1 w1 r1 E1 F1.
    rewrite E1. cbn [negb Z.eqb]. cbv beta iota. do 3 istep.
    split; [done|]. eexists. split; [reflexivity|]. by apply Hn.
Qed.
End operands.
End arith.

(** ** Results *)

Lemma f64_trunc_int n : - 2 ^ 31 <= n < 2 ^ 31 -> f64_trunc (f64_of_Z n) = Some n.
Proof.
  intros Hn. destruct (f64_of_int_ok n) as (F & V & E); [lia|].
  rewrite f64_trunc_fval, E by done.
  by rewrite Z.quot_mul by (pose proof unit64_pos; lia).
Qed.

Definition num_default (v : JSValue) : spec_float :=
  match num_of v with Some d => d | None => S754_nan end.

(** An engine that converts numbers, for the witness. *)
#[export] Instance number_runtime : Runtime := {|
  World := Z;
  rt_call f args s :=
    let v := match args with v :: _ => v | [] => JS_UNDEFINED end in
    let d := num_default v in
    ((s.1 + 1, s.2),
     match f with
     | InterpBase.JS_ToUint32Free => mkRes 0 (u32 (modular i32 d)) d JS_UNDEFINED
     | JS_ToPrimitiveFree _ =>
         mkRes 0 0 d (match num_of v with Some _ => v | None => JS_UNDEFINED end)
     | JS_IteratorNext => mkRes 0 0 d JS_UNDEFINED
     | _ => mkRes 0 (modular i32 d) d JS_UNDEFINED
     end);
  rt_call_argv _ _ args s :=
    ((s.1 + 1, s.2), replicate (length args) JS_UNDEFINED,
     mkRes 0 0 S754_nan JS_UNDEFINED);
  rt_free _ w := w + 1;
  rt_pvalue _ _ := JS_UNDEFINED;
  rt_set_pvalue w _ _ := w;
  fmod x y := match f64_trunc x, f64_trunc y with
              | Some a, Some c => f64_of_Z (a mod c)
              | _, _ => S754_nan
              end;
  pow a _ := a;
  int32_oor _ := 0
|}.

#[export] Instance number_runtime_ok : RuntimeOk number_runtime.
Proof.
  split; try done; cbn.
  - intros f args s. destruct f; try done. cbn. by destruct args as [|[] args].
  - intros. by rewrite length_replicate.
  - intros. split; [done|]. by apply Forall_replicate.
  - intros hint args s. by destruct args as [|[| | | | | | | |[] q] args].
Qed.

#[export] Instance number_runtime_numbers : RuntimeNumbers number_runtime.
Proof.
  split; cbn; unfold num_default.
  - by intros v d s ->.
  - by intros v d s -> _.
  - by intros v d s -> _.
  - intros hint v s. by destruct v.
  - intros a c Ha Hc. by rewrite !f64_trunc_int by lia.
Qed.

Definition sample_env : fn_env := {|
  byte_code := []; cpool := []; js_mode_strict := false; arg_count := 0;
  var_refs := []; this_obj := JS_UNDEFINED; new_target := JS_UNDEFINED;
  cur_func := JS_UNDEFINED; home_object := None; argc := 0; is_normal := true;
  global_obj := JS_UNDEFINED; global_var_obj := JS_UNDEFINED;
  function_proto := JS_UNDEFINED; object_proto := JS_UNDEFINED |}.

(** C12.  The instructions on numbers compute the operations of the language,
    whatever the representations of their operands.  With [v1] and [v2] on
    top of the stack, an [int32] or a double each: the arithmetic
    instructions leave a value whose number is the binary64 operation on the
    two numbers (the [int32] paths lose nothing to overflow, rounding or the
    sign of zero), the comparisons leave the boolean of the binary64
    comparison, the bit operations leave the operation on the operands modulo
    [2^32]; and an [int32] result is in its range. *)
Theorem number_instructions_correct (rt : Runtime) (rtok : RuntimeOk rt)
    (rtn : RuntimeNumbers rt) (b : fn_env) (p : Z) (v1 v2 : JSValue)
    (rest : list JSValue) (l : locals) (w : World) (tr : list event)
    (d1 d2 : spec_float) :
  num_of v1 = Some d1 -> num_of v2 = Some d2 -> int_in_range v1 -> int_in_range v2 ->
  let s := mkFrame p (v2 :: v1 :: rest) l w tr in
  (forall op f, arith_op op = Some f ->
     wpM (exec_op b op) s (pushes rest (represents (f d1 d2))))
  /\ (forall op f, compare_op op = Some f ->
     wpM (exec_op b op) s (pushes rest (is_bool (f d1 d2))))
  /\ (converts v1 -> converts v2 ->
     forall op f, bit_op op = Some f ->
     wpM (exec_op b op) s
       (pushes rest (represents (f64_of_Z (f (modular i32 d1) (modular i32 d2))))))
  /\ (forall op f, unary_op op = Some f ->
     wpM (exec_op b op) s (pushes (v1 :: rest) (represents (f d2))))
  /\ (converts v2 ->
     wpM (exec_op b OP_not) s
       (pushes (v1 :: rest) (represents (f64_of_Z (- modular i32 d2 - 1))))).
Proof.
  intros N1 N2 R1 R2 s. split_and!.
  - intros op f Hop. by apply arith_op_spec.
  - intros op f Hop. by apply compare_op_spec.
  - intros C1 C2 op f Hop. by apply bit_op_spec.
  - intros op f Hop. by apply unary_op_spec.
  - intros C2. by eapply op_not_spec.
Qed.

(** [2147483647 + 1] is a double; [-7 * 0] is the double [-0]. *)
Lemma number_instructions_correct_witness :
  (exec_op (rt := number_runtime) sample_env OP_mul
     (mkFrame 0 [JS_INT 0; JS_INT (-7)] (mkLocals [] []) 0 [])
   = Ret (mkFrame 0 [JS_FLOAT64 (S754_zero true)] (mkLocals [] []) 0 [], BREAK))
  /\ wpM (rt := number_runtime) (exec_op sample_env OP_add)
       (mkFrame 0 [JS_INT 1; JS_INT 2147483647] (mkLocals [] []) 0 [])
       (pushes [] (represents (f64_add (f64_of_Z 2147483647) (f64_of_Z 1)))).
Proof.
  split; [reflexivity|].
  apply (number_instructions_correct number_runtime number_runtime_ok
           number_runtime_numbers sample_env 0 (JS_INT 2147483647) (JS_INT 1) []
           (mkLocals [] []) 0 [] (f64_of_Z 2147483647) (f64_of_Z 1));
    try reflexivity; cbn; lia.
Defined.
