(* ===== verification/MapSet.v ===== *)
(** * Map, Set, WeakMap and WeakSet ([quickjs.c])

    The records of a collection are in a list, in the order of insertion, and
    in the chains of a hash table; an iterator holds the record it is at, so
    that a record deleted meanwhile stays in the list as an empty one.

    The records live in a store by address, which the list, the chains, the
    iterators and the weak references share; a freed record is not in the
    store any more.  A list of [list.h] is the sequence of its elements (the
    refinement of [ListHead]), and 0 stands for its head.  The references to
    values that the operations take and release are logged. *)

From stdpp Require Import base tactics numbers list option gmap.
From Stdlib Require Import ZArith Lia SpecFloat.
From S2P Require Import Prelude Values Numbers.
From S2P Require Atoms.

Open Scope Z_scope.

(** ** Data *)

Definition MAGIC_SET : Z := 1.
Definition MAGIC_WEAK : Z := 2.

Record JSMapRecord := mkRecord {
  (** used during enumeration to avoid freeing the record *)
  mr_ref_count : Z;
  (** true if the record is deleted *)
  empty : bool;
  mr_map : Z;
  next_weak_ref : Z;
  mr_key : JSValue;
  mr_value : JSValue
}.

Record JSMapState := mkMap {
  is_weak : bool;
  records : list Z;
  record_count : Z;
  hash_table : list (list Z);
  hash_size : Z;
  record_count_threshold : Z
}.

Inductive JSIteratorKindEnum :=
  | JS_ITERATOR_KIND_KEY | JS_ITERATOR_KIND_VALUE | JS_ITERATOR_KIND_KEY_AND_VALUE.

Record JSMapIteratorData := mkIter {
  it_obj : JSValue;
  it_kind : JSIteratorKindEnum;
  cur_record : Z
}.

(** The references to values that an operation takes and releases. *)
Inductive ref_event := Dup (v : JSValue) | Free (v : JSValue).

(** What the engine gives: blocks of memory ([js_realloc2] gives the slack of
    the new block), the characters of strings, the callables, arrays. *)
Class MapEngine := {
  mapheap : Type;
  malloc_record : mapheap -> gset Z -> mapheap * option Z;
  js_realloc2 : mapheap -> Z -> mapheap * option Z;
  js_create_array : mapheap -> list JSValue -> mapheap * JSValue;
  str_of : Z -> option Atoms.JSString;
  JS_IsFunction : JSValue -> bool
}.

Section map.
Context {me : MapEngine}.

(** The collections are known by the object that holds them, with the magic
    number of its class; the iterators by their object. *)
Record map_st := mkSt {
  heap : mapheap;
  maps : gmap Z (Z * JSMapState);
  recs : gmap Z JSMapRecord;
  iters : gmap Z (Z * JSMapIteratorData);
  first_weak_ref : gmap Z Z;
  log : list ref_event
}.

Definition set_heap (st : map_st) h := mkSt h (maps st) (recs st) (iters st) (first_weak_ref st) (log st).
Definition set_maps (st : map_st) m := mkSt (heap st) m (recs st) (iters st) (first_weak_ref st) (log st).
Definition set_recs (st : map_st) r := mkSt (heap st) (maps st) r (iters st) (first_weak_ref st) (log st).
Definition set_iters (st : map_st) i := mkSt (heap st) (maps st) (recs st) i (first_weak_ref st) (log st).
Definition set_weak (st : map_st) w := mkSt (heap st) (maps st) (recs st) (iters st) w (log st).
Definition emit (st : map_st) e := mkSt (heap st) (maps st) (recs st) (iters st) (first_weak_ref st) (log st ++ [e]).
Definition dup_value (st : map_st) (v : JSValue) : map_st := emit st (Dup v).
Definition free_value (st : map_st) (v : JSValue) : map_st := emit st (Free v).

Definition get_map (st : map_st) (p : Z) : res JSMapState :=
  match maps st !! p with Some (_, s) => Ret s | None => Ub end.
Definition put_map (st : map_st) (p : Z) (s : JSMapState) : res map_st :=
  match maps st !! p with
  | Some (m, _) => Ret (set_maps st (<[p := (m, s)]> (maps st)))
  | None => Ub
  end.
Definition get_rec (st : map_st) (a : Z) : res JSMapRecord :=
  match recs st !! a with Some r => Ret r | None => Ub end.
Definition put_rec (st : map_st) (a : Z) (r : JSMapRecord) : map_st :=
  set_recs st (<[a := r]> (recs st)).
Definition free_rec (st : map_st) (a : Z) : map_st :=
  set_recs st (delete a (recs st)).

(** [JS_GetOpaque2]: the collection of [this_val], or an exception. *)
Definition JS_GetOpaque2 (st : map_st) (this_val : JSValue) (magic : Z) : option Z :=
  match this_val with
  | JS_MKPTR PTR_OBJECT p =>
      match maps st !! p with
      | Some (m, _) => if m =? magic then Some p else None
      | None => None
      end
  | _ => None
  end.

(** ** Lists *)

(** [list_del] on the element of a list. *)
Definition list_del_elem (l : list Z) (x : Z) : res (list Z) :=
  if bool_decide (x ∈ l) then Ret (filter (fun y => y <> x) l) else Ub.

(** [list_del] on the [hash_link] of a record, which is in one chain. *)
Definition hash_link_del (t : list (list Z)) (x : Z) : res (list (list Z)) :=
  if bool_decide (x ∈ concat t)
  then Ret (filter (fun y => y <> x) <$> t) else Ub.

(** [list_add_tail(&mr->hash_link, &hash_table[h])] *)
Definition hash_link_add (t : list (list Z)) (h x : Z) : res (list (list Z)) :=
  let* c := rd t h in wr t h (c ++ [x]).

Definition list_first (l : list Z) : Z := hd 0 l.

(** [el->next] *)
Fixpoint list_next (l : list Z) (x : Z) : res Z :=
  match l with
  | [] => Ub
  | y :: l => if y =? x then Ret (list_first l) else list_next l x
  end.

(** ** Keys *)

(** convert -0.0 to +0.0 *)
Definition map_normalize_key (key : JSValue) : JSValue :=
  match key with
  | JS_FLOAT64 d => if f64_eqb d (S754_zero false) then JS_NewInt32 0 else key
  | _ => key
  end.

(** The two halves of a double. *)
Definition hash_float64 (d : spec_float) : Z :=
  let b := f64_bits d in u32 (Z.lxor (u32 b) (Z.shiftr b 32) * 3163).

Definition map_hash_key (key : JSValue) : res Z :=
  let tag := JS_VALUE_GET_TAG key in
  let* h :=
    match key with
    | JS_BOOL b => Ret (if b then 1 else 0)
    | JS_MKPTR PTR_STRING p =>
        match str_of p with Some s => Ret (Atoms.hash_string s 0) | None => Ub end
    | JS_MKPTR (PTR_OBJECT | PTR_SYMBOL) p => Ret (u32 (u64 (p * 3163)))
    | JS_INT n =>
        let d := n * 3163 in
        (* signed overflow *)
        if (- 2 ^ 31 <=? d) && (d <? 2 ^ 31) then Ret (hash_float64 (f64_of_Z d)) else Ub
    | JS_FLOAT64 d =>
        (* normalize the NaN *)
        Ret (hash_float64 (if isnan d then S754_nan else d))
    | _ => Ret 0
    end in
  Ret (Z.lxor h (u32 tag)).

(** [js_strict_eq2] in the mode [JS_EQ_SAME_VALUE_ZERO]; the two references
    it takes are the ones it frees. *)
Definition number_same_value_zero (d1 d2 : spec_float) : bool :=
  if isnan d1 || isnan d2 then Bool.eqb (isnan d1) (isnan d2) else f64_eqb d1 d2.

Definition js_same_value_zero (op1 op2 : JSValue) : res bool :=
  let tag1 := JS_VALUE_GET_TAG op1 in
  let tag2 := JS_VALUE_GET_TAG op2 in
  match op1 with
  | JS_BOOL b1 => Ret (match op2 with JS_BOOL b2 => Bool.eqb b1 b2 | _ => false end)
  | JS_NULL | JS_UNDEFINED => Ret (tag1 =? tag2)
  | JS_INT n1 =>
      Ret (match op2 with
           | JS_INT n2 => number_same_value_zero (f64_of_Z n1) (f64_of_Z n2)
           | JS_FLOAT64 d2 => number_same_value_zero (f64_of_Z n1) d2
           | _ => false
           end)
  | JS_FLOAT64 d1 =>
      Ret (match op2 with
           | JS_INT n2 => number_same_value_zero d1 (f64_of_Z n2)
           | JS_FLOAT64 d2 => number_same_value_zero d1 d2
           | _ => false
           end)
  | JS_MKPTR PTR_STRING p1 =>
      match op2 with
      | JS_MKPTR PTR_STRING p2 =>
          match str_of p1, str_of p2 with
          | Some s1, Some s2 =>
              let* c := Atoms.js_string_compare s1 s2 in Ret (c =? 0)
          | _, _ => Ub
          end
      | _ => Ret false
      end
  | JS_MKPTR (PTR_SYMBOL | PTR_OBJECT) p1 =>
      Ret (match op2 with
           | JS_MKPTR _ p2 => (tag1 =? tag2) && (p1 =? p2)
           | _ => false
           end)
  | _ => Ret false
  end.

(** ** The hash table *)

Fixpoint find_in_chain (st : map_st) (l : list Z) (key : JSValue) : res (option Z) :=
  match l with
  | [] => Ret None
  | a :: l =>
      let* mr := get_rec st a in
      let* same := js_same_value_zero (mr_key mr) key in
      if same then Ret (Some a) else find_in_chain st l key
  end.

Definition map_find_record (st : map_st) (s : JSMapState) (key : JSValue)
  : res (option Z) :=
  let* h := map_hash_key key in
  let* c := rd (hash_table s) (Z.land h (u32 (hash_size s - 1))) in
  find_in_chain st c key.

Definition sizeof_list_head : Z := 16.

(** The loop that puts the records in the new table. *)
Fixpoint rehash (st : map_st) (l : list Z) (new_hash_size : Z) (t : list (list Z))
  : res (list (list Z)) :=
  match l with
  | [] => Ret t
  | a :: l =>
      let* mr := get_rec st a in
      if negb (empty mr) then
        let* h := map_hash_key (mr_key mr) in
        let* t := hash_link_add t (Z.land h (u32 (new_hash_size - 1))) a in
        rehash st l new_hash_size t
      else rehash st l new_hash_size t
  end.

Definition map_hash_resize (st : map_st) (p : Z) : res map_st :=
  let* s := get_map st p in
  let new_hash_size := if hash_size s =? 1 then 4 else u32 (hash_size s * 2) in
  let '(h, slack) := js_realloc2 (heap st) (sizeof_list_head * new_hash_size) in
  let st := set_heap st h in
  match slack with
  | None => Ret st
  | Some slack =>
      let new_hash_size := u32 (new_hash_size + slack / sizeof_list_head) in
      let* t := rehash st (records s) new_hash_size (replicate (Z.to_nat new_hash_size) []) in
      put_map st p (mkMap (is_weak s) (records s) (record_count s) t new_hash_size
                      (u32 (new_hash_size * 2)))
  end.

(** The weak references of an object: the first one, or 0. *)
Definition get_first_weak_ref (st : map_st) (p : Z) : Z :=
  default 0 (first_weak_ref st !! p).

Definition obj_of (v : JSValue) : res Z :=
  match v with JS_MKPTR PTR_OBJECT p => Ret p | _ => Ub end.

(** The new record is 0 when memory runs out. *)
Definition map_add_record (st : map_st) (p : Z) (key : JSValue) : res (map_st * Z) :=
  let '(h, mr) := malloc_record (heap st) (dom (recs st)) in
  let st := set_heap st h in
  match mr with
  | None => Ret (st, 0)
  | Some mr =>
      let* s := get_map st p in
      let* wk :=
        (if is_weak s then
           (* Add the weak reference *)
           let* o := obj_of key in
           Ret (set_weak st (<[o := mr]> (first_weak_ref st)), get_first_weak_ref st o)
         else Ret (dup_value st key, 0)) in
      let '(st, next) := wk in
      (* the value is set by the caller *)
      let st := put_rec st mr (mkRecord 1 false p next key JS_UNDEFINED) in
      let* h := map_hash_key key in
      let* t := hash_link_add (hash_table s) (Z.land h (u32 (hash_size s - 1))) mr in
      let s := mkMap (is_weak s) (records s ++ [mr]) (u32 (record_count s + 1)) t
                 (hash_size s) (record_count_threshold s) in
      let* st := put_map st p s in
      let* st := (if record_count_threshold s <=? record_count s
                  then map_hash_resize st p else Ret st) in
      Ret (st, mr)
  end.

(** ** Deleting *)

(** The walk of [delete_weak_ref] from the pointer [*pmr]: [prev] is the
    record that holds it, or 0 for the object. *)
Fixpoint unlink_weak_ref (fuel : nat) (st : map_st) (o prev mr1 mr : Z) : res map_st :=
  match fuel with
  | O => OutOfFuel
  | S fuel =>
      let* _ := c_assert (negb (mr1 =? 0)) in
      let* r1 := get_rec st mr1 in
      if mr1 =? mr then
        if prev =? 0
        then Ret (set_weak st (<[o := next_weak_ref r1]> (first_weak_ref st)))
        else
          let* r := get_rec st prev in
          Ret (put_rec st prev (mkRecord (mr_ref_count r) (empty r) (mr_map r)
                 (next_weak_ref r1) (mr_key r) (mr_value r)))
      else unlink_weak_ref fuel st o mr1 (next_weak_ref r1) mr
  end.

Definition delete_weak_ref (st : map_st) (mr : Z) : res map_st :=
  let* r := get_rec st mr in
  let* o := obj_of (mr_key r) in
  unlink_weak_ref (S (size (recs st))) st o 0 (get_first_weak_ref st o) mr.

Definition map_delete_record (st : map_st) (p mr : Z) : res map_st :=
  let* r := get_rec st mr in
  if empty r then Ret st
  else
    let* s := get_map st p in
    let* t := hash_link_del (hash_table s) mr in
    let* st := (if is_weak s then delete_weak_ref st mr
                else Ret (free_value st (mr_key r))) in
    let st := free_value st (mr_value r) in
    let count := mr_ref_count r - 1 in
    let* x :=
      (if count =? 0 then
         let* l := list_del_elem (records s) mr in
         Ret (free_rec st mr, l)
       else
         (* keep a zombie record for iterators *)
         Ret (put_rec st mr (mkRecord count true (mr_map r) (next_weak_ref r)
                               JS_UNDEFINED JS_UNDEFINED), records s)) in
    let '(st, l) := x in
    put_map st p (mkMap (is_weak s) l (u32 (record_count s - 1)) t (hash_size s)
                    (record_count_threshold s)).

Definition map_decref_record (st : map_st) (mr : Z) : res map_st :=
  let* r := get_rec st mr in
  let count := mr_ref_count r - 1 in
  if count =? 0 then
    (* the record can be safely removed *)
    let* _ := c_assert (empty r) in
    let* s := get_map st (mr_map r) in
    let* l := list_del_elem (records s) mr in
    let* st := put_map st (mr_map r)
      (mkMap (is_weak s) l (record_count s) (hash_table s) (hash_size s)
         (record_count_threshold s)) in
    Ret (free_rec st mr)
  else
    Ret (put_rec st mr (mkRecord count (empty r) (mr_map r) (next_weak_ref r)
                          (mr_key r) (mr_value r))).

(** [mr->ref_count++] on an [int]. *)
Definition map_incref_record (st : map_st) (mr : Z) : res map_st :=
  let* r := get_rec st mr in
  if mr_ref_count r <? INT32_MAX then
    Ret (put_rec st mr (mkRecord (mr_ref_count r + 1) (empty r) (mr_map r)
                          (next_weak_ref r) (mr_key r) (mr_value r)))
  else Ub.

(** When the object [o] dies: the first pass takes its records out of the
    lists of their maps, the second one frees them. *)
Fixpoint reset_weak_ref_1 (fuel : nat) (st : map_st) (mr : Z) : res map_st :=
  match fuel with
  | O => OutOfFuel
  | S fuel =>
      if mr =? 0 then Ret st
      else
        let* r := get_rec st mr in
        let* s := get_map st (mr_map r) in
        let* _ := c_assert (is_weak s) in
        let* _ := c_assert (negb (empty r)) in (* no iterator on WeakMap/WeakSet *)
        let* t := hash_link_del (hash_table s) mr in
        let* l := list_del_elem (records s) mr in
        let* st := put_map st (mr_map r)
          (mkMap (is_weak s) l (record_count s) t (hash_size s)
             (record_count_threshold s)) in
        reset_weak_ref_1 fuel st (next_weak_ref r)
  end.

Fixpoint reset_weak_ref_2 (fuel : nat) (st : map_st) (mr : Z) : res map_st :=
  match fuel with
  | O => OutOfFuel
  | S fuel =>
      if mr =? 0 then Ret st
      else
        let* r := get_rec st mr in
        let st := free_value st (mr_value r) in
        let st := free_rec st mr in
        reset_weak_ref_2 fuel st (next_weak_ref r)
  end.

Definition reset_weak_ref (st : map_st) (o : Z) : res map_st :=
  let first := get_first_weak_ref st o in
  let fuel := S (size (recs st)) in
  let* st := reset_weak_ref_1 fuel st first in
  let* st := reset_weak_ref_2 fuel st first in
  Ret (set_weak st (delete o (first_weak_ref st))).     (* fail safe *)

(** ** The methods *)

(** [js_map_constructor] up to the iteration of its argument. *)
Definition map_init (st : map_st) (obj magic : Z) : map_st :=
  set_maps st (<[obj := (magic, mkMap (negb (Z.land magic MAGIC_WEAK =? 0)) [] 0 [[]] 1 4)]>
                 (maps st)).

Definition set_value (st : map_st) (mr : Z) (v : JSValue) : res map_st :=
  let* r := get_rec st mr in
  Ret (put_rec st mr (mkRecord (mr_ref_count r) (empty r) (mr_map r) (next_weak_ref r)
                        (mr_key r) v)).

Definition js_map_set (st : map_st) (this_val key value : JSValue) (magic : Z)
  : res (map_st * JSValue) :=
  match JS_GetOpaque2 st this_val magic with
  | None => Ret (st, JS_EXCEPTION)
  | Some p =>
      let* s := get_map st p in
      let key := map_normalize_key key in
      if is_weak s && negb (JS_IsObject key) then Ret (st, JS_EXCEPTION)
      else
        let value := if negb (Z.land magic MAGIC_SET =? 0) then JS_UNDEFINED else value in
        let* found := map_find_record st s key in
        let* x :=
          match found with
          | Some mr =>
              let* r := get_rec st mr in
              Ret (free_value st (mr_value r), mr)
          | None => map_add_record st p key
          end in
        let '(st, mr) := x in
        if mr =? 0 then Ret (st, JS_EXCEPTION)
        else
          let st := dup_value st value in
          let* st := set_value st mr value in
          Ret (dup_value st this_val, this_val)
  end.

Definition js_map_get (st : map_st) (this_val key : JSValue) (magic : Z)
  : res (map_st * JSValue) :=
  match JS_GetOpaque2 st this_val magic with
  | None => Ret (st, JS_EXCEPTION)
  | Some p =>
      let* s := get_map st p in
      let* found := map_find_record st s (map_normalize_key key) in
      match found with
      | None => Ret (st, JS_UNDEFINED)
      | Some mr =>
          let* r := get_rec st mr in
          Ret (dup_value st (mr_value r), mr_value r)
      end
  end.

Definition js_map_has (st : map_st) (this_val key : JSValue) (magic : Z)
  : res (map_st * JSValue) :=
  match JS_GetOpaque2 st this_val magic with
  | None => Ret (st, JS_EXCEPTION)
  | Some p =>
      let* s := get_map st p in
      let* found := map_find_record st s (map_normalize_key key) in
      Ret (st, JS_NewBool (bool_decide (is_Some found)))
  end.

Definition js_map_delete (st : map_st) (this_val key : JSValue) (magic : Z)
  : res (map_st * JSValue) :=
  match JS_GetOpaque2 st this_val magic with
  | None => Ret (st, JS_EXCEPTION)
  | Some p =>
      let* s := get_map st p in
      let* found := map_find_record st s (map_normalize_key key) in
      match found with
      | None => Ret (st, JS_FALSE)
      | Some mr =>
          let* st := map_delete_record st p mr in Ret (st, JS_TRUE)
      end
  end.

(** [list_for_each_safe]: the next element is read before the record is
    deleted. *)
Definition next_el (st : map_st) (p el : Z) : res Z :=
  let* s := get_map st p in
  if el =? 0 then Ret (list_first (records s)) else list_next (records s) el.

Definition clear_step (p : Z) (x : Z * Z * map_st) : res (Z * Z * map_st + map_st) :=
  let '(el, el1, st) := x in
  if el =? 0 then Ret (inr st)
  else
    let* st := map_delete_record st p el in
    let el := el1 in
    let* el1 := next_el st p el in
    Ret (inl (el, el1, st)).

Definition js_map_clear (st : map_st) (this_val : JSValue) (magic : Z)
  : res (map_st * JSValue) :=
  match JS_GetOpaque2 st this_val magic with
  | None => Ret (st, JS_EXCEPTION)
  | Some p =>
      let* s := get_map st p in
      let* el := next_el st p 0 in
      let* el1 := next_el st p el in
      let* st := loop (S (length (records s))) (clear_step p) (el, el1, st) in
      Ret (st, JS_UNDEFINED)
  end.

Definition js_map_get_size (st : map_st) (this_val : JSValue) (magic : Z)
  : res (map_st * JSValue) :=
  match JS_GetOpaque2 st this_val magic with
  | None => Ret (st, JS_EXCEPTION)
  | Some p =>
      let* s := get_map st p in
      Ret (st, JS_NewUint32 (record_count s))
  end.

(** The loop of [js_map_forEach]; [cb] is the call of the function, which may
    do anything to the collections.  The list can be modified while
    traversing it, but the current element is locked. *)
Definition forEach_step (cb : map_st -> list JSValue -> res (map_st * JSValue))
    (p : Z) (this_val : JSValue) (magic : Z) (x : Z * map_st)
  : res (Z * map_st + map_st * JSValue) :=
  let '(el, st) := x in
  if el =? 0 then Ret (inr (st, JS_UNDEFINED))
  else
    let* r := get_rec st el in
    if negb (empty r) then
      let* st := map_incref_record st el in
      (* must duplicate in case the record is deleted *)
      let key := mr_key r in
      let st := dup_value st key in
      let value := if negb (magic =? 0) then key else mr_value r in
      let st := if negb (magic =? 0) then st else dup_value st value in
      let* x := cb st [value; key; this_val] in
      let '(st, ret) := x in
      let st := free_value st value in
      let st := if negb (magic =? 0) then st else free_value st key in
      let* el1 := next_el st p el in
      let* st := map_decref_record st el in
      if JS_IsException ret then Ret (inr (st, ret))
      else Ret (inl (el1, free_value st ret))
    else
      let* el1 := next_el st p el in Ret (inl (el1, st)).

Definition js_map_forEach (fuel : nat) (cb : map_st -> list JSValue -> res (map_st * JSValue))
    (st : map_st) (this_val func : JSValue) (magic : Z) : res (map_st * JSValue) :=
  match JS_GetOpaque2 st this_val magic with
  | None => Ret (st, JS_EXCEPTION)
  | Some p =>
      if negb (JS_IsFunction func) then Ret (st, JS_EXCEPTION)
      else
        let* el := next_el st p 0 in
        loop fuel (forEach_step cb p this_val magic) (el, st)
  end.

(** The references released by the finalizer, which frees every record. *)
Fixpoint finalize_records (st : map_st) (weak : bool) (l : list Z) : res map_st :=
  match l with
  | [] => Ret st
  | a :: l =>
      let* r := get_rec st a in
      let* st :=
        (if negb (empty r) then
           let* st := (if weak then delete_weak_ref st a
                       else Ret (free_value st (mr_key r))) in
           Ret (free_value st (mr_value r))
         else Ret st) in
      finalize_records (free_rec st a) weak l
  end.

Definition js_map_finalizer (st : map_st) (p : Z) : res map_st :=
  match maps st !! p with
  | None => Ret st
  | Some (_, s) =>
      let* st := finalize_records st (is_weak s) (records s) in
      Ret (set_maps st (delete p (maps st)))
  end.

(** The values that [js_map_mark] marks. *)
Fixpoint mark_records (st : map_st) (weak : bool) (l : list Z) : res (list JSValue) :=
  match l with
  | [] => Ret []
  | a :: l =>
      let* r := get_rec st a in
      let* vs := mark_records st weak l in
      Ret ((if weak then [] else [mr_key r]) ++ mr_value r :: vs)
  end.

Definition js_map_mark (st : map_st) (p : Z) : res (list JSValue) :=
  match maps st !! p with
  | None => Ret []
  | Some (_, s) => mark_records st (is_weak s) (records s)
  end.

(** ** Iterators *)

(** [js_create_map_iterator]; [obj] is the new object of the iterator, or an
    exception. *)
Definition js_create_map_iterator (st : map_st) (this_val : JSValue) (obj : option Z)
    (kind : JSIteratorKindEnum) (magic : Z) : res (map_st * JSValue) :=
  match JS_GetOpaque2 st this_val magic with
  | None => Ret (st, JS_EXCEPTION)
  | Some _ =>
      match obj with
      | None => Ret (st, JS_EXCEPTION)
      | Some o =>
          let st := dup_value st this_val in
          Ret (set_iters st (<[o := (magic, mkIter this_val kind 0)]> (iters st)),
               JS_MKPTR PTR_OBJECT o)
      end
  end.

Definition put_iter (st : map_st) (o : Z) (it : JSMapIteratorData) : res map_st :=
  match iters st !! o with
  | Some (m, _) => Ret (set_iters st (<[o := (m, it)]> (iters st)))
  | None => Ub
  end.

(** The next record that is not empty, or 0. *)
Definition skip_step (p : Z) (st : map_st) (el : Z) : res (Z + Z) :=
  if el =? 0 then Ret (inr 0)
  else
    let* r := get_rec st el in
    if negb (empty r) then Ret (inr el)
    else let* el := next_el st p el in Ret (inl el).

(** The result is the value and [*pdone]. *)
Definition js_map_iterator_next (st : map_st) (o magic : Z)
  : res (map_st * JSValue * bool) :=
  match iters st !! o with
  | None => Ret (st, JS_EXCEPTION, false)
  | Some (m, it) =>
      if negb (m =? magic) then Ret (st, JS_EXCEPTION, false)
      else if JS_IsUndefined (it_obj it) then Ret (st, JS_UNDEFINED, true)
      else
        let* p := obj_of (it_obj it) in
        let* el := next_el st p (cur_record it) in
        let* st := (if cur_record it =? 0 then Ret st
                    else map_decref_record st (cur_record it)) in
        let* s := get_map st p in
        let* el := loop (S (S (length (records s)))) (skip_step p st) el in
        if el =? 0 then
          (* no more record *)
          let st := free_value st (it_obj it) in
          let* st := put_iter st o (mkIter JS_UNDEFINED (it_kind it) 0) in
          Ret (st, JS_UNDEFINED, true)
        else
          (* lock the record so that it won't be freed *)
          let* st := map_incref_record st el in
          let* st := put_iter st o (mkIter (it_obj it) (it_kind it) el) in
          let* mr := get_rec st el in
          match it_kind it with
          | JS_ITERATOR_KIND_KEY => Ret (dup_value st (mr_key mr), mr_key mr, false)
          | kind =>
              let v := if negb (magic =? 0) then mr_key mr else mr_value mr in
              match kind with
              | JS_ITERATOR_KIND_VALUE => Ret (dup_value st v, v, false)
              | _ =>
                  let '(h, arr) := js_create_array (heap st) [mr_key mr; v] in
                  let st := set_heap st h in
                  Ret (if JS_IsException arr then st
                       else dup_value (dup_value st (mr_key mr)) v, arr, false)
              end
          end
  end.

(** [live] is [JS_IsLiveObject] of the collection. *)
Definition js_map_iterator_finalizer (st : map_st) (o : Z) (live : bool) : res map_st :=
  match iters st !! o with
  | None => Ret st
  | Some (_, it) =>
      let* st := (if live && negb (cur_record it =? 0)
                  then map_decref_record st (cur_record it) else Ret st) in
      let st := free_value st (it_obj it) in
      Ret (set_iters st (delete o (iters st)))
  end.
End map.
