(* ===== verification/MapKeySpec.v ===== *)
(** * The keys of a collection

    [js_same_value_zero] is the equality of a canonical form of the values,
    and [map_hash_key] is a function of this form on the keys of [key_ok].
    On the others it is not: the integer 1 and the double 1, which are the
    same value, have different hashes. *)

From stdpp Require Import base tactics numbers list option gmap.
From Stdlib Require Import ZArith Lia SpecFloat.
From S2P Require Import Prelude Values FloatSpec Numbers StringSpec MapSet.
From S2P Require Atoms.

Open Scope Z_scope.

Section keys.
Context {me : MapEngine}.

(** SameValueZero as an equality: numbers by their value with one zero,
    strings by their code units, the others by identity. *)
Inductive canon_key :=
  | CkNumber (d : spec_float)
  | CkString (l : list Z)
  | CkOther (v : JSValue).

#[export] Instance canon_key_eq_dec : EqDecision canon_key.
Proof. solve_decision. Defined.

Definition canon_number (d : spec_float) : spec_float :=
  match d with S754_zero _ => S754_zero false | _ => d end.

Definition canon (v : JSValue) : canon_key :=
  match v with
  | JS_INT n => CkNumber (canon_number (f64_of_Z n))
  | JS_FLOAT64 d => CkNumber (canon_number d)
  | JS_MKPTR PTR_STRING p =>
      match str_of p with Some s => CkString (Atoms.chars s) | None => CkOther v end
  | _ => CkOther v
  end.

(** The keys on which the hash follows the equality: an integer whose
    product by 3163 is an [int], a double that is not one of the 32-bit
    integers. *)
Definition key_ok (v : JSValue) : Prop :=
  match v with
  | JS_INT n => - 2 ^ 31 <= n * 3163 < 2 ^ 31
  | JS_FLOAT64 d =>
      forall n, - 2 ^ 31 <= n < 2 ^ 31 -> canon_number d <> canon_number (f64_of_Z n)
  | JS_BOOL _ | JS_NULL | JS_UNDEFINED => True
  | JS_MKPTR PTR_STRING p => is_Some (str_of p)
  | JS_MKPTR (PTR_OBJECT | PTR_SYMBOL) _ => True
  | _ => False
  end.

Lemma f64_eqb_canon d1 d2 : isnan d1 = false -> isnan d2 = false ->
  f64_eqb d1 d2 = bool_decide (canon_number d1 = canon_number d2).
Proof.
  intros N1 N2. unfold f64_eqb, SFeqb. apply eq_true_iff_eq.
  rewrite bool_decide_eq_true.
  destruct d1 as [s1|s1| |s1 m1 e1], d2 as [s2|s2| |s2 m2 e2]; try done;
    cbn [canon_number];
    try (try destruct s1; try destruct s2; cbn; split; intros H; done || discriminate H).
  cbn [SFcompare]. split.
  - destruct s1, s2; try done; destruct (Z.compare_spec e1 e2) as [->|H|H]; try done;
        change (Pos.compare_cont Eq m1 m2) with (m1 ?= m2)%positive;
        destruct (Pos.compare_spec m1 m2) as [->|H|H]; done.
  - intros [= -> -> ->]. destruct s2; rewrite Z.compare_refl;
        change (Pos.compare_cont Eq m2 m2) with (m2 ?= m2)%positive;
        by rewrite Pos.compare_refl.
Qed.

Lemma number_same_value_zero_canon d1 d2 :
  number_same_value_zero d1 d2 = bool_decide (canon_number d1 = canon_number d2).
Proof.
  unfold number_same_value_zero.
  destruct (isnan d1) eqn:N1, (isnan d2) eqn:N2; cbn [orb Bool.eqb];
    [| | |by apply f64_eqb_canon]; symmetry.
  - destruct d1, d2; try done.
  - apply bool_decide_eq_false. by destruct d1, d2.
  - apply bool_decide_eq_false. by destruct d1, d2.
Qed.

Lemma js_same_value_zero_spec a b : key_ok a -> key_ok b ->
  js_same_value_zero a b = Ret (bool_decide (canon a = canon b)).
Proof.
  intros Ha Hb.
  assert (Hn : forall x y, bool_decide (CkNumber x = CkNumber y) = bool_decide (x = y)).
  { intros x y. apply bool_decide_ext. split; [by intros [= ->]|by intros ->]. }
  assert (Ho : forall x y, bool_decide (CkOther x = CkOther y) = bool_decide (x = y)).
  { intros x y. apply bool_decide_ext. split; [by intros [= ->]|by intros ->]. }
  destruct a as [n1|b1| | | | | |d1|t1 p1]; try done; cbn [js_same_value_zero canon].
  - destruct b as [n2|b2| | | | | |d2|[] p2]; try done; cbn [canon];
      rewrite ?Hn, ?number_same_value_zero_canon; try done.
    by destruct (str_of p2).
  - destruct b as [n2|b2| | | | | |d2|[] p2]; try done; cbn [canon]; try (by destruct (str_of p2)).
    rewrite Ho. by destruct b1, b2.
  - destruct b as [n2|b2| | | | | |d2|[] p2]; try done; cbn [canon]; by destruct (str_of p2).
  - destruct b as [n2|b2| | | | | |d2|[] p2]; try done; cbn [canon]; by destruct (str_of p2).
  - destruct b as [n2|b2| | | | | |d2|[] p2]; try done; cbn [canon];
      rewrite ?Hn, ?number_same_value_zero_canon; try done.
    by destruct (str_of p2).
  - destruct t1; try done.
    + destruct b as [n2|b2| | | | | |d2|[] p2]; try done; cbn [canon];
        try (by destruct (str_of p2)).
      rewrite Ho. cbn. f_equal. apply eq_true_iff_eq. rewrite Z.eqb_eq, bool_decide_eq_true.
      split; [by intros ->|by intros [= ->]].
    + destruct Ha as [s1 E1]. rewrite E1.
      destruct b as [n2|b2| | | | | |d2|[] p2]; try done; cbn [canon].
      destruct Hb as [s2 E2]. rewrite E2.
      pose proof (js_string_compare_spec s1 s2) as H. rewrite wp_iff in H.
      destruct H as (c & -> & Hc). cbn [bind]. f_equal. apply eq_true_iff_eq.
      rewrite Z.eqb_eq, bool_decide_eq_true.
      rewrite <- Z.compare_eq_iff, Hc, lex_Eq. split; [by intros ->|by intros [= ->]].
    + destruct b as [n2|b2| | | | | |d2|[] p2]; try done; cbn [canon];
        try (by destruct (str_of p2)).
      rewrite Ho. cbn. f_equal. apply eq_true_iff_eq. rewrite Z.eqb_eq, bool_decide_eq_true.
      split; [by intros ->|by intros [= ->]].
Qed.

Lemma map_hash_key_total k : key_ok k -> exists h, map_hash_key k = Ret h /\ 0 <= h.
Proof.
  intros Hk.
  assert (H0 : forall x y, 0 <= x -> 0 <= Z.lxor x (u32 y)).
  { intros x y Hx. apply Z.lxor_nonneg. pose proof (u32_bound y). lia. }
  assert (Hf : forall d, 0 <= hash_float64 d) by (intros; apply u32_bound).
  destruct k as [n|b| | | | | |d|[] p]; try done;
    unfold map_hash_key; cbv beta iota zeta.
  - assert (E : (- 2 ^ 31 <=? n * 3163) && (n * 3163 <? 2 ^ 31) = true).
    { cbn in Hk. apply andb_true_intro. split; [apply Z.leb_le|apply Z.ltb_lt]; lia. }
    rewrite E. cbn [bind]. eexists. split; [done|]. by apply H0.
  - eexists. split; [done|]. apply H0. by destruct b.
  - eexists. split; [done|]. by apply H0.
  - eexists. split; [done|]. by apply H0.
  - eexists. split; [done|]. by apply H0.
  - eexists. split; [done|]. apply H0, u32_bound.
  - destruct Hk as [s Hs]. rewrite Hs. eexists. split; [done|]. apply H0.
    unfold Atoms.hash_string. assert (forall l h, 0 <= h -> 0 <= Atoms.hash_chars l h) as Hh.
    { intros l. induction l as [|c l IH]; intros h Hh; [done|]. cbn. apply IH, u32_bound. }
    by apply Hh.
  - eexists. split; [done|]. apply H0, u32_bound.
Qed.

Lemma f64_of_Z_int_inj n m : - 2 ^ 31 <= n < 2 ^ 31 -> - 2 ^ 31 <= m < 2 ^ 31 ->
  canon_number (f64_of_Z n) = canon_number (f64_of_Z m) -> n = m.
Proof.
  intros Hn Hm H. apply Z.eqb_eq. rewrite <- f64_eqb_int by lia.
  rewrite f64_eqb_canon; [by apply bool_decide_eq_true|..].
  - destruct (f64_of_int_cases n) as [->|(_ & x & -> & _)]; [lia|done|done].
  - destruct (f64_of_int_cases m) as [->|(_ & x & -> & _)]; [lia|done|done].
Qed.

(** Equal keys are in the same chain. *)
Lemma map_hash_key_canon a b : key_ok a -> key_ok b -> canon a = canon b ->
  map_hash_key a = map_hash_key b.
Proof.
  intros Ha Hb H.
  destruct a as [n1|b1| | | | | |d1|t1 p1]; try done;
    try (destruct b as [n2|b2| | | | | |d2|[] p2]; try done; cbn [canon] in H;
         try (by destruct (str_of p2)); by injection H as ->).
  - destruct b as [n2|b2| | | | | |d2|[] p2]; try done; cbn [canon] in H; try (by destruct (str_of p2)).
    + injection H as H. cbn in Ha, Hb. f_equal. f_equal. apply f64_of_Z_int_inj; [lia..|done].
    + injection H as H. exfalso. cbn in Ha. apply (Hb n1); [lia|done].
  - destruct b as [n2|b2| | | | | |d2|[] p2]; try done; cbn [canon] in H; try (by destruct (str_of p2)).
    + injection H as H. exfalso. cbn in Hb. apply (Ha n2); [lia|done].
    + injection H as H. f_equal. f_equal.
      assert (Hz : forall d, key_ok (JS_FLOAT64 d) -> canon_number d = d).
      { intros d Hd. destruct d as [s|s| |]; try done. exfalso. apply (Hd 0); [lia|done]. }
      by rewrite (Hz d1 Ha), (Hz d2 Hb) in H.
  - destruct t1; try done.
    + destruct b as [n2|b2| | | | | |d2|[] p2]; try done; cbn [canon] in H; try (by destruct (str_of p2)).
      by injection H as ->.
    + destruct Ha as [s1 E1]. destruct b as [n2|b2| | | | | |d2|[] p2]; try done;
        cbn [canon] in H; rewrite E1 in H; try done.
      destruct Hb as [s2 E2]. rewrite E2 in H. injection H as H.
      unfold map_hash_key. cbv beta iota zeta. rewrite E1, E2. unfold Atoms.hash_string.
      by rewrite H.
    + destruct b as [n2|b2| | | | | |d2|[] p2]; try done; cbn [canon] in H; try (by destruct (str_of p2)).
      by injection H as ->.
Qed.
End keys.
