(* ===== verification/MapRel.v ===== *)
(** * The collections of the language and their representation

    The language describes a collection as the list of its entries, a deleted
    entry being left empty; an iterator is an index in this list.  The
    relation of this file between the records and the entries gives each
    record its index: the records of the deleted entries that no iterator is
    at are gone, the others are the empty records. *)

From stdpp Require Import base tactics numbers list option sorting gmap fin_maps.
From Stdlib Require Import ZArith Lia.
From S2P Require Import Prelude Values MapSet MapKeySpec.

Open Scope Z_scope.

Section rel.
Context {me : MapEngine}.

(** ** Entries *)

Abbreviation entries := (list (option (JSValue * JSValue))).

Definition live (l : entries) : Z := Z.of_nat (length (omap id l)).

Lemma live_app l1 l2 : live (l1 ++ l2) = live l1 + live l2.
Proof. unfold live. rewrite omap_app, length_app. lia. Qed.

Lemma live_cons x l : live (x :: l) = live [x] + live l.
Proof. apply (live_app [x] l). Qed.

Lemma live_update (l : entries) i (x y : option (JSValue * JSValue)) : l !! i = Some x ->
  live (<[i := y]> l) = live l - live [x] + live [y].
Proof.
  intros H. assert (Hi : (i < length l)%nat) by by eapply lookup_lt_Some.
  rewrite insert_take_drop by done. rewrite <- (take_drop_middle l i x H) at 3.
  rewrite !live_app, (live_cons y), (live_cons x). lia.
Qed.

(** ** Records *)

Definition entry_of (r : JSMapRecord) : option (JSValue * JSValue) :=
  if empty r then None else Some (mr_key r, mr_value r).

(** The chain of a key in a table of size [n]. *)
Definition slot (n : Z) (k : JSValue) : option nat :=
  match map_hash_key k with
  | Ret h => Some (Z.to_nat (Z.land h (u32 (n - 1))))
  | _ => None
  end.

(** A chain has the records of its keys that are not deleted. *)
Definition table_ok (rs : gmap Z JSMapRecord) (R : list Z) (t : list (list Z)) (n : Z) : Prop :=
  forall h c, t !! h = Some c -> NoDup c /\ forall a, a ∈ c <->
    a ∈ R /\ exists r, rs !! a = Some r /\ empty r = false /\ slot n (mr_key r) = Some h.

(** A traversal in progress, that of [js_map_forEach], is at a record of a
    collection, which has an index. *)
Record hold := mkHold { h_rec : Z; h_map : Z; h_pos : nat }.

Definition held_ok (rs : gmap Z JSMapRecord) (pos : Z -> nat) (held : list hold) : Prop :=
  forall h, h ∈ held -> exists r, rs !! h_rec h = Some r /\ mr_map r = h_map h
    /\ pos (h_rec h) = h_pos h.

(** The locks on a record are the iterators at it and the traversals in
    progress. *)
Definition lock_on (a x : Z) : Z := if decide (x = a) then 1 else 0.

Definition locks (its : gmap Z (Z * JSMapIteratorData)) (held : list hold) (a : Z) : Z :=
  msum (fun mi => lock_on a (cur_record mi.2)) its
  + foldr (fun x n => lock_on a (h_rec x) + n) 0 held.

(** The reference count of a record: one for the collection, one for each
    lock. *)
Definition count_ok (lk : Z -> Z) (a : Z) (r : JSMapRecord) : Prop :=
  mr_ref_count r = (if empty r then 0 else 1) + lk a /\ (empty r = true -> 0 < lk a).

Record map_rel (rs : gmap Z JSMapRecord) (lk : Z -> Z) (pos : Z -> nat) (p : Z)
    (s : JSMapState) (l : entries) : Prop := {
  rl_weak : is_weak s = false;
  rl_sorted : StronglySorted (fun a b => (pos a < pos b)%nat) (records s);
  rl_rec : forall a, a ∈ records s -> exists r, rs !! a = Some r /\ mr_map r = p
    /\ l !! pos a = Some (entry_of r) /\ count_ok lk a r /\ 0 < a;
  rl_owned : forall a r, rs !! a = Some r -> mr_map r = p -> a ∈ records s;
  rl_entry : forall i kv, l !! i = Some (Some kv) ->
    key_ok kv.1 /\ exists a, a ∈ records s /\ pos a = i;
  rl_keys : forall i j kv kv', l !! i = Some (Some kv) -> l !! j = Some (Some kv') ->
    canon kv.1 = canon kv'.1 -> i = j;
  rl_size : 1 <= hash_size s < 2 ^ 30 /\ hash_size s = Z.of_nat (length (hash_table s));
  rl_chains : table_ok rs (records s) (hash_table s) (hash_size s);
  rl_count : record_count s = u32 (live l)
}.

(** ** The state *)

Inductive aiter := AIter (magic : Z) (kind : JSIteratorKindEnum) (at_ : option (Z * nat)).

Record astate := mkA {
  a_maps : gmap Z (Z * entries);
  a_iters : gmap Z aiter
}.

Definition iter_rel (st : map_st) (pos : Z -> nat) (m : Z) (it : JSMapIteratorData)
    (x : option (Z * nat)) : Prop :=
  match x with
  | None => it_obj it = JS_UNDEFINED /\ cur_record it = 0
  | Some (p, i) =>
      it_obj it = JS_MKPTR PTR_OBJECT p /\ (exists s, maps st !! p = Some (m, s))
      /\ ((cur_record it = 0 /\ i = 0%nat)
          \/ (exists r, recs st !! cur_record it = Some r /\ mr_map r = p)
             /\ i = S (pos (cur_record it)))
  end.

Record st_rel (st : map_st) (A : astate) (held : list hold) (pos : Z -> nat) : Prop := {
  sr_maps : forall p, match maps st !! p, a_maps A !! p with
    | Some (m, s), Some (m', l) =>
        m = m' /\ map_rel (recs st) (locks (iters st) held) pos p s l
    | None, None => True
    | _, _ => False
    end;
  sr_recs : forall a r, recs st !! a = Some r -> is_Some (maps st !! mr_map r);
  sr_iters : forall o, match iters st !! o, a_iters A !! o with
    | Some (m, it), Some (AIter m' kind x) =>
        m = m' /\ kind = it_kind it /\ iter_rel st pos m it x
    | None, None => True
    | _, _ => False
    end;
  sr_held : held_ok (recs st) pos held
}.

(** ** Locks *)

Lemma lock_on_nonneg a x : 0 <= lock_on a x.
Proof. unfold lock_on. by case_decide. Qed.

Lemma locks_nonneg its held a : 0 <= locks its held a.
Proof.
  unfold locks. pose proof (msum_nonneg (fun mi : Z * JSMapIteratorData =>
    lock_on a (cur_record mi.2)) its (fun x => lock_on_nonneg a _)).
  assert (0 <= foldr (fun x n => lock_on a (h_rec x) + n) 0 held); [|lia].
  induction held as [|x held IH]; [done|]. cbn. pose proof (lock_on_nonneg a (h_rec x)). lia.
Qed.

Lemma locks_cons its held x a : locks its (x :: held) a = lock_on a (h_rec x) + locks its held a.
Proof. unfold locks. cbn. lia. Qed.

Lemma locks_iter its held o m it a :
  its !! o = Some (m, it) -> cur_record it = a -> 0 < locks its held a.
Proof.
  intros Ho Hc. unfold locks.
  pose proof (msum_elem (fun mi : Z * JSMapIteratorData => lock_on a (cur_record mi.2))
    its o (m, it) (fun x => lock_on_nonneg a _) Ho) as H.
  cbn [snd] in H. unfold lock_on in H at 1. rewrite Hc, decide_True in H by done.
  assert (0 <= foldr (fun x n => lock_on a (h_rec x) + n) 0 held); [|lia].
  clear. induction held as [|x held IH]; [done|]. cbn. pose proof (lock_on_nonneg a (h_rec x)). lia.
Qed.

Lemma locks_held its held h : h ∈ held -> 0 < locks its held (h_rec h).
Proof.
  intros H. induction held as [|x held IH]; [by apply elem_of_nil in H|].
  rewrite locks_cons. pose proof (locks_nonneg its held (h_rec h)).
  pose proof (lock_on_nonneg (h_rec h) (h_rec x)). apply elem_of_cons in H as [<-|H].
  - unfold lock_on. rewrite decide_True by done. lia.
  - specialize (IH H). lia.
Qed.

Lemma locks_iters_update its held o m it m' it' a :
  its !! o = Some (m, it) ->
  locks (<[o := (m', it')]> its) held a
  = locks its held a - lock_on a (cur_record it) + lock_on a (cur_record it').
Proof. intros H. unfold locks. rewrite (msum_update _ _ _ _ _ H). cbn. lia. Qed.

Lemma locks_iters_insert its held o m it a :
  its !! o = None ->
  locks (<[o := (m, it)]> its) held a = locks its held a + lock_on a (cur_record it).
Proof. intros H. unfold locks. rewrite msum_insert by done. cbn. lia. Qed.

Lemma locks_iters_delete its held o m it a :
  its !! o = Some (m, it) ->
  locks (delete o its) held a = locks its held a - lock_on a (cur_record it).
Proof. intros H. unfold locks. rewrite (msum_delete _ _ _ _ H). cbn. lia. Qed.

Lemma lock_on_eq a : lock_on a a = 1.
Proof. unfold lock_on. by rewrite decide_True. Qed.
Lemma lock_on_ne a b : a <> b -> lock_on a b = 0.
Proof. intros. unfold lock_on. by rewrite decide_False. Qed.

(** ** Traversals in progress *)

Lemma held_ok_insert rs pos held a r r' :
  held_ok rs pos held -> rs !! a = Some r -> mr_map r' = mr_map r ->
  held_ok (<[a := r']> rs) pos held.
Proof.
  intros H Ha Hm h Hh. destruct (H h Hh) as (rh & Hr & Hp & Hi).
  destruct (decide (h_rec h = a)) as [E|Hne].
  - rewrite E in *. rewrite lookup_insert_eq. exists r'. split_and!; try done. congruence.
  - rewrite lookup_insert_ne by done. by exists rh.
Qed.

Lemma held_ok_fresh rs pos pos' held a r :
  held_ok rs pos held -> rs !! a = None -> (forall b, b <> a -> pos' b = pos b) ->
  held_ok (<[a := r]> rs) pos' held.
Proof.
  intros H Ha Hpos h Hh. destruct (H h Hh) as (rh & Hr & Hp & Hi).
  assert (h_rec h <> a) by (intros E; rewrite E in Hr; congruence).
  rewrite lookup_insert_ne, Hpos by done. by exists rh.
Qed.

Lemma held_ok_delete rs pos held a :
  held_ok rs pos held -> (forall h, h ∈ held -> h_rec h <> a) -> held_ok (delete a rs) pos held.
Proof.
  intros H Ha h Hh. rewrite lookup_delete_ne; [by apply H|]. intros E. by apply (Ha h Hh).
Qed.

Lemma held_ok_cons rs pos held a r :
  held_ok rs pos held -> rs !! a = Some r ->
  held_ok rs pos (mkHold a (mr_map r) (pos a) :: held).
Proof. intros H Ha h [->|Hh]%elem_of_cons; [by exists r|by apply H]. Qed.

Lemma held_ok_tail rs pos h held : held_ok rs pos (h :: held) -> held_ok rs pos held.
Proof. intros H x Hx. apply H. by right. Qed.

(** ** Chains *)

Lemma land_le a b : 0 <= b -> Z.land a b <= b.
Proof.
  intros Hb. assert (H0 : Z.land (Z.ldiff b a) (Z.land a b) = 0).
  { apply Z.bits_inj'. intros n _. rewrite !Z.land_spec, Z.ldiff_spec, Z.bits_0.
    by destruct (Z.testbit a n), (Z.testbit b n). }
  assert (H : Z.ldiff b a + Z.land a b = b).
  { rewrite Z.add_nocarry_lxor, Z.lxor_lor by done.
    by rewrite Z.land_comm, Z.lor_ldiff_and. }
  assert (0 <= Z.ldiff b a) by (apply Z.ldiff_nonneg; by left). lia.
Qed.

Lemma slot_total n k : key_ok k -> 1 <= n < 2 ^ 30 ->
  exists h, slot n k = Some h /\ (h < Z.to_nat n)%nat.
Proof.
  intros Hk Hn. destruct (map_hash_key_total k Hk) as (h & Hh & H0).
  unfold slot. rewrite Hh. eexists. split; [done|].
  rewrite u32_id by lia.
  pose proof (land_le h (n - 1) ltac:(lia)).
  assert (0 <= Z.land h (n - 1)) by (apply Z.land_nonneg; lia). lia.
Qed.

Lemma slot_canon n k k' : key_ok k -> key_ok k' -> canon k = canon k' -> slot n k = slot n k'.
Proof. intros. unfold slot. by rewrite (map_hash_key_canon k k'). Qed.

(** The records may change in what the chains do not depend on. *)
Lemma table_ok_ext rs rs' R t n :
  table_ok rs R t n ->
  (forall a, a ∈ R ->
     (fun r => (empty r, mr_key r)) <$> rs' !! a = (fun r => (empty r, mr_key r)) <$> rs !! a) ->
  table_ok rs' R t n.
Proof.
  intros Ht He h c Hc. destruct (Ht h c Hc) as [Hnd Hin]. split; [done|].
  intros a. rewrite Hin. split; intros [HR (r & Hr & Hem & Hs)]; (split; [done|]);
    specialize (He a HR).
  - rewrite Hr in He. apply fmap_Some in He as (r' & Hr' & E). injection E as E1 E2.
    exists r'. rewrite <- E1, <- E2. done.
  - rewrite Hr in He. symmetry in He. apply fmap_Some in He as (r' & Hr' & E).
    injection E as E1 E2. exists r'. rewrite <- E1, <- E2. done.
Qed.

(** Removing a record that no chain has. *)
Lemma table_ok_drop rs R t n a r :
  table_ok rs R t n -> rs !! a = Some r -> empty r = true ->
  table_ok (delete a rs) (filter (fun y => y <> a) R) t n.
Proof.
  intros Ht Ha He h c Hc. destruct (Ht h c Hc) as [Hnd Hin]. split; [done|].
  intros b. rewrite Hin, list_elem_of_filter.
  split.
  - intros (HR & r' & Hr' & Hem & Hs). assert (b <> a) by (intros ->; congruence).
    split; [done|]. exists r'. by rewrite lookup_delete_ne by done.
  - intros ([Hne HR] & r' & Hr' & Hem & Hs). rewrite lookup_delete_ne in Hr' by done.
    split; [done|]. by exists r'.
Qed.

(** Removing a record from its chain: it is then empty, or not in the list
    any more. *)
Lemma table_ok_unchain rs rs' R R' t n a :
  table_ok rs R t n ->
  (forall b, b <> a -> rs' !! b = rs !! b) ->
  (forall b, b <> a -> b ∈ R' <-> b ∈ R) ->
  (a ∈ R' -> exists r, rs' !! a = Some r /\ empty r = true) ->
  table_ok rs' R' (filter (fun y => y <> a) <$> t) n.
Proof.
  intros Ht Hrs HR Ha h c Hc. apply list_lookup_fmap_Some in Hc as (c0 & -> & Hc0).
  destruct (Ht h c0 Hc0) as [Hnd Hin]. split; [by apply NoDup_filter|].
  intros b. rewrite list_elem_of_filter, Hin. destruct (decide (b = a)) as [->|Hne].
  - split; [by intros [? _]|]. intros (HaR & r & Hr & He & _).
    destruct (Ha HaR) as (r' & Hr' & He'). congruence.
  - rewrite HR, Hrs by done. tauto.
Qed.

Lemma chain_of rs R t n a r h :
  table_ok rs R t n -> Z.of_nat (length t) = n -> 1 <= n < 2 ^ 30 -> key_ok (mr_key r) ->
  a ∈ R -> rs !! a = Some r -> empty r = false -> slot n (mr_key r) = Some h ->
  exists c, t !! h = Some c /\ a ∈ c.
Proof.
  intros Ht Hlen Hn Hk HR Hr He Hs.
  destruct (slot_total n _ Hk Hn) as (h' & Hh' & Hlt). rewrite Hs in Hh'. injection Hh' as <-.
  destruct (lookup_lt_is_Some_2 t h) as [c Hc]; [lia|]. exists c. split; [done|].
  apply (Ht h c Hc). split; [done|]. by exists r.
Qed.
End rel.

(** ** Records: search, insertion, deletion, locks

    What each operation on the records of a collection does to its
    entries. *)

Lemma sorted_filter {A} (R : relation A) (P : A -> Prop) `{forall x, Decision (P x)} l :
  StronglySorted R l -> StronglySorted R (filter P l).
Proof.
  induction 1 as [|x l Hs IH Hf]; [constructor|]. rewrite filter_cons.
  case_decide; [|done]. constructor; [done|]. rewrite Forall_forall in *.
  intros y [_ Hy]%list_elem_of_filter. by apply Hf.
Qed.

Lemma sorted_snoc {A} (R : relation A) l a :
  StronglySorted R l -> (forall x, x ∈ l -> R x a) -> StronglySorted R (l ++ [a]).
Proof.
  induction 1 as [|x l Hs IH Hf]; intros Ha; cbn [app].
  - by repeat constructor.
  - constructor.
    + apply IH. intros y Hy. apply Ha. by right.
    + rewrite Forall_forall in *. intros y [Hy|Hy]%elem_of_app; [by apply Hf|].
      apply list_elem_of_singleton in Hy as ->. apply Ha. by left.
Qed.

Lemma sorted_NoDup {A} (f : A -> nat) l :
  StronglySorted (fun a b => (f a < f b)%nat) l -> NoDup l.
Proof.
  induction 1 as [|x l Hs IH Hf]; constructor; [|done]. intros Hx.
  rewrite Forall_forall in Hf. specialize (Hf x Hx). lia.
Qed.

Section records.
Context {me : MapEngine}.

Section one.
Context (rs : gmap Z JSMapRecord) (lk : Z -> Z) (pos : Z -> nat) (p : Z).
Context (s : JSMapState) (l : list (option (JSValue * JSValue))).
Context (Hrel : map_rel rs lk pos p s l).

Lemma rel_NoDup : NoDup (records s).
Proof. eapply sorted_NoDup, (rl_sorted _ _ _ _ _ _ Hrel). Qed.

Lemma pos_inj a b : a ∈ records s -> b ∈ records s -> pos a = pos b -> a = b.
Proof.
  intros Ha Hb E. pose proof (rl_sorted _ _ _ _ _ _ Hrel) as Hs.
  induction Hs as [|x R Hs IH Hf]; [by apply elem_of_nil in Ha|].
  rewrite Forall_forall in Hf.
  apply elem_of_cons in Ha as [->|Ha], Hb as [->|Hb]; auto.
  - specialize (Hf b Hb). lia.
  - specialize (Hf a Ha). lia.
Qed.

(** A record of the collection that is not deleted. *)
Lemma rel_live a r : rs !! a = Some r -> mr_map r = p -> empty r = false ->
  a ∈ records s /\ l !! pos a = Some (Some (mr_key r, mr_value r)) /\ key_ok (mr_key r).
Proof.
  intros Ha Hm He. pose proof (rl_owned _ _ _ _ _ _ Hrel a r Ha Hm) as HR.
  destruct (rl_rec _ _ _ _ _ _ Hrel a HR) as (r' & Ha' & _ & Hl & _).
  rewrite Ha in Ha'. injection Ha' as <-. unfold entry_of in Hl. rewrite He in Hl.
  destruct (rl_entry _ _ _ _ _ _ Hrel _ _ Hl) as [Hk _]. done.
Qed.

(** ** The search *)

Definition found (k : JSValue) (o : option Z) : Prop :=
  match o with
  | Some a => exists r, rs !! a = Some r /\ mr_map r = p /\ empty r = false
      /\ canon (mr_key r) = canon k /\ 0 < a
  | None => forall i kv, l !! i = Some (Some kv) -> canon kv.1 <> canon k
  end.

Lemma find_in_chain_spec st k c :
  recs st = rs -> key_ok k ->
  (forall a, a ∈ c -> exists r, rs !! a = Some r /\ mr_map r = p /\ empty r = false /\ key_ok (mr_key r) /\ 0 < a) ->
  wp (find_in_chain st c k) (fun o =>
    match o with
    | Some a => exists r, a ∈ c /\ rs !! a = Some r /\ canon (mr_key r) = canon k
    | None => forall a r, a ∈ c -> rs !! a = Some r -> canon (mr_key r) <> canon k
    end).
Proof.
  intros Hst Hk. induction c as [|a c IH]; intros Hc; cbn [find_in_chain].
  { apply wp_ret. intros a r Ha. by apply elem_of_nil in Ha. }
  destruct (Hc a) as (r & Hr & _ & _ & Hkr & _); [by left|].
  unfold get_rec. rewrite Hst, Hr. cbn [bind].
  rewrite (js_same_value_zero_spec _ _ Hkr Hk). cbn [bind].
  case_bool_decide as He.
  - apply wp_ret. exists r. split_and!; [by left|done..].
  - eapply wp_mono; [apply IH; intros b Hb; apply Hc; by right|].
    intros [b|]; [intros (r' & Hb & H)|intros Hn b r' Hb Hr'].
    + exists r'. split; [by right|done].
    + apply elem_of_cons in Hb as [->|Hb]; [congruence|by eapply Hn].
Qed.

Lemma map_find_record_spec st k : recs st = rs -> key_ok k ->
  wp (map_find_record st s k) (found k).
Proof.
  intros Hst Hk. unfold map_find_record.
  destruct (rl_size _ _ _ _ _ _ Hrel) as [Hn Hlen].
  destruct (slot_total (hash_size s) k Hk Hn) as (h & Hh & Hlt).
  unfold slot in Hh. destruct (map_hash_key k) as [hk| |] eqn:Ehk; try done.
  injection Hh as Hh. cbn [bind].
  destruct (map_hash_key_total k Hk) as (hk' & E & Hpos). rewrite Ehk in E. injection E as <-.
  assert (0 <= Z.land hk (u32 (hash_size s - 1))) by (apply Z.land_nonneg; lia).
  apply wp_bind, wp_rd; [lia|]. intros c Hc. rewrite Hh in Hc.
  destruct (rl_chains _ _ _ _ _ _ Hrel h c Hc) as [_ Hin].
  assert (Hcr : forall a, a ∈ c -> exists r, rs !! a = Some r /\ mr_map r = p
      /\ empty r = false /\ key_ok (mr_key r) /\ 0 < a).
  { intros a (HR & r & Hr & He & _)%Hin.
    destruct (rl_rec _ _ _ _ _ _ Hrel a HR) as (r' & Hr' & Hm & _ & _ & Ha).
    rewrite Hr in Hr'. injection Hr' as <-.
    destruct (rel_live a r Hr Hm He) as (_ & _ & Hk'). by exists r. }
  eapply wp_mono; [by apply (find_in_chain_spec st k c Hst Hk Hcr)|].
  intros [a|]; cbn.
  - intros (r & Ha & Hr & E). destruct (Hcr a Ha) as (r' & Hr' & Hm & He & _ & H0).
    rewrite Hr in Hr'. injection Hr' as <-. by exists r.
  - intros Hnone i kv Hi Ekv. destruct (rl_entry _ _ _ _ _ _ Hrel i kv Hi) as (Hkk & a & HR & <-).
    destruct (rl_rec _ _ _ _ _ _ Hrel a HR) as (r & Hr & Hm & Hl & _).
    rewrite Hi in Hl. injection Hl as Hl. unfold entry_of in Hl.
    destruct (empty r) eqn:He; [done|]. injection Hl as ->. cbn [fst] in *.
    apply (Hnone a r); [|done..]. apply Hin. split; [done|]. exists r. split_and!; [done..|].
    rewrite (slot_canon _ _ k) by done. unfold slot. by rewrite Ehk, Hh.
Qed.

(** ** Changes of one record *)

Section upd.
Context (a : Z) (r : JSMapRecord).
Hypothesis Ha : rs !! a = Some r.
Hypothesis Hp : mr_map r = p.

Lemma upd_in : a ∈ records s.
Proof. by eapply (rl_owned _ _ _ _ _ _ Hrel). Qed.

Lemma upd_ok : l !! pos a = Some (entry_of r) /\ count_ok lk a r /\ 0 < a.
Proof.
  destruct (rl_rec _ _ _ _ _ _ Hrel a upd_in) as (r' & Hr' & _ & H).
  rewrite Ha in Hr'. by injection Hr' as <-.
Qed.

(** The value of an entry. *)
Lemma map_rel_value v : empty r = false ->
  map_rel (<[a := mkRecord (mr_ref_count r) (empty r) (mr_map r) (next_weak_ref r)
                    (mr_key r) v]> rs) lk pos p s (<[pos a := Some (mr_key r, v)]> l).
Proof.
  intros He. destruct upd_ok as (Hl & Hc & H0). unfold entry_of in Hl. rewrite He in Hl.
  assert (Hlen : (pos a < length l)%nat) by by eapply lookup_lt_Some.
  assert (Hkey : forall i kv, <[pos a := Some (mr_key r, v)]> l !! i = Some (Some kv) ->
    exists kv0, l !! i = Some (Some kv0) /\ kv0.1 = kv.1).
  { intros i kv Hi. destruct (decide (i = pos a)) as [->|Hne].
    - rewrite list_lookup_insert_eq in Hi by done. injection Hi as <-. by eexists.
    - rewrite list_lookup_insert_ne in Hi by done. by exists kv. }
  destruct Hrel as [R1 R2 R3 R4 R5 R6 R7 R8 R9]. split; [done|done|..|done| |].
  - intros b Hb. destruct (decide (b = a)) as [->|Hne].
    + rewrite lookup_insert_eq, list_lookup_insert_eq by done.
      eexists. split; [done|]. cbn. unfold entry_of, count_ok in *. cbn. rewrite He in *. done.
    + rewrite lookup_insert_ne by done. destruct (R3 b Hb) as (r' & Hr' & Hm & Hlb & H).
      exists r'. split_and!; [done..| |tauto|tauto].
      rewrite list_lookup_insert_ne; [done|]. intros E. apply Hne. symmetry.
      by apply pos_inj; [apply upd_in| |].
  - intros b r'. destruct (decide (b = a)) as [->|Hne].
    + intros _ _. apply upd_in.
    + rewrite lookup_insert_ne by done. apply R4.
  - intros i kv Hi. destruct (Hkey i kv Hi) as (kv0 & Hi0 & E). rewrite <- E. by eapply R5.
  - intros i j kv kv' Hi Hj. destruct (Hkey i kv Hi) as (kv0 & Hi0 & <-).
    destruct (Hkey j kv' Hj) as (kv1 & Hj0 & <-). by eapply R6.
  - eapply table_ok_ext; [exact R8|]. intros b Hb. destruct (decide (b = a)) as [->|Hne].
    + by rewrite lookup_insert_eq, Ha.
    + by rewrite lookup_insert_ne.
  - rewrite (live_update _ _ _ _ Hl). rewrite R9. unfold live. cbn. f_equal. lia.
Qed.

(** The number of locks. *)
Lemma map_rel_lock lk' n : (forall b, b <> a -> lk' b = lk b) ->
  n = (if empty r then 0 else 1) + lk' a -> (empty r = true -> 0 < lk' a) ->
  map_rel (<[a := mkRecord n (empty r) (mr_map r) (next_weak_ref r)
                    (mr_key r) (mr_value r)]> rs) lk' pos p s l.
Proof.
  intros Hlk Hn Hz. destruct upd_ok as (Hl & Hc & H0).
  destruct Hrel as [R1 R2 R3 R4 R5 R6 R7 R8 R9]. split; [done|done| | |done|done|done| |done].
  - intros b Hb. destruct (decide (b = a)) as [->|Hne].
    + rewrite lookup_insert_eq. eexists. split; [done|]. by unfold entry_of, count_ok in *.
    + rewrite lookup_insert_ne by done. destruct (R3 b Hb) as (r' & Hr' & Hm & Hlb & Hcb & Hb0).
      exists r'. split_and!; try done; unfold count_ok in *; rewrite Hlk by done; apply Hcb.
  - intros b r'. destruct (decide (b = a)) as [->|Hne].
    + intros _ _. apply upd_in.
    + rewrite lookup_insert_ne by done. apply R4.
  - eapply table_ok_ext; [exact R8|]. intros b Hb. destruct (decide (b = a)) as [->|Hne].
    + by rewrite lookup_insert_eq, Ha.
    + by rewrite lookup_insert_ne.
Qed.

Definition with_list (R : list Z) (n : Z) (t : list (list Z)) : JSMapState :=
  mkMap false R n t (hash_size s) (record_count_threshold s).

Lemma in_filter_ne (b : Z) (R : list Z) : b ∈ filter (fun y => y <> a) R <-> b <> a /\ b ∈ R.
Proof. by rewrite list_elem_of_filter. Qed.

(** The last lock of a deleted record. *)
Lemma map_rel_free lk' : empty r = true -> (forall b, b <> a -> lk' b = lk b) ->
  map_rel (delete a rs) lk' pos p
    (with_list (filter (fun y => y <> a) (records s)) (record_count s) (hash_table s)) l.
Proof.
  intros He Hlk. destruct upd_ok as (Hl & _ & _). unfold entry_of in Hl. rewrite He in Hl.
  destruct Hrel as [R1 R2 R3 R4 R5 R6 R7 R8 R9]. split; cbn; try done.
  - by apply sorted_filter.
  - intros b [Hne Hb]%in_filter_ne. rewrite lookup_delete_ne by done.
    destruct (R3 b Hb) as (r' & Hr' & Hm & Hlb & Hcb & Hb0).
    exists r'. split_and!; try done; unfold count_ok in *; rewrite Hlk by done; apply Hcb.
  - intros b r' [Hne Hr']%lookup_delete_Some Hm. apply in_filter_ne.
    split; [done|]. by eapply R4.
  - intros i kv Hi. destruct (R5 i kv Hi) as (Hk & b & Hb & E). split; [done|].
    exists b. split; [|done]. apply in_filter_ne. split; [|done]. intros ->. congruence.
  - by eapply table_ok_drop.
Qed.

(** The deletion of an entry: its record stays, empty, when it is locked. *)
Lemma delete_common rs' R' :
  empty r = false ->
  (forall b, b <> a -> rs' !! b = rs !! b) ->
  (forall b, b <> a -> b ∈ R' <-> b ∈ records s) ->
  StronglySorted (fun b c => (pos b < pos c)%nat) R' ->
  (forall r', rs' !! a = Some r' -> a ∈ R' /\ mr_map r' = p /\ empty r' = true /\ count_ok lk a r') ->
  (a ∈ R' -> is_Some (rs' !! a)) ->
  map_rel rs' lk pos p
    (with_list R' (u32 (record_count s - 1)) (filter (fun y => y <> a) <$> hash_table s))
    (<[pos a := None]> l).
Proof.
  intros He Hrs HR Hsort Ha' Hz. destruct upd_ok as (Hl & _ & H0).
  unfold entry_of in Hl. rewrite He in Hl.
  assert (Hlen : (pos a < length l)%nat) by by eapply lookup_lt_Some.
  assert (Hkey : forall i kv, <[pos a := None]> l !! i = Some (Some kv) ->
    i <> pos a /\ l !! i = Some (Some kv)).
  { intros i kv Hi. destruct (decide (i = pos a)) as [->|Hne].
    - by rewrite list_lookup_insert_eq in Hi by done.
    - by rewrite list_lookup_insert_ne in Hi by done. }
  pose proof upd_in as Hina.
  destruct Hrel as [R1 R2 R3 R4 R5 R6 R7 R8 R9]. split; cbn; try done.
  - intros b Hb. destruct (decide (b = a)) as [->|Hne].
    + destruct (Hz Hb) as [r' Hr']. destruct (Ha' r' Hr') as (_ & Hm & He' & Hc').
      exists r'. split_and!; try done; [|apply Hc'..].
      rewrite list_lookup_insert_eq by done. unfold entry_of. by rewrite He'.
    + rewrite Hrs by done. apply HR in Hb as Hb'; [|done].
      destruct (R3 b Hb') as (r' & Hr' & Hm & Hlb & Hcb & Hb0).
      exists r'. split_and!; try done; [|apply Hcb..].
      rewrite list_lookup_insert_ne; [done|]. intros E. apply Hne. symmetry.
      by apply pos_inj.
  - intros b r' Hr' Hm. destruct (decide (b = a)) as [->|Hne].
    + by apply (Ha' r').
    + rewrite Hrs in Hr' by done. apply HR; [done|]. by eapply R4.
  - intros i kv Hi. destruct (Hkey i kv Hi) as [Hi' Hi0].
    destruct (R5 i kv Hi0) as (Hk & b & Hb & E). split; [done|].
    exists b. split; [|done]. apply HR; [|done]. by intros ->.
  - intros i j kv kv' Hi Hj. apply (R6 i j kv kv'); [by apply Hkey|by apply Hkey].
  - by rewrite length_fmap.
  - apply (table_ok_unchain rs rs' (records s) R'); [done..|].
    intros HaR. destruct (Hz HaR) as [r' Hr']. exists r'. split; [done|]. by apply Ha'.
  - rewrite (live_update _ _ _ _ Hl), R9. unfold live. cbn. unfold u32.
    rewrite Zminus_mod_idemp_l. f_equal. lia.
Qed.

Lemma map_rel_delete_zombie : empty r = false -> 0 < lk a ->
  map_rel (<[a := mkRecord (mr_ref_count r - 1) true (mr_map r) (next_weak_ref r)
                    JS_UNDEFINED JS_UNDEFINED]> rs) lk pos p
    (with_list (records s) (u32 (record_count s - 1))
       (filter (fun y => y <> a) <$> hash_table s)) (<[pos a := None]> l).
Proof.
  intros He Hz. destruct upd_ok as (_ & [Hc _] & _). rewrite He in Hc. apply delete_common; try done.
  - intros b Hb. by rewrite lookup_insert_ne.
  - apply (rl_sorted _ _ _ _ _ _ Hrel).
  - intros r'. rewrite lookup_insert_eq. intros [= <-]. split_and!; [apply upd_in|done|done|].
    split; cbn; [lia|done].
  - intros _. by rewrite lookup_insert_eq.
Qed.

Lemma map_rel_delete_free : empty r = false ->
  map_rel (delete a rs) lk pos p
    (with_list (filter (fun y => y <> a) (records s)) (u32 (record_count s - 1))
       (filter (fun y => y <> a) <$> hash_table s)) (<[pos a := None]> l).
Proof.
  intros He. apply delete_common; try done.
  - intros b Hb. by rewrite lookup_delete_ne.
  - intros b Hb. rewrite in_filter_ne. tauto.
  - apply sorted_filter, (rl_sorted _ _ _ _ _ _ Hrel).
  - intros r'. by rewrite lookup_delete_eq.
  - intros [? _]%in_filter_ne. done.
Qed.
End upd.

(** ** A new record *)

Lemma map_rel_add a k t' :
  rs !! a = None -> 0 < a -> lk a = 0 -> key_ok k ->
  (forall i kv, l !! i = Some (Some kv) -> canon kv.1 <> canon k) ->
  let r := mkRecord 1 false p 0 k JS_UNDEFINED in
  let rs' := <[a := r]> rs in
  table_ok rs' (records s ++ [a]) t' (hash_size s) -> length t' = length (hash_table s) ->
  map_rel rs' lk (fun b => if decide (b = a) then length l else pos b) p
    (mkMap false (records s ++ [a]) (u32 (record_count s + 1)) t' (hash_size s)
       (record_count_threshold s)) (l ++ [Some (k, JS_UNDEFINED)]).
Proof.
  intros Ha H0 Hlk Hk Hnew r rs' Ht' Hlen.
  assert (HaR : forall b, b ∈ records s -> b <> a).
  { intros b Hb ->. destruct (rl_rec _ _ _ _ _ _ Hrel a Hb) as (r' & Hr' & _). congruence. }
  assert (Hbound : forall b, b ∈ records s -> (pos b < length l)%nat).
  { intros b Hb. destruct (rl_rec _ _ _ _ _ _ Hrel b Hb) as (r' & _ & _ & Hl & _).
    by eapply lookup_lt_Some. }
  assert (Hsnoc : forall i kv, (l ++ [Some (k, JS_UNDEFINED)]) !! i = Some (Some kv) ->
    l !! i = Some (Some kv) \/ (i = length l /\ kv = (k, JS_UNDEFINED))).
  { intros i kv Hi. apply lookup_app_Some in Hi as [Hi|[Hge Hi]]; [by left|right].
    destruct (i - length l)%nat eqn:E; [|done]. injection Hi as <-. split; [lia|done]. }
  destruct Hrel as [R1 R2 R3 R4 R5 R6 R7 R8 R9]. split; cbn; try done.
  - apply sorted_snoc.
    + clear -R2 HaR. induction R2 as [|x R Hs IH Hf]; constructor.
      { apply IH. intros b Hb. apply HaR. by right. }
      rewrite Forall_forall in *. intros b Hb. rewrite !decide_False; [by apply Hf|..];
        apply HaR; [by right|by left].
    + intros b Hb. rewrite decide_False by auto. rewrite decide_True by done. auto.
  - intros b [Hb|Hb]%elem_of_app.
    + rewrite decide_False by auto. destruct (R3 b Hb) as (r' & Hr' & Hm & Hl & Hc & Hb0).
      exists r'. unfold rs'. rewrite lookup_insert_ne by (intros <-; by apply (HaR a)).
      split_and!; try done; [|apply Hc..]. by rewrite lookup_app_l by auto.
    + apply list_elem_of_singleton in Hb as ->. rewrite decide_True by done.
      exists r. unfold rs'. rewrite lookup_insert_eq. split_and!; try done.
      * rewrite lookup_app_r by lia. by rewrite Nat.sub_diag.
      * split; cbn; [lia|done].
  - intros b r' Hr' Hm. apply elem_of_app. unfold rs' in Hr'.
    apply lookup_insert_Some in Hr' as [[<- _]|[Hne Hr']]; [right; by left|left; by eapply R4].
  - intros i kv [Hi|[-> ->]]%Hsnoc.
    + destruct (R5 i kv Hi) as (Hkv & b & Hb & E). split; [done|]. exists b.
      rewrite decide_False by auto. split; [|done]. apply elem_of_app. by left.
    + split; [done|]. exists a. rewrite decide_True by done. split; [|done].
      apply elem_of_app. right. by left.
  - intros i j kv kv' [Hi|[-> ->]]%Hsnoc [Hj|[-> ->]]%Hsnoc E.
    + by eapply R6.
    + exfalso. by apply (Hnew i kv).
    + exfalso. apply (Hnew j kv'); [done|by rewrite <- E].
    + done.
  - rewrite Hlen. apply R7.
  - rewrite live_app, R9. unfold live. cbn. unfold u32. rewrite Zplus_mod_idemp_l. done.
Qed.

Lemma map_rel_table t n thr :
  table_ok rs (records s) t n -> 1 <= n < 2 ^ 30 -> n = Z.of_nat (length t) ->
  map_rel rs lk pos p (mkMap (is_weak s) (records s) (record_count s) t n thr) l.
Proof. intros Ht Hn Hlen. destruct Hrel. by split. Qed.
End one.

(** ** Filling a table *)

Lemma table_ok_skip rs R t n a r :
  table_ok rs R t n -> rs !! a = Some r -> empty r = true -> table_ok rs (R ++ [a]) t n.
Proof.
  intros Ht Hr He h c Hc. destruct (Ht h c Hc) as [Hnd Hin]. split; [done|].
  intros b. rewrite Hin, elem_of_app, list_elem_of_singleton. split; [tauto|].
  intros [[HR| ->] (r' & Hr' & He' & Hs)]; [split; [done|by exists r']|congruence].
Qed.

Lemma table_ok_add rs R t n a r h c :
  table_ok rs R t n -> a ∉ R -> rs !! a = Some r -> empty r = false ->
  slot n (mr_key r) = Some h -> t !! h = Some c ->
  table_ok rs (R ++ [a]) (<[h := c ++ [a]]> t) n.
Proof.
  intros Ht HaR Hr He Hs Hc h' c' Hc'.
  assert (Hlt : (h < length t)%nat) by by eapply lookup_lt_Some.
  destruct (decide (h' = h)) as [->|Hne].
  - rewrite list_lookup_insert_eq in Hc' by done. injection Hc' as <-.
    destruct (Ht h c Hc) as [Hnd Hin]. split.
    + apply NoDup_app. split_and!; [done| |apply NoDup_singleton].
      intros b Hb ->%list_elem_of_singleton. apply Hin in Hb as [? _]. done.
    + intros b. rewrite !elem_of_app, !list_elem_of_singleton, Hin. split.
      * intros [[HR H]| ->]; [tauto|]. split; [by right|by exists r].
      * intros [[HR| ->] H]; tauto.
  - rewrite list_lookup_insert_ne in Hc' by done.
    destruct (Ht h' c' Hc') as [Hnd Hin]. split; [done|]. intros b.
    rewrite Hin, elem_of_app, list_elem_of_singleton. split; [tauto|].
    intros [[HR| ->] (r' & Hr' & He' & Hs')]; [split; [done|by exists r']|].
    exfalso. congruence.
Qed.

Lemma hash_link_add_spec rs R t n a r :
  table_ok rs R t n -> n = Z.of_nat (length t) -> 1 <= n < 2 ^ 30 ->
  a ∉ R -> rs !! a = Some r -> empty r = false -> key_ok (mr_key r) ->
  wp (let* h := map_hash_key (mr_key r) in hash_link_add t (Z.land h (u32 (n - 1))) a)
    (fun t' => table_ok rs (R ++ [a]) t' n /\ length t' = length t).
Proof.
  intros Ht Hlen Hn HaR Hr He Hk.
  destruct (slot_total n _ Hk Hn) as (h & Hh & Hlt). pose proof Hh as Hs.
  unfold slot in Hh. destruct (map_hash_key (mr_key r)) as [hk| |] eqn:Ehk; try done.
  injection Hh as Hh. cbn [bind].
  destruct (map_hash_key_total _ Hk) as (hk' & E & Hpos). rewrite Ehk in E. injection E as <-.
  assert (0 <= Z.land hk (u32 (n - 1))) by (apply Z.land_nonneg; lia).
  unfold hash_link_add. apply wp_bind, wp_rd; [lia|]. intros c Hc. rewrite Hh in Hc.
  apply wp_wr; [lia|]. rewrite Hh. split; [|by rewrite length_insert].
  by eapply table_ok_add.
Qed.

Lemma rehash_spec st n : forall R R0 t,
  table_ok (recs st) R0 t n -> n = Z.of_nat (length t) -> 1 <= n < 2 ^ 30 ->
  NoDup (R0 ++ R) ->
  (forall a, a ∈ R -> exists r, recs st !! a = Some r /\ (empty r = false -> key_ok (mr_key r))) ->
  wp (rehash st R n t) (fun t' => table_ok (recs st) (R0 ++ R) t' n /\ length t' = length t).
Proof.
  induction R as [|a R IH]; intros R0 t Ht Hlen Hn Hnd HR; cbn [rehash].
  { apply wp_ret. by rewrite app_nil_r. }
  destruct (HR a) as (r & Hr & Hk); [by left|]. unfold get_rec. rewrite Hr. cbn [bind].
  assert (Hsplit : R0 ++ a :: R = (R0 ++ [a]) ++ R) by by rewrite <- app_assoc.
  rewrite Hsplit in *.
  assert (HR' : forall b, b ∈ R -> exists r, recs st !! b = Some r
    /\ (empty r = false -> key_ok (mr_key r))) by (intros b Hb; apply HR; by right).
  destruct (empty r) eqn:He; cbn [negb].
  - apply IH; [by eapply table_ok_skip|done..].
  - assert (HaR : a ∉ R0).
    { apply NoDup_app in Hnd as (Hnd & _ & _). apply NoDup_app in Hnd as (_ & Hd & _).
      intros Hx. apply (Hd a Hx). by left. }
    pose proof (hash_link_add_spec _ _ _ _ _ _ Ht Hlen Hn HaR Hr He (Hk eq_refl)) as H.
    destruct (map_hash_key (mr_key r)) as [h| |]; try done. cbn [bind] in H |- *.
    apply wp_bind. eapply wp_mono; [exact H|]. intros t' [Ht' Hlen'].
    eapply wp_mono; [apply IH; [done|by rewrite Hlen'|done..]|].
    intros t2 [? ?]. split; [done|congruence].
Qed.

Lemma table_ok_empty rs (n : nat) : table_ok rs [] (replicate n []) (Z.of_nat n).
Proof.
  intros h c Hc. apply lookup_replicate in Hc as [-> _]. split; [constructor|].
  intros a. split; [by intros ?%elem_of_nil|]. by intros [?%elem_of_nil _].
Qed.
End records.
