(* ===== verification/MapStSpec.v ===== *)
(** * The records of the state: locks, deletion, insertion

    The operations on records that the methods share, on the whole state: the
    other collections and the iterators are kept, and the references to
    values are accounted for. *)

From stdpp Require Import base tactics numbers list option sorting gmap.
From Stdlib Require Import ZArith Lia.
From S2P Require Import Prelude Values MapSet MapKeySpec MapRel.

Open Scope Z_scope.

(** A new block is outside the live ones; the blocks of the tables are
    smaller than 16 GB. *)
Class MapEngineOk (me : MapEngine) : Prop := {
  malloc_record_fresh : forall h live h' a,
    malloc_record h live = (h', Some a) -> (a ∉ live) /\ 0 < a;
  js_realloc2_slack : forall h n h' slack,
    js_realloc2 h n = (h', Some slack) -> 0 <= slack /\ n + slack < 2 ^ 34
}.

Section state.
Context {me : MapEngine} {ok : MapEngineOk me}.

(** ** The account of references *)

Definition vcount (v x : JSValue) : Z := if decide (x = v) then 1 else 0.

Definition ev_count (v : JSValue) (e : ref_event) : Z :=
  match e with Dup x => vcount v x | Free x => - vcount v x end.

Definition net (l : list ref_event) (v : JSValue) : Z :=
  foldr (fun e n => ev_count v e + n) 0 l.

Lemma net_snoc l e v : net (l ++ [e]) v = net l v + ev_count v e.
Proof. induction l as [|x l IH]; cbn; [lia|]. unfold net in IH. rewrite IH. lia. Qed.

Definition rec_holds (v : JSValue) (r : JSMapRecord) : Z :=
  if empty r then 0 else vcount v (mr_key r) + vcount v (mr_value r).

Definition iter_holds (v : JSValue) (mi : Z * JSMapIteratorData) : Z :=
  vcount v (it_obj mi.2).

(** The references that the collections and the iterators own. *)
Definition holds (st : map_st) (v : JSValue) : Z :=
  msum (rec_holds v) (recs st) + msum (iter_holds v) (iters st).

(** What was taken and not released, less what is owned. *)
Definition balance (st : map_st) (v : JSValue) : Z := net (log st) v - holds st v.

Lemma balance_log st st' v :
  recs st' = recs st -> iters st' = iters st ->
  balance st' v = balance st v + net (log st') v - net (log st) v.
Proof. intros E1 E2. unfold balance, holds. rewrite E1, E2. lia. Qed.

Lemma balance_update st st' a r r' v :
  log st' = log st -> iters st' = iters st -> recs st !! a = Some r ->
  recs st' = <[a := r']> (recs st) ->
  balance st' v = balance st v + rec_holds v r - rec_holds v r'.
Proof.
  intros E1 E2 Ha E3. unfold balance, holds.
  rewrite E1, E2, E3, (msum_update _ _ _ _ _ Ha). lia.
Qed.

Lemma balance_delete st st' a r v :
  log st' = log st -> iters st' = iters st -> recs st !! a = Some r ->
  recs st' = delete a (recs st) -> balance st' v = balance st v + rec_holds v r.
Proof.
  intros E1 E2 Ha E3. unfold balance, holds.
  rewrite E1, E2, E3, (msum_delete _ _ _ _ Ha). lia.
Qed.

Lemma balance_insert st st' a r v :
  log st' = log st -> iters st' = iters st -> recs st !! a = None ->
  recs st' = <[a := r]> (recs st) -> balance st' v = balance st v - rec_holds v r.
Proof.
  intros E1 E2 Ha E3. unfold balance, holds.
  rewrite E1, E2, E3, msum_insert by done. lia.
Qed.

Lemma balance_emit st e v : balance (emit st e) v = balance st v + ev_count v e.
Proof. rewrite (balance_log st) by done. cbn [log emit]. rewrite net_snoc. lia. Qed.

(** ** The relation *)

Lemma st_rel_ext st st' A held pos :
  maps st' = maps st -> recs st' = recs st -> iters st' = iters st ->
  st_rel st A held pos -> st_rel st' A held pos.
Proof.
  intros E1 E2 E3 [H1 H2 H3 H4]. split; unfold iter_rel in *; rewrite ?E1, ?E2, ?E3; done.
Qed.

Section one.
Context (st : map_st) (A : astate) (held : list hold) (pos : Z -> nat).
Context (Hst : st_rel st A held pos).

Abbreviation lk := (locks (iters st) held).

Lemma st_map p m s : maps st !! p = Some (m, s) ->
  exists l, a_maps A !! p = Some (m, l) /\ map_rel (recs st) lk pos p s l.
Proof.
  intros H. pose proof (sr_maps _ _ _ _ Hst p) as Hp. rewrite H in Hp.
  destruct (a_maps A !! p) as [[m' l]|]; [|done]. destruct Hp as [<- Hp]. by exists l.
Qed.

(** A record, with its collection. *)
Lemma st_record a r : recs st !! a = Some r ->
  exists m s l, maps st !! mr_map r = Some (m, s) /\ a_maps A !! mr_map r = Some (m, l)
    /\ map_rel (recs st) lk pos (mr_map r) s l.
Proof.
  intros Ha. destruct (sr_recs _ _ _ _ Hst a r Ha) as [[m s] Hm].
  destruct (st_map _ _ _ Hm) as (l & Hl & Hr). by exists m, s, l.
Qed.

Lemma st_record_pos a r : recs st !! a = Some r -> 0 < a /\ count_ok lk a r.
Proof.
  intros Ha. destruct (st_record a r Ha) as (m & s & l & _ & _ & Hr).
  destruct (upd_ok _ _ _ _ _ _ Hr a r Ha eq_refl) as (_ & ? & ?). done.
Qed.

Lemma st_iter o m it : iters st !! o = Some (m, it) ->
  exists kind x, a_iters A !! o = Some (AIter m kind x) /\ kind = it_kind it
    /\ iter_rel st pos m it x.
Proof.
  intros H. pose proof (sr_iters _ _ _ _ Hst o) as Ho. rewrite H in Ho.
  destruct (a_iters A !! o) as [[m' kind x]|]; [|done]. destruct Ho as (<- & -> & Hx).
  by exists (it_kind it), x.
Qed.

(** A change of one collection. *)
Lemma st_rel_op st' held' pos' p m s l s' l' :
  maps st !! p = Some (m, s) -> a_maps A !! p = Some (m, l) ->
  maps st' = <[p := (m, s')]> (maps st) -> iters st' = iters st ->
  map_rel (recs st') (locks (iters st) held') pos' p s' l' ->
  (forall a r, mr_map r <> p -> recs st' !! a = Some r <-> recs st !! a = Some r) ->
  (forall a r, recs st !! a = Some r -> pos' a = pos a) ->
  (forall a r, recs st !! a = Some r -> mr_map r <> p -> locks (iters st) held' a = lk a) ->
  (forall o mi, iters st !! o = Some mi -> forall r, recs st !! cur_record mi.2 = Some r ->
     exists r', recs st' !! cur_record mi.2 = Some r' /\ mr_map r' = mr_map r) ->
  held_ok (recs st') pos' held' ->
  st_rel st' (mkA (<[p := (m, l')]> (a_maps A)) (a_iters A)) held' pos'.
Proof.
  intros Hm Hl Hm' Hi Hrel Hfr Hpos Hlk Hcur Hheld. split; cbn [a_maps a_iters]; try done.
  - intros q. rewrite Hm'. destruct (decide (q = p)) as [->|Hne].
    + rewrite !lookup_insert_eq. by rewrite Hi.
    + rewrite !lookup_insert_ne by done. pose proof (sr_maps _ _ _ _ Hst q) as Hq.
      destruct (maps st !! q) as [[mq sq]|], (a_maps A !! q) as [[mq' lq]|]; try done.
      destruct Hq as [<- [R1 R2 R3 R4 R5 R6 R7 R8 R9]]. split; [done|].
      assert (Hq : forall a, a ∈ records sq -> exists r, recs st !! a = Some r
        /\ mr_map r = q /\ recs st' !! a = Some r).
      { intros a Ha. destruct (R3 a Ha) as (r & Hr & Hmr & _). exists r.
        split_and!; [done..|]. apply Hfr; [congruence|done]. }
      rewrite Hi. split; try done.
      * clear -R2 Hq Hpos. induction R2 as [|x R Hs IH Hf]; constructor.
        { apply IH. intros a Ha. apply Hq. by right. }
        rewrite Forall_forall in *. intros b Hb.
        destruct (Hq x) as (rx & Hx & _); [by left|].
        destruct (Hq b) as (rb & Hb' & _); [by right|].
        rewrite (Hpos _ _ Hx), (Hpos _ _ Hb'). by apply Hf.
      * intros a Ha. destruct (R3 a Ha) as (r & Hr & Hmr & Hla & Hca & H0).
        exists r. rewrite (Hpos a r Hr). split_and!; try done.
        -- apply Hfr; [congruence|done].
        -- unfold count_ok in *. rewrite (Hlk a r Hr) by congruence. apply Hca.
      * intros a r Hr Hmr. apply (R4 a r); [|done]. apply Hfr; [congruence|done].
      * intros i kv Hkv. destruct (R5 i kv Hkv) as (Hk & a & Ha & E). split; [done|].
        exists a. destruct (R3 a Ha) as (r & Hr & _). by rewrite (Hpos a r Hr).
      * eapply table_ok_ext; [exact R8|]. intros a Ha.
        destruct (Hq a Ha) as (r & -> & _ & ->). done.
  - intros a r Hr. destruct (decide (mr_map r = p)) as [->|Hne].
    + rewrite Hm', lookup_insert_eq. by eexists.
    + rewrite Hm', lookup_insert_ne by done. apply Hfr in Hr; [|done].
      by apply (sr_recs _ _ _ _ Hst a).
  - intros o. rewrite Hi. pose proof (sr_iters _ _ _ _ Hst o) as Ho.
    destruct (iters st !! o) as [[mo it]|] eqn:Eo, (a_iters A !! o) as [[m' kind x]|]; try done.
    destruct Ho as (E1 & E2 & Hx). split_and!; [done..|]. unfold iter_rel in *.
    destruct x as [[q i]|]; [|done]. destruct Hx as (Hobj & [sq Hq] & Hcr). split; [done|].
    split.
    + rewrite Hm'. destruct (decide (q = p)) as [->|Hne].
      * rewrite lookup_insert_eq. rewrite Hq in Hm. injection Hm as -> ->. by eexists.
      * rewrite lookup_insert_ne by done. by eexists.
    + destruct Hcr as [Hcr|[(r & Hr & Hmr) ->]]; [by left|right].
      destruct (Hcur o _ Eo r Hr) as (r' & Hr' & Hmr'). split.
      * exists r'. split; [done|congruence].
      * cbn [snd] in *. by rewrite (Hpos _ _ Hr).
Qed.

(** ** Locks *)

Lemma map_incref_record_spec a r :
  recs st !! a = Some r -> mr_ref_count r < INT32_MAX ->
  wp (map_incref_record st a) (fun st' =>
    st_rel st' A (mkHold a (mr_map r) (pos a) :: held) pos
    /\ maps st' = maps st /\ iters st' = iters st /\ heap st' = heap st
    /\ recs st' !! a = Some (mkRecord (mr_ref_count r + 1) (empty r) (mr_map r)
                               (next_weak_ref r) (mr_key r) (mr_value r))
    /\ forall v, balance st' v = balance st v).
Proof.
  intros Ha Hmax. destruct (st_record a r Ha) as (m & s & l & Hm & Hl & Hrel).
  destruct (st_record_pos a r Ha) as [_ [Hc Hz]].
  unfold map_incref_record, get_rec. rewrite Ha. cbn [bind].
  rewrite (proj2 (Z.ltb_lt _ _)) by done. apply wp_ret. split_and!; try done.
  - assert (E : A = mkA (<[mr_map r := (m, l)]> (a_maps A)) (a_iters A)).
    { destruct A as [am ai]. cbn in *. f_equal. by rewrite insert_id. }
    rewrite E. eapply (st_rel_op _ (mkHold a (mr_map r) (pos a) :: held) pos (mr_map r) m s l s l); try done.
    + cbn. by rewrite insert_id.
    + apply (map_rel_lock _ _ _ _ _ _ Hrel a r Ha eq_refl (locks (iters st) (mkHold a (mr_map r) (pos a) :: held))).
      * intros b Hb. rewrite locks_cons, lock_on_ne by done. lia.
      * rewrite locks_cons, lock_on_eq, Hc. lia.
      * intros He. rewrite locks_cons, lock_on_eq. specialize (Hz He). lia.
    + cbn. intros b rb Hne. destruct (decide (b = a)) as [->|Hba].
      * rewrite lookup_insert_eq, Ha. split; intros [= <-]; done.
      * by rewrite lookup_insert_ne.
    + intros b rb Hb Hne. rewrite locks_cons. cbn [h_rec]. rewrite lock_on_ne; [lia|]. intros ->. congruence.
    + cbn. intros o mi Ho rc Hrc. destruct (decide (cur_record mi.2 = a)) as [E2|Hne].
      * rewrite E2 in *. rewrite lookup_insert_eq. eexists. split; [done|]. cbn. congruence.
      * rewrite lookup_insert_ne by done. by exists rc.
    + cbn. eapply (held_ok_insert _ _ _ a r); [|done|done].
      apply held_ok_cons; [apply (sr_held _ _ _ _ Hst)|done].
  - cbn. by rewrite lookup_insert_eq.
  - intros v. rewrite (balance_update st _ a r _ v) by done. unfold rec_holds. cbn. lia.
Qed.
End one.

Lemma list_del_elem_in l x : x ∈ l -> list_del_elem l x = Ret (filter (fun y => y <> x) l).
Proof. intros H. unfold list_del_elem. by rewrite bool_decide_eq_true_2. Qed.

Lemma put_map_spec st p m s s' : maps st !! p = Some (m, s) ->
  put_map st p s' = Ret (set_maps st (<[p := (m, s')]> (maps st))).
Proof. intros H. unfold put_map. by rewrite H. Qed.

Lemma map_decref_record_spec st A held pos a p i r :
  st_rel st A (mkHold a p i :: held) pos -> recs st !! a = Some r ->
  wp (map_decref_record st a) (fun st' =>
    st_rel st' A held pos
    /\ iters st' = iters st /\ heap st' = heap st
    /\ (forall b rb, b <> a -> recs st !! b = Some rb -> recs st' !! b = Some rb)
    /\ (forall m s, maps st !! mr_map r = Some (m, s) ->
          exists s', maps st' !! mr_map r = Some (m, s')
            /\ (records s' = records s \/ records s' = filter (fun y => y <> a) (records s)))
    /\ forall v, balance st' v = balance st v).
Proof.
  intros Hst Ha. destruct (st_record _ _ _ _ Hst a r Ha) as (m & s & l & Hm & Hl & Hrel).
  destruct (st_record_pos _ _ _ _ Hst a r Ha) as [_ [Hc Hz]].
  assert (EA : A = mkA (<[mr_map r := (m, l)]> (a_maps A)) (a_iters A)).
  { destruct A as [am ai]. cbn in *. f_equal. by rewrite insert_id. }
  assert (Hlk : forall b, b <> a -> locks (iters st) held b
    = locks (iters st) (mkHold a p i :: held) b).
  { intros b Hb. rewrite locks_cons, lock_on_ne by done. lia. }
  pose proof (held_ok_tail _ _ _ _ (sr_held _ _ _ _ Hst)) as Hheld.
  pose proof (locks_nonneg (iters st) held a) as Hnn.
  rewrite locks_cons, lock_on_eq in Hc.
  assert (Hcase : mr_ref_count r - 1 = (if empty r then 0 else 1) + locks (iters st) held a) by lia.
  unfold map_decref_record, get_rec, get_map. rewrite Ha. cbn [bind].
  destruct (Z.eqb_spec (mr_ref_count r - 1) 0) as [E0|E0].
  - assert (He : empty r = true) by (destruct (empty r); [done|lia]).
    assert (H0 : locks (iters st) held a = 0) by (rewrite He in Hcase; lia).
    rewrite He, Hm. cbn [c_assert bind].
    pose proof (rl_owned _ _ _ _ _ _ Hrel a r Ha eq_refl) as HR.
    rewrite list_del_elem_in by done. cbn [bind]. rewrite (put_map_spec _ _ _ _ _ Hm).
    rewrite (rl_weak _ _ _ _ _ _ Hrel).
    cbn [bind]. apply wp_ret. split_and!; try done.
    + rewrite EA. eapply (st_rel_op _ _ _ _ Hst _ held pos (mr_map r) m s l); try done.
      * by apply (map_rel_free _ _ _ _ _ _ Hrel a r Ha eq_refl (locks (iters st) held) He Hlk).
      * cbn. intros b rb Hne. rewrite lookup_delete_Some. split; [tauto|].
        intros Hb. split; [intros ->; congruence|done].
      * intros b rb Hb Hne. apply Hlk. intros ->. congruence.
      * cbn. intros o [mo it] Ho rc Hrc. exists rc. split; [|done].
        rewrite lookup_delete_ne; [done|]. intros E. cbn in E.
        pose proof (locks_iter _ held _ _ _ _ Ho eq_refl). rewrite E in *. lia.
      * cbn. apply held_ok_delete; [done|]. intros h Hh E.
        pose proof (locks_held (iters st) held h Hh). rewrite E in *. lia.
    + cbn. intros b rb Hne Hb. by rewrite lookup_delete_ne.
    + intros m' s' Hp. injection Hp as <- <-. cbn. rewrite lookup_insert_eq.
      eexists. split; [done|]. by right.
    + intros v. rewrite (balance_delete st _ a r v) by done. unfold rec_holds. rewrite He. lia.
  - apply wp_ret. split_and!; try done.
    + rewrite EA. eapply (st_rel_op _ _ _ _ Hst _ held pos (mr_map r) m s l s l); try done.
      * cbn. by rewrite insert_id.
      * apply (map_rel_lock _ _ _ _ _ _ Hrel a r Ha eq_refl (locks (iters st) held)); [done..|].
        intros He. rewrite He in Hcase. lia.
      * cbn. intros b rb Hne. destruct (decide (b = a)) as [->|Hba].
        -- rewrite lookup_insert_eq, Ha. split; intros [= <-]; done.
        -- by rewrite lookup_insert_ne.
      * intros b rb Hb Hne. apply Hlk. intros ->. congruence.
      * cbn. intros o mi Ho rc Hrc. destruct (decide (cur_record mi.2 = a)) as [E2|Hne].
        -- rewrite E2 in *. rewrite lookup_insert_eq. eexists. split; [done|]. cbn. congruence.
        -- rewrite lookup_insert_ne by done. by exists rc.
      * cbn. by eapply held_ok_insert.
    + cbn. intros b rb Hne Hb. by rewrite lookup_insert_ne.
    + intros m' s' Hp. exists s'. split; [done|]. by left.
    + intros v. rewrite (balance_update st _ a r _ v) by done. unfold rec_holds. cbn. lia.
Qed.

(** ** Iterators *)

Lemma map_rel_locks rs lk lk' pos p s l :
  map_rel rs lk pos p s l -> (forall a, a ∈ records s -> lk' a = lk a) ->
  map_rel rs lk' pos p s l.
Proof.
  intros [R1 R2 R3 R4 R5 R6 R7 R8 R9] H. split; try done. intros a Ha.
  destruct (R3 a Ha) as (r & Hr & Hm & Hl & Hc & H0). exists r. split_and!; try done.
  unfold count_ok in *. rewrite (H a Ha). apply Hc.
Qed.

(** A change of the iterators that keeps the number of locks. *)
Lemma st_rel_iters st A held pos its' ai' held' :
  st_rel st A held pos ->
  (forall a r, recs st !! a = Some r -> locks its' held' a = locks (iters st) held a) ->
  (forall o, match its' !! o, ai' !! o with
    | Some (m, it), Some (AIter m' kind x) =>
        m = m' /\ kind = it_kind it /\ iter_rel st pos m it x
    | None, None => True
    | _, _ => False
    end) ->
  held_ok (recs st) pos held' ->
  st_rel (set_iters st its') (mkA (a_maps A) ai') held' pos.
Proof.
  intros Hst Hlk Hit Hheld. split; cbn; try done.
  - intros p. pose proof (sr_maps _ _ _ _ Hst p) as Hp.
    destruct (maps st !! p) as [[m s]|], (a_maps A !! p) as [[m' l]|]; try done.
    destruct Hp as [<- Hp]. split; [done|]. eapply map_rel_locks; [exact Hp|].
    intros a Ha. destruct (rl_rec _ _ _ _ _ _ Hp a Ha) as (r & Hr & _). by eapply Hlk.
  - apply (sr_recs _ _ _ _ Hst).
Qed.

Definition set_aiter (A : astate) (o : Z) (x : aiter) : astate :=
  mkA (a_maps A) (<[o := x]> (a_iters A)).

Definition with_iter (st : map_st) (o m : Z) (it : JSMapIteratorData) : map_st :=
  set_iters st (<[o := (m, it)]> (iters st)).

Lemma st_rel_with_iter st A held held' pos o m it it' x :
  st_rel st A held pos -> iters st !! o = Some (m, it) ->
  (forall a, locks (iters st) held' a - lock_on a (cur_record it) + lock_on a (cur_record it')
     = locks (iters st) held a \/ recs st !! a = None) ->
  iter_rel st pos m it' x -> held_ok (recs st) pos held' ->
  st_rel (with_iter st o m it') (set_aiter A o (AIter m (it_kind it') x)) held' pos.
Proof.
  intros Hst Ho Hlk Hx Hheld. apply (st_rel_iters _ _ held); try done.
  - intros a r Hr. rewrite (locks_iters_update _ _ _ _ _ _ _ _ Ho).
    destruct (Hlk a) as [E|E]; [done|congruence].
  - intros o'. destruct (decide (o' = o)) as [->|Hne].
    + by rewrite !lookup_insert_eq.
    + rewrite !lookup_insert_ne by done. apply (sr_iters _ _ _ _ Hst o').
Qed.

(** The lock of an iterator becomes one of the traversals in progress, and
    back. *)
Lemma st_rel_unlock_iter st A held pos o m it p i :
  st_rel st A held pos -> iters st !! o = Some (m, it) ->
  iter_rel st pos m it (Some (p, i)) -> cur_record it <> 0 ->
  st_rel (with_iter st o m (mkIter (it_obj it) (it_kind it) 0))
    (set_aiter A o (AIter m (it_kind it) (Some (p, 0%nat))))
      (mkHold (cur_record it) p (pos (cur_record it)) :: held) pos.
Proof.
  intros Hst Ho (Hobj & Hm & Hc) Hne.
  destruct Hc as [[Hc _]|[(r & Hr & Hp) _]]; [done|].
  eapply (st_rel_with_iter _ _ held _ _ _ _ it (mkIter _ _ 0)); [done|done| | |].
  - intros a. destruct (recs st !! a) as [ra|] eqn:Ea; [left|by right].
    destruct (st_record_pos _ _ _ _ Hst a ra Ea) as [H0 _].
    rewrite locks_cons. cbn. rewrite (lock_on_ne a 0) by lia. lia.
  - split; [done|]. split; [done|]. left. done.
  - rewrite <- Hp. apply held_ok_cons; [apply (sr_held _ _ _ _ Hst)|done].
Qed.

Lemma st_rel_lock_iter st A held pos o m it p p' i a r :
  st_rel st A (mkHold a p' i :: held) pos -> iters st !! o = Some (m, it) -> cur_record it = 0 ->
  it_obj it = JS_MKPTR PTR_OBJECT p -> (exists s, maps st !! p = Some (m, s)) ->
  recs st !! a = Some r -> mr_map r = p ->
  st_rel (with_iter st o m (mkIter (it_obj it) (it_kind it) a))
    (set_aiter A o (AIter m (it_kind it) (Some (p, S (pos a))))) held pos.
Proof.
  intros Hst Ho Hc Hobj Hm Ha Hp.
  eapply (st_rel_with_iter _ _ (mkHold a p' i :: held) _ _ _ _ it (mkIter _ _ a)); [done|done| | |].
  - intros b. destruct (recs st !! b) as [rb|] eqn:Eb; [left|by right].
    destruct (st_record_pos _ _ _ _ Hst b rb Eb) as [H0 _].
    rewrite locks_cons, Hc. cbn. rewrite (lock_on_ne b 0) by lia. lia.
  - split; [done|]. split; [done|]. right. cbn. split; [by exists r|done].
  - eapply held_ok_tail, (sr_held _ _ _ _ Hst).
Qed.

Lemma map_decref_record_iters st its a :
  map_decref_record (set_iters st its) a
  = let* st' := map_decref_record st a in Ret (set_iters st' its).
Proof.
  unfold map_decref_record, get_rec, get_map, put_map. cbn [recs maps set_iters].
  destruct (recs st !! a) as [r|]; [|done]. cbn [bind].
  destruct (_ =? 0); [|done]. destruct (c_assert (empty r)); try done. cbn [bind].
  destruct (maps st !! mr_map r) as [[m s]|]; [|done]. cbn [bind].
  by destruct (list_del_elem (records s) a).
Qed.

Lemma map_incref_record_iters st its a :
  map_incref_record (set_iters st its) a
  = let* st' := map_incref_record st a in Ret (set_iters st' its).
Proof.
  unfold map_incref_record, get_rec. cbn [recs set_iters].
  destruct (recs st !! a) as [r|]; [|done]. cbn [bind]. by destruct (_ <? _).
Qed.

Lemma locks_le its held a : locks its held a <= Z.of_nat (size its) + Z.of_nat (length held).
Proof.
  unfold locks.
  assert (H1 : foldr (fun x n => lock_on a (h_rec x) + n) 0 held <= Z.of_nat (length held)).
  { induction held as [|x held IH]; [done|]. cbn. unfold lock_on at 1. case_decide; lia. }
  assert (H2 : msum (fun mi : Z * JSMapIteratorData => lock_on a (cur_record mi.2)) its
    <= Z.of_nat (size its)); [|lia].
  clear H1. induction its as [|o mi its Ho IH] using map_ind; [by rewrite msum_empty|].
  rewrite msum_insert, map_size_insert_None by done. unfold lock_on at 1. case_decide; lia.
Qed.
End state.
