(* ===== verification/MapOpSpec.v ===== *)
(** * Insertion, deletion and search on the state *)

From stdpp Require Import base tactics numbers list option sorting gmap.
From Stdlib Require Import ZArith Lia.
From S2P Require Import Prelude Values MapSet MapKeySpec MapRel MapStSpec.

Open Scope Z_scope.

Section ops.
Context {me : MapEngine} {ok : MapEngineOk me}.

Abbreviation entries := (list (option (JSValue * JSValue))).

(** ** The operations on entries *)

(** The index of the entry of a key. *)
Definition a_index (l : entries) (k : JSValue) : option nat :=
  fst <$> list_find (fun o => (fun kv => canon kv.1) <$> o = Some (canon k)) l.

Definition a_has (l : entries) (k : JSValue) : bool := bool_decide (is_Some (a_index l k)).

Definition a_get (l : entries) (k : JSValue) : JSValue :=
  match a_index l k with
  | Some i => match l !! i with Some (Some (_, v)) => v | _ => JS_UNDEFINED end
  | None => JS_UNDEFINED
  end.

Definition a_set (l : entries) (k v : JSValue) : entries :=
  match a_index l k with
  | Some i => alter (fmap (fun kv => (kv.1, v))) i l
  | None => l ++ [Some (k, v)]
  end.

Definition a_delete (l : entries) (k : JSValue) : entries :=
  match a_index l k with Some i => <[i := None]> l | None => l end.

Definition a_clear (l : entries) : entries := (fun _ => None) <$> l.

Lemma a_index_found rs lk pos p s l k o :
  map_rel rs lk pos p s l -> found rs p l k o ->
  a_index l k = pos <$> o
  /\ forall a, o = Some a -> exists r, rs !! a = Some r /\ mr_map r = p /\ empty r = false
       /\ l !! pos a = Some (Some (mr_key r, mr_value r)) /\ 0 < a.
Proof.
  intros Hrel Hf. unfold a_index. destruct o as [a|]; cbn in Hf |- *.
  - destruct Hf as (r & Hr & Hm & He & Hk & H0).
    destruct (rel_live _ _ _ _ _ _ Hrel a r Hr Hm He) as (_ & Hl & _). split.
    + assert (list_find (fun o => (fun kv => canon kv.1) <$> o = Some (canon k)) l
        = Some (pos a, Some (mr_key r, mr_value r))) as ->; [|done].
      apply list_find_Some. split_and!; [done|cbn; by rewrite Hk|].
      intros j y Hy Hlt Hc. destruct y as [kv|]; [|done]. injection Hc as Hc.
      assert (j = pos a); [|lia].
      apply (rl_keys _ _ _ _ _ _ Hrel j (pos a) _ _ Hy Hl). cbn. congruence.
    + intros b [= <-]. exists r. done.
  - split; [|done]. apply fmap_None, list_find_None. apply Forall_forall.
    intros y Hy Hc. apply list_elem_of_lookup in Hy as [i Hi].
    destruct y as [kv|]; [|done]. injection Hc as Hc. by apply (Hf i kv Hi).
Qed.

(** ** Deletion *)

Lemma hash_link_del_in t x h c :
  t !! h = Some c -> x ∈ c -> hash_link_del t x = Ret (filter (fun y => y <> x) <$> t).
Proof.
  intros Hc Hx. unfold hash_link_del. rewrite bool_decide_eq_true_2; [done|].
  apply list_elem_of_In, in_concat. exists c. split; apply list_elem_of_In; [|done].
  by eapply list_elem_of_lookup_2.
Qed.

Definition set_entries (A : astate) (p m : Z) (l : entries) : astate :=
  mkA (<[p := (m, l)]> (a_maps A)) (a_iters A).

Section one.
Context (st : map_st) (A : astate) (held : list hold) (pos : Z -> nat).
Context (Hst : st_rel st A held pos).
Context (p m : Z) (s : JSMapState) (l : entries).
Context (Hm : maps st !! p = Some (m, s)) (Hl : a_maps A !! p = Some (m, l)).

Lemma one_rel : map_rel (recs st) (locks (iters st) held) pos p s l.
Proof.
  destruct (st_map _ _ _ _ Hst p m s Hm) as (l' & Hl' & Hr). rewrite Hl in Hl'.
  by injection Hl' as <-.
Qed.

Lemma map_delete_record_spec a r :
  recs st !! a = Some r -> mr_map r = p -> empty r = false ->
  wp (map_delete_record st p a) (fun st' =>
    st_rel st' (set_entries A p m (<[pos a := None]> l)) held pos
    /\ iters st' = iters st /\ heap st' = heap st
    /\ (exists s', maps st' !! p = Some (m, s')
          /\ (records s' = records s \/ records s' = filter (fun y => y <> a) (records s)))
    /\ (forall b, b <> a -> recs st' !! b = recs st !! b)
    /\ forall v, balance st' v = balance st v).
Proof.
  intros Ha Hp He. pose proof one_rel as Hrel.
  destruct (upd_ok _ _ _ _ _ _ Hrel a r Ha Hp) as (_ & [Hc _] & _).
  pose proof (upd_in _ _ _ _ _ _ Hrel a r Ha Hp) as HR.
  destruct (rel_live _ _ _ _ _ _ Hrel a r Ha Hp He) as (_ & _ & Hk).
  destruct (rl_size _ _ _ _ _ _ Hrel) as [Hn Hlen].
  destruct (slot_total _ _ Hk Hn) as (h & Hh & _).
  destruct (chain_of _ _ _ _ _ _ _ (rl_chains _ _ _ _ _ _ Hrel) (eq_sym Hlen) Hn Hk HR Ha He Hh)
    as (c & Hch & Hac).
  unfold map_delete_record, get_rec, get_map. rewrite Ha. cbn [bind]. rewrite He, Hm. cbn [bind].
  rewrite (hash_link_del_in _ _ _ _ Hch Hac). cbn [bind].
  rewrite (rl_weak _ _ _ _ _ _ Hrel). cbn [bind]. rewrite He in Hc.
  pose proof (locks_nonneg (iters st) held a) as Hnn.
  destruct (Z.eqb_spec (mr_ref_count r - 1) 0) as [E0|E0].
  - assert (H0 : locks (iters st) held a = 0) by lia.
    rewrite list_del_elem_in by done. cbn [bind].
    erewrite put_map_spec by exact Hm. apply wp_ret. split_and!; try done.
    + eapply (st_rel_op _ _ _ _ Hst _ held pos p m s l); try done.
      * by apply (map_rel_delete_free _ _ _ _ _ _ Hrel a r Ha Hp He).
      * cbn. intros b rb Hne. rewrite lookup_delete_Some. split; [tauto|].
        intros Hb. split; [intros ->; congruence|done].
      * cbn. intros o [mo it] Ho rc Hrc. exists rc. split; [|done].
        rewrite lookup_delete_ne; [done|]. intros E. cbn in E.
        pose proof (locks_iter _ held _ _ _ _ Ho eq_refl). rewrite E in *. lia.
      * cbn. apply held_ok_delete; [apply (sr_held _ _ _ _ Hst)|]. intros hh Hh' E.
        pose proof (locks_held (iters st) held hh Hh'). rewrite E in *. lia.
    + eexists. cbn. rewrite lookup_insert_eq. split; [done|]. by right.
    + cbn. intros b Hb. by rewrite lookup_delete_ne.
    + intros v. rewrite (balance_delete (free_value (free_value st (mr_key r)) (mr_value r))
        _ a r v) by done.
      unfold free_value. rewrite !balance_emit. cbn [ev_count]. unfold rec_holds. rewrite He. lia.
  - cbn [bind]. erewrite put_map_spec by exact Hm. apply wp_ret. split_and!; try done.
    + eapply (st_rel_op _ _ _ _ Hst _ held pos p m s l); try done.
      * apply (map_rel_delete_zombie _ _ _ _ _ _ Hrel a r Ha Hp He). lia.
      * cbn. intros b rb Hne. destruct (decide (b = a)) as [->|Hba].
        -- rewrite lookup_insert_eq, Ha. split; intros [= <-]; done.
        -- by rewrite lookup_insert_ne.
      * cbn. intros o mi Ho rc Hrc. destruct (decide (cur_record mi.2 = a)) as [E2|Hne].
        -- rewrite E2 in *. rewrite lookup_insert_eq. eexists. split; [done|]. cbn. congruence.
        -- rewrite lookup_insert_ne by done. by exists rc.
      * cbn. eapply held_ok_insert; [apply (sr_held _ _ _ _ Hst)|done|done].
    + eexists. cbn. rewrite lookup_insert_eq. split; [done|]. by left.
    + cbn. intros b Hb. by rewrite lookup_insert_ne.
    + intros v. rewrite (balance_update (free_value (free_value st (mr_key r)) (mr_value r))
        _ a r _ v) by done.
      unfold free_value. rewrite !balance_emit. cbn [ev_count]. unfold rec_holds. rewrite He.
      cbn. lia.
Qed.

(** ** The value of an entry *)

Lemma set_value_spec a r v0 :
  recs st !! a = Some r -> mr_map r = p -> empty r = false ->
  wp (set_value st a v0) (fun st' =>
    st_rel st' (set_entries A p m (<[pos a := Some (mr_key r, v0)]> l)) held pos
    /\ forall v, balance st' v = balance st v + vcount v (mr_value r) - vcount v v0).
Proof.
  intros Ha Hp He. pose proof one_rel as Hrel.
  unfold set_value, get_rec. rewrite Ha. cbn [bind]. apply wp_ret. split.
  - eapply (st_rel_op _ _ _ _ Hst _ held pos p m s l s); try done.
    + cbn. by rewrite insert_id.
    + by apply (map_rel_value _ _ _ _ _ _ Hrel a r Ha Hp).
    + cbn. intros b rb Hne. destruct (decide (b = a)) as [->|Hba].
      * rewrite lookup_insert_eq, Ha. split; intros [= <-]; done.
      * by rewrite lookup_insert_ne.
    + cbn. intros o mi Ho rc Hrc. destruct (decide (cur_record mi.2 = a)) as [E2|Hne].
      * rewrite E2 in *. rewrite lookup_insert_eq. eexists. split; [done|]. cbn. congruence.
      * rewrite lookup_insert_ne by done. by exists rc.
    + cbn. eapply held_ok_insert; [apply (sr_held _ _ _ _ Hst)|done|done].
  - intros v. rewrite (balance_update st _ a r _ v) by done. unfold rec_holds. cbn.
    rewrite He. lia.
Qed.

(** ** The hash table *)

Lemma map_hash_resize_spec :
  wp (map_hash_resize st p) (fun st' =>
    st_rel st' A held pos /\ recs st' = recs st /\ iters st' = iters st
    /\ (exists s', maps st' !! p = Some (m, s')) /\ log st' = log st).
Proof.
  pose proof one_rel as Hrel. unfold map_hash_resize, get_map. rewrite Hm. cbn [bind].
  destruct (rl_size _ _ _ _ _ _ Hrel) as [Hn Hlen].
  set (n0 := if hash_size s =? 1 then 4 else u32 (hash_size s * 2)).
  assert (Hn0 : 1 <= n0 < 2 ^ 31).
  { unfold n0. destruct (Z.eqb_spec (hash_size s) 1); [lia|]. rewrite u32_id by lia. lia. }
  destruct (js_realloc2 (heap st) (sizeof_list_head * n0)) as [h [slack|]] eqn:Er.
  2:{ apply wp_ret. split_and!; try done; [by eapply st_rel_ext; [..|exact Hst]|by exists s]. }
  apply js_realloc2_slack in Er as [Hs Hbig]. unfold sizeof_list_head in *.
  assert (Hn1 : 1 <= n0 + slack / 16 < 2 ^ 30) by dlia.
  rewrite (u32_id (n0 + slack / 16)) by lia. set (n := n0 + slack / 16) in *.
  assert (Hrep : Z.of_nat (length (replicate (Z.to_nat n) (@nil Z))) = n)
    by (rewrite length_replicate; lia).
  apply wp_bind. eapply wp_mono.
  { apply (rehash_spec (set_heap st h) n (records s) [] (replicate (Z.to_nat n) [])).
    - cbn [recs set_heap]. rewrite <- (Z2Nat.id n) at 2 by lia. apply table_ok_empty.
    - by rewrite Hrep.
    - done.
    - apply (rel_NoDup _ _ _ _ _ _ Hrel).
    - cbn [recs set_heap]. intros a Ha.
      destruct (rl_rec _ _ _ _ _ _ Hrel a Ha) as (r & Hr & Hp & _). exists r.
      split; [done|]. intros He. by apply (rel_live _ _ _ _ _ _ Hrel a r Hr Hp He). }
  intros t [Ht Hlt]. rewrite length_replicate in Hlt. cbn [recs set_heap app] in Ht.
  erewrite put_map_spec by exact Hm. apply wp_ret. split_and!; try done.
  - assert (EA : A = set_entries A p m l).
    { destruct A as [am ai]. unfold set_entries. cbn in *. f_equal. by rewrite insert_id. }
    rewrite EA. eapply (st_rel_op _ _ _ _ Hst _ held pos p m s l); try done.
    + apply (map_rel_table _ _ _ _ _ _ Hrel); [done|done|]. lia.
    + cbn. intros o mi Ho rc Hrc. by exists rc.
    + cbn. apply (sr_held _ _ _ _ Hst).
  - eexists. cbn. by rewrite lookup_insert_eq.
Qed.
End one.

(** ** Insertion *)

Lemma map_add_record_spec st A held pos p m s l k :
  st_rel st A held pos -> maps st !! p = Some (m, s) -> a_maps A !! p = Some (m, l) ->
  key_ok k -> a_index l k = None -> found (recs st) p l k None ->
  wp (map_add_record st p k) (fun x =>
    (x.2 = 0 /\ st_rel x.1 A held pos /\ recs x.1 = recs st /\ maps x.1 = maps st
     /\ iters x.1 = iters st /\ forall v, balance x.1 v = balance st v)
    \/ exists pos' s' r, 0 < x.2
      /\ st_rel x.1 (set_entries A p m (l ++ [Some (k, JS_UNDEFINED)])) held pos'
      /\ maps x.1 !! p = Some (m, s')
      /\ recs x.1 !! x.2 = Some r /\ mr_map r = p /\ empty r = false /\ mr_key r = k
      /\ mr_value r = JS_UNDEFINED /\ pos' x.2 = length l /\ iters x.1 = iters st
      /\ forall v, balance x.1 v = balance st v - vcount v JS_UNDEFINED).
Proof.
  intros Hst Hm Hl Hk Hi Hnew. unfold map_add_record.
  destruct (malloc_record (heap st) (dom (recs st))) as [h [a|]] eqn:Ea.
  2:{ apply wp_ret. left. split_and!; try done. by eapply st_rel_ext; [..|exact Hst]. }
  apply malloc_record_fresh in Ea as [Hfresh H0]. apply not_elem_of_dom in Hfresh.
  pose proof (one_rel _ _ _ _ Hst _ _ _ _ Hm Hl) as Hrel.
  unfold get_map. cbn [maps set_heap]. rewrite Hm. cbn [bind].
  rewrite (rl_weak _ _ _ _ _ _ Hrel). cbn [bind].
  set (r := mkRecord 1 false p 0 k JS_UNDEFINED).
  set (rs' := <[a := r]> (recs st)).
  destruct (rl_size _ _ _ _ _ _ Hrel) as [Hn Hlen].
  assert (HaR : a ∉ records s).
  { intros Ha. destruct (rl_rec _ _ _ _ _ _ Hrel a Ha) as (r' & Hr' & _). congruence. }
  assert (Hlk0 : locks (iters st) held a = 0).
  { unfold locks. rewrite msum_zero.
    - assert (Hh : forall h, h ∈ held -> h_rec h <> a).
      { intros hh Hb E. destruct (sr_held _ _ _ _ Hst hh Hb) as (x & Hx & _). congruence. }
      clear -Hh. induction held as [|x held IH]; [done|]. cbn.
      rewrite lock_on_ne by (intros E; apply (Hh x); [by left|done]).
      rewrite Z.add_0_l in *. rewrite IH; [lia|]. intros b Hb. apply Hh. by right.
    - intros o [mo it] Ho. apply lock_on_ne. cbn. intros E.
      destruct (st_iter _ _ _ _ Hst o mo it Ho) as (kind & x & _ & _ & Hx).
      destruct x as [[q i]|]; cbn in Hx; [|lia].
      destruct Hx as (_ & _ & [[Hc _]|[(r' & Hr' & _) _]]); [lia|congruence]. }
  assert (Hks : mr_key r = k) by done.
  pose proof (hash_link_add_spec rs' (records s) (hash_table s) (hash_size s) a r) as Hadd.
  rewrite Hks in Hadd.
  assert (Htab : table_ok rs' (records s) (hash_table s) (hash_size s)).
  { eapply table_ok_ext; [apply (rl_chains _ _ _ _ _ _ Hrel)|]. intros b Hb. unfold rs'.
    rewrite lookup_insert_ne; [done|]. by intros <-. }
  specialize (Hadd Htab Hlen Hn HaR (lookup_insert_eq _ _ _) eq_refl Hk).
  destruct (map_hash_key k) as [hk| |]; try done. cbn [bind] in Hadd |- *.
  apply wp_bind. eapply wp_mono; [exact Hadd|]. intros t [Ht Hlt].
  unfold put_map. cbn [maps put_rec set_recs dup_value emit set_heap]. rewrite Hm. cbn [bind].
  set (s1 := mkMap false (records s ++ [a]) (u32 (record_count s + 1)) t (hash_size s)
               (record_count_threshold s)).
  set (pos' := fun b => if decide (b = a) then length l else pos b).
  match goal with |- context [if _ then map_hash_resize ?x p else _] => set (st1 := x) end.
  assert (Hrel1 : map_rel rs' (locks (iters st) held) pos' p s1 (l ++ [Some (k, JS_UNDEFINED)])).
  { by apply (map_rel_add _ _ _ _ _ _ Hrel). }
  assert (Hst1 : st_rel st1 (set_entries A p m (l ++ [Some (k, JS_UNDEFINED)])) held pos').
  { eapply (st_rel_op _ _ _ _ Hst _ held pos' p m s l s1); try done.
    - cbn. intros b rb Hne. destruct (decide (b = a)) as [->|Hba].
      + rewrite lookup_insert_eq, Hfresh. split; [intros [= <-]; done|done].
      + by rewrite lookup_insert_ne.
    - intros b rb Hb. unfold pos'. rewrite decide_False; [done|]. intros ->. congruence.
    - cbn. intros o mi Ho rc Hrc. exists rc. split; [|done].
      rewrite lookup_insert_ne; [done|]. intros E. congruence.
    - cbn. apply (held_ok_fresh _ pos); [apply (sr_held _ _ _ _ Hst)|done|].
      intros b Hb. unfold pos'. by rewrite decide_False. }
  assert (Hbal : forall v, balance st1 v = balance st v - vcount v JS_UNDEFINED).
  { intros v. rewrite (balance_insert (dup_value (set_heap st h) k) _ a r v) by done.
    unfold dup_value. rewrite balance_emit. cbn [ev_count]. unfold rec_holds. cbn.
    change (balance (set_heap st h) v) with (balance st v). lia. }
  assert (Hm1 : maps st1 !! p = Some (m, s1)) by (cbn; by rewrite lookup_insert_eq).
  assert (Hr1 : recs st1 !! a = Some r) by (cbn; by rewrite lookup_insert_eq).
  assert (Hp1 : pos' a = length l) by (unfold pos'; by rewrite decide_True).
  destruct (_ <=? _).
  - assert (Hl1 : a_maps (set_entries A p m (l ++ [Some (k, JS_UNDEFINED)])) !! p
      = Some (m, l ++ [Some (k, JS_UNDEFINED)])) by (cbn; by rewrite lookup_insert_eq).
    apply wp_bind. eapply wp_mono.
    { apply (map_hash_resize_spec st1 _ held pos' Hst1 p m s1 _ Hm1 Hl1). }
    intros st2 (Hst2 & Er & Ei & [s2 Hm2] & El). apply wp_ret. right.
    exists pos', s2, r. cbn [fst snd]. split_and!; try done.
    + by rewrite Er.
    + intros v. unfold balance, holds. rewrite Er, Ei, El. apply Hbal.
  - apply wp_ret. right. exists pos', s1, r. cbn [fst snd]. by split_and!.
Qed.
End ops.
