(* ===== verification/MapSpec.v ===== *)
(** * Collections refine the lists of entries of the language

    The methods of Map and Set and their iterators on the records, and on the
    entries. *)

From stdpp Require Import base tactics numbers list option sorting gmap.
From Stdlib Require Import ZArith Lia.
From S2P Require Import Prelude Values MapSet MapKeySpec MapRel MapStSpec MapOpSpec.

Open Scope Z_scope.

Lemma alter_insert_eq {A} (f : A -> A) i (l : list A) x :
  l !! i = Some x -> alter f i l = <[i := f x]> l.
Proof.
  revert i. induction l as [|y l IH]; intros [|i] H; try done; cbn.
  - by injection H as ->.
  - f_equal. by apply IH.
Qed.

Lemma insert_snoc {A} (l : list A) x y : <[length l := y]> (l ++ [x]) = l ++ [y].
Proof. rewrite insert_app_r_alt by lia. by rewrite Nat.sub_diag. Qed.

(** A state with the same collections and iterators. *)
Ltac same_state H := eapply st_rel_ext; [..|exact H]; done.

Section spec.
Context {me : MapEngine} {ok : MapEngineOk me}.

Abbreviation entries := (list (option (JSValue * JSValue))).

(** ** The operations of the language *)

Inductive map_op :=
  | OpSet (this_val key value : JSValue) (magic : Z)
  | OpGet (this_val key : JSValue) (magic : Z)
  | OpHas (this_val key : JSValue) (magic : Z)
  | OpDelete (this_val key : JSValue) (magic : Z)
  | OpClear (this_val : JSValue) (magic : Z)
  | OpSize (this_val : JSValue) (magic : Z)
  | OpIter (this_val : JSValue) (obj : option Z) (kind : JSIteratorKindEnum) (magic : Z)
  | OpNext (o magic : Z)
  | OpFreeIter (o : Z).

Definition not_done (r : res (map_st * JSValue)) : res (map_st * JSValue * bool) :=
  let* x := r in Ret (x, false).

Definition run_op (st : map_st) (op : map_op) : res (map_st * JSValue * bool) :=
  match op with
  | OpSet t k v m => not_done (js_map_set st t k v m)
  | OpGet t k m => not_done (js_map_get st t k m)
  | OpHas t k m => not_done (js_map_has st t k m)
  | OpDelete t k m => not_done (js_map_delete st t k m)
  | OpClear t m => not_done (js_map_clear st t m)
  | OpSize t m => not_done (js_map_get_size st t m)
  | OpIter t o kind m => not_done (js_create_map_iterator st t o kind m)
  | OpNext o m => js_map_iterator_next st o m
  | OpFreeIter o =>
      let* st := js_map_iterator_finalizer st o true in Ret (st, JS_UNDEFINED, false)
  end.

(** The collection of [this_val]. *)
Definition a_this (A : astate) (this_val : JSValue) (magic : Z) : option (Z * entries) :=
  match this_val with
  | JS_MKPTR PTR_OBJECT p =>
      match a_maps A !! p with
      | Some (m, l) => if m =? magic then Some (p, l) else None
      | None => None
      end
  | _ => None
  end.

(** The first entry from an index on. *)
Definition a_next (l : entries) (i : nat) : option (nat * (JSValue * JSValue)) :=
  match list_find is_Some (drop i l) with
  | Some (j, Some kv) => Some ((i + j)%nat, kv)
  | _ => None
  end.

(** What the language says of an operation: the new entries, the result, and
    the references that the caller is given.  Memory may run out when an
    entry is added or an array is made. *)
Definition spec_op (A : astate) (op : map_op) (A' : astate) (v : JSValue) (done : bool)
    (given : list JSValue) : Prop :=
  match op with
  | OpSet t k x m =>
      let k := map_normalize_key k in
      let x := if negb (Z.land m MAGIC_SET =? 0) then JS_UNDEFINED else x in
      done = false /\
      match a_this A t m with
      | Some (p, l) =>
          (A' = set_entries A p m (a_set l k x) /\ v = t /\ given = [t])
          \/ (a_has l k = false /\ A' = A /\ v = JS_EXCEPTION /\ given = [])
      | None => A' = A /\ v = JS_EXCEPTION /\ given = []
      end
  | OpGet t k m =>
      done = false /\ A' = A /\
      match a_this A t m with
      | Some (_, l) => v = a_get l (map_normalize_key k) /\ given = [v]
      | None => v = JS_EXCEPTION /\ given = []
      end
  | OpHas t k m =>
      done = false /\ A' = A /\ given = [] /\
      v = match a_this A t m with
          | Some (_, l) => JS_BOOL (a_has l (map_normalize_key k))
          | None => JS_EXCEPTION
          end
  | OpDelete t k m =>
      let k := map_normalize_key k in
      done = false /\ given = [] /\
      match a_this A t m with
      | Some (p, l) => A' = set_entries A p m (a_delete l k) /\ v = JS_BOOL (a_has l k)
      | None => A' = A /\ v = JS_EXCEPTION
      end
  | OpClear t m =>
      done = false /\ given = [] /\
      match a_this A t m with
      | Some (p, l) => A' = set_entries A p m (a_clear l) /\ v = JS_UNDEFINED
      | None => A' = A /\ v = JS_EXCEPTION
      end
  | OpSize t m =>
      done = false /\ A' = A /\ given = [] /\
      v = match a_this A t m with
          | Some (_, l) => JS_NewUint32 (u32 (live l))
          | None => JS_EXCEPTION
          end
  | OpIter t obj kind m =>
      done = false /\
      match a_this A t m, obj with
      | Some (p, _), Some o =>
          A' = set_aiter A o (AIter m kind (Some (p, 0%nat)))
          /\ v = JS_MKPTR PTR_OBJECT o /\ given = []
      | _, _ => A' = A /\ v = JS_EXCEPTION /\ given = []
      end
  | OpNext o m =>
      match a_iters A !! o with
      | Some (AIter m' kind x) =>
          if negb (m' =? m) then A' = A /\ v = JS_EXCEPTION /\ done = false /\ given = []
          else
            match x with
            | None => A' = A /\ v = JS_UNDEFINED /\ done = true /\ given = []
            | Some (p, i) =>
                exists l, a_maps A !! p = Some (m, l) /\
                match a_next l i with
                | None =>
                    A' = set_aiter A o (AIter m kind None)
                    /\ v = JS_UNDEFINED /\ done = true /\ given = []
                | Some (j, (key, value)) =>
                    let value := if negb (m =? 0) then key else value in
                    A' = set_aiter A o (AIter m kind (Some (p, S j))) /\ done = false /\
                    match kind with
                    | JS_ITERATOR_KIND_KEY => v = key /\ given = [key]
                    | JS_ITERATOR_KIND_VALUE => v = value /\ given = [value]
                    | JS_ITERATOR_KIND_KEY_AND_VALUE =>
                        (exists h, v = (js_create_array h [key; value]).2)
                        /\ given = if JS_IsException v then [] else [key; value]
                    end
                end
            end
      | None => A' = A /\ v = JS_EXCEPTION /\ done = false /\ given = []
      end
  | OpFreeIter o =>
      A' = mkA (a_maps A) (delete o (a_iters A)) /\ v = JS_UNDEFINED /\ done = false
      /\ given = []
  end.

(** Keys on which the hash follows the equality; a new iterator is a new
    object; an [int] counts the locks. *)
Definition op_ok (st : map_st) (held : list hold) (op : map_op) : Prop :=
  Z.of_nat (size (iters st)) + Z.of_nat (length held) < INT32_MAX - 1 /\
  match op with
  | OpSet _ k _ _ | OpGet _ k _ | OpHas _ k _ | OpDelete _ k _ => key_ok (map_normalize_key k)
  | OpIter _ (Some o) _ _ => iters st !! o = None
  | _ => True
  end.

Definition gcount (given : list JSValue) (v : JSValue) : Z :=
  foldr (fun x n => vcount v x + n) 0 given.

(** The result of an operation. *)
Definition op_result (st : map_st) (A : astate) (held : list hold) (op : map_op)
    (x : map_st * JSValue * bool) : Prop :=
  exists A' pos' given,
    spec_op A op A' x.1.2 x.2 given
    /\ st_rel x.1.1 A' held pos'
    /\ forall v, JS_VALUE_HAS_REF_COUNT v = true ->
         balance x.1.1 v = balance st v + gcount given v.

Lemma vcount_plain v x : JS_VALUE_HAS_REF_COUNT v = true ->
  JS_VALUE_HAS_REF_COUNT x = false -> vcount v x = 0.
Proof. intros H1 H2. unfold vcount. rewrite decide_False; [done|]. intros ->. congruence. Qed.

(** The collection that the code finds is the one of the specification. *)
Lemma opaque_this st A held pos t m : st_rel st A held pos ->
  match JS_GetOpaque2 st t m with
  | Some p => exists s l, a_this A t m = Some (p, l) /\ t = JS_MKPTR PTR_OBJECT p
      /\ maps st !! p = Some (m, s) /\ a_maps A !! p = Some (m, l)
      /\ map_rel (recs st) (locks (iters st) held) pos p s l
  | None => a_this A t m = None
  end.
Proof.
  intros Hst. unfold JS_GetOpaque2, a_this. destruct t as [| | | | | | | |[] p]; try done.
  pose proof (sr_maps _ _ _ _ Hst p) as Hp.
  destruct (maps st !! p) as [[m1 s]|] eqn:Em, (a_maps A !! p) as [[m2 l]|] eqn:El; try done.
  destruct Hp as [<- Hp]. destruct (Z.eqb_spec m1 m) as [->|]; [|done]. by exists s, l.
Qed.

Section methods.
Context (st : map_st) (A : astate) (held : list hold) (pos : Z -> nat).
Context (Hst : st_rel st A held pos).

Lemma js_map_set_spec t k x m : key_ok (map_normalize_key k) ->
  wp (not_done (js_map_set st t k x m)) (op_result st A held (OpSet t k x m)).
Proof.
  intros Hk. unfold not_done, js_map_set.
  pose proof (opaque_this st A held pos t m Hst) as Hthis.
  destruct (JS_GetOpaque2 st t m) as [p|].
  2:{ exists A, pos, []. cbn [spec_op fst snd]. rewrite Hthis. split_and!; try done. intros v Hv. cbn [gcount foldr fst snd]. lia. }
  destruct Hthis as (s & l & Hthis & -> & Hm & Hl & Hrel).
  unfold get_map. rewrite Hm. cbn [bind]. rewrite (rl_weak _ _ _ _ _ _ Hrel). cbn [andb].
  set (key := map_normalize_key k) in *.
  set (value := if negb (Z.land m MAGIC_SET =? 0) then JS_UNDEFINED else x).
  apply wp_bind, wp_bind. eapply wp_mono; [by apply (map_find_record_spec _ _ _ _ _ _ Hrel st key)|].
  intros o Hf. destruct (a_index_found _ _ _ _ _ _ _ _ Hrel Hf) as [Hidx Hat].
  destruct o as [a|].
  - destruct (Hat a eq_refl) as (r & Ha & Hp & He & Hla & H0).
    unfold get_rec. rewrite Ha. cbn [bind].
    rewrite (proj2 (Z.eqb_neq a 0)) by lia.
    set (st1 := dup_value (free_value st (mr_value r)) value).
    assert (Hst1 : st_rel st1 A held pos) by (same_state Hst).
    apply wp_bind. eapply wp_mono.
    { by apply (set_value_spec st1 A held pos Hst1 p m s l Hm Hl a r value Ha Hp He). }
    intros st2 [Hst2 Hb2]. exists (set_entries A p m (a_set l key value)), pos.
    eexists [_]. split_and!.
    + cbn [spec_op fst snd]. rewrite Hthis. split; [done|]. left. done.
    + cbn [fst]. unfold a_set. rewrite Hidx. cbn [fmap option_fmap option_map].
      rewrite (alter_insert_eq _ _ _ _ Hla). cbn [fmap option_fmap option_map fst].
      same_state Hst2.
    + intros v Hv. cbn [fst]. unfold dup_value at 1. rewrite balance_emit, Hb2.
      unfold st1, dup_value, free_value. rewrite !balance_emit. cbn [gcount foldr fst snd ev_count]. lia.
  - apply wp_bind. eapply wp_mono.
    { by apply (map_add_record_spec st A held pos p m s l key). }
    intros [st1 a] Hadd. cbn [fst snd] in Hadd.
    destruct Hadd as [(-> & Hst1 & Er & Em & Ei & Hb)|(pos' & s' & r & H0 & Hst1 & Hm1 & Ha & Hp & He
      & Hkr & Hvr & Hpos & Ei & Hb)].
    + cbn. exists A, pos, []. split_and!; [|done|].
      * cbn [spec_op fst snd]. rewrite Hthis. split; [done|]. right. split_and!; try done.
        unfold a_has. fold key. by rewrite Hidx.
      * intros v Hv. cbn [fst]. rewrite Hb. cbn [gcount foldr fst snd ev_count]. lia.
    + rewrite (proj2 (Z.eqb_neq a 0)) by lia. set (st2 := dup_value st1 value).
      assert (Hst2 : st_rel st2 (set_entries A p m (l ++ [Some (key, JS_UNDEFINED)])) held pos')
        by (same_state Hst1).
      assert (Hl1 : a_maps (set_entries A p m (l ++ [Some (key, JS_UNDEFINED)])) !! p
        = Some (m, l ++ [Some (key, JS_UNDEFINED)])) by (cbn; by rewrite lookup_insert_eq).
      apply wp_bind. eapply wp_mono.
      { by apply (set_value_spec st2 _ held pos' Hst2 p m s' _ Hm1 Hl1 a r value Ha Hp He). }
      intros st3 [Hst3 Hb3]. exists (set_entries A p m (a_set l key value)), pos'.
      eexists [_]. split_and!.
      * cbn [spec_op fst snd]. rewrite Hthis. split; [done|]. left. done.
      * cbn [fst]. unfold a_set. rewrite Hidx. cbn [fmap option_fmap option_map].
        unfold set_entries in *. cbn [a_maps a_iters] in Hst3.
        rewrite Hpos, Hkr, insert_snoc, insert_insert_eq in Hst3.
        same_state Hst3.
      * intros v Hv. cbn [fst]. unfold dup_value at 1. rewrite balance_emit, Hb3.
        unfold st2, dup_value. rewrite !balance_emit, Hb, Hvr.
        rewrite (vcount_plain v JS_UNDEFINED) by done. cbn [gcount foldr fst snd ev_count]. lia.
Qed.

Lemma find_spec k p s l :
  map_rel (recs st) (locks (iters st) held) pos p s l -> key_ok (map_normalize_key k) ->
  wp (map_find_record st s (map_normalize_key k)) (fun o =>
    a_index l (map_normalize_key k) = pos <$> o
    /\ forall a, o = Some a -> exists r, recs st !! a = Some r /\ mr_map r = p
         /\ empty r = false /\ l !! pos a = Some (Some (mr_key r, mr_value r)) /\ 0 < a).
Proof.
  intros Hrel Hk.
  eapply wp_mono; [by apply (map_find_record_spec _ _ _ _ _ _ Hrel st)|].
  intros o Hf. by apply (a_index_found _ _ _ _ _ _ _ _ Hrel Hf).
Qed.

Lemma js_map_get_spec t k m : key_ok (map_normalize_key k) ->
  wp (not_done (js_map_get st t k m)) (op_result st A held (OpGet t k m)).
Proof.
  intros Hk. unfold not_done, js_map_get.
  pose proof (opaque_this st A held pos t m Hst) as Hthis.
  destruct (JS_GetOpaque2 st t m) as [p|].
  2:{ exists A, pos, []. cbn [spec_op fst snd]. rewrite Hthis. split_and!; try done. intros v Hv. cbn [gcount foldr fst snd]. lia. }
  destruct Hthis as (s & l & Hthis & -> & Hm & Hl & Hrel).
  unfold get_map. rewrite Hm. cbn [bind].
  apply wp_bind, wp_bind. eapply wp_mono; [by apply (find_spec k p s l)|].
  intros o [Hidx Hat]. destruct o as [a|].
  - destruct (Hat a eq_refl) as (r & Ha & _ & _ & Hla & _).
    unfold get_rec. rewrite Ha. cbn [bind]. exists A, pos, [mr_value r]. split_and!.
    + cbn [spec_op fst snd]. rewrite Hthis. split_and!; try done. unfold a_get. rewrite Hidx. cbn.
      by rewrite Hla.
    + same_state Hst.
    + intros v Hv. cbn [fst]. unfold dup_value. rewrite balance_emit. cbn [gcount foldr fst snd ev_count]. lia.
  - exists A, pos, [JS_UNDEFINED]. split_and!; [|done|].
    + cbn [spec_op fst snd]. rewrite Hthis. split_and!; try done. unfold a_get. by rewrite Hidx.
    + intros v Hv. cbn. rewrite vcount_plain by done. lia.
Qed.

Lemma js_map_has_spec t k m : key_ok (map_normalize_key k) ->
  wp (not_done (js_map_has st t k m)) (op_result st A held (OpHas t k m)).
Proof.
  intros Hk. unfold not_done, js_map_has.
  pose proof (opaque_this st A held pos t m Hst) as Hthis.
  destruct (JS_GetOpaque2 st t m) as [p|].
  2:{ exists A, pos, []. cbn [spec_op fst snd]. rewrite Hthis. split_and!; try done. intros v Hv. cbn [gcount foldr fst snd]. lia. }
  destruct Hthis as (s & l & Hthis & -> & Hm & Hl & Hrel).
  unfold get_map. rewrite Hm. cbn [bind].
  apply wp_bind, wp_bind. eapply wp_mono; [by apply (find_spec k p s l)|].
  intros o [Hidx _]. exists A, pos, []. cbn [fst snd]. split_and!; [|done|].
  - cbn [spec_op fst snd]. rewrite Hthis. split_and!; try done. unfold JS_NewBool, a_has. rewrite Hidx.
    f_equal. apply bool_decide_ext. by rewrite fmap_is_Some.
  - intros v Hv. cbn [gcount foldr fst snd ev_count]. lia.
Qed.

Lemma js_map_delete_spec t k m : key_ok (map_normalize_key k) ->
  wp (not_done (js_map_delete st t k m)) (op_result st A held (OpDelete t k m)).
Proof.
  intros Hk. unfold not_done, js_map_delete.
  pose proof (opaque_this st A held pos t m Hst) as Hthis.
  destruct (JS_GetOpaque2 st t m) as [p|].
  2:{ exists A, pos, []. cbn [spec_op fst snd]. rewrite Hthis. split_and!; try done. intros v Hv. cbn [gcount foldr fst snd]. lia. }
  destruct Hthis as (s & l & Hthis & -> & Hm & Hl & Hrel).
  unfold get_map. rewrite Hm. cbn [bind].
  apply wp_bind, wp_bind. eapply wp_mono; [by apply (find_spec k p s l)|].
  intros o [Hidx Hat]. destruct o as [a|].
  - destruct (Hat a eq_refl) as (r & Ha & Hp & He & _ & _).
    apply wp_bind. eapply wp_mono.
    { by apply (map_delete_record_spec st A held pos Hst p m s l Hm Hl a r). }
    intros st1 (Hst1 & _ & _ & _ & _ & Hb). eexists _, pos, []. split_and!; [|exact Hst1|].
    + cbn [spec_op fst snd]. rewrite Hthis. unfold a_delete, a_has. by rewrite Hidx.
    + intros v Hv. cbn [fst]. rewrite Hb. cbn [gcount foldr fst snd ev_count]. lia.
  - assert (EA : A = set_entries A p m l).
    { destruct A as [am ai]. unfold set_entries. cbn in *. f_equal. by rewrite insert_id. }
    eexists A, pos, []. split_and!; [|done|].
    + cbn [spec_op fst snd]. rewrite Hthis. unfold a_delete, a_has. by rewrite Hidx.
    + intros v Hv. cbn [gcount foldr fst snd ev_count]. lia.
Qed.

Lemma js_map_get_size_spec t m :
  wp (not_done (js_map_get_size st t m)) (op_result st A held (OpSize t m)).
Proof.
  unfold not_done, js_map_get_size.
  pose proof (opaque_this st A held pos t m Hst) as Hthis.
  destruct (JS_GetOpaque2 st t m) as [p|].
  2:{ exists A, pos, []. cbn [spec_op fst snd]. rewrite Hthis. split_and!; try done. intros v Hv. cbn [gcount foldr fst snd]. lia. }
  destruct Hthis as (s & l & Hthis & -> & Hm & Hl & Hrel).
  unfold get_map. rewrite Hm. cbn [bind]. exists A, pos, []. cbn [fst snd].
  split_and!; [|done|intros v Hv; cbn [gcount foldr fst snd]; lia]. cbn [spec_op fst snd]. rewrite Hthis.
  by rewrite (rl_count _ _ _ _ _ _ Hrel).
Qed.
End methods.
End spec.
