(* ===== verification/MapIterSpec.v ===== *)
(** * Traversals of a collection: [clear], iterators, [forEach] *)

From stdpp Require Import base tactics numbers list option sorting gmap.
From Stdlib Require Import ZArith Lia.
From S2P Require Import Prelude Values MapSet MapKeySpec MapRel MapStSpec MapOpSpec MapSpec.

Open Scope Z_scope.

Section iter.
Context {me : MapEngine} {ok : MapEngineOk me}.

Abbreviation entries := (list (option (JSValue * JSValue))).

(** ** The list of records *)

Lemma list_next_app R1 x R2 : x ∉ R1 -> list_next (R1 ++ x :: R2) x = Ret (list_first R2).
Proof.
  induction R1 as [|y R1 IH]; intros Hx; cbn.
  - by rewrite Z.eqb_refl.
  - rewrite (proj2 (Z.eqb_neq y x)); [apply IH|]; intros H; apply Hx; [by right|subst; by left].
Qed.

(** The records [R1] come before the index [i], the records [R2] after. *)
Definition cut (pos : Z -> nat) (R1 R2 : list Z) (i : nat) : Prop :=
  (forall a, a ∈ R1 -> (pos a < i)%nat) /\ (forall a, a ∈ R2 -> (i <= pos a)%nat).

Lemma a_next_Some (l : entries) i j kv :
  (i <= j)%nat -> l !! j = Some (Some kv) ->
  (forall n kv', (i <= n < j)%nat -> l !! n <> Some (Some kv')) ->
  a_next l i = Some (j, kv).
Proof.
  intros Hij Hj Hno. unfold a_next.
  assert (list_find is_Some (drop i l) = Some ((j - i)%nat, Some kv)) as ->.
  { apply list_find_Some. split_and!.
    - rewrite lookup_drop. by replace (i + (j - i))%nat with j by lia.
    - done.
    - intros n y Hn Hlt [kv' ->]. rewrite lookup_drop in Hn.
      by apply (Hno (i + n)%nat kv'); [lia|]. }
  do 2 f_equal. lia.
Qed.

Lemma a_next_None (l : entries) i :
  (forall n kv, (i <= n)%nat -> l !! n <> Some (Some kv)) -> a_next l i = None.
Proof.
  intros Hno. unfold a_next.
  assert (list_find is_Some (drop i l) = None) as ->; [|done].
  apply list_find_None, Forall_forall. intros y Hy [kv ->].
  apply list_elem_of_lookup in Hy as [n Hn]. rewrite lookup_drop in Hn.
  by apply (Hno (i + n)%nat kv); [lia|].
Qed.

Section one.
Context (st : map_st) (lk : Z -> Z) (pos : Z -> nat).
Context (p m : Z) (s : JSMapState) (l : entries).
Context (Hm : maps st !! p = Some (m, s)).
Context (Hrel : map_rel (recs st) lk pos p s l).

Lemma next_el_0 : next_el st p 0 = Ret (list_first (records s)).
Proof. unfold next_el, get_map. by rewrite Hm. Qed.

Lemma rec_pos a : a ∈ records s -> 0 < a.
Proof. intros Ha. by destruct (rl_rec _ _ _ _ _ _ Hrel a Ha) as (r & _ & _ & _ & _ & H). Qed.

Lemma next_el_app R1 x R2 : records s = R1 ++ x :: R2 ->
  next_el st p x = Ret (list_first R2).
Proof.
  intros ER. assert (Hx : x ∈ records s) by (rewrite ER; apply elem_of_app; right; by left).
  pose proof (rec_pos x Hx). unfold next_el, get_map. rewrite Hm. cbn [bind].
  rewrite (proj2 (Z.eqb_neq x 0)), ER by lia. apply list_next_app.
  pose proof (rel_NoDup _ _ _ _ _ _ Hrel) as Hnd. rewrite ER in Hnd.
  apply NoDup_app in Hnd as (_ & Hd & _). intros Hin. apply (Hd x Hin). by left.
Qed.

(** An entry of the specification has its record in one part. *)
Lemma entry_record i n kv R1 R2 : records s = R1 ++ R2 -> cut pos R1 R2 i ->
  (i <= n)%nat -> l !! n = Some (Some kv) ->
  exists a r, a ∈ R2 /\ pos a = n /\ recs st !! a = Some r /\ mr_map r = p /\ empty r = false
    /\ kv = (mr_key r, mr_value r).
Proof.
  intros ER [H1 H2] Hn Hl. destruct (rl_entry _ _ _ _ _ _ Hrel n kv Hl) as (_ & a & Ha & <-).
  destruct (rl_rec _ _ _ _ _ _ Hrel a Ha) as (r & Hr & Hp & Hla & _).
  rewrite Hl in Hla. injection Hla as E. unfold entry_of in E.
  destruct (empty r) eqn:He; [done|]. injection E as ->.
  rewrite ER in Ha. apply elem_of_app in Ha as [Ha|Ha]; [specialize (H1 a Ha); lia|].
  by exists a, r.
Qed.

(** The search of the next record finds the next entry. *)
Lemma skip_spec i R2 : forall R1 fuel,
  records s = R1 ++ R2 -> cut pos R1 R2 i -> (length R2 < fuel)%nat ->
  wp (loop fuel (skip_step p st) (list_first R2)) (fun el =>
    match a_next l i with
    | None => el = 0
    | Some (j, kv) => exists r, pos el = j /\ 0 < el /\ recs st !! el = Some r /\ mr_map r = p
        /\ empty r = false /\ kv = (mr_key r, mr_value r)
    end).
Proof.
  assert (Hgen : forall R2' R1' i', records s = R1' ++ R2' -> cut pos R1' R2' i' ->
    (i <= i')%nat -> (forall n kv, (i <= n < i')%nat -> l !! n <> Some (Some kv)) ->
    forall fuel, (length R2' < fuel)%nat ->
    wp (loop fuel (skip_step p st) (list_first R2')) (fun el =>
      match a_next l i with
      | None => el = 0
      | Some (j, kv) => exists r, pos el = j /\ 0 < el /\ recs st !! el = Some r /\ mr_map r = p
          /\ empty r = false /\ kv = (mr_key r, mr_value r)
      end)).
  2:{ intros R1 fuel ER Hcut Hf. apply (Hgen R2 R1 i); try done. intros; lia. }
  induction R2' as [|a R2' IH]; intros R1' i' ER Hcut Hi Hno fuel Hf.
  - destruct fuel as [|fuel]; [cbn in Hf; lia|]. rewrite loop_S. cbn [list_first hd].
    unfold skip_step. cbn. rewrite a_next_None; [done|]. intros n kv Hn Hl.
    destruct (decide (n < i')%nat) as [Hlt|Hge]; [by apply (Hno n kv); [lia|]|].
    destruct (entry_record i' n kv R1' [] ER Hcut ltac:(lia) Hl) as (a & r & Ha & _).
    by apply elem_of_nil in Ha.
  - destruct fuel as [|fuel]; [cbn in Hf; lia|]. rewrite loop_S. cbn [list_first hd].
    assert (HaR : a ∈ records s) by (rewrite ER; apply elem_of_app; right; by left).
    pose proof (rec_pos a HaR) as H0.
    destruct (rl_rec _ _ _ _ _ _ Hrel a HaR) as (r & Hr & Hp & Hla & _).
    unfold skip_step at 1. rewrite (proj2 (Z.eqb_neq a 0)) by lia.
    unfold get_rec. rewrite Hr. cbn [bind].
    assert (Hpos : (i' <= pos a)%nat) by (apply Hcut; by left).
    assert (Hlt : forall n, (i <= n < pos a)%nat -> forall kv, l !! n <> Some (Some kv)).
    { intros n Hn kv Hl. destruct (decide (n < i')%nat) as [Hlt|Hge]; [by apply (Hno n kv); [lia|]|].
      destruct (entry_record i' n kv R1' (a :: R2') ER Hcut ltac:(lia) Hl)
        as (b & rb & Hb & <- & _).
      apply elem_of_cons in Hb as [->|Hb]; [lia|].
      pose proof (rl_sorted _ _ _ _ _ _ Hrel) as Hs. rewrite ER in Hs.
      apply StronglySorted_app_1_r in Hs. inversion Hs as [|? ? _ Hf']; subst.
      rewrite Forall_forall in Hf'. specialize (Hf' b Hb). lia. }
    destruct (empty r) eqn:He; cbn [negb].
    + rewrite (next_el_app R1' a R2' ER). cbn [bind].
      apply (IH (R1' ++ [a]) (S (pos a))).
      * by rewrite <- app_assoc.
      * destruct Hcut as [C1 C2]. split.
        -- intros b [Hb|Hb]%elem_of_app; [specialize (C1 b Hb); lia|].
           apply list_elem_of_singleton in Hb as ->. lia.
        -- intros b Hb. pose proof (rl_sorted _ _ _ _ _ _ Hrel) as Hs. rewrite ER in Hs.
           apply StronglySorted_app_1_r in Hs. inversion Hs as [|? ? _ Hf']; subst.
           rewrite Forall_forall in Hf'. specialize (Hf' b Hb). lia.
      * lia.
      * intros n kv Hn. destruct (decide (n = pos a)) as [->|Hne].
        -- rewrite Hla. unfold entry_of. by rewrite He.
        -- apply Hlt. lia.
      * cbn in Hf. lia.
    + cbn [bind wp]. unfold entry_of in Hla. rewrite He in Hla.
      rewrite (a_next_Some l i (pos a) (mr_key r, mr_value r)); [by exists r|lia|done|intros n kv' Hn; by apply Hlt].
Qed.
End one.

(** ** [clear] *)

Lemma filter_ne_id (R : list Z) a : a ∉ R -> filter (fun y => y <> a) R = R.
Proof.
  induction R as [|x R IH]; intros Ha; [done|].
  rewrite filter_cons_True by (intros ->; apply Ha; by left).
  f_equal. apply IH. intros H. apply Ha. by right.
Qed.

(** What is left of the list after the deletion of its first part. *)
Lemma filter_tail (R1 : list Z) a R3 : NoDup (R1 ++ a :: R3) ->
  filter (fun y => y <> a) (R1 ++ a :: R3) = R1 ++ R3.
Proof.
  intros Hnd. apply NoDup_app in Hnd as (_ & Hd & Hnd). apply NoDup_cons in Hnd as [Ha _].
  rewrite filter_app, filter_cons_False by (intros H; by apply H).
  rewrite !filter_ne_id; [done|done|]. intros Hx. apply (Hd a Hx). by left.
Qed.

Lemma clear_loop p m held its A pos R2 : forall fuel st l el el1 s R1,
  st_rel st (set_entries A p m l) held pos -> iters st = its ->
  maps st !! p = Some (m, s) -> records s = R1 ++ R2 ->
  (forall a, a ∈ R1 -> exists r, recs st !! a = Some r /\ empty r = true) ->
  el = list_first R2 -> el1 = list_first (tail R2) \/ R2 = [] ->
  (length R2 < fuel)%nat ->
  wp (loop fuel (clear_step p) (el, el1, st)) (fun st' =>
    st_rel st' (set_entries A p m (a_clear l)) held pos
    /\ forall v, balance st' v = balance st v).
Proof.
  induction R2 as [|a R3 IH]; intros fuel st l el el1 s R1 Hst Hit Hm ER HR1 -> Hel1 Hf;
    (destruct fuel as [|fuel]; [cbn in Hf; lia|]); rewrite loop_S; unfold clear_step at 1.
  - cbn. split; [|done].
    assert (Hl : a_maps (set_entries A p m l) !! p = Some (m, l)) by (cbn; by rewrite lookup_insert_eq).
    pose proof (one_rel _ _ _ _ Hst _ _ _ _ Hm Hl) as Hrel.
    assert (a_clear l = l) as ->; [|done].
    unfold a_clear. rewrite <- (list_fmap_id l) at 2. apply list_fmap_ext.
    intros i o Hi. destruct o as [kv|]; [|done]. exfalso.
    destruct (rl_entry _ _ _ _ _ _ Hrel i kv Hi) as (_ & a & Ha & <-).
    destruct (rl_rec _ _ _ _ _ _ Hrel a Ha) as (r & Hr & _ & Hla & _).
    rewrite ER, app_nil_r in Ha. destruct (HR1 a Ha) as (r' & Hr' & He).
    rewrite Hr in Hr'. injection Hr' as <-. rewrite Hi in Hla. unfold entry_of in Hla.
    by rewrite He in Hla.
  - assert (Hl : a_maps (set_entries A p m l) !! p = Some (m, l)) by (cbn; by rewrite lookup_insert_eq).
    pose proof (one_rel _ _ _ _ Hst _ _ _ _ Hm Hl) as Hrel.
    assert (HaR : a ∈ records s) by (rewrite ER; apply elem_of_app; right; by left).
    pose proof (rec_pos _ _ _ _ _ _ Hrel a HaR) as H0. cbn [list_first hd].
    rewrite (proj2 (Z.eqb_neq a 0)) by lia.
    destruct (rl_rec _ _ _ _ _ _ Hrel a HaR) as (r & Hr & Hp & Hla & _).
    destruct Hel1 as [->|?]; [cbn [tail]|done].
    pose proof (rel_NoDup _ _ _ _ _ _ Hrel) as Hnd. rewrite ER in Hnd.
    (* the state after the deletion *)
    assert (Hdel : wp (map_delete_record st p a) (fun st' => exists l' s' R1',
      st_rel st' (set_entries A p m l') held pos /\ iters st' = its
      /\ maps st' !! p = Some (m, s') /\ records s' = R1' ++ R3
      /\ (forall b, b ∈ R1' -> exists rb, recs st' !! b = Some rb /\ empty rb = true)
      /\ a_clear l' = a_clear l /\ forall v, balance st' v = balance st v)).
    { destruct (empty r) eqn:He.
      - unfold map_delete_record, get_rec. rewrite Hr. cbn [bind]. rewrite He. apply wp_ret.
        exists l, s, (R1 ++ [a]). rewrite <- app_assoc. split_and!; try done.
        intros b [Hb|Hb]%elem_of_app; [by apply HR1|].
        apply list_elem_of_singleton in Hb as ->. by exists r.
      - eapply wp_mono; [by apply (map_delete_record_spec st _ held pos Hst p m s l Hm Hl a r)|].
        intros st' (Hst' & Ei & _ & (s' & Hm' & Hs') & Hrs & Hb).
        assert (Hmem : forall b, b ∈ R1 -> exists rb, recs st' !! b = Some rb /\ empty rb = true).
        { intros b Hb'. rewrite Hrs; [by apply HR1|]. intros ->.
          apply NoDup_app in Hnd as (_ & Hd & _). apply (Hd a Hb'). by left. }
        assert (Hst2 : st_rel st' (set_entries A p m (<[pos a:=None]> l)) held pos).
        { unfold set_entries in Hst' at 1. cbn [a_maps a_iters set_entries] in Hst'.
          rewrite insert_insert_eq in Hst'. done. }
        assert (Hcl : a_clear (<[pos a := None]> l) = a_clear l).
        { unfold a_clear. rewrite list_fmap_insert.
          rewrite list_insert_id; [done|]. by rewrite list_lookup_fmap, Hla. }
        destruct Hs' as [Hs'|Hs'].
        + exists (<[pos a := None]> l), s', (R1 ++ [a]). rewrite Hs', ER, <- app_assoc.
          split_and!; try done; [by rewrite Ei|].
          intros b [Hb'|Hb']%elem_of_app; [by apply Hmem|].
          apply list_elem_of_singleton in Hb' as ->.
          assert (Hl' : a_maps (set_entries A p m (<[pos a:=None]> l)) !! p
            = Some (m, <[pos a:=None]> l)) by (cbn; by rewrite lookup_insert_eq).
          pose proof (one_rel _ _ _ _ Hst2 _ _ _ _ Hm' Hl') as Hrel'.
          destruct (rl_rec _ _ _ _ _ _ Hrel' a) as (r' & Hr' & _ & Hla' & _).
          { rewrite Hs'. done. }
          exists r'. split; [done|]. rewrite list_lookup_insert_eq in Hla'
            by (by eapply lookup_lt_Some). unfold entry_of in Hla'.
          by destruct (empty r').
        + exists (<[pos a := None]> l), s', R1. rewrite Hs', ER, filter_tail by done.
          split_and!; try done. by rewrite Ei. }
    apply wp_bind, wp_bind. eapply wp_mono; [exact Hdel|].
    intros st' (l' & s' & R1' & Hst' & Hi' & Hm' & ER' & HR1' & Hcl & Hb).
    assert (Hl' : a_maps (set_entries A p m l') !! p = Some (m, l'))
      by (cbn; by rewrite lookup_insert_eq).
    pose proof (one_rel _ _ _ _ Hst' _ _ _ _ Hm' Hl') as Hrel'.
    assert (exists e2, next_el st' p (list_first R3) = Ret e2
      /\ (e2 = list_first (tail R3) \/ R3 = [])) as (e2 & -> & He2).
    { destruct R3 as [|b R3].
      - eexists. split; [exact (next_el_0 _ _ _ _ Hm')|by right].
      - exists (list_first R3). split; [|by left].
        exact (next_el_app _ _ _ _ _ _ _ Hm' Hrel' R1' b R3 ER'). }
    cbn [bind]. apply wp_ret. rewrite <- Hcl. eapply wp_mono.
    { eapply (IH fuel st' l' _ _ s' R1'); try done. cbn in Hf. lia. }
    intros st2 [Hst2 Hb2]. split; [done|]. intros v. by rewrite Hb2, Hb.
Qed.

Section methods.
Context (st : map_st) (A : astate) (held : list hold) (pos : Z -> nat).
Context (Hst : st_rel st A held pos).

Lemma js_map_clear_spec t m :
  wp (not_done (js_map_clear st t m)) (op_result st A held (OpClear t m)).
Proof.
  unfold not_done, js_map_clear.
  pose proof (opaque_this st A held pos t m Hst) as Hthis.
  destruct (JS_GetOpaque2 st t m) as [p|].
  2:{ exists A, pos, []. cbn [spec_op fst snd]. rewrite Hthis.
      split_and!; try done. intros v Hv. cbn [gcount foldr]. lia. }
  destruct Hthis as (s & l & Hthis & -> & Hm & Hl & Hrel).
  unfold get_map. rewrite Hm. cbn [bind]. rewrite (next_el_0 _ _ _ _ Hm). cbn [bind].
  assert (exists e1, next_el st p (list_first (records s)) = Ret e1
    /\ (e1 = list_first (tail (records s)) \/ records s = [])) as (e1 & -> & He1).
  { destruct (records s) as [|b R] eqn:ER.
    - eexists. split; [|by right]. unfold next_el, get_map. rewrite Hm. cbn. done.
    - exists (list_first R). split; [|by left].
      exact (next_el_app _ _ _ _ _ _ _ Hm Hrel [] b R ER). }
  cbn [bind].
  assert (EA : A = set_entries A p m l).
  { destruct A as [am ai]. unfold set_entries. cbn in *. f_equal. by rewrite insert_id. }
  apply wp_bind, wp_bind. eapply wp_mono.
  { eapply (clear_loop p m held (iters st) A pos (records s) _ st l _ _ s []); try done.
    - by rewrite <- EA.
    - by intros a ?%elem_of_nil.
    - lia. }
  intros st' [Hst' Hb]. exists (set_entries A p m (a_clear l)), pos, [].
  cbn [spec_op fst snd]. rewrite Hthis. split_and!; try done.
  intros v Hv. rewrite Hb. cbn [gcount foldr]. lia.
Qed.

Lemma js_create_map_iterator_spec t obj kind m :
  (forall o, obj = Some o -> iters st !! o = None) ->
  wp (not_done (js_create_map_iterator st t obj kind m)) (op_result st A held (OpIter t obj kind m)).
Proof.
  intros Hnew. unfold not_done, js_create_map_iterator.
  pose proof (opaque_this st A held pos t m Hst) as Hthis.
  destruct (JS_GetOpaque2 st t m) as [p|].
  2:{ exists A, pos, []. cbn [spec_op fst snd]. rewrite Hthis.
      split_and!; try done. intros v Hv. cbn [gcount foldr]. lia. }
  destruct Hthis as (s & l & Hthis & -> & Hm & Hl & Hrel).
  destruct obj as [o|].
  2:{ exists A, pos, []. cbn [spec_op fst snd]. rewrite Hthis.
      split_and!; try done. intros v Hv. cbn [gcount foldr]. lia. }
  specialize (Hnew o eq_refl). cbn [bind].
  eexists (set_aiter A o (AIter m kind (Some (p, 0%nat)))), pos, [].
  cbn [spec_op fst snd]. rewrite Hthis. split_and!; try done.
  - set (it := mkIter (JS_MKPTR PTR_OBJECT p) kind 0).
    apply (st_rel_ext (set_iters st (<[o := (m, it)]> (iters st)))); [done..|].
    apply (st_rel_iters _ A held); [done|..].
    + intros a r Ha. destruct (st_record_pos _ _ _ _ Hst a r Ha) as [H0 _].
      rewrite locks_iters_insert by done. cbn. rewrite lock_on_ne by lia. lia.
    + intros o'. destruct (decide (o' = o)) as [->|Hne].
      * rewrite !lookup_insert_eq. split_and!; try done. split; [done|].
        split; [by exists s|]. left. done.
      * rewrite !lookup_insert_ne by done. apply (sr_iters _ _ _ _ Hst o').
    + apply (sr_held _ _ _ _ Hst).
  - intros v Hv. unfold balance, holds, dup_value. cbn [log emit iters recs set_iters].
    rewrite net_snoc, msum_insert by done. unfold iter_holds at 1. cbn [snd it_obj ev_count gcount foldr].
    lia.
Qed.
End methods.
End iter.

(** ** The next entry of an iterator, and every operation *)

Section next.
Context {me : MapEngine} {ok : MapEngineOk me}.

Lemma balance_iter st o m it it' v :
  iters st !! o = Some (m, it) ->
  balance (with_iter st o m it') v = balance st v + vcount v (it_obj it) - vcount v (it_obj it').
Proof.
  intros Ho. unfold balance, holds, with_iter. cbn [log recs iters set_iters].
  rewrite (msum_update _ _ _ _ _ Ho). unfold iter_holds at 2 3. cbn [snd]. lia.
Qed.

Lemma set_iters_eta st its its' : set_iters (set_iters st its) its' = set_iters st its'.
Proof. done. Qed.

Lemma set_iters_self st : set_iters st (iters st) = st.
Proof. by destruct st. Qed.

Lemma set_aiter_twice A o x y : set_aiter (set_aiter A o x) o y = set_aiter A o y.
Proof. unfold set_aiter. cbn. by rewrite insert_insert_eq. Qed.

Section one.
Context (st : map_st) (A : astate) (held : list hold) (pos : Z -> nat).
Context (Hst : st_rel st A held pos).
Context (o m : Z) (it : JSMapIteratorData) (p : Z) (i : nat).
Context (Ho : iters st !! o = Some (m, it)).
Context (Hx : iter_rel st pos m it (Some (p, i))).

Abbreviation rest := (mkIter (it_obj it) (it_kind it) 0).

(** The state [g] without the lock of the iterator; the code has not updated
    the iterator yet. *)
Definition released (l : list (option (JSValue * JSValue))) (el : Z) (st1 : map_st) : Prop :=
  exists g s R1 R2,
    st1 = set_iters g (iters st)
    /\ iters g = <[o := (m, rest)]> (iters st)
    /\ st_rel g (set_aiter A o (AIter m (it_kind it) (Some (p, 0%nat)))) held pos
    /\ maps g !! p = Some (m, s) /\ records s = R1 ++ R2 /\ cut pos R1 R2 i
    /\ el = list_first R2
    /\ forall v, balance g v = balance st v.

Lemma release_spec l : a_maps A !! p = Some (m, l) ->
  exists el, next_el st p (cur_record it) = Ret el
    /\ wp (if cur_record it =? 0 then Ret st else map_decref_record st (cur_record it))
         (released l el).
Proof.
  intros Hl. pose proof Hx as (Hobj & [s Hm] & Hc).
  pose proof (one_rel _ _ _ _ Hst _ _ _ _ Hm Hl) as Hrel.
  set (g0 := with_iter st o m rest).
  assert (Hb0 : forall v, balance g0 v = balance st v).
  { intros v. unfold g0. rewrite (balance_iter st o m it) by done. cbn. lia. }
  assert (Hst0 : st = set_iters g0 (iters st)) by (unfold g0, with_iter; by rewrite set_iters_eta, set_iters_self).
  destruct (Z.eqb_spec (cur_record it) 0) as [E0|E0].
  - exists (list_first (records s)). rewrite E0. split; [exact (next_el_0 _ _ _ _ Hm)|].
    apply wp_ret. exists g0, s, [], (records s). split_and!; try done.
    + eapply (st_rel_with_iter _ _ held _ _ _ _ it rest); try done.
      * intros a. left. rewrite E0. cbn. lia.
      * split; [done|]. split; [by exists s|]. by left.
      * apply (sr_held _ _ _ _ Hst).
    + split; [by intros a ?%elem_of_nil|]. intros a Ha. destruct Hc as [[_ ->]|[(r & Hr & _) _]]; [lia|].
      destruct (st_record_pos _ _ _ _ Hst _ r Hr) as [? _]. lia.
  - destruct Hc as [[Hc _]|[(r & Hr & Hp) Hi]]; [done|].
    pose proof (rl_owned _ _ _ _ _ _ Hrel _ r Hr Hp) as HR.
    apply list_elem_of_split in HR as (R1 & R2 & ER).
    exists (list_first R2).
    split; [exact (next_el_app _ _ _ _ _ _ _ Hm Hrel R1 _ R2 ER)|].
    assert (Hst1 : st_rel g0 (set_aiter A o (AIter m (it_kind it) (Some (p, 0%nat))))
      (mkHold (cur_record it) p (pos (cur_record it)) :: held) pos) by by eapply st_rel_unlock_iter.
    rewrite Hst0 at 1. rewrite map_decref_record_iters. apply wp_bind.
    eapply wp_mono; [by apply (map_decref_record_spec g0 _ held pos (cur_record it) _ _ r Hst1)|].
    intros g (Hg & Eg & _ & _ & Hmg & Hb). apply wp_ret.
    destruct (Hmg m s) as (s' & Hm' & Hs'); [by rewrite Hp|]. rewrite Hp in Hm'.
    pose proof (rel_NoDup _ _ _ _ _ _ Hrel) as Hnd. rewrite ER in Hnd.
    pose proof (rl_sorted _ _ _ _ _ _ Hrel) as Hsort. rewrite ER in Hsort.
    assert (H1 : forall a, a ∈ R1 -> (pos a < pos (cur_record it))%nat).
    { intros a Ha. eapply (StronglySorted_app_1_elem_of _ _ _ a (cur_record it) Hsort Ha).
      by left. }
    assert (H2 : forall a, a ∈ R2 -> (S (pos (cur_record it)) <= pos a)%nat).
    { intros a Ha. apply StronglySorted_app_1_r in Hsort.
      inversion Hsort as [|? ? _ Hf]; subst. rewrite Forall_forall in Hf. by apply Hf. }
    assert (Hs2 : exists R1', records s' = R1' ++ R2 /\ forall a, a ∈ R1' -> (pos a < i)%nat).
    { destruct Hs' as [->| ->]; rewrite ER.
      - exists (R1 ++ [cur_record it]). rewrite <- app_assoc. split; [done|].
        intros a [Ha|Ha]%elem_of_app; [specialize (H1 a Ha); lia|].
        apply list_elem_of_singleton in Ha as ->. lia.
      - exists R1. rewrite filter_tail by done. split; [done|].
        intros a Ha. specialize (H1 a Ha). lia. }
    destruct Hs2 as (R1' & ER' & H1'). exists g, s', R1', R2. split_and!; try done.
    + split; [done|]. intros a Ha. rewrite Hi. by apply H2.
    + intros v. by rewrite Hb.
Qed.

(** The lock on the record that is found. *)
Lemma relock g r el s :
  iters g = <[o := (m, rest)]> (iters st) ->
  st_rel g (set_aiter A o (AIter m (it_kind it) (Some (p, 0%nat)))) held pos ->
  maps g !! p = Some (m, s) -> recs g !! el = Some r -> mr_map r = p -> empty r = false ->
  Z.of_nat (size (iters st)) + Z.of_nat (length held) < INT32_MAX - 1 ->
  wp (map_incref_record (set_iters g (iters st)) el) (fun st2 => exists r',
    st_rel (with_iter st2 o m (mkIter (it_obj it) (it_kind it) el))
      (set_aiter A o (AIter m (it_kind it) (Some (p, S (pos el))))) held pos
    /\ iters st2 = iters st
    /\ recs st2 !! el = Some r' /\ mr_key r' = mr_key r /\ mr_value r' = mr_value r
    /\ forall v, balance (with_iter st2 o m (mkIter (it_obj it) (it_kind it) el)) v = balance g v).
Proof.
  intros Eg Hg Hm Hr Hp He Hbound. rewrite map_incref_record_iters. apply wp_bind.
  destruct (st_record_pos _ _ _ _ Hg el r Hr) as [_ [Hc _]]. rewrite He in Hc.
  pose proof (locks_le (iters g) held el) as Hle.
  assert (Hsize : size (iters g) = size (iters st)).
  { rewrite Eg. by apply map_size_insert_Some. }
  eapply wp_mono; [apply (map_incref_record_spec _ _ _ _ Hg el r Hr); lia|].
  intros g2 (Hg2 & Em & Ei & _ & Hr2 & Hb). apply wp_ret. eexists.
  assert (Ho2 : iters g2 !! o = Some (m, rest)) by (rewrite Ei, Eg; apply lookup_insert_eq).
  assert (Es : with_iter (set_iters g2 (iters st)) o m (mkIter (it_obj it) (it_kind it) el)
    = with_iter g2 o m (mkIter (it_obj rest) (it_kind rest) el)).
  { unfold with_iter. cbn [iters set_iters it_obj it_kind]. rewrite set_iters_eta.
    by rewrite Ei, Eg, insert_insert_eq. }
  split_and!; [|done|exact Hr2|done|done|].
  - rewrite Es. pose proof Hx as (Hobj & _).
    pose proof (fun r' => st_rel_lock_iter g2 _ held pos o m rest p _ _ el r' Hg2 Ho2 eq_refl Hobj) as H.
    rewrite set_aiter_twice in H. eapply H; [by rewrite Em; eexists|exact Hr2|done].
  - intros v. rewrite Es, (balance_iter g2 o m rest) by done. rewrite Hb. cbn. lia.
Qed.
End one.

Section methods.
Context (st : map_st) (A : astate) (held : list hold) (pos : Z -> nat).
Context (Hst : st_rel st A held pos).

Lemma js_map_iterator_next_spec o m :
  Z.of_nat (size (iters st)) + Z.of_nat (length held) < INT32_MAX - 1 ->
  wp (js_map_iterator_next st o m) (op_result st A held (OpNext o m)).
Proof.
  intros Hbound. unfold js_map_iterator_next.
  assert (H0 : forall v, balance st v = balance st v + gcount [] v)
    by (intros v; cbn [gcount foldr]; lia).
  destruct (iters st !! o) as [[m' it]|] eqn:Ho.
  2:{ exists A, pos, []. cbn [spec_op fst snd]. pose proof (sr_iters _ _ _ _ Hst o) as H.
      rewrite Ho in H. destruct (a_iters A !! o); [done|]. split_and!; try done. }
  destruct (st_iter _ _ _ _ Hst o m' it Ho) as (kind & x & Ha & -> & Hx).
  destruct (Z.eqb_spec m' m) as [->|Hne]; cbn [negb].
  2:{ exists A, pos, []. cbn [spec_op fst snd]. rewrite Ha.
      rewrite (proj2 (Z.eqb_neq m' m)) by done. split_and!; try done. }
  destruct x as [[p i]|].
  2:{ destruct Hx as [Hobj _]. rewrite Hobj. cbn [JS_IsUndefined].
      exists A, pos, []. cbn [spec_op fst snd]. rewrite Ha, Z.eqb_refl. cbn [negb].
      split_and!; try done. }
  pose proof Hx as (Hobj & [s0 Hm0] & _). rewrite Hobj. cbn [JS_IsUndefined obj_of bind].
  destruct (st_map _ _ _ _ Hst p m s0 Hm0) as (l & Hl & _).
  destruct (release_spec st A held pos Hst o m it p i Ho Hx l Hl) as (el & -> & Hrel).
  cbn [bind]. apply wp_bind. eapply wp_mono; [exact Hrel|].
  intros st1 (g & s & R1 & R2 & -> & Eg & Hg & Hm & ER & Hcut & -> & Hb).
  unfold get_map. cbn [maps set_iters]. rewrite Hm. cbn [bind].
  assert (Hlg : a_maps (set_aiter A o (AIter m (it_kind it) (Some (p, 0%nat)))) !! p = Some (m, l))
    by done.
  pose proof (one_rel _ _ _ _ Hg _ _ _ _ Hm Hlg) as Hmr.
  apply wp_bind. eapply wp_mono.
  { apply (skip_spec (set_iters g (iters st)) _ pos p m s l Hm Hmr i R2 R1); [done|done|].
    rewrite ER, length_app. lia. }
  intros el Hel. destruct (a_next l i) as [[j [key value]]|] eqn:En.
  - destruct Hel as (r & Hpos & Hel0 & Hr & Hp & He & [= -> ->]).
    rewrite (proj2 (Z.eqb_neq el 0)) by lia.
    apply wp_bind. eapply wp_mono.
    { by apply (relock st A held pos o m it p i Ho Hx g r el s). }
    intros st2 (r' & Hst2 & Ei & Hr' & Hk & Hv & Hb2).
    unfold put_iter. rewrite Ei, Ho. cbn [bind]. rewrite <- Ei.
    change (set_iters st2 (<[o := (m, mkIter (JS_MKPTR PTR_OBJECT p) (it_kind it) el)]> (iters st2)))
      with (with_iter st2 o m (mkIter (JS_MKPTR PTR_OBJECT p) (it_kind it) el)).
    rewrite Hobj in Hst2, Hb2. set (st3 := with_iter st2 o m _) in *.
    unfold get_rec. change (recs st3) with (recs st2). rewrite Hr'. cbn [bind].
    rewrite Hpos in Hst2. rewrite Hk, Hv.
    assert (Hbal : forall v, balance st3 v = balance st v) by (intros v; by rewrite Hb2, Hb).
    assert (Hone : forall x, st_rel (dup_value st3 x)
        (set_aiter A o (AIter m (it_kind it) (Some (p, S j)))) held pos
      /\ forall v, balance (dup_value st3 x) v = balance st v + gcount [x] v).
    { intros x. split; [same_state Hst2|]. intros v. unfold dup_value.
      rewrite balance_emit, Hbal. cbn [ev_count gcount foldr]. lia. }
    destruct (it_kind it) eqn:Ek.
    + destruct (Hone (mr_key r)) as [Hs Hbv].
      eexists _, pos, [_]. split_and!; [|exact Hs|intros v _; apply Hbv].
      cbn [spec_op fst snd]. rewrite Ha, Z.eqb_refl. exists l. split; [done|].
      rewrite En. by split_and!.
    + destruct (Hone (if negb (m =? 0) then mr_key r else mr_value r)) as [Hs Hbv].
      eexists _, pos, [_]. split_and!; [|exact Hs|intros v _; apply Hbv].
      cbn [spec_op fst snd]. rewrite Ha, Z.eqb_refl. exists l. split; [done|].
      rewrite En. by split_and!.
    + destruct (js_create_array (heap st3) _) as [h arr] eqn:Earr.
      eexists _, pos, (if JS_IsException arr then [] else _). split_and!.
      * cbn [spec_op fst snd]. rewrite Ha, Z.eqb_refl. exists l. split; [done|].
        rewrite En. split_and!; [done|done| |done]. exists (heap st3). by rewrite Earr.
      * cbn [fst]. destruct (JS_IsException arr); same_state Hst2.
      * intros v _. cbn [fst]. destruct (JS_IsException arr).
        -- cbn [gcount foldr]. change (balance (set_heap st3 h) v) with (balance st3 v).
           rewrite Hbal. lia.
        -- unfold dup_value. rewrite !balance_emit.
           change (balance (set_heap st3 h) v) with (balance st3 v). rewrite Hbal.
           cbn [gcount foldr ev_count]. lia.
  - subst el. cbn [Z.eqb]. unfold put_iter. cbn [iters free_value emit set_iters].
    rewrite Ho. cbn [bind].
    eexists (set_aiter A o (AIter m (it_kind it) None)), pos, []. split_and!.
    + cbn [spec_op fst snd]. rewrite Ha, Z.eqb_refl. exists l. split; [done|].
      by rewrite En.
    + cbn [fst]. assert (Hog : iters g !! o = Some (m, mkIter (it_obj it) (it_kind it) 0))
        by (rewrite Eg; apply lookup_insert_eq).
      pose proof (st_rel_with_iter g _ held held pos o m _ (mkIter JS_UNDEFINED (it_kind it) 0)
        None Hg Hog) as H.
      rewrite set_aiter_twice in H. cbn [it_kind] in H.
      eapply (st_rel_ext (with_iter g o m (mkIter JS_UNDEFINED (it_kind it) 0))); try done.
      * cbn. by rewrite Eg, insert_insert_eq.
      * apply H; [|done|apply (sr_held _ _ _ _ Hg)]. intros a. left. cbn. lia.
    + intros v Hv. cbn [fst]. rewrite <- Hb.
      assert (Hog : iters g !! o = Some (m, mkIter (it_obj it) (it_kind it) 0))
        by (rewrite Eg; apply lookup_insert_eq).
      pose proof (balance_iter g o m _ (mkIter JS_UNDEFINED (it_kind it) 0) v Hog) as Hi.
      cbn [it_obj] in Hi. rewrite (vcount_plain v JS_UNDEFINED), Hobj in Hi by done.
      assert (E : balance (set_iters (emit (set_iters g (iters st)) (Free (JS_MKPTR PTR_OBJECT p)))
          (<[o:=(m, mkIter JS_UNDEFINED (it_kind it) 0)]> (iters st))) v
        = balance (emit (with_iter g o m (mkIter JS_UNDEFINED (it_kind it) 0))
            (Free (JS_MKPTR PTR_OBJECT p))) v).
      { unfold balance, holds, with_iter. cbn [log recs iters set_iters emit].
        by rewrite Eg, insert_insert_eq. }
      unfold free_value. rewrite E, balance_emit, Hi. cbn [ev_count gcount foldr]. lia.
Qed.

Lemma js_map_iterator_finalizer_spec o :
  wp (run_op st (OpFreeIter o)) (op_result st A held (OpFreeIter o)).
Proof.
  cbn [run_op]. unfold js_map_iterator_finalizer.
  destruct (iters st !! o) as [[m it]|] eqn:Ho.
  2:{ cbn [bind]. exists (mkA (a_maps A) (delete o (a_iters A))), pos, []. cbn [spec_op fst snd].
      pose proof (sr_iters _ _ _ _ Hst o) as H. rewrite Ho in H.
      destruct (a_iters A !! o) eqn:Ea; [done|].
      split_and!; try done.
      - rewrite delete_id by done. by destruct A.
      - intros v _. cbn [gcount foldr]. lia. }
  destruct (st_iter _ _ _ _ Hst o m it Ho) as (kind & x & Ha & -> & Hx). cbn [andb].
  (* the lock of the iterator is released *)
  assert (Hrel : wp (if negb (cur_record it =? 0) then map_decref_record st (cur_record it)
      else Ret st) (fun st1 => exists g A1 it1, st1 = set_iters g (iters st)
    /\ st_rel g A1 held pos /\ a_maps A1 = a_maps A
    /\ delete o (a_iters A1) = delete o (a_iters A)
    /\ iters g !! o = Some (m, it1) /\ delete o (iters g) = delete o (iters st)
    /\ cur_record it1 = 0 /\ it_obj it1 = it_obj it
    /\ forall v, balance g v = balance st v)).
  { destruct (Z.eqb_spec (cur_record it) 0) as [E0|E0]; cbn [negb].
    - apply wp_ret. exists st, A, it. split_and!; try done. by rewrite set_iters_self.
    - destruct x as [[p i]|]; [|by destruct Hx].
      pose proof Hx as (_ & [s Hm] & _). destruct (st_map _ _ _ _ Hst p m s Hm) as (l & Hl & _).
      destruct (release_spec st A held pos Hst o m it p i Ho Hx l Hl) as (el & _ & Hr).
      rewrite (proj2 (Z.eqb_neq _ _) E0) in Hr. eapply wp_mono; [exact Hr|].
      intros st1 (g & s' & R1 & R2 & -> & Eg & Hg & _ & _ & _ & _ & Hb).
      eexists g, _, (mkIter (it_obj it) (it_kind it) 0). split_and!; try done.
      + cbn [a_iters set_aiter]. by rewrite delete_insert_eq.
      + rewrite Eg. apply lookup_insert_eq.
      + by rewrite Eg, delete_insert_eq. }
  apply wp_bind, wp_bind. eapply wp_mono; [exact Hrel|].
  intros st1 (g & A1 & it1 & -> & Hg & Em & Ea & Hog & Ed & Hc & Hobj & Hb). apply wp_ret.
  exists (mkA (a_maps A) (delete o (a_iters A))), pos, []. cbn [spec_op fst snd].
  split_and!; try done.
  - apply (st_rel_ext (set_iters g (delete o (iters g)))); [done|done|by cbn|].
    rewrite <- Em, <- Ea. apply (st_rel_iters _ _ held); [done|..].
    + intros a r Hr. destruct (st_record_pos _ _ _ _ Hg a r Hr) as [H0 _].
      rewrite (locks_iters_delete _ _ _ _ _ _ Hog), Hc, lock_on_ne by lia. lia.
    + intros o'. destruct (decide (o' = o)) as [->|Hne].
      * by rewrite !lookup_delete_eq.
      * rewrite !lookup_delete_ne by done. apply (sr_iters _ _ _ _ Hg o').
    + apply (sr_held _ _ _ _ Hg).
  - intros v _. unfold balance, holds, free_value. cbn [log recs iters set_iters emit].
    rewrite <- Ed, net_snoc, (msum_delete _ _ _ _ Hog). unfold iter_holds at 2.
    cbn [snd ev_count gcount foldr]. rewrite Hobj. specialize (Hb v).
    unfold balance, holds in Hb. lia.
Qed.

Lemma map_run_op_spec op : op_ok st held op -> wp (run_op st op) (op_result st A held op).
Proof.
  intros [Hbound Hop]. destruct op; cbn [run_op].
  - by apply (js_map_set_spec st A held pos).
  - by apply (js_map_get_spec st A held pos).
  - by apply (js_map_has_spec st A held pos).
  - by apply (js_map_delete_spec st A held pos).
  - by apply (js_map_clear_spec st A held pos).
  - by apply (js_map_get_size_spec st A held pos).
  - apply (js_create_map_iterator_spec st A held pos); [done|]. by intros o ->.
  - by apply js_map_iterator_next_spec.
  - apply js_map_iterator_finalizer_spec.
Qed.
End methods.
End next.
