(* ===== verification/MapRefineSpec.v ===== *)
(** * Map and Set are the collections of the language

    The simulation of every operation, [forEach] with a callback that may
    change the collections, and the cases where the lookup of the code fails
    on a key that is there. *)

From stdpp Require Import base tactics numbers list option sorting gmap.
From Stdlib Require Import ZArith Lia SpecFloat.
From S2P Require Import Prelude Values MapSet MapKeySpec MapRel MapStSpec MapOpSpec MapSpec MapIterSpec.
From S2P Require Atoms.

Open Scope Z_scope.

Lemma wp_loop_more {S R} fuel fuel' (body : S -> res (S + R)) s Q :
  (fuel <= fuel')%nat -> wp (loop fuel body s) Q -> wp (loop fuel' body s) Q.
Proof.
  revert fuel' s. induction fuel as [|fuel IH]; intros [|fuel'] s Hle H; try lia; try done.
  rewrite loop_S in *. destruct (body s) as [[s'|x]| |]; try done. cbn [bind] in *.
  apply IH; [lia|done].
Qed.

Section refine.
Context {me : MapEngine} {ok : MapEngineOk me}.

Abbreviation entries := (list (option (JSValue * JSValue))).

(** The state represents the collections and iterators [A]; [held] are the
    traversals in progress. *)
Definition represents (held : list hold) (st : map_st) (A : astate) : Prop :=
  exists pos, st_rel st A held pos.

Lemma map_init_rel st A held pos obj magic :
  st_rel st A held pos -> maps st !! obj = None -> Z.land magic MAGIC_WEAK = 0 ->
  st_rel (map_init st obj magic) (set_entries A obj magic []) held pos.
Proof.
  intros Hst Hnew Hw. unfold map_init. rewrite Hw. cbn [Z.eqb negb].
  split; cbn [maps recs iters set_maps a_maps a_iters set_entries].
  - intros p. destruct (decide (p = obj)) as [->|Hne].
    + rewrite !lookup_insert_eq. split; [done|]. split; cbn; try done.
      * constructor.
      * by intros a ?%elem_of_nil.
      * intros a r Hr Hm. destruct (sr_recs _ _ _ _ Hst a r Hr) as [x Hx]. congruence.
      * intros [|[|h]] c Hc; try done. injection Hc as <-. split; [constructor|].
        intros a. split; [by intros ?%elem_of_nil|by intros [?%elem_of_nil _]].
    + rewrite !lookup_insert_ne by done. apply (sr_maps _ _ _ _ Hst p).
  - intros a r Hr. destruct (decide (mr_map r = obj)) as [->|Hne].
    + rewrite lookup_insert_eq. by eexists.
    + rewrite lookup_insert_ne by done. by apply (sr_recs _ _ _ _ Hst a).
  - intros o. pose proof (sr_iters _ _ _ _ Hst o) as Ho.
    destruct (iters st !! o) as [[m it]|], (a_iters A !! o) as [[m' kind x]|]; try done.
    destruct Ho as (E1 & E2 & Hx). split_and!; [done..|]. unfold iter_rel in *.
    destruct x as [[p i]|]; [|done]. destruct Hx as (Hobj & [s Hs] & Hc).
    split_and!; [done| |done]. exists s. cbn. rewrite lookup_insert_ne; [done|]. congruence.
  - apply (sr_held _ _ _ _ Hst).
Qed.


(** ** [forEach] *)

Section forEach.
Context (cb : map_st -> list JSValue -> res (map_st * JSValue)).
Context (acb : astate -> list JSValue -> astate * JSValue).

(** An [int] counts the locks. *)
Definition few (st : map_st) (held : list hold) : Prop :=
  Z.of_nat (size (iters st)) + Z.of_nat (length held) < INT32_MAX - 1.

(** The callback does what [acb] says, whatever traversals are in progress;
    its result is a reference that it gives. *)
Definition callback_ok : Prop := forall st A held args,
  represents held st A -> few st held ->
  wp (cb st args) (fun '(st', v) =>
    represents held st' (acb A args).1 /\ few st' held /\ v = (acb A args).2
    /\ forall x, JS_VALUE_HAS_REF_COUNT x = true ->
         balance st' x = balance st x + vcount x v).

(** The traversal of the language: the entries that are there when their
    turn comes, those that the callback adds included. *)
Fixpoint a_forEach (n : nat) (A : astate) (p : Z) (magic : Z) (i : nat)
  : option (astate * JSValue) :=
  match n with
  | O => None
  | S n =>
      match a_maps A !! p with
      | None => None
      | Some (_, l) =>
          match l !! i with
          | None => Some (A, JS_UNDEFINED)
          | Some None => a_forEach n A p magic (S i)
          | Some (Some (key, value)) =>
              let value := if negb (magic =? 0) then key else value in
              let '(A', ret) := acb A [value; key; JS_MKPTR PTR_OBJECT p] in
              if JS_IsException ret then Some (A', ret)
              else a_forEach n A' p magic (S i)
          end
      end
  end.

Context (Hcb : callback_ok).

Abbreviation hold0 := (mkHold 0 0 0).

(** After the callback: the lock on the current record is released. *)
Lemma forEach_release st A held pos a p i :
  st_rel st A (mkHold a p i :: held) pos ->
  exists el1, next_el st p a = Ret el1 /\
  wp (map_decref_record st a) (fun st2 => exists m s l R1 R2,
    st_rel st2 A held pos /\ maps st2 !! p = Some (m, s) /\ a_maps A !! p = Some (m, l)
    /\ records s = R1 ++ R2 /\ cut pos R1 R2 (S i) /\ el1 = list_first R2
    /\ iters st2 = iters st
    /\ forall v, balance st2 v = balance st v).
Proof.
  intros Hst. destruct (sr_held _ _ _ _ Hst (mkHold a p i)) as (r & Hr & Hp & Hi); [by left|].
  cbn [h_rec h_map h_pos] in Hr, Hp, Hi.
  destruct (st_record _ _ _ _ Hst a r Hr) as (m & s & l & Hm & Hl & Hrel). rewrite Hp in *.
  pose proof (rl_owned _ _ _ _ _ _ Hrel a r Hr Hp) as HR.
  apply list_elem_of_split in HR as (R1 & R2 & ER).
  exists (list_first R2). split; [exact (next_el_app _ _ _ _ _ _ _ Hm Hrel R1 a R2 ER)|].
  eapply wp_mono; [by apply (map_decref_record_spec st A held pos a p i r)|].
  intros st2 (Hst2 & Ei & _ & _ & Hmg & Hb).
  destruct (Hmg m s) as (s' & Hm' & Hs'); [by rewrite Hp|]. rewrite Hp in Hm'.
  pose proof (rel_NoDup _ _ _ _ _ _ Hrel) as Hnd. rewrite ER in Hnd.
  pose proof (rl_sorted _ _ _ _ _ _ Hrel) as Hsort. rewrite ER in Hsort.
  assert (H1 : forall b, b ∈ R1 -> (pos b < S i)%nat).
  { intros b Hb'. rewrite <- Hi. apply Nat.lt_lt_succ_r.
    eapply (StronglySorted_app_1_elem_of _ _ _ b a Hsort Hb'). by left. }
  assert (H2 : forall b, b ∈ R2 -> (S i <= pos b)%nat).
  { intros b Hb'. rewrite <- Hi. apply StronglySorted_app_1_r in Hsort.
    inversion Hsort as [|? ? _ Hf]; subst. rewrite Forall_forall in Hf. by apply Hf. }
  destruct Hs' as [Hs'|Hs']; rewrite ER in Hs'.
  - exists m, s', l, (R1 ++ [a]), R2. rewrite <- app_assoc. split_and!; try done. split; [|done].
    intros b [Hb'|Hb']%elem_of_app; [by apply H1|].
    apply list_elem_of_singleton in Hb' as ->. lia.
  - rewrite filter_tail in Hs' by done. exists m, s', l, R1, R2. by split_and!.
Qed.

Lemma forEach_loop p magic held n : forall st A pos m s l R1 R2 i A' ret,
  st_rel st A held pos -> few st (hold0 :: held) ->
  maps st !! p = Some (m, s) -> a_maps A !! p = Some (m, l) ->
  records s = R1 ++ R2 -> cut pos R1 R2 i ->
  a_forEach n A p magic i = Some (A', ret) ->
  wp (loop n (forEach_step cb p (JS_MKPTR PTR_OBJECT p) magic) (list_first R2, st))
    (fun '(st', v) => represents held st' A' /\ v = ret
       /\ forall x, JS_VALUE_HAS_REF_COUNT x = true -> balance st' x = balance st x + vcount x v).
Proof.
  induction n as [|n IH]; intros st A pos m s l R1 R2 i A' ret Hst Hfew Hm Hl ER Hcut Hfe; [done|].
  cbn [a_forEach] in Hfe. rewrite Hl in Hfe.
  pose proof (one_rel _ _ _ _ Hst _ _ _ _ Hm Hl) as Hrel.
  assert (Hlt : forall a, a ∈ R2 -> (pos a < length l)%nat).
  { intros a Ha. destruct (rl_rec _ _ _ _ _ _ Hrel a) as (r & _ & _ & Hla & _).
    - rewrite ER. apply elem_of_app. by right.
    - by eapply lookup_lt_Some. }
  assert (Hsort : forall a R3, R2 = a :: R3 -> forall b, b ∈ R3 -> (pos a < pos b)%nat).
  { intros a R3 -> b Hb. pose proof (rl_sorted _ _ _ _ _ _ Hrel) as Hs. rewrite ER in Hs.
    apply StronglySorted_app_1_r in Hs. inversion Hs as [|? ? _ Hf]; subst.
    rewrite Forall_forall in Hf. by apply Hf. }
  assert (Hshift : forall a R3, R2 = a :: R3 -> pos a = i -> cut pos (R1 ++ [a]) R3 (S i)).
  { intros a R3 -> Hi. destruct Hcut as [C1 C2]. split.
    - intros b [Hb|Hb]%elem_of_app; [specialize (C1 b Hb); lia|].
      apply list_elem_of_singleton in Hb as ->. lia.
    - intros b Hb. specialize (Hsort a R3 eq_refl b Hb). lia. }
  destruct (l !! i) as [[[key value]|]|] eqn:Ei.
  - (* an entry: its record is the first one *)
    destruct (entry_record _ _ _ _ _ _ Hrel i i _ R1 R2 ER Hcut (le_n i) Ei)
      as (b & r & Hb & Hpb & Hr & Hp & He & Ekv).
    injection Ekv as -> ->.
    destruct R2 as [|a R3]; [by apply elem_of_nil in Hb|].
    assert (b = a) as ->.
    { apply elem_of_cons in Hb as [->|Hb]; [done|]. specialize (Hsort a R3 eq_refl b Hb).
      destruct Hcut as [_ C2]. specialize (C2 a ltac:(by left)). lia. }
    destruct (st_record_pos _ _ _ _ Hst a r Hr) as [H0 [Hc _]]. rewrite He in Hc.
    pose proof (locks_le (iters st) held a) as Hle. unfold few in Hfew. cbn [length] in Hfew.
    rewrite loop_S. cbn [list_first hd]. unfold forEach_step at 1.
    rewrite (proj2 (Z.eqb_neq a 0)) by lia. unfold get_rec. rewrite Hr. cbn [bind].
    rewrite He. cbn [negb].
    apply wp_bind, wp_bind. eapply wp_mono; [apply (map_incref_record_spec _ _ _ _ Hst a r Hr); lia|].
    intros st1 (Hst1 & Em1 & Ei1 & _ & Hr1 & Hb1).
    set (value := if negb (magic =? 0) then mr_key r else mr_value r) in *.
    set (st2 := if negb (magic =? 0) then dup_value st1 (mr_key r)
                else dup_value (dup_value st1 (mr_key r)) value).
    assert (E2 : recs st2 = recs st1 /\ maps st2 = maps st1 /\ iters st2 = iters st1)
      by (unfold st2; destruct (negb _); done).
    destruct E2 as (Er2 & Em2 & Ei2). rewrite Hp, Hpb in Hst1.
    assert (Hst2 : st_rel st2 A (mkHold a p i :: held) pos) by (by eapply st_rel_ext; [..|exact Hst1]).
    destruct (acb A [value; mr_key r; JS_MKPTR PTR_OBJECT p]) as [A2 v2] eqn:Eacb.
    pose proof (Hcb st2 A (mkHold a p i :: held) [value; mr_key r; JS_MKPTR PTR_OBJECT p]) as Hcall.
    rewrite Eacb in Hcall. cbn [fst snd] in Hcall.
    assert (Hfew2 : few st2 (mkHold a p i :: held)).
    { unfold few. rewrite Ei2, Ei1. cbn [length]. lia. }
    specialize (Hcall ltac:(by exists pos) Hfew2).
    apply wp_bind. eapply wp_mono; [exact Hcall|].
    intros [st3 v3] ((pos3 & Hst3) & Hfew3 & -> & Hb3).
    set (st4 := if negb (magic =? 0) then free_value st3 value
                else free_value (free_value st3 value) (mr_key r)).
    assert (E4 : recs st4 = recs st3 /\ maps st4 = maps st3 /\ iters st4 = iters st3)
      by (unfold st4; destruct (negb _); done).
    destruct E4 as (Er4 & Em4 & Ei4).
    assert (Hst4 : st_rel st4 A2 (mkHold a p i :: held) pos3) by (by eapply st_rel_ext; [..|exact Hst3]).
    assert (Hb4 : forall x, JS_VALUE_HAS_REF_COUNT x = true ->
      balance st4 x = balance st x + vcount x v2).
    { intros x Hx. unfold st4. specialize (Hb3 x Hx). revert Hb3. unfold st2, value.
      destruct (negb (magic =? 0)); unfold free_value, dup_value; rewrite !balance_emit, Hb1;
        cbn [ev_count]; lia. }
    destruct (forEach_release st4 A2 held pos3 a p i Hst4) as (el1 & -> & Hdec).
    cbn [bind]. apply wp_bind. eapply wp_mono; [exact Hdec|].
    intros st5 (m5 & s5 & l5 & R1' & R2' & Hst5 & Hm5 & Hl5 & ER5 & Hcut5 & -> & Ei5 & Hb5).
    destruct (JS_IsException v2) eqn:Ex.
    + injection Hfe as <- <-. cbn [wp]. split; [by exists pos3|]. split; [done|].
      intros x Hx. by rewrite Hb5, Hb4.
    + assert (Hst6 : st_rel (free_value st5 v2) A2 held pos3) by (by eapply st_rel_ext; [..|exact Hst5]).
      cbn [bind wp]. eapply wp_mono.
      { eapply (IH (free_value st5 v2) A2 pos3 m5 s5 l5 R1' R2' (S i) A' ret); try done.
        unfold few in *. cbn [iters free_value emit]. by rewrite Ei5, Ei4. }
      intros [st7 v7] (H7 & -> & Hb7). split_and!; [done|done|]. intros x Hx.
      rewrite (Hb7 x Hx). unfold free_value. rewrite balance_emit, Hb5, Hb4 by done.
      cbn [ev_count]. lia.
  - (* a deleted entry, whose record may be there *)
    destruct R2 as [|a R3].
    { eapply wp_loop_more; [|eapply (IH st A pos m s l R1 [] (S i))]; try done; [lia|].
      destruct Hcut as [C1 _]. split; [intros b Hb; specialize (C1 b Hb); lia|].
      by intros b ?%elem_of_nil. }
    destruct (decide (pos a = i)) as [Hi|Hi].
    + assert (HaR : a ∈ records s) by (rewrite ER; apply elem_of_app; right; by left).
      destruct (rl_rec _ _ _ _ _ _ Hrel a HaR) as (r & Hr & Hp & Hla & _ & H0).
      rewrite Hi, Ei in Hla. injection Hla as Hla. unfold entry_of in Hla.
      destruct (empty r) eqn:He; [|done].
      rewrite loop_S. cbn [list_first hd]. unfold forEach_step at 1.
      rewrite (proj2 (Z.eqb_neq a 0)) by lia. unfold get_rec. rewrite Hr. cbn [bind].
      rewrite He. cbn [negb]. rewrite (next_el_app _ _ _ _ _ _ _ Hm Hrel R1 a R3 ER).
      cbn [bind]. eapply (IH st A pos m s l (R1 ++ [a]) R3 (S i)); try done.
      * by rewrite <- app_assoc.
      * by apply Hshift.
    + eapply wp_loop_more; [|eapply (IH st A pos m s l R1 (a :: R3) (S i))]; try done; [lia|].
      destruct Hcut as [C1 C2]. split; [intros b Hb; specialize (C1 b Hb); lia|].
      pose proof (C2 a ltac:(by left)) as Ha. intros b Hb.
      apply elem_of_cons in Hb as [->|Hb]; [lia|]. specialize (Hsort a R3 eq_refl b Hb). lia.
  - (* the end *)
    injection Hfe as <- <-.
    destruct R2 as [|a R3].
    + rewrite loop_S. cbn. split; [by exists pos|]. split; [done|].
      intros x Hx. rewrite vcount_plain by done. lia.
    + apply lookup_ge_None in Ei. specialize (Hlt a ltac:(by left)).
      destruct Hcut as [_ C2]. specialize (C2 a ltac:(by left)). lia.
Qed.

End forEach.
End refine.

(** ** Concrete collections *)

(** An allocator that gives the address after the greatest one in use, and
    refuses tables above a size. *)
Definition next_address (l : gset Z) : Z := 1 + set_fold Z.max 0 l.

#[export] Instance counter_map_engine : MapEngine := {
  mapheap := unit;
  malloc_record h l := (h, Some (next_address l));
  js_realloc2 h n := (h, if n <? 2 ^ 30 then Some 0 else None);
  js_create_array h l := (h, JS_MKPTR PTR_OBJECT 1000);
  str_of _ := None;
  JS_IsFunction v := JS_IsObject v
}.

Lemma set_fold_max (l : gset Z) :
  0 <= set_fold Z.max 0 l /\ forall a, a ∈ l -> a <= set_fold Z.max 0 l.
Proof.
  apply (set_fold_ind_L (fun m X => 0 <= m /\ forall a : Z, a ∈ X -> a <= m)).
  - split; [done|]. intros a Ha. set_solver.
  - intros x X m Hx [H0 H]. split; [lia|]. intros a [->%elem_of_singleton|Ha]%elem_of_union; [lia|].
    specialize (H a Ha). lia.
Qed.

#[export] Instance counter_map_engine_ok : MapEngineOk counter_map_engine.
Proof.
  split.
  - intros h l h' a. cbn. intros [= _ <-]. unfold next_address.
    destruct (set_fold_max l) as [H0 H]. split; [|lia]. intros Ha. specialize (H _ Ha). lia.
  - intros h n h' slack. cbn. destruct (Z.ltb_spec n (2 ^ 30)); intros [= _ <-]. lia.
Qed.

Definition empty_st : map_st := mkSt (me := counter_map_engine) tt ∅ ∅ ∅ ∅ [].
Definition empty_A : astate := mkA ∅ ∅.



(** ** Keys that the hash separates *)

Definition run_ops (st : map_st) (ops : list map_op) : res (map_st * list JSValue) :=
  foldl (fun acc op =>
    let* x := acc in
    let* y := run_op x.1 op in
    Ret (y.1.1, x.2 ++ [y.1.2])) (Ret (st, [])) ops.

(** With four entries the table has four chains, and the double 1 is not
    found where the integer 1 is the key; it was found with one chain. *)
Example double_key_missed :
  let m := JS_MKPTR PTR_OBJECT 1 in
  let one := JS_FLOAT64 (f64_of_Z 1) in
  (let* x := run_ops (map_init empty_st 1 0)
     [OpSet m (JS_INT 1) (JS_INT 2) 0; OpHas m one 0;
      OpSet m (JS_INT 2) (JS_INT 2) 0; OpSet m (JS_INT 3) (JS_INT 2) 0;
      OpSet m (JS_INT 4) (JS_INT 2) 0; OpSet m (JS_INT 5) (JS_INT 2) 0; OpHas m one 0] in
   Ret (last x.2)) = Ret (Some (JS_BOOL false))
  /\ (let* x := run_ops (map_init empty_st 1 0)
        [OpSet m (JS_INT 1) (JS_INT 2) 0; OpHas m one 0] in Ret (last x.2))
     = Ret (Some (JS_BOOL true))
  /\ js_same_value_zero (JS_INT 1) one = Ret true.
Proof. vm_compute. done. Qed.

(** The product of the hash overflows. *)
Example integer_key_overflows : map_hash_key (JS_INT 1000000) = Ub.
Proof. reflexivity. Qed.
