(* ===== verification/Shapes.v ===== *)
(** * Objects and their shapes ([quickjs.c])

    An object has an array of property values; the names and the flags are in
    its shape, with a hash table from names to indexes.  The shapes that have
    no deleted property are shared: the runtime has a table of them, by the
    prototype and the sequence of names and flags, which [add_property]
    searches before it makes a new shape.

    Shapes and objects live in stores by address; 0 is [NULL].  The table of a
    shape, before the structure in memory, is the list [prop_hash], from the
    last cell to the first one.  [sh_prop] has the entries in use, whose
    number is [prop_count].  The place of a shape in [gc_obj_list] is left
    out.  The references that the code takes and releases are logged; what a
    release makes unreachable is freed by operations of its own. *)

From stdpp Require Import base tactics numbers list option gmap.
From Stdlib Require Import ZArith Lia.
From S2P Require Import Prelude Values.
From S2P Require Atoms GcObjects.

Open Scope Z_scope.

(** ** Data *)

Definition JS_PROP_CONFIGURABLE : Z := Z.shiftl 1 0.
Definition JS_PROP_WRITABLE : Z := Z.shiftl 1 1.
Definition JS_PROP_ENUMERABLE : Z := Z.shiftl 1 2.
Definition JS_PROP_C_W_E : Z :=
  Z.lor (Z.lor JS_PROP_CONFIGURABLE JS_PROP_WRITABLE) JS_PROP_ENUMERABLE.
Definition JS_PROP_LENGTH : Z := Z.shiftl 1 3.
Definition JS_PROP_TMASK : Z := Z.shiftl 3 4.
Definition JS_PROP_GETSET : Z := Z.shiftl 1 4.
Definition JS_PROP_VARREF : Z := Z.shiftl 2 4.
Definition JS_PROP_AUTOINIT : Z := Z.shiftl 3 4.

Definition JS_PROP_INITIAL_SIZE : Z := 2.
Definition JS_PROP_INITIAL_HASH_SIZE : Z := 4.
Definition JS_ATOM_NULL : Z := 0.
Definition JS_ATOM_length : Z := 48.

(** A cell of the array of properties; [PropUninit] is a cell that was
    allocated and not written. *)
Inductive JSProperty :=
  | PropValue (value : JSValue)
  | PropGetset (getter setter : Z)
  | PropVarref (var_ref : Z)
  | PropInit (realm_and_id opaque : Z)
  | PropUninit.

Record JSShapeProperty := mkShapeProp {
  (** 0 if last in list *)
  hash_next : Z;
  flags : Z;
  (** [JS_ATOM_NULL]: free property entry *)
  atom : Z
}.

Record JSShape := mkShape {
  sh_ref_count : Z;
  is_hashed : bool;
  has_small_array_index : bool;
  sh_hash : Z;
  prop_hash_mask : Z;
  prop_size : Z;
  deleted_prop_count : Z;
  shape_hash_next : Z;
  sh_proto : Z;
  prop_hash : list Z;
  sh_prop : list JSShapeProperty
}.

Definition prop_count (s : JSShape) : Z := Z.of_nat (length (sh_prop s)).

Definition set_ref_count (s : JSShape) n := mkShape n (is_hashed s) (has_small_array_index s)
  (sh_hash s) (prop_hash_mask s) (prop_size s) (deleted_prop_count s) (shape_hash_next s)
  (sh_proto s) (prop_hash s) (sh_prop s).
Definition set_is_hashed (s : JSShape) b := mkShape (sh_ref_count s) b (has_small_array_index s)
  (sh_hash s) (prop_hash_mask s) (prop_size s) (deleted_prop_count s) (shape_hash_next s)
  (sh_proto s) (prop_hash s) (sh_prop s).
Definition set_hash (s : JSShape) h := mkShape (sh_ref_count s) (is_hashed s)
  (has_small_array_index s) h (prop_hash_mask s) (prop_size s) (deleted_prop_count s)
  (shape_hash_next s) (sh_proto s) (prop_hash s) (sh_prop s).
Definition set_hash_next (s : JSShape) n := mkShape (sh_ref_count s) (is_hashed s)
  (has_small_array_index s) (sh_hash s) (prop_hash_mask s) (prop_size s) (deleted_prop_count s)
  n (sh_proto s) (prop_hash s) (sh_prop s).
Definition set_prop_size (s : JSShape) n := mkShape (sh_ref_count s) (is_hashed s)
  (has_small_array_index s) (sh_hash s) (prop_hash_mask s) n (deleted_prop_count s)
  (shape_hash_next s) (sh_proto s) (prop_hash s) (sh_prop s).
Definition set_proto (s : JSShape) p := mkShape (sh_ref_count s) (is_hashed s)
  (has_small_array_index s) (sh_hash s) (prop_hash_mask s) (prop_size s) (deleted_prop_count s)
  (shape_hash_next s) p (prop_hash s) (sh_prop s).
Definition set_table (s : JSShape) mask t ps := mkShape (sh_ref_count s) (is_hashed s)
  (has_small_array_index s) (sh_hash s) mask (prop_size s) (deleted_prop_count s)
  (shape_hash_next s) (sh_proto s) t ps.

(** The fields of an object that the operations of this file use. *)
Record JSObject := mkObject {
  class_id : GcObjects.JSClassID;
  extensible : bool;
  is_exotic : bool;
  fast_array : bool;
  shape : Z;
  prop : list JSProperty;
  (** [u.array]: the elements and the number of allocated ones *)
  values : list JSValue;
  array_size : Z
}.

Definition set_shape (o : JSObject) sh := mkObject (class_id o) (extensible o) (is_exotic o)
  (fast_array o) sh (prop o) (values o) (array_size o).
Definition set_prop (o : JSObject) vs := mkObject (class_id o) (extensible o) (is_exotic o)
  (fast_array o) (shape o) vs (values o) (array_size o).
Definition set_array (o : JSObject) fast vs size := mkObject (class_id o) (extensible o)
  (is_exotic o) fast (shape o) (prop o) vs size.

(** What holds references, and the log. *)
Inductive ref_item := RefAtom (a : Z) | RefValue (v : JSValue) | RefVarRef (r : Z) | RefInit (realm_and_id : Z).
Inductive ref_event := Dup (x : ref_item) | Free (x : ref_item).

#[export] Instance ref_item_eq_dec : EqDecision ref_item.
Proof. solve_decision. Defined.

(** What the engine gives: addresses for new objects and shapes ([js_realloc]
    of a shape may move it), the success of the other allocations, the
    classes with exotic methods, the atoms that are indexes of 31 bits or
    more and the creation of such an atom (0 if memory runs out),
    [delete_property] of the exotic methods.  [js_realloc2] of an array of
    values gives its slack, in elements. *)
Class ShapeEngine := {
  smem : Type;
  js_malloc : smem -> gset Z -> smem * option Z;
  js_realloc : smem -> gset Z -> Z -> smem * option Z;
  js_realloc_array : smem -> Z -> smem * bool;
  js_realloc2 : smem -> Z -> smem * option Z;
  class_exotic : GcObjects.JSClassID -> bool;
  string_array_index : Z -> option Z;
  new_index_atom : smem -> Z -> smem * Z;
  em_delete_property : GcObjects.JSClassID -> option (smem -> Z -> Z -> smem * Z)
}.

Section shapes.
Context {se : ShapeEngine}.

Record shape_st := mkSt {
  mem : smem;
  shape_hash_bits : Z;
  shape_hash_count : Z;
  (** its length is [shape_hash_size] *)
  rt_shape_hash : list Z;
  shapes : gmap Z JSShape;
  objs : gmap Z JSObject;
  array_shape : Z;
  log : list ref_event
}.

Definition set_mem (st : shape_st) m := mkSt m (shape_hash_bits st) (shape_hash_count st)
  (rt_shape_hash st) (shapes st) (objs st) (array_shape st) (log st).
Definition set_shape_hash (st : shape_st) bits count t := mkSt (mem st) bits count t (shapes st)
  (objs st) (array_shape st) (log st).
Definition set_shapes (st : shape_st) s := mkSt (mem st) (shape_hash_bits st)
  (shape_hash_count st) (rt_shape_hash st) s (objs st) (array_shape st) (log st).
Definition set_objs (st : shape_st) o := mkSt (mem st) (shape_hash_bits st)
  (shape_hash_count st) (rt_shape_hash st) (shapes st) o (array_shape st) (log st).
Definition set_array_shape (st : shape_st) a := mkSt (mem st) (shape_hash_bits st)
  (shape_hash_count st) (rt_shape_hash st) (shapes st) (objs st) a (log st).
Definition emit (st : shape_st) l := mkSt (mem st) (shape_hash_bits st)
  (shape_hash_count st) (rt_shape_hash st) (shapes st) (objs st) (array_shape st) (log st ++ l).

Definition shape_hash_size (st : shape_st) : Z := Z.of_nat (length (rt_shape_hash st)).
Definition get_shape (st : shape_st) (a : Z) : res JSShape :=
  match shapes st !! a with Some s => Ret s | None => Ub end.
Definition put_shape (st : shape_st) (a : Z) (s : JSShape) : shape_st :=
  set_shapes st (<[a := s]> (shapes st)).
Definition get_obj (st : shape_st) (p : Z) : res JSObject :=
  match objs st !! p with Some o => Ret o | None => Ub end.
Definition put_obj (st : shape_st) (p : Z) (o : JSObject) : shape_st :=
  set_objs st (<[p := o]> (objs st)).
Definition addresses (st : shape_st) : gset Z := dom (shapes st) ∪ dom (objs st).

Definition obj_val (p : Z) : JSValue := JS_MKPTR PTR_OBJECT p.
(** A pointer to an object that may be null, as the references it is. *)
Definition obj_ref (p : Z) : list ref_item := if p =? 0 then [] else [RefValue (obj_val p)].

(** ** The table of shapes *)

(** same magic hash multiplier as the Linux kernel *)
Definition shape_hash (h val : Z) : Z := u32 (u32 (h + u32 val) * 0x9e370001).

(** truncate the shape hash to 'hash_bits' bits *)
Definition get_shape_hash (h hash_bits : Z) : Z := Z.shiftr h (32 - hash_bits).

Definition shape_initial_hash (proto : Z) : Z :=
  shape_hash (shape_hash 1 proto) (Z.shiftr proto 32).

Definition init_shape_hash (st : shape_st) : res (shape_st * Z) :=
  let bits := 4 in
  let '(m, ok) := js_realloc_array (mem st) (Z.shiftl 1 bits) in
  let st := set_mem st m in
  if ok then Ret (set_shape_hash st bits 0 (replicate (Z.to_nat (Z.shiftl 1 bits)) 0), 0)
  else (* the size is set, and there is no table *) Ret (set_shape_hash st bits 0 [], -1).

(** One step of the inner loop of [resize_shape_hash]. *)
Definition resize_step (bits : Z) (x : shape_st * list Z * Z)
  : res (shape_st * list Z * Z + shape_st * list Z) :=
  let '(st, t, sh) := x in
  if sh =? 0 then Ret (inr (st, t))
  else
    let* s := get_shape st sh in
    let sh_next := shape_hash_next s in
    let h := get_shape_hash (sh_hash s) bits in
    let* n := rd t h in
    let st := put_shape st sh (set_hash_next s n) in
    let* t := wr t h sh in
    Ret (inl (st, t, sh_next)).

Fixpoint resize_chains (fuel : nat) (st : shape_st) (bits : Z) (l : list Z) (t : list Z)
  : res (shape_st * list Z) :=
  match l with
  | [] => Ret (st, t)
  | sh :: l =>
      let* x := loop fuel (resize_step bits) (st, t, sh) in
      let '(st, t) := x in
      resize_chains fuel st bits l t
  end.

(** Chains cannot be longer than the number of shapes. *)
Definition chain_fuel (st : shape_st) : nat := S (size (shapes st)).

Definition resize_shape_hash (st : shape_st) (new_shape_hash_bits : Z) : res (shape_st * Z) :=
  (* [1 << new_shape_hash_bits] is an [int] *)
  let* _ := c_assert (new_shape_hash_bits <? 31) in
  let new_shape_hash_size := Z.shiftl 1 new_shape_hash_bits in
  let '(m, ok) := js_realloc_array (mem st) new_shape_hash_size in
  let st := set_mem st m in
  if negb ok then Ret (st, -1)
  else
    let* x := resize_chains (chain_fuel st) st new_shape_hash_bits (rt_shape_hash st)
                (replicate (Z.to_nat new_shape_hash_size) 0) in
    let '(st, t) := x in
    Ret (set_shape_hash st new_shape_hash_bits (shape_hash_count st) t, 0).

Definition js_shape_hash_link (st : shape_st) (sh : Z) : res shape_st :=
  let* s := get_shape st sh in
  let h := get_shape_hash (sh_hash s) (shape_hash_bits st) in
  let* n := rd (rt_shape_hash st) h in
  let st := put_shape st sh (set_hash_next s n) in
  let* t := wr (rt_shape_hash st) h sh in
  Ret (set_shape_hash st (shape_hash_bits st) (shape_hash_count st + 1) t).

(** The walk to the pointer that holds [sh], from the shape [prev]. *)
Definition unlink_step (sh next : Z) (x : shape_st * Z) : res (shape_st * Z + shape_st) :=
  let '(st, prev) := x in
  let* s := get_shape st prev in
  if shape_hash_next s =? sh then Ret (inr (put_shape st prev (set_hash_next s next)))
  else Ret (inl (st, shape_hash_next s)).

Definition js_shape_hash_unlink (st : shape_st) (sh : Z) : res shape_st :=
  let* s := get_shape st sh in
  let h := get_shape_hash (sh_hash s) (shape_hash_bits st) in
  let* first := rd (rt_shape_hash st) h in
  let* st :=
    (if first =? sh then
       let* t := wr (rt_shape_hash st) h (shape_hash_next s) in
       Ret (set_shape_hash st (shape_hash_bits st) (shape_hash_count st) t)
     else loop (chain_fuel st) (unlink_step sh (shape_hash_next s)) (st, first)) in
  Ret (set_shape_hash st (shape_hash_bits st) (shape_hash_count st - 1) (rt_shape_hash st)).

(** ** Shapes *)

(** create a new empty shape with prototype 'proto'; 0 if memory runs out *)
Definition js_new_shape2 (st : shape_st) (proto hash_size psize : Z) : res (shape_st * Z) :=
  (* resize the shape hash table if necessary *)
  let* st :=
    (if 2 * (shape_hash_count st + 1) >? shape_hash_size st then
       let* x := resize_shape_hash st (shape_hash_bits st + 1) in Ret x.1
     else Ret st) in
  let '(m, sh) := js_malloc (mem st) (addresses st) in
  let st := set_mem st m in
  match sh with
  | None => Ret (st, 0)
  | Some sh =>
      let st := emit st (Dup <$> obj_ref proto) in
      let s := mkShape 1 true false (shape_initial_hash proto) (u32 (hash_size - 1)) psize 0 0
                 proto (replicate (Z.to_nat hash_size) 0) [] in
      let* st := js_shape_hash_link (put_shape st sh s) sh in
      Ret (st, sh)
  end.

Definition js_new_shape (st : shape_st) (proto : Z) : res (shape_st * Z) :=
  js_new_shape2 st proto JS_PROP_INITIAL_HASH_SIZE JS_PROP_INITIAL_SIZE.

(** The references of the entries of a shape. *)
Definition atom_refs (ps : list JSShapeProperty) : list ref_item := RefAtom ∘ atom <$> ps.

(** The new shape is not inserted in the shape hash table *)
Definition js_clone_shape (st : shape_st) (sh1 : Z) : res (shape_st * Z) :=
  let* s1 := get_shape st sh1 in
  let '(m, sh) := js_malloc (mem st) (addresses st) in
  let st := set_mem st m in
  match sh with
  | None => Ret (st, 0)
  | Some sh =>
      let s := set_is_hashed (set_ref_count s1 1) false in
      let st := put_shape st sh s in
      let st := emit st (Dup <$> obj_ref (sh_proto s)) in
      let st := emit st (Dup <$> atom_refs (sh_prop s)) in
      Ret (st, sh)
  end.

Definition js_dup_shape (st : shape_st) (sh : Z) : res shape_st :=
  let* s := get_shape st sh in
  Ret (put_shape st sh (set_ref_count s (sh_ref_count s + 1))).

Definition js_free_shape0 (st : shape_st) (sh : Z) : res shape_st :=
  let* s := get_shape st sh in
  let* _ := c_assert (sh_ref_count s =? 0) in
  let* st := (if is_hashed s then js_shape_hash_unlink st sh else Ret st) in
  let st := emit st (Free <$> obj_ref (sh_proto s)) in
  let st := emit st (Free <$> atom_refs (sh_prop s)) in
  Ret (set_shapes st (delete sh (shapes st))).

Definition js_free_shape (st : shape_st) (sh : Z) : res shape_st :=
  let* s := get_shape st sh in
  let s := set_ref_count s (sh_ref_count s - 1) in
  let st := put_shape st sh s in
  if sh_ref_count s <=? 0 then js_free_shape0 st sh else Ret st.

(** [js_realloc] on the array of properties of an object. *)
Definition realloc_props (st : shape_st) (p new_size : Z) : res (shape_st * bool) :=
  let* o := get_obj st p in
  let '(m, ok) := js_realloc_array (mem st) new_size in
  let st := set_mem st m in
  if ok then
    let n := Z.to_nat new_size in
    Ret (put_obj st p (set_prop o (take n (prop o) ++ replicate (n - length (prop o)) PropUninit)),
         true)
  else Ret (st, false).

(** The bit fields of [JSShapeProperty]. *)
Definition u26 (z : Z) : Z := z mod 2 ^ 26.
Definition u6 (z : Z) : Z := z mod 2 ^ 6.

(** The loop that puts the entries in a new hash table; [i] is the index of
    the first one. *)
Fixpoint rehash_props (ps : list JSShapeProperty) (i mask : Z) (t : list Z)
  : res (list JSShapeProperty * list Z) :=
  match ps with
  | [] => Ret ([], t)
  | pr :: ps =>
      let* x :=
        (if negb (atom pr =? JS_ATOM_NULL) then
           let h := Z.land (atom pr) mask in
           let* n := rd t h in
           let* t := wr t h (i + 1) in
           Ret (mkShapeProp (u26 n) (flags pr) (atom pr), t)
         else Ret (pr, t)) in
      let '(pr, t) := x in
      let* y := rehash_props ps (i + 1) mask t in
      let '(ps, t) := y in
      Ret (pr :: ps, t)
  end.

(** [while (new_hash_size < new_size) new_hash_size = 2 * new_hash_size;] *)
Definition double_step (new_size n : Z) : res (Z + Z) :=
  Ret (if n <? new_size then inl (u32 (2 * n)) else inr n).

(** make space to hold at least 'count' properties; [p] is the object, if
    any, whose array of properties is enlarged first.  The result is the
    shape, which may have moved, or the error. *)
Definition resize_properties (st : shape_st) (sh : Z) (p : option Z) (count : Z)
  : res (shape_st * option Z) :=
  let* s := get_shape st sh in
  (* [sh->prop_size * 3] is an [int] *)
  let* _ := c_assert (prop_size s * 3 <=? INT32_MAX) in
  let new_size := Z.max (i32 count) (prop_size s * 3 / 2) in
  let* x := match p with Some p => realloc_props st p new_size | None => Ret (st, true) end in
  let '(st, ok) := x in
  if negb ok then Ret (st, None)
  else
    let old_hash_size := u32 (prop_hash_mask s + 1) in
    let* new_hash_size := loop 33 (double_step new_size) old_hash_size in
    if negb (new_hash_size =? old_hash_size) then
      (* resize the hash table and the properties *)
      let '(m, a) := js_malloc (mem st) (addresses st) in
      let st := set_mem st m in
      match a with
      | None => Ret (st, None)
      | Some a =>
          let mask := u32 (new_hash_size - 1) in
          let* y := rehash_props (sh_prop s) 0 mask (replicate (Z.to_nat new_hash_size) 0) in
          let '(ps, t) := y in
          let st := set_shapes st (delete sh (shapes st)) in
          Ret (put_shape st a (set_prop_size (set_table s mask t ps) new_size), Some a)
      end
    else
      (* only resize the properties *)
      let '(m, a) := js_realloc (mem st) (addresses st) sh in
      let st := set_mem st m in
      match a with
      | None => Ret (st, None)
      | Some a =>
          let st := set_shapes st (delete sh (shapes st)) in
          Ret (put_shape st a (set_prop_size s new_size), Some a)
      end.

(** The loop of [compact_properties], which moves the entries and the values:
    [i] entries were seen, [j] are kept in [kept], and [vs] are the values. *)
Fixpoint compact_loop (ps : list JSShapeProperty) (i : Z) (kept : list JSShapeProperty)
    (mask : Z) (t : list Z) (vs : list JSProperty)
  : res (list JSShapeProperty * list Z * list JSProperty) :=
  match ps with
  | [] => Ret (kept, t, vs)
  | old_pr :: ps =>
      if negb (atom old_pr =? JS_ATOM_NULL) then
        let j := Z.of_nat (length kept) in
        let h := Z.land (atom old_pr) mask in
        let* n := rd t h in
        let* t := wr t h (j + 1) in
        let* v := rd vs i in
        let* vs := wr vs j v in
        compact_loop ps (i + 1) (kept ++ [mkShapeProp (u26 n) (flags old_pr) (atom old_pr)])
          mask t vs
      else compact_loop ps (i + 1) kept mask t vs
  end.

(** [while ((new_hash_size / 2) >= new_size) new_hash_size = new_hash_size / 2;] *)
Definition halve_step (new_size n : Z) : res (Z + Z) :=
  Ret (if new_size <=? n / 2 then inl (n / 2) else inr n).

(** remove the deleted properties. *)
Definition compact_properties (st : shape_st) (p : Z) : res (shape_st * Z) :=
  let* o := get_obj st p in
  let* s := get_shape st (shape o) in
  let* _ := c_assert (negb (is_hashed s)) in
  let new_size := Z.max JS_PROP_INITIAL_SIZE (prop_count s - deleted_prop_count s) in
  let* _ := c_assert (new_size <=? prop_size s) in
  let* new_hash_size := loop 33 (halve_step new_size) (u32 (prop_hash_mask s + 1)) in
  let mask := u32 (new_hash_size - 1) in
  (* resize the hash table and the properties *)
  let '(m, a) := js_malloc (mem st) (addresses st) in
  let st := set_mem st m in
  match a with
  | None => Ret (st, -1)
  | Some a =>
      let* x := compact_loop (sh_prop s) 0 [] mask (replicate (Z.to_nat new_hash_size) 0) (prop o) in
      let '(ps, t, vs) := x in
      let* _ := c_assert (Z.of_nat (length ps) =? prop_count s - deleted_prop_count s) in
      let s' := mkShape (sh_ref_count s) (is_hashed s) (has_small_array_index s) (sh_hash s)
                  mask new_size 0 (shape_hash_next s) (sh_proto s) t ps in
      let st := set_shapes st (delete (shape o) (shapes st)) in
      let st := put_shape st a s' in
      let st := put_obj st p (set_prop (set_shape o a) vs) in
      (* reduce the size of the object properties *)
      let* y := realloc_props st p new_size in
      Ret (y.1, 0)
  end.

(** The shape that it changes may move: the result is the shape, or the
    error. *)
Definition add_shape_property (st : shape_st) (sh : Z) (p : option Z) (a prop_flags : Z)
  : res (shape_st * option Z) :=
  let* s := get_shape st sh in
  let hashed := is_hashed s in
  (* update the shape hash *)
  let new_shape_hash := shape_hash (shape_hash (sh_hash s) a) prop_flags in
  let* st := (if hashed then js_shape_hash_unlink st sh else Ret st) in
  let* x :=
    (if prop_size s <=? prop_count s then resize_properties st sh p (prop_count s + 1)
     else Ret (st, Some sh)) in
  let '(st, r) := x in
  match r with
  | None =>
      (* in case of error, reinsert in the hash table. *)
      let* st := (if hashed then js_shape_hash_link st sh else Ret st) in
      Ret (st, None)
  | Some sh =>
      let* st :=
        (if hashed then
           let* s := get_shape st sh in
           js_shape_hash_link (put_shape st sh (set_hash s new_shape_hash)) sh
         else Ret st) in
      (* Initialize the new shape property. *)
      let* s := get_shape st sh in
      let* _ := c_assert (prop_count s <? prop_size s) in
      let h := Z.land a (prop_hash_mask s) in
      let* n := rd (prop_hash s) h in
      let* t := wr (prop_hash s) h (prop_count s + 1) in
      let pr := mkShapeProp (u26 n) (u6 prop_flags) a in
      let s := mkShape (sh_ref_count s) (is_hashed s)
                 (has_small_array_index s || Atoms.__JS_AtomIsTaggedInt a) (sh_hash s)
                 (prop_hash_mask s) (prop_size s) (deleted_prop_count s) (shape_hash_next s)
                 (sh_proto s) t (sh_prop s ++ [pr]) in
      Ret (emit (put_shape st sh s) [Dup (RefAtom a)], Some sh)
  end.

(** The walk of a chain of the table of shapes. *)
Definition find_shape_step (st : shape_st) (match_ : JSShape -> bool) (sh1 : Z) : res (Z + Z) :=
  if sh1 =? 0 then Ret (inr 0)
  else
    let* s1 := get_shape st sh1 in
    if match_ s1 then Ret (inr sh1) else Ret (inl (shape_hash_next s1)).

(** find a hashed empty shape matching the prototype. 0 if not found *)
Definition find_hashed_shape_proto (st : shape_st) (proto : Z) : res Z :=
  let h := shape_initial_hash proto in
  let* first := rd (rt_shape_hash st) (get_shape_hash h (shape_hash_bits st)) in
  loop (chain_fuel st) (find_shape_step st (fun s1 =>
    (sh_hash s1 =? h) && (sh_proto s1 =? proto) && (prop_count s1 =? 0))) first.

(** The first properties of [s1] are those of [s], then comes [a]. *)
Fixpoint same_props (ps ps1 : list JSShapeProperty) (a prop_flags : Z) : bool :=
  match ps, ps1 with
  | [], pr1 :: _ => (atom pr1 =? a) && (flags pr1 =? prop_flags)
  | pr :: ps, pr1 :: ps1 =>
      (atom pr1 =? atom pr) && (flags pr1 =? flags pr) && same_props ps ps1 a prop_flags
  | _, [] => false
  end.

(** find a hashed shape matching sh + (prop, prop_flags). 0 if not found *)
Definition find_hashed_shape_prop (st : shape_st) (sh a prop_flags : Z) : res Z :=
  let* s := get_shape st sh in
  let h := shape_hash (shape_hash (sh_hash s) a) prop_flags in
  let* first := rd (rt_shape_hash st) (get_shape_hash h (shape_hash_bits st)) in
  loop (chain_fuel st) (find_shape_step st (fun s1 =>
    (sh_hash s1 =? h) && (sh_proto s1 =? sh_proto s) && (prop_count s1 =? prop_count s + 1)
    && same_props (sh_prop s) (sh_prop s1) a prop_flags)) first.

(** ** The properties of an object *)

(** The references of a property, by the kind that its flags say. *)
Definition property_refs (pr : JSProperty) (prop_flags : Z) : res (list ref_item) :=
  let t := Z.land prop_flags JS_PROP_TMASK in
  if negb (t =? 0) then
    if t =? JS_PROP_GETSET then
      match pr with PropGetset g s => Ret (obj_ref g ++ obj_ref s) | _ => Ub end
    else if t =? JS_PROP_VARREF then
      match pr with
      | PropVarref r => Ret (if r =? 0 then [] else [RefVarRef r])
      | _ => Ub
      end
    else match pr with PropInit r _ => Ret [RefInit r] | _ => Ub end
  else match pr with PropValue v => Ret [RefValue v] | _ => Ub end.

Definition free_property (st : shape_st) (pr : JSProperty) (prop_flags : Z) : res shape_st :=
  let* l := property_refs pr prop_flags in
  Ret (emit st (Free <$> l)).

(** One step of the search: [h] is the number of an entry, from 1, or 0. *)
Definition find_step (ps : list JSShapeProperty) (a h : Z) : res (Z + option Z) :=
  if h =? 0 then Ret (inr None)
  else
    let* pr := rd ps (h - 1) in
    if atom pr =? a then Ret (inr (Some (h - 1))) else Ret (inl (hash_next pr)).

Definition find_in_shape (s : JSShape) (a : Z) : res (option Z) :=
  let* h := rd (prop_hash s) (Z.land a (prop_hash_mask s)) in
  loop (S (length (sh_prop s))) (find_step (sh_prop s) a) h.

(** The index of the property, for [*ppr] and for the result. *)
Definition find_own_property (st : shape_st) (p a : Z) : res (option Z) :=
  let* o := get_obj st p in
  let* s := get_shape st (shape o) in
  find_in_shape s a.

(** ensure that the shape can be safely modified; the indexes of its
    properties stay the same *)
Definition js_shape_prepare_update (st : shape_st) (p : Z) : res (shape_st * Z) :=
  let* o := get_obj st p in
  let* s := get_shape st (shape o) in
  if is_hashed s then
    if negb (sh_ref_count s =? 1) then
      (* clone the shape (the resulting one is no longer hashed) *)
      let* x := js_clone_shape st (shape o) in
      let '(st, sh) := x in
      if sh =? 0 then Ret (st, -1)
      else
        let* st := js_free_shape st (shape o) in
        Ret (put_obj st p (set_shape o sh), 0)
    else
      let* st := js_shape_hash_unlink st (shape o) in
      let* s := get_shape st (shape o) in
      Ret (put_shape st (shape o) (set_is_hashed s false), 0)
  else Ret (st, 0).

(** The end of [add_property]: the shape has no other user. *)
Definition add_to_shape (st : shape_st) (p a prop_flags : Z) : res (shape_st * option Z) :=
  let* o := get_obj st p in
  let* s := get_shape st (shape o) in
  let* _ := c_assert (sh_ref_count s =? 1) in
  let* x := add_shape_property st (shape o) (Some p) a prop_flags in
  let '(st, r) := x in
  match r with
  | None => Ret (st, None)
  | Some sh =>
      let* o := get_obj st p in
      let st := put_obj st p (set_shape o sh) in
      let* s := get_shape st sh in
      Ret (st, Some (prop_count s - 1))
  end.

(** The new property is the last one; its value is not initialized.  The
    result is its index, or the error. *)
Definition add_property (st : shape_st) (p a prop_flags : Z) : res (shape_st * option Z) :=
  let* o := get_obj st p in
  let sh := shape o in
  let* s := get_shape st sh in
  if is_hashed s then
    (* try to find an existing shape *)
    let* new_sh := find_hashed_shape_prop st sh a prop_flags in
    if negb (new_sh =? 0) then
      (* matching shape found: use it *)
      let* s1 := get_shape st new_sh in
      (* the property array may need to be resized *)
      let* x := (if negb (prop_size s1 =? prop_size s) then realloc_props st p (prop_size s1)
                 else Ret (st, true)) in
      let '(st, ok) := x in
      if negb ok then Ret (st, None)
      else
        let* o := get_obj st p in
        let* st := js_dup_shape st new_sh in
        let st := put_obj st p (set_shape o new_sh) in
        let* st := js_free_shape st sh in
        Ret (st, Some (prop_count s1 - 1))
    else if negb (sh_ref_count s =? 1) then
      (* if the shape is shared, clone it *)
      let* x := js_clone_shape st sh in
      let '(st, new_sh) := x in
      if new_sh =? 0 then Ret (st, None)
      else
        (* hash the cloned shape *)
        let* s1 := get_shape st new_sh in
        let* st := js_shape_hash_link (put_shape st new_sh (set_is_hashed s1 true)) new_sh in
        let* st := js_free_shape st sh in
        add_to_shape (put_obj st p (set_shape o new_sh)) p a prop_flags
    else add_to_shape st p a prop_flags
  else add_to_shape st p a prop_flags.

(** [pr->u.value = v] and the like on the property [i]. *)
Definition write_property (st : shape_st) (p i : Z) (pr : JSProperty) : res shape_st :=
  let* o := get_obj st p in
  let* vs := wr (prop o) i pr in
  Ret (put_obj st p (set_prop o vs)).

(** The loop of [convert_fast_array_to_array]. *)
Fixpoint convert_loop (st : shape_st) (p i : Z) (tab : list JSValue) : res shape_st :=
  match tab with
  | [] => Ret st
  | v :: tab =>
      (* add_property cannot fail here *)
      let* x := add_property st p (Atoms.__JS_AtomFromUInt32 i) JS_PROP_C_W_E in
      let '(st, r) := x in
      match r with
      | None => Ub
      | Some k =>
          let* st := write_property st p k (PropValue v) in
          convert_loop st p (i + 1) tab
      end
  end.

Definition convert_fast_array_to_array (st : shape_st) (p : Z) : res (shape_st * Z) :=
  let* x := js_shape_prepare_update st p in
  let '(st, r) := x in
  if negb (r =? 0) then Ret (st, -1)
  else
    let* o := get_obj st p in
    let* s := get_shape st (shape o) in
    let len := Z.of_nat (length (values o)) in
    (* resize the properties once to simplify the error handling *)
    let new_count := u32 (prop_count s + len) in
    let* y :=
      (if prop_size s <? new_count then
         let* y := resize_properties st (shape o) (Some p) new_count in
         let '(st, r) := y in
         match r with
         | None => Ret (st, false)
         | Some sh => let* o := get_obj st p in Ret (put_obj st p (set_shape o sh), true)
         end
       else Ret (st, true)) in
    let '(st, ok) := y in
    if negb ok then Ret (st, -1)
    else
      let* st := convert_loop st p 0 (values o) in
      let* o := get_obj st p in
      Ret (put_obj st p (set_array o false [] 0), 0).

Definition JS_AtomIsArrayIndex (a : Z) : option Z :=
  if Atoms.__JS_AtomIsTaggedInt a then Some (Atoms.__JS_AtomToUInt32 a)
  else string_array_index a.

(** One step of the search of [delete_property], with the index of the
    previous entry of the chain. *)
Definition delete_step (ps : list JSShapeProperty) (a : Z) (x : Z * option Z)
  : res (Z * option Z + option (Z * option Z)) :=
  let '(h, lpr) := x in
  if h =? 0 then Ret (inr None)
  else
    let* pr := rd ps (h - 1) in
    if atom pr =? a then Ret (inr (Some (h - 1, lpr)))
    else Ret (inl (hash_next pr, Some (h - 1))).

(** The removal of the property [i]; [lpr] is the one before in the chain. *)
Definition remove_property (st : shape_st) (p a i : Z) (lpr : option Z) : res (shape_st * Z) :=
  let* o := get_obj st p in
  let* s := get_shape st (shape o) in
  let* pr := rd (sh_prop s) i in
  (* remove property *)
  let* x :=
    match lpr with
    | Some l =>
        let* q := rd (sh_prop s) l in
        let* ps := wr (sh_prop s) l (mkShapeProp (hash_next pr) (flags q) (atom q)) in
        Ret (ps, prop_hash s)
    | None =>
        let* t := wr (prop_hash s) (Z.land a (prop_hash_mask s)) (hash_next pr) in
        Ret (sh_prop s, t)
    end in
  let '(ps, t) := x in
  let deleted := deleted_prop_count s + 1 in
  (* free the entry *)
  let* pr1 := rd (prop o) i in
  let* st := free_property st pr1 (flags pr) in
  let st := emit st [Free (RefAtom (atom pr))] in
  (* put default values *)
  let* q := rd ps i in
  let* ps := wr ps i (mkShapeProp (hash_next q) 0 JS_ATOM_NULL) in
  let s := mkShape (sh_ref_count s) (is_hashed s) (has_small_array_index s) (sh_hash s)
             (prop_hash_mask s) (prop_size s) deleted (shape_hash_next s) (sh_proto s) t ps in
  let st := put_shape st (shape o) s in
  let* st := write_property st p i (PropValue JS_UNDEFINED) in
  (* compact the properties if too many deleted properties *)
  let* st :=
    (if (8 <=? deleted) && (prop_count s / 2 <=? deleted)
     then let* x := compact_properties st p in Ret x.1 else Ret st) in
  Ret (st, 1).

(** The result is TRUE, FALSE or -1; [fuel] is for the jump back after the
    conversion of an array. *)
Fixpoint delete_property (fuel : nat) (st : shape_st) (p a : Z) : res (shape_st * Z) :=
  match fuel with
  | O => OutOfFuel
  | S fuel =>
      let* o := get_obj st p in
      let* s := get_shape st (shape o) in
      let* h := rd (prop_hash s) (Z.land a (prop_hash_mask s)) in
      let* found := loop (S (length (sh_prop s))) (delete_step (sh_prop s) a) (h, None) in
      match found with
      | Some (i, lpr) =>
          let* pr := rd (sh_prop s) i in
          if Z.land (flags pr) JS_PROP_CONFIGURABLE =? 0 then Ret (st, 0)
          else
            (* realloc the shape if needed *)
            let* x := js_shape_prepare_update st p in
            let '(st, r) := x in
            if negb (r =? 0) then Ret (st, -1) else remove_property st p a i lpr
      | None =>
          if is_exotic o then
            if fast_array o then
              match JS_AtomIsArrayIndex a with
              | Some idx =>
                  let count := Z.of_nat (length (values o)) in
                  if idx <? count then
                    match class_id o with
                    | GcObjects.JS_CLASS_ARRAY | GcObjects.JS_CLASS_ARGUMENTS =>
                        (* Special case deleting the last element of a fast Array *)
                        if idx =? count - 1 then
                          let* v := rd (values o) idx in
                          let st := emit st [Free (RefValue v)] in
                          Ret (put_obj st p (set_array o true (take (Z.to_nat idx) (values o)) (array_size o)), 1)
                        else
                          let* x := convert_fast_array_to_array st p in
                          let '(st, r) := x in
                          if negb (r =? 0) then Ret (st, -1) else delete_property fuel st p a
                    | _ => Ret (st, 0)
                    end
                  else Ret (st, 1)
              | None => Ret (st, 1)
              end
            else
              match (if class_exotic (class_id o) then em_delete_property (class_id o) else None) with
              | Some f => let '(m, r) := f (mem st) p a in Ret (set_mem st m, r)
              | None => Ret (st, 1)
              end
          else Ret (st, 1)
      end
  end.

Definition js_update_property_flags (st : shape_st) (p i new_flags : Z) : res (shape_st * Z) :=
  let* o := get_obj st p in
  let* s := get_shape st (shape o) in
  let* pr := rd (sh_prop s) i in
  if negb (new_flags =? flags pr) then
    let* x := js_shape_prepare_update st p in
    let '(st, r) := x in
    if negb (r =? 0) then Ret (st, -1)
    else
      let* o := get_obj st p in
      let* s := get_shape st (shape o) in
      let* pr := rd (sh_prop s) i in
      let* ps := wr (sh_prop s) i (mkShapeProp (hash_next pr) (u6 new_flags) (atom pr)) in
      Ret (put_shape st (shape o) (set_table s (prop_hash_mask s) (prop_hash s) ps), 0)
  else Ret (st, 0).

(** ** Objects *)

Definition is_array_like (c : GcObjects.JSClassID) : bool :=
  match c with
  | GcObjects.JS_CLASS_ARGUMENTS | GcObjects.JS_CLASS_UINT8C_ARRAY | GcObjects.JS_CLASS_INT8_ARRAY
  | GcObjects.JS_CLASS_UINT8_ARRAY | GcObjects.JS_CLASS_INT16_ARRAY
  | GcObjects.JS_CLASS_UINT16_ARRAY | GcObjects.JS_CLASS_INT32_ARRAY
  | GcObjects.JS_CLASS_UINT32_ARRAY | GcObjects.JS_CLASS_FLOAT32_ARRAY
  | GcObjects.JS_CLASS_FLOAT64_ARRAY => true
  | _ => false
  end.

(** The object is 0 when memory runs out; its class data are initialized by
    the callers.  The collection that [js_trigger_gc] may start frees objects
    that nothing reaches, by operations of its own before this one. *)
Definition JS_NewObjectFromShape (st : shape_st) (sh : Z) (c : GcObjects.JSClassID)
  : res (shape_st * Z) :=
  let fail st := let* st := js_free_shape st sh in Ret (st, 0) in
  let '(m, p) := js_malloc (mem st) (addresses st) in
  let st := set_mem st m in
  match p with
  | None => fail st
  | Some p =>
      let* s := get_shape st sh in
      let '(m, ok) := js_realloc_array (mem st) (prop_size s) in
      let st := set_mem st m in
      if negb ok then fail st
      else
        let vs := replicate (Z.to_nat (prop_size s)) PropUninit in
        let new fast exotic vs := put_obj st p (mkObject c true exotic fast sh vs [] 0) in
        let* st :=
          match c with
          | GcObjects.JS_CLASS_OBJECT => Ret (new false false vs)
          | GcObjects.JS_CLASS_ARRAY =>
              let st := new true true vs in
              (* the length property is always the first one *)
              if sh =? array_shape st then
                write_property st p 0 (PropValue (JS_NewInt32 0))
              else
                (* cannot fail *)
                let* x := add_property st p JS_ATOM_length (Z.lor JS_PROP_WRITABLE JS_PROP_LENGTH) in
                let '(st, r) := x in
                match r with
                | None => Ub
                | Some i => write_property st p i (PropValue (JS_NewInt32 0))
                end
          | GcObjects.JS_CLASS_C_FUNCTION =>
              let* vs := wr vs 0 (PropValue JS_UNDEFINED) in Ret (new false false vs)
          | GcObjects.JS_CLASS_DATAVIEW => Ret (new false false vs)
          | _ => if is_array_like c then Ret (new true true vs) else Ret (new false (class_exotic c) vs)
          end in
        Ret (st, p)
  end.

(** [proto] is an object or 0 *)
Definition JS_NewObjectProtoClass (st : shape_st) (proto : Z) (c : GcObjects.JSClassID)
  : res (shape_st * Z) :=
  let* sh := find_hashed_shape_proto st proto in
  if negb (sh =? 0) then
    let* st := js_dup_shape st sh in
    JS_NewObjectFromShape st sh c
  else
    let* x := js_new_shape st proto in
    let '(st, sh) := x in
    if sh =? 0 then Ret (st, 0) else JS_NewObjectFromShape st sh c.

Definition JS_NewArray (st : shape_st) : res (shape_st * Z) :=
  let sh := array_shape st in
  let* st := js_dup_shape st sh in
  JS_NewObjectFromShape st sh GcObjects.JS_CLASS_ARRAY.

(** The shape of arrays, in [JS_AddIntrinsicBasicObjects]. *)
Definition init_array_shape (st : shape_st) (array_proto : Z) : res (shape_st * Z) :=
  let* x := js_new_shape2 st array_proto JS_PROP_INITIAL_HASH_SIZE 1 in
  let '(st, sh) := x in
  let st := set_array_shape st sh in
  (* add_shape_property reads the shape *)
  let* y := add_shape_property st sh None JS_ATOM_length (Z.lor JS_PROP_WRITABLE JS_PROP_LENGTH) in
  let '(st, r) := y in
  match r with Some sh => Ret (set_array_shape st sh, 0) | None => Ret (st, -1) end.

(** The search of [p] in the prototypes from [p1]. *)
Definition proto_step (st : shape_st) (p p1 : Z) : res (Z + bool) :=
  if p1 =? p then Ret (inr true)
  else
    let* o := get_obj st p1 in
    let* s := get_shape st (shape o) in
    if negb (sh_proto s =? 0) then Ret (inl (sh_proto s)) else Ret (inr false).

(** [JS_SetPrototypeInternal] on an object that is not a proxy. *)
Definition JS_SetPrototypeInternal (st : shape_st) (p proto : Z) (throw_flag : bool)
  : res (shape_st * Z) :=
  let fail st : res (shape_st * Z) := Ret (st, if throw_flag then -1 else 0) in
  let* o := get_obj st p in
  let* s := get_shape st (shape o) in
  if sh_proto s =? proto then Ret (st, 1)
  else if negb (extensible o) then fail st
  else
    let* cycle :=
      (if negb (proto =? 0) then
         (* check if there is a cycle *)
         loop (S (size (objs st))) (proto_step st p) proto
       else Ret false) in
    if cycle then fail st
    else
      let st := emit st (Dup <$> obj_ref proto) in
      let* x := js_shape_prepare_update st p in
      let '(st, r) := x in
      if negb (r =? 0) then Ret (st, -1)
      else
        let* o := get_obj st p in
        let* s := get_shape st (shape o) in
        let st := emit st (Free <$> obj_ref (sh_proto s)) in
        Ret (put_shape st (shape o) (set_proto s proto), 1).

(** The loop of [free_object] over the properties. *)
Fixpoint free_properties (st : shape_st) (vs : list JSProperty) (ps : list JSShapeProperty)
  : res shape_st :=
  match ps with
  | [] => Ret st
  | pr :: ps =>
      match vs with
      | [] => Ub
      | v :: vs =>
          let* st := free_property st v (flags pr) in
          free_properties st vs ps
      end
  end.

(** [free_object] up to the weak references and the finalizer of the class;
    the finalizer of arrays frees the elements. *)
Definition free_object (st : shape_st) (p : Z) : res shape_st :=
  let* o := get_obj st p in
  let* s := get_shape st (shape o) in
  let* st := free_properties st (prop o) (sh_prop s) in
  let* st := js_free_shape st (shape o) in
  let st := emit st (Free ∘ RefValue <$> values o) in
  Ret (set_objs st (delete p (objs st))).
End shapes.
