(* ===== verification/Arrays.v ===== *)
(** * The length of arrays ([quickjs.c])

    The change of the length of an array and the growth of a fast array by one
    element.  The value given as a length was converted by
    [JS_ToArrayLengthFree] before: its error and its result are arguments. *)

From stdpp Require Import base tactics numbers list option gmap.
From Stdlib Require Import ZArith Lia SpecFloat.
From S2P Require Import Prelude Values Shapes.
From S2P Require Atoms Numbers.

Open Scope Z_scope.

Definition JS_PROP_THROW : Z := Z.shiftl 1 14.
Definition JS_PROP_THROW_STRICT : Z := Z.shiftl 1 15.

(** [JS_ThrowTypeErrorReadOnly] and [JS_ThrowTypeErrorOrFalse]. *)
Definition throw_or_false (is_strict_mode : bool) (flags : Z) : Z :=
  if negb (Z.land flags JS_PROP_THROW =? 0)
     || (negb (Z.land flags JS_PROP_THROW_STRICT =? 0) && is_strict_mode) then -1 else 0.

Section arrays.
Context {se : ShapeEngine}.

Definition JS_NewAtomUInt32 (st : shape_st) (n : Z) : shape_st * Z :=
  if n <=? Atoms.JS_ATOM_MAX_INT then (emit st [Dup (RefAtom (Atoms.__JS_AtomFromUInt32 n))], Atoms.__JS_AtomFromUInt32 n)
  else
    let '(m, a) := new_index_atom (mem st) n in
    (emit (set_mem st m) [Dup (RefAtom a)], a).

(** [JS_ToUint32] on a length, which is a number. *)
Definition length_u32 (oor : spec_float -> Z) (v : JSValue) : res Z :=
  match v with
  | JS_INT n => Ret (u32 n)
  | JS_FLOAT64 d => let* z := Numbers.f64_to_int32 oor d in Ret (u32 z)
  | _ => Ub
  end.

(** [p->prop[0].u.value] *)
Definition length_value (o : JSObject) : res JSValue :=
  match prop o with PropValue v :: _ => Ret v | _ => Ub end.

(** faster to iterate: one step of the loop, with [cur_len]. *)
Definition shorten_step (p len : Z) (x : shape_st * Z) : res (shape_st * Z + shape_st * Z) :=
  let '(st, cur_len) := x in
  if len <? cur_len then
    let '(st, a) := JS_NewAtomUInt32 st (cur_len - 1) in
    let* y := delete_property 2 st p a in
    let '(st, ret) := y in
    let st := emit st [Free (RefAtom a)] in
    (* unlikely case: property is not configurable *)
    if ret =? 0 then Ret (inr (st, cur_len)) else Ret (inl (st, cur_len - 1))
  else Ret (inr (st, cur_len)).

(** The first pass over the properties: the length that the ones that are not
    configurable leave. *)
Definition kept_len (ps : list JSShapeProperty) (len : Z) : Z :=
  foldl (fun cur_len pr =>
    if negb (atom pr =? JS_ATOM_NULL) then
      match JS_AtomIsArrayIndex (atom pr) with
      | Some idx =>
          if (cur_len <=? idx) && (Z.land (flags pr) JS_PROP_CONFIGURABLE =? 0) then u32 (idx + 1) else cur_len
      | None => cur_len
      end
    else cur_len) len ps.

(** One step of the second pass. *)
Definition truncate_step (p cur_len : Z) (x : shape_st * Z) : res (shape_st * Z + shape_st) :=
  let '(st, i) := x in
  let* o := get_obj st p in
  let* s := get_shape st (shape o) in
  if i <? prop_count s then
    let* pr := rd (sh_prop s) i in
    let* st :=
      (if negb (atom pr =? JS_ATOM_NULL) then
         match JS_AtomIsArrayIndex (atom pr) with
         | Some idx =>
             if cur_len <=? idx then
               (* remove the property; the shape may have been modified *)
               let* y := delete_property 2 st p (atom pr) in Ret y.1
             else Ret st
         | None => Ret st
         end
       else Ret st) in
    Ret (inl (st, i + 1))
  else Ret (inr st).

Definition set_array_length (oor : spec_float -> Z) (is_strict_mode : bool) (st : shape_st)
    (p : Z) (conversion : Z * Z) (flags0 : Z) : res (shape_st * Z) :=
  let '(ret, len) := conversion in
  if negb (ret =? 0) then Ret (st, -1)
  else
    let* o := get_obj st p in
    let* s := get_shape st (shape o) in
    let* pr := rd (sh_prop s) 0 in
    if Z.land (flags pr) JS_PROP_WRITABLE =? 0 then Ret (st, throw_or_false is_strict_mode flags0)
    else if fast_array o then
      let old_len := Z.of_nat (length (values o)) in
      let st :=
        (if len <? old_len then
           let st := emit st (Free ∘ RefValue <$> drop (Z.to_nat len) (values o)) in
           put_obj st p (set_array o true (take (Z.to_nat len) (values o)) (array_size o))
         else st) in
      let* st := write_property st p 0 (PropValue (JS_NewUint32 len)) in
      Ret (st, 1)
    else
      let* v := length_value o in
      let* cur_len := length_u32 oor v in
      let* x :=
        (if len <? cur_len then
           let d := cur_len - len in
           if d <=? prop_count s then loop (S (Z.to_nat d)) (shorten_step p len) (st, cur_len)
           else
             let cur_len := kept_len (sh_prop s) len in
             let* st := loop (S (S (length (sh_prop s)))) (truncate_step p cur_len) (st, 0) in
             Ret (st, cur_len)
         else Ret (st, len)) in
      let '(st, cur_len) := x in
      (* set_value *)
      let* o := get_obj st p in
      let* old := length_value o in
      let* st := write_property st p 0 (PropValue (JS_NewUint32 cur_len)) in
      let st := emit st [Free (RefValue old)] in
      Ret (st, if len <? cur_len then throw_or_false is_strict_mode flags0 else 1).

(** The end of [add_fast_array_element]: the element is stored, after more
    room was allocated if it is needed. *)
Definition store_element (st : shape_st) (p : Z) (val : JSValue) (new_len : Z) : res (shape_st * Z) :=
  let* o := get_obj st p in
  let* y :=
    (if array_size o <? new_len then
       let new_size := u32 (Z.max (i32 new_len) (i32 (u32 (array_size o * 3) / 2))) in
       let '(m, slack) := js_realloc2 (mem st) new_size in
       let st := set_mem st m in
       match slack with
       | None => Ret (st, None)
       | Some slack => Ret (st, Some (u32 (new_size + slack)))
       end
     else Ret (st, Some (array_size o))) in
  let '(st, size) := y in
  match size with
  | None => Ret (emit st [Free (RefValue val)], -1)
  | Some size =>
      let* _ := c_assert (new_len <=? size) in
      Ret (put_obj st p (set_array o (fast_array o) (values o ++ [val]) size), 1)
  end.

(** Preconditions: 'p' must be of class JS_CLASS_ARRAY, p->fast_array =
    TRUE and p->extensible = TRUE.  The value is released if it is not
    stored. *)
Definition add_fast_array_element (is_strict_mode : bool) (st : shape_st) (p : Z) (val : JSValue)
    (flags0 : Z) : res (shape_st * Z) :=
  let* o := get_obj st p in
  (* extend the array by one *)
  let new_len := u32 (Z.of_nat (length (values o)) + 1) in
  (* update the length if necessary *)
  let* x :=
    match prop o with
    | PropValue (JS_INT array_len) :: _ =>
        (* the comparison is unsigned *)
        if u32 array_len <? new_len then
          let* s := get_shape st (shape o) in
          let* pr := rd (sh_prop s) 0 in
          if Z.land (flags pr) JS_PROP_WRITABLE =? 0 then Ret (st, false)
          else let* st := write_property st p 0 (PropValue (JS_NewInt32 new_len)) in Ret (st, true)
        else Ret (st, true)
    | PropValue _ :: _ => Ret (st, true)
    | _ => Ub
    end in
  let '(st, writable) := x in
  if negb writable then Ret (emit st [Free (RefValue val)], throw_or_false is_strict_mode flags0)
  else
    store_element st p val new_len.
End arrays.
