(* ===== verification/ShapeTableSpec.v ===== *)
(** * The hash table of a shape

    The chains of the table go from an entry to the previous one of the same
    bucket, so that the table and the links are functions of the sequence of
    the names: every operation on a shape is followed through this function. *)

From stdpp Require Import base tactics numbers list option gmap.
From Stdlib Require Import ZArith Lia.
From S2P Require Import Prelude Values AtomsSpec Shapes.

Open Scope Z_scope.

(** ** The entry of a bucket *)

Definition in_bucket (mask h a : Z) : bool := negb (a =? 0) && (Z.land a mask =? h).

(** The number, from 1, of the last name of a bucket; 0 if there is none. *)
Definition last_in (mask h : Z) (ats : list Z) : Z :=
  (foldl (fun x a => (x.1 + 1, if in_bucket mask h a then x.1 + 1 else x.2)) (0, 0) ats).2.

Lemma last_in_fst mask h ats :
  (foldl (fun x a => (x.1 + 1, if in_bucket mask h a then x.1 + 1 else x.2)) (0, 0) ats).1
  = Z.of_nat (length ats).
Proof.
  induction ats as [|a ats IH] using rev_ind; [done|].
  rewrite foldl_app. cbn [foldl fst]. rewrite IH, length_app. cbn. lia.
Qed.

Lemma last_in_snoc mask h ats a :
  last_in mask h (ats ++ [a])
  = if in_bucket mask h a then Z.of_nat (length ats) + 1 else last_in mask h ats.
Proof. unfold last_in at 1. rewrite foldl_app. cbn [foldl snd]. by rewrite last_in_fst. Qed.

Lemma last_in_bound mask h ats : 0 <= last_in mask h ats <= Z.of_nat (length ats).
Proof.
  induction ats as [|a ats IH] using rev_ind; [done|].
  rewrite last_in_snoc, length_app. cbn. destruct (in_bucket _ _ _); lia.
Qed.

Lemma last_in_cases mask h ats :
  (last_in mask h ats = 0 /\ forall i a, ats !! i = Some a -> in_bucket mask h a = false)
  \/ exists i a, last_in mask h ats = Z.of_nat i + 1 /\ ats !! i = Some a
     /\ in_bucket mask h a = true
     /\ forall j b, (i < j)%nat -> ats !! j = Some b -> in_bucket mask h b = false.
Proof.
  induction ats as [|a ats IH] using rev_ind; [left; split; [done|by intros []]|].
  rewrite last_in_snoc. destruct (in_bucket mask h a) eqn:Ha.
  - right. exists (length ats), a. split_and!; [done|by rewrite list_lookup_middle|done|].
    intros j b Hj Hb. apply lookup_lt_Some in Hb. rewrite length_app in Hb. cbn in Hb. lia.
  - assert (Hlast : forall j b, (length ats <= j)%nat -> (ats ++ [a]) !! j = Some b ->
      in_bucket mask h b = false).
    { intros j b Hj Hb. rewrite lookup_app_r in Hb by done.
      destruct (j - length ats)%nat; cbn in Hb; [by injection Hb as <-|by destruct n]. }
    destruct IH as [[H0 H1]|(i & b & Hi & Hb & Hin & Hno)]; [left|right].
    + split; [done|]. intros j b Hb. destruct (decide (j < length ats)%nat) as [Hlt|Hge].
      * rewrite lookup_app_l in Hb by done. by apply (H1 j).
      * apply (Hlast j); [lia|done].
    + exists i, b. split_and!; [done| |done|].
      * by apply lookup_app_l_Some.
      * intros j c Hj Hc. destruct (decide (j < length ats)%nat) as [Hlt|Hge].
        -- rewrite lookup_app_l in Hc by done. by apply (Hno j).
        -- apply (Hlast j); [lia|done].
Qed.

(** Two entries of one bucket with the same predecessor are the same. *)
Lemma last_in_ge mask h ats i a : ats !! i = Some a -> in_bucket mask h a = true ->
  Z.of_nat i + 1 <= last_in mask h ats.
Proof.
  intros Hi Ha. destruct (last_in_cases mask h ats) as [[_ H]|(j & b & -> & _ & _ & H)].
  - by rewrite (H i a Hi) in Ha.
  - destruct (decide (j < i)%nat) as [Hlt|Hge]; [|lia]. by rewrite (H i a Hlt Hi) in Ha.
Qed.

Lemma in_bucket_0 mask h : in_bucket mask h 0 = false.
Proof. done. Qed.

Lemma last_in_delete mask h ats i : (i < length ats)%nat ->
  last_in mask h (<[i := 0]> ats)
  = if last_in mask h ats =? Z.of_nat i + 1 then last_in mask h (take i ats)
    else last_in mask h ats.
Proof.
  induction ats as [|a ats IH] using rev_ind; intros Hi; [cbn in Hi; lia|].
  rewrite length_app in Hi. cbn in Hi. pose proof (last_in_bound mask h ats) as Hb.
  destruct (decide (i < length ats)%nat) as [Hlt|Hge].
  - rewrite insert_app_l, !last_in_snoc, length_insert, take_app_le, IH by lia.
    destruct (in_bucket mask h a); [|done]. by rewrite (proj2 (Z.eqb_neq _ _)) by lia.
  - assert (i = length ats) as -> by lia.
    rewrite insert_app_r_alt, Nat.sub_diag, take_app_length by lia. cbn [list_insert insert].
    rewrite !last_in_snoc, in_bucket_0.
    destruct (in_bucket mask h a); [by rewrite Z.eqb_refl|].
    by rewrite (proj2 (Z.eqb_neq _ _)) by lia.
Qed.

(** ** The invariant *)

Definition atoms (ps : list JSShapeProperty) : list Z := atom <$> ps.

Record table_ok (mask : Z) (t : list Z) (ps : list JSShapeProperty) : Prop := {
  to_mask : exists k, 0 <= k <= 27 /\ mask = 2 ^ k - 1;
  to_length : Z.of_nat (length t) = mask + 1;
  to_count : Z.of_nat (length ps) < 2 ^ 26;
  to_head : forall h, (Z.of_nat h <= mask) -> t !! h = Some (last_in mask (Z.of_nat h) (atoms ps));
  to_next : forall i pr, ps !! i = Some pr -> atom pr <> 0 ->
    hash_next pr = last_in mask (Z.land (atom pr) mask) (take i (atoms ps))
}.

Lemma land_mask mask a : (exists k, 0 <= k <= 27 /\ mask = 2 ^ k - 1) -> 0 <= Z.land a mask <= mask.
Proof.
  intros (k & Hk & ->). rewrite land_pow2_mod by lia.
  pose proof (Z.mod_pos_bound a (2 ^ k) ltac:(apply Z.pow_pos_nonneg; lia)). lia.
Qed.

Lemma table_head mask t ps a : table_ok mask t ps ->
  rd t (Z.land a mask) = Ret (last_in mask (Z.land a mask) (atoms ps)).
Proof.
  intros H. pose proof (land_mask mask a (to_mask _ _ _ H)). apply rd_Some; [lia|].
  rewrite (to_head _ _ _ H) by lia. by rewrite Z2Nat.id by lia.
Qed.

(** ** The search *)

Lemma atoms_lookup ps i : atoms ps !! i = atom <$> ps !! i.
Proof. apply list_lookup_fmap. Qed.

(** The search of a name among the first [n] entries, with the entry it came
    from. *)
Lemma delete_loop mask t ps a : table_ok mask t ps -> a <> 0 ->
  forall n fuel prev, (n < fuel)%nat -> (n <= length ps)%nat ->
  match loop fuel (delete_step ps a) (last_in mask (Z.land a mask) (take n (atoms ps)), prev) with
  | Ret (Some (z, lpr)) => exists i pr, z = Z.of_nat i /\ (i < n)%nat /\ ps !! i = Some pr /\ atom pr = a
      /\ (lpr = prev /\ last_in mask (Z.land a mask) (take n (atoms ps)) = Z.of_nat i + 1
          \/ exists l q, lpr = Some (Z.of_nat l) /\ ps !! l = Some q /\ (i < l < n)%nat
             /\ in_bucket mask (Z.land a mask) (atom q) = true
             /\ hash_next q = Z.of_nat i + 1)
  | Ret None => forall i pr, (i < n)%nat -> ps !! i = Some pr -> atom pr <> a
  | _ => False
  end.
Proof.
  intros Ht Ha0. induction n as [n IH] using lt_wf_ind. intros fuel prev Hf Hn.
  destruct fuel as [|fuel]; [lia|]. rewrite loop_S.
  destruct (last_in_cases mask (Z.land a mask) (take n (atoms ps)))
    as [[-> H0]|(i & b & -> & Hi & Hin & Hno)].
  - cbn. intros i pr Hlt Hpr <-.
    assert (E : take n (atoms ps) !! i = Some (atom pr)).
    { rewrite lookup_take by lia. rewrite decide_True by lia. by rewrite atoms_lookup, Hpr. }
    specialize (H0 i _ E). unfold in_bucket in H0.
    rewrite Z.eqb_refl, andb_true_r in H0. by apply negb_false_iff, Z.eqb_eq in H0.
  - pose proof (lookup_lt_Some _ _ _ Hi) as Hlt. rewrite length_take in Hlt.
    rewrite lookup_take, decide_True, atoms_lookup in Hi by lia.
    apply fmap_Some in Hi as (pr & Hpr & ->).
    unfold delete_step at 1. rewrite (proj2 (Z.eqb_neq (Z.of_nat i + 1) 0)) by lia.
    replace (Z.of_nat i + 1 - 1) with (Z.of_nat i) by lia.
    rewrite (rd_nat _ _ _ Hpr). cbn [bind].
    destruct (Z.eqb_spec (atom pr) a) as [E|Hne]; cbn [bind].
    + exists i, pr. split_and!; [done|lia|done|done|]. by left.
    + unfold in_bucket in Hin. apply andb_prop in Hin as [Hl Hb].
      apply negb_true_iff, Z.eqb_neq in Hl. apply Z.eqb_eq in Hb.
      rewrite (to_next _ _ _ Ht i pr Hpr Hl), Hb.
      specialize (IH i ltac:(lia) fuel (Some (Z.of_nat i)) ltac:(lia) ltac:(lia)).
      assert (Hnone : forall j pr', (i < j < n)%nat -> ps !! j = Some pr' -> atom pr' <> a).
      { intros j pr' Hj Hpr' <-.
        assert (E : take n (atoms ps) !! j = Some (atom pr'))
          by (rewrite lookup_take, decide_True, atoms_lookup, Hpr' by lia; done).
        specialize (Hno j _ ltac:(lia) E). unfold in_bucket in Hno.
        rewrite Z.eqb_refl, andb_true_r in Hno. by apply negb_false_iff, Z.eqb_eq in Hno. }
      destruct (loop fuel _ _) as [[[z lpr]|]| |]; [| |done|done].
      * destruct IH as (i' & pr' & -> & Hi' & Hpr' & Ea & Hl').
        exists i', pr'. split_and!; [done|lia|done|done|]. right.
        destruct Hl' as [[-> E]|(l & q & -> & Hq & Hlt' & Hbq & Hnx)].
        -- exists i, pr. split_and!; [done|done|lia|lia| |].
           ++ unfold in_bucket. rewrite Hb, Z.eqb_refl, (proj2 (Z.eqb_neq _ _) Hl). done.
           ++ by rewrite (to_next _ _ _ Ht i pr Hpr Hl), Hb.
        -- exists l, q. split_and!; [done|done|lia|lia|done|done].
      * intros j pr' Hj Hpr'. destruct (decide (j < i)%nat) as [Hji|Hji]; [by apply (IH j)|].
        destruct (decide (j = i)) as [->|Hne']; [congruence|].
        apply (Hnone j); [lia|done].
Qed.

(** The two searches follow the same chain. *)
Lemma find_delete_loop ps a fuel h prev :
  loop fuel (find_step ps a) h
  = let* x := loop fuel (delete_step ps a) (h, prev) in Ret (fst <$> x).
Proof.
  revert h prev. induction fuel as [|fuel IH]; intros h prev; [done|].
  rewrite !loop_S. unfold find_step at 1, delete_step at 1.
  destruct (h =? 0); [done|]. destruct (rd ps (h - 1)) as [pr| |]; [|done|done]. cbn [bind].
  destruct (atom pr =? a); [done|]. cbn [bind]. apply IH.
Qed.

Definition shape_table_ok (s : JSShape) : Prop :=
  table_ok (prop_hash_mask s) (prop_hash s) (sh_prop s).

(** The names of the entries in use are all different. *)
Definition names_ok (ps : list JSShapeProperty) : Prop :=
  forall i j pr pr', ps !! i = Some pr -> ps !! j = Some pr' -> atom pr <> 0 ->
    atom pr = atom pr' -> i = j.

Lemma find_in_shape_spec s a : shape_table_ok s -> a <> 0 ->
  wp (find_in_shape s a) (fun r =>
    match r with
    | Some z => exists i pr, z = Z.of_nat i /\ sh_prop s !! i = Some pr /\ atom pr = a
    | None => a ∉ atoms (sh_prop s)
    end).
Proof.
  intros Ht Ha. unfold find_in_shape. rewrite (table_head _ _ _ a Ht). cbn [bind].
  rewrite (find_delete_loop _ _ _ _ None).
  pose proof (delete_loop _ _ _ a Ht Ha (length (sh_prop s)) (S (length (sh_prop s))) None
    ltac:(lia) ltac:(lia)) as H.
  rewrite (firstn_all2 (atoms (sh_prop s))) in H by (unfold atoms; rewrite length_fmap; lia).
  destruct (loop _ _ _) as [[[z lpr]|]| |]; [| |done|done]; cbn [bind wp fmap option_fmap option_map fst].
  - destruct H as (i & pr & -> & _ & Hpr & Ea & _). by exists i, pr.
  - intros [i Hi]%list_elem_of_lookup. rewrite atoms_lookup in Hi.
    apply fmap_Some in Hi as (pr & Hpr & ->).
    apply (H i pr); [by eapply lookup_lt_Some|done|done].
Qed.

(** ** The changes *)

Lemma u26_id z : 0 <= z < 2 ^ 26 -> u26 z = z.
Proof. apply Z.mod_small. Qed.

(** A new entry at the end. *)
Lemma table_snoc mask t ps a fl : table_ok mask t ps -> a <> 0 ->
  Z.of_nat (length ps) + 1 < 2 ^ 26 ->
  table_ok mask (<[Z.to_nat (Z.land a mask) := Z.of_nat (length ps) + 1]> t)
    (ps ++ [mkShapeProp (u26 (last_in mask (Z.land a mask) (atoms ps))) fl a]).
Proof.
  intros Ht Ha Hlen. pose proof (land_mask mask a (to_mask _ _ _ Ht)) as Hb.
  pose proof (to_length _ _ _ Ht) as HL. pose proof (last_in_bound mask (Z.land a mask) (atoms ps)) as Hl.
  assert (EL : length (atoms ps) = length ps) by apply length_fmap.
  assert (EA : forall x, atoms (ps ++ [x]) = atoms ps ++ [atom x]) by (intros; unfold atoms; by rewrite fmap_app).
  split.
  - apply Ht.
  - by rewrite length_insert.
  - rewrite length_app. cbn. lia.
  - intros h Hh. rewrite EA, last_in_snoc. cbn [atom]. unfold in_bucket.
    rewrite (proj2 (Z.eqb_neq a 0) Ha), EL. cbn [negb andb].
    destruct (Z.eqb_spec (Z.land a mask) (Z.of_nat h)) as [E|Hne].
    + rewrite E, Nat2Z.id, list_lookup_insert_eq by lia. done.
    + rewrite list_lookup_insert_ne by lia. by apply (to_head _ _ _ Ht).
  - intros i pr Hpr Hn. rewrite EA.
    destruct (decide (i < length ps)%nat) as [Hlt|Hge].
    + rewrite lookup_app_l in Hpr by done. rewrite take_app_le by lia.
      by apply (to_next _ _ _ Ht).
    + pose proof (lookup_lt_Some _ _ _ Hpr) as Hlt. rewrite length_app in Hlt. cbn in Hlt.
      assert (i = length ps) as -> by lia. rewrite list_lookup_middle in Hpr by done.
      injection Hpr as <-. cbn [hash_next atom]. rewrite u26_id by lia.
      by rewrite <- EL, take_app_length.
Qed.

(** The names and the links do not depend on the flags. *)
Lemma table_flags mask t ps i pr fl : table_ok mask t ps -> ps !! i = Some pr ->
  table_ok mask t (<[i := mkShapeProp (hash_next pr) fl (atom pr)]> ps).
Proof.
  intros Ht Hi. pose proof (lookup_lt_Some _ _ _ Hi) as Hlt.
  assert (EA : atoms (<[i := mkShapeProp (hash_next pr) fl (atom pr)]> ps) = atoms ps).
  { unfold atoms. rewrite list_fmap_insert. cbn [atom]. apply list_insert_id.
    by rewrite list_lookup_fmap, Hi. }
  split.
  - apply Ht.
  - apply Ht.
  - rewrite length_insert. apply Ht.
  - intros h Hh. rewrite EA. by apply (to_head _ _ _ Ht).
  - intros j q Hq Hn. rewrite EA. destruct (decide (j = i)) as [->|Hne].
    + rewrite list_lookup_insert_eq in Hq by done. injection Hq as <-. cbn [hash_next atom] in *.
      by apply (to_next _ _ _ Ht).
    + rewrite list_lookup_insert_ne in Hq by done. by apply (to_next _ _ _ Ht).
Qed.

(** The table and the links after the removal of the entry [i]: the entry
    that led to it, or the table, leads to the next one. *)
Section remove.
Context (mask : Z) (t : list Z) (ps : list JSShapeProperty) (i : nat) (pr : JSShapeProperty).
Context (Ht : table_ok mask t ps) (Hi : ps !! i = Some pr) (Ha : atom pr <> 0).
Let b := Z.land (atom pr) mask.

Definition removed (ps' : list JSShapeProperty) : list JSShapeProperty :=
  match ps' !! i with
  | Some q => <[i := mkShapeProp (hash_next q) 0 0]> ps'
  | None => ps'
  end.

Lemma pr_bucket : in_bucket mask b (atom pr) = true.
Proof. unfold in_bucket, b. by rewrite (proj2 (Z.eqb_neq _ _) Ha), Z.eqb_refl. Qed.

Lemma removed_atoms ps' : atoms ps' = atoms ps -> atoms (removed ps') = <[i := 0]> (atoms ps).
Proof.
  intros E. unfold removed. destruct (ps' !! i) as [q|] eqn:Hq.
  - unfold atoms. rewrite list_fmap_insert. cbn [atom]. fold (atoms ps'). by rewrite E.
  - assert (atoms ps !! i = None) as HN by (rewrite <- E, atoms_lookup, Hq; done).
    by rewrite atoms_lookup, Hi in HN.
Qed.

Lemma removed_lookup ps' j q : (j <> i) -> removed ps' !! j = Some q <-> ps' !! j = Some q.
Proof.
  intros Hne. unfold removed. destruct (ps' !! i); [|done]. by rewrite list_lookup_insert_ne by done.
Qed.

Lemma removed_lookup_i ps' q : removed ps' !! i = Some q -> atom q = 0.
Proof.
  unfold removed. destruct (ps' !! i) as [x|] eqn:Hx; [|congruence].
  rewrite list_lookup_insert_eq by (by eapply lookup_lt_Some). by intros [= <-].
Qed.

Lemma last_in_removed h ats : ats = atoms ps -> forall n,
  last_in mask h (take n (<[i := 0]> ats))
  = if last_in mask h (take n ats) =? Z.of_nat i + 1 then last_in mask h (take i ats)
    else last_in mask h (take n ats).
Proof.
  intros -> n. pose proof (lookup_lt_Some _ _ _ Hi) as Hlt.
  assert (EL : length (atoms ps) = length ps) by apply length_fmap.
  destruct (decide (i < n)%nat) as [Hin|Hin].
  - rewrite take_insert_lt by done.
    rewrite last_in_delete by (rewrite length_take; lia). by rewrite take_take, Nat.min_l by lia.
  - rewrite take_insert_ge by lia.
    pose proof (last_in_bound mask h (take n (atoms ps))) as Hb. rewrite length_take in Hb.
    by rewrite (proj2 (Z.eqb_neq _ _)) by lia.
Qed.

Lemma table_remove (lpr : option nat) t' ps' :
  match lpr with
  | None => last_in mask b (atoms ps) = Z.of_nat i + 1
            /\ t' = <[Z.to_nat b := hash_next pr]> t /\ ps' = ps
  | Some l => exists q, ps !! l = Some q /\ (i < l)%nat /\ in_bucket mask b (atom q) = true
            /\ hash_next q = Z.of_nat i + 1
            /\ t' = t /\ ps' = <[l := mkShapeProp (hash_next pr) (flags q) (atom q)]> ps
  end ->
  table_ok mask t' (removed ps').
Proof.
  intros Hl. pose proof (land_mask mask (atom pr) (to_mask _ _ _ Ht)) as Hb. fold b in Hb.
  pose proof (to_length _ _ _ Ht) as HL.
  pose proof (lookup_lt_Some _ _ _ Hi) as Hlt.
  pose proof (to_next _ _ _ Ht i pr Hi Ha) as Hnx. fold b in Hnx.
  assert (EA' : atoms ps' = atoms ps).
  { destruct lpr as [l|]; [|by destruct Hl as (_ & _ & ->)].
    destruct Hl as (q & Hq & _ & _ & _ & _ & ->).
    unfold atoms. rewrite list_fmap_insert. cbn [atom]. apply list_insert_id.
    by rewrite list_lookup_fmap, Hq. }
  assert (EL' : length ps' = length ps)
    by (rewrite <- (length_fmap atom ps'), <- (length_fmap atom ps); by f_equal).
  assert (Etake : forall n h, last_in mask h (take n (atoms (removed ps')))
    = if last_in mask h (take n (atoms ps)) =? Z.of_nat i + 1
      then last_in mask h (take i (atoms ps)) else last_in mask h (take n (atoms ps)))
    by (intros; rewrite removed_atoms by done; by apply last_in_removed).
  split.
  - apply Ht.
  - destruct lpr; [by destruct Hl as (? & _ & _ & _ & _ & -> & _)|].
    destruct Hl as (_ & -> & _). by rewrite length_insert.
  - unfold removed. destruct (ps' !! i); rewrite ?length_insert, EL'; apply Ht.
  - intros h Hh.
    assert (E : last_in mask (Z.of_nat h) (atoms (removed ps'))
      = if last_in mask (Z.of_nat h) (atoms ps) =? Z.of_nat i + 1
        then last_in mask (Z.of_nat h) (take i (atoms ps)) else last_in mask (Z.of_nat h) (atoms ps)).
    { specialize (Etake (length ps) (Z.of_nat h)).
      rewrite !(firstn_all2 (n := length ps)) in Etake; [done|by unfold atoms; rewrite length_fmap|].
      rewrite removed_atoms by done. unfold atoms. by rewrite length_insert, length_fmap. }
    rewrite E. clear E.
    destruct (decide (Z.of_nat h = b)) as [E|Hne].
    + rewrite E. destruct lpr as [l|].
      * destruct Hl as (q & Hq & Hil & Hbq & _ & -> & _).
        assert (Hge : Z.of_nat l + 1 <= last_in mask b (atoms ps))
          by (eapply last_in_ge; [by rewrite atoms_lookup, Hq|done]).
        rewrite (proj2 (Z.eqb_neq _ _)) by lia. rewrite <- E. by apply (to_head _ _ _ Ht).
      * destruct Hl as (-> & -> & _). rewrite Z.eqb_refl, <- E, Nat2Z.id.
        rewrite list_lookup_insert_eq by lia. rewrite E. by f_equal.
    + assert (last_in mask (Z.of_nat h) (atoms ps) <> Z.of_nat i + 1) as Hn1.
      { intros E. destruct (last_in_cases mask (Z.of_nat h) (atoms ps))
          as [[? _]|(j & c & Ej & Hc & Hbc & _)]; [lia|].
        assert (j = i) as -> by lia. rewrite atoms_lookup, Hi in Hc. injection Hc as <-.
        unfold in_bucket in Hbc. apply andb_prop in Hbc as [_ Hbc%Z.eqb_eq]. by apply Hne. }
      rewrite (proj2 (Z.eqb_neq _ _)) by done. rewrite <- (to_head _ _ _ Ht) by done.
      destruct lpr; [by destruct Hl as (? & _ & _ & _ & _ & -> & _)|].
      destruct Hl as (_ & -> & _). apply list_lookup_insert_ne. lia.
  - intros j q Hq Hqa. destruct (decide (j = i)) as [->|Hji];
      [by apply removed_lookup_i in Hq|].
    apply (proj1 (removed_lookup ps' j q Hji)) in Hq. rewrite Etake.
    assert (exists q0, ps !! j = Some q0 /\ atom q0 = atom q /\
      (hash_next q = hash_next q0 /\ lpr <> Some j \/ lpr = Some j /\ hash_next q = hash_next pr))
      as (q0 & Hq0 & Eq & Hcase).
    { destruct lpr as [l|].
      - destruct Hl as (ql & Hql & _ & _ & _ & _ & ->). destruct (decide (j = l)) as [->|Hjl].
        + rewrite list_lookup_insert_eq in Hq by (by eapply lookup_lt_Some). injection Hq as <-.
          exists ql. split_and!; [done|done|]. by right.
        + rewrite list_lookup_insert_ne in Hq by done. exists q. split_and!; [done|done|].
          left. split; [done|congruence].
      - destruct Hl as (_ & _ & ->). exists q. split_and!; [done|done|]. by left. }
    rewrite <- Eq in Hqa |- *.
    pose proof (to_next _ _ _ Ht j q0 Hq0 Hqa) as Hnj.
    destruct (Z.eqb_spec (last_in mask (Z.land (atom q0) mask) (take j (atoms ps)))
      (Z.of_nat i + 1)) as [E|Hne].
    + (* the entry led to the removed one *)
      assert (Eb : Z.land (atom q0) mask = b /\ (i < j)%nat).
      { destruct (last_in_cases mask (Z.land (atom q0) mask) (take j (atoms ps)))
          as [[? _]|(k & c & Ek & Hc & Hbc & _)]; [lia|].
        assert (k = i) as -> by lia. pose proof (lookup_lt_Some _ _ _ Hc) as Hk.
        rewrite length_take in Hk. rewrite lookup_take, decide_True, atoms_lookup, Hi in Hc by lia.
        injection Hc as <-. unfold in_bucket in Hbc. apply andb_prop in Hbc as [_ Hbc%Z.eqb_eq].
        split; [done|lia]. }
      destruct Eb as [Eb Hij]. rewrite Eb in *.
      assert (Hjb : in_bucket mask b (atom q0) = true)
        by (unfold in_bucket; by rewrite (proj2 (Z.eqb_neq _ _) Hqa), Eb, Z.eqb_refl).
      assert (lpr = Some j) as Hlj; [|destruct Hcase as [[_ ?]|[_ ->]]; [done|by rewrite Hnx]].
      destruct lpr as [l|].
      * destruct Hl as (ql & Hql & Hil & Hbl & Hnl & _). f_equal.
        destruct (decide (ql.(atom) = 0)) as [E0|Hl0]; [by rewrite E0 in Hbl|].
        pose proof (to_next _ _ _ Ht l ql Hql Hl0) as Hnl'.
        assert (Z.land (atom ql) mask = b) as Elb
          by (unfold in_bucket in Hbl; by apply andb_prop in Hbl as [_ ?%Z.eqb_eq]).
        rewrite Elb, Hnl in Hnl'.
        destruct (Nat.lt_trichotomy l j) as [Hlj|[->|Hlj]]; [|done|]; exfalso.
        -- assert (Z.of_nat l + 1 <= last_in mask b (take j (atoms ps))); [|lia].
           eapply last_in_ge; [|exact Hbl].
           pose proof (lookup_lt_Some _ _ _ Hq0).
           by rewrite lookup_take, decide_True, atoms_lookup, Hql by lia.
        -- assert (Z.of_nat j + 1 <= last_in mask b (take l (atoms ps))); [|lia].
           eapply last_in_ge; [|exact Hjb].
           pose proof (lookup_lt_Some _ _ _ Hql).
           by rewrite lookup_take, decide_True, atoms_lookup, Hq0 by lia.
      * destruct Hl as (El & _). exfalso.
        assert (Z.of_nat j + 1 <= last_in mask b (atoms ps)); [|lia].
        eapply last_in_ge; [|exact Hjb]. by rewrite atoms_lookup, Hq0.
    + rewrite <- Hnj. destruct Hcase as [[-> _]|[El Hnq]]; [done|].
      rewrite El in Hl. destruct Hl as (ql & Hql & Hil & Hbl & Hnl & _).
      rewrite Hq0 in Hql. injection Hql as <-. congruence.
Qed.
End remove.

(** ** The properties of an object as a sequence of entries

    The entries of a shape that are in use, with the values of an object,
    are the properties in the order of their creation; what the operations on
    the arrays do to this sequence. *)

(** A name, its flags and its value. *)
Abbreviation entry := (Z * Z * JSProperty)%type.

Definition key (e : entry) : Z := e.1.1.
Definition keys (l : list entry) : list Z := key <$> l.

Fixpoint entries (ps : list JSShapeProperty) (vs : list JSProperty) : list entry :=
  match ps, vs with
  | pr :: ps, v :: vs =>
      (if atom pr =? 0 then [] else [(atom pr, flags pr, v)]) ++ entries ps vs
  | _, _ => []
  end.

Definition a_find (l : list entry) (a : Z) : option entry :=
  snd <$> list_find (fun e => key e = a) l.
Definition a_remove (l : list entry) (a : Z) : list entry := filter (fun e => key e <> a) l.
Definition a_alter (l : list entry) (a : Z) (f : entry -> Z * JSProperty) : list entry :=
  (fun e => if decide (key e = a) then (key e, (f e).1, (f e).2) else e) <$> l.

Lemma entries_nil_r ps : entries ps [] = [].
Proof. by destruct ps. Qed.

Lemma entries_app ps qs vs :
  entries (ps ++ qs) vs = entries ps vs ++ entries qs (drop (length ps) vs).
Proof.
  revert vs. induction ps as [|pr ps IH]; intros vs; [done|].
  destruct vs as [|v vs]; [by rewrite drop_nil, !entries_nil_r|].
  cbn. by rewrite IH, app_assoc.
Qed.

Lemma entries_take ps vs : entries ps (take (length ps) vs) = entries ps vs.
Proof.
  revert vs. induction ps as [|pr ps IH]; intros [|v vs]; [done..|]. cbn. by rewrite IH.
Qed.

(** The values beyond the entries do not matter. *)
Lemma entries_ext ps vs vs' : take (length ps) vs = take (length ps) vs' ->
  entries ps vs = entries ps vs'.
Proof. intros E. by rewrite <- (entries_take ps vs), E, entries_take. Qed.

(** The links do not matter. *)
Lemma entries_same ps ps' vs : atoms ps' = atoms ps -> flags <$> ps' = flags <$> ps ->
  entries ps' vs = entries ps vs.
Proof.
  revert ps' vs. induction ps as [|pr ps IH]; intros [|pr' ps'] vs Ha Hf; [done..|].
  injection Ha as Ha Ha'. injection Hf as Hf Hf'. destruct vs as [|v vs]; [done|].
  cbn. by rewrite Ha, Hf, (IH ps').
Qed.

Lemma elem_of_keys l a : a ∈ keys l <-> exists fl v, (a, fl, v) ∈ l.
Proof.
  unfold keys. rewrite list_elem_of_fmap. split.
  - intros ([[k fl] v] & -> & H). by exists fl, v.
  - intros (fl & v & H). by exists (a, fl, v).
Qed.

Lemma keys_app l1 l2 : keys (l1 ++ l2) = keys l1 ++ keys l2.
Proof. apply fmap_app. Qed.

Lemma entries_keys ps vs a : (length ps <= length vs)%nat -> a <> 0 ->
  a ∈ keys (entries ps vs) <-> a ∈ atoms ps.
Proof.
  intros Hlen Ha. revert vs Hlen. induction ps as [|pr ps IH]; intros [|v vs] Hlen;
    cbn in Hlen; try done; try lia.
  cbn [entries atoms fmap list_fmap]. rewrite keys_app, elem_of_app, elem_of_cons.
  fold (atoms ps). rewrite IH by lia.
  destruct (Z.eqb_spec (atom pr) 0) as [->|Hne]; cbn [keys fmap list_fmap];
    rewrite ?elem_of_nil, ?list_elem_of_singleton; cbn [key fst]; [|done].
  split; [by intros [[]|?]; right|]. intros [?|?]; [done|by right].
Qed.

(** ** One entry among the others *)

Lemma filter_keep {A} (P : A -> Prop) `{forall x, Decision (P x)} (l : list A) :
  (forall x, x ∈ l -> P x) -> filter P l = l.
Proof.
  induction l as [|x l IH]; intros Hl; [done|].
  rewrite filter_cons_True by (apply Hl; left). f_equal. apply IH. intros y Hy. apply Hl. by right.
Qed.

Section middle.
Context (l1 l2 : list entry) (x : entry).
Context (Hnd : NoDup (keys (l1 ++ x :: l2))).

Lemma middle_fresh e : e ∈ l1 \/ e ∈ l2 -> key e <> key x.
Proof.
  intros He E. rewrite keys_app in Hnd. apply NoDup_app in Hnd as (_ & Hd & Hnd2).
  cbn in Hnd2. apply NoDup_cons in Hnd2 as [Hx _]. destruct He as [He|He].
  - apply (Hd (key x)); [|by left]. rewrite <- E. by apply list_elem_of_fmap_2.
  - apply Hx. rewrite <- E. by apply list_elem_of_fmap_2.
Qed.

Lemma a_find_middle : a_find (l1 ++ x :: l2) (key x) = Some x.
Proof.
  unfold a_find. assert (list_find (fun e => key e = key x) (l1 ++ x :: l2)
    = Some (length l1, x)) as ->; [|done].
  apply list_find_Some. split_and!; [by rewrite list_lookup_middle|done|].
  intros j y Hj Hlt. rewrite lookup_app_l in Hj by done. apply middle_fresh. left.
  by eapply list_elem_of_lookup_2.
Qed.

Lemma a_remove_middle : a_remove (l1 ++ x :: l2) (key x) = l1 ++ l2.
Proof.
  unfold a_remove. rewrite filter_app, filter_cons_False by (intros H; by apply H).
  rewrite !filter_keep; [done|intros e He; apply middle_fresh; tauto..].
Qed.

Lemma a_alter_middle f :
  a_alter (l1 ++ x :: l2) (key x) f = l1 ++ (key x, (f x).1, (f x).2) :: l2.
Proof.
  unfold a_alter. rewrite fmap_app, fmap_cons, decide_True by done.
  assert (Hid : forall l : list entry, (forall e, e ∈ l -> e ∈ l1 \/ e ∈ l2) ->
    (fun e : entry => if decide (key e = key x) then (key e, (f e).1, (f e).2) else e) <$> l = l).
  { intros l Hl. rewrite <- (list_fmap_id l) at 2. apply list_fmap_ext. intros i e He.
    rewrite decide_False; [done|]. apply middle_fresh, Hl. by eapply list_elem_of_lookup_2. }
  by rewrite !Hid by tauto.
Qed.
End middle.

Lemma a_find_None l a : a ∉ keys l -> a_find l a = None.
Proof.
  intros H. unfold a_find. assert (list_find (fun e => key e = a) l = None) as ->; [|done].
  apply list_find_None, Forall_forall. intros e He <-. apply H. by apply list_elem_of_fmap_2.
Qed.

Lemma a_find_Some l a e : a_find l a = Some e -> e ∈ l /\ key e = a.
Proof.
  unfold a_find. intros (ie & Hf & E)%fmap_Some. destruct ie as [i e']. cbn in E. subst e'.
  apply list_find_Some in Hf as (Hi & Hk & _). split; [by eapply list_elem_of_lookup_2|done].
Qed.

(** The entry of an index. *)
Lemma entries_middle ps vs i pr v : ps !! i = Some pr -> vs !! i = Some v -> atom pr <> 0 ->
  entries ps vs = entries (take i ps) (take i vs) ++ (atom pr, flags pr, v)
                    :: entries (drop (S i) ps) (drop (S i) vs)
  /\ forall pr' v', entries (<[i := pr']> ps) (<[i := v']> vs)
     = entries (take i ps) (take i vs)
       ++ (if atom pr' =? 0 then [] else [(atom pr', flags pr', v')])
       ++ entries (drop (S i) ps) (drop (S i) vs).
Proof.
  intros Hp Hv Ha.
  assert (Hlp : (i < length ps)%nat) by by eapply lookup_lt_Some.
  assert (Hlv : (i < length vs)%nat) by by eapply lookup_lt_Some.
  assert (Hgen : forall pr' v' , entries (take i ps ++ pr' :: drop (S i) ps) (take i vs ++ v' :: drop (S i) vs)
    = entries (take i ps) (take i vs)
      ++ (if atom pr' =? 0 then [] else [(atom pr', flags pr', v')])
      ++ entries (drop (S i) ps) (drop (S i) vs)).
  { intros pr' v'. rewrite entries_app, length_take, Nat.min_l by lia.
    assert (E : drop i (take i vs ++ v' :: drop (S i) vs) = v' :: drop (S i) vs)
      by (rewrite drop_app_ge by (rewrite length_take; lia);
          by rewrite length_take, Nat.min_l, Nat.sub_diag by lia).
    rewrite E. f_equal. apply entries_ext. rewrite length_take, Nat.min_l by lia.
    by rewrite take_app_le, take_take by (rewrite length_take; lia). }
  split.
  - rewrite <- (take_drop_middle ps i pr Hp) at 1. rewrite <- (take_drop_middle vs i v Hv) at 1.
    rewrite Hgen, (proj2 (Z.eqb_neq _ _) Ha). done.
  - intros pr' v'. by rewrite (insert_take_drop ps i pr'), (insert_take_drop vs i v') by done.
Qed.

Lemma list_insert_same {A} (l : list A) i x : l !! i = Some x -> <[i := x]> l = l.
Proof. apply list_insert_id. Qed.

Section index.
Context (ps : list JSShapeProperty) (vs : list JSProperty) (i : nat).
Context (pr : JSShapeProperty) (v : JSProperty).
Context (Hp : ps !! i = Some pr) (Hv : vs !! i = Some v) (Ha : atom pr <> 0).
Context (Hnd : NoDup (keys (entries ps vs))).

Lemma entries_find : a_find (entries ps vs) (atom pr) = Some (atom pr, flags pr, v).
Proof.
  destruct (entries_middle ps vs i pr v Hp Hv Ha) as [E _]. rewrite E in Hnd |- *.
  by apply (a_find_middle _ _ (atom pr, flags pr, v)).
Qed.

Lemma entries_remove pr' v' : atom pr' = 0 ->
  entries (<[i := pr']> ps) (<[i := v']> vs) = a_remove (entries ps vs) (atom pr).
Proof.
  intros E0. destruct (entries_middle ps vs i pr v Hp Hv Ha) as [E E']. rewrite E', E0.
  rewrite E in Hnd |- *. symmetry. by apply (a_remove_middle _ _ (atom pr, flags pr, v)).
Qed.

Lemma entries_update pr' v' : atom pr' = atom pr ->
  entries (<[i := pr']> ps) (<[i := v']> vs)
  = a_alter (entries ps vs) (atom pr) (fun _ => (flags pr', v')).
Proof.
  intros Ea. destruct (entries_middle ps vs i pr v Hp Hv Ha) as [E E']. rewrite E', Ea.
  rewrite (proj2 (Z.eqb_neq _ _) Ha). rewrite E in Hnd |- *.
  symmetry. by apply (a_alter_middle _ _ (atom pr, flags pr, v)).
Qed.
End index.

Lemma keys_remove l a : keys (a_remove l a) = filter (fun k => k <> a) (keys l).
Proof.
  unfold keys, a_remove. induction l as [|e l IH]; [done|]. cbn [fmap list_fmap].
  rewrite !filter_cons. destruct (decide (key e <> a)); cbn [fmap list_fmap]; by rewrite IH.
Qed.

Lemma keys_alter l a f : keys (a_alter l a f) = keys l.
Proof.
  unfold keys, a_alter. rewrite <- list_fmap_compose. apply list_fmap_ext. intros i e _. cbn.
  by destruct (decide _).
Qed.

Lemma keys_remove_NoDup l a : NoDup (keys l) -> NoDup (keys (a_remove l a)).
Proof. intros H. rewrite keys_remove. by apply NoDup_filter. Qed.

(** The length of the entries in use. *)
Definition deleted (ps : list JSShapeProperty) : list JSShapeProperty := filter (fun pr => atom pr = 0) ps.

Lemma entries_length ps vs : (length ps <= length vs)%nat ->
  (length (entries ps vs) + length (deleted ps) = length ps)%nat.
Proof.
  revert vs. induction ps as [|pr ps IH]; intros [|v vs] Hlen; cbn in Hlen; try done; try lia.
  specialize (IH vs ltac:(lia)). cbn [entries]. unfold deleted in *. rewrite filter_cons, length_app.
  destruct (Z.eqb_spec (atom pr) 0) as [E|E].
  - rewrite decide_True by done. cbn. lia.
  - rewrite decide_False by done. cbn. lia.
Qed.

Lemma deleted_insert ps i pr pr' : ps !! i = Some pr -> atom pr <> 0 -> atom pr' = 0 ->
  length (deleted (<[i := pr']> ps)) = S (length (deleted ps)).
Proof.
  intros Hp Ha Ha'. assert (Hlt : (i < length ps)%nat) by by eapply lookup_lt_Some.
  rewrite insert_take_drop by done.
  transitivity (S (length (deleted (take i ps ++ pr :: drop (S i) ps))));
    [|by rewrite take_drop_middle].
  unfold deleted. rewrite !filter_app, !filter_cons, decide_True, decide_False, !length_app by done.
  cbn. lia.
Qed.

Lemma deleted_same ps ps' : atoms ps' = atoms ps -> length (deleted ps') = length (deleted ps).
Proof.
  revert ps'. induction ps as [|pr ps IH]; intros [|pr' ps'] E; try done.
  injection E as E E'. unfold deleted in *. rewrite !filter_cons, E.
  destruct (decide (atom pr = 0)); cbn; by rewrite IH.
Qed.

(** ** New tables *)

Lemma table_snoc_deleted mask t ps pr : table_ok mask t ps -> atom pr = 0 ->
  Z.of_nat (length ps) + 1 < 2 ^ 26 -> table_ok mask t (ps ++ [pr]).
Proof.
  intros Ht Ha Hlen.
  assert (EA : atoms (ps ++ [pr]) = atoms ps ++ [0]) by (unfold atoms; rewrite fmap_app; cbn; by rewrite Ha).
  assert (EL : length (atoms ps) = length ps) by apply length_fmap.
  split.
  - apply Ht.
  - apply Ht.
  - rewrite length_app. cbn. lia.
  - intros h Hh. rewrite EA, last_in_snoc, in_bucket_0. by apply (to_head _ _ _ Ht).
  - intros i q Hq Hn. rewrite EA.
    destruct (decide (i < length ps)%nat) as [Hlt|Hge].
    + rewrite lookup_app_l in Hq by done. rewrite take_app_le by lia. by apply (to_next _ _ _ Ht).
    + rewrite lookup_app_r in Hq by lia. destruct (i - length ps)%nat as [|n]; [|by destruct n].
      injection Hq as <-. done.
Qed.

Lemma table_empty k : 0 <= k <= 27 ->
  table_ok (2 ^ k - 1) (replicate (Z.to_nat (2 ^ k)) 0) [].
Proof.
  intros Hk. pose proof (Z.pow_pos_nonneg 2 k ltac:(lia) ltac:(lia)). split.
  - by exists k.
  - rewrite length_replicate. lia.
  - done.
  - intros h Hh. apply lookup_replicate_2. lia.
  - by intros [|i] pr.
Qed.

(** A new entry in a table, as the code writes it. *)
Lemma insert_entry mask t ps a (Q : list Z -> Z -> Prop) : table_ok mask t ps ->
  Q (<[Z.to_nat (Z.land a mask) := Z.of_nat (length ps) + 1]> t)
    (last_in mask (Z.land a mask) (atoms ps)) ->
  wp (let* n := rd t (Z.land a mask) in
      let* t := wr t (Z.land a mask) (Z.of_nat (length ps) + 1) in Ret (t, n))
    (fun '(t, n) => Q t n).
Proof.
  intros Ht HQ. rewrite (table_head _ _ _ a Ht). cbn [bind].
  pose proof (land_mask mask a (to_mask _ _ _ Ht)). pose proof (to_length _ _ _ Ht).
  rewrite wr_in by lia. done.
Qed.

Lemma rehash_props_spec mask ps : forall qs t, table_ok mask t qs ->
  Z.of_nat (length qs + length ps) < 2 ^ 26 ->
  wp (rehash_props ps (Z.of_nat (length qs)) mask t) (fun '(ps', t') =>
    table_ok mask t' (qs ++ ps') /\ atoms ps' = atoms ps /\ flags <$> ps' = flags <$> ps).
Proof.
  induction ps as [|pr ps IH]; intros qs t Ht Hlen.
  - cbn. rewrite app_nil_r. done.
  - cbn [rehash_props]. cbn [length] in Hlen. destruct (Z.eqb_spec (atom pr) JS_ATOM_NULL) as [E|Hne]; cbn [negb bind].
    + assert (Hl : Z.of_nat (length qs) + 1 = Z.of_nat (length (qs ++ [pr])))
        by (rewrite length_app; cbn; lia).
      rewrite Hl. apply wp_bind. eapply wp_mono.
      { apply (IH (qs ++ [pr]) t); [apply table_snoc_deleted; [done|done|lia]|].
        rewrite length_app. cbn. lia. }
      intros [ps' t'] (Ht' & Ea & Ef). cbn. rewrite <- app_assoc in Ht'. split; [done|].
      unfold atoms in *. cbn. by rewrite Ea, Ef.
    + pose proof (land_mask mask (atom pr) (to_mask _ _ _ Ht)). pose proof (to_length _ _ _ Ht).
      rewrite (table_head _ _ _ _ Ht). cbn [bind]. rewrite wr_in by lia. cbn [bind].
      pose proof (table_snoc mask t qs (atom pr) (flags pr) Ht Hne ltac:(lia)) as Ht2.
      set (pr2 := mkShapeProp _ _ _) in *.
      assert (Hl : Z.of_nat (length qs) + 1 = Z.of_nat (length (qs ++ [pr2])))
        by (rewrite length_app; cbn; lia).
      rewrite Hl at 1. apply wp_bind. eapply wp_mono.
      { apply (IH (qs ++ [pr2])); [done|]. rewrite length_app. cbn. lia. }
      intros [ps' t'] (Ht' & Ea & Ef). cbn. rewrite <- app_assoc in Ht'. split; [done|].
      unfold atoms in *. cbn. by rewrite Ea, Ef.
Qed.

Lemma entries_write kept vs a fl n v : (length kept < length vs)%nat -> a <> 0 ->
  entries (kept ++ [mkShapeProp n fl a]) (<[length kept := v]> vs) = entries kept vs ++ [(a, fl, v)].
Proof.
  intros Hl Ha. rewrite entries_app. f_equal.
  - apply entries_ext. by rewrite take_insert_ge by lia.
  - rewrite insert_take_drop by done.
    rewrite drop_app_ge by (rewrite length_take; lia).
    rewrite length_take, Nat.min_l, Nat.sub_diag by lia. cbn.
    rewrite (proj2 (Z.eqb_neq _ _) Ha). done.
Qed.

Lemma compact_loop_spec mask ps : forall i kept t vs, table_ok mask t kept ->
  (length kept <= i)%nat -> (i + length ps <= length vs)%nat ->
  Z.of_nat (length kept + length ps) < 2 ^ 26 ->
  wp (compact_loop ps (Z.of_nat i) kept mask t vs) (fun '(ps', t', vs') =>
    table_ok mask t' ps' /\ length vs' = length vs
    /\ entries ps' vs' = entries kept vs ++ entries ps (drop i vs)
    /\ deleted ps' = deleted kept
    /\ length ps' = (length kept + (length ps - length (deleted ps)))%nat).
Proof.
  induction ps as [|pr ps IH]; intros i kept t vs Ht Hk Hv Hlen.
  - cbn. split_and!; [done|done|by rewrite app_nil_r|done|lia].
  - cbn [compact_loop]. cbn [length] in *.
    assert (Hdel : (length (deleted ps) <= length ps)%nat) by apply length_filter.
    destruct (lookup_lt_is_Some_2 vs i) as [v Hvi]; [lia|].
    rewrite (drop_S vs v i Hvi). cbn [entries].
    replace (Z.of_nat i + 1) with (Z.of_nat (S i)) by lia.
    destruct (Z.eqb_spec (atom pr) JS_ATOM_NULL) as [E|Hne]; cbn [negb bind];
      unfold JS_ATOM_NULL in *.
    + eapply wp_mono; [apply (IH (S i) kept t vs); [done|lia..]|].
      intros [[ps' t'] vs'] (Ht' & El & Ee & Ed & Ec). rewrite E. cbn [Z.eqb app].
      split_and!; [done|done|done|done|]. unfold deleted in *. rewrite filter_cons_True by done. cbn [length]. lia.
    + pose proof (land_mask mask (atom pr) (to_mask _ _ _ Ht)). pose proof (to_length _ _ _ Ht).
      rewrite (table_head _ _ _ _ Ht). cbn [bind]. rewrite wr_in by lia. cbn [bind].
      rewrite (rd_nat _ _ _ Hvi). cbn [bind]. rewrite wr_in by lia. cbn [bind].
      rewrite Nat2Z.id.
      eapply wp_mono.
      { apply (IH (S i)); [by apply table_snoc; [done|done|lia]|..];
          rewrite ?length_app, ?length_insert; cbn; lia. }
      intros [[ps' t'] vs'] (Ht' & El & Ee & Ed & Ec). rewrite length_insert in El.
      split_and!; [done|done| | |].
      * rewrite Ee, entries_write by (done || lia).
        rewrite (proj2 (Z.eqb_neq _ _) Hne), <- app_assoc. do 2 f_equal.
        by rewrite drop_insert_lt by lia.
      * rewrite Ed. unfold deleted. rewrite filter_app, filter_cons_False by done.
        by rewrite app_nil_r.
      * unfold deleted in *. rewrite Ec, length_app, filter_cons_False by done. cbn [length]. lia.
Qed.

(** ** The sizes of the tables *)

Lemma double_spec k n : 0 <= k <= 27 -> 0 <= n <= 2 ^ 27 ->
  forall fuel, (fuel > 27 - Z.to_nat k)%nat ->
  exists k', loop fuel (double_step n) (2 ^ k) = Ret (2 ^ k') /\ k <= k' <= 27
    /\ n <= 2 ^ k' /\ (k' = k \/ k < k').
Proof.
  intros Hk Hn fuel. revert k Hk. induction fuel as [|fuel IH]; intros k Hk Hf; [lia|].
  rewrite loop_S. unfold double_step at 1. cbn [bind].
  destruct (Z.ltb_spec (2 ^ k) n) as [Hlt|Hge].
  - assert (k <> 27) by (intros ->; lia).
    assert (0 < 2 ^ k) by (apply Z.pow_pos_nonneg; lia).
    assert (2 ^ k <= 2 ^ 27) by (apply Z.pow_le_mono_r; lia).
    rewrite u32_id by lia. replace (2 * 2 ^ k) with (2 ^ (k + 1)) by (rewrite Z.pow_add_r by lia; lia).
    destruct (IH (k + 1) ltac:(lia)) as (k' & E & Hk' & Hn' & _); [lia|].
    exists k'. split_and!; [done|lia|lia|done|lia].
  - exists k. split_and!; [done|lia|lia|done|lia].
Qed.

Lemma halve_spec k n : 0 <= k <= 27 -> 1 <= n ->
  forall fuel, (fuel > Z.to_nat k)%nat ->
  exists k', loop fuel (halve_step n) (2 ^ k) = Ret (2 ^ k') /\ 0 <= k' <= k.
Proof.
  intros Hk Hn fuel. revert k Hk. induction fuel as [|fuel IH]; intros k Hk Hf; [lia|].
  rewrite loop_S. unfold halve_step at 1. cbn [bind].
  destruct (Z.leb_spec n (2 ^ k / 2)) as [Hle|Hgt].
  - assert (k <> 0) by (intros ->; change (2 ^ 0 / 2) with 0 in Hle; lia).
    assert (E : 2 ^ k / 2 = 2 ^ (k - 1)).
    { replace k with (k - 1 + 1) at 1 by lia. rewrite Z.pow_add_r by lia. by rewrite Z.div_mul. }
    rewrite E. destruct (IH (k - 1) ltac:(lia)) as (k' & E' & Hk'); [lia|].
    exists k'. split; [done|lia].
  - exists k. split; [done|lia].
Qed.
