(* ===== verification/ShapeHashSpec.v ===== *)
(** * The table of shapes

    The chains of the runtime's table, their growth, and the life of a shape:
    creation, sharing, cloning, release.  [us] counts the users of each shape;
    [out] is a shape that the code has taken out of the table for a while. *)

From stdpp Require Import base tactics numbers list option gmap.
From Stdlib Require Import ZArith Lia.
From S2P Require Import Prelude Values AtomsSpec Shapes ShapeTableSpec.

Open Scope Z_scope.

Class ShapeEngineOk (se : ShapeEngine) : Prop := {
  js_malloc_fresh : forall m live m' a, js_malloc m live = (m', Some a) -> (a ∉ live) /\ 0 < a;
  js_realloc_fresh : forall m live old m' a, 0 < old ->
    js_realloc m live old = (m', Some a) -> (a = old \/ (a ∉ live)) /\ 0 < a;
  js_realloc2_slack : forall m n m' k, js_realloc2 m n = (m', Some k) -> 0 <= k /\ n + k < 2 ^ 32;
  string_array_index_large : forall a i, string_array_index a = Some i -> 2 ^ 31 <= i
}.

(** ** Chains *)

Definition nexts (S : gmap Z JSShape) : gmap Z Z := shape_hash_next <$> S.

Lemma nexts_lookup S a s : S !! a = Some s -> nexts S !! a = Some (shape_hash_next s).
Proof. intros H. unfold nexts. by rewrite lookup_fmap, H. Qed.

Lemma nexts_insert S a s : nexts (<[a := s]> S) = <[a := shape_hash_next s]> (nexts S).
Proof. apply fmap_insert. Qed.

Record hash_ok (bits : Z) (T : list Z) (S : gmap Z JSShape) (H : Z -> Prop) (B : list (list Z))
  : Prop := {
  ho_length : length B = length T;
  ho_chain : forall b l h, B !! b = Some l -> T !! b = Some h -> chain (nexts S) h l;
  ho_nodup : forall b l, B !! b = Some l -> NoDup l;
  ho_elem : forall b l a, B !! b = Some l -> a ∈ l ->
    H a /\ exists s, S !! a = Some s /\ get_shape_hash (sh_hash s) bits = Z.of_nat b;
  ho_in : forall a, H a -> exists b l, B !! b = Some l /\ a ∈ l
}.

(** The hash of the contents of a shape. *)
Definition content_hash (proto : Z) (ps : list JSShapeProperty) : Z :=
  foldl (fun h pr => shape_hash (shape_hash h (atom pr)) (flags pr)) (shape_initial_hash proto) ps.

Lemma content_hash_bound proto ps : 0 <= content_hash proto ps < 2 ^ 32.
Proof.
  unfold content_hash. induction ps as [|pr ps IH] using rev_ind.
  - apply u32_bound.
  - rewrite foldl_app. apply u32_bound.
Qed.

Definition live_names (ps : list JSShapeProperty) : list Z := filter (fun a => a <> 0) (atoms ps).

Record shape_ok (s : JSShape) : Prop := {
  so_table : shape_table_ok s;
  so_names : NoDup (live_names (sh_prop s));
  so_size : prop_count s <= prop_size s <= 2 ^ 27 /\ 1 <= prop_size s;
  so_deleted : deleted_prop_count s = Z.of_nat (length (deleted (sh_prop s)));
  so_hashed : is_hashed s = true ->
    deleted (sh_prop s) = [] /\ sh_hash s = content_hash (sh_proto s) (sh_prop s)
}.

Lemma get_shape_hash_bound h bits : 0 <= h < 2 ^ 32 -> 0 <= bits <= 32 ->
  0 <= get_shape_hash h bits < 2 ^ bits.
Proof.
  intros Hh Hb. unfold get_shape_hash. rewrite Z.shiftr_div_pow2 by lia.
  assert (0 < 2 ^ (32 - bits)) by (apply Z.pow_pos_nonneg; lia).
  split; [apply Z.div_pos; lia|]. apply Z.div_lt_upper_bound; [done|].
  rewrite <- Z.pow_add_r by lia. replace (32 - bits + bits) with 32 by lia. lia.
Qed.

Section hash.
Context (bits : Z) (T : list Z) (S : gmap Z JSShape) (H : Z -> Prop) (B : list (list Z)).
Context (HB : hash_ok bits T S H B).

(** The chain that a hash leads to. *)
Lemma hash_chain h : Z.of_nat (length T) = 2 ^ bits -> 0 <= bits <= 32 -> 0 <= h < 2 ^ 32 ->
  exists b l first, get_shape_hash h bits = Z.of_nat b /\ B !! b = Some l
    /\ rd T (get_shape_hash h bits) = Ret first /\ T !! b = Some first
    /\ chain (nexts S) first l /\ NoDup l
    /\ forall a, a ∈ l -> H a.
Proof.
  intros Hlen Hb Hh. pose proof (get_shape_hash_bound h bits Hh Hb) as Hr.
  destruct (lookup_lt_is_Some_2 T (Z.to_nat (get_shape_hash h bits))) as [first Hf]; [lia|].
  destruct (lookup_lt_is_Some_2 B (Z.to_nat (get_shape_hash h bits))) as [l Hl].
  { rewrite (ho_length _ _ _ _ _ HB). lia. }
  exists (Z.to_nat (get_shape_hash h bits)), l, first. split_and!; try done.
  - lia.
  - apply rd_Some; [lia|done].
  - by eapply ho_chain.
  - by eapply ho_nodup.
  - intros a Ha. by destruct (ho_elem _ _ _ _ _ HB _ _ a Hl Ha).
Qed.

(** Changes that the chains do not see. *)
Lemma hash_frame S' H' :
  (forall a, H a <-> H' a) ->
  (forall a s, H a -> S !! a = Some s ->
     exists s', S' !! a = Some s' /\ shape_hash_next s' = shape_hash_next s /\ sh_hash s' = sh_hash s) ->
  hash_ok bits T S' H' B.
Proof.
  intros HH HS. split.
  - apply HB.
  - intros b l h Hl Hh. eapply chain_frame; [by eapply ho_chain|].
    intros a Ha. destruct (ho_elem _ _ _ _ _ HB b l a Hl Ha) as (HHa & s & Hs & _).
    destruct (HS a s HHa Hs) as (s' & Hs' & E & _).
    by rewrite (nexts_lookup _ _ _ Hs), (nexts_lookup _ _ _ Hs'), E.
  - apply HB.
  - intros b l a Hl Ha. destruct (ho_elem _ _ _ _ _ HB b l a Hl Ha) as (HHa & s & Hs & Eb).
    destruct (HS a s HHa Hs) as (s' & Hs' & _ & E). split; [by apply HH|].
    exists s'. by rewrite E.
  - intros a Ha. apply (ho_in _ _ _ _ _ HB). by apply HH.
Qed.

(** A shape at the head of its chain. *)
Lemma hash_insert H' a s b first :
  S !! a = Some s -> ~ H a -> a <> 0 -> (forall x, H' x <-> H x \/ x = a) ->
  get_shape_hash (sh_hash s) bits = Z.of_nat b -> T !! b = Some first ->
  exists l, B !! b = Some l
    /\ hash_ok bits (<[b := a]> T) (<[a := set_hash_next s first]> S) H' (<[b := a :: l]> B).
Proof.
  intros Ha HH Ha0 HH' Eb Hf.
  pose proof (lookup_lt_Some _ _ _ Hf) as Hlt.
  destruct (lookup_lt_is_Some_2 B b) as [l Hl]; [by rewrite (ho_length _ _ _ _ _ HB)|].
  assert (HltB : (b < length B)%nat) by by eapply lookup_lt_Some.
  assert (Hout : forall b' l', B !! b' = Some l' -> a ∉ l').
  { intros b' l' Hl' Hin. apply HH. by destruct (ho_elem _ _ _ _ _ HB b' l' a Hl' Hin). }
  exists l. split; [done|]. split; rewrite ?length_insert.
  - apply HB.
  - rewrite nexts_insert. cbn [shape_hash_next set_hash_next]. intros b' l' h'.
    destruct (decide (b' = b)) as [->|Hne].
    + rewrite !list_lookup_insert_eq by done. intros [= <-] [= <-].
      split_and!; [done..|]. exists first. rewrite lookup_insert_eq. split; [done|].
      apply chain_insert_ne; [by eapply ho_chain|by eapply Hout].
    + rewrite !list_lookup_insert_ne by done. intros Hl' Hh'.
      apply chain_insert_ne; [by eapply ho_chain|by eapply Hout].
  - intros b' l' [(-> & <- & _)|[_ Hl']]%list_lookup_insert_Some;
      [apply NoDup_cons; split; [by eapply Hout|by eapply ho_nodup]|by eapply ho_nodup].
  - assert (Helem : forall b' l' x, B !! b' = Some l' -> x ∈ l' ->
      H' x /\ exists s0, <[a := set_hash_next s first]> S !! x = Some s0
        /\ get_shape_hash (sh_hash s0) bits = Z.of_nat b').
    { intros b' l' x Hl' Hx. destruct (ho_elem _ _ _ _ _ HB b' l' x Hl' Hx) as (? & s0 & Hs0 & E).
      split; [apply HH'; by left|]. exists s0. rewrite lookup_insert_ne; [done|].
      intros ->. by eapply Hout. }
    intros b' l' x [(-> & <- & _)|[_ Hl']]%list_lookup_insert_Some Hx; [|by eapply Helem].
    apply elem_of_cons in Hx as [->|Hx]; [|by eapply Helem].
    split; [apply HH'; by right|]. exists (set_hash_next s first). by rewrite lookup_insert_eq.
  - intros x [Hx| ->]%HH'.
    + destruct (ho_in _ _ _ _ _ HB x Hx) as (b' & l' & Hl' & Hin).
      destruct (decide (b' = b)) as [->|Hne].
      * exists b, (a :: l). rewrite list_lookup_insert_eq by done. split; [done|right]. congruence.
      * exists b', l'. by rewrite list_lookup_insert_ne.
    + exists b, (a :: l). rewrite list_lookup_insert_eq by done. split; [done|left].
Qed.
End hash.

(** The length of the chains. *)
Lemma chain_size (S : gmap Z JSShape) h l : chain (nexts S) h l -> NoDup l ->
  (length l <= size S)%nat.
Proof.
  intros Hc Hnd.
  assert (Hl : list_to_set l ⊆ (dom S : gset Z)).
  { intros a Ha. apply elem_of_list_to_set in Ha. clear Hnd. revert h Hc.
    induction l as [|x l IH]; intros h Hc; [by apply elem_of_nil in Ha|].
    destruct Hc as (_ & _ & n & Hn & Hc). apply elem_of_cons in Ha as [->|Ha]; [|by eapply IH].
    unfold nexts in Hn. rewrite lookup_fmap in Hn. apply fmap_Some in Hn as (s & Hs & _).
    by apply elem_of_dom_2 in Hs. }
  apply subseteq_size in Hl. rewrite size_list_to_set in Hl by done. by rewrite size_dom in Hl.
Qed.

(** The shapes that are in the table. *)
Definition hashed_in (S : gmap Z JSShape) (out a : Z) : Prop :=
  a <> out /\ exists s, S !! a = Some s /\ is_hashed s = true.

Definition hashed_count (s : JSShape) : Z := if is_hashed s then 1 else 0.

(** The references that a shape holds. *)
Definition count_item (x : ref_item) (l : list ref_item) : Z :=
  foldr (fun y n => (if decide (y = x) then 1 else 0) + n) 0 l.

Definition shape_refs (s : JSShape) : list ref_item :=
  obj_ref (sh_proto s) ++ atom_refs (sh_prop s).

Lemma count_item_app x l1 l2 : count_item x (l1 ++ l2) = count_item x l1 + count_item x l2.
Proof. unfold count_item. induction l1 as [|y l1 IH]; cbn; [done|]. rewrite IH. lia. Qed.

Definition ev_count (x : ref_item) (e : ref_event) : Z :=
  match e with
  | Dup y => if decide (y = x) then 1 else 0
  | Free y => - if decide (y = x) then 1 else 0
  end.

Definition net (x : ref_item) (l : list ref_event) : Z := foldr (fun e n => ev_count x e + n) 0 l.

Lemma net_app x l1 l2 : net x (l1 ++ l2) = net x l1 + net x l2.
Proof. unfold net. induction l1 as [|y l1 IH]; cbn; [done|]. rewrite IH. lia. Qed.

Lemma net_dup x l : net x (Dup <$> l) = count_item x l.
Proof. unfold net, count_item. induction l as [|y l IH]; cbn; [done|]. by rewrite IH. Qed.

Lemma net_free x l : net x (Free <$> l) = - count_item x l.
Proof. unfold net, count_item. induction l as [|y l IH]; cbn; [done|]. rewrite IH. lia. Qed.

Section state.
Context {se : ShapeEngine} {ok : ShapeEngineOk se}.

(** What the log says that the shapes do not hold. *)
Definition balance (st : shape_st) (x : ref_item) : Z :=
  net x (log st) - msum (fun s => count_item x (shape_refs s)) (shapes st).

Record shapes_rel (st : shape_st) (us : Z -> Z) (out : Z) : Prop := {
  sh_bits : 4 <= shape_hash_bits st <= 30;
  sh_size : Z.of_nat (length (rt_shape_hash st)) = 2 ^ shape_hash_bits st;
  sh_table : exists B, hash_ok (shape_hash_bits st) (rt_shape_hash st) (shapes st)
    (hashed_in (shapes st) out) B;
  sh_count : shape_hash_count st + (if decide (out = 0) then 0 else 1)
    = msum hashed_count (shapes st);
  sh_shape : forall a s, shapes st !! a = Some s ->
    0 < a /\ shape_ok s /\ sh_ref_count s = us a /\ 0 <= us a /\ (is_hashed s = false -> us a <= 1);
  sh_users : forall a, us a <> 0 -> is_Some (shapes st !! a);
  sh_out : out <> 0 -> exists s, shapes st !! out = Some s /\ is_hashed s = true
}.

Definition same_shapes (S S' : gmap Z JSShape) : Prop := forall a,
  match S !! a, S' !! a with
  | Some s, Some s' => s' = set_hash_next s (shape_hash_next s')
  | None, None => True
  | _, _ => False
  end.

(** The state with other links, table and count. *)
Definition relinked (st st' : shape_st) : Prop :=
  mem st' = mem st /\ shape_hash_bits st' = shape_hash_bits st /\ objs st' = objs st
  /\ array_shape st' = array_shape st /\ log st' = log st
  /\ same_shapes (shapes st) (shapes st').

Lemma set_hash_next_id s : set_hash_next s (shape_hash_next s) = s.
Proof. by destruct s. Qed.

Lemma relinked_refl st : relinked st st.
Proof.
  split_and!; try done. intros a. destruct (shapes st !! a); [|done].
  by rewrite set_hash_next_id.
Qed.

(** One link changed. *)
Lemma relinked_insert (S : gmap Z JSShape) x s n : S !! x = Some s ->
  same_shapes S (<[x := set_hash_next s n]> S).
Proof.
  intros Hx a. destruct (decide (a = x)) as [->|Hne].
  - by rewrite Hx, lookup_insert_eq.
  - rewrite lookup_insert_ne by done. destruct (S !! a); [|done]. by rewrite set_hash_next_id.
Qed.

Lemma shape_ok_next s n : shape_ok s -> shape_ok (set_hash_next s n).
Proof. intros [? ? ? ? ?]. by split. Qed.

Lemma msum_same_shapes (f : JSShape -> Z) (S S' : gmap Z JSShape) :
  (forall s n, f (set_hash_next s n) = f s) -> same_shapes S S' -> msum f S' = msum f S.
Proof.
  intros Hf. revert S'. induction S as [|a s S Ha IH] using map_ind; intros S' HS.
  - assert (S' = ∅) as ->; [|done]. apply map_empty. intros a. specialize (HS a).
    rewrite lookup_empty in HS. by destruct (S' !! a).
  - pose proof (HS a) as Hsa. rewrite lookup_insert_eq in Hsa.
    destruct (S' !! a) as [s'|] eqn:Hs'; [|done].
    rewrite msum_insert by done. rewrite <- (insert_delete_id S' a s' Hs').
    rewrite msum_insert by apply lookup_delete_eq. f_equal; [rewrite Hsa; apply Hf|].
    apply IH. intros b. destruct (decide (b = a)) as [->|Hne].
    + by rewrite Ha, lookup_delete_eq.
    + specialize (HS b). rewrite lookup_insert_ne in HS by done. by rewrite lookup_delete_ne.
Qed.

Lemma relinked_balance st st' x : relinked st st' -> balance st' x = balance st x.
Proof.
  intros (_ & _ & _ & _ & El & HS). unfold balance. rewrite El.
  by rewrite (msum_same_shapes _ (shapes st) (shapes st')).
Qed.

Lemma same_shape S S' a s : same_shapes S S' -> S !! a = Some s ->
  exists n, S' !! a = Some (set_hash_next s n).
Proof.
  intros HS Ha. specialize (HS a). rewrite Ha in HS.
  destruct (S' !! a) as [s'|]; [|done]. exists (shape_hash_next s'). by f_equal.
Qed.

Lemma same_shape_inv S S' a s' : same_shapes S S' -> S' !! a = Some s' ->
  exists s, S !! a = Some s /\ s' = set_hash_next s (shape_hash_next s').
Proof.
  intros HS Ha. specialize (HS a). rewrite Ha in HS.
  destruct (S !! a) as [s|]; [|done]. by exists s.
Qed.

Lemma same_hashed S S' out a : same_shapes S S' -> hashed_in S' out a <-> hashed_in S out a.
Proof.
  intros H. split; intros (Hne & s & Hs & Hh); (split; [done|]).
  - destruct (same_shape_inv _ _ _ _ H Hs) as (s0 & Hs0 & E). exists s0. split; [done|].
    by rewrite E in Hh.
  - destruct (same_shape _ _ _ _ H Hs) as (n & Hs'). by exists (set_hash_next s n).
Qed.

(** What relinking keeps, apart from the table. *)
Lemma relinked_rel st st' us out out' :
  shapes_rel st us out -> same_shapes (shapes st) (shapes st') ->
  4 <= shape_hash_bits st' <= 30 ->
  Z.of_nat (length (rt_shape_hash st')) = 2 ^ shape_hash_bits st' ->
  (exists B, hash_ok (shape_hash_bits st') (rt_shape_hash st') (shapes st')
    (hashed_in (shapes st) out') B) ->
  shape_hash_count st' + (if decide (out' = 0) then 0 else 1)
    = shape_hash_count st + (if decide (out = 0) then 0 else 1) ->
  (out' <> 0 -> exists s, shapes st !! out' = Some s /\ is_hashed s = true) ->
  shapes_rel st' us out'.
Proof.
  intros Hrel HS Hbits Hsz [B HB] Hc Ho. split.
  - done.
  - done.
  - exists B. eapply hash_frame; [exact HB|..].
    + intros a. symmetry. by apply same_hashed.
    + intros a s _ Hs. by exists s.
  - rewrite Hc, (sh_count _ _ _ Hrel). symmetry. by apply msum_same_shapes.
  - intros a s' Hs'. destruct (same_shape_inv _ _ _ _ HS Hs') as (s & Hs & ->).
    destruct (sh_shape _ _ _ Hrel a s Hs) as (? & Hok & ? & ? & ?).
    split_and!; try done. by apply shape_ok_next.
  - intros a Ha. destruct (sh_users _ _ _ Hrel a Ha) as [s Hs].
    destruct (same_shape _ _ _ _ HS Hs) as (n & Hn). by eexists.
  - intros H0. destruct (Ho H0) as (s & Hs & Hh).
    destruct (same_shape _ _ _ _ HS Hs) as (n & Hn). by exists (set_hash_next s n).
Qed.

Lemma relinked_same st st' : relinked st st' -> same_shapes (shapes st) (shapes st').
Proof. by intros (_ & _ & _ & _ & _ & H). Qed.

Lemma get_shape_Some st a s : shapes st !! a = Some s -> get_shape st a = Ret s.
Proof. unfold get_shape. by intros ->. Qed.

Lemma hashed_hash st us out a s : shapes_rel st us out -> shapes st !! a = Some s ->
  is_hashed s = true -> 0 <= sh_hash s < 2 ^ 32.
Proof.
  intros Hrel Ha Hh. destruct (sh_shape _ _ _ Hrel a s Ha) as (_ & Hok & _).
  destruct (so_hashed _ Hok Hh) as [_ ->]. apply content_hash_bound.
Qed.

(** ** Insertion and removal *)

Lemma link_spec st us out s :
  shapes_rel st us out -> shapes st !! out = Some s -> is_hashed s = true ->
  wp (js_shape_hash_link st out) (fun st' => shapes_rel st' us 0 /\ relinked st st').
Proof.
  intros Hrel Ho Hh. destruct (sh_table _ _ _ Hrel) as [B HB].
  pose proof (sh_bits _ _ _ Hrel) as Hbits. pose proof (sh_size _ _ _ Hrel) as Hsz.
  destruct (sh_shape _ _ _ Hrel out s Ho) as (H0 & _).
  destruct (hash_chain _ _ _ _ _ HB (sh_hash s)) as (b & l & first & Eb & Hl & Hrd & Hf & _);
    [done|lia|by eapply hashed_hash|].
  unfold js_shape_hash_link. rewrite (get_shape_Some _ _ _ Ho). cbn [bind]. rewrite Hrd. cbn [bind].
  cbn [rt_shape_hash put_shape set_shapes].
  pose proof (lookup_lt_Some _ _ _ Hf). rewrite wr_in by lia. cbn [bind]. apply wp_ret.
  rewrite Eb, Nat2Z.id.
  destruct (hash_insert _ _ _ _ _ HB (hashed_in (shapes st) 0) out s b first Ho) as (l' & _ & HB').
  { by intros [? _]. }
  { lia. }
  { intros x. unfold hashed_in. split.
    - intros [? Hx]. destruct (decide (x = out)) as [->|Hne]; [by right|left]. by split.
    - intros [[_ (s0 & Hs0 & E)]| ->]; [|split; [lia|by exists s]].
      split; [|by exists s0]. destruct (sh_shape _ _ _ Hrel x s0 Hs0). lia. }
  { done. }
  { done. }
  assert (Hre : relinked st (set_shape_hash (put_shape st out (set_hash_next s first))
    (shape_hash_bits st) (shape_hash_count st + 1) (<[b := out]> (rt_shape_hash st)))).
  { split_and!; try done. by apply relinked_insert. }
  split; [|done]. eapply relinked_rel; [exact Hrel|by apply relinked_same|..]; cbn.
  - lia.
  - by rewrite length_insert.
  - eexists. exact HB'.
  - rewrite (decide_False (P := out = 0)), (decide_True (P := 0 = 0)) by lia. lia.
  - done.
Qed.

Lemma chain_next S h l a n : chain (nexts S) h l -> a ∈ l -> nexts S !! a = Some n ->
  exists l1 l2, l = l1 ++ a :: l2 /\ chain (nexts S) n l2.
Proof.
  revert h. induction l as [|x l IH]; intros h Hc Ha Hn; [by apply elem_of_nil in Ha|].
  destruct Hc as (-> & Hx & m & Hm & Hc). apply elem_of_cons in Ha as [->|Ha].
  - exists [], l. split; [done|]. congruence.
  - destruct (IH m Hc Ha Hn) as (l1 & l2 & -> & Hc2). by exists (x :: l1), l2.
Qed.

(** The walk to the element before [a], and the chain without [a]. *)
Lemma unlink_loop st a n : nexts (shapes st) !! a = Some n -> forall l1 x l2 fuel h,
  chain (nexts (shapes st)) h (x :: l1 ++ a :: l2) -> NoDup (x :: l1 ++ a :: l2) ->
  (length l1 < fuel)%nat ->
  exists y s, y ∈ x :: l1 /\ shapes st !! y = Some s
    /\ loop fuel (unlink_step a n) (st, h) = Ret (put_shape st y (set_hash_next s n))
    /\ chain (<[y := n]> (nexts (shapes st))) h (x :: l1 ++ l2).
Proof.
  intros Ha. induction l1 as [|z l1 IH]; intros x l2 fuel h Hc Hnd Hf; cbn [app] in *;
    (destruct fuel as [|fuel]; [cbn in Hf; lia|]); apply NoDup_cons in Hnd as [Hx' Hnd];
    destruct Hc as (-> & Hx & m & Hm & Hc); rewrite loop_S; unfold unlink_step at 1;
    pose proof Hm as Hm'; unfold nexts in Hm; rewrite lookup_fmap in Hm;
    apply fmap_Some in Hm as (s & Hs & ->); rewrite (get_shape_Some _ _ _ Hs); cbn [bind].
  - destruct Hc as (E & Ha0 & n' & Hn' & Hc). rewrite Ha in Hn'. injection Hn' as <-.
    rewrite E, Z.eqb_refl. cbn [bind].
    exists x, s. split; [by left|]. split; [done|]. split; [done|]. split_and!; [done|done|].
    exists n. rewrite lookup_insert_eq. split; [done|].
    apply chain_insert_ne; [done|]. intros Hin. apply Hx'. by right.
  - pose proof Hc as (E & _).
    rewrite (proj2 (Z.eqb_neq (shape_hash_next s) a)).
    2:{ rewrite E. intros ->. apply NoDup_cons in Hnd as [Hz _]. apply Hz.
        apply elem_of_app. right. by left. }
    cbn [bind]. destruct (IH z l2 fuel _ Hc Hnd) as (y & sy & Hy & Hsy & -> & Hc');
      [cbn in Hf; lia|].
    exists y, sy. split; [by right|]. split; [done|]. split; [done|]. split_and!; [done|done|].
    exists (shape_hash_next s). split; [|done]. rewrite lookup_insert_ne; [done|].
    intros ->. apply Hx'. apply elem_of_cons in Hy as [->|Hy]; [by left|].
    right. apply elem_of_app. by left.
Qed.

(** The table without one element. *)
Lemma hash_remove bits T (S : gmap Z JSShape) H B a b l l1 l2 T' (S' : gmap Z JSShape) :
  hash_ok bits T S H B -> B !! b = Some l -> l = l1 ++ a :: l2 ->
  (forall x s, S !! x = Some s -> exists n, S' !! x = Some (set_hash_next s n)) ->
  (forall x, x ∉ l1 ++ l2 -> nexts S' !! x = nexts S !! x) ->
  (forall b', b' <> b -> T' !! b' = T !! b') -> length T' = length T ->
  (forall h, T' !! b = Some h -> chain (nexts S') h (l1 ++ l2)) ->
  hash_ok bits T' S' (fun x => H x /\ x <> a) (<[b := l1 ++ l2]> B).
Proof.
  intros HB Hl -> HS Hn HT HTl Hc.
  pose proof (ho_nodup _ _ _ _ _ HB _ _ Hl) as Hnd.
  assert (Hlt : (b < length B)%nat) by by eapply lookup_lt_Some.
  assert (Hdisj : forall b' l' x, B !! b' = Some l' -> x ∈ l' -> x ∈ l1 ++ a :: l2 -> b' = b).
  { intros b' l' x Hl' Hx Hx2.
    destruct (ho_elem _ _ _ _ _ HB b' l' x Hl' Hx) as (_ & s1 & Hs1 & E1).
    destruct (ho_elem _ _ _ _ _ HB b _ x Hl Hx2) as (_ & s2 & Hs2 & E2).
    rewrite Hs1 in Hs2. injection Hs2 as <-. lia. }
  assert (Hsub : forall x, x ∈ l1 ++ l2 -> x ∈ l1 ++ a :: l2).
  { intros x. rewrite !elem_of_app, elem_of_cons. tauto. }
  assert (Ha : a ∉ l1 ++ l2).
  { rewrite elem_of_app. apply NoDup_app in Hnd as (_ & Hd & Hnd2).
    apply NoDup_cons in Hnd2 as [Ha2 _]. intros [Hx|Hx]; [|done]. apply (Hd a Hx). by left. }
  split.
  - rewrite length_insert, HTl. apply HB.
  - intros b' l' h. destruct (decide (b' = b)) as [->|Hne].
    + rewrite list_lookup_insert_eq by done. intros [= <-]. apply Hc.
    + rewrite list_lookup_insert_ne, HT by done. intros Hl' Hh.
      eapply chain_frame; [by eapply ho_chain|]. intros x Hx. apply Hn. intros Hx2.
      by apply Hne, (Hdisj b' l' x), Hsub.
  - intros b' l' [(-> & <- & _)|[_ Hl']]%list_lookup_insert_Some; [|by eapply ho_nodup].
    apply NoDup_app in Hnd as (H1 & Hd & H2). apply NoDup_cons in H2 as [_ H2].
    apply NoDup_app. split_and!; [done| |done]. intros x Hx Hx2. apply (Hd x Hx). by right.
  - assert (Helem : forall b' l' x, B !! b' = Some l' -> x ∈ l' -> x <> a ->
      (H x /\ x <> a) /\ exists s, S' !! x = Some s /\ get_shape_hash (sh_hash s) bits = Z.of_nat b').
    { intros b' l' x Hl' Hx Hxa. destruct (ho_elem _ _ _ _ _ HB b' l' x Hl' Hx) as (? & s & Hs & E).
      split; [done|]. destruct (HS x s Hs) as [n Hs']. by exists (set_hash_next s n). }
    intros b' l' x [(<- & <- & _)|[Hne Hl']]%list_lookup_insert_Some Hx.
    + apply (Helem b (l1 ++ a :: l2)); [done|by apply Hsub|by intros ->].
    + apply (Helem b' l'); [done|done|]. intros ->. apply Hne. symmetry.
      eapply Hdisj; [exact Hl'|done|]. apply elem_of_app. right. by left.
  - intros x [Hx Hxa]. destruct (ho_in _ _ _ _ _ HB x Hx) as (b' & l' & Hl' & Hin).
    destruct (decide (b' = b)) as [->|Hne].
    + exists b, (l1 ++ l2). rewrite list_lookup_insert_eq by done. split; [done|].
      rewrite Hl in Hl'. injection Hl' as <-. revert Hin. rewrite !elem_of_app, elem_of_cons. tauto.
    + exists b', l'. by rewrite list_lookup_insert_ne.
Qed.

Lemma unlink_spec st us a s :
  shapes_rel st us 0 -> shapes st !! a = Some s -> is_hashed s = true ->
  wp (js_shape_hash_unlink st a) (fun st' => shapes_rel st' us a /\ relinked st st').
Proof.
  intros Hrel Ha Hh. destruct (sh_table _ _ _ Hrel) as [B HB].
  pose proof (sh_bits _ _ _ Hrel) as Hbits. pose proof (sh_size _ _ _ Hrel) as Hsz.
  destruct (sh_shape _ _ _ Hrel a s Ha) as (H0 & _).
  destruct (hash_chain _ _ _ _ _ HB (sh_hash s)) as (b & l & first & Eb & Hl & Hrd & Hf & Hc & Hnd & _);
    [done|lia|by eapply hashed_hash|].
  assert (Hin : a ∈ l).
  { destruct (ho_in _ _ _ _ _ HB a) as (b' & l' & Hl' & Hin); [split; [lia|by exists s]|].
    destruct (ho_elem _ _ _ _ _ HB b' l' a Hl' Hin) as (_ & s' & Hs' & E).
    rewrite Ha in Hs'. injection Hs' as <-. assert (b' = b) as -> by lia. congruence. }
  destruct (chain_next _ _ _ _ _ Hc Hin (nexts_lookup _ _ _ Ha)) as (l1 & l2 & -> & Hc2).
  pose proof (lookup_lt_Some _ _ _ Hf) as Hlt.
  assert (HH : forall x, hashed_in (shapes st) a x <-> hashed_in (shapes st) 0 x /\ x <> a).
  { intros x. unfold hashed_in. split.
    - intros [? (s0 & Hs0 & E)]. split_and!; [|by exists s0|done].
      destruct (sh_shape _ _ _ Hrel x s0 Hs0). lia.
    - by intros [[_ ?] ?]. }
  unfold js_shape_hash_unlink. rewrite (get_shape_Some _ _ _ Ha). cbn [bind]. rewrite Hrd. cbn [bind].
  assert (Hfin : forall st1, relinked st st1 -> shape_hash_count st1 = shape_hash_count st ->
    length (rt_shape_hash st1) = length (rt_shape_hash st) ->
    (forall b', b' <> b -> rt_shape_hash st1 !! b' = rt_shape_hash st !! b') ->
    (forall x, x ∉ l1 ++ l2 -> nexts (shapes st1) !! x = nexts (shapes st) !! x) ->
    (forall h, rt_shape_hash st1 !! b = Some h -> chain (nexts (shapes st1)) h (l1 ++ l2)) ->
    let st' := set_shape_hash st1 (shape_hash_bits st1) (shape_hash_count st1 - 1) (rt_shape_hash st1) in
    shapes_rel st' us a /\ relinked st st').
  { intros st1 Hre Ec Elen HT Hn Hch st'.
    assert (Hre' : relinked st st') by (destruct Hre as (? & ? & ? & ? & ? & ?); by split_and!).
    split; [|done]. pose proof Hre as (_ & Ebits & _). eapply relinked_rel; [exact Hrel|by apply relinked_same|..]; cbn.
    - by rewrite Ebits.
    - by rewrite Elen, Ebits.
    - exists (<[b := l1 ++ l2]> B). rewrite Ebits.
      eapply hash_frame; [eapply (hash_remove _ _ _ _ _ a b _ l1 l2); try done|..].
      + intros x s0 Hs0. eapply same_shape; [by apply relinked_same|done].
      + intros x. symmetry. apply HH.
      + intros x s0 _ Hs0. by exists s0.
    - rewrite (decide_False (P := a = 0)), (decide_True (P := 0 = 0)) by lia. rewrite Ec. lia.
    - intros _. by exists s. }
  destruct l1 as [|x l1].
  - cbn [app] in *. destruct Hc as (-> & _). rewrite Z.eqb_refl, Eb, Nat2Z.id || rewrite Z.eqb_refl.
    cbn [bind]. rewrite Eb. rewrite wr_in by lia. rewrite Nat2Z.id. cbn [bind]. apply wp_ret.
    apply (Hfin (set_shape_hash st (shape_hash_bits st) (shape_hash_count st)
      (<[b := shape_hash_next s]> (rt_shape_hash st)))); cbn.
    + exact (relinked_refl st).
    + done.
    + by rewrite length_insert.
    + intros b' Hne. by rewrite list_lookup_insert_ne.
    + done.
    + intros h. rewrite list_lookup_insert_eq by done. by intros [= <-].
  - pose proof Hc as (-> & _). rewrite (proj2 (Z.eqb_neq x a)).
    2:{ intros ->. apply NoDup_cons in Hnd as [Hx _]. apply Hx, elem_of_app. right. by left. }
    destruct (unlink_loop st a _ (nexts_lookup _ _ _ Ha) l1 x l2 (chain_fuel st) x Hc Hnd)
      as (y & sy & Hy & Hsy & -> & Hc').
    { pose proof (chain_size _ _ _ Hc Hnd) as Hs. cbn in Hs. rewrite length_app in Hs.
      unfold chain_fuel. cbn in Hs. lia. }
    cbn [bind]. apply wp_ret. apply (Hfin (put_shape st y (set_hash_next sy (shape_hash_next s)))); cbn.
    + split_and!; try done. by apply relinked_insert.
    + done.
    + done.
    + done.
    + intros z Hz. rewrite nexts_insert, lookup_insert_ne; [done|]. intros ->. apply Hz.
      change (x :: l1 ++ l2) with ((x :: l1) ++ l2). apply elem_of_app. by left.
    + intros h Hh'. rewrite Hf in Hh'. injection Hh' as <-.
      by rewrite nexts_insert.
Qed.
(** ** The growth of the table *)

Lemma NoDup_concat (B : list (list Z)) :
  (forall b l, B !! b = Some l -> NoDup l) ->
  (forall b1 b2 l1 l2 x, B !! b1 = Some l1 -> B !! b2 = Some l2 -> x ∈ l1 -> x ∈ l2 -> b1 = b2) ->
  NoDup (concat B).
Proof.
  induction B as [|l B IH]; intros H1 H2; [apply NoDup_nil_2|].
  cbn. apply NoDup_app. split_and!.
  - by apply (H1 0%nat).
  - intros x Hx Hin. apply list_elem_of_In, in_concat in Hin as (l2 & Hl2 & Hx2).
    apply list_elem_of_In, list_elem_of_lookup in Hl2 as [b Hb].
    apply list_elem_of_In in Hx2. by specialize (H2 0%nat (S b) l l2 x eq_refl Hb Hx Hx2).
  - apply IH; [intros b l' Hl'; by apply (H1 (S b))|].
    intros b1 b2 l1 l2 x Hl1 Hl2 Hx1 Hx2.
    specialize (H2 (S b1) (S b2) l1 l2 x Hl1 Hl2 Hx1 Hx2). lia.
Qed.

Lemma hash_NoDup bits T S H B : hash_ok bits T S H B -> NoDup (concat B).
Proof.
  intros HB. apply NoDup_concat; [by eapply ho_nodup|].
  intros b1 b2 l1 l2 x H1 H2 Hx1 Hx2.
  destruct (ho_elem _ _ _ _ _ HB b1 l1 x H1 Hx1) as (_ & s1 & Hs1 & E1).
  destruct (ho_elem _ _ _ _ _ HB b2 l2 x H2 Hx2) as (_ & s2 & Hs2 & E2).
  rewrite Hs1 in Hs2. injection Hs2 as <-. lia.
Qed.

Section resize.
Context (st0 : shape_st) (us : Z -> Z) (bits : Z).
Context (Hrel : shapes_rel st0 us 0) (Hbits : 4 <= bits <= 30).

Definition resize_inv (P : Z -> Prop) (st : shape_st) (t : list Z) : Prop :=
  relinked st0 st /\ st = set_shapes st0 (shapes st) /\ Z.of_nat (length t) = 2 ^ bits
  /\ exists B, hash_ok bits t (shapes st) P B.

Lemma resize_chain_loop l : forall P st t h fuel,
  resize_inv P st t -> chain (nexts (shapes st)) h l -> NoDup l ->
  (forall a, a ∈ l -> ~ P a /\ hashed_in (shapes st0) 0 a) -> (length l < fuel)%nat ->
  wp (loop fuel (resize_step bits) (st, t, h)) (fun '(st', t') =>
    resize_inv (fun a => P a \/ a ∈ l) st' t'
    /\ forall a, a ∉ l -> nexts (shapes st') !! a = nexts (shapes st) !! a).
Proof.
  induction l as [|a l IH]; intros P st t h fuel Hinv Hc Hnd Hl Hf;
    (destruct fuel as [|fuel]; [cbn in Hf; lia|]); rewrite loop_S; unfold resize_step at 1.
  - cbn in Hc. subst h. cbn. split; [|done].
    destruct Hinv as (? & ? & ? & B & HB). split_and!; try done. exists B.
    eapply hash_frame; [exact HB|..].
    + intros x. split; [by left|]. by intros [?|?%elem_of_nil].
    + intros x s _ Hs. by exists s.
  - destruct Hc as (-> & Ha0 & n & Hn & Hc). rewrite (proj2 (Z.eqb_neq a 0)) by done.
    apply NoDup_cons in Hnd as [Hal Hnd].
    destruct Hinv as (Hre & Eo & Hsz & B & HB).
    unfold nexts in Hn. rewrite lookup_fmap in Hn. apply fmap_Some in Hn as (s & Hs & ->).
    destruct (Hl a) as (HPa & _ & s0 & Hs0 & Hh0); [by left|].
    destruct (same_shape_inv _ _ _ _ (relinked_same _ _ Hre) Hs) as (s1 & Hs1 & Es).
    rewrite Hs0 in Hs1. injection Hs1 as <-.
    assert (Hhash : 0 <= sh_hash s < 2 ^ 32)
      by (rewrite Es; cbn; by eapply hashed_hash).
    destruct (hash_chain _ _ _ _ _ HB (sh_hash s)) as (b & lb & first & Eb & _ & Hrd & Hf' & _);
      [done|lia|done|].
    rewrite (get_shape_Some _ _ _ Hs). cbn [bind]. rewrite Hrd. cbn [bind].
    pose proof (lookup_lt_Some _ _ _ Hf'). rewrite Eb, wr_in by lia. cbn [bind]. rewrite Nat2Z.id.
    destruct (hash_insert _ _ _ _ _ HB (fun x => P x \/ x = a) a s b first Hs HPa Ha0
      (fun x => iff_refl _) Eb Hf') as (l' & _ & HB').
    eapply wp_mono.
    { apply (IH (fun x => P x \/ x = a) (put_shape st a (set_hash_next s first)) (<[b := a]> t)).
      - split_and!.
        + destruct Hre as (H1 & H2 & H3 & H4 & H5 & H6). split_and!; try done. intros x.
          specialize (H6 x). cbn. destruct (decide (x = a)) as [->|Hne].
          * rewrite lookup_insert_eq, Hs0. rewrite Es. done.
          * by rewrite lookup_insert_ne by done.
        + rewrite Eo. done.
        + by rewrite length_insert.
        + eexists. exact HB'.
      - cbn [shapes put_shape set_shapes]. rewrite nexts_insert. by apply chain_insert_ne.
      - done.
      - intros x Hx. destruct (Hl x) as [HPx ?]; [by right|]. split; [|done].
        intros [?| ->]; done.
      - cbn in Hf. lia. }
    intros [st' t'] [(Hre' & Eo' & Hsz' & B2 & HB2) Hn']. split.
    + split_and!; try done. exists B2. eapply hash_frame; [exact HB2|..].
      * intros x. rewrite elem_of_cons. tauto.
      * intros x s2 _ Hs2. by exists s2.
    + intros x Hx. apply not_elem_of_cons in Hx as [Hxa Hxl]. rewrite Hn' by done.
      cbn [shapes put_shape set_shapes]. rewrite nexts_insert, lookup_insert_ne; [done|]. congruence.
Qed.

Lemma resize_chains_loop heads : forall P st t Ls,
  resize_inv P st t -> Forall2 (chain (nexts (shapes st))) heads Ls -> NoDup (concat Ls) ->
  (forall a, a ∈ concat Ls -> ~ P a /\ hashed_in (shapes st0) 0 a) ->
  (forall l, l ∈ Ls -> (length l < chain_fuel st0)%nat) ->
  wp (resize_chains (chain_fuel st0) st bits heads t) (fun '(st', t') =>
    resize_inv (fun a => P a \/ a ∈ concat Ls) st' t').
Proof.
  induction heads as [|h heads IH]; intros P st t Ls Hinv Hch Hnd Hl Hf;
    inversion Hch as [|? l ? Ls' Hc Hch']; subst; cbn [resize_chains concat] in *.
  - apply wp_ret. destruct Hinv as (? & ? & ? & B & HB). split_and!; try done. exists B.
    eapply hash_frame; [exact HB|..].
    + intros x. split; [by left|]. by intros [?|?%elem_of_nil].
    + intros x s _ Hs. by exists s.
  - apply NoDup_app in Hnd as (Hnd & Hd & Hnd'). apply wp_bind. eapply wp_mono.
    { apply (resize_chain_loop l P st t h); try done.
      - intros a Ha. apply Hl, elem_of_app. by left.
      - apply Hf. by left. }
    intros [st1 t1] [Hinv1 Hn1]. eapply wp_mono.
    { apply (IH _ st1 t1 Ls' Hinv1).
      - apply Forall2_same_length_lookup_2; [by eapply Forall2_length|].
        intros i h' l' Hh' Hi. pose proof (Forall2_lookup_lr _ _ _ _ _ _ Hch' Hh' Hi) as Hc'.
        assert (Hl' : l' ∈ Ls') by by eapply list_elem_of_lookup_2.
        eapply chain_frame; [exact Hc'|]. intros a Ha. apply Hn1.
        intros Hal. apply (Hd a Hal). apply list_elem_of_In, in_concat.
        exists l'. split; by apply list_elem_of_In.
      - done.
      - intros a Ha. destruct (Hl a) as [HP ?]; [apply elem_of_app; by right|].
        split; [|done]. intros [?|Hal]; [done|]. by apply (Hd a).
      - intros l' Hl'. apply Hf. by right. }
    intros [st' t'] (? & ? & ? & B & HB). split_and!; try done. exists B.
    eapply hash_frame; [exact HB|..].
    + intros x. rewrite elem_of_app. tauto.
    + intros x s _ Hs. by exists s.
Qed.

End resize.

Lemma replicate_hash bits n S :
  hash_ok bits (replicate n 0) S (fun _ => False) (replicate n []).
Proof.
  split.
  - by rewrite !length_replicate.
  - by intros b l h [-> _]%lookup_replicate_1 [-> _]%lookup_replicate_1.
  - intros b l [-> _]%lookup_replicate_1. apply NoDup_nil_2.
  - by intros b l a [-> _]%lookup_replicate_1 ?%elem_of_nil.
  - done.
Qed.

Lemma resize_shape_hash_spec st us bits : shapes_rel st us 0 -> 4 <= bits <= 30 ->
  wp (resize_shape_hash st bits) (fun '(st', _) => shapes_rel st' us 0
    /\ relinked (set_shape_hash (set_mem st (mem st')) (shape_hash_bits st') (shape_hash_count st')
         (rt_shape_hash st')) st').
Proof.
  intros Hrel Hbits. unfold resize_shape_hash.
  rewrite (proj2 (Z.ltb_lt bits 31)) by lia. cbn [c_assert bind].
  destruct (js_realloc_array _ _) as [m ok'].
  assert (Hrel1 : shapes_rel (set_mem st m) us 0) by (destruct Hrel; by split).
  destruct ok'; cbn [negb].
  2:{ apply wp_ret. split; [done|]. exact (relinked_refl (set_mem st m)). }
  rewrite Z.shiftl_1_l. pose proof (Z.pow_pos_nonneg 2 bits ltac:(lia) ltac:(lia)) as Hpos.
  destruct (sh_table _ _ _ Hrel1) as [B HB].
  apply wp_bind. eapply wp_mono.
  { apply (resize_chains_loop (set_mem st m) us bits Hrel1 Hbits _ (fun _ => False) _
      (replicate (Z.to_nat (2 ^ bits)) 0) B).
    - split_and!; [apply relinked_refl|done|rewrite length_replicate; lia|].
      exists (replicate (Z.to_nat (2 ^ bits)) []). apply replicate_hash.
    - apply Forall2_same_length_lookup_2; [symmetry; apply (ho_length _ _ _ _ _ HB)|].
      intros i h l Hh Hl. by eapply ho_chain.
    - by eapply hash_NoDup.
    - intros a Ha. split; [tauto|]. apply list_elem_of_In, in_concat in Ha as (l & Hl & Ha).
      apply list_elem_of_In, list_elem_of_lookup in Hl as [b Hb]. apply list_elem_of_In in Ha.
      by destruct (ho_elem _ _ _ _ _ HB b l a Hb Ha).
    - intros l [b Hb]%list_elem_of_lookup. unfold chain_fuel.
      destruct (lookup_lt_is_Some_2 (rt_shape_hash (set_mem st m)) b) as [h Hh].
      { rewrite <- (ho_length _ _ _ _ _ HB). by eapply lookup_lt_Some. }
      pose proof (chain_size _ _ _ (ho_chain _ _ _ _ _ HB b l h Hb Hh)
        (ho_nodup _ _ _ _ _ HB b l Hb)). lia. }
  intros [st' t'] (Hre & Eo & Hsz & B' & HB'). apply wp_ret.
  assert (EH : forall a, hashed_in (shapes (set_mem st m)) 0 a <-> False \/ a ∈ concat B).
  { intros a. split.
    - intros Ha. right. destruct (ho_in _ _ _ _ _ HB a Ha) as (b & l & Hl & Hal).
      apply list_elem_of_In, in_concat. exists l. split; apply list_elem_of_In; [|done].
      by eapply list_elem_of_lookup_2.
    - intros [[]|Ha]. apply list_elem_of_In, in_concat in Ha as (l & Hl & Ha).
      apply list_elem_of_In, list_elem_of_lookup in Hl as [b Hb]. apply list_elem_of_In in Ha.
      by destruct (ho_elem _ _ _ _ _ HB b l a Hb Ha). }
  set (st2 := set_shape_hash st' bits (shape_hash_count st') t').
  assert (Hc : shape_hash_count st' = shape_hash_count st) by by rewrite Eo.
  split.
  - eapply relinked_rel; [exact Hrel1|exact (relinked_same _ _ Hre)|..].
    + done.
    + done.
    + exists B'. eapply hash_frame; [exact HB'|..].
      * intros a. symmetry. apply EH.
      * intros a s _ Hs. by exists s.
    + cbn. by rewrite Hc.
    + done.
  - destruct Hre as (Em & ? & ? & ? & ? & ?). by split_and!.
Qed.
End state.
