(* ===== verification/ShapeLifeSpec.v ===== *)
(** * The life of shapes

    Creation, sharing, cloning and release of shapes, and the searches of the
    table, on the users of each shape. *)

From stdpp Require Import base tactics numbers list option gmap.
From Stdlib Require Import ZArith Lia.
From S2P Require Import Prelude Values AtomsSpec Shapes ShapeTableSpec ShapeHashSpec.

Open Scope Z_scope.

Section life.
Context {se : ShapeEngine} {ok : ShapeEngineOk se}.

(** The users with one more or one less. *)
Definition us_add (us : Z -> Z) (a n x : Z) : Z := if decide (x = a) then us x + n else us x.

Lemma us_add_eq us a n : us_add us a n a = us a + n.
Proof. unfold us_add. by rewrite decide_True. Qed.
Lemma us_add_ne us a n x : x <> a -> us_add us a n x = us x.
Proof. intros. unfold us_add. by rewrite decide_False. Qed.

(** ** One shape changed *)

Definition out_count (out : Z) : Z := if decide (out = 0) then 0 else 1.

Lemma out_count_0 : out_count 0 = 0.
Proof. done. Qed.
Lemma out_count_pos a : a <> 0 -> out_count a = 1.
Proof. intros. unfold out_count. by rewrite decide_False. Qed.

Lemma shapes_put st us out a s' us' out' :
  shapes_rel st us out ->
  (forall x, x <> a -> us' x = us x) ->
  0 < a -> shape_ok s' -> sh_ref_count s' = us' a -> 0 <= us' a -> (is_hashed s' = false -> us' a <= 1) ->
  (hashed_in (shapes st) out a /\ out' = out
     /\ (exists s, shapes st !! a = Some s /\ shape_hash_next s' = shape_hash_next s
                   /\ sh_hash s' = sh_hash s) /\ is_hashed s' = true
   \/ ~ hashed_in (shapes st) out a /\ (is_hashed s' = false /\ out' <> a \/ out' = a /\ is_hashed s' = true)) ->
  (out' = out \/ out = 0 /\ out' = a \/ out = a /\ out' = 0) ->
  out_count out' - out_count out
    = hashed_count s' - match shapes st !! a with Some s => hashed_count s | None => 0 end ->
  shapes_rel (put_shape st a s') us' out'.
Proof.
  intros Hrel Hus Ha0 Hok Href Hpos Hun Htab Hout Hcnt.
  assert (Hin : forall x, hashed_in (<[a := s']> (shapes st)) out' x <-> hashed_in (shapes st) out x).
  { intros x. destruct (decide (x = a)) as [->|Hne].
    - unfold hashed_in at 1. rewrite lookup_insert_eq. destruct Htab as [(Hh & -> & _ & E)|(Hh & Hc)].
      + split; [done|]. intros _. split; [apply Hh|by exists s'].
      + split; [|done]. intros [Hne (s0 & [= <-] & E)]. destruct Hc as [[E' _]|[-> _]]; [congruence|done].
    - unfold hashed_in. rewrite lookup_insert_ne by done.
      assert (Hx : forall s, shapes st !! x = Some s -> 0 < x)
        by (intros s Hs; by apply (sh_shape _ _ _ Hrel x s)).
      destruct Hout as [->|[[-> ->]|[-> ->]]]; [done|..];
        split; intros [_ (s & Hs & E)]; specialize (Hx s Hs);
        (split; [first [done|lia]|by exists s]). }
  split; cbn [put_shape set_shapes shape_hash_bits rt_shape_hash shape_hash_count shapes].
  - apply Hrel.
  - apply Hrel.
  - destruct (sh_table _ _ _ Hrel) as [B HB]. exists B. eapply hash_frame; [exact HB|..].
    + intros x. symmetry. apply Hin.
    + intros x s Hx Hs. destruct (decide (x = a)) as [->|Hne].
      * destruct Htab as [(_ & _ & (s0 & Hs0 & E1 & E2) & _)|[Hh _]]; [|done].
        rewrite Hs in Hs0. injection Hs0 as <-. exists s'. by rewrite lookup_insert_eq.
      * exists s. by rewrite lookup_insert_ne.
  - pose proof (sh_count _ _ _ Hrel) as Hc. fold (out_count out) in Hc. fold (out_count out').
    destruct (shapes st !! a) as [s|] eqn:Hs.
    + rewrite (msum_update _ _ _ s) by done. lia.
    + rewrite msum_insert by done. lia.
  - intros x s Hx. destruct (decide (x = a)) as [->|Hne].
    + rewrite lookup_insert_eq in Hx. injection Hx as <-. by split_and!.
    + rewrite lookup_insert_ne in Hx by done. rewrite Hus by done. by apply (sh_shape _ _ _ Hrel).
  - intros x Hx. destruct (decide (x = a)) as [->|Hne].
    + by rewrite lookup_insert_eq.
    + rewrite lookup_insert_ne by done. apply (sh_users _ _ _ Hrel). by rewrite <- Hus.
  - intros H0. destruct (decide (out' = a)) as [->|Hne].
    + exists s'. rewrite lookup_insert_eq. split; [done|].
      destruct Htab as [(_ & -> & _ & E)|(_ & [[_ ?]|[_ E]])]; done.
    + rewrite lookup_insert_ne by done. destruct Hout as [->|[[_ ->]|[_ ->]]]; [|done..].
      by apply (sh_out _ _ _ Hrel).
Qed.

(** A shape that is not in the table goes. *)
Lemma shapes_del st us out a s us' out' :
  shapes_rel st us out -> shapes st !! a = Some s -> ~ hashed_in (shapes st) out a ->
  (forall x, x <> a -> us' x = us x) -> us' a = 0 ->
  out' = (if decide (out = a) then 0 else out) ->
  shapes_rel (set_shapes st (delete a (shapes st))) us' out'.
Proof.
  intros Hrel Ha Hh Hus Ha0 Hout. destruct (sh_shape _ _ _ Hrel a s Ha) as (Hpos & _).
  assert (Hin : forall x, hashed_in (delete a (shapes st)) out' x <-> hashed_in (shapes st) out x).
  { intros x. unfold hashed_in. destruct (decide (x = a)) as [->|Hne].
    - rewrite lookup_delete_eq. split; [by intros [_ (s0 & ? & _)]|]. by intros H; destruct Hh.
    - rewrite lookup_delete_ne by done. rewrite Hout. destruct (decide (out = a)) as [->|]; [|done].
      split; intros [? (s0 & Hs0 & E)]; (split; [|by exists s0]); [done|].
      destruct (sh_shape _ _ _ Hrel x s0 Hs0). lia. }
  split; cbn [set_shapes shape_hash_bits rt_shape_hash shape_hash_count shapes].
  - apply Hrel.
  - apply Hrel.
  - destruct (sh_table _ _ _ Hrel) as [B HB]. exists B. eapply hash_frame; [exact HB|..].
    + intros x. symmetry. apply Hin.
    + intros x s0 Hx Hs0. exists s0. rewrite lookup_delete_ne; [done|]. by intros ->.
  - pose proof (sh_count _ _ _ Hrel) as Hc. fold (out_count out) in Hc. fold (out_count out').
    rewrite (msum_delete _ _ _ s) by done. rewrite Hout.
    destruct (decide (out = a)) as [->|Hne].
    + destruct (sh_out _ _ _ Hrel) as (s0 & Hs0 & E); [lia|]. rewrite Ha in Hs0. injection Hs0 as <-.
      assert (hashed_count s = 1) by (unfold hashed_count; by rewrite E).
      rewrite out_count_pos in Hc by lia. rewrite out_count_0. lia.
    + unfold hashed_count at 2. destruct (is_hashed s) eqn:E; [|lia]. destruct Hh. split; [congruence|by exists s].
  - intros x s0 Hx. destruct (decide (x = a)) as [->|Hne]; [by rewrite lookup_delete_eq in Hx|].
    rewrite lookup_delete_ne in Hx by done. rewrite Hus by done. by apply (sh_shape _ _ _ Hrel).
  - intros x Hx. destruct (decide (x = a)) as [->|Hne]; [done|].
    rewrite lookup_delete_ne by done. apply (sh_users _ _ _ Hrel). by rewrite <- Hus.
  - intros H0. rewrite Hout in H0 |- *. destruct (decide (out = a)); [done|].
    rewrite lookup_delete_ne by congruence. by apply (sh_out _ _ _ Hrel).
Qed.

(** ** The account of references *)

Definition refs_at (S : gmap Z JSShape) (a : Z) (x : ref_item) : Z :=
  match S !! a with Some s => count_item x (shape_refs s) | None => 0 end.

Lemma balance_put st a s x :
  balance (put_shape st a s) x
  = balance st x + refs_at (shapes st) a x - count_item x (shape_refs s).
Proof.
  unfold balance, refs_at. cbn [log shapes put_shape set_shapes].
  destruct (shapes st !! a) as [s0|] eqn:H.
  - rewrite (msum_update _ _ _ s0) by done. cbv beta. lia.
  - rewrite msum_insert by done. cbv beta. lia.
Qed.

Lemma balance_del st a x :
  balance (set_shapes st (delete a (shapes st))) x = balance st x + refs_at (shapes st) a x.
Proof.
  unfold balance, refs_at. cbn [log shapes set_shapes].
  destruct (shapes st !! a) as [s0|] eqn:H.
  - rewrite (msum_delete _ _ _ s0) by done. cbv beta. lia.
  - rewrite delete_id by done. lia.
Qed.

Lemma shape_balance_emit st l x : balance (emit st l) x = balance st x + net x l.
Proof. unfold balance. cbn [log shapes emit]. rewrite net_app. lia. Qed.

(** ** Users *)

Lemma shape_ok_ref s n : shape_ok s -> shape_ok (set_ref_count s n).
Proof. intros [? ? ? ? ?]. by split. Qed.

Lemma hashed_in_dec S out a : hashed_in S out a \/ ~ hashed_in S out a.
Proof.
  unfold hashed_in. destruct (decide (a = out)) as [->|Hne]; [right; by intros [? _]|].
  destruct (S !! a) as [s|]; [|right; by intros [_ (? & ? & _)]].
  destruct (is_hashed s) eqn:E; [left|right].
  - split; [done|]. by exists s.
  - intros [_ (s0 & [= <-] & ?)]. congruence.
Qed.

(** A shape of the table has one more or one less user. *)
Lemma shapes_ref st us a s n : shapes_rel st us 0 -> shapes st !! a = Some s ->
  is_hashed s = true -> 0 <= us a + n ->
  shapes_rel (put_shape st a (set_ref_count s (us a + n))) (us_add us a n) 0.
Proof.
  intros Hrel Ha Hh Hpos. destruct (sh_shape _ _ _ Hrel a s Ha) as (H0 & Hok & Href & _).
  eapply shapes_put; [exact Hrel|..].
  - intros x Hx. by apply us_add_ne.
  - done.
  - by apply shape_ok_ref.
  - by rewrite us_add_eq.
  - by rewrite us_add_eq.
  - cbn. by rewrite Hh.
  - left. split_and!; try done; [split; [lia|by exists s]|by exists s].
  - by left.
  - rewrite Ha. unfold hashed_count. cbn [is_hashed set_ref_count]. lia.
Qed.

Lemma dup_spec st us a s : shapes_rel st us 0 -> shapes st !! a = Some s -> is_hashed s = true ->
  wp (js_dup_shape st a) (fun st' => shapes_rel st' (us_add us a 1) 0
    /\ st' = put_shape st a (set_ref_count s (us a + 1))).
Proof.
  intros Hrel Ha Hh. destruct (sh_shape _ _ _ Hrel a s Ha) as (H0 & Hok & Href & Hp & _).
  unfold js_dup_shape. rewrite (get_shape_Some _ _ _ Ha). cbn [bind]. apply wp_ret.
  rewrite Href. split; [|done]. apply shapes_ref; try done. lia.
Qed.

(** What the operations on shapes leave alone. *)
Definition same_objs (st st' : shape_st) : Prop :=
  objs st' = objs st /\ array_shape st' = array_shape st.

(** The other shapes: their contents are the same. *)
Definition same_contents (s s' : JSShape) : Prop :=
  sh_prop s' = sh_prop s /\ sh_proto s' = sh_proto s /\ prop_size s' = prop_size s
  /\ is_hashed s' = is_hashed s /\ prop_hash s' = prop_hash s /\ prop_hash_mask s' = prop_hash_mask s.

Definition keeps (P : Z -> Prop) (st st' : shape_st) : Prop :=
  forall a s, P a -> shapes st !! a = Some s ->
  exists s', shapes st' !! a = Some s' /\ same_contents s s'.

Lemma same_contents_refl s : same_contents s s.
Proof. by split_and!. Qed.

Lemma same_contents_trans s1 s2 s3 : same_contents s1 s2 -> same_contents s2 s3 -> same_contents s1 s3.
Proof. unfold same_contents. intuition congruence. Qed.

Lemma shape_keeps_refl P st : keeps P st st.
Proof. intros a s _ Hs. exists s. split; [done|apply same_contents_refl]. Qed.

Lemma shape_keeps_trans (P : Z -> Prop) st1 st2 st3 : keeps P st1 st2 -> keeps P st2 st3 -> keeps P st1 st3.
Proof.
  intros H1 H2 a s Ha Hs. destruct (H1 a s Ha Hs) as (s2 & Hs2 & E2).
  destruct (H2 a s2 Ha Hs2) as (s3 & Hs3 & E3). exists s3. split; [done|].
  by eapply same_contents_trans.
Qed.

Lemma keeps_weaken (P Q : Z -> Prop) st st' : (forall a, Q a -> P a) -> keeps P st st' -> keeps Q st st'.
Proof. intros HPQ H a s Ha. apply H. by apply HPQ. Qed.

Lemma keeps_same P st st' : same_shapes (shapes st) (shapes st') -> keeps P st st'.
Proof.
  intros HS a s _ Hs. destruct (same_shape _ _ _ _ HS Hs) as (n & Hn).
  exists (set_hash_next s n). split; [done|]. by split_and!.
Qed.

Lemma keeps_put st a s0 s : shapes st !! a = Some s0 -> same_contents s0 s ->
  keeps (fun _ => True) st (put_shape st a s).
Proof.
  intros Ha Hc x sx _ Hx. cbn. destruct (decide (x = a)) as [->|Hne].
  - rewrite lookup_insert_eq. exists s. split; [done|]. congruence.
  - rewrite lookup_insert_ne by done. exists sx. split; [done|apply same_contents_refl].
Qed.

Lemma keeps_put_other st a s (P : Z -> Prop) : (forall x, P x -> x <> a) -> keeps P st (put_shape st a s).
Proof.
  intros Hne x sx Hx Hsx. cbn. rewrite lookup_insert_ne by (intros ->; by apply (Hne x)).
  exists sx. split; [done|apply same_contents_refl].
Qed.

Lemma keeps_del st a (P : Z -> Prop) : (forall x, P x -> x <> a) ->
  keeps P st (set_shapes st (delete a (shapes st))).
Proof.
  intros Hne x sx Hx Hsx. cbn. rewrite lookup_delete_ne by (intros ->; by apply (Hne x)).
  exists sx. split; [done|apply same_contents_refl].
Qed.

(** One user less. *)
Lemma shapes_less st us a s : shapes_rel st us 0 -> shapes st !! a = Some s -> 1 <= us a ->
  shapes_rel (put_shape st a (set_ref_count s (us a - 1))) (us_add us a (-1)) 0.
Proof.
  intros Hrel Ha Hpos. destruct (sh_shape _ _ _ Hrel a s Ha) as (H0 & Hok & Href & _ & Hun).
  eapply shapes_put; [exact Hrel|..].
  - intros x Hx. by apply us_add_ne.
  - done.
  - by apply shape_ok_ref.
  - by rewrite us_add_eq.
  - rewrite us_add_eq. lia.
  - cbn. rewrite us_add_eq. intros E. specialize (Hun E). lia.
  - destruct (is_hashed s) eqn:E; [left|right].
    + split_and!; try done; [split; [lia|by exists s]|by exists s].
    + split; [intros [_ (s0 & Hs0 & E')]; congruence|]. left. cbn. split; [done|lia].
  - by left.
  - rewrite Ha. unfold hashed_count. cbn [is_hashed set_ref_count]. lia.
Qed.

(** The shapes that still have users are kept. *)
Lemma free_spec st us a s :
  shapes_rel st us 0 -> shapes st !! a = Some s -> 1 <= us a ->
  wp (js_free_shape st a) (fun st' => shapes_rel st' (us_add us a (-1)) 0
    /\ same_objs st st' /\ keeps (fun x => us_add us a (-1) x <> 0) st st'
    /\ (forall x, balance st' x = balance st x)
    /\ forall x sx, shapes st' !! x = Some sx ->
         is_Some (shapes st !! x) /\ (x = a -> 0 < us_add us a (-1) a)).
Proof.
  intros Hrel Ha Hp1. destruct (sh_shape _ _ _ Hrel a s Ha) as (H0 & Hok & Href & Hp & Hun).
  unfold js_free_shape. rewrite (get_shape_Some _ _ _ Ha). cbn [bind].
  cbn [sh_ref_count set_ref_count]. rewrite Href.
  destruct (Z.leb_spec (us a - 1) 0) as [Hle|Hgt].
  - (* the last user *)
    set (s0 := set_ref_count s (us a - 1)). set (st1 := put_shape st a s0).
    assert (Ha1 : shapes st1 !! a = Some s0) by (cbn; by rewrite lookup_insert_eq).
    assert (Hrel1 : shapes_rel st1 (us_add us a (-1)) 0) by (by apply shapes_less).
    assert (Hb1 : forall x, balance st1 x = balance st x).
    { intros x. unfold st1. rewrite balance_put. unfold refs_at. rewrite Ha.
      assert (shape_refs s0 = shape_refs s) as -> by done. lia. }
    unfold js_free_shape0. rewrite (get_shape_Some _ _ _ Ha1). cbn [bind].
    assert ((sh_ref_count s0 =? 0) = true) as -> by (cbn; apply Z.eqb_eq; lia). cbn [c_assert bind].
    assert (Hcase : wp (if is_hashed s0 then js_shape_hash_unlink st1 a else Ret st1) (fun st2 =>
      shapes_rel st2 (us_add us a (-1)) (if is_hashed s then a else 0) /\ relinked st1 st2)).
    { change (is_hashed s0) with (is_hashed s). destruct (is_hashed s) eqn:Eh.
      - by eapply unlink_spec.
      - apply wp_ret. split; [done|apply relinked_refl]. }
    apply wp_bind. eapply wp_mono; [exact Hcase|]. intros st2 [Hrel2 Hre].
    destruct (same_shape _ _ _ _ (relinked_same _ _ Hre) Ha1) as (n & Hn).
    apply wp_ret. pose proof Hre as (_ & _ & Eo & Ear & _).
    assert (Hdel : shapes_rel (set_shapes st2 (delete a (shapes st2))) (us_add us a (-1)) 0).
    { eapply shapes_del; [exact Hrel2|exact Hn|..].
      - destruct (is_hashed s) eqn:Eh; [by intros [? _]|].
        intros [_ (s3 & Hs3 & E3)]. rewrite Hn in Hs3. injection Hs3 as <-. cbn in E3. congruence.
      - done.
      - rewrite us_add_eq. lia.
      - destruct (is_hashed s); by case_decide. }
    split_and!.
    + destruct Hdel. by split.
    + by split.
    + assert (Ek : keeps (fun x => x <> a) st st2).
      { eapply shape_keeps_trans; [by apply (keeps_put_other _ a s0)|]. by apply keeps_same, relinked_same. }
      intros x sx Hx Hsx. assert (x <> a) as Hne by (intros ->; rewrite us_add_eq in Hx; lia).
      destruct (Ek x sx Hne Hsx) as (sx' & Hsx' & Ec). exists sx'. cbn.
      by rewrite lookup_delete_ne.
    + intros x. rewrite <- Hb1, <- (relinked_balance _ _ x Hre).
      assert (E : forall l, balance (set_shapes (emit (emit st2 (Free <$> obj_ref (sh_proto s0))) l)
        (delete a (shapes st2))) x
        = balance st2 x + count_item x (shape_refs s) + net x (Free <$> obj_ref (sh_proto s0)) + net x l).
      { intros l. pose proof (balance_del (emit (emit st2 (Free <$> obj_ref (sh_proto s0))) l) a x) as E.
        cbn [shapes emit] in E. rewrite E, !shape_balance_emit. unfold refs_at. cbn [shapes emit].
        rewrite Hn. change (shape_refs (set_hash_next s0 n)) with (shape_refs s). lia. }
      cbn [shapes emit]. rewrite E, !net_free. unfold shape_refs. rewrite count_item_app.
      change (sh_proto s0) with (sh_proto s). change (sh_prop s0) with (sh_prop s). lia.
    + intros x sx. cbn. destruct (decide (x = a)) as [->|Hne]; [by rewrite lookup_delete_eq|].
      rewrite lookup_delete_ne by done. intros Hx. split; [|done].
      destruct (same_shape_inv _ _ _ _ (relinked_same _ _ Hre) Hx) as (s3 & Hs3 & _).
      cbn in Hs3. rewrite lookup_insert_ne in Hs3 by done. by eexists.
  - assert (Eh : is_hashed s = true) by (destruct (is_hashed s); [done|]; specialize (Hun eq_refl); lia).
    apply wp_ret. split_and!.
    + by apply shapes_less.
    + done.
    + eapply keeps_weaken; [|by eapply keeps_put]. done.
    + intros x. rewrite balance_put. unfold refs_at. rewrite Ha.
      change (shape_refs (set_ref_count s (us a - 1))) with (shape_refs s). lia.
    + intros x sx. cbn. destruct (decide (x = a)) as [->|Hne].
      * rewrite us_add_eq. split; [by eexists|lia].
      * rewrite lookup_insert_ne by done. split; [by eexists|done].
Qed.
(** ** Between operations: every shape has users, and is where it should be *)

Record live_rel (st : shape_st) (us : Z -> Z) : Prop := {
  lv_rel : shapes_rel st us 0;
  lv_pos : forall a s, shapes st !! a = Some s -> 0 < us a
}.

Lemma fresh_users st us a : live_rel st us -> a ∉ dom (shapes st) -> us a = 0.
Proof.
  intros Hrel Ha. destruct (decide (us a = 0)) as [|Hne]; [done|].
  destruct (sh_users _ _ _ (lv_rel _ _ Hrel) a Hne) as [s Hs]. destruct Ha.
  by apply elem_of_dom_2 in Hs.
Qed.

Lemma unhashed_one st us a s : live_rel st us -> shapes st !! a = Some s ->
  is_hashed s = false -> us a = 1.
Proof.
  intros Hrel Ha Hh. pose proof (lv_pos _ _ Hrel a s Ha).
  destruct (sh_shape _ _ _ (lv_rel _ _ Hrel) a s Ha) as (_ & _ & _ & _ & Hun).
  specialize (Hun Hh). lia.
Qed.

Lemma live_relinked st st' us : live_rel st us -> shapes_rel st' us 0 ->
  same_shapes (shapes st) (shapes st') -> live_rel st' us.
Proof.
  intros Hrel Hrel' HS. split; [done|]. intros a s Ha.
  destruct (same_shape_inv _ _ _ _ HS Ha) as (s0 & Hs0 & _). by eapply lv_pos.
Qed.

Lemma live_mem st us m : live_rel st us -> live_rel (set_mem st m) us.
Proof. intros [[] ?]. by split. Qed.

Lemma live_emit st us l : live_rel st us -> live_rel (emit st l) us.
Proof. intros [[] ?]. by split. Qed.

Lemma live_objs st us o : live_rel st us -> live_rel (set_objs st o) us.
Proof. intros [[] ?]. by split. Qed.

Lemma live_dup st us a s : live_rel st us -> shapes st !! a = Some s -> is_hashed s = true ->
  wp (js_dup_shape st a) (fun st' => live_rel st' (us_add us a 1) /\ same_objs st st'
    /\ keeps (fun _ => True) st st' /\ forall x, balance st' x = balance st x).
Proof.
  intros Hrel Ha Hh. eapply wp_mono; [by apply (dup_spec st us a s); [apply Hrel|..]|].
  intros st' [Hrel' ->]. split_and!; [split| | |].
  - done.
  - intros x sx. cbn. destruct (decide (x = a)) as [->|Hne].
    + intros _. rewrite us_add_eq. pose proof (lv_pos _ _ Hrel a s Ha). lia.
    + rewrite lookup_insert_ne, us_add_ne by done. by apply Hrel.
  - done.
  - by eapply keeps_put.
  - intros x. rewrite balance_put. unfold refs_at. rewrite Ha.
    change (shape_refs (set_ref_count s (us a + 1))) with (shape_refs s). lia.
Qed.

Lemma live_free st us a s : live_rel st us -> shapes st !! a = Some s ->
  wp (js_free_shape st a) (fun st' => live_rel st' (us_add us a (-1)) /\ same_objs st st'
    /\ keeps (fun x => us_add us a (-1) x <> 0) st st' /\ forall x, balance st' x = balance st x).
Proof.
  intros Hrel Ha. pose proof (lv_pos _ _ Hrel a s Ha) as Hpos.
  eapply wp_mono; [apply (free_spec st us a s (lv_rel _ _ Hrel) Ha); lia|].
  intros st' (Hrel' & Ho & Hk & Hb & Hkeys). split_and!; try done. split; [done|].
  intros x sx Hx. destruct (Hkeys x sx Hx) as [[s0 Hs0] Hxa].
  destruct (decide (x = a)) as [->|Hne]; [by apply Hxa|].
  rewrite us_add_ne by done. by eapply lv_pos.
Qed.

(** A new shape. *)
Lemma live_new st us a s b : live_rel st us -> a ∉ addresses st -> 0 < a -> shape_ok s ->
  sh_ref_count s = 1 -> is_hashed s = b ->
  shapes_rel (put_shape st a s) (us_add us a 1) (if b then a else 0)
  /\ (forall x sx, shapes (put_shape st a s) !! x = Some sx -> 0 < us_add us a 1 x)
  /\ keeps (fun _ => True) st (put_shape st a s).
Proof.
  intros Hrel Ha Hpos Hok Href Hb.
  assert (Hd : a ∉ dom (shapes st)) by (unfold addresses in Ha; set_solver).
  pose proof (fresh_users st us a Hrel Hd) as Hus. pose proof Hd as Hn.
  apply not_elem_of_dom in Hn. split_and!.
  - eapply shapes_put; [exact (lv_rel _ _ Hrel)|..].
    + intros x Hx. by apply us_add_ne.
    + done.
    + done.
    + rewrite us_add_eq. lia.
    + rewrite us_add_eq. lia.
    + intros _. rewrite us_add_eq. lia.
    + right. split; [intros [_ (s0 & Hs0 & _)]; congruence|]. rewrite Hb.
      destruct b; [by right|left; split; [done|lia]].
    + destruct b; [right; by left|by left].
    + rewrite Hn, out_count_0. unfold hashed_count. rewrite Hb.
      destruct b; [rewrite out_count_pos by lia|rewrite out_count_0]; lia.
  - intros x sx. cbn. destruct (decide (x = a)) as [->|Hne].
    + intros _. rewrite us_add_eq. lia.
    + rewrite lookup_insert_ne, us_add_ne by done. by apply Hrel.
  - intros x sx _ Hx. cbn. rewrite lookup_insert_ne by congruence. exists sx.
    split; [done|apply same_contents_refl].
Qed.
End life.
