(* ===== verification/ShapeMakeSpec.v ===== *)
(** * New shapes, clones, and the searches of the table of shapes *)

From stdpp Require Import base tactics numbers list option gmap.
From Stdlib Require Import ZArith Lia.
From S2P Require Import Prelude Values AtomsSpec Shapes ShapeTableSpec ShapeHashSpec ShapeLifeSpec.

Open Scope Z_scope.

Section make.
Context {se : ShapeEngine} {ok : ShapeEngineOk se}.

Lemma msum_hashed_bound (S : gmap Z JSShape) : 0 <= msum hashed_count S <= Z.of_nat (size S).
Proof.
  induction S as [|a s S Ha IH] using map_ind; [by rewrite msum_empty, map_size_empty|].
  rewrite msum_insert, map_size_insert_None by done. unfold hashed_count at 1 3.
  destruct (is_hashed s); lia.
Qed.

(** The result of a creation: a new shape with one user, or none. *)
Definition new_shape (st st' : shape_st) (us : Z -> Z) (a : Z) (P : JSShape -> Prop) : Prop :=
  same_objs st st' /\ keeps (fun _ => True) st st' /\ (forall x, balance st' x = balance st x)
  /\ (a = 0 /\ live_rel st' us
      \/ (a ∉ addresses st) /\ 0 < a /\ live_rel st' (us_add us a 1)
         /\ exists s, shapes st' !! a = Some s /\ P s).

Lemma same_addresses st st' : relinked st st' -> addresses st' = addresses st.
Proof.
  intros (_ & _ & Eo & _ & _ & HS). unfold addresses. rewrite Eo. f_equal. apply leibniz_equiv.
  intros a. rewrite !elem_of_dom. specialize (HS a).
  destruct (shapes st !! a), (shapes st' !! a); try done.
Qed.

(** The table grows first if it has to. *)
Lemma grow_spec st us : live_rel st us -> Z.of_nat (size (shapes st)) < 2 ^ 28 ->
  wp (if 2 * (shape_hash_count st + 1) >? shape_hash_size st
      then let* x := resize_shape_hash st (shape_hash_bits st + 1) in Ret x.1 else Ret st)
    (fun st' => live_rel st' us /\ same_objs st st' /\ same_shapes (shapes st) (shapes st')
      /\ addresses st' = addresses st /\ forall x, balance st' x = balance st x).
Proof.
  intros Hrel Hsz. destruct (_ >? _) eqn:Eg.
  - apply Z.gtb_lt in Eg. unfold shape_hash_size in Eg.
    pose proof (lv_rel _ _ Hrel) as Hr. rewrite (sh_size _ _ _ Hr) in Eg.
    pose proof (sh_count _ _ _ Hr) as Hc. rewrite decide_True in Hc by done.
    pose proof (msum_hashed_bound (shapes st)). pose proof (sh_bits _ _ _ Hr).
    assert (shape_hash_bits st < 30).
    { destruct (Z_lt_le_dec (shape_hash_bits st) 30) as [|Hge]; [done|].
      assert (2 ^ 30 <= 2 ^ shape_hash_bits st) by (apply Z.pow_le_mono_r; lia). lia. }
    apply wp_bind. eapply wp_mono; [apply (resize_shape_hash_spec st us _ Hr); lia|].
    intros [st' r] [Hrel' Hre]. apply wp_ret. cbn [fst].
    pose proof (relinked_same _ _ Hre) as HS. split_and!.
    + by eapply live_relinked.
    + destruct Hre as (_ & _ & Eo & Ea & _). done.
    + done.
    + apply (same_addresses _ _ Hre).
    + intros x. apply (relinked_balance _ _ x Hre).
  - apply wp_ret. split_and!; try done. apply (relinked_refl st).
Qed.

Lemma empty_shape_ok proto k ps : 0 <= k <= 27 -> 1 <= ps <= 2 ^ 27 ->
  shape_ok (mkShape 1 true false (shape_initial_hash proto) (u32 (2 ^ k - 1)) ps 0 0 proto
              (replicate (Z.to_nat (2 ^ k)) 0) []).
Proof.
  intros Hk Hp. assert (0 < 2 ^ k) by (apply Z.pow_pos_nonneg; lia).
  assert (2 ^ k <= 2 ^ 27) by (apply Z.pow_le_mono_r; lia).
  split; cbn.
  - unfold shape_table_ok. cbn. rewrite u32_id by lia. by apply table_empty.
  - apply NoDup_nil_2.
  - unfold prop_count; cbn [sh_prop length prop_size]; lia.
  - done.
  - done.
Qed.

Lemma new_shape2_spec st us proto k ps : live_rel st us ->
  Z.of_nat (size (shapes st)) < 2 ^ 28 -> 0 <= k <= 27 -> 1 <= ps <= 2 ^ 27 ->
  wp (js_new_shape2 st proto (2 ^ k) ps) (fun '(st', a) => new_shape st st' us a (fun s =>
    is_hashed s = true /\ sh_proto s = proto /\ sh_prop s = [] /\ prop_size s = ps)).
Proof.
  intros Hrel Hsz Hk Hp. unfold js_new_shape2. apply wp_bind.
  eapply wp_mono; [by apply grow_spec|]. intros st1 (Hrel1 & Ho1 & HS1 & Ea & Hb1).
  destruct (js_malloc (mem st1) (addresses st1)) as [m [a|]] eqn:Em.
  2:{ apply wp_ret. split_and!; [done|by apply keeps_same|done|]. left. split; [done|].
      by apply live_mem. }
  destruct (js_malloc_fresh _ _ _ _ Em) as [Hfresh Hpos].
  set (s := mkShape _ _ _ _ _ _ _ _ _ _ _).
  set (st2 := emit (set_mem st1 m) _).
  assert (Hok : shape_ok s) by by apply empty_shape_ok.
  destruct (live_new st2 us a s true) as (Hrel3 & Hpos3 & Hk3); try done.
  { by apply live_emit, live_mem. }
  apply wp_bind. eapply wp_mono.
  { apply (link_spec _ _ _ s Hrel3); [cbn; by rewrite lookup_insert_eq|done]. }
  intros st4 [Hrel4 Hre4]. apply wp_ret. pose proof (relinked_same _ _ Hre4) as HS4.
  destruct (same_shape _ _ a s HS4) as (n & Hn); [cbn; by rewrite lookup_insert_eq|].
  split_and!.
  - destruct Ho1, Hre4 as (_ & _ & E1 & E2 & _). split; cbn in *; congruence.
  - eapply shape_keeps_trans; [by apply keeps_same|]. eapply shape_keeps_trans; [exact Hk3|by apply keeps_same].
  - intros x. rewrite (relinked_balance _ _ x Hre4), balance_put.
    assert (refs_at (shapes st2) a x = 0) as ->.
    { unfold refs_at. cbn. assert (shapes st1 !! a = None) as ->; [|done].
      apply not_elem_of_dom. unfold addresses in Hfresh. set_solver. }
    unfold st2. rewrite shape_balance_emit, net_dup.
    change (balance (set_mem st1 m) x) with (balance st1 x). rewrite Hb1.
    unfold shape_refs, s. cbn [sh_proto sh_prop]. rewrite count_item_app. cbn. lia.
  - right. rewrite <- Ea. split_and!; [done|done| |by exists (set_hash_next s n)].
    split; [done|]. intros x sx Hx. destruct (same_shape_inv _ _ _ _ HS4 Hx) as (s0 & Hs0 & _).
    by eapply Hpos3.
Qed.

Lemma clone_spec st us a s : live_rel st us -> shapes st !! a = Some s ->
  wp (js_clone_shape st a) (fun '(st', b) => new_shape st st' us b (fun s' =>
    s' = set_is_hashed (set_ref_count s 1) false)
    /\ (b = 0 -> shapes st' = shapes st)).
Proof.
  intros Hrel Ha. unfold js_clone_shape. rewrite (get_shape_Some _ _ _ Ha). cbn [bind].
  destruct (js_malloc (mem st) (addresses st)) as [m [b|]] eqn:Em.
  2:{ apply wp_ret. split; [|done]. split_and!; [done|exact (shape_keeps_refl _ st)|done|]. left. split; [done|].
      by apply live_mem. }
  destruct (js_malloc_fresh _ _ _ _ Em) as [Hfresh Hpos].
  set (s' := set_is_hashed (set_ref_count s 1) false).
  destruct (sh_shape _ _ _ (lv_rel _ _ Hrel) a s Ha) as (_ & Hok & _).
  assert (Hok' : shape_ok s') by (destruct Hok; by split).
  destruct (live_new (set_mem st m) us b s' false) as (Hrel3 & Hpos3 & Hk3); try done.
  { by apply live_mem. }
  apply wp_ret. split; [|intros ->; lia]. split_and!.
  - done.
  - done.
  - intros x. rewrite !shape_balance_emit, !net_dup, balance_put.
    assert (refs_at (shapes (set_mem st m)) b x = 0) as ->.
    { unfold refs_at. cbn. assert (shapes st !! b = None) as ->; [|done].
      apply not_elem_of_dom. unfold addresses in Hfresh. set_solver. }
    change (balance (set_mem st m) x) with (balance st x).
    unfold shape_refs. rewrite count_item_app. lia.
  - right. split_and!; [done|done| |].
    + by apply live_emit, live_emit.
    + exists s'. split; [|done]. cbn. by rewrite lookup_insert_eq.
Qed.

(** ** The searches *)

Lemma find_loop st match_ l : forall h fuel, chain (nexts (shapes st)) h l ->
  (length l < fuel)%nat ->
  wp (loop fuel (find_shape_step st match_) h) (fun a =>
    (a = 0 /\ forall x s, x ∈ l -> shapes st !! x = Some s -> match_ s = false)
    \/ a ∈ l /\ a <> 0 /\ exists s, shapes st !! a = Some s /\ match_ s = true).
Proof.
  induction l as [|x l IH]; intros h fuel Hc Hf; (destruct fuel as [|fuel]; [cbn in Hf; lia|]);
    rewrite loop_S; unfold find_shape_step at 1.
  - cbn in Hc. subst h. cbn. left. split; [done|]. by intros x s ?%elem_of_nil.
  - destruct Hc as (-> & Hx & n & Hn & Hc). rewrite (proj2 (Z.eqb_neq x 0)) by done.
    unfold nexts in Hn. rewrite lookup_fmap in Hn. apply fmap_Some in Hn as (s & Hs & ->).
    rewrite (get_shape_Some _ _ _ Hs). cbn [bind]. destruct (match_ s) eqn:Em; cbn [bind].
    + right. split_and!; [by left|done|by exists s].
    + eapply wp_mono; [apply (IH _ fuel Hc); cbn in Hf; lia|].
      intros a [[-> Hno]|(Ha & Ha0 & Hex)]; [left|right].
      * split; [done|]. intros y sy [->|Hy]%elem_of_cons Hsy; [congruence|by eapply Hno].
      * split_and!; [by right|done|done].
Qed.

(** A search by the hash finds a shape of the table if there is one. *)
Lemma find_shape_spec st us h match_ : live_rel st us -> 0 <= h < 2 ^ 32 ->
  (forall s, match_ s = true -> sh_hash s = h) ->
  wp (let* first := rd (rt_shape_hash st) (get_shape_hash h (shape_hash_bits st)) in
      loop (chain_fuel st) (find_shape_step st match_) first) (fun a =>
    (a = 0 /\ forall x s, shapes st !! x = Some s -> is_hashed s = true -> match_ s = false)
    \/ a <> 0 /\ exists s, shapes st !! a = Some s /\ is_hashed s = true /\ match_ s = true).
Proof.
  intros Hrel Hh Hm. pose proof (lv_rel _ _ Hrel) as Hr.
  destruct (sh_table _ _ _ Hr) as [B HB]. pose proof (sh_bits _ _ _ Hr).
  destruct (hash_chain _ _ _ _ _ HB h (sh_size _ _ _ Hr)) as (b & l & first & Eb & Hl & -> & _ & Hc & Hnd & Hin);
    [lia|done|].
  cbn [bind]. pose proof (chain_size _ _ _ Hc Hnd).
  eapply wp_mono; [apply (find_loop st match_ l first (chain_fuel st) Hc); unfold chain_fuel; lia|].
  intros a [[-> Hno]|(Ha & Ha0 & s & Hs & Ems)]; [left|right].
  - split; [done|]. intros x s Hs Hhs. destruct (match_ s) eqn:Em; [|done].
    destruct (sh_shape _ _ _ Hr x s Hs) as (Hx0 & _).
    destruct (ho_in _ _ _ _ _ HB x) as (b' & l' & Hl' & Hx); [split; [lia|by exists s]|].
    destruct (ho_elem _ _ _ _ _ HB b' l' x Hl' Hx) as (_ & s' & Hs' & E).
    rewrite Hs in Hs'. injection Hs' as <-. rewrite (Hm s Em), Eb in E.
    assert (b' = b) as -> by lia. rewrite Hl in Hl'. injection Hl' as <-.
    by rewrite (Hno x s Hx Hs) in Em.
  - split; [done|]. exists s. split_and!; [done| |done].
    destruct (Hin a Ha) as (_ & s' & Hs' & E). congruence.
Qed.

Lemma find_proto_spec st us proto : live_rel st us ->
  wp (find_hashed_shape_proto st proto) (fun a =>
    (a = 0 /\ forall x s, shapes st !! x = Some s -> is_hashed s = true -> sh_proto s = proto ->
       sh_prop s <> [])
    \/ a <> 0 /\ exists s, shapes st !! a = Some s /\ is_hashed s = true
       /\ sh_proto s = proto /\ sh_prop s = []).
Proof.
  intros Hrel. unfold find_hashed_shape_proto. eapply wp_mono.
  { eapply (find_shape_spec st us (shape_initial_hash proto)); [done|apply u32_bound|].
    intros s Hs. by zb. }
  cbn beta. intros a [[-> Hno]|(Ha & s & Hs & Hh & Hm)]; [left|right].
  - split; [done|]. intros x s Hs Hh <- E. specialize (Hno x s Hs Hh).
    destruct (sh_shape _ _ _ (lv_rel _ _ Hrel) x s Hs) as (_ & Hok & _).
    destruct (so_hashed _ Hok Hh) as [_ EH]. rewrite E in EH.
    rewrite EH in Hno. cbn in Hno. unfold prop_count in Hno. rewrite E, !Z.eqb_refl in Hno. done.
  - split; [done|]. exists s. apply andb_prop in Hm as [Hm Hc]. apply andb_prop in Hm as [_ Hp].
    apply Z.eqb_eq in Hp, Hc. split_and!; try done. unfold prop_count in Hc.
    destruct (sh_prop s); [done|]. cbn in Hc. lia.
Qed.

(** The entries of a shape without their links. *)
Definition contents (ps : list JSShapeProperty) : list (Z * Z) := (fun pr => (atom pr, flags pr)) <$> ps.

Lemma contents_atoms ps ps' : contents ps = contents ps' -> atoms ps = atoms ps'.
Proof.
  revert ps'. induction ps as [|pr ps IH]; intros [|pr' ps'] E; try done.
  injection E as Ea Ef E. unfold atoms. cbn. rewrite Ea. f_equal. by apply IH.
Qed.

Lemma contents_flags ps ps' : contents ps = contents ps' -> flags <$> ps = flags <$> ps'.
Proof.
  revert ps'. induction ps as [|pr ps IH]; intros [|pr' ps'] E; try done.
  injection E as Ea Ef E. cbn. rewrite Ef. f_equal. by apply IH.
Qed.

Lemma contents_hash proto ps ps' : contents ps = contents ps' ->
  content_hash proto ps = content_hash proto ps'.
Proof.
  unfold content_hash. generalize (shape_initial_hash proto) as h. revert ps'.
  induction ps as [|pr ps IH]; intros [|pr' ps'] h E; try done.
  injection E as Ea Ef E. cbn. rewrite Ea, Ef. by apply IH.
Qed.

Lemma content_hash_snoc proto ps pr :
  content_hash proto (ps ++ [pr]) = shape_hash (shape_hash (content_hash proto ps) (atom pr)) (flags pr).
Proof. unfold content_hash. by rewrite foldl_app. Qed.

Lemma same_props_spec ps ps1 a fl : length ps1 = S (length ps) ->
  same_props ps ps1 a fl = true <-> contents ps1 = contents ps ++ [(a, fl)].
Proof.
  revert ps1. induction ps as [|pr ps IH]; intros [|pr1 ps1] Hlen; try done; cbn in Hlen.
  - destruct ps1; [|done]. cbn. rewrite andb_true_iff, !Z.eqb_eq. split.
    + by intros [-> ->].
    + by intros [= -> ->].
  - cbn [same_props contents fmap list_fmap app]. fold (contents ps) (contents ps1).
    rewrite !andb_true_iff, !Z.eqb_eq, IH by lia. split.
    + by intros [[-> ->] ->].
    + by intros [= -> -> ->].
Qed.

Lemma find_prop_spec st us sh s a fl : live_rel st us -> shapes st !! sh = Some s ->
  is_hashed s = true ->
  wp (find_hashed_shape_prop st sh a fl) (fun b =>
    (b = 0 /\ forall x s1, shapes st !! x = Some s1 -> is_hashed s1 = true ->
       sh_proto s1 = sh_proto s -> contents (sh_prop s1) <> contents (sh_prop s) ++ [(a, fl)])
    \/ b <> 0 /\ exists s1, shapes st !! b = Some s1 /\ is_hashed s1 = true
       /\ sh_proto s1 = sh_proto s /\ contents (sh_prop s1) = contents (sh_prop s) ++ [(a, fl)]).
Proof.
  intros Hrel Hs Hh. unfold find_hashed_shape_prop. rewrite (get_shape_Some _ _ _ Hs). cbn [bind].
  assert (Hlen : forall l l' x, contents l = contents l' ++ [x] -> length l = S (length l')).
  { intros l l' x E. apply (f_equal length) in E. unfold contents in E.
    rewrite length_app, !length_fmap in E. cbn in E. lia. }
  eapply wp_mono.
  { eapply (find_shape_spec st us (shape_hash (shape_hash (sh_hash s) a) fl)); [done|apply u32_bound|].
    intros s1 H1. by zb. }
  cbn beta. intros b [[-> Hno]|(Hb & s1 & Hs1 & Hh1 & Hm)]; [left|right].
  - split; [done|]. intros x s1 Hs1 Hh1 Hp E. specialize (Hno x s1 Hs1 Hh1).
    destruct (sh_shape _ _ _ (lv_rel _ _ Hrel) x s1 Hs1) as (_ & Hok1 & _).
    destruct (sh_shape _ _ _ (lv_rel _ _ Hrel) sh s Hs) as (_ & Hok & _).
    destruct (so_hashed _ Hok1 Hh1) as [_ EH1]. destruct (so_hashed _ Hok Hh) as [_ EH].
    assert (E' : contents (sh_prop s1) = contents (sh_prop s ++ [mkShapeProp 0 fl a]))
      by (unfold contents in *; by rewrite fmap_app).
    rewrite (contents_hash _ _ _ E'), Hp, content_hash_snoc, <- EH in EH1. cbn [atom flags] in EH1.
    pose proof (Hlen _ _ _ E) as El.
    rewrite EH1, Hp, !Z.eqb_refl, (proj2 (same_props_spec _ _ a fl El) E) in Hno.
    unfold prop_count in Hno. rewrite El in Hno.
    rewrite (proj2 (Z.eqb_eq (Z.of_nat (S _)) _)) in Hno by lia. done.
  - split; [done|]. exists s1. apply andb_prop in Hm as [Hm Hc]. apply andb_prop in Hm as [Hm Hn].
    apply andb_prop in Hm as [_ Hp]. apply Z.eqb_eq in Hp, Hn. split_and!; try done.
    apply same_props_spec; [|done]. unfold prop_count in Hn. lia.
Qed.
End make.
