(* ===== verification/ShapeRel.v ===== *)
(** * Objects and the sequences of their properties

    The language gives an object its prototype and its properties in the
    order of their creation.  The relation of this file between the store of
    objects and shapes and the objects of the language hides the shapes: how
    they are shared, where they are and how large their tables are. *)

From stdpp Require Import base tactics numbers list option gmap.
From Stdlib Require Import ZArith Lia.
From S2P Require Import Prelude Values AtomsSpec Shapes ShapeTableSpec ShapeHashSpec ShapeLifeSpec ShapeMakeSpec.
From S2P Require GcObjects.

Open Scope Z_scope.

(** ** The objects of the language *)

Record aobject := mkA {
  a_class : GcObjects.JSClassID;
  a_extensible : bool;
  a_exotic : bool;
  a_fast : bool;
  a_proto : Z;
  a_props : list entry;
  a_values : list JSValue
}.

(** The prototype of the arrays is known once the shape of arrays is made. *)
Record astate := mkAS { a_objs : gmap Z aobject; a_array : option Z }.

Definition set_aobj (A : astate) (p : Z) (o : aobject) : astate :=
  mkAS (<[p := o]> (a_objs A)) (a_array A).

Section rel.
Context {se : ShapeEngine} {ok : ShapeEngineOk se}.

(** ** Users of shapes *)

Definition ind (a b : Z) : Z := if decide (a = b) then 1 else 0.

Definition count_in (ex : list Z) (a : Z) : Z := foldr (fun x n => ind x a + n) 0 ex.

(** The objects, the context, and the pointers [ex] that the code holds. *)
Definition users (st : shape_st) (ex : list Z) (a : Z) : Z :=
  msum (fun o => ind (shape o) a) (objs st)
  + (if decide (a = 0) then 0 else ind (array_shape st) a) + count_in ex a.

Lemma ind_eq a : ind a a = 1.
Proof. unfold ind. by rewrite decide_True. Qed.
Lemma ind_ne a b : a <> b -> ind a b = 0.
Proof. intros. unfold ind. by rewrite decide_False. Qed.
Lemma ind_nonneg a b : 0 <= ind a b.
Proof. unfold ind. by case_decide. Qed.

Lemma count_in_cons x ex a : count_in (x :: ex) a = ind x a + count_in ex a.
Proof. done. Qed.

Lemma count_in_nonneg ex a : 0 <= count_in ex a.
Proof.
  induction ex as [|x ex IH]; [done|]. rewrite count_in_cons. pose proof (ind_nonneg x a). lia.
Qed.

Lemma count_in_pos ex a : a ∈ ex -> 0 < count_in ex a.
Proof.
  induction ex as [|x ex IH]; [by intros ?%elem_of_nil|]. rewrite count_in_cons. pose proof (ind_nonneg x a).
  pose proof (count_in_nonneg ex a). intros [->|Ha]%elem_of_cons; [rewrite ind_eq; lia|].
  specialize (IH Ha). lia.
Qed.

Lemma users_objs_nonneg st a : 0 <= msum (fun o => ind (shape o) a) (objs st).
Proof. apply msum_nonneg. intros. apply ind_nonneg. Qed.

Lemma users_obj st ex p o : objs st !! p = Some o -> 0 < users st ex (shape o).
Proof.
  intros Hp. unfold users.
  pose proof (msum_elem (fun o' => ind (shape o') (shape o)) (objs st) p o
    (fun x => ind_nonneg _ _) Hp) as H.
  cbv beta in H. rewrite ind_eq in H. pose proof (count_in_nonneg ex (shape o)).
  pose proof (ind_nonneg (array_shape st) (shape o)). case_decide; lia.
Qed.

Lemma users_array st ex : array_shape st <> 0 -> 0 < users st ex (array_shape st).
Proof.
  intros H0. unfold users. rewrite decide_False by done. rewrite ind_eq.
  pose proof (users_objs_nonneg st (array_shape st)). pose proof (count_in_nonneg ex (array_shape st)). lia.
Qed.

(** A shape with one user, which is an object, has no other one. *)
Lemma users_one st ex p o : objs st !! p = Some o -> shape o <> 0 -> users st ex (shape o) = 1 ->
  (forall q o', q <> p -> objs st !! q = Some o' -> shape o' <> shape o)
  /\ array_shape st <> shape o /\ (shape o ∉ ex).
Proof.
  intros Hp H0 H1. unfold users in H1. rewrite decide_False in H1 by done.
  set (f := fun o' : JSObject => ind (shape o') (shape o)) in *.
  pose proof (msum_delete f (objs st) p o Hp) as Hd. unfold f in Hd at 3. rewrite ind_eq in Hd.
  assert (Hn : forall x, 0 <= f x) by (intros; apply ind_nonneg).
  pose proof (msum_nonneg f (delete p (objs st)) Hn).
  pose proof (ind_nonneg (array_shape st) (shape o)). pose proof (count_in_nonneg ex (shape o)).
  split_and!.
  - intros q o' Hq Ho' E. pose proof (msum_elem f (delete p (objs st)) q o' Hn) as Hf.
    rewrite lookup_delete_ne in Hf by done. specialize (Hf Ho'). unfold f in Hf at 1.
    rewrite E, ind_eq in Hf. lia.
  - intros E. rewrite E, ind_eq in *. lia.
  - intros Hin. pose proof (count_in_pos ex (shape o) Hin). lia.
Qed.

(** ** The relation *)

Definition abs_obj (o : JSObject) (s : JSShape) : aobject :=
  mkA (class_id o) (extensible o) (is_exotic o) (fast_array o) (sh_proto s)
    (entries (sh_prop s) (prop o)) (values o).

(** The length of an array is the first entry. *)
Definition array_first (c : GcObjects.JSClassID) (ps : list JSShapeProperty) : Prop :=
  c = GcObjects.JS_CLASS_ARRAY -> exists l, atoms ps = JS_ATOM_length :: l.

Definition obj_ok (o : JSObject) (s : JSShape) : Prop :=
  prop_size s <= Z.of_nat (length (prop o))
  /\ (forall i pr, sh_prop s !! i = Some pr -> atom pr = 0 ->
       flags pr = 0 /\ prop o !! i = Some (PropValue JS_UNDEFINED))
  /\ array_first (class_id o) (sh_prop s).

Definition array_flags : Z := Z.lor JS_PROP_WRITABLE JS_PROP_LENGTH.

Record st_rel_out (st : shape_st) (A : astate) (ex : list Z) (out : Z) : Prop := {
  sr_shapes : shapes_rel st (users st ex) out;
  sr_live : forall a s, shapes st !! a = Some s -> 0 < users st ex a;
  sr_objs : forall p, match objs st !! p, a_objs A !! p with
    | Some o, Some ao => exists s, shapes st !! shape o = Some s /\ obj_ok o s /\ ao = abs_obj o s
    | None, None => True
    | _, _ => False
    end;
  sr_pos : forall p o, objs st !! p = Some o -> 0 < p;
  sr_array : match a_array A with
    | None => array_shape st = 0
    | Some q => array_shape st <> 0 /\ exists s, shapes st !! array_shape st = Some s
        /\ is_hashed s = true /\ sh_proto s = q
        /\ contents (sh_prop s) = [(JS_ATOM_length, array_flags)]
    end
}.

Abbreviation st_rel st A ex := (st_rel_out st A ex 0).

Lemma st_live st A ex : st_rel st A ex -> live_rel st (users st ex).
Proof. intros H. split; [apply H|]. by apply (sr_live _ _ _ _ H). Qed.

Lemma st_obj st A ex out p o : st_rel_out st A ex out -> objs st !! p = Some o ->
  exists s, shapes st !! shape o = Some s /\ obj_ok o s /\ a_objs A !! p = Some (abs_obj o s)
    /\ 0 < shape o /\ shape_ok s /\ sh_ref_count s = users st ex (shape o).
Proof.
  intros H Hp. pose proof (sr_objs _ _ _ _ H p) as Ho. rewrite Hp in Ho.
  destruct (a_objs A !! p) as [ao|]; [|done]. destruct Ho as (s & Hs & Hok & ->).
  exists s. destruct (sh_shape _ _ _ (sr_shapes _ _ _ _ H) _ s Hs) as (? & ? & ? & _).
  by split_and!.
Qed.

Lemma st_aobj st A ex out p ao : st_rel_out st A ex out -> a_objs A !! p = Some ao ->
  exists o s, objs st !! p = Some o /\ shapes st !! shape o = Some s /\ obj_ok o s
    /\ ao = abs_obj o s.
Proof.
  intros H Hp. pose proof (sr_objs _ _ _ _ H p) as Ho. rewrite Hp in Ho.
  destruct (objs st !! p) as [o|]; [|done]. destruct Ho as (s & ? & ? & ?). by exists o, s.
Qed.

(** The relation does not see how the users are counted. *)
Lemma shapes_rel_ext st us us' out : (forall a, us a = us' a) -> shapes_rel st us out ->
  shapes_rel st us' out.
Proof.
  intros E H. split; try apply H.
  - intros a s Ha. rewrite <- E. by apply (sh_shape _ _ _ H).
  - intros a. rewrite <- E. apply (sh_users _ _ _ H).
Qed.

Lemma users_same_objs st st' ex a : same_objs st st' -> users st' ex a = users st ex a.
Proof. intros [E1 E2]. unfold users. by rewrite E1, E2. Qed.

Lemma users_cons st ex a x : users st (a :: ex) x = us_add (users st ex) a 1 x.
Proof.
  unfold us_add, users. rewrite count_in_cons. destruct (decide (x = a)) as [->|Hne].
  - rewrite (ind_eq a). lia.
  - rewrite (ind_ne a x) by congruence. lia.
Qed.

Lemma users_drop st ex a x : us_add (users st (a :: ex)) a (-1) x = users st ex x.
Proof.
  unfold us_add. rewrite users_cons. unfold us_add. destruct (decide (x = a)); lia.
Qed.

(** The objects do not see changes of the shapes that keep the contents. *)
Lemma st_keeps st A ex st' ex' out out' : st_rel_out st A ex out ->
  shapes_rel st' (users st ex') out' ->
  (forall a s, shapes st' !! a = Some s -> 0 < users st ex' a) ->
  same_objs st st' -> keeps (fun x => users st ex' x <> 0) st st' ->
  st_rel_out st' A ex' out'.
Proof.
  intros Hst Hrel Hpos Hsame Hk. pose proof Hsame as [Eo Ea].
  assert (EU : forall a, users st ex' a = users st' ex' a) by (intros; by rewrite (users_same_objs st st')).
  split.
  - by eapply shapes_rel_ext.
  - intros a s Hs. rewrite <- EU. by eapply Hpos.
  - intros p. pose proof (sr_objs _ _ _ _ Hst p) as Ho. rewrite Eo.
    destruct (objs st !! p) as [o|] eqn:Hp, (a_objs A !! p) as [ao|]; try done.
    destruct Ho as (s & Hs & (Hsz & Hd & Hfst) & ->).
    destruct (Hk (shape o) s) as (s' & Hs' & E1 & E2 & E3 & _); [|done|].
    { pose proof (users_obj st ex' p o Hp). lia. }
    exists s'. split; [done|]. split.
    + split_and!; [by rewrite E3|by rewrite E1..].
    + unfold abs_obj. by rewrite E1, E2.
  - rewrite Eo. apply (sr_pos _ _ _ _ Hst).
  - pose proof (sr_array _ _ _ _ Hst) as Har. rewrite Ea. destruct (a_array A) as [q|]; [|done].
    destruct Har as (H0 & s & Hs & Hh & Hp & Hc).
    destruct (Hk (array_shape st) s) as (s' & Hs' & E1 & E2 & _ & E4 & _); [|done|].
    { pose proof (users_array st ex' H0). lia. }
    split; [done|]. exists s'. rewrite E1, E2, E4. done.
Qed.

Lemma st_live_keeps st A ex st' ex' us : st_rel st A ex -> live_rel st' us ->
  (forall x, us x = users st ex' x) -> same_objs st st' ->
  keeps (fun x => us x <> 0) st st' -> st_rel st' A ex'.
Proof.
  intros Hst [Hr Hp] EU Ho Hk. eapply st_keeps; [exact Hst|..].
  - by eapply shapes_rel_ext.
  - intros a s Hs. rewrite <- EU. by eapply Hp.
  - done.
  - eapply keeps_weaken; [|exact Hk]. intros x. cbv beta. by rewrite EU.
Qed.

Lemma st_mem st A ex out m : st_rel_out st A ex out -> st_rel_out (set_mem st m) A ex out.
Proof. intros [[] ? ? ? ?]. by split. Qed.

Lemma st_emit st A ex out l : st_rel_out st A ex out -> st_rel_out (emit st l) A ex out.
Proof. intros [[] ? ? ? ?]. by split. Qed.

(** ** One object changed *)

Lemma users_put_obj st ex p o o' a : objs st !! p = Some o ->
  users (put_obj st p o') ex a = users st ex a - ind (shape o) a + ind (shape o') a.
Proof.
  intros Hp. unfold users. cbn [objs put_obj set_objs array_shape].
  rewrite (msum_update _ _ _ _ _ Hp). lia.
Qed.

(** The object has another shape, or other values. *)
Lemma st_put_obj st A ex ex' out p o o' s' : st_rel_out st A ex out ->
  objs st !! p = Some o -> shapes st !! shape o' = Some s' -> obj_ok o' s' ->
  (forall x, ind (shape o') x + count_in ex' x = ind (shape o) x + count_in ex x) ->
  st_rel_out (put_obj st p o') (set_aobj A p (abs_obj o' s')) ex' out.
Proof.
  intros Hst Hp Hs' Hok Hex.
  assert (EU : forall x, users st ex x = users (put_obj st p o') ex' x).
  { intros x. rewrite (users_put_obj _ _ _ _ _ _ Hp). specialize (Hex x). unfold users. lia. }
  split.
  - eapply shapes_rel_ext; [exact EU|]. destruct (sr_shapes _ _ _ _ Hst). by split.
  - intros a s Ha. rewrite <- EU. by eapply (sr_live _ _ _ _ Hst).
  - intros q. cbn. destruct (decide (q = p)) as [->|Hne].
    + rewrite !lookup_insert_eq. by exists s'.
    + rewrite !lookup_insert_ne by done. apply (sr_objs _ _ _ _ Hst q).
  - intros q oq. cbn. destruct (decide (q = p)) as [->|Hne].
    + intros _. by eapply (sr_pos _ _ _ _ Hst).
    + rewrite lookup_insert_ne by done. apply (sr_pos _ _ _ _ Hst).
  - apply (sr_array _ _ _ _ Hst).
Qed.

(** The shape of one object replaced, at the same address or elsewhere. *)
Lemma shapes_replace st us out a s b s' : shapes_rel st us out ->
  shapes st !! a = Some s -> us a = 1 -> out = (if is_hashed s then a else 0) ->
  b = a \/ b ∉ dom (shapes st) -> 0 < b -> shape_ok s' -> sh_ref_count s' = 1 ->
  is_hashed s' = is_hashed s ->
  shapes_rel (put_shape (set_shapes st (delete a (shapes st))) b s')
    (us_add (us_add us a (-1)) b 1) (if is_hashed s then b else 0).
Proof.
  intros Hrel Ha H1 Hout Hb Hb0 Hok Href Eh.
  destruct (sh_shape _ _ _ Hrel a s Ha) as (Ha0 & _).
  assert (Hdel : shapes_rel (set_shapes st (delete a (shapes st))) (us_add us a (-1)) 0).
  { eapply shapes_del; [exact Hrel|exact Ha|..].
    - rewrite Hout. destruct (is_hashed s) eqn:E; [by intros [? _]|].
      intros [_ (s0 & Hs0 & E0)]. congruence.
    - intros x Hx. by apply us_add_ne.
    - rewrite us_add_eq. lia.
    - rewrite Hout. destruct (is_hashed s); by case_decide. }
  assert (Hnone : delete a (shapes st) !! b = None).
  { destruct Hb as [->|Hb]; [by rewrite lookup_delete_eq|].
    rewrite lookup_delete_ne; [by apply not_elem_of_dom|]. intros ->. by apply elem_of_dom_2 in Ha. }
  assert (Hub : us_add us a (-1) b = 0).
  { destruct (decide (us_add us a (-1) b = 0)) as [|Hne]; [done|].
    destruct (sh_users _ _ _ Hdel b Hne) as [s0 Hs0]. cbn in Hs0. congruence. }
  eapply shapes_put; [exact Hdel|..].
  - intros x Hx. by apply us_add_ne.
  - done.
  - done.
  - rewrite us_add_eq. lia.
  - rewrite us_add_eq. lia.
  - rewrite us_add_eq. lia.
  - right. split.
    + intros [_ (s0 & Hs0 & _)]. cbn in Hs0. congruence.
    + rewrite Eh. destruct (is_hashed s); [by right|left; split; [done|lia]].
  - destruct (is_hashed s); [right; by left|by left].
  - cbn. rewrite Hnone. unfold hashed_count. rewrite Eh.
    destruct (is_hashed s); [rewrite out_count_pos by lia|]; done.
Qed.

Lemma st_replace st A ex out p o s b s' o' : st_rel_out st A ex out ->
  objs st !! p = Some o -> shapes st !! shape o = Some s -> sh_ref_count s = 1 ->
  out = (if is_hashed s then shape o else 0) ->
  b = shape o \/ b ∉ dom (shapes st) -> 0 < b -> shape_ok s' -> sh_ref_count s' = 1 ->
  is_hashed s' = is_hashed s -> shape o' = b -> obj_ok o' s' ->
  st_rel_out (put_obj (put_shape (set_shapes st (delete (shape o) (shapes st))) b s') p o')
    (set_aobj A p (abs_obj o' s')) ex (if is_hashed s then b else 0).
Proof.
  intros Hst Hp Hs Href Hout Hb Hb0 Hok Href' Eh <- Hook.
  destruct (sh_shape _ _ _ (sr_shapes _ _ _ _ Hst) _ s Hs) as (Ha0 & _ & Hus & _).
  rewrite Href in Hus. symmetry in Hus.
  destruct (users_one st ex p o Hp ltac:(lia) Hus) as (Hothers & Harr & Hex).
  pose proof (shapes_replace st (users st ex) out (shape o) s (shape o') s'
    (sr_shapes _ _ _ _ Hst) Hs Hus Hout Hb Hb0 Hok Href' Eh) as Hrel.
  set (st1 := put_shape (set_shapes st (delete (shape o) (shapes st))) (shape o') s') in *.
  assert (EU : forall x, us_add (us_add (users st ex) (shape o) (-1)) (shape o') 1 x
    = users (put_obj st1 p o') ex x).
  { intros x. rewrite (users_put_obj st1 ex p o o' x Hp).
    change (users st1 ex x) with (users st ex x). unfold us_add, ind.
    repeat case_decide; subst; try done; lia. }
  (* the other shapes in use are at their place *)
  assert (Hkeep : forall a sa, a <> shape o -> shapes st !! a = Some sa -> shapes st1 !! a = Some sa).
  { intros a sa Hne Hsa. cbn. rewrite lookup_insert_ne.
    - by rewrite lookup_delete_ne.
    - intros <-. destruct Hb as [?|Hb]; [done|]. by apply elem_of_dom_2 in Hsa. }
  split.
  - eapply shapes_rel_ext; [exact EU|]. destruct Hrel. by split.
  - intros a sa Hsa. rewrite <- EU. cbn in Hsa. unfold us_add.
    destruct (decide (a = shape o')) as [->|Hne].
    + case_decide as E; [rewrite E; lia|].
      destruct Hb as [?|Hb]; [congruence|]. pose proof (users_objs_nonneg st (shape o')).
      unfold users. pose proof (count_in_nonneg ex (shape o')).
      pose proof (ind_nonneg (array_shape st) (shape o')). case_decide; lia.
    + rewrite lookup_insert_ne in Hsa by done.
      destruct (decide (a = shape o)) as [->|Hne2]; [by rewrite lookup_delete_eq in Hsa|].
      rewrite lookup_delete_ne in Hsa by done. by eapply (sr_live _ _ _ _ Hst).
  - intros q. cbn [objs put_obj set_objs a_objs set_aobj shapes].
    destruct (decide (q = p)) as [->|Hne].
    + rewrite !lookup_insert_eq. exists s'. split; [|done]. cbn. by rewrite lookup_insert_eq.
    + rewrite !lookup_insert_ne by done. pose proof (sr_objs _ _ _ _ Hst q) as Hq.
      cbn [objs st1 put_shape set_shapes].
      destruct (objs st !! q) as [oq|] eqn:Eq, (a_objs A !! q) as [aq|]; try done.
      destruct Hq as (sq & Hsq & ? & ?). exists sq. split; [|done].
      apply Hkeep; [by eapply Hothers|done].
  - intros q oq. cbn. destruct (decide (q = p)) as [->|Hne].
    + intros _. by eapply (sr_pos _ _ _ _ Hst).
    + rewrite lookup_insert_ne by done. apply (sr_pos _ _ _ _ Hst).
  - pose proof (sr_array _ _ _ _ Hst) as Har. cbn [a_array set_aobj array_shape put_obj set_objs].
    destruct (a_array A) as [q|]; [|done]. destruct Har as (H0 & sa & Hsa & Hrest).
    split; [done|]. exists sa. split; [|done]. by apply Hkeep.
Qed.
End rel.
