(* ===== verification/ShapeOpSpec.v ===== *)
(** * The operations that make room in a shape

    Unsharing, resizing and compaction of the shape of one object: the object
    and the other ones, which may share the shape, stay the same. *)

From stdpp Require Import base tactics numbers list option gmap.
From Stdlib Require Import ZArith Lia.
From S2P Require Import Prelude Values AtomsSpec Shapes ShapeTableSpec ShapeHashSpec ShapeLifeSpec ShapeMakeSpec ShapeRel.

Open Scope Z_scope.

Section ops.
Context {se : ShapeEngine} {ok : ShapeEngineOk se}.

Abbreviation st_rel st A ex := (st_rel_out st A ex 0).

Lemma set_aobj_id A p ao : a_objs A !! p = Some ao -> set_aobj A p ao = A.
Proof. intros H. unfold set_aobj. rewrite insert_id by done. by destruct A. Qed.

Lemma get_obj_Some st p o : objs st !! p = Some o -> get_obj st p = Ret o.
Proof. unfold get_obj. by intros ->. Qed.

(** ** The state after changes of the shapes and of one object *)

Lemma st_finish st A ex out stf ex' us out' p o o' s' (P : Z -> Prop) : st_rel_out st A ex out ->
  objs st !! p = Some o -> shapes_rel stf us out' ->
  (forall a s, shapes stf !! a = Some s -> 0 < us a) ->
  (forall x, us x = users st ex x - ind (shape o) x + ind (shape o') x + count_in ex' x - count_in ex x) ->
  objs stf = <[p := o']> (objs st) -> array_shape stf = array_shape st ->
  keeps P st stf -> (forall q oq, q <> p -> objs st !! q = Some oq -> P (shape oq)) ->
  (array_shape st <> 0 -> P (array_shape st)) ->
  shapes stf !! shape o' = Some s' -> obj_ok o' s' ->
  st_rel_out stf (set_aobj A p (abs_obj o' s')) ex' out'.
Proof.
  intros Hst Hp Hrel Hpos Hus Eo Ea Hk HPo HPa Hs' Hok.
  assert (EU : forall x, us x = users stf ex' x).
  { intros x. rewrite Hus. unfold users. rewrite Eo, Ea, (msum_update _ _ _ _ _ Hp). lia. }
  split.
  - by eapply shapes_rel_ext.
  - intros a s Ha. rewrite <- EU. by eapply Hpos.
  - intros q. cbn [a_objs set_aobj]. rewrite Eo. destruct (decide (q = p)) as [->|Hne].
    + rewrite !lookup_insert_eq. by exists s'.
    + rewrite !lookup_insert_ne by done. pose proof (sr_objs _ _ _ _ Hst q) as Hq.
      destruct (objs st !! q) as [oq|] eqn:Eq, (a_objs A !! q) as [aq|]; try done.
      destruct Hq as (sq & Hsq & (Hsz & Hd & Hfst) & ->).
      destruct (Hk (shape oq) sq) as (sq' & Hsq' & E1 & E2 & E3 & _); [by eapply HPo|done|].
      exists sq'. split; [done|]. split; [split_and!; [by rewrite E3|by rewrite E1..]|].
      unfold abs_obj. by rewrite E1, E2.
  - intros q oq. rewrite Eo. destruct (decide (q = p)) as [->|Hne].
    + intros _. by eapply (sr_pos _ _ _ _ Hst).
    + rewrite lookup_insert_ne by done. apply (sr_pos _ _ _ _ Hst).
  - pose proof (sr_array _ _ _ _ Hst) as Har. cbn [a_array set_aobj]. rewrite Ea.
    destruct (a_array A) as [q|]; [|done]. destruct Har as (H0 & s & Hs & Hh & Hpr & Hc).
    destruct (Hk (array_shape st) s) as (s2 & Hs2 & E1 & E2 & _ & E4 & _); [by apply HPa|done|].
    split; [done|]. exists s2. rewrite E1, E2, E4. done.
Qed.

(** The changes kept every shape that is still in use. *)
Lemma st_finish_used st A ex stf ex' us p o o' s' : st_rel st A ex ->
  objs st !! p = Some o -> live_rel stf us ->
  (forall x, us x = users st ex x - ind (shape o) x + ind (shape o') x + count_in ex' x - count_in ex x) ->
  objs stf = <[p := o']> (objs st) -> array_shape stf = array_shape st ->
  keeps (fun x => us x <> 0) st stf ->
  shapes stf !! shape o' = Some s' -> obj_ok o' s' ->
  st_rel stf (set_aobj A p (abs_obj o' s')) ex'.
Proof.
  intros Hst Hp [Hrel Hpos] Hus Eo Ea Hk Hs' Hok.
  assert (EU : forall x, us x = users stf ex' x).
  { intros x. rewrite Hus. unfold users. rewrite Eo, Ea, (msum_update _ _ _ _ _ Hp). lia. }
  eapply (st_finish st A ex 0 stf ex' us 0 p o o' s'); try done.
  - intros q oq Hq Hoq. cbv beta. rewrite EU.
    assert (Hq' : objs stf !! q = Some oq) by (by rewrite Eo, lookup_insert_ne).
    pose proof (users_obj stf ex' q oq Hq'). lia.
  - intros H0. cbv beta. rewrite EU, <- Ea. pose proof (users_array stf ex') as H. rewrite Ea in *. specialize (H H0). lia.
Qed.

(** The shape of the object, which no other one has, was changed in place. *)
Lemma st_finish_own st A ex out stf out' p o o' s s' : st_rel_out st A ex out ->
  objs st !! p = Some o -> shapes st !! shape o = Some s -> sh_ref_count s = 1 ->
  shapes_rel stf (users st ex) out' ->
  (forall a, is_Some (shapes stf !! a) -> is_Some (shapes st !! a)) ->
  shape o' = shape o -> objs stf = <[p := o']> (objs st) -> array_shape stf = array_shape st ->
  keeps (fun x => x <> shape o) st stf ->
  shapes stf !! shape o = Some s' -> obj_ok o' s' ->
  st_rel_out stf (set_aobj A p (abs_obj o' s')) ex out'.
Proof.
  intros Hst Hp Hs Href Hrel Hdom Esh Eo Ea Hk Hs' Hok.
  destruct (sh_shape _ _ _ (sr_shapes _ _ _ _ Hst) _ s Hs) as (H0 & _ & Hus & _).
  destruct (users_one st ex p o Hp) as (Hoth & Harr & _); [lia..|].
  eapply (st_finish st A ex out stf ex (users st ex) out' p o o' s'); try done.
  - intros a sa Ha. destruct (Hdom a) as [s0 Hs0]; [by eexists|]. by eapply (sr_live _ _ _ _ Hst).
  - intros x. rewrite Esh. lia.
  - by rewrite Esh.
Qed.

(** ** Unsharing *)

(** The same object, with the same contents in its shape. *)
Definition same_view (o : JSObject) (s : JSShape) (o' : JSObject) (s' : JSShape) : Prop :=
  o' = set_shape o (shape o') /\ sh_prop s' = sh_prop s /\ sh_proto s' = sh_proto s
  /\ prop_size s' = prop_size s /\ prop_hash s' = prop_hash s /\ prop_hash_mask s' = prop_hash_mask s
  /\ deleted_prop_count s' = deleted_prop_count s.

Lemma same_view_abs o s o' s' : same_view o s o' s' -> abs_obj o' s' = abs_obj o s.
Proof. intros (-> & E1 & E2 & _). unfold abs_obj. by rewrite E1, E2. Qed.

Lemma same_view_ok o s o' s' : same_view o s o' s' -> obj_ok o s -> obj_ok o' s'.
Proof. intros (-> & E1 & _ & E3 & _) (Hsz & Hd & Hfst). split_and!; [by rewrite E3|by rewrite E1..]. Qed.

(** What an operation that only prepares the shape of [p] gives. *)
Definition prepared (st st' : shape_st) (A : astate) (ex : list Z) (p : Z) (o : JSObject) (s : JSShape) : Prop :=
  st_rel st' A ex /\ (forall x, balance st' x = balance st x)
  /\ exists o' s', objs st' !! p = Some o' /\ shapes st' !! shape o' = Some s'
       /\ is_hashed s' = false /\ sh_ref_count s' = 1 /\ same_view o s o' s'.

Section prepare.
Context (st : shape_st) (A : astate) (ex : list Z) (p : Z) (o : JSObject) (s : JSShape).
Context (Hst : st_rel st A ex) (Hp : objs st !! p = Some o) (Hs : shapes st !! shape o = Some s).

Lemma own_abs : a_objs A !! p = Some (abs_obj o s) /\ obj_ok o s /\ shape_ok s
  /\ 0 < shape o /\ sh_ref_count s = users st ex (shape o).
Proof.
  destruct (st_obj _ _ _ _ _ _ Hst Hp) as (s0 & Hs0 & ? & ? & ? & ? & ?).
  rewrite Hs in Hs0. injection Hs0 as <-. by split_and!.
Qed.

(** The shape of one object leaves the table. *)
Lemma prepare_unhash : is_hashed s = true -> sh_ref_count s = 1 ->
  wp (let* st := js_shape_hash_unlink st (shape o) in
      let* s := get_shape st (shape o) in
      Ret (put_shape st (shape o) (set_is_hashed s false)))
    (fun st' => prepared st st' A ex p o s).
Proof.
  intros Eh E1. destruct own_abs as (Hao & Hook & Hok & Ha0 & Href).
  pose proof (st_live _ _ _ Hst) as Hlive.
  apply wp_bind. eapply wp_mono; [by apply (unlink_spec st _ _ s (lv_rel _ _ Hlive) Hs Eh)|].
  intros st1 [Hrel1 Hre1]. pose proof (relinked_same _ _ Hre1) as HS1.
  destruct (same_shape _ _ _ _ HS1 Hs) as (n & Hn). rewrite (get_shape_Some _ _ _ Hn). cbn [bind].
  apply wp_ret. set (s1 := set_is_hashed (set_hash_next s n) false).
  pose proof Hre1 as (_ & _ & Eo & Ear & _).
  assert (Hok1 : shape_ok s1) by (destruct Hok; by split).
  assert (Hrel2 : shapes_rel (put_shape st1 (shape o) s1) (users st ex) 0).
  { eapply shapes_put; [exact Hrel1|..]; try done.
    - lia.
    - lia.
    - right. split; [by intros [? _]|]. left. split; [done|lia].
    - right. by right.
    - rewrite Hn, out_count_0, out_count_pos by lia. unfold hashed_count. cbn. rewrite Eh. lia. }
  assert (Hst2 : st_rel (put_shape st1 (shape o) s1) (set_aobj A p (abs_obj o s1)) ex).
  { eapply (st_finish_own st A ex 0 _ 0 p o o s s1); try done.
    - intros a. cbn. destruct (decide (a = shape o)) as [->|Hne]; [by rewrite Hs|].
      rewrite lookup_insert_ne by done. intros [sa Hsa].
      destruct (same_shape_inv _ _ _ _ HS1 Hsa) as (s3 & -> & _). by eexists.
    - cbn. by rewrite Eo, insert_id.
    - eapply shape_keeps_trans; [by apply keeps_same|]. by apply keeps_put_other.
    - cbn. by rewrite lookup_insert_eq. }
  assert (Ev : same_view o s o s1) by (split_and!; try done; by destruct o).
  rewrite (same_view_abs _ _ _ _ Ev), set_aobj_id in Hst2 by done. split_and!.
  - done.
  - intros x. rewrite balance_put. unfold refs_at. rewrite Hn.
    change (shape_refs s1) with (shape_refs (set_hash_next s n)).
    rewrite (relinked_balance _ _ x Hre1). lia.
  - exists o, s1. change (objs (put_shape st1 (shape o) s1)) with (objs st1). rewrite Eo.
    split_and!; try done. cbn. by rewrite lookup_insert_eq.
Qed.

(** The users after the object went from its shape to the shape [b]. *)
Lemma us_moved us b x : us_add (us_add us b 1) (shape o) (-1) x = us x - ind (shape o) x + ind b x.
Proof. unfold us_add, ind. repeat case_decide; subst; try done; lia. Qed.

(** The object goes to a new shape with the contents of its shape. *)
Lemma move_spec st1 b s1 : same_objs st st1 -> keeps (fun _ => True) st st1 ->
  live_rel st1 (us_add (users st ex) b 1) -> b ∉ dom (shapes st) -> 0 < b ->
  shapes st1 !! b = Some s1 -> same_view o s (set_shape o b) s1 ->
  wp (let* st := js_free_shape st1 (shape o) in Ret (put_obj st p (set_shape o b)))
    (fun st' => st_rel st' A ex /\ (forall x, balance st' x = balance st1 x)
      /\ objs st' !! p = Some (set_shape o b)
      /\ exists s', shapes st' !! b = Some s' /\ is_hashed s' = is_hashed s1
           /\ sh_ref_count s' = 1 /\ same_view o s (set_shape o b) s').
Proof.
  intros [E1 E2] Hk1 Hl1 Hd Hb0 Hs1 Hv1.
  destruct own_abs as (Hao & Hook & Hok & Ha0 & Href). pose proof (st_live _ _ _ Hst) as Hlive.
  destruct (Hk1 (shape o) s I Hs) as (s2 & Hs2 & _).
  apply wp_bind. eapply wp_mono; [by apply (live_free st1 _ (shape o) s2 Hl1)|].
  intros st2 (Hl2 & [E3 E4] & Hk2 & Hb2).
  set (us2 := us_add (us_add (users st ex) b 1) (shape o) (-1)) in *.
  assert (Hbo : b <> shape o) by (intros ->; by apply Hd, elem_of_dom; eexists).
  assert (Eb : us2 b = 1).
  { unfold us2. rewrite us_add_ne, us_add_eq by done. rewrite (fresh_users st _ b Hlive); done. }
  destruct (Hk2 b s1 ltac:(cbv beta; lia) Hs1) as (s3 & Hs3 & Ec).
  apply wp_ret. set (o' := set_shape o b).
  destruct (sh_shape _ _ _ (lv_rel _ _ Hl2) b s3 Hs3) as (_ & Hok3 & Href3 & _).
  assert (Hview : same_view o s o' s3).
  { destruct Ec as (F1 & F2 & F3 & F4 & F5 & F6), Hv1 as (_ & G1 & G2 & G3 & G4 & G5 & G6).
    split_and!; try done; try congruence.
    rewrite (so_deleted _ Hok3), (so_deleted _ Hok), F1, G1. done. }
  assert (Hst3 : st_rel (put_obj st2 p o') (set_aobj A p (abs_obj o' s3)) ex).
  { eapply (st_finish_used st A ex _ ex us2 p o o' s3); try done.
    - by apply live_objs.
    - intros x. unfold us2. rewrite us_moved. cbn [shape o' set_shape]. lia.
    - cbn. by rewrite E3, E1.
    - cbn. by rewrite E4, E2.
    - eapply (shape_keeps_trans _ _ st1); [by eapply keeps_weaken; [|exact Hk1]|exact Hk2].
    - by eapply same_view_ok. }
  rewrite (same_view_abs _ _ _ _ Hview), set_aobj_id in Hst3 by done.
  split_and!; [done| |cbn; by rewrite lookup_insert_eq|].
  - intros x. change (balance (put_obj st2 p o') x) with (balance st2 x). by rewrite Hb2.
  - exists s3. split_and!; try done; [by destruct Ec as (_ & _ & _ & -> & _)|by rewrite Href3].
Qed.

Lemma clone_view b : same_view o s (set_shape o b) (set_is_hashed (set_ref_count s 1) false).
Proof. by split_and!. Qed.
End prepare.

Lemma prepare_spec st A ex p o s : st_rel st A ex -> objs st !! p = Some o ->
  shapes st !! shape o = Some s ->
  wp (js_shape_prepare_update st p) (fun '(st', r) =>
    (r = -1 /\ st_rel st' A ex /\ forall x, balance st' x = balance st x)
    \/ (r = 0 /\ prepared st st' A ex p o s)).
Proof.
  intros Hst Hp Hs. destruct (own_abs st A ex p o s Hst Hp Hs) as (Hao & Hook & Hok & Ha0 & Href).
  pose proof (st_live _ _ _ Hst) as Hlive.
  unfold js_shape_prepare_update. rewrite (get_obj_Some _ _ _ Hp). cbn [bind].
  rewrite (get_shape_Some _ _ _ Hs). cbn [bind]. destruct (is_hashed s) eqn:Eh.
  2:{ apply wp_ret. right. split; [done|]. split_and!; try done. exists o, s.
      split_and!; try done; [|by destruct o]. rewrite Href. by apply (unhashed_one _ _ _ s Hlive). }
  destruct (Z.eqb_spec (sh_ref_count s) 1) as [E1|Hne]; cbn [negb].
  - pose proof (prepare_unhash st A ex p o s Hst Hp Hs Eh E1) as Hw.
    destruct (js_shape_hash_unlink _ _) as [st1| |]; [|done..]. cbn [bind] in *.
    destruct (get_shape _ _) as [s1| |]; [|done..]. cbn [bind] in *. right. by split.
  - apply wp_bind. eapply wp_mono; [by apply (clone_spec st _ _ s Hlive Hs)|].
    intros [st1 b] [(Ho1 & Hk1 & Hb1 & Hcase) _].
    destruct Hcase as [[-> Hl1]|(Hfresh & Hb0 & Hl1 & s1 & Hs1 & ->)].
    + rewrite Z.eqb_refl. apply wp_ret. left. split_and!; [done| |done].
      eapply st_live_keeps; [exact Hst|exact Hl1|done|done|]. by eapply keeps_weaken; [|exact Hk1].
    + rewrite (proj2 (Z.eqb_neq b 0)) by lia.
      assert (Hd : b ∉ dom (shapes st)) by (unfold addresses in Hfresh; set_solver).
      pose proof (move_spec st A ex p o s Hst Hp Hs st1 b _ Ho1 Hk1 Hl1 Hd Hb0 Hs1 (clone_view o s b)) as Hw.
      destruct (js_free_shape _ _) as [st2| |]; [|done..]. cbn [bind wp] in *.
      destruct Hw as (Hst2 & Hb2 & Hp2 & s2 & Hs2 & Eh2 & Er2 & Hv2). right. split; [done|].
      split_and!; [done|intros x; by rewrite Hb2|]. by exists (set_shape o b), s2.
Qed.
End ops.
