(* ===== verification/ShapeAddSpec.v ===== *)
(** * New properties

    The resizing of the tables of a shape, and the three ways in which
    [add_property] finds the shape of the longer object: a shape of the table,
    a clone of a shared shape, the shape itself. *)

From stdpp Require Import base tactics numbers list option gmap.
From Stdlib Require Import ZArith Lia.
From S2P Require Import Prelude Values AtomsSpec Shapes ShapeTableSpec ShapeHashSpec ShapeLifeSpec ShapeMakeSpec ShapeRel ShapeOpSpec.

Open Scope Z_scope.

Section add.
Context {se : ShapeEngine} {ok : ShapeEngineOk se}.

Abbreviation st_rel st A ex := (st_rel_out st A ex 0).

(** ** Larger tables *)

Lemma put_obj_id st p o : objs st !! p = Some o -> put_obj st p o = st.
Proof. intros H. unfold put_obj, set_objs. rewrite insert_id by done. by destruct st. Qed.

Lemma set_prop_id o : set_prop o (prop o) = o.
Proof. by destruct o. Qed.

(** The values of the properties in use survive a reallocation. *)
Lemma realloc_props_spec st p o n : objs st !! p = Some o -> 0 <= n ->
  wp (realloc_props st p n) (fun '(st', r) => exists m vs,
    st' = put_obj (set_mem st m) p (set_prop o vs)
    /\ (r = false -> vs = prop o) /\ (r = true -> Z.of_nat (length vs) = n)
    /\ forall k, (k <= length (prop o))%nat -> Z.of_nat k <= n -> take k vs = take k (prop o)).
Proof.
  intros Hp Hn. unfold realloc_props. rewrite (get_obj_Some _ _ _ Hp). cbn [bind].
  destruct (js_realloc_array _ _) as [m [|]]; apply wp_ret.
  - exists m. eexists. split_and!; [reflexivity|done|intros _|].
    + rewrite length_app, length_take, length_replicate. lia.
    + intros k Hk Hkn. rewrite take_app_le by (rewrite length_take; lia).
      by rewrite take_take, Nat.min_l by lia.
  - exists m, (prop o). split_and!; [|done|done|done].
    by rewrite set_prop_id, put_obj_id.
Qed.

(** The shape [s] with a table for [n] properties. *)
Definition resized (s s' : JSShape) (n : Z) : Prop := exists mask t ps,
  s' = set_prop_size (set_table s mask t ps) n /\ table_ok mask t ps
  /\ atoms ps = atoms (sh_prop s) /\ flags <$> ps = flags <$> sh_prop s.

Lemma resized_self s n : shape_table_ok s -> resized s (set_prop_size s n) n.
Proof.
  intros H. exists (prop_hash_mask s), (prop_hash s), (sh_prop s). split_and!; [by destruct s|done..].
Qed.

(** The object and its shape after a resizing. *)
Definition resize_put (st : shape_st) (p : Z) (o : JSObject) m vs b s' : shape_st :=
  put_shape (set_shapes (put_obj (set_mem st m) p (set_prop o vs)) (delete (shape o) (shapes st))) b s'.

Lemma resize_properties_spec st p o s count : objs st !! p = Some o -> shapes st !! shape o = Some s ->
  shape_ok s -> 0 < shape o -> prop_size s <= Z.of_nat (length (prop o)) ->
  prop_size s < count < 2 ^ 26 ->
  wp (resize_properties st (shape o) (Some p) count) (fun '(st', r) => exists m vs,
    prop_size s <= Z.of_nat (length vs)
    /\ take (length (sh_prop s)) vs = take (length (sh_prop s)) (prop o)
    /\ match r with
       | None => st' = put_obj (set_mem st m) p (set_prop o vs)
       | Some b => (b = shape o \/ b ∉ dom (shapes st)) /\ 0 < b /\ exists s' n,
           count <= n <= 2 ^ 27 /\ Z.of_nat (length vs) = n /\ resized s s' n
           /\ st' = resize_put st p o m vs b s'
       end).
Proof.
  intros Hp Hs Hok Ha0 Hlen Hc. pose proof (so_table _ Hok) as Ht. pose proof (so_size _ Hok) as Hsz.
  unfold prop_count in Hsz.
  unfold resize_properties. rewrite (get_shape_Some _ _ _ Hs). cbn [bind].
  rewrite (proj2 (Z.leb_le _ INT32_MAX)) by (unfold INT32_MAX; lia). cbn [c_assert bind].
  assert (Hi : i32 count = count) by (apply i32_id; lia). rewrite Hi.
  set (n := Z.max count (prop_size s * 3 / 2)).
  assert (Hn : count <= n <= 2 ^ 27).
  { unfold n. assert (prop_size s * 3 / 2 <= 2 ^ 27); [|lia].
    apply Z.div_le_upper_bound; lia. }
  apply wp_bind. eapply wp_mono; [apply (realloc_props_spec st p o n Hp); lia|].
  intros [st1 r1] (m & vs & -> & Hf & Htr & Hk).
  assert (Hk' : take (length (sh_prop s)) vs = take (length (sh_prop s)) (prop o)) by (apply Hk; lia).
  destruct r1; cbn [negb].
  2:{ apply wp_ret. exists m, vs. specialize (Hf eq_refl). subst vs. by split_and!. }
  specialize (Htr eq_refl).
  destruct (to_mask _ _ _ Ht) as (k & Hkk & Emask).
  assert (H2k : 0 < 2 ^ k <= 2 ^ 27) by (split; [apply Z.pow_pos_nonneg; lia|apply Z.pow_le_mono_r; lia]).
  rewrite Emask. replace (2 ^ k - 1 + 1) with (2 ^ k) by lia. rewrite u32_id by lia.
  destruct (double_spec k n Hkk ltac:(lia) 33 ltac:(lia)) as (k' & -> & Hk1 & _ & Hk2). cbn [bind].
  assert (H2k' : 0 < 2 ^ k' <= 2 ^ 27) by (split; [apply Z.pow_pos_nonneg; lia|apply Z.pow_le_mono_r; lia]).
  destruct (Z.eqb_spec (2 ^ k') (2 ^ k)) as [E|Hne]; cbn [negb].
  - destruct (js_realloc _ _ _) as [m2 [b|]] eqn:Em; cycle 1.
    + apply wp_ret. exists m2, vs. split_and!; [lia|done|done].
    + destruct (js_realloc_fresh _ _ _ _ _ Ha0 Em) as [Hfresh Hb0].
      apply wp_ret. exists m2, vs. split_and!; [lia|done|..|].
      * destruct Hfresh as [|Hfr]; [by left|right]. unfold addresses in Hfr. cbn in Hfr. set_solver.
      * done.
      * exists (set_prop_size s n), n. split_and!; [lia|lia|done|by apply resized_self|done].
  - destruct (js_malloc _ _) as [m2 [b|]] eqn:Em; cycle 1.
    + apply wp_ret. exists m2, vs. split_and!; [lia|done|done].
    + destruct (js_malloc_fresh _ _ _ _ Em) as [Hfr Hb0]. rewrite u32_id by lia.
      apply wp_bind. eapply wp_mono.
      { apply (rehash_props_spec (2 ^ k' - 1) (sh_prop s) [] _ (table_empty k' ltac:(lia))).
        cbn. apply (to_count _ _ _ Ht). }
      intros [ps t] (Ht' & Ea & Ef). apply wp_ret. exists m2, vs. split_and!; [lia|done|..|].
      * right. unfold addresses in Hfr. cbn in Hfr. set_solver.
      * done.
      * eexists _, n. split_and!; [lia|lia|done| |reflexivity].
        exists (2 ^ k' - 1), t, ps. by split_and!.
Qed.
(** ** In and out of the table *)

Lemma st_relinked st A ex out st' out' : st_rel_out st A ex out -> relinked st st' ->
  shapes_rel st' (users st ex) out' -> st_rel_out st' A ex out'.
Proof.
  intros Hst Hre Hrel. pose proof Hre as (_ & _ & Eo & Ea & _). eapply st_keeps; [exact Hst|done|..].
  - intros a s Ha. destruct (same_shape_inv _ _ _ _ (relinked_same _ _ Hre) Ha) as (s0 & Hs0 & _).
    by eapply (sr_live _ _ _ _ Hst).
  - done.
  - by apply keeps_same, relinked_same.
Qed.

Lemma st_unlink st A ex a s : st_rel st A ex -> shapes st !! a = Some s -> is_hashed s = true ->
  wp (js_shape_hash_unlink st a) (fun st' => st_rel_out st' A ex a /\ relinked st st').
Proof.
  intros Hst Hs Hh. eapply wp_mono; [by apply (unlink_spec st _ a s (sr_shapes _ _ _ _ Hst))|].
  intros st' [Hrel Hre]. split; [|done]. by eapply st_relinked.
Qed.

Lemma st_link st A ex a s : st_rel_out st A ex a -> shapes st !! a = Some s -> is_hashed s = true ->
  wp (js_shape_hash_link st a) (fun st' => st_rel st' A ex /\ relinked st st').
Proof.
  intros Hst Hs Hh. eapply wp_mono; [by apply (link_spec st _ a s (sr_shapes _ _ _ _ Hst))|].
  intros st' [Hrel Hre]. split; [|done]. by eapply st_relinked.
Qed.

(** Linking does not see the entries of the shape, nor the objects. *)
Lemma link_commute st p o' b s1 s2 Q : shapes st !! b = Some s1 -> sh_hash s2 = sh_hash s1 ->
  wp (js_shape_hash_link (put_obj (put_shape st b s2) p o') b) Q ->
  wp (js_shape_hash_link st b) (fun st' => exists n, shapes st' !! b = Some (set_hash_next s1 n)
    /\ objs st' = objs st /\ Q (put_obj (put_shape st' b (set_hash_next s2 n)) p o')).
Proof.
  intros Hs Eh. unfold js_shape_hash_link.
  rewrite (get_shape_Some _ _ _ Hs), (get_shape_Some (put_obj _ _ _) b s2) by (cbn; by rewrite lookup_insert_eq).
  cbn [bind rt_shape_hash shape_hash_bits put_obj put_shape set_objs set_shapes]. rewrite Eh.
  destruct (rd _ _) as [n| |]; [|done..]. cbn [bind].
  destruct (wr _ _ _) as [T| |]; [|done..]. cbn [bind wp]. intros HQ. exists n. split_and!.
  - cbn. by rewrite lookup_insert_eq.
  - done.
  - unfold put_obj, put_shape, set_objs, set_shapes, set_shape_hash in *. cbn in *.
    by rewrite insert_insert_eq in HQ |- *.
Qed.

(** ** The last entry *)

(** The shape with one entry more. *)
Definition push_prop (s : JSShape) (a fl : Z) : JSShape :=
  let h := Z.land a (prop_hash_mask s) in
  mkShape (sh_ref_count s) (is_hashed s) (has_small_array_index s || Atoms.__JS_AtomIsTaggedInt a)
    (sh_hash s) (prop_hash_mask s) (prop_size s) (deleted_prop_count s) (shape_hash_next s)
    (sh_proto s) (<[Z.to_nat h := prop_count s + 1]> (prop_hash s))
    (sh_prop s ++ [mkShapeProp (u26 (last_in (prop_hash_mask s) h (atoms (sh_prop s)))) (u6 fl) a]).

(** The hash of the longer shape, if the shape is in the table. *)
Definition push_hash (s : JSShape) (a fl : Z) : JSShape :=
  if is_hashed s then set_hash s (shape_hash (shape_hash (sh_hash s) a) fl) else s.

Lemma live_names_atoms ps ps' : atoms ps = atoms ps' -> live_names ps = live_names ps'.
Proof. unfold live_names. by intros ->. Qed.

Lemma contents_eq ps ps' : atoms ps = atoms ps' -> flags <$> ps = flags <$> ps' ->
  contents ps = contents ps'.
Proof.
  revert ps'. induction ps as [|pr ps IH]; intros [|pr' ps'] Ea Ef; try done.
  injection Ea as Ea Ea'. injection Ef as Ef Ef'. unfold contents in *. cbn.
  by rewrite Ea, Ef, (IH ps').
Qed.

Lemma atoms_length ps : length (atoms ps) = length ps.
Proof. apply length_fmap. Qed.

Lemma same_atoms_length ps ps' : atoms ps = atoms ps' -> length ps = length ps'.
Proof. intros E. by rewrite <- atoms_length, E, atoms_length. Qed.

Lemma resized_ok s s' n : shape_ok s -> resized s s' n -> prop_size s <= n <= 2 ^ 27 -> shape_ok s'.
Proof.
  intros [H1 H2 H3 H4 H5] (mask & t & ps & -> & Ht & Ea & Ef) Hn.
  pose proof (same_atoms_length _ _ Ea). split; cbn.
  - done.
  - change (NoDup (live_names ps)). by rewrite (live_names_atoms _ _ Ea).
  - unfold prop_count in *. cbn. lia.
  - change (deleted_prop_count s = Z.of_nat (length (deleted ps))).
    by rewrite H4, (deleted_same (sh_prop s) ps).
  - change (is_hashed s = true -> deleted ps = [] /\ sh_hash s = content_hash (sh_proto s) ps).
    intros Hh. destruct (H5 Hh) as [Hd Ec]. split.
    + apply nil_length_inv. by rewrite (deleted_same (sh_prop s) ps), Hd.
    + rewrite Ec. by apply contents_hash, contents_eq.
Qed.

Lemma u6_id fl : 0 <= fl < 64 -> u6 fl = fl.
Proof. apply Z.mod_small. Qed.

Lemma push_ok s a fl : shape_ok s -> a <> 0 -> (a ∉ atoms (sh_prop s)) -> 0 <= fl < 64 ->
  prop_count s < prop_size s -> prop_count s + 1 < 2 ^ 26 -> shape_ok (push_prop (push_hash s a fl) a fl).
Proof.
  intros [H1 H2 H3 H4 H5] Ha Hna Hfl Hsz Hc.
  assert (E : sh_prop (push_hash s a fl) = sh_prop s /\ prop_hash_mask (push_hash s a fl) = prop_hash_mask s
    /\ prop_hash (push_hash s a fl) = prop_hash s /\ prop_size (push_hash s a fl) = prop_size s
    /\ deleted_prop_count (push_hash s a fl) = deleted_prop_count s /\ sh_proto (push_hash s a fl) = sh_proto s
    /\ is_hashed (push_hash s a fl) = is_hashed s) by (unfold push_hash; by destruct (is_hashed s) eqn:?).
  destruct E as (E1 & E2 & E3 & E4 & E5 & E6 & E7).
  split; unfold shape_table_ok, prop_count in *;
    cbn [push_prop prop_hash_mask prop_hash sh_prop prop_size deleted_prop_count sh_proto is_hashed sh_hash];
    unfold prop_count; rewrite ?E1, ?E2, ?E3, ?E4, ?E5, ?E6, ?E7.
  - apply table_snoc; [done|done|lia].
  - unfold live_names, atoms. rewrite fmap_app, filter_app. cbn [fmap list_fmap atom].
    rewrite filter_cons_True by done. apply NoDup_app. split_and!; [done| |apply NoDup_singleton].
    intros x [_ Hx]%list_elem_of_filter ->%list_elem_of_singleton. done.
  - rewrite length_app. cbn. lia.
  - unfold deleted in *. rewrite filter_app, filter_cons_False by done. rewrite app_nil_r. done.
  - intros Hh. destruct (H5 Hh) as [Hd Ec]. split.
    + unfold deleted in *. rewrite filter_app, filter_cons_False by done. by rewrite app_nil_r.
    + unfold push_hash. rewrite Hh. cbn [sh_hash set_hash]. rewrite content_hash_snoc, <- Ec.
      cbn [atom flags]. by rewrite u6_id.
Qed.

(** The writes of the new entry. *)
Lemma push_run st b s a fl : shapes st !! b = Some s -> shape_table_ok s -> prop_count s < prop_size s ->
  (let* s := get_shape st b in
   let* _ := c_assert (prop_count s <? prop_size s) in
   let* n := rd (prop_hash s) (Z.land a (prop_hash_mask s)) in
   let* t := wr (prop_hash s) (Z.land a (prop_hash_mask s)) (prop_count s + 1) in
   Ret (emit (put_shape st b (mkShape (sh_ref_count s) (is_hashed s)
     (has_small_array_index s || Atoms.__JS_AtomIsTaggedInt a) (sh_hash s)
     (prop_hash_mask s) (prop_size s) (deleted_prop_count s) (shape_hash_next s)
     (sh_proto s) t (sh_prop s ++ [mkShapeProp (u26 n) (u6 fl) a]))) [Dup (RefAtom a)], Some b))
  = Ret (emit (put_shape st b (push_prop s a fl)) [Dup (RefAtom a)], Some b).
Proof.
  intros Hs Ht Hc. rewrite (get_shape_Some _ _ _ Hs). cbn [bind].
  rewrite (proj2 (Z.ltb_lt _ _)) by done. cbn [c_assert bind].
  rewrite (table_head _ _ _ a Ht). cbn [bind].
  pose proof (land_mask _ a (to_mask _ _ _ Ht)). pose proof (to_length _ _ _ Ht).
  rewrite wr_in by lia. done.
Qed.
(** ** The property added to a shape with one user *)

Definition a_push (ao : aobject) (e : entry) : aobject :=
  mkA (a_class ao) (a_extensible ao) (a_exotic ao) (a_fast ao) (a_proto ao)
    (a_props ao ++ [e]) (a_values ao).

Lemma resize_put_id st p o s : objs st !! p = Some o -> shapes st !! shape o = Some s ->
  resize_put st p o (mem st) (prop o) (shape o) s = st.
Proof.
  intros Hp Hs. unfold resize_put. rewrite set_prop_id.
  unfold put_obj, put_shape, set_objs, set_shapes, set_mem. cbn.
  rewrite (insert_id (objs st)) by done. rewrite insert_delete_id by done. by destruct st.
Qed.

Section grown.
Context (st : shape_st) (A : astate) (ex : list Z) (p : Z) (o : JSObject) (s : JSShape) (a fl : Z).
Context (Hp : objs st !! p = Some o) (Hs : shapes st !! shape o = Some s).
Context (Ha : a <> 0) (Hfl : 0 <= fl < 64) (Hna : a ∉ atoms (sh_prop s)).
Context (Hcount : prop_count s + 1 < 2 ^ 26) (Hok : shape_ok s) (Hook : obj_ok o s).
Context (Ha0 : 0 < shape o) (Href : sh_ref_count s = 1).

(** There is room for one more entry, in the shape [s'] at [b]. *)
Definition room (vs : list JSProperty) (b : Z) (s' : JSShape) : Prop :=
  (b = shape o \/ b ∉ dom (shapes st)) /\ 0 < b /\
  exists n, prop_count s < n <= 2 ^ 27 /\ prop_size s <= n <= Z.of_nat (length vs) /\ resized s s' n.

Lemma room_spec :
  wp (if prop_size s <=? prop_count s then resize_properties st (shape o) (Some p) (prop_count s + 1)
      else Ret (st, Some (shape o)))
    (fun '(st', r) => exists m vs, prop_size s <= Z.of_nat (length vs)
      /\ take (length (sh_prop s)) vs = take (length (sh_prop s)) (prop o)
      /\ match r with
         | None => st' = put_obj (set_mem st m) p (set_prop o vs)
         | Some b => exists s', room vs b s' /\ st' = resize_put st p o m vs b s'
         end).
Proof.
  pose proof (so_size _ Hok) as Hsz. destruct Hook as [Hlen _].
  destruct (Z.leb_spec (prop_size s) (prop_count s)) as [Hle|Hgt].
  - eapply wp_mono; [apply (resize_properties_spec st p o s _ Hp Hs Hok Ha0 Hlen); lia|].
    intros [st' [b|]] (m & vs & Hl & Htk & Hr); exists m, vs; split_and!; try done.
    destruct Hr as (Hb & Hb0 & s' & n & Hn & Hv & Hrz & ->). exists s'. split; [|done].
    split_and!; [done|done|]. exists n. split_and!; [lia|lia|lia|lia|done].
  - apply wp_ret. exists (mem st), (prop o). split_and!; [done|done|]. exists s.
    rewrite resize_put_id by done. split; [|done]. split_and!; [by left|done|].
    exists (prop_size s). split_and!; [lia|lia|done|done|].
    assert (set_prop_size s (prop_size s) = s) as E by by destruct s.
    rewrite <- E at 2. apply resized_self, Hok.
Qed.

Lemma resized_fields s' n : resized s s' n ->
  atoms (sh_prop s') = atoms (sh_prop s) /\ flags <$> sh_prop s' = flags <$> sh_prop s
  /\ prop_size s' = n /\ sh_proto s' = sh_proto s /\ is_hashed s' = is_hashed s
  /\ sh_ref_count s' = sh_ref_count s /\ shape_table_ok s' /\ sh_hash s' = sh_hash s.
Proof. intros (mask & t & ps & -> & Ht & Ea & Ef). by split_and!. Qed.

Definition grown_shape (s' : JSShape) : JSShape := push_prop (push_hash s' a fl) a fl.
Definition grown_obj (vs : list JSProperty) (b : Z) : JSObject := set_shape (set_prop o vs) b.

Lemma push_hash_fields s' : sh_prop (push_hash s' a fl) = sh_prop s'
  /\ sh_proto (push_hash s' a fl) = sh_proto s' /\ prop_size (push_hash s' a fl) = prop_size s'
  /\ is_hashed (push_hash s' a fl) = is_hashed s' /\ sh_ref_count (push_hash s' a fl) = sh_ref_count s'.
Proof. unfold push_hash. by destruct (is_hashed s') eqn:?. Qed.

Lemma grown_abs vs b s' : room vs b s' ->
  take (length (sh_prop s)) vs = take (length (sh_prop s)) (prop o) ->
  obj_ok (grown_obj vs b) (grown_shape s')
  /\ exists v, vs !! length (sh_prop s) = Some v
     /\ abs_obj (grown_obj vs b) (grown_shape s') = a_push (abs_obj o s) (a, fl, v)
     /\ exists pr, sh_prop (grown_shape s') !! length (sh_prop s) = Some pr /\ atom pr = a
        /\ prop_count (grown_shape s') = prop_count s + 1.
Proof.
  intros (_ & _ & n & Hn & Hv & Hrz) Htk. unfold prop_count in *.
  destruct (resized_fields _ _ Hrz) as (Ea & Ef & Esz & Ep & _).
  destruct (push_hash_fields s') as (E1 & E2 & E3 & _). pose proof (same_atoms_length _ _ Ea) as El.
  assert (Eps : sh_prop (grown_shape s') = sh_prop s' ++ [mkShapeProp (u26 (last_in (prop_hash_mask (push_hash s' a fl))
    (Z.land a (prop_hash_mask (push_hash s' a fl))) (atoms (sh_prop (push_hash s' a fl))))) (u6 fl) a]).
  { unfold grown_shape, push_prop. cbn [sh_prop]. by rewrite E1. }
  destruct (lookup_lt_is_Some_2 vs (length (sh_prop s))) as [v Hvv]; [lia|].
  destruct Hook as (_ & Hd & Hfst). split; [|exists v; split_and!; [done|..]].
  - split_and!; cycle 2.
    { intros E. destruct (Hfst E) as [l El0]. rewrite Eps. unfold atoms in *. rewrite fmap_app, Ea, El0.
      by eexists. }
    + change (prop_size (grown_shape s')) with (prop_size (push_hash s' a fl)).
      cbn [prop grown_obj set_shape set_prop]. lia.
    + intros i pr. rewrite Eps. cbn [prop grown_obj set_shape set_prop]. intros Hpr E0.
      destruct (decide (i < length (sh_prop s'))%nat) as [Hi|Hi].
      * rewrite lookup_app_l in Hpr by done.
        destruct (lookup_lt_is_Some_2 (sh_prop s) i) as [pr0 Hpr0]; [lia|].
        assert (G1 : atoms (sh_prop s') !! i = atoms (sh_prop s) !! i) by by rewrite Ea.
        assert (G2 : (flags <$> sh_prop s') !! i = (flags <$> sh_prop s) !! i) by by rewrite Ef.
        rewrite !atoms_lookup, Hpr, Hpr0 in G1. rewrite !list_lookup_fmap, Hpr, Hpr0 in G2.
        injection G1 as G1. injection G2 as G2.
        destruct (Hd i pr0 Hpr0) as [F1 F2]; [congruence|]. split; [congruence|].
        rewrite <- F2. assert (take (length (sh_prop s)) vs !! i = take (length (sh_prop s)) (prop o) !! i) as G
          by by rewrite Htk. by rewrite !lookup_take, !decide_True in G by lia.
      * pose proof (lookup_lt_Some _ _ _ Hpr) as Hi2. rewrite length_app in Hi2. cbn in Hi2.
        assert (i = length (sh_prop s')) as -> by lia. rewrite list_lookup_middle in Hpr by done.
        by injection Hpr as <-.
  - unfold abs_obj, a_push. cbn [grown_obj set_shape set_prop class_id extensible is_exotic fast_array values
      prop a_class a_extensible a_exotic a_fast a_proto a_props a_values]. f_equal.
    + change (sh_proto (grown_shape s')) with (sh_proto (push_hash s' a fl)). congruence.
    + rewrite Eps, entries_app, El. f_equal.
      * rewrite (entries_same (sh_prop s) (sh_prop s') vs) by done. by apply entries_ext.
      * rewrite (drop_S vs v) by done. cbn [entries atom flags].
        by rewrite (proj2 (Z.eqb_neq _ _) Ha), u6_id.
  - eexists. rewrite Eps. split_and!; [by rewrite <- El, list_lookup_middle|done|].
    rewrite length_app, El. cbn. lia.
Qed.

Lemma atom_refs_atoms ps : atom_refs ps = RefAtom <$> atoms ps.
Proof. unfold atom_refs, atoms. by rewrite list_fmap_compose. Qed.

Lemma grown_refs s' n x : resized s s' n ->
  count_item x (shape_refs (grown_shape s'))
  = count_item x (shape_refs s) + (if decide (RefAtom a = x) then 1 else 0).
Proof.
  intros Hrz. destruct (resized_fields _ _ Hrz) as (Ea & _ & _ & Ep & _).
  destruct (push_hash_fields s') as (E1 & E2 & _).
  unfold shape_refs. rewrite !count_item_app, !atom_refs_atoms.
  change (sh_proto (grown_shape s')) with (sh_proto (push_hash s' a fl)). rewrite E2, Ep.
  assert (atoms (sh_prop (grown_shape s')) = atoms (sh_prop s) ++ [a]) as ->.
  { unfold grown_shape, push_prop. cbn [sh_prop]. unfold atoms at 1. rewrite fmap_app.
    rewrite E1. fold (atoms (sh_prop s')). by rewrite Ea. }
  rewrite fmap_app, count_item_app. cbn. lia.
Qed.

Lemma grown_rel out m vs b s' : st_rel_out st A ex out -> out = (if is_hashed s then shape o else 0) ->
  room vs b s' -> take (length (sh_prop s)) vs = take (length (sh_prop s)) (prop o) ->
  let X := put_obj (put_shape (resize_put st p o m vs b s') b (grown_shape s')) p (grown_obj vs b) in
  st_rel_out X (set_aobj A p (abs_obj (grown_obj vs b) (grown_shape s'))) ex (if is_hashed s then b else 0)
  /\ forall x, balance X x = balance st x - (if decide (RefAtom a = x) then 1 else 0).
Proof.
  intros Hst Hout Hroom Htk X. destruct (grown_abs vs b s' Hroom Htk) as [Hook' _].
  destruct Hroom as (Hb & Hb0 & n & Hn & Hv & Hrz).
  destruct (resized_fields _ _ Hrz) as (Ea & _ & Esz & _ & Eh & Er & _).
  destruct (push_hash_fields s') as (_ & _ & _ & E4 & E5).
  set (stm := set_mem st m).
  assert (EX : X = put_obj (put_shape (set_shapes stm (delete (shape o) (shapes stm))) b (grown_shape s'))
    p (grown_obj vs b)).
  { unfold X, resize_put, put_obj, put_shape, set_objs, set_shapes. cbn. by rewrite !insert_insert_eq. }
  assert (Hok' : shape_ok (grown_shape s')).
  { pose proof (same_atoms_length _ _ Ea). unfold prop_count in *. apply push_ok; unfold prop_count; try done.
    - eapply resized_ok; [exact Hok|exact Hrz|lia].
    - by rewrite Ea.
    - lia.
    - lia. }
  split.
  - rewrite EX. apply (st_replace stm A ex out p o s b (grown_shape s')); try done.
    + by apply st_mem.
    + change (sh_ref_count (grown_shape s')) with (sh_ref_count (push_hash s' a fl)). congruence.
    + change (is_hashed (grown_shape s')) with (is_hashed (push_hash s' a fl)). congruence.
  - intros x. rewrite EX.
    change (balance (put_obj ?S _ _) x) with (balance S x). rewrite balance_put, balance_del.
    assert (refs_at (shapes (set_shapes stm (delete (shape o) (shapes stm)))) b x = 0) as ->.
    { unfold refs_at. cbn. destruct Hb as [->|Hb]; [by rewrite lookup_delete_eq|].
      destruct (decide (b = shape o)) as [->|Hne]; [by rewrite lookup_delete_eq|].
      rewrite lookup_delete_ne by done. by rewrite (proj1 (not_elem_of_dom _ _) Hb). }
    change (balance stm x) with (balance st x). unfold refs_at. cbn [stm shapes set_mem]. rewrite Hs.
    rewrite (grown_refs s' n x Hrz). lia.
Qed.

(** ** [add_property] on a shape with one user *)

(** The property [a] was added at the index [i]. *)
Definition added (st' : shape_st) (i : Z) : Prop :=
  (exists v, st_rel st' (set_aobj A p (a_push (abs_obj o s) (a, fl, v))) ex)
  /\ i = prop_count s /\ (forall x, balance st' x = balance st x)
  /\ exists o' s' pr v, objs st' !! p = Some o' /\ shapes st' !! shape o' = Some s'
      /\ sh_prop s' !! Z.to_nat i = Some pr /\ atom pr = a /\ prop o' !! Z.to_nat i = Some v.

(** The object with a larger array of values is the same. *)
Lemma larger_rel out m vs : st_rel_out st A ex out ->
  prop_size s <= Z.of_nat (length vs) ->
  take (length (sh_prop s)) vs = take (length (sh_prop s)) (prop o) ->
  st_rel_out (put_obj (set_mem st m) p (set_prop o vs)) A ex out.
Proof.
  intros Hst Hv Htk. pose proof Hook as (_ & Hd & Hfst).
  assert (Eabs : abs_obj (set_prop o vs) s = abs_obj o s).
  { unfold abs_obj. cbn. f_equal. by apply entries_ext. }
  assert (Hst' : st_rel_out (put_obj (set_mem st m) p (set_prop o vs))
    (set_aobj A p (abs_obj (set_prop o vs) s)) ex out).
  { apply (st_put_obj _ A ex ex out p o); try done; [by apply st_mem|].
    split_and!; [done| |done]. intros i pr Hpr E0. destruct (Hd i pr Hpr E0) as [? Hi]. split; [done|].
    rewrite <- Hi. cbn. apply lookup_lt_Some in Hpr.
    assert (take (length (sh_prop s)) vs !! i = take (length (sh_prop s)) (prop o) !! i) as G
      by by rewrite Htk. by rewrite !lookup_take, !decide_True in G by lia. }
  rewrite Eabs, set_aobj_id in Hst'; [done|].
  destruct (st_obj _ _ _ _ _ _ Hst Hp) as (s0 & Hs0 & _ & -> & _). congruence.
Qed.

(** The link of the longer shape and the writes of its entry. *)
Lemma grown_link out m vs b s' : st_rel_out st A ex out -> out = (if is_hashed s then shape o else 0) ->
  room vs b s' -> take (length (sh_prop s)) vs = take (length (sh_prop s)) (prop o) ->
  let st2 := resize_put st p o m vs b s' in
  wp (if is_hashed s
      then let* s2 := get_shape st2 b in
           js_shape_hash_link (put_shape st2 b (set_hash s2 (shape_hash (shape_hash (sh_hash s) a) fl))) b
      else Ret st2)
    (fun st3 => exists sp, shapes st3 !! b = Some sp /\ shape_table_ok sp
      /\ prop_count sp < prop_size sp /\ objs st3 = objs st2
      /\ (exists n, push_prop sp a fl = set_hash_next (grown_shape s') n)
      /\ let X := put_obj (put_shape st3 b (push_prop sp a fl)) p (grown_obj vs b) in
         st_rel X (set_aobj A p (abs_obj (grown_obj vs b) (grown_shape s'))) ex
         /\ forall x, balance X x = balance st x - (if decide (RefAtom a = x) then 1 else 0)).
Proof.
  intros Hst Hout Hroom Htk st2.
  destruct (grown_rel out m vs b s' Hst Hout Hroom Htk) as [Hrel Hbal]. fold st2 in Hrel, Hbal.
  destruct Hroom as (Hb & Hb0 & n & Hn & Hv & Hrz).
  destruct (resized_fields _ _ Hrz) as (Ea & _ & Esz & _ & Eh & Er & Ht' & Ehash).
  pose proof (same_atoms_length _ _ Ea) as El. unfold prop_count in *.
  assert (Hs2 : shapes st2 !! b = Some s') by (cbn; by rewrite lookup_insert_eq).
  unfold grown_shape, push_hash in *. rewrite Eh in *. destruct (is_hashed s) eqn:Ehs.
  - rewrite (get_shape_Some _ _ _ Hs2). cbn [bind]. rewrite <- Ehash.
    set (sh := set_hash s' _) in *. set (st3 := put_shape st2 b sh).
    assert (EX : put_obj (put_shape st2 b (push_prop sh a fl)) p (grown_obj vs b)
      = put_obj (put_shape st3 b (push_prop sh a fl)) p (grown_obj vs b)).
    { unfold st3, put_obj, put_shape, set_objs, set_shapes. cbn. by rewrite !insert_insert_eq. }
    rewrite EX in Hrel, Hbal.
    eapply wp_mono.
    { apply (link_commute st3 p (grown_obj vs b) b sh (push_prop sh a fl)
        (fun st' => st_rel st' (set_aobj A p (abs_obj (grown_obj vs b) (push_prop sh a fl))) ex
           /\ forall x, balance st' x = balance st x - (if decide (RefAtom a = x) then 1 else 0))).
      - cbn. by rewrite lookup_insert_eq.
      - done.
      - eapply wp_mono; [apply (st_link _ _ _ b (push_prop sh a fl) Hrel); [cbn; by rewrite lookup_insert_eq|done]|].
        intros st' [Hst' Hre]. split; [done|]. intros x. by rewrite (relinked_balance _ _ x Hre). }
    cbv beta. intros st' (k & Hsh & Eo & Hst' & Hb'). exists (set_hash_next sh k). split_and!; try done.
    + cbn. lia.
    + by exists k.
  - apply wp_ret. exists s'. split_and!; try done; [lia|]. exists (shape_hash_next s'). done.
Qed.

Lemma added_of_grown st' vs b s' sp : room vs b s' ->
  take (length (sh_prop s)) vs = take (length (sh_prop s)) (prop o) ->
  st_rel st' (set_aobj A p (abs_obj (grown_obj vs b) (grown_shape s'))) ex ->
  (forall x, balance st' x = balance st x) ->
  (exists n, sp = set_hash_next (grown_shape s') n) -> objs st' !! p = Some (grown_obj vs b) ->
  shapes st' !! b = Some sp -> prop_count sp - 1 = prop_count s /\ added st' (prop_count s).
Proof.
  intros Hroom Htk Hst' Hb [k ->] Hp' Hs'.
  destruct (grown_abs vs b s' Hroom Htk) as (_ & v & Hv & Eabs & pr & Hpr & Epr & Ec).
  unfold prop_count in *. split; [cbn in *; lia|]. split_and!; [|done|done|].
  - exists v. by rewrite <- Eabs.
  - rewrite Nat2Z.id. exists (grown_obj vs b), (set_hash_next (grown_shape s') k), pr, v. by split_and!.
Qed.
End grown.

Lemma add_to_shape_spec st A ex p o s a fl : st_rel st A ex ->
  objs st !! p = Some o -> shapes st !! shape o = Some s -> sh_ref_count s = 1 ->
  a <> 0 -> 0 <= fl < 64 -> (a ∉ atoms (sh_prop s)) -> prop_count s + 1 < 2 ^ 26 ->
  wp (add_to_shape st p a fl) (fun '(st', r) => match r with
    | None => st_rel st' A ex /\ forall x, balance st' x = balance st x
    | Some i => added st A ex p o s a fl st' i
    end).
Proof.
  intros Hst Hp Hs Href Ha Hfl Hna Hcount.
  destruct (own_abs st A ex p o s Hst Hp Hs) as (Hao & Hook & Hok & Ha0 & _).
  unfold add_to_shape. rewrite (get_obj_Some _ _ _ Hp). cbn [bind].
  rewrite (get_shape_Some _ _ _ Hs). cbn [bind]. rewrite Href, Z.eqb_refl. cbn [c_assert bind].
  unfold add_shape_property. rewrite (get_shape_Some _ _ _ Hs). cbn [bind].
  set (out := if is_hashed s then shape o else 0).
  assert (Hun : wp (if is_hashed s then js_shape_hash_unlink st (shape o) else Ret st) (fun st1 =>
    st_rel_out st1 A ex out /\ relinked st st1)).
  { unfold out. destruct (is_hashed s) eqn:Eh; [by eapply st_unlink|].
    apply wp_ret. split; [done|apply relinked_refl]. }
  apply wp_bind. apply wp_bind. eapply wp_mono; [exact Hun|]. intros st1 [Hst1 Hre1].
  pose proof Hre1 as (_ & _ & Eo1 & _). assert (Hp1 : objs st1 !! p = Some o) by by rewrite Eo1.
  destruct (same_shape _ _ _ _ (relinked_same _ _ Hre1) Hs) as (k1 & Hs1).
  set (s1 := set_hash_next s k1) in *.
  assert (Hok1 : shape_ok s1) by by apply shape_ok_next.
  apply wp_bind. eapply wp_mono; [by apply (room_spec st1 p o s1 a)|].
  intros [st2 [b|]] (m & vs & Hv & Htk & Hr); cycle 1.
  - subst st2. set (st2 := put_obj _ _ _).
    assert (Hst2 : st_rel_out st2 A ex out) by by eapply (larger_rel st1 A ex p o s1).
    assert (Hlink : wp (if is_hashed s then js_shape_hash_link st2 (shape o) else Ret st2)
      (fun st3 => st_rel st3 A ex /\ relinked st2 st3)).
    { unfold out in Hst2. destruct (is_hashed s) eqn:Eh; [by eapply (st_link st2 A ex (shape o) s1)|].
      apply wp_ret. split; [done|apply relinked_refl]. }
    apply wp_bind. eapply wp_mono; [exact Hlink|]. intros st3 [Hst3 Hre3]. cbn. split; [done|].
    intros x. rewrite (relinked_balance _ _ x Hre3), <- (relinked_balance _ _ x Hre1). done.
  - destruct Hr as (s' & Hroom & ->). apply wp_bind.
    eapply wp_mono; [by apply (grown_link st1 A ex p o s1 a fl Hp1 Hs1 Ha Hfl Hna Hcount Hok1 Hook Href out m vs b s')|].
    intros st3 (sp & Hsp & Htsp & Hcsp & Eo3 & Hk & Hst3 & Hb3).
    rewrite (push_run st3 b sp a fl Hsp Htsp Hcsp). cbn [wp].
    assert (Ego : get_obj (emit (put_shape st3 b (push_prop sp a fl)) [Dup (RefAtom a)]) p
      = Ret (set_prop o vs)) by (apply get_obj_Some; cbn; by rewrite Eo3; cbn; rewrite lookup_insert_eq).
    rewrite Ego. cbn [bind]. unfold get_shape. cbn [shapes put_obj set_objs emit put_shape set_shapes].
    rewrite lookup_insert_eq. cbn [bind wp].
    destruct (added_of_grown st1 A ex p o s1 a fl Ha Hfl Hook
      (emit (put_obj (put_shape st3 b (push_prop sp a fl)) p (grown_obj o vs b)) [Dup (RefAtom a)])
      vs b s' (push_prop sp a fl) Hroom Htk) as [-> Hadd].
    + by apply st_emit.
    + intros x. rewrite shape_balance_emit, Hb3. cbn. lia.
    + done.
    + cbn. by rewrite lookup_insert_eq.
    + cbn. by rewrite lookup_insert_eq.
    + destruct Hadd as (H1 & H2 & H3 & H4). split_and!; [exact H1|done| |exact H4].
      intros x. rewrite <- (relinked_balance _ _ x Hre1). apply H3.
Qed.
End add.
