(* ===== verification/ShapePropSpec.v ===== *)
(** * The properties of one object

    Creation, search and change of the properties of an object, against the
    sequence of its entries. *)

From stdpp Require Import base tactics numbers list option gmap.
From Stdlib Require Import ZArith Lia.
From S2P Require Import Prelude Values AtomsSpec Shapes ShapeTableSpec ShapeHashSpec ShapeLifeSpec ShapeMakeSpec ShapeRel ShapeOpSpec ShapeAddSpec.

Open Scope Z_scope.

Section prop.
Context {se : ShapeEngine} {ok : ShapeEngineOk se}.

Abbreviation st_rel st A ex := (st_rel_out st A ex 0).

(** ** [add_property] *)

Lemma added_view st st2 A ex p o s o2 s2 a fl st' i : same_view o s o2 s2 ->
  (forall x, balance st2 x = balance st x) -> added st2 A ex p o2 s2 a fl st' i ->
  added st A ex p o s a fl st' i.
Proof.
  intros Hv Hb (H1 & H2 & H3 & H4). unfold added. rewrite <- (same_view_abs _ _ _ _ Hv).
  destruct Hv as (_ & E & _). unfold prop_count in *. split_and!; [done|by rewrite <- E| |done].
  intros x. by rewrite H3.
Qed.

Lemma contents_snoc ps ps1 a fl : contents ps1 = contents ps ++ [(a, fl)] ->
  exists qs pr, ps1 = qs ++ [pr] /\ contents qs = contents ps /\ atom pr = a /\ flags pr = fl.
Proof.
  intros E. destruct ps1 as [|pr qs _] using rev_ind.
  - by destruct (contents ps).
  - unfold contents in *. rewrite fmap_app in E. apply app_inj_tail in E as [E1 E2].
    injection E2 as E2 E3. by exists qs, pr.
Qed.

Lemma hashed_no_deleted s i pr : shape_ok s -> is_hashed s = true -> sh_prop s !! i = Some pr ->
  atom pr <> 0.
Proof.
  intros Hok Hh Hpr E. destruct (so_hashed _ Hok Hh) as [Hd _].
  assert (Hin : pr ∈ deleted (sh_prop s)).
  { unfold deleted. apply list_elem_of_filter. split; [done|]. by eapply list_elem_of_lookup_2. }
  rewrite Hd in Hin. by apply elem_of_nil in Hin.
Qed.

Section one.
Context (st : shape_st) (A : astate) (ex : list Z) (p : Z) (o : JSObject) (s : JSShape) (a fl : Z).
Context (Hst : st_rel st A ex) (Hp : objs st !! p = Some o) (Hs : shapes st !! shape o = Some s).
Context (Ha : a <> 0) (Hfl : 0 <= fl < 64) (Hna : a ∉ atoms (sh_prop s)).
Context (Hcount : prop_count s + 1 < 2 ^ 26).

Definition add_post (x : shape_st * option Z) : Prop :=
  match x with
  | (st', None) => st_rel st' A ex /\ forall x, balance st' x = balance st x
  | (st', Some i) => added st A ex p o s a fl st' i
  end.

(** The object goes to a shape of the table. *)
Lemma add_found m vs b s1 : shapes st !! b = Some s1 -> is_hashed s1 = true ->
  sh_proto s1 = sh_proto s -> contents (sh_prop s1) = contents (sh_prop s) ++ [(a, fl)] ->
  prop_size s1 <= Z.of_nat (length vs) ->
  take (length (sh_prop s)) vs = take (length (sh_prop s)) (prop o) ->
  wp (let* st := js_dup_shape (put_obj (set_mem st m) p (set_prop o vs)) b in
      let* st := js_free_shape (put_obj st p (set_shape (set_prop o vs) b)) (shape o) in
      Ret (st, Some (prop_count s1 - 1))) add_post.
Proof.
  intros Hb Hh Epr Ec Hlen Htk. pose proof (st_live _ _ _ Hst) as Hlive.
  destruct (contents_snoc _ _ _ _ Ec) as (qs & pr & Eps & Eqs & Epa & Epf).
  pose proof (same_atoms_length _ _ (contents_atoms _ _ Eqs)) as Elq.
  destruct (sh_shape _ _ _ (lv_rel _ _ Hlive) b s1 Hb) as (Hb0 & Hok1 & _).
  assert (Epc : prop_count s1 = prop_count s + 1).
  { unfold prop_count. rewrite Eps, length_app, Elq. cbn. lia. }
  pose proof (so_size _ Hok1) as Hsz1. unfold prop_count in Hsz1, Epc.
  destruct (lookup_lt_is_Some_2 vs (length (sh_prop s))) as [v Hv]; [lia|].
  set (o' := set_shape (set_prop o vs) b).
  apply wp_bind. eapply wp_mono.
  { apply (live_dup _ (users st ex) b s1); [|done|done]. by apply live_objs, live_mem. }
  intros st1 (Hl1 & [Eo1 Ea1] & Hk1 & Hb1). destruct (Hk1 (shape o) s I Hs) as (s2 & Hs2 & _).
  apply wp_bind. eapply wp_mono.
  { apply (live_free (put_obj st1 p o') (us_add (users st ex) b 1) (shape o) s2); [by apply live_objs|done]. }
  intros st2 (Hl2 & [Eo2 Ea2] & Hk2 & Hb2). apply wp_ret.
  set (us2 := us_add (us_add (users st ex) b 1) (shape o) (-1)) in *.
  assert (Hk : keeps (fun x => us2 x <> 0) st st2).
  { eapply (shape_keeps_trans _ _ st1); [by eapply keeps_weaken; [|exact Hk1]|exact Hk2]. }
  assert (Hub : us2 b <> 0).
  { destruct (decide (b = shape o)) as [E|Hne].
    - exfalso. subst b. rewrite Hs in Hb. injection Hb as <-. lia.
    - unfold us2. rewrite us_add_ne, us_add_eq by done. pose proof (lv_pos _ _ Hlive b s1 Hb). lia. }
  destruct (Hk b s1 Hub Hb) as (s3 & Hs3 & F1 & F2 & F3 & F4 & _).
  assert (Eabs : abs_obj o' s3 = a_push (abs_obj o s) (a, fl, v)).
  { unfold abs_obj, a_push. cbn. rewrite F1, F2. f_equal; [done|].
    rewrite Eps, entries_app, Elq. f_equal.
    - rewrite (entries_same (sh_prop s) qs vs) by (by apply contents_atoms || by apply contents_flags).
      by apply entries_ext.
    - rewrite (drop_S vs v) by done. cbn [entries]. rewrite Epa, Epf. by rewrite (proj2 (Z.eqb_neq _ _) Ha). }
  unfold add_post, added. split_and!.
  - exists v. rewrite <- Eabs. eapply (st_finish_used st A ex _ ex us2 p o o' s3); try done.
    + intros x. unfold us2. rewrite us_moved. cbn [shape o' set_shape]. lia.
    + rewrite Eo2. cbn. rewrite Eo1. cbn. by rewrite insert_insert_eq.
    + rewrite Ea2. cbn. by rewrite Ea1.
    + split_and!; [by rewrite F3| |].
      * intros i q Hq E0. rewrite F1 in Hq. by apply (hashed_no_deleted s1 i q Hok1 Hh) in Hq.
      * destruct (own_abs st A ex p o s Hst Hp Hs) as (_ & (_ & _ & Hfst) & _).
        intros E. destruct (Hfst E) as [l El0]. rewrite F1, (contents_atoms (sh_prop s1) (sh_prop s ++ [mkShapeProp 0 fl a])).
        -- unfold atoms in *. rewrite fmap_app, El0. by eexists.
        -- rewrite Ec. unfold contents. by rewrite fmap_app.
  - unfold prop_count. lia.
  - intros x. rewrite Hb2. change (balance (put_obj st1 p o') x) with (balance st1 x). by rewrite Hb1.
  - exists o', s3, pr, v. rewrite Eo2. cbn [objs put_obj set_objs]. rewrite lookup_insert_eq.
    assert (Z.to_nat (prop_count s1 - 1) = length (sh_prop s)) as -> by (unfold prop_count; lia).
    split_and!; try done. rewrite F1, Eps. by rewrite <- Elq, list_lookup_middle.
Qed.

Lemma add_in_table b : 
  (exists s1, shapes st !! b = Some s1 /\ is_hashed s1 = true
     /\ sh_proto s1 = sh_proto s /\ contents (sh_prop s1) = contents (sh_prop s) ++ [(a, fl)]) ->
  wp (let* s1 := get_shape st b in
      let* x := (if negb (prop_size s1 =? prop_size s) then realloc_props st p (prop_size s1)
                 else Ret (st, true)) in
      let '(st, ok) := x in
      if negb ok then Ret (st, None)
      else
        let* o1 := get_obj st p in
        let* st := js_dup_shape st b in
        let st := put_obj st p (set_shape o1 b) in
        let* st := js_free_shape st (shape o) in
        Ret (st, Some (prop_count s1 - 1))) add_post.
Proof.
  intros (s1 & Hb & Hh & Epr & Ec). rewrite (get_shape_Some _ _ _ Hb). cbn [bind].
  destruct (own_abs st A ex p o s Hst Hp Hs) as (Hao & Hook & Hok & Ha0 & _).
  destruct (sh_shape _ _ _ (sr_shapes _ _ _ _ Hst) b s1 Hb) as (Hb0 & Hok1 & _).
  pose proof (so_size _ Hok) as Hsz. pose proof (so_size _ Hok1) as Hsz1. unfold prop_count in *.
  assert (El : length (sh_prop s1) = S (length (sh_prop s))).
  { apply (f_equal length) in Ec. unfold contents in Ec. rewrite length_app, !length_fmap in Ec.
    cbn in Ec. lia. }
  pose proof (proj1 Hook) as Hlen. pose proof (add_found) as Hf.
  destruct (Z.eqb_spec (prop_size s1) (prop_size s)) as [E|Hne]; cbn [negb bind].
  - rewrite (get_obj_Some _ _ _ Hp). cbn [bind].
    specialize (Hf (mem st) (prop o) b s1 Hb Hh Epr Ec ltac:(lia) eq_refl).
    rewrite set_prop_id in Hf.
    assert (put_obj (set_mem st (mem st)) p o = st) as E1
      by (rewrite put_obj_id by done; by destruct st).
    rewrite E1 in Hf. exact Hf.
  - apply wp_bind. eapply wp_mono; [apply (realloc_props_spec st p o (prop_size s1) Hp); lia|].
    intros [st1 r] (m & vs & -> & Hno & Hyes & Hk).
    assert (Htk : take (length (sh_prop s)) vs = take (length (sh_prop s)) (prop o)) by (apply Hk; lia).
    destruct r; cbn [negb].
    + rewrite (get_obj_Some _ _ (set_prop o vs)) by (cbn; by rewrite lookup_insert_eq). cbn [bind].
      apply (Hf m vs b s1); try done. rewrite (Hyes eq_refl). lia.
    + apply wp_ret. split; [|done]. rewrite (Hno eq_refl). by apply (larger_rel st A ex p o s).
Qed.

(** The hashed clone of a shared shape. *)
Lemma add_clone : is_hashed s = true ->
  wp (let* x := js_clone_shape st (shape o) in
      let '(st, new_sh) := x in
      if new_sh =? 0 then Ret (st, None)
      else
        let* s1 := get_shape st new_sh in
        let* st := js_shape_hash_link (put_shape st new_sh (set_is_hashed s1 true)) new_sh in
        let* st := js_free_shape st (shape o) in
        add_to_shape (put_obj st p (set_shape o new_sh)) p a fl) add_post.
Proof.
  intros Hh. destruct (own_abs st A ex p o s Hst Hp Hs) as (Hao & Hook & Hok & Ha0 & _).
  pose proof (st_live _ _ _ Hst) as Hlive.
  apply wp_bind. eapply wp_mono; [by apply (clone_spec st _ _ s Hlive Hs)|].
  intros [st1 b] [(Ho1 & Hk1 & Hb1 & Hcase) _].
  destruct Hcase as [[-> Hl1]|(Hfresh & Hb0 & Hl1 & s1 & Hs1 & ->)].
  - rewrite Z.eqb_refl. apply wp_ret. split; [|done].
    eapply st_live_keeps; [exact Hst|exact Hl1|done|done|]. by eapply keeps_weaken; [|exact Hk1].
  - rewrite (proj2 (Z.eqb_neq b 0)) by lia. rewrite (get_shape_Some _ _ _ Hs1). cbn [bind].
    assert (Hd : b ∉ dom (shapes st)) by (unfold addresses in Hfresh; set_solver).
    set (sc := set_is_hashed (set_is_hashed (set_ref_count s 1) false) true).
    assert (Eb : us_add (users st ex) b 1 b = 1)
      by (rewrite us_add_eq, (fresh_users st _ b Hlive) by done; lia).
    assert (Hokc : shape_ok sc)
      by (destruct Hok as [? ? ? ? Hho]; split; try done; intros _; by apply Hho).
    assert (Hrel2 : shapes_rel (put_shape st1 b sc) (us_add (users st ex) b 1) b).
    { eapply shapes_put; [exact (lv_rel _ _ Hl1)|..]; try done.
      - lia.
      - right. split; [|by right]. intros [_ (s0 & Hs0 & E)]. rewrite Hs1 in Hs0. by injection Hs0 as <-.
      - right. by left.
      - rewrite Hs1, out_count_0, out_count_pos by lia. done. }
    apply wp_bind. eapply wp_mono.
    { apply (link_spec _ _ b sc Hrel2); [cbn; by rewrite lookup_insert_eq|done]. }
    intros st2 [Hrel3 Hre]. pose proof (relinked_same _ _ Hre) as HS.
    destruct (same_shape _ _ b sc HS) as (k & Hk); [cbn; by rewrite lookup_insert_eq|].
    assert (Hdom : keeps (fun x => x <> b) st1 st2).
    { eapply shape_keeps_trans; [by apply (keeps_put_other _ b sc)|by apply keeps_same]. }
    assert (Hl2 : live_rel st2 (us_add (users st ex) b 1)).
    { split; [done|]. intros x sx Hx. destruct (same_shape_inv _ _ _ _ HS Hx) as (s0 & Hs0 & _).
      cbn in Hs0. destruct (decide (x = b)) as [->|Hne]; [lia|]. rewrite lookup_insert_ne in Hs0 by done.
      by eapply (lv_pos _ _ Hl1). }
    pose proof Hre as (_ & _ & Eo & Ea & _). destruct Ho1 as [Eo1 Ea1].
    pose proof (move_spec st A ex p o s Hst Hp Hs st2 b (set_hash_next sc k)) as Hm.
    assert (Hw : wp (let* st := js_free_shape st2 (shape o) in Ret (put_obj st p (set_shape o b)))
      (fun st' => st_rel st' A ex /\ (forall x, balance st' x = balance st2 x)
      /\ objs st' !! p = Some (set_shape o b)
      /\ exists s', shapes st' !! b = Some s' /\ is_hashed s' = true
           /\ sh_ref_count s' = 1 /\ same_view o s (set_shape o b) s')).
    { apply Hm; try done.
      - split; [rewrite Eo; done|rewrite Ea; done].
      - intros x sx _ Hx. destruct (Hk1 x sx I Hx) as (sx1 & Hsx1 & E1).
        destruct (Hdom x sx1) as (sx2 & Hsx2 & E2); [|done|].
        + intros ->. apply Hd, elem_of_dom; by eexists.
        + exists sx2. split; [done|]. by eapply same_contents_trans. }
    destruct (js_free_shape st2 (shape o)) as [st3| |]; [|done..]. cbn [bind wp] in *.
    destruct Hw as (Hst3 & Hb3 & Hp3 & s3 & Hs3 & _ & Er3 & Hv3).
    assert (Hbal : forall x, balance (put_obj st3 p (set_shape o b)) x = balance st x).
    { intros x. rewrite Hb3, (relinked_balance _ _ x Hre), balance_put. unfold refs_at. rewrite Hs1.
      change (shape_refs sc) with (shape_refs (set_is_hashed (set_ref_count s 1) false)).
      rewrite Hb1. lia. }
    pose proof Hv3 as (_ & E3 & _).
    eapply wp_mono; [apply (add_to_shape_spec _ A ex p _ s3 a fl Hst3 Hp3 Hs3 Er3 Ha Hfl); unfold prop_count in *; by rewrite E3|].
    intros [st4 [i|]]; cbn.
    + by eapply added_view.
    + intros [? Hb4]. split; [done|]. intros x. by rewrite Hb4.
Qed.

Lemma add_property_spec : wp (add_property st p a fl) add_post.
Proof.
  destruct (own_abs st A ex p o s Hst Hp Hs) as (Hao & Hook & Hok & Ha0 & Href).
  pose proof (st_live _ _ _ Hst) as Hlive.
  unfold add_property. rewrite (get_obj_Some _ _ _ Hp). cbn [bind].
  rewrite (get_shape_Some _ _ _ Hs). cbn [bind].
  assert (Hlast : sh_ref_count s = 1 -> wp (add_to_shape st p a fl) add_post).
  { intros E. eapply wp_mono; [by apply (add_to_shape_spec st A ex p o s a fl)|].
    by intros [st' [i|]]. }
  destruct (is_hashed s) eqn:Eh.
  - apply wp_bind. eapply wp_mono; [by apply (find_prop_spec st _ (shape o) s a fl Hlive Hs Eh)|].
    intros b [[-> _]|(Hb & Hex)].
    + rewrite Z.eqb_refl. cbn [negb]. destruct (Z.eqb_spec (sh_ref_count s) 1) as [E1|Hne]; cbn [negb].
      * by apply Hlast.
      * by apply add_clone.
    + rewrite (proj2 (Z.eqb_neq b 0) Hb). cbn [negb]. by apply add_in_table.
  - apply Hlast. rewrite Href. by apply (unhashed_one _ _ _ s Hlive).
Qed.
End one.

(** ** The search *)

Lemma keys_entries ps vs : (length ps <= length vs)%nat -> keys (entries ps vs) = live_names ps.
Proof.
  revert vs. induction ps as [|pr ps IH]; intros [|v vs] Hlen; cbn [length] in Hlen; try done; try lia.
  cbn [entries]. rewrite keys_app, IH by lia. unfold live_names, atoms. cbn [fmap list_fmap].
  rewrite filter_cons. destruct (Z.eqb_spec (atom pr) 0) as [->|Hne].
  - by rewrite decide_False by (intros H; by apply H).
  - by rewrite decide_True by done.
Qed.

(** The object of the language with other properties. *)
Definition a_with (ao : aobject) (l : list entry) : aobject :=
  mkA (a_class ao) (a_extensible ao) (a_exotic ao) (a_fast ao) (a_proto ao) l (a_values ao).

Lemma obj_length o s : obj_ok o s -> shape_ok s -> (length (sh_prop s) <= length (prop o))%nat.
Proof. intros [H _] Hok. pose proof (so_size _ Hok). unfold prop_count in *. lia. Qed.

Lemma obj_nodup o s : obj_ok o s -> shape_ok s -> NoDup (keys (entries (sh_prop s) (prop o))).
Proof.
  intros Ho Hok. rewrite keys_entries by by apply obj_length. apply (so_names _ Hok).
Qed.

(** The entry [i] of the object [p], named [a]. *)
Definition entry_at (st : shape_st) (p : Z) (i : nat) (a : Z) : Prop := exists o s pr v,
  objs st !! p = Some o /\ shapes st !! shape o = Some s /\ sh_prop s !! i = Some pr
  /\ atom pr = a /\ prop o !! i = Some v.

Lemma entry_find st A ex p i a ao : st_rel st A ex -> a <> 0 -> a_objs A !! p = Some ao ->
  entry_at st p i a -> exists o s pr v, objs st !! p = Some o /\ shapes st !! shape o = Some s
    /\ sh_prop s !! i = Some pr /\ atom pr = a /\ prop o !! i = Some v
    /\ a_find (a_props ao) a = Some (a, flags pr, v).
Proof.
  intros Hst Ha Hao (o & s & pr & v & Hp & Hs & Hpr & Epr & Hv).
  destruct (own_abs st A ex p o s Hst Hp Hs) as (Hao' & Hook & Hok & _).
  rewrite Hao in Hao'. injection Hao' as ->. exists o, s, pr, v. split_and!; try done. subst a.
  eapply entries_find; try done. by apply obj_nodup.
Qed.

Lemma find_own_spec st A ex p a ao : st_rel st A ex -> a <> 0 -> a_objs A !! p = Some ao ->
  wp (find_own_property st p a) (fun r => match r with
    | Some z => exists i, z = Z.of_nat i /\ entry_at st p i a
    | None => a ∉ keys (a_props ao)
    end).
Proof.
  intros Hst Ha Hao. destruct (st_aobj _ _ _ _ _ _ Hst Hao) as (o & s & Hp & Hs & Hook & ->).
  destruct (own_abs st A ex p o s Hst Hp Hs) as (_ & _ & Hok & _).
  unfold find_own_property. rewrite (get_obj_Some _ _ _ Hp). cbn [bind].
  rewrite (get_shape_Some _ _ _ Hs). cbn [bind].
  eapply wp_mono; [apply (find_in_shape_spec s a (so_table _ Hok) Ha)|].
  intros [z|] Hr.
  - destruct Hr as (i & pr & -> & Hpr & Epr). exists i. split; [done|].
    pose proof (obj_length o s Hook Hok). pose proof (lookup_lt_Some _ _ _ Hpr).
    destruct (lookup_lt_is_Some_2 (prop o) i) as [v Hv]; [lia|]. by exists o, s, pr, v.
  - cbn. intros Hin. apply Hr. by apply (entries_keys (sh_prop s) (prop o) a (obj_length o s Hook Hok) Ha).
Qed.

(** ** Values *)

Lemma write_spec st A ex p i a ao pr' : st_rel st A ex -> a <> 0 -> a_objs A !! p = Some ao ->
  entry_at st p i a ->
  wp (write_property st p (Z.of_nat i) pr') (fun st' => exists fl,
    (exists v, a_find (a_props ao) a = Some (a, fl, v))
    /\ st_rel st' (set_aobj A p (a_with ao (a_alter (a_props ao) a (fun _ => (fl, pr'))))) ex
    /\ shapes st' = shapes st /\ log st' = log st
    /\ exists o, objs st !! p = Some o /\ objs st' = <[p := set_prop o (<[i := pr']> (prop o))]> (objs st)).
Proof.
  intros Hst Ha Hao He. destruct (entry_find _ _ _ _ _ _ _ Hst Ha Hao He) as (o & s & pr & v & Hp & Hs & Hpr & Epr & Hv & Hf).
  destruct (own_abs st A ex p o s Hst Hp Hs) as (Hao' & Hook & Hok & _).
  rewrite Hao in Hao'. injection Hao' as ->.
  unfold write_property. rewrite (get_obj_Some _ _ _ Hp). cbn [bind].
  pose proof (lookup_lt_Some _ _ _ Hv). rewrite wr_in by lia. cbn [bind]. rewrite Nat2Z.id. apply wp_ret.
  exists (flags pr). split; [by eexists|]. split; [|by split_and!; [..|eexists]].
  set (o' := set_prop o (<[i := pr']> (prop o))).
  assert (Eabs : a_with (abs_obj o s) (a_alter (a_props (abs_obj o s)) a (fun _ => (flags pr, pr'))) = abs_obj o' s).
  { subst a. pose proof (entries_update (sh_prop s) (prop o) i pr v Hpr Hv Ha
      (obj_nodup o s Hook Hok) pr pr' eq_refl) as E. rewrite list_insert_id in E by done.
    unfold a_with, abs_obj. f_equal. symmetry. exact E. }
  rewrite Eabs. apply (st_put_obj st A ex ex 0 p o o' s); try done.
  destruct Hook as (Hsz & Hd & Hfst). split_and!; [| |done].
  - cbn. by rewrite length_insert.
  - intros j q Hq E0. destruct (Hd j q Hq E0) as [? Hj]. split; [done|]. cbn.
    rewrite list_lookup_insert_ne; [done|]. intros <-. congruence.
Qed.

Lemma a_alter_last l a fl v x : a ∉ keys l -> NoDup (keys l) ->
  a_alter (l ++ [(a, fl, v)]) a (fun _ => x) = l ++ [(a, x.1, x.2)].
Proof.
  intros Ha Hnd. apply (a_alter_middle l [] (a, fl, v)). rewrite keys_app. apply NoDup_app.
  split_and!; [done| |apply NoDup_singleton]. by intros y Hy ->%list_elem_of_singleton.
Qed.

(** A new property and its value: how the callers of [add_property] go on. *)
Definition define_own (st : shape_st) (p a prop_flags : Z) (pr : JSProperty) : res (shape_st * Z) :=
  let* x := add_property st p a prop_flags in
  let '(st, r) := x in
  match r with
  | None => Ret (st, -1)
  | Some i => let* st := write_property st p i pr in Ret (st, 1)
  end.

Lemma a_find_key l a : a ∉ keys l <-> a_find l a = None.
Proof.
  split; [apply a_find_None|]. intros Hf Hin. unfold a_find in Hf.
  apply list_elem_of_fmap in Hin as (e & -> & He).
  apply fmap_None, list_find_None in Hf. by apply (proj1 (Forall_forall _ _) Hf e).
Qed.

Lemma added_entry st A ex p o s a fl st' i : added st A ex p o s a fl st' i ->
  entry_at st' p (Z.to_nat i) a.
Proof. intros (_ & _ & _ & o' & s' & pr & v & ? & ? & ? & ? & ?). by exists o', s', pr, v. Qed.

(** The value of a property that was just added. *)
Lemma push_write st A ex p i a fl v pr ao : st_rel st (set_aobj A p (a_push ao (a, fl, v))) ex ->
  a <> 0 -> (a ∉ keys (a_props ao)) -> NoDup (keys (a_props ao)) -> entry_at st p i a ->
  wp (write_property st p (Z.of_nat i) pr) (fun st' =>
    st_rel st' (set_aobj A p (a_push ao (a, fl, pr))) ex
    /\ shapes st' = shapes st /\ log st' = log st
    /\ exists o, objs st !! p = Some o /\ objs st' = <[p := set_prop o (<[i := pr]> (prop o))]> (objs st)).
Proof.
  intros Hst Ha Hna Hnd He. set (A1 := set_aobj A p _) in *.
  assert (Hao1 : a_objs A1 !! p = Some (a_push ao (a, fl, v))) by (cbn; by rewrite lookup_insert_eq).
  eapply wp_mono; [by apply (write_spec st A1 ex p i a _ pr Hst Ha Hao1 He)|].
  intros st2 (fl' & [v' Hf] & Hst2 & Hrest). split; [|done].
  assert (Efl : fl' = fl).
  { change (a_find (a_props ao ++ [(a, fl, v)]) a = Some (a, fl', v')) in Hf.
    pose proof (a_find_middle (a_props ao) [] (a, fl, v)) as Hm.
    cbn [key fst] in Hm. rewrite Hm in Hf; [congruence|]. rewrite keys_app. apply NoDup_app.
    split_and!; [done| |apply NoDup_singleton]. by intros y Hy ->%list_elem_of_singleton. }
  subst fl'. unfold a_with, a_push in Hst2. cbn [a_class a_extensible a_exotic a_fast a_proto a_props a_values] in Hst2.
  rewrite a_alter_last in Hst2 by done. cbn [fst snd] in Hst2. unfold A1, set_aobj in Hst2. cbn in Hst2.
  by rewrite insert_insert_eq in Hst2.
Qed.

Lemma define_own_spec st A ex p a fl pr ao : st_rel st A ex -> a_objs A !! p = Some ao ->
  a <> 0 -> 0 <= fl < 64 -> (a ∉ keys (a_props ao)) ->
  (forall o s, objs st !! p = Some o -> shapes st !! shape o = Some s -> prop_count s + 1 < 2 ^ 26) ->
  wp (define_own st p a fl pr) (fun '(st', r) => (forall x, balance st' x = balance st x)
    /\ (r = -1 /\ st_rel st' A ex \/ r = 1 /\ st_rel st' (set_aobj A p (a_push ao (a, fl, pr))) ex)).
Proof.
  intros Hst Hao Ha Hfl Hna Hsmall.
  destruct (st_aobj _ _ _ _ _ _ Hst Hao) as (o & s & Hp & Hs & Hook & ->).
  destruct (own_abs st A ex p o s Hst Hp Hs) as (_ & _ & Hok & _).
  unfold define_own. apply wp_bind. eapply wp_mono.
  { apply (add_property_spec st A ex p o s a fl Hst Hp Hs Ha Hfl).
    - intros Hin. apply Hna. by apply (entries_keys _ _ a (obj_length o s Hook Hok) Ha).
    - by eapply Hsmall. }
  intros [st1 [i|]] Hadd; cbn in Hadd.
  2:{ apply wp_ret. destruct Hadd. split; [done|]. by left. }
  pose proof (added_entry _ _ _ _ _ _ _ _ _ _ Hadd) as He. destruct Hadd as ([v Hst1] & Hi & Hb1 & _).
  assert (Ei : i = Z.of_nat (Z.to_nat i)) by (unfold prop_count in Hi; lia). rewrite Ei.
  apply wp_bind. eapply wp_mono.
  { apply (push_write st1 A ex p _ a fl v pr _ Hst1 Ha Hna (obj_nodup o s Hook Hok) He). }
  intros st2 (Hst2 & Es & El & _). apply wp_ret. split.
  - intros x. rewrite <- Hb1. unfold balance. by rewrite Es, El.
  - by right.
Qed.
End prop.

(** ** Changes of the properties and of the prototype of an object *)

Section change.
Context {se : ShapeEngine} {ok : ShapeEngineOk se}.

Abbreviation st_rel st A ex := (st_rel_out st A ex 0).

(** ** A shape of one object, which is not in the table *)

Lemma own_put st A ex p o s o' s' : st_rel st A ex -> objs st !! p = Some o ->
  shapes st !! shape o = Some s -> is_hashed s = false -> shape_ok s' -> is_hashed s' = false ->
  sh_ref_count s' = 1 -> shape o' = shape o -> obj_ok o' s' ->
  st_rel (put_obj (put_shape st (shape o) s') p o') (set_aobj A p (abs_obj o' s')) ex.
Proof.
  intros Hst Hp Hs Eh Hok' Eh' Er' Esh Hook'.
  destruct (own_abs st A ex p o s Hst Hp Hs) as (_ & _ & _ & Ha0 & Href).
  assert (Er : sh_ref_count s = 1) by (rewrite Href; by apply (unhashed_one st _ _ s (st_live _ _ _ Hst))).
  pose proof (st_replace st A ex 0 p o s (shape o) s' o' Hst Hp Hs Er) as H. rewrite Eh in H.
  assert (put_shape (set_shapes st (delete (shape o) (shapes st))) (shape o) s' = put_shape st (shape o) s') as E.
  { unfold put_shape, set_shapes. cbn. by rewrite insert_delete_eq. }
  rewrite E in H. apply H; try done. by left.
Qed.

Lemma own_put_shape st A ex p o s s' : st_rel st A ex -> objs st !! p = Some o ->
  shapes st !! shape o = Some s -> is_hashed s = false -> shape_ok s' -> is_hashed s' = false ->
  sh_ref_count s' = 1 -> obj_ok o s' ->
  st_rel (put_shape st (shape o) s') (set_aobj A p (abs_obj o s')) ex.
Proof.
  intros Hst Hp Hs Eh Hok' Eh' Er' Hook'.
  pose proof (own_put st A ex p o s o s' Hst Hp Hs Eh Hok' Eh' Er' eq_refl Hook') as H.
  by rewrite put_obj_id in H.
Qed.

(** ** Flags *)

Lemma a_find_unique l a e e' : NoDup (keys l) -> a_find l a = Some e -> e' ∈ l -> key e' = a -> e' = e.
Proof.
  intros Hnd Hf He' <-. apply list_elem_of_split in He' as (l1 & l2 & ->).
  rewrite a_find_middle in Hf by done. congruence.
Qed.

Lemma a_alter_const l a f e : NoDup (keys l) -> a_find l a = Some e ->
  a_alter l a f = a_alter l a (fun _ => f e).
Proof.
  intros Hnd Hf. unfold a_alter. apply list_fmap_ext. intros i e' He'. cbv beta. case_decide; [|done].
  by rewrite (a_find_unique l a e e' Hnd Hf (list_elem_of_lookup_2 _ _ _ He')).
Qed.

Lemma update_flags_spec st A ex p i a ao fl : st_rel st A ex -> a <> 0 -> a_objs A !! p = Some ao ->
  entry_at st p i a -> 0 <= fl < 64 ->
  wp (js_update_property_flags st p (Z.of_nat i) fl) (fun '(st', r) =>
    (forall x, balance st' x = balance st x)
    /\ (r = -1 /\ st_rel st' A ex
        \/ r = 0 /\ st_rel st' (set_aobj A p (a_with ao (a_alter (a_props ao) a (fun e => (fl, e.2))))) ex)).
Proof.
  intros Hst Ha Hao He Hfl.
  destruct (entry_find _ _ _ _ _ _ _ Hst Ha Hao He) as (o & s & pr & v & Hp & Hs & Hpr & Epr & Hv & Hf).
  destruct (own_abs st A ex p o s Hst Hp Hs) as (Hao' & Hook & Hok & _).
  rewrite Hao in Hao'. injection Hao' as ->. pose proof (obj_nodup o s Hook Hok) as Hnd.
  rewrite (a_alter_const _ a _ _ Hnd Hf). cbn [snd]. subst a.
  pose proof (entries_update (sh_prop s) (prop o) i pr v Hpr Hv Ha Hnd) as Hupd.
  unfold js_update_property_flags. rewrite (get_obj_Some _ _ _ Hp). cbn [bind].
  rewrite (get_shape_Some _ _ _ Hs). cbn [bind]. rewrite (rd_nat _ _ _ Hpr). cbn [bind].
  destruct (Z.eqb_spec fl (flags pr)) as [E|Hne]; cbn [negb].
  - apply wp_ret. split; [done|]. right. split; [done|]. specialize (Hupd pr v eq_refl).
    rewrite !list_insert_id in Hupd by done. rewrite E.
    change (a_props (abs_obj o s)) with (entries (sh_prop s) (prop o)). rewrite <- Hupd.
    change (a_with (abs_obj o s) (entries (sh_prop s) (prop o))) with (abs_obj o s).
    by rewrite set_aobj_id.
  - apply wp_bind. eapply wp_mono; [by apply (prepare_spec st A ex p o s)|].
    intros [st1 r] [(-> & Hst1 & Hb1)|(-> & Hst1 & Hb1 & o1 & s1 & Hp1 & Hs1 & Eh1 & Er1 & Hv1)]; cbn [negb Z.eqb].
    { apply wp_ret. split; [done|]. by left. }
    destruct (own_abs st1 A ex p o1 s1 Hst1 Hp1 Hs1) as (_ & Hook1 & Hok1 & _).
    pose proof Hv1 as (Eo & E1 & E2 & E3 & E4 & E5 & E6).
    rewrite (get_obj_Some _ _ _ Hp1). cbn [bind]. rewrite (get_shape_Some _ _ _ Hs1). cbn [bind].
    rewrite E1, (rd_nat _ _ _ Hpr). cbn [bind]. pose proof (lookup_lt_Some _ _ _ Hpr) as Hlt.
    rewrite wr_in by lia. cbn [bind]. rewrite Nat2Z.id, u6_id by done. apply wp_ret.
    set (pr' := mkShapeProp (hash_next pr) fl (atom pr)) in *.
    set (s2 := set_table s1 (prop_hash_mask s1) (prop_hash s1) (<[i := pr']> (sh_prop s))).
    assert (EA : atoms (sh_prop s2) = atoms (sh_prop s)).
    { unfold atoms. cbn [s2 set_table sh_prop]. rewrite list_fmap_insert. apply list_insert_id.
      by rewrite list_lookup_fmap, Hpr. }
    assert (Hok2 : shape_ok s2).
    { destruct Hok1 as [G1 G2 G3 G4 G5]. unfold shape_table_ok, prop_count in *. rewrite E1 in G1, G2, G3, G4.
      split; cbn [s2 set_table prop_hash_mask prop_hash prop_size deleted_prop_count is_hashed].
      - by apply table_flags.
      - by rewrite (live_names_atoms _ _ EA).
      - unfold prop_count. by rewrite (same_atoms_length _ _ EA).
      - by rewrite (deleted_same (sh_prop s)).
      - congruence. }
    assert (Hook2 : obj_ok o1 s2).
    { destruct Hook1 as (Hsz & Hd & Hfst). split_and!; [done| |by unfold array_first; rewrite EA, <- E1].
      intros j q Hq E0. apply (Hd j q); [|done].
      rewrite E1. cbn [s2 set_table sh_prop] in Hq. destruct (decide (j = i)) as [->|Hj].
      - rewrite list_lookup_insert_eq in Hq by done. injection Hq as <-. by destruct Ha.
      - by rewrite list_lookup_insert_ne in Hq. }
    pose proof (own_put_shape st1 A ex p o1 s1 s2 Hst1 Hp1 Hs1 Eh1 Hok2 Eh1 Er1 Hook2) as Hst2.
    split.
    + intros x. rewrite balance_put, <- Hb1. unfold refs_at. rewrite Hs1. unfold shape_refs.
      rewrite !atom_refs_atoms, EA, <- E1. change (sh_proto s2) with (sh_proto s1). lia.
    + right. split; [done|]. specialize (Hupd pr' v eq_refl). rewrite (list_insert_id (prop o) i v Hv) in Hupd.
      change (a_props (abs_obj o s)) with (entries (sh_prop s) (prop o)). cbn [flags pr'] in Hupd.
      rewrite <- Hupd.
      assert (a_with (abs_obj o s) (entries (<[i := pr']> (sh_prop s)) (prop o)) = abs_obj o1 s2) as ->; [|done].
      unfold a_with, abs_obj. cbn. by rewrite Eo, E2.
Qed.
End change.

(** ** Prototype chains

    The chains of prototypes end, for every object: [JS_SetPrototypeInternal]
    keeps them so, and its search for a cycle terminates because of it. *)

(** ** Chains *)

Lemma chain_unique N h l l' : chain N h l -> chain N h l' -> l = l'.
Proof.
  revert h l'. induction l as [|x l IH]; intros h [|y l']; cbn; try done.
  - by intros -> (<- & ? & _).
  - by intros (-> & ? & _) ->.
  - intros (-> & _ & n & Hn & Hl) (-> & _ & n' & Hn' & Hl'). f_equal.
    apply (IH n); [done|]. congruence.
Qed.

Lemma chain_app N h l1 x l2 : chain N h (l1 ++ x :: l2) -> chain N x (x :: l2).
Proof.
  revert h. induction l1 as [|y l1 IH]; intros h Hc.
  - pose proof Hc as (-> & _). exact Hc.
  - destruct Hc as (_ & _ & n & _ & Hc). by eapply IH.
Qed.

Lemma chain_nodup N h l : chain N h l -> NoDup l.
Proof.
  revert h. induction l as [|x l IH]; intros h Hc; [apply NoDup_nil_2|].
  pose proof Hc as (-> & _ & n & _ & Hc'). apply NoDup_cons. split; [|by eapply IH].
  intros (l1 & l2 & ->)%list_elem_of_split.
  pose proof (chain_app N x (x :: l1) x l2 Hc) as Hc2.
  pose proof (chain_unique _ _ _ _ Hc Hc2) as E. apply (f_equal length) in E.
  cbn in E. rewrite length_app in E. cbn in E. lia.
Qed.

Lemma chain_dom N h l i : chain N h l -> i ∈ l -> is_Some (N !! i).
Proof.
  revert h. induction l as [|x l IH]; intros h; [by intros _ ?%elem_of_nil|].
  intros (-> & _ & n & Hn & Hc) [->|Hi]%elem_of_cons; [by eexists|by eapply IH].
Qed.

Lemma chain_length (N : gmap Z Z) h l : chain N h l -> (length l <= size N)%nat.
Proof.
  intros Hc. pose proof (chain_nodup _ _ _ Hc) as Hnd.
  assert (Hl : list_to_set l ⊆ (dom N : gset Z)).
  { intros a Ha. apply elem_of_list_to_set in Ha. apply elem_of_dom. by eapply chain_dom. }
  apply subseteq_size in Hl. rewrite size_list_to_set in Hl by done. by rewrite size_dom in Hl.
Qed.

(** One link of an ending chain led elsewhere, to a chain without it. *)
Lemma chain_redirect N h l p q l0 : chain N h l -> chain N q l0 -> p ∉ l0 ->
  exists l', chain (<[p := q]> N) h l'.
Proof.
  intros Hc H0 Hp. revert h Hc. induction l as [|x l IH]; intros h Hc; [by exists []|].
  destruct Hc as (-> & Hx & n & Hn & Hc). destruct (decide (x = p)) as [->|Hne].
  - exists (p :: l0). split_and!; [done|done|]. exists q. rewrite lookup_insert_eq.
    split; [done|]. by apply chain_insert_ne.
  - destruct (IH n Hc) as [l' Hl']. exists (x :: l'). split_and!; [done|done|].
    exists n. by rewrite lookup_insert_ne.
Qed.

(** An object that no other one leads to is in no other chain. *)
Lemma chain_skip N h l p : chain N h l -> h <> p -> (forall q, N !! q <> Some p) -> p ∉ l.
Proof.
  revert h. induction l as [|x l IH]; intros h Hc Hh Hq; [apply not_elem_of_nil|].
  destruct Hc as (-> & Hx & n & Hn & Hc). apply not_elem_of_cons. split; [congruence|].
  apply (IH n); [done| |done]. intros ->. by apply (Hq x).
Qed.

Definition protos (A : astate) : gmap Z Z := a_proto <$> a_objs A.

(** The chain of prototypes from [p] ends. *)
Definition proto_ends (A : astate) (p : Z) : Prop := exists l, chain (protos A) p l.

Lemma protos_insert A p ao : protos (set_aobj A p ao) = <[p := a_proto ao]> (protos A).
Proof. apply fmap_insert. Qed.

(** The object with another prototype. *)
Definition a_set_proto (ao : aobject) (q : Z) : aobject :=
  mkA (a_class ao) (a_extensible ao) (a_exotic ao) (a_fast ao) q (a_props ao) (a_values ao).

Section proto.
Context {se : ShapeEngine} {ok : ShapeEngineOk se}.

Abbreviation st_rel st A ex := (st_rel_out st A ex 0).

Lemma proto_loop st A ex p l : st_rel st A ex -> forall p1 fuel, p1 <> 0 ->
  chain (protos A) p1 l -> (length l < fuel)%nat ->
  loop fuel (proto_step st p) p1 = Ret (bool_decide (p ∈ l)).
Proof.
  intros Hst. induction l as [|x l IH]; intros p1 fuel H0 Hc Hf; [done|].
  destruct fuel as [|fuel]; [cbn in Hf; lia|]. cbn [length] in Hf.
  destruct Hc as (-> & _ & n & Hn & Hc). rewrite loop_S. unfold proto_step at 1.
  destruct (Z.eqb_spec x p) as [->|Hne]; cbn [bind].
  - rewrite bool_decide_eq_true_2 by by left. done.
  - unfold protos in Hn. rewrite lookup_fmap in Hn. apply fmap_Some in Hn as (ao & Hao & ->).
    destruct (st_aobj _ _ _ _ _ _ Hst Hao) as (o & s & Hp & Hs & _ & ->).
    rewrite (get_obj_Some _ _ _ Hp). cbn [bind]. rewrite (get_shape_Some _ _ _ Hs). cbn [bind].
    cbn [a_proto abs_obj] in Hc.
    assert (Hcons : bool_decide (p ∈ x :: l) = bool_decide (p ∈ l)).
    { apply bool_decide_ext. rewrite elem_of_cons. split; [by intros [->|?]|by right]. }
    rewrite Hcons. destruct (Z.eqb_spec (sh_proto s) 0) as [E|E]; cbn [negb bind].
    + rewrite E in Hc. destruct l as [|y l]; [by rewrite bool_decide_eq_false_2 by apply not_elem_of_nil|].
      destruct Hc as (<- & ? & _). done.
    + apply IH; [done|done|lia].
Qed.

Definition set_proto_spec (A : astate) (p proto : Z) (throw_flag : bool) (ao : aobject) (r : Z) (A' : astate) : Prop :=
  let refused := if throw_flag then -1 else 0 in
  if a_proto ao =? proto then r = 1 /\ A' = A
  else if negb (a_extensible ao) then r = refused /\ A' = A
  else forall l, chain (protos A) proto l ->
    if decide (p ∈ l) then r = refused /\ A' = A
    else r = -1 /\ A' = A \/ r = 1 /\ A' = set_aobj A p (a_set_proto ao proto).

Lemma JS_SetPrototypeInternal_spec st A ex p proto throw ao : st_rel st A ex ->
  a_objs A !! p = Some ao -> proto_ends A proto ->
  wp (JS_SetPrototypeInternal st p proto throw) (fun '(st', r) => exists A',
    st_rel st' A' ex /\ set_proto_spec A p proto throw ao r A'
    /\ exists leak : bool, (leak = true -> r = -1 /\ A' = A /\ a_proto ao <> proto)
       /\ forall x, balance st' x = balance st x + (if leak then count_item x (obj_ref proto) else 0)).
Proof.
  intros Hst Hao [l Hl]. destruct (st_aobj _ _ _ _ _ _ Hst Hao) as (o & s & Hp & Hs & Hook & ->).
  unfold JS_SetPrototypeInternal. rewrite (get_obj_Some _ _ _ Hp). cbn [bind].
  rewrite (get_shape_Some _ _ _ Hs). cbn [bind]. unfold set_proto_spec.
  cbn [a_proto a_extensible abs_obj].
  destruct (Z.eqb_spec (sh_proto s) proto) as [E|Hne].
  { apply wp_ret. exists A. split_and!; try done. exists false. split; [done|]. intros. lia. }
  destruct (extensible o); cbn [negb].
  2:{ apply wp_ret. exists A. split_and!; try done. exists false. split; [done|]. intros. lia. }
  assert (Eloop : (if negb (proto =? 0) then loop (S (size (objs st))) (proto_step st p) proto else Ret false)
    = Ret (bool_decide (p ∈ l))).
  { destruct (Z.eqb_spec proto 0) as [->|H0]; cbn [negb].
    - destruct l as [|x l]; [by rewrite bool_decide_eq_false_2 by apply not_elem_of_nil|].
      destruct Hl as (<- & ? & _). done.
    - apply (proto_loop st A ex); [done..|]. pose proof (chain_length _ _ _ Hl) as Hsz.
      assert (size (protos A) = size (objs st)) as E; [|lia].
      unfold protos. rewrite map_size_fmap, <- !(size_dom (D := gset Z)). f_equal. apply leibniz_equiv.
      intros x. rewrite !elem_of_dom. pose proof (sr_objs _ _ _ _ Hst x).
      destruct (objs st !! x), (a_objs A !! x); try done. }
  rewrite Eloop. cbn [bind].
  assert (Hl' : forall l', chain (protos A) proto l' -> l' = l) by (intros; by eapply chain_unique).
  case_bool_decide as Hin.
  { apply wp_ret. exists A. split_and!; [done| |].
    - intros l' ->%Hl'. by rewrite decide_True.
    - exists false. split; [done|]. intros. lia. }
  set (st0 := emit st (Dup <$> obj_ref proto)).
  apply wp_bind. eapply wp_mono; [by apply (prepare_spec st0 A ex p o s); [apply st_emit|..]|].
  intros [st1 r] [(-> & Hst1 & Hb1)|(-> & Hst1 & Hb1 & o1 & s1 & Hp1 & Hs1 & Eh1 & Er1 & Hv1)]; cbn [negb Z.eqb].
  - apply wp_ret. exists A. split_and!; [done| |].
    + intros l' ->%Hl'. rewrite decide_False by done. by left.
    + exists true. split; [done|]. intros x. rewrite Hb1. unfold st0. by rewrite shape_balance_emit, net_dup.
  - destruct (own_abs st1 A ex p o1 s1 Hst1 Hp1 Hs1) as (_ & Hook1 & Hok1 & _).
    pose proof Hv1 as (Eo & E1 & E2 & _).
    rewrite (get_obj_Some _ _ _ Hp1). cbn [bind]. rewrite (get_shape_Some _ _ _ Hs1). cbn [bind].
    apply wp_ret. set (s2 := set_proto s1 proto).
    assert (Hok2 : shape_ok s2) by (destruct Hok1 as [? ? ? ? Hh]; split; try done; cbn; congruence).
    pose proof (own_put_shape st1 A ex p o1 s1 s2 Hst1 Hp1 Hs1 Eh1 Hok2 Eh1 Er1 Hook1) as Hst2.
    assert (abs_obj o1 s2 = a_set_proto (abs_obj o s) proto) as Eabs.
    { unfold abs_obj, a_set_proto. cbn. by rewrite Eo, E1. }
    exists (set_aobj A p (abs_obj o1 s2)). split_and!.
    + exact (st_emit _ _ _ _ _ Hst2).
    + intros l' ->%Hl'. rewrite decide_False by done. right. by rewrite Eabs.
    + exists false. split; [done|]. intros x.
      change (put_shape (emit st1 (Free <$> obj_ref (sh_proto s1))) (shape o1) s2)
        with (emit (put_shape st1 (shape o1) s2) (Free <$> obj_ref (sh_proto s1))).
      rewrite shape_balance_emit, net_free, balance_put, Hb1. unfold st0. rewrite shape_balance_emit, net_dup.
      unfold refs_at. rewrite Hs1. unfold shape_refs. rewrite !count_item_app.
      change (sh_proto s2) with proto. change (sh_prop s2) with (sh_prop s1). lia.
Qed.
End proto.
