(* ===== verification/ShapeDelSpec.v ===== *)
(** * Removal of properties

    [delete_property] unlinks the entry from its chain and compacts the tables
    when half of the entries are free: the other properties keep their order,
    their flags and their values. *)

From stdpp Require Import base tactics numbers list option gmap.
From Stdlib Require Import ZArith Lia.
From S2P Require Import Prelude Values AtomsSpec Shapes ShapeTableSpec ShapeHashSpec ShapeLifeSpec ShapeMakeSpec ShapeRel ShapeOpSpec ShapeAddSpec ShapePropSpec.
From S2P Require GcObjects Atoms.

Open Scope Z_scope.

(** The references that are counted: the null atom and undefined are not. *)
Definition counted (x : ref_item) : Prop := x <> RefAtom 0 /\ x <> RefValue JS_UNDEFINED.

Lemma count_insert x (l : list ref_item) i y z : l !! i = Some y ->
  count_item x (<[i := z]> l)
  = count_item x l - (if decide (y = x) then 1 else 0) + (if decide (z = x) then 1 else 0).
Proof.
  assert (Hcons : forall w l', count_item x (w :: l') = (if decide (w = x) then 1 else 0) + count_item x l') by done.
  revert i. induction l as [|w l IH]; intros [|i] Hi; try done; rewrite Hcons.
  - injection Hi as ->. change (<[0%nat := z]> (y :: l)) with (z :: l). rewrite Hcons. lia.
  - change (<[S i := z]> (w :: l)) with (w :: <[i := z]> l). rewrite Hcons, (IH i Hi). lia.
Qed.

(** The null names do not count. *)
Lemma count_atoms x ps : counted x -> count_item x (atom_refs ps) = count_item x (RefAtom <$> live_names ps).
Proof.
  intros [Hx _]. rewrite atom_refs_atoms. unfold live_names. induction (atoms ps) as [|a l IH]; [done|].
  rewrite filter_cons. destruct (decide (a <> 0)) as [Ha|Ha]; cbn in *; unfold count_item in *; rewrite IH; [done|].
  assert (a = 0) as -> by lia. rewrite decide_False; [done|congruence].
Qed.

Lemma live_names_all ps : (forall i q, ps !! i = Some q -> atom q <> 0) -> live_names ps = atoms ps.
Proof.
  intros Hps. apply filter_keep. intros a [i Hi]%list_elem_of_lookup. rewrite atoms_lookup in Hi.
  apply fmap_Some in Hi as (q & Hq & ->). by eapply Hps.
Qed.

Lemma live_names_delete ps i : NoDup (live_names ps) -> NoDup (filter (fun a => a <> 0) (<[i := 0]> (atoms ps))).
Proof.
  unfold live_names. intros Hnd. destruct (decide (i < length (atoms ps))%nat) as [Hi|Hi].
  - rewrite insert_take_drop by done. destruct (lookup_lt_is_Some_2 _ _ Hi) as [a Ha].
    rewrite <- (take_drop_middle (atoms ps) i a Ha) in Hnd.
    rewrite filter_app, filter_cons in *. rewrite decide_False by (intros H; by apply H).
    destruct (decide (a <> 0)); [|done].
    apply NoDup_app in Hnd as (H1 & Hd & H2). apply NoDup_cons in H2 as [_ H2].
    apply NoDup_app. split_and!; [done| |done]. intros y Hy Hy2. apply (Hd y Hy). by right.
  - by rewrite list_insert_ge by lia.
Qed.

Section del.
Context {se : ShapeEngine} {ok : ShapeEngineOk se}.

Abbreviation st_rel st A ex := (st_rel_out st A ex 0).

(** ** Compaction *)

Lemma compact_spec st A ex p o s : st_rel st A ex -> objs st !! p = Some o ->
  shapes st !! shape o = Some s -> is_hashed s = false -> 8 <= deleted_prop_count s ->
  wp (compact_properties st p) (fun '(st', _) => st_rel st' A ex
    /\ forall x, counted x -> balance st' x = balance st x).
Proof.
  intros Hst Hp Hs Eh H8. destruct (own_abs st A ex p o s Hst Hp Hs) as (Hao & Hook & Hok & Ha0 & Href).
  assert (Er : sh_ref_count s = 1) by (rewrite Href; by apply (unhashed_one st _ _ s (st_live _ _ _ Hst))).
  pose proof (so_table _ Hok) as Ht. pose proof (so_size _ Hok) as Hsz. pose proof (so_deleted _ Hok) as Hdel.
  pose proof (obj_length o s Hook Hok) as Hlen.
  pose proof (entries_length (sh_prop s) (prop o) Hlen) as Hcount. pose proof (to_count _ _ _ Ht) as Hc26.
  unfold prop_count in *.
  unfold compact_properties. rewrite (get_obj_Some _ _ _ Hp). cbn [bind].
  rewrite (get_shape_Some _ _ _ Hs). cbn [bind]. rewrite Eh. cbn [negb c_assert bind].
  unfold JS_PROP_INITIAL_SIZE, prop_count. set (n := Z.max 2 _).
  rewrite (proj2 (Z.leb_le n (prop_size s))) by (unfold n; lia). cbn [c_assert bind].
  destruct (to_mask _ _ _ Ht) as (k & Hk & Emask). rewrite Emask.
  assert (H2k : 0 < 2 ^ k <= 2 ^ 27) by (split; [apply Z.pow_pos_nonneg; lia|apply Z.pow_le_mono_r; lia]).
  replace (2 ^ k - 1 + 1) with (2 ^ k) by lia. rewrite u32_id by lia.
  destruct (halve_spec k n Hk ltac:(unfold n; lia) 33 ltac:(lia)) as (k' & -> & Hk'). cbn [bind].
  assert (H2k' : 0 < 2 ^ k' <= 2 ^ 27) by (split; [apply Z.pow_pos_nonneg; lia|apply Z.pow_le_mono_r; lia]).
  rewrite u32_id by lia.
  destruct (js_malloc _ _) as [m [b|]] eqn:Em; cycle 1.
  { apply wp_ret. split; [by apply st_mem|done]. }
  destruct (js_malloc_fresh _ _ _ _ Em) as [Hfr Hb0].
  apply wp_bind. eapply wp_mono.
  { apply (compact_loop_spec (2 ^ k' - 1) (sh_prop s) 0 [] _ (prop o) (table_empty k' ltac:(lia))); cbn; lia. }
  intros [[ps t] vs] (Ht' & El & Ee & Ed & Ec). cbn [entries app length] in Ee, Ec. rewrite drop_0 in Ee.
  change (deleted []) with (@nil JSShapeProperty) in Ed.
  rewrite (proj2 (Z.eqb_eq _ _)) by lia. cbn [c_assert bind].
  set (s' := mkShape _ _ _ _ _ _ _ _ _ _ _). set (o1 := set_prop (set_shape o b) vs).
  assert (Elive : live_names ps = live_names (sh_prop s)).
  { rewrite <- (keys_entries ps vs) by lia. by rewrite Ee, keys_entries. }
  assert (Hok' : shape_ok s').
  { split; cbn [s' prop_hash_mask prop_hash sh_prop prop_size deleted_prop_count is_hashed sh_hash sh_proto].
    - done.
    - rewrite Elive. apply Hok.
    - unfold prop_count. cbn [s' sh_prop prop_size]. lia.
    - by rewrite Ed.
    - congruence. }
  assert (Hnone : forall i q, sh_prop s' !! i = Some q -> atom q <> 0).
  { intros i q Hq E0. assert (Hin : q ∈ deleted ps).
    { unfold deleted. apply list_elem_of_filter. split; [done|]. by eapply list_elem_of_lookup_2. }
    rewrite Ed in Hin. by apply elem_of_nil in Hin. }
  assert (Hfin : forall m2 ws, n <= Z.of_nat (length ws) -> take (length ps) ws = take (length ps) vs ->
    let o2 := set_prop o1 ws in
    let st2 := put_obj (put_shape (set_shapes (set_mem st m2) (delete (shape o) (shapes st))) b s') p o2 in
    st_rel st2 A ex /\ forall x, counted x -> balance st2 x = balance st x).
  { intros m2 ws Hws Htk o2 st2.
    assert (Hook2 : obj_ok o2 s').
    { split_and!; [done|intros i q Hq E0; by destruct (Hnone i q Hq)|].
      intros E. destruct Hook as (_ & _ & Hfst). destruct (Hfst E) as [l El0].
      change (sh_prop s') with ps. rewrite <- (live_names_all ps Hnone), Elive.
      unfold live_names. rewrite El0, filter_cons_True by done. by eexists. }
    pose proof (st_replace (set_mem st m2) A ex 0 p o s b s' o2 (st_mem _ _ _ _ _ Hst) Hp Hs Er) as Hr.
    rewrite Eh in Hr. specialize (Hr eq_refl).
    assert (Eabs : abs_obj o2 s' = abs_obj o s).
    { unfold abs_obj. cbn. f_equal. rewrite <- Ee. by apply entries_ext. }
    rewrite Eabs, set_aobj_id in Hr by done. split.
    - apply Hr; try done. right. unfold addresses in Hfr. cbn in Hfr. set_solver.
    - intros x Hx. change (balance st2 x)
        with (balance (put_shape (set_shapes (set_mem st m2) (delete (shape o) (shapes (set_mem st m2)))) b s') x).
      rewrite balance_put, balance_del. change (balance (set_mem st m2) x) with (balance st x).
      assert (refs_at (shapes (set_shapes (set_mem st m2) (delete (shape o) (shapes (set_mem st m2))))) b x = 0) as ->.
      { unfold refs_at. cbn. rewrite lookup_delete_ne.
        - rewrite (proj1 (not_elem_of_dom (shapes st) b)); [done|]. unfold addresses in Hfr. cbn in Hfr. set_solver.
        - intros <-. apply Hfr. unfold addresses. apply elem_of_union_l, elem_of_dom. by eexists. }
      unfold refs_at. cbn [shapes set_mem]. rewrite Hs. unfold shape_refs.
      rewrite !count_item_app, !count_atoms by done. change (sh_prop s') with ps. rewrite Elive.
      change (sh_proto s') with (sh_proto s). lia. }
  apply wp_bind. eapply wp_mono.
  { apply (realloc_props_spec _ p o1 n); [cbn; by rewrite lookup_insert_eq|unfold n; lia]. }
  intros [st2 r] (m2 & ws & -> & Hno & Hyes & Htk). apply wp_ret. cbn [fst].
  assert (Hw : n <= Z.of_nat (length ws) /\ take (length ps) ws = take (length ps) vs).
  { split; [|apply Htk; cbn; lia]. destruct r; [rewrite (Hyes eq_refl); lia|].
    rewrite (Hno eq_refl). cbn. unfold n. lia. }
  destruct (Hfin m2 ws (proj1 Hw) (proj2 Hw)) as [Hf1 Hf2].
  assert (put_obj (set_mem (put_obj (put_shape (set_shapes (set_mem st m) (delete (shape o) (shapes (set_mem st m)))) b s') p o1) m2)
    p (set_prop o1 ws) = put_obj (put_shape (set_shapes (set_mem st m2) (delete (shape o) (shapes st))) b s') p (set_prop o1 ws)) as ->.
  { unfold put_obj, put_shape, set_objs, set_shapes, set_mem. cbn. by rewrite insert_insert_eq. }
  by split.
Qed.

(** ** One entry *)

(** The entry that leads to the entry [i] of the name [a]: what the search of
    [delete_property] finds. *)
Definition leads (s : JSShape) (a : Z) (i : nat) (lpr : option nat) : Prop :=
  match lpr with
  | None => last_in (prop_hash_mask s) (Z.land a (prop_hash_mask s)) (atoms (sh_prop s)) = Z.of_nat i + 1
  | Some l => exists q, sh_prop s !! l = Some q /\ (i < l)%nat
      /\ in_bucket (prop_hash_mask s) (Z.land a (prop_hash_mask s)) (atom q) = true
      /\ hash_next q = Z.of_nat i + 1
  end.

Section remove.
Context (st : shape_st) (A : astate) (ex : list Z) (p : Z) (o : JSObject) (s : JSShape) (i : nat).
Context (pr : JSShapeProperty) (v : JSProperty) (lpr : option nat) (refs : list ref_item).
Context (Hst : st_rel st A ex) (Hp : objs st !! p = Some o) (Hs : shapes st !! shape o = Some s).
Context (Eh : is_hashed s = false) (Hpr : sh_prop s !! i = Some pr) (Ha : atom pr <> 0).
Context (Hv : prop o !! i = Some v) (Hl : leads s (atom pr) i lpr).
Context (Hrefs : property_refs v (flags pr) = Ret refs).
Context (Hlength : class_id o = GcObjects.JS_CLASS_ARRAY -> atom pr <> JS_ATOM_length).

(** The entries before the one at [i] is cleared. *)
Definition relink : list JSShapeProperty :=
  match lpr with
  | Some l => match sh_prop s !! l with
              | Some q => <[l := mkShapeProp (hash_next pr) (flags q) (atom q)]> (sh_prop s)
              | None => sh_prop s
              end
  | None => sh_prop s
  end.

Definition rehead : list Z :=
  match lpr with
  | Some _ => prop_hash s
  | None => <[Z.to_nat (Z.land (atom pr) (prop_hash_mask s)) := hash_next pr]> (prop_hash s)
  end.

Definition removed_shape : JSShape :=
  mkShape (sh_ref_count s) (is_hashed s) (has_small_array_index s) (sh_hash s)
    (prop_hash_mask s) (prop_size s) (deleted_prop_count s + 1) (shape_hash_next s) (sh_proto s)
    rehead (removed i relink).

Definition removed_obj : JSObject := set_prop o (<[i := PropValue JS_UNDEFINED]> (prop o)).

Lemma relink_fields : atoms relink = atoms (sh_prop s) /\ flags <$> relink = flags <$> sh_prop s
  /\ exists q, relink !! i = Some q /\ atom q = atom pr.
Proof.
  assert (H : atoms relink = atoms (sh_prop s) /\ flags <$> relink = flags <$> sh_prop s).
  { unfold relink. destruct lpr as [l|]; [|done]. destruct (sh_prop s !! l) as [q|] eqn:Hq; [|done].
    unfold atoms. rewrite !list_fmap_insert. cbn [atom flags].
    rewrite !list_insert_id; [done|by rewrite list_lookup_fmap, Hq..]. }
  destruct H as [H1 H2]. split_and!; [done|done|].
  assert (E : atoms relink !! i = Some (atom pr)) by (by rewrite H1, atoms_lookup, Hpr).
  rewrite atoms_lookup in E. apply fmap_Some in E as (q & Hq & ->). by exists q.
Qed.

Lemma removed_shape_ok : shape_ok removed_shape.
Proof.
  destruct (own_abs st A ex p o s Hst Hp Hs) as (_ & _ & [H1 H2 H3 H4 H5] & _).
  destruct relink_fields as (Ea & Ef & q & Hq & Eq).
  pose proof (removed_atoms (sh_prop s) i pr Hpr relink Ea) as Era.
  assert (Elen : length (removed i relink) = length (sh_prop s)).
  { unfold removed. rewrite Hq, length_insert. by apply same_atoms_length. }
  split; cbn [removed_shape prop_hash_mask prop_hash sh_prop prop_size deleted_prop_count is_hashed].
  - unfold shape_table_ok. cbn [removed_shape prop_hash_mask prop_hash sh_prop].
    apply (table_remove (prop_hash_mask s) (prop_hash s) (sh_prop s) i pr H1 Hpr Ha lpr).
    unfold leads in Hl. unfold relink, rehead. destruct lpr as [l|]; [|done].
    destruct Hl as (ql & Hql & Hil & Hb & Hn). exists ql. by rewrite Hql.
  - unfold live_names. rewrite Era. by apply live_names_delete.
  - unfold prop_count in *. cbn [removed_shape sh_prop prop_size]. by rewrite Elen.
  - rewrite H4. unfold removed. rewrite Hq.
    rewrite (deleted_insert relink i q) by (done || by rewrite Eq).
    rewrite (deleted_same (sh_prop s) relink Ea). lia.
  - congruence.
Qed.

Lemma removed_rel : st_rel (put_obj (put_shape st (shape o) removed_shape) p removed_obj)
  (set_aobj A p (a_with (abs_obj o s) (a_remove (entries (sh_prop s) (prop o)) (atom pr)))) ex.
Proof.
  destruct (own_abs st A ex p o s Hst Hp Hs) as (_ & Hook & Hok & _ & Href).
  assert (Er : sh_ref_count s = 1) by (rewrite Href; by apply (unhashed_one st _ _ s (st_live _ _ _ Hst))).
  destruct relink_fields as (Ea & Ef & q & Hq & Eq).
  pose proof (lookup_lt_Some _ _ _ Hv) as Hlv.
  assert (Eabs : abs_obj removed_obj removed_shape
    = a_with (abs_obj o s) (a_remove (entries (sh_prop s) (prop o)) (atom pr))).
  { unfold abs_obj, a_with. cbn [removed_obj removed_shape set_prop class_id extensible is_exotic fast_array
      values prop sh_proto sh_prop a_class a_extensible a_exotic a_fast a_proto a_values]. f_equal.
    unfold removed. rewrite Hq.
    rewrite (entries_remove relink (prop o) i q v) by (done || (by rewrite Eq) || (by rewrite (entries_same _ _ _ Ea Ef); apply obj_nodup)).
    by rewrite Eq, (entries_same _ _ _ Ea Ef). }
  rewrite <- Eabs. apply (own_put st A ex p o s); try done.
  - apply removed_shape_ok.
  - destruct Hook as (Hsz & Hd & Hfst). split_and!; [cbn; by rewrite length_insert| |]; cycle 1.
    { intros E. destruct (Hfst E) as [l El0]. cbn [removed_shape sh_prop].
      rewrite (removed_atoms (sh_prop s) i pr Hpr relink Ea), El0. destruct i as [|i']; [|by eexists].
      exfalso. apply (Hlength E). assert (G : atoms (sh_prop s) !! 0%nat = Some (atom pr)) by (by rewrite atoms_lookup, Hpr).
      rewrite El0 in G. by injection G. }
    intros j x. cbn [removed_shape sh_prop removed_obj set_prop prop]. destruct (decide (j = i)) as [->|Hne].
    + unfold removed. rewrite Hq, !list_lookup_insert_eq; [|done|by eapply lookup_lt_Some].
      by intros [= <-] _.
    + intros Hx E0. apply (proj1 (removed_lookup i relink j x Hne)) in Hx.
      rewrite list_lookup_insert_ne by done.
      assert (G1 : atoms relink !! j = atoms (sh_prop s) !! j) by by rewrite Ea.
      assert (G2 : (flags <$> relink) !! j = (flags <$> sh_prop s) !! j) by by rewrite Ef.
      rewrite !atoms_lookup, Hx in G1. rewrite !list_lookup_fmap, Hx in G2.
      destruct (sh_prop s !! j) as [y|] eqn:Hy; [|done]. injection G1 as G1. injection G2 as G2.
      destruct (Hd j y Hy) as [F1 F2]; [congruence|]. split; [congruence|done].
Qed.

Lemma removed_refs x : counted x -> count_item x (shape_refs removed_shape)
  = count_item x (shape_refs s) - (if decide (RefAtom (atom pr) = x) then 1 else 0).
Proof.
  intros [Hx _]. destruct relink_fields as (Ea & _ & q & Hq & Eq).
  unfold shape_refs. rewrite !count_item_app, !atom_refs_atoms.
  cbn [removed_shape sh_prop sh_proto]. rewrite (removed_atoms (sh_prop s) i pr Hpr relink Ea).
  rewrite list_fmap_insert, (count_insert x _ i (RefAtom (atom pr))) by (by rewrite list_lookup_fmap, atoms_lookup, Hpr).
  rewrite (decide_False (P := RefAtom 0 = x)) by congruence. lia.
Qed.

Lemma remove_spec :
  wp (remove_property st p (atom pr) (Z.of_nat i) (Z.of_nat <$> lpr)) (fun '(st', r) => r = 1
    /\ st_rel st' (set_aobj A p (a_with (abs_obj o s) (a_remove (entries (sh_prop s) (prop o)) (atom pr)))) ex
    /\ forall x, counted x -> balance st' x = balance st x - count_item x refs).
Proof.
  destruct (own_abs st A ex p o s Hst Hp Hs) as (_ & Hook & Hok & _).
  pose proof (so_table _ Hok) as Ht. destruct relink_fields as (Ea & Ef & q & Hq & Eq).
  pose proof removed_rel as Hrel. pose proof removed_shape_ok as Hok'.
  unfold remove_property. rewrite (get_obj_Some _ _ _ Hp). cbn [bind].
  rewrite (get_shape_Some _ _ _ Hs). cbn [bind]. rewrite (rd_nat _ _ _ Hpr). cbn [bind].
  assert (Elink : match Z.of_nat <$> lpr with
    | Some l => let* q := rd (sh_prop s) l in
        let* ps := wr (sh_prop s) l (mkShapeProp (hash_next pr) (flags q) (atom q)) in Ret (ps, prop_hash s)
    | None => let* t := wr (prop_hash s) (Z.land (atom pr) (prop_hash_mask s)) (hash_next pr) in Ret (sh_prop s, t)
    end = Ret (relink, rehead)).
  { unfold relink, rehead, leads in *. destruct lpr as [l|]; cbn [fmap option_fmap option_map].
    - destruct Hl as (ql & Hql & _). rewrite (rd_nat _ _ _ Hql), Hql. cbn [bind].
      pose proof (lookup_lt_Some _ _ _ Hql). rewrite wr_in by lia. by rewrite Nat2Z.id.
    - pose proof (land_mask _ (atom pr) (to_mask _ _ _ Ht)). pose proof (to_length _ _ _ Ht).
      by rewrite wr_in by lia. }
  rewrite Elink. cbn [bind]. rewrite (rd_nat _ _ _ Hv). cbn [bind].
  unfold free_property. rewrite Hrefs. cbn [bind]. rewrite (rd_nat _ _ _ Hq). cbn [bind].
  pose proof (lookup_lt_Some _ _ _ Hq). rewrite wr_in by lia. cbn [bind]. rewrite Nat2Z.id.
  assert (removed i relink = <[i := mkShapeProp (hash_next q) 0 JS_ATOM_NULL]> relink) as Erm
    by (unfold removed; by rewrite Hq).
  rewrite <- Erm. fold removed_shape.
  set (st1 := put_shape (emit (emit st (Free <$> refs)) [Free (RefAtom (atom pr))]) (shape o) removed_shape).
  pose proof (lookup_lt_Some _ _ _ Hv) as Hlv.
  assert (Hw : write_property st1 p (Z.of_nat i) (PropValue JS_UNDEFINED) = Ret (put_obj st1 p removed_obj)).
  { unfold write_property. rewrite (get_obj_Some _ _ o) by done. cbn [bind].
    rewrite wr_in by lia. cbn [bind]. by rewrite Nat2Z.id. }
  rewrite Hw. cbn [bind]. set (st2 := put_obj st1 p removed_obj).
  assert (Hst2 : st_rel st2 (set_aobj A p (a_with (abs_obj o s) (a_remove (entries (sh_prop s) (prop o)) (atom pr)))) ex).
  { change st2 with (emit (put_obj (put_shape (emit st (Free <$> refs)) (shape o) removed_shape) p removed_obj)
      [Free (RefAtom (atom pr))]). apply st_emit.
    change (st_rel (emit (put_obj (put_shape st (shape o) removed_shape) p removed_obj) (Free <$> refs))
      (set_aobj A p (a_with (abs_obj o s) (a_remove (entries (sh_prop s) (prop o)) (atom pr)))) ex).
    by apply st_emit. }
  assert (Hb2 : forall x, counted x -> balance st2 x = balance st x - count_item x refs).
  { intros x Hx. change (balance st2 x) with (balance st1 x). unfold st1. rewrite balance_put, !shape_balance_emit.
    unfold refs_at. cbn [shapes emit]. rewrite Hs, removed_refs, net_free by done. cbn. lia. }
  destruct (_ && _) eqn:Ec; [|by apply wp_ret].
  apply andb_prop in Ec as [Ec _]. apply Z.leb_le in Ec.
  apply wp_bind. apply wp_bind. eapply wp_mono.
  { apply (compact_spec st2 _ ex p removed_obj removed_shape Hst2); try done.
    - cbn. by rewrite lookup_insert_eq.
    - cbn. by rewrite lookup_insert_eq. }
  intros [st3 r] [Hst3 Hb3]. apply wp_ret. cbn [fst]. split_and!; [done|done|].
  intros x Hx. by rewrite Hb3, Hb2.
Qed.
End remove.
End del.

(** ** Fast arrays that become ordinary objects

    The elements of a fast array become properties named by their indexes:
    [convert_fast_array_to_array] makes room for all of them first, so that
    none of the additions can fail. *)

(** ** The atoms of the indexes *)

Lemma land_tag i : 0 <= i < 2 ^ 31 -> Z.land i (2 ^ 31) = 0.
Proof.
  intros Hi. apply Z.bits_inj'. intros n Hn. rewrite Z.land_spec, Z.bits_0, Z.pow2_bits_eqb by lia.
  destruct (Z.eqb_spec 31 n) as [<-|Hne]; [|apply andb_false_r].
  rewrite <- (Z.mod_small i (2 ^ 31)) by lia. by rewrite Z.mod_pow2_bits_high by lia.
Qed.

Lemma from_u32 i : 0 <= i < 2 ^ 31 -> Atoms.__JS_AtomFromUInt32 i = i + 2 ^ 31.
Proof.
  intros Hi. unfold Atoms.__JS_AtomFromUInt32, Atoms.JS_ATOM_TAG_INT. rewrite Z.shiftl_1_l.
  pose proof (Z.add_lor_land i (2 ^ 31)) as E. rewrite land_tag in E by done. lia.
Qed.

Lemma tagged_ge a : 0 <= a -> Atoms.__JS_AtomIsTaggedInt a = true -> 2 ^ 31 <= a.
Proof.
  intros Ha. unfold Atoms.__JS_AtomIsTaggedInt, Atoms.JS_ATOM_TAG_INT. rewrite Z.shiftl_1_l.
  intros Ht. apply negb_true_iff, Z.eqb_neq in Ht. destruct (Z_lt_le_dec a (2 ^ 31)); [|done].
  by rewrite land_tag in Ht by lia.
Qed.

Lemma tagged_from a : 0 <= a < 2 ^ 32 -> Atoms.__JS_AtomIsTaggedInt a = true ->
  0 <= Atoms.__JS_AtomToUInt32 a < 2 ^ 31
  /\ Atoms.__JS_AtomFromUInt32 (Atoms.__JS_AtomToUInt32 a) = a.
Proof.
  intros Ha Ht. pose proof (tagged_ge a ltac:(lia) Ht) as Hge.
  assert (E : Atoms.__JS_AtomToUInt32 a = a mod 2 ^ 31).
  { unfold Atoms.__JS_AtomToUInt32.
    assert (u32 (Z.lnot Atoms.JS_ATOM_TAG_INT) = 2 ^ 31 - 1) as -> by reflexivity.
    by rewrite land_pow2_mod by lia. }
  pose proof (Z.mod_pos_bound a (2 ^ 31) ltac:(lia)). rewrite E. split; [done|].
  rewrite from_u32 by done. Z.div_mod_to_equations. lia.
Qed.

Lemma from_tagged i : 0 <= i < 2 ^ 31 -> Atoms.__JS_AtomIsTaggedInt (Atoms.__JS_AtomFromUInt32 i) = true.
Proof.
  intros Hi. unfold Atoms.__JS_AtomIsTaggedInt, Atoms.__JS_AtomFromUInt32, Atoms.JS_ATOM_TAG_INT.
  rewrite Z.shiftl_1_l. apply negb_true_iff, Z.eqb_neq. intros E.
  assert (Hb : Z.testbit (Z.land (Z.lor i (2 ^ 31)) (2 ^ 31)) 31 = true).
  { rewrite Z.land_spec, Z.lor_spec, Z.pow2_bits_true by lia. by rewrite orb_true_r. }
  by rewrite E in Hb.
Qed.

(** The properties that the elements [vs] become, from the index [i]. *)
Fixpoint index_entries (i : Z) (vs : list JSValue) : list entry :=
  match vs with
  | [] => []
  | v :: vs => (Atoms.__JS_AtomFromUInt32 i, JS_PROP_C_W_E, PropValue v) :: index_entries (i + 1) vs
  end.

Lemma index_keys i vs k : k ∈ keys (index_entries i vs) ->
  exists j, i <= j < i + Z.of_nat (length vs) /\ k = Atoms.__JS_AtomFromUInt32 j.
Proof.
  revert i. induction vs as [|v vs IH]; intros i; cbn [index_entries keys fmap list_fmap]; [by intros ?%elem_of_nil|].
  intros [->|Hk]%elem_of_cons.
  - exists i. cbn. split; [lia|done].
  - destruct (IH (i + 1) Hk) as (j & Hj & ->). exists j. cbn [length]. split; [lia|done].
Qed.

Lemma index_find i vs j v : vs !! j = Some v -> 0 <= i -> i + Z.of_nat (length vs) <= 2 ^ 31 ->
  a_find (index_entries i vs) (Atoms.__JS_AtomFromUInt32 (i + Z.of_nat j))
  = Some (Atoms.__JS_AtomFromUInt32 (i + Z.of_nat j), JS_PROP_C_W_E, PropValue v).
Proof.
  revert i j. induction vs as [|w vs IH]; intros i [|j] Hj Hi Hlen; try done; cbn [length index_entries] in *.
  - injection Hj as ->. replace (i + Z.of_nat 0) with i by lia. unfold a_find. cbn.
    by rewrite decide_True by done.
  - pose proof (lookup_lt_Some _ _ _ Hj) as Hlt. cbn [length] in Hlt. specialize (IH (i + 1) j Hj ltac:(lia) ltac:(lia)).
    replace (i + 1 + Z.of_nat j) with (i + Z.of_nat (S j)) in IH by lia.
    unfold a_find in *. cbn [list_find]. rewrite decide_False.
    + destruct (list_find _ (index_entries (i + 1) vs)) as [[n e]|]; [|done]. exact IH.
    + unfold key. cbn [fst]. rewrite (from_u32 i) by lia. rewrite from_u32 by lia. lia.
Qed.

Section convert.
Context {se : ShapeEngine} {ok : ShapeEngineOk se}.

Abbreviation st_rel st A ex := (st_rel_out st A ex 0).

(** ** One addition in place *)

Section place.
Context (st : shape_st) (A : astate) (ex : list Z) (p : Z) (o : JSObject) (s : JSShape) (a fl : Z).
Context (Hst : st_rel st A ex) (Hp : objs st !! p = Some o) (Hs : shapes st !! shape o = Some s).
Context (Eh : is_hashed s = false) (Er : sh_ref_count s = 1) (Hroom : prop_count s < prop_size s).
Context (Ha : a <> 0) (Hfl : 0 <= fl < 64) (Hna : a ∉ atoms (sh_prop s)).
Context (Hcount : prop_count s + 1 < 2 ^ 26).

Definition placed : shape_st := emit (put_shape st (shape o) (push_prop s a fl)) [Dup (RefAtom a)].

Lemma add_in_place : add_property st p a fl = Ret (placed, Some (prop_count s)).
Proof.
  destruct (own_abs st A ex p o s Hst Hp Hs) as (_ & _ & Hok & _).
  unfold add_property. rewrite (get_obj_Some _ _ _ Hp). cbn [bind].
  rewrite (get_shape_Some _ _ _ Hs). cbn [bind]. rewrite Eh.
  unfold add_to_shape. rewrite (get_obj_Some _ _ _ Hp). cbn [bind].
  rewrite (get_shape_Some _ _ _ Hs). cbn [bind]. rewrite Er. cbn [Z.eqb Pos.eqb c_assert bind].
  unfold add_shape_property. rewrite (get_shape_Some _ _ _ Hs). cbn [bind]. rewrite Eh. cbn [bind].
  rewrite (proj2 (Z.leb_gt _ _)) by done. cbn [bind].
  rewrite (push_run st (shape o) s a fl Hs (so_table _ Hok) Hroom). cbn [bind]. fold placed.
  rewrite (get_obj_Some placed p o) by done. cbn [bind].
  assert (set_shape o (shape o) = o) as -> by by destruct o.
  rewrite put_obj_id by done.
  rewrite (get_shape_Some placed _ (push_prop s a fl)) by (cbn; by rewrite lookup_insert_eq).
  cbn [bind]. do 2 f_equal. unfold prop_count. cbn. rewrite length_app. cbn. f_equal. lia.
Qed.

Lemma placed_rel : exists v, st_rel placed (set_aobj A p (a_push (abs_obj o s) (a, fl, v))) ex
  /\ (forall x, balance placed x = balance st x) /\ entry_at placed p (length (sh_prop s)) a.
Proof.
  destruct (own_abs st A ex p o s Hst Hp Hs) as (_ & Hook & Hok & Ha0 & _).
  pose proof (so_size _ Hok) as Hsz. pose proof (proj1 Hook) as Hlen.
  assert (Hself : resized s s (prop_size s)).
  { assert (set_prop_size s (prop_size s) = s) as E by by destruct s.
    rewrite <- E at 2. apply resized_self, Hok. }
  assert (Hrm : room st o s (prop o) (shape o) s).
  { split_and!; [by left|done|]. exists (prop_size s). split_and!; try lia. done. }
  destruct (grown_abs st o s a fl Ha Hfl Hook (prop o) (shape o) s Hrm eq_refl)
    as (Hook' & v & Hv & Eabs & pr & Hpr & Epr & _).
  assert (Ego : grown_obj o (prop o) (shape o) = o) by by destruct o.
  assert (Egs : grown_shape a fl s = push_prop s a fl) by (unfold grown_shape, push_hash; by rewrite Eh).
  rewrite Ego, Egs in *. exists v. split_and!.
  - rewrite <- Eabs. apply st_emit. apply (own_put_shape st A ex p o s); try done.
    assert (push_hash s a fl = s) as E by (unfold push_hash; by rewrite Eh).
    rewrite <- E. by apply push_ok.
  - intros x. unfold placed. rewrite shape_balance_emit, balance_put. unfold refs_at. rewrite Hs.
    pose proof (grown_refs s a fl s (prop_size s) x Hself) as E. rewrite Egs in E. rewrite E. cbn. lia.
  - exists o, (push_prop s a fl), pr, v. split_and!; try done. cbn. by rewrite lookup_insert_eq.
Qed.
End place.

(** ** The elements one by one *)

Lemma a_with_with ao l l' : a_with (a_with ao l) l' = a_with ao l'.
Proof. done. Qed.

Lemma set_aobj_twice A p ao ao' : set_aobj (set_aobj A p ao) p ao' = set_aobj A p ao'.
Proof. unfold set_aobj. cbn. by rewrite insert_insert_eq. Qed.

Lemma convert_loop_spec ex p tab : forall st A o s i, st_rel st A ex -> objs st !! p = Some o ->
  shapes st !! shape o = Some s -> is_hashed s = false -> sh_ref_count s = 1 ->
  prop_count s + Z.of_nat (length tab) <= prop_size s -> prop_count s + Z.of_nat (length tab) < 2 ^ 26 ->
  0 <= i -> i + Z.of_nat (length tab) <= 2 ^ 31 ->
  (forall j, i <= j < i + Z.of_nat (length tab) -> (Atoms.__JS_AtomFromUInt32 j ∉ atoms (sh_prop s))) ->
  wp (convert_loop st p i tab) (fun st' =>
    st_rel st' (set_aobj A p (a_with (abs_obj o s) (entries (sh_prop s) (prop o) ++ index_entries i tab))) ex
    /\ forall x, balance st' x = balance st x).
Proof.
  induction tab as [|v tab IH]; intros st A o s i Hst Hp Hs Eh Er Hroom Hc Hi Hil Hfresh;
    cbn [convert_loop length index_entries] in *;
    destruct (own_abs st A ex p o s Hst Hp Hs) as (Hao & Hook & Hok & _).
  - apply wp_ret. split; [|done]. rewrite app_nil_r.
    change (a_with (abs_obj o s) (entries (sh_prop s) (prop o))) with (abs_obj o s).
    by rewrite set_aobj_id.
  - set (a := Atoms.__JS_AtomFromUInt32 i). pose proof (from_u32 i ltac:(lia)) as Ea.
    assert (Ha : a <> 0) by (unfold a; lia). assert (Hna : a ∉ atoms (sh_prop s)) by (apply Hfresh; lia).
    rewrite (add_in_place st A ex p o s a JS_PROP_C_W_E Hst Hp Hs Eh Er ltac:(lia)). cbn [bind].
    destruct (placed_rel st A ex p o s a JS_PROP_C_W_E Hst Hp Hs Eh Er ltac:(lia) Ha ltac:(done) Hna ltac:(lia))
      as (v0 & Hst1 & Hb1 & He).
    set (st1 := placed st o s a JS_PROP_C_W_E) in *. set (s1 := push_prop s a JS_PROP_C_W_E).
    assert (Hs1 : shapes st1 !! shape o = Some s1) by (cbn; by rewrite lookup_insert_eq).
    assert (Ec1 : prop_count s1 = prop_count s + 1) by (unfold prop_count; cbn; rewrite length_app; cbn; lia).
    apply wp_bind. eapply wp_mono.
    { apply (push_write st1 A ex p _ a JS_PROP_C_W_E v0 (PropValue v) _ Hst1 Ha); [|by apply obj_nodup|done].
      intros Hin. apply Hna. by apply (entries_keys _ _ a (obj_length o s Hook Hok) Ha). }
    intros st2 (Hst2 & Es2 & El2 & o1 & Ho1 & Eo2). assert (o1 = o) as -> by (cbn in Ho1; congruence).
    set (o2 := set_prop o (<[length (sh_prop s) := PropValue v]> (prop o))) in *.
    assert (Hp2 : objs st2 !! p = Some o2) by (by rewrite Eo2, lookup_insert_eq).
    assert (Hs2 : shapes st2 !! shape o2 = Some s1) by by rewrite Es2.
    eapply wp_mono.
    { apply (IH st2 _ o2 s1 (i + 1) Hst2 Hp2 Hs2); try done; try lia; try (rewrite Ec1; cbn; lia).
      intros j Hj. cbn [s1 push_prop sh_prop]. unfold atoms. rewrite fmap_app, elem_of_app. cbn [fmap list_fmap atom].
      rewrite list_elem_of_singleton. intros [Hin|E]; [by apply (Hfresh j); [lia|]|].
      unfold a in E. rewrite (from_u32 j), (from_u32 i) in E by lia. lia. }
    intros st3 [Hst3 Hb3]. split.
    + rewrite set_aobj_twice in Hst3.
      destruct (own_abs st2 _ ex p o2 s1 Hst2 Hp2 Hs2) as (Hao2 & _). cbn in Hao2.
      rewrite lookup_insert_eq in Hao2. injection Hao2 as E1.
      assert (Ent : entries (sh_prop s1) (prop o2) = entries (sh_prop s) (prop o) ++ [(a, JS_PROP_C_W_E, PropValue v)])
        by (symmetry; exact E1).
      rewrite Ent, <- app_assoc in Hst3. cbn [app] in Hst3.
      assert (a_with (abs_obj o2 s1) (entries (sh_prop s) (prop o) ++ (a, JS_PROP_C_W_E, PropValue v) :: index_entries (i + 1) tab)
        = a_with (abs_obj o s) (entries (sh_prop s) (prop o) ++ (a, JS_PROP_C_W_E, PropValue v) :: index_entries (i + 1) tab)) as <-.
      { done. }
      done.
    + intros x. rewrite Hb3, <- Hb1. unfold balance. by rewrite Es2, El2.
Qed.

(** ** [convert_fast_array_to_array] *)

Definition a_converted (ao : aobject) : aobject :=
  mkA (a_class ao) (a_extensible ao) (a_exotic ao) false (a_proto ao)
    (a_props ao ++ index_entries 0 (a_values ao)) [].

Lemma resized_rel st A ex p o s m vs b s' n : st_rel st A ex -> objs st !! p = Some o ->
  shapes st !! shape o = Some s -> is_hashed s = false ->
  prop_size s <= n <= 2 ^ 27 -> Z.of_nat (length vs) = n -> resized s s' n ->
  take (length (sh_prop s)) vs = take (length (sh_prop s)) (prop o) ->
  b = shape o \/ b ∉ dom (shapes st) -> 0 < b ->
  let st' := put_obj (resize_put st p o m vs b s') p (set_shape (set_prop o vs) b) in
  st_rel st' A ex /\ (forall x, balance st' x = balance st x)
  /\ objs st' !! p = Some (set_shape (set_prop o vs) b) /\ shapes st' !! b = Some s'
  /\ abs_obj (set_shape (set_prop o vs) b) s' = abs_obj o s.
Proof.
  intros Hst Hp Hs Eh Hn Hv Hrz Htk Hb Hb0 st'.
  destruct (own_abs st A ex p o s Hst Hp Hs) as (Hao & (_ & Hd & Hfst) & Hok & Ha0 & Href).
  assert (Er : sh_ref_count s = 1) by (rewrite Href; by apply (unhashed_one st _ _ s (st_live _ _ _ Hst))).
  destruct (resized_fields _ _ _ Hrz) as (Ea & Ef & Esz & Ep & Eh' & Er' & Ht' & _).
  pose proof (same_atoms_length _ _ Ea) as El.
  set (o' := set_shape (set_prop o vs) b). set (stm := set_mem st m).
  assert (Est : st' = put_obj (put_shape (set_shapes stm (delete (shape o) (shapes stm))) b s') p o').
  { unfold st', resize_put, put_obj, put_shape, set_objs, set_shapes. cbn. by rewrite insert_insert_eq. }
  assert (Eabs : abs_obj o' s' = abs_obj o s).
  { unfold abs_obj. cbn. rewrite Ep. f_equal. rewrite (entries_same (sh_prop s) (sh_prop s')) by done.
    by apply entries_ext. }
  assert (Hook' : obj_ok o' s').
  { split_and!; [cbn; lia| |by unfold array_first; rewrite Ea]. intros i q Hq E0. cbn.
    assert (G1 : atoms (sh_prop s') !! i = atoms (sh_prop s) !! i) by by rewrite Ea.
    assert (G2 : (flags <$> sh_prop s') !! i = (flags <$> sh_prop s) !! i) by by rewrite Ef.
    rewrite !atoms_lookup, Hq in G1. rewrite !list_lookup_fmap, Hq in G2.
    destruct (sh_prop s !! i) as [y|] eqn:Hy; [|done]. injection G1 as G1. injection G2 as G2.
    destruct (Hd i y Hy) as [F1 F2]; [congruence|]. split; [congruence|]. rewrite <- F2.
    pose proof (lookup_lt_Some _ _ _ Hy).
    assert (take (length (sh_prop s)) vs !! i = take (length (sh_prop s)) (prop o) !! i) as G by by rewrite Htk.
    by rewrite !lookup_take, !decide_True in G by lia. }
  pose proof (st_replace stm A ex 0 p o s b s' o' (st_mem _ _ _ _ _ Hst) Hp Hs Er) as Hr.
  rewrite Eh in Hr. rewrite Eabs, set_aobj_id in Hr by done. split_and!.
  - rewrite Est. apply Hr; try done; [|congruence|congruence].
    eapply resized_ok; [exact Hok|exact Hrz|done].
  - intros x. rewrite Est. change (balance (put_obj ?S _ _) x) with (balance S x).
    rewrite balance_put, balance_del.
    assert (refs_at (shapes (set_shapes stm (delete (shape o) (shapes stm)))) b x = 0) as ->.
    { unfold refs_at. cbn. destruct (decide (b = shape o)) as [->|Hne]; [by rewrite lookup_delete_eq|].
      destruct Hb as [?|Hb]; [done|]. rewrite lookup_delete_ne by done.
      by rewrite (proj1 (not_elem_of_dom _ _) Hb). }
    change (balance stm x) with (balance st x). unfold refs_at. cbn [stm shapes set_mem]. rewrite Hs.
    unfold shape_refs. rewrite !count_item_app, !atom_refs_atoms, Ea, Ep. lia.
  - cbn. by rewrite lookup_insert_eq.
  - cbn. by rewrite lookup_insert_eq.
  - done.
Qed.

(** Room for all the elements, before they are added. *)
Lemma convert_room st A ex p o s len : st_rel st A ex -> objs st !! p = Some o ->
  shapes st !! shape o = Some s -> is_hashed s = false ->
  0 <= len -> prop_count s + len < 2 ^ 26 ->
  wp (if prop_size s <? prop_count s + len then
        let* y := resize_properties st (shape o) (Some p) (prop_count s + len) in
        let '(st, r) := y in
        match r with
        | None => Ret (st, false)
        | Some sh => let* o := get_obj st p in Ret (put_obj st p (set_shape o sh), true)
        end
      else Ret (st, true))
    (fun '(st', r) => st_rel st' A ex /\ (forall x, balance st' x = balance st x)
      /\ (r = true -> exists o' s', objs st' !! p = Some o' /\ shapes st' !! shape o' = Some s'
           /\ is_hashed s' = false /\ sh_ref_count s' = 1 /\ abs_obj o' s' = abs_obj o s
           /\ atoms (sh_prop s') = atoms (sh_prop s) /\ prop_count s + len <= prop_size s')).
Proof.
  intros Hst Hp Hs Eh Hlen Hc. destruct (own_abs st A ex p o s Hst Hp Hs) as (Hao & Hook & Hok & Ha0 & Href).
  assert (Er : sh_ref_count s = 1) by (rewrite Href; by apply (unhashed_one st _ _ s (st_live _ _ _ Hst))).
  destruct (Z.ltb_spec (prop_size s) (prop_count s + len)) as [Hlt|Hge].
  2:{ apply wp_ret. split_and!; [done|done|]. intros _. by exists o, s. }
  apply wp_bind. eapply wp_mono.
  { apply (resize_properties_spec st p o s _ Hp Hs Hok Ha0 (proj1 Hook)). lia. }
  intros [st1 [b|]] (m & vs & Hv & Htk & Hr).
  - destruct Hr as (Hb & Hb0 & s' & n & Hn & Hvn & Hrz & ->).
    destruct (resized_rel st A ex p o s m vs b s' n Hst Hp Hs Eh ltac:(lia) Hvn Hrz Htk Hb Hb0)
      as (H1 & H2 & H3 & H4 & H5).
    destruct (resized_fields _ _ _ Hrz) as (Ea & _ & Esz & _ & Eh' & Er' & _).
    rewrite (get_obj_Some _ p (set_prop o vs)) by (cbn; by rewrite lookup_insert_eq). cbn [bind].
    apply wp_ret. split_and!; [done|done|]. intros _. exists (set_shape (set_prop o vs) b), s'.
    split_and!; try done; [congruence|congruence|lia].
  - subst st1. apply wp_ret. split_and!; [by apply (larger_rel st A ex p o s)|done|done].
Qed.

Lemma convert_spec st A ex p o s : st_rel st A ex -> objs st !! p = Some o ->
  shapes st !! shape o = Some s -> prop_count s + Z.of_nat (length (values o)) < 2 ^ 26 ->
  (forall j, 0 <= j < Z.of_nat (length (values o)) -> (Atoms.__JS_AtomFromUInt32 j ∉ keys (entries (sh_prop s) (prop o)))) ->
  wp (convert_fast_array_to_array st p) (fun '(st', r) => (forall x, balance st' x = balance st x)
    /\ (r = -1 /\ st_rel st' A ex \/ r = 0 /\ st_rel st' (set_aobj A p (a_converted (abs_obj o s))) ex)).
Proof.
  intros Hst Hp Hs Hc Hfresh. unfold convert_fast_array_to_array.
  apply wp_bind. eapply wp_mono; [by apply (prepare_spec st A ex p o s)|].
  intros [st1 r] [(-> & Hst1 & Hb1)|(-> & Hst1 & Hb1 & o1 & s1 & Hp1 & Hs1 & Eh1 & Er1 & Hv1)]; cbn [negb Z.eqb].
  { apply wp_ret. split; [done|]. by left. }
  pose proof (same_view_abs _ _ _ _ Hv1) as Eabs1. pose proof Hv1 as (Eo & E1 & _).
  assert (Ev : values o1 = values o) by (by rewrite Eo). assert (Epc : prop_count s1 = prop_count s) by (unfold prop_count; by rewrite E1).
  rewrite (get_obj_Some _ _ _ Hp1). cbn [bind]. rewrite (get_shape_Some _ _ _ Hs1). cbn [bind].
  rewrite Ev, Epc. set (len := Z.of_nat (length (values o))) in *.
  assert (Hlen : 0 <= len) by (unfold len; lia).
  rewrite u32_id by (unfold prop_count in *; lia). rewrite <- Epc in Hc |- *.
  apply wp_bind. eapply wp_mono; [by apply (convert_room st1 A ex p o1 s1 len)|].
  intros [st2 r] (Hst2 & Hb2 & Hr). destruct r; cbn [negb].
  2:{ apply wp_ret. split; [intros x; by rewrite Hb2|]. by left. }
  destruct (Hr eq_refl) as (o2 & s2 & Hp2 & Hs2 & Eh2 & Er2 & Eabs2 & Ea2 & Hsz2).
  assert (Ec2 : prop_count s2 = prop_count s1) by (unfold prop_count; by rewrite (same_atoms_length _ _ Ea2)).
  destruct (own_abs st A ex p o s Hst Hp Hs) as (_ & Hook & Hok & _).
  apply wp_bind. eapply wp_mono.
  { apply (convert_loop_spec ex p (values o) st2 A o2 s2 0 Hst2 Hp2 Hs2 Eh2 Er2); try (fold len; unfold prop_count in *; lia).
    intros j Hj Hin. apply (Hfresh j); [fold len in Hj; lia|].
    apply (entries_keys _ _ _ (obj_length o s Hook Hok)); [rewrite from_u32 by (unfold len in *; unfold prop_count in *; lia); lia|].
    by rewrite Ea2, E1 in Hin. }
  intros st3 [Hst3 Hb3]. set (a3 := a_with _ _) in *.
  destruct (st_aobj _ _ _ _ p a3 Hst3) as (o3 & s3 & Hp3 & Hs3 & Hook3 & E3); [cbn; by rewrite lookup_insert_eq|].
  rewrite (get_obj_Some _ _ _ Hp3). cbn [bind]. apply wp_ret. split.
  - intros x. change (balance (put_obj st3 p _) x) with (balance st3 x). by rewrite Hb3, Hb2, Hb1.
  - right. split; [done|].
    pose proof (st_put_obj st3 _ ex ex 0 p o3 (set_array o3 false [] 0) s3 Hst3 Hp3 Hs3) as Hf.
    rewrite set_aobj_twice in Hf.
    assert (abs_obj (set_array o3 false [] 0) s3 = a_converted (abs_obj o s)) as E.
    { rewrite <- Eabs1, <- Eabs2. unfold a3, abs_obj, a_with, a_converted in *. cbn in *. injection E3 as F1 F2 F3 F4 F5 F6 F7.
      injection Eabs2 as G1 G2 G3 G4 G5 G6 G7.
      f_equal; congruence. }
    rewrite E in Hf. by apply Hf.
Qed.
End convert.
