(* ===== verification/ShapeDeleteSpec.v ===== *)
(** * [delete_property]

    The search, the refusal of the properties that are not configurable, the
    removal, and the elements of fast arrays. *)

From stdpp Require Import base tactics numbers list option gmap.
From Stdlib Require Import ZArith Lia.
From S2P Require Import Prelude Values AtomsSpec Shapes ShapeTableSpec ShapeHashSpec ShapeLifeSpec ShapeMakeSpec ShapeRel ShapeOpSpec ShapeAddSpec ShapePropSpec ShapeDelSpec.
From S2P Require Atoms GcObjects.

Open Scope Z_scope.

(** The value of an entry is of the kind that its flags say. *)
Definition typed (e : entry) : Prop := exists l, property_refs e.2 e.1.2 = Ret l.

Definition a_set_values (ao : aobject) (vs : list JSValue) : aobject :=
  mkA (a_class ao) (a_extensible ao) (a_exotic ao) (a_fast ao) (a_proto ao) (a_props ao) vs.

(** The removal of the entry [e]: the result, the new objects and what is
    released. *)
Definition del_entry (A : astate) (p : Z) (ao : aobject) (e : entry) (r : Z) (A' : astate)
    (rel : list ref_item) : Prop :=
  if Z.land e.1.2 JS_PROP_CONFIGURABLE =? 0 then r = 0 /\ A' = A /\ rel = []
  else (r = -1 /\ A' = A /\ rel = [])
       \/ (r = 1 /\ A' = set_aobj A p (a_with ao (a_remove (a_props ao) (key e)))
           /\ property_refs e.2 e.1.2 = Ret rel).

(** The objects whose properties have the values that their flags say; the
    length of an array stays, and the indexes of a fast array are elements. *)
Record ao_wf (ao : aobject) : Prop := {
  aw_typed : Forall typed (a_props ao);
  aw_length : a_class ao = GcObjects.JS_CLASS_ARRAY -> exists fl v l,
    a_props ao = (JS_ATOM_length, fl, PropValue v) :: l /\ Z.land fl JS_PROP_CONFIGURABLE = 0;
  aw_fast : a_fast ao = true -> forall k, k ∈ keys (a_props ao) -> Atoms.__JS_AtomIsTaggedInt k = false
}.

Section delete.
Context {se : ShapeEngine} {ok : ShapeEngineOk se}.

Abbreviation st_rel st A ex := (st_rel_out st A ex 0).

Lemma delete_search s a prev : shape_ok s -> a <> 0 -> prev = None ->
  wp (let* h := rd (prop_hash s) (Z.land a (prop_hash_mask s)) in
      loop (S (length (sh_prop s))) (delete_step (sh_prop s) a) (h, prev))
    (fun found => match found with
      | Some (z, lpr) => exists i pr l, z = Z.of_nat i /\ lpr = Z.of_nat <$> l
          /\ sh_prop s !! i = Some pr /\ atom pr = a /\ leads s a i l
      | None => a ∉ atoms (sh_prop s)
      end).
Proof.
  intros Hok Ha ->. pose proof (so_table _ Hok) as Ht.
  rewrite (table_head _ _ _ a Ht). cbn [bind].
  pose proof (delete_loop _ _ _ a Ht Ha (length (sh_prop s)) (S (length (sh_prop s))) None
    ltac:(lia) ltac:(lia)) as H.
  rewrite (firstn_all2 (atoms (sh_prop s))) in H by (rewrite atoms_length; lia).
  destruct (loop _ _ _) as [[[z lpr]|]| |]; [| |done|done].
  - destruct H as (i & pr & -> & _ & Hpr & Ea & Hl). exists i, pr.
    destruct Hl as [[-> E]|(l & q & -> & Hq & Hlt & Hb & Hn)].
    + by exists None.
    + exists (Some l). split_and!; try done. exists q. split_and!; [done|lia|done|done].
  - intros [i Hi]%list_elem_of_lookup. rewrite atoms_lookup in Hi.
    apply fmap_Some in Hi as (pr & Hpr & ->). apply (H i pr); [by eapply lookup_lt_Some|done|done].
Qed.

Section found.
Context (st : shape_st) (A : astate) (ex : list Z) (p : Z) (o : JSObject) (s : JSShape) (i : nat).
Context (pr : JSShapeProperty) (l : option nat).
Context (Hst : st_rel st A ex) (Hp : objs st !! p = Some o) (Hs : shapes st !! shape o = Some s).
Context (Hpr : sh_prop s !! i = Some pr) (Ha : atom pr <> 0) (Hl : leads s (atom pr) i l).

(** What follows the search when the property is there. *)
Lemma delete_found : ao_wf (abs_obj o s) -> exists e,
  a_find (entries (sh_prop s) (prop o)) (atom pr) = Some e /\
  wp (let* pr' := rd (sh_prop s) (Z.of_nat i) in
      if Z.land (flags pr') JS_PROP_CONFIGURABLE =? 0 then Ret (st, 0)
      else
        let* x := js_shape_prepare_update st p in
        let '(st, r) := x in
        if negb (r =? 0) then Ret (st, -1) else remove_property st p (atom pr) (Z.of_nat i) (Z.of_nat <$> l))
    (fun '(st', r) => exists A' rel, st_rel st' A' ex
      /\ del_entry A p (abs_obj o s) e r A' rel
      /\ forall x, counted x -> balance st' x = balance st x - count_item x rel).
Proof.
  intros [Htyped Hfix _]. cbn [a_props a_class abs_obj] in Htyped, Hfix. destruct (own_abs st A ex p o s Hst Hp Hs) as (_ & Hook & Hok & _).
  destruct (lookup_lt_is_Some_2 (prop o) i) as [v Hv].
  { pose proof (obj_length o s Hook Hok). pose proof (lookup_lt_Some _ _ _ Hpr). lia. }
  pose proof (entries_find (sh_prop s) (prop o) i pr v Hpr Hv Ha (obj_nodup o s Hook Hok)) as Hf.
  exists (atom pr, flags pr, v). split; [done|].
  destruct (a_find_Some _ _ _ Hf) as [Hin _].
  destruct (proj1 (Forall_forall _ _) Htyped _ Hin) as [refs Hrefs]. cbn [fst snd] in Hrefs.
  rewrite (rd_nat _ _ _ Hpr). cbn [bind]. unfold del_entry. cbn [fst snd].
  destruct (Z.eqb_spec (Z.land (flags pr) JS_PROP_CONFIGURABLE) 0) as [E|E].
  { apply wp_ret. exists A, []. split_and!; try done. intros x _. cbn. lia. }
  apply wp_bind. eapply wp_mono; [by apply (prepare_spec st A ex p o s)|].
  intros [st1 r] [(-> & Hst1 & Hb1)|(-> & Hst1 & Hb1 & o1 & s1 & Hp1 & Hs1 & Eh1 & Er1 & Hv1)]; cbn [negb Z.eqb].
  { apply wp_ret. exists A, []. split_and!; [done|by left|]. intros x _. rewrite Hb1. cbn. lia. }
  pose proof (same_view_abs _ _ _ _ Hv1) as Eabs. pose proof Hv1 as (Eo & E1 & _ & _ & E4 & E5 & _).
  assert (Epo : prop o1 = prop o) by by rewrite Eo.
  eapply wp_mono.
  { apply (remove_spec st1 A ex p o1 s1 i pr v l refs Hst1 Hp1 Hs1 Eh1); try done.
    - by rewrite E1.
    - by rewrite Epo.
    - unfold leads in *. by rewrite E1, E5.
    - rewrite Eo. cbn [class_id set_shape]. intros Ec E48. destruct (Hfix Ec) as (fl & w & es & Ees & Efl).
      apply E. rewrite Ees, E48 in Hf. unfold a_find in Hf. cbn in Hf. rewrite decide_True in Hf by done.
      cbn in Hf. injection Hf as <- _. done. }
  intros [st2 r] (-> & Hst2 & Hb2). rewrite Eabs, E1, Epo in Hst2.
  eexists _, refs. split_and!; [exact Hst2|by right|]. intros x Hx. by rewrite Hb2, Hb1.
Qed.
End found.

(** The deletion of a property that is there; it does not use the fuel. *)
Lemma delete_named st A ex p a ao e fuel : st_rel st A ex -> a_objs A !! p = Some ao -> ao_wf ao ->
  a <> 0 -> a_find (a_props ao) a = Some e ->
  wp (delete_property (S fuel) st p a) (fun '(st', r) => exists A' rel, st_rel st' A' ex
    /\ del_entry A p ao e r A' rel
    /\ forall x, counted x -> balance st' x = balance st x - count_item x rel).
Proof.
  intros Hst Hao Hwf Ha Hf. destruct (st_aobj _ _ _ _ _ _ Hst Hao) as (o & s & Hp & Hs & Hook & ->).
  destruct (own_abs st A ex p o s Hst Hp Hs) as (_ & _ & Hok & _).
  cbn [delete_property]. rewrite (get_obj_Some _ _ _ Hp). cbn [bind].
  rewrite (get_shape_Some _ _ _ Hs). cbn [bind].
  pose proof (delete_search s a None Hok Ha eq_refl) as Hw.
  rewrite (table_head _ _ _ a (so_table _ Hok)) in Hw |- *. cbn [bind] in Hw |- *.
  apply wp_bind. eapply wp_mono; [exact Hw|]. intros [[z lpr]|] Hr.
  - destruct Hr as (i & pr & l & -> & -> & Hpr & <- & Hl).
    destruct (delete_found st A ex p o s i pr l Hst Hp Hs Hpr Ha Hl Hwf) as (e' & Hf' & Hd).
    cbn [a_props abs_obj] in Hf. rewrite Hf in Hf'. injection Hf' as <-. exact Hd.
  - exfalso. apply Hr. apply (entries_keys _ (prop o) a (obj_length o s Hook Hok) Ha).
    destruct (decide (a ∈ keys (entries (sh_prop s) (prop o)))) as [|Hn]; [done|].
    cbn [a_props abs_obj] in Hf. by rewrite a_find_None in Hf.
Qed.

Definition is_array_class (c : GcObjects.JSClassID) : bool :=
  match c with GcObjects.JS_CLASS_ARRAY | GcObjects.JS_CLASS_ARGUMENTS => true | _ => false end.

(** The deletion of the property or element [a] of the object [p]. *)
Definition a_delete (A : astate) (p a : Z) (ao : aobject) (r : Z) (A' : astate)
    (rel : list ref_item) : Prop :=
  let same r' := r = r' /\ A' = A /\ rel = [] in
  match a_find (a_props ao) a with
  | Some e => del_entry A p ao e r A' rel
  | None =>
      if a_exotic ao then
        if a_fast ao then
          match idx ← JS_AtomIsArrayIndex a; v ← a_values ao !! Z.to_nat idx; Some (idx, v) with
          | Some (idx, v) =>
              if is_array_class (a_class ao) then
                if idx =? Z.of_nat (length (a_values ao)) - 1 then
                  r = 1 /\ A' = set_aobj A p (a_set_values ao (take (Z.to_nat idx) (a_values ao)))
                  /\ rel = [RefValue v]
                else same (-1)
                     \/ exists A1, A1 = set_aobj A p (a_converted ao)
                        /\ del_entry A1 p (a_converted ao) (a, JS_PROP_C_W_E, PropValue v) r A' rel
              else same 0
          | None => same 1
          end
        else
          match (if class_exotic (a_class ao) then em_delete_property (a_class ao) else None) with
          | Some f => A' = A /\ rel = [] /\ exists m, r = (f m p a).2
          | None => same 1
          end
      else same 1
  end.

Lemma a_find_app l1 l2 a : (a ∉ keys l1) -> a_find (l1 ++ l2) a = a_find l2 a.
Proof.
  induction l1 as [|e l1 IH]; intros Ha; [done|]. cbn [keys fmap list_fmap] in Ha.
  apply not_elem_of_cons in Ha as [Hne Ha]. rewrite <- (IH Ha). unfold a_find. cbn [app list_find].
  rewrite decide_False by congruence. by destruct (list_find _ _) as [[]|].
Qed.

Lemma converted_wf ao : ao_wf ao -> ao_wf (a_converted ao).
Proof.
  intros [H1 H2 H3]. split; cbn [a_converted a_props a_class a_fast].
  - apply Forall_app. split; [done|]. generalize 0 as i. induction (a_values ao) as [|v vs IH]; intros i; [constructor|].
    constructor; [|apply IH]. by eexists.
  - intros E. destruct (H2 E) as (fl & v & l & -> & Hfl). by eexists fl, v, _.
  - done.
Qed.

(** An index of an element is the atom of a small integer. *)
Lemma array_index_value (a idx : Z) (v : JSValue) vs : 0 <= a < 2 ^ 32 -> Z.of_nat (length vs) < 2 ^ 26 ->
  JS_AtomIsArrayIndex a = Some idx -> vs !! Z.to_nat idx = Some v ->
  Atoms.__JS_AtomIsTaggedInt a = true /\ 0 <= idx < 2 ^ 31 /\ a = Atoms.__JS_AtomFromUInt32 idx.
Proof.
  intros Ha Hlen Hi Hv. unfold JS_AtomIsArrayIndex in Hi. pose proof (lookup_lt_Some _ _ _ Hv).
  destruct (Atoms.__JS_AtomIsTaggedInt a) eqn:Et.
  - injection Hi as <-. destruct (tagged_from a Ha Et) as [? ?]. done.
  - apply string_array_index_large in Hi. lia.
Qed.

Lemma array_index_nonneg a idx : 0 <= a < 2 ^ 32 -> JS_AtomIsArrayIndex a = Some idx -> 0 <= idx.
Proof.
  intros Ha Hi. unfold JS_AtomIsArrayIndex in Hi. destruct (Atoms.__JS_AtomIsTaggedInt a) eqn:Et.
  - injection Hi as <-. by destruct (tagged_from a Ha Et) as [[? ?] _].
  - apply string_array_index_large in Hi. lia.
Qed.

Lemma delete_spec st A ex p a ao n : st_rel st A ex -> a_objs A !! p = Some ao -> ao_wf ao ->
  0 < a < 2 ^ 32 ->
  (forall o s, objs st !! p = Some o -> shapes st !! shape o = Some s ->
     prop_count s + Z.of_nat (length (values o)) < 2 ^ 26) ->
  wp (delete_property (S (S n)) st p a) (fun '(st', r) => exists A' rel, st_rel st' A' ex
    /\ a_delete A p a ao r A' rel
    /\ forall x, counted x -> balance st' x = balance st x - count_item x rel).
Proof.
  intros Hst Hao Hwf Ha Hsmall. unfold a_delete.
  destruct (a_find (a_props ao) a) as [e|] eqn:Hf; [by apply (delete_named st A ex p a ao e); [..|lia|done]|].
  pose proof (proj2 (a_find_key _ _) Hf) as Hna.
  destruct (st_aobj _ _ _ _ _ _ Hst Hao) as (o & s & Hp & Hs & Hook & Eao). subst ao.
  destruct (own_abs st A ex p o s Hst Hp Hs) as (_ & _ & Hok & _).
  specialize (Hsmall o s Hp Hs). assert (Ha0 : a <> 0) by lia.
  remember (S n) as m. cbn [delete_property]. subst m. rewrite (get_obj_Some _ _ _ Hp). cbn [bind].
  rewrite (get_shape_Some _ _ _ Hs). cbn [bind].
  pose proof (delete_search s a None Hok Ha0 eq_refl) as Hw.
  rewrite (table_head _ _ _ a (so_table _ Hok)) in Hw |- *. cbn [bind] in Hw |- *.
  apply wp_bind. eapply wp_mono; [exact Hw|]. clear Hw. intros [[z lpr]|] Hr.
  { destruct Hr as (i & pr & l & -> & -> & Hpr & <- & Hl). exfalso. apply Hna.
    apply (entries_keys _ (prop o) _ (obj_length o s Hook Hok) Ha0). apply list_elem_of_fmap_2.
    by eapply list_elem_of_lookup_2. }
  assert (Hsame : forall r' : Z, exists A' rel, st_rel st A' ex /\ (r' = r' /\ A' = A /\ rel = [])
    /\ forall x, counted x -> balance st x = balance st x - count_item x rel).
  { intros r'. exists A, []. split_and!; try done. intros x _. cbn. lia. }
  cbn [a_exotic a_fast a_values a_class abs_obj].
  destruct (is_exotic o); [|apply wp_ret, Hsame].
  destruct (fast_array o) eqn:Efast.
  2:{ destruct (if class_exotic (class_id o) then em_delete_property (class_id o) else None) as [f|]; [|apply wp_ret, Hsame].
      destruct (f (mem st) p a) as [m r] eqn:Ef. apply wp_ret. exists A, []. split_and!.
      - by apply st_mem.
      - done.
      - done.
      - exists (mem st). by rewrite Ef.
      - intros x _. cbn. change (balance (set_mem st m) x) with (balance st x). lia. }
  destruct (JS_AtomIsArrayIndex a) as [idx|] eqn:Ei; cbn [mbind option_bind]; [|apply wp_ret, Hsame].
  pose proof (array_index_nonneg a idx ltac:(lia) Ei) as Hidx0.
  destruct (Z.ltb_spec idx (Z.of_nat (length (values o)))) as [Hlt|Hge].
  2:{ assert (values o !! Z.to_nat idx = None) as -> by (apply lookup_ge_None_2; lia). apply wp_ret, Hsame. }
  destruct (lookup_lt_is_Some_2 (values o) (Z.to_nat idx)) as [v Hv]; [lia|]. rewrite Hv.
  unfold prop_count in Hsmall.
  destruct (array_index_value a idx v (values o) ltac:(lia) ltac:(lia) Ei Hv) as (Et & Hidx & Ea).
  assert (Hcls : wp (if idx =? Z.of_nat (length (values o)) - 1 then
        let* v := rd (values o) idx in
        let st := emit st [Free (RefValue v)] in
        Ret (put_obj st p (set_array o true (take (Z.to_nat idx) (values o)) (array_size o)), 1)
      else
        let* x := convert_fast_array_to_array st p in
        let '(st, r) := x in
        if negb (r =? 0) then Ret (st, -1) else delete_property (S n) st p a)
    (fun '(st', r) => exists A' rel, st_rel st' A' ex
      /\ (if idx =? Z.of_nat (length (values o)) - 1 then
             r = 1 /\ A' = set_aobj A p (a_set_values (abs_obj o s) (take (Z.to_nat idx) (values o))) /\ rel = [RefValue v]
           else (r = -1 /\ A' = A /\ rel = [])
                \/ exists A1, A1 = set_aobj A p (a_converted (abs_obj o s))
                   /\ del_entry A1 p (a_converted (abs_obj o s)) (a, JS_PROP_C_W_E, PropValue v) r A' rel)
      /\ forall x, counted x -> balance st' x = balance st x - count_item x rel)).
  { destruct (Z.eqb_spec idx (Z.of_nat (length (values o)) - 1)) as [E|Hne].
    - rewrite (rd_Some _ _ v) by (lia || done). cbn [bind]. apply wp_ret. eexists _, _. split_and!; [|done..|].
      + change (a_set_values (abs_obj o s) (take (Z.to_nat idx) (values o)))
          with (mkA (class_id o) (extensible o) (is_exotic o) (fast_array o) (sh_proto s)
                  (entries (sh_prop s) (prop o)) (take (Z.to_nat idx) (values o))).
        rewrite Efast.
        apply (st_put_obj (emit st [Free (RefValue v)]) A ex ex 0 p o
          (set_array o true (take (Z.to_nat idx) (values o)) (array_size o)) s); try done. by apply st_emit.
      + intros x Hx. change (balance (put_obj ?S _ _) x) with (balance S x).
        rewrite shape_balance_emit. cbn. lia.
    - apply wp_bind. eapply wp_mono.
      { apply (convert_spec st A ex p o s Hst Hp Hs); [unfold prop_count; lia|].
        intros j Hj Hin. pose proof (aw_fast _ Hwf Efast _ Hin) as E. by rewrite from_tagged in E by lia. }
      intros [st1 r] [Hb1 [[-> Hst1]|[-> Hst1]]]; cbn [negb Z.eqb].
      + apply wp_ret. exists A, []. split_and!; [done|by left|]. intros x _. rewrite Hb1. cbn. lia.
      + set (A1 := set_aobj A p (a_converted (abs_obj o s))) in *.
        eapply wp_mono.
        { apply (delete_named st1 A1 ex p a (a_converted (abs_obj o s)) (a, JS_PROP_C_W_E, PropValue v) n Hst1).
          - cbn. by rewrite lookup_insert_eq.
          - by apply converted_wf.
          - done.
          - cbn [a_converted a_props a_values abs_obj]. rewrite a_find_app by done.
            pose proof (index_find 0 (values o) (Z.to_nat idx) v Hv ltac:(lia) ltac:(lia)) as Hfi.
            rewrite Z2Nat.id, Z.add_0_l in Hfi by lia. by rewrite <- Ea in Hfi. }
        intros [st2 r] (A2 & rel & Hst2 & Hd & Hb2). exists A2, rel. split_and!; [done| |].
        * right. by exists A1.
        * intros x Hx. by rewrite Hb2, Hb1. }
  unfold is_array_class. destruct (class_id o); try exact Hcls; apply wp_ret, Hsame.
Qed.
End delete.
