(* ===== verification/ShapeNewSpec.v ===== *)
(** * The life of objects

    New objects on a shape that the table or a creation gives, the shape of
    arrays, and what the end of an object releases. *)

From stdpp Require Import base tactics numbers list option gmap.
From Stdlib Require Import ZArith Lia.
From S2P Require Import Prelude Values AtomsSpec Shapes ShapeTableSpec ShapeHashSpec ShapeLifeSpec ShapeMakeSpec ShapeRel ShapeOpSpec ShapeAddSpec ShapePropSpec ShapeDelSpec ShapeDeleteSpec.
From S2P Require GcObjects Atoms.

Open Scope Z_scope.

Section new.
Context {se : ShapeEngine} {ok : ShapeEngineOk se}.

Abbreviation st_rel st A ex := (st_rel_out st A ex 0).

(** ** Pointers to shapes that the code holds *)

Lemma st_gain st A ex st' sh : st_rel st A ex -> live_rel st' (us_add (users st ex) sh 1) ->
  same_objs st st' -> keeps (fun _ => True) st st' -> st_rel st' A (sh :: ex).
Proof.
  intros Hst Hl Ho Hk. eapply st_live_keeps; [exact Hst|exact Hl| |done|by eapply keeps_weaken; [|exact Hk]].
  intros x. by rewrite users_cons.
Qed.

Lemma st_drop st A ex sh s : st_rel st A (sh :: ex) -> shapes st !! sh = Some s ->
  wp (js_free_shape st sh) (fun st' => st_rel st' A ex /\ forall x, balance st' x = balance st x).
Proof.
  intros Hst Hs. eapply wp_mono; [by apply (live_free st _ sh s (st_live _ _ _ Hst))|].
  intros st' (Hl & Ho & Hk & Hb). split; [|done].
  eapply st_live_keeps; [exact Hst|exact Hl| |done|done]. intros x. apply users_drop.
Qed.

(** The object takes the pointer that the code held. *)
Lemma st_new_obj st A ex p o s : st_rel st A (shape o :: ex) -> p ∉ dom (objs st) -> 0 < p ->
  shapes st !! shape o = Some s -> obj_ok o s ->
  st_rel (put_obj st p o) (set_aobj A p (abs_obj o s)) ex.
Proof.
  intros Hst Hp Hp0 Hs Hook. apply not_elem_of_dom in Hp.
  assert (EU : forall x, users st (shape o :: ex) x = users (put_obj st p o) ex x).
  { intros x. unfold users. rewrite count_in_cons. cbn [objs put_obj set_objs array_shape].
    rewrite msum_insert by done. lia. }
  split.
  - eapply shapes_rel_ext; [exact EU|]. destruct (sr_shapes _ _ _ _ Hst). by split.
  - intros a sa Ha. rewrite <- EU. by eapply (sr_live _ _ _ _ Hst).
  - intros q. cbn. destruct (decide (q = p)) as [->|Hne].
    + rewrite !lookup_insert_eq. by exists s.
    + rewrite !lookup_insert_ne by done. apply (sr_objs _ _ _ _ Hst q).
  - intros q oq. cbn. destruct (decide (q = p)) as [->|Hne]; [done|].
    rewrite lookup_insert_ne by done. apply (sr_pos _ _ _ _ Hst).
  - apply (sr_array _ _ _ _ Hst).
Qed.

Lemma fresh_aobj st A ex out p : st_rel_out st A ex out -> p ∉ dom (objs st) -> a_objs A !! p = None.
Proof.
  intros Hst Hp. apply not_elem_of_dom in Hp. pose proof (sr_objs _ _ _ _ Hst p) as H.
  rewrite Hp in H. by destruct (a_objs A !! p).
Qed.

(** ** Creation *)

(** The flags [fast_array] and [is_exotic] of a new object. *)
Definition new_flags (c : GcObjects.JSClassID) : bool * bool :=
  match c with
  | GcObjects.JS_CLASS_OBJECT | GcObjects.JS_CLASS_C_FUNCTION | GcObjects.JS_CLASS_DATAVIEW => (false, false)
  | GcObjects.JS_CLASS_ARRAY => (true, true)
  | _ => if is_array_like c then (true, true) else (false, class_exotic c)
  end.

Definition a_new (c : GcObjects.JSClassID) (proto : Z) (l : list entry) : aobject :=
  mkA c true (new_flags c).2 (new_flags c).1 proto l [].

(** The result of a creation: no memory, or an object at a fresh address. *)
Definition created (st st' : shape_st) (A : astate) (ao : aobject) (r : Z) : Prop :=
  (forall x, balance st' x = balance st x)
  /\ (r = 0 /\ st_rel st' A []
      \/ 0 < r /\ a_objs A !! r = None /\ st_rel st' (set_aobj A r ao) []).

Lemma from_shape_spec st A sh s c proto l : st_rel st A [sh] -> shapes st !! sh = Some s ->
  sh_proto s = proto ->
  (c <> GcObjects.JS_CLASS_ARRAY /\ sh_prop s = [] /\ l = []
   \/ c = GcObjects.JS_CLASS_ARRAY /\ sh = array_shape st /\ contents (sh_prop s) = [(JS_ATOM_length, array_flags)]
      /\ l = [(JS_ATOM_length, array_flags, PropValue (JS_NewInt32 0))]) ->
  wp (JS_NewObjectFromShape st sh c) (fun '(st', r) => created st st' A (a_new c proto l) r).
Proof.
  intros Hst Hs Hproto Hcase.
  destruct (sh_shape _ _ _ (sr_shapes _ _ _ _ Hst) sh s Hs) as (_ & Hok & _).
  pose proof (so_size _ Hok) as Hsz.
  assert (Hfail : forall m, wp (let* st := js_free_shape (set_mem st m) sh in Ret (st, 0))
    (fun '(st', r) => created st st' A (a_new c proto l) r)).
  { intros m. apply wp_bind. eapply wp_mono; [by apply (st_drop (set_mem st m) A [] sh s (st_mem _ _ _ _ _ Hst))|].
    intros st' [Hst' Hb]. apply wp_ret. split; [exact Hb|by left]. }
  unfold JS_NewObjectFromShape. destruct (js_malloc _ _) as [m [p|]] eqn:Em; [|apply Hfail].
  destruct (js_malloc_fresh _ _ _ _ Em) as [Hfr Hp0].
  assert (Hd : p ∉ dom (objs st)) by (unfold addresses in Hfr; set_solver).
  assert (Hs' : get_shape (set_mem st m) sh = Ret s) by by apply get_shape_Some.
  rewrite Hs'. cbn [bind]. change (mem (set_mem st m)) with m.
  destruct (js_realloc_array m (prop_size s)) as [m2 r2]. destruct r2; cbn [negb]; [|apply (Hfail m2)].
  set (stm := set_mem (set_mem st m) m2). set (n := Z.to_nat (prop_size s)).
  assert (Hstm : st_rel stm A [sh]) by by apply st_mem, st_mem.
  assert (Hmake : forall fast exo vs, length vs = n -> (exo, fast) = ((new_flags c).2, (new_flags c).1) ->
    entries (sh_prop s) vs = l ->
    (forall i pr, sh_prop s !! i = Some pr -> atom pr <> 0) -> array_first c (sh_prop s) ->
    created st (put_obj stm p (mkObject c true exo fast sh vs [] 0)) A (a_new c proto l) p).
  { intros fast exo vs Hlen [= -> ->] <- Hno Hfst. split; [done|]. right.
    split_and!; [done|by eapply fresh_aobj|]. set (o := mkObject _ _ _ _ _ _ _ _).
    assert (a_new c proto (entries (sh_prop s) vs) = abs_obj o s) as -> by (unfold a_new, abs_obj; cbn; by rewrite Hproto).
    apply st_new_obj; try done. split_and!; [unfold n in Hlen; cbn; lia| |done].
    intros i pr Hpr E. by destruct (Hno i pr Hpr). }
  destruct Hcase as [(Hc & Hempty & ->)|(-> & Hsh & Hcont & ->)].
  - assert (Hno : forall i pr, sh_prop s !! i = Some pr -> atom pr <> 0) by (rewrite Hempty; by intros [|i]).
    assert (Hfst : array_first c (sh_prop s)) by (by intros ?).
    assert (Hgen : forall fast exo, (exo, fast) = ((new_flags c).2, (new_flags c).1) ->
      wp (let* st := Ret (put_obj stm p (mkObject c true exo fast sh (replicate n PropUninit) [] 0)) in Ret (st, p))
        (fun '(st', r) => created st st' A (a_new c proto []) r)).
    { intros fast exo E. cbn [bind]. apply wp_ret. apply Hmake; try done; [by rewrite length_replicate|].
      by rewrite Hempty. }
    destruct c; try done; try (by apply Hgen).
    (* a C function: its first property *)
    rewrite wr_in by (rewrite length_replicate; lia). cbn [bind]. apply wp_ret. apply Hmake; try done.
    + by rewrite length_insert, length_replicate.
    + by rewrite Hempty.
  - cbv zeta. change (array_shape (put_obj stm p _)) with (array_shape st). rewrite Hsh, Z.eqb_refl.
    destruct (sh_prop s) as [|pr [|]] eqn:Eps; try done. injection Hcont as Ea Ef.
    assert (Hn : (0 < n)%nat) by (unfold n; lia).
    assert (Ew : write_property (put_obj stm p (mkObject GcObjects.JS_CLASS_ARRAY true true true sh (replicate n PropUninit) [] 0))
      p 0 (PropValue (JS_NewInt32 0))
      = Ret (put_obj stm p (mkObject GcObjects.JS_CLASS_ARRAY true true true sh (<[0%nat := PropValue (JS_NewInt32 0)]> (replicate n PropUninit)) [] 0))).
    { unfold write_property. rewrite (get_obj_Some _ p _ (lookup_insert_eq _ _ _)). cbn [bind prop].
      rewrite wr_in by (rewrite length_replicate; lia). cbn [bind].
      unfold put_obj, set_objs, set_prop. cbn. by rewrite insert_insert_eq. }
    subst sh. rewrite Ew. cbn [bind]. apply wp_ret. apply Hmake; try done.
    + by rewrite length_insert, length_replicate.
    + destruct n as [|n']; [lia|]. cbn. by rewrite Ea, Ef.
    + intros [|[|i]] q; try done. intros [= <-]. by rewrite Ea.
    + intros _. exists []. unfold atoms. cbn. by rewrite Ea.
Qed.

(** [JS_NewObjectProtoClass] for the classes without a first property. *)
Lemma new_object_spec st A proto c : st_rel st A [] -> Z.of_nat (size (shapes st)) < 2 ^ 28 ->
  c <> GcObjects.JS_CLASS_ARRAY ->
  wp (JS_NewObjectProtoClass st proto c) (fun '(st', r) => created st st' A (a_new c proto []) r).
Proof.
  intros Hst Hsz Hc. pose proof (st_live _ _ _ Hst) as Hlive. unfold JS_NewObjectProtoClass.
  apply wp_bind. eapply wp_mono; [by apply (find_proto_spec st _ proto Hlive)|].
  intros a [[-> _]|(Ha & s & Hs & Hh & Hp & Hps)].
  - cbn [Z.eqb negb]. apply wp_bind. eapply wp_mono.
    { apply (new_shape2_spec st _ proto 2 2 Hlive Hsz); lia. }
    intros [st1 a] (Ho & Hk & Hb & [[-> Hl]|(Hfr & Ha & Hl & s & Hs & Hh & Hp & Hps & _)]).
    + cbn [Z.eqb]. apply wp_ret. split; [done|]. left. split; [done|].
      eapply st_live_keeps; [exact Hst|exact Hl|done|done|by eapply keeps_weaken; [|exact Hk]].
    + rewrite (proj2 (Z.eqb_neq a 0)) by lia. pose proof (st_gain st A [] st1 a Hst Hl Ho Hk) as Hst1.
      eapply wp_mono; [by apply (from_shape_spec st1 A a s c proto [] Hst1 Hs Hp); left|].
      intros [st2 r] [Hb2 Hr]. split; [|done]. intros x. by rewrite Hb2.
  - rewrite (proj2 (Z.eqb_neq a 0)) by done. cbn [negb].
    apply wp_bind. eapply wp_mono; [by apply (live_dup st _ a s Hlive)|].
    intros st1 (Hl & Ho & Hk & Hb). pose proof (st_gain st A [] st1 a Hst Hl Ho Hk) as Hst1.
    destruct (Hk a s I Hs) as (s1 & Hs1 & E1 & E2 & _).
    eapply wp_mono.
    { apply (from_shape_spec st1 A a s1 c proto [] Hst1 Hs1); [congruence|]. left. split_and!; [done|congruence|done]. }
    intros [st2 r] [Hb2 Hr]. split; [|done]. intros x. by rewrite Hb2.
Qed.

Lemma new_array_spec st A q : st_rel st A [] -> a_array A = Some q ->
  wp (JS_NewArray st) (fun '(st', r) => created st st' A
    (a_new GcObjects.JS_CLASS_ARRAY q [(JS_ATOM_length, array_flags, PropValue (JS_NewInt32 0))]) r).
Proof.
  intros Hst Hq. pose proof (sr_array _ _ _ _ Hst) as Har. rewrite Hq in Har.
  destruct Har as (H0 & s & Hs & Hh & Hp & Hc). unfold JS_NewArray.
  apply wp_bind. eapply wp_mono; [by apply (live_dup st _ _ s (st_live _ _ _ Hst))|].
  intros st1 (Hl & Ho & Hk & Hb). pose proof (st_gain st A [] st1 _ Hst Hl Ho Hk) as Hst1.
  destruct (Hk _ s I Hs) as (s1 & Hs1 & E1 & E2 & _). pose proof Ho as [_ Ea].
  eapply wp_mono.
  { apply (from_shape_spec st1 A _ s1 GcObjects.JS_CLASS_ARRAY q
      [(JS_ATOM_length, array_flags, PropValue (JS_NewInt32 0))] Hst1 Hs1); [congruence|].
    right. split_and!; [done|by rewrite Ea|by rewrite E1|done]. }
  intros [st2 r] [Hb2 Hr]. split; [|done]. intros x. by rewrite Hb2.
Qed.

(** ** The shape of arrays *)

(** A shape of the table that no object has gets an entry. *)
Lemma push_hashed_spec st us a s k fl : live_rel st us -> shapes st !! a = Some s ->
  is_hashed s = true -> sh_ref_count s = 1 -> k <> 0 -> 0 <= fl < 64 -> (k ∉ atoms (sh_prop s)) ->
  prop_count s < prop_size s -> prop_count s + 1 < 2 ^ 26 ->
  wp (add_shape_property st a None k fl) (fun '(st', r) => r = Some a /\ live_rel st' us
    /\ same_objs st st' /\ keeps (fun x => x <> a) st st'
    /\ (forall x, balance st' x = balance st x)
    /\ exists s', shapes st' !! a = Some s' /\ is_hashed s' = true /\ sh_proto s' = sh_proto s
         /\ contents (sh_prop s') = contents (sh_prop s) ++ [(k, fl)]).
Proof.
  intros Hl Hs Hh Href Hk Hfl Hna Hroom Hc. pose proof (lv_rel _ _ Hl) as Hrel.
  destruct (sh_shape _ _ _ Hrel a s Hs) as (Ha0 & Hok & Hus & _).
  unfold add_shape_property. rewrite (get_shape_Some _ _ _ Hs). cbn [bind]. rewrite Hh.
  apply wp_bind. eapply wp_mono; [by apply (unlink_spec st us a s Hrel)|].
  intros st1 [Hrel1 Hre1]. pose proof (relinked_same _ _ Hre1) as HS1.
  destruct (same_shape _ _ _ _ HS1 Hs) as (n1 & Hs1). set (s1 := set_hash_next s n1) in *.
  rewrite (proj2 (Z.leb_gt _ _)) by done. cbn [bind].
  rewrite (get_shape_Some _ _ _ Hs1). cbn [bind].
  set (s2 := set_hash s1 (shape_hash (shape_hash (sh_hash s) k) fl)). set (st2 := put_shape st1 a s2).
  set (s3 := push_prop s2 k fl). set (o0 := mkObject GcObjects.JS_CLASS_OBJECT true false false 0 [] [] 0).
  assert (Hok3 : shape_ok s3).
  { assert (s2 = push_hash s1 k fl) as E by (unfold push_hash; cbn; by rewrite Hh).
    unfold s3. rewrite E. apply push_ok; try done. by apply shape_ok_next. }
  set (X := put_obj (put_shape st2 a s3) 0 o0).
  assert (Hrel3 : shapes_rel (put_shape st1 a s3) us a).
  { eapply shapes_put; [exact Hrel1|..]; try done.
    - change (sh_ref_count s3) with (sh_ref_count s). lia.
    - lia.
    - right. split; [by intros [? _]|]. by right.
    - by left.
    - rewrite Hs1. unfold hashed_count. change (is_hashed s3) with (is_hashed s).
      change (is_hashed s1) with (is_hashed s). rewrite Hh. lia. }
  assert (HrelX : shapes_rel X us a).
  { assert (X = put_obj (put_shape st1 a s3) 0 o0) as ->.
    { unfold X, st2, put_obj, put_shape, set_objs, set_shapes. cbn. by rewrite insert_insert_eq. }
    destruct Hrel3. by split. }
  apply wp_bind. eapply wp_mono.
  { apply (link_commute st2 0 o0 a s2 s3 (fun st' => shapes_rel st' us 0 /\ relinked X st')).
    - cbn. by rewrite lookup_insert_eq.
    - done.
    - eapply wp_mono; [apply (link_spec X us a s3 HrelX); [cbn; by rewrite lookup_insert_eq|done]|]. done. }
  cbv beta. intros st3 (n & Hs3 & Eo3 & HrelF & HreF).
  assert (Hok2 : shape_table_ok (set_hash_next s2 n)) by apply Hok.
  rewrite (push_run st3 a (set_hash_next s2 n) k fl Hs3 Hok2 Hroom). cbn [wp].
  set (sF := push_prop (set_hash_next s2 n) k fl).
  assert (HF : set_hash_next s3 n = sF) by done. rewrite HF in HrelF, HreF.
  pose proof HreF as (_ & _ & _ & EaF & _ & HSF). pose proof Hre1 as (_ & _ & Eo1 & Ea1 & _).
  split_and!.
  - done.
  - split; [by destruct HrelF|]. intros x sx Hx.
    change (put_obj (put_shape st3 a sF) 0 o0) with (set_objs (put_shape st3 a sF) (<[0 := o0]> (objs st3))) in HSF.
    destruct (same_shape_inv _ _ _ _ HSF Hx) as (s0 & Hs0 & _). cbn in Hs0.
    destruct (decide (x = a)) as [->|Hne]; [by apply (lv_pos _ _ Hl a s)|].
    rewrite !lookup_insert_ne in Hs0 by done.
    destruct (same_shape_inv _ _ _ _ HS1 Hs0) as (s4 & Hs4 & _). by apply (lv_pos _ _ Hl x s4).
  - split; [cbn; by rewrite Eo3|]. cbn in EaF |- *. by rewrite EaF.
  - intros x sx Hne Hx. destruct (same_shape _ _ _ _ HS1 Hx) as (nx & Hx1).
    assert (HxX : shapes X !! x = Some (set_hash_next sx nx)) by (cbn; by rewrite !lookup_insert_ne by done).
    destruct (same_shape _ _ _ _ HSF HxX) as (ny & Hy). exists (set_hash_next (set_hash_next sx nx) ny).
    split; [exact Hy|]. by split_and!.
  - intros x. rewrite shape_balance_emit. change (balance (put_shape st3 a sF) x) with (balance (put_obj (put_shape st3 a sF) 0 o0) x).
    rewrite (relinked_balance _ _ x HreF). change (balance X x) with (balance (put_shape st2 a s3) x).
    unfold st2. rewrite !balance_put. unfold refs_at. cbn [shapes put_shape set_shapes].
    rewrite lookup_insert_eq, Hs1. change (shape_refs s2) with (shape_refs s). change (shape_refs s1) with (shape_refs s).
    rewrite (relinked_balance _ _ x Hre1). unfold shape_refs. rewrite !count_item_app.
    change (sh_proto s3) with (sh_proto s). change (sh_prop s3) with (sh_prop s ++ [mkShapeProp (u26 (last_in (prop_hash_mask s2) (Z.land k (prop_hash_mask s2)) (atoms (sh_prop s2)))) (u6 fl) k]).
    unfold atom_refs. rewrite fmap_app, count_item_app. cbn. lia.
  - exists sF. cbn [shapes emit put_shape set_shapes]. rewrite lookup_insert_eq. split_and!; [done|done|done|].
    unfold sF, push_prop. cbn [sh_prop]. unfold contents. rewrite fmap_app. cbn [fmap list_fmap atom flags].
    by rewrite u6_id.
Qed.

(** The start of a context: with memory, the shape of arrays. *)
Lemma init_array_spec st A proto : st_rel st A [] -> a_array A = None ->
  Z.of_nat (size (shapes st)) < 2 ^ 28 -> (forall m live, is_Some (js_malloc m live).2) ->
  wp (init_array_shape st proto) (fun '(st', r) => r = 0
    /\ st_rel st' (mkAS (a_objs A) (Some proto)) [] /\ forall x, balance st' x = balance st x).
Proof.
  intros Hst Hnone Hsz Hmem. pose proof (sr_array _ _ _ _ Hst) as Har. rewrite Hnone in Har.
  pose proof (st_live _ _ _ Hst) as Hlive. unfold init_array_shape.
  assert (Hne : wp (js_new_shape2 st proto JS_PROP_INITIAL_HASH_SIZE 1) (fun x => x.2 <> 0)).
  { unfold js_new_shape2. pose proof (grow_spec st _ Hlive Hsz) as Hg.
    apply wp_bind. eapply wp_mono; [exact Hg|]. intros st1 (Hl1 & _).
    destruct (js_malloc (mem st1) (addresses st1)) as [m [a|]] eqn:Em; cycle 1.
    { destruct (Hmem (mem st1) (addresses st1)) as [y Hy]. rewrite Em in Hy. done. }
    destruct (js_malloc_fresh _ _ _ _ Em) as [_ Ha]. set (st2 := put_shape _ _ _).
    unfold js_shape_hash_link. destruct (get_shape st2 a) as [s| |] eqn:Eg; cbn [bind]; cycle 1.
    1,2: unfold st2, get_shape in Eg; cbn in Eg; by rewrite lookup_insert_eq in Eg.
    assert (Hh : 0 <= sh_hash s < 2 ^ 32).
    { unfold st2, get_shape in Eg. cbn in Eg. rewrite lookup_insert_eq in Eg. injection Eg as <-. apply u32_bound. }
    pose proof (lv_rel _ _ Hl1) as Hr1. pose proof (sh_bits _ _ _ Hr1) as Hbits. pose proof (sh_size _ _ _ Hr1) as Hs1.
    pose proof (get_shape_hash_bound (sh_hash s) (shape_hash_bits st1) Hh ltac:(lia)) as Hb.
    change (rt_shape_hash st2) with (rt_shape_hash st1). change (shape_hash_bits st2) with (shape_hash_bits st1).
    destruct (lookup_lt_is_Some_2 (rt_shape_hash st1) (Z.to_nat (get_shape_hash (sh_hash s) (shape_hash_bits st1)))) as [f Hf]; [lia|].
    rewrite (rd_Some _ _ f) by (lia || done). cbn [bind]. cbn [rt_shape_hash put_shape set_shapes].
    change (rt_shape_hash st2) with (rt_shape_hash st1). rewrite wr_in by lia. cbn. lia. }
  pose proof (new_shape2_spec st _ proto 2 1 Hlive Hsz ltac:(lia) ltac:(lia)) as Hw.
  change (2 ^ 2) with JS_PROP_INITIAL_HASH_SIZE in Hw.
  destruct (js_new_shape2 st proto JS_PROP_INITIAL_HASH_SIZE 1) as [[st1 a]| |]; [|done..].
  cbn [bind wp snd] in *. destruct Hw as (Ho & Hk & Hb & [[-> _]|(Hfr & Ha & Hl & s & Hs & Hh & Hp & Hps & Hpz)]); [done|].
  set (st2 := set_array_shape st1 a).
  assert (Hl2 : live_rel st2 (us_add (users st []) a 1)) by (destruct Hl as [[] ?]; by split; [split|]).
  assert (Hus : us_add (users st []) a 1 a = 1).
  { rewrite us_add_eq, (fresh_users st _ a Hlive); [done|]. unfold addresses in Hfr. set_solver. }
  destruct (sh_shape _ _ _ (lv_rel _ _ Hl2) a s Hs) as (_ & _ & Href & _).
  apply wp_bind. eapply wp_mono.
  { apply (push_hashed_spec st2 _ a s JS_ATOM_length array_flags Hl2 Hs Hh); try done;
      [lia|rewrite Hps; apply not_elem_of_nil|unfold prop_count; rewrite Hps, Hpz; done|unfold prop_count; by rewrite Hps]. }
  intros [st3 r] (-> & Hl3 & [Eo3 Ea3] & Hk3 & Hb3 & s3 & Hs3 & Hh3 & Hp3 & Hc3). apply wp_ret.
  destruct Ho as [Eo1 Ea1]. split_and!; [done| |intros x; change (balance (set_array_shape st3 a) x) with (balance st3 x); rewrite Hb3; apply Hb].
  assert (EU : forall x, us_add (users st []) a 1 x = users (set_array_shape st3 a) [] x).
  { intros x. unfold us_add, users. cbn [objs set_array_shape array_shape]. rewrite Eo3. cbn [objs st2 set_array_shape].
    rewrite Eo1, Har. unfold ind. cbn. repeat case_decide; subst; try done; lia. }
  split.
  - eapply shapes_rel_ext; [exact EU|]. destruct (lv_rel _ _ Hl3). by split.
  - intros x sx Hx. rewrite <- EU. by apply (lv_pos _ _ Hl3 x sx).
  - intros q. cbn [objs set_array_shape a_objs]. rewrite Eo3. cbn [objs st2 set_array_shape]. rewrite Eo1.
    pose proof (sr_objs _ _ _ _ Hst q) as Hq. destruct (objs st !! q) as [oq|] eqn:Eq, (a_objs A !! q) as [aq|]; try done.
    destruct Hq as (sq & Hsq & (Hsz' & Hd & Hfst) & ->). destruct (Hk (shape oq) sq I Hsq) as (s4 & Hs4 & Ec4).
    destruct (Hk3 (shape oq) s4) as (s5 & Hs5 & Ec5); [|done|].
    { intros E. apply Hfr. unfold addresses. rewrite E in Hsq. apply elem_of_union_l, elem_of_dom. by eexists. }
    destruct (same_contents_trans _ _ _ Ec4 Ec5) as (F1 & F2 & F3 & _).
    exists s5. split; [done|]. split; [split_and!; [by rewrite F3|by rewrite F1..]|]. unfold abs_obj. by rewrite F1, F2.
  - intros q oq. cbn [objs set_array_shape]. rewrite Eo3. cbn [objs st2 set_array_shape]. rewrite Eo1. apply (sr_pos _ _ _ _ Hst).
  - cbn [a_array array_shape set_array_shape]. split; [lia|]. exists s3. split_and!; [done|done|congruence|].
    by rewrite Hc3, Hps.
Qed.

(** ** The end of an object *)

(** What an entry holds. *)
Definition entry_refs (e : entry) : list ref_item :=
  match property_refs e.2 e.1.2 with Ret l => l | _ => [] end.

Definition obj_refs (ao : aobject) : list ref_item :=
  concat (entry_refs <$> a_props ao) ++ (RefValue <$> a_values ao).

Lemma free_properties_spec ps : forall vs st, (length ps <= length vs)%nat ->
  (forall i pr, ps !! i = Some pr -> atom pr = 0 -> flags pr = 0 /\ vs !! i = Some (PropValue JS_UNDEFINED)) ->
  Forall typed (entries ps vs) ->
  exists l, free_properties st vs ps = Ret (emit st (Free <$> l))
    /\ forall x, counted x -> count_item x l = count_item x (concat (entry_refs <$> entries ps vs)).
Proof.
  induction ps as [|pr ps IH]; intros [|v vs] st Hlen Hd Ht; cbn [length] in Hlen; try lia.
  - exists []. split; [|done]. cbn. unfold emit. rewrite app_nil_r. by destruct st.
  - exists []. split; [|done]. cbn. unfold emit. rewrite app_nil_r. by destruct st.
  - cbn [entries] in Ht |- *. apply Forall_app in Ht as [Ht1 Ht2].
    assert (Hone : exists l, property_refs v (flags pr) = Ret l
      /\ forall x, counted x -> count_item x l
         = count_item x (concat (entry_refs <$> (if atom pr =? 0 then [] else [(atom pr, flags pr, v)])))).
    { destruct (Z.eqb_spec (atom pr) 0) as [E|E].
      - destruct (Hd 0%nat pr eq_refl E) as [Ef Ev]. injection Ev as ->. rewrite Ef.
        exists [RefValue JS_UNDEFINED]. split; [done|]. intros x [_ Hx]. cbn. by rewrite decide_False by congruence.
      - apply Forall_cons in Ht1 as [[l Hl] _]. cbn [fst snd] in Hl. exists l. split; [done|]. intros x _.
        cbn [fmap list_fmap]. unfold entry_refs. cbn [fst snd]. rewrite Hl. cbn. by rewrite app_nil_r. }
    destruct Hone as (l1 & Hl1 & Hc1). cbn [free_properties]. unfold free_property. rewrite Hl1. cbn [bind].
    destruct (IH vs (emit st (Free <$> l1)) ltac:(lia)) as (l2 & -> & Hc2); [|done|].
    { intros i q Hq. by apply (Hd (S i)). }
    exists (l1 ++ l2). split.
    + unfold emit. cbn. by rewrite fmap_app, app_assoc.
    + intros x Hx. by rewrite fmap_app, concat_app, !count_item_app, Hc1, Hc2.
Qed.

Lemma free_object_spec st A p ao : st_rel st A [] -> a_objs A !! p = Some ao -> Forall typed (a_props ao) ->
  wp (free_object st p) (fun st' => st_rel st' (mkAS (delete p (a_objs A)) (a_array A)) []
    /\ forall x, counted x -> balance st' x = balance st x - count_item x (obj_refs ao)).
Proof.
  intros Hst Hao Ht. destruct (st_aobj _ _ _ _ _ _ Hst Hao) as (o & s & Hp & Hs & Hook & ->).
  destruct (own_abs st A [] p o s Hst Hp Hs) as (_ & _ & Hok & _). pose proof (st_live _ _ _ Hst) as Hlive.
  unfold free_object. rewrite (get_obj_Some _ _ _ Hp). cbn [bind]. rewrite (get_shape_Some _ _ _ Hs). cbn [bind].
  pose proof Hook as (_ & Hd & _).
  destruct (free_properties_spec (sh_prop s) (prop o) st (obj_length o s Hook Hok) Hd Ht) as (l & -> & Hc).
  cbn [bind]. apply wp_bind. eapply wp_mono.
  { apply (live_free (emit st (Free <$> l)) (users st []) (shape o) s); [by apply live_emit|done]. }
  intros st1 (Hl1 & [Eo1 Ea1] & Hk1 & Hb1). apply wp_ret.
  set (st2 := set_objs (emit st1 (Free ∘ RefValue <$> values o)) (delete p (objs st1))).
  assert (Eo2 : objs st2 = delete p (objs st)) by (unfold st2; cbn; by rewrite Eo1).
  assert (Ear : array_shape st2 = array_shape st) by (unfold st2; cbn; by rewrite Ea1).
  assert (EU : forall x, us_add (users st []) (shape o) (-1) x = users st2 [] x).
  { intros x. unfold us_add, users. rewrite Eo2, Ear.
    pose proof (msum_delete (fun o' => ind (shape o') x) (objs st) p o Hp) as E. cbv beta in E.
    destruct (decide (x = shape o)) as [->|Hne].
    - rewrite ind_eq in E. lia.
    - rewrite (ind_ne (shape o) x) in E by congruence. lia. }
  enough (Hgoal : st_rel st2 (mkAS (delete p (a_objs A)) (a_array A)) []
    /\ forall x, counted x -> balance st2 x = balance st x - count_item x (obj_refs (abs_obj o s)))
    by exact Hgoal.
  split.
  - split.
    + eapply shapes_rel_ext; [exact EU|]. destruct (lv_rel _ _ Hl1). by split.
    + intros a sa Ha. rewrite <- EU. by apply (lv_pos _ _ Hl1 a sa).
    + intros q. rewrite Eo2. cbn [a_objs]. destruct (decide (q = p)) as [->|Hne]; [by rewrite !lookup_delete_eq|].
      rewrite !lookup_delete_ne by done. pose proof (sr_objs _ _ _ _ Hst q) as Hq.
      destruct (objs st !! q) as [oq|] eqn:Eq, (a_objs A !! q) as [aq|]; try done.
      destruct Hq as (sq & Hsq & (Hsz & Hdq & Hfst) & ->).
      destruct (Hk1 (shape oq) sq) as (s2 & Hs2 & F1 & F2 & F3 & _); [|done|].
      { rewrite EU. assert (Hq2 : objs st2 !! q = Some oq) by (by rewrite Eo2, lookup_delete_ne).
        pose proof (users_obj st2 [] q oq Hq2). lia. }
      exists s2. split; [done|]. split; [split_and!; [by rewrite F3|by rewrite F1..]|]. unfold abs_obj. by rewrite F1, F2.
    + intros q oq. rewrite Eo2. destruct (decide (q = p)) as [->|Hne]; [by rewrite lookup_delete_eq|].
      rewrite lookup_delete_ne by done. apply (sr_pos _ _ _ _ Hst).
    + pose proof (sr_array _ _ _ _ Hst) as Har. cbn [a_array]. rewrite Ear.
      destruct (a_array A) as [q|]; [|done]. destruct Har as (H0 & sa & Hsa & Hh & Hpr & Hcs).
      destruct (Hk1 (array_shape st) sa) as (s2 & Hs2 & F1 & F2 & _ & F4 & _); [|done|].
      { rewrite EU, <- Ear. pose proof (users_array st2 []). rewrite Ear in *. specialize (H H0). lia. }
      split; [done|]. exists s2. rewrite F1, F2, F4. done.
  - intros x Hx. unfold st2. change (balance (set_objs ?S _) x) with (balance S x).
    rewrite shape_balance_emit, Hb1, shape_balance_emit, net_free, (Hc x Hx).
    assert (Free ∘ RefValue <$> values o = Free <$> (RefValue <$> values o)) as -> by by rewrite list_fmap_compose.
    rewrite net_free. unfold obj_refs. rewrite count_item_app. cbn [a_props a_values abs_obj]. lia.
Qed.
End new.

(** ** Well-formed objects

    The invariant of the objects of the language that the operations keep. *)

Record wf (A : astate) : Prop := {
  wf_obj : forall p ao, a_objs A !! p = Some ao -> ao_wf ao;
  wf_proto : forall p ao, a_objs A !! p = Some ao -> proto_ends A (a_proto ao);
  wf_array : forall q, a_array A = Some q -> proto_ends A q
}.

(** ** One object *)

Lemma a_find_head k fl v l : a_find ((k, fl, v) :: l) k = Some (k, fl, v).
Proof. unfold a_find. cbn. by rewrite decide_True. Qed.

Lemma push_wf ao a fl pr : ao_wf ao -> (a ∉ keys (a_props ao)) -> typed (a, fl, pr) ->
  (a_fast ao = true -> Atoms.__JS_AtomIsTaggedInt a = false) -> ao_wf (a_push ao (a, fl, pr)).
Proof.
  intros [H1 H2 H3] Hna Ht Hf. split; cbn [a_push a_props a_class a_fast].
  - apply Forall_app. split; [done|]. by constructor.
  - intros E. destruct (H2 E) as (fl0 & v & l & -> & Hc). by eexists fl0, v, _.
  - intros E k. rewrite keys_app, elem_of_app. cbn [keys fmap list_fmap key fst].
    rewrite list_elem_of_singleton. intros [Hk|Hk]; [by apply H3|].
    change (k = a) in Hk. subst k. by apply Hf.
Qed.

Lemma remove_wf ao e : ao_wf ao -> NoDup (keys (a_props ao)) -> a_find (a_props ao) (key e) = Some e ->
  Z.land e.1.2 JS_PROP_CONFIGURABLE <> 0 -> ao_wf (a_with ao (a_remove (a_props ao) (key e))).
Proof.
  intros [H1 H2 H3] Hnd Hf Hc. split; cbn [a_with a_props a_class a_fast].
  - unfold a_remove. apply Forall_forall. intros x [_ Hx]%list_elem_of_filter.
    by apply (proj1 (Forall_forall _ _) H1).
  - intros E. destruct (H2 E) as (fl & v & l & El & Hfl). rewrite El in Hf |- *.
    exists fl, v, (a_remove l (key e)). split; [|done]. unfold a_remove.
    rewrite filter_cons_True; [done|]. intros Hk. change (JS_ATOM_length = key e) in Hk.
    rewrite <- Hk, a_find_head in Hf. injection Hf as <-. by apply Hc.
  - intros E k. rewrite keys_remove. intros [_ Hk]%list_elem_of_filter. by apply H3.
Qed.

Lemma property_refs_tmask pr fl fl' : Z.land fl JS_PROP_TMASK = Z.land fl' JS_PROP_TMASK ->
  property_refs pr fl = property_refs pr fl'.
Proof. intros E. unfold property_refs. by rewrite E. Qed.

Lemma flags_wf ao a fl e : ao_wf ao -> NoDup (keys (a_props ao)) -> a_find (a_props ao) a = Some e ->
  Z.land fl JS_PROP_TMASK = Z.land e.1.2 JS_PROP_TMASK ->
  (a_class ao = GcObjects.JS_CLASS_ARRAY -> a = JS_ATOM_length -> Z.land fl JS_PROP_CONFIGURABLE = 0) ->
  ao_wf (a_with ao (a_alter (a_props ao) a (fun e => (fl, e.2)))).
Proof.
  intros [H1 H2 H3] Hnd Hf Ht Hc. split; cbn [a_with a_props a_class a_fast].
  - unfold a_alter. apply Forall_fmap, Forall_forall. intros x Hx. cbn. case_decide as E.
    + rewrite (a_find_unique _ a e x Hnd Hf Hx E). destruct (a_find_Some _ _ _ Hf) as [Hin _].
      destruct (proj1 (Forall_forall _ _) H1 _ Hin) as [l Hl]. exists l. cbn.
      by rewrite (property_refs_tmask _ fl e.1.2).
    + by apply (proj1 (Forall_forall _ _) H1).
  - intros E. destruct (H2 E) as (fl0 & v & l & -> & Hfl). cbn [a_alter fmap list_fmap].
    destruct (decide (key (JS_ATOM_length, fl0, PropValue v) = a)) as [Ek|Ek]; eexists _, v, _; split; try done.
    by apply (Hc E).
  - intros E k. rewrite keys_alter. by apply H3.
Qed.

Lemma set_proto_wf ao q : ao_wf ao -> ao_wf (a_set_proto ao q).
Proof. intros [? ? ?]. by split. Qed.

Lemma set_values_wf ao vs : ao_wf ao -> ao_wf (a_set_values ao vs).
Proof. intros [? ? ?]. by split. Qed.

Lemma new_wf {se : ShapeEngine} c q : c <> GcObjects.JS_CLASS_ARRAY -> ao_wf (a_new c q []).
Proof. intros Hc. split; [constructor|done|]. intros _ k Hk. by apply elem_of_nil in Hk. Qed.

Lemma new_array_wf {se : ShapeEngine} q :
  ao_wf (a_new GcObjects.JS_CLASS_ARRAY q [(JS_ATOM_length, array_flags, PropValue (JS_NewInt32 0))]).
Proof.
  split.
  - constructor; [by eexists|constructor].
  - intros _. by exists array_flags, (JS_NewInt32 0), [].
  - intros _ k. cbn [a_new a_props]. intros Hk%elem_of_keys. destruct Hk as (fl & v & Hk).
    apply list_elem_of_singleton in Hk. injection Hk as -> _ _. reflexivity.
Qed.

(** The length of an array changed. *)
Definition a_set_length (ao : aobject) (v : JSValue) : aobject :=
  match a_props ao with
  | (k, fl, _) :: l => a_with ao ((k, fl, PropValue v) :: l)
  | [] => ao
  end.

Lemma set_length_wf ao v : ao_wf ao -> a_class ao = GcObjects.JS_CLASS_ARRAY -> ao_wf (a_set_length ao v).
Proof.
  intros [H1 H2 H3] Hc. destruct (H2 Hc) as (fl & w & l & E & Hfl). unfold a_set_length. rewrite E.
  rewrite E in H1, H3. split; cbn [a_with a_props a_class a_fast].
  - apply Forall_cons in H1 as [[x Hx] Hl]. constructor; [|done]. unfold typed in *. cbn in *.
    unfold property_refs in *. destruct (Z.land fl JS_PROP_TMASK =? 0); cbn [negb] in *; [by eexists|].
    destruct (_ =? _); [done|]. by destruct (_ =? _).
  - intros _. by exists fl, v, l.
  - exact H3.
Qed.

(** ** All of them *)

Lemma wf_set A p ao ao' : wf A -> a_objs A !! p = Some ao -> ao_wf ao' -> a_proto ao' = a_proto ao ->
  wf (set_aobj A p ao').
Proof.
  intros [H1 H2 H3] Hp Hw Ep.
  assert (E : protos (set_aobj A p ao') = protos A).
  { rewrite protos_insert, Ep. apply insert_id. unfold protos. by rewrite lookup_fmap, Hp. }
  assert (Ee : forall q, proto_ends (set_aobj A p ao') q <-> proto_ends A q) by (intros; unfold proto_ends; by rewrite E).
  split; cbn [a_objs set_aobj a_array].
  - intros q aq. destruct (decide (q = p)) as [->|Hne].
    + rewrite lookup_insert_eq. by intros [= <-].
    + rewrite lookup_insert_ne by done. apply H1.
  - intros q aq Hq. apply Ee. destruct (decide (q = p)) as [->|Hne].
    + rewrite lookup_insert_eq in Hq. injection Hq as <-. rewrite Ep. by eapply H2.
    + rewrite lookup_insert_ne in Hq by done. by eapply H2.
  - intros q Hq. apply Ee. by apply H3.
Qed.

Lemma wf_set_proto A p ao proto l : wf A -> a_objs A !! p = Some ao -> chain (protos A) proto l -> p ∉ l ->
  wf (set_aobj A p (a_set_proto ao proto)).
Proof.
  intros [H1 H2 H3] Hp Hl Hn.
  assert (Ee : forall q, proto_ends A q -> proto_ends (set_aobj A p (a_set_proto ao proto)) q).
  { intros q [lq Hq]. unfold proto_ends. rewrite protos_insert. by eapply chain_redirect. }
  split; cbn [a_objs set_aobj a_array].
  - intros q aq. destruct (decide (q = p)) as [->|Hne].
    + rewrite lookup_insert_eq. intros [= <-]. apply set_proto_wf. by eapply H1.
    + rewrite lookup_insert_ne by done. apply H1.
  - intros q aq. destruct (decide (q = p)) as [->|Hne].
    + rewrite lookup_insert_eq. intros [= <-]. apply Ee. by exists l.
    + rewrite lookup_insert_ne by done. intros Hq. by eapply Ee, H2.
  - intros q Hq. by apply Ee, H3.
Qed.

Lemma wf_new A p ao : wf A -> a_objs A !! p = None -> ao_wf ao -> proto_ends A (a_proto ao) ->
  wf (set_aobj A p ao).
Proof.
  intros [H1 H2 H3] Hp Hw Hpr.
  assert (Ee : forall q, proto_ends A q -> proto_ends (set_aobj A p ao) q).
  { intros q [l Hl]. exists l. rewrite protos_insert. apply chain_insert_ne; [done|]. intros Hin.
    destruct (chain_dom _ _ _ _ Hl Hin) as [n Hn]. unfold protos in Hn. by rewrite lookup_fmap, Hp in Hn. }
  split; cbn [a_objs set_aobj a_array].
  - intros q aq. destruct (decide (q = p)) as [->|Hne].
    + rewrite lookup_insert_eq. by intros [= <-].
    + rewrite lookup_insert_ne by done. apply H1.
  - intros q aq. destruct (decide (q = p)) as [->|Hne].
    + rewrite lookup_insert_eq. intros [= <-]. by apply Ee.
    + rewrite lookup_insert_ne by done. intros Hq. by eapply Ee, H2.
  - intros q Hq. by apply Ee, H3.
Qed.

(** No object leads to [p]. *)
Definition unused (A : astate) (p : Z) : Prop :=
  p <> 0 /\ a_array A <> Some p /\ forall q aq, a_objs A !! q = Some aq -> a_proto aq <> p.

Lemma wf_free A p : wf A -> unused A p -> wf (mkAS (delete p (a_objs A)) (a_array A)).
Proof.
  intros [H1 H2 H3] (Hp0 & Ha & Hu).
  assert (Ee : forall q, q <> p -> proto_ends A q -> proto_ends (mkAS (delete p (a_objs A)) (a_array A)) q).
  { intros q Hq [l Hl]. exists l. eapply chain_frame; [exact Hl|]. intros x Hx. unfold protos. cbn [a_objs].
    rewrite fmap_delete, lookup_delete_ne; [done|]. intros <-. revert Hx.
    eapply chain_skip; [exact Hl|done|]. intros y Hy. unfold protos in Hy. rewrite lookup_fmap in Hy.
    apply fmap_Some in Hy as (ay & Hay & E). by apply (Hu y ay Hay). }
  split; cbn [a_objs a_array].
  - intros q aq [_ Hq]%lookup_delete_Some. by eapply H1.
  - intros q aq [_ Hq]%lookup_delete_Some. apply Ee; [by eapply Hu|by eapply H2].
  - intros q Hq. apply Ee; [congruence|by apply H3].
Qed.
