(* ===== verification/ShapeArraySpec.v ===== *)
(** * Elements and length of fast arrays *)

From stdpp Require Import base tactics numbers list option gmap.
From Stdlib Require Import ZArith Lia SpecFloat.
From S2P Require Import Prelude AtomsSpec Values Shapes Arrays ShapeTableSpec ShapeHashSpec ShapeLifeSpec ShapeMakeSpec ShapeRel ShapeOpSpec ShapeAddSpec ShapePropSpec ShapeDelSpec ShapeDeleteSpec ShapeNewSpec.
From S2P Require GcObjects.

Open Scope Z_scope.

Section array.
Context {se : ShapeEngine} {ok : ShapeEngineOk se}.

Abbreviation st_rel st A ex := (st_rel_out st A ex 0).

(** The first entry of an array. *)
Lemma array_entry st A ex p ao fl w l : st_rel st A ex -> a_objs A !! p = Some ao ->
  a_class ao = GcObjects.JS_CLASS_ARRAY -> a_props ao = (JS_ATOM_length, fl, w) :: l ->
  exists o s pr vs, objs st !! p = Some o /\ shapes st !! shape o = Some s /\ ao = abs_obj o s
    /\ sh_prop s !! 0%nat = Some pr /\ flags pr = fl /\ prop o = w :: vs /\ entry_at st p 0 JS_ATOM_length.
Proof.
  intros Hst Hao Hc El. destruct (st_aobj _ _ _ _ _ _ Hst Hao) as (o & s & Hp & Hs & Hook & ->).
  destruct (own_abs st A ex p o s Hst Hp Hs) as (_ & _ & Hok & _). pose proof (obj_length o s Hook Hok) as Hlen.
  destruct Hook as (_ & _ & Hfst). destruct (Hfst Hc) as [la Ela].
  destruct (sh_prop s) as [|pr ps] eqn:Eps; [done|]. injection Ela as Ea _.
  destruct (prop o) as [|v vs] eqn:Ev; [cbn in Hlen; lia|].
  cbn [abs_obj a_props] in El. rewrite Eps, Ev in El. cbn [entries] in El. rewrite Ea in El. cbn in El.
  injection El as Ef Ew _. exists o, s, pr, vs. split_and!; try done; [by rewrite Eps|congruence|].
  exists o, s, pr, v. split_and!; try done; [by rewrite Eps|by rewrite Ev].
Qed.

(** The length written. *)
Lemma write_length st A ex p ao fl w l v : st_rel st A ex -> a_objs A !! p = Some ao ->
  a_class ao = GcObjects.JS_CLASS_ARRAY -> a_props ao = (JS_ATOM_length, fl, w) :: l ->
  wp (write_property st p 0 (PropValue v)) (fun st' => st_rel st' (set_aobj A p (a_set_length ao v)) ex
    /\ (forall x, balance st' x = balance st x)
    /\ exists o, objs st !! p = Some o /\ objs st' !! p = Some (set_prop o (<[0%nat := PropValue v]> (prop o)))).
Proof.
  intros Hst Hao Hc El. destruct (array_entry st A ex p ao fl w l Hst Hao Hc El)
    as (o & s & pr & vs & Hp & Hs & Eao & Hpr & Efl & Evs & He).
  eapply wp_mono; [by apply (write_spec st A ex p 0 JS_ATOM_length ao (PropValue v) Hst)|].
  intros st' (fl' & [v' Hf] & Hst' & Es & Elog & o' & Ho' & Eo). split_and!.
  - rewrite El, a_find_head in Hf. injection Hf as <- _.
    unfold a_set_length. rewrite El in Hst' |- *.
    assert (NoDup (keys (a_props ao))) as Hnd.
    { rewrite Eao. destruct (st_aobj _ _ _ _ _ _ Hst Hao) as (o2 & s2 & Hp2 & Hs2 & Hook & _).
      destruct (own_abs st A ex p o2 s2 Hst Hp2 Hs2) as (_ & _ & Hok & _).
      assert (o2 = o) as -> by congruence. assert (s2 = s) as -> by congruence. by apply obj_nodup. }
    rewrite El in Hnd. pose proof (a_alter_middle [] l (JS_ATOM_length, fl, w) Hnd (fun _ => (fl, PropValue v))) as Ea.
    cbn [app key fst snd] in Ea. by rewrite Ea in Hst'.
  - intros x. unfold balance. by rewrite Es, Elog.
  - exists o'. split; [done|]. by rewrite Eo, lookup_insert_eq.
Qed.

(** ** One more element *)

(** The growth of an array by the element [val]: if memory runs out, the
    length was already changed. *)
Definition push_rel (strict : bool) (A : astate) (p : Z) (ao : aobject) (val : JSValue) (flags0 r : Z)
    (A' : astate) (rel : list ref_item) : Prop :=
  exists fl v l, a_props ao = (JS_ATOM_length, fl, PropValue v) :: l /\
  let n := Z.of_nat (length (a_values ao)) + 1 in
  let grow ao1 :=
    (r = -1 /\ A' = set_aobj A p ao1 /\ rel = [RefValue val])
    \/ (r = 1 /\ A' = set_aobj A p (a_set_values ao1 (a_values ao ++ [val])) /\ rel = []) in
  match v with
  | JS_INT len =>
      if u32 len <? n then
        if Z.land fl JS_PROP_WRITABLE =? 0 then
          r = throw_or_false strict flags0 /\ A' = A /\ rel = [RefValue val]
        else grow (a_set_length ao (JS_NewInt32 n))
      else grow ao
  | _ => grow ao
  end.

Lemma store_spec st A ex p ao val n :
  st_rel st A ex -> a_objs A !! p = Some ao -> n = Z.of_nat (length (a_values ao)) + 1 -> 0 < n < 2 ^ 26 ->
  wp (store_element st p val n)
    (fun '(st', r) => exists rel A', st_rel st' A' ex
      /\ ((r = -1 /\ A' = A /\ rel = [RefValue val])
          \/ (r = 1 /\ A' = set_aobj A p (a_set_values ao (a_values ao ++ [val])) /\ rel = []))
      /\ forall x, balance st' x = balance st x - count_item x rel).
Proof.
  intros Hst Hao En Hn. destruct (st_aobj _ _ _ _ _ _ Hst Hao) as (o & s & Hp & Hs & Hook & ->).
  unfold store_element. rewrite (get_obj_Some _ _ _ Hp). cbn [bind].
  assert (Hput : forall m size, n <= size ->
    wp (let* _ := c_assert (n <=? size) in
        Ret (put_obj (set_mem st m) p (set_array o (fast_array o) (values o ++ [val]) size), 1))
      (fun '(st', r) => exists rel A', st_rel st' A' ex
        /\ ((r = -1 /\ A' = A /\ rel = [RefValue val])
            \/ (r = 1 /\ A' = set_aobj A p (a_set_values (abs_obj o s) (values o ++ [val])) /\ rel = []))
        /\ forall x, balance st' x = balance st x - count_item x rel)).
  { intros m sz Hsz. rewrite (proj2 (Z.leb_le _ _)) by done. cbn [c_assert bind]. apply wp_ret.
    exists []. eexists. split_and!; [|by right|].
    - apply (st_put_obj (set_mem st m) A ex ex 0 p o (set_array o (fast_array o) (values o ++ [val]) sz) s); try done.
      by apply st_mem.
    - intros x. change (balance (put_obj ?S _ _) x) with (balance S x).
      change (balance (set_mem st m) x) with (balance st x). cbn. lia. }
  destruct (Z.ltb_spec (array_size o) n) as [Hlt|Hge].
  - set (ns := u32 (Z.max (i32 n) (i32 (u32 (array_size o * 3) / 2)))).
    assert (Hns : n <= ns).
    { unfold ns. rewrite (i32_id n) by lia.
      pose proof (u32_bound (array_size o * 3)) as Hb.
      assert (Hd : 0 <= u32 (array_size o * 3) / 2 < 2 ^ 31) by (Z.div_mod_to_equations; lia).
      rewrite i32_id by lia. rewrite u32_id by lia. lia. }
    destruct (js_realloc2 (mem st) ns) as [m [k|]] eqn:Em; cbn [bind].
    + destruct (js_realloc2_slack _ _ _ _ Em) as [Hk Hsum]. rewrite u32_id by lia. apply Hput. lia.
    + apply wp_ret. exists [RefValue val], A. split_and!; [by apply st_emit, st_mem|by left|].
      intros x. rewrite shape_balance_emit. change (balance (set_mem st m) x) with (balance st x). cbn. lia.
  - cbn [bind]. pose proof (Hput (mem st) (array_size o) Hge) as H.
    assert (set_mem st (mem st) = st) as E by by destruct st. by rewrite E in H.
Qed.

Lemma set_length_values ao v : a_values (a_set_length ao v) = a_values ao.
Proof. unfold a_set_length. by destruct (a_props ao) as [|[[]]]. Qed.
Lemma set_length_class ao v : a_class (a_set_length ao v) = a_class ao.
Proof. unfold a_set_length. by destruct (a_props ao) as [|[[]]]. Qed.
Lemma set_length_proto ao v : a_proto (a_set_length ao v) = a_proto ao.
Proof. unfold a_set_length. by destruct (a_props ao) as [|[[]]]. Qed.

Lemma fast_push_spec st A ex p ao val strict flags0 : st_rel st A ex -> a_objs A !! p = Some ao ->
  ao_wf ao -> a_class ao = GcObjects.JS_CLASS_ARRAY -> Z.of_nat (length (a_values ao)) + 1 < 2 ^ 26 ->
  wp (add_fast_array_element strict st p val flags0) (fun '(st', r) => exists A' rel, st_rel st' A' ex
    /\ push_rel strict A p ao val flags0 r A' rel
    /\ forall x, balance st' x = balance st x - count_item x rel).
Proof.
  intros Hst Hao Hwf Hc Hlen. destruct (aw_length _ Hwf Hc) as (fl & v & l & El & _).
  destruct (array_entry st A ex p ao fl _ l Hst Hao Hc El) as (o & s & pr & vs & Hp & Hs & Eao & Hpr & Efl & Evs & He).
  assert (Evals : values o = a_values ao) by by rewrite Eao.
  unfold add_fast_array_element. rewrite (get_obj_Some _ _ _ Hp). cbn [bind]. rewrite Evs, Evals.
  set (n := Z.of_nat (length (a_values ao)) + 1) in *.
  assert (Hu : u32 n = n) by (apply u32_id; unfold n; lia). rewrite Hu.
  assert (Hgrow : forall st1 ao1, st_rel st1 (set_aobj A p ao1) ex -> a_values ao1 = a_values ao ->
    (forall x, balance st1 x = balance st x) ->
    wp (store_element st1 p val n)
    (fun '(st', r) => exists A' rel, st_rel st' A' ex
      /\ ((r = -1 /\ A' = set_aobj A p ao1 /\ rel = [RefValue val])
          \/ (r = 1 /\ A' = set_aobj A p (a_set_values ao1 (a_values ao ++ [val])) /\ rel = []))
      /\ forall x, balance st' x = balance st x - count_item x rel)).
  { intros st1 ao1 Hst1 Ev1 Hb1.
    eapply wp_mono; [apply (store_spec st1 (set_aobj A p ao1) ex p ao1 val n Hst1)|].
    - cbn. by rewrite lookup_insert_eq.
    - by rewrite Ev1.
    - unfold n in *. lia.
    - intros [st2 r] (rel & A' & Hst2 & Hr & Hb2). exists A', rel. split_and!; [done| |intros x; by rewrite Hb2, Hb1].
      rewrite set_aobj_twice, Ev1 in Hr. exact Hr. }
  assert (Hsame : a_objs A !! p = Some ao -> set_aobj A p ao = A) by apply set_aobj_id.
  assert (Hplain : wp (store_element st p val n)
    (fun '(st', r) => exists A' rel, st_rel st' A' ex
      /\ ((r = -1 /\ A' = set_aobj A p ao /\ rel = [RefValue val])
          \/ (r = 1 /\ A' = set_aobj A p (a_set_values ao (a_values ao ++ [val])) /\ rel = []))
      /\ forall x, balance st' x = balance st x - count_item x rel)).
  { apply Hgrow; [by rewrite Hsame|done|done]. }
  assert (Hfin : forall ao1 Q, (forall A' rel r,
      ((r = -1 /\ A' = set_aobj A p ao1 /\ rel = [RefValue val])
          \/ (r = 1 /\ A' = set_aobj A p (a_set_values ao1 (a_values ao ++ [val])) /\ rel = [])) ->
      push_rel strict A p ao val flags0 r A' rel) ->
    wp Q (fun '(st', r) => exists A' rel, st_rel st' A' ex
      /\ ((r = -1 /\ A' = set_aobj A p ao1 /\ rel = [RefValue val])
          \/ (r = 1 /\ A' = set_aobj A p (a_set_values ao1 (a_values ao ++ [val])) /\ rel = []))
      /\ forall x, balance st' x = balance st x - count_item x rel) ->
    wp Q (fun '(st', r) => exists A' rel, st_rel st' A' ex
      /\ push_rel strict A p ao val flags0 r A' rel
      /\ forall x, balance st' x = balance st x - count_item x rel)).
  { intros ao1 Q HQ HwQ. eapply wp_mono; [exact HwQ|]. intros [st2 r] (A' & rel & ? & ? & ?).
    exists A', rel. split_and!; auto. }
  destruct v as [len| | | | | | | |]; cbn [bind negb];
    try (apply (Hfin ao); [intros A' rel r Hr; by exists fl; eexists; exists l; split; [exact El|]|exact Hplain]).
  destruct (Z.ltb_spec (u32 len) n) as [Hlt|Hge]; cbn [bind negb].
  2:{ apply (Hfin ao); [|exact Hplain]. intros A' rel r Hr. exists fl, (JS_INT len), l. split; [done|].
      cbv zeta. by rewrite (proj2 (Z.ltb_ge _ _)). }
  rewrite (get_shape_Some _ _ _ Hs). cbn [bind]. rewrite (rd_Some _ 0 pr) by (lia || done). cbn [bind]. rewrite Efl.
  destruct (Z.eqb_spec (Z.land fl JS_PROP_WRITABLE) 0) as [E|E]; cbn [bind negb].
  { apply wp_ret. exists A, [RefValue val]. split_and!; [by apply st_emit| |].
    - exists fl, (JS_INT len), l. split; [done|]. cbv zeta. rewrite (proj2 (Z.ltb_lt _ _)) by done.
      by rewrite (proj2 (Z.eqb_eq _ _)).
    - intros x. rewrite shape_balance_emit. cbn. lia. }
  apply wp_bind. apply wp_bind. eapply wp_mono; [by apply (write_length st A ex p ao fl (PropValue (JS_INT len)) l)|].
  intros st1 (Hst1 & Hb1 & _). apply wp_ret. cbn [negb].
  apply (Hfin (a_set_length ao (JS_NewInt32 n))).
  - intros A' rel r Hr. exists fl, (JS_INT len), l. split; [done|]. cbv zeta.
    rewrite (proj2 (Z.ltb_lt _ _)) by done. by rewrite (proj2 (Z.eqb_neq _ _)).
  - apply Hgrow; [done|apply set_length_values|done].
Qed.

(** ** The length of a fast array *)

Definition set_length_rel (strict : bool) (A : astate) (p : Z) (ao : aobject) (len flags0 r : Z)
    (A' : astate) (rel : list ref_item) : Prop :=
  exists fl v l, a_props ao = (JS_ATOM_length, fl, PropValue v) :: l /\
  if Z.land fl JS_PROP_WRITABLE =? 0 then r = throw_or_false strict flags0 /\ A' = A /\ rel = []
  else r = 1 /\ rel = RefValue <$> drop (Z.to_nat len) (a_values ao)
       /\ A' = set_aobj A p (a_set_length (a_set_values ao (take (Z.to_nat len) (a_values ao))) (JS_NewUint32 len)).

Lemma set_length_spec st A ex p ao len oor strict flags0 : st_rel st A ex -> a_objs A !! p = Some ao ->
  ao_wf ao -> a_class ao = GcObjects.JS_CLASS_ARRAY -> a_fast ao = true -> 0 <= len ->
  wp (set_array_length oor strict st p (0, len) flags0) (fun '(st', r) => exists A' rel, st_rel st' A' ex
    /\ set_length_rel strict A p ao len flags0 r A' rel
    /\ forall x, balance st' x = balance st x - count_item x rel).
Proof.
  intros Hst Hao Hwf Hc Hfast Hlen. destruct (aw_length _ Hwf Hc) as (fl & v & l & El & _).
  destruct (array_entry st A ex p ao fl _ l Hst Hao Hc El) as (o & s & pr & vs & Hp & Hs & Eao & Hpr & Efl & Evs & He).
  assert (Ef : fast_array o = true) by (by rewrite Eao in Hfast). assert (Evals : values o = a_values ao) by by rewrite Eao.
  unfold set_array_length. cbn [Z.eqb negb]. rewrite (get_obj_Some _ _ _ Hp). cbn [bind].
  rewrite (get_shape_Some _ _ _ Hs). cbn [bind]. rewrite (rd_Some _ 0 pr) by (lia || done). cbn [bind]. rewrite Efl.
  unfold set_length_rel. destruct (Z.eqb_spec (Z.land fl JS_PROP_WRITABLE) 0) as [E|E].
  { apply wp_ret. exists A, []. split_and!; [done| |intros x; cbn; lia].
    exists fl, v, l. split; [done|]. by rewrite (proj2 (Z.eqb_eq _ _)). }
  rewrite Ef, Evals. set (vals := take (Z.to_nat len) (a_values ao)). set (gone := drop (Z.to_nat len) (a_values ao)).
  set (ao1 := a_set_values ao vals).
  assert (Hmid : exists st1, (if len <? Z.of_nat (length (a_values ao)) then
      put_obj (emit st (Free ∘ RefValue <$> gone)) p (set_array o true vals (array_size o))
    else st) = st1 /\ st_rel st1 (set_aobj A p ao1) ex
    /\ forall x, balance st1 x = balance st x - count_item x (RefValue <$> gone)).
  { destruct (Z.ltb_spec len (Z.of_nat (length (a_values ao)))) as [Hlt|Hge]; eexists; (split; [reflexivity|]).
    - split.
      + assert (Eabs : ao1 = abs_obj (set_array o true vals (array_size o)) s).
        { unfold ao1. rewrite Eao. unfold abs_obj, a_set_values. cbn. by rewrite Ef. }
        rewrite Eabs. destruct (own_abs st A ex p o s Hst Hp Hs) as (_ & Hook & _).
        apply (st_put_obj _ A ex ex 0 p o _ s); try done. by apply st_emit.
      + intros x. cbv zeta. change (balance (put_obj ?S _ _) x) with (balance S x). rewrite shape_balance_emit.
        assert (Free ∘ RefValue <$> gone = Free <$> (RefValue <$> gone)) as -> by by rewrite list_fmap_compose.
        rewrite net_free. lia.
    - split.
      + assert (ao1 = ao) as ->; [|by rewrite set_aobj_id].
        unfold ao1, a_set_values, vals. rewrite take_ge by lia. by destruct ao.
      + intros x. unfold gone. rewrite drop_ge by lia. cbn. lia. }
  destruct Hmid as (st1 & -> & Hst1 & Hb1).
  apply wp_bind. eapply wp_mono.
  { apply (write_length st1 (set_aobj A p ao1) ex p ao1 fl (PropValue v) l (JS_NewUint32 len) Hst1); [|done|done].
    cbn. by rewrite lookup_insert_eq. }
  intros st2 (Hst2 & Hb2 & _). apply wp_ret. eexists _, (RefValue <$> gone). split_and!; [exact Hst2| |intros x; by rewrite Hb2].
  exists fl, v, l. split; [done|]. rewrite (proj2 (Z.eqb_neq _ _)) by done.
  split_and!; [done|done|]. by rewrite set_aobj_twice.
Qed.
End array.
