(* ===== verification/ShapeRefineSpec.v ===== *)
(** * Objects: the abstract machine and its implementation

    The machine has objects with a prototype, a sequence of properties in the
    order of their creation and, for arrays, elements.  The shapes, their
    sharing, their tables and their references are an implementation of it. *)

From stdpp Require Import base tactics numbers list option gmap.
From Stdlib Require Import ZArith Lia SpecFloat.
From S2P Require Import Prelude Values AtomsSpec Shapes Arrays ShapeTableSpec ShapeHashSpec ShapeLifeSpec ShapeMakeSpec ShapeRel ShapeOpSpec ShapeAddSpec ShapePropSpec ShapeDelSpec ShapeDeleteSpec ShapeNewSpec ShapeArraySpec.
From S2P Require Atoms GcObjects.

Open Scope Z_scope.

(** ** The operations *)

Inductive op :=
  | OGet (p a : Z)
  | ODefine (p a prop_flags : Z) (pr : JSProperty)
  | ODelete (p a : Z)
  | OFlags (p a new_flags : Z)
  | OSetProto (p proto : Z) (throw_flag : bool)
  | ONew (proto : Z) (c : GcObjects.JSClassID)
  | ONewArray
  | OPush (p : Z) (val : JSValue) (flags0 : Z)
  | OSetLength (p len flags0 : Z)
  | OConvert (p : Z)
  | OFree (p : Z).

(** The result of a call, and the property found. *)
Abbreviation result := (Z * option (Z * JSProperty))%type.

Section machine.
Context {se : ShapeEngine} (strict : bool) (oor : spec_float -> Z).

(** The property at an index that [find_own_property] gave: its flags and its
    value. *)
Definition read_property (st : shape_st) (p i : Z) : res (Z * JSProperty) :=
  let* o := get_obj st p in
  let* s := get_shape st (shape o) in
  let* pr := rd (sh_prop s) i in
  let* v := rd (prop o) i in
  Ret (flags pr, v).

Definition with_code (m : res (shape_st * Z)) : res (shape_st * result) :=
  let* x := m in Ret (x.1, (x.2, None)).

Definition run_op (st : shape_st) (c : op) : res (shape_st * result) :=
  match c with
  | OGet p a =>
      let* r := find_own_property st p a in
      match r with
      | Some i => let* x := read_property st p i in Ret (st, (1, Some x))
      | None => Ret (st, (0, None))
      end
  | ODefine p a fl pr => with_code (define_own st p a fl pr)
  | ODelete p a => with_code (delete_property 2 st p a)
  | OFlags p a fl =>
      let* r := find_own_property st p a in
      match r with
      | Some i => with_code (js_update_property_flags st p i fl)
      | None => Ub
      end
  | OSetProto p q t => with_code (JS_SetPrototypeInternal st p q t)
  | ONew q c => with_code (JS_NewObjectProtoClass st q c)
  | ONewArray => with_code (JS_NewArray st)
  | OPush p v fl => with_code (add_fast_array_element strict st p v fl)
  | OSetLength p len fl => with_code (set_array_length oor strict st p (0, len) fl)
  | OConvert p => with_code (convert_fast_array_to_array st p)
  | OFree p => let* st := free_object st p in Ret (st, (0, None))
  end.

(** ** The abstract machine *)

(** When an operation may be used. *)
Definition op_pre (A : astate) (c : op) : Prop :=
  match c with
  | OGet p a => a <> 0 /\ is_Some (a_objs A !! p)
  | ODefine p a fl pr => a <> 0 /\ 0 <= fl < 64 /\ typed (a, fl, pr) /\
      exists ao, a_objs A !! p = Some ao /\ (a ∉ keys (a_props ao))
        /\ (a_fast ao = true -> Atoms.__JS_AtomIsTaggedInt a = false)
  | ODelete p a => 0 < a < 2 ^ 32 /\ is_Some (a_objs A !! p)
  | OFlags p a fl => a <> 0 /\ 0 <= fl < 64 /\
      exists ao e, a_objs A !! p = Some ao /\ a_find (a_props ao) a = Some e
        /\ Z.land fl JS_PROP_TMASK = Z.land e.1.2 JS_PROP_TMASK
        /\ (a_class ao = GcObjects.JS_CLASS_ARRAY -> a = JS_ATOM_length ->
            Z.land fl JS_PROP_CONFIGURABLE = 0)
  | OSetProto p q _ => is_Some (a_objs A !! p) /\ proto_ends A q
  | ONew q c => proto_ends A q /\ c <> GcObjects.JS_CLASS_ARRAY
  | ONewArray => is_Some (a_array A)
  | OPush p _ _ => exists ao, a_objs A !! p = Some ao /\ a_class ao = GcObjects.JS_CLASS_ARRAY
  | OSetLength p len _ => 0 <= len < 2 ^ 32 /\
      exists ao, a_objs A !! p = Some ao /\ a_class ao = GcObjects.JS_CLASS_ARRAY /\ a_fast ao = true
  | OConvert p => exists ao, a_objs A !! p = Some ao /\ a_fast ao = true
  | OFree p => is_Some (a_objs A !! p) /\ unused A p
  end.

(** A step: the result, the new objects, the references that are released and
    those that are lost. *)
Definition a_step (A : astate) (c : op) (r : result) (A' : astate) (rel lost : list ref_item) : Prop :=
  let fresh ao := r.1 = 0 /\ A' = A \/ 0 < r.1 /\ a_objs A !! r.1 = None /\ A' = set_aobj A r.1 ao in
  let quiet := rel = [] /\ lost = [] in
  match c with
  | OGet p a => quiet /\ A' = A /\ exists ao, a_objs A !! p = Some ao
      /\ r = match a_find (a_props ao) a with
             | Some e => (1, Some (e.1.2, e.2))
             | None => (0, None)
             end
  | ODefine p a fl pr => quiet /\ exists ao, a_objs A !! p = Some ao
      /\ (r.1 = -1 /\ A' = A \/ r.1 = 1 /\ A' = set_aobj A p (a_push ao (a, fl, pr)))
  | ODelete p a => lost = [] /\ exists ao, a_objs A !! p = Some ao /\ a_delete A p a ao r.1 A' rel
  | OFlags p a fl => quiet /\ exists ao, a_objs A !! p = Some ao
      /\ (r.1 = -1 /\ A' = A
          \/ r.1 = 0 /\ A' = set_aobj A p (a_with ao (a_alter (a_props ao) a (fun e => (fl, e.2)))))
  | OSetProto p q t => rel = [] /\ exists ao, a_objs A !! p = Some ao /\ set_proto_spec A p q t ao r.1 A'
      /\ (lost = [] \/ lost = obj_ref q /\ r.1 = -1 /\ A' = A)
  | ONew q c => quiet /\ fresh (a_new c q [])
  | ONewArray => quiet /\ exists q, a_array A = Some q
      /\ fresh (a_new GcObjects.JS_CLASS_ARRAY q [(JS_ATOM_length, array_flags, PropValue (JS_NewInt32 0))])
  | OPush p v fl => lost = [] /\ exists ao, a_objs A !! p = Some ao /\ push_rel strict A p ao v fl r.1 A' rel
  | OSetLength p len fl => lost = [] /\ exists ao, a_objs A !! p = Some ao
      /\ set_length_rel strict A p ao len fl r.1 A' rel
  | OConvert p => quiet /\ exists ao, a_objs A !! p = Some ao
      /\ (r.1 = -1 /\ A' = A \/ r.1 = 0 /\ A' = set_aobj A p (a_converted ao))
  | OFree p => lost = [] /\ A' = mkAS (delete p (a_objs A)) (a_array A)
      /\ exists ao, a_objs A !! p = Some ao /\ rel = obj_refs ao
  end.

(** ** The machine keeps its invariant *)

Definition names_unique (A : astate) : Prop :=
  forall p ao, a_objs A !! p = Some ao -> NoDup (keys (a_props ao)).

Lemma del_entry_wf A p ao e r A' rel : wf A -> a_objs A !! p = Some ao -> NoDup (keys (a_props ao)) ->
  a_find (a_props ao) (key e) = Some e -> del_entry A p ao e r A' rel -> wf A'.
Proof.
  intros Hwf Hao Hnd Hf. unfold del_entry. destruct (Z.eqb_spec (Z.land e.1.2 JS_PROP_CONFIGURABLE) 0) as [E|E].
  - by intros (_ & -> & _).
  - intros [(_ & -> & _)|(_ & -> & _)]; [done|].
    eapply wf_set; [exact Hwf|exact Hao| |done]. apply remove_wf; try done. by apply (wf_obj _ Hwf p).
Qed.

Lemma a_delete_wf A p a ao r A' rel : wf A -> a_objs A !! p = Some ao -> NoDup (keys (a_props ao)) ->
  0 <= a < 2 ^ 32 -> ShapeEngineOk se -> Z.of_nat (length (a_values ao)) < 2 ^ 26 ->
  a_delete A p a ao r A' rel -> wf A'.
Proof.
  intros Hwf Hao Hnd Ha ok Hlen. pose proof (wf_obj _ Hwf p ao Hao) as Hw. unfold a_delete.
  destruct (a_find (a_props ao) a) as [e|] eqn:Hf.
  { apply del_entry_wf; try done. destruct (a_find_Some _ _ _ Hf) as [_ <-]. done. }
  destruct (a_exotic ao); [|by intros (_ & -> & _)].
  destruct (a_fast ao) eqn:Efast.
  2:{ destruct (if class_exotic (a_class ao) then _ else _); [by intros (-> & _)|by intros (_ & -> & _)]. }
  destruct (JS_AtomIsArrayIndex a) as [idx|] eqn:Ei; cbn [mbind option_bind]; [|by intros (_ & -> & _)].
  destruct (a_values ao !! Z.to_nat idx) as [v|] eqn:Hv; cbn [mbind option_bind]; [|by intros (_ & -> & _)].
  destruct (is_array_class (a_class ao)); [|by intros (_ & -> & _)].
  destruct (idx =? _).
  - intros (_ & -> & _). eapply wf_set; [exact Hwf|exact Hao|by apply set_values_wf|done].
  - intros [(_ & -> & _)|(A1 & -> & Hd)]; [done|].
    destruct (array_index_value a idx v (a_values ao) Ha Hlen Ei Hv) as (_ & Hidx & Ea).
    pose proof (proj2 (a_find_key _ _) Hf) as Hna.
    assert (Hfi : a_find (a_props (a_converted ao)) a = Some (a, JS_PROP_C_W_E, PropValue v)).
    { cbn [a_converted a_props]. rewrite a_find_app by done.
      pose proof (index_find 0 (a_values ao) (Z.to_nat idx) v Hv ltac:(lia) ltac:(lia)) as H.
      rewrite Z2Nat.id, Z.add_0_l in H by lia. by rewrite <- Ea in H. }
    assert (Hkeys : NoDup (keys (a_props (a_converted ao)))).
    { cbn [a_converted a_props]. rewrite keys_app. apply NoDup_app. split_and!; [done| |].
      - intros k Hk Hk2. destruct (index_keys _ _ _ Hk2) as (j & Hj & ->).
        pose proof (aw_fast _ Hw Efast _ Hk) as E. by rewrite from_tagged in E by lia.
      - assert (Hgen : forall vs i, 0 <= i -> i + Z.of_nat (length vs) <= 2 ^ 31 -> NoDup (keys (index_entries i vs))).
        { induction vs as [|w vs IH]; intros i Hi Hl; [apply NoDup_nil_2|]. cbn [length index_entries] in *.
          apply NoDup_cons. split; [|apply IH; lia]. intros Hin. destruct (index_keys _ _ _ Hin) as (j & Hj & E).
          change (key _) with (Atoms.__JS_AtomFromUInt32 i) in E. rewrite (from_u32 i), (from_u32 j) in E by lia. lia. }
        apply Hgen; lia. }
    eapply (del_entry_wf (set_aobj A p (a_converted ao)) p _ (a, JS_PROP_C_W_E, PropValue v));
      [|cbn; by rewrite lookup_insert_eq|exact Hkeys|exact Hfi|exact Hd].
    eapply wf_set; [exact Hwf|exact Hao|by apply converted_wf|done].
Qed.

(** ** The implementation *)

(** The bounds of the fields: the number of shapes is below that of the
    pointers, and the indexes of the properties fit in 26 bits. *)
Definition small (st : shape_st) : Prop :=
  Z.of_nat (size (shapes st)) < 2 ^ 28
  /\ forall p o s, objs st !! p = Some o -> shapes st !! shape o = Some s ->
       prop_count s + Z.of_nat (length (values o)) + 1 < 2 ^ 26.

Context {ok : ShapeEngineOk se}.

Abbreviation st_rel st A ex := (st_rel_out st A ex 0).

Lemma st_nodup st A ex p ao : st_rel st A ex -> a_objs A !! p = Some ao -> NoDup (keys (a_props ao)).
Proof.
  intros Hst Hao. destruct (st_aobj _ _ _ _ _ _ Hst Hao) as (o & s & Hp & Hs & Hook & ->).
  destruct (own_abs st A ex p o s Hst Hp Hs) as (_ & _ & Hok & _). by apply obj_nodup.
Qed.

Lemma small_values st A p ao : st_rel st A [] -> small st -> a_objs A !! p = Some ao ->
  Z.of_nat (length (a_values ao)) + 1 < 2 ^ 26.
Proof.
  intros Hst [_ Hs] Hao. destruct (st_aobj _ _ _ _ _ _ Hst Hao) as (o & s & Hp & Hs' & _ & ->).
  specialize (Hs p o s Hp Hs'). unfold prop_count in Hs. cbn. lia.
Qed.

(** What a call of the implementation gives. *)
Definition implements (st : shape_st) (A : astate) (c : op) (x : shape_st * result) : Prop :=
  exists A' rel lost, st_rel x.1 A' [] /\ wf A' /\ a_step A c x.2 A' rel lost
    /\ forall i, counted i -> balance x.1 i = balance st i - count_item i rel + count_item i lost.

Lemma with_code_wp m st A c : wp m (fun '(st', r) => implements st A c (st', (r, None))) ->
  wp (with_code m) (implements st A c).
Proof. unfold with_code. destruct m as [[st' r]| |]; done. Qed.

(** A call that releases nothing and loses nothing. *)
Lemma quiet_ok st st' A c r A' : st_rel st' A' [] -> wf A' -> (forall x, balance st' x = balance st x) ->
  a_step A c (r, None) A' [] [] -> implements st A c (st', (r, None)).
Proof.
  intros H1 H2 H3 H4. exists A', [], []. split_and!; try done. intros i _. cbn. rewrite H3. lia.
Qed.

Lemma created_ok st st' A c ao r : wf A -> created st st' A ao r -> ao_wf ao -> proto_ends A (a_proto ao) ->
  (forall A', (r = 0 /\ A' = A \/ 0 < r /\ a_objs A !! r = None /\ A' = set_aobj A r ao) ->
     a_step A c (r, None) A' [] []) ->
  implements st A c (st', (r, None)).
Proof.
  intros Hwf [Hb [[-> Hst']|(Hr & Hn & Hst')]] Hw Hp Hstep.
  - eapply quiet_ok; [exact Hst'|done|done|]. apply Hstep. by left.
  - eapply quiet_ok; [exact Hst'|by apply wf_new|done|]. apply Hstep. by right.
Qed.

Section ops.
Context (st : shape_st) (A : astate) (Hst : st_rel st A []) (Hwf : wf A) (Hsmall : small st).

Lemma get_ok p a : op_pre A (OGet p a) -> wp (run_op st (OGet p a)) (implements st A (OGet p a)).
Proof.
  intros (Ha & ao & Hao). cbn [run_op]. apply wp_bind.
  eapply wp_mono; [by apply (find_own_spec st A [] p a ao)|]. intros [z|] Hr.
  - destruct Hr as (i & -> & He).
    destruct (entry_find st A [] p i a ao Hst Ha Hao He) as (o & s & pr & v & Hp & Hs & Hpr & Epr & Hv & Hf).
    unfold read_property. rewrite (get_obj_Some _ _ _ Hp). cbn [bind]. rewrite (get_shape_Some _ _ _ Hs). cbn [bind].
    rewrite (rd_nat _ _ _ Hpr). cbn [bind]. rewrite (rd_nat _ _ _ Hv). cbn [bind]. apply wp_ret.
    exists A, [], []. split_and!; [done|done| |intros; cbn; lia].
    split; [done|]. split; [done|]. exists ao. split; [done|]. by rewrite Hf.
  - apply wp_ret. exists A, [], []. split_and!; [done|done| |intros; cbn; lia].
    split; [done|]. split; [done|]. exists ao. split; [done|]. by rewrite a_find_None.
Qed.

Lemma define_ok p a fl pr : op_pre A (ODefine p a fl pr) ->
  wp (run_op st (ODefine p a fl pr)) (implements st A (ODefine p a fl pr)).
Proof.
  intros (Ha & Hfl & Ht & ao & Hao & Hna & Hfast). apply with_code_wp.
  eapply wp_mono.
  { apply (define_own_spec st A [] p a fl pr ao Hst Hao Ha Hfl Hna).
    intros o s Hp Hs. pose proof (proj2 Hsmall p o s Hp Hs). lia. }
  intros [st' r] [Hb [[-> Hst']|[-> Hst']]].
  - eapply quiet_ok; [exact Hst'|done|done|]. split; [done|]. exists ao. split; [done|]. by left.
  - eapply quiet_ok; [exact Hst'| |done|].
    + eapply wf_set; [exact Hwf|exact Hao| |done]. apply push_wf; try done. by apply (wf_obj _ Hwf p).
    + split; [done|]. exists ao. split; [done|]. by right.
Qed.

Lemma delete_ok p a : op_pre A (ODelete p a) -> wp (run_op st (ODelete p a)) (implements st A (ODelete p a)).
Proof.
  intros (Ha & ao & Hao). apply with_code_wp. pose proof (small_values st A p ao Hst Hsmall Hao) as Hv.
  eapply wp_mono.
  { apply (delete_spec st A [] p a ao 0 Hst Hao (wf_obj _ Hwf p ao Hao) Ha).
    intros o s Hp Hs. pose proof (proj2 Hsmall p o s Hp Hs). lia. }
  intros [st' r] (A' & rel & Hst' & Hd & Hb). exists A', rel, []. split_and!.
  - done.
  - eapply a_delete_wf; [exact Hwf|exact Hao|exact (st_nodup st A [] p ao Hst Hao)| |exact ok| |exact Hd]; lia.
  - split; [done|]. by exists ao.
  - intros i Hi. cbn. rewrite Hb by done. lia.
Qed.

Lemma flags_ok p a fl : op_pre A (OFlags p a fl) -> wp (run_op st (OFlags p a fl)) (implements st A (OFlags p a fl)).
Proof.
  intros (Ha & Hfl & ao & e & Hao & Hf & Ht & Hlen). cbn [run_op]. apply wp_bind.
  eapply wp_mono; [by apply (find_own_spec st A [] p a ao)|]. intros [z|] Hr.
  2:{ by rewrite a_find_None in Hf. }
  destruct Hr as (i & -> & He). apply with_code_wp.
  eapply wp_mono; [by apply (update_flags_spec st A [] p i a ao fl)|].
  intros [st' r] [Hb [[-> Hst']|[-> Hst']]].
  - eapply quiet_ok; [exact Hst'|done|done|]. split; [done|]. exists ao. split; [done|]. by left.
  - eapply quiet_ok; [exact Hst'| |done|].
    + eapply wf_set; [exact Hwf|exact Hao| |done].
      apply (flags_wf ao a fl e); try done; [by apply (wf_obj _ Hwf p)|exact (st_nodup st A [] p ao Hst Hao)].
    + split; [done|]. exists ao. split; [done|]. by right.
Qed.

Lemma set_proto_ok p q t : op_pre A (OSetProto p q t) ->
  wp (run_op st (OSetProto p q t)) (implements st A (OSetProto p q t)).
Proof.
  intros ([ao Hao] & Hq). apply with_code_wp.
  eapply wp_mono; [by apply (JS_SetPrototypeInternal_spec st A [] p q t ao)|].
  intros [st' r] (A' & Hst' & Hspec & leak & Hleak & Hb).
  exists A', [], (if leak then obj_ref q else []). split_and!.
  - done.
  - destruct Hq as [l Hl]. unfold set_proto_spec in Hspec.
    destruct (a_proto ao =? q); [by destruct Hspec as [_ ->]|].
    destruct (negb (a_extensible ao)); [by destruct Hspec as [_ ->]|].
    specialize (Hspec l Hl). destruct (decide (p ∈ l)) as [|Hn]; [by destruct Hspec as [_ ->]|].
    destruct Hspec as [[_ ->]|[_ ->]]; [done|]. by eapply wf_set_proto.
  - split; [done|]. exists ao. split_and!; [done|done|]. destruct leak; [right|by left].
    destruct (Hleak eq_refl) as (? & ? & _). by split_and!.
  - intros i _. cbn [fst]. rewrite Hb. destruct leak; cbn; lia.
Qed.

Lemma new_ok q c : op_pre A (ONew q c) -> wp (run_op st (ONew q c)) (implements st A (ONew q c)).
Proof.
  intros (Hq & Hc). apply with_code_wp.
  eapply wp_mono; [by apply (new_object_spec st A q c Hst (proj1 Hsmall))|].
  intros [st' r] Hcr. eapply created_ok; [exact Hwf|exact Hcr|by apply new_wf|done|]. intros A' H. by split.
Qed.

Lemma new_array_ok : op_pre A ONewArray -> wp (run_op st ONewArray) (implements st A ONewArray).
Proof.
  intros [q Hq]. apply with_code_wp. eapply wp_mono; [by apply (new_array_spec st A q Hst)|].
  intros [st' r] Hcr. eapply created_ok; [exact Hwf|exact Hcr|apply new_array_wf|by apply (wf_array _ Hwf)|].
  intros A' H. split; [done|]. by exists q.
Qed.

Lemma push_ok' p v fl : op_pre A (OPush p v fl) -> wp (run_op st (OPush p v fl)) (implements st A (OPush p v fl)).
Proof.
  intros (ao & Hao & Hc). apply with_code_wp. pose proof (wf_obj _ Hwf p ao Hao) as Hw.
  eapply wp_mono.
  { apply (fast_push_spec st A [] p ao v strict fl Hst Hao Hw Hc). by eapply small_values. }
  intros [st' r] (A' & rel & Hst' & Hr & Hb). exists A', rel, []. split_and!.
  - done.
  - destruct Hr as (fl0 & w & l & El & Hr). cbv zeta in Hr.
    assert (Hgrow : forall ao1 P, ao_wf ao1 -> a_proto ao1 = a_proto ao ->
      (r = -1 /\ A' = set_aobj A p ao1 /\ P
       \/ r = 1 /\ A' = set_aobj A p (a_set_values ao1 (a_values ao ++ [v])) /\ rel = []) -> wf A').
    { intros ao1 P Hw1 Ep [(_ & -> & _)|(_ & -> & _)]; (eapply wf_set; [exact Hwf|exact Hao| |exact Ep]);
        [done|by apply set_values_wf]. }
    destruct w; try (by apply (Hgrow ao _ Hw eq_refl Hr)).
    destruct (_ <? _); [|by apply (Hgrow ao _ Hw eq_refl Hr)].
    destruct (_ =? _); [by destruct Hr as (_ & -> & _)|].
    eapply (Hgrow _ _ _ _ Hr). Unshelve.
    + by apply set_length_wf.
    + apply set_length_proto.
  - split; [done|]. by exists ao.
  - intros i _. cbn. rewrite Hb. lia.
Qed.

Lemma set_length_ok p len fl : op_pre A (OSetLength p len fl) ->
  wp (run_op st (OSetLength p len fl)) (implements st A (OSetLength p len fl)).
Proof.
  intros (Hl & ao & Hao & Hc & Hf). apply with_code_wp. pose proof (wf_obj _ Hwf p ao Hao) as Hw.
  eapply wp_mono; [apply (set_length_spec st A [] p ao len oor strict fl Hst Hao Hw Hc Hf); lia|].
  intros [st' r] (A' & rel & Hst' & Hr & Hb). exists A', rel, []. split_and!.
  - done.
  - destruct Hr as (fl0 & w & l & El & Hr). destruct (_ =? _); [by destruct Hr as (_ & -> & _)|].
    destruct Hr as (_ & _ & ->). eapply wf_set; [exact Hwf|exact Hao| |].
    + apply set_length_wf; [by apply set_values_wf|done].
    + by rewrite set_length_proto.
  - split; [done|]. by exists ao.
  - intros i _. cbn. rewrite Hb. lia.
Qed.

Lemma convert_ok p : op_pre A (OConvert p) -> wp (run_op st (OConvert p)) (implements st A (OConvert p)).
Proof.
  intros (ao & Hao & Hf). apply with_code_wp. pose proof (wf_obj _ Hwf p ao Hao) as Hw.
  destruct (st_aobj _ _ _ _ _ _ Hst Hao) as (o & s & Hp & Hs & Hook & ->).
  pose proof (proj2 Hsmall p o s Hp Hs) as Hc. unfold prop_count in Hc.
  eapply wp_mono.
  { apply (convert_spec st A [] p o s Hst Hp Hs); [unfold prop_count; lia|].
    intros j Hj Hin. pose proof (aw_fast _ Hw Hf _ Hin) as E. by rewrite from_tagged in E by lia. }
  intros [st' r] [Hb [[-> Hst']|[-> Hst']]].
  - eapply quiet_ok; [exact Hst'|done|done|]. split; [done|]. eexists. split; [done|]. by left.
  - eapply quiet_ok; [exact Hst'| |done|].
    + eapply wf_set; [exact Hwf|exact Hao|by apply converted_wf|done].
    + split; [done|]. eexists. split; [done|]. by right.
Qed.

Lemma free_ok p : op_pre A (OFree p) -> wp (run_op st (OFree p)) (implements st A (OFree p)).
Proof.
  intros ([ao Hao] & Hu). cbn [run_op]. apply wp_bind.
  eapply wp_mono; [by apply (free_object_spec st A p ao Hst Hao), (aw_typed _ (wf_obj _ Hwf p ao Hao))|].
  intros st' [Hst' Hb]. apply wp_ret. eexists _, (obj_refs ao), []. split_and!.
  - exact Hst'.
  - by apply wf_free.
  - split_and!; [done|done|]. by exists ao.
  - intros i Hi. cbn. rewrite Hb by done. lia.
Qed.
End ops.
End machine.

(** ** The start of a runtime and of a context *)

Definition empty_state {se : ShapeEngine} (m : smem) : shape_st := mkSt m 0 0 [] ∅ ∅ 0 [].
Definition empty_astate : astate := mkAS ∅ None.

Section start.
Context {se : ShapeEngine} {ok : ShapeEngineOk se}.

Definition start (st : shape_st) (array_proto : Z) : res (shape_st * Z) :=
  let* x := init_shape_hash st in
  let '(st, r) := x in
  if negb (r =? 0) then Ret (st, -1) else init_array_shape st array_proto.

Lemma empty_rel m : st_rel_out (mkSt m 4 0 (replicate 16 0) ∅ ∅ 0 []) empty_astate [] 0.
Proof.
  split; [split| | | |]; try done.
  - exists (replicate 16 []). eapply hash_frame; [apply (replicate_hash 4 16 ∅)| |done].
    intros a. split; [done|]. by intros [_ (s & Hs & _)].
  - intros a Ha. unfold users in Ha. cbn [objs array_shape count_in foldr] in Ha. rewrite msum_empty in Ha.
    unfold ind in Ha. repeat case_decide; try done; lia.
Qed.

Lemma empty_wf : wf empty_astate.
Proof. by split. Qed.

Lemma start_spec m : (forall m live, is_Some (js_malloc m live).2) ->
  (forall m n, (js_realloc_array m n).2 = true) ->
  wp (start (empty_state m) 0) (fun '(st, r) => r = 0
    /\ st_rel_out st (mkAS ∅ (Some 0)) [] 0 /\ wf (mkAS ∅ (Some 0))
    /\ forall i, balance st i = 0).
Proof.
  intros Hm Ha. unfold start, init_shape_hash. specialize (Ha (mem (empty_state m)) (Z.shiftl 1 4)).
  destruct (js_realloc_array _ _) as [m1 r]. cbn in Ha. subst r. cbn [bind Z.eqb negb].
  eapply wp_mono; [apply (init_array_spec _ empty_astate 0 (empty_rel m1)); try done|].
  intros [st r] (-> & Hst & Hb). split_and!; [done|done| |].
  - split; [done|done|]. intros q [= <-]. by exists [].
  - intros i. rewrite Hb. done.
Qed.
End start.
