(* ===== verification/ObjectsSpec.v ===== *)
(** * What the operations on objects do

    The theorems about objects, shapes and arrays, at their concrete inputs:
    an allocator that gives the addresses after the ones in use. *)

From stdpp Require Import base tactics numbers list option gmap.
From Stdlib Require Import ZArith Lia SpecFloat.
From S2P Require Import Prelude AtomsSpec Values Shapes Arrays ShapeTableSpec ShapeHashSpec ShapeLifeSpec ShapeMakeSpec ShapeRel ShapePropSpec ShapeDelSpec ShapeDeleteSpec ShapeNewSpec ShapeRefineSpec.
From S2P Require Atoms GcObjects.

Open Scope Z_scope.

(** ** A simple engine *)

Definition next_address (live : gset Z) : Z := Z.max 0 (foldr Z.max 0 (elements live)) + 1.

Lemma next_address_fresh live : (next_address live ∉ live) /\ 0 < next_address live.
Proof.
  unfold next_address. split; [|lia]. intros H. apply elem_of_elements in H.
  assert (Hle : forall l x, x ∈ l -> x <= foldr Z.max 0 l).
  { induction l as [|y l IH]; intros x Hx; [by apply elem_of_nil in Hx|]. cbn.
    apply elem_of_cons in Hx as [->|Hx]; [lia|]. specialize (IH x Hx). lia. }
  specialize (Hle _ _ H). lia.
Qed.

#[export] Instance next_engine : ShapeEngine := {|
  smem := unit;
  js_malloc _ live := (tt, Some (next_address live));
  js_realloc _ _ old := (tt, Some old);
  js_realloc_array _ _ := (tt, true);
  js_realloc2 _ n := (tt, if n <? 2 ^ 32 then Some 0 else None);
  class_exotic _ := false;
  string_array_index _ := None;
  new_index_atom _ _ := (tt, 0);
  em_delete_property _ := None
|}.

#[export] Instance next_engine_ok : ShapeEngineOk next_engine.
Proof.
  split; cbn.
  - intros m live m' a [= <- <-]. apply next_address_fresh.
  - intros m live old m' a Hold [= <- <-]. split; [by left|done].
  - intros m n m' k. destruct (Z.ltb_spec n (2 ^ 32)); [|done]. intros [= <- <-]. lia.
  - done.
Qed.

(** ** The refinement *)

Section correct.
Context {se : ShapeEngine} {ok : ShapeEngineOk se}.

(** The machine of objects that the code implements. *)
Definition step (strict : bool) (oor : spec_float -> Z) (st : shape_st) (c : op) : res (shape_st * result) :=
  run_op strict oor st c.

(** C1.  Every operation on objects (the search, creation, deletion and change
    of the flags of a property, the change of the prototype, the creation and
    the end of objects, the growth and the length of fast arrays, their
    conversion) ends, without an undefined behaviour, in a state that
    represents the one that the abstract machine of objects with sequences of
    properties gives, error results included: the sharing of shapes, their
    tables, moves and compactions are not seen.  The references that the
    shapes hold, released and taken, are accounted for: what the operation
    releases is what the machine says, and only a failure of the change of a
    prototype loses one. *)
Theorem shape_op_correct (strict : bool) (oor : spec_float -> Z) (st : shape_st) (A : astate) (c : op) :
  st_rel_out st A [] 0 -> wf A -> small st -> op_pre A c ->
  exists st' r A' rel lost, step strict oor st c = Ret (st', r)
    /\ st_rel_out st' A' [] 0 /\ wf A' /\ a_step strict A c r A' rel lost
    /\ forall i, counted i -> balance st' i = balance st i - count_item i rel + count_item i lost.
Proof.
  intros Hst Hwf Hs Hpre.
  assert (Hw : wp (run_op strict oor st c) (implements strict st A c)).
  { destruct c; [by apply get_ok|by apply define_ok|by apply delete_ok|by apply flags_ok|by apply set_proto_ok
      |by apply new_ok|by apply new_array_ok|by apply push_ok'|by apply set_length_ok|by apply convert_ok|by apply free_ok]. }
  unfold step. destruct (run_op strict oor st c) as [[st' r]| |]; [|done..].
  destruct Hw as (A' & rel & lost & H1 & H2 & H3 & H4). by exists st', r, A', rel, lost.
Qed.

(** The start of a runtime and of its first context. *)
Definition start_context (m : smem) : res (shape_st * Z) := start (empty_state m) 0.

(** C22.  With memory, the initialization of the table of shapes and of the
    shape of arrays gives a state that represents the machine without
    objects, and in which every reference is accounted for. *)
Theorem start_correct (m : smem) : (forall m live, is_Some (js_malloc m live).2) ->
  (forall m n, (js_realloc_array m n).2 = true) ->
  exists st, start_context m = Ret (st, 0) /\ st_rel_out st (mkAS ∅ (Some 0)) [] 0
    /\ wf (mkAS ∅ (Some 0)) /\ forall i, balance st i = 0.
Proof.
  intros Hm Ha. pose proof (start_spec m Hm Ha) as Hw. unfold start_context.
  destruct (start (empty_state m) 0) as [[st r]| |]; [|done..]. destruct Hw as (-> & H1 & H2 & H3). by exists st.
Qed.
End correct.

(** ** The length of slow arrays *)

Definition no_memory : @smem next_engine := tt.

Definition no_double (d : spec_float) : Z := 0.

Fixpoint define_indexes (st : shape_st) (p : Z) (l : list Z) : res shape_st :=
  match l with
  | [] => Ret st
  | i :: l =>
      let* x := define_own st p (Atoms.__JS_AtomFromUInt32 i) JS_PROP_C_W_E (PropValue (JS_NewInt32 i)) in
      define_indexes x.1 p l
  end.

(** An array with elements at 100, 200, ..., 2000 and the length 3000. *)
Definition sparse_array : res (shape_st * Z) :=
  let* x := start_context no_memory in
  let* x := JS_NewArray x.1 in
  let '(st, p) := x in
  let* x := convert_fast_array_to_array st p in
  let* st := define_indexes x.1 p ((fun k => 100 * Z.of_nat k) <$> seq 1 20) in
  let* x := set_array_length no_double false st p (0, 3000) 0 in
  Ret (x.1, p).

Definition array_length (st : shape_st) (p : Z) : res JSValue :=
  let* o := get_obj st p in length_value o.

(** The indexes of an array that is not fast. *)
Definition index_properties (st : shape_st) (p : Z) : res (list Z) :=
  let* o := get_obj st p in
  let* s := get_shape st (shape o) in
  Ret (omap JS_AtomIsArrayIndex (atom <$> sh_prop s)).


(** Two objects with the same properties share their shape until one of them
    changes. *)
Example shapes_shared :
  (let* x := start_context no_memory in
   let* x := JS_NewObjectProtoClass x.1 0 GcObjects.JS_CLASS_OBJECT in
   let '(st, p) := x in
   let* x := JS_NewObjectProtoClass st 0 GcObjects.JS_CLASS_OBJECT in
   let '(st, q) := x in
   let* x := define_own st p 60 JS_PROP_C_W_E (PropValue (JS_NewInt32 1)) in
   let* x := define_own x.1 p 61 JS_PROP_C_W_E (PropValue (JS_NewInt32 2)) in
   let* x := define_own x.1 q 60 JS_PROP_C_W_E (PropValue (JS_NewInt32 3)) in
   let* x := define_own x.1 q 61 JS_PROP_C_W_E (PropValue (JS_NewInt32 4)) in
   let* o := get_obj x.1 p in
   let* o' := get_obj x.1 q in
   let* y := delete_property 2 x.1 q 60 in
   let* o'' := get_obj y.1 q in
   Ret (shape o =? shape o', shape o =? shape o'')) = Ret (true, false).
Proof. vm_compute. done. Qed.

(** ** The concrete inputs *)

Lemma start_correct_witness : exists st, start_context no_memory = Ret (st, 0)
  /\ st_rel_out st (mkAS ∅ (Some 0)) [] 0 /\ wf (mkAS ∅ (Some 0)) /\ forall i, balance st i = 0.
Proof.
  apply (start_correct no_memory); [|reflexivity]. intros m live. exists (next_address live). reflexivity.
Defined.

Definition object_state : shape_st := mkSt no_memory 4 0 (replicate 16 0) ∅ ∅ 0 [].

(** A first object. *)
Lemma shape_op_correct_witness : exists st' r A' rel lost,
  step false no_double object_state (ONew 0 GcObjects.JS_CLASS_OBJECT) = Ret (st', r)
  /\ st_rel_out st' A' [] 0 /\ wf A'
  /\ a_step false empty_astate (ONew 0 GcObjects.JS_CLASS_OBJECT) r A' rel lost
  /\ forall i, counted i -> balance st' i = balance object_state i - count_item i rel + count_item i lost.
Proof.
  apply (shape_op_correct false no_double object_state empty_astate).
  - apply (empty_rel no_memory).
  - apply empty_wf.
  - split; [reflexivity|]. intros p o s H. change (objs object_state) with (∅ : gmap Z JSObject) in H. rewrite lookup_empty in H. discriminate H.
  - split; [|discriminate]. exists []. reflexivity.
Defined.
